(* ===== verification/_CoqProject ===== *)
-Q . S2P
Prelude.v
PageLock.v
IdServer.v
RwLock.v
MultiBuffer.v
ByteBuffer.v
EventMessage.v
Connection.v
ConnectionTable.v
MessageHandle.v
MessageSpec.v
WaitReceive.v
LockService.v
EvChain.v
Evbuffer.v
EvbufferSpace.v
EvbufferQueue.v
EvbufferMove.v
EvbufferSearch.v
EvbufferPullup.v
Tagging.v
RateLimit.v
RateLimitInv.v
MinHeap.v
EventBase.v
EventBaseInv.v
EventBaseOps.v
EventBaseKept.v
EventBaseAdd.v
EventBaseAct.v
EventTimers.v
EventLoop.v
EventCheck.v
EventLoopInv.v
EventApi.v
EventSpec.v
Indexed.v
Changelist.v
EpollTable.v
Backend.v
Epoll.v
Dispatch.v
EpollDispatch.v
EpollSpec.v
Poll.v
Select.v
Ctype.v
HttpText.v
Inet.v
InetSpec.v
UriParse.v
UriSpec.v
UriGrammar.v
HttpHost.v
HttpLines.v
HttpLineSpec.v
HttpMessage.v
HttpMessageSpec.v
HttpChunk.v
DnsWire.v
DnsSpec.v
DnsNames.v
