(* ===== verification/Prelude.v ===== *)
(** * MTC: a verification of the lock table, the id service and the network layer

    MTC is a prototype of a multi-master database cluster.  Its own code is
    a centralized page-lock server, a sequence-number server, and the network
    layer both are built on; the network layer sits on the copy of libevent
    in the repository, which also brings an HTTP library and a DNS resolver.  The files here model
    that code and prove what makes each part correct.  Sources are relative to
    [src/components].

    ** How the parts interact

    A database node asks the lock server for a page ([PageLock]).  Requests
    travel as event messages ([EventMessage]) in length-prefixed frames over a
    connection ([Connection]), each guarded by a spinning read/write signal
    ([RwLock]); packets are assembled in [MultiBuffer]s.  A connection's input
    and output are libevent evbuffers ([EvChain] and the [Evbuffer] files),
    which the network layer only sees through the [ByteBuffer] interface; the
    evbuffer discharges that interface in [EvbufferQueue].  The connections of
    a process form a table ([ConnectionTable]); messages are dispatched by
    their type to the handlers of a group ([MessageHandle]), or a thread waits
    for them ([WaitReceive]); [LockService] puts client, network and lock table
    together.  [Tagging] and [RateLimit] are libevent services over evbuffers
    and bufferevents.

    All of it is driven by libevent's event base ([MinHeap] for its timers and
    the [Event] files): the network layer waits in [event_base_loop] for its
    connections.  The base asks a backend for readiness: [Epoll] directly or
    through the [Changelist], [Poll] or [Select], behind the class [Backend].
    Sequence numbers come from the id server ([IdServer]).

    The HTTP library reads lines from an evbuffer, behind the class
    [LineBuffer] ([HttpLines]), and messages from lines ([HttpMessage],
    [HttpChunk]); a request names a URI ([UriParse]) with an address ([Inet])
    and a query ([HttpText]) and selects a server ([HttpHost]).
    The DNS resolver and the DNS server share the messages of [DnsWire].

    ** Files

    - [Prelude]: machine integers, [outcome] (a result or undefined
      behaviour), the list, option and byte lemmas, tactics and hints.
    - [PageLock]: [centralized-lock-table/include/lock_common.h] and
      [server/remote_page_lock_manager.cc]: the compatibility matrix, the
      table and [check_lock_request].
    - [IdServer]: [id-increment/server.cpp], the handler and its threads.
    - [RwLock]: [rw_r_lock], [rw_w_lock] and the unlocks of
      [multi_net_io/src/libevent_handle.cc].
    - [MultiBuffer]: [DynamicBuffer] and [FixedBuffer] of
      [multi_net_io/src/multi_buffer.cc].
    - [ByteBuffer]: the interface class of a byte queue.
    - [EventMessage]: the message layout of
      [multi_net_io/src/event_mess_handle.cc].
    - [Connection]: framing, sending and receiving in
      [multi_net_io/src/libevent_handle.cc].
    - [ConnectionTable]: the table of connections, sending and receiving by
      connection, the callbacks, in [libevent_handle.cc]; [WaitReceive]: its
      receive functions that sleep.
    - [MessageHandle]: hosts, groups, handlers and the dispatch of
      [multi_net_io/src/event_mess_handle.cc]; [MessageSpec]: its theorems.
    - [LockService]: [lock_request_callback] of the lock server and the client
      of [centralized-lock-table/client], end to end.
    - [EvChain], [Evbuffer], [EvbufferSpace], [EvbufferMove],
      [EvbufferSearch], [EvbufferPullup]: [multi_net_io/libevent/buffer.c]:
      chains and memory; add, prepend, drain, remove, copyout; growth and
      socket I/O; moving chains between buffers; searching and lines; making
      the front contiguous.
    - [EvbufferQueue]: the contract of a buffer as a queue of bytes, and two
      buffers joined by a wire.
    - [Tagging]: [multi_net_io/libevent/event_tagging.c].
    - [RateLimit], [RateLimitInv]: [libevent/bufferevent_ratelim.c] and the
      suspensions of [libevent/bufferevent.c].
    - [MinHeap]: [libevent/minheap-internal.h], and the abstract priority queue
      it refines.
    - [EventBase]: [libevent/event.c] and [libevent/evmap.c]: events, maps,
      queues, timers, [event_add], [event_del], activation, finalizers.
    - [EventLoop]: the rest of the core of [libevent/event.c]: creating a base,
      closures, [event_process_active], [event_base_loop], and the library's
      own check [event_base_assert_ok_nolock_].
    - [EventBaseInv], [EventBaseOps], [EventBaseKept], [EventBaseAdd],
      [EventBaseAct], [EventTimers], [EventCheck], [EventLoopInv]: the
      invariant of a base and that each operation keeps it, a file for the
      definitions of the invariant, queues and deletion, what an operation
      leaves alone, adding, activation, timers, the check and the loop.
    - [EventApi]: sequences of calls by a program, and what is reachable;
      [EventSpec]: what single operations promise.
    - [Backend]: what a base asks of a backend ([struct eventop]), as a class
      with its laws; [Indexed]: arrays with a reverse index, which two
      backends keep; [Dispatch]: reporting to the base.
    - [Changelist]: [libevent/changelist-internal.h] and its part of
      [libevent/evmap.c].  [EpollTable]: [libevent/epolltable-internal.h].
      [Epoll], [EpollDispatch]: [libevent/epoll.c]; [EpollSpec]: its theorems.
    - [Poll]: [libevent/poll.c].  [Select]: [libevent/select.c].
    - [Ctype]: the character tables of [libevent/evutil.c] and
      [libevent/http.c] and the C library's string functions; [Inet]: the
      address functions of [libevent/evutil.c]; [InetSpec]: their theorems.
    - [HttpText], [UriParse], [HttpHost], [HttpMessage], [HttpChunk]:
      [libevent/http.c]: escaping and queries; URIs; virtual hosts; the heads
      of messages; bodies.  [HttpLines]: the interface to a buffer of lines.
      [UriSpec], [HttpLineSpec], [HttpMessageSpec]: their theorems;
      [UriGrammar]: the grammar of RFC 3986 and that the parser keeps to it.
    - [DnsWire]: the messages of [libevent/evdns.c]: names, replies, requests,
      responses.  [DnsSpec]: every packet is read within its bounds; [DnsNames]:
      names that are written are read back.

    ** State, errors and integers

    A struct is a [Record] with the source's field names; a C integer is a
    [Z], with the conversion of its type written out ([u32], [u64], [i32], ...)
    where the code can leave its range.  A failed assertion, an access outside
    an object, a [NULL] dereference or a signed overflow is [Crash].  Error
    returns are the values the code returns.  Allocation and system calls are
    explicit inputs: the evbuffer monad [M] threads the supply of addresses
    and the decisions of [malloc], one for each allocation; [evbuffer_read]
    takes what the system call delivers; rate limiting takes the clock, timers and contended locks from
    an environment.  An event base is a record that holds its events by
    address; its clock, its backend's answers and the outcome of each of its
    allocations, named by the place in the code that makes it ([alloc_site]),
    come from an environment [env], its callbacks and [evsel->dispatch] are parameters, and
    the kernel's view of the registrations is a field of its own.  The kernel
    of a backend is a parameter too: [EpollKernel] with the laws that
    epoll_ctl(2) documents, and for poll(2), select(2) and epoll_wait(2) a
    function that gives the result.  The network layer keeps the
    length of a queue in an [int]: [int_length] wraps, and its theorems ask for
    queues of at most [INT_MAX] bytes.  HTTP strings are lists of bytes without the
    NUL; arrays whose bounds matter (the eight words of an address) are
    lists of optional values, unset ones [None].

    ** What the theorems show

    - Lock table: a refinement of an abstract exclusive lock for write-only
      clients, the exact decision of every request, and where the code departs
      from a lock (unlock with remaining holders, forgotten waiters, versions).
    - Id server: uniqueness under any interleaving; consecutive numbers.
    - Network layer: the receive loop delivers exactly the complete frames
      whatever the cuts of the stream (bodies of four bytes and less, and queues
      of 2 GB, are not received); message round trip; the signal excludes
      readers from writers when its operations are atomic, and does not when
      they interleave; messages of a type wait in the order of arrival and a
      waiting thread gets its packet.
    - Lock service: a client's request is answered with the decision of the
      lock table, and the server answers the requests of a connection in order.
    - Evbuffers: every operation refines its effect on the plain byte
      sequence, keeps the chain invariant, and stays inside memory; any
      sequence of operations behaves as a list, and no more of its calls fail
      than allocations were refused ([refusals], with the hints [calm] for
      operations that refuse nothing); bytes cross a wire unchanged;
      lines and searches agree with a search on the sequence.
    - Tagged data: round trips of integers and of whole record sequences.
    - Rate limiting: an invariant of buckets, suspensions, timers and groups
      over all operations; released when refilled; the overflow-free update
      equals the naive one.
    - Timer heap: any sequence of calls answers as an abstract priority queue.
    - Event base: from [event_base_new_with_config], any sequence of valid
      calls and loop runs, with callbacks that make calls themselves, never
      fails an assertion or follows a bad pointer and always passes the
      library's own check, as long as the backend accepts deletions and the timer
      heap gets its memory (other failures are covered); [event_add] is all or nothing, [event_del] leaves
      nothing, expired timers and readiness reports reach exactly the events
      concerned, the backend is told exactly what is waited for, the loop gives
      up only when idle; and where a valid use goes wrong (a dangling call
      counter, a timer lost without memory, and others).
    - Backends: each keeps the sets it was asked for (the kernel's
      registrations, the array of poll, the bit sets of select), also when
      allocations fail; the table of epoll operations is the one its comment
      prescribes (with its -1 stored as 255); the changelist has the effect of the direct calls; a dispatch
      reports to exactly the events concerned and its timeout stays in range.
    - Addresses: what is printed is read back, for every address; the parser
      stays inside its words for every text.
    - URIs: a URI that the parser returns is made by the productions of RFC
      3986, its text being the recomposition of its parts, and joining one and
      parsing it again gives the same; encoding and queries round trip; a
      virtual-host pattern of stars and plain characters matches as the shell
      does unless it ends with a star, and the other shell patterns do not.
    - DNS: names written with compression are read back; readers stay inside the
      packet for all bytes.
    - HTTP: a head read from an evbuffer is the head read from its bytes, in
      whatever pieces they come; written heads and chunked bodies are read back;
      and what the library accepts that it should not.

    ** Fuel

    Loops over lists are structural.  Fuelled loops have a bound that the code
    itself gives, and the theorems are about the result, not conditional on
    one: a receive loop has as much fuel as bytes (each frame has a header), a
    search as many steps as positions, the tag encoder five groups of seven
    bits for 32 bits, the nibble encoder sixteen for 64 bits, a heap sift one
    step per element, [timeout_process] one turn per timer, the parsers of
    addresses, heads and chunks one step per byte, the doubling of select's
    sets [SELECT_FUEL] = 32 steps for descriptors below [MAX_FD] = 2^28.  The event loop
    itself and a queue of active events may run for ever, since callbacks can
    activate events: they take fuel from the caller, running out is a value of
    its own, and the safety theorem holds for every amount.

    ** Not modelled

    Generated protobuf code ([id.pb.*]), the bundled spdlog and rapidjson, and
    the Percona scripts are not part of the program's logic.  Of libevent: the
    backends of other systems (kqueue, devpoll, evport, win32, iocp), and of
    epoll the system calls that create it and its precise timer; signal
    handlers and their socket pair; OpenSSL, bufferevents except for their rate
    limits, and listeners; of the DNS resolver all but its messages (name servers,
    retries, searches); RPC over HTTP; of HTTP the
    connections with their queues, retries and callbacks, the set-up of servers
    and the error replies, all of which act on bufferevents.  The random start
    of [poll_dispatch] is a parameter.

    The event base is modelled as seen by the thread that holds its lock:
    waking another thread, waiting for its callbacks, giving memory back and
    the signal socket are left out, and the safety theorem admits one pending
    delivery of a signal at a time, since more are unsafe.  Files, [sendfile]
    and [mmap] segments of evbuffers, deferred callbacks and locking debug code
    depend on the operating system or on callbacks supplied by a user.  The
    allocations of the HTTP parsers are taken to succeed. *)

From stdpp Require Export base list list_numbers gmap strings pretty sets relations.
From Stdlib Require Export ZArith Lia.
From Stdlib Require Export Init.Byte.
From Stdlib Require Strings.Byte.

Open Scope Z_scope.

(** ** Machine integers

    A [w]-bit C integer is a [Z]; the conversions the C code performs
    implicitly on assignment and on unsigned arithmetic are written out. *)

Definition u8 (z : Z) : Z := z mod 2 ^ 8.
Definition u16 (z : Z) : Z := z mod 2 ^ 16.
Definition u32 (z : Z) : Z := z mod 2 ^ 32.
Definition u64 (z : Z) : Z := z mod 2 ^ 64.

(** Two's complement reading of the low 32 (64) bits: conversion to [int]
    ([long long]) as every supported compiler implements it. *)
Definition i16 (z : Z) : Z := (z + 2 ^ 15) mod 2 ^ 16 - 2 ^ 15.
Definition i32 (z : Z) : Z := (z + 2 ^ 31) mod 2 ^ 32 - 2 ^ 31.
Definition i64 (z : Z) : Z := (z + 2 ^ 63) mod 2 ^ 64 - 2 ^ 63.

Definition UINT32_MAX : Z := 2 ^ 32 - 1.
Definition EV_SIZE_MAX : Z := 2 ^ 64 - 1.
Definition EV_SSIZE_MAX : Z := 2 ^ 63 - 1.
Definition INT_MAX : Z := 2 ^ 31 - 1.
Definition INT64_MAX : Z := 2 ^ 63 - 1.

(** Truth value of a C expression [x & m]. *)
Definition has (x m : Z) : bool := negb (Z.land x m =? 0).

(** ** Outcomes: a C computation ends normally or is undefined

    [Crash] covers a failed [EVUTIL_ASSERT], an access outside an allocated
    object and a dereference of [NULL]: the statements that rule it out are
    memory-safety statements. *)

Inductive outcome (A : Type) : Type :=
| Done (a : A)
| Crash.
Arguments Done {A} a.
Arguments Crash {A}.

#[export] Instance outcome_ret : MRet outcome := fun A a => Done a.
#[export] Instance outcome_bind : MBind outcome :=
  fun A B f o => match o with Done a => f a | Crash => Crash end.
#[export] Instance outcome_fmap : FMap outcome :=
  fun A B f o => match o with Done a => Done (f a) | Crash => Crash end.

(** [EVUTIL_ASSERT(b)] *)
Definition assert_c (b : bool) : outcome unit := if b then Done tt else Crash.

(** Dereference of a pointer that may be [NULL]. *)
Definition deref {A} (o : option A) : outcome A :=
  match o with Some a => Done a | None => Crash end.

(** The computation ends normally with a result that satisfies [Q]. *)
Definition returns {A} (m : outcome A) (Q : A -> Prop) : Prop := exists a, m = Done a /\ Q a.

Lemma returns_done {A} (a : A) (Q : A -> Prop) : Q a -> returns (Done a) Q.
Proof. intros HQ. by exists a. Qed.

Lemma returns_bind {A B} (m : outcome A) (f : A -> outcome B) (P : A -> Prop) (Q : B -> Prop) :
  returns m P -> (forall a, P a -> returns (f a) Q) -> returns (m ≫= f) Q.
Proof. intros (a & -> & HP) Hf. simpl. auto. Qed.

Lemma returns_mono {A} (m : outcome A) (P Q : A -> Prop) :
  returns m P -> (forall a, P a -> Q a) -> returns m Q.
Proof. intros (a & -> & HP) HQ. exists a. auto. Qed.

Definition done_val {A} (o : outcome A) : option A :=
  match o with Done a => Some a | Crash => None end.

(** ** Bytes *)

Definition byteZ (b : byte) : Z := Z.of_N (Byte.to_N b).
Definition Zbyte (z : Z) : byte :=
  match Byte.of_N (Z.to_N (u8 z)) with Some b => b | None => x00 end.

#[export] Instance byte_eq_dec : EqDecision byte := Byte.byte_eq_dec.

(** [n]-byte little-endian (host order of x86-64) and big-endian (network
    order) encodings. *)
Fixpoint le_bytes (n : nat) (z : Z) : list byte :=
  match n with O => [] | S n => Zbyte z :: le_bytes n (z / 256) end.
Fixpoint le_value (l : list byte) : Z :=
  match l with [] => 0 | b :: l => byteZ b + 256 * le_value l end.

(** ** Byte arrays with [size_t] offsets *)

Definition zlen {A} (l : list A) : Z := Z.of_nat (length l).
Definition ztake {A} (n : Z) (l : list A) : list A := take (Z.to_nat n) l.
Definition zdrop {A} (n : Z) (l : list A) : list A := drop (Z.to_nat n) l.
Definition zsub {A} (off n : Z) (l : list A) : list A := ztake n (zdrop off l).

(** [memcpy(mem + off, src, zlen src)]; undefined outside [mem]. *)
Definition memwrite {A} (off : Z) (src mem : list A) : outcome (list A) :=
  if (0 <=? off) && (off + zlen src <=? zlen mem)
  then Done (ztake off mem ++ src ++ zdrop (off + zlen src) mem)
  else Crash.

(** [memcpy(dst, mem + off, n)]; undefined outside [mem]. *)
Definition memread {A} (off n : Z) (mem : list A) : outcome (list A) :=
  if (0 <=? off) && (0 <=? n) && (off + n <=? zlen mem)
  then Done (zsub off n mem) else Crash.

(** The bytes of a C string: up to the first NUL. *)
Fixpoint cstr (l : list byte) : list byte :=
  match l with
  | [] => []
  | b :: l => if decide (b = x00) then [] else b :: cstr l
  end.

(** ** Automation *)

Create HintDb mtc.

Ltac zb :=
  repeat match goal with
  | H : (_ && _)%bool = true |- _ => apply andb_true_iff in H; destruct H
  | H : (_ && _)%bool = false |- _ => apply andb_false_iff in H
  | H : (_ || _)%bool = true |- _ => apply orb_true_iff in H
  | H : (_ || _)%bool = false |- _ => apply orb_false_iff in H; destruct H
  | H : negb _ = true |- _ => apply negb_true_iff in H
  | H : negb _ = false |- _ => apply negb_false_iff in H
  | H : (_ <=? _) = true |- _ => apply Z.leb_le in H
  | H : (_ <=? _) = false |- _ => apply Z.leb_gt in H
  | H : (_ <? _) = true |- _ => apply Z.ltb_lt in H
  | H : (_ <? _) = false |- _ => apply Z.ltb_ge in H
  | H : (_ =? _) = true |- _ => apply Z.eqb_eq in H
  | H : (_ =? _) = false |- _ => apply Z.eqb_neq in H
  | H : (_ >? _) = _ |- _ => rewrite Z.gtb_ltb in H
  | H : (_ >=? _) = _ |- _ => rewrite Z.geb_leb in H
  end.

(** Case analysis on the innermost test of a [match]/[if] of the goal. *)
Ltac case_test :=
  match goal with
  | |- context [if ?b then _ else _] =>
      lazymatch b with
      | context [if _ then _ else _] => fail
      | context [match _ with _ => _ end] => fail
      | _ => let E := fresh "E" in destruct b eqn:E
      end
  end.

Ltac case_test_in H :=
  match type of H with
  | context [if ?b then _ else _] =>
      lazymatch b with
      | context [if _ then _ else _] => fail
      | context [match _ with _ => _ end] => fail
      | _ => let E := fresh "E" in destruct b eqn:E
      end
  end.

(** ** Lemmas *)

Lemma u32_range z : 0 <= u32 z < 2 ^ 32.
Proof. apply Z.mod_pos_bound. lia. Qed.
Lemma u64_range z : 0 <= u64 z < 2 ^ 64.
Proof. apply Z.mod_pos_bound. lia. Qed.
Lemma u32_small z : 0 <= z < 2 ^ 32 -> u32 z = z.
Proof. apply Z.mod_small. Qed.
Lemma u64_small z : 0 <= z < 2 ^ 64 -> u64 z = z.
Proof. apply Z.mod_small. Qed.
Lemma i32_small z : - 2 ^ 31 <= z < 2 ^ 31 -> i32 z = z.
Proof. intros ?. unfold i32. rewrite Z.mod_small; lia. Qed.
Lemma i64_small z : - 2 ^ 63 <= z < 2 ^ 63 -> i64 z = z.
Proof. intros ?. unfold i64. rewrite Z.mod_small; lia. Qed.

(** Flags: a mask tested against a union, a removed mask and a single bit. *)

Lemma has_bit x n : 0 <= n -> has x (2 ^ n) = Z.testbit x n.
Proof.
  intros Hn. unfold has. rewrite <- Z.land_comm. destruct (Z.testbit x n) eqn:E.
  - apply negb_true_iff, Z.eqb_neq. intros H. apply (f_equal (fun z => Z.testbit z n)) in H.
    rewrite Z.land_spec, E, Z.pow2_bits_true, Z.bits_0 in H; done.
  - apply negb_false_iff, Z.eqb_eq. apply Z.bits_inj'. intros m Hm. rewrite Z.land_spec, Z.bits_0.
    destruct (decide (n = m)) as [<-|]; [by rewrite E, andb_false_r|]. by rewrite Z.pow2_bits_false.
Qed.

Lemma has_lor_l x y m : has (Z.lor x y) m = has x m || has y m.
Proof.
  unfold has. rewrite Z.land_lor_distr_l.
  destruct (Z.land x m =? 0) eqn:E1, (Z.land y m =? 0) eqn:E2; zb; simpl;
    (apply negb_true_iff, Z.eqb_neq || apply negb_false_iff, Z.eqb_eq); rewrite Z.lor_eq_0_iff; lia.
Qed.

Lemma has_lor_r x m k : has x (Z.lor m k) = has x m || has x k.
Proof. unfold has. rewrite !(Z.land_comm x). apply has_lor_l. Qed.

Lemma has_clear x m n : 0 <= n -> has (Z.land x (Z.lnot m)) (2 ^ n) = has x (2 ^ n) && negb (has m (2 ^ n)).
Proof. intros Hn. by rewrite !has_bit, Z.land_spec, Z.lnot_spec. Qed.

Lemma byteZ_range b : 0 <= byteZ b < 256.
Proof. unfold byteZ. pose proof (Byte.to_N_bounded b). lia. Qed.

Lemma byteZ_Zbyte z : byteZ (Zbyte z) = u8 z.
Proof.
  unfold Zbyte. pose proof (Z.mod_pos_bound z (2 ^ 8) eq_refl) as Hr.
  fold (u8 z) in Hr.
  destruct (Byte.of_N (Z.to_N (u8 z))) as [b|] eqn:E.
  - apply Byte.to_of_N in E. unfold byteZ. rewrite E. lia.
  - apply Byte.of_N_None_iff in E. lia.
Qed.

Lemma byteZ_inj b c : byteZ b = byteZ c -> b = c.
Proof.
  unfold byteZ. intros H%N2Z.inj.
  pose proof (Byte.of_to_N b) as E1. pose proof (Byte.of_to_N c) as E2.
  rewrite H in E1. congruence.
Qed.

Lemma Zbyte_byteZ b : Zbyte (byteZ b) = b.
Proof.
  apply byteZ_inj. rewrite byteZ_Zbyte. unfold u8.
  apply Z.mod_small, byteZ_range.
Qed.

Lemma le_bytes_length n z : length (le_bytes n z) = n.
Proof. revert z. induction n; intros; simpl; auto. Qed.

Lemma le_value_bytes n z : le_value (le_bytes n z) = z mod 256 ^ Z.of_nat n.
Proof.
  revert z. induction n as [|n IH]; intros z; cbn [le_bytes le_value].
  - change (256 ^ Z.of_nat 0) with 1. by rewrite Z.mod_1_r.
  - rewrite byteZ_Zbyte, IH. unfold u8. change (2 ^ 8) with 256.
    replace (256 ^ Z.of_nat (S n)) with (256 * 256 ^ Z.of_nat n).
    + rewrite Z.rem_mul_r; lia.
    + rewrite Nat2Z.inj_succ, Z.pow_succ_r; lia.
Qed.

Lemma le_bytes_value l : le_bytes (length l) (le_value l) = l.
Proof.
  induction l as [|b l IH]; [done|]. cbn [length le_value le_bytes].
  pose proof (byteZ_range b). f_equal.
  - apply byteZ_inj. rewrite byteZ_Zbyte. unfold u8. change (2 ^ 8) with 256.
    rewrite Z.mul_comm, Z.mod_add by lia. apply Z.mod_small; lia.
  - rewrite Z.mul_comm, Z.div_add, Z.div_small by lia. exact IH.
Qed.

Section zlists.
Context {A : Type}.
Implicit Types l k : list A.

Lemma zlen_nonneg l : 0 <= zlen l.
Proof. unfold zlen. lia. Qed.
Lemma zlen_app l k : zlen (l ++ k) = zlen l + zlen k.
Proof. unfold zlen. rewrite length_app. lia. Qed.
Lemma zlen_nil : zlen ([] : list A) = 0.
Proof. done. Qed.
Lemma zlen_cons x l : zlen (x :: l) = 1 + zlen l.
Proof. unfold zlen. cbn [length]. lia. Qed.
Lemma zlen_replicate n (x : A) : zlen (replicate n x) = Z.of_nat n.
Proof. unfold zlen. by rewrite length_replicate. Qed.
Lemma zlen_0_nil l : zlen l = 0 -> l = [].
Proof. unfold zlen. destruct l; simpl; [done|lia]. Qed.
Lemma zlen_ztake n l : zlen (ztake n l) = Z.max 0 (Z.min n (zlen l)).
Proof. unfold zlen, ztake. rewrite length_take. lia. Qed.
Lemma zlen_zdrop n l : zlen (zdrop n l) = Z.max 0 (zlen l - Z.max 0 n).
Proof. unfold zlen, zdrop. rewrite length_drop. lia. Qed.
Lemma zlen_zsub off n l :
  0 <= off -> 0 <= n -> off + n <= zlen l -> zlen (zsub off n l) = n.
Proof. intros. unfold zsub. rewrite zlen_ztake, zlen_zdrop. lia. Qed.
Lemma ztake_zdrop n l : ztake n l ++ zdrop n l = l.
Proof. apply take_drop. Qed.
Lemma ztake_app_le n l k : n <= zlen l -> ztake n (l ++ k) = ztake n l.
Proof. unfold zlen, ztake. intros. rewrite take_app_le; [done|lia]. Qed.
Lemma ztake_app_ge n l k : zlen l <= n -> ztake n (l ++ k) = l ++ ztake (n - zlen l) k.
Proof.
  unfold zlen, ztake. intros. rewrite take_app_ge by lia. do 2 f_equal. lia.
Qed.
Lemma zdrop_app_le n l k : n <= zlen l -> zdrop n (l ++ k) = zdrop n l ++ k.
Proof. unfold zlen, zdrop. intros. rewrite drop_app_le; [done|lia]. Qed.
Lemma zdrop_app_ge n l k : zlen l <= n -> zdrop n (l ++ k) = zdrop (n - zlen l) k.
Proof.
  unfold zlen, zdrop. intros. rewrite drop_app_ge by lia. f_equal. lia.
Qed.
Lemma ztake_all n l : zlen l <= n -> ztake n l = l.
Proof. unfold zlen, ztake. intros. apply take_ge. lia. Qed.
Lemma zdrop_all n l : zlen l <= n -> zdrop n l = [].
Proof. unfold zlen, zdrop. intros. apply drop_ge. lia. Qed.
Lemma ztake_nonpos n l : n <= 0 -> ztake n l = [].
Proof. unfold ztake. intros. replace (Z.to_nat n) with O by lia. done. Qed.
Lemma zdrop_nonpos n l : n <= 0 -> zdrop n l = l.
Proof. unfold zdrop. intros. replace (Z.to_nat n) with O by lia. done. Qed.
Lemma zdrop_zdrop n m l : 0 <= n -> 0 <= m -> zdrop n (zdrop m l) = zdrop (m + n) l.
Proof. unfold zdrop. intros. rewrite drop_drop. f_equal. lia. Qed.
Lemma zsub_all l : zsub 0 (zlen l) l = l.
Proof. unfold zsub. rewrite zdrop_nonpos by lia. by apply ztake_all. Qed.

Lemma zsub_split off n m l :
  0 <= off -> 0 <= n -> 0 <= m ->
  zsub off (n + m) l = zsub off n l ++ zsub (off + n) m l.
Proof.
  intros. unfold zsub. rewrite <- (zdrop_zdrop n off) by lia.
  generalize (zdrop off l). intros k. unfold ztake, zdrop.
  rewrite Z2Nat.inj_add by lia. by rewrite <- take_take_drop.
Qed.

Lemma zsub_app_l off n l k :
  0 <= off -> 0 <= n -> off + n <= zlen l -> zsub off n (l ++ k) = zsub off n l.
Proof.
  intros. unfold zsub. rewrite zdrop_app_le by lia. apply ztake_app_le.
  rewrite zlen_zdrop. lia.
Qed.

Lemma zsub_app_r off n l k :
  zlen l <= off -> zsub off n (l ++ k) = zsub (off - zlen l) n k.
Proof. intros. unfold zsub. by rewrite zdrop_app_ge. Qed.

Lemma memwrite_done off src (mem : list A) :
  0 <= off -> off + zlen src <= zlen mem ->
  memwrite off src mem = Done (ztake off mem ++ src ++ zdrop (off + zlen src) mem).
Proof.
  intros. unfold memwrite.
  rewrite (proj2 (Z.leb_le _ _)) by lia. rewrite (proj2 (Z.leb_le _ _)) by lia. done.
Qed.

Lemma memread_done off n (mem : list A) :
  0 <= off -> 0 <= n -> off + n <= zlen mem -> memread off n mem = Done (zsub off n mem).
Proof.
  intros. unfold memread.
  rewrite (proj2 (Z.leb_le _ _)) by lia. rewrite (proj2 (Z.leb_le _ _)) by lia.
  rewrite (proj2 (Z.leb_le _ _)) by lia. done.
Qed.

(** What a write leaves behind: same length, the written range, the rest. *)
Lemma memwrite_inv off src (mem mem' : list A) :
  memwrite off src mem = Done mem' ->
  zlen mem' = zlen mem /\ zsub off (zlen src) mem' = src /\
  (forall o n, 0 <= o -> 0 <= n -> o + n <= off -> zsub o n mem' = zsub o n mem) /\
  (forall o n, off + zlen src <= o -> zsub o n mem' = zsub o n mem).
Proof.
  unfold memwrite. case_test; [|done]. zb. intros [= <-].
  pose proof (zlen_nonneg src).
  assert (Ht : zlen (ztake off mem) = off) by (rewrite zlen_ztake; lia).
  split; [|split; [|split]].
  - rewrite !zlen_app, zlen_zdrop, Ht. lia.
  - rewrite zsub_app_r by lia. rewrite Ht, Z.sub_diag, zsub_app_l by lia. apply zsub_all.
  - intros o n ???. rewrite zsub_app_l by lia.
    rewrite <- (ztake_zdrop off mem) at 2. rewrite zsub_app_l by lia. done.
  - intros o n ?. rewrite zsub_app_r by lia. rewrite Ht, zsub_app_r by lia.
    unfold zsub. rewrite zdrop_zdrop by lia. do 2 f_equal. lia.
Qed.

End zlists.

Lemma cstr_app_nul (s rest : list byte) :
  x00 ∉ s -> cstr (s ++ x00 :: rest) = s.
Proof.
  induction s as [|b s IH]; intros Hn; simpl.
  - done.
  - rewrite decide_False by set_solver. f_equal. apply IH. set_solver.
Qed.

Arguments zlen_nil A : clear implicits.

Create Rewrite HintDb zl.
#[export] Hint Rewrite @zlen_app @zlen_cons @zlen_nil @zlen_replicate @zlen_ztake @zlen_zdrop : zl.
#[export] Hint Resolve byteZ_range u32_range u64_range zlen_nonneg : mtc.
