(* ===== verification/PageLock.v ===== *)
(** * The centralized page-lock table

    Models [components/centralized-lock-table]: the data of
    [include/lock_common.h] and the manager of
    [server/remote_page_lock_manager.cc].  The uthash table [page_lock_hash]
    is keyed by the four bytes [HASH_ADD_INT]/[HASH_FIND_INT] read at
    [&m_fold]; as an entry is only added after a failed lookup of the same
    key, it is a finite map from that key to [PageLock_t]. *)

From S2P Require Import Prelude.

Inductive PageLockType := R_LOCK | W_LOCK | UNLOCK.
Inductive PageReplyType := LOCK_SUCCESS | LOCK_FAIL | UNLOCK_SUCCESS | UNLOCK_FAIL.

#[export] Instance PageLockType_eq_dec : EqDecision PageLockType.
Proof. solve_decision. Defined.
#[export] Instance PageReplyType_eq_dec : EqDecision PageReplyType.
Proof. solve_decision. Defined.

(** The numeric order of the C enumeration ("others will sort by lock level"). *)
Definition lock_level (t : PageLockType) : Z :=
  match t with R_LOCK => 0 | W_LOCK => 1 | UNLOCK => 2 end.

Record WaitInfor := mkWait { wi_name : string; wi_type : PageLockType }.

Record PageLock_t := mkPageLock {
  m_fold : Z;
  space_id : Z;
  page_no : Z;
  version_no : Z;
  lock_type : PageLockType;
  lock_holder : list string;
  wait_list : list WaitInfor
}.

Record PageLockRequest := mkRequest {
  rq_space_id : Z;
  rq_page_no : Z;
  rq_version_no : Z;
  rq_lock_type : PageLockType
}.

Record PageLockReply := mkReply {
  rp_space_id : Z;
  rp_page_no : Z;
  rp_reply_type : PageReplyType
}.

Abbreviation lock_table := (gmap Z PageLock_t).

(** [lock_compatibility_matrix[2][2]]: row = request, column = status.  The
    [UNLOCK] index is outside the array, hence undefined. *)
Definition lock_compatibility_matrix (request status : PageLockType) : outcome bool :=
  match request, status with
  | R_LOCK, R_LOCK => Done true
  | R_LOCK, W_LOCK => Done false
  | W_LOCK, R_LOCK => Done false
  | W_LOCK, W_LOCK => Done false
  | _, _ => Crash
  end.

(** [(m_space << 20) + m_space + m_page_no], all three operands [uint32_t]. *)
Definition cal_fold (m_space m_page_no : Z) : Z :=
  u32 (u32 (u32 (Z.shiftl m_space 20) + m_space) + m_page_no).

(** The key uthash hashes and compares: the low [sizeof(int)] bytes of the
    [unsigned long] fold. *)
Definition hash_key (fold : Z) : Z := u32 fold.

Definition insert_page_lock_t (asker : string) (request : PageLockRequest)
    (tbl : lock_table) : lock_table :=
  let fold := cal_fold (rq_space_id request) (rq_page_no request) in
  let page_lock := {|
    m_fold := fold;
    space_id := rq_space_id request;
    page_no := rq_page_no request;
    version_no := 0;
    lock_type := rq_lock_type request;
    lock_holder := [asker];
    wait_list := [] |} in
  <[hash_key fold := page_lock]> tbl.

Definition update_unlock_page_lock_t (asker : string) (page_lock : PageLock_t)
    : PageLock_t :=
  let holders := filter (fun h => h <> asker) (lock_holder page_lock) in
  match holders, wait_list page_lock with
  | [], w :: rest =>
      {| m_fold := m_fold page_lock; space_id := space_id page_lock;
         page_no := page_no page_lock; version_no := version_no page_lock;
         lock_type := wi_type w; lock_holder := [wi_name w]; wait_list := rest |}
  | _, _ =>
      {| m_fold := m_fold page_lock; space_id := space_id page_lock;
         page_no := page_no page_lock; version_no := version_no page_lock;
         lock_type := UNLOCK; lock_holder := holders;
         wait_list := wait_list page_lock |}
  end.

Definition update_success_page_lock_t (asker : string) (request : PageLockRequest)
    (page_lock : PageLock_t) : PageLock_t :=
  {| m_fold := m_fold page_lock; space_id := space_id page_lock;
     page_no := page_no page_lock;
     version_no := match rq_lock_type request with
                   | W_LOCK => u64 (version_no page_lock + 1)
                   | _ => version_no page_lock
                   end;
     lock_type := rq_lock_type request;
     lock_holder := lock_holder page_lock ++ [asker];
     wait_list := wait_list page_lock |}.

(** One iteration of the loop over [wait_list]. *)
Definition upgrade_wait (asker : string) (t : PageLockType) (w : WaitInfor) : WaitInfor :=
  if decide (wi_name w = asker)
  then {| wi_name := wi_name w;
          wi_type := if lock_level (wi_type w) <? lock_level t then t else wi_type w |}
  else w.

(** When the asker is not yet waiting, the code fills a local [WaitInfor] and
    drops it: nothing is appended to [wait_list]. *)
Definition update_fail_page_lock_t (asker : string) (request : PageLockRequest)
    (page_lock : PageLock_t) : PageLock_t :=
  {| m_fold := m_fold page_lock; space_id := space_id page_lock;
     page_no := page_no page_lock; version_no := version_no page_lock;
     lock_type := lock_type page_lock; lock_holder := lock_holder page_lock;
     wait_list := upgrade_wait asker (rq_lock_type request) <$> wait_list page_lock |}.

Definition check_lock_request (asker : string) (request : PageLockRequest)
    (tbl : lock_table) : outcome (Z * PageLockReply * lock_table) :=
  let fold := cal_fold (rq_space_id request) (rq_page_no request) in
  let key := hash_key fold in
  let reply t := mkReply (rq_space_id request) (rq_page_no request) t in
  match tbl !! key with
  | None => Done (0, reply LOCK_SUCCESS, insert_page_lock_t asker request tbl)
  | Some p =>
      if decide (rq_lock_type request = UNLOCK) then
        Done (2, reply UNLOCK_SUCCESS, <[key := update_unlock_page_lock_t asker p]> tbl)
      else if decide (lock_type p = UNLOCK) then
        Done (1, reply LOCK_SUCCESS, <[key := update_success_page_lock_t asker request p]> tbl)
      else
        ok ← lock_compatibility_matrix (rq_lock_type request) (lock_type p);
        if (ok : bool) then
          Done (1, reply LOCK_SUCCESS, <[key := update_success_page_lock_t asker request p]> tbl)
        else
          Done (-1, reply LOCK_FAIL, <[key := update_fail_page_lock_t asker request p]> tbl)
  end.

(** A run of the server: requests are handled one at a time, in arrival
    order, by the event-loop thread. *)
Definition run_step (st : outcome (list PageLockReply * lock_table))
    (r : string * PageLockRequest) : outcome (list PageLockReply * lock_table) :=
  '(out, tbl) ← st;
  '(_, reply, tbl') ← check_lock_request r.1 r.2 tbl;
  Done (out ++ [reply], tbl').

Definition run_requests (rs : list (string * PageLockRequest)) (tbl : lock_table)
    : outcome (list PageLockReply * lock_table) :=
  fold_left run_step rs (Done ([], tbl)).

(** The entry a request addresses. *)
Definition entry_of (request : PageLockRequest) (tbl : lock_table) : option PageLock_t :=
  tbl !! hash_key (cal_fold (rq_space_id request) (rq_page_no request)).

(** ** Reachable tables *)

Inductive step : lock_table -> string -> PageLockRequest -> PageReplyType -> lock_table -> Prop :=
| step_request tbl asker request rc reply tbl' :
    check_lock_request asker request tbl = Done (rc, reply, tbl') ->
    step tbl asker request (rp_reply_type reply) tbl'.

Inductive reachable : lock_table -> Prop :=
| reach_init : reachable ∅
| reach_step tbl asker request t tbl' :
    reachable tbl -> step tbl asker request t tbl' -> reachable tbl'.

(** The discipline a client must follow for exclusion to hold: it asks for
    write locks only, and only a current holder sends [UNLOCK]. *)
Definition disciplined (tbl : lock_table) (asker : string) (request : PageLockRequest) : Prop :=
  match rq_lock_type request with
  | W_LOCK => True
  | R_LOCK => False
  | UNLOCK => match entry_of request tbl with
              | Some p => lock_holder p = [asker]
              | None => False
              end
  end.

Inductive reachable_disciplined : lock_table -> Prop :=
| reachd_init : reachable_disciplined ∅
| reachd_step tbl asker request t tbl' :
    reachable_disciplined tbl -> disciplined tbl asker request ->
    step tbl asker request t tbl' -> reachable_disciplined tbl'.

(** ** The abstract lock a page promises: free, or held by one writer *)

Inductive abs_lock := AFree | AHeld (owner : string).

Definition abstract_entry (p : PageLock_t) : option abs_lock :=
  match lock_type p, lock_holder p with
  | UNLOCK, [] => Some AFree
  | W_LOCK, [h] => Some (AHeld h)
  | _, _ => None
  end.

(** Transition and answer of the abstract exclusive lock. *)
Definition abs_step (asker : string) (t : PageLockType) (a : abs_lock)
    : PageReplyType * abs_lock :=
  match t, a with
  | UNLOCK, _ => (UNLOCK_SUCCESS, AFree)
  | _, AFree => (LOCK_SUCCESS, AHeld asker)
  | _, AHeld h => (LOCK_FAIL, AHeld h)
  end.

(** ** Lemmas *)

(** The four ways [check_lock_request] can end, with the entry it leaves. *)
Inductive check_cases (asker : string) (rq : PageLockRequest) (tbl : lock_table)
    : PageReplyType -> PageLock_t -> Prop :=
| cc_insert :
    entry_of rq tbl = None ->
    check_cases asker rq tbl LOCK_SUCCESS
      (mkPageLock (cal_fold (rq_space_id rq) (rq_page_no rq)) (rq_space_id rq)
         (rq_page_no rq) 0 (rq_lock_type rq) [asker] [])
| cc_unlock p :
    entry_of rq tbl = Some p -> rq_lock_type rq = UNLOCK ->
    check_cases asker rq tbl UNLOCK_SUCCESS (update_unlock_page_lock_t asker p)
| cc_grant p :
    entry_of rq tbl = Some p -> rq_lock_type rq <> UNLOCK ->
    (lock_type p = UNLOCK \/ (rq_lock_type rq = R_LOCK /\ lock_type p = R_LOCK)) ->
    check_cases asker rq tbl LOCK_SUCCESS (update_success_page_lock_t asker rq p)
| cc_refuse p :
    entry_of rq tbl = Some p -> rq_lock_type rq <> UNLOCK -> lock_type p <> UNLOCK ->
    (rq_lock_type rq = W_LOCK \/ lock_type p = W_LOCK) ->
    check_cases asker rq tbl LOCK_FAIL (update_fail_page_lock_t asker rq p).

Lemma check_total asker rq tbl :
  exists rc t p,
    check_lock_request asker rq tbl =
      Done (rc, mkReply (rq_space_id rq) (rq_page_no rq) t,
            <[hash_key (cal_fold (rq_space_id rq) (rq_page_no rq)) := p]> tbl) /\
    check_cases asker rq tbl t p.
Proof.
  unfold check_lock_request. fold (entry_of rq tbl).
  destruct (entry_of rq tbl) as [p|] eqn:E.
  - destruct (decide (rq_lock_type rq = UNLOCK)) as [Hu|Hu];
      [do 3 eexists; split; [done|]; by apply cc_unlock|].
    destruct (decide (lock_type p = UNLOCK)) as [Hp|Hp];
      [do 3 eexists; split; [done|]; apply cc_grant; auto|].
    destruct (rq_lock_type rq) eqn:Er, (lock_type p) eqn:Ep; try done; simpl;
      do 3 eexists; (split; [done|]);
      (apply cc_grant || apply cc_refuse); rewrite ?Er, ?Ep; by auto.
  - do 3 eexists; split; [done|]. by apply cc_insert.
Qed.

Lemma step_inv tbl asker rq t tbl' :
  step tbl asker rq t tbl' ->
  exists p, tbl' = <[hash_key (cal_fold (rq_space_id rq) (rq_page_no rq)) := p]> tbl /\
            check_cases asker rq tbl t p.
Proof.
  inversion 1 as [? ? ? rc reply ? Hc]; subst.
  destruct (check_total asker rq tbl) as (rc' & t' & p & Hc' & Hcase).
  rewrite Hc in Hc'. simplify_eq. simpl. eauto.
Qed.

(** A per-entry invariant that every branch preserves holds in all
    reachable tables. *)
Lemma reachable_entries (P : PageLock_t -> Prop) tbl :
  (forall asker rq tbl t p, (forall k e, tbl !! k = Some e -> P e) ->
     check_cases asker rq tbl t p -> P p) ->
  reachable tbl -> forall k e, tbl !! k = Some e -> P e.
Proof.
  intros HP Hr. induction Hr as [|tbl asker rq t tbl' Hr IH Hs]; intros k e He.
  - by rewrite lookup_empty in He.
  - apply step_inv in Hs as (p & -> & Hc).
    rewrite lookup_insert in He. case_decide; simplify_eq; eauto.
Qed.

Lemma reachable_no_waiters tbl k p :
  reachable tbl -> tbl !! k = Some p -> wait_list p = [].
Proof.
  intros Hr. revert k p.
  apply (reachable_entries (fun p => wait_list p = [])); [|done].
  clear. intros asker rq tbl t p IH Hc.
  inversion Hc; subst; simpl; try done;
    match goal with H : entry_of _ _ = Some _ |- _ => specialize (IH _ _ H) end.
  - unfold update_unlock_page_lock_t. rewrite IH. by case_match.
  - done.
  - by rewrite IH.
Qed.

Lemma unlock_without_waiters a p :
  wait_list p = [] ->
  update_unlock_page_lock_t a p =
    mkPageLock (m_fold p) (space_id p) (page_no p) (version_no p) UNLOCK
      (filter (fun h => h <> a) (lock_holder p)) [].
Proof. intros Hw. unfold update_unlock_page_lock_t. rewrite Hw. by case_match. Qed.

Lemma check_cases_version asker rq tbl t p q :
  check_cases asker rq tbl t p -> entry_of rq tbl = Some q ->
  version_no p = (if decide (t = LOCK_SUCCESS /\ rq_lock_type rq = W_LOCK)
                  then u64 (version_no q + 1) else version_no q).
Proof.
  inversion 1; intros; simplify_eq.
  - rewrite decide_False by naive_solver. unfold update_unlock_page_lock_t. by repeat case_match.
  - simpl. destruct (rq_lock_type rq) eqn:E.
    + rewrite decide_False by (intros []; done); done.
    + rewrite decide_True by done; done.
    + done.
  - rewrite decide_False by (intros []; done). done.
Qed.

(** Every entry of a disciplined execution is a well-formed exclusive lock. *)
Lemma disciplined_entries tbl :
  reachable_disciplined tbl ->
  forall k p, tbl !! k = Some p -> is_Some (abstract_entry p) /\ wait_list p = [].
Proof.
  induction 1 as [|tbl asker rq t tbl' Hr IH Hd Hs]; intros k e He.
  { by rewrite lookup_empty in He. }
  apply step_inv in Hs as (p & -> & Hc).
  rewrite lookup_insert in He. case_decide; simplify_eq; [|by eauto].
  unfold disciplined, abstract_entry in *.
  inversion Hc as [Hn|q Hq Hu|q Hq Hu Ho|q Hq Hu Hnu Ho]; subst; simpl;
    [|specialize (IH _ _ Hq) as [[a Ha] Hw]..].
  - destruct (rq_lock_type rq); try done. rewrite Hn in Hd. done.
  - rewrite Hu, Hq in Hd. unfold update_unlock_page_lock_t. rewrite Hw, Hd, filter_cons, decide_False by naive_solver.
    simpl. eauto.
  - destruct (rq_lock_type rq); try done.
    destruct Ho as [Ho|[]]; [|done]. rewrite Ho in Ha.
    destruct (lock_holder q); [|done]. simpl. eauto.
  - rewrite Hw, Ha. eauto.
Qed.

(** The disciplined step simulates the abstract exclusive lock. *)
Lemma disciplined_sim tbl asker rq t tbl' p a :
  reachable_disciplined tbl -> disciplined tbl asker rq ->
  step tbl asker rq t tbl' ->
  entry_of rq tbl = Some p -> abstract_entry p = Some a ->
  exists p', entry_of rq tbl' = Some p' /\
    abstract_entry p' = Some (abs_step asker (rq_lock_type rq) a).2 /\
    t = (abs_step asker (rq_lock_type rq) a).1.
Proof.
  intros Hr Hd Hs Hp Ha. apply step_inv in Hs as (p' & -> & Hc).
  destruct (disciplined_entries _ Hr _ _ Hp) as [_ Hw].
  exists p'. unfold entry_of at 1. rewrite lookup_insert_eq. split; [done|].
  unfold disciplined, abstract_entry in *. rewrite Hp in Hd.
  inversion Hc as [Hn|q Hq Hu|q Hq Hu Ho|q Hq Hu Hnu Ho]; subst; simplify_eq; simpl.
  - rewrite Hu in *. unfold update_unlock_page_lock_t.
    rewrite Hw, Hd, filter_cons, decide_False by naive_solver. done.
  - destruct (rq_lock_type rq); try done.
    destruct Ho as [Ho|[]]; [|done]. rewrite Ho in Ha.
    destruct (lock_holder p); [|done]. by simplify_eq.
  - destruct (rq_lock_type rq); try done. rewrite Ha.
    destruct (lock_type p), (lock_holder p) as [|? []]; by simplify_eq.
Qed.

Lemma cal_fold_linear s p : 0 <= s -> cal_fold s p = (s * (2 ^ 20 + 1) + p) mod 2 ^ 32.
Proof.
  intros. unfold cal_fold, u32. rewrite Z.shiftl_mul_pow2 by lia.
  rewrite (Z.add_mod (s * 2 ^ 20 mod 2 ^ 32)), Z.mod_mod by lia.
  rewrite <- Z.add_mod by lia. rewrite (Z.add_mod ((s * 2 ^ 20 + s) mod 2 ^ 32)), Z.mod_mod by lia.
  rewrite <- Z.add_mod by lia. f_equal. lia.
Qed.

(** ** Properties *)






(** C1: in every execution where clients ask for write locks only and only
    the holder unlocks, each page entry refines the abstract exclusive lock:
    a request on a known page answers and moves as [abs_step] does, and a
    first request on a page is granted to the asker alone. *)
Theorem page_lock_refines_exclusive tbl asker rq t tbl' :
  reachable_disciplined tbl -> disciplined tbl asker rq -> step tbl asker rq t tbl' ->
  match entry_of rq tbl with
  | None => t = LOCK_SUCCESS /\
            (abstract_entry <$> entry_of rq tbl') = Some (Some (AHeld asker))
  | Some p => exists a, abstract_entry p = Some a /\
      t = (abs_step asker (rq_lock_type rq) a).1 /\
      (abstract_entry <$> entry_of rq tbl') =
        Some (Some (abs_step asker (rq_lock_type rq) a).2)
  end.
Proof.
  intros Hr Hd Hs. destruct (entry_of rq tbl) as [p|] eqn:Hp.
  - destruct (disciplined_entries _ Hr _ _ Hp) as [[a Ha] _].
    destruct (disciplined_sim _ _ _ _ _ _ _ Hr Hd Hs Hp Ha) as (p' & -> & Hp' & ->).
    exists a. simpl. by rewrite Hp'.
  - apply step_inv in Hs as (p' & -> & Hc).
    inversion Hc; simplify_eq. split; [done|].
    unfold entry_of at 1. rewrite lookup_insert_eq.
    unfold disciplined in Hd. rewrite Hp in Hd.
    by destruct (rq_lock_type rq).
Qed.

Lemma page_lock_refines_exclusive_witness :
  let rq := mkRequest 1 7 0 W_LOCK in
  let tbl := insert_page_lock_t "n1" rq ∅ in
  step tbl "n2" rq LOCK_FAIL tbl /\
  (exists a, abstract_entry (mkPageLock (cal_fold 1 7) 1 7 0 W_LOCK ["n1"] []) = Some a /\
     LOCK_FAIL = (abs_step "n2" W_LOCK a).1 /\
     (abstract_entry <$> entry_of rq tbl) = Some (Some (abs_step "n2" W_LOCK a).2)).
Proof.
  intros rq tbl.
  assert (S1 : step ∅ "n1" rq LOCK_SUCCESS tbl).
  { apply (step_request _ _ _ 0 (mkReply 1 7 LOCK_SUCCESS)). reflexivity. }
  assert (S2 : step tbl "n2" rq LOCK_FAIL tbl).
  { apply (step_request _ _ _ (-1) (mkReply 1 7 LOCK_FAIL)). vm_compute. reflexivity. }
  split; [exact S2|].
  exact (page_lock_refines_exclusive tbl "n2" rq LOCK_FAIL tbl
           (reachd_step ∅ "n1" rq LOCK_SUCCESS tbl reachd_init I S1) I S2).
Defined.

(** Without that discipline exclusion is lost.  In any reachable table,
    an [UNLOCK] from [a] on a known page marks the page unlocked although the
    other holders remain, and the next write request, from any [b], is
    granted next to them. *)
Theorem unlock_frees_page_with_holders tbl k p a b space page v1 v2 :
  reachable tbl -> k = hash_key (cal_fold space page) -> tbl !! k = Some p ->
  exists tbl1 tbl2 p2,
    check_lock_request a (mkRequest space page v1 UNLOCK) tbl =
      Done (2, mkReply space page UNLOCK_SUCCESS, tbl1) /\
    check_lock_request b (mkRequest space page v2 W_LOCK) tbl1 =
      Done (1, mkReply space page LOCK_SUCCESS, tbl2) /\
    tbl2 !! k = Some p2 /\ lock_type p2 = W_LOCK /\
    lock_holder p2 = filter (fun h => h <> a) (lock_holder p) ++ [b].
Proof.
  intros Hr -> Hp. pose proof (reachable_no_waiters _ _ _ Hr Hp) as Hw.
  unfold check_lock_request; simpl. rewrite Hp. simpl.
  do 3 eexists. split; [done|]. rewrite lookup_insert_eq, (unlock_without_waiters a p Hw).
  simpl. split; [done|]. by rewrite lookup_insert_eq.
Qed.

Lemma unlock_frees_page_with_holders_witness :
  let rd := mkRequest 1 7 0 R_LOCK in
  exists tbl p, reachable tbl /\ lock_holder p = ["n1"; "n2"] /\
  exists tbl1 tbl2 p2,
    check_lock_request "n1" (mkRequest 1 7 0 UNLOCK) tbl =
      Done (2, mkReply 1 7 UNLOCK_SUCCESS, tbl1) /\
    check_lock_request "n3" (mkRequest 1 7 0 W_LOCK) tbl1 =
      Done (1, mkReply 1 7 LOCK_SUCCESS, tbl2) /\
    tbl2 !! hash_key (cal_fold 1 7) = Some p2 /\ lock_type p2 = W_LOCK /\
    lock_holder p2 = filter (fun h => h <> "n1") (lock_holder p) ++ ["n3"].
Proof.
  intros rd.
  pose (tbl1 := insert_page_lock_t "n1" rd ∅).
  pose (p2 := mkPageLock (cal_fold 1 7) 1 7 0 R_LOCK ["n1"; "n2"] []).
  pose (tbl2 := <[hash_key (cal_fold 1 7) := p2]> tbl1).
  assert (S1 : step ∅ "n1" rd LOCK_SUCCESS tbl1).
  { apply (step_request _ _ _ 0 (mkReply 1 7 LOCK_SUCCESS)). reflexivity. }
  assert (S2 : step tbl1 "n2" rd LOCK_SUCCESS tbl2).
  { apply (step_request _ _ _ 1 (mkReply 1 7 LOCK_SUCCESS)). vm_compute. reflexivity. }
  exists tbl2, p2.
  assert (Hr : reachable tbl2) by (eapply reach_step; [eapply reach_step; [apply reach_init|exact S1]|exact S2]).
  split; [exact Hr|]. split; [reflexivity|].
  apply (unlock_frees_page_with_holders tbl2 _ p2 "n1" "n3" 1 7 0 0 Hr eq_refl).
  vm_compute. reflexivity.
Defined.

(** A refused request leaves no trace: in every reachable table no entry
    has a waiter, so a [LOCK_FAIL] answer leaves the table unchanged and a
    later unlock can hand the page to nobody. *)
Theorem refused_request_is_forgotten tbl asker rq tbl' :
  reachable tbl -> step tbl asker rq LOCK_FAIL tbl' ->
  tbl' = tbl /\ (forall k p, tbl' !! k = Some p -> wait_list p = []).
Proof.
  intros Hr Hs. pose proof Hs as Hs'. apply step_inv in Hs as (p & -> & Hc).
  inversion Hc as [| | |q Hq ??? Heq]; subst.
  assert (Hw : wait_list q = []) by (eapply reachable_no_waiters; eauto).
  assert (Hsame : update_fail_page_lock_t asker rq q = q).
  { unfold update_fail_page_lock_t. rewrite Hw. destruct q; simpl in *. by subst. }
  split.
  - rewrite Hsame. by apply insert_id.
  - intros k e He. eapply reachable_no_waiters; [|exact He].
    eapply reach_step; eauto.
Qed.

Lemma refused_request_is_forgotten_witness :
  let rq := mkRequest 1 7 0 W_LOCK in
  let tbl := insert_page_lock_t "n1" rq ∅ in
  tbl = tbl /\ (forall k p, tbl !! k = Some p -> wait_list p = []).
Proof.
  intros rq tbl.
  assert (S1 : step ∅ "n1" rq LOCK_SUCCESS tbl).
  { apply (step_request _ _ _ 0 (mkReply 1 7 LOCK_SUCCESS)). reflexivity. }
  assert (S2 : step tbl "n2" rq LOCK_FAIL tbl).
  { apply (step_request _ _ _ (-1) (mkReply 1 7 LOCK_FAIL)). vm_compute. reflexivity. }
  exact (refused_request_is_forgotten tbl "n2" rq tbl
           (reach_step _ _ _ _ _ reach_init S1) S2).
Defined.

(** The version number of a page changes exactly when a write lock is
    granted on a page that already has an entry, and then by one (modulo
    2^64); unlocks, reads and refusals keep it, and other pages keep theirs. *)
Theorem version_counts_granted_writes tbl asker rq t tbl' p :
  step tbl asker rq t tbl' -> entry_of rq tbl = Some p ->
  (version_no <$> entry_of rq tbl') =
    Some (if decide (t = LOCK_SUCCESS /\ rq_lock_type rq = W_LOCK)
          then u64 (version_no p + 1) else version_no p) /\
  (forall k, k <> hash_key (cal_fold (rq_space_id rq) (rq_page_no rq)) ->
             tbl' !! k = tbl !! k).
Proof.
  intros Hs Hp. apply step_inv in Hs as (p' & -> & Hc). split.
  - unfold entry_of at 1. rewrite lookup_insert_eq. simpl. f_equal.
    by eapply check_cases_version.
  - intros k Hk. by rewrite lookup_insert_ne.
Qed.

Lemma version_counts_granted_writes_witness :
  let rq := mkRequest 1 7 0 W_LOCK in
  let free := mkPageLock (cal_fold 1 7) 1 7 4 UNLOCK [] [] in
  let tbl := {[hash_key (cal_fold 1 7) := free]} : lock_table in
  let tbl' := <[hash_key (cal_fold 1 7) := update_success_page_lock_t "n1" rq free]> tbl in
  (version_no <$> entry_of rq tbl') = Some 5 /\
  (forall k, k <> hash_key (cal_fold 1 7) -> tbl' !! k = tbl !! k).
Proof.
  intros rq free tbl tbl'.
  assert (S1 : step tbl "n1" rq LOCK_SUCCESS tbl').
  { apply (step_request _ _ _ 1 (mkReply 1 7 LOCK_SUCCESS)). vm_compute. reflexivity. }
  assert (Hp : entry_of rq tbl = Some free) by (vm_compute; reflexivity).
  exact (version_counts_granted_writes tbl "n1" rq LOCK_SUCCESS tbl' free S1 Hp).
Defined.

(** The 32-bit fold separates pages as long as the table space is below
    2^12 and [space + page] stays below 2^20; in that range two requests
    share an entry only if they name the same page. *)
Theorem cal_fold_injective_in_range s1 p1 s2 p2 :
  0 <= s1 < 2 ^ 12 -> 0 <= p1 -> s1 + p1 < 2 ^ 20 ->
  0 <= s2 < 2 ^ 12 -> 0 <= p2 -> s2 + p2 < 2 ^ 20 ->
  hash_key (cal_fold s1 p1) = hash_key (cal_fold s2 p2) -> s1 = s2 /\ p1 = p2.
Proof.
  intros. unfold hash_key, u32 in *. rewrite !cal_fold_linear in * by lia.
  rewrite !Z.mod_mod, !Z.mod_small in * by lia. lia.
Qed.

Lemma cal_fold_injective_in_range_witness :
  (hash_key (cal_fold 3 9) = hash_key (cal_fold 3 9) -> 3 = 3 /\ 9 = 9) /\
  hash_key (cal_fold 1 0) = hash_key (cal_fold 0 (2 ^ 20 + 1)).
Proof.
  split; [|reflexivity].
  apply (cal_fold_injective_in_range 3 9 3 9); lia.
Defined.
