(* ===== verification/IdServer.v ===== *)
(** * The transaction sequence-number (GTSN) service

    Models [components/id-increment/server.cpp]: the globals [id], [idmap]
    and [id_lock], and the handler [IDIncreImpl::IDInc].  The RPC framework
    (brpc) runs the handler on several threads at once; the handler is
    therefore given twice, as a function and as the sequence of atomic steps
    its statements are, interleaved between threads by [cstep]. *)

From S2P Require Import Prelude.

(** The globals, initially [id = 1] and an empty map. *)
Record server := mkServer { id : Z; idmap : gmap Z string }.
Definition init_server : server := mkServer 1 ∅.

(** The handler run in isolation: [response->set_message(to_string(id));
    idmap[id] = endpoint; id++].  [id] is a signed [long long]: the increment
    of its largest value is undefined. *)
Definition IDInc (remote : string) (s : server) : outcome (string * server) :=
  let message := pretty (id s) in
  let m := <[id s := remote]> (idmap s) in
  if id s =? INT64_MAX then Crash else Done (message, mkServer (id s + 1) m).

Definition serve_one (st : outcome (list string * server)) (remote : string)
    : outcome (list string * server) :=
  '(out, s) ← st;
  '(m, s') ← IDInc remote s;
  Done (out ++ [m], s').

Definition serve (remotes : list string) (s : server) : outcome (list string * server) :=
  fold_left serve_one remotes (Done ([], s)).

(** Program points of a handler thread; the message is what [response]
    holds so far. *)
Inductive pc :=
| PStart
| PLocked
| PReplied (msg : string)
| PMapped (msg : string)
| PIncremented (msg : string)
| PDone (msg : string).

Record thread := mkThread { th_remote : string; th_pc : pc }.

Record cstate := mkCState {
  cs_server : server;
  cs_lock : option nat;
  cs_threads : gmap nat thread
}.

Definition set_pc (t : nat) (th : thread) (p : pc) (s : cstate) : gmap nat thread :=
  <[t := mkThread (th_remote th) p]> (cs_threads s).

(** One statement of one thread. *)
Inductive cstep : cstate -> cstate -> Prop :=
| cs_request s t remote :
    cs_threads s !! t = None ->
    cstep s (mkCState (cs_server s) (cs_lock s) (<[t := mkThread remote PStart]> (cs_threads s)))
| cs_acquire s t th :
    cs_threads s !! t = Some th -> th_pc th = PStart -> cs_lock s = None ->
    cstep s (mkCState (cs_server s) (Some t) (set_pc t th PLocked s))
| cs_reply s t th :
    cs_threads s !! t = Some th -> th_pc th = PLocked ->
    cstep s (mkCState (cs_server s) (cs_lock s)
               (set_pc t th (PReplied (pretty (id (cs_server s)))) s))
| cs_record s t th m :
    cs_threads s !! t = Some th -> th_pc th = PReplied m ->
    cstep s (mkCState
               (mkServer (id (cs_server s))
                  (<[id (cs_server s) := th_remote th]> (idmap (cs_server s))))
               (cs_lock s) (set_pc t th (PMapped m) s))
| cs_increment s t th m :
    cs_threads s !! t = Some th -> th_pc th = PMapped m -> id (cs_server s) <> INT64_MAX ->
    cstep s (mkCState (mkServer (id (cs_server s) + 1) (idmap (cs_server s)))
               (cs_lock s) (set_pc t th (PIncremented m) s))
| cs_release s t th m :
    cs_threads s !! t = Some th -> th_pc th = PIncremented m -> cs_lock s = Some t ->
    cstep s (mkCState (cs_server s) None (set_pc t th (PDone m) s)).

Definition cinit : cstate := mkCState init_server None ∅.

(** The same steps as a function: [sched] lists what happens, in order, either
    a request that arrives for a new thread or the next statement of one. *)
Inductive event := EvRequest (t : nat) (remote : string) | EvRun (t : nat).

Definition run_thread (t : nat) (th : thread) (s : cstate) : option cstate :=
  let sv := cs_server s in
  match th_pc th, cs_lock s with
  | PStart, None => Some (mkCState sv (Some t) (set_pc t th PLocked s))
  | PStart, Some _ => None
  | PLocked, l => Some (mkCState sv l (set_pc t th (PReplied (pretty (id sv))) s))
  | PReplied m, l =>
      Some (mkCState (mkServer (id sv) (<[id sv := th_remote th]> (idmap sv))) l
              (set_pc t th (PMapped m) s))
  | PMapped m, l =>
      if id sv =? INT64_MAX then None
      else Some (mkCState (mkServer (id sv + 1) (idmap sv)) l (set_pc t th (PIncremented m) s))
  | PIncremented m, Some o =>
      if Nat.eqb o t then Some (mkCState sv None (set_pc t th (PDone m) s)) else None
  | PIncremented _, None | PDone _, _ => None
  end.

Definition run_event (e : event) (s : cstate) : option cstate :=
  match e with
  | EvRequest t remote =>
      match cs_threads s !! t with
      | Some _ => None
      | None => Some (mkCState (cs_server s) (cs_lock s)
                        (<[t := mkThread remote PStart]> (cs_threads s)))
      end
  | EvRun t => th ← cs_threads s !! t; run_thread t th s
  end.

Fixpoint run_events (sched : list event) (s : cstate) : option cstate :=
  match sched with
  | [] => Some s
  | e :: es => s' ← run_event e s; run_events es s'
  end.

Lemma run_event_sound e s s' : run_event e s = Some s' -> cstep s s'.
Proof.
  destruct e as [t remote|t]; simpl.
  - destruct (cs_threads s !! t) eqn:Ht; intros [= <-]. by constructor.
  - destruct (cs_threads s !! t) as [th|] eqn:Ht; [simpl|done].
    unfold run_thread. destruct (th_pc th) eqn:Hpc; intros H; simplify_eq.
    + destruct (cs_lock s) eqn:Hl; simplify_eq. by constructor.
    + by constructor.
    + by constructor.
    + destruct (_ =? _) eqn:E; simplify_eq. constructor; [done..|]. by apply Z.eqb_neq.
    + destruct (cs_lock s) as [o|] eqn:Hl; [|done].
      destruct (Nat.eqb_spec o t); simplify_eq. by constructor.
Qed.

Lemma run_events_sound sched s s' : run_events sched s = Some s' -> rtc cstep s s'.
Proof.
  revert s. induction sched as [|e es IH]; intros s; simpl; [intros [= ->]; constructor|].
  destruct (run_event e s) as [s1|] eqn:E; [simpl|done].
  intros H. eapply rtc_l; eauto using run_event_sound.
Qed.

(** ** The linearization invariant

    [log] lists the threads in the order they took the lock and finished;
    the [i]-th of them was answered [1 + i]. *)

Definition finished (s : cstate) (log : list nat) (t : nat) (th : thread) (m : string) : Prop :=
  exists i, log !! i = Some t /\ m = pretty (1 + Z.of_nat i) /\
            idmap (cs_server s) !! (1 + Z.of_nat i) = Some (th_remote th).

(** What the lock holder has done so far, given that [n] requests finished. *)
Definition holder_ok (s : cstate) (n : Z) (th : thread) : Prop :=
  match th_pc th with
  | PLocked => id (cs_server s) = 1 + n
  | PReplied m => id (cs_server s) = 1 + n /\ m = pretty (1 + n)
  | PMapped m => id (cs_server s) = 1 + n /\ m = pretty (1 + n) /\
                 idmap (cs_server s) !! (1 + n) = Some (th_remote th)
  | PIncremented m => id (cs_server s) = 2 + n /\ m = pretty (1 + n) /\
                      idmap (cs_server s) !! (1 + n) = Some (th_remote th)
  | _ => False
  end.

Definition thread_ok (s : cstate) (log : list nat) (t : nat) (th : thread) : Prop :=
  if decide (cs_lock s = Some t) then t ∉ log /\ holder_ok s (zlen log) th
  else match th_pc th with
       | PStart => t ∉ log
       | PDone m => finished s log t th m
       | _ => False
       end.

Record inv (s : cstate) (log : list nat) : Prop := {
  inv_nodup : NoDup log;
  inv_threads : forall t th, cs_threads s !! t = Some th -> thread_ok s log t th;
  inv_log : forall t, t ∈ log -> is_Some (cs_threads s !! t);
  inv_owner : forall t, cs_lock s = Some t -> is_Some (cs_threads s !! t);
  inv_free : cs_lock s = None -> id (cs_server s) = 1 + zlen log
}.

Lemma inv_init : inv cinit [].
Proof.
  constructor; simpl; try done.
  - constructor.
  - intros t ?%elem_of_nil. done.
Qed.

(** The threads that are not the lock holder keep their status when the
    holder writes fresh map entries only. *)
Lemma finished_mono s s' log t th m :
  (forall k, k < 1 + zlen log -> idmap (cs_server s') !! k = idmap (cs_server s) !! k) ->
  finished s log t th m -> finished s' log t th m.
Proof.
  intros Hm (i & Hi & -> & Hmap). exists i. split; [done|]. split; [done|].
  rewrite Hm; [done|]. apply lookup_lt_Some in Hi. unfold zlen. lia.
Qed.

Lemma thread_ok_other s s' log t th :
  cs_lock s <> Some t -> cs_lock s' <> Some t ->
  (forall k, k < 1 + zlen log -> idmap (cs_server s') !! k = idmap (cs_server s) !! k) ->
  thread_ok s log t th -> thread_ok s' log t th.
Proof.
  unfold thread_ok. intros H1 H2 Hm. rewrite !decide_False by done.
  destruct (th_pc th); try done. by apply finished_mono.
Qed.

(** A step of the lock holder that keeps the lock. *)
Lemma inv_holder_step s log t th p sv :
  inv s log -> cs_lock s = Some t -> cs_threads s !! t = Some th ->
  (forall k, k < 1 + zlen log -> idmap sv !! k = idmap (cs_server s) !! k) ->
  holder_ok (mkCState sv (Some t) ∅) (zlen log) (mkThread (th_remote th) p) ->
  inv (mkCState sv (cs_lock s) (set_pc t th p s)) log.
Proof.
  intros [Hnd Hth Hlog Hown Hfree] Hl Ht Hm Hok. rewrite Hl.
  constructor; simpl; unfold set_pc; try done.
  - intros t' th' Ht'. rewrite lookup_insert in Ht'. case_decide; simplify_eq.
    + unfold thread_ok; simpl. rewrite decide_True by done. split; [|exact Hok].
      specialize (Hth _ _ Ht). unfold thread_ok in Hth. rewrite decide_True in Hth by done.
      apply Hth.
    + apply (thread_ok_other s); simpl; try congruence; auto.
  - intros t' Ht'. rewrite lookup_insert_is_Some. destruct (decide (t = t')); auto.
  - intros t' [= <-]. rewrite lookup_insert_eq. eauto.
Qed.

Lemma inv_not_holder s log t th :
  inv s log -> cs_threads s !! t = Some th ->
  th_pc th <> PStart -> (forall m, th_pc th <> PDone m) ->
  cs_lock s = Some t /\ holder_ok s (zlen log) th.
Proof.
  intros Hi Ht H1 H2. pose proof (inv_threads _ _ Hi _ _ Ht) as Hok.
  unfold thread_ok in Hok. case_decide as Hl; [naive_solver|].
  destruct (th_pc th); naive_solver.
Qed.

Lemma inv_request s log t remote :
  inv s log -> cs_threads s !! t = None ->
  inv (mkCState (cs_server s) (cs_lock s) (<[t := mkThread remote PStart]> (cs_threads s))) log.
Proof.
  intros [Hnd Hth Hlog Hown Hfree] Hn. constructor; simpl; auto.
  - intros t' th' Ht'. rewrite lookup_insert in Ht'. case_decide; simplify_eq.
    + unfold thread_ok; simpl. rewrite decide_False.
      { intros [? Hx]%Hlog. congruence. }
      intros [? Hx]%Hown. congruence.
    + apply Hth in Ht'. exact Ht'.
  - intros t' [? Ht']%Hlog. rewrite lookup_insert_is_Some'. eauto.
  - intros t' [? Ht']%Hown. rewrite lookup_insert_is_Some'. eauto.
Qed.

Lemma inv_acquire s log t th :
  inv s log -> cs_threads s !! t = Some th -> th_pc th = PStart -> cs_lock s = None ->
  inv (mkCState (cs_server s) (Some t) (set_pc t th PLocked s)) log.
Proof.
  intros Hi Ht Hpc Hl. pose proof (inv_threads _ _ Hi _ _ Ht) as Hok.
  unfold thread_ok in Hok. rewrite decide_False, Hpc in Hok by congruence.
  destruct Hi as [Hnd Hth Hlog Hown Hfree]. constructor; simpl; unfold set_pc; try done.
  - intros t' th' Ht'. rewrite lookup_insert in Ht'. case_decide; simplify_eq.
    + unfold thread_ok; simpl. rewrite decide_True by done. split; [done|].
      unfold holder_ok; simpl. auto.
    + apply (thread_ok_other s); simpl; try congruence; auto.
  - intros t' [? Ht']%Hlog. rewrite lookup_insert_is_Some'. eauto.
  - intros t' [= <-]. rewrite lookup_insert_eq. eauto.
Qed.

(** The release appends the thread to the log. *)
Lemma inv_release s log t th m :
  inv s log -> cs_threads s !! t = Some th -> th_pc th = PIncremented m -> cs_lock s = Some t ->
  inv (mkCState (cs_server s) None (set_pc t th (PDone m) s)) (log ++ [t]).
Proof.
  intros Hi Ht Hpc Hl.
  pose proof (inv_threads _ _ Hi _ _ Ht) as Hto. unfold thread_ok in Hto.
  rewrite decide_True in Hto by done. destruct Hto as [Hnl Hok].
  unfold holder_ok in Hok; rewrite Hpc in Hok. destruct Hok as (Hid & -> & Hm).
  destruct Hi as [Hnd Hth Hlog Hown Hfree].
  constructor; simpl; unfold set_pc; try done.
  - apply NoDup_app. split; [done|]. split; [set_solver|]. apply NoDup_singleton.
  - intros t' th' Ht'. rewrite lookup_insert in Ht'. case_decide; simplify_eq.
    + unfold thread_ok; simpl. exists (length log).
      rewrite lookup_app_r, Nat.sub_diag by lia. done.
    + specialize (Hth _ _ Ht'). unfold thread_ok in *; simpl.
      rewrite decide_False in Hth by congruence.
      destruct (th_pc th') as [| | | | |m']; try done; [set_solver|].
      destruct Hth as (i & Hi & -> & Hmi). exists i.
      rewrite lookup_app_l by (by eapply lookup_lt_Some). done.
  - intros t' Ht'. rewrite lookup_insert_is_Some. destruct (decide (t = t')); [auto|].
    right. split; [done|]. apply Hlog. set_solver.
  - intros _. rewrite zlen_app, zlen_cons, zlen_nil. lia.
Qed.

Lemma inv_step s s' log : inv s log -> cstep s s' -> exists log', inv s' log'.
Proof.
  intros Hi Hs. destruct Hs as [s t remote Hn|s t th Ht Hpc Hl|s t th Ht Hpc
    |s t th m Ht Hpc|s t th m Ht Hpc Hmax|s t th m Ht Hpc Hl];
    try (destruct (inv_not_holder _ _ _ _ Hi Ht) as [Hl Hok];
         [congruence..|unfold holder_ok in Hok; rewrite Hpc in Hok]).
  - eauto using inv_request.
  - eauto using inv_acquire.
  - exists log. apply inv_holder_step; auto. unfold holder_ok; simpl. by rewrite Hok.
  - exists log. destruct Hok as [Hid ->]. apply inv_holder_step; simpl; auto.
    + intros k Hk. rewrite lookup_insert_ne; [done|lia].
    + unfold holder_ok; simpl. rewrite Hid, lookup_insert_eq. done.
  - exists log. destruct Hok as (Hid & -> & Hm). apply inv_holder_step; simpl; auto.
    unfold holder_ok; simpl. split; [lia|done].
  - eauto using inv_release.
Qed.

Lemma reachable_inv s : rtc cstep cinit s -> exists log, inv s log.
Proof.
  intros Hr. cut (forall a b, rtc cstep a b -> (exists log, inv a log) -> exists log, inv b log).
  { intros H. eapply H; eauto using inv_init. }
  induction 1; [done|]. intros [log Hi]. eauto using inv_step.
Qed.

Lemma serve_spec remotes s :
  id s + zlen remotes <= INT64_MAX ->
  exists s', serve remotes s = Done (pretty <$> seqZ (id s) (zlen remotes), s') /\
    id s' = id s + zlen remotes /\
    (forall k, k < id s -> idmap s' !! k = idmap s !! k) /\
    (forall i r, remotes !! i = Some r -> idmap s' !! (id s + Z.of_nat i) = Some r).
Proof.
  unfold serve. induction remotes as [|r rs IH] using rev_ind; intros Hb.
  - exists s. rewrite zlen_nil, Z.add_0_r. done.
  - pose proof (zlen_nonneg rs).
    rewrite zlen_app, zlen_cons, zlen_nil in Hb |- *.
    destruct IH as (s' & Hs & Hid & Hlt & Hmap); [lia|].
    rewrite fold_left_app, Hs. simpl. unfold IDInc.
    destruct (id s' =? INT64_MAX) eqn:E; [apply Z.eqb_eq in E; lia|]. simpl.
    eexists. split; [|simpl; split; [|split]].
    + rewrite seqZ_app by lia. rewrite fmap_app, Hid. done.
    + simpl in *. lia.
    + intros k Hk. simpl. rewrite lookup_insert_ne; [auto|]. unfold zlen in *. lia.
    + intros i r' Hi. simpl. apply lookup_app_Some in Hi as [Hi|[Hge Hi]].
      * rewrite lookup_insert_ne; [auto|]. apply lookup_lt_Some in Hi. unfold zlen in *. lia.
      * apply list_lookup_singleton_Some in Hi as [Hz <-].
        replace (id s + Z.of_nat i) with (id s + zlen rs) by (unfold zlen; lia).
        by rewrite lookup_insert_eq.
Qed.

(** ** Properties *)

(** C11: whatever the interleaving of concurrent handlers, two finished
    requests never receive the same sequence number, and every finished
    request is recorded in [idmap] under the number it was given. *)
Theorem concurrent_ids_unique s t1 t2 r1 r2 m1 m2 :
  rtc cstep cinit s -> t1 <> t2 ->
  cs_threads s !! t1 = Some (mkThread r1 (PDone m1)) ->
  cs_threads s !! t2 = Some (mkThread r2 (PDone m2)) ->
  m1 <> m2 /\ exists n1, m1 = pretty n1 /\ idmap (cs_server s) !! n1 = Some r1.
Proof.
  intros [log Hi]%reachable_inv Hne H1 H2.
  assert (F : forall t r m, cs_threads s !! t = Some (mkThread r (PDone m)) ->
    finished s log t (mkThread r (PDone m)) m).
  { intros t r m Ht. pose proof (inv_threads _ _ Hi _ _ Ht) as Hok.
    unfold thread_ok in Hok. case_decide; [|done]. by destruct Hok as [_ []]. }
  apply F in H1 as (i1 & Hi1 & -> & Hm1). apply F in H2 as (i2 & Hi2 & -> & Hm2).
  split; [|eauto]. intros Heq%(inj pretty).
  assert (i1 = i2) by lia. congruence.
Qed.

(** A two-thread run: both take the lock one after the other. *)
Definition two_done : cstate :=
  mkCState (mkServer 3 (<[2 := "b"]> (<[1 := "a"]> ∅))) None
    (<[1%nat := mkThread "b" (PDone "2")]> (<[0%nat := mkThread "a" (PDone "1")]> ∅)).

Lemma concurrent_ids_unique_witness :
  rtc cstep cinit two_done /\
  "1" <> "2" /\ exists n1, "1" = pretty n1 /\ idmap (cs_server two_done) !! n1 = Some "a".
Proof.
  assert (Hr : rtc cstep cinit two_done).
  { apply (run_events_sound
      ([EvRequest 0 "a"; EvRun 0; EvRequest 1 "b"; EvRun 0; EvRun 0; EvRun 0; EvRun 0;
        EvRun 1; EvRun 1; EvRun 1; EvRun 1; EvRun 1])). vm_compute. reflexivity. }
  split; [exact Hr|].
  apply (concurrent_ids_unique two_done 0 1 "a" "b" "1" "2" Hr); vm_compute; congruence.
Defined.

(** Served one after the other from [id = n], [k] requests are answered
    [n, n+1, ..., n+k-1] in order, each recorded with its requester, with no
    overflow while [n + k] fits a [long long]. *)
Theorem serve_sequence remotes s :
  id s + zlen remotes <= INT64_MAX ->
  exists s', serve remotes s = Done (pretty <$> seqZ (id s) (zlen remotes), s') /\
    id s' = id s + zlen remotes /\
    (forall i r, remotes !! i = Some r -> idmap s' !! (id s + Z.of_nat i) = Some r).
Proof.
  intros H. destruct (serve_spec remotes s H) as (s' & ? & ? & _ & ?). eauto.
Qed.

Lemma serve_sequence_witness :
  id init_server + zlen ["a"; "b"] <= INT64_MAX /\
  exists s', serve ["a"; "b"] init_server = Done (["1"; "2"], s') /\ id s' = 3 /\
    (forall i r, ["a"; "b"] !! i = Some r -> idmap s' !! (1 + Z.of_nat i) = Some r).
Proof.
  split; [vm_compute; congruence|].
  apply (serve_sequence ["a"; "b"] init_server). vm_compute. congruence.
Defined.
