(* ===== verification/RwLock.v ===== *)
(** * The spinning read/write signal

    Models [rw_r_lock], [rw_w_lock], [rw_r_unlock] and [rw_w_unlock] of
    [multi_net_io/src/libevent_handle.cc], which guard the connection map
    and each connection's input and output.  The signal is one
    [std::atomic<int>]: positive while readers hold it, negative while
    writers do.  A lock operation is a spin on [load] followed by a separate
    [fetch_add]/[fetch_sub]; [istep] interleaves threads between the two,
    [astep] runs them as one. *)

From S2P Require Import Prelude.

(** Where a thread is in one of the four operations. *)
Inductive rwpc :=
| Idle
| RTested     (* rw_r_lock: loop left, fetch_add pending *)
| WTested     (* rw_w_lock: loop left, fetch_sub pending *)
| Reading
| Writing
| RULoaded    (* rw_r_unlock: test passed, fetch_sub pending *)
| WULoaded.   (* rw_w_unlock: test passed, fetch_add pending *)

#[export] Instance rwpc_eq_dec : EqDecision rwpc.
Proof. solve_decision. Defined.

Record rwstate := mkRw { signal_int : Z; rw_threads : list rwpc }.

Definition rwinit (n : nat) : rwstate := mkRw 0 (replicate n Idle).

(** The loop tests and the atomic updates, as the code has them. *)
Definition r_lock_may_pass (s : Z) : bool := negb (s <? 0).
Definition w_lock_may_pass (s : Z) : bool := negb (0 <? s).
Definition r_unlock_test (s : Z) : bool := 0 <? s.
Definition w_unlock_test (s : Z) : bool := s <? 0.

(** Interleaving at the granularity of atomic operations. *)
Inductive istep : rwstate -> rwstate -> Prop :=
| i_r_test s ts i : ts !! i = Some Idle -> r_lock_may_pass s = true ->
    istep (mkRw s ts) (mkRw s (<[i := RTested]> ts))
| i_r_add s ts i : ts !! i = Some RTested ->
    istep (mkRw s ts) (mkRw (s + 1) (<[i := Reading]> ts))
| i_w_test s ts i : ts !! i = Some Idle -> w_lock_may_pass s = true ->
    istep (mkRw s ts) (mkRw s (<[i := WTested]> ts))
| i_w_sub s ts i : ts !! i = Some WTested ->
    istep (mkRw s ts) (mkRw (s - 1) (<[i := Writing]> ts))
| i_ru_test s ts i : ts !! i = Some Reading ->
    istep (mkRw s ts) (mkRw s (<[i := if r_unlock_test s then RULoaded else Idle]> ts))
| i_ru_sub s ts i : ts !! i = Some RULoaded ->
    istep (mkRw s ts) (mkRw (s - 1) (<[i := Idle]> ts))
| i_wu_test s ts i : ts !! i = Some Writing ->
    istep (mkRw s ts) (mkRw s (<[i := if w_unlock_test s then WULoaded else Idle]> ts))
| i_wu_add s ts i : ts !! i = Some WULoaded ->
    istep (mkRw s ts) (mkRw (s + 1) (<[i := Idle]> ts)).

(** Each operation as a whole: what a single thread sees when no other
    thread runs between its test and its update. *)
Definition rw_r_lock (s : Z) : option Z := if r_lock_may_pass s then Some (s + 1) else None.
Definition rw_w_lock (s : Z) : option Z := if w_lock_may_pass s then Some (s - 1) else None.
Definition rw_r_unlock (s : Z) : Z := if r_unlock_test s then s - 1 else s.
Definition rw_w_unlock (s : Z) : Z := if w_unlock_test s then s + 1 else s.

Inductive astep : rwstate -> rwstate -> Prop :=
| a_r_lock s ts i s' : ts !! i = Some Idle -> rw_r_lock s = Some s' ->
    astep (mkRw s ts) (mkRw s' (<[i := Reading]> ts))
| a_w_lock s ts i s' : ts !! i = Some Idle -> rw_w_lock s = Some s' ->
    astep (mkRw s ts) (mkRw s' (<[i := Writing]> ts))
| a_r_unlock s ts i : ts !! i = Some Reading ->
    astep (mkRw s ts) (mkRw (rw_r_unlock s) (<[i := Idle]> ts))
| a_w_unlock s ts i : ts !! i = Some Writing ->
    astep (mkRw s ts) (mkRw (rw_w_unlock s) (<[i := Idle]> ts)).

Definition count (p : rwpc) (ts : list rwpc) : Z := zlen (filter (fun q => q = p) ts).

(** ** Lemmas *)

Lemma count_cons p q ts : count p (q :: ts) = (if decide (q = p) then 1 else 0) + count p ts.
Proof. unfold count. rewrite filter_cons. case_decide; [by rewrite zlen_cons|done]. Qed.

Lemma count_insert p q r ts i :
  ts !! i = Some q ->
  count p (<[i := r]> ts) =
    count p ts - (if decide (q = p) then 1 else 0) + (if decide (r = p) then 1 else 0).
Proof.
  revert i. induction ts as [|x ts IH]; intros [|i] H; simplify_eq/=.
  - rewrite !count_cons. lia.
  - rewrite !count_cons, (IH _ H). lia.
Qed.

Lemma count_nonneg p ts : 0 <= count p ts.
Proof. apply zlen_nonneg. Qed.

Lemma count_pos p ts i : ts !! i = Some p -> 1 <= count p ts.
Proof.
  intros H. pose proof (count_insert p p Idle ts i H) as E.
  rewrite decide_True in E by done. pose proof (count_nonneg p (<[i := Idle]> ts)).
  destruct (decide (Idle = p)) as [<-|]; [|lia].
  unfold count, zlen. assert (Hin : Idle ∈ filter (fun q => q = Idle) ts).
  { apply list_elem_of_filter. split; [done|]. by eapply list_elem_of_lookup_2. }
  destruct (filter _ ts); [by apply elem_of_nil in Hin|simpl; lia].
Qed.

Lemma count_init p n : p <> Idle -> count p (replicate n Idle) = 0.
Proof.
  intros Hp. induction n as [|n IH]; [done|]. simpl. rewrite count_cons, IH.
  rewrite decide_False by congruence. lia.
Qed.

(** With whole operations, the signal counts the holders and the two kinds
    never overlap. *)
Definition ainv (st : rwstate) : Prop :=
  let r := count Reading (rw_threads st) in
  let w := count Writing (rw_threads st) in
  signal_int st = r - w /\ (r = 0 \/ w = 0).

Ltac rw_tests :=
  unfold rw_r_lock, rw_w_lock, rw_r_unlock, rw_w_unlock, r_lock_may_pass,
    w_lock_may_pass, r_unlock_test, w_unlock_test in *.

Lemma ainv_step s s' : ainv s -> astep s s' -> ainv s'.
Proof.
  unfold ainv. intros Hi Hs. destruct Hs as [s ts i s' Ht Hl|s ts i s' Ht Hl|s ts i Ht|s ts i Ht];
    simpl in *; rw_tests; pose proof (count_nonneg Reading ts); pose proof (count_nonneg Writing ts);
    pose proof (count_pos _ _ _ Ht) as Hp;
    rewrite !(count_insert _ _ _ _ _ Ht); simpl;
    repeat case_test_in Hl; simplify_eq; zb; repeat case_test; zb; lia.
Qed.

Lemma ainv_reachable n s : rtc astep (rwinit n) s -> ainv s.
Proof.
  intros Hr. cut (forall a b, rtc astep a b -> ainv a -> ainv b).
  { intros H. eapply H; [done|]. split; simpl; rewrite !count_init by done; lia. }
  induction 1; eauto using ainv_step.
Qed.

(** ** Properties *)

(** When each lock operation runs without interruption, a reader and a
    writer never hold the signal together, the signal is the number of
    readers minus the number of writers, and an unlock brings it back (its
    guard never swallows a release). *)
Theorem rw_atomic_excludes_reader_writer n st :
  rtc astep (rwinit n) st ->
  signal_int st = count Reading (rw_threads st) - count Writing (rw_threads st) /\
  ~ (exists i j, rw_threads st !! i = Some Reading /\ rw_threads st !! j = Some Writing) /\
  (forall i, rw_threads st !! i = Some Reading -> rw_r_unlock (signal_int st) = signal_int st - 1) /\
  (forall i, rw_threads st !! i = Some Writing -> rw_w_unlock (signal_int st) = signal_int st + 1).
Proof.
  intros [Hs Hx]%ainv_reachable. split; [done|].
  assert (P : forall p i, rw_threads st !! i = Some p -> 1 <= count p (rw_threads st))
    by (intros; by eapply count_pos).
  pose proof (count_nonneg Reading (rw_threads st)).
  pose proof (count_nonneg Writing (rw_threads st)).
  split; [|split].
  - intros (i & j & Hi%P & Hj%P). lia.
  - intros i Hi%P. rw_tests. case_test; zb; lia.
  - intros i Hi%P. rw_tests. case_test; zb; lia.
Qed.

Lemma rw_atomic_excludes_reader_writer_witness :
  let st := mkRw 2 [Reading; Reading] in
  2 = count Reading [Reading; Reading] - count Writing [Reading; Reading] /\
  ~ (exists i j, rw_threads st !! i = Some Reading /\ rw_threads st !! j = Some Writing) /\
  (forall i, rw_threads st !! i = Some Reading -> rw_r_unlock (signal_int st) = signal_int st - 1) /\
  (forall i, rw_threads st !! i = Some Writing -> rw_w_unlock (signal_int st) = signal_int st + 1).
Proof.
  intros st. apply (rw_atomic_excludes_reader_writer 2 st).
  eapply rtc_l; [by apply (a_r_lock 0 [Idle; Idle] 0 1)|].
  eapply rtc_l; [by apply (a_r_lock 1 [Reading; Idle] 1 2)|].
  constructor.
Defined.

(** The signal does not exclude writers from each other: even with
    uninterrupted operations, any number of threads can be inside
    [rw_w_lock]'s critical section at once, the signal going to [-n]. *)
Theorem rw_writers_not_exclusive n :
  rtc astep (rwinit n) (mkRw (- Z.of_nat n) (replicate n Writing)).
Proof.
  assert (H : forall k m, rtc astep (mkRw (- Z.of_nat k) (replicate k Writing ++ replicate m Idle))
                (mkRw (- Z.of_nat (k + m)) (replicate (k + m) Writing))).
  { intros k m. revert k. induction m as [|m IH]; intros k.
    - rewrite Nat.add_0_r, app_nil_r. constructor.
    - eapply rtc_l.
      + apply (a_w_lock _ _ k (- Z.of_nat k - 1)).
        * simpl. rewrite lookup_app_r; rewrite length_replicate; [|lia]. by rewrite Nat.sub_diag.
        * rw_tests. case_test; [done|]. zb. lia.
      + simpl. rewrite insert_app_r_alt; rewrite length_replicate; [|lia].
        rewrite Nat.sub_diag. simpl.
        replace (replicate k Writing ++ Writing :: replicate m Idle)
          with (replicate (S k) Writing ++ replicate m Idle)
          by (rewrite replicate_S_end, <- app_assoc; done).
        replace (- Z.of_nat k - 1) with (- Z.of_nat (S k)) by lia.
        replace (k + S m)%nat with (S k + m)%nat by lia. apply IH. }
  exact (H 0%nat n).
Qed.

(** The test and the update of a lock operation are separate atomics:
    interleaved, a reader and a writer can hold the signal at the same time,
    and the signal then reads [0], as if free. *)
Theorem rw_interleaved_reader_and_writer :
  exists st, rtc istep (rwinit 2) st /\
    rw_threads st = [Reading; Writing] /\ signal_int st = 0.
Proof.
  exists (mkRw 0 [Reading; Writing]). split; [|done].
  eapply rtc_l; [by apply (i_r_test 0 [Idle; Idle] 0)|].
  eapply rtc_l; [by apply (i_w_test 0 [RTested; Idle] 1)|].
  eapply rtc_l; [by apply (i_r_add 0 [RTested; WTested] 0)|].
  eapply rtc_l; [by apply (i_w_sub 1 [Reading; WTested] 1)|].
  constructor.
Qed.
