(* ===== verification/MultiBuffer.v ===== *)
(** * The packet buffers

    Models [multi_net_io/include/multi_buffer.h] and
    [multi_net_io/src/multi_buffer.cc]: [DynamicBuffer], a list of 1024-byte
    blocks, and [FixedBuffer], a window over caller-supplied memory.  Sizes
    and offsets are C [int]s: an overflowing addition, a negative [memcpy]
    length and an access outside a block are [Crash]. *)

From S2P Require Import Prelude.

Definition BLOCK_SIZE : Z := 1024.

Definition int_in_range (z : Z) : bool := (- 2 ^ 31 <=? z) && (z <=? INT_MAX).
Definition int_add (a b : Z) : outcome Z :=
  if int_in_range (a + b) then Done (a + b) else Crash.

(** ** DynamicBuffer *)

Module DynamicBuffer.

Record t := mk { blocks_list : list (list byte); tail_offset_in_block : Z }.

Definition new : t := mk [] 0.

Definition capacity (b : t) : Z := i32 (u64 (zlen (blocks_list b) * BLOCK_SIZE)).

Definition size (b : t) : Z :=
  let count := zlen (blocks_list b) in
  let count := if 0 <? count then count - 1 else count in
  count * BLOCK_SIZE + tail_offset_in_block b.

Definition clear (b : t) : t :=
  mk ((fun _ => replicate (Z.to_nat BLOCK_SIZE) x00) <$> blocks_list b) 0.

Definition destory (b : t) : t := mk [] 0.

Definition add_blocks (i : Z) (b : t) : t :=
  mk (blocks_list b ++ replicate (Z.to_nat i) (replicate (Z.to_nat BLOCK_SIZE) x00))
     (tail_offset_in_block b).

Definition check_space (offset sz : Z) (expand : bool) (b : t) : outcome (bool * t) :=
  e ← int_add offset sz;
  if capacity b <? e then
    if negb expand then Done (false, b)
    else
      let require := e - capacity b in
      let require := if Z.rem require BLOCK_SIZE =? 0
                     then Z.quot require BLOCK_SIZE
                     else Z.quot require BLOCK_SIZE + 1 in
      Done (true, add_blocks require b)
  else Done (true, b).

(** The [while (size != 0)] loop of [put] from [block_it] on.  [data] is not
    advanced between blocks.  Returns the blocks and the new tail, if set. *)
Fixpoint put_loop (data : list byte) (offset sz : Z) (append_byte : bool)
    (blks : list (list byte)) : outcome (list (list byte) * option Z) :=
  if sz =? 0 then Done (blks, None) else
  match blks with
  | [] => Crash
  | blk :: rest =>
      if BLOCK_SIZE - offset <? sz then
        chunk ← memread 0 (BLOCK_SIZE - offset) data;
        blk' ← memwrite offset chunk blk;
        '(rest', tl) ← put_loop data 0 (sz - (BLOCK_SIZE - offset)) append_byte rest;
        Done (blk' :: rest', tl)
      else
        chunk ← memread 0 sz data;
        blk' ← memwrite offset chunk blk;
        Done (blk' :: rest, if append_byte then Some (offset + sz) else None)
  end.

Definition put (data : list byte) (offset sz : Z) (b : t) : outcome (bool * t) :=
  '(_, b) ← check_space offset sz true b;
  e ← int_add offset sz;
  let append_byte := size b <? e in
  let index := Z.quot offset BLOCK_SIZE in
  let offset := Z.rem offset BLOCK_SIZE in
  _ ← assert_c ((0 <=? index) && (index <=? zlen (blocks_list b)));
  '(blks, tl) ← put_loop data offset sz append_byte (zdrop index (blocks_list b));
  Done (true, mk (ztake index (blocks_list b) ++ blks)
                 (default (tail_offset_in_block b) tl)).

(** The loop of [get]: the destination is advanced, so the result is the
    concatenation of the chunks. *)
Fixpoint get_loop (offset sz : Z) (blks : list (list byte)) : outcome (list byte) :=
  if sz =? 0 then Done [] else
  match blks with
  | [] => Crash
  | blk :: rest =>
      if BLOCK_SIZE - offset <? sz then
        chunk ← memread offset (BLOCK_SIZE - offset) blk;
        tl ← get_loop 0 (sz - (BLOCK_SIZE - offset)) rest;
        Done (chunk ++ tl)
      else memread offset sz blk
  end.

(** [None]: the call returns [false]; [Some bytes]: [true] and the copy. *)
Definition get (offset sz : Z) (b : t) : outcome (option (list byte)) :=
  '(ok, b) ← check_space offset sz false b;
  if negb ok then Done None else
  let index := Z.quot offset BLOCK_SIZE in
  let offset := Z.rem offset BLOCK_SIZE in
  _ ← assert_c ((0 <=? index) && (index <=? zlen (blocks_list b)));
  bytes ← get_loop offset sz (zdrop index (blocks_list b));
  Done (Some bytes).

Definition append (data : list byte) (data_size : Z) (b : t) : outcome (Z * t) :=
  let offset := size b in
  '(_, b) ← put data offset data_size b;
  Done (offset, b).

(** [None]: [NULL]; [Some (block, offset)]: the address inside a block. *)
Definition get_address (offset : Z) (b : t) : outcome (option (Z * Z)) :=
  if size b <? offset then Done None else
  let index := Z.quot offset BLOCK_SIZE in
  let offset := Z.rem offset BLOCK_SIZE in
  _ ← assert_c ((0 <=? index) && (index <? zlen (blocks_list b)));
  Done (Some (index, offset)).

(** Well-formed: every block has its full size, the tail lies in a block,
    and all offsets fit an [int]. *)
Record wf (b : t) : Prop := {
  wf_blocks : Forall (fun blk => zlen blk = BLOCK_SIZE) (blocks_list b);
  wf_tail : 0 <= tail_offset_in_block b <= BLOCK_SIZE;
  wf_int : zlen (blocks_list b) * BLOCK_SIZE <= INT_MAX
}.

(** The bytes of all blocks, one after the other: what offsets address. *)
Definition image (b : t) : list byte := concat (blocks_list b).

End DynamicBuffer.

(** ** FixedBuffer *)

Module FixedBuffer.

(** [bytes] is the memory the caller handed to [setBuffer]. *)
Record t := mk { bytes : list byte; length : Z; tail_offset : Z }.

Definition clear (b : t) : outcome t :=
  m ← memwrite 0 (replicate (Z.to_nat (length b)) x00) (bytes b);
  Done (mk m (length b) (tail_offset b)).

Definition setBuffer (buffer : list byte) (len : Z) : outcome t :=
  clear (mk buffer len 0).

Definition put (data : list byte) (offset sz : Z) (b : t) : outcome (bool * t) :=
  e ← int_add offset sz;
  if length b <? e then Done (false, b) else
  let tl := if tail_offset b <? e then e else tail_offset b in
  chunk ← memread 0 sz data;
  m ← memwrite offset chunk (bytes b);
  Done (true, mk m (length b) tl).

(** The copy made by [get]; the C++ function then falls off its end without
    a [return], so its result value is not part of the model. *)
Definition get (offset sz : Z) (b : t) : outcome (list byte) :=
  memread offset sz (bytes b).

Definition append (data : list byte) (sz : Z) (b : t) : outcome (Z * t) :=
  let before_append := tail_offset b in
  '(_, b) ← put data (tail_offset b) sz b;
  Done (before_append, b).

Definition size (b : t) : Z := tail_offset b.
Definition capacity (b : t) : Z := length b.

Record wf (b : t) : Prop := {
  wf_len : zlen (bytes b) = length b;
  wf_tail : 0 <= tail_offset b <= length b;
  wf_int : length b <= INT_MAX
}.

End FixedBuffer.

(** ** Lemmas *)

Lemma int_add_ok a b : - 2 ^ 31 <= a + b <= INT_MAX -> int_add a b = Done (a + b).
Proof.
  intros. unfold int_add, int_in_range.
  rewrite !(proj2 (Z.leb_le _ _)) by lia. done.
Qed.

Section dynamic.
Import DynamicBuffer.

Lemma capacity_wf b : wf b -> capacity b = zlen (blocks_list b) * BLOCK_SIZE.
Proof.
  intros [_ _ Hi]. unfold capacity, BLOCK_SIZE, INT_MAX in *.
  pose proof (zlen_nonneg (blocks_list b)).
  rewrite u64_small by lia. apply i32_small. lia.
Qed.

(** The number of blocks [check_space] adds for [need] missing bytes. *)
Definition blocks_needed (need : Z) : Z := (need + BLOCK_SIZE - 1) / BLOCK_SIZE.

Lemma blocks_needed_code need :
  0 < need ->
  (if Z.rem need BLOCK_SIZE =? 0 then Z.quot need BLOCK_SIZE else Z.quot need BLOCK_SIZE + 1)
  = blocks_needed need.
Proof.
  intros. unfold blocks_needed, BLOCK_SIZE.
  rewrite Z.rem_mod_nonneg, Z.quot_div_nonneg by lia.
  case_test; zb; Z.div_mod_to_equations; lia.
Qed.

Lemma check_space_spec offset sz b :
  wf b -> 0 <= offset -> 0 <= sz -> offset + sz + BLOCK_SIZE <= INT_MAX ->
  exists b', check_space offset sz true b = Done (true, b') /\ wf b' /\
    offset + sz <= capacity b' /\
    tail_offset_in_block b' = tail_offset_in_block b /\
    blocks_list b' = blocks_list b ++
      replicate (Z.to_nat (blocks_needed (offset + sz - capacity b)))
                (replicate (Z.to_nat BLOCK_SIZE) x00) /\
    (capacity b' = Z.max (capacity b) (capacity b + BLOCK_SIZE * blocks_needed (offset + sz - capacity b))).
Proof.
  intros Hwf Ho Hs Hb. pose proof (capacity_wf b Hwf) as Hc.
  unfold check_space. rewrite int_add_ok by (unfold BLOCK_SIZE in *; lia). simpl.
  pose proof (zlen_nonneg (blocks_list b)).
  destruct (capacity b <? offset + sz) eqn:E; zb.
  - rewrite blocks_needed_code by lia. eexists. split; [done|].
    set (n := blocks_needed (offset + sz - capacity b)).
    assert (Hn : 0 < n /\ (n - 1) * BLOCK_SIZE < offset + sz - capacity b <= n * BLOCK_SIZE).
    { subst n. unfold blocks_needed, BLOCK_SIZE. Z.div_mod_to_equations. lia. }
    assert (Hwf' : wf (add_blocks n b)).
    { destruct Hwf as [H1 H2 H3]. constructor; simpl; [|done|].
      - apply Forall_app. split; [done|]. apply Forall_replicate. by vm_compute.
      - rewrite zlen_app, zlen_replicate. unfold BLOCK_SIZE in *. lia. }
    split; [done|]. pose proof (capacity_wf _ Hwf') as Hc'. rewrite Hc'. simpl.
    rewrite zlen_app, zlen_replicate. unfold BLOCK_SIZE in *.
    repeat split; try lia.
  - exists b. split; [done|]. split; [done|].
    assert (Hn : blocks_needed (offset + sz - capacity b) <= 0).
    { unfold blocks_needed, BLOCK_SIZE. Z.div_mod_to_equations. lia. }
    replace (Z.to_nat _) with O by lia. simpl. rewrite app_nil_r.
    repeat split; try lia. unfold BLOCK_SIZE. lia.
Qed.

(** One block of [put]/[get]: the write fits below the block's end. *)
Lemma put_loop_fits data offset sz ap blk rest :
  0 <= offset -> 0 < sz -> offset + sz <= BLOCK_SIZE -> zlen blk = BLOCK_SIZE -> sz <= zlen data ->
  exists blk', put_loop data offset sz ap (blk :: rest) =
      Done (blk' :: rest, if ap then Some (offset + sz) else None) /\
    memwrite offset (ztake sz data) blk = Done blk'.
Proof.
  intros Ho Hs Hf Hl Hd. simpl.
  rewrite (proj2 (Z.eqb_neq _ _)), (proj2 (Z.ltb_ge _ _)) by lia.
  rewrite memread_done by lia. simpl. unfold zsub. rewrite zdrop_nonpos by lia.
  assert (Hz : zlen (ztake sz data) = sz) by (rewrite zlen_ztake; lia).
  rewrite memwrite_done by lia. eauto.
Qed.

Lemma put_loop_spills data offset sz ap blk rest :
  0 <= offset < BLOCK_SIZE -> BLOCK_SIZE - offset < sz -> zlen blk = BLOCK_SIZE -> sz <= zlen data ->
  exists blk', memwrite offset (ztake (BLOCK_SIZE - offset) data) blk = Done blk' /\
    put_loop data offset sz ap (blk :: rest) =
      ('(rest', tl) ← put_loop data 0 (sz - (BLOCK_SIZE - offset)) ap rest; Done (blk' :: rest', tl)).
Proof.
  intros Ho Hs Hl Hd. simpl.
  rewrite (proj2 (Z.eqb_neq sz 0)), (proj2 (Z.ltb_lt _ _)) by lia.
  rewrite memread_done by lia. simpl. unfold zsub. rewrite zdrop_nonpos by lia.
  assert (Hz : zlen (ztake (BLOCK_SIZE - offset) data) = BLOCK_SIZE - offset) by (rewrite zlen_ztake; lia).
  rewrite memwrite_done by lia. eauto.
Qed.

(** Splitting a well-formed block list at the block of [offset]. *)
Lemma block_split (bs : list (list byte)) i :
  0 <= i < zlen bs -> exists blk rest, zdrop i bs = blk :: rest /\ bs = ztake i bs ++ blk :: rest /\
    zlen (ztake i bs) = i.
Proof.
  intros. destruct (zdrop i bs) as [|blk rest] eqn:E.
  - pose proof (zlen_zdrop i bs) as Hz. rewrite E, zlen_nil in Hz. lia.
  - exists blk, rest. split; [done|]. rewrite <- E, ztake_zdrop. split; [done|].
    rewrite zlen_ztake. lia.
Qed.

Lemma index_bounds offset sz b :
  wf b -> 0 <= offset -> 0 < sz -> offset + sz <= capacity b ->
  0 <= offset / BLOCK_SIZE < zlen (blocks_list b) /\ 0 <= offset mod BLOCK_SIZE < BLOCK_SIZE.
Proof.
  intros Hwf ???. rewrite (capacity_wf b Hwf) in *. unfold BLOCK_SIZE in *.
  Z.div_mod_to_equations. lia.
Qed.

(** [put] once [check_space] is done, with the block of [offset] exposed. *)
Lemma put_unfold data offset sz b b1 blk rest :
  check_space offset sz true b = Done (true, b1) ->
  0 <= offset -> - 2 ^ 31 <= offset + sz <= INT_MAX ->
  0 <= offset / BLOCK_SIZE <= zlen (blocks_list b1) ->
  zdrop (offset / BLOCK_SIZE) (blocks_list b1) = blk :: rest ->
  put data offset sz b =
    ('(blks, tl) ← put_loop data (offset mod BLOCK_SIZE) sz (size b1 <? offset + sz) (blk :: rest);
     Done (true, mk (ztake (offset / BLOCK_SIZE) (blocks_list b1) ++ blks)
                   (default (tail_offset_in_block b1) tl))).
Proof.
  intros Hc Ho Hr Hi Hz. unfold put. rewrite Hc. simpl. rewrite int_add_ok by done. simpl.
  rewrite Z.quot_div_nonneg, Z.rem_mod_nonneg by (unfold BLOCK_SIZE; lia).
  rewrite !(proj2 (Z.leb_le _ _)) by lia. simpl. by rewrite Hz.
Qed.

Lemma get_unfold offset sz b :
  wf b -> 0 <= offset -> 0 < sz -> offset + sz <= capacity b ->
  get offset sz b =
    (bytes ← get_loop (offset mod BLOCK_SIZE) sz (zdrop (offset / BLOCK_SIZE) (blocks_list b));
     Done (Some bytes)).
Proof.
  intros Hwf Ho Hs Hc. pose proof (index_bounds _ _ _ Hwf Ho Hs Hc).
  pose proof (capacity_wf b Hwf) as Hcap. pose proof (wf_int b Hwf).
  unfold get, check_space. rewrite int_add_ok by lia. simpl.
  rewrite (proj2 (Z.ltb_ge _ _)) by lia. simpl.
  rewrite Z.quot_div_nonneg, Z.rem_mod_nonneg by (unfold BLOCK_SIZE; lia).
  rewrite !(proj2 (Z.leb_le _ _)) by lia. done.
Qed.

Lemma get_loop_fits offset sz blk rest :
  0 <= offset -> 0 < sz -> offset + sz <= BLOCK_SIZE -> zlen blk = BLOCK_SIZE ->
  get_loop offset sz (blk :: rest) = Done (zsub offset sz blk).
Proof.
  intros. simpl. rewrite (proj2 (Z.eqb_neq _ _)), (proj2 (Z.ltb_ge _ _)) by lia.
  apply memread_done; lia.
Qed.

Lemma get_loop_spills offset sz blk rest :
  0 <= offset < BLOCK_SIZE -> BLOCK_SIZE - offset < sz -> zlen blk = BLOCK_SIZE ->
  get_loop offset sz (blk :: rest) =
    (tl ← get_loop 0 (sz - (BLOCK_SIZE - offset)) rest;
     Done (zsub offset (BLOCK_SIZE - offset) blk ++ tl)).
Proof.
  intros. simpl. rewrite (proj2 (Z.eqb_neq sz 0)), (proj2 (Z.ltb_lt _ _)) by lia.
  by rewrite memread_done by lia.
Qed.

Lemma put_loop_wf data offset sz ap blks :
  0 <= offset < BLOCK_SIZE -> 0 <= sz -> offset + sz <= zlen blks * BLOCK_SIZE ->
  sz <= zlen data ->
  Forall (fun blk => zlen blk = BLOCK_SIZE) blks ->
  exists blks' tl, put_loop data offset sz ap blks = Done (blks', tl) /\
    zlen blks' = zlen blks /\ Forall (fun blk => zlen blk = BLOCK_SIZE) blks' /\
    (forall t, tl = Some t -> 0 <= t <= BLOCK_SIZE).
Proof.
  revert offset sz. induction blks as [|blk rest IH]; intros offset sz Ho Hs Hc Hd Hf.
  - rewrite zlen_nil in Hc. assert (sz = 0) by lia. subst. by eexists _, _.
  - apply Forall_cons in Hf as [Hb Hf]. rewrite zlen_cons in *.
    destruct (decide (sz = 0)) as [->|Hz].
    { exists (blk :: rest), None. rewrite zlen_cons. split_and!; [done|done|by constructor|done]. }
    destruct (decide (BLOCK_SIZE - offset < sz)) as [Hsp|Hfit].
    + destruct (put_loop_spills data offset sz ap blk rest Ho Hsp Hb Hd) as (blk' & Hw & ->).
      apply memwrite_inv in Hw as [Hl _].
      destruct (IH 0 (sz - (BLOCK_SIZE - offset))) as (blks' & tl & -> & Hl' & Hf' & Ht);
        [unfold BLOCK_SIZE in *; lia..|done|].
      simpl. eexists _, _. split; [done|]. rewrite !zlen_cons, Hl'.
      split_and!; [done|constructor; [congruence|done]|done].
    + destruct (put_loop_fits data offset sz ap blk rest) as (blk' & -> & Hw); try lia.
      apply memwrite_inv in Hw as [Hl _].
      eexists _, _. split; [done|]. rewrite !zlen_cons. split; [done|].
      split; [constructor; [congruence|done]|]. intros t. destruct ap; [|done]. intros [= <-]. lia.
Qed.

(** Without [append_byte] the loop never moves the tail. *)
Lemma put_loop_no_append data o s blks blks' tl :
  put_loop data o s false blks = Done (blks', tl) -> tl = None.
Proof.
  revert o s blks' tl. induction blks as [|blk rest IH]; intros o s blks' tl; simpl;
    case_test; [intros; by simplify_eq|done|intros; by simplify_eq|].
  case_test; destruct (memread _ _ _); simpl; try done; destruct (memwrite _ _ _); simpl; try done.
  - destruct (put_loop _ _ _ _ _) as [[? ?]|] eqn:E'; simpl; [|done].
    intros [= <- <-]. by eapply IH.
  - by intros [= <- <-].
Qed.

End dynamic.

(** ** Properties *)

(** From a well-formed buffer, [DynamicBuffer::put] of [sz] bytes at any
    in-range offset never leaves the blocks it owns, succeeds, keeps the
    buffer well formed and makes [capacity() >= offset + sz] by adding only
    as many blocks as are missing. *)
Theorem dynamic_put_safe data offset sz b :
  DynamicBuffer.wf b -> 0 <= offset -> 0 <= sz <= zlen data ->
  offset + sz + BLOCK_SIZE <= INT_MAX ->
  exists b', DynamicBuffer.put data offset sz b = Done (true, b') /\
    DynamicBuffer.wf b' /\ offset + sz <= DynamicBuffer.capacity b' /\
    DynamicBuffer.capacity b' < Z.max (DynamicBuffer.capacity b + 1) (offset + sz + BLOCK_SIZE).
Proof.
  intros Hwf Ho Hs Hb.
  destruct (check_space_spec offset sz b) as (b1 & Hc & Hwf1 & Hcap & Htl & _ & Hcv);
    [done|lia..|].
  pose proof (capacity_wf _ Hwf1) as Hc1.
  assert (Hlt : DynamicBuffer.capacity b1 <
    Z.max (DynamicBuffer.capacity b + 1) (offset + sz + BLOCK_SIZE)).
  { rewrite Hcv. unfold blocks_needed, BLOCK_SIZE in *. Z.div_mod_to_equations. lia. }
  assert (Hq : 0 <= offset / BLOCK_SIZE <= zlen (DynamicBuffer.blocks_list b1)).
  { rewrite Hc1 in Hcap. unfold BLOCK_SIZE in *. Z.div_mod_to_equations. lia. }
  unfold DynamicBuffer.put. rewrite Hc. simpl.
  rewrite int_add_ok by (unfold BLOCK_SIZE in *; lia). simpl.
  rewrite Z.quot_div_nonneg, Z.rem_mod_nonneg by (unfold BLOCK_SIZE; lia).
  rewrite !(proj2 (Z.leb_le _ _)) by lia. simpl.
  set (i := offset / BLOCK_SIZE) in *.
  destruct (put_loop_wf data (offset mod BLOCK_SIZE) sz (DynamicBuffer.size b1 <? offset + sz)
              (zdrop i (DynamicBuffer.blocks_list b1))) as (blks & tl & -> & Hl & Hf & Ht).
  - unfold BLOCK_SIZE. Z.div_mod_to_equations. lia.
  - lia.
  - rewrite zlen_zdrop. subst i. unfold BLOCK_SIZE in *. Z.div_mod_to_equations. lia.
  - lia.
  - apply Forall_drop, (DynamicBuffer.wf_blocks b1 Hwf1).
  - simpl. assert (Hlen : zlen (ztake i (DynamicBuffer.blocks_list b1) ++ blks) =
      zlen (DynamicBuffer.blocks_list b1)).
    { rewrite zlen_app, zlen_ztake, Hl, zlen_zdrop. lia. }
    eexists. split; [done|].
    assert (Hwf2 : DynamicBuffer.wf (DynamicBuffer.mk
      (ztake i (DynamicBuffer.blocks_list b1) ++ blks)
      (default (DynamicBuffer.tail_offset_in_block b1) tl))).
    { destruct Hwf1 as [H1 H2 H3]. constructor; simpl.
      - apply Forall_app. split; [apply Forall_take, H1|done].
      - destruct tl; simpl; auto.
      - by rewrite Hlen. }
    split; [done|]. rewrite (capacity_wf _ Hwf2). simpl. rewrite Hlen, <- Hc1. done.
Qed.

Lemma dynamic_put_safe_witness :
  exists b', DynamicBuffer.put [x01; x02; x03] 2000 3 DynamicBuffer.new = Done (true, b') /\
    DynamicBuffer.wf b' /\ 2003 <= DynamicBuffer.capacity b' /\
    DynamicBuffer.capacity b' < Z.max 1 3027.
Proof.
  apply (dynamic_put_safe [x01; x02; x03] 2000 3 DynamicBuffer.new).
  - constructor; simpl; [constructor|unfold BLOCK_SIZE; lia|vm_compute; congruence].
  - lia.
  - vm_compute. split; congruence.
  - vm_compute. congruence.
Defined.

(** A [put] that stays inside one block is read back exactly by [get]. *)
Theorem dynamic_put_get_one_block data offset sz b :
  DynamicBuffer.wf b -> 0 <= offset -> 0 < sz <= zlen data ->
  offset mod BLOCK_SIZE + sz <= BLOCK_SIZE -> offset + sz + BLOCK_SIZE <= INT_MAX ->
  exists b', DynamicBuffer.put data offset sz b = Done (true, b') /\
    DynamicBuffer.get offset sz b' = Done (Some (ztake sz data)).
Proof.
  intros Hwf Ho Hs Hfit Hb.
  destruct (check_space_spec offset sz b) as (b1 & Hc & Hwf1 & Hcap & Htl & _ & _);
    [done|lia..|].
  destruct (index_bounds offset sz b1) as [Hi Hm]; [done|lia..|].
  destruct (block_split _ _ Hi) as (blk & rest & Hz & Hsplit & Hlt).
  assert (Hf : Forall (fun k => zlen k = BLOCK_SIZE) (blk :: rest)).
  { rewrite <- Hz. apply Forall_drop, (DynamicBuffer.wf_blocks b1 Hwf1). }
  apply Forall_cons in Hf as [Hblk Hrest].
  rewrite (put_unfold data offset sz b b1 blk rest) by
    (done || (unfold BLOCK_SIZE in *; lia)).
  destruct (put_loop_fits data (offset mod BLOCK_SIZE) sz
    (DynamicBuffer.size b1 <? offset + sz) blk rest) as (blk' & -> & Hw); try lia.
  simpl. eexists. split; [done|].
  apply memwrite_inv in Hw as (Hl & Hr & _ & _).
  set (b2 := DynamicBuffer.mk _ _).
  assert (Hlen : zlen (DynamicBuffer.blocks_list b2) = zlen (DynamicBuffer.blocks_list b1)).
  { simpl. rewrite Hsplit at 2. rewrite !zlen_app, !zlen_cons. done. }
  assert (Hwf2 : DynamicBuffer.wf b2).
  { constructor.
    - simpl. apply Forall_app. split; [apply Forall_take, (DynamicBuffer.wf_blocks b1 Hwf1)|].
      constructor; [congruence|done].
    - simpl. pose proof (DynamicBuffer.wf_tail b1 Hwf1). destruct (_ <? _); simpl; lia.
    - rewrite Hlen. apply (DynamicBuffer.wf_int b1 Hwf1). }
  rewrite get_unfold; try lia; [|done|].
  - simpl. rewrite zdrop_app_ge by lia. rewrite Hlt, Z.sub_diag, zdrop_nonpos by lia.
    rewrite get_loop_fits by lia. simpl.
    rewrite zlen_ztake, Z.min_l, Z.max_r in Hr by lia. by rewrite Hr.
  - rewrite capacity_wf, Hlen by done. rewrite capacity_wf in Hcap by done. done.
Qed.

Lemma dynamic_put_get_one_block_witness :
  exists b', DynamicBuffer.put [x01; x02] 1030 2 DynamicBuffer.new = Done (true, b') /\
    DynamicBuffer.get 1030 2 b' = Done (Some [x01; x02]).
Proof.
  apply (dynamic_put_get_one_block [x01; x02] 1030 2 DynamicBuffer.new).
  - constructor; simpl; [constructor|unfold BLOCK_SIZE; lia|vm_compute; congruence].
  - lia.
  - vm_compute. split; congruence.
  - vm_compute. congruence.
  - vm_compute. congruence.
Defined.

(** A [put] that crosses one block boundary is not read back: the source
    pointer is not advanced, so the second block receives the beginning of
    the data again, and [get] returns the first [k] bytes followed by the
    first [sz - k] bytes, where [k] is the room left in the first block. *)
Theorem dynamic_put_get_two_blocks data offset sz b :
  DynamicBuffer.wf b -> 0 <= offset -> 0 < sz <= zlen data ->
  BLOCK_SIZE < offset mod BLOCK_SIZE + sz <= 2 * BLOCK_SIZE ->
  offset + sz + BLOCK_SIZE <= INT_MAX ->
  let k := BLOCK_SIZE - offset mod BLOCK_SIZE in
  exists b', DynamicBuffer.put data offset sz b = Done (true, b') /\
    DynamicBuffer.get offset sz b' = Done (Some (ztake k data ++ ztake (sz - k) data)).
Proof.
  intros Hwf Ho Hs Hspan Hb k.
  destruct (check_space_spec offset sz b) as (b1 & Hc & Hwf1 & Hcap & Htl & _ & _);
    [done|lia..|].
  destruct (index_bounds offset sz b1) as [Hi Hm]; [done|lia..|].
  destruct (block_split _ _ Hi) as (blk & rest & Hz & Hsplit & Hlt).
  assert (Hf : Forall (fun k => zlen k = BLOCK_SIZE) (blk :: rest)).
  { rewrite <- Hz. apply Forall_drop, (DynamicBuffer.wf_blocks b1 Hwf1). }
  apply Forall_cons in Hf as [Hblk Hrest].
  destruct rest as [|blk2 rest].
  { exfalso. rewrite capacity_wf, Hsplit, zlen_app, Hlt, zlen_cons, zlen_nil in Hcap by done.
    unfold BLOCK_SIZE in *. Z.div_mod_to_equations. lia. }
  apply Forall_cons in Hrest as [Hblk2 Hrest].
  rewrite (put_unfold data offset sz b b1 blk (blk2 :: rest)) by
    (done || (unfold BLOCK_SIZE in *; lia)).
  destruct (put_loop_spills data (offset mod BLOCK_SIZE) sz
    (DynamicBuffer.size b1 <? offset + sz) blk (blk2 :: rest)) as (blk' & Hw & ->); try lia.
  destruct (put_loop_fits data 0 (sz - k)
    (DynamicBuffer.size b1 <? offset + sz) blk2 rest) as (blk2' & Hp & Hw2); try lia.
  fold k. rewrite Hp. cbn [mbind outcome_bind]. eexists. split; [done|].
  apply memwrite_inv in Hw as (Hl & Hr & _ & _).
  apply memwrite_inv in Hw2 as (Hl2 & Hr2 & _ & _).
  rewrite zlen_ztake, Z.min_l, Z.max_r in Hr, Hr2 by lia.
  set (b2 := DynamicBuffer.mk _ _).
  assert (Hlen : zlen (DynamicBuffer.blocks_list b2) = zlen (DynamicBuffer.blocks_list b1)).
  { simpl. rewrite Hsplit at 2. rewrite !zlen_app, !zlen_cons. done. }
  assert (Hwf2 : DynamicBuffer.wf b2).
  { constructor.
    - simpl. apply Forall_app. split; [apply Forall_take, (DynamicBuffer.wf_blocks b1 Hwf1)|].
      constructor; [congruence|constructor; [congruence|done]].
    - simpl. pose proof (DynamicBuffer.wf_tail b1 Hwf1). destruct (_ <? _); simpl; lia.
    - rewrite Hlen. apply (DynamicBuffer.wf_int b1 Hwf1). }
  rewrite get_unfold; try lia; [|done|].
  - simpl. rewrite zdrop_app_ge by lia. rewrite Hlt, Z.sub_diag, zdrop_nonpos by lia.
    rewrite get_loop_spills by lia. fold k. rewrite get_loop_fits by lia. simpl.
    subst k. by rewrite Hr, Hr2.
  - rewrite capacity_wf, Hlen by done. rewrite capacity_wf in Hcap by done. done.
Qed.

Lemma dynamic_put_get_two_blocks_witness :
  let data := [x01; x02; x03; x04] in
  exists b', DynamicBuffer.put data 1022 4 DynamicBuffer.new = Done (true, b') /\
    DynamicBuffer.get 1022 4 b' = Done (Some [x01; x02; x01; x02]).
Proof.
  apply (dynamic_put_get_two_blocks [x01; x02; x03; x04] 1022 4 DynamicBuffer.new).
  - constructor; simpl; [constructor|unfold BLOCK_SIZE; lia|vm_compute; congruence].
  - lia.
  - vm_compute. split; congruence.
  - vm_compute. split; congruence.
  - vm_compute. congruence.
Defined.

(** [append] mis-sizes the buffer when it has to add blocks: with [r]
    blocks added and [sz <= 1024 * r], the tail is not moved and [size()]
    grows by [1024 * r] instead of [sz]. *)
Theorem dynamic_append_size_after_growth data sz b :
  DynamicBuffer.wf b -> 0 < sz <= zlen data -> blocks_needed (DynamicBuffer.size b + sz - DynamicBuffer.capacity b) > 0 ->
  DynamicBuffer.blocks_list b <> [] ->
  let r := blocks_needed (DynamicBuffer.size b + sz - DynamicBuffer.capacity b) in
  sz <= BLOCK_SIZE * r -> DynamicBuffer.size b + sz + BLOCK_SIZE <= INT_MAX ->
  forall off b', DynamicBuffer.append data sz b = Done (off, b') ->
  off = DynamicBuffer.size b /\ DynamicBuffer.size b' = DynamicBuffer.size b + BLOCK_SIZE * r.
Proof.
  intros Hwf Hs Hr Hne r Hle Hb off b' Happ.
  pose proof (DynamicBuffer.wf_tail b Hwf) as Htail.
  pose proof (zlen_nonneg (DynamicBuffer.blocks_list b)).
  assert (Hcnt : 0 < zlen (DynamicBuffer.blocks_list b)).
  { destruct (DynamicBuffer.blocks_list b) as [|x xs]; [done|].
    rewrite zlen_cons. pose proof (zlen_nonneg xs). lia. }
  assert (Hsz : DynamicBuffer.size b =
    (zlen (DynamicBuffer.blocks_list b) - 1) * BLOCK_SIZE + DynamicBuffer.tail_offset_in_block b).
  { unfold DynamicBuffer.size. by rewrite (proj2 (Z.ltb_lt _ _)). }
  destruct (check_space_spec (DynamicBuffer.size b) sz b)
    as (b1 & Hc & Hwf1 & Hcap & Htl & Hbl & _); [done|unfold BLOCK_SIZE in *; lia|lia|done|].
  fold r in Hbl, Hr.
  assert (Hz1 : zlen (DynamicBuffer.blocks_list b1) = zlen (DynamicBuffer.blocks_list b) + r).
  { rewrite Hbl, zlen_app, zlen_replicate. lia. }
  assert (Hsz1 : DynamicBuffer.size b1 = DynamicBuffer.size b + BLOCK_SIZE * r).
  { unfold DynamicBuffer.size at 1. rewrite (proj2 (Z.ltb_lt _ _)), Hz1, Htl, Hsz by lia. lia. }
  unfold DynamicBuffer.append, DynamicBuffer.put in Happ. rewrite Hc in Happ. simpl in Happ.
  rewrite int_add_ok in Happ by (unfold BLOCK_SIZE in *; lia). simpl in Happ.
  rewrite (proj2 (Z.ltb_ge (DynamicBuffer.size b1) _)) in Happ by lia.
  destruct (assert_c _) eqn:Ea; [|done]. simpl in Happ.
  set (i := Z.quot (DynamicBuffer.size b) BLOCK_SIZE) in *.
  assert (Hi : 0 <= i <= zlen (DynamicBuffer.blocks_list b1)).
  { unfold assert_c in Ea. case_test_in Ea; [|done]. zb. lia. }
  destruct (put_loop_wf data (Z.rem (DynamicBuffer.size b) BLOCK_SIZE) sz false
    (zdrop i (DynamicBuffer.blocks_list b1))) as (blks & tl & Hp & Hl & _).
  - unfold BLOCK_SIZE. apply Z.rem_bound_pos; unfold BLOCK_SIZE in *; lia.
  - lia.
  - rewrite zlen_zdrop. rewrite (capacity_wf _ Hwf1) in Hcap. subst i.
    rewrite Z.quot_div_nonneg, Z.rem_mod_nonneg by (unfold BLOCK_SIZE in *; lia).
    unfold BLOCK_SIZE in *. Z.div_mod_to_equations. lia.
  - lia.
  - apply Forall_drop, (DynamicBuffer.wf_blocks b1 Hwf1).
  - rewrite Hp in Happ. simpl in Happ. injection Happ as <- <-. split; [done|].
    apply put_loop_no_append in Hp as ->.
    unfold DynamicBuffer.size at 1. simpl. rewrite zlen_app, zlen_ztake, Hl, zlen_zdrop.
    rewrite (proj2 (Z.ltb_lt _ _)) by lia. rewrite Htl, Hsz. lia.
Qed.

(** A buffer holding 1000 bytes in one block. *)
Definition buf1000 : DynamicBuffer.t :=
  DynamicBuffer.mk [replicate 1024 x00] 1000.

Lemma dynamic_append_size_after_growth_witness :
  DynamicBuffer.size buf1000 = 1000 /\
  forall off b', DynamicBuffer.append (replicate 100 x07) 100 buf1000 = Done (off, b') ->
  off = DynamicBuffer.size buf1000 /\
  DynamicBuffer.size b' = DynamicBuffer.size buf1000 + BLOCK_SIZE * 1.
Proof.
  split; [reflexivity|].
  apply (dynamic_append_size_after_growth (replicate 100 x07) 100 buf1000);
    try (vm_compute; congruence).
  - constructor; simpl; [repeat constructor|unfold BLOCK_SIZE; lia|vm_compute; congruence].
  - vm_compute. split; congruence.
Defined.

(** [FixedBuffer] refuses a [put] past its length without touching the
    memory, and otherwise stores the data where [get] reads it back, moves
    the tail to the end of the write and keeps the buffer well formed. *)
Theorem fixed_put_get data offset sz b :
  FixedBuffer.wf b -> 0 <= offset -> 0 <= sz <= zlen data -> offset + sz <= INT_MAX ->
  if FixedBuffer.length b <? offset + sz
  then FixedBuffer.put data offset sz b = Done (false, b)
  else exists b', FixedBuffer.put data offset sz b = Done (true, b') /\ FixedBuffer.wf b' /\
         FixedBuffer.get offset sz b' = Done (ztake sz data) /\
         FixedBuffer.size b' = Z.max (FixedBuffer.size b) (offset + sz) /\
         FixedBuffer.length b' = FixedBuffer.length b /\
         (forall o n, 0 <= o -> 0 <= n -> o + n <= offset \/ offset + sz <= o ->
            o + n <= FixedBuffer.length b ->
            FixedBuffer.get o n b' = FixedBuffer.get o n b).
Proof.
  intros [H1 H2 H3] Ho Hs Hm. unfold FixedBuffer.put, FixedBuffer.get, FixedBuffer.size.
  rewrite int_add_ok by lia. simpl.
  destruct (FixedBuffer.length b <? offset + sz) eqn:E; zb; [done|].
  rewrite memread_done by lia. simpl. unfold zsub at 1. rewrite zdrop_nonpos by lia.
  assert (Hz : zlen (ztake sz data) = sz) by (rewrite zlen_ztake; lia).
  destruct (memwrite _ _ _) as [m|] eqn:Em; [|by rewrite memwrite_done in Em by lia].
  apply memwrite_inv in Em as (Hl & Hr & Hlo & Hhi). rewrite Hz in Hr, Hhi.
  simpl. eexists. split; [done|]. simpl. split_and!.
  - constructor; simpl; [congruence| |done]. case_test; zb; lia.
  - rewrite memread_done by lia. by rewrite Hr.
  - case_test; zb; lia.
  - done.
  - intros o n ?? [?|?] ?; rewrite !memread_done by lia; f_equal; auto with lia.
Qed.

Lemma fixed_put_get_witness :
  let b := FixedBuffer.mk (replicate 8 x00) 8 0 in
  exists b', FixedBuffer.put [x01; x02] 3 2 b = Done (true, b') /\ FixedBuffer.wf b' /\
    FixedBuffer.get 3 2 b' = Done [x01; x02] /\ FixedBuffer.size b' = 5 /\
    FixedBuffer.length b' = 8 /\
    (forall o n, 0 <= o -> 0 <= n -> o + n <= 3 \/ 5 <= o -> o + n <= 8 ->
       FixedBuffer.get o n b' = FixedBuffer.get o n b).
Proof.
  apply (fixed_put_get [x01; x02] 3 2 (FixedBuffer.mk (replicate 8 x00) 8 0)).
  - constructor; simpl; [reflexivity|lia|vm_compute; congruence].
  - lia.
  - vm_compute. split; congruence.
  - vm_compute. congruence.
Defined.
