(* ===== verification/ByteBuffer.v ===== *)
(** * The byte-queue interface

    What the networking layer ([multi_net_io/src/libevent_handle.cc]) needs
    from libevent's buffered events: the operations it calls through
    [bufferevent_read], [bufferevent_write] and [evbuffer_get_length], with
    the laws it relies on.  The client's theorems are proved against this
    class; [EvbufferQueue] discharges it for the chain buffer of
    [libevent/buffer.c]. *)

From S2P Require Import Prelude.

Class ByteBuffer (B : Type) := {
  (** the bytes queued, oldest first *)
  bb_content : B -> list byte;
  (** representation invariant *)
  bb_ok : B -> Prop;
  (** [evbuffer_get_length] *)
  bb_length : B -> Z;
  (** [evbuffer_remove(buf, data, n)]: count, bytes stored at [data], rest *)
  bb_remove : Z -> B -> outcome (Z * list byte * B);
  (** [evbuffer_add(buf, data, n)]: status and buffer *)
  bb_add : list byte -> B -> outcome (Z * B);
  bb_length_spec : forall b, bb_ok b -> bb_length b = zlen (bb_content b);
  bb_remove_spec : forall b n, bb_ok b -> 0 <= n <= INT_MAX ->
    exists b', bb_remove n b =
        Done (zlen (ztake n (bb_content b)), ztake n (bb_content b), b') /\
      bb_content b' = zdrop n (bb_content b) /\ bb_ok b';
  bb_add_spec : forall b d, bb_ok b -> zlen (bb_content b) + zlen d <= EV_SSIZE_MAX ->
    exists r b', bb_add d b = Done (r, b') /\ bb_ok b' /\
      ((r = 0 /\ bb_content b' = bb_content b ++ d) \/
       (r = -1 /\ bb_content b' = bb_content b))
}.

(** [bufferevent_read] and [bufferevent_write] on the two buffers of a
    bufferevent. *)
Definition bufferevent_read `{ByteBuffer B} (size : Z) (input : B)
    : outcome (Z * list byte * B) := bb_remove size input.

Definition bufferevent_write `{ByteBuffer B} (data : list byte) (output : B)
    : outcome (Z * B) :=
  '(r, output) ← bb_add data output;
  if r =? -1 then Done (-1, output) else Done (0, output).

Lemma bufferevent_write_spec `{ByteBuffer B} (b : B) d :
  bb_ok b -> zlen (bb_content b) + zlen d <= EV_SSIZE_MAX ->
  exists r b', bufferevent_write d b = Done (r, b') /\ bb_ok b' /\
    ((r = 0 /\ bb_content b' = bb_content b ++ d) \/
     (r = -1 /\ bb_content b' = bb_content b)).
Proof.
  intros Hb Hm. destruct (bb_add_spec b d Hb Hm) as (r & b' & He & Hok & Hc).
  unfold bufferevent_write. rewrite He. simpl.
  destruct Hc as [[-> Hc]|[-> Hc]]; simpl; eexists _, _; eauto.
Qed.

(** The simplest implementation: a list of bytes that never fails. *)
#[export, program] Instance list_buffer : ByteBuffer (list byte) := {
  bb_content := fun b => b;
  bb_ok := fun _ => True;
  bb_length := fun b => zlen b;
  bb_remove := fun n b => Done (zlen (ztake n b), ztake n b, zdrop n b);
  bb_add := fun d b => Done (0, b ++ d)
}.
Next Obligation. done. Qed.
Next Obligation. eauto. Qed.
Next Obligation. intros b d _ _. eexists _, _. eauto. Qed.
