(* ===== verification/EventMessage.v ===== *)
(** * Event messages on the wire

    Models [struct EventMessageCursor] and [class EventMessage] of
    [multi_net_io/include/event_mess_handle.h], and
    [EventMessage::init_buffer_str], [init_message_ptr] and [copy] of
    [multi_net_io/src/event_mess_handle.cc].  A [const char *] is the memory
    it points at, up to the end of the object ([None] is [NULL]); the C
    string it denotes is [cstr] of that memory. *)

From S2P Require Import Prelude.

#[export] Instance byte_countable : Countable byte :=
  inj_countable' byteZ Zbyte Zbyte_byteZ.

Abbreviation name := (list byte).

Inductive EventMessageErrorNo :=
| SUCCESS | INCOMPLETE_MESSAGE | GROUP_NOT_FOUND | MESS_TYPE_NOT_FOUND
| NONE_UNPROCESSED_MESSAGE | INVALID_HOST | NONE_REQUESTED_MESSAGE.

(** Byte offsets of the six [uint32_t] fields of [EventMessageCursor]. *)
Definition GROUP_NAME_OFF : Z := 0.
Definition MESS_TYPE_OFF : Z := 4.
Definition SEND_HOST_OFF : Z := 8.
Definition RECIVE_HOST_OFF : Z := 12.
Definition MESSAGE_OFF : Z := 16.
Definition MESSAGE_SIZE_OFF : Z := 20.
Definition CURSOR_SIZE : Z := 24.

Record EventMessage := mkMessage {
  group_name : option (list byte);
  mess_type : option (list byte);
  send_host_name : option (list byte);
  recive_host_name : option (list byte);
  message : option (list byte);
  message_size : Z;
  error_no : EventMessageErrorNo;
  will_send : bool;
  will_recive : bool;
  buffer_str : list byte;
  buffer_size : Z
}.

Definition clear : EventMessage :=
  mkMessage None None None None None 0 SUCCESS false false [] 0.

(** The caller's strings are NUL terminated. *)
Definition c_string (s : name) : option (list byte) := Some (s ++ [x00]).

Definition prepare_send (g_name m_type r_host : option (list byte)) (mess : list byte)
    (mess_size : Z) (m : EventMessage) : EventMessage :=
  mkMessage g_name m_type (send_host_name m) r_host (Some mess) mess_size SUCCESS
    true false (buffer_str m) (buffer_size m).

Definition prepare_recive (g_name msg_type : option (list byte)) (m : EventMessage)
    : EventMessage :=
  mkMessage g_name msg_type (send_host_name m) (recive_host_name m) (message m)
    (message_size m) (error_no m) false true (buffer_str m) (buffer_size m).

(** [MESSAGE_CURSOR_PTR->field = v] and the corresponding read. *)
Definition set_field (off v : Z) (buf : list byte) : outcome (list byte) :=
  memwrite off (le_bytes 4 v) buf.
Definition get_field (off : Z) (buf : list byte) : outcome Z :=
  le_value <$> memread off 4 buf.

(** The block [init_buffer_str] repeats for each of the four names: set the
    cursor field, append [strlen + 1] NULs, copy the string over them. *)
Definition append_name (field : Z) (s : option (list byte))
    (st : list byte * Z) : outcome (list byte * Z) :=
  let '(buf, size) := st in
  s ← deref s;
  let s := cstr s in
  buf ← set_field field size buf;
  let buf := buf ++ replicate (Z.to_nat (zlen s + 1)) x00 in
  buf ← memwrite size s buf;
  Done (buf, u32 (size + (zlen s + 1))).

Definition init_buffer_str (m : EventMessage) : outcome EventMessage :=
  let buf := replicate (Z.to_nat CURSOR_SIZE) x00 in
  st ← append_name GROUP_NAME_OFF (group_name m) (buf, CURSOR_SIZE);
  st ← append_name MESS_TYPE_OFF (mess_type m) st;
  st ← append_name SEND_HOST_OFF (send_host_name m) st;
  '(buf, size) ← append_name RECIVE_HOST_OFF (recive_host_name m) st;
  buf ← set_field MESSAGE_OFF size buf;
  buf ← set_field MESSAGE_SIZE_OFF (message_size m) buf;
  let buf := buf ++ replicate (Z.to_nat (message_size m)) x00 in
  payload ← deref (message m);
  payload ← memread 0 (message_size m) payload;
  buf ← memwrite size payload buf;
  Done (mkMessage (group_name m) (mess_type m) (send_host_name m) (recive_host_name m)
          (message m) (message_size m) (error_no m) (will_send m) (will_recive m)
          buf (u32 (size + message_size m))).

(** [buffer_str.c_str() + off]: a pointer into the string and its
    terminating NUL; past that object it is undefined. *)
Definition str_ptr (buf : list byte) (off : Z) : outcome (option (list byte)) :=
  if off <=? zlen buf then Done (Some (zdrop off (buf ++ [x00]))) else Crash.

Definition init_message_ptr (m : EventMessage) : outcome EventMessage :=
  if buffer_size m <=? CURSOR_SIZE then Done m else
  let buf := buffer_str m in
  g ← get_field GROUP_NAME_OFF buf; g ← str_ptr buf g;
  t ← get_field MESS_TYPE_OFF buf; t ← str_ptr buf t;
  sh ← get_field SEND_HOST_OFF buf; sh ← str_ptr buf sh;
  rh ← get_field RECIVE_HOST_OFF buf; rh ← str_ptr buf rh;
  p ← get_field MESSAGE_OFF buf; p ← str_ptr buf p;
  n ← get_field MESSAGE_SIZE_OFF buf;
  Done (mkMessage g t sh rh p n (error_no m) (will_send m) (will_recive m)
          buf (buffer_size m)).

Definition copy (src dst : EventMessage) : outcome EventMessage :=
  init_message_ptr
    (mkMessage (group_name dst) (mess_type dst) (send_host_name dst) (recive_host_name dst)
       (message dst) (message_size dst) (error_no dst) (will_send dst) (will_recive dst)
       (buffer_str src) (buffer_size src)).

(** The names a message carries, as strings. *)
Definition names_of (m : EventMessage) : option (list name) :=
  g ← group_name m; t ← mess_type m; s ← send_host_name m; r ← recive_host_name m;
  Some [cstr g; cstr t; cstr s; cstr r].

Definition payload_of (m : EventMessage) : option (list byte) :=
  ztake (message_size m) <$> message m.

(** ** Reference encoding: cursor, four NUL-terminated names, payload *)

Definition cursor_bytes (g t s r n : Z) : list byte :=
  let o1 := CURSOR_SIZE in
  let o2 := o1 + (g + 1) in
  let o3 := o2 + (t + 1) in
  let o4 := o3 + (s + 1) in
  let o5 := o4 + (r + 1) in
  le_bytes 4 o1 ++ le_bytes 4 o2 ++ le_bytes 4 o3 ++ le_bytes 4 o4 ++ le_bytes 4 o5 ++ le_bytes 4 n.

Definition encode (g t s r : name) (payload : list byte) : list byte :=
  cursor_bytes (zlen g) (zlen t) (zlen s) (zlen r) (zlen payload) ++
  (g ++ [x00]) ++ (t ++ [x00]) ++ (s ++ [x00]) ++ (r ++ [x00]) ++ payload.

(** A message whose names are [g t s r] and whose payload is [p]. *)
Definition outgoing (g t s r : name) (p : list byte) : EventMessage :=
  mkMessage (c_string g) (c_string t) (c_string s) (c_string r) (Some p) (zlen p)
    SUCCESS true false [] 0.

Definition wire_size (g t s r : name) (p : list byte) : Z :=
  CURSOR_SIZE + (zlen g + 1) + (zlen t + 1) + (zlen s + 1) + (zlen r + 1) + zlen p.

(** ** Lemmas *)

(** Side conditions on offsets and layouts. *)
Ltac len_lia :=
  repeat match goal with x := _ |- _ => subst x end;
  rewrite ?zlen_app, ?zlen_cons, ?zlen_nil; unfold CURSOR_SIZE in *; lia.
Ltac name_side := first [done | reflexivity | len_lia].
Ltac ptr_side := first [unfold encode; rewrite <- !app_assoc; reflexivity | len_lia].

Lemma cstr_c_string s : x00 ∉ s -> cstr (s ++ [x00]) = s.
Proof. apply cstr_app_nul. Qed.

Lemma zlen_le_bytes n z : zlen (le_bytes n z) = Z.of_nat n.
Proof. unfold zlen. by rewrite le_bytes_length. Qed.

(** Writing in the middle of a concatenation. *)
Lemma memwrite_mid (pre old post src : list byte) off :
  off = zlen pre -> zlen old = zlen src ->
  memwrite off src (pre ++ old ++ post) = Done (pre ++ src ++ post).
Proof.
  intros -> Hl. pose proof (zlen_nonneg pre). pose proof (zlen_nonneg post).
  pose proof (zlen_nonneg src).
  rewrite memwrite_done; [|done|rewrite !zlen_app; lia].
  rewrite ztake_app_le, ztake_all by lia. do 2 f_equal.
  rewrite zdrop_app_ge by lia. replace (zlen pre + zlen src - zlen pre) with (zlen old) by lia.
  rewrite zdrop_app_ge, Z.sub_diag, zdrop_nonpos by lia. done.
Qed.

Lemma memread_mid (pre mid post : list byte) off n :
  off = zlen pre -> n = zlen mid -> memread off n (pre ++ mid ++ post) = Done mid.
Proof.
  intros -> ->. pose proof (zlen_nonneg pre). pose proof (zlen_nonneg mid).
  pose proof (zlen_nonneg post).
  rewrite memread_done; [|done|done|rewrite !zlen_app; lia].
  rewrite zsub_app_r, Z.sub_diag, zsub_app_l by lia. by rewrite zsub_all.
Qed.

(** Writing inside the first part of a concatenation. *)
Lemma memwrite_app_l (l l' k src : list byte) off :
  memwrite off src l = Done l' -> memwrite off src (l ++ k) = Done (l' ++ k).
Proof.
  unfold memwrite. case_test; [|done]. zb. intros [= <-]. pose proof (zlen_nonneg k).
  pose proof (zlen_nonneg src).
  rewrite !(proj2 (Z.leb_le _ _)) by (rewrite ?zlen_app; lia). simpl.
  rewrite ztake_app_le, zdrop_app_le by lia. by rewrite <- !app_assoc.
Qed.

(** Writing over the NULs just appended at the end. *)
Lemma memwrite_tail (l src : list byte) off n :
  off = zlen l -> 0 <= n ->
  memwrite off src (l ++ replicate (Z.to_nat (zlen src + n)) x00) =
    Done (l ++ src ++ replicate (Z.to_nat n) x00).
Proof.
  intros -> Hn. pose proof (zlen_nonneg src).
  rewrite Z2Nat.inj_add, replicate_add by lia.
  apply memwrite_mid; [done|]. rewrite zlen_replicate. lia.
Qed.

(** One name block: the cursor gets its field, the names written so far are
    followed by the new one. *)
Lemma append_name_spec field s cur cur' names size :
  x00 ∉ s -> memwrite field (le_bytes 4 size) cur = Done cur' ->
  zlen cur = CURSOR_SIZE -> size = CURSOR_SIZE + zlen names -> size + (zlen s + 1) < 2 ^ 32 ->
  append_name field (c_string s) (cur ++ names, size) =
    Done (cur' ++ names ++ s ++ [x00], size + (zlen s + 1)).
Proof.
  intros Hs Hw Hcur Hsz Hb. pose proof (zlen_nonneg s). pose proof (zlen_nonneg names).
  unfold append_name, c_string, set_field. cbn [deref mbind outcome_bind].
  rewrite cstr_c_string, (memwrite_app_l _ _ _ _ _ Hw) by done. cbn [mbind outcome_bind].
  assert (Hc : zlen cur' = zlen cur) by (by apply memwrite_inv in Hw as [? _]).
  rewrite memwrite_tail by (rewrite ?Hsz, ?zlen_app; lia).
  cbn [mbind outcome_bind]. rewrite u32_small, <- !app_assoc by (unfold CURSOR_SIZE in *; lia). done.
Qed.

Lemma init_buffer_str_encode g t s r p :
  x00 ∉ g -> x00 ∉ t -> x00 ∉ s -> x00 ∉ r -> wire_size g t s r p < 2 ^ 32 ->
  init_buffer_str (outgoing g t s r p) =
    Done (mkMessage (c_string g) (c_string t) (c_string s) (c_string r) (Some p) (zlen p)
            SUCCESS true false (encode g t s r p) (wire_size g t s r p)).
Proof.
  intros Hg Ht Hs Hr Hb. unfold wire_size, CURSOR_SIZE in *.
  pose proof (zlen_nonneg g). pose proof (zlen_nonneg t). pose proof (zlen_nonneg s).
  pose proof (zlen_nonneg r). pose proof (zlen_nonneg p).
  unfold init_buffer_str. cbn [outgoing group_name mess_type send_host_name recive_host_name message message_size].
  rewrite <- (app_nil_r (replicate (Z.to_nat CURSOR_SIZE) x00)).
  set (o1 := CURSOR_SIZE). set (o2 := o1 + (zlen g + 1)). set (o3 := o2 + (zlen t + 1)).
  set (o4 := o3 + (zlen s + 1)). set (o5 := o4 + (zlen r + 1)).
  rewrite (append_name_spec _ g _ (le_bytes 4 o1 ++ replicate 20 x00)) by name_side.
  cbn [mbind outcome_bind].
  rewrite (append_name_spec _ t _ (le_bytes 4 o1 ++ le_bytes 4 o2 ++ replicate 16 x00)) by name_side.
  cbn [mbind outcome_bind].
  rewrite (append_name_spec _ s _
    (le_bytes 4 o1 ++ le_bytes 4 o2 ++ le_bytes 4 o3 ++ replicate 12 x00)) by name_side.
  cbn [mbind outcome_bind].
  rewrite (append_name_spec _ r _
    (le_bytes 4 o1 ++ le_bytes 4 o2 ++ le_bytes 4 o3 ++ le_bytes 4 o4 ++ replicate 8 x00)) by name_side.
  cbn [mbind outcome_bind]. unfold set_field.
  rewrite (memwrite_app_l _ (le_bytes 4 o1 ++ le_bytes 4 o2 ++ le_bytes 4 o3 ++ le_bytes 4 o4 ++
    le_bytes 4 o5 ++ replicate 4 x00)) by reflexivity.
  cbn [mbind outcome_bind].
  rewrite (memwrite_app_l _ (cursor_bytes (zlen g) (zlen t) (zlen s) (zlen r) (zlen p))) by reflexivity.
  cbn [mbind outcome_bind deref].
  rewrite memread_done, zsub_all by lia. cbn [mbind outcome_bind].
  rewrite <- (Z.add_0_r (zlen p)) at 2.
  assert (Hc : zlen (cursor_bytes (zlen g) (zlen t) (zlen s) (zlen r) (zlen p)) = 24) by reflexivity.
  rewrite memwrite_tail; [|rewrite !zlen_app, Hc; len_lia|lia].
  cbn [mbind outcome_bind]. rewrite u32_small by len_lia.
  unfold encode. change (replicate (Z.to_nat 0) x00) with (@nil byte).
  rewrite app_nil_r. do 2 f_equal; first [len_lia | rewrite <- !app_assoc; reflexivity].
Qed.

(** The cursor's fields are read back from the front of any buffer. *)
Lemma get_field_cursor cur rest off v :
  memread off 4 cur = Done (le_bytes 4 v) -> 0 <= v < 2 ^ 32 ->
  get_field off (cur ++ rest) = Done v.
Proof.
  intros Hr Hv. unfold get_field, memread in *. case_test_in Hr; [|done]. zb.
  pose proof (zlen_nonneg rest).
  rewrite !(proj2 (Z.leb_le _ _)) by (rewrite ?zlen_app; lia). cbn [andb].
  rewrite zsub_app_l by lia. apply (f_equal done_val) in Hr. cbn [done_val] in Hr.
  apply (inj Some) in Hr. rewrite Hr. unfold fmap, outcome_fmap.
  rewrite le_value_bytes, Z.mod_small by lia. done.
Qed.

Lemma str_ptr_mid (pre post : list byte) off :
  off = zlen pre -> str_ptr (pre ++ post) off = Done (Some (post ++ [x00])).
Proof.
  intros ->. unfold str_ptr. pose proof (zlen_nonneg post).
  rewrite (proj2 (Z.leb_le _ _)) by (rewrite zlen_app; lia).
  rewrite <- app_assoc, zdrop_app_ge, Z.sub_diag, zdrop_nonpos by lia. done.
Qed.

Definition received (buf : list byte) : EventMessage :=
  mkMessage None None None None None 0 SUCCESS false false buf (zlen buf).

Lemma zlen_encode g t s r p : zlen (encode g t s r p) = wire_size g t s r p.
Proof.
  unfold encode, cursor_bytes, wire_size. rewrite !zlen_app, !zlen_le_bytes, !zlen_cons, !zlen_nil.
  unfold CURSOR_SIZE. lia.
Qed.

Lemma init_message_ptr_decode g t s r p m :
  wire_size g t s r p < 2 ^ 32 -> buffer_str m = encode g t s r p ->
  buffer_size m = zlen (encode g t s r p) ->
  init_message_ptr m =
    Done (mkMessage
      (Some ((g ++ [x00]) ++ (t ++ [x00]) ++ (s ++ [x00]) ++ (r ++ [x00]) ++ p ++ [x00]))
      (Some ((t ++ [x00]) ++ (s ++ [x00]) ++ (r ++ [x00]) ++ p ++ [x00]))
      (Some ((s ++ [x00]) ++ (r ++ [x00]) ++ p ++ [x00]))
      (Some ((r ++ [x00]) ++ p ++ [x00]))
      (Some (p ++ [x00])) (zlen p) (error_no m) (will_send m) (will_recive m)
      (encode g t s r p) (wire_size g t s r p)).
Proof.
  intros Hb Hbuf Hsz. rewrite zlen_encode in Hsz. unfold init_message_ptr.
  pose proof (zlen_nonneg g). pose proof (zlen_nonneg t). pose proof (zlen_nonneg s).
  pose proof (zlen_nonneg r). pose proof (zlen_nonneg p).
  rewrite Hsz, (proj2 (Z.leb_gt _ _)) by (unfold wire_size, CURSOR_SIZE; lia).
  rewrite Hbuf. unfold wire_size, CURSOR_SIZE in Hb.
  set (o1 := CURSOR_SIZE). set (o2 := o1 + (zlen g + 1)). set (o3 := o2 + (zlen t + 1)).
  set (o4 := o3 + (zlen s + 1)). set (o5 := o4 + (zlen r + 1)).
  assert (G : forall off v, memread off 4 (cursor_bytes (zlen g) (zlen t) (zlen s) (zlen r) (zlen p))
      = Done (le_bytes 4 v) -> 0 <= v < 2 ^ 32 -> get_field off (encode g t s r p) = Done v)
    by (intros; by apply get_field_cursor).
  assert (P : forall pre post off, encode g t s r p = pre ++ post -> off = zlen pre ->
      str_ptr (encode g t s r p) off = Done (Some (post ++ [x00])))
    by (intros pre post off -> ?; by apply str_ptr_mid).
  set (c := cursor_bytes (zlen g) (zlen t) (zlen s) (zlen r) (zlen p)).
  assert (Hc : zlen c = 24) by reflexivity.
  rewrite (G GROUP_NAME_OFF o1), (G MESS_TYPE_OFF o2), (G SEND_HOST_OFF o3),
    (G RECIVE_HOST_OFF o4), (G MESSAGE_OFF o5), (G MESSAGE_SIZE_OFF (zlen p))
    by (reflexivity || len_lia).
  cbn [mbind outcome_bind].
  rewrite (P c ((g ++ [x00]) ++ (t ++ [x00]) ++ (s ++ [x00]) ++ (r ++ [x00]) ++ p) o1),
    (P (c ++ (g ++ [x00])) ((t ++ [x00]) ++ (s ++ [x00]) ++ (r ++ [x00]) ++ p) o2),
    (P (c ++ (g ++ [x00]) ++ (t ++ [x00])) ((s ++ [x00]) ++ (r ++ [x00]) ++ p) o3),
    (P (c ++ (g ++ [x00]) ++ (t ++ [x00]) ++ (s ++ [x00])) ((r ++ [x00]) ++ p) o4),
    (P (c ++ (g ++ [x00]) ++ (t ++ [x00]) ++ (s ++ [x00]) ++ (r ++ [x00])) p o5)
    by ptr_side.
  cbn [mbind outcome_bind]. by rewrite <- !app_assoc.
Qed.

Lemma cstr_prefix (s rest : list byte) : x00 ∉ s -> cstr ((s ++ [x00]) ++ rest) = s.
Proof. intros. rewrite <- app_assoc. by apply cstr_app_nul. Qed.

(** ** Properties *)

(** C10: what [init_buffer_str] lays out, [init_message_ptr] reads back: for
    NUL-free names and a total size below 2^32, the receiver of the buffer
    sees the same group, type, sender and receiver names and the same
    payload, and neither side accesses memory outside its buffer. *)
Theorem message_roundtrip g t s r p m :
  x00 ∉ g -> x00 ∉ t -> x00 ∉ s -> x00 ∉ r -> wire_size g t s r p < 2 ^ 32 ->
  exists sent got,
    init_buffer_str (outgoing g t s r p) = Done sent /\
    buffer_size sent = zlen (buffer_str sent) /\
    copy sent m = Done got /\
    names_of got = Some [g; t; s; r] /\ payload_of got = Some p.
Proof.
  intros Hg Ht Hs Hr Hb. eexists _, _.
  split; [by apply init_buffer_str_encode|]. split; [symmetry; apply zlen_encode|].
  split; [apply init_message_ptr_decode; [done|done|symmetry; apply zlen_encode]|].
  split.
  - unfold names_of; simpl. by rewrite !cstr_prefix.
  - unfold payload_of; simpl. rewrite ztake_app_le, ztake_all by lia. done.
Qed.

Lemma message_roundtrip_witness :
  let g := [x67] in let t := [x74] in let h := [x68; x31] in let p := [x00; x01; x02] in
  wire_size g t h h p = 37 /\
  exists sent got,
    init_buffer_str (outgoing g t h h p) = Done sent /\
    buffer_size sent = zlen (buffer_str sent) /\
    copy sent clear = Done got /\
    names_of got = Some [g; t; h; h] /\ payload_of got = Some p.
Proof.
  intros g t h p. split; [reflexivity|].
  apply (message_roundtrip g t h h p clear);
    try (unfold g, t, h; rewrite ?not_elem_of_cons; split_and?; [congruence..|apply not_elem_of_nil]).
  reflexivity.
Defined.

(** [init_message_ptr] trusts the cursor: if the group-name offset a peer
    sent lies beyond the received buffer, forming the pointer is undefined,
    whatever the rest of the message is. *)
Theorem message_offset_unchecked m off :
  CURSOR_SIZE < buffer_size m -> get_field GROUP_NAME_OFF (buffer_str m) = Done off ->
  zlen (buffer_str m) < off -> init_message_ptr m = Crash.
Proof.
  intros Hs Hf Ho. unfold init_message_ptr.
  rewrite (proj2 (Z.leb_gt _ _)) by lia. rewrite Hf. cbn [mbind outcome_bind].
  unfold str_ptr. by rewrite (proj2 (Z.leb_gt _ _)) by lia.
Qed.

Lemma message_offset_unchecked_witness :
  init_message_ptr (received (replicate 40 xff)) = Crash.
Proof.
  apply (message_offset_unchecked _ (2 ^ 32 - 1)); vm_compute; reflexivity.
Defined.
