(* ===== verification/Connection.v ===== *)
(** * Connections: framing over a byte queue

    Models [struct BevInfor], the framing routines and the connection table
    of [multi_net_io/src/libevent_handle.cc] (class [LibeventHandle]) over
    any [ByteBuffer].  A packet is a 4-byte [BufferControlBlock] (its size,
    host order) followed by the body.  [readBuffer*_NoWait] runs inside the
    event-loop callback, where the input only changes between calls.  A spin
    on a signal that nobody will release is [Crash]: the call does not
    return. *)

From S2P Require Import Prelude RwLock ByteBuffer EventMessage.

Definition BLOCK_HEADER : Z := 4. (* sizeof(BufferControlBlock) *)

(** Spin until the signal lets the caller in. *)
Definition w_lock (s : Z) : outcome Z := deref (rw_w_lock s).
Definition r_lock (s : Z) : outcome Z := deref (rw_r_lock s).

Section connection.
Context {B : Type} `{ByteBuffer B}.

Record BevInfor := mkBev {
  ip : name;
  port : Z;
  is_listen : bool;
  input : B;
  output : B;
  block_size : Z;      (* info.block.size *)
  cache_block : bool;
  read_singal : Z;
  write_singal : Z;
  read_low : Z         (* low read watermark of the bufferevent *)
}.

Definition set_read (i : BevInfor) (inp : B) (blk : Z) (cache : bool) (sig low : Z) : BevInfor :=
  mkBev (ip i) (port i) (is_listen i) inp (output i) blk cache sig (write_singal i) low.

Definition set_write (i : BevInfor) (out : B) (sig : Z) : BevInfor :=
  mkBev (ip i) (port i) (is_listen i) (input i) out (block_size i) (cache_block i)
    (read_singal i) sig (read_low i).

(** [int len = evbuffer_get_length(input)] *)
Definition int_length (inp : B) : Z := i32 (bb_length inp).

Definition writeBufferOnce (data : list byte) (data_size : Z) (i : BevInfor)
    : outcome (bool * BevInfor) :=
  s ← w_lock (write_singal i);
  '(r, out) ← bufferevent_write (le_bytes 4 data_size) (output i);
  if r <? 0 then Done (false, set_write i out (rw_w_unlock s)) else
  bytes ← memread 0 data_size data;
  '(r, out) ← bufferevent_write bytes out;
  if r <? 0 then Done (false, set_write i out (rw_w_unlock s)) else
  Done (true, set_write i out (rw_w_unlock s)).

Definition readBufferControlBlock_NoWait (i : BevInfor) : outcome (Z * BevInfor) :=
  s ← w_lock (read_singal i);
  if u64 (int_length (input i)) <? BLOCK_HEADER then
    Done (0, set_read i (input i) (block_size i) (cache_block i) (rw_w_unlock s) (read_low i))
  else
    '(read_size, bytes, inp) ← bufferevent_read BLOCK_HEADER (input i);
    let i' := set_read i inp (i32 (le_value bytes)) true s (read_low i) in
    if read_size <? 0 then
      Done (-1, set_read i' inp (block_size i') true (rw_w_unlock s) (read_low i))
    else Done (read_size, i').

(** [data] is the caller's buffer; the bytes read overwrite its front. *)
Definition readBuffer_NoWait (data : list byte) (i : BevInfor)
    : outcome (Z * list byte * BevInfor) :=
  if negb (cache_block i) then Done (-1, data, i) else
  let max_size := block_size i in
  let len := int_length (input i) in
  if len <? max_size then
    Done (0, data, set_read i (input i) max_size true (rw_w_unlock (read_singal i)) (u64 max_size))
  else
    '(read_size, bytes, inp) ← bufferevent_read (u64 max_size) (input i);
    data ← memwrite 0 bytes data;
    if read_size <? 0 then
      Done (-1, data, set_read i inp max_size true (rw_w_unlock (read_singal i)) 0)
    else
      Done (read_size, data, set_read i inp max_size false (rw_w_unlock (read_singal i)) 0).

Definition get_recive_buffer_length (i : BevInfor) : outcome Z :=
  _ ← r_lock (read_singal i);
  Done (int_length (input i)).

(** [buffer_str.append(block.size, 0)]: a negative size is a huge [size_t]
    and throws. *)
Definition grow_str (buffer_str : list byte) (sz : Z) : outcome (list byte) :=
  if zlen buffer_str <=? u64 sz then
    if u64 sz <=? INT64_MAX then Done (buffer_str ++ replicate (Z.to_nat (u64 sz)) x00) else Crash
  else Done buffer_str.

Definition recive_str_NoWait (buffer_str : list byte) (i : BevInfor)
    : outcome (Z * list byte * BevInfor) :=
  len ← get_recive_buffer_length i;
  if u64 len <=? BLOCK_HEADER then Done (0, buffer_str, i) else
  i ← (if cache_block i then Done i else '(_, i) ← readBufferControlBlock_NoWait i; Done i);
  buffer_str ← grow_str buffer_str (block_size i);
  readBuffer_NoWait buffer_str i.

(** The read loop of [EventMessageHandle::read_callback_message_from_libevent],
    for any handling [deliver] of one received string.  Every iteration that
    continues consumes input, so [fuel = 1 + bytes queued] suffices. *)
Fixpoint receive_loop {St} (deliver : list byte -> St -> outcome (bool * St))
    (fuel : nat) (i : BevInfor) (st : St) : outcome (bool * BevInfor * St) :=
  match fuel with
  | O => Crash
  | S fuel =>
      len ← get_recive_buffer_length i;
      if negb (0 <? len) then Done (true, i, st) else
      '(recive_size, str, i) ← recive_str_NoWait [] i;
      if recive_size <=? 0 then Done (false, i, st) else
      '(ok, st) ← deliver (ztake recive_size str) st;
      if (ok : bool) then receive_loop deliver fuel i st else Done (false, i, st)
  end.

(** ** Specification: the stream still to be delivered *)

Definition frame (body : list byte) : list byte := le_bytes 4 (zlen body) ++ body.

Definition pending (i : BevInfor) : list byte :=
  (if cache_block i then le_bytes 4 (block_size i) else []) ++ bb_content (input i).

Definition body_ok (body : list byte) : Prop := BLOCK_HEADER < zlen body <= INT_MAX.

Record conn_ok (i : BevInfor) : Prop := {
  co_input : bb_ok (input i);
  co_fits : zlen (bb_content (input i)) <= INT_MAX;   (* the length fits in an int *)
  co_signal : read_singal i = 0;
  co_block : cache_block i = true -> BLOCK_HEADER < block_size i <= INT_MAX
}.

(** What may be left once every complete frame is gone. *)
Inductive incomplete : list byte -> Prop :=
| inc_header r : zlen r <= BLOCK_HEADER -> incomplete r
| inc_body n r : BLOCK_HEADER < n <= INT_MAX -> zlen r < n -> incomplete (le_bytes 4 n ++ r).

(** ** Lemmas *)

Lemma int_length_spec inp :
  bb_ok inp -> zlen (bb_content inp) <= INT_MAX -> int_length inp = zlen (bb_content inp).
Proof.
  intros Hok Hf. pose proof (zlen_nonneg (bb_content inp)). unfold int_length, INT_MAX in *.
  rewrite bb_length_spec by done. apply i32_small. lia.
Qed.

(** A length compared with a [sizeof]. *)
Lemma u64_length z : 0 <= z <= INT_MAX -> u64 z = z.
Proof. intros Hz. apply u64_small. unfold INT_MAX in Hz. lia. Qed.

Lemma header_value n : 0 <= n <= INT_MAX -> i32 (le_value (le_bytes 4 n)) = n.
Proof.
  intros. rewrite le_value_bytes, Z.mod_small by (unfold INT_MAX in *; lia).
  apply i32_small. unfold INT_MAX in *. lia.
Qed.

Lemma le_bytes4_inj n m (r s : list byte) :
  0 <= n <= INT_MAX -> 0 <= m <= INT_MAX ->
  le_bytes 4 n ++ r = le_bytes 4 m ++ s -> n = m /\ r = s.
Proof.
  intros Hn Hm Heq. apply app_inj_1 in Heq as [Hh ->]; [|by rewrite !le_bytes_length].
  split; [|done]. rewrite <- (header_value n), <- (header_value m), Hh by done. done.
Qed.

(** Reading the header of a queue that starts with [le_bytes 4 n]. *)
Lemma readControl_spec i n r :
  conn_ok i -> cache_block i = false -> bb_content (input i) = le_bytes 4 n ++ r ->
  BLOCK_HEADER < n <= INT_MAX ->
  exists inp, readBufferControlBlock_NoWait i =
      Done (4, set_read i inp n true (-1) (read_low i)) /\
    bb_ok inp /\ bb_content inp = r.
Proof.
  intros [Hok Hfit Hsig _] Hc Hcont Hn. unfold readBufferControlBlock_NoWait, bufferevent_read.
  rewrite Hsig. cbn [mbind outcome_bind w_lock deref rw_w_lock w_lock_may_pass].
  pose proof (zlen_nonneg r).
  rewrite int_length_spec, u64_length by auto with mtc. rewrite Hcont, zlen_app, zlen_le_bytes.
  rewrite (proj2 (Z.ltb_ge _ _)) by (unfold BLOCK_HEADER; lia).
  destruct (bb_remove_spec (input i) BLOCK_HEADER Hok) as (inp & -> & Hinp & Hok');
    [unfold BLOCK_HEADER, INT_MAX; lia|].
  assert (Ht : ztake BLOCK_HEADER (le_bytes 4 n ++ r) = le_bytes 4 n) by reflexivity.
  rewrite Hcont, Ht in *. cbn [mbind outcome_bind].
  rewrite header_value, zlen_le_bytes by (unfold BLOCK_HEADER in *; lia).
  exists inp. split; [done|]. split; [done|]. rewrite Hinp. reflexivity.
Qed.

(** The body of a cached block that is completely queued. *)
Lemma readBuffer_complete i body more :
  bb_ok (input i) -> cache_block i = true -> block_size i = zlen body -> body_ok body ->
  (read_singal i = 0 \/ read_singal i = -1) -> bb_content (input i) = body ++ more ->
  zlen (bb_content (input i)) <= INT_MAX ->
  exists inp, readBuffer_NoWait (replicate (length body) x00) i =
      Done (zlen body, body, set_read i inp (zlen body) false 0 0) /\
    bb_ok inp /\ bb_content inp = more.
Proof.
  intros Hok Hc Hblk [Hb1 Hb2] Hsig Hcont Hfit. unfold readBuffer_NoWait, bufferevent_read.
  pose proof (zlen_nonneg more). rewrite Hc, Hblk, int_length_spec, Hcont, zlen_app by done. cbn [negb].
  rewrite (proj2 (Z.ltb_ge _ _)) by lia. unfold BLOCK_HEADER, INT_MAX in *.
  rewrite u64_small by lia.
  destruct (bb_remove_spec (input i) (zlen body) Hok) as (inp & -> & Hinp & Hok'); [unfold INT_MAX; lia|].
  rewrite Hcont, ztake_app_le, ztake_all by lia. cbn [mbind outcome_bind].
  rewrite memwrite_done by (rewrite ?zlen_replicate; unfold zlen; lia).
  cbn [mbind outcome_bind]. rewrite ztake_nonpos by lia.
  rewrite zdrop_all by (rewrite zlen_replicate; unfold zlen; lia).
  rewrite app_nil_r, (proj2 (Z.ltb_ge (zlen body) 0)) by lia. cbn [app].
  exists inp. split.
  - destruct Hsig as [-> | ->]; reflexivity.
  - split; [done|]. rewrite Hinp, Hcont, zdrop_app_ge, Z.sub_diag, zdrop_nonpos by lia. done.
Qed.

Lemma grow_empty n : 0 <= n <= INT_MAX -> grow_str [] n = Done (replicate (Z.to_nat n) x00).
Proof.
  intros. unfold grow_str, INT_MAX, INT64_MAX in *. rewrite u64_small, zlen_nil by lia.
  rewrite !(proj2 (Z.leb_le _ _)) by lia. done.
Qed.

Lemma length_free i :
  bb_ok (input i) -> zlen (bb_content (input i)) <= INT_MAX -> read_singal i = 0 ->
  get_recive_buffer_length i = Done (zlen (bb_content (input i))).
Proof.
  intros Hok Hfit Hsig. unfold get_recive_buffer_length. rewrite Hsig.
  cbn [mbind outcome_bind r_lock deref rw_r_lock r_lock_may_pass]. by rewrite int_length_spec.
Qed.

Lemma length_spec i : conn_ok i -> get_recive_buffer_length i = Done (zlen (bb_content (input i))).
Proof. intros []. by apply length_free. Qed.

(** The state once the header of the next frame is cached: reached from both
    entry states of [recive_str_NoWait]. *)
Lemma recive_cached i n r :
  conn_ok i -> pending i = le_bytes 4 n ++ r -> BLOCK_HEADER < n <= INT_MAX ->
  BLOCK_HEADER < zlen (bb_content (input i)) ->
  exists i', bb_ok (input i') /\ zlen (bb_content (input i')) <= INT_MAX /\ cache_block i' = true /\ block_size i' = n /\
    (read_singal i' = 0 \/ read_singal i' = -1) /\ bb_content (input i') = r /\
    recive_str_NoWait [] i = readBuffer_NoWait (replicate (Z.to_nat n) x00) i'.
Proof.
  intros Hok Hp Hn Hlen. unfold recive_str_NoWait. rewrite length_spec by done.
  cbn [mbind outcome_bind]. rewrite u64_length by (split; [auto with mtc|apply Hok]).
  rewrite (proj2 (Z.leb_gt _ _)) by lia. pose proof (co_fits i Hok) as Hfit.
  unfold pending in Hp. destruct (cache_block i) eqn:Hc.
  - apply le_bytes4_inj in Hp as [<- Hr];
      [|pose proof (co_block i Hok Hc); unfold BLOCK_HEADER in *; lia..].
    exists i. destruct Hok as [Hb _ Hs _]. cbn [mbind outcome_bind]. rewrite grow_empty by (unfold BLOCK_HEADER in *; lia).
    split_and!; auto.
  - rewrite app_nil_l in Hp. rewrite Hp, zlen_app, zlen_le_bytes in Hfit. destruct (readControl_spec i n r Hok Hc Hp Hn) as (inp & -> & Hb & Hr).
    exists (set_read i inp n true (-1) (read_low i)). cbn [mbind outcome_bind].
    rewrite grow_empty by (unfold set_read; simpl; unfold BLOCK_HEADER in *; lia).
    split_and!; auto. simpl. rewrite Hr. lia.
Qed.

Lemma recive_complete i body more :
  conn_ok i -> body_ok body -> pending i = frame body ++ more ->
  exists i', recive_str_NoWait [] i = Done (zlen body, body, i') /\
    conn_ok i' /\ pending i' = more /\ cache_block i' = false.
Proof.
  intros Hok Hb Hp. unfold frame in Hp. rewrite <- app_assoc in Hp. unfold body_ok, BLOCK_HEADER in *.
  pose proof (zlen_nonneg more).
  assert (Hlen : 4 < zlen (bb_content (input i))).
  { unfold pending in Hp. destruct (cache_block i) eqn:Hc.
    - apply le_bytes4_inj in Hp as [_ ->];
        [|pose proof (co_block i Hok Hc); unfold BLOCK_HEADER in *; lia..].
      rewrite zlen_app. lia.
    - rewrite app_nil_l in Hp. rewrite Hp. rewrite !zlen_app, zlen_le_bytes. lia. }
  destruct (recive_cached i (zlen body) (body ++ more)) as (i1 & Hok1 & Hf1 & Hc1 & Hb1 & Hs1 & Hr1 & ->);
    [done|done|unfold BLOCK_HEADER; lia|done|].
  replace (Z.to_nat (zlen body)) with (length body) by (unfold zlen; lia).
  destruct (readBuffer_complete i1 body more) as (inp & -> & Hoki & Hci); try done.
  eexists. split; [done|]. split.
  - constructor; simpl; try done. rewrite Hci. rewrite Hr1, zlen_app in Hf1. lia.
  - done.
Qed.

Lemma recive_incomplete i r :
  conn_ok i -> incomplete r -> pending i = r ->
  exists i' str, recive_str_NoWait [] i = Done (0, str, i') /\ conn_ok i' /\ pending i' = r.
Proof.
  intros Hok Hinc Hp. destruct (decide (BLOCK_HEADER < zlen (bb_content (input i)))) as [Hl|Hl].
  - assert (Hn : exists n s, r = le_bytes 4 n ++ s /\ BLOCK_HEADER < n <= INT_MAX /\ zlen s < n).
    { destruct Hinc as [r Hr|n s Hn Hs]; [|eauto].
      rewrite <- Hp in Hr. unfold pending in Hr. rewrite zlen_app in Hr.
      destruct (cache_block i); rewrite ?zlen_le_bytes, ?zlen_nil in Hr; unfold BLOCK_HEADER in *; lia. }
    destruct Hn as (n & s & -> & Hn & Hs).
    destruct (recive_cached i n s Hok Hp Hn Hl) as (i1 & Hok1 & Hf1 & Hc1 & Hb1 & Hs1 & Hr1 & ->).
    unfold readBuffer_NoWait. rewrite Hc1, Hb1, int_length_spec, Hr1 by done. cbn [negb].
    rewrite (proj2 (Z.ltb_lt _ _)) by lia.
    eexists _, _. split; [done|].
    split; [constructor; simpl; [done|done|by destruct Hs1 as [-> | ->]|done]|].
    unfold pending; simpl. by rewrite Hr1.
  - exists i, []. unfold recive_str_NoWait. rewrite length_spec by done. cbn [mbind outcome_bind].
    rewrite u64_length by (split; [auto with mtc|apply Hok]).
    rewrite (proj2 (Z.leb_le _ _)) by (unfold BLOCK_HEADER in *; lia). done.
Qed.

Lemma pending_content_pos i body more :
  conn_ok i -> body_ok body -> pending i = frame body ++ more -> 0 < zlen (bb_content (input i)).
Proof.
  intros Hok Hb Hp. unfold pending, frame, body_ok, BLOCK_HEADER in *. pose proof (zlen_nonneg more).
  destruct (cache_block i) eqn:Hc.
  - rewrite <- app_assoc in Hp. apply le_bytes4_inj in Hp as [_ ->];
      [|pose proof (co_block i Hok Hc); unfold BLOCK_HEADER in *; lia..].
    rewrite zlen_app. lia.
  - rewrite app_nil_l in Hp. rewrite Hp. rewrite !zlen_app, zlen_le_bytes. lia.
Qed.

Lemma recive_consumes i body more i' :
  conn_ok i -> pending i = frame body ++ more -> pending i' = more ->
  body_ok body -> cache_block i' = false ->
  zlen (bb_content (input i')) < zlen (bb_content (input i)).
Proof.
  intros Hok Hp Hp' Hb Hc'. unfold pending in *. rewrite Hc' in Hp'. simpl in Hp'. subst more.
  unfold frame, body_ok, BLOCK_HEADER in *. destruct (cache_block i) eqn:Hc.
  - rewrite <- app_assoc in Hp. apply le_bytes4_inj in Hp as [_ ->];
      [|pose proof (co_block i Hok Hc); unfold BLOCK_HEADER in *; lia..].
    rewrite zlen_app. lia.
  - rewrite app_nil_l in Hp. rewrite Hp. rewrite !zlen_app, zlen_le_bytes. lia.
Qed.

(** The whole loop: complete frames are delivered in order, the rest stays. *)
Lemma receive_loop_spec {St} (f : list byte -> St -> St) bodies rest i st fuel :
  conn_ok i -> Forall body_ok bodies -> incomplete rest ->
  pending i = concat (frame <$> bodies) ++ rest ->
  (Z.to_nat (zlen (bb_content (input i))) < fuel)%nat ->
  exists r i', receive_loop (fun b s => Done (true, f b s)) fuel i st =
      Done (r, i', fold_left (fun s b => f b s) bodies st) /\
    conn_ok i' /\ pending i' = rest.
Proof.
  revert i st fuel. induction bodies as [|b bodies IH]; intros i st fuel Hok Hf Hinc Hp Hfuel;
    (destruct fuel as [|fuel]; [lia|]); cbn [receive_loop]; rewrite length_spec by done;
    cbn [mbind outcome_bind].
  - destruct (0 <? zlen (bb_content (input i))) eqn:E; cbn [negb].
    + destruct (recive_incomplete i rest Hok Hinc Hp) as (i' & str & -> & Hok' & Hp').
      simpl. eauto.
    + simpl. eauto.
  - apply Forall_cons in Hf as [Hb Hf]. cbn [fmap list_fmap concat] in Hp. rewrite <- app_assoc in Hp.
    rewrite (proj2 (Z.ltb_lt _ _)) by (by eapply pending_content_pos). cbn [negb].
    destruct (recive_complete i b _ Hok Hb Hp) as (i' & -> & Hok' & Hp' & Hc').
    cbn [mbind outcome_bind]. unfold body_ok, BLOCK_HEADER in Hb.
    rewrite (proj2 (Z.leb_gt _ _)), ztake_all by lia. cbn [fold_left].
    apply IH; try done.
    pose proof (recive_consumes i b _ i' Hok Hp Hp' Hb Hc').
    pose proof (zlen_nonneg (bb_content (input i'))). lia.
Qed.

(** [writeBufferOnce] on a free connection. *)
Lemma write_spec (data : list byte) (i : BevInfor) :
  bb_ok (output i) -> write_singal i = 0 -> zlen data <= INT_MAX ->
  zlen (bb_content (output i)) + zlen (frame data) <= EV_SSIZE_MAX ->
  exists ok i', writeBufferOnce data (zlen data) i = Done (ok, i') /\
    write_singal i' = 0 /\ bb_ok (output i') /\
    if ok then bb_content (output i') = bb_content (output i) ++ frame data
    else bb_content (output i') = bb_content (output i) \/
         bb_content (output i') = bb_content (output i) ++ le_bytes 4 (zlen data).
Proof.
  intros Hok Hs Hb Hm. unfold writeBufferOnce. rewrite Hs. unfold frame in Hm.
  rewrite zlen_app in Hm. pose proof (zlen_nonneg data).
  cbn [mbind outcome_bind w_lock deref rw_w_lock w_lock_may_pass].
  destruct (bufferevent_write_spec (output i) (le_bytes 4 (zlen data)) Hok ltac:(lia))
    as (r & out & -> & Hok1 & [[-> Hc]|[-> Hc]]); cbn [mbind outcome_bind].
  - simpl (0 <? 0). rewrite memread_done, zsub_all by lia. cbn [mbind outcome_bind].
    destruct (bufferevent_write_spec out data Hok1 ltac:(rewrite Hc, zlen_app; lia))
      as (r & out2 & -> & Hok2 & [[-> Hc2]|[-> Hc2]]); simpl; eexists _, _; (split; [done|]);
      (split; [done|]); (split; [done|]); simpl.
    + unfold frame. rewrite Hc2, Hc, <- app_assoc. done.
    + right. by rewrite Hc2, Hc.
  - simpl. eexists _, _. split; [done|]. split; [done|]. split; [done|]. simpl. by left.
Qed.

End connection.
Arguments BevInfor B : clear implicits.

(** ** Properties *)

(** C3: however the stream was cut into reads, when the frames queued (or
    cached) have bodies of 5 to [INT_MAX] bytes and the queue is not longer than
    an [int] counts, one run of the receive loop hands over exactly the complete
    frames, in order and each once, and keeps the incomplete remainder for the
    next run; the loop terminates within [1 + queued bytes] iterations and leaves
    the read signal free. *)
Theorem receive_loop_delivers_frames `{ByteBuffer B} (bodies : list (list byte)) rest (i : BevInfor B) :
  conn_ok i -> Forall body_ok bodies -> incomplete rest ->
  pending i = concat (frame <$> bodies) ++ rest ->
  exists r i', receive_loop (fun b s => Done (true, s ++ [b]))
      (S (Z.to_nat (zlen (bb_content (input i))))) i [] = Done (r, i', bodies) /\
    conn_ok i' /\ pending i' = rest.
Proof.
  intros Hok Hf Hinc Hp.
  destruct (receive_loop_spec (fun b (s : list (list byte)) => s ++ [b]) bodies rest i []
              (S (Z.to_nat (zlen (bb_content (input i)))))) as (r & i' & He & Hok' & Hp');
    try done; [lia|].
  assert (Hl : forall acc, fold_left (fun s b => s ++ [b]) bodies acc = acc ++ bodies).
  { clear. induction bodies as [|b bs IH]; intros acc; simpl; [by rewrite app_nil_r|].
    rewrite IH, <- app_assoc. done. }
  rewrite Hl in He. eauto.
Qed.

(** A connection whose queue holds one whole packet and the start of another. *)
Definition demo_conn : BevInfor (list byte) :=
  mkBev [] 0 false (frame [x01; x02; x03; x04; x05] ++ [x09; x00]) [] 0 false 0 0 0.

Lemma receive_loop_delivers_frames_witness :
  exists r i', receive_loop (fun b s => Done (true, s ++ [b]))
      (S (Z.to_nat (zlen (bb_content (input demo_conn))))) demo_conn [] =
      Done (r, i', [[x01; x02; x03; x04; x05]]) /\
    conn_ok i' /\ pending i' = [x09; x00].
Proof.
  apply (receive_loop_delivers_frames [[x01; x02; x03; x04; x05]] [x09; x00] demo_conn).
  - constructor; done.
  - constructor; [|constructor]. vm_compute. split; congruence.
  - apply inc_header. vm_compute. congruence.
  - reflexivity.
Defined.

(** [writeBufferOnce] on a free connection always releases the write
    signal; it returns [true] exactly when the whole frame was queued, and
    when it returns [false] the queue is either unchanged or holds a header
    without its body. *)
Theorem writeBufferOnce_queues_frame `{ByteBuffer B} (data : list byte) (i : BevInfor B) :
  bb_ok (output i) -> write_singal i = 0 -> zlen data <= INT_MAX ->
  zlen (bb_content (output i)) + zlen (frame data) <= EV_SSIZE_MAX ->
  exists ok i', writeBufferOnce data (zlen data) i = Done (ok, i') /\
    write_singal i' = 0 /\ bb_ok (output i') /\
    if ok then bb_content (output i') = bb_content (output i) ++ frame data
    else bb_content (output i') = bb_content (output i) \/
         bb_content (output i') = bb_content (output i) ++ le_bytes 4 (zlen data).
Proof. apply write_spec. Qed.

Lemma writeBufferOnce_queues_frame_witness :
  exists ok i', writeBufferOnce [x07; x08] 2 demo_conn = Done (ok, i') /\
    write_singal i' = 0 /\ bb_ok (output i') /\
    if ok then bb_content (output i') = bb_content (output demo_conn) ++ frame [x07; x08]
    else bb_content (output i') = bb_content (output demo_conn) \/
         bb_content (output i') = bb_content (output demo_conn) ++ le_bytes 4 (zlen [x07; x08]).
Proof.
  apply (writeBufferOnce_queues_frame [x07; x08] demo_conn); [exact I|reflexivity|..];
    vm_compute; congruence.
Defined.

(** [add_bufferevent_connect] and [add_bufferevent_listen] never
    initialise [cache_block] and [block]; if the indeterminate flag reads as
    true, the first receive skips the control block and delivers as many raw
    bytes of the stream as the indeterminate size says. *)
Theorem uninitialised_cache_misreads `{ByteBuffer B} (i : BevInfor B) k :
  bb_ok (input i) -> read_singal i = 0 -> cache_block i = true -> block_size i = k ->
  0 < k <= INT_MAX -> k <= zlen (bb_content (input i)) -> 4 < zlen (bb_content (input i)) <= INT_MAX ->
  exists i', recive_str_NoWait [] i = Done (k, ztake k (bb_content (input i)), i') /\
    bb_content (input i') = zdrop k (bb_content (input i)).
Proof.
  intros Hok Hs Hc Hk Hr Hl [H4 Hfit]. unfold recive_str_NoWait. rewrite length_free by done.
  cbn [mbind outcome_bind]. rewrite u64_length by auto with mtc. rewrite (proj2 (Z.leb_gt _ _)) by (unfold BLOCK_HEADER; lia).
  rewrite Hc. cbn [mbind outcome_bind]. rewrite Hk, grow_empty by lia. cbn [mbind outcome_bind].
  unfold readBuffer_NoWait, bufferevent_read. rewrite Hc, Hk, int_length_spec by done. cbn [negb].
  rewrite (proj2 (Z.ltb_ge _ _)) by lia. unfold INT_MAX in *. rewrite u64_small by lia.
  destruct (bb_remove_spec (input i) k Hok) as (inp & -> & Hinp & Hok'); [unfold INT_MAX in *; lia|].
  assert (Hz : zlen (ztake k (bb_content (input i))) = k) by (rewrite zlen_ztake; lia).
  cbn [mbind outcome_bind]. rewrite memwrite_done by (rewrite ?Hz, ?zlen_replicate; lia).
  cbn [mbind outcome_bind]. rewrite (ztake_nonpos 0), zdrop_all by (rewrite ?Hz, ?zlen_replicate; lia).
  rewrite Hz, (proj2 (Z.ltb_ge k 0)), app_nil_r by lia. simpl. eexists. split; [done|]. simpl. done.
Qed.

Lemma uninitialised_cache_misreads_witness :
  let i := set_read demo_conn (input demo_conn) 6 true 0 0 in
  ztake 6 (bb_content (input i)) = [x05; x00; x00; x00; x01; x02] /\
  exists i', recive_str_NoWait [] i = Done (6, ztake 6 (bb_content (input i)), i') /\
    bb_content (input i') = zdrop 6 (bb_content (input i)).
Proof.
  intros i. split; [vm_compute; reflexivity|].
  apply (uninitialised_cache_misreads i 6); try reflexivity; try exact I.
  - vm_compute. split; congruence.
  - vm_compute. congruence.
  - vm_compute. split; congruence.
Defined.

(** A body of at most four bytes whose header has been read is refused by the
    test for the header's size, however often it is asked for: such a frame is
    not delivered. *)
Theorem short_body_not_delivered `{ByteBuffer B} (i : BevInfor B) buffer_str :
  bb_ok (input i) -> read_singal i = 0 -> zlen (bb_content (input i)) <= BLOCK_HEADER ->
  recive_str_NoWait buffer_str i = Done (0, buffer_str, i).
Proof.
  intros Hok Hs Hl. pose proof (zlen_nonneg (bb_content (input i))). unfold BLOCK_HEADER in *.
  assert (zlen (bb_content (input i)) <= INT_MAX) as Hfit by (unfold INT_MAX; lia).
  unfold recive_str_NoWait. rewrite length_free by done. cbn [mbind outcome_bind].
  rewrite u64_length by lia. by rewrite (proj2 (Z.leb_le _ _)).
Qed.

(** A queue of 2 GB and more has a negative length in the [int] of the network
    layer: the receive loop takes it for empty. *)
Theorem oversized_queue_looks_empty `{ByteBuffer B} {St} (deliver : list byte -> St -> outcome (bool * St))
    fuel (i : BevInfor B) st :
  bb_ok (input i) -> read_singal i = 0 -> 2 ^ 31 <= zlen (bb_content (input i)) < 2 ^ 32 ->
  receive_loop deliver (S fuel) i st = Done (true, i, st).
Proof.
  intros Hok Hs Hl. cbn [receive_loop]. unfold get_recive_buffer_length. rewrite Hs.
  change (r_lock 0) with (Done 1). cbn [mbind outcome_bind].
  assert (int_length (input i) < 0) as Hn; [|by rewrite (proj2 (Z.ltb_ge _ _)) by lia].
  unfold int_length. rewrite bb_length_spec by done. unfold i32.
  pose proof (Z.mod_pos_bound (zlen (bb_content (input i)) + 2 ^ 31) (2 ^ 32)).
  rewrite <- (Z.mod_unique _ _ 1 (zlen (bb_content (input i)) - 2 ^ 31)); lia.
Qed.
