(* ===== verification/ConnectionTable.v ===== *)
(** * The connection table of a [LibeventHandle]

    Models the members of class [LibeventHandle]
    ([multi_net_io/include/libevent_handle.h],
    [multi_net_io/src/libevent_handle.cc]) that keep the table of
    connections: creating, finding and removing a connection, sending to one,
    receiving from one, and the callbacks libevent makes.

    [bev_map] is a [std::map<int, BevInfor>]; its elements are visited in
    increasing order of the key.  [None] is the zero-filled element that
    [bev_map[id]] inserts for an unknown key, whose pointers are [NULL].  The
    event base, the listener and the thread that runs the loop are libevent's
    and the system's; what they decide is the environment [net_env], which also
    gives the two fields of a new [BevInfor] that the code never sets.  Spinning
    on a signal that nobody will release is [Crash]. *)

From S2P Require Import Prelude RwLock ByteBuffer EventMessage Connection.

(** A bufferevent starts with empty buffers. *)
Class NewBuffer (B : Type) `{ByteBuffer B} := {
  bb_new : B;
  bb_new_ok : bb_ok bb_new;
  bb_new_content : bb_content bb_new = []
}.

#[export] Instance list_new : NewBuffer (list byte) :=
  {| bb_new := []; bb_new_ok := I; bb_new_content := eq_refl |}.

Record net_env := mkNet {
  can_connect : name -> Z -> bool;   (* bufferevent_socket_new and _connect *)
  base_ok : bool;                    (* event_base_new *)
  block0 : Z;                        (* indeterminate [block.size] of a new BevInfor *)
  cache0 : bool                      (* indeterminate [cache_block] *)
}.

(** The least key whose element satisfies [P]: where a search over a
    [std::map] in iteration order stops. *)
Definition least_id {A} (P : A -> bool) (m : gmap Z A) : option Z :=
  map_fold (fun k a acc =>
    if P a then Some (match acc with Some k' => Z.min k k' | None => k end) else acc) None m.

Lemma least_id_spec {A} (P : A -> bool) (m : gmap Z A) :
  match least_id P m with
  | Some k => (exists a, m !! k = Some a /\ P a = true) /\
              forall k' a, m !! k' = Some a -> P a = true -> k <= k'
  | None => forall k a, m !! k = Some a -> P a = false
  end.
Proof.
  unfold least_id.
  apply (map_fold_weak_ind (fun acc (m : gmap Z A) =>
    match acc with
    | Some k => (exists a, m !! k = Some a /\ P a = true) /\
                forall k' a, m !! k' = Some a -> P a = true -> k <= k'
    | None => forall k a, m !! k = Some a -> P a = false
    end)).
  - intros k a. by rewrite lookup_empty.
  - intros k a m' acc Hk IH. destruct (P a) eqn:Ha; destruct acc as [k0|].
    + destruct IH as [(a0 & H0 & Hp0) Hmin]. split.
      * destruct (Z.min_spec k k0) as [[? ->]|[? ->]].
        -- exists a. by rewrite lookup_insert_eq.
        -- exists a0. rewrite lookup_insert_ne by congruence. done.
      * intros k' a'. rewrite lookup_insert_Some. intros [[-> ->]|[Hne Hl]] Hp; [lia|].
        specialize (Hmin k' a' Hl Hp). lia.
    + split; [exists a; by rewrite lookup_insert_eq|].
      intros k' a'. rewrite lookup_insert_Some. intros [[-> ->]|[Hne Hl]] Hp; [lia|].
      rewrite (IH k' a' Hl) in Hp. done.
    + destruct IH as [(a0 & H0 & Hp0) Hmin]. split.
      * exists a0. rewrite lookup_insert_ne by congruence. done.
      * intros k' a'. rewrite lookup_insert_Some. intros [[-> ->]|[Hne Hl]] Hp; [congruence|eauto].
    + intros k' a'. rewrite lookup_insert_Some. intros [[-> ->]|[Hne Hl]]; [done|eauto].
Qed.

Module LibeventHandle.
Section table.
Context {B : Type} `{NewBuffer B}.

Record t := mk {
  isFree : bool;
  local_port : Z;
  max_bev_id : Z;
  bev_map_rw_lock_singal : Z;
  bev_map : gmap Z (option (BevInfor B));
  listen_vector_rw_lock_singal : Z;
  listen_id_vector : list Z;
  callback_set : bool                (* callback_funtion != NULL *)
}.

(** [LibeventHandle::LibeventHandle] *)
Definition new : t := mk true 0 0 0 ∅ 0 [] false.

Definition set_signal (h : t) (s : Z) : t :=
  mk (isFree h) (local_port h) (max_bev_id h) s (bev_map h) (listen_vector_rw_lock_singal h)
    (listen_id_vector h) (callback_set h).
Definition set_map (h : t) (m : gmap Z (option (BevInfor B))) : t :=
  mk (isFree h) (local_port h) (max_bev_id h) (bev_map_rw_lock_singal h) m
    (listen_vector_rw_lock_singal h) (listen_id_vector h) (callback_set h).
Definition set_max (h : t) (n : Z) : t :=
  mk (isFree h) (local_port h) n (bev_map_rw_lock_singal h) (bev_map h)
    (listen_vector_rw_lock_singal h) (listen_id_vector h) (callback_set h).
Definition set_listen (h : t) (s : Z) (v : list Z) : t :=
  mk (isFree h) (local_port h) (max_bev_id h) (bev_map_rw_lock_singal h) (bev_map h) s v
    (callback_set h).

Definition put (h : t) (id : Z) (i : BevInfor B) : t := set_map h (<[id := Some i]> (bev_map h)).

(** [bev_map[id]] of an unknown [id] inserts a zero-filled element. *)
Definition at_id (h : t) (id : Z) : option (BevInfor B) * t :=
  match bev_map h !! id with
  | Some e => (e, h)
  | None => (None, set_map h (<[id := None]> (bev_map h)))
  end.

Definition init_handle (e : net_env) (port : Z) (h : t) : bool * t :=
  let h := mk false (local_port h) (max_bev_id h) (bev_map_rw_lock_singal h) (bev_map h)
             (listen_vector_rw_lock_singal h) (listen_id_vector h) (callback_set h) in
  if base_ok e then (true, mk false port 0 0 (bev_map h) 0 (listen_id_vector h) false)
  else (false, h).

Definition set_event_callback (h : t) : t :=
  mk (isFree h) (local_port h) (max_bev_id h) (bev_map_rw_lock_singal h) (bev_map h)
    (listen_vector_rw_lock_singal h) (listen_id_vector h) true.

(** The [BevInfor] built by [add_bufferevent_connect] and [_listen]. *)
Definition peer (e : net_env) (ip : name) (port : Z) (listen : bool) : BevInfor B :=
  mkBev ip port listen bb_new bb_new (block0 e) (cache0 e) 0 0 0.

(** Lock, [bev_map[peer_id] = peer], unlock. *)
Definition store (h : t) (id : Z) (i : BevInfor B) : outcome t :=
  s ← w_lock (bev_map_rw_lock_singal h);
  Done (set_signal (put h id i) (rw_w_unlock s)).

Definition add_bufferevent_connect (e : net_env) (ip : name) (port : Z) (h : t) : outcome (Z * t) :=
  if negb (can_connect e ip port) then Done (-1, h) else
  let peer_id := max_bev_id h in
  let h := set_max h (i32 (max_bev_id h + 1)) in
  h ← store h peer_id (peer e ip port false);
  Done (peer_id, h).

Definition add_bufferevent_listen (e : net_env) (ip : name) (port : Z) (h : t) : outcome (Z * t) :=
  let peer_id := max_bev_id h in
  let h := set_max h (i32 (max_bev_id h + 1)) in
  h ← store h peer_id (peer e ip port true);
  s ← w_lock (listen_vector_rw_lock_singal h);
  Done (peer_id, set_listen h (rw_w_unlock s) (listen_id_vector h ++ [peer_id])).

(** [listen_id_vector.erase(listen_id_vector.begin() + id)]: undefined past the end. *)
Definition erase_at (id : Z) (v : list Z) : outcome (list Z) :=
  if (0 <=? id) && (id <? zlen v) then Done (ztake id v ++ zdrop (id + 1) v) else Crash.

Definition remove_buffevent (id : Z) (h : t) : outcome (Z * t) :=
  s ← w_lock (bev_map_rw_lock_singal h);
  match bev_map h !! id with
  | None => Done (-1, set_signal h (rw_w_unlock s))
  | Some e =>
      info ← deref e;
      h ← (if is_listen info then
             l ← w_lock (listen_vector_rw_lock_singal h);
             v ← erase_at id (listen_id_vector h);
             Done (set_listen h (rw_w_unlock l) v)
           else Done h);
      Done (id, set_signal (set_map h (delete id (bev_map h))) (rw_w_unlock s))
  end.

(** [try_connect]: the test before it is on a constant. *)
Definition try_connect (e : net_env) (ip : name) (port : Z) (h : t) : outcome (Z * t) :=
  add_bufferevent_connect e ip port h.

(** [info.ip == ip && port == info.port]; a zero-filled element has no name and port 0. *)
Definition same_address (ip' : name) (port' : Z) (e : option (BevInfor B)) : bool :=
  match e with
  | Some i => bool_decide (ip i = ip') && (port' =? port i)
  | None => bool_decide (ip' = []) && (port' =? 0)
  end.

Definition get_connection_id (e : net_env) (ip : name) (port : Z) (tryConnect : bool) (h : t)
    : outcome (Z * t) :=
  s ← r_lock (bev_map_rw_lock_singal h);
  let h := set_signal h (rw_r_unlock s) in
  match least_id (same_address ip port) (bev_map h) with
  | Some id => Done (id, h)
  | None => if tryConnect then try_connect e ip port h else Done (-1, h)
  end.

(** The early return for an unknown connection keeps the read lock. *)
Definition send (connect_id : Z) (send_bytes : list byte) (send_size : Z) (h : t)
    : outcome (bool * t) :=
  if connect_id <? 0 then Done (false, h) else
  s ← r_lock (bev_map_rw_lock_singal h);
  match bev_map h !! connect_id with
  | None => Done (false, set_signal h s)
  | Some e =>
      let h := set_signal h (rw_r_unlock s) in
      info ← deref e;
      '(_, info) ← writeBufferOnce send_bytes send_size info;
      Done (true, put h connect_id info)
  end.

(** The lookup shared by the receive functions: [None] for an unknown id. *)
Definition find_info (connect_id : Z) (h : t) : outcome (option (BevInfor B) * t) :=
  s ← r_lock (bev_map_rw_lock_singal h);
  let h := set_signal h (rw_r_unlock s) in
  match bev_map h !! connect_id with
  | None => Done (None, h)
  | Some e => info ← deref e; Done (Some info, h)
  end.

Definition get_recive_buffer_length (connect_id : Z) (h : t) : outcome (Z * t) :=
  '(o, h) ← find_info connect_id h;
  match o with
  | None => Done (0, h)
  | Some info => len ← Connection.get_recive_buffer_length info; Done (len, h)
  end.

Definition recive_str_NoWait (connect_id : Z) (buffer_str : list byte) (h : t)
    : outcome (Z * list byte * t) :=
  '(o, h) ← find_info connect_id h;
  match o with
  | None => Done (-1, buffer_str, h)
  | Some info =>
      '(n, str, info) ← Connection.recive_str_NoWait buffer_str info;
      Done (n, str, put h connect_id info)
  end.

Definition get_listen_connection_count (h : t) : outcome Z :=
  _ ← r_lock (listen_vector_rw_lock_singal h); Done (zlen (listen_id_vector h)).

Definition get_connection_port (id : Z) (h : t) : outcome (Z * t) :=
  s ← r_lock (bev_map_rw_lock_singal h);
  let '(e, h) := at_id h id in
  Done (match e with Some i => port i | None => 0 end, set_signal h (rw_r_unlock s)).

Definition get_connection_ip (id : Z) (h : t) : outcome (name * t) :=
  s ← r_lock (bev_map_rw_lock_singal h);
  let '(e, h) := at_id h id in
  Done (match e with Some i => ip i | None => [] end, set_signal h (rw_r_unlock s)).

(** [ntohl] of a 32-bit value, as an [int]. *)
Definition ntohl (z : Z) : Z := i32 (le_value (rev (le_bytes 4 z))).

(** An accepted connection; [sin_port] is the 16-bit field in network order. *)
Definition connlistener_cb (e : net_env) (ip : name) (sin_port : Z) (h : t) : outcome t :=
  '(id, h) ← get_connection_id e ip (ntohl sin_port) false h;
  if 0 <=? id then Done h else
  '(_, h) ← add_bufferevent_listen e ip sin_port h; Done h.

(** [free_handle]: the loop runs while the map is empty and takes its first
    element. *)
Definition free_handle (h : t) : outcome (bool * t) :=
  if isFree h then Done (false, h) else
  s ← w_lock (bev_map_rw_lock_singal h);
  if decide (bev_map h = ∅) then Crash else
  Done (true, mk true (local_port h) (max_bev_id h) (rw_w_unlock s) ∅
                (listen_vector_rw_lock_singal h) [] (callback_set h)).

End table.
Arguments t B : clear implicits.
End LibeventHandle.

Import LibeventHandle.

(** ** The invariant of a table *)

Section lemmas.
Context {B : Type} `{NewBuffer B}.
Implicit Types (h : t B) (i : BevInfor B).

(** A connection between two operations: both signals free. *)
Record link_ok i : Prop := {
  lk_conn : conn_ok i;
  lk_output : bb_ok (output i);
  lk_signal : write_singal i = 0
}.

Record handle_ok h : Prop := {
  ho_signal : bev_map_rw_lock_singal h = 0;
  ho_listen_signal : listen_vector_rw_lock_singal h = 0;
  ho_links : forall id e, bev_map h !! id = Some e -> exists i, e = Some i /\ link_ok i;
  ho_ids : forall id, is_Some (bev_map h !! id) -> 0 <= id < max_bev_id h;
  ho_max : 0 <= max_bev_id h;
  ho_listen : Forall (fun id => exists i, bev_map h !! id = Some (Some i) /\ is_listen i = true)
                (listen_id_vector h)
}.

(** What the two uninitialised fields of a new connection have to be. *)
Definition env_ok (e : net_env) : Prop := cache0 e = false.

Lemma set_signal_same h : bev_map_rw_lock_singal h = 0 -> set_signal h 0 = h.
Proof. destruct h; simpl. by intros ->. Qed.

Lemma peer_ok e ip port l : env_ok e -> link_ok (peer e ip port l).
Proof.
  intros Hc. unfold peer. split; simpl; [|apply bb_new_ok|done].
  split; simpl; [apply bb_new_ok|by rewrite bb_new_content|done|]. by rewrite Hc.
Qed.

Lemma put_ok h id i j :
  handle_ok h -> bev_map h !! id = Some (Some i) -> link_ok j -> is_listen j = is_listen i ->
  handle_ok (put h id j).
Proof.
  intros [H1 H2 H3 H4 H5 H6] Hi Hj Hl. split; simpl; try done.
  - intros id' e. rewrite lookup_insert_Some. intros [[<- <-]|[_ Hk]]; eauto.
  - intros id'. rewrite lookup_insert_is_Some. intros [<-|[_ Hk]]; eauto.
  - eapply Forall_impl; [exact H6|]. intros id' (i' & Hi' & Hl').
    destruct (decide (id = id')) as [<-|Hne].
    + exists j. rewrite lookup_insert_eq. split; [done|]. congruence.
    + exists i'. by rewrite lookup_insert_ne.
Qed.

(** A new connection under the next free id. *)
Definition extended h (i : BevInfor B) (v : list Z) : t B :=
  set_listen (put (set_max h (max_bev_id h + 1)) (max_bev_id h) i) 0 v.

Lemma fresh_id h : handle_ok h -> bev_map h !! max_bev_id h = None.
Proof.
  intros Hh. destruct (bev_map h !! max_bev_id h) eqn:E; [|done].
  pose proof (ho_ids h Hh (max_bev_id h) (mk_is_Some _ _ E)). lia.
Qed.

Lemma extended_ok h i :
  handle_ok h -> link_ok i ->
  handle_ok (extended h i (listen_id_vector h ++ if is_listen i then [max_bev_id h] else [])).
Proof.
  intros Hh Hi. pose proof (fresh_id h Hh) as Hf. destruct Hh as [H1 H2 H3 H4 H5 H6].
  split; simpl; try done; try lia.
  - intros id e. rewrite lookup_insert_Some. intros [[<- <-]|[_ Hk]]; eauto.
  - intros id. rewrite lookup_insert_is_Some. intros [<-|[_ Hk]]; [lia|]. specialize (H4 id Hk). lia.
  - apply Forall_app. split.
    + eapply Forall_impl; [exact H6|]. intros id (i' & Hi' & Hl). exists i'.
      rewrite lookup_insert_ne by congruence. done.
    + destruct (is_listen i) eqn:E; [|constructor]. constructor; [|constructor].
      exists i. by rewrite lookup_insert_eq.
Qed.

(** [store] on a free table. *)
Lemma store_done h id i : bev_map_rw_lock_singal h = 0 -> store h id i = Done (put h id i).
Proof. intros Hs. unfold store. rewrite Hs. simpl. f_equal. by apply set_signal_same. Qed.

Lemma connect_spec e ip port h :
  handle_ok h -> env_ok e -> max_bev_id h < INT_MAX -> can_connect e ip port = true ->
  exists h', add_bufferevent_connect e ip port h = Done (max_bev_id h, h') /\ handle_ok h' /\
    bev_map h' = <[max_bev_id h := Some (peer e ip port false)]> (bev_map h) /\
    callback_set h' = callback_set h.
Proof.
  intros Hh He Hm Hc. unfold add_bufferevent_connect. rewrite Hc. cbn [negb].
  pose proof (ho_max h Hh). rewrite i32_small by (unfold INT_MAX in *; lia).
  rewrite store_done by apply Hh. cbn [mbind outcome_bind].
  eexists. split; [done|]. split; [|done].
  pose proof (extended_ok h (peer e ip port false) Hh (peer_ok e ip port false He)) as Ho.
  simpl in Ho. rewrite app_nil_r in Ho. unfold extended in Ho.
  assert (Hs : set_listen (put (set_max h (max_bev_id h + 1)) (max_bev_id h) (peer e ip port false)) 0
    (listen_id_vector h) = put (set_max h (max_bev_id h + 1)) (max_bev_id h) (peer e ip port false)).
  { unfold set_listen, put, set_map, set_max; simpl. by rewrite (ho_listen_signal h Hh). }
  by rewrite Hs in Ho.
Qed.

Lemma listen_spec e ip port h :
  handle_ok h -> env_ok e -> max_bev_id h < INT_MAX ->
  exists h', add_bufferevent_listen e ip port h = Done (max_bev_id h, h') /\ handle_ok h' /\
    bev_map h' = <[max_bev_id h := Some (peer e ip port true)]> (bev_map h) /\
    listen_id_vector h' = listen_id_vector h ++ [max_bev_id h].
Proof.
  intros Hh He Hm. unfold add_bufferevent_listen.
  pose proof (ho_max h Hh). rewrite i32_small by (unfold INT_MAX in *; lia).
  rewrite store_done by apply Hh. cbn [mbind outcome_bind]. simpl listen_vector_rw_lock_singal.
  rewrite (ho_listen_signal h Hh). change (w_lock 0) with (Done (-1)). cbn [mbind outcome_bind].
  eexists. split; [done|]. split; [|done].
  exact (extended_ok h (peer e ip port true) Hh (peer_ok e ip port true He)).
Qed.

(** ** Sending to an address *)

(** What is queued for an address: the output of the first connection to it. *)
Definition sent_on h (ip' : name) (port' : Z) : list byte :=
  match least_id (same_address ip' port') (bev_map h) with
  | Some id => match bev_map h !! id with Some (Some i) => bb_content (output i) | _ => [] end
  | None => []
  end.

(** There is a connection to the address, or one can be made. *)
Definition reach (e : net_env) h (ip' : name) (port' : Z) : Prop :=
  is_Some (least_id (same_address ip' port') (bev_map h)) \/
  can_connect e ip' port' = true /\ max_bev_id h < INT_MAX.

(** Looking up an address finds the first connection to it, or makes one. *)
Lemma get_connection_spec e ip' port' h :
  handle_ok h -> env_ok e -> reach e h ip' port' ->
  exists id h' i, get_connection_id e ip' port' true h = Done (id, h') /\ handle_ok h' /\
    0 <= id /\ bev_map h' !! id = Some (Some i) /\
    least_id (same_address ip' port') (bev_map h') = Some id /\
    bb_content (output i) = sent_on h ip' port' /\
    (forall k j, bev_map h !! k = Some j -> bev_map h' !! k = Some j) /\
    callback_set h' = callback_set h.
Proof.
  intros Hh He Hr. unfold get_connection_id, sent_on. rewrite (ho_signal h Hh).
  change (r_lock 0) with (Done 1). cbn [mbind outcome_bind]. change (rw_r_unlock 1) with 0.
  rewrite set_signal_same by apply Hh.
  pose proof (least_id_spec (same_address ip' port') (bev_map h)) as Hl.
  unfold reach in Hr. destruct (least_id _ _) as [id|] eqn:El.
  - destruct Hl as [(x & Hx & Hp) _]. destruct (ho_links h Hh id x Hx) as (i & -> & Hi).
    exists id, h, i. rewrite Hx, El. split; [done|]. split; [done|].
    split; [apply (ho_ids h Hh); eauto|]. split_and!; auto.
  - destruct Hr as [[? [=]]|[Hc Hm]].
    destruct (connect_spec e ip' port' h Hh He Hm Hc) as (h' & Hd & Ho & Hb & Hcb).
    pose proof (fresh_id h Hh) as Hf.
    exists (max_bev_id h), h', (peer e ip' port' false). unfold try_connect. rewrite Hd, Hb.
    split; [done|]. split; [done|]. split; [apply (ho_max h Hh)|].
    rewrite lookup_insert_eq. split; [done|]. split; [|split; [apply bb_new_content|split; [|done]]].
    + set (m := <[max_bev_id h := Some (peer e ip' port' false)]> (bev_map h)).
      pose proof (least_id_spec (same_address ip' port') m) as Hl'.
      destruct (least_id (same_address ip' port') m) as [k|]; subst m.
      * destruct Hl' as [(y & Hy & Hpy) _]. apply lookup_insert_Some in Hy as [[-> _]|[_ Hy]]; [done|].
        rewrite (Hl k y Hy) in Hpy. done.
      * specialize (Hl' (max_bev_id h) (Some (peer e ip' port' false))).
        rewrite lookup_insert_eq in Hl'. specialize (Hl' eq_refl). simpl in Hl'.
        rewrite bool_decide_eq_true_2, Z.eqb_refl in Hl' by done. done.
    + intros k j Hk. rewrite lookup_insert_ne by congruence. done.
Qed.

(** The search only depends on which elements match. *)
Lemma least_id_ext {A} (P : A -> bool) (m m' : gmap Z A) :
  (forall k, P <$> m !! k = P <$> m' !! k) -> least_id P m = least_id P m'.
Proof.
  intros Hm. pose proof (least_id_spec P m) as H1. pose proof (least_id_spec P m') as H2.
  assert (Hto : forall k a, m !! k = Some a -> exists a', m' !! k = Some a' /\ P a' = P a).
  { intros k a Hk. specialize (Hm k). rewrite Hk in Hm. destruct (m' !! k); simplify_eq/=; eauto. }
  assert (Hfrom : forall k a, m' !! k = Some a -> exists a', m !! k = Some a' /\ P a' = P a).
  { intros k a Hk. specialize (Hm k). rewrite Hk in Hm. destruct (m !! k); simplify_eq/=; eauto. }
  destruct (least_id P m) as [k|], (least_id P m') as [k'|]; try done.
  - destruct H1 as [(a & Ha & Hpa) H1], H2 as [(b & Hb & Hpb) H2].
    destruct (Hto k a Ha) as (a' & Ha' & Hpa'), (Hfrom k' b Hb) as (b' & Hb' & Hpb').
    f_equal. assert (k <= k') by (eapply H1; [done|congruence]).
    assert (k' <= k) by (eapply H2; [done|congruence]). lia.
  - destruct H1 as [(a & Ha & Hpa) _]. destruct (Hto k a Ha) as (a' & Ha' & Hpa').
    rewrite (H2 k a' Ha') in Hpa'. congruence.
  - destruct H2 as [(b & Hb & Hpb) _]. destruct (Hfrom k' b Hb) as (b' & Hb' & Hpb').
    rewrite (H1 k' b' Hb') in Hpb'. congruence.
Qed.

Lemma same_address_put h id i j ip' port' :
  bev_map h !! id = Some (Some i) -> ip j = ip i -> port j = port i ->
  least_id (same_address ip' port') (bev_map (put h id j)) =
  least_id (same_address ip' port') (bev_map h).
Proof.
  intros Hi Hip Hport. apply least_id_ext. intros k. simpl. destruct (decide (k = id)) as [->|Hne].
  - rewrite lookup_insert_eq, Hi. simpl. by rewrite Hip, Hport.
  - by rewrite lookup_insert_ne.
Qed.

(** A lookup of a known connection. *)
Lemma find_done h id i :
  handle_ok h -> bev_map h !! id = Some (Some i) -> find_info id h = Done (Some i, h).
Proof.
  intros Hh Hi. unfold find_info. rewrite (ho_signal h Hh). change (r_lock 0) with (Done 1).
  cbn [mbind outcome_bind]. change (rw_r_unlock 1) with 0.
  rewrite set_signal_same by apply Hh. by rewrite Hi.
Qed.

Lemma length_done h id i :
  handle_ok h -> bev_map h !! id = Some (Some i) ->
  get_recive_buffer_length id h = Done (zlen (bb_content (input i)), h).
Proof.
  intros Hh Hi. unfold get_recive_buffer_length. rewrite (find_done h id i) by done.
  cbn [mbind outcome_bind]. destruct (ho_links h Hh id _ Hi) as (j & [= <-] & Hl).
  rewrite length_spec by apply Hl. done.
Qed.

Lemma recive_done h id i n str j :
  handle_ok h -> bev_map h !! id = Some (Some i) ->
  Connection.recive_str_NoWait [] i = Done (n, str, j) ->
  recive_str_NoWait id [] h = Done (n, str, put h id j).
Proof.
  intros Hh Hi Hr. unfold recive_str_NoWait. rewrite (find_done h id i) by done.
  cbn [mbind outcome_bind]. by rewrite Hr.
Qed.

(** What may be queued by an attempt to send [data]: all of it, nothing, or
    a header without a body. *)
Inductive queued (data : list byte) (before after : list byte) : bool -> Prop :=
| queued_all : after = before ++ frame data -> queued data before after true
| queued_none : after = before -> queued data before after false
| queued_header : after = before ++ le_bytes 4 (zlen data) -> queued data before after false.

(** Everything of a connection but what is queued to be sent. *)
Definition same_input i j : Prop :=
  ip j = ip i /\ port j = port i /\ is_listen j = is_listen i /\ input j = input i /\
  cache_block j = cache_block i /\ block_size j = block_size i /\ read_singal j = read_singal i.

Lemma write_same_input data n i ok j :
  writeBufferOnce data n i = Done (ok, j) -> same_input i j.
Proof.
  unfold writeBufferOnce. intros Hw.
  destruct (w_lock (write_singal i)) as [s|]; [|done]. cbn [mbind outcome_bind] in Hw.
  destruct (bufferevent_write (le_bytes 4 n) (output i)) as [[r out]|]; [|done].
  cbn [mbind outcome_bind] in Hw. case_test_in Hw; [by simplify_eq|].
  destruct (memread 0 n data) as [bytes|]; [|done]. cbn [mbind outcome_bind] in Hw.
  destruct (bufferevent_write bytes out) as [[r' out']|]; [|done].
  cbn [mbind outcome_bind] in Hw. case_test_in Hw; by simplify_eq.
Qed.

Lemma same_input_conn i j : same_input i j -> conn_ok i -> conn_ok j.
Proof.
  intros (_ & _ & _ & Hin & Hc & Hb & Hs) [H1 Hf H2 H3]. split; [by rewrite Hin|by rewrite Hin|by rewrite Hs|].
  rewrite Hc, Hb. done.
Qed.

Lemma send_spec h id i data :
  handle_ok h -> 0 <= id -> bev_map h !! id = Some (Some i) -> zlen data <= INT_MAX ->
  zlen (bb_content (output i)) + zlen (frame data) <= EV_SSIZE_MAX ->
  exists ok j, send id data (zlen data) h = Done (true, put h id j) /\ handle_ok (put h id j) /\
    writeBufferOnce data (zlen data) i = Done (ok, j) /\ same_input i j /\
    queued data (bb_content (output i)) (bb_content (output j)) ok.
Proof.
  intros Hh Hid Hi Hd Hm. destruct (ho_links h Hh id _ Hi) as (i' & [= <-] & Hl).
  unfold send. rewrite (proj2 (Z.ltb_ge _ _)) by lia. rewrite (ho_signal h Hh), Hi.
  change (r_lock 0) with (Done 1). cbn [mbind outcome_bind deref]. change (rw_r_unlock 1) with 0.
  rewrite set_signal_same by apply Hh.
  destruct (write_spec data i) as (ok & j & Hw & Hs & Ho & Hc); [apply Hl|apply Hl|done|done|].
  rewrite Hw. cbn [mbind outcome_bind]. pose proof (write_same_input _ _ _ _ _ Hw) as Hsame.
  exists ok, j. split; [done|]. split; [|split; [done|split; [done|]]].
  - apply put_ok with i; [done|done| |by apply Hsame]. split; [|done|done].
    eapply same_input_conn; [done|]. apply Hl.
  - destruct ok; [by apply queued_all|]. destruct Hc; [by apply queued_none|by apply queued_header].
Qed.

(** Memory is available: adding to a buffer does not fail. *)
Definition room : Prop := forall (b : B) d, bb_ok b -> exists b', bb_add d b = Done (0, b').

Lemma write_room data i ok j :
  room -> bb_ok (output i) -> zlen (bb_content (output i)) + zlen (frame data) <= EV_SSIZE_MAX ->
  writeBufferOnce data (zlen data) i = Done (ok, j) -> ok = true.
Proof.
  intros Hr Ho Hm Hw. unfold writeBufferOnce, bufferevent_write in Hw. unfold frame in Hm.
  rewrite zlen_app in Hm. pose proof (zlen_nonneg data).
  destruct (w_lock (write_singal i)) as [s|]; [|done]. cbn [mbind outcome_bind] in Hw.
  destruct (Hr (output i) (le_bytes 4 (zlen data)) Ho) as (b1 & Hb1).
  destruct (bb_add_spec (output i) (le_bytes 4 (zlen data)) Ho ltac:(lia)) as (r & b' & Hb & Ho1 & _).
  rewrite Hb1 in Hb. injection Hb as <- <-. rewrite Hb1 in Hw. simpl in Hw.
  destruct (memread 0 (zlen data) data) as [d|]; [|done]. cbn [mbind outcome_bind] in Hw.
  destruct (Hr b1 d Ho1) as (b2 & Hb2). rewrite Hb2 in Hw. simpl in Hw. congruence.
Qed.

(** With memory available, a packet sent to an address is appended to what is
    queued for it, and no connection's input is touched. *)
Lemma send_address e ip' port' data h :
  handle_ok h -> env_ok e -> room -> reach e h ip' port' -> zlen data <= INT_MAX ->
  zlen (sent_on h ip' port') + zlen (frame data) <= EV_SSIZE_MAX ->
  exists id h1 h2, get_connection_id e ip' port' true h = Done (id, h1) /\
    send id data (zlen data) h1 = Done (true, h2) /\ handle_ok h2 /\
    sent_on h2 ip' port' = sent_on h ip' port' ++ frame data /\ reach e h2 ip' port' /\
    callback_set h2 = callback_set h /\
    forall k i, bev_map h !! k = Some (Some i) ->
      exists j, bev_map h2 !! k = Some (Some j) /\ same_input i j.
Proof.
  intros Hh He Hroom Hr Hd Hm.
  destruct (get_connection_spec e ip' port' h Hh He Hr)
    as (id & h1 & i & Hg & Hh1 & Hid & Hi & Hl & Hout & Hsub & Hcb).
  destruct (send_spec h1 id i data Hh1 Hid Hi Hd ltac:(by rewrite Hout)) as (ok & j & Hs & Hh2 & Hw & Hsame & Hq).
  destruct (ho_links h1 Hh1 id _ Hi) as (i' & [= <-] & Hli).
  pose proof (write_room data i ok j Hroom (lk_output i Hli) ltac:(by rewrite Hout) Hw) as ->.
  exists id, h1, (put h1 id j). split; [done|]. split; [done|]. split; [done|].
  inversion Hq as [Hq'| |]. destruct Hsame as (Hip & Hport & Hrest).
  assert (Hl2 : least_id (same_address ip' port') (bev_map (put h1 id j)) = Some id)
    by (by rewrite (same_address_put h1 id i j)).
  split; [|split; [|split]].
  - unfold sent_on at 1. rewrite Hl2. simpl. rewrite lookup_insert_eq, Hq', Hout. done.
  - left. rewrite Hl2. eauto.
  - done.
  - intros k i' Hk. apply Hsub in Hk. simpl. destruct (decide (k = id)) as [->|Hne].
    + rewrite lookup_insert_eq. exists j. split; [done|]. rewrite Hi in Hk. injection Hk as <-. done.
    + rewrite lookup_insert_ne by done. exists i'. split; [done|]. done.
Qed.

End lemmas.

(** ** Where the table departs from its intent *)

(** [send] to an id that is not in the table returns without releasing the
    read signal: afterwards no connection can be added or removed any more,
    the caller spins for ever. *)
Theorem send_unknown_locks_table `{NewBuffer B} (h : t B) id data n :
  handle_ok h -> 0 <= id -> bev_map h !! id = None ->
  exists h', send id data n h = Done (false, h') /\
    forall e ip port id', can_connect e ip port = true ->
      add_bufferevent_connect e ip port h' = Crash /\ add_bufferevent_listen e ip port h' = Crash /\
      remove_buffevent id' h' = Crash.
Proof.
  intros Hh Hid Hn. unfold send. rewrite (proj2 (Z.ltb_ge _ _)) by lia. rewrite (ho_signal h Hh), Hn.
  change (r_lock 0) with (Done 1). cbn [mbind outcome_bind]. eexists. split; [done|].
  intros e ip port id' Hc. unfold add_bufferevent_connect. by rewrite Hc.
Qed.

Lemma ntohl_port p :
  0 < p < 2 ^ 16 -> ~ (0 <= ntohl p < 2 ^ 16).
Proof.
  intros Hp. unfold ntohl. simpl.
  rewrite !byteZ_Zbyte. unfold u8, i32. change (2 ^ 8) with 256.
  assert (Hb : 0 <= p / 256 < 256) by (split; [apply Z.div_pos|apply Z.div_lt_upper_bound]; lia).
  rewrite (Z.div_small (p / 256) 256) by lia. change (0 / 256 mod 256) with 0. change (0 mod 256) with 0.
  pose proof (Z.mod_pos_bound p 256 ltac:(lia)). pose proof (Z_div_mod_eq_full p 256).
  rewrite (Z.mod_small (p / 256)) by lia. set (a := p mod 256) in *. set (b := p / 256) in *.
  intros Hr. assert (exists k, 0 + 256 * (0 + 256 * (b + 256 * (a + 256 * 0))) = 65536 * k /\ 0 < k < 65536) as (k & Hk & Hkr)
    by (exists (b + 256 * a); lia).
  rewrite Hk in Hr. destruct (decide (k < 32768)).
  - rewrite Z.mod_small in Hr by lia. lia.
  - replace (65536 * k + 2 ^ 31) with (65536 * (k - 32768) + 1 * 2 ^ 32) in Hr by lia.
    rewrite Z.mod_add, Z.mod_small in Hr by lia. lia.
Qed.

(** The listener looks a peer up under [ntohl] of its 16-bit port, which is
    never the port a connection is stored under: every accepted connection
    gets a new entry, also when the table has one for the same address. *)
Theorem accepted_connection_is_new `{NewBuffer B} e ip' sin_port (h : t B) :
  handle_ok h -> env_ok e -> max_bev_id h < INT_MAX -> 0 < sin_port < 2 ^ 16 ->
  (forall id i, bev_map h !! id = Some (Some i) -> 0 <= port i < 2 ^ 16) ->
  exists h', connlistener_cb e ip' sin_port h = Done h' /\ handle_ok h' /\
    bev_map h' = <[max_bev_id h := Some (peer e ip' sin_port true)]> (bev_map h) /\
    bev_map h !! max_bev_id h = None.
Proof.
  intros Hh He Hm Hp Hports. unfold connlistener_cb, get_connection_id. rewrite (ho_signal h Hh).
  change (r_lock 0) with (Done 1). cbn [mbind outcome_bind]. change (rw_r_unlock 1) with 0.
  rewrite set_signal_same by apply Hh.
  pose proof (least_id_spec (same_address ip' (ntohl sin_port)) (bev_map h)) as Hl.
  destruct (least_id _ _) as [id|].
  - exfalso. destruct Hl as [(x & Hx & Hs) _]. destruct (ho_links h Hh id x Hx) as (i & -> & _).
    simpl in Hs. apply andb_true_iff in Hs as [_ Hs%Z.eqb_eq].
    pose proof (ntohl_port sin_port Hp). pose proof (Hports id i Hx). lia.
  - cbn [mbind outcome_bind]. simpl (0 <=? -1).
    destruct (listen_spec e ip' sin_port h Hh He Hm) as (h' & -> & Ho & Hb & _).
    exists h'. split; [done|]. split; [done|]. split; [done|]. by apply fresh_id.
Qed.
