(* ===== verification/MessageHandle.v ===== *)
(** * Message groups, dispatch and sending

    Models class [EventMessageHandle]
    ([multi_net_io/include/event_mess_handle.h],
    [multi_net_io/src/event_mess_handle.cc]): the configured hosts, groups and
    message types, sending a message to a host, and what happens to a received
    one: it goes to the handler registered for its type or to the list of
    unprocessed messages of the type.

    The two configuration files are given as the values the JSON library
    returns.  A handler ([cb_function] with its [cb_arg]) is a value of a type
    [K]; what it does is the parameter [run_cb], which may call the handle and
    change an application state [St].  [junk] is what the memory of a message
    holds before its copy constructor runs. *)

From S2P Require Import Prelude ByteBuffer EventMessage Connection ConnectionTable.

Module Export EventMessageHandle.

Record host_item := mkHost { host_name : name; host_ip : name; is_local : bool }.
Record group_item := mkGroupItem {
  gi_name : name; gi_hosts : list (name * Z); gi_types : list name
}.

Section model.
Context {B : Type} `{NewBuffer B} {K St : Type}.

Record CallbackInfor := mkCallback {
  cb_function : option K;
  unprocessed_mess_list : list EventMessage
}.

Record GroupInfor := mkGroup {
  handle : LibeventHandle.t B;
  host_port_map : gmap name Z;
  mess_callback_map : gmap name CallbackInfor
}.

Record mess_handle := mkMessHandle {
  this_free : bool;
  local_host_name : name;
  host_config_map : gmap name name;
  mess_group_map : gmap name GroupInfor
}.

Definition with_group (mh : mess_handle) (g : name) (x : GroupInfor) : mess_handle :=
  mkMessHandle (this_free mh) (local_host_name mh) (host_config_map mh)
    (<[g := x]> (mess_group_map mh)).
Definition with_handle (x : GroupInfor) (h : LibeventHandle.t B) : GroupInfor :=
  mkGroup h (host_port_map x) (mess_callback_map x).
Definition with_ports (x : GroupInfor) (p : gmap name Z) : GroupInfor :=
  mkGroup (handle x) p (mess_callback_map x).
Definition with_callback (x : GroupInfor) (t : name) (c : CallbackInfor) : GroupInfor :=
  mkGroup (handle x) (host_port_map x) (<[t := c]> (mess_callback_map x)).

Definition with_error (m : EventMessage) (n : EventMessageErrorNo) : EventMessage :=
  mkMessage (group_name m) (mess_type m) (send_host_name m) (recive_host_name m) (message m)
    (message_size m) n (will_send m) (will_recive m) (buffer_str m) (buffer_size m).
Definition with_sender (m : EventMessage) (s : option (list byte)) : EventMessage :=
  mkMessage (group_name m) (mess_type m) s (recive_host_name m) (message m)
    (message_size m) (error_no m) (will_send m) (will_recive m) (buffer_str m) (buffer_size m).

(** [m[k]] of a [std::map<std::string, int>]: a missing key is inserted with 0. *)
Definition port_at (k : name) (m : gmap name Z) : Z * gmap name Z :=
  match m !! k with Some v => (v, m) | None => (0, <[k := 0]> m) end.

(** ** Configuration *)

(** One element of the array of groups. *)
Definition init_group (e : net_env) (mh : mess_handle) (gi : group_item) : mess_handle :=
  let ports := fold_left (fun m h => <[h.1 := h.2]> m) (gi_hosts gi) ∅ in
  let '(local_port, ports) := port_at (local_host_name mh) ports in
  let '(_, h) := LibeventHandle.init_handle e local_port LibeventHandle.new in
  let h := LibeventHandle.set_event_callback h in
  let types := fold_left (fun m t => <[t := mkCallback None []]> m) (gi_types gi) ∅ in
  with_group mh (gi_name gi) (mkGroup h ports types).

Definition init_group_infor_map (e : net_env) (doc : list group_item) (mh : mess_handle)
    : mess_handle := fold_left (init_group e) doc mh.

Definition read_host (mh : mess_handle) (h : host_item) : mess_handle :=
  mkMessHandle (this_free mh) (if is_local h then host_name h else local_host_name mh)
    (<[host_name h := host_ip h]> (host_config_map mh)) (mess_group_map mh).

Definition read_config (e : net_env) (hosts : list host_item) (groups : list group_item)
    (mh : mess_handle) : mess_handle :=
  init_group_infor_map e groups (fold_left read_host hosts mh).

(** [EventMessageHandle::EventMessageHandle] *)
Definition new_handle : mess_handle := mkMessHandle true [] ∅ ∅.

(** No value is returned ([None]) when the handle is initialised. *)
Definition init_handle (e : net_env) (hosts : list host_item) (groups : list group_item)
    (mh : mess_handle) : option bool * mess_handle :=
  if this_free mh then
    (None, read_config e hosts groups
       (mkMessHandle false (local_host_name mh) (host_config_map mh) (mess_group_map mh)))
  else (Some false, mh).

Definition is_free (mh : mess_handle) : bool := this_free mh.
Definition is_init (mh : mess_handle) : bool := negb (this_free mh).

(** The groups are deleted, their handles are freed by the destructors; the
    handle may not be used afterwards. *)
Definition free_handle (mh : mess_handle) : outcome (option bool) :=
  if this_free mh then Done (Some false) else
  map_fold (fun _ x acc =>
    _ ← acc; '(_, _) ← LibeventHandle.free_handle (handle x); Done None) (Done None) (mess_group_map mh).

Definition get_ip (hostname : option (list byte)) (mh : mess_handle) : outcome (option name) :=
  h ← deref hostname; Done (host_config_map mh !! cstr h).

Definition get_port (hostname group_name : option (list byte)) (mh : mess_handle)
    : outcome (Z * mess_handle) :=
  g ← deref group_name;
  match mess_group_map mh !! cstr g with
  | None => Done (0, mh)
  | Some x =>
      h ← deref hostname;
      let '(port, ports) := port_at (cstr h) (host_port_map x) in
      Done (port, with_group mh (cstr g) (with_ports x ports))
  end.

(** ** Messages *)

Definition check_mess_type (m : EventMessage) (mh : mess_handle) : outcome (bool * EventMessage) :=
  g ← deref (group_name m);
  match mess_group_map mh !! cstr g with
  | None => Done (false, with_error m GROUP_NOT_FOUND)
  | Some x =>
      t ← deref (mess_type m);
      match mess_callback_map x !! cstr t with
      | None => Done (false, with_error m MESS_TYPE_NOT_FOUND)
      | Some _ => Done (true, m)
      end
  end.

(** [mess_group_map[group_name]->mess_callback_map[mess_type]] once
    [check_mess_type] has found both. *)
Definition get_callback (m : EventMessage) (mh : mess_handle)
    : outcome (name * name * GroupInfor * CallbackInfor) :=
  g ← deref (group_name m); t ← deref (mess_type m);
  x ← deref (mess_group_map mh !! cstr g);
  c ← deref (mess_callback_map x !! cstr t);
  Done (cstr g, cstr t, x, c).

Definition register_recive_handler (g t : option (list byte)) (cb : K) (mh : mess_handle)
    : outcome (bool * mess_handle) :=
  let m := prepare_recive g t clear in
  '(ok, _) ← check_mess_type m mh;
  if negb ok then Done (false, mh) else
  '(g, t, x, c) ← get_callback m mh;
  Done (true, with_group mh g
          (with_callback x t (mkCallback (Some cb) (unprocessed_mess_list c)))).

Definition set_unprocessed (mh : mess_handle) (g t : name) (x : GroupInfor) (c : CallbackInfor)
    (l : list EventMessage) : mess_handle :=
  with_group mh g (with_callback x t (mkCallback (cb_function c) l)).

Definition readMessage (m : EventMessage) (mh : mess_handle)
    : outcome (Z * EventMessage * mess_handle) :=
  if negb (will_recive m) then Done (-1, with_error m INCOMPLETE_MESSAGE, mh) else
  '(ok, m) ← check_mess_type m mh;
  if negb ok then Done (-1, m, mh) else
  '(g, t, x, c) ← get_callback m mh;
  match unprocessed_mess_list c with
  | [] => Done (0, with_error m NONE_UNPROCESSED_MESSAGE, mh)
  | first :: rest => m ← copy first m; Done (1, m, set_unprocessed mh g t x c rest)
  end.

(** The loop of the filtering [readMessage]: what is before the message, the
    message, and what is behind it. *)
Fixpoint find_message (filter : EventMessage -> outcome bool) (before l : list EventMessage)
    : outcome (option (EventMessage * list EventMessage)) :=
  match l with
  | [] => Done None
  | m :: l =>
      ok ← filter m;
      if (ok : bool) then Done (Some (m, before ++ l)) else find_message filter (before ++ [m]) l
  end.

Definition readMessage_filter (filter : EventMessage -> outcome bool) (m : EventMessage)
    (mh : mess_handle) : outcome (Z * EventMessage * mess_handle) :=
  if negb (will_recive m) then Done (-1, with_error m INCOMPLETE_MESSAGE, mh) else
  '(ok, m) ← check_mess_type m mh;
  if negb ok then Done (-1, m, mh) else
  '(g, t, x, c) ← get_callback m mh;
  match unprocessed_mess_list c with
  | [] => Done (0, with_error m NONE_UNPROCESSED_MESSAGE, mh)
  | l =>
      found ← find_message filter [] l;
      match found with
      | Some (first, rest) => m ← copy first m; Done (1, m, set_unprocessed mh g t x c rest)
      | None => Done (0, with_error m NONE_REQUESTED_MESSAGE, mh)
      end
  end.

Definition get_unprocessed_message_count (g t : option (list byte)) (mh : mess_handle)
    : outcome Z :=
  let m := prepare_recive g t clear in
  '(ok, _) ← check_mess_type m mh;
  if negb ok then Done 0 else
  '(_, _, _, c) ← get_callback m mh; Done (u32 (zlen (unprocessed_mess_list c))).

(** The results of the connection attempt and of [send] are not looked at. *)
Definition sendMessage (e : net_env) (m : EventMessage) (mh : mess_handle)
    : outcome (Z * EventMessage * mess_handle) :=
  if negb (will_send m) then Done (-1, with_error m INCOMPLETE_MESSAGE, mh) else
  '(ok, m) ← check_mess_type m mh;
  if negb ok then Done (-1, m, mh) else
  ip ← get_ip (recive_host_name m) mh;
  '(port, mh) ← get_port (recive_host_name m) (group_name m) mh;
  match ip with
  | None => Done (-1, with_error m INVALID_HOST, mh)
  | Some ip =>
      if port =? 0 then Done (-1, with_error m INVALID_HOST, mh) else
      m ← init_buffer_str (with_sender m (c_string (local_host_name mh)));
      g ← deref (group_name m);
      x ← deref (mess_group_map mh !! cstr g);
      '(connect_id, h) ← LibeventHandle.get_connection_id e ip port true (handle x);
      '(_, h) ← LibeventHandle.send connect_id (buffer_str m) (i32 (buffer_size m)) h;
      Done (1, m, with_group mh (cstr g) (with_handle x h))
  end.

(** ** Dispatch *)

Variable run_cb : K -> EventMessage -> mess_handle * St -> outcome (mess_handle * St).
Variable junk : EventMessage.

Definition try_run_callback (m : EventMessage) (s : mess_handle * St)
    : outcome (bool * (mess_handle * St)) :=
  let '(mh, st) := s in
  '(ok, m) ← check_mess_type m mh;
  if negb ok then Done (false, s) else
  '(g, t, x, c) ← get_callback m mh;
  match cb_function c with
  | Some k => s ← run_cb k m s; Done (true, s)
  | None =>
      m ← copy m junk;
      Done (true, (set_unprocessed mh g t x c (unprocessed_mess_list c ++ [m]), st))
  end.

(** [EventMessage mess; ... mess.buffer_size = recive_size] *)
Definition received_message (str : list byte) (n : Z) : EventMessage :=
  mkMessage None None None None None 0 SUCCESS false false str n.

(** The handle belongs to group [g]; a handler may change it, so it is looked
    up again in every turn.  Every turn that goes on takes a packet from the
    input: as much fuel as bytes is enough. *)
Fixpoint read_callback_message_from_libevent (fuel : nat) (g : name) (connect_id : Z)
    (s : mess_handle * St) : outcome (bool * (mess_handle * St)) :=
  match fuel with
  | O => Crash
  | S fuel =>
      let '(mh, st) := s in
      x ← deref (mess_group_map mh !! g);
      '(len, h) ← LibeventHandle.get_recive_buffer_length connect_id (handle x);
      if negb (0 <? len) then Done (true, (with_group mh g (with_handle x h), st)) else
      '(recive_size, str, h) ← LibeventHandle.recive_str_NoWait connect_id [] h;
      let s := (with_group mh g (with_handle x h), st) in
      if recive_size <=? 0 then Done (false, s) else
      m ← init_message_ptr (received_message str recive_size);
      '(ok, s) ← try_run_callback m s;
      if (ok : bool) then read_callback_message_from_libevent fuel g connect_id s
      else Done (false, s)
  end.

Definition libevent_callback (g : name) (connect_id : Z) (s : mess_handle * St)
    : outcome (mess_handle * St) :=
  x ← deref (mess_group_map s.1 !! g);
  let queued := match LibeventHandle.bev_map (handle x) !! connect_id with
                | Some (Some i) => bb_length (input i)
                | _ => 0
                end in
  '(_, s) ← read_callback_message_from_libevent (S (Z.to_nat queued)) g connect_id s;
  Done s.

(** The bufferevent of connection [connect_id] has new input. *)
Definition default_bufferevent_read_cb (g : name) (connect_id : Z) (s : mess_handle * St)
    : outcome (mess_handle * St) :=
  x ← deref (mess_group_map s.1 !! g);
  _ ← r_lock (LibeventHandle.bev_map_rw_lock_singal (handle x));
  i ← deref (LibeventHandle.bev_map (handle x) !! connect_id); _ ← deref i;
  if LibeventHandle.callback_set (handle x) then libevent_callback g connect_id s else Done s.

End model.
Arguments mess_handle B K : clear implicits.
Arguments GroupInfor B K : clear implicits.
Arguments CallbackInfor K : clear implicits.
End EventMessageHandle.
