(* ===== verification/MessageSpec.v ===== *)
(** * What sending and dispatch promise

    The invariant of a message handle, the effect of [sendMessage] on the
    queue of a connection, the receive loop of a group with handlers that may
    themselves use the handle, and the queue of unprocessed messages. *)

From S2P Require Import Prelude RwLock ByteBuffer EventMessage Connection ConnectionTable MessageHandle.

Import LibeventHandle.

(** ** Names behind pointers *)

Definition points_to (o : option (list byte)) (s : name) : Prop :=
  exists mem, o = Some mem /\ cstr mem = s.

Lemma cstr_no_nul l : x00 ∉ cstr l.
Proof.
  induction l as [|b l IH]; simpl; [apply not_elem_of_nil|].
  case_decide; [apply not_elem_of_nil|]. rewrite not_elem_of_cons. done.
Qed.

Lemma cstr_idem l : cstr (cstr l ++ [x00]) = cstr l.
Proof. apply cstr_app_nul, cstr_no_nul. Qed.

Lemma points_to_c_string s : x00 ∉ s -> points_to (c_string s) s.
Proof. intros Hs. eexists. split; [done|]. by apply cstr_app_nul. Qed.

Lemma points_to_prefix s rest : x00 ∉ s -> points_to (Some ((s ++ [x00]) ++ rest)) s.
Proof. intros Hs. eexists. split; [done|]. by apply cstr_prefix. Qed.

Lemma append_points field o s st :
  points_to o s -> append_name field o st = append_name field (c_string s) st.
Proof. intros (mem & -> & <-). destruct st. unfold append_name, c_string. simpl. by rewrite cstr_idem. Qed.

(** [init_buffer_str] lays out the strings its pointers denote. *)
Lemma init_buffer_points m g t s r p mem :
  points_to (group_name m) g -> points_to (mess_type m) t -> points_to (send_host_name m) s ->
  points_to (recive_host_name m) r -> message m = Some mem -> memread 0 (message_size m) mem = Done p ->
  message_size m = zlen p -> wire_size g t s r p < 2 ^ 32 ->
  exists m', init_buffer_str m = Done m' /\ buffer_str m' = encode g t s r p /\
    buffer_size m' = wire_size g t s r p /\ group_name m' = group_name m.
Proof.
  intros Hg Ht Hs Hr Hm Hread Hn Hw.
  pose proof (init_buffer_str_encode g t s r p) as He.
  specialize (He ltac:(destruct Hg as (? & _ & <-); apply cstr_no_nul)
    ltac:(destruct Ht as (? & _ & <-); apply cstr_no_nul)
    ltac:(destruct Hs as (? & _ & <-); apply cstr_no_nul)
    ltac:(destruct Hr as (? & _ & <-); apply cstr_no_nul) Hw).
  unfold init_buffer_str in *.
  cbn [outgoing group_name mess_type send_host_name recive_host_name message message_size] in He.
  rewrite (append_points _ _ g _ Hg).
  destruct (append_name GROUP_NAME_OFF _ _) as [st|]; [|done]. cbn [mbind outcome_bind] in *.
  rewrite (append_points _ _ t _ Ht).
  destruct (append_name MESS_TYPE_OFF _ _) as [st1|]; [|done]. cbn [mbind outcome_bind] in *.
  rewrite (append_points _ _ s _ Hs).
  destruct (append_name SEND_HOST_OFF _ _) as [st2|]; [|done]. cbn [mbind outcome_bind] in *.
  rewrite (append_points _ _ r _ Hr).
  destruct (append_name RECIVE_HOST_OFF _ _) as [[buf size]|]; [|done]. cbn [mbind outcome_bind] in *.
  rewrite Hm, Hn in *.
  destruct (set_field MESSAGE_OFF _ _) as [buf1|]; [|done]. cbn [mbind outcome_bind] in *.
  destruct (set_field MESSAGE_SIZE_OFF _ _) as [buf2|]; [|done]. cbn [mbind outcome_bind deref] in *.
  rewrite Hread. rewrite memread_done, zsub_all in He by (pose proof (zlen_nonneg p); lia).
  cbn [mbind outcome_bind] in *.
  destruct (memwrite size p _) as [buf3|]; [|done]. cbn [mbind outcome_bind] in *.
  injection He as -> ->. eexists. split; [done|]. done.
Qed.

(** ** The invariant *)

Section spec.
Context {B : Type} `{NewBuffer B} {K St : Type}.
Implicit Types (mh : mess_handle B K) (x : GroupInfor B K) (i : BevInfor B).

Definition mh_ok mh : Prop := forall g x, mess_group_map mh !! g = Some x -> handle_ok (handle x).

(** The connection [id] of group [g]. *)
Definition link mh (g : name) (id : Z) : option (BevInfor B) :=
  x ← mess_group_map mh !! g; e ← bev_map (handle x) !! id; e.

(** What is queued for an address in group [g]. *)
Definition sent_to mh (g ip' : name) (port' : Z) : list byte :=
  match mess_group_map mh !! g with Some x => sent_on (handle x) ip' port' | None => [] end.

(** Host [host] of group [g] is configured with this address and can be reached. *)
Record route (e : net_env) mh (g host ip' : name) (port' : Z) : Prop := {
  rt_group : exists x, mess_group_map mh !! g = Some x /\ host_port_map x !! host = Some port' /\
               reach e (handle x) ip' port';
  rt_ip : host_config_map mh !! host = Some ip';
  rt_port : port' <> 0
}.

(** Message type [t] is configured in group [g]. *)
Definition has_type mh (g t : name) : Prop :=
  exists x c, mess_group_map mh !! g = Some x /\ mess_callback_map x !! t = Some c.

Lemma check_known m mh g t x c :
  points_to (group_name m) g -> points_to (mess_type m) t ->
  mess_group_map mh !! g = Some x -> mess_callback_map x !! t = Some c ->
  check_mess_type m mh = Done (true, m) /\ get_callback m mh = Done (g, t, x, c).
Proof.
  intros (gm & Hg & <-) (tm & Ht & <-) Hx Hc. unfold check_mess_type, get_callback.
  rewrite Hg, Ht. cbn [deref mbind outcome_bind]. rewrite Hx. cbn [deref mbind outcome_bind].
  rewrite Hc. done.
Qed.

Lemma mh_ok_with mh g x : mh_ok mh -> handle_ok (handle x) -> mh_ok (with_group mh g x).
Proof.
  intros Hm Hx g' x'. simpl. rewrite lookup_insert_Some. intros [[<- <-]|[_ Hl]]; [done|]. by eapply Hm.
Qed.

Lemma get_port_known mh hostname groupname g host x port' :
  points_to hostname host -> points_to groupname g ->
  mess_group_map mh !! g = Some x -> host_port_map x !! host = Some port' ->
  get_port hostname groupname mh = Done (port', mh).
Proof.
  intros (hm & -> & <-) (gm & -> & <-) Hx Hp. unfold get_port. cbn [deref mbind outcome_bind].
  rewrite Hx. cbn [deref mbind outcome_bind]. unfold port_at. rewrite Hp. f_equal. f_equal.
  destruct mh as [fr lh hc mg]. unfold with_group; simpl in *. f_equal. apply insert_id.
  destruct x. done.
Qed.

(** Hosts, ports, message types, handlers and unprocessed messages are the same. *)
Record same_config mh mh' : Prop := {
  sc_host : local_host_name mh' = local_host_name mh;
  sc_ips : host_config_map mh' = host_config_map mh;
  sc_groups : forall g, (fun x => (host_port_map x, mess_callback_map x)) <$> mess_group_map mh' !! g =
                        (fun x => (host_port_map x, mess_callback_map x)) <$> mess_group_map mh !! g
}.

Lemma same_config_with mh g x h :
  mess_group_map mh !! g = Some x -> same_config mh (with_group mh g (with_handle x h)).
Proof.
  intros Hx. split; simpl; [done|done|]. intros g'. destruct (decide (g' = g)) as [->|Hne].
  - by rewrite lookup_insert_eq, Hx.
  - by rewrite lookup_insert_ne.
Qed.

Lemma same_config_trans mh1 mh2 mh3 : same_config mh1 mh2 -> same_config mh2 mh3 -> same_config mh1 mh3.
Proof.
  intros [A1 A2 A3] [B1 B2 B3]. split; [congruence|congruence|]. intros g. by rewrite B3, A3.
Qed.

(** A connection's input is not touched. *)
Definition keeps_inputs mh mh' : Prop :=
  forall g k i, link mh g k = Some i -> exists j, link mh' g k = Some j /\ same_input i j.

Lemma same_input_refl i : same_input i i.
Proof. done. Qed.

Lemma link_with mh g x k : link (with_group mh g x) g k = (e ← bev_map (handle x) !! k; e).
Proof. unfold link. simpl. by rewrite lookup_insert_eq. Qed.

Lemma keeps_inputs_with mh g x h :
  mess_group_map mh !! g = Some x ->
  (forall k i, bev_map (handle x) !! k = Some (Some i) ->
     exists j, bev_map h !! k = Some (Some j) /\ same_input i j) ->
  keeps_inputs mh (with_group mh g (with_handle x h)).
Proof.
  intros Hx Hh g' k i Hl. destruct (decide (g' = g)) as [->|Hne].
  - rewrite link_with. simpl. unfold link in Hl. rewrite Hx in Hl. simpl in Hl.
    destruct (bev_map (handle x) !! k) as [[i'|]|] eqn:E; simplify_eq/=.
    destruct (Hh k i E) as (j & -> & Hj). by exists j.
  - exists i. split; [|done]. unfold link in *. simpl. by rewrite lookup_insert_ne.
Qed.

(** ** Sending *)

(** A message ready to be sent: it names its group, type and receiver and
    carries the payload [p]. *)
Record prepared m mh (g t host : name) (p : list byte) : Prop := {
  pm_send : will_send m = true;
  pm_group : points_to (group_name m) g;
  pm_type : points_to (mess_type m) t;
  pm_host : points_to (recive_host_name m) host;
  pm_local : x00 ∉ local_host_name mh;
  pm_payload : exists mem, message m = Some mem /\ memread 0 (message_size m) mem = Done p;
  pm_size : message_size m = zlen p;
  pm_wire : wire_size g t (local_host_name mh) host p <= INT_MAX
}.

(** The tests and the encoding are passed: what is left is the connection. *)
Lemma send_prepared e m mh g t host ip' port' p x :
  prepared m mh g t host p -> has_type mh g t -> mess_group_map mh !! g = Some x ->
  host_port_map x !! host = Some port' -> port' <> 0 -> host_config_map mh !! host = Some ip' ->
  let body := encode g t (local_host_name mh) host p in
  exists m', sendMessage e m mh =
    ('(connect_id, h) ← get_connection_id e ip' port' true (handle x);
     '(_, h) ← send connect_id body (zlen body) h;
     Done (1, m', with_group mh g (with_handle x h))).
Proof.
  intros [Hsend Hg Ht Hh Hl (mem & Hm & Hread) Hn Hw] (x' & c & Hx' & Hc) Hx Hp Hport Hip body.
  rewrite Hx in Hx'. injection Hx' as <-.
  destruct (check_known m mh g t x c Hg Ht Hx Hc) as [Hck _].
  unfold sendMessage. rewrite Hsend. cbn [negb]. rewrite Hck. cbn [mbind outcome_bind negb].
  assert (Hgip : get_ip (recive_host_name m) mh = Done (Some ip')).
  { destruct Hh as (hm & -> & <-). unfold get_ip. simpl. by rewrite Hip. }
  rewrite Hgip. cbn [mbind outcome_bind].
  rewrite (get_port_known mh _ _ g host x port' Hh Hg Hx Hp). cbn [mbind outcome_bind].
  rewrite (proj2 (Z.eqb_neq _ _)) by done.
  destruct (init_buffer_points (with_sender m (c_string (local_host_name mh))) g t (local_host_name mh) host p mem)
    as (m' & Hi & Hbuf & Hsz & Hgn); try done.
  { by apply points_to_c_string. }
  { unfold INT_MAX in Hw. lia. }
  rewrite Hi. cbn [mbind outcome_bind]. simpl in Hgn. rewrite Hgn.
  destruct Hg as (gm & -> & Hgm). cbn [deref mbind outcome_bind]. rewrite Hgm, Hx.
  cbn [deref mbind outcome_bind]. rewrite Hbuf, Hsz, <- zlen_encode. fold body.
  pose proof (zlen_nonneg body). rewrite <- zlen_encode in Hw. fold body in Hw.
  rewrite i32_small by (unfold INT_MAX in Hw; lia). by exists m'.
Qed.

(** With the receiver configured and reachable, the type configured and
    memory available, [sendMessage] queues one packet for the receiver's
    address and changes nothing else. *)
Lemma send_message_spec e m mh g t host ip' port' p :
  mh_ok mh -> env_ok e -> room (B := B) -> route e mh g host ip' port' -> has_type mh g t ->
  prepared m mh g t host p ->
  zlen (sent_to mh g ip' port') + zlen (frame (encode g t (local_host_name mh) host p)) <= EV_SSIZE_MAX ->
  exists m' mh', sendMessage e m mh = Done (1, m', mh') /\ mh_ok mh' /\
    sent_to mh' g ip' port' = sent_to mh g ip' port' ++ frame (encode g t (local_host_name mh) host p) /\
    same_config mh mh' /\ keeps_inputs mh mh' /\ route e mh' g host ip' port'.
Proof.
  intros Hok He Hroom [(x & Hx & Hp & Hr) Hip Hport] Hty Hm Hb.
  destruct (send_prepared e m mh g t host ip' port' p x) as (m' & ->); try done.
  pose proof (zlen_encode g t (local_host_name mh) host p) as Hze.
  pose proof (pm_wire _ _ _ _ _ _ Hm) as Hw. rewrite <- Hze in Hw.
  unfold sent_to in *. rewrite Hx in *.
  destruct (send_address e ip' port' (encode g t (local_host_name mh) host p) (handle x))
    as (id & h1 & h2 & Hgc & Hsd & Hh2 & Hs & Hr2 & _ & Hkeep); [by eapply Hok|done..|].
  rewrite Hgc. cbn [mbind outcome_bind]. rewrite Hsd. cbn [mbind outcome_bind].
  eexists _, _. split; [done|]. split; [by apply mh_ok_with|]. simpl. rewrite lookup_insert_eq. simpl.
  split; [done|]. split; [by apply same_config_with|]. split; [by apply keeps_inputs_with|].
  split; simpl; [|done|done]. exists (with_handle x h2). rewrite lookup_insert_eq. done.
Qed.

End spec.

(** ** The receive loop of a group *)

(** Receiving touches only the input side of a connection. *)
Lemma recive_keeps_output `{ByteBuffer B} str (i : BevInfor B) n s j :
  Connection.recive_str_NoWait str i = Done (n, s, j) ->
  ip j = ip i /\ port j = port i /\ is_listen j = is_listen i /\ output j = output i /\
  write_singal j = write_singal i.
Proof.
  unfold Connection.recive_str_NoWait, readBuffer_NoWait, readBufferControlBlock_NoWait, bufferevent_read.
  intros Hr.
  repeat match goal with
  | H : mbind _ ?m = Done _ |- _ =>
      destruct m as [?|] eqn:?; [|done]; cbn [mbind outcome_bind] in H
  | H : context [let '(_, _) := ?p in _] |- _ => destruct p; cbn [mbind outcome_bind] in H
  | H : context [if ?b then _ else _] |- _ => destruct b; cbn [mbind outcome_bind] in H
  end; by simplify_eq/=.
Qed.

(** Packets served one after the other. *)
Inductive chain {A} (F : list byte -> A -> A -> Prop) : list (list byte) -> A -> A -> Prop :=
| chain_nil a : chain F [] a a
| chain_cons b bs a1 a2 a3 : F b a1 a2 -> chain F bs a2 a3 -> chain F (b :: bs) a1 a3.

Section dispatch.
Context {B : Type} `{NewBuffer B} {K St A : Type}.
Variable run_cb : K -> EventMessage -> mess_handle B K * St -> outcome (mess_handle B K * St).
Variable junk : EventMessage.
Variables (g : name) (id : Z).

(** What is kept of the state: [Abs bodies a s] relates it to an abstract
    state [a] when the packets [bodies] are still to be served. *)
Variable Abs : list (list byte) -> A -> mess_handle B K * St -> Prop.
Variable F : list byte -> A -> A -> Prop.

(** It does not depend on the input of the connection, *)
Hypothesis abs_input : forall bs a mh st x i j,
  mess_group_map mh !! g = Some x -> bev_map (handle x) !! id = Some (Some i) ->
  ip j = ip i -> port j = port i -> output j = output i ->
  Abs bs a (mh, st) -> Abs bs a (with_group mh g (with_handle x (put (handle x) id j)), st).

(** and each packet is served. *)
Hypothesis serves : forall body bs a mh st i,
  mh_ok mh -> link mh g id = Some i -> Abs (body :: bs) a (mh, st) ->
  exists m mh' st' a', init_message_ptr (received_message body (zlen body)) = Done m /\
    try_run_callback run_cb junk m (mh, st) = Done (true, (mh', st')) /\ mh_ok mh' /\
    F body a a' /\ Abs bs a' (mh', st') /\
    exists j, link mh' g id = Some j /\ same_input i j.

Lemma link_lookup (mh : mess_handle B K) i :
  link mh g id = Some i ->
  exists x, mess_group_map mh !! g = Some x /\ bev_map (handle x) !! id = Some (Some i).
Proof.
  unfold link. destruct (mess_group_map mh !! g) as [x|]; simpl; [|done].
  destruct (bev_map (handle x) !! id) as [[i'|]|] eqn:E; simpl; [|done..].
  intros [= <-]. eauto.
Qed.

(** The state after a packet or a part of one was taken from the input. *)
Lemma after_recive (mh : mess_handle B K) x i n str j :
  mh_ok mh -> mess_group_map mh !! g = Some x -> bev_map (handle x) !! id = Some (Some i) ->
  Connection.recive_str_NoWait [] i = Done (n, str, j) -> conn_ok j ->
  let mh' := with_group mh g (with_handle x (put (handle x) id j)) in
  recive_str_NoWait id [] (handle x) = Done (n, str, put (handle x) id j) /\
  mh_ok mh' /\ link mh' g id = Some j.
Proof.
  intros Hok Hx Hi Hr Hj mh'. pose proof (Hok g x Hx) as Hh.
  destruct (recive_keeps_output [] i n str j Hr) as (_ & _ & Hl & Ho & Hw).
  destruct (ho_links _ Hh id _ Hi) as (i' & [= <-] & Hli).
  split; [by apply recive_done with i|]. split.
  - apply mh_ok_with; [done|]. simpl. apply put_ok with i; [done|done| |done].
    split; [done|rewrite Ho; apply Hli|rewrite Hw; apply Hli].
  - unfold mh'. rewrite link_with. simpl. by rewrite lookup_insert_eq.
Qed.

Lemma dispatch_spec bodies : forall rest fuel i a mh st,
  mh_ok mh -> link mh g id = Some i -> Forall body_ok bodies -> incomplete rest ->
  pending i = concat (frame <$> bodies) ++ rest ->
  (Z.to_nat (zlen (bb_content (input i))) < fuel)%nat -> Abs bodies a (mh, st) ->
  exists r mh' st' a' j,
    read_callback_message_from_libevent run_cb junk fuel g id (mh, st) = Done (r, (mh', st')) /\
    mh_ok mh' /\ chain F bodies a a' /\ Abs [] a' (mh', st') /\ link mh' g id = Some j /\ pending j = rest.
Proof.
  induction bodies as [|b bodies IH]; intros rest fuel i a mh st Hok Hl Hf Hinc Hp Hfuel Ha;
    (destruct fuel as [|fuel]; [lia|]); cbn [read_callback_message_from_libevent];
    destruct (link_lookup mh i Hl) as (x & Hx & Hi);
    (rewrite Hx; cbn [deref mbind outcome_bind]);
    pose proof (Hok g x Hx) as Hh; (rewrite (length_done (handle x) id i) by done);
    cbn [mbind outcome_bind]; destruct (ho_links _ Hh id _ Hi) as (i0 & [= <-] & [Hc _ _]).
  - assert (Hid : with_group mh g (with_handle x (handle x)) = mh).
    { destruct mh as [f l hc mg], x. unfold with_group, with_handle; simpl in *. f_equal. by apply insert_id. }
    destruct (0 <? zlen (bb_content (input i))) eqn:E; cbn [negb].
    + destruct (recive_incomplete i rest Hc Hinc Hp) as (j & str & Hr & Hj & Hpj).
      destruct (after_recive mh x i 0 str j Hok Hx Hi Hr Hj) as (-> & Hok' & Hl').
      destruct (recive_keeps_output [] i 0 str j Hr) as (H1 & H2 & _ & H3 & _).
      cbn [mbind outcome_bind]. eexists _, _, st, a, j. split; [done|]. split; [done|].
      split; [constructor|]. split; [by eapply abs_input|done].
    + rewrite Hid. eexists _, _, st, a, i. split; [done|]. split; [done|].
      split; [constructor|]. done.
  - apply Forall_cons in Hf as [Hb Hf]. cbn [fmap list_fmap concat] in Hp. rewrite <- app_assoc in Hp.
    rewrite (proj2 (Z.ltb_lt _ _)) by (by eapply pending_content_pos). cbn [negb].
    destruct (recive_complete i b _ Hc Hb Hp) as (j & Hr & Hj & Hpj & Hcj).
    destruct (after_recive mh x i (zlen b) b j Hok Hx Hi Hr Hj) as (-> & Hok' & Hl').
    destruct (recive_keeps_output [] i (zlen b) b j Hr) as (H1 & H2 & _ & H3 & _).
    cbn [mbind outcome_bind].
    rewrite (proj2 (Z.leb_gt _ _)) by (unfold body_ok, BLOCK_HEADER in Hb; lia).
    destruct (serves b bodies a _ st j Hok' Hl') as (m & mh2 & st2 & a2 & Hm & Ht & Hok2 & HF & Ha2 & j2 & Hl2 & Hs2);
      [by eapply abs_input|].
    rewrite Hm. cbn [mbind outcome_bind]. rewrite Ht. cbn [mbind outcome_bind].
    pose proof (recive_consumes i b _ j Hc Hp Hpj Hb Hcj).
    destruct Hs2 as (_ & _ & _ & S1 & S2 & S3 & S4).
    destruct (IH rest fuel j2 a2 mh2 st2) as (r & mh3 & st3 & a3 & j3 & He & Hok3 & Hch & Ha3 & Hl3 & Hp3); try done.
    + unfold pending in *. by rewrite S1, S2, S3.
    + rewrite S1. pose proof (zlen_nonneg (bb_content (input j))). lia.
    + exists r, mh3, st3, a3, j3. split; [done|]. split; [done|]. split; [by econstructor|]. done.
Qed.

(** The callback itself, with the fuel it computes. *)
Lemma callback_spec bodies rest i a mh st :
  mh_ok mh -> link mh g id = Some i -> Forall body_ok bodies -> incomplete rest ->
  pending i = concat (frame <$> bodies) ++ rest -> Abs bodies a (mh, st) ->
  exists mh' st' a' j, libevent_callback run_cb junk g id (mh, st) = Done (mh', st') /\
    mh_ok mh' /\ chain F bodies a a' /\ Abs [] a' (mh', st') /\ link mh' g id = Some j /\ pending j = rest.
Proof.
  intros Hok Hl Hf Hinc Hp Ha. destruct (link_lookup mh i Hl) as (x & Hx & Hi).
  destruct (ho_links _ (Hok g x Hx) id _ Hi) as (i0 & [= <-] & [Hc _ _]).
  unfold libevent_callback. simpl fst. rewrite Hx. cbn [deref mbind outcome_bind]. rewrite Hi.
  rewrite bb_length_spec by apply Hc.
  destruct (dispatch_spec bodies rest (S (Z.to_nat (zlen (bb_content (input i))))) i a mh st)
    as (r & mh' & st' & a' & j & -> & Hrest); try done; [lia|].
  cbn [mbind outcome_bind]. exists mh', st', a', j. done.
Qed.

End dispatch.

(** ** Unprocessed messages *)

Section unprocessed.
Context {B : Type} `{NewBuffer B} {K St : Type}.
Variable run_cb : K -> EventMessage -> mess_handle B K * St -> outcome (mess_handle B K * St).
Variable junk : EventMessage.
Implicit Types (mh : mess_handle B K).

(** The unprocessed messages of a type that has no handler. *)
Definition waiting mh (g t : name) : option (list EventMessage) :=
  x ← mess_group_map mh !! g; c ← mess_callback_map x !! t;
  match cb_function c with None => Some (unprocessed_mess_list c) | Some _ => None end.

(** Message [m] says what sender [s] sent to [r] with payload [p]. *)
Definition says (g t : name) (m : EventMessage) (srp : name * name * list byte) : Prop :=
  let '(s, r, p) := srp in names_of m = Some [g; t; s; r] /\ payload_of m = Some p.

Definition packet (g t : name) (srp : name * name * list byte) : list byte :=
  let '(s, r, p) := srp in encode g t s r p.

Definition sendable (g t : name) (srp : name * name * list byte) : Prop :=
  let '(s, r, p) := srp in (x00 ∉ s) /\ (x00 ∉ r) /\ wire_size g t s r p <= INT_MAX.

Lemma packet_body_ok g t srp : sendable g t srp -> body_ok (packet g t srp).
Proof.
  destruct srp as [[s r] p]. intros (_ & _ & Hw). unfold body_ok, packet. rewrite zlen_encode.
  pose proof (zlen_nonneg g). pose proof (zlen_nonneg t). pose proof (zlen_nonneg s).
  pose proof (zlen_nonneg r). pose proof (zlen_nonneg p).
  unfold wire_size, BLOCK_HEADER, CURSOR_SIZE in *. lia.
Qed.

(** A received packet, decoded: its pointers and their strings. *)
Lemma decode_packet g t s r p m :
  x00 ∉ g -> x00 ∉ t -> sendable g t (s, r, p) ->
  buffer_str m = encode g t s r p -> buffer_size m = zlen (encode g t s r p) ->
  exists m', init_message_ptr m = Done m' /\ points_to (group_name m') g /\ points_to (mess_type m') t /\
    points_to (send_host_name m') s /\ points_to (recive_host_name m') r /\
    message m' = Some (p ++ [x00]) /\ message_size m' = zlen p /\
    buffer_str m' = buffer_str m /\ buffer_size m' = buffer_size m.
Proof.
  intros Hg Ht (Hs & Hr & Hw) Hb Hz. eexists.
  split; [apply (init_message_ptr_decode g t s r p); [unfold INT_MAX in Hw; lia|done|done]|].
  rewrite Hb, Hz, zlen_encode. simpl.
  split; [by apply points_to_prefix|]. split; [by apply points_to_prefix|].
  split; [by apply points_to_prefix|]. split; [by apply points_to_prefix|]. done.
Qed.

Lemma copy_says g t s r p src dst :
  x00 ∉ g -> x00 ∉ t -> sendable g t (s, r, p) ->
  buffer_str src = encode g t s r p -> buffer_size src = zlen (encode g t s r p) ->
  exists m, copy src dst = Done m /\ says g t m (s, r, p) /\ buffer_str m = buffer_str src /\
    buffer_size m = buffer_size src.
Proof.
  intros Hg Ht Hs Hb Hz. unfold copy.
  destruct (decode_packet g t s r p (mkMessage (group_name dst) (mess_type dst) (send_host_name dst)
    (recive_host_name dst) (message dst) (message_size dst) (error_no dst) (will_send dst)
    (will_recive dst) (buffer_str src) (buffer_size src)) Hg Ht Hs Hb Hz)
    as (m & -> & (? & G & Gs) & (? & T & Ts) & (? & S & Ss) & (? & R & Rs) & Hp & Hn & Hbs & Hbz).
  exists m. split; [done|]. split; [|done]. unfold says, names_of, payload_of.
  rewrite G, T, S, R, Hp, Hn. simpl. rewrite Gs, Ts, Ss, Rs. split; [done|].
  f_equal. change (ztake (zlen p) (p ++ [x00]) = p). by rewrite ztake_app_le, ztake_all.
Qed.

(** A stored message still carries the packet it came in. *)
Definition stored (g t : name) (m : EventMessage) (srp : name * name * list byte) : Prop :=
  buffer_str m = packet g t srp /\ buffer_size m = zlen (packet g t srp) /\ says g t m srp.

Lemma unhandled_serve g t srp mh st old :
  x00 ∉ g -> x00 ∉ t -> sendable g t srp -> mh_ok mh -> waiting mh g t = Some old ->
  exists m mh', init_message_ptr (received_message (packet g t srp) (zlen (packet g t srp))) = Done m /\
    try_run_callback run_cb junk m (mh, st) = Done (true, (mh', st)) /\ mh_ok mh' /\
    (exists m', waiting mh' g t = Some (old ++ [m']) /\ stored g t m' srp) /\
    (forall id i, link mh g id = Some i -> link mh' g id = Some i).
Proof.
  intros Hg Ht Hs Hok Hw. destruct srp as [[s r] p]. simpl packet.
  destruct (decode_packet g t s r p (received_message (encode g t s r p) (zlen (encode g t s r p))))
    as (m & -> & Pg & Pt & _ & _ & _ & _ & Hb & Hz); try done.
  unfold waiting in Hw. destruct (mess_group_map mh !! g) as [x|] eqn:Hx; [|done]. simpl in Hw.
  destruct (mess_callback_map x !! t) as [c|] eqn:Hc; [|done]. simpl in Hw.
  destruct (cb_function c) eqn:Hcb; [done|]. injection Hw as Hold.
  destruct (check_known m mh g t x c Pg Pt Hx Hc) as [Hck Hgc].
  destruct (copy_says g t s r p m junk) as (m' & Hcp & Hsays & Hb' & Hz'); try done.
  exists m. eexists. split; [done|]. unfold try_run_callback. rewrite Hck. cbn [mbind outcome_bind negb].
  rewrite Hgc. cbn [mbind outcome_bind]. rewrite Hcb, Hcp. cbn [mbind outcome_bind].
  split; [done|]. split; [apply mh_ok_with; [done|]; by apply (Hok g x)|]. split.
  - exists m'. unfold waiting, set_unprocessed. simpl. rewrite lookup_insert_eq. simpl.
    rewrite lookup_insert_eq. simpl. rewrite Hcb, Hold. split; [done|].
    split; [by rewrite Hb', Hb|]. split; [by rewrite Hz', Hz|done].
  - intros id i Hl. unfold set_unprocessed. rewrite link_with. simpl. unfold link in Hl.
    rewrite Hx in Hl. done.
Qed.

(** ** Reading *)

Lemma find_first (flt : EventMessage -> outcome bool) pre y post before :
  Forall (fun m => flt m = Done false) pre -> flt y = Done true ->
  find_message flt before (pre ++ y :: post) = Done (Some (y, before ++ pre ++ post)).
Proof.
  intros Hp Hy. revert before. induction Hp as [|m pre Hm _ IH]; intros before; simpl.
  - rewrite Hy. done.
  - rewrite Hm. cbn [mbind outcome_bind]. rewrite IH, <- app_assoc. done.
Qed.

Lemma find_nothing (flt : EventMessage -> outcome bool) l before :
  Forall (fun m => flt m = Done false) l -> find_message flt before l = Done None.
Proof.
  intros Hl. revert before. induction Hl as [|m l Hm _ IH]; intros before; simpl; [done|].
  rewrite Hm. apply IH.
Qed.

Lemma waiting_inv mh g t l :
  waiting mh g t = Some l ->
  exists x c, mess_group_map mh !! g = Some x /\ mess_callback_map x !! t = Some c /\
    cb_function c = None /\ unprocessed_mess_list c = l.
Proof.
  unfold waiting. destruct (mess_group_map mh !! g) as [x|]; simpl; [|done].
  destruct (mess_callback_map x !! t) as [c|] eqn:Hc; simpl; [|done].
  destruct (cb_function c) eqn:Hcb; [done|]. intros [= Hl]. exists x, c. done.
Qed.

Lemma waiting_set mh g t x c l :
  cb_function c = None -> waiting (set_unprocessed mh g t x c l) g t = Some l.
Proof.
  intros Hc. unfold waiting, set_unprocessed. simpl. rewrite lookup_insert_eq. simpl.
  rewrite lookup_insert_eq. simpl. by rewrite Hc.
Qed.

(** The abstract state of a run: the waiting messages and those to come. *)
Definition to_come : Type := list EventMessage * list (name * name * list byte).

Definition waits g t st (bodies : list (list byte)) (a : to_come) (s : mess_handle B K * St) : Prop :=
  s.2 = st /\ waiting s.1 g t = Some a.1 /\ bodies = packet g t <$> a.2 /\ Forall (sendable g t) a.2.

Inductive stores g t : list byte -> to_come -> to_come -> Prop :=
| stores_one m srp l ms : stored g t m srp -> stores g t (packet g t srp) (l, srp :: ms) (l ++ [m], ms).

Lemma stores_chain g t bodies a l :
  chain (stores g t) bodies a (l, []) -> exists new, l = a.1 ++ new /\ Forall2 (stored g t) new a.2.
Proof.
  intros Hc. remember (l, []) as b eqn:Hb. revert l Hb.
  induction Hc as [a|body bs a1 a2 a3 Hs Hc IH]; intros l ->.
  - exists []. rewrite app_nil_r. split; [done|constructor].
  - destruct (IH l eq_refl) as (new & -> & Hf). destruct Hs as [m srp l1 ms Hst]. simpl in *.
    exists (m :: new). rewrite <- app_assoc. split; [done|]. by constructor.
Qed.

End unprocessed.

(** ** Initialised handles *)

Lemma fresh_handle_ok `{NewBuffer B} e port :
  handle_ok (set_event_callback (LibeventHandle.init_handle (B := B) e port new).2).
Proof. unfold LibeventHandle.init_handle. destruct (base_ok e); split; simpl; done || (by intros ? []) || lia. Qed.

Lemma init_group_ok `{NewBuffer B} {K} e (mh : mess_handle B K) gi : mh_ok mh -> mh_ok (init_group e mh gi).
Proof.
  intros Hok. unfold init_group. destruct (port_at _ _) as [port ports].
  pose proof (fresh_handle_ok (B := B) e port) as Hf.
  destruct (LibeventHandle.init_handle e port new) as [r h]. by apply mh_ok_with.
Qed.

(** After [init_handle] every table is empty and free, and the message types
    of a group are the configured ones, without handlers. *)
Lemma init_handle_ok `{NewBuffer B} {K} e hosts groups :
  mh_ok (EventMessageHandle.init_handle (B := B) (K := K) e hosts groups new_handle).2.
Proof.
  simpl. unfold read_config, init_group_infor_map.
  assert (Hh : forall l (mh : mess_handle B K), mh_ok mh -> mh_ok (fold_left read_host l mh)).
  { induction l as [|h l IH]; intros mh Hok; simpl; [done|]. apply IH. done. }
  assert (Hg : forall l (mh : mess_handle B K), mh_ok mh -> mh_ok (fold_left (init_group e) l mh)).
  { induction l as [|gi l IH]; intros mh Hok; simpl; [done|]. by apply IH, init_group_ok. }
  apply Hg, Hh. intros g x Hx. simpl in Hx. by rewrite lookup_empty in Hx.
Qed.

(** New input of a connection, put there by the event loop. *)
Definition with_input `{ByteBuffer B} (i : BevInfor B) (b : B) : BevInfor B :=
  set_read i b (block_size i) (cache_block i) (read_singal i) (read_low i).

Definition arrive {K} (mh : mess_handle (list byte) K) (g : name) (id : Z) (d : list byte)
    : mess_handle (list byte) K :=
  match mess_group_map mh !! g with
  | Some x =>
      match bev_map (handle x) !! id with
      | Some (Some i) => with_group mh g (with_handle x (put (handle x) id (with_input i (input i ++ d))))
      | _ => mh
      end
  | None => mh
  end.

Lemma arrive_ok {K} (mh : mess_handle (list byte) K) g id d : mh_ok mh ->
  (forall i, link mh g id = Some i -> zlen (input i ++ d) <= INT_MAX) -> mh_ok (arrive mh g id d).
Proof.
  intros Hok Hfit. unfold arrive, link in *. destruct (mess_group_map mh !! g) as [x|] eqn:Hx; [|done].
  simpl in Hfit. destruct (bev_map (handle x) !! id) as [[i|]|] eqn:Hi; [|done..]. specialize (Hfit i eq_refl).
  pose proof (Hok g x Hx) as Hh. apply mh_ok_with; [done|]. apply put_ok with i; [done|done| |done].
  destruct (ho_links _ Hh id _ Hi) as (i' & [= <-] & [[H1 _ H2 H3] H4 H5]). by split.
Qed.

(** A server that accepted one connection. *)
Definition accepted {K} (e : net_env) (mh : mess_handle (list byte) K) (g ip' : name) (sin_port : Z)
    : mess_handle (list byte) K :=
  match mess_group_map mh !! g with
  | Some x =>
      match connlistener_cb e ip' sin_port (handle x) with
      | Done h => with_group mh g (with_handle x h)
      | Crash => mh
      end
  | None => mh
  end.

Lemma accepted_ok {K} e (mh : mess_handle (list byte) K) g ip' sin_port :
  mh_ok mh -> env_ok e -> 0 < sin_port < 2 ^ 16 ->
  (forall x, mess_group_map mh !! g = Some x -> bev_map (handle x) = ∅ /\ max_bev_id (handle x) = 0) ->
  mh_ok (accepted e mh g ip' sin_port).
Proof.
  intros Hok He Hp Hem. unfold accepted. destruct (mess_group_map mh !! g) as [x|] eqn:Hx; [|done].
  destruct (Hem x eq_refl) as [Hb Hmax].
  destruct (accepted_connection_is_new e ip' sin_port (handle x)) as (h & -> & Hh & _); try done.
  - by apply (Hok g).
  - rewrite Hmax. done.
  - intros id i. by rewrite Hb, lookup_empty.
  - by apply mh_ok_with.
Qed.

(** Packets of a type without a handler are stored in order. *)
Lemma wait_spec `{NewBuffer B} {K St} run_cb junk (mh : mess_handle B K) (st : St)
    g t id i old msgs rest :
  mh_ok mh -> link mh g id = Some i -> waiting mh g t = Some old ->
  x00 ∉ g -> x00 ∉ t -> Forall (sendable g t) msgs -> incomplete rest ->
  pending i = concat (frame <$> (packet g t <$> msgs)) ++ rest ->
  exists mh' new j, libevent_callback run_cb junk g id (mh, st) = Done (mh', st) /\
    waiting mh' g t = Some (old ++ new) /\ Forall2 (stored g t) new msgs /\
    mh_ok mh' /\ link mh' g id = Some j /\ pending j = rest.
Proof.
  intros Hok Hl Hw Hg Ht Hs Hinc Hp.
  destruct (callback_spec run_cb junk g id (waits g t st) (stores g t)) with
    (bodies := packet g t <$> msgs) (rest := rest) (i := i) (a := (old, msgs)) (mh := mh) (st := st)
    as (mh' & st' & [l ms] & j & Hd & Hok' & Hch & (Hst & Hw' & Hms & _) & Hl' & Hp'); try done.
  - intros bs a mh1 st1 x i1 j1 Hx Hi1 _ _ _ (H1 & H2 & H3). split; [done|]. split; [|done].
    unfold waiting in *. simpl in *. rewrite lookup_insert_eq, Hx in *. done.
  - intros body bs [l ms] mh1 st1 i1 Hok1 Hl1 (Hst & Hw1 & Hms & Hf1). simpl in *. subst st1.
    destruct ms as [|srp ms]; [done|]. injection Hms as -> ->. apply Forall_cons in Hf1 as [Hsrp Hf1].
    destruct (unhandled_serve run_cb junk g t srp mh1 st l Hg Ht Hsrp Hok1 Hw1)
      as (m & mh2 & Hm & Ht2 & Hok2 & (m' & Hw2 & Hst2) & Hk2).
    exists m, mh2, st, (l ++ [m'], ms). split; [done|]. split; [done|]. split; [done|].
    split; [by constructor|]. split; [done|]. exists i1. split; [by apply Hk2|done].
  - apply Forall_fmap. eapply Forall_impl; [exact Hs|]. intros srp. apply packet_body_ok.
  - simpl in *. subst st'. destruct ms; [|done].
    destruct (stores_chain g t _ _ _ Hch) as (new & -> & Hf). exists mh', new, j. done.
Qed.

(** Reading takes the first message that the filter accepts. *)
Lemma read_spec `{NewBuffer B} {K} (flt : EventMessage -> outcome bool) m
    (mh : mess_handle B K) g t pre found srp :
  will_recive m = true -> points_to (group_name m) g -> points_to (mess_type m) t ->
  x00 ∉ g -> x00 ∉ t -> sendable g t srp ->
  Forall (fun y => flt y = Done false) pre ->
  waiting mh g t = Some (pre ++ match found with Some (y, post) => y :: post | None => [] end) ->
  (forall y post, found = Some (y, post) -> flt y = Done true /\ stored g t y srp) ->
  exists r m' mh', readMessage_filter flt m mh = Done (r, m', mh') /\
    match found with
    | Some (y, post) => r = 1 /\ says g t m' srp /\ waiting mh' g t = Some (pre ++ post)
    | None => r = 0 /\ mh' = mh
    end.
Proof.
  intros Hr Pg Pt Hg Ht Hs Hpre Hw Hfound.
  destruct (waiting_inv mh g t _ Hw) as (x & c & Hx & Hc & Hcb & Hl).
  destruct (check_known m mh g t x c Pg Pt Hx Hc) as [Hck Hgc].
  unfold readMessage_filter. rewrite Hr. cbn [negb]. rewrite Hck. cbn [mbind outcome_bind negb].
  rewrite Hgc. cbn [mbind outcome_bind]. rewrite Hl. destruct found as [[y post]|].
  - destruct (Hfound y post eq_refl) as (Hy & Hb & Hz & _).
    destruct srp as [[s r] p]. destruct (copy_says g t s r p y m Hg Ht Hs Hb Hz) as (m' & Hcp & Hsays & _).
    pose proof (find_first flt pre y post [] Hpre Hy) as Hff.
    destruct (pre ++ y :: post) as [|z l] eqn:E; [by destruct pre|]. rewrite Hff.
    cbn [mbind outcome_bind]. rewrite Hcp. cbn [mbind outcome_bind].
    eexists _, m', _. split; [done|]. split; [done|]. split; [done|]. by apply waiting_set.
  - rewrite app_nil_r. destruct pre as [|z l]; [eexists _, _, _; done|].
    rewrite find_nothing by done. eexists _, _, _. done.
Qed.

(** ** Properties *)

(** C13: however many packets of a type without a handler are queued on a
    connection (in at most [INT_MAX] bytes, [mh_ok]), one run of the callback stores exactly these messages, in the
    order they came and behind the ones already waiting, and leaves the
    incomplete rest of the stream for the next run. *)
Theorem messages_wait_in_order `{NewBuffer B} {K St} run_cb junk (mh : mess_handle B K) (st : St)
    g t id i old msgs rest :
  mh_ok mh -> link mh g id = Some i -> waiting mh g t = Some old ->
  x00 ∉ g -> x00 ∉ t -> Forall (sendable g t) msgs -> incomplete rest ->
  pending i = concat (frame <$> (packet g t <$> msgs)) ++ rest ->
  exists mh' new j, libevent_callback run_cb junk g id (mh, st) = Done (mh', st) /\
    waiting mh' g t = Some (old ++ new) /\ Forall2 (stored g t) new msgs /\
    mh_ok mh' /\ link mh' g id = Some j /\ pending j = rest.
Proof. apply wait_spec. Qed.

(** Reading with a filter takes the first waiting message the filter
    accepts, whatever was rejected before it, decodes it into the caller's
    message, and leaves the others waiting in their order; when the filter
    rejects all it returns 0 and changes nothing. *)
Theorem read_takes_first_match `{NewBuffer B} {K} (flt : EventMessage -> outcome bool) m
    (mh : mess_handle B K) g t pre found srp :
  will_recive m = true -> points_to (group_name m) g -> points_to (mess_type m) t ->
  x00 ∉ g -> x00 ∉ t -> sendable g t srp ->
  Forall (fun y => flt y = Done false) pre ->
  waiting mh g t = Some (pre ++ match found with Some (y, post) => y :: post | None => [] end) ->
  (forall y post, found = Some (y, post) -> flt y = Done true /\ stored g t y srp) ->
  exists r m' mh', readMessage_filter flt m mh = Done (r, m', mh') /\
    match found with
    | Some (y, post) => r = 1 /\ says g t m' srp /\ waiting mh' g t = Some (pre ++ post)
    | None => r = 0 /\ mh' = mh
    end.
Proof. apply read_spec. Qed.

(** [sendMessage] says 1 although nothing was sent: neither a failed
    connection nor a failed [send] is looked at. *)
Theorem send_message_ignores_failure `{NewBuffer B} {K} e m (mh : mess_handle B K) g t host ip' port' p x :
  mh_ok mh -> prepared m mh g t host p -> has_type mh g t -> mess_group_map mh !! g = Some x ->
  host_port_map x !! host = Some port' -> port' <> 0 -> host_config_map mh !! host = Some ip' ->
  least_id (same_address ip' port') (bev_map (handle x)) = None -> can_connect e ip' port' = false ->
  exists m', sendMessage e m mh = Done (1, m', mh).
Proof.
  intros Hok Hm Hty Hx Hp Hport Hip Hno Hcc.
  destruct (send_prepared e m mh g t host ip' port' p x) as (m' & ->); try done.
  unfold get_connection_id. rewrite (ho_signal _ (Hok g x Hx)).
  change (r_lock 0) with (Done 1). cbn [mbind outcome_bind].
  change (rw_r_unlock 1) with 0. rewrite set_signal_same by apply (Hok g x Hx). rewrite Hno.
  unfold try_connect, add_bufferevent_connect. rewrite Hcc. cbn [negb mbind outcome_bind].
  unfold send. simpl. exists m'. do 2 f_equal.
  destruct mh as [f l hc mg], x. unfold with_group, with_handle; simpl in *. f_equal. by apply insert_id.
Qed.

(** ** Witnesses *)

Definition bytes_of (s : string) : name := String.list_byte_of_string s.

Definition demo_env : net_env := mkNet (fun _ _ => true) true 0 false.

Definition demo_group : name := bytes_of "locks".
Definition demo_type : name := bytes_of "Reply".

(** A client that accepted one connection from the server, on which two
    packets and the start of a third have arrived. *)
Definition demo_client : mess_handle (list byte) unit :=
  accepted demo_env
    (EventMessageHandle.init_handle demo_env
       [mkHost (bytes_of "c") (bytes_of "10.0.0.2") true; mkHost (bytes_of "s") (bytes_of "10.0.0.1") false]
       [mkGroupItem demo_group [(bytes_of "c", 7001); (bytes_of "s", 7000)] [demo_type]] new_handle).2
    demo_group (bytes_of "10.0.0.1") 4242.

Definition demo_msgs : list (name * name * list byte) :=
  [(bytes_of "s", bytes_of "c", [x01]); (bytes_of "s", bytes_of "c", [x02; x03])].

Definition demo_arrived : mess_handle (list byte) unit :=
  arrive demo_client demo_group 0
    (concat (frame <$> (packet demo_group demo_type <$> demo_msgs)) ++ [x09; x00]).

Lemma demo_arrived_ok : mh_ok demo_arrived.
Proof.
  apply arrive_ok.
  - apply accepted_ok; [apply init_handle_ok|done|done|].
    intros x Hx. vm_compute in Hx. injection Hx as <-. done.
  - intros i Hi. vm_compute in Hi. injection Hi as <-. vm_compute. congruence.
Qed.

Ltac no_nul := apply (bool_decide_eq_false_1 (x00 ∈ _)); vm_compute; reflexivity.
Ltac sends := split; [no_nul|split; [no_nul|vm_compute; congruence]].

Lemma messages_wait_in_order_witness :
  exists mh' new, libevent_callback (fun _ _ s => Done s) clear demo_group 0 (demo_arrived, tt) = Done (mh', tt) /\
    waiting mh' demo_group demo_type = Some new /\ Forall2 (stored demo_group demo_type) new demo_msgs.
Proof.
  destruct (messages_wait_in_order (fun _ _ s => Done s) clear demo_arrived tt demo_group demo_type 0
    (match link demo_arrived demo_group 0 with Some i => i | None => peer demo_env [] 0 false end)
    [] demo_msgs [x09; x00]) as (mh' & new & j & Hd & Hw & Hf & _).
  - apply demo_arrived_ok.
  - vm_compute. reflexivity.
  - vm_compute. reflexivity.
  - no_nul.
  - no_nul.
  - constructor; [sends|constructor; [sends|constructor]].
  - apply inc_header. vm_compute. congruence.
  - vm_compute. reflexivity.
  - exists mh', new. split; [exact Hd|split; [exact Hw|exact Hf]].
Defined.

(** A filter on the first byte of the payload. *)
Definition payload_is (b : byte) (m : EventMessage) : outcome bool :=
  p ← deref (message m); Done (match p with c :: _ => bool_decide (b = c) | [] => false end).

Definition stored_as (srp : name * name * list byte) : EventMessage :=
  match copy (received_message (packet demo_group demo_type srp) (zlen (packet demo_group demo_type srp))) clear with
  | Done m => m
  | Crash => clear
  end.

Definition demo_waiting : mess_handle (list byte) unit :=
  match libevent_callback (fun _ _ s => Done s) clear demo_group 0 (demo_arrived, tt) with
  | Done (mh, _) => mh
  | Crash => demo_arrived
  end.

Lemma read_takes_first_match_witness :
  exists m' mh', readMessage_filter (payload_is x02)
      (prepare_recive (c_string demo_group) (c_string demo_type) clear) demo_waiting = Done (1, m', mh') /\
    says demo_group demo_type m' (bytes_of "s", bytes_of "c", [x02; x03]) /\
    waiting mh' demo_group demo_type = Some [stored_as (bytes_of "s", bytes_of "c", [x01])].
Proof.
  destruct (read_takes_first_match (payload_is x02)
    (prepare_recive (c_string demo_group) (c_string demo_type) clear) demo_waiting demo_group demo_type
    [stored_as (bytes_of "s", bytes_of "c", [x01])]
    (Some (stored_as (bytes_of "s", bytes_of "c", [x02; x03]), []))
    (bytes_of "s", bytes_of "c", [x02; x03])) as (r & m' & mh' & Hd & -> & Hs & Hw).
  - reflexivity.
  - apply points_to_c_string. no_nul.
  - apply points_to_c_string. no_nul.
  - no_nul.
  - no_nul.
  - sends.
  - constructor; [vm_compute; reflexivity|constructor].
  - vm_compute. reflexivity.
  - intros y post [= <- <-]. split; [vm_compute; reflexivity|].
    split; [vm_compute; reflexivity|split; [vm_compute; reflexivity|split; vm_compute; reflexivity]].
  - exists m', mh'. split; [exact Hd|split; [exact Hs|exact Hw]].
Defined.
