(* ===== verification/WaitReceive.v ===== *)
(** * Receiving with waiting

    Models [readBufferControlBlock_Wait], [readBuffer_Wait], [wait_recive] and
    [recive_str_Wait] of [multi_net_io/src/libevent_handle.cc]: a thread of the
    application polls the input of a connection until a whole packet is there.
    While it sleeps the event loop may add input: [arrive k] is what it adds
    during the [k]-th sleep of a wait.  [None] is a wait that has not ended
    after [polls] sleeps. *)

From S2P Require Import Prelude RwLock ByteBuffer EventMessage Connection.

Section wait.
Context {B : Type} `{ByteBuffer B}.
Variable arrive : nat -> B -> B.
Implicit Types (i : BevInfor B).

(** Poll while the length is too [short]; [k] sleeps have passed. *)
Fixpoint await (short : Z -> bool) (polls k : nat) (input : B) : option (nat * B) :=
  if short (int_length input) then
    match polls with
    | O => None
    | S polls => await short polls (S k) (arrive k input)
    end
  else Some (k, input).

(** The signal is taken and, when the read succeeds, kept. *)
Definition readBufferControlBlock_Wait (polls k : nat) (i : BevInfor B)
    : outcome (option (Z * nat * BevInfor B)) :=
  s ← w_lock (read_singal i);
  match await (fun len => u64 len <? BLOCK_HEADER) polls k (input i) with
  | None => Done None
  | Some (k, inp) =>
      '(read_size, bytes, inp) ← bufferevent_read BLOCK_HEADER inp;
      let blk := i32 (le_value bytes) in
      if read_size <? 0 then Done (Some (-1, k, set_read i inp blk true (rw_w_unlock s) (read_low i)))
      else Done (Some (read_size, k, set_read i inp blk true s (read_low i)))
  end.

(** The loop sleeps before its first test. *)
Definition readBuffer_Wait (polls k : nat) (data : list byte) (i : BevInfor B)
    : outcome (option (Z * list byte * BevInfor B)) :=
  if negb (cache_block i) then Done (Some (-1, data, i)) else
  let max_size := block_size i in
  match polls with
  | O => Done None
  | S polls =>
      match await (fun len => len <? max_size) polls (S k) (arrive k (input i)) with
      | None => Done None
      | Some (_, inp) =>
          '(read_size, bytes, inp) ← bufferevent_read (u64 max_size) inp;
          data ← memwrite 0 bytes data;
          if read_size <? 0 then
            Done (Some (-1, data, set_read i inp max_size true (rw_w_unlock (read_singal i)) (read_low i)))
          else
            Done (Some (read_size, data, set_read i inp max_size false (rw_w_unlock (read_singal i)) (read_low i)))
      end
  end.

Definition recive_str_Wait (polls : nat) (buffer_str : list byte) (i : BevInfor B)
    : outcome (option (Z * list byte * BevInfor B)) :=
  o ← readBufferControlBlock_Wait polls 0 i;
  match o with
  | None => Done None
  | Some (_, k, i) =>
      buffer_str ← grow_str buffer_str (block_size i);
      readBuffer_Wait polls k buffer_str i
  end.

Definition wait_recive (polls : nat) (recive_bytes : list byte) (i : BevInfor B)
    : outcome (option (Z * list byte * BevInfor B)) :=
  o ← readBufferControlBlock_Wait polls 0 i;
  match o with
  | None => Done None
  | Some (_, k, i) => readBuffer_Wait polls k recive_bytes i
  end.

(** ** When the input keeps coming *)

(** The event loop appends [chunk k] during the [k]-th sleep. *)
Variable chunk : nat -> list byte.
Hypothesis arrive_ok : forall k b, bb_ok b -> bb_ok (arrive k b).
Hypothesis arrive_content : forall k b, bb_ok b -> bb_content (arrive k b) = bb_content b ++ chunk k.

(** The queue never outgrows an [int]. *)
Definition fits (b : B) (k : nat) : Prop := forall n, zlen (bb_content b ++ concat (chunk <$> seq k n)) <= INT_MAX.

(** What has arrived in sleeps [k], ..., [k + n - 1]. *)
Definition arrived (k n : nat) : list byte := concat (chunk <$> seq k n).

Lemma arrived_S k n : arrived k (S n) = chunk k ++ arrived (S k) n.
Proof. done. Qed.

Lemma arrived_app k n m : arrived k (n + m) = arrived k n ++ arrived (k + n) m.
Proof. unfold arrived. by rewrite seq_app, fmap_app, concat_app. Qed.

Lemma fits_now b k : fits b k -> zlen (bb_content b) <= INT_MAX.
Proof. intros Hf. specialize (Hf O). simpl in Hf. by rewrite app_nil_r in Hf. Qed.

Lemma fits_next b k : bb_ok b -> fits b k -> fits (arrive k b) (S k).
Proof. intros Hok Hf n. rewrite arrive_content, <- app_assoc by done. apply (Hf (S n)). Qed.

Lemma await_spec (short : Z -> bool) n :
  (forall z, 0 <= z <= INT_MAX -> short z = (z <? n)) ->
  forall polls k b, bb_ok b -> fits b k -> n <= zlen (bb_content b ++ arrived k polls) ->
  exists m b', await short polls k b = Some ((k + m)%nat, b') /\ (m <= polls)%nat /\ bb_ok b' /\
    bb_content b' = bb_content b ++ arrived k m /\ n <= zlen (bb_content b').
Proof.
  intros Hshort.
  induction polls as [|polls IH]; intros k b Hok Hf Hn; simpl; pose proof (fits_now b k Hf);
    rewrite int_length_spec, Hshort by auto with mtc.
  - unfold arrived in Hn. simpl in Hn. rewrite app_nil_r in Hn. rewrite (proj2 (Z.ltb_ge _ _)) by lia.
    exists O, b. rewrite Nat.add_0_r. unfold arrived. simpl. rewrite app_nil_r. done.
  - destruct (zlen (bb_content b) <? n) eqn:E.
    + destruct (IH (S k) (arrive k b)) as (m & b' & He & Hm & Hok' & Hc & Hl); [by apply arrive_ok|by apply fits_next| |].
      { rewrite arrive_content, <- app_assoc, <- arrived_S by done. done. }
      exists (S m), b'. rewrite He. split; [do 2 f_equal; lia|]. split; [lia|]. split; [done|].
      rewrite Hc, arrive_content, <- app_assoc, <- arrived_S in * by done. done.
    + zb. exists O, b. rewrite Nat.add_0_r. unfold arrived. simpl. rewrite app_nil_r. split; [done|].
      split; [lia|]. done.
Qed.

(** Two looks at the same stream agree on a prefix both have reached. *)
Lemma same_prefix (c body more : list byte) k n m :
  c ++ arrived k n = body ++ more -> zlen body <= zlen (c ++ arrived k m) ->
  ztake (zlen body) (c ++ arrived k m) = body.
Proof.
  intros Hc Hl. destruct (Nat.le_ge_cases n m) as [Hnm|Hnm].
  - replace m with (n + (m - n))%nat by lia. rewrite arrived_app, app_assoc, Hc, <- app_assoc.
    rewrite ztake_app_le, ztake_all by lia. done.
  - assert (Ht : ztake (zlen body) (c ++ arrived k n) = ztake (zlen body) (c ++ arrived k m)).
    { replace n with (m + (n - m))%nat by lia. rewrite arrived_app, app_assoc. by apply ztake_app_le. }
    rewrite <- Ht, Hc, ztake_app_le, ztake_all by lia. done.
Qed.

Lemma short_header z : 0 <= z <= INT_MAX -> (u64 z <? BLOCK_HEADER) = (z <? BLOCK_HEADER).
Proof. intros Hz. by rewrite u64_length. Qed.

(** The header: the signal stays taken. *)
Lemma control_wait polls i body more :
  conn_ok i -> fits (input i) 0 -> body_ok body -> bb_content (input i) ++ arrived 0 polls = frame body ++ more ->
  exists m inp, readBufferControlBlock_Wait polls 0 i =
      Done (Some (4, m, set_read i inp (zlen body) true (-1) (read_low i))) /\ bb_ok inp /\
    le_bytes 4 (zlen body) ++ bb_content inp = bb_content (input i) ++ arrived 0 m /\
    bb_content inp ++ arrived m (polls - m) = body ++ more.
Proof.
  intros [Hok _ Hsig _] Hf [Hb1 Hb2] Hs. pose proof (zlen_nonneg more). unfold frame in Hs.
  destruct (await_spec (fun len => u64 len <? BLOCK_HEADER) BLOCK_HEADER short_header
    polls 0 (input i) Hok Hf) as (m & b' & He & Hm & Hok' & Hc & Hl).
  { rewrite Hs, !zlen_app, zlen_le_bytes. unfold BLOCK_HEADER in *. lia. }
  unfold readBufferControlBlock_Wait. rewrite Hsig. change (w_lock 0) with (Done (-1)).
  cbn [mbind outcome_bind]. rewrite He. unfold bufferevent_read.
  destruct (bb_remove_spec b' BLOCK_HEADER Hok') as (inp & -> & Hinp & Hoki);
    [unfold BLOCK_HEADER, INT_MAX; lia|].
  assert (Ht : ztake BLOCK_HEADER (bb_content b') = le_bytes 4 (zlen body)).
  { rewrite Hc. change BLOCK_HEADER with (zlen (le_bytes 4 (zlen body))).
    rewrite <- app_assoc in Hs. eapply same_prefix; [exact Hs|]. rewrite <- Hc, zlen_le_bytes. exact Hl. }
  rewrite Ht. cbn [mbind outcome_bind]. rewrite zlen_le_bytes, header_value by (unfold BLOCK_HEADER in *; lia).
  exists m, inp. split; [done|]. split; [done|].
  assert (Hcat : le_bytes 4 (zlen body) ++ bb_content inp = bb_content (input i) ++ arrived 0 m).
  { rewrite Hinp, <- Ht, ztake_zdrop, Hc. done. }
  split; [done|]. apply (app_inv_head (le_bytes 4 (zlen body))). rewrite app_assoc, Hcat, <- app_assoc.
  replace (arrived 0 m ++ arrived m (polls - m)) with (arrived 0 polls); [by rewrite Hs, <- app_assoc|].
  replace polls with (m + (polls - m))%nat at 1 by lia. apply arrived_app.
Qed.

(** The body. *)
Lemma body_wait polls m i body more :
  bb_ok (input i) -> fits (input i) m -> cache_block i = true -> block_size i = zlen body -> body_ok body ->
  read_singal i = -1 -> (0 < polls)%nat ->
  bb_content (input i) ++ arrived m (polls - m) = body ++ more ->
  exists n inp, readBuffer_Wait polls m (replicate (length body) x00) i =
      Done (Some (zlen body, body, set_read i inp (zlen body) false 0 (read_low i))) /\ bb_ok inp /\
    body ++ bb_content inp = bb_content (input i) ++ arrived m n.
Proof.
  intros Hok Hf Hc Hblk [Hb1 Hb2] Hsig Hp Hs. unfold readBuffer_Wait. rewrite Hc, Hblk. cbn [negb].
  destruct polls as [|polls]; [lia|].
  destruct (await_spec (fun len => len <? zlen body) (zlen body) (fun _ _ => eq_refl) polls (S m) (arrive m (input i)))
    as (k & b' & He & _ & Hok' & Hcb & Hl).
  { by apply arrive_ok. }
  { by apply fits_next. }
  { rewrite arrive_content, <- app_assoc, <- arrived_S by done.
    replace (S polls) with ((S polls - m) + (S polls - (S polls - m)))%nat at 1 by lia.
    rewrite arrived_app, app_assoc, Hs, !zlen_app. pose proof (zlen_nonneg more).
    pose proof (zlen_nonneg (arrived (m + (S polls - m)) (S polls - (S polls - m)))). lia. }
  rewrite arrive_content, <- app_assoc, <- arrived_S in Hcb by done. rewrite He.
  unfold bufferevent_read, BLOCK_HEADER, INT_MAX in *. rewrite u64_small by lia.
  destruct (bb_remove_spec b' (zlen body) Hok') as (inp & -> & Hinp & Hoki); [unfold INT_MAX; lia|].
  assert (Ht : ztake (zlen body) (bb_content b') = body).
  { rewrite Hcb. eapply same_prefix; [exact Hs|]. by rewrite <- Hcb. }
  rewrite Ht. cbn [mbind outcome_bind].
  rewrite memwrite_done by (rewrite ?zlen_replicate; unfold zlen; lia).
  cbn [mbind outcome_bind]. rewrite ztake_nonpos by lia.
  rewrite zdrop_all by (rewrite zlen_replicate; unfold zlen; lia).
  rewrite app_nil_r, (proj2 (Z.ltb_ge (zlen body) 0)), Hsig by lia. cbn [app].
  exists (S k), inp. split; [done|]. split; [done|].
  rewrite Hinp, <- Hcb. rewrite <- Ht at 1. apply ztake_zdrop.
Qed.

End wait.

(** ** Properties *)

(** C32: a thread that waits for a packet with a body of 5 to [INT_MAX] bytes, on
    an input that never holds more than [INT_MAX] bytes, gets it: when the header
    and the body arrive, in any pieces, within the polls it makes, [recive_str_Wait]
    returns the body, frees the signal, and what came behind the packet is
    still queued. *)
Theorem wait_gets_packet `{ByteBuffer B} arrive chunk (i : BevInfor B) body more polls :
  (forall k b, bb_ok b -> bb_ok (arrive k b)) ->
  (forall k b, bb_ok b -> bb_content (arrive k b) = bb_content b ++ chunk k) ->
  conn_ok i -> (forall n, zlen (bb_content (input i) ++ arrived chunk 0 n) <= INT_MAX) ->
  body_ok body -> (0 < polls)%nat ->
  bb_content (input i) ++ arrived chunk 0 polls = frame body ++ more ->
  exists n i', recive_str_Wait arrive polls [] i = Done (Some (zlen body, body, i')) /\
    conn_ok i' /\ cache_block i' = false /\
    frame body ++ bb_content (input i') = bb_content (input i) ++ arrived chunk 0 n.
Proof.
  intros Hao Hac Hok Hf Hb Hp Hs.
  destruct (control_wait arrive chunk Hao Hac polls i body more Hok Hf Hb Hs) as (m & inp & Hd & Hoki & Hc & Hr).
  unfold recive_str_Wait. rewrite Hd. cbn [mbind outcome_bind].
  pose proof Hb as [Hb1 Hb2]. unfold BLOCK_HEADER in Hb1. rewrite grow_empty by (simpl; lia).
  cbn [mbind outcome_bind]. simpl block_size.
  replace (Z.to_nat (zlen body)) with (length body) by (unfold zlen; lia).
  destruct (body_wait arrive chunk Hao Hac polls m (set_read i inp (zlen body) true (-1) (read_low i)) body more)
    as (n & inp' & -> & Hok' & Hc'); try done.
  { intros n. specialize (Hf (m + n)%nat). fold (arrived chunk m n). simpl input.
    rewrite arrived_app, app_assoc, <- Hc, !zlen_app, zlen_le_bytes in Hf. rewrite zlen_app. simpl in Hf. lia. }
  simpl input in *.
  assert (Hall : frame body ++ bb_content inp' = bb_content (input i) ++ arrived chunk 0 (m + n)).
  { unfold frame. rewrite <- app_assoc, Hc', app_assoc, Hc, <- app_assoc. f_equal.
    symmetry. apply (arrived_app chunk 0 m n). }
  exists (m + n)%nat. eexists. split; [done|]. split; [|done]. split; [done| |done|done]. simpl.
  specialize (Hf (m + n)%nat). rewrite <- Hall, zlen_app in Hf. pose proof (zlen_nonneg (frame body)). lia.
Qed.

(** While a thread waits for the rest of a packet it holds the signal as a
    writer: the callback of the event loop for the input that has arrived
    cannot even ask for its length, so the loop, which alone could read the
    rest, never gets to it. *)
Theorem waiting_blocks_event_loop `{ByteBuffer B} arrive (i : BevInfor B) polls k k' r i' :
  read_singal i = 0 ->
  readBufferControlBlock_Wait arrive polls k i = Done (Some (r, k', i')) -> 0 <= r ->
  get_recive_buffer_length i' = Crash.
Proof.
  intros Hs Hd Hr. unfold readBufferControlBlock_Wait in Hd. rewrite Hs in Hd.
  change (w_lock 0) with (Done (-1)) in Hd. cbn [mbind outcome_bind] in Hd.
  destruct (await _ _ _ _ _) as [[k1 b]|]; [|done].
  destruct (bufferevent_read BLOCK_HEADER b) as [[[n bs] inp]|]; [|done]. cbn [mbind outcome_bind] in Hd.
  case_test_in Hd; [zb; injection Hd as <- _ _; lia|]. injection Hd as _ _ <-. reflexivity.
Qed.

(** A packet of five bytes that arrives in three pieces. *)
Definition demo_chunk (k : nat) : list byte :=
  match k with O => [x05; x00] | 1%nat => [x00; x00; x01; x02] | 2%nat => [x03; x04; x05; x09] | _ => [] end.

Lemma demo_chunk_fits n : zlen (arrived demo_chunk 0 n) <= 10.
Proof.
  assert (Hlate : forall k j, arrived demo_chunk (3 + k) j = []).
  { intros k j. revert k. induction j as [|j IH]; intros k; [done|]. rewrite arrived_S. apply (IH (S k)). }
  destruct n as [|[|[|n]]]; try (vm_compute; congruence).
  change (S (S (S n))) with (3 + n)%nat. rewrite arrived_app, (Hlate 0%nat), app_nil_r. vm_compute. congruence.
Qed.

Lemma wait_gets_packet_witness :
  exists n i', recive_str_Wait (fun k b => b ++ demo_chunk k) 3 [] (mkBev [] 0 false [] [] 0 false 0 0 0) =
      Done (Some (5, [x01; x02; x03; x04; x05], i')) /\
    frame [x01; x02; x03; x04; x05] ++ input i' = arrived demo_chunk 0 n.
Proof.
  destruct (wait_gets_packet (fun k (b : list byte) => b ++ demo_chunk k) demo_chunk
    (mkBev [] 0 false [] [] 0 false 0 0 0) [x01; x02; x03; x04; x05] [x09] 3)
    as (n & i' & Hd & _ & _ & Hc).
  - done.
  - done.
  - split; done.
  - intros n. pose proof (demo_chunk_fits n). unfold INT_MAX. simpl. lia.
  - vm_compute. split; congruence.
  - lia.
  - reflexivity.
  - exists n, i'. split; [exact Hd|exact Hc].
Defined.
