(* ===== verification/LockService.v ===== *)
(** * The page-lock service, end to end

    Models the message side of the lock server and its client:
    [lock_request_callback] and [lock_manager_init] of
    [centralized-lock-table/server/remote_page_lock_manager.cc],
    [RemotePageLockClient] and [PageLockReplyFilter] of
    [centralized-lock-table/client], over the message handle of
    [MessageHandle] and the lock table of [PageLock].

    Requests and replies travel as the memory of their structs.  The bytes of
    the request that pad it to a multiple of eight are arbitrary ([pad]); a
    request whose [lock_type] is not an enumerator is [Crash].  While the
    client sleeps, the thread of its event loop runs: that is the parameter
    [net] of the waiting loop. *)

From S2P Require Import Prelude RwLock ByteBuffer EventMessage Connection ConnectionTable MessageHandle MessageSpec PageLock.

Import LibeventHandle.

Definition REMOTE_LOCK_GROUP_NAME : name := String.list_byte_of_string "centralized_lock".
Definition REMOTE_LOCK_REQUEST_MESS_TYPE : name := String.list_byte_of_string "PageLockRequest".
Definition REMOTE_LOCK_REPLY_MESS_TYPE : name := String.list_byte_of_string "PageLockReply".

(** ** The structs in memory *)

Definition SIZEOF_REQUEST : Z := 24.
Definition SIZEOF_REPLY : Z := 12.

Definition lock_type_of (z : Z) : outcome PageLockType :=
  if z =? 0 then Done R_LOCK else if z =? 1 then Done W_LOCK
  else if z =? 2 then Done UNLOCK else Crash.

Definition reply_code (t : PageReplyType) : Z :=
  match t with LOCK_SUCCESS => 0 | LOCK_FAIL => 1 | UNLOCK_SUCCESS => 2 | UNLOCK_FAIL => 3 end.
Definition reply_type_of (z : Z) : outcome PageReplyType :=
  if z =? 0 then Done LOCK_SUCCESS else if z =? 1 then Done LOCK_FAIL
  else if z =? 2 then Done UNLOCK_SUCCESS else if z =? 3 then Done UNLOCK_FAIL else Crash.

Definition request_bytes (pad : list byte) (r : PageLockRequest) : list byte :=
  le_bytes 4 (rq_space_id r) ++ le_bytes 4 (rq_page_no r) ++ le_bytes 8 (rq_version_no r) ++
  le_bytes 4 (lock_level (rq_lock_type r)) ++ pad.
Definition reply_bytes (r : PageLockReply) : list byte :=
  le_bytes 4 (rp_space_id r) ++ le_bytes 4 (rp_page_no r) ++ le_bytes 4 (reply_code (rp_reply_type r)).

(** [mess->message] as a pointer to a [PageLockRequest], and its fields *)
Definition read_request (mem : list byte) : outcome PageLockRequest :=
  s ← memread 0 4 mem; p ← memread 4 4 mem; v ← memread 8 8 mem; t ← memread 16 4 mem;
  t ← lock_type_of (le_value t);
  Done (mkRequest (le_value s) (le_value p) (le_value v) t).

(** [memcpy(reply, mess.message, sizeof(PageLockReply))] *)
Definition read_reply (mem : list byte) : outcome PageLockReply :=
  s ← memread 0 4 mem; p ← memread 4 4 mem; t ← memread 8 4 mem;
  t ← reply_type_of (le_value t);
  Done (mkReply (le_value s) (le_value p) t).

Section service.
Context {B : Type} `{NewBuffer B}.

(** ** The server *)

(** The one handler the server registers. *)
Inductive handler := lock_request_handler.

Abbreviation server_state := (mess_handle B handler * lock_table)%type.

Definition lock_request_callback (e : net_env) (mess : EventMessage) (s : server_state)
    : outcome server_state :=
  let '(mh, tbl) := s in
  asker ← deref (send_host_name mess);
  mem ← deref (message mess);
  request ← read_request mem;
  '(_, reply, tbl) ← check_lock_request (String.string_of_list_byte (cstr asker)) request tbl;
  let replyMsg := prepare_send (group_name mess) (c_string REMOTE_LOCK_REPLY_MESS_TYPE)
                    (send_host_name mess) (reply_bytes reply) SIZEOF_REPLY clear in
  '(r, _, mh) ← sendMessage e replyMsg mh;
  if r <? 0 then Crash else Done (mh, tbl).

Definition run_handler (e : net_env) (k : handler) (mess : EventMessage) (s : server_state)
    : outcome server_state :=
  match k with lock_request_handler => lock_request_callback e mess s end.

Definition lock_manager_init (e : net_env) (hosts : list host_item) (groups : list group_item)
    : outcome server_state :=
  let '(_, mh) := EventMessageHandle.init_handle e hosts groups new_handle in
  '(_, mh) ← register_recive_handler (c_string REMOTE_LOCK_GROUP_NAME)
               (c_string REMOTE_LOCK_REQUEST_MESS_TYPE) lock_request_handler mh;
  Done (mh, ∅).

(** ** The client *)

Definition PageLockReplyFilter (space page : Z) (mess : EventMessage) : outcome bool :=
  mem ← deref (message mess);
  s ← memread 0 4 mem;
  if negb (le_value s =? space) then Done false else
  p ← memread 4 4 mem; Done (le_value p =? page).

Context {K : Type}.

(** [None]: still waiting after [polls] turns; [Some None]: -1; [Some (Some
    reply)]: 1, with the reply that was read. *)
Fixpoint wait_for_lock_reply (polls : nat) (net : nat -> mess_handle B K -> outcome (mess_handle B K))
    (space page : Z) (mh : mess_handle B K) : outcome (option (option PageLockReply) * mess_handle B K) :=
  match polls with
  | O => Done (None, mh)
  | S polls =>
      let m := prepare_recive (c_string REMOTE_LOCK_GROUP_NAME) (c_string REMOTE_LOCK_REPLY_MESS_TYPE) clear in
      '(r, m, mh) ← readMessage_filter (PageLockReplyFilter space page) m mh;
      if r =? -1 then Done (Some None, mh) else
      if r =? 1 then
        mem ← deref (message m); reply ← read_reply mem; Done (Some (Some reply), mh)
      else mh ← net polls mh; wait_for_lock_reply polls net space page mh
  end.

Definition request_page_lock (e : net_env) (lock_server_host : name) (pad : list byte) (polls : nat)
    (net : nat -> mess_handle B K -> outcome (mess_handle B K)) (request : PageLockRequest)
    (mh : mess_handle B K) : outcome (option (option PageLockReply) * mess_handle B K) :=
  let m := prepare_send (c_string REMOTE_LOCK_GROUP_NAME) (c_string REMOTE_LOCK_REQUEST_MESS_TYPE)
             (c_string lock_server_host) (request_bytes pad request) SIZEOF_REQUEST clear in
  '(r, _, mh) ← sendMessage e m mh;
  if r <? 0 then Done (Some None, mh) else
  wait_for_lock_reply polls net (rq_space_id request) (rq_page_no request) mh.

End service.

(** ** Structs survive the transport *)

Lemma memread_skip off n (l k : list byte) :
  zlen l <= off -> memread off n (l ++ k) = memread (off - zlen l) n k.
Proof.
  intros Ho. pose proof (zlen_nonneg l). unfold memread. rewrite zlen_app, zsub_app_r by lia.
  destruct (0 <=? n); rewrite ?andb_false_r; [|done]. rewrite !andb_true_r.
  replace (0 <=? off) with true by (symmetry; apply Z.leb_le; lia).
  replace (0 <=? off - zlen l) with true by (symmetry; apply Z.leb_le; lia).
  cbn [andb]. destruct (off + n <=? zlen l + zlen k) eqn:E1, (off - zlen l + n <=? zlen k) eqn:E2; zb; (done || lia).
Qed.

Lemma memread_head n v (k : list byte) :
  memread 0 (Z.of_nat n) (le_bytes n v ++ k) = Done (le_bytes n v).
Proof. apply (memread_mid [] (le_bytes n v) k); [done|]. by rewrite zlen_le_bytes. Qed.

(** The value of an [n]-byte field that holds [v]. *)
Lemma field_value n v : 0 <= v < 256 ^ Z.of_nat n -> le_value (le_bytes n v) = v.
Proof. intros Hv. rewrite le_value_bytes. by apply Z.mod_small. Qed.

Ltac field :=
  repeat (rewrite memread_skip by (rewrite zlen_le_bytes; lia); rewrite zlen_le_bytes);
  match goal with |- context [memread ?o ?n (le_bytes ?k ?v ++ ?r)] =>
    replace (memread o n (le_bytes k v ++ r)) with (Done (le_bytes k v)) by
      (symmetry; apply (memread_head k v r)) end; cbn [mbind outcome_bind].

Definition request_ok (r : PageLockRequest) : Prop :=
  0 <= rq_space_id r < 2 ^ 32 /\ 0 <= rq_page_no r < 2 ^ 32 /\ 0 <= rq_version_no r < 2 ^ 64.

Lemma read_request_bytes pad r rest :
  request_ok r -> read_request (request_bytes pad r ++ rest) = Done r.
Proof.
  intros (Hs & Hp & Hv). unfold read_request, request_bytes. rewrite <- !app_assoc.
  field. field. field. field. rewrite !field_value by (destruct (rq_lock_type r); simpl; lia).
  destruct r as [s p v []]; done.
Qed.

Lemma read_reply_bytes r rest :
  0 <= rp_space_id r < 2 ^ 32 -> 0 <= rp_page_no r < 2 ^ 32 ->
  read_reply (reply_bytes r ++ rest) = Done r.
Proof.
  intros Hs Hp. unfold read_reply, reply_bytes. rewrite <- !app_assoc.
  field. field. field. rewrite !field_value by (destruct (rp_reply_type r); simpl; lia).
  destruct r as [s p []]; done.
Qed.

Lemma filter_reply_bytes space page r m rest :
  message m = Some (reply_bytes r ++ rest) ->
  0 <= rp_space_id r < 2 ^ 32 -> 0 <= rp_page_no r < 2 ^ 32 ->
  PageLockReplyFilter space page m =
    Done ((rp_space_id r =? space) && (rp_page_no r =? page)).
Proof.
  intros Hm Hs Hp. unfold PageLockReplyFilter, reply_bytes. rewrite Hm. unfold reply_bytes. cbn [deref mbind outcome_bind].
  rewrite <- !app_assoc. field. field. rewrite !field_value by lia.
  by destruct (rp_space_id r =? space).
Qed.

(** ** The server answers *)

Section server.
Context {B : Type} `{NewBuffer B}.
Variables (e : net_env) (junk : EventMessage).
Variables (client srv ip' : name) (port' : Z).
Implicit Types (mh : mess_handle B handler) (tbl : lock_table).

Local Abbreviation G := REMOTE_LOCK_GROUP_NAME.
Local Abbreviation REQ := REMOTE_LOCK_REQUEST_MESS_TYPE.
Local Abbreviation REPLY := REMOTE_LOCK_REPLY_MESS_TYPE.

Definition request_packet (pr : list byte * PageLockRequest) : list byte :=
  encode G REQ client srv (request_bytes pr.1 pr.2).
Definition reply_packet (r : PageLockReply) : list byte :=
  encode G REPLY srv client (reply_bytes r).

(** The server is set up for requests of [client]: the handler is
    registered, the reply type configured, and the client can be reached. *)
Record serving mh : Prop := {
  sv_handler : exists x c, mess_group_map mh !! G = Some x /\ mess_callback_map x !! REQ = Some c /\
                 cb_function c = Some lock_request_handler;
  sv_reply : has_type mh G REPLY;
  sv_route : route e mh G client ip' port';
  sv_name : local_host_name mh = srv
}.

Lemma has_type_same mh mh' g t : same_config mh mh' -> has_type mh g t -> has_type mh' g t.
Proof.
  intros [_ _ Hg] (x & c & Hx & Hc). specialize (Hg g). rewrite Hx in Hg. simpl in Hg.
  destruct (mess_group_map mh' !! g) as [x'|] eqn:Hx'; [|done]. injection Hg as _ Hcb.
  exists x', c. by rewrite Hcb.
Qed.

Lemma serving_same mh mh' :
  serving mh -> same_config mh mh' -> route e mh' G client ip' port' -> serving mh'.
Proof.
  intros [(x & c & Hx & Hc & Hf) Hr _ Hn] Hsc Hroute. pose proof Hsc as [Hl _ Hg].
  split; [|by eapply has_type_same|done|congruence].
  specialize (Hg G). rewrite Hx in Hg. simpl in Hg.
  destruct (mess_group_map mh' !! G) as [x'|] eqn:Hx'; [|done]. injection Hg as _ Hcb.
  exists x', c. by rewrite Hcb.
Qed.

Definition hosts_ok : Prop :=
  (x00 ∉ client) /\ (x00 ∉ srv) /\ zlen client <= 2 ^ 30 /\ zlen srv <= 2 ^ 30 - 128.

(** Bytes of one queued reply. *)
Definition reply_size : Z := 4 + (CURSOR_SIZE + 17 + 14 + (zlen srv + 1) + (zlen client + 1) + 12).

Lemma reply_wire r : wire_size G REPLY srv client (reply_bytes r) = reply_size - 4.
Proof. unfold wire_size, reply_size. change (zlen G) with 16. change (zlen REPLY) with 13.
  change (zlen (reply_bytes r)) with 12. lia. Qed.

Lemma reply_frame_size r : zlen (frame (reply_packet r)) = reply_size.
Proof. unfold frame, reply_packet. rewrite zlen_app, zlen_le_bytes, zlen_encode, reply_wire. lia. Qed.

Lemma request_sendable pr :
  hosts_ok -> length pr.1 = 4%nat -> sendable G REQ (client, srv, request_bytes pr.1 pr.2).
Proof.
  intros (Hc & Hs & Hlc & Hls) Hp. assert (Hz : zlen pr.1 = 4) by (unfold zlen; lia).
  split; [done|]. split; [done|].
  unfold wire_size, request_bytes, CURSOR_SIZE, INT_MAX. change (zlen G) with 16. change (zlen REQ) with 15.
  rewrite !zlen_app, !zlen_le_bytes, Hz. lia.
Qed.

(** One request: the table changes as [check_lock_request] says, and its
    reply is queued for the client. *)
Lemma serve_request mh tbl pr :
  env_ok e -> room (B := B) -> hosts_ok -> mh_ok mh -> serving mh -> length pr.1 = 4%nat -> request_ok pr.2 ->
  zlen (sent_to mh G ip' port') + reply_size <= EV_SSIZE_MAX ->
  exists m mh' rc reply tbl',
    init_message_ptr (received_message (request_packet pr) (zlen (request_packet pr))) = Done m /\
    check_lock_request (String.string_of_list_byte client) pr.2 tbl = Done (rc, reply, tbl') /\
    try_run_callback (run_handler e) junk m (mh, tbl) = Done (true, (mh', tbl')) /\ mh_ok mh' /\
    serving mh' /\ sent_to mh' G ip' port' = sent_to mh G ip' port' ++ frame (reply_packet reply) /\
    keeps_inputs mh mh'.
Proof.
  intros He Hroom Hh Hok Hsv Hpad Hrq Hb. destruct pr as [pad rq]. simpl in *.
  destruct (decode_packet G REQ client srv (request_bytes pad rq)
    (received_message (request_packet (pad, rq)) (zlen (request_packet (pad, rq)))))
    as (m & Hm & Pg & Pt & Ps & _ & Hmsg & Hsz & _); [no_nul|no_nul|by apply (request_sendable (pad, rq))|done|done|].
  destruct (check_total (String.string_of_list_byte client) rq tbl) as (rc & t & p & Hck & _).
  set (reply := mkReply _ _ t) in Hck. set (tbl' := <[_ := p]> tbl) in Hck.
  pose proof Hsv as [(x & c & Hx & Hc & Hf) Hr Hroute Hn].
  destruct (check_known m mh G REQ x c Pg Pt Hx Hc) as [Hcm Hgc].
  destruct (send_message_spec e (prepare_send (group_name m) (c_string REPLY) (send_host_name m)
    (reply_bytes reply) SIZEOF_REPLY clear) mh G REPLY client ip' port' (reply_bytes reply))
    as (m' & mh' & Hsend & Hok' & Hsent & Hsc & Hki & Hroute'); try done.
  { destruct Hh as (_ & Hs & Hlc & Hls). split; try done.
    - apply points_to_c_string. no_nul.
    - by rewrite Hn.
    - exists (reply_bytes reply). split; [done|]. by rewrite memread_done.
    - rewrite Hn, reply_wire. unfold reply_size, CURSOR_SIZE, INT_MAX. lia. }
  { rewrite Hn. change (encode G REPLY srv client (reply_bytes reply)) with (reply_packet reply).
    by rewrite reply_frame_size. }
  exists m, mh', rc, reply, tbl'. split; [done|]. split; [done|]. split; [|split; [done|]].
  - unfold try_run_callback. rewrite Hcm. cbn [mbind outcome_bind negb]. rewrite Hgc.
    cbn [mbind outcome_bind]. rewrite Hf. unfold run_handler, lock_request_callback.
    destruct Ps as (sm & Hsm & Hcs). rewrite Hsm in *. cbn [deref mbind outcome_bind]. rewrite Hmsg.
    cbn [deref mbind outcome_bind]. rewrite read_request_bytes by done. cbn [mbind outcome_bind].
    rewrite Hcs, Hck. cbn [mbind outcome_bind]. rewrite Hsend. done.
  - split; [by apply (serving_same mh)|]. rewrite Hn in Hsent. done.
Qed.

(** The abstract state: the table, the bytes queued for the client, and the
    requests to come. *)
Definition to_serve : Type := lock_table * list byte * list (list byte * PageLockRequest).

Definition at_work (bodies : list (list byte)) (a : to_serve) (s : mess_handle B handler * lock_table) : Prop :=
  let '(tbl, out, prs) := a in
  s.2 = tbl /\ sent_to s.1 G ip' port' = out /\ serving s.1 /\ bodies = request_packet <$> prs /\
  Forall (fun pr => length pr.1 = 4%nat /\ request_ok pr.2) prs /\
  zlen out + zlen prs * reply_size <= EV_SSIZE_MAX.

Inductive answers : list byte -> to_serve -> to_serve -> Prop :=
| answers_one tbl tbl' out pr prs rc reply :
    check_lock_request (String.string_of_list_byte client) pr.2 tbl = Done (rc, reply, tbl') ->
    answers (request_packet pr) (tbl, out, pr :: prs) (tbl', out ++ frame (reply_packet reply), prs).

Lemma answers_chain bodies a tbl' out' :
  chain answers bodies a (tbl', out', []) -> forall acc,
  exists replies,
    fold_left run_step ((fun pr => (String.string_of_list_byte client, pr.2)) <$> a.2) (Done (acc, a.1.1)) =
      Done (acc ++ replies, tbl') /\
    out' = a.1.2 ++ concat (frame <$> (reply_packet <$> replies)).
Proof.
  intros Hc. remember (tbl', out', []) as b eqn:Hb.
  induction Hc as [a|body bs a1 a2 a3 Hs Hc IH]; intros acc; subst.
  - exists []. simpl. by rewrite !app_nil_r.
  - destruct Hs as [tbl tbl1 out pr prs rc reply Hck].
    destruct (IH eq_refl (acc ++ [reply])) as (replies & Hf & ->). cbn [fst snd] in *.
    exists (reply :: replies). cbn [fmap list_fmap fold_left concat].
    assert (Hstep : run_step (Done (acc, tbl)) (String.string_of_list_byte client, pr.2) =
      Done (acc ++ [reply], tbl1)) by (simpl; by rewrite Hck).
    rewrite Hstep, <- app_assoc. split; [|done]. rewrite Hf, <- app_assoc. done.
Qed.

Lemma route_put mh st x i j id :
  mess_group_map mh !! G = Some x -> bev_map (handle x) !! id = Some (Some i) ->
  ip j = ip i -> port j = port i -> output j = output i ->
  let mh' := with_group mh G (with_handle x (LibeventHandle.put (handle x) id j)) in
  forall bs a, at_work bs a (mh, st) -> at_work bs a (mh', st).
Proof.
  intros Hx Hi Hip Hport Hout mh' bs [[tbl out] prs] (Hst & Hsent & Hsv & Hrest).
  pose proof (same_address_put (handle x) id i j ip' port' Hi Hip Hport) as Hl.
  assert (Hs : sent_to mh' G ip' port' = sent_to mh G ip' port').
  { unfold sent_to, mh'. simpl. rewrite lookup_insert_eq, Hx. unfold sent_on. simpl handle. rewrite Hl.
    destruct (least_id (same_address ip' port') (bev_map (handle x))) as [k|]; [|done]. simpl. destruct (decide (k = id)) as [->|Hne].
    - by rewrite lookup_insert_eq, Hi, Hout.
    - by rewrite lookup_insert_ne. }
  split; [done|]. split; [exact (eq_trans Hs Hsent)|]. split; [|done]. cbn [fst snd] in *.
  apply (serving_same mh); [done|by apply same_config_with|].
  destruct Hsv as [_ _ [(x' & Hx' & Hp & Hr) Hrip Hrp] _]. rewrite Hx in Hx'. injection Hx' as <-.
  split; [|done|done]. exists (with_handle x (LibeventHandle.put (handle x) id j)).
  unfold mh'. simpl. rewrite lookup_insert_eq. split; [done|]. split; [done|]. unfold reach in *.
  cbn [with_handle handle]. rewrite Hl. exact Hr.
Qed.

(** All requests queued on a connection. *)
Lemma server_spec mh tbl prs rest id i :
  env_ok e -> room (B := B) -> hosts_ok -> mh_ok mh -> serving mh ->
  Forall (fun pr => length pr.1 = 4%nat /\ request_ok pr.2) prs ->
  zlen (sent_to mh G ip' port') + zlen prs * reply_size <= EV_SSIZE_MAX ->
  link mh G id = Some i -> incomplete rest -> pending i = concat (frame <$> (request_packet <$> prs)) ++ rest ->
  exists mh' tbl' replies j,
    libevent_callback (run_handler e) junk G id (mh, tbl) = Done (mh', tbl') /\
    run_requests ((fun pr => (String.string_of_list_byte client, pr.2)) <$> prs) tbl = Done (replies, tbl') /\
    sent_to mh' G ip' port' = sent_to mh G ip' port' ++ concat (frame <$> (reply_packet <$> replies)) /\
    mh_ok mh' /\ serving mh' /\ link mh' G id = Some j /\ pending j = rest.
Proof.
  intros He Hroom Hh Hok Hsv Hprs Hb Hl Hinc Hp.
  destruct (callback_spec (run_handler e) junk G id at_work answers) with
    (bodies := request_packet <$> prs) (rest := rest) (i := i) (a := (tbl, sent_to mh G ip' port', prs))
    (mh := mh) (st := tbl)
    as (mh' & st' & [[tbl' out'] prs'] & j & Hd & Hok' & Hch & (Hst & Hsent & Hsv' & Hbs & _) & Hl' & Hp'); try done.
  - intros. by eapply route_put.
  - intros body bs [[tbl1 out] prs1] mh1 st1 i1 Hok1 Hl1 (Hst1 & Hsent1 & Hsv1 & Hbs1 & Hf1 & Hb1).
    simpl in *. subst st1. destruct prs1 as [|pr prs1]; [done|]. injection Hbs1 as -> ->.
    apply Forall_cons in Hf1 as [[Hpad Hrq] Hf1]. rewrite zlen_cons in Hb1. pose proof (zlen_nonneg prs1).
    assert (0 <= reply_size) by (unfold reply_size, CURSOR_SIZE; pose proof (zlen_nonneg srv); pose proof (zlen_nonneg client); lia).
    destruct (serve_request mh1 tbl1 pr) as (m & mh2 & rc & reply & tbl2 & Hm & Hck & Ht & Hok2 & Hsv2 & Hs2 & Hki);
      try done; [rewrite Hsent1; nia|].
    exists m, mh2, tbl2, (tbl2, out ++ frame (reply_packet reply), prs1).
    split; [done|]. split; [done|]. split; [done|]. split; [by econstructor|].
    split; [|by eapply Hki].
    split; [done|]. split; [simpl; by rewrite Hs2, Hsent1|]. split; [done|]. split; [done|].
    split; [done|]. rewrite zlen_app, reply_frame_size. lia.
  - apply Forall_fmap. eapply Forall_impl; [exact Hprs|]. intros pr [Hpad _].
    by apply (packet_body_ok G REQ (client, srv, _)), request_sendable.
  - simpl in *. subst st'. destruct prs'; [|done].
    destruct (answers_chain _ _ _ _ Hch []) as (replies & Hf & Hout). simpl in Hf, Hout.
    exists mh', tbl', replies, j. rewrite Hsent. done.
Qed.

End server.

(** ** The client receives *)

Section client.
Context {B : Type} `{NewBuffer B} {K St : Type}.
Variable run_cb : K -> EventMessage -> mess_handle B K * St -> outcome (mess_handle B K * St).
Variable junk : EventMessage.

Local Abbreviation G := REMOTE_LOCK_GROUP_NAME.
Local Abbreviation REPLY := REMOTE_LOCK_REPLY_MESS_TYPE.

(** No reply for the page is waiting yet. *)
Definition none_for (space page : Z) (old : list EventMessage) : Prop :=
  Forall (fun m => PageLockReplyFilter space page m = Done false) old.

Definition page_ok (r : PageLockReply) : Prop :=
  0 <= rp_space_id r < 2 ^ 32 /\ 0 <= rp_page_no r < 2 ^ 32.

Lemma reply_sendable client srv r : hosts_ok client srv -> sendable G REPLY (srv, client, reply_bytes r).
Proof.
  intros (Hc & Hs & Hlc & Hls). split; [done|]. split; [done|]. rewrite reply_wire.
  unfold reply_size, CURSOR_SIZE, INT_MAX. lia.
Qed.

(** The waiting loop takes the reply as soon as it is there. *)
Lemma wait_finds client srv net polls r old post m (mh : mess_handle B K) :
  hosts_ok client srv -> page_ok r -> none_for (rp_space_id r) (rp_page_no r) old ->
  waiting mh G REPLY = Some (old ++ m :: post) -> stored G REPLY m (srv, client, reply_bytes r) ->
  exists mh', wait_for_lock_reply (S polls) net (rp_space_id r) (rp_page_no r) mh = Done (Some (Some r), mh').
Proof.
  intros Hh [Hs Hp] Hold Hw Hst. pose proof Hst as (Hb & Hz & Hn & Hpay).
  assert (Hmsg : exists rest, message m = Some (reply_bytes r ++ rest)).
  { unfold payload_of in Hpay. destruct (message m) as [p|]; [|done]. simpl in Hpay. injection Hpay as Hpay.
    exists (zdrop (message_size m) p). rewrite <- Hpay. by rewrite ztake_zdrop. }
  destruct Hmsg as [rest Hmsg].
  assert (Hf : PageLockReplyFilter (rp_space_id r) (rp_page_no r) m = Done true).
  { rewrite (filter_reply_bytes _ _ r m rest) by done. by rewrite !Z.eqb_refl. }
  destruct (read_spec (PageLockReplyFilter (rp_space_id r) (rp_page_no r))
    (prepare_recive (c_string G) (c_string REPLY) clear) mh G REPLY old (Some (m, post))
    (srv, client, reply_bytes r)) as (rc & m' & mh' & Hd & -> & (Hn' & Hpay') & _); try done.
  - apply points_to_c_string. no_nul.
  - apply points_to_c_string. no_nul.
  - no_nul.
  - no_nul.
  - by apply reply_sendable.
  - by intros y p' [= <- <-].
  - simpl wait_for_lock_reply. rewrite Hd. cbn [mbind outcome_bind].
    unfold payload_of in Hpay'. destruct (message m') as [p|]; [|done]. simpl in Hpay'. injection Hpay' as Hpay'.
    cbn [deref mbind outcome_bind Z.eqb]. rewrite <- (ztake_zdrop (message_size m') p), Hpay', read_reply_bytes by done.
    exists mh'. done.
Qed.

(** Nothing for the page is there: one turn of the loop, then the network. *)
Lemma wait_continues client srv net polls space page old (mh mh1 : mess_handle B K) :
  hosts_ok client srv -> none_for space page old -> waiting mh G REPLY = Some old -> net polls mh = Done mh1 ->
  wait_for_lock_reply (S polls) net space page mh = wait_for_lock_reply polls net space page mh1.
Proof.
  intros Hh Hold Hw Hn.
  destruct (read_spec (PageLockReplyFilter space page)
    (prepare_recive (c_string G) (c_string REPLY) clear) mh G REPLY old None
    (srv, client, reply_bytes (mkReply 0 0 LOCK_SUCCESS))) as (rc & m' & mh' & Hd & -> & ->); try done.
  - apply points_to_c_string. no_nul.
  - apply points_to_c_string. no_nul.
  - no_nul.
  - no_nul.
  - by apply reply_sendable.
  - by rewrite app_nil_r.
  - simpl wait_for_lock_reply. rewrite Hd. cbn [mbind outcome_bind Z.eqb]. by rewrite Hn.
Qed.

End client.

(** ** Properties *)

(** C12: a server that is set up for a client answers every request queued on
    a connection (of at most [INT_MAX] bytes, [mh_ok]), in order: the lock table ends as the requests handled one
    after the other leave it, exactly their replies are queued for the client,
    and the incomplete rest of the stream waits for the next run. *)
Theorem lock_server_answers_in_order `{NewBuffer B} e junk client srv ip' port'
    (mh : mess_handle B handler) tbl prs rest id i :
  env_ok e -> room (B := B) -> hosts_ok client srv -> mh_ok mh -> serving e client srv ip' port' mh ->
  Forall (fun pr => length pr.1 = 4%nat /\ request_ok pr.2) prs ->
  zlen (sent_to mh REMOTE_LOCK_GROUP_NAME ip' port') + zlen prs * reply_size client srv <= EV_SSIZE_MAX ->
  link mh REMOTE_LOCK_GROUP_NAME id = Some i -> incomplete rest ->
  pending i = concat (frame <$> (request_packet client srv <$> prs)) ++ rest ->
  exists mh' tbl' replies j,
    libevent_callback (run_handler e) junk REMOTE_LOCK_GROUP_NAME id (mh, tbl) = Done (mh', tbl') /\
    run_requests ((fun pr => (String.string_of_list_byte client, pr.2)) <$> prs) tbl = Done (replies, tbl') /\
    sent_to mh' REMOTE_LOCK_GROUP_NAME ip' port' =
      sent_to mh REMOTE_LOCK_GROUP_NAME ip' port' ++ concat (frame <$> (reply_packet client srv <$> replies)) /\
    mh_ok mh' /\ serving e client srv ip' port' mh' /\
    link mh' REMOTE_LOCK_GROUP_NAME id = Some j /\ pending j = rest.
Proof. apply server_spec. Qed.

(** The message [request_page_lock] sends. *)
Definition request_message (srv : name) (pad : list byte) (rq : PageLockRequest) : EventMessage :=
  prepare_send (c_string REMOTE_LOCK_GROUP_NAME) (c_string REMOTE_LOCK_REQUEST_MESS_TYPE)
    (c_string srv) (request_bytes pad rq) SIZEOF_REQUEST clear.

Lemma request_prepared `{NewBuffer B} {K} client srv pad rq (mh : mess_handle B K) :
  hosts_ok client srv -> length pad = 4%nat -> local_host_name mh = client ->
  prepared (request_message srv pad rq) mh REMOTE_LOCK_GROUP_NAME REMOTE_LOCK_REQUEST_MESS_TYPE srv
    (request_bytes pad rq).
Proof.
  intros Hh Hpad Hl.
  assert (Hz : zlen (request_bytes pad rq) = 24).
  { unfold request_bytes. rewrite !zlen_app, !zlen_le_bytes. unfold zlen. rewrite Hpad. done. }
  destruct (request_sendable client srv (pad, rq) Hh Hpad) as (Hc & Hs & Hw). rewrite <- Hl in *.
  split; try done.
  - apply points_to_c_string. no_nul.
  - apply points_to_c_string. no_nul.
  - by apply points_to_c_string.
  - exists (request_bytes pad rq). split; [done|]. unfold request_message, SIZEOF_REQUEST. simpl.
    rewrite memread_done, <- Hz, zsub_all by lia. done.
Qed.

(** C2: a lock request makes the round trip.  The client's packet is queued
    for the server; when it arrives there, the server's callback decides the
    request with the lock table and queues the reply for the client; and when
    that reply arrives while the client waits, [request_page_lock] returns 1
    with the very reply the lock table gave, whatever replies for other pages
    are waiting too. *)
Theorem page_lock_round_trip `{NewBuffer B} {K St} ec es run_cb junk client srv ipc portc ips ports
    (c0 : mess_handle B K) (s0 : mess_handle B handler) tbl pad rq sid si old :
  env_ok ec -> env_ok es -> room (B := B) -> hosts_ok client srv -> request_ok rq -> length pad = 4%nat ->
  mh_ok c0 -> route ec c0 REMOTE_LOCK_GROUP_NAME srv ips ports ->
  has_type c0 REMOTE_LOCK_GROUP_NAME REMOTE_LOCK_REQUEST_MESS_TYPE -> local_host_name c0 = client ->
  waiting c0 REMOTE_LOCK_GROUP_NAME REMOTE_LOCK_REPLY_MESS_TYPE = Some old ->
  none_for (rq_space_id rq) (rq_page_no rq) old ->
  zlen (sent_to c0 REMOTE_LOCK_GROUP_NAME ips ports) + zlen (frame (request_packet client srv (pad, rq))) <= EV_SSIZE_MAX ->
  mh_ok s0 -> serving es client srv ipc portc s0 ->
  zlen (sent_to s0 REMOTE_LOCK_GROUP_NAME ipc portc) + reply_size client srv <= EV_SSIZE_MAX ->
  link s0 REMOTE_LOCK_GROUP_NAME sid = Some si -> pending si = frame (request_packet client srv (pad, rq)) ->
  exists m c1 s1 tbl1 rc reply,
    sendMessage ec (request_message srv pad rq) c0 = Done (1, m, c1) /\
    sent_to c1 REMOTE_LOCK_GROUP_NAME ips ports =
      sent_to c0 REMOTE_LOCK_GROUP_NAME ips ports ++ frame (request_packet client srv (pad, rq)) /\
    libevent_callback (run_handler es) junk REMOTE_LOCK_GROUP_NAME sid (s0, tbl) = Done (s1, tbl1) /\
    check_lock_request (String.string_of_list_byte client) rq tbl = Done (rc, reply, tbl1) /\
    sent_to s1 REMOTE_LOCK_GROUP_NAME ipc portc =
      sent_to s0 REMOTE_LOCK_GROUP_NAME ipc portc ++ frame (reply_packet client srv reply) /\
    forall (st : St) c2 cid ci net n, mh_ok c2 -> link c2 REMOTE_LOCK_GROUP_NAME cid = Some ci ->
      waiting c2 REMOTE_LOCK_GROUP_NAME REMOTE_LOCK_REPLY_MESS_TYPE = Some old ->
      pending ci = frame (reply_packet client srv reply) ->
      exists c3 c4, libevent_callback run_cb junk REMOTE_LOCK_GROUP_NAME cid (c2, st) = Done (c3, st) /\
        (net (S n) c1 = Done c3 ->
         request_page_lock ec srv pad (S (S n)) net rq c0 = Done (Some (Some reply), c4)).
Proof.
  intros Hec Hes Hroom Hh Hrq Hpad Hc0 Hroute Hty Hname Hw Hold Hb Hs0 Hsv Hsb Hsl Hsp.
  destruct (send_message_spec ec (request_message srv pad rq) c0 REMOTE_LOCK_GROUP_NAME
    REMOTE_LOCK_REQUEST_MESS_TYPE srv ips ports (request_bytes pad rq))
    as (m & c1 & Hsend & Hc1 & Hsent & Hsc & _); try done.
  { by apply (request_prepared client). }
  { by rewrite Hname. }
  destruct (server_spec es junk client srv ipc portc s0 tbl [(pad, rq)] [] sid si)
    as (s1 & tbl1 & replies & sj & Hd & Hrun & Hout & _); try done.
  { by constructor. }
  { change (zlen [(pad, rq)]) with 1. lia. }
  { constructor. vm_compute. congruence. }
  { simpl. by rewrite !app_nil_r. }
  destruct (check_total (String.string_of_list_byte client) rq tbl) as (rc & t & p & Hck & _).
  set (reply := mkReply _ _ t) in Hck. set (tbl' := <[_ := p]> tbl) in Hck.
  assert (Hrr : replies = [reply] /\ tbl1 = tbl').
  { unfold run_requests in Hrun. simpl in Hrun. rewrite Hck in Hrun. cbn [mbind outcome_bind] in Hrun.
    injection Hrun as <- <-. done. }
  destruct Hrr as [-> ->]. simpl in Hout. rewrite app_nil_r in Hout.
  exists m, c1, s1, tbl', rc, reply. rewrite Hname in Hsent.
  split; [done|]. split; [done|]. split; [done|]. split; [done|]. split; [done|].
  intros st c2 cid ci net n Hc2 Hcl Hw2 Hp2.
  destruct (wait_spec run_cb junk c2 st REMOTE_LOCK_GROUP_NAME REMOTE_LOCK_REPLY_MESS_TYPE cid ci old
    [(srv, client, reply_bytes reply)] []) as (c3 & new & cj & Hd3 & Hw3 & Hf & _); try done.
  - no_nul.
  - no_nul.
  - constructor; [by apply reply_sendable|constructor].
  - constructor. vm_compute. congruence.
  - simpl. by rewrite !app_nil_r.
  - apply Forall2_cons_inv_r in Hf as (mm & l & Hst & Hnil%Forall2_nil_inv_r & ->). subst l.
    destruct (wait_finds client srv net n reply old [] mm c3) as (c4 & Hfin); try done.
    { destruct Hrq as (H1 & H2 & _). by split. }
    exists c3, c4. split; [done|]. intros Hnet. unfold request_page_lock.
    fold (request_message srv pad rq). rewrite Hsend. cbn [mbind outcome_bind Z.ltb Z.compare].
    assert (Hw1 : waiting c1 REMOTE_LOCK_GROUP_NAME REMOTE_LOCK_REPLY_MESS_TYPE = Some old).
    { destruct Hsc as [_ _ Hg]. specialize (Hg REMOTE_LOCK_GROUP_NAME). unfold waiting in *.
      destruct (mess_group_map c0 !! REMOTE_LOCK_GROUP_NAME) as [x|]; [|done].
      destruct (mess_group_map c1 !! REMOTE_LOCK_GROUP_NAME) as [x1|]; [|done].
      simpl in *. injection Hg as _ Hcb. by rewrite Hcb. }
    rewrite (wait_continues client srv net (S n) _ _ old c1 c3) by done. exact Hfin.
Qed.

(** ** Starting the server *)

(** Inserting a list of bindings with distinct keys. *)
Lemma fold_insert_lookup {A X} (key : X -> name) (val : X -> A) (l : list X) (m : gmap name A) x :
  NoDup (key <$> l) -> x ∈ l ->
  fold_left (fun m x => <[key x := val x]> m) l m !! key x = Some (val x).
Proof.
  revert m. induction l as [|y l IH]; intros m Hn Hx; [by apply not_elem_of_nil in Hx|].
  simpl in *. apply NoDup_cons in Hn as [Hy Hn]. apply elem_of_cons in Hx as [<-|Hx]; [|by apply IH].
  assert (Hk : forall l (m : gmap name A) k, k ∉ key <$> l ->
    fold_left (fun m x => <[key x := val x]> m) l m !! k = m !! k).
  { clear. induction l as [|z l IH]; intros m k Hk; simpl; [done|].
    rewrite fmap_cons, not_elem_of_cons in Hk. destruct Hk as [Hne Hk].
    rewrite IH by done. by rewrite lookup_insert_ne. }
  rewrite Hk by done. apply lookup_insert_eq.
Qed.

Lemma fold_hosts `{NewBuffer B} {K} (l : list host_item) (mh : mess_handle B K) :
  host_config_map (fold_left read_host l mh) =
    fold_left (fun m h => <[host_name h := host_ip h]> m) l (host_config_map mh) /\
  mess_group_map (fold_left read_host l mh) = mess_group_map mh /\
  (forall n, (forall h, h ∈ l -> is_local h = true -> host_name h = n) ->
     (exists h, h ∈ l /\ is_local h = true) \/ local_host_name mh = n ->
     local_host_name (fold_left read_host l mh) = n).
Proof.
  revert mh. induction l as [|h l IH]; intros mh; simpl.
  - split; [done|]. split; [done|]. intros n _ [(h & Hh & _)|Hn]; [by apply not_elem_of_nil in Hh|done].
  - destruct (IH (read_host mh h)) as (H1 & H2 & H3). split; [done|]. split; [done|].
    intros n Hall Hex. apply H3; [intros h' Hh'; apply Hall; by apply list_elem_of_further|].
    unfold read_host; simpl. destruct (is_local h) eqn:E.
    + right. apply Hall; [apply list_elem_of_here|done].
    + destruct Hex as [(h' & Hh' & Hl)|Hn]; [|by right].
      apply elem_of_cons in Hh' as [->|Hh']; [congruence|]. left. by exists h'.
Qed.

(** A server started from a configuration that has the lock group, both
    message types, itself and the client is set up for that client. *)
Theorem lock_manager_init_serves `{NewBuffer B} e hosts gi client srv ip' port' :
  gi_name gi = REMOTE_LOCK_GROUP_NAME -> NoDup (gi_types gi) ->
  REMOTE_LOCK_REQUEST_MESS_TYPE ∈ gi_types gi -> REMOTE_LOCK_REPLY_MESS_TYPE ∈ gi_types gi ->
  NoDup (fst <$> gi_hosts gi) -> (client, port') ∈ gi_hosts gi -> port' <> 0 ->
  NoDup (host_name <$> hosts) -> mkHost client ip' false ∈ hosts ->
  (forall h, h ∈ hosts -> is_local h = true -> host_name h = srv) ->
  (exists h, h ∈ hosts /\ is_local h = true) -> can_connect e ip' port' = true ->
  exists mh, lock_manager_init (B := B) e hosts [gi] = Done (mh, ∅) /\ mh_ok mh /\
    serving e client srv ip' port' mh.
Proof.
  intros Hg Hnt Hreq Hrep Hnh Hcl Hport Hnn Hhost Hloc Hex Hcc.
  unfold lock_manager_init. pose proof (init_handle_ok (B := B) (K := handler) e hosts [gi]) as Hok.
  destruct (EventMessageHandle.init_handle e hosts [gi] new_handle) as [r mh] eqn:Hinit. simpl in Hok.
  assert (Hmh : mh = init_group e (fold_left read_host hosts (mkMessHandle false [] ∅ ∅)) gi)
    by (symmetry; exact (f_equal snd Hinit)).
  destruct (fold_hosts hosts (mkMessHandle (B := B) (K := handler) false [] ∅ ∅)) as (Hcfg & _ & Hl).
  specialize (Hl srv Hloc (or_introl Hex)). set (mh0 := fold_left read_host hosts _) in *.
  set (ports := fold_left (fun m h => <[h.1 := h.2]> m) (gi_hosts gi) (∅ : gmap name Z)).
  set (types := fold_left (fun m t => <[t := mkCallback None []]> m) (gi_types gi)
    (∅ : gmap name (CallbackInfor handler))).
  assert (Hports : ports !! client = Some port')
    by exact (fold_insert_lookup fst snd (gi_hosts gi) ∅ (client, port') Hnh Hcl).
  assert (Htypes : forall t, t ∈ gi_types gi -> types !! t = Some (mkCallback None [])).
  { intros t Ht. apply (fold_insert_lookup (fun t => t) (fun _ => mkCallback None []) (gi_types gi) ∅ t); [|done].
    by rewrite list_fmap_id. }
  unfold init_group in Hmh. fold ports types in Hmh.
  destruct (port_at (local_host_name mh0) ports) as [lp ports'] eqn:Epa.
  assert (Hports' : ports' !! client = Some port').
  { unfold port_at in Epa. destruct (ports !! local_host_name mh0) eqn:E; [by simplify_eq|].
    injection Epa as _ <-. rewrite lookup_insert_ne by congruence. done. }
  destruct (LibeventHandle.init_handle e lp new) as [r1 h] eqn:Eh. rewrite Hg in Hmh.
  assert (Hgrp : mess_group_map mh !! REMOTE_LOCK_GROUP_NAME =
    Some (mkGroup (set_event_callback h) ports' types)) by (rewrite Hmh; apply lookup_insert_eq).
  assert (Hcb : exists mh1, register_recive_handler (c_string REMOTE_LOCK_GROUP_NAME)
     (c_string REMOTE_LOCK_REQUEST_MESS_TYPE) lock_request_handler mh = Done (true, mh1) /\
     mh1 = with_group mh REMOTE_LOCK_GROUP_NAME (mkGroup (set_event_callback h) ports'
       (<[REMOTE_LOCK_REQUEST_MESS_TYPE := mkCallback (Some lock_request_handler) []]> types))).
  { unfold register_recive_handler.
    destruct (check_known (prepare_recive (c_string REMOTE_LOCK_GROUP_NAME)
      (c_string REMOTE_LOCK_REQUEST_MESS_TYPE) clear) mh REMOTE_LOCK_GROUP_NAME REMOTE_LOCK_REQUEST_MESS_TYPE
      _ _ ltac:(apply points_to_c_string; no_nul) ltac:(apply points_to_c_string; no_nul) Hgrp (Htypes _ Hreq))
      as [-> Hgc].
    cbn [mbind outcome_bind negb]. rewrite Hgc. cbn [mbind outcome_bind]. eexists. split; done. }
  destruct Hcb as (mh1 & -> & Hmh1). cbn [mbind outcome_bind]. exists mh1. split; [done|].
  assert (Hg1 : mess_group_map mh1 !! REMOTE_LOCK_GROUP_NAME = Some (mkGroup (set_event_callback h) ports'
    (<[REMOTE_LOCK_REQUEST_MESS_TYPE := mkCallback (Some lock_request_handler) []]> types)))
    by (rewrite Hmh1; apply lookup_insert_eq).
  split; [rewrite Hmh1; apply mh_ok_with; [done|exact (Hok _ _ Hgrp)]|].
  assert (Hh : max_bev_id h = 0) by (unfold LibeventHandle.init_handle in Eh; destruct (base_ok e); by simplify_eq).
  split.
  - eexists _, _. split; [exact Hg1|]. split; [apply lookup_insert_eq|done].
  - eexists _, _. split; [exact Hg1|]. simpl. rewrite lookup_insert_ne by done. by apply Htypes.
  - split; [|rewrite Hmh1, Hmh; simpl; rewrite Hcfg|done].
    + eexists. split; [exact Hg1|]. split; [done|]. right. simpl. rewrite Hh. done.
    + exact (fold_insert_lookup host_name host_ip hosts ∅ (mkHost client ip' false) Hnn Hhost).
  - by rewrite Hmh1, Hmh.
Qed.

(** ** Witnesses *)

Definition demo_server_name : name := bytes_of "lock_server".
Definition demo_node : name := bytes_of "node1".
Definition demo_ip (last : string) : name := bytes_of ("10.0.0." ++ last).

Definition demo_write : PageLockRequest := mkRequest 1 1 1 W_LOCK.
Definition demo_pad : list byte := [x00; x00; x00; x00].
Definition demo_reply : PageLockReply := mkReply 1 1 LOCK_SUCCESS.

(** An accepted connection with the bytes [d] in its input, as the only one. *)
Definition demo_conn (d : list byte) : BevInfor (list byte) :=
  mkBev (demo_ip "9") 4242 true d [] 0 false 0 0 0.
Definition demo_table (d : list byte) : LibeventHandle.t (list byte) :=
  LibeventHandle.mk false 7000 1 0 {[0 := Some (demo_conn d)]} 0 [0] true.

(** A process of the cluster, with or without the server's handler. *)
Definition demo_types (k : option handler) : gmap name (CallbackInfor handler) :=
  <[REMOTE_LOCK_REQUEST_MESS_TYPE := mkCallback k []]> {[REMOTE_LOCK_REPLY_MESS_TYPE := mkCallback None []]}.
Definition demo_process (local : name) (k : option handler) (d : list byte) : mess_handle (list byte) handler :=
  mkMessHandle false local (<[demo_server_name := demo_ip "1"]> {[demo_node := demo_ip "2"]})
    {[REMOTE_LOCK_GROUP_NAME :=
        mkGroup (demo_table d) (<[demo_server_name := 7000]> {[demo_node := 7001]}) (demo_types k)]}.

Lemma demo_table_ok d : zlen d <= INT_MAX -> handle_ok (demo_table d).
Proof.
  intros Hd. split; simpl; try done.
  - intros id x. rewrite lookup_singleton_Some. intros [_ <-]. exists (demo_conn d). done.
  - intros id [x Hx]. apply lookup_singleton_Some in Hx as [<- _]. lia.
  - constructor; [|constructor]. exists (demo_conn d). by rewrite lookup_singleton_eq.
Qed.

Lemma demo_process_ok local k d : zlen d <= INT_MAX -> mh_ok (demo_process local k d).
Proof. intros Hd g x. simpl. rewrite lookup_singleton_Some. intros [_ <-]. by apply demo_table_ok. Qed.

Lemma demo_link local k d : link (demo_process local k d) REMOTE_LOCK_GROUP_NAME 0 = Some (demo_conn d).
Proof. unfold link. simpl. by rewrite lookup_singleton_eq. Qed.

Lemma demo_has_type local k d :
  has_type (demo_process local k d) REMOTE_LOCK_GROUP_NAME REMOTE_LOCK_REQUEST_MESS_TYPE /\
  has_type (demo_process local k d) REMOTE_LOCK_GROUP_NAME REMOTE_LOCK_REPLY_MESS_TYPE.
Proof.
  split; eexists _, _; (split; [apply lookup_singleton_eq|]); simpl.
  - apply lookup_insert_eq.
  - unfold demo_types. rewrite lookup_insert_ne by done. apply lookup_singleton_eq.
Qed.

Lemma demo_route local k d :
  route demo_env (demo_process local k d) REMOTE_LOCK_GROUP_NAME demo_node (demo_ip "2") 7001 /\
  route demo_env (demo_process local k d) REMOTE_LOCK_GROUP_NAME demo_server_name (demo_ip "1") 7000.
Proof.
  assert (Hr : forall ip' port', reach demo_env (demo_table d) ip' port') by (intros; right; done).
  split; (split; [eexists; split; [apply lookup_singleton_eq|]; split; [|apply Hr]| |done]); simpl;
    first [apply lookup_insert_eq|rewrite lookup_insert_ne by done; apply lookup_singleton_eq].
Qed.

Lemma demo_sent local k d ip' port' :
  sent_to (demo_process local k d) REMOTE_LOCK_GROUP_NAME ip' port' = [].
Proof.
  unfold sent_to. simpl. rewrite lookup_singleton_eq. unfold sent_on. simpl.
  destruct (least_id _ _) as [id|]; [|done].
  destruct (decide (id = 0)) as [->|Hne]; [by rewrite lookup_singleton_eq|by rewrite lookup_singleton_ne].
Qed.

Lemma demo_waiting_none local d :
  waiting (demo_process local None d) REMOTE_LOCK_GROUP_NAME REMOTE_LOCK_REPLY_MESS_TYPE = Some [].
Proof.
  unfold waiting. simpl. rewrite lookup_singleton_eq. simpl. unfold demo_types.
  rewrite lookup_insert_ne by done. by rewrite lookup_singleton_eq.
Qed.

Lemma demo_serving d :
  serving demo_env demo_node demo_server_name (demo_ip "2") 7001
    (demo_process demo_server_name (Some lock_request_handler) d).
Proof.
  split; [|apply demo_has_type|apply demo_route|done].
  eexists _, _. split; [apply lookup_singleton_eq|]. split; [apply lookup_insert_eq|done].
Qed.

Lemma list_room : room (B := list byte).
Proof. intros b d _. eauto. Qed.

Lemma demo_hosts_ok : hosts_ok demo_node demo_server_name.
Proof. split; [no_nul|]. split; [no_nul|]. vm_compute. split; congruence. Qed.

(** Two requests at once: the second is refused, since the first was granted. *)
Definition two_requests : list (list byte * PageLockRequest) :=
  [(demo_pad, demo_write); (demo_pad, demo_write)].

Lemma lock_server_answers_in_order_witness :
  let d := concat (frame <$> (request_packet demo_node demo_server_name <$> two_requests)) in
  exists mh' tbl',
    libevent_callback (run_handler demo_env) clear REMOTE_LOCK_GROUP_NAME 0
      (demo_process demo_server_name (Some lock_request_handler) d, ∅) = Done (mh', tbl') /\
    sent_to mh' REMOTE_LOCK_GROUP_NAME (demo_ip "2") 7001 =
      concat (frame <$> (reply_packet demo_node demo_server_name <$> [demo_reply; mkReply 1 1 LOCK_FAIL])).
Proof.
  intros d.
  destruct (lock_server_answers_in_order demo_env clear demo_node demo_server_name (demo_ip "2") 7001
    (demo_process demo_server_name (Some lock_request_handler) d) ∅ two_requests [] 0 (demo_conn d))
    as (mh' & tbl' & replies & j & Hd & Hrun & Hout & _).
  - reflexivity.
  - exact list_room.
  - exact demo_hosts_ok.
  - apply demo_process_ok. vm_compute. congruence.
  - apply demo_serving.
  - repeat constructor; vm_compute; congruence.
  - rewrite demo_sent. vm_compute. congruence.
  - apply demo_link.
  - constructor. vm_compute. congruence.
  - vm_compute. reflexivity.
  - exists mh', tbl'. split; [exact Hd|]. rewrite demo_sent in Hout. vm_compute in Hrun.
    injection Hrun as <- _. exact Hout.
Defined.

Definition no_callback (_ : handler) (_ : EventMessage) (s : mess_handle (list byte) handler * unit)
    : outcome (mess_handle (list byte) handler * unit) := Done s.

(** While the node sleeps, its event loop takes in the reply that arrived. *)
Definition demo_net (_ : nat) (_ : mess_handle (list byte) handler) : outcome (mess_handle (list byte) handler) :=
  fst <$> libevent_callback no_callback clear REMOTE_LOCK_GROUP_NAME 0
    (demo_process demo_node None (frame (reply_packet demo_node demo_server_name demo_reply)), tt).

Lemma page_lock_round_trip_witness :
  exists c4, request_page_lock demo_env demo_server_name demo_pad 2 demo_net demo_write
    (demo_process demo_node None []) = Done (Some (Some demo_reply), c4).
Proof.
  set (d := frame (request_packet demo_node demo_server_name (demo_pad, demo_write))).
  destruct (page_lock_round_trip (St := unit) demo_env demo_env no_callback clear demo_node demo_server_name
    (demo_ip "2") 7001 (demo_ip "1") 7000 (demo_process demo_node None [])
    (demo_process demo_server_name (Some lock_request_handler) d) ∅ demo_pad demo_write 0 (demo_conn d) [])
    as (m & c1 & s1 & tbl1 & rc & reply & _ & _ & _ & Hck & _ & Hfin).
  - reflexivity.
  - reflexivity.
  - exact list_room.
  - exact demo_hosts_ok.
  - vm_compute. repeat split; congruence.
  - reflexivity.
  - apply demo_process_ok. vm_compute. congruence.
  - apply demo_route.
  - apply demo_has_type.
  - reflexivity.
  - apply demo_waiting_none.
  - constructor.
  - rewrite demo_sent. vm_compute. congruence.
  - apply demo_process_ok. vm_compute. congruence.
  - apply demo_serving.
  - rewrite demo_sent. vm_compute. congruence.
  - apply demo_link.
  - reflexivity.
  - assert (reply = demo_reply) as -> by (vm_compute in Hck; injection Hck as _ <- _; reflexivity).
    destruct (Hfin tt (demo_process demo_node None (frame (reply_packet demo_node demo_server_name demo_reply))) 0
      (demo_conn (frame (reply_packet demo_node demo_server_name demo_reply))) demo_net 0%nat) as (c3 & c4 & Hd & Hreq).
    + apply demo_process_ok. vm_compute. congruence.
    + apply demo_link.
    + apply demo_waiting_none.
    + reflexivity.
    + exists c4. apply Hreq. unfold demo_net. rewrite Hd. reflexivity.
Defined.
