(* ===== verification/EvChain.v ===== *)
(** * Evbuffer chains and memory

    Models the data of [libevent/evbuffer-internal.h] and the chain layer of
    [libevent/buffer.c]: allocation, release, insertion, the callback
    bookkeeping and the growth routines.

    - A chain is a record with its address, so that the pointers the code
      keeps ([buf->last], the pointer-to-pointer [buf->last_with_datap])
      stay pointers: [last] is an address, and [last_with_datap] is [None]
      for [&buf->first] or [Some a] for [&a->next].  Following a pointer to a
      chain that is no longer in the list is [Crash].
    - Operations run in a small state monad over [mm]: the allocator (fresh
      addresses, an oracle of failing requests, the content of fresh memory)
      and a log of releases and callback invocations.
    - Locks are not modelled: every operation runs under the buffer's lock.
      Client callbacks are recorded in the log; they do not change the buffer. *)

From S2P Require Import Prelude.

(** ** Constants of the 64-bit build *)

Definition EVBUFFER_FILESEGMENT : Z := 0x0001.
Definition EVBUFFER_SENDFILE : Z := 0x0002.
Definition EVBUFFER_REFERENCE : Z := 0x0004.
Definition EVBUFFER_IMMUTABLE : Z := 0x0008.
Definition EVBUFFER_MEM_PINNED_R : Z := 0x0010.
Definition EVBUFFER_MEM_PINNED_W : Z := 0x0020.
Definition EVBUFFER_MEM_PINNED_ANY : Z := 0x0030.
Definition EVBUFFER_DANGLING : Z := 0x0040.
Definition EVBUFFER_MULTICAST : Z := 0x0080.

Definition EVBUFFER_CHAIN_MAX : Z := EV_SSIZE_MAX.
Definition EVBUFFER_CHAIN_SIZE : Z := 48.
Definition MIN_BUFFER_SIZE : Z := 1024.
Definition EVBUFFER_CHAIN_MAX_AUTO_SIZE : Z := 4096.
Definition MAX_TO_COPY_IN_EXPAND : Z := 4096.
Definition MAX_TO_REALIGN_IN_EXPAND : Z := 2048.

Definition EVBUFFER_CB_ENABLED : Z := 1.
Definition EVBUFFER_CB_NODEFER : Z := 2.
Definition EVBUFFER_CB_OBSOLETE : Z := 0x00040000.

(** ** Data *)

(** What lives behind a chain ([EVBUFFER_CHAIN_EXTRA]). *)
Inductive chain_extra :=
| XNone
| XReference (cleanupfn : option Z)
| XSegment (segment : option Z)
| XMulticast (source parent : Z).

Record evbuffer_chain := mkChain {
  c_addr : Z;
  buffer_len : Z;
  misalign : Z;
  off : Z;
  flags : Z;
  refcnt : Z;
  buffer : list byte;
  extra : chain_extra
}.

Record evbuffer_cb_entry := mkCb { cb_id : Z; cb_flags : Z }.

Record evbuffer := mkBuf {
  chains : list evbuffer_chain;          (* from [first] along [next] *)
  last : option Z;
  last_with_datap : option Z;
  total_len : Z;
  n_add_for_cb : Z;
  n_del_for_cb : Z;
  freeze_start : bool;
  freeze_end : bool;
  deferred_cbs : bool;
  deferred_pending : bool;               (* [deferred] is queued in the base *)
  eb_flags : Z;
  eb_refcnt : Z;
  callbacks : list evbuffer_cb_entry
}.

Inductive event_log :=
| LFree (addr : Z)                        (* mm_free *)
| LCleanup (addr cleanupfn : Z)           (* reference cleanup callback *)
| LSegmentFree (segment : Z)
| LParentRelease (source parent : Z)
| LRetained (c : evbuffer_chain)          (* chain outlives its buffer *)
| LCallback (id orig_size n_added n_deleted : Z)
| LObsoleteCallback (id orig_size new_size : Z)
| LScheduleDeferred.

Record mm := mkMm {
  mm_next : Z;              (* next fresh address *)
  mm_fail : list bool;      (* outcomes of the next allocations; [true] fails *)
  mm_junk : byte;           (* content of fresh memory *)
  mm_log : list event_log
}.

(** ** The monad *)

Definition M (A : Type) : Type := mm -> outcome (A * mm).

#[export] Instance M_ret : MRet M := fun A a w => Done (a, w).
#[export] Instance M_bind : MBind M := fun A B f m w =>
  match m w with Done (a, w) => f a w | Crash => Crash end.

Definition lift {A} (o : outcome A) : M A := fun w =>
  match o with Done a => Done (a, w) | Crash => Crash end.
Definition assert_m (b : bool) : M unit := lift (assert_c b).
Definition log (e : event_log) : M unit := fun w =>
  Done (tt, mkMm (mm_next w) (mm_fail w) (mm_junk w) (mm_log w ++ [e])).
Definition ret {A} (a : A) : M A := mret a.

(** [mm_malloc]: [None] is [NULL]. *)
Definition mm_malloc : M (option Z) := fun w =>
  match mm_fail w with
  | true :: fl => Done (None, mkMm (mm_next w) fl (mm_junk w) (mm_log w))
  | fl => Done (Some (mm_next w), mkMm (mm_next w + 1) (tail fl) (mm_junk w) (mm_log w))
  end.
Definition junk : M byte := fun w => Done (mm_junk w, w).

Fixpoint iter_m {A} (f : A -> M unit) (l : list A) : M unit :=
  match l with
  | [] => ret tt
  | a :: l => _ ← f a; iter_m f l
  end.

(** ** Field updates *)

Definition set_data (c : evbuffer_chain) (mis o : Z) (b : list byte) : evbuffer_chain :=
  mkChain (c_addr c) (buffer_len c) mis o (flags c) (refcnt c) b (extra c).
Definition set_off (c : evbuffer_chain) (o : Z) : evbuffer_chain :=
  set_data c (misalign c) o (buffer c).
Definition set_flags (c : evbuffer_chain) (f : Z) : evbuffer_chain :=
  mkChain (c_addr c) (buffer_len c) (misalign c) (off c) f (refcnt c) (buffer c) (extra c).
Definition set_refcnt (c : evbuffer_chain) (r : Z) : evbuffer_chain :=
  mkChain (c_addr c) (buffer_len c) (misalign c) (off c) (flags c) r (buffer c) (extra c).

(** The chain list and the pointers into it. *)
Definition set_chains (b : evbuffer) (cs : list evbuffer_chain) (l p : option Z) (t : Z) : evbuffer :=
  mkBuf cs l p t (n_add_for_cb b) (n_del_for_cb b) (freeze_start b) (freeze_end b)
    (deferred_cbs b) (deferred_pending b) (eb_flags b) (eb_refcnt b) (callbacks b).
Definition set_counts (b : evbuffer) (a d : Z) : evbuffer :=
  mkBuf (chains b) (last b) (last_with_datap b) (total_len b) a d (freeze_start b) (freeze_end b)
    (deferred_cbs b) (deferred_pending b) (eb_flags b) (eb_refcnt b) (callbacks b).
Definition set_sched (b : evbuffer) (pend : bool) (r : Z) : evbuffer :=
  mkBuf (chains b) (last b) (last_with_datap b) (total_len b) (n_add_for_cb b) (n_del_for_cb b)
    (freeze_start b) (freeze_end b) (deferred_cbs b) pend (eb_flags b) r (callbacks b).

(** Store through a chain pointer: the chain at [c_addr c] becomes [c]. *)
Definition put_chain (c : evbuffer_chain) (cs : list evbuffer_chain) : list evbuffer_chain :=
  (fun d => if c_addr d =? c_addr c then c else d) <$> cs.

(** ** Pointers *)

Fixpoint cut_at (a : Z) (cs : list evbuffer_chain)
    : outcome (list evbuffer_chain * list evbuffer_chain) :=
  match cs with
  | [] => Crash
  | c :: cs =>
      if c_addr c =? a then Done ([c], cs)
      else '(pre, post) ← cut_at a cs; Done (c :: pre, post)
  end.

(** The chains before and from [*p] on. *)
Definition cut (p : option Z) (cs : list evbuffer_chain)
    : outcome (list evbuffer_chain * list evbuffer_chain) :=
  match p with None => Done ([], cs) | Some a => cut_at a cs end.

(** [&c->next] for the last chain of [pre], [&buf->first] if there is none. *)
Definition next_ptr (pre : list evbuffer_chain) : option Z := c_addr <$> list.last pre.

Definition find_chain (a : Z) (cs : list evbuffer_chain) : option evbuffer_chain :=
  head (filter (fun c => c_addr c = a) cs).

(** [buf->last] followed: [None] is [NULL]. *)
Definition last_chain (b : evbuffer) : outcome (option evbuffer_chain) :=
  match last b with
  | None => Done None
  | Some a => Some <$> deref (find_chain a (chains b))
  end.

(** ** Chain predicates *)

Definition CHAIN_SPACE_LEN (c : evbuffer_chain) : Z :=
  if has (flags c) EVBUFFER_IMMUTABLE then 0
  else u64 (buffer_len c - (misalign c + off c)).
Definition CHAIN_PINNED (c : evbuffer_chain) : bool := has (flags c) EVBUFFER_MEM_PINNED_ANY.
Definition CHAIN_PINNED_R (c : evbuffer_chain) : bool := has (flags c) EVBUFFER_MEM_PINNED_R.

(** ** Allocation and release *)

(** [while (to_alloc < size) to_alloc <<= 1;] *)
Fixpoint grow_alloc (fuel : nat) (to_alloc size : Z) : Z :=
  match fuel with
  | O => to_alloc
  | S fuel => if to_alloc <? size then grow_alloc fuel (Z.shiftl to_alloc 1) size else to_alloc
  end.

Definition evbuffer_chain_new (size : Z) : M (option evbuffer_chain) :=
  if EVBUFFER_CHAIN_MAX - EVBUFFER_CHAIN_SIZE <? size then ret None else
  let size := size + EVBUFFER_CHAIN_SIZE in
  let to_alloc := if size <? EVBUFFER_CHAIN_MAX / 2
                  then grow_alloc 64 MIN_BUFFER_SIZE size else size in
  a ← mm_malloc;
  match a with
  | None => ret None
  | Some addr =>
      j ← junk;
      let n := to_alloc - EVBUFFER_CHAIN_SIZE in
      ret (Some (mkChain addr n 0 0 0 1 (replicate (Z.to_nat n) j) XNone))
  end.

Definition evbuffer_chain_free (c : evbuffer_chain) : M unit :=
  _ ← assert_m (0 <? refcnt c);
  if 0 <? refcnt c - 1 then log (LRetained (set_refcnt c (refcnt c - 1)))
  else if CHAIN_PINNED c then
    log (LRetained (set_flags c (Z.lor (flags c) EVBUFFER_DANGLING)))
  else
    _ ← (if has (flags c) EVBUFFER_REFERENCE then
           match extra c with
           | XReference (Some fn) => log (LCleanup (c_addr c) fn)
           | _ => ret tt
           end
         else ret tt);
    _ ← (if has (flags c) EVBUFFER_FILESEGMENT then
           match extra c with
           | XSegment (Some seg) => log (LSegmentFree seg)
           | _ => ret tt
           end
         else ret tt);
    _ ← (if has (flags c) EVBUFFER_MULTICAST then
           match extra c with
           | XMulticast source parent => log (LParentRelease source parent)
           | _ => lift Crash
           end
         else ret tt);
    log (LFree (c_addr c)).

Definition evbuffer_free_all_chains (cs : list evbuffer_chain) : M unit :=
  iter_m evbuffer_chain_free cs.

Definition evbuffer_chains_all_empty (cs : list evbuffer_chain) : bool :=
  forallb (fun c => off c =? 0) cs.

(** The chains up to the first one that is empty and not pinned. *)
Fixpoint skip_used (cs : list evbuffer_chain) : list evbuffer_chain * list evbuffer_chain :=
  match cs with
  | c :: cs' =>
      if negb (off c =? 0) || CHAIN_PINNED c
      then let '(kept, victims) := skip_used cs' in (c :: kept, victims)
      else ([], c :: cs')
  | [] => ([], [])
  end.

(** Returns the remaining chains; the place of the new chain is
    [next_ptr] of them. *)
Definition evbuffer_free_trailing_empty_chains (b : evbuffer) : M (list evbuffer_chain) :=
  '(pre, post) ← lift (cut (last_with_datap b) (chains b));
  let '(kept, victims) := skip_used post in
  _ ← (match victims with
       | [] => ret tt
       | _ => _ ← assert_m (evbuffer_chains_all_empty victims); evbuffer_free_all_chains victims
       end);
  ret (pre ++ kept).

Definition evbuffer_chain_insert (b : evbuffer) (c : evbuffer_chain) : M evbuffer :=
  '(_, post) ← lift (cut (last_with_datap b) (chains b));
  match post with
  | [] =>
      _ ← assert_m (bool_decide (last_with_datap b = None));
      _ ← assert_m (bool_decide (length (chains b) = O));
      ret (set_chains b [c] (Some (c_addr c)) (last_with_datap b) (u64 (total_len b + off c)))
  | _ =>
      kept ← evbuffer_free_trailing_empty_chains b;
      ret (set_chains b (kept ++ [c]) (Some (c_addr c))
             (if off c =? 0 then last_with_datap b else next_ptr kept)
             (u64 (total_len b + off c)))
  end.

Definition evbuffer_chain_insert_new (b : evbuffer) (datlen : Z)
    : M (option evbuffer_chain * evbuffer) :=
  oc ← evbuffer_chain_new datlen;
  match oc with
  | None => ret (None, b)
  | Some c => b ← evbuffer_chain_insert b c; ret (Some c, b)
  end.

Definition evbuffer_chain_pin_ (c : evbuffer_chain) (flag : Z) : M evbuffer_chain :=
  _ ← assert_m (negb (has (flags c) flag));
  ret (set_flags c (Z.lor (flags c) flag)).

(** [None]: the chain was dangling and has been released. *)
Definition evbuffer_chain_unpin_ (c : evbuffer_chain) (flag : Z) : M (option evbuffer_chain) :=
  _ ← assert_m (has (flags c) flag);
  let c := set_flags c (Z.land (flags c) (Z.lnot flag)) in
  if has (flags c) EVBUFFER_DANGLING then _ ← evbuffer_chain_free c; ret None
  else ret (Some c).

(** ** The buffer object *)

Definition evbuffer_new : M (option evbuffer) :=
  a ← mm_malloc;
  match a with
  | None => ret None
  | Some _ => ret (Some (mkBuf [] None None 0 0 0 false false false false 0 1 []))
  end.

Definition evbuffer_set_flags (b : evbuffer) (f : Z) : evbuffer :=
  mkBuf (chains b) (last b) (last_with_datap b) (total_len b) (n_add_for_cb b) (n_del_for_cb b)
    (freeze_start b) (freeze_end b) (deferred_cbs b) (deferred_pending b)
    (Z.lor (eb_flags b) (u32 f)) (eb_refcnt b) (callbacks b).

Definition evbuffer_clear_flags (b : evbuffer) (f : Z) : evbuffer :=
  mkBuf (chains b) (last b) (last_with_datap b) (total_len b) (n_add_for_cb b) (n_del_for_cb b)
    (freeze_start b) (freeze_end b) (deferred_cbs b) (deferred_pending b)
    (Z.land (eb_flags b) (u32 (Z.lnot (u32 f)))) (eb_refcnt b) (callbacks b).

Definition evbuffer_incref_ (b : evbuffer) : evbuffer :=
  set_sched b (deferred_pending b) (eb_refcnt b + 1).

(** The masks select which callbacks run now and which are left to the
    deferred run. *)
Definition evbuffer_run_callbacks (b : evbuffer) (running_deferred : bool) : M evbuffer :=
  let '(mask, masked_val, clear) :=
    if running_deferred then
      (Z.lor EVBUFFER_CB_NODEFER EVBUFFER_CB_ENABLED, EVBUFFER_CB_ENABLED, true)
    else if deferred_cbs b then
      (Z.lor EVBUFFER_CB_NODEFER EVBUFFER_CB_ENABLED,
       Z.lor EVBUFFER_CB_NODEFER EVBUFFER_CB_ENABLED, false)
    else (EVBUFFER_CB_ENABLED, EVBUFFER_CB_ENABLED, true) in
  match callbacks b with
  | [] => ret (set_counts b 0 0)
  | cbs =>
      if (n_add_for_cb b =? 0) && (n_del_for_cb b =? 0) then ret b else
      let new_size := total_len b in
      let orig_size := u64 (new_size + n_del_for_cb b - n_add_for_cb b) in
      let n_added := n_add_for_cb b in
      let n_deleted := n_del_for_cb b in
      _ ← iter_m (fun cb =>
            if negb (Z.land (cb_flags cb) mask =? masked_val) then ret tt
            else if has (cb_flags cb) EVBUFFER_CB_OBSOLETE
            then log (LObsoleteCallback (cb_id cb) orig_size new_size)
            else log (LCallback (cb_id cb) orig_size n_added n_deleted)) cbs;
      ret (if (clear : bool) then set_counts b 0 0 else b)
  end.

Definition evbuffer_invoke_callbacks_ (b : evbuffer) : M evbuffer :=
  match callbacks b with
  | [] => ret (set_counts b 0 0)
  | _ =>
      b ← (if deferred_cbs b then
             if deferred_pending b then ret b
             else _ ← log LScheduleDeferred; ret (set_sched b true (eb_refcnt b + 1))
           else ret b);
      evbuffer_run_callbacks b false
  end.

(** [None]: the last reference is gone and everything has been released. *)
Definition evbuffer_decref_and_unlock_ (b : evbuffer) : M (option evbuffer) :=
  _ ← assert_m (0 <? eb_refcnt b);
  if 0 <? eb_refcnt b - 1 then ret (Some (set_sched b (deferred_pending b) (eb_refcnt b - 1)))
  else _ ← evbuffer_free_all_chains (chains b); ret None.

Definition evbuffer_free (b : evbuffer) : M (option evbuffer) := evbuffer_decref_and_unlock_ b.

Definition evbuffer_deferred_callback (b : evbuffer) : M (option evbuffer) :=
  b ← evbuffer_run_callbacks (set_sched b false (eb_refcnt b)) true;
  evbuffer_decref_and_unlock_ b.

Definition evbuffer_get_length (b : evbuffer) : Z := total_len b.

Definition evbuffer_get_contiguous_space (b : evbuffer) : Z :=
  match chains b with [] => 0 | c :: _ => off c end.

Definition ZERO_CHAIN (b : evbuffer) : evbuffer := set_chains b [] None None 0.

Definition HAS_PINNED_R (b : evbuffer) : outcome bool :=
  ol ← last_chain b;
  Done (match ol with Some c => CHAIN_PINNED_R c | None => false end).

(** ** Realignment *)

Definition evbuffer_chain_align (c : evbuffer_chain) : outcome evbuffer_chain :=
  _ ← assert_c (negb (has (flags c) EVBUFFER_IMMUTABLE));
  _ ← assert_c (negb (has (flags c) EVBUFFER_MEM_PINNED_ANY));
  d ← memread (misalign c) (off c) (buffer c);
  buf ← memwrite 0 d (buffer c);
  Done (set_data c 0 (off c) buf).

Definition evbuffer_chain_should_realign (c : evbuffer_chain) (datlen : Z) : bool :=
  (datlen <=? u64 (buffer_len c - off c)) &&
  (off c <? buffer_len c / 2) &&
  (off c <=? MAX_TO_REALIGN_IN_EXPAND).

(** ** Content and well-formedness *)

Definition chain_bytes (c : evbuffer_chain) : list byte := zsub (misalign c) (off c) (buffer c).
Definition content (b : evbuffer) : list byte := concat (chain_bytes <$> chains b).

(** A memory chain, not pinned by an overlapped operation.  A chain the
    buffer may not write to holds data (an empty reference is never added). *)
Record chain_ok (c : evbuffer_chain) : Prop := {
  ck_off : 0 <= off c;
  ck_mis : 0 <= misalign c;
  ck_room : misalign c + off c <= buffer_len c;
  ck_mem : zlen (buffer c) = buffer_len c;
  ck_max : buffer_len c <= EVBUFFER_CHAIN_MAX - EVBUFFER_CHAIN_SIZE;
  ck_ref : 0 < refcnt c;
  ck_pin : has (flags c) EVBUFFER_MEM_PINNED_ANY = false;
  ck_multi : has (flags c) EVBUFFER_MULTICAST = true ->
             exists s p, extra c = XMulticast s p;
  ck_imm : has (flags c) EVBUFFER_IMMUTABLE = true -> 0 < off c;
  ck_mut : has (flags c) EVBUFFER_IMMUTABLE = false -> 0 < buffer_len c
}.

Definition sum_off (cs : list evbuffer_chain) : Z := foldr (fun c n => off c + n) 0 cs.

(** Where [last_with_datap] must point: at the last chain with data, at the
    first chain if none has data, at nothing if there is no chain. *)
Inductive data_split : list evbuffer_chain -> list evbuffer_chain -> Prop :=
| ds_empty : data_split [] []
| ds_at pre c tl :
    Forall (fun d => off d = 0) tl -> (off c = 0 -> pre = []) ->
    data_split pre (c :: tl).

Record wf (w : mm) (b : evbuffer) : Prop := {
  wf_chains : Forall chain_ok (chains b);
  wf_nodup : NoDup (c_addr <$> chains b);
  wf_fresh : Forall (fun c => c_addr c < mm_next w) (chains b);
  wf_last : last b = c_addr <$> list.last (chains b);
  wf_datap : exists pre post, chains b = pre ++ post /\
               last_with_datap b = next_ptr pre /\ data_split pre post;
  wf_total : total_len b = sum_off (chains b);
  wf_max : total_len b <= EV_SIZE_MAX
}.

(** ** Monad reasoning *)

Lemma bind_done {A B} (m : M A) (f : A -> M B) w a w' :
  m w = Done (a, w') -> (m ≫= f) w = f a w'.
Proof. unfold mbind, M_bind. by intros ->. Qed.

Lemma bind_ret {A B} (a : A) (f : A -> M B) w : (ret a ≫= f) w = f a w.
Proof. done. Qed.

Lemma bind_lift {A B} (a : A) (f : A -> M B) w : (lift (Done a) ≫= f) w = f a w.
Proof. done. Qed.

Lemma bind_assert {B} (f : unit -> M B) w : (assert_m true ≫= f) w = f tt w.
Proof. done. Qed.

(** Step through [ret], [lift (Done _)] and passed assertions. *)
Ltac mstep := repeat first
  [ rewrite bind_ret | rewrite bind_lift | rewrite bind_assert ].

(** ** Chain lists *)

Lemma content_app cs ds : concat (chain_bytes <$> (cs ++ ds)) =
  concat (chain_bytes <$> cs) ++ concat (chain_bytes <$> ds).
Proof. by rewrite fmap_app, concat_app. Qed.

Lemma sum_off_app cs ds : sum_off (cs ++ ds) = sum_off cs + sum_off ds.
Proof. induction cs as [|c cs IH]; simpl; [done|]. rewrite IH. lia. Qed.

Lemma chain_bytes_len c : chain_ok c -> zlen (chain_bytes c) = off c.
Proof. intros []. apply zlen_zsub; lia. Qed.

Lemma content_len cs : Forall chain_ok cs -> zlen (concat (chain_bytes <$> cs)) = sum_off cs.
Proof.
  induction 1 as [|c cs Hc Hcs IH]; [done|]. cbn [fmap list_fmap concat sum_off foldr].
  rewrite zlen_app, chain_bytes_len, IH by done. done.
Qed.

Lemma sum_off_nonneg cs : Forall chain_ok cs -> 0 <= sum_off cs.
Proof. intros H. rewrite <- content_len by done. apply zlen_nonneg. Qed.

Lemma empty_content cs :
  Forall chain_ok cs -> Forall (fun d => off d = 0) cs ->
  concat (chain_bytes <$> cs) = [] /\ sum_off cs = 0.
Proof.
  intros Hok Hz. assert (sum_off cs = 0).
  { clear Hok. induction Hz as [|c cs Hc _ IH]; [done|]. simpl. lia. }
  split; [|done]. apply zlen_0_nil. by rewrite content_len.
Qed.

Lemma next_ptr_snoc pre c : next_ptr (pre ++ [c]) = Some (c_addr c).
Proof. unfold next_ptr. by rewrite last_snoc. Qed.

Lemma cut_at_app pre c post :
  c_addr c ∉ c_addr <$> pre -> cut_at (c_addr c) (pre ++ c :: post) = Done (pre ++ [c], post).
Proof.
  induction pre as [|d pre IH]; intros Hn; simpl.
  - by rewrite Z.eqb_refl.
  - cbn [fmap list_fmap] in Hn. rewrite not_elem_of_cons in Hn. destruct Hn as [Hd Hn].
    rewrite (proj2 (Z.eqb_neq _ _)) by congruence. by rewrite IH.
Qed.

Lemma cut_next_ptr pre post :
  NoDup (c_addr <$> (pre ++ post)) -> cut (next_ptr pre) (pre ++ post) = Done (pre, post).
Proof.
  destruct pre as [|c pre _] using rev_ind; [done|]. intros Hnd.
  rewrite next_ptr_snoc. simpl. rewrite <- app_assoc in *. simpl in *.
  apply cut_at_app. rewrite fmap_app in Hnd. cbn [fmap list_fmap] in Hnd.
  apply NoDup_app in Hnd as (_ & Hd & _). intros Hin. apply (Hd _ Hin). set_solver.
Qed.

Lemma find_chain_app pre c post :
  c_addr c ∉ c_addr <$> pre -> find_chain (c_addr c) (pre ++ c :: post) = Some c.
Proof.
  intros Hn. unfold find_chain. rewrite filter_app.
  replace (filter (fun d => c_addr d = c_addr c) pre) with (@nil evbuffer_chain).
  - simpl. rewrite filter_cons, decide_True by done. done.
  - symmetry. induction pre as [|d pre IH]; [done|].
    cbn [fmap list_fmap] in Hn. rewrite not_elem_of_cons in Hn. destruct Hn as [Hd Hn].
    rewrite filter_cons, decide_False by congruence. auto.
Qed.

Lemma put_chain_other c cs : c_addr c ∉ c_addr <$> cs -> put_chain c cs = cs.
Proof.
  induction cs as [|d cs IH]; intros Hn; [done|]. cbn [fmap list_fmap] in *.
  rewrite not_elem_of_cons in Hn. destruct Hn as [Hd Hn]. unfold put_chain in *. simpl.
  rewrite (proj2 (Z.eqb_neq _ _)) by congruence. f_equal. auto.
Qed.

Lemma put_chain_app c cs ds : put_chain c (cs ++ ds) = put_chain c cs ++ put_chain c ds.
Proof. apply fmap_app. Qed.

Lemma nodup_mid pre c post :
  NoDup (c_addr <$> (pre ++ c :: post)) ->
  c_addr c ∉ c_addr <$> pre /\ c_addr c ∉ c_addr <$> post.
Proof.
  rewrite fmap_app. cbn [fmap list_fmap]. intros (_ & Hd & Hn)%NoDup_app.
  apply NoDup_cons in Hn as [Hn _]. split; [|done]. intros Hin. apply (Hd _ Hin). set_solver.
Qed.

(** Replacing the chain in the middle by one with the same address. *)
Lemma put_chain_mid pre c d post :
  NoDup (c_addr <$> (pre ++ c :: post)) -> c_addr d = c_addr c ->
  put_chain d (pre ++ c :: post) = pre ++ d :: post.
Proof.
  intros [H1 H2]%nodup_mid Ha. rewrite <- Ha in *. rewrite put_chain_app.
  rewrite put_chain_other by done. f_equal.
  change (put_chain d (c :: post)) with ((if c_addr c =? c_addr d then d else c) :: put_chain d post).
  rewrite Ha, Z.eqb_refl. f_equal. by apply put_chain_other.
Qed.

Lemma addrs_mid pre c d post :
  c_addr d = c_addr c -> c_addr <$> (pre ++ d :: post) = c_addr <$> (pre ++ c :: post).
Proof. intros H. rewrite !fmap_app. cbn [fmap list_fmap]. by rewrite H. Qed.

(** ** Memory *)

Lemma has_0 m : has 0 m = false.
Proof. unfold has. by rewrite Z.land_0_l. Qed.

Lemma pinned_any_r f : has f EVBUFFER_MEM_PINNED_ANY = false -> has f EVBUFFER_MEM_PINNED_R = false.
Proof.
  unfold has. rewrite !negb_false_iff, !Z.eqb_eq. intros H.
  replace EVBUFFER_MEM_PINNED_R with (Z.land EVBUFFER_MEM_PINNED_ANY EVBUFFER_MEM_PINNED_R) by done.
  by rewrite Z.land_assoc, H.
Qed.

Lemma grow_alloc_spec fuel a size :
  0 < a -> size <= a * 2 ^ Z.of_nat fuel ->
  size <= grow_alloc fuel a size /\ a <= grow_alloc fuel a size <= Z.max a (2 * size).
Proof.
  revert a. induction fuel as [|fuel IH]; intros a Ha Hs; cbn [grow_alloc].
  - simpl in Hs. change (2 ^ 0) with 1 in Hs. lia.
  - destruct (a <? size) eqn:E; zb; [|lia].
    rewrite Z.shiftl_mul_pow2 by lia. change (2 ^ 1) with 2.
    rewrite Nat2Z.inj_succ, Z.pow_succ_r in Hs by lia.
    destruct (IH (a * 2)) as (? & ? & ?); lia.
Qed.

(** A fresh chain: empty, writable, large enough, at a new address. *)
Record fresh_chain (w : mm) (size : Z) (c : evbuffer_chain) : Prop := {
  fc_addr : c_addr c = mm_next w;
  fc_off : off c = 0;
  fc_mis : misalign c = 0;
  fc_flags : flags c = 0;
  fc_size : size <= buffer_len c;
  fc_ok : chain_ok c
}.

Lemma chain_new_spec size w :
  0 <= size ->
  exists oc w', evbuffer_chain_new size w = Done (oc, w') /\
    (mm_fail w = [] -> size <= EVBUFFER_CHAIN_MAX - EVBUFFER_CHAIN_SIZE -> oc <> None) /\
    match oc with
    | None => mm_next w' = mm_next w
    | Some c => fresh_chain w size c /\ mm_next w' = mm_next w + 1
    end.
Proof.
  intros Hs. unfold evbuffer_chain_new.
  destruct (EVBUFFER_CHAIN_MAX - EVBUFFER_CHAIN_SIZE <? size) eqn:E; zb.
  { eexists _, _. split; [done|]. split; [|done]. lia. }
  set (n := if _ <? _ then _ else _).
  assert (Hn : size + EVBUFFER_CHAIN_SIZE <= n <= EVBUFFER_CHAIN_MAX /\ EVBUFFER_CHAIN_SIZE < n).
  { subst n. unfold EVBUFFER_CHAIN_SIZE in *.
    destruct (size + 48 <? EVBUFFER_CHAIN_MAX / 2) eqn:E2; zb.
    - change (EVBUFFER_CHAIN_MAX / 2) with 4611686018427387903 in E2.
      destruct (grow_alloc_spec 64 MIN_BUFFER_SIZE (size + 48)) as (H1 & H0 & H2); [done| |].
      + change (MIN_BUFFER_SIZE * 2 ^ Z.of_nat 64) with (1024 * 2 ^ 64). lia.
      + unfold MIN_BUFFER_SIZE, EVBUFFER_CHAIN_MAX, EV_SSIZE_MAX in *. lia.
    - change (EVBUFFER_CHAIN_MAX / 2) with 4611686018427387903 in E2. lia. }
  assert (Hc : forall a j, chain_ok (mkChain a (n - EVBUFFER_CHAIN_SIZE) 0 0 0 1
    (replicate (Z.to_nat (n - EVBUFFER_CHAIN_SIZE)) j) XNone)).
  { intros a j. constructor; simpl; unfold EVBUFFER_CHAIN_SIZE in *; rewrite ?zlen_replicate, ?has_0; lia || done. }
  unfold mm_malloc, mbind, M_bind.
  destruct (mm_fail w) as [|[] fl]; eexists _, _; (split; [reflexivity|]);
    (split; [done|]); cbv beta iota; try done;
    (split; [|done]); constructor; simpl; auto; unfold EVBUFFER_CHAIN_SIZE in *; lia.
Qed.

Lemma log_next e w : exists w', log e w = Done (tt, w') /\ mm_next w' = mm_next w.
Proof. eexists. by split. Qed.

Lemma chain_free_spec c w :
  chain_ok c -> exists w', evbuffer_chain_free c w = Done (tt, w') /\ mm_next w' = mm_next w.
Proof.
  intros [_ _ _ _ _ Hr Hp Hm _ _]. unfold evbuffer_chain_free, CHAIN_PINNED.
  rewrite Hp, (proj2 (Z.ltb_lt 0 (refcnt c)) Hr). mstep.
  destruct (0 <? refcnt c - 1); [apply log_next|].
  destruct (has (flags c) EVBUFFER_REFERENCE), (extra c) as [|[]|[]|], (has (flags c) EVBUFFER_FILESEGMENT),
    (has (flags c) EVBUFFER_MULTICAST); try (destruct (Hm eq_refl) as (? & ? & [=]));
    eexists; by split.
Qed.

Lemma free_all_spec cs w :
  Forall chain_ok cs ->
  exists w', evbuffer_free_all_chains cs w = Done (tt, w') /\ mm_next w' = mm_next w.
Proof.
  intros H. revert w. unfold evbuffer_free_all_chains. induction H as [|c cs Hc _ IH]; intros w.
  - eexists. by split.
  - destruct (chain_free_spec c w Hc) as (w1 & E1 & N1). destruct (IH w1) as (w2 & E2 & N2).
    exists w2. cbn [iter_m]. rewrite (bind_done _ _ _ _ _ E1). split; [done|congruence].
Qed.

(** ** Callbacks leave the data alone *)

Record same_data (b b' : evbuffer) : Prop := {
  sd_chains : chains b' = chains b;
  sd_last : last b' = last b;
  sd_datap : last_with_datap b' = last_with_datap b;
  sd_total : total_len b' = total_len b;
  sd_fs : freeze_start b' = freeze_start b;
  sd_fe : freeze_end b' = freeze_end b
}.

Lemma iter_log_next {A} (f : A -> M unit) l w :
  (forall a w, exists w', f a w = Done (tt, w') /\ mm_next w' = mm_next w) ->
  exists w', iter_m f l w = Done (tt, w') /\ mm_next w' = mm_next w.
Proof.
  intros Hf. revert w. induction l as [|a l IH]; intros w; [eexists; by split|].
  destruct (Hf a w) as (w1 & E1 & N1). destruct (IH w1) as (w2 & E2 & N2).
  exists w2. cbn [iter_m]. rewrite (bind_done _ _ _ _ _ E1). split; [done|congruence].
Qed.

Lemma run_callbacks_spec b d w :
  exists b' w', evbuffer_run_callbacks b d w = Done (b', w') /\ same_data b b' /\
    mm_next w' = mm_next w.
Proof.
  unfold evbuffer_run_callbacks. destruct (if d then _ else _) as [[mask mv] cl].
  destruct (callbacks b) as [|cb cbs]; [by eexists _, _|].
  destruct (_ && _); [by eexists _, _|].
  match goal with |- context [iter_m ?f ?l] =>
    destruct (iter_log_next f l w) as (w' & E & N) end.
  { intros a w1. cbv beta. repeat case_test; try apply log_next; by eexists. }
  rewrite (bind_done _ _ _ _ _ E). destruct cl; eexists _, _; (split; [reflexivity|]); by split.
Qed.

Lemma invoke_callbacks_spec b w :
  exists b' w', evbuffer_invoke_callbacks_ b w = Done (b', w') /\ same_data b b' /\
    mm_next w' = mm_next w.
Proof.
  unfold evbuffer_invoke_callbacks_. destruct (callbacks b); [by eexists _, _|].
  destruct (deferred_cbs b); [destruct (deferred_pending b)|].
  - mstep. apply run_callbacks_spec.
  - unfold mbind, M_bind. simpl.
    destruct (run_callbacks_spec (set_sched b true (eb_refcnt b + 1) ) false
      (mkMm (mm_next w) (mm_fail w) (mm_junk w) (mm_log w ++ [LScheduleDeferred])))
      as (b' & w' & -> & Hd & N). eexists _, _. split; [done|].
    destruct Hd; simpl in *. by split.
  - mstep. apply run_callbacks_spec.
Qed.

Lemma wf_same w w' b b' : wf w b -> same_data b b' -> mm_next w <= mm_next w' -> wf w' b'.
Proof.
  intros [H1 H2 H3 H4 H5 H6 H7] [E1 E2 E3 E4 _ _] Hle.
  constructor; rewrite ?E1, ?E2, ?E3, ?E4; auto.
  eapply Forall_impl; [exact H3|]. simpl. intros. lia.
Qed.

Lemma same_data_content b b' : same_data b b' -> content b' = content b.
Proof. intros []. unfold content. congruence. Qed.

(** ** Insertion at the end *)

(** What remains of a well-formed list once its trailing empty chains are
    released: everything up to the last chain with data. *)
Definition used (pre post : list evbuffer_chain) : list evbuffer_chain :=
  match post with
  | [] => pre
  | c :: _ => if off c =? 0 then pre else pre ++ [c]
  end.

Lemma skip_used_split pre post :
  Forall chain_ok post -> data_split pre post ->
  exists victims, skip_used post = (drop (length pre) (used pre post), victims) /\
    Forall chain_ok victims /\ Forall (fun d => off d = 0) victims /\
    post = drop (length pre) (used pre post) ++ victims.
Proof.
  intros Hok Hd. destruct Hd as [|pre c tl Hz Hp]; [by exists []|].
  apply Forall_cons in Hok as [Hc Hok]. pose proof (ck_pin c Hc) as Hpin.
  assert (Htl : skip_used tl = ([], tl)).
  { destruct tl as [|d tl]; [done|]. apply Forall_cons in Hz as [Hd _].
    apply Forall_cons in Hok as [Hdo _]. simpl. unfold CHAIN_PINNED.
    by rewrite (ck_pin d Hdo), Hd. }
  unfold used. cbn [skip_used]. unfold CHAIN_PINNED. rewrite Hpin.
  destruct (off c =? 0) eqn:E; zb.
  - rewrite drop_all. exists (c :: tl). simpl. split_and!; auto.
  - rewrite Htl. simpl. exists tl. rewrite drop_app_length. split_and!; auto.
Qed.

Lemma free_trailing_spec w b pre post :
  wf w b -> chains b = pre ++ post -> last_with_datap b = next_ptr pre -> data_split pre post ->
  exists w', evbuffer_free_trailing_empty_chains b w = Done (used pre post, w') /\
    mm_next w' = mm_next w.
Proof.
  intros Hwf Hc Hp Hd. unfold evbuffer_free_trailing_empty_chains.
  pose proof (wf_nodup w b Hwf) as Hnd. pose proof (wf_chains w b Hwf) as Hok. rewrite Hc in Hnd, Hok.
  rewrite Hc, Hp, cut_next_ptr by done. mstep.
  apply Forall_app in Hok as [_ Hok].
  destruct (skip_used_split pre post Hok Hd) as (victims & -> & Hv & Hz & _).
  assert (Hu : pre ++ drop (length pre) (used pre post) = used pre post).
  { destruct Hd as [|pre c tl]; [done|]. unfold used.
    destruct (off c =? 0); [by rewrite drop_all, app_nil_r|by rewrite drop_app_length]. }
  destruct victims as [|v vs].
  - mstep. eexists. unfold ret, mret, M_ret. by rewrite Hu.
  - assert (Ha : evbuffer_chains_all_empty (v :: vs) = true).
    { apply forallb_forall. intros x Hx. apply Z.eqb_eq.
      rewrite Forall_forall in Hz. apply Hz, list_elem_of_In, Hx. }
    rewrite Ha. destruct (free_all_spec (v :: vs) w Hv) as (w' & E & N).
    exists w'. split; [|done]. unfold mbind, M_bind. simpl. simpl in E. rewrite E.
    unfold ret, mret, M_ret. by rewrite Hu.
Qed.

(** Releasing the empty tail loses no data. *)
Lemma used_content pre post :
  Forall chain_ok (pre ++ post) -> data_split pre post ->
  concat (chain_bytes <$> used pre post) = concat (chain_bytes <$> (pre ++ post)) /\
  sum_off (used pre post) = sum_off (pre ++ post) /\
  exists tl, pre ++ post = used pre post ++ tl.
Proof.
  intros Hok Hd. destruct Hd as [|pre c tl Hz Hp]; [split_and!; [done..|by exists []]|].
  apply Forall_app in Hok as [_ Hok]. pose proof Hok as Hok'. apply Forall_cons in Hok' as [Hc Htl].
  unfold used. destruct (off c =? 0) eqn:E; zb.
  - destruct (empty_content (c :: tl) Hok) as [E1 E2]; [by constructor|].
    rewrite content_app, sum_off_app, E1, E2, app_nil_r. split_and!; [done|lia|eauto].
  - destruct (empty_content tl Htl Hz) as [E1 E2].
    replace (pre ++ c :: tl) with ((pre ++ [c]) ++ tl) by (by rewrite <- app_assoc).
    rewrite (content_app _ tl), (sum_off_app _ tl), E1, E2, app_nil_r. split_and!; [done|lia|eauto].
Qed.

Lemma Forall_prefix {A} (P : A -> Prop) l k tl : l = k ++ tl -> Forall P l -> Forall P k.
Proof. intros ->. by intros [H _]%Forall_app. Qed.

Lemma nodup_prefix (l k tl : list evbuffer_chain) :
  l = k ++ tl -> NoDup (c_addr <$> l) -> NoDup (c_addr <$> k).
Proof. intros ->. rewrite fmap_app. by intros (? & _)%NoDup_app. Qed.

Lemma fresh_not_in w b c : wf w b -> mm_next w <= c_addr c -> c_addr c ∉ c_addr <$> chains b.
Proof.
  intros Hwf Hc Hin. apply list_elem_of_fmap in Hin as (d & Hd & Hin).
  pose proof (wf_fresh w b Hwf) as Hf. rewrite Forall_forall in Hf. apply Hf in Hin. lia.
Qed.

Lemma nodup_snoc (k : list evbuffer_chain) c :
  NoDup (c_addr <$> k) -> c_addr c ∉ c_addr <$> k -> NoDup (c_addr <$> (k ++ [c])).
Proof.
  intros Hk Hc. rewrite fmap_app. apply NoDup_app. split; [done|]. split.
  - intros x Hx ->%list_elem_of_singleton. done.
  - apply NoDup_singleton.
Qed.

(** Appending a chain at a fresh address keeps the buffer well formed and
    appends its bytes. *)
Lemma chain_insert_spec w w1 b c :
  wf w b -> chain_ok c -> mm_next w <= c_addr c < mm_next w1 -> total_len b + off c <= EV_SIZE_MAX ->
  exists b' w', evbuffer_chain_insert b c w1 = Done (b', w') /\ wf w' b' /\ mm_next w' = mm_next w1 /\
    content b' = content b ++ chain_bytes c /\ total_len b' = total_len b + off c /\
    (exists pre post, chains b = pre ++ post /\ last_with_datap b = next_ptr pre /\
       data_split pre post /\ chains b' = used pre post ++ [c] /\
       (off c = 0 -> last_with_datap b' = next_ptr pre)) /\
    freeze_start b' = freeze_start b /\ freeze_end b' = freeze_end b.
Proof.
  intros Hwf Hok Ha Hmax. pose proof (fresh_not_in w b c Hwf (proj1 Ha)) as Hnin.
  pose proof Hwf as [H1 H2 H3 H4 (pre & post & Hc & Hp & Hd) H6 H7].
  pose proof (sum_off_nonneg _ H1). pose proof (ck_off c Hok).
  assert (Hu64 : u64 (total_len b + off c) = total_len b + off c)
    by (apply u64_small; unfold EV_SIZE_MAX in *; lia).
  unfold evbuffer_chain_insert. rewrite Hp, Hc in *. rewrite cut_next_ptr by done.
  rewrite bind_lift. rewrite Hu64.
  destruct post as [|d tl] eqn:Epost.
  - inversion Hd; subst pre. simpl app in *. simpl in H6. mstep.
    eexists _, _. split; [reflexivity|]. unfold content; simpl. rewrite Hc; simpl. rewrite app_nil_r.
    split_and!; auto; [|by exists [], []].
    constructor; simpl; try apply NoDup_singleton;
      try (lazymatch goal with |- Forall _ _ => apply Forall_singleton end); try done; try lia.
    exists [], [c]. split_and!; auto. by constructor.
  - rewrite <- Epost in *. cbv iota.
    assert (Hwf1 : wf w1 b).
    { eapply (wf_same w); [done|by split|lia]. }
    destruct (free_trailing_spec w1 b pre post) as (w2 & E2 & N2);
      [done|done|done|done|].
    rewrite (bind_done _ _ _ _ _ E2).
    destruct (used_content pre post H1 Hd) as (Hcont & Hsum & tl' & Htl).
    eexists _, _. split; [reflexivity|].
    assert (Hcu : c_addr c ∉ c_addr <$> used pre post).
    { intros Hin. apply Hnin. rewrite Htl, fmap_app. set_solver. }
    split; [|split_and!; auto; [|exists pre, post; split_and!; auto; simpl; intros Hz; by rewrite Hz]].
    + constructor; simpl.
      * apply Forall_app. split; [by eapply Forall_prefix|by apply Forall_singleton].
      * apply nodup_snoc; [by eapply nodup_prefix|done].
      * apply Forall_app. split; [|apply Forall_singleton; lia].
        eapply Forall_prefix; [exact Htl|]. eapply Forall_impl; [exact H3|]. simpl. intros; lia.
      * by rewrite last_snoc.
      * destruct (off c =? 0) eqn:E; zb.
        -- exists pre, (drop (length pre) (used pre post) ++ [c]). subst post. inversion Hd; subst.
           unfold used in *. destruct (off d =? 0) eqn:E'; zb.
           ++ rewrite drop_all. simpl. split_and!; auto. constructor; [done|]. auto.
           ++ rewrite drop_app_length. simpl. rewrite <- app_assoc. split_and!; auto.
              constructor; [by repeat constructor|done].
        -- exists (used pre post), [c]. split_and!; auto. constructor; [done|]. lia.
      * rewrite sum_off_app, Hsum. simpl. lia.
      * lia.
    + unfold content; simpl. rewrite Hc, content_app, Hcont. simpl. by rewrite app_nil_r.
Qed.

(** ** A sample buffer: "hello" in a chain with room on both sides *)

Definition sample_mm : mm := mkMm 2 [] x00 [].
Definition sample_chain : evbuffer_chain :=
  mkChain 1 16 2 5 0 1 (replicate 2 x00 ++ [x68; x65; x6c; x6c; x6f] ++ replicate 9 x00) XNone.
Definition sample_buf : evbuffer :=
  mkBuf [sample_chain] (Some 1) None 5 0 0 false false false false 0 1 [].

Lemma sample_wf : wf sample_mm sample_buf.
Proof.
  constructor; simpl; try done.
  - apply Forall_singleton. constructor; simpl; try done; vm_compute; congruence.
  - apply NoDup_singleton.
  - by apply Forall_singleton.
  - exists [], [sample_chain]. split_and!; auto. by constructor.
Qed.
