(* ===== verification/Evbuffer.v ===== *)
(** * Evbuffer operations

    Models the data operations of [libevent/buffer.c] on the chain layer of
    [EvChain]: [evbuffer_add], [evbuffer_prepend], [evbuffer_drain],
    [evbuffer_copyout(_from)], [evbuffer_remove] and the growth routines
    [evbuffer_expand_singlechain], [evbuffer_expand], [evbuffer_expand_fast_].
    Every operation is shown to refine its effect on the byte sequence
    [content], to preserve [wf] and to stay inside the chains' memory. *)

From S2P Require Import Prelude EvChain.

(** ** Operations *)

(** [c] is written back through its pointer and [n] bytes are accounted. *)
Definition store_added (b : evbuffer) (c : evbuffer_chain) (n : Z) : evbuffer :=
  set_counts
    (set_chains b (put_chain c (chains b)) (last b) (last_with_datap b) (u64 (total_len b + n)))
    (u64 (n_add_for_cb b + n)) (n_del_for_cb b).

Definition count_added (b : evbuffer) (n : Z) : evbuffer :=
  set_counts b (u64 (n_add_for_cb b + n)) (n_del_for_cb b).

(** [memcpy] to the end of the chain's data. *)
Definition chain_append (c : evbuffer_chain) (d : list byte) : outcome evbuffer_chain :=
  m ← memwrite (misalign c + off c) d (buffer c);
  Done (set_data c (misalign c) (off c + zlen d) m).

Definition finish (b : evbuffer) : M (Z * evbuffer) :=
  b ← evbuffer_invoke_callbacks_ b; ret (0, b).

(** The tail of [evbuffer_add]: a new chain takes what does not fit. *)
Definition add_new_chain (b : evbuffer) (c : evbuffer_chain) (data : list byte) (remain : Z)
    : M (Z * evbuffer) :=
  let datlen := zlen data in
  let to_alloc := buffer_len c in
  let to_alloc := if to_alloc <=? EVBUFFER_CHAIN_MAX_AUTO_SIZE / 2
                  then Z.shiftl to_alloc 1 else to_alloc in
  let to_alloc := if to_alloc <? datlen then datlen else to_alloc in
  otmp ← evbuffer_chain_new to_alloc;
  match otmp with
  | None => ret (-1, b)
  | Some tmp =>
      b ← (if remain =? 0 then ret b
           else c ← lift (chain_append c (ztake remain data)); ret (store_added b c remain));
      let data := zdrop remain data in
      m ← lift (memwrite 0 data (buffer tmp));
      b ← evbuffer_chain_insert b (set_data tmp (misalign tmp) (zlen data) m);
      finish (count_added b (zlen data))
  end.

(** The data goes behind chain [c]: in place, after a realignment, or partly
    into a new chain. *)
Definition add_at (b : evbuffer) (c : evbuffer_chain) (data : list byte) : M (Z * evbuffer) :=
  let datlen := zlen data in
  if has (flags c) EVBUFFER_IMMUTABLE then add_new_chain b c data 0 else
  _ ← assert_m ((0 <=? misalign c) && (misalign c <=? EVBUFFER_CHAIN_MAX));
  let remain := u64 (buffer_len c - misalign c - off c) in
  if datlen <=? remain then
    c ← lift (chain_append c data); finish (store_added b c datlen)
  else if negb (CHAIN_PINNED c) && evbuffer_chain_should_realign c datlen then
    c ← lift (evbuffer_chain_align c);
    c ← lift (chain_append c data); finish (store_added b c datlen)
  else add_new_chain b c data remain.

Definition evbuffer_add (b : evbuffer) (data : list byte) : M (Z * evbuffer) :=
  let datlen := zlen data in
  if freeze_end b then ret (-1, b) else
  if EV_SIZE_MAX - total_len b <? datlen then ret (-1, b) else
  '(_, post) ← lift (cut (last_with_datap b) (chains b));
  oc ← (match post with [] => lift (last_chain b) | c :: _ => ret (Some c) end);
  r ← (match oc with
       | Some c => ret (Some c, b)
       | None => evbuffer_chain_insert_new b datlen
       end);
  match r with
  | (None, b) => ret (-1, b)
  | (Some c, b) => add_at b c data
  end.

(** [evbuffer_prepend]: the second allocation takes the bytes that do not fit
    in front of the first chain. *)
Definition prepend_new_chain (b : evbuffer) (data : list byte) : M (Z * evbuffer) :=
  otmp ← evbuffer_chain_new (zlen data);
  match otmp with
  | None => ret (-1, b)
  | Some tmp =>
      let p := match last_with_datap b with None => Some (c_addr tmp) | p => p end in
      _ ← assert_m (zlen data <=? buffer_len tmp);
      let mis := buffer_len tmp - zlen data in
      m ← lift (memwrite mis data (buffer tmp));
      finish (count_added
        (set_chains b (set_data tmp mis (zlen data) m :: chains b) (last b) p
           (u64 (total_len b + zlen data))) (zlen data))
  end.

Definition prepend_at (b : evbuffer) (c : evbuffer_chain) (data : list byte) : M (Z * evbuffer) :=
  let datlen := zlen data in
  if has (flags c) EVBUFFER_IMMUTABLE then prepend_new_chain b data else
  _ ← assert_m ((0 <=? misalign c) && (misalign c <=? EVBUFFER_CHAIN_MAX));
  let c := if off c =? 0 then set_data c (buffer_len c) (off c) (buffer c) else c in
  let mis := misalign c in
  if datlen <=? mis then
    m ← lift (memwrite (mis - datlen) data (buffer c));
    finish (store_added b (set_data c (mis - datlen) (off c + datlen) m) datlen)
  else if negb (mis =? 0) then
    m ← lift (memwrite 0 (zdrop (datlen - mis) data) (buffer c));
    let b := store_added b (set_data c 0 (off c + mis) m) mis in
    prepend_new_chain b (ztake (datlen - mis) data)
  else prepend_new_chain (store_added b c 0) data.

Definition evbuffer_prepend (b : evbuffer) (data : list byte) : M (Z * evbuffer) :=
  let datlen := zlen data in
  if freeze_start b then ret (-1, b) else
  if EV_SIZE_MAX - total_len b <? datlen then ret (-1, b) else
  r ← (match chains b with
       | c :: _ => ret (Some c, b)
       | [] => evbuffer_chain_insert_new b datlen
       end);
  match r with
  | (None, b) => ret (-1, b)
  | (Some c, b) => prepend_at b c data
  end.

(** [*p] while [buf->first] still holds the old first chain. *)
Definition star_ptr (first0 p : option Z) (cs : list evbuffer_chain) : outcome (option Z) :=
  match p with
  | None => Done first0
  | Some a => '(_, post) ← cut_at a cs; Done (c_addr <$> head post)
  end.

Fixpoint drain_loop (first0 : option Z) (cs : list evbuffer_chain) (p : option Z) (remaining : Z)
    : M (list evbuffer_chain * option Z * Z) :=
  match cs with
  | [] => lift Crash
  | c :: next =>
      if off c <=? remaining then
        let remaining := remaining - off c in
        star ← lift (star_ptr first0 p cs);
        let p := if bool_decide (star = Some (c_addr c)) then None else p in
        let p := if bool_decide (p = Some (c_addr c)) then None else p in
        if CHAIN_PINNED_R c then
          _ ← assert_m (remaining =? 0);
          ret (set_data c (misalign c + off c) 0 (buffer c) :: next, p, remaining)
        else _ ← evbuffer_chain_free c; drain_loop first0 next p remaining
      else ret (c :: next, p, remaining)
  end.

Definition count_deleted (b : evbuffer) (n : Z) : evbuffer :=
  set_counts b (n_add_for_cb b) (u64 (n_del_for_cb b + n)).

Definition evbuffer_drain (b : evbuffer) (len : Z) : M (Z * evbuffer) :=
  let old_len := total_len b in
  if old_len =? 0 then ret (0, b) else
  if freeze_start b then ret (-1, b) else
  pinned ← lift (HAS_PINNED_R b);
  if (old_len <=? len) && negb pinned then
    _ ← evbuffer_free_all_chains (chains b);
    finish (count_deleted (ZERO_CHAIN b) old_len)
  else
    let len := if old_len <=? len then old_len else len in
    '(cs, p, remaining) ←
       drain_loop (c_addr <$> head (chains b)) (chains b) (last_with_datap b) len;
    match cs with
    | [] => lift Crash
    | c :: next =>
        _ ← assert_m (remaining <=? off c);
        let c := set_data c (misalign c + remaining) (off c - remaining) (buffer c) in
        finish (count_deleted (set_chains b (c :: next) (last b) p (u64 (old_len - len))) len)
    end.

(** Copying out of the chains: [datlen && datlen >= chain->off - pos] *)
Fixpoint copy_loop (cs : list evbuffer_chain) (pos datlen : Z) : outcome (list byte) :=
  match cs with
  | [] => if datlen =? 0 then Done [] else Crash
  | c :: next =>
      let copylen := u64 (off c - pos) in
      if negb (datlen =? 0) && (copylen <=? datlen) then
        d ← memread (misalign c + pos) copylen (buffer c);
        let datlen := datlen - copylen in
        _ ← assert_c (negb (bool_decide (next = [])) || (datlen =? 0));
        rest ← copy_loop next 0 datlen;
        Done (d ++ rest)
      else if negb (datlen =? 0) then
        _ ← assert_c (datlen + pos <=? off c);
        memread (misalign c + pos) datlen (buffer c)
      else Done []
  end.

(** A position in a buffer: [pos], and the chain and offset it stands for
    ([None]: no chain). *)
Record evbuffer_ptr := mkPtr { ep_pos : Z; ep_chain : option Z; ep_in_chain : Z }.

Definition evbuffer_copyout_from (b : evbuffer) (pos : option evbuffer_ptr) (datlen : Z)
    : outcome (Z * list byte) :=
  match pos with
  | Some p =>
      if EV_SSIZE_MAX - ep_pos p <? datlen then Done (-1, []) else
      let datlen := if total_len b <? datlen + ep_pos p then u64 (total_len b - ep_pos p) else datlen in
      if datlen =? 0 then Done (0, []) else
      if freeze_start b then Done (-1, []) else
      a ← deref (ep_chain p);
      '(pre, post) ← cut_at a (chains b);
      c ← deref (list.last pre);
      d ← copy_loop (c :: post) (ep_in_chain p) datlen;
      Done (i64 datlen, d)
  | None =>
      let datlen := if total_len b <? datlen then total_len b else datlen in
      if datlen =? 0 then Done (0, []) else
      if freeze_start b then Done (-1, []) else
      d ← copy_loop (chains b) 0 datlen;
      Done (i64 datlen, d)
  end.

Definition evbuffer_copyout (b : evbuffer) (datlen : Z) : outcome (Z * list byte) :=
  evbuffer_copyout_from b None datlen.

Definition evbuffer_remove (b : evbuffer) (datlen : Z) : M (Z * list byte * evbuffer) :=
  '(n, d) ← lift (evbuffer_copyout_from b None datlen);
  if 0 <? n then
    '(r, b) ← evbuffer_drain b n;
    ret (if r <? 0 then i32 (-1) else i32 n, d, b)
  else ret (i32 n, d, b).

(** ** What an operation does to the byte sequence *)

Record effect (w : mm) (b : evbuffer) (w' : mm) (b' : evbuffer) (s : list byte) : Prop := {
  ef_wf : wf w' b';
  ef_content : content b' = s;
  ef_next : mm_next w <= mm_next w';
  ef_fs : freeze_start b' = freeze_start b;
  ef_fe : freeze_end b' = freeze_end b
}.

Lemma effect_refl w b : wf w b -> effect w b w b (content b).
Proof. by split. Qed.

Lemma effect_later w w' b : wf w b -> mm_next w <= mm_next w' -> effect w b w' b (content b).
Proof. intros H Hn. split; auto. eapply wf_same; [done|by split|done]. Qed.

Lemma total_content w b : wf w b -> total_len b = zlen (content b).
Proof. intros []. unfold content. by rewrite content_len. Qed.

Lemma total_nonneg w b : wf w b -> 0 <= total_len b.
Proof. intros H. rewrite (total_content w b) by done. apply zlen_nonneg. Qed.

(** Callback counters do not matter to the data. *)
Lemma set_counts_same b a d : same_data b (set_counts b a d).
Proof. by split. Qed.

Lemma finish_spec w w1 b0 b s :
  effect w b0 w1 b s ->
  exists b' w', finish b w1 = Done ((0, b'), w') /\ effect w b0 w' b' s.
Proof.
  intros [Hwf Hc Hn Hs He]. destruct (invoke_callbacks_spec b w1) as (b' & w' & E & Hsd & N).
  exists b', w'. unfold finish. rewrite (bind_done _ _ _ _ _ E). split; [done|].
  pose proof (same_data_content _ _ Hsd). pose proof (sd_fs _ _ Hsd). pose proof (sd_fe _ _ Hsd).
  split; try congruence; try lia. eapply wf_same; [exact Hwf|done|lia].
Qed.

(** ** Writing inside a chain *)

Lemma chain_append_spec c d :
  chain_ok c -> has (flags c) EVBUFFER_IMMUTABLE = false ->
  misalign c + off c + zlen d <= buffer_len c ->
  exists c', chain_append c d = Done c' /\ chain_ok c' /\ c_addr c' = c_addr c /\
    chain_bytes c' = chain_bytes c ++ d /\ off c' = off c + zlen d /\ flags c' = flags c.
Proof.
  intros [H1 H2 H3 H4 H5 H6 H7 H8 H9 H10] Hm Hroom. pose proof (zlen_nonneg d).
  unfold chain_append.
  destruct (memwrite (misalign c + off c) d (buffer c)) as [m|] eqn:E;
    [|rewrite memwrite_done in E; [done|lia|lia]].
  apply memwrite_inv in E as (L & Hat & Hbefore & _).
  simpl. eexists. split; [done|]. split; [|split; [done|split; [|done]]].
  - constructor; simpl; auto; try lia. intros. congruence.
  - unfold chain_bytes; simpl. rewrite zsub_split by lia. rewrite Hat, Hbefore by lia. done.
Qed.

Lemma chain_align_spec c :
  chain_ok c -> has (flags c) EVBUFFER_IMMUTABLE = false ->
  exists c', evbuffer_chain_align c = Done c' /\ chain_ok c' /\ c_addr c' = c_addr c /\
    chain_bytes c' = chain_bytes c /\ off c' = off c /\ flags c' = flags c /\
    misalign c' = 0 /\ buffer_len c' = buffer_len c.
Proof.
  intros Hok Hm. pose proof Hok as [H1 H2 H3 H4 H5 H6 H7 H8 H9 H10].
  unfold evbuffer_chain_align. rewrite Hm, H7. simpl.
  rewrite memread_done by lia. simpl.
  pose proof (chain_bytes_len c Hok) as Hl. unfold chain_bytes in Hl.
  destruct (memwrite 0 (zsub (misalign c) (off c) (buffer c)) (buffer c)) as [m|] eqn:E;
    [|rewrite memwrite_done in E; [done|lia|lia]].
  apply memwrite_inv in E as (L & Hat & _ & _). rewrite Hl in Hat.
  simpl. eexists. split; [done|].
  split_and!; auto. constructor; simpl; auto; lia.
Qed.

(** The position of [last_with_datap] in a well-formed buffer. *)
Lemma wf_cut w b :
  wf w b -> exists pre post, cut (last_with_datap b) (chains b) = Done (pre, post) /\
    chains b = pre ++ post /\ last_with_datap b = next_ptr pre /\ data_split pre post.
Proof.
  intros [_ Hnd _ _ (pre & post & Hc & Hp & Hd) _ _]. exists pre, post.
  rewrite Hp, Hc in *. by rewrite cut_next_ptr.
Qed.

(** A chain other than those before the data point is replaced. *)
Lemma wf_replace w b pre c tl c' t :
  wf w b -> chains b = pre ++ c :: tl -> c_addr c' = c_addr c -> chain_ok c' ->
  sum_off (pre ++ c' :: tl) = t -> t <= EV_SIZE_MAX ->
  (exists pre' post', pre ++ c' :: tl = pre' ++ post' /\
     last_with_datap b = next_ptr pre' /\ data_split pre' post') ->
  wf w (set_chains b (put_chain c' (chains b)) (last b) (last_with_datap b) t).
Proof.
  intros [H1 H2 H3 H4 H5 H6 H7] Hc Ha Hok Hsum Ht Hp. rewrite Hc in *.
  rewrite (put_chain_mid _ c) by done. constructor; simpl; auto.
  - rewrite Forall_app, Forall_cons in *. naive_solver.
  - by rewrite (addrs_mid _ c).
  - rewrite Forall_app, Forall_cons in *. rewrite Ha. naive_solver.
  - rewrite H4. destruct tl as [|d tl] using rev_ind.
    + rewrite !last_snoc. simpl. by rewrite Ha.
    + rewrite !app_comm_cons, !app_assoc, !last_snoc. done.
Qed.

Lemma store_added_spec w b pre c tl c' d :
  wf w b -> chains b = pre ++ c :: tl -> last_with_datap b = next_ptr pre ->
  data_split pre (c :: tl) -> c_addr c' = c_addr c -> chain_ok c' ->
  chain_bytes c' = chain_bytes c ++ d -> off c' = off c + zlen d ->
  total_len b + zlen d <= EV_SIZE_MAX ->
  effect w b w (store_added b c' (zlen d)) (content b ++ d) /\
  total_len (store_added b c' (zlen d)) = total_len b + zlen d.
Proof.
  intros Hwf Hc Hp Hd Ha Hok Hb Ho Hmax. pose proof (total_nonneg w b Hwf).
  pose proof (zlen_nonneg d). pose proof (wf_chains w b Hwf) as Hcs.
  pose proof (wf_total w b Hwf) as Htot. pose proof (wf_nodup w b Hwf) as Hnd. rewrite Hc in *.
  assert (E64 : u64 (total_len b + zlen d) = total_len b + zlen d)
    by (apply u64_small; unfold EV_SIZE_MAX in *; lia).
  inversion Hd as [|? ? ? Hz Hpre]; subst.
  apply Forall_app in Hcs as [_ Hcs]. apply Forall_cons in Hcs as [Hcok Htl].
  destruct (empty_content tl Htl Hz) as [Etl Es].
  unfold store_added. rewrite E64. split; [|done]. split; simpl; auto; [|by unfold content, set_counts; simpl;
    rewrite Hc, (put_chain_mid _ c) by done; rewrite !content_app; cbn [fmap list_fmap concat];
    rewrite Hb, Etl, !app_nil_r, app_assoc|lia].
  eapply wf_same; [|apply set_counts_same|reflexivity].
  eapply wf_replace; [done|exact Hc|done|done| |lia|].
  - rewrite Htot, !sum_off_app. simpl. lia.
  - exists pre, (c' :: tl). split_and!; auto. constructor; [done|]. intros Hz'. apply Hpre.
    pose proof (ck_off c Hcok). lia.
Qed.

(** ** Appending *)

(** Filling a fresh chain from its start or up to its end. *)
Lemma fresh_fill w size c d mis :
  fresh_chain w size c -> 0 <= mis -> mis + zlen d <= buffer_len c ->
  exists m, memwrite mis d (buffer c) = Done m /\ chain_ok (set_data c mis (zlen d) m) /\
    chain_bytes (set_data c mis (zlen d) m) = d.
Proof.
  intros [Ha Ho Hm Hf Hs [H1 H2 H3 H4 H5 H6 H7 H8 H9 H10]] Hd Hroom. pose proof (zlen_nonneg d).
  destruct (memwrite mis d (buffer c)) as [m|] eqn:E; [|rewrite memwrite_done in E; [done|lia|lia]].
  apply memwrite_inv in E as (L & Hat & _ & _). exists m. split; [done|].
  split; [|done]. constructor; simpl; auto; try lia. rewrite Hf, has_0. done.
Qed.

Definition appended (w : mm) (b : evbuffer) (data : list byte) (r : Z) (w' : mm) (b' : evbuffer) : Prop :=
  (r = 0 /\ effect w b w' b' (content b ++ data)) \/ (r = -1 /\ effect w b w' b' (content b)).

Definition small (data : list byte) : Prop := zlen data <= EVBUFFER_CHAIN_MAX - EVBUFFER_CHAIN_SIZE.

Lemma effect_trans w b w1 b1 s1 w2 b2 s2 :
  effect w b w1 b1 s1 -> effect w1 b1 w2 b2 s2 -> effect w b w2 b2 s2.
Proof. intros [] []. split; auto; congruence || lia. Qed.

Lemma effect_counts w b w' b' s a d :
  effect w b w' b' s -> effect w b w' (set_counts b' a d) s.
Proof. intros []. split; auto. eapply wf_same; [done|apply set_counts_same|done]. Qed.

(** The new chain is inserted behind [b1], then the callbacks run. *)
Lemma insert_finish w w1 b b1 c d s n :
  effect w b w b1 s -> chain_ok c -> mm_next w <= c_addr c < mm_next w1 ->
  total_len b1 + off c <= EV_SIZE_MAX -> chain_bytes c = d ->
  exists b' w', (b2 ← evbuffer_chain_insert b1 c; finish (count_added b2 n)) w1 = Done ((0, b'), w') /\
    effect w b w' b' (s ++ d).
Proof.
  intros He Hok Ha Hmax Hd.
  destruct (chain_insert_spec w w1 b1 c) as (b2 & w2 & E2 & Hwf2 & N2 & Hc2 & Ht2 & _ & Hs2 & He2);
    [apply He|done..|].
  rewrite (bind_done _ _ _ _ _ E2). eapply finish_spec. apply effect_counts.
  destruct He as [? Hc ? ? ?]. split; try congruence; lia.
Qed.

Lemma add_new_chain_spec w b pre c tl data remain :
  wf w b -> chains b = pre ++ c :: tl -> last_with_datap b = next_ptr pre ->
  data_split pre (c :: tl) -> total_len b + zlen data <= EV_SIZE_MAX ->
  0 <= remain -> remain <= zlen data ->
  (remain <> 0 -> has (flags c) EVBUFFER_IMMUTABLE = false /\
     misalign c + off c + remain <= buffer_len c) ->
  exists r b' w', add_new_chain b c data remain w = Done ((r, b'), w') /\
    appended w b data r w' b' /\ (mm_fail w = [] -> small data -> r = 0).
Proof.
  intros Hwf Hc Hp Hd Hmax Hr Hrd Hrm. unfold add_new_chain.
  lazymatch goal with |- context [evbuffer_chain_new ?s] => set (sz := s) end.
  pose proof (wf_chains w b Hwf) as Hcs. rewrite Hc, Forall_app, Forall_cons in Hcs.
  destruct Hcs as (_ & Hck & _). pose proof (zlen_nonneg data). pose proof (zlen_nonneg (buffer c)).
  assert (Hsz : zlen data <= sz /\ (small data -> sz <= EVBUFFER_CHAIN_MAX - EVBUFFER_CHAIN_SIZE)).
  { subst sz. destruct Hck as [_ _ _ Hm1 Hm2 _ _ _ _ _].
    change (EVBUFFER_CHAIN_MAX_AUTO_SIZE / 2) with 2048.
    rewrite Z.shiftl_mul_pow2 by lia. change (2 ^ 1) with 2.
    change (EVBUFFER_CHAIN_MAX - EVBUFFER_CHAIN_SIZE) with 9223372036854775759 in *.
    unfold small. change (EVBUFFER_CHAIN_MAX - EVBUFFER_CHAIN_SIZE) with 9223372036854775759.
    repeat case_test; zb; lia. }
  destruct (chain_new_spec sz w) as (oc & w1 & E1 & Hsucc & Hoc); [lia|].
  rewrite (bind_done _ _ _ _ _ E1). destruct oc as [tmp|]; cycle 1.
  { exists (-1), b, w1. split; [done|]. split.
    - right. split; [done|]. apply effect_later; [done|lia].
    - intros Hf Hsm. destruct Hsucc; [done|tauto|done]. }
  destruct Hoc as [Hfr N1].
  assert (Hstore : exists b1, (if remain =? 0 then ret b
      else c0 ← lift (chain_append c (ztake remain data)); ret (store_added b c0 remain)) w1 = Done (b1, w1) /\
      effect w b w b1 (content b ++ ztake remain data) /\ total_len b1 = total_len b + remain).
  { destruct (remain =? 0) eqn:E0; zb.
    - exists b. rewrite E0, ztake_nonpos, app_nil_r by lia. split; [done|]. split; [by apply effect_refl|lia].
    - destruct (Hrm E0) as [Him Hroom].
      assert (Hl : zlen (ztake remain data) = remain) by (rewrite zlen_ztake; lia).
      destruct (chain_append_spec c (ztake remain data) Hck Him) as (c' & -> & ? & ? & ? & ? & _); [lia|].
      destruct (store_added_spec w b pre c tl c' (ztake remain data)) as [He Ht]; auto; [lia|].
      rewrite Hl in *. eexists. split; [reflexivity|]. split; [exact He|done]. }
  destruct Hstore as (b1 & E2 & He1 & Ht1). rewrite (bind_done _ _ _ _ _ E2).
  assert (Hdl : zlen (zdrop remain data) = zlen data - remain) by (rewrite zlen_zdrop; lia).
  destruct (fresh_fill w sz tmp (zdrop remain data) 0 Hfr) as (m & -> & Hok & Hb);
    [lia|rewrite Hdl; pose proof (fc_size _ _ _ Hfr); lia|].
  rewrite bind_lift. rewrite (fc_mis _ _ _ Hfr).
  destruct (insert_finish w w1 b b1 (set_data tmp 0 (zlen (zdrop remain data)) m) (zdrop remain data)
    (content b ++ ztake remain data) (zlen (zdrop remain data)) He1) as (b' & w' & E3 & He3); auto.
  - simpl. rewrite (fc_addr _ _ _ Hfr). lia.
  - simpl. lia.
  - exists 0, b', w'. split; [exact E3|]. split; [|done]. left. split; [done|].
    by rewrite <- app_assoc, ztake_zdrop in He3.
Qed.

Lemma appended_trans w b w1 b1 w2 b2 data r :
  effect w b w1 b1 (content b) -> appended w1 b1 data r w2 b2 -> appended w b data r w2 b2.
Proof.
  intros He [[-> H]|[-> H]]; [left|right]; (split; [done|]);
    rewrite (ef_content _ _ _ _ _ He) in H; eapply effect_trans; eauto.
Qed.

Lemma add_at_spec w b pre c tl data :
  wf w b -> chains b = pre ++ c :: tl -> last_with_datap b = next_ptr pre ->
  data_split pre (c :: tl) -> total_len b + zlen data <= EV_SIZE_MAX ->
  exists r b' w', add_at b c data w = Done ((r, b'), w') /\ appended w b data r w' b' /\
    (mm_fail w = [] /\ small data \/
     has (flags c) EVBUFFER_IMMUTABLE = false /\ misalign c + off c + zlen data <= buffer_len c -> r = 0).
Proof.
  intros Hwf Hc Hp Hd Hmax. pose proof (zlen_nonneg data) as Hdl.
  pose proof (wf_chains w b Hwf) as Hcs. rewrite Hc, Forall_app, Forall_cons in Hcs.
  destruct Hcs as (_ & Hck & _). unfold add_at.
  destruct (has (flags c) EVBUFFER_IMMUTABLE) eqn:Him.
  { destruct (add_new_chain_spec w b pre c tl data 0) as (r & b' & w' & E & Ha & Hs); auto; try lia.
    exists r, b', w'. split; [done|]. split; [done|]. intros [[]|[]]; auto; done. }
  pose proof Hck as [H1 H2 H3 H4 H5 _ Hpin _ _ _].
  change (EVBUFFER_CHAIN_MAX - EVBUFFER_CHAIN_SIZE) with 9223372036854775759 in H5.
  assert (Hrem : u64 (buffer_len c - misalign c - off c) = buffer_len c - misalign c - off c)
    by (apply u64_small; lia).
  rewrite (proj2 (Z.leb_le 0 (misalign c)) H2), (proj2 (Z.leb_le (misalign c) EVBUFFER_CHAIN_MAX))
    by (change EVBUFFER_CHAIN_MAX with 9223372036854775807; lia).
  mstep. rewrite Hrem. cbv zeta.
  destruct (zlen data <=? _) eqn:Efit; zb.
  { destruct (chain_append_spec c data Hck Him) as (c' & -> & ? & ? & ? & ? & _); [lia|].
    rewrite bind_lift.
    destruct (store_added_spec w b pre c tl c' data) as [He _]; auto.
    destruct (finish_spec w w b _ _ He) as (b' & w' & E & He').
    exists 0, b', w'. split; [done|]. split; [by left|done]. }
  destruct (negb (CHAIN_PINNED c) && evbuffer_chain_should_realign c (zlen data)) eqn:Ere.
  { destruct (chain_align_spec c Hck Him) as (c1 & -> & Hok1 & Ha1 & Hb1 & Ho1 & Hf1 & Hm1 & Hl1).
    rewrite bind_lift. unfold evbuffer_chain_should_realign in Ere. zb.
    rewrite u64_small in * by lia. rewrite <- Hf1 in Him.
    destruct (chain_append_spec c1 data Hok1 Him) as (c' & -> & ? & ? & ? & ? & _); [lia|].
    rewrite bind_lift.
    destruct (store_added_spec w b pre c tl c' data) as [He _]; auto; try congruence; try lia.
    destruct (finish_spec w w b _ _ He) as (b' & w' & E & He').
    exists 0, b', w'. split; [done|]. split; [by left|done]. }
  destruct (add_new_chain_spec w b pre c tl data (buffer_len c - misalign c - off c))
    as (r & b' & w' & E & Ha & Hs); auto; try lia; [intros _; split; [done|lia]|].
  exists r, b', w'. split; [done|]. split; [done|]. intros [[]|[]]; auto; lia.
Qed.

(** Allocating the first chain of an empty list. *)
Lemma insert_new_empty w b datlen :
  wf w b -> chains b = [] -> 0 <= datlen ->
  exists oc b1 w1, evbuffer_chain_insert_new b datlen w = Done ((oc, b1), w1) /\
    (mm_fail w = [] -> datlen <= EVBUFFER_CHAIN_MAX - EVBUFFER_CHAIN_SIZE -> oc <> None) /\
    effect w b w1 b1 (content b) /\ total_len b1 = total_len b /\
    match oc with
    | None => True
    | Some c => fresh_chain w datlen c /\ chains b1 = [c] /\ last_with_datap b1 = None
    end.
Proof.
  intros Hwf Hc Hdl. unfold evbuffer_chain_insert_new.
  destruct (chain_new_spec datlen w Hdl) as (oc & w1 & E1 & Hs & Hoc).
  rewrite (bind_done _ _ _ _ _ E1). destruct oc as [c|]; cycle 1.
  { exists None, b, w1. split_and!; auto. apply effect_later; [done|lia]. }
  destruct Hoc as [Hfr N1]. pose proof Hfr as [Ha Ho Hm Hf Hsz Hok].
  pose proof (wf_max w b Hwf).
  destruct (chain_insert_spec w w1 b c) as (b2 & w2 & E2 & Hwf2 & N2 & Hc2 & Ht2 & _ & Hs2 & He2);
    [done|done|lia|lia|].
  rewrite (bind_done _ _ _ _ _ E2). exists (Some c), b2, w2. split; [done|]. split; [done|].
  assert (Hcb : chain_bytes c = []) by (unfold chain_bytes; rewrite Ho; by apply ztake_nonpos).
  rewrite Hcb, app_nil_r in Hc2.
  destruct (wf_cut w b Hwf) as (pre & post & Ecut & Happ & Hp & _).
  rewrite Hc in Happ. symmetry in Happ. apply app_eq_nil in Happ as [-> ->].
  unfold evbuffer_chain_insert in E2. rewrite Ecut, bind_lift, Hp, Hc in E2. cbv iota in E2.
  rewrite !bool_decide_true in E2 by done. rewrite !bind_assert in E2.
  unfold ret, mret, M_ret in E2. injection E2 as <- <-. split_and!; auto; [split; auto; lia|]. by rewrite Ht2, Ho, Z.add_0_r.
Qed.

Lemma evbuffer_add_spec w b data :
  wf w b ->
  exists r b' w', evbuffer_add b data w = Done ((r, b'), w') /\ appended w b data r w' b' /\
    (freeze_end b = false -> total_len b + zlen data <= EV_SIZE_MAX -> mm_fail w = [] ->
     small data -> r = 0).
Proof.
  intros Hwf. unfold evbuffer_add.
  assert (Hfail : appended w b data (-1) w b) by (right; split; [done|by apply effect_refl]).
  destruct (freeze_end b); [exists (-1), b, w; by split_and!|].
  destruct (_ <? _) eqn:Eov; zb; [exists (-1), b, w; split_and!; auto; intros; lia|].
  destruct (wf_cut w b Hwf) as (pre & post & -> & Hc & Hp & Hd). rewrite bind_lift.
  destruct post as [|c tl].
  - inversion Hd; subst pre. simpl in Hc. unfold last_chain.
    rewrite (wf_last w b Hwf), Hc. mstep. cbn [list.last fmap option_fmap option_map]. mstep.
    destruct (insert_new_empty w b (zlen data)) as (oc & b1 & w1 & E1 & Hs & He & Ht & Hoc);
      auto using zlen_nonneg.
    rewrite (bind_done _ _ _ _ _ E1). destruct oc as [c|].
    + destruct Hoc as (Hfr & Hc1 & Hp1).
      destruct (add_at_spec w1 b1 [] c [] data) as (r & b' & w' & E & Ha & Hr); auto.
      * apply He.
      * by constructor.
      * lia.
      * exists r, b', w'. split; [done|]. split; [by eapply appended_trans|].
        intros _ _ _ _. apply Hr. right. destruct Hfr as [_ Ho Hm Hf Hsz _].
        rewrite Hf, has_0. split; [done|lia].
    + exists (-1), b1, w1. split; [done|]. split; [by right|].
      intros _ _ Hmf Hsm. by destruct (Hs Hmf Hsm).
  - mstep. destruct (add_at_spec w b pre c tl data) as (r & b' & w' & E & Ha & Hr); auto; [lia|].
    exists r, b', w'. split; [done|]. split; [done|]. intros. apply Hr. by left.
Qed.

(** ** Draining *)

Lemma star_ptr_before first0 pre h tl :
  NoDup (c_addr <$> (pre ++ h :: tl)) -> pre <> [] ->
  star_ptr first0 (next_ptr pre) (pre ++ h :: tl) = Done (Some (c_addr h)).
Proof.
  intros Hnd Hne. pose proof (cut_next_ptr pre (h :: tl) Hnd) as E.
  destruct pre as [|d pre _] using rev_ind; [done|]. rewrite next_ptr_snoc in *.
  unfold star_ptr. simpl in E. by rewrite E.
Qed.

Lemma next_ptr_cons d pre : pre <> [] -> next_ptr (d :: pre) = next_ptr pre.
Proof. destruct pre; [done|]. reflexivity. Qed.

(** The loop frees the chains [k] that are consumed entirely and keeps
    [last_with_datap] unless the place it points into goes away. *)
Lemma drain_loop_spec first0 k c rest pre n w :
  Forall chain_ok k -> NoDup (c_addr <$> (k ++ c :: rest)) ->
  pre = [] \/ (exists h tl, k ++ c :: rest = pre ++ h :: tl) ->
  sum_off k <= n < sum_off k + off c ->
  exists w', drain_loop first0 (k ++ c :: rest) (next_ptr pre) n w =
      Done ((c :: rest, next_ptr (drop (length k) pre), n - sum_off k), w') /\
    mm_next w' = mm_next w.
Proof.
  revert pre n w. induction k as [|d k IH]; intros pre n w Hok Hnd Hpre Hn.
  { simpl in *. rewrite (proj2 (Z.leb_gt _ _)) by lia. exists w. rewrite Z.sub_0_r. by split. }
  apply Forall_cons in Hok as [Hd Hok]. cbn [app sum_off foldr] in *. fold (sum_off k) in *.
  pose proof (sum_off_nonneg k Hok). cbn [drain_loop].
  rewrite (proj2 (Z.leb_le _ _)) by lia. unfold CHAIN_PINNED_R.
  rewrite (pinned_any_r _ (ck_pin d Hd)).
  destruct (chain_free_spec d w Hd) as (w1 & E1 & N1).
  pose proof Hnd as Hnd'. cbn [fmap list_fmap] in Hnd'. apply NoDup_cons in Hnd' as [Hdn Hnd'].
  assert (Hstep : exists star, star_ptr first0 (next_ptr pre) (d :: k ++ c :: rest) = Done star /\
    (let p := if bool_decide (star = Some (c_addr d)) then None else next_ptr pre in
     if bool_decide (p = Some (c_addr d)) then None else p) = next_ptr (drop 1 pre) /\
    (drop 1 pre = [] \/ exists h tl, k ++ c :: rest = drop 1 pre ++ h :: tl)).
  { destruct pre as [|d' pre].
    - eexists. split; [done|]. split; [by case_bool_decide|by left].
    - destruct Hpre as [|(h & tl & Happ)]; [done|]. rewrite Happ in Hnd.
      eexists. rewrite Happ, star_ptr_before by done. split; [done|].
      injection Happ as <- Happ. simpl. rewrite Happ in Hdn.
      rewrite (bool_decide_false (Some (c_addr h) = _))
        by (intros [= Heq]; apply Hdn; rewrite <- Heq, fmap_app; set_solver).
      split; [|by right; eauto]. destruct pre as [|e pre _] using rev_ind.
      + by rewrite bool_decide_true.
      + change (d :: pre ++ [e]) with ((d :: pre) ++ [e]). rewrite drop_0, !next_ptr_snoc.
        rewrite bool_decide_false; [done|]. intros [= Heq]. apply Hdn.
        rewrite <- Heq, !fmap_app. set_solver. }
  destruct Hstep as (star & -> & Hp & Hpre'). rewrite bind_lift. cbv zeta in Hp |- *.
  rewrite Hp, (bind_done _ _ _ _ _ E1).
  destruct (IH (drop 1 pre) (n - off d) w1) as (w' & E & N); auto; [lia|].
  exists w'. rewrite E, drop_drop. split; [do 3 f_equal; lia|congruence].
Qed.

(** The chain that byte [n] of the content lies in. *)
Lemma split_at cs n :
  Forall chain_ok cs -> 0 <= n < sum_off cs ->
  exists k c rest, cs = k ++ c :: rest /\ sum_off k <= n < sum_off k + off c.
Proof.
  intros Hok. revert n. induction Hok as [|c cs Hc _ IH]; intros n Hn; [simpl in Hn; lia|].
  cbn [sum_off foldr] in Hn. fold (sum_off cs) in Hn.
  destruct (decide (n < off c)) as [Hlt|Hge].
  - exists [], c, cs. simpl. split; [done|lia].
  - destruct (IH (n - off c)) as (k & d & rest & -> & Hk); [lia|].
    exists (c :: k), d, rest. cbn [sum_off foldr app]. fold (sum_off k). split; [done|lia].
Qed.

(** Dropping the chains [k] in front and shortening the next one. *)
Lemma drop_front_wf w b k c c' rest pre post t :
  wf w b -> chains b = k ++ c :: rest -> chains b = pre ++ post ->
  last_with_datap b = next_ptr pre -> data_split pre post ->
  chain_ok c' -> c_addr c' = c_addr c -> 0 < off c -> 0 < off c' ->
  t = sum_off (c' :: rest) -> t <= EV_SIZE_MAX ->
  wf w (set_chains b (c' :: rest) (last b) (next_ptr (drop (length k) pre)) t).
Proof.
  intros [H1 H2 H3 H4 _ H6 H7] Hk Hc Hp Hd Hok Ha Ho Ho' Ht Hmax. rewrite Hk in *.
  rewrite Forall_app, Forall_cons in H1, H3. rewrite fmap_app in H2. cbn [fmap list_fmap] in H2.
  apply NoDup_app in H2 as (_ & _ & H2). constructor; simpl; auto.
  - apply Forall_cons; naive_solver.
  - by rewrite Ha.
  - rewrite Forall_cons, Ha. naive_solver.
  - rewrite H4. destruct rest as [|d rest _] using rev_ind.
    + rewrite last_snoc. simpl. by rewrite Ha.
    + rewrite !app_comm_cons, app_assoc, !last_snoc. done.
  - inversion Hd as [|? h tl Hz Hpre]; subst; [by destruct k|].
    apply app_eq_inv in Hc as [(m & -> & Hm)|(m & -> & Hm)].
    + destruct m as [|x m]; [simpl in Hm|].
      * injection Hm as <- <-. rewrite app_nil_r, drop_all. exists [], (c' :: tl).
        split_and!; auto. constructor; [done|lia].
      * injection Hm as -> Hm. rewrite Hm, Forall_app, Forall_cons in Hz. lia.
    + rewrite drop_app_length. destruct m as [|x m].
      * injection Hm as <- <-. exists [], (c' :: rest). split_and!; auto. constructor; [done|lia].
      * injection Hm as <- ->. exists (c' :: m), (h :: tl). split_and!; auto.
        -- unfold next_ptr. destruct m as [|y m _] using rev_ind; [simpl; by rewrite Ha|].
           by rewrite !app_comm_cons, !last_snoc.
        -- constructor; [done|]. intros Hh. by destruct (app_cons_not_nil k m c (eq_sym (Hpre Hh))).
Qed.

Lemma chain_shorten c n :
  chain_ok c -> 0 <= n < off c ->
  let c' := set_data c (misalign c + n) (off c - n) (buffer c) in
  chain_ok c' /\ chain_bytes c' = zdrop n (chain_bytes c).
Proof.
  intros Hok Hn c'. pose proof Hok as [H1 H2 H3 H4 H5 H6 H7 H8 H9 H10]. split.
  - constructor; simpl; auto; lia.
  - unfold chain_bytes; simpl. replace (off c) with (n + (off c - n)) at 2 by lia.
    rewrite zsub_split, zdrop_app_ge by (rewrite ?zlen_zsub; lia).
    rewrite zlen_zsub, Z.sub_diag, zdrop_nonpos by lia. done.
Qed.

Lemma last_chain_spec w b : wf w b -> last_chain b = Done (list.last (chains b)).
Proof.
  intros Hwf. unfold last_chain. rewrite (wf_last w b Hwf). pose proof (wf_nodup w b Hwf) as Hnd.
  destruct (chains b) as [|c cs _] using rev_ind; [done|]. rewrite last_snoc.
  cbn [fmap option_fmap option_map]. by rewrite find_chain_app by (by destruct (nodup_mid _ _ _ Hnd)).
Qed.

Lemma no_pinned_r w b : wf w b -> HAS_PINNED_R b = Done false.
Proof.
  intros Hwf. unfold HAS_PINNED_R. rewrite (last_chain_spec w) by done. simpl.
  destruct (list.last (chains b)) as [c|] eqn:El; [|done].
  apply last_Some in El as [l El]. pose proof (wf_chains w b Hwf) as Hcs.
  rewrite El, Forall_app, Forall_singleton in Hcs. unfold CHAIN_PINNED_R.
  by rewrite (pinned_any_r _ (ck_pin c (proj2 Hcs))).
Qed.

Definition drained (b : evbuffer) (len r : Z) : list byte :=
  if r =? 0 then zdrop len (content b) else content b.

Lemma evbuffer_drain_spec w b len :
  wf w b -> 0 <= len ->
  exists r b' w', evbuffer_drain b len w = Done ((r, b'), w') /\
    r = (if negb (total_len b =? 0) && freeze_start b then -1 else 0) /\
    effect w b w' b' (drained b len r).
Proof.
  intros Hwf Hlen. unfold evbuffer_drain. pose proof (total_content w b Hwf) as Htc.
  pose proof (wf_max w b Hwf) as Hmx. pose proof (total_nonneg w b Hwf) as Htn.
  destruct (total_len b =? 0) eqn:E0; zb.
  { exists 0, b, w. split_and!; auto. unfold drained. simpl.
    rewrite zdrop_all by lia. pose proof (effect_refl w b Hwf) as He.
    by rewrite (zlen_0_nil (content b)) in He by lia. }
  destruct (freeze_start b) eqn:Efs.
  { exists (-1), b, w. split_and!; auto. by apply effect_refl. }
  rewrite (no_pinned_r w b Hwf), bind_lift, andb_true_r. cbn [negb andb].
  destruct (total_len b <=? len) eqn:Ele; zb.
  - destruct (free_all_spec (chains b) w (wf_chains w b Hwf)) as (w1 & E1 & N1).
    rewrite (bind_done _ _ _ _ _ E1).
    destruct (finish_spec w w1 b (count_deleted (ZERO_CHAIN b) (total_len b)) []) as (b' & w' & E & He).
    { apply effect_counts. split; simpl; auto; [|lia].
      constructor; simpl; try done; try (by constructor).
      exists [], []. split_and!; auto. constructor. }
    exists 0, b', w'. split_and!; auto. unfold drained. simpl. rewrite zdrop_all by lia. done.
  - destruct (wf_cut w b Hwf) as (pre & post & _ & Hc & Hp & Hd).
    destruct (split_at (chains b) len) as (k & c & rest & Hk & Hks);
      [apply Hwf|rewrite <- (wf_total w b Hwf); lia|].
    pose proof (wf_chains w b Hwf) as Hcs. pose proof (wf_nodup w b Hwf) as Hnd.
    rewrite Hk in Hcs, Hnd. pose proof Hcs as Hcs'. rewrite Forall_app, Forall_cons in Hcs'.
    destruct Hcs' as (Hokk & Hokc & Hokr).
    destruct (drain_loop_spec (c_addr <$> head (chains b)) k c rest pre len w) as (w1 & E1 & N1); auto.
    { inversion Hd; subst; [by left|]. right. do 2 eexists. by rewrite <- Hk. }
    rewrite Hp. rewrite <- Hk in E1. rewrite (bind_done _ _ _ _ _ E1).
    rewrite (proj2 (Z.leb_le _ _)) by lia. mstep.
    destruct (chain_shorten c (len - sum_off k) Hokc) as [Hok' Hb']; [lia|].
    set (c' := set_data c _ _ _) in *.
    assert (Ht : total_len b - len = sum_off (c' :: rest)).
    { rewrite (wf_total w b Hwf), Hk, sum_off_app. simpl. lia. }
    edestruct (finish_spec w w1 b) as (b' & w' & E & He); cycle 1.
    { exists 0, b', w'. split; [exact E|]. split; [done|exact He]. }
    apply effect_counts. unfold drained. simpl (_ =? _). cbv iota.
    rewrite u64_small by (unfold EV_SIZE_MAX in *; lia).
    assert (Hwf' : wf w (set_chains b (c' :: rest) (last b) (next_ptr (drop (length k) pre)) (total_len b - len))).
    { eapply drop_front_wf; eauto; simpl; lia. }
    split; simpl; auto; [eapply wf_same; [exact Hwf'|by split|lia]| |lia].
    unfold content. simpl. rewrite Hk, content_app. cbn [fmap list_fmap concat].
    rewrite zdrop_app_ge, content_len by (rewrite ?content_len; auto; lia).
    rewrite zdrop_app_le by (rewrite chain_bytes_len; auto; lia). by rewrite Hb'.
Qed.

(** ** Reading *)

Lemma copy_loop_spec cs n :
  Forall chain_ok cs -> 0 <= n <= sum_off cs ->
  copy_loop cs 0 n = Done (ztake n (concat (chain_bytes <$> cs))).
Proof.
  intros Hok. revert n. induction Hok as [|c cs Hc Hcs IH]; intros n Hn.
  { simpl in *. by replace n with 0 by lia. }
  cbn [sum_off foldr] in Hn. fold (sum_off cs) in Hn. cbn [copy_loop fmap list_fmap concat].
  pose proof Hc as [H1 H2 H3 H4 H5 _ _ _ _ _]. pose proof (chain_bytes_len c Hc) as Hl.
  change (EVBUFFER_CHAIN_MAX - EVBUFFER_CHAIN_SIZE) with 9223372036854775759 in H5.
  rewrite Z.sub_0_r, Z.add_0_r, u64_small by lia.
  destruct (n =? 0) eqn:En; zb; cbn [negb andb].
  { by rewrite ztake_nonpos by lia. }
  destruct (off c <=? n) eqn:Ec; zb.
  - rewrite memread_done by lia. cbn [mbind outcome_bind].
    assert (Hs : negb (bool_decide (cs = [])) || (n - off c =? 0) = true).
    { case_bool_decide; [|done]. subst cs. simpl in *. apply Z.eqb_eq. lia. }
    rewrite Hs. cbn [assert_c mbind outcome_bind]. rewrite IH by lia. simpl.
    rewrite ztake_app_ge by lia. by rewrite Hl.
  - rewrite Z.add_0_r, (proj2 (Z.leb_le _ _)) by lia. cbn [assert_c mbind outcome_bind].
    rewrite memread_done by lia. rewrite ztake_app_le by lia. unfold chain_bytes.
    replace (off c) with (n + (off c - n)) by lia. rewrite zsub_split by lia.
    rewrite ztake_app_le by (rewrite zlen_zsub; lia).
    rewrite ztake_all; [done|rewrite zlen_zsub; lia].
Qed.

(** The content fits a signed length: it is held in memory. *)
Definition in_memory (b : evbuffer) : Prop := total_len b <= EV_SSIZE_MAX.

Lemma evbuffer_copyout_spec w b n :
  wf w b -> in_memory b -> 0 <= n ->
  evbuffer_copyout b n = Done
    (if negb (zlen (ztake n (content b)) =? 0) && freeze_start b then (-1, [])
     else (zlen (ztake n (content b)), ztake n (content b))).
Proof.
  intros Hwf Hmem Hn. unfold evbuffer_copyout, evbuffer_copyout_from.
  pose proof (total_content w b Hwf) as Htc. pose proof (total_nonneg w b Hwf) as Htn.
  set (m := if _ <? _ then _ else _).
  assert (Hm : m = zlen (ztake n (content b)) /\ ztake n (content b) = ztake m (content b)).
  { subst m. rewrite zlen_ztake. case_test; zb; split; try lia; [|done].
    by rewrite !ztake_all by lia. }
  destruct Hm as [Hm Ht]. rewrite <- Hm.
  destruct (m =? 0) eqn:E0; zb; [rewrite Ht, ztake_nonpos by lia; simpl; by rewrite E0|].
  destruct (freeze_start b); [done|]. cbn [negb andb].
  rewrite copy_loop_spec; [|apply Hwf|rewrite <- (wf_total w b Hwf), Hm, zlen_ztake; lia].
  simpl. rewrite i64_small; [by rewrite Ht|].
  rewrite Hm, zlen_ztake. unfold in_memory, EV_SSIZE_MAX in *. lia.
Qed.

Lemma evbuffer_remove_spec w b n :
  wf w b -> in_memory b -> freeze_start b = false -> 0 <= n ->
  exists b' w', evbuffer_remove b n w =
      Done ((i32 (zlen (ztake n (content b))), ztake n (content b), b'), w') /\
    effect w b w' b' (zdrop n (content b)).
Proof.
  intros Hwf Hmem Hfs Hn. unfold evbuffer_remove.
  pose proof (evbuffer_copyout_spec w b n Hwf Hmem Hn) as E. unfold evbuffer_copyout in E.
  rewrite E, Hfs, andb_false_r, bind_lift. pose proof (zlen_nonneg (content b)).
  destruct (0 <? zlen (ztake n (content b))) eqn:E0; zb.
  - destruct (evbuffer_drain_spec w b (zlen (ztake n (content b)))) as (r & b' & w' & Ed & Hr & He);
      [done|lia|].
    rewrite (bind_done _ _ _ _ _ Ed). rewrite Hfs, andb_false_r in Hr. subst r. simpl.
    exists b', w'. split; [done|]. unfold drained in He. simpl in He.
    rewrite zlen_ztake in He. destruct (decide (n <= zlen (content b))).
    + by rewrite Z.min_l, Z.max_r in He by lia.
    + rewrite zdrop_all in He by lia. by rewrite zdrop_all by lia.
  - exists b, w. split; [done|]. pose proof (effect_refl w b Hwf) as He.
    rewrite zlen_ztake in E0. destruct (decide (n = 0)) as [->|].
    + by rewrite zdrop_nonpos by lia.
    + rewrite zdrop_all by lia. by rewrite (zlen_0_nil (content b)) in He by lia.
Qed.

(** ** Prepending *)

Lemma next_ptr_head c c' pre : c_addr c' = c_addr c -> next_ptr (c' :: pre) = next_ptr (c :: pre).
Proof.
  intros Ha. destruct pre as [|d pre]; [|done]. unfold next_ptr. simpl. by rewrite Ha.
Qed.

(** The first chain is rewritten with [d] in front of its data. *)
Lemma store_front_spec w b c tl c' d :
  wf w b -> chains b = c :: tl -> c_addr c' = c_addr c -> chain_ok c' ->
  chain_bytes c' = d ++ chain_bytes c -> off c' = off c + zlen d ->
  total_len b + zlen d <= EV_SIZE_MAX ->
  effect w b w (store_added b c' (zlen d)) (d ++ content b) /\
  chains (store_added b c' (zlen d)) = c' :: tl /\
  total_len (store_added b c' (zlen d)) = total_len b + zlen d.
Proof.
  intros Hwf Hc Ha Hok Hb Ho Hmax. pose proof (total_nonneg w b Hwf). pose proof (zlen_nonneg d).
  pose proof (wf_nodup w b Hwf) as Hnd. rewrite Hc in Hnd.
  destruct (wf_cut w b Hwf) as (pre & post & _ & Hpp & Hp & Hd).
  assert (Hcs : put_chain c' (chains b) = c' :: tl)
    by (rewrite Hc; by apply (put_chain_mid [] c c' tl)).
  unfold store_added. rewrite u64_small by (unfold EV_SIZE_MAX in *; lia).
  split; [|by rewrite Hcs]. split; simpl; auto; [| |lia].
  - eapply wf_same; [|apply set_counts_same|reflexivity].
    eapply (wf_replace w b [] c tl); auto; [rewrite (wf_total w b Hwf), Hc; simpl; lia|].
    destruct pre as [|x pre].
    + exists [], (c' :: tl). split_and!; auto. rewrite Hc in Hpp. simpl in Hpp. subst post.
      inversion Hd; subst. by constructor.
    + rewrite Hc in Hpp. injection Hpp as <- ->. exists (c' :: pre), post.
      split_and!; auto; [rewrite Hp; symmetry; by apply next_ptr_head|].
      inversion Hd as [|? h t Hz Hpre]; subst. constructor; [done|]. intros Hh. by specialize (Hpre Hh).
  - unfold content. simpl. rewrite Hcs, Hc. cbn [fmap list_fmap concat]. by rewrite Hb, app_assoc.
Qed.

Definition prepended (w : mm) (b : evbuffer) (data : list byte) (r : Z) (w' : mm) (b' : evbuffer) : Prop :=
  (r = 0 /\ effect w b w' b' (data ++ content b)) \/
  (r = -1 /\ exists k, 0 <= k <= zlen data /\ effect w b w' b' (zdrop k data ++ content b)).

Lemma prepend_new_chain_spec w b c tl data :
  wf w b -> chains b = c :: tl -> 0 < off c -> total_len b + zlen data <= EV_SIZE_MAX ->
  exists r b' w', prepend_new_chain b data w = Done ((r, b'), w') /\
    ((r = 0 /\ effect w b w' b' (data ++ content b)) \/ (r = -1 /\ effect w b w' b' (content b))) /\
    (mm_fail w = [] -> small data -> r = 0).
Proof.
  intros Hwf Hc Ho Hmax. unfold prepend_new_chain. pose proof (zlen_nonneg data).
  pose proof (total_nonneg w b Hwf).
  destruct (chain_new_spec (zlen data) w) as (oc & w1 & E1 & Hs & Hoc); [done|].
  rewrite (bind_done _ _ _ _ _ E1). destruct oc as [tmp|]; cycle 1.
  { exists (-1), b, w1. split; [done|]. split; [|by intros Hf Hsm; destruct (Hs Hf Hsm)].
    right. split; [done|]. apply effect_later; [done|lia]. }
  destruct Hoc as [Hfr N1]. pose proof (fc_size _ _ _ Hfr). pose proof (fc_addr _ _ _ Hfr) as Hta.
  rewrite (proj2 (Z.leb_le _ _)) by lia. mstep.
  destruct (fresh_fill w _ tmp data (buffer_len tmp - zlen data) Hfr) as (m & -> & Hok & Hb); [lia..|].
  mstep. rewrite u64_small by (unfold EV_SIZE_MAX in *; lia).
  edestruct (finish_spec w w1 b) as (b' & w' & E & He); cycle 1.
  { exists 0, b', w'. split; [exact E|]. split; [|done]. left. split; [done|exact He]. }
  apply effect_counts. set (tmp' := set_data tmp _ _ _) in *.
  destruct Hwf as [W1 W2 W3 W4 (pre & post & Hpp & Hp & Hd) W6 W7].
  split; simpl; auto; [|unfold content; simpl; by rewrite Hb|lia].
  constructor; simpl; auto.
  - rewrite NoDup_cons. split; [|done]. rewrite Hta. intros Hin.
    apply list_elem_of_fmap in Hin as (x & Hx & Hin). rewrite Forall_forall in W3.
    specialize (W3 x Hin). lia.
  - apply Forall_cons. split; [simpl; lia|]. eapply Forall_impl; [exact W3|]. simpl. lia.
  - rewrite W4, Hc. simpl. by destruct tl.
  - exists (tmp' :: pre), post. split_and!; [by rewrite Hpp| |].
    + rewrite Hp. destruct pre as [|x pre]; [done|].
      rewrite (next_ptr_cons tmp') by done. unfold next_ptr. destruct (list.last (x :: pre)) eqn:El; [done|].
      by apply last_None in El.
    + destruct Hd as [|pre h t Hz Hpre]; [by rewrite Hpp in Hc|].
      constructor; [done|]. intros Hh. specialize (Hpre Hh) as ->. rewrite Hpp in Hc.
      injection Hc as -> _. lia.
  - rewrite W6. lia.
Qed.

(** Bytes written right in front of the chain's data. *)
Lemma write_before c d o :
  chain_ok c -> has (flags c) EVBUFFER_IMMUTABLE = false -> 0 <= o -> o + zlen d = misalign c ->
  exists m, memwrite o d (buffer c) = Done m /\
    chain_ok (set_data c o (off c + zlen d) m) /\
    chain_bytes (set_data c o (off c + zlen d) m) = d ++ chain_bytes c.
Proof.
  intros [H1 H2 H3 H4 H5 H6 H7 H8 H9 H10] Him Ho Hod. pose proof (zlen_nonneg d).
  destruct (memwrite o d (buffer c)) as [m|] eqn:E; [|rewrite memwrite_done in E; [done|lia|lia]].
  apply memwrite_inv in E as (L & Hat & _ & Hafter). exists m. split; [done|]. split.
  - constructor; simpl; auto; try lia. intros. congruence.
  - unfold chain_bytes. simpl. rewrite (Z.add_comm (off c)), zsub_split by lia.
    by rewrite Hat, Hafter, Hod by lia.
Qed.

Lemma prepend_at_spec w b c tl data :
  wf w b -> chains b = c :: tl -> total_len b + zlen data <= EV_SIZE_MAX ->
  exists r b' w', prepend_at b c data w = Done ((r, b'), w') /\ prepended w b data r w' b' /\
    (mm_fail w = [] /\ small data \/
     has (flags c) EVBUFFER_IMMUTABLE = false /\ off c = 0 /\ zlen data <= buffer_len c -> r = 0).
Proof.
  intros Hwf Hc Hmax. pose proof (zlen_nonneg data) as Hdl. unfold prepend_at.
  pose proof (wf_chains w b Hwf) as Hcs. rewrite Hc, Forall_cons in Hcs. destruct Hcs as [Hck _].
  destruct (has (flags c) EVBUFFER_IMMUTABLE) eqn:Him.
  { destruct (prepend_new_chain_spec w b c tl data) as (r & b' & w' & E & Hr & Hs); auto; [by apply ck_imm|].
    exists r, b', w'. split; [done|]. split; [|intros [[]|[? _]]; [auto|congruence]].
    destruct Hr as [?|[-> He]]; [by left|]. right. split; [done|].
    exists (zlen data). by rewrite zdrop_all. }
  pose proof Hck as [H1 H2 H3 H4 H5 _ Hpin _ _ Hpos]. specialize (Hpos Him).
  change (EVBUFFER_CHAIN_MAX - EVBUFFER_CHAIN_SIZE) with 9223372036854775759 in H5.
  rewrite (proj2 (Z.leb_le 0 (misalign c)) H2), (proj2 (Z.leb_le (misalign c) EVBUFFER_CHAIN_MAX))
    by (change EVBUFFER_CHAIN_MAX with 9223372036854775807; lia). mstep.
  set (c1 := if off c =? 0 then _ else c).
  assert (Hc1 : chain_ok c1 /\ c_addr c1 = c_addr c /\ chain_bytes c1 = chain_bytes c /\
    off c1 = off c /\ flags c1 = flags c /\ (off c1 = 0 -> 0 < misalign c1) /\
    (off c = 0 -> misalign c1 = buffer_len c)).
  { subst c1. destruct (off c =? 0) eqn:Eo; zb; [|split_and!; auto; lia].
    split_and!; auto; [|unfold chain_bytes; simpl; unfold zsub; by rewrite Eo, !ztake_nonpos].
    destruct Hck. constructor; simpl; auto; lia. }
  clearbody c1. destruct Hc1 as (Hok1 & Ha1 & Hb1 & Ho1 & Hf1 & Hm1 & Hm0). cbv zeta.
  rewrite <- Hf1 in Him. pose proof (ck_mis _ Hok1) as Hmn. pose proof (ck_off _ Hok1) as Hon.
  destruct (zlen data <=? misalign c1) eqn:Efit; zb.
  { destruct (write_before c1 data (misalign c1 - zlen data)) as (m & -> & Hok & Hb); auto; try lia. mstep.
    destruct (store_front_spec w b c tl (set_data c1 (misalign c1 - zlen data) (off c1 + zlen data) m) data)
      as [He _]; auto; try congruence; [simpl; lia|].
    destruct (finish_spec w w b _ _ He) as (b' & w' & E & He').
    exists 0, b', w'. split; [done|]. split; [by left|done]. }
  (* [k] bytes do not fit in front of the chain *)
  assert (Hrest : forall m k, 0 <= k -> k + misalign c1 = zlen data -> chain_ok (set_data c1 0 (off c1 + misalign c1) m) ->
    chain_bytes (set_data c1 0 (off c1 + misalign c1) m) = zdrop k data ++ chain_bytes c ->
    exists r b' w', prepend_new_chain (store_added b (set_data c1 0 (off c1 + misalign c1) m) (misalign c1))
      (ztake k data) w = Done ((r, b'), w') /\ prepended w b data r w' b' /\
      (mm_fail w = [] /\ small data \/
       false = false /\ off c = 0 /\ zlen data <= buffer_len c -> r = 0)).
  { intros m k Hk Hkm Hok Hb.
    assert (Hl : zlen (zdrop k data) = misalign c1) by (rewrite zlen_zdrop; lia).
    assert (Hl' : zlen (ztake k data) = k) by (rewrite zlen_ztake; lia).
    destruct (store_front_spec w b c tl (set_data c1 0 (off c1 + misalign c1) m) (zdrop k data))
      as (He & Hcs & Ht); auto; [simpl; lia|lia|]. rewrite Hl in *.
    destruct (prepend_new_chain_spec w _ _ tl (ztake k data) (ef_wf _ _ _ _ _ He) Hcs)
      as (r & b' & w' & E & Hr & Hs); [simpl; lia|lia|].
    rewrite (ef_content _ _ _ _ _ He) in Hr.
    exists r, b', w'. split; [done|]. split; [|intros [[Hf Hsm]|(_ & Hz & Hb')];
      [apply Hs; [done|unfold small in *; lia]|rewrite <- Hm0 in Hb' by done; lia]].
    destruct Hr as [[-> Hr]|[-> Hr]]; [left|right]; (split; [done|]).
    - rewrite app_assoc, ztake_zdrop in Hr. by eapply effect_trans.
    - exists k. split; [lia|]. by eapply effect_trans. }
  destruct (misalign c1 =? 0) eqn:E0; zb; cbn [negb].
  - specialize (Hrest (buffer c1) (zlen data)).
    rewrite E0, !Z.add_0_r, zdrop_all, ztake_all in Hrest by lia.
    replace (set_data c1 0 (off c1) (buffer c1)) with c1 in Hrest
      by (rewrite <- E0; by destruct c1). apply Hrest; auto; lia.
  - assert (Hl : zlen (zdrop (zlen data - misalign c1) data) = misalign c1) by (rewrite zlen_zdrop; lia).
    destruct (write_before c1 (zdrop (zlen data - misalign c1) data) 0) as (m & -> & Hok & Hb); auto; try lia.
    rewrite Hl in *. mstep. apply Hrest; auto; try lia. congruence.
Qed.

Lemma evbuffer_prepend_spec w b data :
  wf w b ->
  exists r b' w', evbuffer_prepend b data w = Done ((r, b'), w') /\ prepended w b data r w' b' /\
    (freeze_start b = false -> total_len b + zlen data <= EV_SIZE_MAX -> mm_fail w = [] ->
     small data -> r = 0).
Proof.
  intros Hwf. unfold evbuffer_prepend. pose proof (zlen_nonneg data) as Hdl.
  assert (Hsame : forall w1 b1, effect w b w1 b1 (content b) -> prepended w b data (-1) w1 b1).
  { intros w1 b1 He. right. split; [done|]. exists (zlen data). by rewrite zdrop_all. }
  destruct (freeze_start b); [exists (-1), b, w; split_and!; [done|by apply Hsame, effect_refl|done]|].
  destruct (_ <? _) eqn:Eov; zb;
    [exists (-1), b, w; split_and!; [done|by apply Hsame, effect_refl|intros; lia]|].
  destruct (chains b) as [|c tl] eqn:Ec; cycle 1.
  { mstep. destruct (prepend_at_spec w b c tl data) as (r & b' & w' & E & Hr & Hs); [done|done|lia|].
    exists r, b', w'. split; [done|]. split; [done|]. intros. apply Hs. by left. }
  destruct (insert_new_empty w b (zlen data)) as (oc & b1 & w1 & E1 & Hs1 & He & Ht & Hoc); auto.
  rewrite (bind_done _ _ _ _ _ E1).
  destruct oc as [c|]; cycle 1.
  { exists (-1), b1, w1. split; [done|]. split; [by apply Hsame|].
    intros _ _ Hf Hsm. by destruct (Hs1 Hf Hsm). }
  destruct Hoc as (Hfr & Hc1 & _).
  destruct (prepend_at_spec w1 b1 c [] data) as (r & b' & w' & E & Hr & Hs); [apply He|done|lia|].
  exists r, b', w'. split; [done|]. split; [|].
  2: { intros _ _ _ _. apply Hs. right. destruct Hfr as [_ Ho _ Hf Hsz _]. by rewrite Hf, has_0. }
  rewrite <- (ef_content _ _ _ _ _ He) in *.
  destruct Hr as [[-> H]|(-> & k & Hk & H)]; [left|right]; (split; [done|]); [|exists k; split; [done|]];
    rewrite (ef_content _ _ _ _ _ He) in *; by eapply effect_trans.
Qed.
