(* ===== verification/EvbufferSpace.v ===== *)
(** * Evbuffer space and socket I/O

    Models the routines of [libevent/buffer.c] that make room in a buffer
    and move bytes between a buffer and a socket:
    [evbuffer_expand_singlechain], [evbuffer_expand], [evbuffer_expand_fast_],
    [evbuffer_reserve_space], [evbuffer_commit_space], [evbuffer_add_iovec],
    [evbuffer_read_setup_vecs_], [evbuffer_read], [evbuffer_write_iovec] and
    [evbuffer_write_atmost].

    An I/O vector is the chain it points into, the offset in that chain's
    memory and a length.  The system calls are arguments: [readv] yields the
    bytes received for a given capacity, [writev] the number of bytes taken. *)

From S2P Require Import Prelude EvChain Evbuffer.

(** ** Growth *)

Definition cut_datap (b : evbuffer) : outcome (list evbuffer_chain * list evbuffer_chain) :=
  cut (last_with_datap b) (chains b).

(** [chainp] of the callers: the first chain with space, if any. *)
Definition skip_full (pre post : list evbuffer_chain) : list evbuffer_chain * list evbuffer_chain :=
  match post with
  | c :: tl => if CHAIN_SPACE_LEN c =? 0 then (pre ++ [c], tl) else (pre, post)
  | [] => (pre, post)
  end.

Definition store_chain (b : evbuffer) (c : evbuffer_chain) : evbuffer :=
  set_chains b (put_chain c (chains b)) (last b) (last_with_datap b) (total_len b).

Definition check_space (datlen : Z) (r : option evbuffer_chain * evbuffer)
    : M (option evbuffer_chain * evbuffer) :=
  match r with
  | (None, b) => ret (None, b)
  | (Some c, b) => _ ← assert_m (datlen <=? CHAIN_SPACE_LEN c); ret (Some c, b)
  end.

(** The chain is replaced by a copy with room for [datlen] more bytes. *)
Definition expand_resize (b : evbuffer) (pre : list evbuffer_chain) (c : evbuffer_chain)
    (tl : list evbuffer_chain) (datlen : Z) : M (option evbuffer_chain * evbuffer) :=
  otmp ← evbuffer_chain_new (off c + datlen);
  match otmp with
  | None => ret (None, b)
  | Some tmp =>
      d ← lift (memread (misalign c) (off c) (buffer c));
      m ← lift (memwrite 0 d (buffer tmp));
      let tmp := set_data tmp (misalign tmp) (off c) m in
      let l := if bool_decide (last b = Some (c_addr c)) then Some (c_addr tmp) else last b in
      _ ← evbuffer_chain_free c;
      ret (Some tmp, set_chains b (pre ++ tmp :: tl) l (last_with_datap b) (total_len b))
  end.

Definition evbuffer_expand_singlechain (b : evbuffer) (datlen : Z)
    : M (option evbuffer_chain * evbuffer) :=
  '(pre, post) ← lift (cut_datap b);
  let '(pre, post) := skip_full pre post in
  r ← (match post with
       | [] => evbuffer_chain_insert_new b datlen
       | c :: tl =>
           if has (flags c) (Z.lor EVBUFFER_IMMUTABLE EVBUFFER_MEM_PINNED_ANY)
           then evbuffer_chain_insert_new b datlen
           else if datlen <=? CHAIN_SPACE_LEN c then ret (Some c, b)
           else if off c =? 0 then evbuffer_chain_insert_new b datlen
           else if evbuffer_chain_should_realign c datlen then
             c ← lift (evbuffer_chain_align c); ret (Some c, store_chain b c)
           else if (CHAIN_SPACE_LEN c <? buffer_len c / 8) || (MAX_TO_COPY_IN_EXPAND <? off c)
                   || (EVBUFFER_CHAIN_MAX - off c <=? datlen) then
             match tl with
             | d :: _ => if datlen <=? CHAIN_SPACE_LEN d then ret (Some d, b)
                         else evbuffer_chain_insert_new b datlen
             | [] => evbuffer_chain_insert_new b datlen
             end
           else expand_resize b pre c tl datlen
       end);
  check_space datlen r.

Definition evbuffer_expand (b : evbuffer) (datlen : Z) : M (Z * evbuffer) :=
  '(oc, b) ← evbuffer_expand_singlechain b datlen;
  ret (match oc with Some _ => 0 | None => -1 end, b).

(** Outcome of the loop over the chains with space. *)
Inductive scan_result :=
| ScanEnough                     (* [avail >= datlen]: return 0 *)
| ScanFull                       (* [used == n]: break *)
| ScanShort (avail : Z).         (* ran off the end with [used < n] *)

Fixpoint scan_space (cs : list evbuffer_chain) (at_datap : bool) (datlen : Z) (n used : Z) (avail : Z)
    : outcome (list evbuffer_chain * scan_result) :=
  match cs with
  | [] => Done ([], ScanShort avail)
  | c :: tl =>
      '(c, used, avail) ←
        (if negb (off c =? 0) then
           _ ← assert_c at_datap;
           let space := CHAIN_SPACE_LEN c in
           if negb (space =? 0) then Done (c, used + 1, u64 (avail + space))
           else Done (c, used, avail)
         else Done (set_data c 0 (off c) (buffer c), used + 1, u64 (avail + buffer_len c)));
      if datlen <=? avail then Done (c :: tl, ScanEnough)
      else if used =? n then Done (c :: tl, ScanFull)
      else '(tl, r) ← scan_space tl false datlen n used avail; Done (c :: tl, r)
  end.

(** All the empty chains are replaced by one. *)
Definition expand_replace (b : evbuffer) (pre post : list evbuffer_chain) (datlen : Z)
    : M (Z * evbuffer) :=
  match post with
  | [] => lift Crash
  | c :: tl =>
      if off c =? 0 then
        _ ← assert_m (bool_decide (pre = []));
        _ ← assert_m (evbuffer_chains_all_empty post);
        _ ← evbuffer_free_all_chains post;
        otmp ← evbuffer_chain_new datlen;
        match otmp with
        | None => ret (-1, ZERO_CHAIN b)
        | Some tmp => ret (0, set_chains b [tmp] (Some (c_addr tmp)) None (total_len b))
        end
      else
        let avail := CHAIN_SPACE_LEN c in
        _ ← assert_m (evbuffer_chains_all_empty tl);
        _ ← evbuffer_free_all_chains tl;
        _ ← assert_m (avail <=? datlen);
        otmp ← evbuffer_chain_new (datlen - avail);
        match otmp with
        | None => ret (-1, set_chains b (pre ++ [c]) (Some (c_addr c)) (last_with_datap b) (total_len b))
        | Some tmp =>
            ret (0, set_chains b (pre ++ [c; tmp]) (Some (c_addr tmp)) (last_with_datap b) (total_len b))
        end
  end.

Definition evbuffer_expand_fast_ (b : evbuffer) (datlen n : Z) : M (Z * evbuffer) :=
  oc ← lift (last_chain b);
  _ ← assert_m (2 <=? n);
  if (match oc with None => true | Some c => has (flags c) EVBUFFER_IMMUTABLE end) then
    oc ← evbuffer_chain_new datlen;
    match oc with
    | None => ret (-1, b)
    | Some c => b ← evbuffer_chain_insert b c; ret (0, b)
    end
  else
    '(pre, post) ← lift (cut_datap b);
    '(post, r) ← lift (scan_space post true datlen n 0 0);
    let b := set_chains b (pre ++ post) (last b) (last_with_datap b) (total_len b) in
    match r with
    | ScanEnough => ret (0, b)
    | ScanShort avail =>
        otmp ← evbuffer_chain_new (u64 (datlen - avail));
        match otmp with
        | None => ret (-1, b)
        | Some tmp =>
            ret (0, set_chains b (pre ++ post ++ [tmp]) (Some (c_addr tmp)) (last_with_datap b) (total_len b))
        end
    | ScanFull => expand_replace b pre post datlen
    end.

(** ** Vectors *)

Record iovec := mkVec { iov_chain : Z; iov_at : Z; iov_len : Z }.

Definition space_vec (c : evbuffer_chain) (len : Z) : iovec :=
  mkVec (c_addr c) (misalign c + off c) len.

Fixpoint setup_vecs (n : nat) (cs : list evbuffer_chain) (howmuch so_far : Z) (exact : bool)
    : outcome (list iovec) :=
  match n with
  | O => Done []
  | S n =>
      if so_far <? howmuch then
        match cs with
        | [] => Crash
        | c :: tl =>
            let avail := CHAIN_SPACE_LEN c in
            let avail := if (howmuch - so_far <? avail) && exact then howmuch - so_far else avail in
            vs ← setup_vecs n tl howmuch (u64 (so_far + avail)) exact;
            Done (space_vec c avail :: vs)
        end
      else Done []
  end.

(** [None]: the error return; otherwise the vectors and [*chainp]. *)
Definition evbuffer_read_setup_vecs_ (b : evbuffer) (howmuch : Z) (n_vecs_avail : Z) (exact : bool)
    : outcome (option (list iovec * (list evbuffer_chain * list evbuffer_chain))) :=
  if howmuch <? 0 then Done None else
  '(pre, post) ← cut_datap b;
  match post with
  | [] => Crash
  | _ =>
      let '(pre, post) := skip_full pre post in
      vs ← setup_vecs (Z.to_nat n_vecs_avail) post howmuch 0 exact;
      Done (Some (vs, (pre, post)))
  end.

Definition evbuffer_reserve_space (b : evbuffer) (size n_vecs : Z) : M (Z * list iovec * evbuffer) :=
  if freeze_end b then ret (-1, [], b) else
  if n_vecs <? 1 then ret (-1, [], b) else
  if n_vecs =? 1 then
    '(oc, b) ← evbuffer_expand_singlechain b (u64 size);
    match oc with
    | None => ret (-1, [], b)
    | Some c =>
        _ ← assert_m ((size <? 0) || (size <=? CHAIN_SPACE_LEN c));
        ret (1, [space_vec c (CHAIN_SPACE_LEN c)], b)
    end
  else
    '(r, b) ← evbuffer_expand_fast_ b (u64 size) n_vecs;
    if r <? 0 then ret (-1, [], b) else
    ov ← lift (evbuffer_read_setup_vecs_ b size n_vecs false);
    match ov with
    | None => ret (-1, [], b)
    | Some (vs, _) => ret (zlen vs, vs, b)
    end.

Fixpoint advance_over (pre post : list evbuffer_chain) : list evbuffer_chain :=
  match post with
  | c :: ((d :: _) as tl) => if off d =? 0 then pre else advance_over (pre ++ [c]) tl
  | _ => pre
  end.

Definition advance_last_with_data (b : evbuffer) : outcome evbuffer :=
  '(pre, post) ← cut_datap b;
  Done (set_chains b (chains b) (last b) (next_ptr (advance_over pre post)) (total_len b)).

(** Pass 1 of [evbuffer_commit_space]. *)
Fixpoint vecs_fit (vs : list iovec) (cs : list evbuffer_chain) : bool :=
  match vs, cs with
  | [], _ => true
  | _, [] => false
  | v :: vs, c :: cs =>
      (iov_chain v =? c_addr c) && (iov_at v =? misalign c + off c) &&
      (iov_len v <=? CHAIN_SPACE_LEN c) && vecs_fit vs cs
  end.

(** Pass 2: offsets, [last_with_datap] and the number of bytes added. *)
Fixpoint commit_vecs (vs : list iovec) (pre cs : list evbuffer_chain) (p : option Z) (added : Z)
    : outcome (list evbuffer_chain * option Z * Z) :=
  match vs, cs with
  | [], _ => Done (pre ++ cs, p, added)
  | _, [] => Crash
  | v :: vs, c :: cs =>
      commit_vecs vs (pre ++ [set_off c (u64 (off c + iov_len v))]) cs
        (if iov_len v =? 0 then p else next_ptr pre) (u64 (added + iov_len v))
  end.

Definition commit_finish (b : evbuffer) (added : Z) : M (Z * evbuffer) :=
  finish (count_added
    (set_chains b (chains b) (last b) (last_with_datap b) (u64 (total_len b + added))) added).

(** The vectors are those of the chains with space, in order. *)
Definition commit_many (b : evbuffer) (vs : list iovec) : M (Z * evbuffer) :=
  '(pre, post) ← lift (cut_datap b);
  match post with
  | [] => ret (-1, b)
  | _ =>
      let '(pre, post) := skip_full pre post in
      if vecs_fit vs post then
        '(cs, p, added) ← lift (commit_vecs vs pre post (last_with_datap b) 0);
        commit_finish (set_chains b cs (last b) p (total_len b)) added
      else ret (-1, b)
  end.

Definition evbuffer_commit_space (b : evbuffer) (vs : list iovec) : M (Z * evbuffer) :=
  if freeze_end b then ret (-1, b) else
  oc ← lift (last_chain b);
  match vs, oc with
  | [], _ => ret (0, b)
  | [v], Some c =>
      if (iov_chain v =? c_addr c) && (iov_at v =? misalign c + off c) then
        if CHAIN_SPACE_LEN c <? iov_len v then ret (-1, b) else
        let b := store_chain b (set_off c (u64 (off c + iov_len v))) in
        b ← (if iov_len v =? 0 then ret b else lift (advance_last_with_data b));
        commit_finish b (iov_len v)
      else commit_many b vs
  | _, _ => commit_many b vs
  end.

(** [to_alloc] of all vectors, then each is added. *)
Fixpoint add_all (b : evbuffer) (vs : list (list byte)) (res : Z) : M (Z * evbuffer) :=
  match vs with
  | [] => ret (res, b)
  | d :: vs =>
      '(r, b) ← evbuffer_add b d;
      if r <? 0 then ret (res, b) else add_all b vs (u64 (res + zlen d))
  end.

Definition evbuffer_add_iovec (b : evbuffer) (vs : list (list byte)) : M (Z * evbuffer) :=
  let to_alloc := foldl (fun n d => u64 (n + zlen d)) 0 vs in
  '(r, b) ← evbuffer_expand_fast_ b to_alloc 2;
  if r <? 0 then ret (0, b) else add_all b vs 0.

(** ** Socket I/O *)

Definition EVBUFFER_MAX_READ : Z := 4096.
Definition NUM_READ_IOVEC : Z := 4.
Definition NUM_WRITE_IOVEC : Z := 128.

(** What the kernel stores when [readv] delivers [d]. *)
Fixpoint fill_vecs (vs : list iovec) (d : list byte) (cs : list evbuffer_chain)
    : outcome (list evbuffer_chain) :=
  match vs with
  | [] => Done cs
  | v :: vs =>
      c ← deref (find_chain (iov_chain v) cs);
      m ← memwrite (iov_at v) (ztake (iov_len v) d) (buffer c);
      fill_vecs vs (zdrop (iov_len v) d) (put_chain (set_data c (misalign c) (off c) m) cs)
  end.

Definition vecs_capacity (vs : list iovec) : Z := foldr (fun v n => iov_len v + n) 0 vs.

(** The loop after [readv]: [n] vectors from [*chainp] on take [remaining]. *)
Fixpoint commit_read (n : nat) (pre cs : list evbuffer_chain) (remaining : Z) (p : option Z)
    : outcome (list evbuffer_chain * option Z) :=
  match n with
  | O => Done (pre ++ cs, p)
  | S n =>
      match cs with
      | [] => Crash
      | c :: cs =>
          let space := CHAIN_SPACE_LEN c in
          let space := if EVBUFFER_CHAIN_MAX <? space then EVBUFFER_CHAIN_MAX else space in
          if space <? remaining
          then commit_read n (pre ++ [set_off c (off c + space)]) cs (remaining - space) p
          else Done (pre ++ set_off c (off c + remaining) :: cs, next_ptr pre)
      end
  end.

(** [readv] answers a capacity with the bytes received, or [None] for -1. *)
Definition evbuffer_read (b : evbuffer) (fionread howmuch : Z) (readv : Z -> option (list byte))
    : M (Z * evbuffer) :=
  if freeze_end b then ret (-1, b) else
  let n := if (fionread <=? 0) || (EVBUFFER_MAX_READ <? fionread) then EVBUFFER_MAX_READ else fionread in
  let howmuch := if (howmuch <? 0) || (n <? howmuch) then n else howmuch in
  '(r, b) ← evbuffer_expand_fast_ b howmuch NUM_READ_IOVEC;
  if r =? -1 then ret (-1, b) else
  ov ← lift (evbuffer_read_setup_vecs_ b howmuch NUM_READ_IOVEC true);
  match ov with
  | None => ret (-1, b)
  | Some (vs, (pre, _)) =>
      match readv (vecs_capacity vs) with
      | None => ret (-1, b)
      | Some [] => ret (0, b)
      | Some d =>
          cs ← lift (fill_vecs vs d (chains b));
          '(cs, p) ← lift (commit_read (length vs) (ztake (zlen pre) cs) (zdrop (zlen pre) cs)
                             (zlen d) (last_with_datap b));
          b ← evbuffer_invoke_callbacks_ (count_added
                 (set_chains b cs (last b) p (u64 (total_len b + zlen d))) (zlen d));
          ret (zlen d, b)
      end
  end.

Fixpoint gather_vecs (n : nat) (cs : list evbuffer_chain) (howmuch : Z) : list iovec :=
  match n, cs with
  | S n, c :: tl =>
      if howmuch =? 0 then []
      else if has (flags c) EVBUFFER_SENDFILE then []
      else if off c <=? howmuch
      then mkVec (c_addr c) (misalign c) (off c) :: gather_vecs n tl (howmuch - off c)
      else [mkVec (c_addr c) (misalign c) howmuch]
  | _, _ => []
  end.

Fixpoint vecs_bytes (vs : list iovec) (cs : list evbuffer_chain) : outcome (list byte) :=
  match vs with
  | [] => Done []
  | v :: vs =>
      c ← deref (find_chain (iov_chain v) cs);
      d ← memread (iov_at v) (iov_len v) (buffer c);
      rest ← vecs_bytes vs cs;
      Done (d ++ rest)
  end.

(** [writev] answers the gathered bytes with the number taken, or -1; the
    bytes sent are the second component. *)
Definition evbuffer_write_iovec (b : evbuffer) (howmuch : Z) (writev : list byte -> Z)
    : outcome (Z * list byte) :=
  if howmuch <? 0 then Done (-1, []) else
  let vs := gather_vecs (Z.to_nat NUM_WRITE_IOVEC) (chains b) howmuch in
  match vs with
  | [] => Done (0, [])
  | _ => d ← vecs_bytes vs (chains b); Done (writev d, ztake (writev d) d)
  end.

(** [sendfile] is the number of bytes the kernel took from the file. *)
Definition evbuffer_write_atmost (b : evbuffer) (howmuch : Z) (writev : list byte -> Z) (sendfile : Z)
    : M (Z * list byte * evbuffer) :=
  if freeze_start b then ret (-1, [], b) else
  let howmuch := if (howmuch <? 0) || (total_len b <? howmuch) then i64 (total_len b) else howmuch in
  '(n, sent) ← lift
    (if 0 <? howmuch then
       match chains b with
       | c :: _ => if has (flags c) EVBUFFER_SENDFILE then Done (sendfile, [])
                   else evbuffer_write_iovec b howmuch writev
       | [] => evbuffer_write_iovec b howmuch writev
       end
     else Done (-1, []));
  if 0 <? n then '(_, b) ← evbuffer_drain b n; ret (n, sent, b) else ret (n, sent, b).

Definition evbuffer_write (b : evbuffer) (writev : list byte -> Z) (sendfile : Z)
    : M (Z * list byte * evbuffer) := evbuffer_write_atmost b (-1) writev sendfile.

(** ** Space *)

Lemma has_lor f a b : has f (Z.lor a b) = has f a || has f b.
Proof.
  unfold has. rewrite Z.land_lor_distr_r.
  destruct (Z.land f a =? 0) eqn:Ea, (Z.land f b =? 0) eqn:Eb; zb; cbn [negb orb];
    [|apply negb_true_iff, Z.eqb_neq; rewrite Z.lor_eq_0_iff; tauto..].
  by rewrite Ea, Eb.
Qed.

Lemma space_len c :
  chain_ok c -> has (flags c) EVBUFFER_IMMUTABLE = false ->
  CHAIN_SPACE_LEN c = buffer_len c - misalign c - off c.
Proof.
  intros [H1 H2 H3 H4 H5 _ _ _ _ _] Him. unfold CHAIN_SPACE_LEN. rewrite Him.
  change (EVBUFFER_CHAIN_MAX - EVBUFFER_CHAIN_SIZE) with 9223372036854775759 in H5.
  rewrite u64_small; lia.
Qed.

Lemma space_nonneg c : 0 <= CHAIN_SPACE_LEN c.
Proof. unfold CHAIN_SPACE_LEN. case_test; [done|apply u64_range]. Qed.

Lemma space_bound c : chain_ok c -> CHAIN_SPACE_LEN c <= EVBUFFER_CHAIN_MAX - EVBUFFER_CHAIN_SIZE.
Proof.
  intros Hok. destruct (has (flags c) EVBUFFER_IMMUTABLE) eqn:E.
  - unfold CHAIN_SPACE_LEN. by rewrite E.
  - rewrite space_len by done. destruct Hok. lia.
Qed.

Lemma fresh_space w size c : fresh_chain w size c -> size <= CHAIN_SPACE_LEN c.
Proof.
  intros [Ha Ho Hm Hf Hs Hok]. rewrite space_len; [lia|done|]. by rewrite Hf, has_0.
Qed.

Lemma fresh_bytes w size c : fresh_chain w size c -> chain_bytes c = [].
Proof. intros [_ Ho _ _ _ _]. unfold chain_bytes, zsub. by rewrite Ho, ztake_nonpos. Qed.

(** ** A chain added at the end *)

Lemma insert_new_spec w b datlen :
  wf w b -> 0 <= datlen ->
  exists oc b1 w1, evbuffer_chain_insert_new b datlen w = Done ((oc, b1), w1) /\
    effect w b w1 b1 (content b) /\
    (mm_fail w = [] -> datlen <= EVBUFFER_CHAIN_MAX - EVBUFFER_CHAIN_SIZE -> oc <> None) /\
    match oc with
    | None => True
    | Some c => fresh_chain w datlen c /\ exists k, chains b1 = k ++ [c]
    end.
Proof.
  intros Hwf Hd. unfold evbuffer_chain_insert_new.
  destruct (chain_new_spec datlen w Hd) as (oc & w1 & E1 & Hs & Hoc).
  rewrite (bind_done _ _ _ _ _ E1). destruct oc as [c|]; cycle 1.
  { exists None, b, w1. split_and!; auto. apply effect_later; [done|lia]. }
  destruct Hoc as [Hfr N1]. pose proof (wf_max w b Hwf). pose proof (fresh_bytes _ _ _ Hfr) as Hb.
  pose proof Hfr as [Ha Ho _ _ _ Hok].
  destruct (chain_insert_spec w w1 b c) as (b2 & w2 & E2 & Hwf2 & N2 & Hc2 & Ht2 & Hk & Hs2 & He2);
    [done|done|lia|lia|].
  rewrite (bind_done _ _ _ _ _ E2). exists (Some c), b2, w2. split; [done|].
  rewrite Hb, app_nil_r in Hc2. destruct Hk as (pre & post & _ & _ & _ & Hk & _).
  split_and!; eauto. split; auto. lia.
Qed.

(** The chain at the data point replaced by one at a fresh address with the
    same bytes. *)
Lemma swap_wf w w1 b pre c tl c' :
  wf w b -> chains b = pre ++ c :: tl -> last_with_datap b = next_ptr pre ->
  data_split pre (c :: tl) -> chain_ok c' -> mm_next w <= c_addr c' < mm_next w1 ->
  off c' = off c -> chain_bytes c' = chain_bytes c ->
  effect w b w1 (set_chains b (pre ++ c' :: tl)
      (if bool_decide (last b = Some (c_addr c)) then Some (c_addr c') else last b)
      (last_with_datap b) (total_len b)) (content b).
Proof.
  intros Hwf Hc Hp Hd Hok Ha Ho Hb. pose proof (fresh_not_in w b c' Hwf (proj1 Ha)) as Hn.
  destruct Hwf as [W1 W2 W3 W4 _ W6 W7]. split; simpl; auto; [| |lia].
  - pose proof (nodup_mid pre c tl) as Hnm. rewrite Hc in *. destruct (Hnm W2) as [Hn1 Hn2].
    constructor; simpl; auto.
    + rewrite Forall_app, Forall_cons in *. naive_solver.
    + rewrite fmap_app in *. cbn [fmap list_fmap] in *. rewrite NoDup_app, NoDup_cons in *.
      set_solver.
    + rewrite Forall_app, Forall_cons in *. destruct W3 as (? & ? & ?).
      split_and!; [eapply Forall_impl; eauto; simpl; lia|lia|eapply Forall_impl; eauto; simpl; lia].
    + rewrite W4. destruct tl as [|d tl _] using rev_ind.
      * rewrite !last_snoc. simpl. by rewrite bool_decide_true.
      * rewrite !app_comm_cons, !app_assoc, !last_snoc. simpl.
        rewrite bool_decide_false; [done|]. intros [= Heq]. apply Hn2. rewrite <- Heq, fmap_app. set_solver.
    + exists pre, (c' :: tl). split_and!; auto. inversion Hd; subst. constructor; [done|]. rewrite Ho. done.
    + rewrite W6, !sum_off_app. simpl. lia.
  - unfold content. simpl. rewrite Hc, !content_app. cbn [fmap list_fmap concat]. by rewrite Hb.
Qed.

Definition expanded (w : mm) (b : evbuffer) (datlen : Z) (r : option evbuffer_chain * evbuffer) (w' : mm) : Prop :=
  effect w b w' r.2 (content b) /\
  (mm_fail w = [] -> datlen + MAX_TO_COPY_IN_EXPAND <= EVBUFFER_CHAIN_MAX - EVBUFFER_CHAIN_SIZE -> r.1 <> None) /\
  match r.1 with
  | None => True
  | Some c => datlen <= CHAIN_SPACE_LEN c /\
      exists pre tl, chains r.2 = pre ++ c :: tl /\ Forall (fun d => off d = 0) tl
  end.

Lemma expand_insert w b datlen :
  wf w b -> 0 <= datlen ->
  exists r w', evbuffer_chain_insert_new b datlen w = Done (r, w') /\ expanded w b datlen r w'.
Proof.
  intros Hwf Hd. destruct (insert_new_spec w b datlen Hwf Hd) as (oc & b1 & w1 & E & He & Hs & Hoc).
  exists (oc, b1), w1. split; [done|]. split; [done|]. split.
  - intros Hf Hm. apply Hs; [done|]. unfold MAX_TO_COPY_IN_EXPAND in Hm. lia.
  - destruct oc as [c|]; [|done]. destruct Hoc as [Hfr [k Hk]]. simpl.
    split; [by eapply fresh_space|]. exists k, []. split; [done|constructor].
Qed.

Lemma expand_resize_spec w b pre c tl datlen :
  wf w b -> 0 <= datlen -> chains b = pre ++ c :: tl -> last_with_datap b = next_ptr pre ->
  data_split pre (c :: tl) -> off c <= MAX_TO_COPY_IN_EXPAND ->
  exists r w', expand_resize b pre c tl datlen w = Done (r, w') /\ expanded w b datlen r w'.
Proof.
  intros Hwf Hd Hc Hp Hds Hsm. unfold expand_resize.
  pose proof (wf_chains w b Hwf) as Hcs. rewrite Hc, Forall_app, Forall_cons in Hcs.
  destruct Hcs as (_ & Hck & _). pose proof Hck as [H1 H2 H3 H4 _ _ _ _ _ _].
  destruct (chain_new_spec (off c + datlen) w) as (oc & w1 & E1 & Hs & Hoc); [lia|].
  rewrite (bind_done _ _ _ _ _ E1). destruct oc as [tmp|]; cycle 1.
  { exists (None, b), w1. split; [done|]. split; [apply effect_later; [done|simpl in Hoc; lia]|].
    split; [|done]. intros Hf Hm. apply Hs; [done|lia]. }
  destruct Hoc as [Hfr N1]. rewrite memread_done by lia. mstep.
  pose proof (chain_bytes_len c Hck) as Hl. fold (chain_bytes c).
  pose proof (fc_size _ _ _ Hfr). pose proof (fc_addr _ _ _ Hfr) as Ha.
  destruct (fresh_fill w _ tmp (chain_bytes c) 0 Hfr) as (m & -> & Hok & Hb); [lia|lia|]. mstep.
  rewrite (fc_mis _ _ _ Hfr). rewrite Hl in *. set (tmp' := set_data tmp 0 (off c) m) in *.
  destruct (chain_free_spec c w1 Hck) as (w2 & E2 & N2). rewrite (bind_done _ _ _ _ _ E2).
  eexists _, w2. split; [reflexivity|]. split; [|split; [done|]]; simpl.
  - apply (swap_wf w w2 b pre c tl tmp'); auto. simpl. lia.
  - split.
    + rewrite space_len; [simpl; lia|done|simpl; by rewrite (fc_flags _ _ _ Hfr), has_0].
    + exists pre, tl. split; [done|]. by inversion Hds.
Qed.

(** Storing a chain with the same bytes. *)
Lemma store_chain_spec w b pre c tl c' :
  wf w b -> chains b = pre ++ c :: tl -> last_with_datap b = next_ptr pre ->
  data_split pre (c :: tl) -> c_addr c' = c_addr c -> chain_ok c' -> off c' = off c ->
  chain_bytes c' = chain_bytes c ->
  effect w b w (store_chain b c') (content b) /\ chains (store_chain b c') = pre ++ c' :: tl.
Proof.
  intros Hwf Hc Hp Hd Ha Hok Ho Hb. pose proof (wf_nodup w b Hwf) as Hnd. rewrite Hc in Hnd.
  assert (Hcs : chains (store_chain b c') = pre ++ c' :: tl)
    by (unfold store_chain; simpl; rewrite Hc; by apply put_chain_mid).
  split; [|done]. split; auto; [|unfold content; rewrite Hcs, Hc, !content_app; cbn [fmap list_fmap concat];
    by rewrite Hb|lia].
  apply (wf_replace w b pre c tl); auto; [|apply Hwf|].
  - rewrite (wf_total w b Hwf), Hc, !sum_off_app. simpl. lia.
  - exists pre, (c' :: tl). split_and!; auto. inversion Hd; subst. constructor; [done|]. by rewrite Ho.
Qed.

Lemma space_checked datlen r w' w b :
  expanded w b datlen r w' -> check_space datlen r w' = Done (r, w').
Proof.
  intros (_ & _ & H). destruct r as [[c|] b1]; [|done]. simpl in *.
  destruct H as [H _]. by rewrite (proj2 (Z.leb_le _ _)).
Qed.

Lemma evbuffer_expand_singlechain_spec w b datlen :
  wf w b -> 0 <= datlen ->
  exists r w', evbuffer_expand_singlechain b datlen w = Done (r, w') /\ expanded w b datlen r w'.
Proof.
  intros Hwf Hd. unfold evbuffer_expand_singlechain, cut_datap.
  destruct (wf_cut w b Hwf) as (pre & post & -> & Hc & Hp & Hds). mstep.
  pose proof (wf_chains w b Hwf) as Hcs. rewrite Hc in Hcs.
  destruct (skip_full pre post) as [pre' post'] eqn:Esk.
  assert (Hins : forall b' : evbuffer, exists r w', (r ← evbuffer_chain_insert_new b datlen;
     check_space datlen r) w = Done (r, w') /\ expanded w b datlen r w').
  { intros _. destruct (expand_insert w b datlen Hwf Hd) as (r & w' & E & He).
    exists r, w'. rewrite (bind_done _ _ _ _ _ E). split; [by eapply space_checked|done]. }
  destruct post' as [|c tl]; [apply Hins; done|].
  destruct (has (flags c) _) eqn:Hfl; [apply Hins; done|].
  rewrite has_lor in Hfl. apply orb_false_iff in Hfl as [Him _].
  (* either the chain at the data point, or the empty one behind it *)
  assert (Hcase : (pre' = pre /\ post = c :: tl) \/ (off c = 0 /\ exists k, pre' = pre ++ [k] /\ post = k :: c :: tl)).
  { unfold skip_full in Esk. destruct post as [|k t]; [done|]. inversion Hds as [|? ? ? Hz Hpre]; subst.
    case_test_in Esk; simplify_eq; [right|by left]. apply Forall_cons in Hz as [Hz _]. eauto. }
  assert (Hck : chain_ok c).
  { destruct Hcase as [[-> ->]|(_ & k & _ & ->)]; rewrite Forall_app, !Forall_cons in Hcs; tauto. }
  assert (Htl : Forall (fun d => off d = 0) tl).
  { destruct Hcase as [[-> ->]|(_ & k & _ & ->)]; inversion Hds as [|? ? ? Hz Hpre]; subst; [done|].
    by apply Forall_cons in Hz as [_ Hz]. }
  assert (Hret : forall d k t, chains b = k ++ d :: t -> Forall (fun d => off d = 0) t ->
    datlen <= CHAIN_SPACE_LEN d ->
    exists r w', (r ← ret (Some d, b); check_space datlen r) w = Done (r, w') /\ expanded w b datlen r w').
  { intros d k t Hk Ht Hsp. assert (He : expanded w b datlen (Some d, b) w).
    { split; [by apply effect_refl|]. simpl. split; [done|eauto]. }
    exists (Some d, b), w. mstep. split; [by eapply space_checked|done]. }
  destruct (datlen <=? CHAIN_SPACE_LEN c) eqn:Efit; zb.
  { destruct Hcase as [[-> ->]|(_ & k & -> & ->)]; [by eapply Hret|].
    apply (Hret c (pre ++ [k]) tl); auto. by rewrite <- app_assoc. }
  destruct (off c =? 0) eqn:Eo; zb; [apply Hins; done|].
  destruct Hcase as [[-> ->]|(? & _)]; [|lia].
  assert (Hfin : forall m, (exists r w', m w = Done (r, w') /\ expanded w b datlen r w') ->
    exists r w', (r ← m; check_space datlen r) w = Done (r, w') /\ expanded w b datlen r w').
  { intros m (r & w' & E & He). exists r, w'. rewrite (bind_done _ _ _ _ _ E).
    split; [by eapply space_checked|done]. }
  clear Hins. apply Hfin. clear Hfin.
  destruct (evbuffer_chain_should_realign c datlen) eqn:Ere.
  { destruct (chain_align_spec c Hck Him) as (c1 & -> & Hok1 & Ha1 & Hb1 & Ho1 & Hf1 & Hm1 & Hl1).
    mstep. destruct (store_chain_spec w b pre c tl c1) as [He Hcs1]; auto.
    eexists _, w. split; [reflexivity|]. split; [done|]. split; [done|]. simpl.
    unfold evbuffer_chain_should_realign in Ere. zb.
    rewrite space_len by (auto; congruence). split; [|eauto].
    destruct Hck. change (EVBUFFER_CHAIN_MAX - EVBUFFER_CHAIN_SIZE) with 9223372036854775759 in *.
    rewrite u64_small in * by lia. lia. }
  destruct (_ || _) eqn:Ew.
  - destruct tl as [|d t]; [by apply expand_insert|].
    destruct (datlen <=? CHAIN_SPACE_LEN d) eqn:Ed; zb; [|by apply expand_insert].
    eexists _, w. split; [reflexivity|]. split; [by apply effect_refl|]. simpl. split; [done|].
    split; [done|]. exists (pre ++ [c]), t. rewrite <- app_assoc. split; [done|].
    by apply Forall_cons in Htl as [_ ?].
  - zb. apply expand_resize_spec; auto.
Qed.

Lemma data_split_tail pre x t : data_split pre (x :: t) -> Forall (fun d => off d = 0) t.
Proof. intros H. by inversion H. Qed.

(** A chain with data, and the chains in front of it, lie at or before the
    data point. *)
Lemma front_before pre post k c rest :
  pre ++ post = k ++ c :: rest -> data_split pre post -> 0 < off c ->
  exists m, pre = k ++ m /\ c :: rest = m ++ post.
Proof.
  intros Happ Hd Hc. destruct (app_eq_inv _ _ _ _ Happ) as [(m & -> & Hm)|(m & -> & Hm)]; [eauto|].
  destruct m as [|x m]; [exists []; by rewrite !app_nil_r|].
  simpl in Hm. rewrite Hm in Hd. apply data_split_tail in Hd as Hz.
  rewrite Forall_app, Forall_cons in Hz. lia.
Qed.

(** ** Growth without copying *)

(** Space in the first [n] chains. *)
Definition room (n : nat) (cs : list evbuffer_chain) : Z :=
  foldr (fun c s => CHAIN_SPACE_LEN c + s) 0 (take n cs).

Lemma room_nonneg n cs : 0 <= room n cs.
Proof.
  unfold room. generalize (take n cs). induction l as [|c l IH]; simpl; [lia|].
  pose proof (space_nonneg c). lia.
Qed.

Lemma room_S n c cs : room (S n) (c :: cs) = CHAIN_SPACE_LEN c + room n cs.
Proof. done. Qed.

Lemma room_snoc n cs c : (length cs < n)%nat -> room n (cs ++ [c]) = room n cs + CHAIN_SPACE_LEN c.
Proof.
  revert n. induction cs as [|d cs IH]; intros [|n] Hl; simpl in Hl; try lia.
  - cbn [app]. rewrite room_S. unfold room. rewrite !take_nil. simpl. lia.
  - cbn [app]. rewrite !room_S, IH by lia. lia.
Qed.

(** A chain as the scan leaves it. *)
Record rescanned (c c' : evbuffer_chain) : Prop := {
  rs_addr : c_addr c' = c_addr c;
  rs_off : off c' = off c;
  rs_ok : chain_ok c';
  rs_flags : flags c' = flags c;
  rs_bytes : chain_bytes c' = chain_bytes c
}.

Lemma empty_mutable c : chain_ok c -> off c = 0 -> has (flags c) EVBUFFER_IMMUTABLE = false.
Proof.
  intros Hok Ho. destruct (has (flags c) EVBUFFER_IMMUTABLE) eqn:E; [|done].
  pose proof (ck_imm c Hok E). lia.
Qed.

Lemma realign_empty c :
  chain_ok c -> off c = 0 ->
  let c' := set_data c 0 (off c) (buffer c) in
  rescanned c c' /\ CHAIN_SPACE_LEN c' = buffer_len c /\ 0 < buffer_len c.
Proof.
  intros Hok Ho c'. pose proof (empty_mutable c Hok Ho) as Him.
  assert (Hok' : chain_ok c') by (destruct Hok; constructor; simpl; auto; lia).
  split; [|split].
  - split; auto. unfold chain_bytes, zsub. simpl. by rewrite Ho, !ztake_nonpos.
  - rewrite space_len by done. simpl. lia.
  - by apply ck_mut.
Qed.

Lemma rescanned_refl c : chain_ok c -> rescanned c c.
Proof. by split. Qed.

Lemma rescanned_all cs : Forall chain_ok cs -> Forall2 rescanned cs cs.
Proof. induction 1; constructor; auto using rescanned_refl. Qed.

(** The scan over the empty chains behind the data point. *)
Lemma scan_tail cs datlen n used avail :
  Forall chain_ok cs -> Forall (fun c => off c = 0) cs ->
  0 <= avail < datlen -> datlen <= EV_SSIZE_MAX -> used < n ->
  exists cs' r, scan_space cs false datlen n used avail = Done (cs', r) /\ Forall2 rescanned cs cs' /\
    match r with
    | ScanEnough => datlen <= avail + room (Z.to_nat (n - used)) cs'
    | ScanFull => True
    | ScanShort a => a < datlen /\ a = avail + room (Z.to_nat (n - used)) cs' /\
                     (length cs' < Z.to_nat (n - used))%nat
    end.
Proof.
  intros Hok. revert used avail. induction Hok as [|c cs Hc Hcs IH]; intros used avail Hz Ha Hd Hu.
  { exists [], (ScanShort avail). split_and!; auto; unfold room; rewrite ?take_nil; simpl; lia. }
  apply Forall_cons in Hz as [Ho Hz]. cbn [scan_space].
  rewrite (proj2 (Z.eqb_eq _ _) Ho). cbn [negb].
  destruct (realign_empty c Hc Ho) as (Hrs & Hsp & Hpos). pose proof (ck_max c Hc) as Hmax.
  change (EVBUFFER_CHAIN_MAX - EVBUFFER_CHAIN_SIZE) with 9223372036854775759 in Hmax.
  unfold EV_SSIZE_MAX in Hd. cbn [mbind outcome_bind]. rewrite u64_small by lia.
  rewrite Ho in Hrs, Hsp |- *. set (c' := set_data c 0 0 (buffer c)) in *.
  destruct (datlen <=? avail + buffer_len c) eqn:E1; zb.
  { eexists _, ScanEnough. split; [done|]. split; [by constructor; [|apply rescanned_all]|].
    destruct (Z.to_nat (n - used)) as [|k] eqn:Ek; [lia|]. rewrite room_S.
    pose proof (room_nonneg k cs). lia. }
  destruct (used + 1 =? n) eqn:E2; zb.
  { eexists _, ScanFull. split; [done|]. split; [by constructor; [|apply rescanned_all]|done]. }
  destruct (IH (used + 1) (avail + buffer_len c)) as (cs' & r & -> & Hall & Hr); auto; try lia.
  exists (c' :: cs'), r. split; [done|]. split; [by constructor|].
  replace (Z.to_nat (n - used)) with (S (Z.to_nat (n - (used + 1)))) by lia.
  destruct r; simpl length; rewrite ?room_S; [lia|done|]. destruct Hr as (? & ? & ?). split_and!; lia.
Qed.

(** The scan from the data point: what it finds in the chains with space. *)
Lemma scan_head pre c tl datlen n :
  chain_ok c -> Forall chain_ok tl -> Forall (fun d => off d = 0) tl ->
  0 <= datlen <= EV_SSIZE_MAX -> 2 <= n ->
  exists cs' r, scan_space (c :: tl) true datlen n 0 0 = Done (cs', r) /\
    Forall2 rescanned (c :: tl) cs' /\
    match r with
    | ScanEnough => datlen <= room (Z.to_nat n) (skip_full pre cs').2
    | ScanFull => match cs' with c' :: _ => CHAIN_SPACE_LEN c' < datlen | [] => True end
    | ScanShort a => a < datlen /\ a = room (Z.to_nat n) (skip_full pre cs').2 /\
                     (length (skip_full pre cs').2 < Z.to_nat n)%nat
    end.
Proof.
  intros Hc Htl Hz Hd Hn. unfold EV_SSIZE_MAX in Hd.
  assert (Hhead : exists c' used avail, scan_space (c :: tl) true datlen n 0 0 =
      (if datlen <=? avail then Done (c' :: tl, ScanEnough)
       else if used =? n then Done (c' :: tl, ScanFull)
       else '(tl, r) ← scan_space tl false datlen n used avail; Done (c' :: tl, r)) /\
      rescanned c c' /\ avail = CHAIN_SPACE_LEN c' /\ used = (if CHAIN_SPACE_LEN c' =? 0 then 0 else 1)).
  { cbn [scan_space]. destruct (off c =? 0) eqn:Eo; zb; cbn [negb].
    - destruct (realign_empty c Hc Eo) as (Hrs & Hsp & Hpos). pose proof (ck_max c Hc) as Hmax.
      change (EVBUFFER_CHAIN_MAX - EVBUFFER_CHAIN_SIZE) with 9223372036854775759 in Hmax.
      cbn [mbind outcome_bind]. rewrite u64_small by lia.
      eexists _, _, _. split; [reflexivity|]. split_and!; auto.
      rewrite (proj2 (Z.eqb_neq _ _)) by lia. done.
    - pose proof (space_nonneg c). pose proof (space_bound c Hc) as Hb.
      change (EVBUFFER_CHAIN_MAX - EVBUFFER_CHAIN_SIZE) with 9223372036854775759 in Hb.
      cbn [assert_c mbind outcome_bind]. destruct (CHAIN_SPACE_LEN c =? 0) eqn:Es; zb; cbn [negb].
      + eexists c, 0, 0. split; [done|]. rewrite Es. split_and!; auto using rescanned_refl.
      + rewrite u64_small by lia. eexists c, 1, _. split; [reflexivity|].
        rewrite (proj2 (Z.eqb_neq _ _) Es). split_and!; auto using rescanned_refl. }
  destruct Hhead as (c' & used & avail & -> & Hrs & -> & ->).
  pose proof (space_nonneg c').
  assert (Hroom : forall t, room (Z.to_nat n) (skip_full pre (c' :: t)).2 =
    CHAIN_SPACE_LEN c' + room (Z.to_nat (n - (if CHAIN_SPACE_LEN c' =? 0 then 0 else 1))) t).
  { intros t. unfold skip_full. destruct (CHAIN_SPACE_LEN c' =? 0) eqn:Es; zb; simpl.
    - rewrite Es, Z.sub_0_r. lia.
    - replace (Z.to_nat n) with (S (Z.to_nat (n - 1))) by lia. by rewrite room_S. }
  destruct (datlen <=? CHAIN_SPACE_LEN c') eqn:E1; zb.
  { eexists _, ScanEnough. split; [done|]. split; [by constructor; [|apply rescanned_all]|].
    rewrite Hroom. pose proof (room_nonneg (Z.to_nat (n - (if CHAIN_SPACE_LEN c' =? 0 then 0 else 1))) tl). lia. }
  rewrite (proj2 (Z.eqb_neq _ _)) by (case_test; lia).
  destruct (scan_tail tl datlen n (if CHAIN_SPACE_LEN c' =? 0 then 0 else 1) (CHAIN_SPACE_LEN c'))
    as (cs' & r & -> & Hall & Hr); auto; [unfold EV_SSIZE_MAX; lia|case_test; lia|].
  exists (c' :: cs'), r. split; [done|]. split; [by constructor|].
  destruct r; rewrite ?Hroom; [done..|].
  destruct Hr as (? & ? & Hlen). split_and!; auto. unfold skip_full.
  destruct (CHAIN_SPACE_LEN c' =? 0) eqn:Es; simpl; lia.
Qed.

Lemma rescanned_lists post post' :
  Forall2 rescanned post post' ->
  Forall chain_ok post' /\ c_addr <$> post' = c_addr <$> post /\ sum_off post' = sum_off post /\
  concat (chain_bytes <$> post') = concat (chain_bytes <$> post) /\
  (Forall (fun d => off d = 0) post -> Forall (fun d => off d = 0) post').
Proof.
  induction 1 as [|c c' l l' [Ha Ho Hok Hf Hb] _ (I1 & I2 & I3 & I4 & I5)]; [done|].
  cbn [fmap list_fmap concat sum_off foldr]. fold (sum_off l) (sum_off l').
  split_and!; [by constructor|congruence|lia|congruence|].
  rewrite !Forall_cons. intros [? ?]. split; [lia|auto].
Qed.

Lemma last_addr cs ds : c_addr <$> cs = c_addr <$> ds -> c_addr <$> list.last cs = c_addr <$> list.last ds.
Proof. intros H. by rewrite <- !fmap_last, H. Qed.

Lemma rescan_wf w b pre post post' :
  wf w b -> chains b = pre ++ post -> last_with_datap b = next_ptr pre -> data_split pre post ->
  Forall2 rescanned post post' ->
  effect w b w (set_chains b (pre ++ post') (last b) (last_with_datap b) (total_len b)) (content b) /\
  data_split pre post'.
Proof.
  intros [W1 W2 W3 W4 _ W6 W7] Hc Hp Hd Hr.
  destruct (rescanned_lists post post' Hr) as (R1 & R2 & R3 & R4 & R5).
  assert (Hd' : data_split pre post').
  { destruct Hd as [|pre c tl Hz Hpre]; inversion Hr as [|? c' ? tl' Hrc Hrt]; subst; [constructor|].
    constructor; [by apply (rescanned_lists tl tl' Hrt)|]. rewrite (rs_off _ _ Hrc). done. }
  assert (Haddr : c_addr <$> (pre ++ post') = c_addr <$> (pre ++ post)) by (by rewrite !fmap_app, R2).
  split; [|done]. rewrite Hc in *. split; simpl; auto; [|unfold content; simpl; by rewrite Hc, !content_app, R4|lia].
  constructor; simpl; auto.
  - rewrite Forall_app in *. tauto.
  - by rewrite Haddr.
  - rewrite <- (Forall_fmap c_addr (fun a => a < mm_next w)) in W3 |- *. by rewrite Haddr.
  - rewrite W4. by apply last_addr.
  - exists pre, post'. done.
  - rewrite W6, !sum_off_app. lia.
Qed.

(** A list with a shorter or replaced empty tail. *)
Lemma retail_wf w w1 b pre post k :
  wf w b -> mm_next w <= mm_next w1 -> chains b = pre ++ post -> data_split pre post ->
  data_split pre k -> Forall chain_ok k ->
  NoDup (c_addr <$> (pre ++ k)) -> Forall (fun c => c_addr c < mm_next w1) k ->
  sum_off k = sum_off post -> concat (chain_bytes <$> k) = concat (chain_bytes <$> post) ->
  effect w b w1 (set_chains b (pre ++ k) (c_addr <$> list.last (pre ++ k)) (next_ptr pre) (total_len b))
    (content b).
Proof.
  intros [W1 W2 W3 W4 _ W6 W7] Hn Hc _ Hd Hok Hnd Hf Hs Hb. rewrite Hc in *.
  split; simpl; auto; [|unfold content; simpl; by rewrite Hc, !content_app, Hb].
  constructor; simpl; auto.
  - rewrite Forall_app in *. tauto.
  - rewrite Forall_app in *. split; [|done]. destruct W3 as [W3 _].
    eapply Forall_impl; [exact W3|]. simpl. lia.
  - by exists pre, k.
  - rewrite W6, !sum_off_app. lia.
Qed.

Definition roomy (b : evbuffer) (n : nat) (datlen : Z) : Prop :=
  exists pre post, chains b = pre ++ post /\ last_with_datap b = next_ptr pre /\
    data_split pre post /\ post <> [] /\ datlen <= room n (skip_full pre post).2.

Definition expanded_fast (w : mm) (b : evbuffer) (datlen n : Z) (r : Z) (w' : mm) (b' : evbuffer) : Prop :=
  effect w b w' b' (content b) /\ (r = 0 /\ roomy b' (Z.to_nat n) datlen \/ r = -1).

Lemma fresh_not_in_list w b k c :
  wf w b -> (exists l, chains b = k ++ l) -> mm_next w <= c_addr c -> c_addr c ∉ c_addr <$> k.
Proof.
  intros Hwf [l Hl] Hc Hin. apply (fresh_not_in w b c Hwf Hc). rewrite Hl, fmap_app. set_solver.
Qed.

Lemma snoc_split pre c tl d :
  data_split pre (c :: tl) -> off d = 0 -> data_split pre (c :: tl ++ [d]).
Proof.
  intros Hd Ho. inversion Hd; subst. constructor; [|done].
  apply Forall_app. split; [done|]. by apply Forall_singleton.
Qed.

Lemma room_skip_snoc pre c tl d n m :
  (length (skip_full pre (c :: tl)).2 < n)%nat -> m <= CHAIN_SPACE_LEN d ->
  room n (skip_full pre (c :: tl)).2 + m <= room n (skip_full pre (c :: tl ++ [d])).2.
Proof.
  intros Hl Hm. unfold skip_full in *. destruct (CHAIN_SPACE_LEN c =? 0); cbn [snd] in *.
  - rewrite room_snoc by done. lia.
  - rewrite app_comm_cons, room_snoc by done. lia.
Qed.

Lemma all_empty_true cs : Forall (fun d => off d = 0) cs -> evbuffer_chains_all_empty cs = true.
Proof.
  intros H. apply forallb_forall. intros x Hx. apply Z.eqb_eq.
  rewrite Forall_forall in H. apply H, list_elem_of_In, Hx.
Qed.

Lemma expand_replace_spec w b pre c tl datlen n :
  wf w b -> chains b = pre ++ c :: tl -> last_with_datap b = next_ptr pre ->
  data_split pre (c :: tl) -> 0 <= datlen -> 2 <= n ->
  (off c <> 0 -> CHAIN_SPACE_LEN c < datlen) ->
  exists r b' w', expand_replace b pre (c :: tl) datlen w = Done ((r, b'), w') /\
    expanded_fast w b datlen n r w' b'.
Proof.
  intros Hwf Hc Hp Hds Hd Hn Hsp. inversion Hds as [|? ? ? Hz Hpre]; subst.
  pose proof (wf_chains w b Hwf) as Hcs. pose proof (wf_nodup w b Hwf) as Hnd.
  pose proof (wf_fresh w b Hwf) as Hfr. rewrite Hc, Forall_app, Forall_cons in Hcs, Hfr.
  destruct Hcs as (Hokp & Hck & Htl). destruct Hfr as (_ & Hfc & _).
  destruct (empty_content tl Htl Hz) as [Etl Estl]. rewrite Hc in Hnd.
  unfold expand_replace. destruct (off c =? 0) eqn:Eo; zb.
  - assert (pre = []) as -> by auto. rewrite bool_decide_true by done.
    rewrite all_empty_true by (by constructor). mstep.
    destruct (free_all_spec (c :: tl) w) as (w1 & E1 & N1); [by constructor|].
    rewrite (bind_done _ _ _ _ _ E1).
    destruct (chain_new_spec datlen w1 Hd) as (oc & w2 & E2 & _ & Hoc).
    rewrite (bind_done _ _ _ _ _ E2).
    destruct (empty_content (c :: tl)) as [Ebs Es]; [by constructor..|].
    assert (Hre : forall k w', mm_next w <= mm_next w' -> data_split [] k -> Forall chain_ok k ->
      NoDup (c_addr <$> k) -> Forall (fun c => c_addr c < mm_next w') k -> sum_off k = 0 ->
      concat (chain_bytes <$> k) = [] ->
      effect w b w' (set_chains b k (c_addr <$> list.last k) None (total_len b)) (content b)).
    { intros k w' ???????. apply (retail_wf w w' b [] (c :: tl) k); auto; congruence. }
    assert (Ht0 : total_len b = 0) by (by rewrite (wf_total w b Hwf), Hc).
    destruct oc as [tmp|].
    + destruct Hoc as [Hf N2]. pose proof Hf as [Ha Ho Hm Hfl Hs Hok].
      eexists _, _, w2. split; [reflexivity|]. split.
      * rewrite <- Ht0 at 1 || idtac. apply (Hre [tmp]); try lia.
        -- constructor; [constructor|done].
        -- by apply Forall_singleton.
        -- apply NoDup_singleton.
        -- apply Forall_singleton. lia.
        -- simpl. lia.
        -- simpl. by rewrite (fresh_bytes _ _ _ Hf).
      * left. split; [done|]. exists [], [tmp]. split_and!; auto; [constructor; [constructor|done]|].
        pose proof (fresh_space _ _ _ Hf). unfold skip_full.
        destruct (CHAIN_SPACE_LEN tmp =? 0) eqn:E0; zb; cbn [snd]; [pose proof (room_nonneg (Z.to_nat n) []); lia|].
        replace (Z.to_nat n) with (S (Z.to_nat (n - 1))) by lia. rewrite room_S.
        pose proof (room_nonneg (Z.to_nat (n - 1)) []). lia.
    + eexists _, _, w2. split; [reflexivity|]. split; [|by right].
      unfold ZERO_CHAIN. rewrite <- Ht0. apply (Hre []); try done; [lia|constructor|constructor].
  - rewrite all_empty_true by done. mstep.
    destruct (free_all_spec tl w Htl) as (w1 & E1 & N1). rewrite (bind_done _ _ _ _ _ E1).
    specialize (Hsp Eo). rewrite (proj2 (Z.leb_le _ _)) by lia. mstep.
    destruct (chain_new_spec (datlen - CHAIN_SPACE_LEN c) w1) as (oc & w2 & E2 & _ & Hoc); [lia|].
    rewrite (bind_done _ _ _ _ _ E2). rewrite Hp.
    replace (pre ++ c :: tl) with ((pre ++ [c]) ++ tl) in * by (by rewrite <- app_assoc).
    assert (Hndc : NoDup (c_addr <$> (pre ++ [c]))) by (exact (nodup_prefix _ _ tl eq_refl Hnd)).
    destruct oc as [tmp|].
    + destruct Hoc as [Hf N2]. pose proof Hf as [Ha Ho Hm Hfl Hs Hok].
      eexists _, _, w2. split; [reflexivity|]. split.
      * replace (Some (c_addr tmp)) with (c_addr <$> list.last (pre ++ [c; tmp]))
          by (replace (pre ++ [c; tmp]) with ((pre ++ [c]) ++ [tmp]) by (by rewrite <- app_assoc);
              by rewrite last_snoc).
        apply (retail_wf w w2 b pre (c :: tl)); auto; try lia.
        -- by rewrite Hc, <- app_assoc.
        -- apply (snoc_split pre c []); [by constructor|done].
        -- replace (pre ++ [c; tmp]) with ((pre ++ [c]) ++ [tmp]) by (by rewrite <- app_assoc).
           apply nodup_snoc; [done|]. eapply (fresh_not_in_list w b); [done|by eexists|lia].
        -- do 2 (apply Forall_cons; split; [lia|]). constructor.
        -- simpl. lia.
        -- cbn [fmap list_fmap concat]. by rewrite (fresh_bytes _ _ _ Hf), Etl.
      * left. split; [done|]. exists pre, [c; tmp]. split_and!; auto;
          [apply (snoc_split pre c []); [by constructor|done]|].
        pose proof (fresh_space _ _ _ Hf).
        pose proof (room_skip_snoc pre c [] tmp (Z.to_nat n) (datlen - CHAIN_SPACE_LEN c)) as Hr.
        simpl app in Hr. unfold skip_full in *.
        destruct (CHAIN_SPACE_LEN c =? 0) eqn:E0; zb; cbn [snd length] in *.
        -- pose proof (room_nonneg (Z.to_nat n) []). specialize (Hr ltac:(lia) ltac:(lia)). lia.
        -- specialize (Hr ltac:(lia) ltac:(lia)).
           replace (Z.to_nat n) with (S (Z.to_nat (n - 1))) in * by lia. rewrite room_S in Hr at 1.
           pose proof (room_nonneg (Z.to_nat (n - 1)) []). lia.
    + eexists _, _, w2. split; [reflexivity|]. split; [|by right].
      replace (Some (c_addr c)) with (c_addr <$> list.last (pre ++ [c])) by (by rewrite last_snoc).
      apply (retail_wf w w2 b pre (c :: tl)); auto; try lia.
      * by rewrite Hc, <- app_assoc.
      * by constructor.
      * apply Forall_singleton. lia.
      * simpl. lia.
      * cbn [fmap list_fmap concat]. by rewrite Etl.
Qed.

(** The case with no last chain or one that cannot be written. *)
Lemma expand_fast_insert w b datlen n :
  wf w b -> 0 <= datlen -> 2 <= n ->
  (forall c, list.last (chains b) = Some c -> has (flags c) EVBUFFER_IMMUTABLE = true) ->
  exists r b' w', (oc ← evbuffer_chain_new datlen;
      match oc with None => ret (-1, b) | Some c => b ← evbuffer_chain_insert b c; ret (0, b) end) w
    = Done ((r, b'), w') /\ expanded_fast w b datlen n r w' b'.
Proof.
  intros Hwf Hd Hn Hlast.
  destruct (chain_new_spec datlen w Hd) as (oc & w1 & E1 & _ & Hoc).
  rewrite (bind_done _ _ _ _ _ E1). destruct oc as [c|]; cycle 1.
  { exists (-1), b, w1. split; [done|]. split; [apply effect_later; [done|lia]|by right]. }
  destruct Hoc as [Hfr N1]. pose proof (wf_max w b Hwf). pose proof (fresh_bytes _ _ _ Hfr) as Hb.
  pose proof Hfr as [Ha Ho _ _ _ Hok]. pose proof (fresh_space _ _ _ Hfr) as Hsp.
  destruct (chain_insert_spec w w1 b c) as (b2 & w2 & E2 & Hwf2 & N2 & Hc2 & Ht2 & Hk & Hs2 & He2);
    [done|done|lia|lia|].
  rewrite (bind_done _ _ _ _ _ E2). exists 0, b2, w2. split; [done|].
  rewrite Hb, app_nil_r in Hc2. split; [split; auto; lia|]. left. split; [done|].
  destruct Hk as (pre & post & Hc & Hp & Hds & Hc2' & Hp2). specialize (Hp2 Ho).
  replace (Z.to_nat n) with (S (Z.to_nat (n - 1))) by lia.
  pose proof (room_nonneg (Z.to_nat (n - 1)) []). pose proof (room_nonneg (S (Z.to_nat (n - 1))) []).
  assert (Hroom : datlen <= room (S (Z.to_nat (n - 1))) [c]) by (rewrite room_S; lia).
  inversion Hds as [|? h t Hz Hpre]; subst.
  - exists [], [c]. split_and!; auto; [by constructor|]. unfold skip_full.
    destruct (CHAIN_SPACE_LEN c =? 0) eqn:E0; zb; simpl; [lia|done].
  - (* the last chain is immutable, so it holds data: it is the data point *)
    pose proof (wf_chains w b Hwf) as Hcs. rewrite Hc, Forall_app, Forall_cons in Hcs.
    assert (t = [] /\ has (flags h) EVBUFFER_IMMUTABLE = true) as [-> Him].
    { rewrite Hc in Hlast. destruct t as [|x t _] using rev_ind.
      - split; [done|]. apply Hlast. by rewrite last_snoc.
      - rewrite app_comm_cons, app_assoc, last_snoc in Hlast. specialize (Hlast x eq_refl).
        destruct Hcs as (_ & _ & Ht). rewrite Forall_app, Forall_singleton in Ht, Hz.
        pose proof (ck_imm x (proj2 Ht) Hlast). lia. }
    pose proof (ck_imm h ltac:(tauto) Him). unfold used in Hc2'.
    rewrite (proj2 (Z.eqb_neq _ _)) in Hc2' by lia. exists pre, [h; c].
    rewrite <- app_assoc in Hc2'. split_and!; auto; [apply (snoc_split pre h []); [by constructor|done]|].
    unfold skip_full, CHAIN_SPACE_LEN at 1. rewrite Him. simpl. done.
Qed.

Lemma evbuffer_expand_fast_spec w b datlen n :
  wf w b -> 0 <= datlen <= EV_SSIZE_MAX -> 2 <= n ->
  exists r b' w', evbuffer_expand_fast_ b datlen n w = Done ((r, b'), w') /\
    expanded_fast w b datlen n r w' b'.
Proof.
  intros Hwf Hd Hn. unfold evbuffer_expand_fast_, cut_datap. rewrite (last_chain_spec w b Hwf).
  rewrite (proj2 (Z.leb_le _ _) Hn). mstep.
  destruct (match list.last (chains b) with Some c => _ | None => _ end) eqn:El.
  { apply expand_fast_insert; auto; [lia|]. intros c Hl. by rewrite Hl in El. }
  destruct (wf_cut w b Hwf) as (pre & post & -> & Hc & Hp & Hds). mstep.
  pose proof (wf_chains w b Hwf) as Hcs. rewrite Hc, Forall_app in Hcs.
  destruct post as [|c tl]; [inversion Hds; subst; by rewrite Hc in El|].
  pose proof Hds as Hds'. inversion Hds' as [|? ? ? Hz Hpre]; subst. clear Hds'.
  rewrite Forall_cons in Hcs. destruct Hcs as (_ & Hck & Htl).
  destruct (scan_head pre c tl datlen n) as (cs' & r & -> & Hall & Hr); auto. mstep.
  destruct (rescan_wf w b pre (c :: tl) cs' Hwf Hc Hp Hds Hall) as [He Hds2].
  set (b1 := set_chains b _ _ _ _) in *.
  inversion Hall as [|? c' ? tl' Hrc Hrt]; subst cs'. subst.
  destruct r as [| |a].
  - exists 0, b1, w. split; [done|]. split; [done|]. left. split; [done|].
    exists pre, (c' :: tl'). done.
  - destruct (expand_replace_spec w b1 pre c' tl' datlen n) as (r & b' & w' & E & [He' Hrm]); auto;
      [apply He|lia|].
    exists r, b', w'. split; [done|]. split; [|done]. rewrite (ef_content _ _ _ _ _ He) in He'.
    by eapply effect_trans.
  - destruct Hr as (Ha & Hroom & Hlen). pose proof (room_nonneg (Z.to_nat n) (skip_full pre (c' :: tl')).2).
    unfold EV_SSIZE_MAX in Hd. rewrite u64_small by lia.
    destruct (chain_new_spec (datlen - a) w) as (oc & w1 & E1 & _ & Hoc); [lia|].
    rewrite (bind_done _ _ _ _ _ E1). destruct oc as [tmp|]; cycle 1.
    { exists (-1), b1, w1. split; [done|]. split; [|by right].
      eapply effect_trans; [exact He|]. rewrite <- (ef_content _ _ _ _ _ He).
      apply effect_later; [apply He|lia]. }
    destruct Hoc as [Hfr N1]. pose proof Hfr as [Hta Ho Hm Hfl Hs Hok].
    eexists 0, _, w1. split; [reflexivity|].
    pose proof (ef_wf _ _ _ _ _ He) as Hwf1. pose proof (wf_chains _ _ Hwf1) as Hcs1.
    pose proof (wf_fresh _ _ Hwf1) as Hf1. pose proof (wf_nodup _ _ Hwf1) as Hnd1.
    simpl in Hcs1, Hf1, Hnd1. rewrite Forall_app in Hcs1, Hf1.
    assert (Hds3 : data_split pre ((c' :: tl') ++ [tmp])) by (by apply snoc_split).
    split.
    + eapply effect_trans; [exact He|]. rewrite <- (ef_content _ _ _ _ _ He). simpl last_with_datap.
      replace (Some (c_addr tmp)) with (c_addr <$> list.last (pre ++ (c' :: tl') ++ [tmp]))
        by (by rewrite app_assoc, last_snoc).
      rewrite Hp. apply (retail_wf w w1 b1 pre (c' :: tl')); auto; try lia.
      * apply Forall_app. split; [tauto|by apply Forall_singleton].
      * rewrite app_assoc. apply nodup_snoc; [done|].
        eapply (fresh_not_in_list w b1); [done|exists []; by rewrite app_nil_r|lia].
      * apply Forall_app. split; [|apply Forall_singleton; lia]. destruct Hf1 as [_ Hf1].
        eapply Forall_impl; [exact Hf1|]. simpl. lia.
      * rewrite sum_off_app. simpl. lia.
      * rewrite content_app. cbn [fmap list_fmap concat]. by rewrite (fresh_bytes _ _ _ Hfr), app_nil_r.
    + left. split; [done|]. exists pre, ((c' :: tl') ++ [tmp]). split_and!; auto.
      pose proof (fresh_space _ _ _ Hfr).
      pose proof (room_skip_snoc pre c' tl' tmp (Z.to_nat n) (datlen - a) Hlen). simpl app. lia.
Qed.

(** ** Reading from a socket *)

(** Bytes stored in the free space of a chain and then taken into account. *)
Lemma poke_spec c x :
  chain_ok c -> zlen x <= CHAIN_SPACE_LEN c ->
  exists m, memwrite (misalign c + off c) x (buffer c) = Done m /\
    let c1 := set_data c (misalign c) (off c) m in
    chain_ok c1 /\ CHAIN_SPACE_LEN c1 = CHAIN_SPACE_LEN c /\
    chain_ok (set_off c1 (off c + zlen x)) /\
    chain_bytes (set_off c1 (off c + zlen x)) = chain_bytes c ++ x.
Proof.
  intros Hok Hx. pose proof (zlen_nonneg x) as Hx0.
  assert (Hroom : misalign c + off c + zlen x <= buffer_len c /\
    (has (flags c) EVBUFFER_IMMUTABLE = true -> zlen x = 0)).
  { destruct (has (flags c) EVBUFFER_IMMUTABLE) eqn:Him.
    - unfold CHAIN_SPACE_LEN in Hx. rewrite Him in Hx. destruct Hok. split; intros; lia.
    - rewrite space_len in Hx by done. split; [lia|done]. }
  destruct Hroom as [Hroom Him]. pose proof Hok as [H1 H2 H3 H4 H5 H6 H7 H8 H9 H10].
  destruct (memwrite (misalign c + off c) x (buffer c)) as [m|] eqn:E;
    [|rewrite memwrite_done in E; [done|lia|lia]].
  apply memwrite_inv in E as (L & Hat & Hbefore & _). exists m. split; [done|]. simpl.
  split; [|split; [done|split]].
  - constructor; simpl; auto; lia.
  - constructor; simpl; auto; try lia. intros H. specialize (H9 H). lia.
  - unfold chain_bytes; simpl. rewrite zsub_split by lia. by rewrite Hat, Hbefore by lia.
Qed.

Lemma fill_step P c tl c1 v vs d :
  NoDup (c_addr <$> (P ++ c :: tl)) -> iov_chain v = c_addr c -> c_addr c1 = c_addr c ->
  forall m, memwrite (iov_at v) (ztake (iov_len v) d) (buffer c) = Done m ->
  c1 = set_data c (misalign c) (off c) m ->
  fill_vecs (v :: vs) d (P ++ c :: tl) = fill_vecs vs (zdrop (iov_len v) d) (P ++ c1 :: tl).
Proof.
  intros Hnd Hv Ha m Hm ->. cbn [fill_vecs]. rewrite Hv.
  rewrite find_chain_app by (by destruct (nodup_mid _ _ _ Hnd)). cbn [deref mbind outcome_bind].
  rewrite Hm. cbn [mbind outcome_bind]. by rewrite put_chain_mid.
Qed.

Lemma poke_nil c : chain_ok c -> memwrite (misalign c + off c) [] (buffer c) = Done (buffer c).
Proof.
  intros []. rewrite memwrite_done by (rewrite ?zlen_nil; lia).
  by rewrite zlen_nil, Z.add_0_r, app_nil_l, ztake_zdrop.
Qed.

Lemma set_data_same c : set_data c (misalign c) (off c) (buffer c) = c.
Proof. by destruct c. Qed.

Lemma nodup_shift (P : list evbuffer_chain) c c1 tl :
  NoDup (c_addr <$> (P ++ c :: tl)) -> c_addr c1 = c_addr c ->
  NoDup (c_addr <$> ((P ++ [c1]) ++ tl)).
Proof. intros Hnd Ha. rewrite <- app_assoc. simpl. by rewrite (addrs_mid P c c1 tl). Qed.

(** [readv] with nothing left to deliver touches no chain. *)
Lemma fill_nil n R howmuch so_far exact vs P :
  Forall chain_ok R -> NoDup (c_addr <$> (P ++ R)) ->
  setup_vecs n R howmuch so_far exact = Done vs -> fill_vecs vs [] (P ++ R) = Done (P ++ R).
Proof.
  intros Hok. revert n so_far vs P. induction Hok as [|c R Hc _ IH]; intros n so_far vs P Hnd Hs.
  - destruct n; simpl in Hs; [by simplify_eq|]. case_test_in Hs; by simplify_eq.
  - destruct n as [|n]; simpl in Hs; [by simplify_eq|]. case_test_in Hs; [|by simplify_eq].
    destruct (setup_vecs n R howmuch _ exact) as [vs'|] eqn:Es; [|done]. simpl in Hs. simplify_eq.
    rewrite (fill_step P c R c) with (m := buffer c); auto; simpl iov_at; simpl iov_len.
    + replace (zdrop _ []) with (@nil byte) by (unfold zdrop; by rewrite drop_nil).
      specialize (IH n _ vs' (P ++ [c]) (nodup_shift P c c R Hnd eq_refl) Es).
      by rewrite <- app_assoc in IH.
    + unfold ztake. rewrite take_nil. by apply poke_nil.
    + by rewrite set_data_same.
Qed.

(** The chains [R] after [d] has been received into them: all data up to one
    last chain, at which [last_with_datap] points. *)
Definition received (R : list evbuffer_chain) (d : list byte) (k : list evbuffer_chain)
    (c : evbuffer_chain) (t : list evbuffer_chain) : Prop :=
  c_addr <$> (k ++ c :: t) = c_addr <$> R /\ Forall chain_ok (k ++ c :: t) /\
  sum_off (k ++ c :: t) = sum_off R + zlen d /\
  concat (chain_bytes <$> (k ++ c :: t)) = concat (chain_bytes <$> R) ++ d /\
  0 < off c /\ Forall (fun e => off e = 0) t.

(** The vectors of an exact request have exactly the capacity asked for. *)
Lemma setup_vecs_exact n R howmuch so_far :
  Forall chain_ok R -> 0 <= so_far <= howmuch -> howmuch <= EV_SSIZE_MAX ->
  howmuch - so_far <= room n R ->
  exists vs, setup_vecs n R howmuch so_far true = Done vs /\ vecs_capacity vs = howmuch - so_far.
Proof.
  intros Hok. revert n so_far. induction Hok as [|c R Hc _ IH]; intros [|n] so_far Hs Hh Hr.
  - exists []. unfold room in Hr. simpl in *. split; [done|lia].
  - unfold room in Hr. simpl in *. rewrite (proj2 (Z.ltb_ge _ _)) by lia. exists []. simpl. split; [done|lia].
  - exists []. unfold room in Hr. simpl in *. split; [done|lia].
  - cbn [setup_vecs]. rewrite room_S in Hr. destruct (so_far <? howmuch) eqn:E; zb;
      [|exists []; simpl; split; [done|lia]].
    pose proof (space_nonneg c). pose proof (room_nonneg n R). rewrite andb_true_r.
    unfold EV_SSIZE_MAX in Hh.
    set (len := if _ <? _ then _ else _).
    assert (Hlen : 0 <= len <= howmuch - so_far /\ (len = howmuch - so_far \/ len = CHAIN_SPACE_LEN c))
      by (subst len; case_test; zb; lia).
    rewrite u64_small by lia.
    destruct (IH n (so_far + len)) as (vs & -> & Hcap); [lia|done|lia|].
    eexists. split; [done|]. simpl. lia.
Qed.

Lemma read_core n R P howmuch so_far vs d :
  Forall chain_ok R -> Forall (fun e => off e = 0) (tail R) -> NoDup (c_addr <$> (P ++ R)) ->
  0 <= so_far -> howmuch <= EV_SSIZE_MAX -> howmuch - so_far <= room n R ->
  0 < zlen d <= howmuch - so_far -> setup_vecs n R howmuch so_far true = Done vs ->
  exists R1, fill_vecs vs d (P ++ R) = Done (P ++ R1) /\
    forall Q p, exists k c t, commit_read (length vs) Q R1 (zlen d) p =
        Done (Q ++ k ++ c :: t, next_ptr (Q ++ k)) /\ received R d k c t.
Proof.
  intros Hok. revert n so_far vs d P.
  induction Hok as [|c R Hc HR IH]; intros n so_far vs d P Hz Hnd Hsf Hh Hr Hd Hs.
  { unfold room in Hr. rewrite take_nil in Hr. simpl in Hr. lia. }
  destruct n as [|n]; [unfold room in Hr; simpl in Hr; lia|].
  simpl in Hz. cbn [setup_vecs] in Hs. rewrite room_S in Hr.
  rewrite (proj2 (Z.ltb_lt _ _)) in Hs by lia. rewrite andb_true_r in Hs.
  pose proof (space_nonneg c) as Hsp0. pose proof (space_bound c Hc) as Hspb.
  change (EVBUFFER_CHAIN_MAX - EVBUFFER_CHAIN_SIZE) with 9223372036854775759 in Hspb.
  set (len := if _ <? _ then _ else _) in Hs.
  assert (Hlen : 0 <= len <= CHAIN_SPACE_LEN c /\
    (len = howmuch - so_far \/ len = CHAIN_SPACE_LEN c)) by (subst len; case_test; zb; lia).
  clearbody len. unfold EV_SSIZE_MAX in Hh. rewrite u64_small in Hs by lia.
  destruct (setup_vecs n R howmuch (so_far + len) true) as [vs'|] eqn:Es; [|done]. simpl in Hs.
  simplify_eq. set (x := ztake len d).
  assert (Hx : zlen x = Z.min len (zlen d)) by (subst x; rewrite zlen_ztake; lia).
  destruct (poke_spec c x Hc) as (m & Hm & Hok1 & Hsp1 & Hok2 & Hb2); [lia|].
  set (c1 := set_data c (misalign c) (off c) m) in *.
  rewrite (fill_step P c R c1 _ vs' d Hnd) with (m := m); auto. simpl iov_len.
  pose proof (nodup_shift P c c1 R Hnd eq_refl) as Hnd'.
  destruct (empty_content R HR Hz) as [EcR EsR].
  destruct (decide (zlen d <= len)) as [Hfit|Hmore].
  - (* everything fits in this chain *)
    rewrite zdrop_all by lia. pose proof (fill_nil n R howmuch (so_far + len) true vs' (P ++ [c1]) HR Hnd' Es) as Hf.
    rewrite <- !app_assoc in Hf. simpl in Hf. rewrite Hf. exists (c1 :: R). split; [done|]. intros Q p.
    exists [], (set_off c1 (off c + zlen d)), R.
    assert (x = d) as Hxd by (subst x; apply ztake_all; lia). rewrite Hxd in *.
    cbn [length commit_read]. rewrite Hsp1. rewrite (proj2 (Z.ltb_ge EVBUFFER_CHAIN_MAX _))
      by (change EVBUFFER_CHAIN_MAX with 9223372036854775807; lia).
    rewrite (proj2 (Z.ltb_ge _ _)) by lia. rewrite app_nil_r. split; [done|].
    split_and!; auto; [by constructor|simpl; lia| |].
    + cbn [app fmap list_fmap concat]. by rewrite Hb2, EcR, !app_nil_r.
    + simpl. destruct Hc. lia.
  - (* the chain is filled and the rest goes on *)
    assert (len = CHAIN_SPACE_LEN c) as -> by lia.
    set (d' := zdrop (CHAIN_SPACE_LEN c) d).
    assert (Hd' : zlen d' = zlen d - CHAIN_SPACE_LEN c) by (subst d'; rewrite zlen_zdrop; lia).
    destruct (IH n (so_far + CHAIN_SPACE_LEN c) vs' d' (P ++ [c1])) as (R1 & Hf & Hcm); auto; try lia.
    { destruct R; [done|]. by apply Forall_cons in Hz as [_ Hz]. }
    rewrite <- !app_assoc in Hf. simpl in Hf. rewrite Hf. exists (c1 :: R1). split; [done|]. intros Q p.
    cbn [length commit_read]. rewrite Hsp1. rewrite (proj2 (Z.ltb_ge EVBUFFER_CHAIN_MAX _))
      by (change EVBUFFER_CHAIN_MAX with 9223372036854775807; lia).
    rewrite (proj2 (Z.ltb_lt _ _)) by lia. rewrite <- Hd'.
    set (c2 := set_off c1 (off c1 + CHAIN_SPACE_LEN c)).
    destruct (Hcm (Q ++ [c2]) p) as (k & e & t & -> & Hk1 & Hk2 & Hk3 & Hk4 & Hk5 & Hk6).
    exists (c2 :: k), e, t. rewrite <- !app_assoc. split; [done|].
    assert (Hxl : zlen x = CHAIN_SPACE_LEN c) by lia. rewrite Hxl in *.
    split_and!; auto; simpl app.
    + cbn [fmap list_fmap]. by rewrite Hk1.
    + by constructor.
    + cbn [sum_off foldr]. fold (sum_off (k ++ e :: t)) (sum_off R). simpl. lia.
    + cbn [fmap list_fmap concat]. rewrite Hk4, EcR. unfold c2. simpl off. rewrite Hb2.
      change (list_fmap _ _ chain_bytes R) with (chain_bytes <$> R). rewrite EcR, app_nil_r. simpl app. rewrite <- app_assoc. f_equal. subst x d'. apply ztake_zdrop.
Qed.

Lemma received_wf w b P R d k c t :
  wf w b -> chains b = P ++ R -> total_len b + zlen d <= EV_SIZE_MAX -> received R d k c t ->
  effect w b w (set_chains b (P ++ k ++ c :: t) (last b) (next_ptr (P ++ k)) (total_len b + zlen d))
    (content b ++ d).
Proof.
  intros [W1 W2 W3 W4 _ W6 W7] Hc Hmax (R1 & R2 & R3 & R4 & R5 & R6).
  assert (Haddr : c_addr <$> (P ++ k ++ c :: t) = c_addr <$> (P ++ R)) by (by rewrite !(fmap_app _ P), R1).
  rewrite Hc in *. split; simpl; auto; [|unfold content; simpl;
    by rewrite Hc, !(content_app P), R4, app_assoc|lia].
  constructor; simpl; auto.
  - rewrite Forall_app in W1 |- *. tauto.
  - by rewrite Haddr.
  - rewrite <- (Forall_fmap c_addr (fun a => a < mm_next w)) in W3 |- *. by rewrite Haddr.
  - rewrite W4. by apply last_addr.
  - exists (P ++ k), (c :: t). split_and!; [by rewrite <- app_assoc|done|]. constructor; [done|lia].
  - rewrite W6, !(sum_off_app P), R3. lia.
Qed.

Lemma skip_full_app pre post P R : skip_full pre post = (P, R) -> P ++ R = pre ++ post.
Proof.
  unfold skip_full. destruct post as [|c tl]; [by intros [= <- <-]|].
  case_test; intros [= <- <-]; [by rewrite <- app_assoc|done].
Qed.

Lemma skip_full_tail pre post P R :
  data_split pre post -> skip_full pre post = (P, R) -> Forall (fun e => off e = 0) (tail R).
Proof.
  intros Hd. unfold skip_full. inversion Hd as [|? c tl Hz _]; subst; [by intros [= <- <-]|].
  case_test; intros [= <- <-]; [|done]. destruct tl; [done|]. by apply Forall_cons in Hz as [_ Hz].
Qed.

Lemma roomy_setup w b n howmuch :
  wf w b -> roomy b (Z.to_nat n) howmuch -> 0 <= howmuch <= EV_SSIZE_MAX ->
  exists vs P R, evbuffer_read_setup_vecs_ b howmuch n true = Done (Some (vs, (P, R))) /\
    vecs_capacity vs = howmuch /\ setup_vecs (Z.to_nat n) R howmuch 0 true = Done vs /\
    chains b = P ++ R /\ Forall (fun e => off e = 0) (tail R) /\ howmuch <= room (Z.to_nat n) R.
Proof.
  intros Hwf (pre & post & Hc & Hp & Hds & Hne & Hroom) Hh. unfold evbuffer_read_setup_vecs_, cut_datap.
  rewrite (proj2 (Z.ltb_ge _ _)) by lia. pose proof (wf_nodup w b Hwf) as Hnd.
  rewrite Hp. rewrite Hc in Hnd |- *. rewrite cut_next_ptr by done. cbn [mbind outcome_bind].
  destruct post as [|c tl] eqn:Epost; [done|]. rewrite <- Epost in *.
  destruct (skip_full pre post) as [P R] eqn:Esk. simpl in Hroom.
  pose proof (skip_full_app _ _ _ _ Esk) as Happ. pose proof (skip_full_tail _ _ _ _ Hds Esk) as Hz.
  pose proof (wf_chains w b Hwf) as Hcs. rewrite Hc, <- Happ, Forall_app in Hcs.
  destruct (setup_vecs_exact (Z.to_nat n) R howmuch 0) as (vs & Hs & Hcap); [tauto|lia|lia|lia|].
  exists vs, P, R. rewrite Hs. cbn [mbind outcome_bind]. rewrite Happ. split_and!; auto. lia.
Qed.

Lemma evbuffer_read_spec w b fionread howmuch readv :
  wf w b -> total_len b + EVBUFFER_MAX_READ <= EV_SIZE_MAX ->
  (forall n d, 0 <= n -> readv n = Some d -> zlen d <= n) ->
  exists r b' w', evbuffer_read b fionread howmuch readv w = Done ((r, b'), w') /\
    (r = -1 /\ effect w b w' b' (content b) \/
     exists cap d, 0 <= cap <= EVBUFFER_MAX_READ /\ readv cap = Some d /\ r = zlen d /\
       effect w b w' b' (content b ++ d)).
Proof.
  intros Hwf Hmax Hrv. unfold evbuffer_read.
  destruct (freeze_end b); [exists (-1), b, w; split; [done|left; split; [done|by apply effect_refl]]|].
  set (n := if _ || _ then _ else fionread). set (hm := if _ || _ then n else howmuch).
  unfold EVBUFFER_MAX_READ in *.
  assert (Hhm : 0 <= hm <= 4096).
  { assert (0 < n <= 4096) by (subst n; case_test; zb; lia). subst hm. case_test; zb; lia. }
  clearbody hm. clear n. unfold NUM_READ_IOVEC.
  destruct (evbuffer_expand_fast_spec w b hm 4) as (r & b1 & w1 & E1 & He & Hr);
    [done|unfold EV_SSIZE_MAX; lia|lia|].
  rewrite (bind_done _ _ _ _ _ E1).
  destruct Hr as [[-> Hroomy]| ->]; [|exists (-1), b1, w1; split; [done|by left]]. simpl (_ =? _). cbv iota.
  pose proof (ef_wf _ _ _ _ _ He) as Hwf1.
  destruct (roomy_setup w1 b1 4 hm Hwf1 Hroomy) as (vs & P & R & -> & Hcap & Hs & Hc & Hz & Hroom);
    [unfold EV_SSIZE_MAX; lia|]. mstep. rewrite Hcap.
  destruct (readv hm) as [d|] eqn:Erv; [|exists (-1), b1, w1; split; [done|by left]].
  pose proof (Hrv hm _ ltac:(lia) Erv) as Hdl.
  destruct d as [|x d0].
  { exists 0, b1, w1. split; [done|]. right. exists hm, []. rewrite app_nil_r. split_and!; auto; lia. }
  assert (0 < zlen (x :: d0)) by (rewrite zlen_cons; pose proof (zlen_nonneg d0); lia).
  set (d := x :: d0) in *. clearbody d.
  pose proof (wf_chains _ _ Hwf1) as Hok. pose proof (wf_nodup _ _ Hwf1) as Hnd. rewrite Hc in Hok, Hnd.
  apply Forall_app in Hok as [_ HokR].
  destruct (read_core (Z.to_nat 4) R P hm 0 vs d) as (R1 & Hf & Hcm); auto; try lia;
    [unfold EV_SSIZE_MAX; lia|].
  rewrite Hc, Hf. mstep. rewrite ztake_app_le, zdrop_app_ge, Z.sub_diag, zdrop_nonpos by lia.
  rewrite ztake_all by lia.
  destruct (Hcm P (last_with_datap b1)) as (k & c & t & -> & Hrec). mstep.
  assert (Ht1 : total_len b1 = total_len b).
  { rewrite (total_content w1 b1), (total_content w b) by done. by rewrite (ef_content _ _ _ _ _ He). }
  pose proof (total_nonneg w b Hwf). rewrite u64_small by (unfold EV_SIZE_MAX in *; lia).
  pose proof (received_wf w1 b1 P R d k c t Hwf1 Hc ltac:(lia) Hrec) as He2.
  rewrite (ef_content _ _ _ _ _ He) in He2.
  destruct (finish_spec w w1 b _ _ (effect_counts _ _ _ _ _ (u64 (n_add_for_cb b1 + zlen d)) (n_del_for_cb b1)
    (effect_trans _ _ _ _ _ _ _ _ He He2))) as (b' & w' & E & He3).
  unfold finish in E. unfold mbind, M_bind in E.
  destruct (evbuffer_invoke_callbacks_ _ w1) as [[b2 w2]|] eqn:Ei in E; [|done].
  unfold ret, mret, M_ret in E. injection E as -> ->.
  exists (zlen d), b', w'. rewrite (bind_done _ _ _ _ _ Ei). split; [done|]. right.
  exists hm, d. split_and!; auto; lia.
Qed.

(** ** Writing to a socket *)

(** The gathered vectors are a prefix of the content. *)
Lemma gather_prefix n cs P howmuch :
  Forall chain_ok cs -> NoDup (c_addr <$> (P ++ cs)) -> 0 <= howmuch ->
  exists j, 0 <= j <= howmuch /\
    vecs_bytes (gather_vecs n cs howmuch) (P ++ cs) = Done (ztake j (concat (chain_bytes <$> cs))).
Proof.
  intros Hok. revert n P howmuch. induction Hok as [|c cs Hc Hcs IH]; intros n P howmuch Hnd Hh.
  { exists 0. split; [lia|]. by destruct n. }
  destruct n as [|n]; [exists 0; split; [lia|]; by rewrite ztake_nonpos|]. cbn [gather_vecs].
  assert (Hnil : vecs_bytes [] (P ++ c :: cs) = Done (ztake 0 (concat (chain_bytes <$> c :: cs)))) by done.
  destruct (howmuch =? 0) eqn:E0; zb; [exists 0; split; [lia|done]|].
  destruct (has (flags c) EVBUFFER_SENDFILE); [exists 0; split; [lia|done]|].
  assert (Hfind : find_chain (c_addr c) (P ++ c :: cs) = Some c)
    by (apply find_chain_app; by destruct (nodup_mid _ _ _ Hnd)).
  pose proof Hc as [H1 H2 H3 H4 _ _ _ _ _ _]. pose proof (chain_bytes_len c Hc) as Hl.
  cbn [fmap list_fmap concat]. change (list_fmap _ _ chain_bytes cs) with (chain_bytes <$> cs).
  destruct (off c <=? howmuch) eqn:E1; zb.
  - destruct (IH n (P ++ [c]) (howmuch - off c)) as (j & Hj & Hv); [by apply (nodup_shift P c c)|lia|].
    rewrite <- app_assoc in Hv. exists (off c + j). split; [lia|].
    cbn [vecs_bytes iov_chain iov_at iov_len]. rewrite Hfind. cbn [deref mbind outcome_bind].
    rewrite memread_done by lia. cbn [mbind outcome_bind]. simpl app in Hv. rewrite Hv.
    cbn [mbind outcome_bind]. rewrite ztake_app_ge by lia. fold (chain_bytes c).
    by replace (off c + j - zlen (chain_bytes c)) with j by lia.
  - exists howmuch. split; [lia|]. cbn [vecs_bytes iov_chain iov_at iov_len]. rewrite Hfind.
    cbn [deref mbind outcome_bind]. rewrite memread_done by lia. cbn [mbind outcome_bind].
    rewrite app_nil_r, ztake_app_le by lia. unfold chain_bytes.
    replace (off c) with (howmuch + (off c - howmuch)) by lia. rewrite zsub_split by lia.
    rewrite ztake_app_le, ztake_all by (rewrite zlen_zsub; lia). done.
Qed.

Lemma ztake_ztake {A} i j (l : list A) : 0 <= i <= j -> ztake i (ztake j l) = ztake i l.
Proof. intros. unfold ztake. rewrite take_take. f_equal. lia. Qed.

Lemma evbuffer_write_atmost_spec w b howmuch writev sendfile :
  wf w b -> in_memory b -> freeze_start b = false ->
  Forall (fun c => has (flags c) EVBUFFER_SENDFILE = false) (chains b) ->
  (forall d, -1 <= writev d <= zlen d) ->
  exists n b' w', evbuffer_write_atmost b howmuch writev sendfile w =
      Done ((n, ztake n (content b), b'), w') /\
    (howmuch < 0 \/ n <= howmuch) /\ effect w b w' b' (zdrop n (content b)).
Proof.
  intros Hwf Hmem Hfs Hsf Hwv. unfold evbuffer_write_atmost. rewrite Hfs.
  pose proof (total_nonneg w b Hwf) as Htn. unfold in_memory, EV_SSIZE_MAX in Hmem.
  rewrite i64_small by lia. set (hm := if _ || _ then _ else howmuch).
  assert (Hhm : howmuch < 0 \/ hm <= howmuch) by (subst hm; case_test; zb; lia).
  assert (Hout : exists n, (if 0 <? hm then
       match chains b with
       | c :: _ => if has (flags c) EVBUFFER_SENDFILE then Done (sendfile, [])
                   else evbuffer_write_iovec b hm writev
       | [] => evbuffer_write_iovec b hm writev
       end
     else Done (-1, [])) = Done (n, ztake n (content b)) /\ (n <= hm \/ n <= 0)).
  { destruct (0 <? hm) eqn:E0; zb; [|exists (-1); split; [by rewrite ztake_nonpos|lia]].
    assert (Hiov : exists n, evbuffer_write_iovec b hm writev = Done (n, ztake n (content b)) /\ (n <= hm \/ n <= 0)).
    { unfold evbuffer_write_iovec. rewrite (proj2 (Z.ltb_ge _ _)) by lia.
      destruct (gather_prefix (Z.to_nat NUM_WRITE_IOVEC) (chains b) [] hm) as (j & Hj & Hv);
        [apply Hwf|apply (wf_nodup w b Hwf)|lia|].
      destruct (gather_vecs _ _ _) as [|v vs] eqn:Eg; [exists 0; split; [by rewrite ztake_nonpos|lia]|].
      simpl app in Hv. rewrite Hv. cbn [mbind outcome_bind]. fold (content b) in *.
      pose proof (Hwv (ztake j (content b))) as Hn. rewrite zlen_ztake in Hn.
      exists (writev (ztake j (content b))). split; [|lia]. f_equal. f_equal.
      destruct (decide (writev (ztake j (content b)) <= 0)); [by rewrite !ztake_nonpos|].
      apply ztake_ztake. lia. }
    destruct (chains b) as [|c cs]; [done|]. apply Forall_cons in Hsf as [-> _]. done. }
  destruct Hout as (n & -> & Hn). mstep.
  destruct (0 <? n) eqn:E0; zb.
  - destruct (evbuffer_drain_spec w b n) as (r & b' & w' & E & Hr & He); [done|lia|].
    rewrite (bind_done _ _ _ _ _ E). exists n, b', w'. split; [done|]. split; [lia|].
    rewrite Hfs, andb_false_r in Hr. subst r. exact He.
  - exists n, b, w. split; [done|]. split; [lia|]. rewrite zdrop_nonpos by lia. by apply effect_refl.
Qed.

(** ** Adding several vectors *)

Definition vecs_len (vs : list (list byte)) : Z := foldr (fun d n => zlen d + n) 0 vs.

Lemma add_all_spec w b vs res :
  wf w b -> 0 <= res -> res + vecs_len vs <= EV_SIZE_MAX ->
  exists k b' w', add_all b vs res w = Done ((res + vecs_len (take k vs), b'), w') /\
    effect w b w' b' (content b ++ concat (take k vs)).
Proof.
  revert w b res. induction vs as [|d vs IH]; intros w b res Hwf Hr Hm.
  { exists O, b, w. simpl. rewrite Z.add_0_r, app_nil_r. split; [done|by apply effect_refl]. }
  cbn [add_all]. cbn [vecs_len foldr] in Hm. fold (vecs_len vs) in Hm.
  destruct (evbuffer_add_spec w b d Hwf) as (r & b1 & w1 & E & Ha & _). rewrite (bind_done _ _ _ _ _ E).
  assert (0 <= vecs_len vs) by (clear; induction vs as [|x l IHl]; simpl; [lia|pose proof (zlen_nonneg x);
    unfold vecs_len in *; lia]).
  pose proof (zlen_nonneg d).
  destruct Ha as [[-> He]|[-> He]]; simpl (_ <? _); cbv iota.
  - rewrite u64_small by (unfold EV_SIZE_MAX in *; lia).
    destruct (IH w1 b1 (res + zlen d)) as (k & b' & w' & E2 & He2); [apply He|lia|lia|].
    exists (S k), b', w'. change (0 <? 0) with false. cbv iota. rewrite E2. cbn [take vecs_len foldr concat].
    fold (vecs_len (take k vs)). split; [do 3 f_equal; lia|].
    rewrite (ef_content _ _ _ _ _ He), <- app_assoc in He2. by eapply effect_trans.
  - exists O, b1, w1. simpl. rewrite Z.add_0_r, app_nil_r. by split.
Qed.

Lemma foldl_u64 vs n : 0 <= n < 2 ^ 64 ->
  foldl (fun n d => u64 (n + zlen (d : list byte))) n vs = u64 (n + vecs_len vs).
Proof.
  revert n. induction vs as [|d vs IH]; intros n Hn; cbn [foldl vecs_len foldr].
  - rewrite Z.add_0_r. by rewrite u64_small.
  - fold (vecs_len vs). rewrite IH by apply u64_range. unfold u64. rewrite Z.add_mod_idemp_l by lia.
    f_equal. lia.
Qed.

Lemma evbuffer_add_iovec_spec w b vs :
  wf w b -> vecs_len vs <= EV_SSIZE_MAX -> 0 <= vecs_len vs ->
  exists k b' w', evbuffer_add_iovec b vs w = Done ((vecs_len (take k vs), b'), w') /\
    effect w b w' b' (content b ++ concat (take k vs)).
Proof.
  intros Hwf Hm Hn. unfold evbuffer_add_iovec. unfold EV_SSIZE_MAX in Hm.
  rewrite foldl_u64 by lia. rewrite u64_small by lia.
  destruct (evbuffer_expand_fast_spec w b (0 + vecs_len vs) 2) as (r & b1 & w1 & E & He & Hr);
    [done|unfold EV_SSIZE_MAX; lia|lia|].
  rewrite (bind_done _ _ _ _ _ E).
  destruct Hr as [[-> _]| ->]; simpl (_ <? _); cbv iota.
  - destruct (add_all_spec w1 b1 vs 0) as (k & b' & w' & E2 & He2);
      [apply He|lia|unfold EV_SIZE_MAX; lia|].
    exists k, b', w'. change (0 <? 0) with false. cbv iota. rewrite E2. split; [done|].
    rewrite (ef_content _ _ _ _ _ He) in He2.
    by eapply effect_trans.
  - exists O, b1, w1. simpl. rewrite app_nil_r. by split.
Qed.

(** ** What the space operations do *)

(** [evbuffer_expand] never changes the data and never fails while memory is available; after a success the
    chain that the next write goes to has at least [datlen] free bytes in one piece, and no chain behind it
    holds data. *)
Theorem evbuffer_expand_gives_space w b datlen :
  wf w b -> 0 <= datlen ->
  exists r b' w', evbuffer_expand b datlen w = Done ((r, b'), w') /\ wf w' b' /\ content b' = content b /\
    (mm_fail w = [] -> datlen + MAX_TO_COPY_IN_EXPAND <= EVBUFFER_CHAIN_MAX - EVBUFFER_CHAIN_SIZE -> r = 0) /\
    (r = 0 -> exists pre c tl, chains b' = pre ++ c :: tl /\ datlen <= CHAIN_SPACE_LEN c /\
       Forall (fun d => off d = 0) tl) /\ (r = 0 \/ r = -1).
Proof.
  intros Hw Hd. destruct (evbuffer_expand_singlechain_spec w b datlen Hw Hd) as ([oc b'] & w' & E & [] & Hs & Hc).
  unfold evbuffer_expand. rewrite (bind_done _ _ _ _ _ E). simpl in *.
  destruct oc as [c|]; eexists _, b', w'; (split; [reflexivity|]); split_and!; auto; try done.
  - intros _. destruct Hc as [Hsp (pre & tl & Hcs & Htl)]. by exists pre, c, tl.
  - intros Hf Hm. by destruct (Hs Hf Hm).
Qed.

Lemma evbuffer_expand_gives_space_witness :
  exists r b' w', evbuffer_expand sample_buf 100 sample_mm = Done ((r, b'), w') /\ content b' = content sample_buf /\ r = 0.
Proof.
  destruct (evbuffer_expand_gives_space sample_mm sample_buf 100 sample_wf) as (r & b' & w' & E & _ & H & Hr & _); [lia|].
  exists r, b', w'. split; [exact E|]. split; [exact H|]. apply Hr; [reflexivity|by vm_compute].
Defined.

(** [evbuffer_read] appends exactly what the system call delivered, at most [EVBUFFER_MAX_READ] bytes and
    never more than it asked for, whatever the chains look like; on an error the data is unchanged. *)
Theorem evbuffer_read_appends w b fionread howmuch readv :
  wf w b -> total_len b + EVBUFFER_MAX_READ <= EV_SIZE_MAX ->
  (forall n d, 0 <= n -> readv n = Some d -> zlen d <= n) ->
  exists r b' w', evbuffer_read b fionread howmuch readv w = Done ((r, b'), w') /\ wf w' b' /\
    (r = -1 /\ content b' = content b \/
     exists cap d, 0 <= cap <= EVBUFFER_MAX_READ /\ readv cap = Some d /\ r = zlen d /\ content b' = content b ++ d).
Proof.
  intros Hw Hm Hrv. destruct (evbuffer_read_spec w b fionread howmuch readv Hw Hm Hrv) as (r & b' & w' & E & H).
  exists r, b', w'. split; [done|].
  destruct H as [[-> []]|(cap & d & Hcap & Hd & -> & [])]; (split; [done|]); [by left|right]. by exists cap, d.
Qed.

Lemma evbuffer_read_appends_witness :
  exists r b' w', evbuffer_read sample_buf 2000 (-1) (fun n => Some (replicate (Z.to_nat (Z.min n 20)) x2e)) sample_mm =
    Done ((r, b'), w') /\
    (r = -1 /\ content b' = content sample_buf \/
     exists cap d, 0 <= cap <= EVBUFFER_MAX_READ /\ Some (replicate (Z.to_nat (Z.min cap 20)) x2e) = Some d /\
       r = zlen d /\ content b' = content sample_buf ++ d).
Proof.
  destruct (evbuffer_read_appends sample_mm sample_buf 2000 (-1) (fun n => Some (replicate (Z.to_nat (Z.min n 20)) x2e)) sample_wf)
    as (r & b' & w' & E & _ & H).
  - by vm_compute.
  - intros n d Hn [= <-]. rewrite zlen_replicate. lia.
  - exists r, b', w'. split; [exact E|exact H].
Defined.

(** [evbuffer_write] hands the system call a prefix of the data and drains exactly what the call accepted:
    what was sent followed by what remains is what was there. *)
Theorem evbuffer_write_sends_prefix w b howmuch writev sendfile :
  wf w b -> in_memory b -> freeze_start b = false ->
  Forall (fun c => has (flags c) EVBUFFER_SENDFILE = false) (chains b) ->
  (forall d, -1 <= writev d <= zlen d) ->
  exists n sent b' w', evbuffer_write_atmost b howmuch writev sendfile w = Done ((n, sent, b'), w') /\ wf w' b' /\
    sent ++ content b' = content b /\ (0 <= n -> n <= total_len b -> zlen sent = n) /\ (howmuch < 0 \/ n <= howmuch).
Proof.
  intros Hw Hm Hf Hs Hv. destruct (evbuffer_write_atmost_spec w b howmuch writev sendfile Hw Hm Hf Hs Hv)
    as (n & b' & w' & E & Hh & [Hw' Hc _ _ _]).
  exists n, (ztake n (content b)), b', w'. split_and!; auto.
  - rewrite Hc. apply ztake_zdrop.
  - intros H0 Hn. rewrite zlen_ztake. rewrite (total_content w b Hw) in Hn. lia.
Qed.

Lemma evbuffer_write_sends_prefix_witness :
  exists n sent b' w', evbuffer_write_atmost sample_buf (-1) (fun d => Z.min 3 (zlen d)) 0 sample_mm =
    Done ((n, sent, b'), w') /\ sent ++ content b' = content sample_buf.
Proof.
  destruct (evbuffer_write_sends_prefix sample_mm sample_buf (-1) (fun d => Z.min 3 (zlen d)) 0 sample_wf)
    as (n & s & b' & w' & E & _ & H & _).
  - by vm_compute.
  - reflexivity.
  - by repeat constructor.
  - intros d. pose proof (zlen_nonneg d). lia.
  - exists n, s, b', w'. split; [exact E|exact H].
Defined.

(** Reserve twice in several pieces without committing, then once in one piece, and commit that piece. *)
Definition reserve_one_then_commit : M (list Z) :=
  '(_, b) ← evbuffer_add (ZERO_CHAIN sample_buf) (replicate 900 x61);
  '(r1, _, b) ← evbuffer_reserve_space b 500 2;
  '(r2, _, b) ← evbuffer_reserve_space b 1500 3;
  '(r3, vs, b) ← evbuffer_reserve_space b 800 1;
  '(r4, b) ← evbuffer_commit_space b vs;
  ret [r1; r2; r3; r4; total_len b].

(** The piece that [evbuffer_reserve_space] returns for one vector is not always one that
    [evbuffer_commit_space] accepts.  When the space behind the data is too small to be worth enlarging its chain,
    the reservation is in the next chain; a single piece is committed only in the last chain or in the first
    chain with space.  With one more unused chain behind it the reserved piece is in neither, and the commit of
    exactly that piece fails: the 800 bytes are not added. *)
Theorem reserved_piece_not_committed :
  exists w', reserve_one_then_commit sample_mm = Done ([2; 3; 1; -1; 900], w').
Proof. eexists. vm_compute. reflexivity. Qed.
