(* ===== verification/EvbufferQueue.v ===== *)
(** * Evbuffers as byte queues

    The contract between [libevent/buffer.c] and its users.

    - [calm]: an operation the allocator refuses nothing does what it does when
      memory is plentiful, so that every failure costs a refused allocation.
    - [ev_op]/[ev_run] against [spec_run]: any sequence of operations on a
      buffer refines the same sequence on a plain list of bytes.
    - [evbuffer_queue] discharges the [ByteBuffer] interface the networking
      layer is proved against.
    - [wire] is a sending and a receiving buffer with the bytes in flight
      between them, driven by [evbuffer_add], [evbuffer_write_atmost],
      [evbuffer_read] and [evbuffer_remove] in any order. *)

From S2P Require Import Prelude ByteBuffer EvChain Evbuffer EvbufferSpace.

(** ** Refused allocations *)

(** How many of the coming allocations fail. *)
Definition refusals (w : mm) : nat := length (List.filter id (mm_fail w)).

(** The same memory when no allocation fails. *)
Definition plentiful (w : mm) : mm := mkMm (mm_next w) [] (mm_junk w) (mm_log w).

(** A computation that was refused nothing does what it does when memory is
    plentiful. *)
Definition calm {A} (m : M A) : Prop := forall w a w', m w = Done (a, w') ->
  (refusals w' <= refusals w)%nat /\
  (refusals w' = refusals w -> m (plentiful w) = Done (a, plentiful w')).

Lemma calm_ret {A} (a : A) : calm (ret a).
Proof. intros w a' w' H. unfold ret, mret, M_ret in *. by simplify_eq. Qed.

Lemma calm_lift {A} (o : outcome A) : calm (lift o).
Proof. intros w a w' H. unfold lift in *. destruct o; by simplify_eq. Qed.

Lemma calm_assert c : calm (assert_m c).
Proof. apply calm_lift. Qed.

Lemma calm_log e : calm (log e).
Proof. intros w a w' H. unfold log in *. by simplify_eq. Qed.

Lemma calm_junk : calm junk.
Proof. intros w a w' H. unfold junk in *. by simplify_eq. Qed.

Lemma calm_malloc : calm mm_malloc.
Proof.
  intros w a w' H. unfold mm_malloc, refusals, plentiful in *.
  destruct (mm_fail w) as [|[] fl]; simplify_eq/=; (split; [lia|]); intros; [done|lia|done].
Qed.

Lemma calm_bind {A B} (m : M A) (f : A -> M B) : calm m -> (forall a, calm (f a)) -> calm (m ≫= f).
Proof.
  intros Hm Hf w b w2 H. unfold mbind, M_bind in *. destruct (m w) as [[a w1]|] eqn:E; [|done].
  destruct (Hm _ _ _ E) as [Hle1 Hp1], (Hf _ _ _ _ H) as [Hle2 Hp2]. split; [lia|]. intros Heq.
  rewrite Hp1 by lia. apply Hp2. lia.
Qed.

Lemma calm_iter {A} (f : A -> M unit) l : (forall a, calm (f a)) -> calm (iter_m f l).
Proof.
  intros Hf. induction l as [|a l IH]; [apply calm_ret|]. cbn [iter_m]. apply calm_bind; auto.
Qed.

Create HintDb calm.
#[local] Hint Resolve calm_ret calm_lift calm_assert calm_log calm_junk calm_malloc : calm.

(** Follows the structure of an operation. *)
Ltac calm_step :=
  match goal with
  | |- calm (mbind _ _) => apply calm_bind; [|intros]
  | |- calm (iter_m _ _) => apply calm_iter; intros
  | |- calm (let _ := _ in _) => cbv zeta
  | |- calm (match ?x with _ => _ end) => destruct x
  | _ => solve [auto with calm]
  end.
Ltac calm := repeat calm_step.

Lemma calm_chain_new n : calm (evbuffer_chain_new n).
Proof. unfold evbuffer_chain_new. calm. Qed.
Lemma calm_chain_free c : calm (evbuffer_chain_free c).
Proof. unfold evbuffer_chain_free. calm. Qed.
#[local] Hint Resolve calm_chain_new calm_chain_free : calm.

Lemma calm_free_all cs : calm (evbuffer_free_all_chains cs).
Proof. unfold evbuffer_free_all_chains. calm. Qed.
#[local] Hint Resolve calm_free_all : calm.

Lemma calm_run_callbacks b d : calm (evbuffer_run_callbacks b d).
Proof. unfold evbuffer_run_callbacks. calm. Qed.
#[local] Hint Resolve calm_run_callbacks : calm.

Lemma calm_invoke b : calm (evbuffer_invoke_callbacks_ b).
Proof. unfold evbuffer_invoke_callbacks_. calm. Qed.
#[local] Hint Resolve calm_invoke : calm.

Lemma calm_finish b : calm (finish b).
Proof. unfold finish. calm. Qed.
Lemma calm_trailing b : calm (evbuffer_free_trailing_empty_chains b).
Proof. unfold evbuffer_free_trailing_empty_chains. calm. Qed.
#[local] Hint Resolve calm_finish calm_trailing : calm.

Lemma calm_insert b c : calm (evbuffer_chain_insert b c).
Proof. unfold evbuffer_chain_insert. calm. Qed.
#[local] Hint Resolve calm_insert : calm.

Lemma calm_insert_new b n : calm (evbuffer_chain_insert_new b n).
Proof. unfold evbuffer_chain_insert_new. calm. Qed.
#[local] Hint Resolve calm_insert_new : calm.

Lemma calm_add b d : calm (evbuffer_add b d).
Proof. unfold evbuffer_add, add_at, add_new_chain. calm. Qed.

Lemma calm_prepend b d : calm (evbuffer_prepend b d).
Proof. unfold evbuffer_prepend, prepend_at, prepend_new_chain. calm. Qed.

Lemma calm_drain_loop f cs p n : calm (drain_loop f cs p n).
Proof. revert p n. induction cs as [|c cs IH]; intros p n; cbn [drain_loop]; calm; apply IH. Qed.
#[local] Hint Resolve calm_drain_loop : calm.

Lemma calm_drain b n : calm (evbuffer_drain b n).
Proof. unfold evbuffer_drain. calm. Qed.
#[local] Hint Resolve calm_drain : calm.

Lemma calm_remove b n : calm (evbuffer_remove b n).
Proof. unfold evbuffer_remove. calm. Qed.

Lemma calm_expand b n : calm (evbuffer_expand b n).
Proof. unfold evbuffer_expand, evbuffer_expand_singlechain, check_space, expand_resize. calm. Qed.
#[local] Hint Resolve calm_add calm_prepend calm_remove calm_expand : calm.

(** Whether an operation was refused memory, and what it did if not. *)
Lemma calm_step_case {A} (m : M A) w a w' :
  calm m -> m w = Done (a, w') ->
  exists refused : bool, ((if refused then 1 else 0) + refusals w' <= refusals w)%nat /\
    (refused = false -> m (plentiful w) = Done (a, plentiful w')).
Proof.
  intros Hc E. destruct (Hc w a w' E) as [Hle Hp].
  destruct (decide (refusals w' = refusals w)) as [Heq|Hne].
  - exists false. split; [simpl; lia|auto].
  - exists true. split; [simpl; lia|done].
Qed.

(** ** Sequences of operations *)

Inductive ev_op :=
| OpAdd (d : list byte)
| OpPrepend (d : list byte)
| OpDrain (n : Z)
| OpRemove (n : Z)
| OpCopyout (n : Z)
| OpExpand (n : Z).

(** Result code and bytes handed out by one operation. *)
Definition ev_step (op : ev_op) (b : evbuffer) : M (Z * list byte * evbuffer) :=
  match op with
  | OpAdd d => '(r, b) ← evbuffer_add b d; ret (r, [], b)
  | OpPrepend d => '(r, b) ← evbuffer_prepend b d; ret (r, [], b)
  | OpDrain n => '(r, b) ← evbuffer_drain b n; ret (r, [], b)
  | OpRemove n => evbuffer_remove b n
  | OpCopyout n => '(r, d) ← lift (evbuffer_copyout b n); ret (r, d, b)
  | OpExpand n => '(r, b) ← evbuffer_expand b n; ret (r, [], b)
  end.

Fixpoint ev_run (ops : list ev_op) (b : evbuffer) : M (list (Z * list byte) * evbuffer) :=
  match ops with
  | [] => ret ([], b)
  | op :: ops =>
      '(r, d, b) ← ev_step op b;
      '(rs, b) ← ev_run ops b;
      ret ((r, d) :: rs, b)
  end.

(** More than a chain may hold (2^63 bytes, less the header and what
    [evbuffer_expand] may have to copy): refused without asking for memory. *)
Definition oversized (op : ev_op) : bool :=
  match op with
  | OpAdd d | OpPrepend d => EVBUFFER_CHAIN_MAX - EVBUFFER_CHAIN_SIZE <? zlen d
  | OpExpand n => EVBUFFER_CHAIN_MAX - EVBUFFER_CHAIN_SIZE <? n + MAX_TO_COPY_IN_EXPAND
  | OpDrain _ | OpRemove _ | OpCopyout _ => false
  end.

(** The abstract queue: what an operation may answer and leave behind.  An
    operation fails only when it was refused memory or asks for more than a
    chain may hold, and a failed [evbuffer_prepend] may have put the end of its
    data in front already. *)
Inductive spec_step (refused : bool) : ev_op -> list byte -> Z -> list byte -> list byte -> Prop :=
| spec_add d s : spec_step refused (OpAdd d) s 0 [] (s ++ d)
| spec_add_fail d s :
    refused || oversized (OpAdd d) = true -> spec_step refused (OpAdd d) s (-1) [] s
| spec_prepend d s : spec_step refused (OpPrepend d) s 0 [] (d ++ s)
| spec_prepend_fail d k s :
    refused || oversized (OpPrepend d) = true -> 0 <= k <= zlen d ->
    spec_step refused (OpPrepend d) s (-1) [] (zdrop k d ++ s)
| spec_drain n s : spec_step refused (OpDrain n) s 0 [] (zdrop n s)
| spec_remove n s :
    spec_step refused (OpRemove n) s (i32 (zlen (ztake n s))) (ztake n s) (zdrop n s)
| spec_copyout n s : spec_step refused (OpCopyout n) s (zlen (ztake n s)) (ztake n s) s
| spec_expand n s : spec_step refused (OpExpand n) s 0 [] s
| spec_expand_fail n s :
    refused || oversized (OpExpand n) = true -> spec_step refused (OpExpand n) s (-1) [] s.

(** [n] of the operations were refused memory. *)
Inductive spec_run : nat -> list ev_op -> list byte -> list (Z * list byte) -> list byte -> Prop :=
| spec_nil s : spec_run 0 [] s [] s
| spec_cons (refused : bool) n op ops s r d s1 rs s2 :
    spec_step refused op s r d s1 -> spec_run n ops s1 rs s2 ->
    spec_run ((if refused then 1 else 0) + n) (op :: ops) s ((r, d) :: rs) s2.

(** Arguments are sizes, and the data ever added fits in memory. *)
Definition op_size (op : ev_op) : Z :=
  match op with OpAdd d | OpPrepend d => zlen d | _ => 0 end.
Definition op_ok (op : ev_op) : Prop :=
  match op with OpDrain n | OpRemove n | OpCopyout n | OpExpand n => 0 <= n | _ => True end.
Definition ops_size (ops : list ev_op) : Z := foldr (fun op n => op_size op + n) 0 ops.

Record live (w : mm) (b : evbuffer) : Prop := {
  lv_wf : wf w b;
  lv_fs : freeze_start b = false;
  lv_fe : freeze_end b = false
}.

Lemma live_effect w b w' b' s : live w b -> effect w b w' b' s -> live w' b'.
Proof. intros [] []. split; congruence || done. Qed.

Lemma op_size_nonneg op : 0 <= op_size op.
Proof. destruct op; simpl; auto using zlen_nonneg; lia. Qed.

Lemma wf_plentiful w b : wf w b -> wf (plentiful w) b.
Proof. intros H. eapply wf_same; [exact H|by split|done]. Qed.

Lemma evbuffer_expand_spec w b n :
  wf w b -> 0 <= n ->
  exists r b' w', evbuffer_expand b n w = Done ((r, b'), w') /\ (r = 0 \/ r = -1) /\
    effect w b w' b' (content b) /\ (mm_fail w = [] -> oversized (OpExpand n) = false -> r = 0).
Proof.
  intros Hwf Hn. unfold evbuffer_expand.
  destruct (evbuffer_expand_singlechain_spec w b n Hwf Hn) as ([oc b'] & w' & E & He & Hs & _).
  rewrite (bind_done _ _ _ _ _ E). eexists _, b', w'. split; [reflexivity|].
  split; [destruct oc; auto|]. split; [done|]. intros Hf Ho. simpl in Ho. zb.
  destruct oc; [done|]. by destruct (Hs Hf).
Qed.

(** Results of the operations that need memory. *)
Lemma add_refusal w b d r b' w' :
  live w b -> total_len b + zlen d <= EV_SIZE_MAX -> evbuffer_add b d w = Done ((r, b'), w') ->
  exists refused : bool, ((if refused then 1 else 0) + refusals w' <= refusals w)%nat /\
    (r = 0 \/ refused || oversized (OpAdd d) = true).
Proof.
  intros [Hwf _ Hfe] Hsz E. destruct (calm_step_case _ _ _ _ (calm_add b d) E) as ([] & Hle & Hp);
    [by exists true; auto|]. exists false. split; [done|].
  destruct (oversized (OpAdd d)) eqn:Ho; [by right|left]. simpl in Ho.
  destruct (evbuffer_add_spec _ b d (wf_plentiful w b Hwf)) as (r2 & b2 & w2 & E2 & _ & Hr).
  rewrite Hp in E2 by done. simplify_eq. zb. by apply Hr.
Qed.

Lemma prepend_refusal w b d r b' w' :
  live w b -> total_len b + zlen d <= EV_SIZE_MAX -> evbuffer_prepend b d w = Done ((r, b'), w') ->
  exists refused : bool, ((if refused then 1 else 0) + refusals w' <= refusals w)%nat /\
    (r = 0 \/ refused || oversized (OpPrepend d) = true).
Proof.
  intros [Hwf Hfs _] Hsz E. destruct (calm_step_case _ _ _ _ (calm_prepend b d) E) as ([] & Hle & Hp);
    [by exists true; auto|]. exists false. split; [done|].
  destruct (oversized (OpPrepend d)) eqn:Ho; [by right|left]. simpl in Ho.
  destruct (evbuffer_prepend_spec _ b d (wf_plentiful w b Hwf)) as (r2 & b2 & w2 & E2 & _ & Hr).
  rewrite Hp in E2 by done. simplify_eq. zb. by apply Hr.
Qed.

Lemma expand_refusal w b n r b' w' :
  live w b -> 0 <= n -> evbuffer_expand b n w = Done ((r, b'), w') ->
  exists refused : bool, ((if refused then 1 else 0) + refusals w' <= refusals w)%nat /\
    (r = 0 \/ refused || oversized (OpExpand n) = true).
Proof.
  intros [Hwf _ _] Hn E. destruct (calm_step_case _ _ _ _ (calm_expand b n) E) as ([] & Hle & Hp);
    [by exists true; auto|]. exists false. split; [done|].
  destruct (oversized (OpExpand n)) eqn:Ho; [by right|left].
  destruct (evbuffer_expand_spec _ b n (wf_plentiful w b Hwf) Hn) as (r2 & b2 & w2 & E2 & _ & _ & Hr).
  rewrite Hp in E2 by done. simplify_eq. by apply Hr.
Qed.

(** Removing bytes asks for no memory that matters. *)
Lemma quiet_step {A} (m : M A) w a w' : calm m -> m w = Done (a, w') -> (refusals w' <= refusals w)%nat.
Proof. intros Hc E. by destruct (Hc w a w' E). Qed.

(** One concrete operation is one abstract operation. *)
Lemma ev_step_spec w b op :
  live w b -> op_ok op -> total_len b + op_size op <= EV_SSIZE_MAX ->
  exists r d b' w' s' (refused : bool), ev_step op b w = Done ((r, d, b'), w') /\
    spec_step refused op (content b) r d s' /\ effect w b w' b' s' /\
    zlen s' <= total_len b + op_size op /\
    ((if refused then 1 else 0) + refusals w' <= refusals w)%nat.
Proof.
  intros Hl Hop Hsz. pose proof Hl as [Hwf Hfs Hfe]. pose proof (total_content w b Hwf) as Ht.
  pose proof (total_nonneg w b Hwf) as Htn.
  assert (Hmax : total_len b + op_size op <= EV_SIZE_MAX) by (unfold EV_SSIZE_MAX, EV_SIZE_MAX in *; lia).
  destruct op as [d|d|n|n|n|n]; simpl in *.
  - destruct (evbuffer_add_spec w b d Hwf) as (r & b' & w' & E & Ha & _).
    destruct (add_refusal w b d r b' w' Hl Hmax E) as (f & Hf & Hr).
    rewrite (bind_done _ _ _ _ _ E). pose proof (zlen_nonneg d).
    destruct Ha as [[-> He]|[-> He]]; eexists _, _, b', w', _, f; (split; [reflexivity|]).
    + split; [constructor|]. split; [exact He|]. rewrite zlen_app. split; [lia|done].
    + split; [constructor; by destruct Hr|]. split; [exact He|]. split; [lia|done].
  - destruct (evbuffer_prepend_spec w b d Hwf) as (r & b' & w' & E & Ha & _).
    destruct (prepend_refusal w b d r b' w' Hl Hmax E) as (f & Hf & Hr).
    rewrite (bind_done _ _ _ _ _ E). pose proof (zlen_nonneg d).
    destruct Ha as [[-> He]|(-> & k & Hk & He)]; eexists _, _, b', w', _, f; (split; [reflexivity|]).
    + split; [constructor|]. split; [exact He|]. rewrite zlen_app. split; [lia|done].
    + split; [constructor; [by destruct Hr|done]|]. split; [exact He|].
      rewrite zlen_app, zlen_zdrop. split; [lia|done].
  - destruct (evbuffer_drain_spec w b n Hwf Hop) as (r & b' & w' & E & Hr & He).
    pose proof (quiet_step _ _ _ _ (calm_drain b n) E).
    rewrite Hfs, andb_false_r in Hr. subst r. rewrite (bind_done _ _ _ _ _ E).
    eexists _, _, b', w', _, false. split; [reflexivity|]. split; [constructor|]. split; [exact He|].
    rewrite zlen_zdrop. split; [lia|done].
  - destruct (evbuffer_remove_spec w b n Hwf) as (b' & w' & E & He); auto; [unfold in_memory; lia|].
    pose proof (quiet_step _ _ _ _ (calm_remove b n) E).
    eexists _, _, b', w', _, false. split; [exact E|]. split; [constructor|]. split; [exact He|].
    rewrite zlen_zdrop. split; [lia|done].
  - rewrite (evbuffer_copyout_spec w b n Hwf) by (done || unfold in_memory; lia).
    rewrite Hfs, andb_false_r. eexists _, _, b, w, _, false. split; [reflexivity|].
    split; [constructor|]. split; [by apply effect_refl|]. split; [lia|done].
  - destruct (evbuffer_expand_spec w b n Hwf Hop) as (r & b' & w' & E & Hr & He & _).
    destruct (expand_refusal w b n r b' w' Hl Hop E) as (f & Hf & Hr').
    rewrite (bind_done _ _ _ _ _ E). eexists _, _, b', w', _, f. split; [reflexivity|].
    split; [destruct Hr as [-> | ->]; constructor; by destruct Hr'|]. split; [exact He|]. split; [lia|done].
Qed.

(** C5: Any sequence of [evbuffer_add], [evbuffer_prepend], [evbuffer_drain],
    [evbuffer_remove], [evbuffer_copyout] and [evbuffer_expand] on a
    well-formed buffer that is not frozen, with no more than [EV_SSIZE_MAX] bytes
    in all, runs to the end without leaving the
    chains' memory or failing an assertion, and its results and final content
    are those of the same sequence on a plain byte queue.  A call fails only
    when the allocator refused it memory, or when it asks for more bytes than
    a chain may hold: at most as many calls fail for want of memory as
    allocations were refused. *)
Theorem evbuffer_refines_queue w b ops :
  live w b -> Forall op_ok ops -> total_len b + ops_size ops <= EV_SSIZE_MAX ->
  exists rs b' w' n, ev_run ops b w = Done ((rs, b'), w') /\ live w' b' /\
    spec_run n ops (content b) rs (content b') /\ (n + refusals w' <= refusals w)%nat.
Proof.
  intros Hl Hops. revert w b Hl. induction Hops as [|op ops Hop _ IH]; intros w b Hl Hsz.
  { exists [], b, w, O. split; [done|]. split; [done|]. split; [constructor|done]. }
  cbn [ops_size foldr] in Hsz. fold (ops_size ops) in Hsz.
  assert (0 <= ops_size ops).
  { clear. induction ops as [|o l IHl]; simpl; [lia|]. pose proof (op_size_nonneg o).
    unfold ops_size in *. lia. }
  destruct (ev_step_spec w b op Hl Hop) as (r & d & b1 & w1 & s1 & f & E & Hs & He & Hle & Hf); [lia|].
  destruct (IH w1 b1) as (rs & b2 & w2 & n & E2 & Hl2 & Hr2 & Hn); [by eapply live_effect| |].
  { rewrite (total_content w1 b1), (ef_content _ _ _ _ _ He) by apply He. lia. }
  eexists ((r, d) :: rs), b2, w2, _. cbn [ev_run].
  rewrite (bind_done _ _ _ _ _ E), (bind_done _ _ _ _ _ E2).
  split; [done|]. split; [done|]. split; [|].
  - econstructor; [exact Hs|]. by rewrite <- (ef_content _ _ _ _ _ He).
  - destruct f; simpl in *; lia.
Qed.

(** The second allocation is refused. *)
Definition tight_mm : mm := mkMm 2 [false; true] x00 [].

Definition sample_ops : list ev_op :=
  [OpAdd [x01; x02]; OpPrepend [x00]; OpCopyout 4; OpRemove 2; OpDrain 5; OpExpand 100; OpExpand 5000].

Lemma evbuffer_refines_queue_witness :
  exists rs b' w' n, ev_run sample_ops sample_buf tight_mm = Done ((rs, b'), w') /\ live w' b' /\
    spec_run n sample_ops (content sample_buf) rs (content b') /\
    (n + refusals w' <= refusals tight_mm)%nat.
Proof.
  apply (evbuffer_refines_queue tight_mm sample_buf).
  - split; [|reflexivity|reflexivity]. apply (wf_same sample_mm _ sample_buf); [exact sample_wf|by split|done].
  - repeat constructor; simpl; lia.
  - vm_compute. congruence.
Defined.

(** ** The interface of the networking layer *)

#[export, program] Instance evbuffer_queue : ByteBuffer (mm * evbuffer) := {
  bb_content := fun q => content q.2;
  bb_ok := fun q => live q.1 q.2 /\ in_memory q.2;
  bb_length := fun q => evbuffer_get_length q.2;
  bb_remove := fun n q =>
    match evbuffer_remove q.2 n q.1 with Done (r, d, b, w) => Done (r, d, (w, b)) | Crash => Crash end;
  bb_add := fun d q =>
    match evbuffer_add q.2 d q.1 with Done (r, b, w) => Done (r, (w, b)) | Crash => Crash end
}.
Next Obligation. intros [w b] [[Hwf _ _] _]. by apply (total_content w). Qed.
Next Obligation.
  intros [w b] n [Hl Hm] Hn. simpl in *. pose proof Hl as [Hwf Hfs _].
  destruct (evbuffer_remove_spec w b n Hwf Hm Hfs) as (b' & w' & -> & He); [lia|].
  exists (w', b'). simpl. rewrite i32_small by (unfold INT_MAX in *; rewrite zlen_ztake; lia).
  split; [done|]. split; [apply He|]. split; [by eapply live_effect|].
  unfold in_memory in *. rewrite (total_content w b) in Hm by done.
  rewrite (total_content w' b'), (ef_content _ _ _ _ _ He), zlen_zdrop by apply He. unfold EV_SSIZE_MAX in *. lia.
Qed.
Next Obligation.
  intros [w b] d [Hl Hm] Hd. simpl in *. pose proof Hl as [Hwf _ _].
  destruct (evbuffer_add_spec w b d Hwf) as (r & b' & w' & -> & Ha & _).
  exists r, (w', b'). simpl. split; [done|]. unfold in_memory in *.
  destruct Ha as [[-> He]|[-> He]]; pose proof (total_content w' b' (ef_wf _ _ _ _ _ He)) as Ht;
    rewrite (ef_content _ _ _ _ _ He) in Ht; (split; [split; [by eapply live_effect|]|]).
  - rewrite zlen_app in Ht. lia.
  - left. split; [done|apply He].
  - rewrite Ht, <- (total_content w b); done.
  - right. split; [done|apply He].
Qed.

(** ** A connection from one buffer to another *)

Record wire := mkWire {
  sender : mm * evbuffer;       (* the output buffer of one side *)
  flight : list byte;           (* accepted by the kernel, not yet read *)
  receiver : mm * evbuffer      (* the input buffer of the other side *)
}.

(** What the kernel may answer: any prefix. *)
Definition writev_ok (writev : list byte -> Z) : Prop := forall d, -1 <= writev d <= zlen d.
Definition memory_only (b : evbuffer) : Prop :=
  Forall (fun c => has (flags c) EVBUFFER_SENDFILE = false) (chains b).

(** [wire_step s added removed s']: the bytes an [evbuffer_add] accepted and
    the bytes an [evbuffer_remove] handed out. *)
Inductive wire_step : wire -> list byte -> list byte -> wire -> Prop :=
| step_add w b d r b' w' f rcv :
    total_len b + zlen d <= EV_SSIZE_MAX ->
    evbuffer_add b d w = Done ((r, b'), w') ->
    wire_step (mkWire (w, b) f rcv) (if r =? 0 then d else []) [] (mkWire (w', b') f rcv)
| step_write w b howmuch writev n sent b' w' f rcv :
    writev_ok writev -> memory_only b ->
    evbuffer_write_atmost b howmuch writev 0 w = Done ((n, sent, b'), w') ->
    wire_step (mkWire (w, b) f rcv) [] [] (mkWire (w', b') (f ++ sent) rcv)
| step_read w b fionread howmuch k r b' w' f snd :
    total_len b + EVBUFFER_MAX_READ <= EV_SSIZE_MAX ->
    evbuffer_read b fionread howmuch (fun cap => Some (ztake (Z.min cap k) f)) w = Done ((r, b'), w') ->
    wire_step (mkWire snd f (w, b)) [] [] (mkWire snd (zdrop r f) (w', b'))
| step_remove w b n r d b' w' f snd :
    0 <= n -> evbuffer_remove b n w = Done ((r, d, b'), w') ->
    wire_step (mkWire snd f (w, b)) [] d (mkWire snd f (w', b')).

Inductive wire_steps : wire -> list byte -> list byte -> wire -> Prop :=
| steps_refl s : wire_steps s [] [] s
| steps_snoc s a1 r1 s1 a2 r2 s2 :
    wire_steps s a1 r1 s1 -> wire_step s1 a2 r2 s2 -> wire_steps s (a1 ++ a2) (r1 ++ r2) s2.

Definition side_ok (q : mm * evbuffer) : Prop := live q.1 q.2 /\ in_memory q.2.
Definition wire_ok (s : wire) : Prop := side_ok (sender s) /\ side_ok (receiver s).
Definition in_transit (s : wire) : list byte :=
  content (receiver s).2 ++ flight s ++ content (sender s).2.

Lemma side_effect w b w' b' s :
  side_ok (w, b) -> effect w b w' b' s -> zlen s <= EV_SSIZE_MAX -> side_ok (w', b').
Proof.
  intros [Hl Hm] He Hs. split; [by eapply live_effect|]. unfold in_memory. simpl.
  rewrite (total_content w' b'), (ef_content _ _ _ _ _ He) by apply He. done.
Qed.

Lemma side_len w b : side_ok (w, b) -> zlen (content b) <= EV_SSIZE_MAX.
Proof. intros [[Hwf _ _] Hm]. unfold in_memory in Hm. simpl in Hm. by rewrite <- (total_content w). Qed.

Lemma zdrop_len {A} n (l : list A) : zlen (zdrop n l) <= zlen l.
Proof. rewrite zlen_zdrop. pose proof (zlen_nonneg l). lia. Qed.

Lemma taken_rest {A} n (l : list A) : ztake n l ++ zdrop (zlen (ztake n l)) l = l.
Proof.
  rewrite zlen_ztake. pose proof (zlen_nonneg l).
  destruct (decide (n <= 0)); [by rewrite ztake_nonpos, zdrop_nonpos by lia|].
  destruct (decide (n <= zlen l)); [by rewrite Z.min_l, Z.max_r, ztake_zdrop by lia|].
  rewrite ztake_all, zdrop_all, app_nil_r by lia. done.
Qed.

Lemma wire_step_spec s a r s' :
  wire_ok s -> wire_step s a r s' ->
  wire_ok s' /\ r ++ in_transit s' = in_transit s ++ a.
Proof.
  intros [Hsnd Hrcv] Hstep. unfold in_transit.
  destruct Hstep as [w b d r b' w' f rcv Hsz E|w b hm writev n sent b' w' f rcv Hwv Hmem E|
                     w b fio hm k r b' w' f snd Hsz E|w b n r d b' w' f snd Hn E]; simpl in *.
  - destruct (evbuffer_add_spec w b d (lv_wf _ _ (proj1 Hsnd))) as (r' & b2 & w2 & E2 & Ha & _).
    rewrite E in E2. simplify_eq. pose proof (side_len w b Hsnd).
    pose proof (total_content w b (lv_wf _ _ (proj1 Hsnd))) as Ht.
    destruct Ha as [[-> He]|[-> He]]; simpl; (split; [split; [|done]|]).
    + eapply side_effect; [exact Hsnd|exact He|]. rewrite zlen_app. lia.
    + by rewrite (ef_content _ _ _ _ _ He), !app_assoc.
    + eapply side_effect; [exact Hsnd|exact He|done].
    + by rewrite (ef_content _ _ _ _ _ He), app_nil_r.
  - pose proof Hsnd as [[Hwf Hfs _] Him]. simpl in *.
    destruct (evbuffer_write_atmost_spec w b hm writev 0 Hwf Him Hfs Hmem Hwv) as (n' & b2 & w2 & E2 & _ & He).
    rewrite E in E2. simplify_eq. split; [split; [|done]|].
    + eapply side_effect; [exact Hsnd|exact He|]. etrans; [apply zdrop_len|]. by apply (side_len w).
    + by rewrite (ef_content _ _ _ _ _ He), app_nil_r, <- app_assoc, ztake_zdrop.
  - pose proof Hrcv as [[Hwf _ _] Him]. simpl in *. pose proof (side_len w b Hrcv).
    pose proof (total_content w b Hwf) as Ht. unfold EVBUFFER_MAX_READ in *.
    destruct (evbuffer_read_spec w b fio hm (fun cap => Some (ztake (Z.min cap k) f)) Hwf)
      as (r' & b2 & w2 & E2 & Hr).
    { unfold EVBUFFER_MAX_READ, EV_SIZE_MAX, EV_SSIZE_MAX in *. lia. }
    { intros cap d Hc [= <-]. rewrite zlen_ztake. lia. }
    rewrite E in E2. simplify_eq.
    destruct Hr as [[-> He]|(cap & d & Hcap & [= <-] & -> & He)].
    + split; [split; [done|]|].
      * eapply side_effect; [exact Hrcv|exact He|done].
      * by rewrite (ef_content _ _ _ _ _ He), zdrop_nonpos, app_nil_r by lia.
    + split; [split; [done|]|].
      * eapply side_effect; [exact Hrcv|exact He|]. unfold EVBUFFER_MAX_READ in *.
        rewrite zlen_app, zlen_ztake. lia.
      * rewrite (ef_content _ _ _ _ _ He), app_nil_r. simpl. rewrite <- !app_assoc. f_equal.
        by rewrite app_assoc, taken_rest.
  - pose proof Hrcv as [[Hwf Hfs _] Him]. simpl in *.
    destruct (evbuffer_remove_spec w b n Hwf Him Hfs Hn) as (b2 & w2 & E2 & He).
    rewrite E in E2. simplify_eq. split; [split; [done|]|].
    + eapply side_effect; [exact Hrcv|exact He|]. etrans; [apply zdrop_len|]. by apply (side_len w).
    + rewrite (ef_content _ _ _ _ _ He), app_nil_r, app_assoc, ztake_zdrop. done.
Qed.

(** C18: Whatever the order in which the sender adds and writes and the
    receiver reads and removes, and however the kernel splits the transfers,
    the bytes handed out are exactly the first bytes put in: what has been
    removed, followed by what the receiving buffer, the kernel and the sending
    buffer still hold, is what was there before followed by what was added. *)
Theorem wire_preserves_stream s added removed s' :
  wire_ok s -> wire_steps s added removed s' ->
  wire_ok s' /\ removed ++ in_transit s' = in_transit s ++ added.
Proof.
  intros Hok Hsteps. induction Hsteps as [s|s a1 r1 s1 a2 r2 s2 _ IH Hstep].
  - split; [done|]. by rewrite app_nil_r.
  - destruct (IH Hok) as [Hok1 H1]. destruct (wire_step_spec s1 a2 r2 s2 Hok1 Hstep) as [Hok2 H2].
    split; [done|]. by rewrite <- app_assoc, H2, app_assoc, H1, <- app_assoc.
Qed.

Definition sample_wire : wire := mkWire (sample_mm, sample_buf) [] (sample_mm, sample_buf).

(** What [sample_wire] becomes when the sender writes and the receiver takes
    seven bytes. *)
Definition sample_run : outcome (list byte * wire) :=
  '(n, sent, b1, w1) ← evbuffer_write_atmost sample_buf (-1) (fun d => zlen d) 0 sample_mm;
  '(r, b2, w2) ← evbuffer_read sample_buf 0 (-1) (fun cap => Some (ztake (Z.min cap 100) ([] ++ sent))) sample_mm;
  '(k, d, b3, w3) ← evbuffer_remove b2 7 w2;
  Done (d, mkWire (w1, b1) (zdrop r ([] ++ sent)) (w3, b3)).


Lemma wire_preserves_stream_witness :
  exists d s', sample_run = Done (d, s') /\ wire_ok s' /\ d ++ in_transit s' = in_transit sample_wire ++ [].
Proof.
  unfold sample_run.
  destruct (evbuffer_write_atmost sample_buf (-1) (fun d => zlen d) 0 sample_mm)
    as [[[[n sent] b1] w1]|] eqn:E1; [|vm_compute in E1; discriminate].
  cbn [mbind outcome_bind].
  destruct (evbuffer_read sample_buf 0 (-1) (fun cap => Some (ztake (Z.min cap 100) ([] ++ sent))) sample_mm)
    as [[[r b2] w2]|] eqn:E2; [|vm_compute in E1; injection E1 as <- <- <- <-; vm_compute in E2; discriminate].
  cbn [mbind outcome_bind].
  destruct (evbuffer_remove b2 7 w2) as [[[[k d] b3] w3]|] eqn:E3;
    [|vm_compute in E1; injection E1 as <- <- <- <-; vm_compute in E2; injection E2 as <- <- <-;
      vm_compute in E3; discriminate].
  cbn [mbind outcome_bind]. eexists _, _. split; [reflexivity|].
  apply (wire_preserves_stream sample_wire [] d).
  - split; (split; [split; [exact sample_wf|reflexivity|reflexivity]|vm_compute; congruence]).
  - eapply (steps_snoc sample_wire [] []); [eapply (steps_snoc sample_wire [] []); [eapply (steps_snoc sample_wire [] [])|]|].
    + apply steps_refl.
    + eapply (step_write _ _ (-1) (fun d => zlen d)); [| |exact E1].
      * intros l. pose proof (zlen_nonneg l). lia.
      * apply Forall_singleton. reflexivity.
    + eapply (step_read _ _ 0 (-1) 100); [vm_compute; congruence|exact E2].
    + eapply (step_remove _ _ 7); [lia|exact E3].
Defined.
