(* ===== verification/EvbufferMove.v ===== *)
(** * Moving data between evbuffers

    Models the zero-copy operations of [libevent/buffer.c]:
    [evbuffer_add_buffer], [evbuffer_prepend_buffer] and
    [evbuffer_remove_buffer] with their helpers [PRESERVE_PINNED],
    [RESTORE_PINNED], [COPY_CHAIN], [APPEND_CHAIN], [PREPEND_CHAIN], and
    [evbuffer_add_reference].  Both buffers are locked for the whole
    operation; [same] says that the two arguments are one buffer. *)

From S2P Require Import Prelude EvChain Evbuffer EvbufferSpace.

(** ** Operations *)

(** Read-pinned chains taken out of [src]: [None] is the error return;
    otherwise the source without them, and the saved chains with their last. *)
Definition PRESERVE_PINNED (src : evbuffer)
    : M (option (evbuffer * option (list evbuffer_chain * option Z))) :=
  p ← lift (HAS_PINNED_R src);
  if negb p then ret (Some (src, None)) else
  '(pre, post) ← lift (cut_datap src);
  c ← lift (deref (head post));
  let at_datap := CHAIN_PINNED_R c in
  let '(pre', post') := if at_datap then (pre, post) else (pre ++ [c], tail post) in
  chain ← lift (deref (head post'));
  _ ← assert_m (CHAIN_PINNED_R chain);
  if negb (off chain =? 0) then
    _ ← assert_m at_datap;
    otmp ← evbuffer_chain_new (off chain);
    match otmp with
    | None => ret None
    | Some tmp =>
        d ← lift (memread (misalign chain) (off chain) (buffer chain));
        m ← lift (memwrite 0 d (buffer tmp));
        let tmp := set_data tmp (misalign tmp) (off chain) m in
        let chain := set_data chain (misalign chain + off chain) 0 (buffer chain) in
        ret (Some (set_chains src (pre ++ [tmp]) (Some (c_addr tmp)) (last_with_datap src) (total_len src),
                   Some (chain :: tail post', last src)))
    end
  else
    ret (Some (set_chains src pre' (Some (c_addr c)) (last_with_datap src) (total_len src),
               Some (post', last src))).

Definition RESTORE_PINNED (src : evbuffer) (pinned : option (list evbuffer_chain * option Z)) : evbuffer :=
  match pinned with
  | None => ZERO_CHAIN src
  | Some (cs, l) => set_chains src cs l None 0
  end.

Definition COPY_CHAIN (dst src : evbuffer) : evbuffer :=
  set_chains dst (chains src) (last src) (last_with_datap src) (total_len src).

Definition APPEND_CHAIN (dst src : evbuffer) : M evbuffer :=
  kept ← evbuffer_free_trailing_empty_chains dst;
  ret (set_chains dst (kept ++ chains src) (last src)
         (match last_with_datap src with None => next_ptr kept | p => p end)
         (u64 (total_len dst + total_len src))).

Definition PREPEND_CHAIN (dst src : evbuffer) : M evbuffer :=
  l ← lift (deref (last src));
  '(_, post) ← lift (cut_datap dst);
  let p := match post with
           | [] => last_with_datap src
           | _ => match last_with_datap dst with None => Some l | p => p end
           end in
  ret (set_chains dst (chains src ++ chains dst) (last dst) p (u64 (total_len dst + total_len src))).

(** The callbacks of both buffers, source first. *)
Definition move_finish (outbuf inbuf : evbuffer) (n : Z) : M (Z * evbuffer * evbuffer) :=
  inbuf ← evbuffer_invoke_callbacks_ (count_deleted inbuf n);
  outbuf ← evbuffer_invoke_callbacks_ (count_added outbuf n);
  ret (0, outbuf, inbuf).

Definition evbuffer_add_buffer (same : bool) (outbuf inbuf : evbuffer) : M (Z * evbuffer * evbuffer) :=
  let in_total_len := total_len inbuf in
  let out_total_len := total_len outbuf in
  if (in_total_len =? 0) || same then ret (0, outbuf, inbuf) else
  if freeze_end outbuf || freeze_start inbuf then ret (-1, outbuf, inbuf) else
  op ← PRESERVE_PINNED inbuf;
  match op with
  | None => ret (-1, outbuf, inbuf)
  | Some (inbuf, pinned) =>
      outbuf ← (if out_total_len =? 0 then
                  _ ← evbuffer_free_all_chains (chains outbuf); ret (COPY_CHAIN outbuf inbuf)
                else APPEND_CHAIN outbuf inbuf);
      move_finish outbuf (RESTORE_PINNED inbuf pinned) in_total_len
  end.

Definition evbuffer_prepend_buffer (same : bool) (outbuf inbuf : evbuffer) : M (Z * evbuffer * evbuffer) :=
  let in_total_len := total_len inbuf in
  let out_total_len := total_len outbuf in
  if (in_total_len =? 0) || same then ret (0, outbuf, inbuf) else
  if freeze_start outbuf || freeze_start inbuf then ret (-1, outbuf, inbuf) else
  op ← PRESERVE_PINNED inbuf;
  match op with
  | None => ret (-1, outbuf, inbuf)
  | Some (inbuf, pinned) =>
      outbuf ← (if out_total_len =? 0 then
                  _ ← evbuffer_free_all_chains (chains outbuf); ret (COPY_CHAIN outbuf inbuf)
                else PREPEND_CHAIN outbuf inbuf);
      move_finish outbuf (RESTORE_PINNED inbuf pinned) in_total_len
  end.

(** [while (chain->off <= datlen)]: the chains taken whole, [nread], the rest
    of [datlen], the rest of the list and [last_with_datap]. *)
Fixpoint take_whole (moved cs : list evbuffer_chain) (star p : option Z) (datlen nread : Z)
    : outcome (list evbuffer_chain * list evbuffer_chain * option Z * Z * Z) :=
  match cs with
  | [] => Crash
  | c :: next =>
      if off c <=? datlen then
        _ ← assert_c (bool_decide (star <> Some (c_addr c)));
        take_whole (moved ++ [c]) next star
          (if bool_decide (p = Some (c_addr c)) then None else p) (datlen - off c) (nread + off c)
      else Done (moved, cs, p, datlen, nread)
  end.

Definition evbuffer_remove_buffer (same : bool) (src dst : evbuffer) (datlen : Z)
    : M (Z * evbuffer * evbuffer) :=
  if (datlen =? 0) || same then ret (0, src, dst) else
  if freeze_end dst || freeze_start src then ret (-1, src, dst) else
  if total_len src <=? datlen then
    let datlen := total_len src in
    '(_, dst, src) ← evbuffer_add_buffer false dst src;
    ret (i32 datlen, src, dst)
  else
    star ← lift ('(_, post) ← cut_datap src; Done (c_addr <$> head post));
    '(moved, rest, p, datlen, nread) ←
      lift (take_whole [] (chains src) star (last_with_datap src) datlen 0);
    dst ← (if nread =? 0 then ret dst
           else
             kept ← evbuffer_free_trailing_empty_chains dst;
             let dst := set_chains dst (kept ++ moved) (c_addr <$> list.last moved)
                          (last_with_datap dst) (total_len dst) in
             dst ← lift (advance_last_with_data dst);
             ret (set_counts
                    (set_chains dst (chains dst) (last dst) (last_with_datap dst)
                       (u64 (total_len dst + nread)))
                    (u64 (n_add_for_cb dst + nread)) (n_del_for_cb dst)));
    match rest with
    | [] => lift Crash
    | c :: next =>
        d ← lift (memread (misalign c) datlen (buffer c));
        '(_, dst) ← evbuffer_add dst d;
        let c := set_data c (misalign c + datlen) (off c - datlen) (buffer c) in
        let first := if nread =? 0 then moved ++ c :: next else c :: next in
        let nread := nread + datlen in
        let src := count_deleted
          (set_chains src first (last src) p (u64 (total_len src - nread))) nread in
        if nread =? 0 then ret (i32 nread, src, dst) else
        dst ← evbuffer_invoke_callbacks_ dst;
        src ← evbuffer_invoke_callbacks_ src;
        ret (i32 nread, src, dst)
    end.

(** A read-only chain over memory of the caller. *)
Definition evbuffer_add_reference (b : evbuffer) (data : list byte) (cleanupfn : option Z)
    : M (Z * evbuffer) :=
  oc ← evbuffer_chain_new 16;
  match oc with
  | None => ret (-1, b)
  | Some c =>
      let c := mkChain (c_addr c) (zlen data) (misalign c) (zlen data)
                 (Z.lor (flags c) (Z.lor EVBUFFER_REFERENCE EVBUFFER_IMMUTABLE)) (refcnt c) data
                 (XReference cleanupfn) in
      if freeze_end b then _ ← log (LFree (c_addr c)); ret (-1, b)
      else
        b ← evbuffer_chain_insert b c;
        finish (count_added b (zlen data))
  end.

(** ** Moving everything *)

(** Two buffers share no chain. *)
Definition apart (a b : evbuffer) : Prop :=
  forall x, x ∈ c_addr <$> chains a -> x ∉ c_addr <$> chains b.

Lemma preserve_pinned_none w b : wf w b -> PRESERVE_PINNED b w = Done (Some (b, None), w).
Proof.
  intros Hwf. unfold PRESERVE_PINNED. by rewrite (no_pinned_r w b Hwf).
Qed.

Lemma zero_chain_effect w w1 b : mm_next w <= mm_next w1 -> effect w b w1 (ZERO_CHAIN b) [].
Proof.
  intros Hn. split; simpl; auto. constructor; simpl; try done; try (by constructor).
  exists [], []. split_and!; auto. constructor.
Qed.

Lemma move_finish_spec w w1 out0 in0 out1 in1 n s t :
  effect w out0 w1 out1 s -> effect w in0 w1 in1 t ->
  exists out' in' w', move_finish out1 in1 n w1 = Done ((0, out', in'), w') /\
    effect w out0 w' out' s /\ effect w in0 w' in' t /\
    chains out' = chains out1 /\ chains in' = chains in1.
Proof.
  intros Ho Hi. unfold move_finish.
  destruct (invoke_callbacks_spec (count_deleted in1 n) w1) as (in' & w2 & E1 & S1 & N1).
  rewrite (bind_done _ _ _ _ _ E1).
  destruct (invoke_callbacks_spec (count_added out1 n) w2) as (out' & w3 & E2 & S2 & N2).
  rewrite (bind_done _ _ _ _ _ E2). exists out', in', w3. split; [done|].
  assert (Hgen : forall b0 b1 b2 u a d, effect w b0 w1 b1 u -> same_data (set_counts b1 a d) b2 ->
     effect w b0 w3 b2 u /\ chains b2 = chains b1).
  { intros b0 b1 b2 u a d He Hs. pose proof (effect_counts _ _ _ _ _ a d He) as [Hwf Hc Hn Hf1 Hf2].
    split; [|apply Hs]. split.
    - eapply wf_same; [exact Hwf|done|lia].
    - by rewrite (same_data_content _ _ Hs).
    - lia.
    - by rewrite (sd_fs _ _ Hs).
    - by rewrite (sd_fe _ _ Hs). }
  destruct (Hgen _ _ _ _ _ _ Ho S2), (Hgen _ _ _ _ _ _ Hi S1). done.
Qed.

Lemma copy_chain_effect w w1 out inb :
  wf w inb -> mm_next w <= mm_next w1 -> effect w out w1 (COPY_CHAIN out inb) (content inb).
Proof.
  intros [W1 W2 W3 W4 W5 W6 W7] Hn. split; auto. constructor; auto.
  eapply Forall_impl; [exact W3|]. simpl. lia.
Qed.

(** A list of data followed by another one that is not empty of data. *)
Lemma append_wf w w1 out inb kept tl :
  wf w out -> wf w inb -> apart out inb -> mm_next w <= mm_next w1 ->
  chains out = kept ++ tl -> sum_off tl = 0 -> concat (chain_bytes <$> tl) = [] ->
  0 < total_len inb -> total_len out + total_len inb <= EV_SIZE_MAX ->
  effect w out w1 (set_chains out (kept ++ chains inb) (last inb)
     (match last_with_datap inb with None => next_ptr kept | p => p end)
     (u64 (total_len out + total_len inb))) (content out ++ content inb).
Proof.
  intros [W1 W2 W3 W4 W5 W6 W7] Hin Hap Hn Hk Hs0 Hc0 Hpos Hmax.
  pose proof (total_nonneg w inb Hin). destruct Hin as [I1 I2 I3 I4 (pre & post & I5 & Ip & Id) I6 I7].
  rewrite Hk in *. pose proof (sum_off_nonneg _ W1).
  rewrite u64_small by (unfold EV_SIZE_MAX in *; lia).
  rewrite Forall_app in W1, W3. rewrite fmap_app, NoDup_app in W2.
  split; simpl; auto; [|unfold content; simpl; by rewrite Hk, !content_app, Hc0, app_nil_r].
  constructor; simpl; auto.
  - apply Forall_app. tauto.
  - rewrite fmap_app, NoDup_app. split_and!; [tauto| |done]. intros x Hx. apply Hap. rewrite Hk, fmap_app. set_solver.
  - apply Forall_app. split; [destruct W3 as [W3 _]; eapply Forall_impl; [exact W3|]|
      eapply Forall_impl; [exact I3|]]; simpl; lia.
  - rewrite I4. destruct (chains inb) as [|x l _] using rev_ind; [simpl in *; lia|].
    by rewrite app_assoc, !last_snoc.
  - exists (kept ++ pre), post. split_and!; [by rewrite I5, app_assoc| |].
    + rewrite Ip. destruct pre as [|x pre _] using rev_ind; [by rewrite app_nil_r|].
      by rewrite app_assoc, !next_ptr_snoc.
    + destruct Id as [|pre c t Hz Hpre]; [rewrite I5 in *; simpl in *; lia|].
      constructor; [done|]. intros Hc. specialize (Hpre Hc) as ->. exfalso.
      rewrite I5 in I6. simpl in I6.
      assert (sum_off t = 0) by (clear -Hz; induction Hz; simpl; lia). lia.
  - rewrite !sum_off_app in *. lia.
Qed.

Lemma total_zero_content w b : wf w b -> total_len b = 0 -> content b = [].
Proof. intros Hwf H0. apply zlen_0_nil. by rewrite <- (total_content w). Qed.

Definition moved_all (w : mm) (out inb : evbuffer) (s : list byte) (r : Z) (out' inb' : evbuffer) (w' : mm) : Prop :=
  apart out' inb' /\
  (r = 0 /\ effect w out w' out' s /\ effect w inb w' inb' [] \/
   r = -1 /\ out' = out /\ inb' = inb /\ w' = w).

Lemma moved_nothing w out inb :
  wf w out -> wf w inb -> apart out inb -> total_len inb = 0 ->
  moved_all w out inb (content out) 0 out inb w.
Proof.
  intros Ho Hi Ha H0. split; [done|]. left. split_and!; auto using effect_refl.
  pose proof (effect_refl w inb Hi) as He. by rewrite (total_zero_content w inb) in He.
Qed.

Lemma add_buffer_spec w out inb :
  wf w out -> wf w inb -> apart out inb -> total_len out + total_len inb <= EV_SIZE_MAX ->
  exists r out' inb' w', evbuffer_add_buffer false out inb w = Done ((r, out', inb'), w') /\
    moved_all w out inb (content out ++ content inb) r out' inb' w' /\
    (freeze_end out = false -> freeze_start inb = false -> r = 0).
Proof.
  intros Ho Hi Ha Hmax. unfold evbuffer_add_buffer. rewrite orb_false_r.
  destruct (total_len inb =? 0) eqn:E0; zb.
  { exists 0, out, inb, w. split; [done|]. split; [|done].
    rewrite (total_zero_content w inb), app_nil_r by done. by apply moved_nothing. }
  pose proof (total_nonneg w inb Hi). pose proof (total_nonneg w out Ho).
  destruct (freeze_end out || freeze_start inb) eqn:Ef.
  { exists (-1), out, inb, w. split; [done|]. split; [split; [done|by right]|].
    intros E1 E2. by rewrite E1, E2 in Ef. }
  rewrite (bind_done _ _ _ _ _ (preserve_pinned_none w inb Hi)).
  assert (Hmv : exists out1 w1, (if total_len out =? 0 then
       _ ← evbuffer_free_all_chains (chains out); ret (COPY_CHAIN out inb)
     else APPEND_CHAIN out inb) w = Done (out1, w1) /\
     effect w out w1 out1 (content out ++ content inb)).
  { destruct (total_len out =? 0) eqn:E1; zb.
    - destruct (free_all_spec (chains out) w (wf_chains w out Ho)) as (w1 & Ef1 & N1).
      eexists _, w1. rewrite (bind_done _ _ _ _ _ Ef1). split; [done|].
      rewrite (total_zero_content w out) by done. simpl app.
      apply copy_chain_effect; [done|lia].
    - unfold APPEND_CHAIN. destruct (wf_cut w out Ho) as (pre & post & _ & Hc & Hp & Hd).
      destruct (free_trailing_spec w out pre post Ho Hc Hp Hd) as (w1 & E2 & N2).
      rewrite (bind_done _ _ _ _ _ E2). eexists _, w1. split; [reflexivity|].
      pose proof (wf_chains w out Ho) as Hok. rewrite Hc in Hok.
      destruct (used_content pre post Hok Hd) as (Hcont & Hsum & tl & Htl).
      rewrite <- Hc in Htl. pose proof Hok as Hok2. rewrite <- Hc, Htl, Forall_app in Hok2.
      eapply append_wf; eauto; try lia.
      + rewrite <- Hc, Htl, sum_off_app in Hsum. lia.
      + rewrite <- Hc, Htl, content_app in Hcont.
        rewrite <- (app_nil_r (concat (chain_bytes <$> used pre post))) in Hcont at 1.
        by apply app_inv_head in Hcont. }
  destruct Hmv as (out1 & w1 & E1 & He1). rewrite (bind_done _ _ _ _ _ E1). simpl RESTORE_PINNED.
  destruct (move_finish_spec w w1 out inb out1 (ZERO_CHAIN inb) (total_len inb)
    (content out ++ content inb) [] He1) as (out' & inb' & w' & E & Heo & Hei & _ & Hci).
  { apply zero_chain_effect, He1. }
  exists 0, out', inb', w'. split; [done|]. split; [|done]. split; [|by left].
  intros x _. rewrite Hci. simpl. apply not_elem_of_nil.
Qed.

(** A list with data put in front of another one. *)
Lemma prepend_wf w out inb pre post l :
  wf w out -> wf w inb -> apart out inb -> chains out = pre ++ post ->
  last_with_datap out = next_ptr pre -> data_split pre post ->
  0 < total_len out -> last inb = Some l -> total_len out + total_len inb <= EV_SIZE_MAX ->
  effect w out w (set_chains out (chains inb ++ chains out) (last out)
     (match last_with_datap out with None => Some l | p => p end)
     (u64 (total_len out + total_len inb))) (content inb ++ content out).
Proof.
  intros Hout Hin Hap Hc Hp Hd Hpos Hl Hmax. pose proof (total_nonneg w inb Hin).
  rewrite u64_small by (unfold EV_SIZE_MAX in *; lia).
  destruct Hout as [W1 W2 W3 W4 _ W6 W7]. destruct Hin as [I1 I2 I3 I4 _ I6 I7].
  split; simpl; auto; [|unfold content; simpl; by rewrite content_app|lia].
  constructor; simpl; auto.
  - by apply Forall_app.
  - rewrite fmap_app, NoDup_app. split_and!; auto. intros x Hx Hx'. by apply (Hap x).
  - by apply Forall_app.
  - rewrite W4. destruct (chains out) as [|x k _] using rev_ind; [simpl in *; lia|].
    by rewrite app_assoc, !last_snoc.
  - exists (chains inb ++ pre), post. split_and!; [by rewrite Hc, app_assoc| |].
    + rewrite Hp. destruct pre as [|x pre _] using rev_ind.
      * rewrite app_nil_r. unfold next_ptr. simpl. by rewrite <- Hl, I4.
      * by rewrite app_assoc, !next_ptr_snoc.
    + destruct Hd as [|pre c t Hz Hpre]; [rewrite Hc in *; simpl in *; lia|].
      constructor; [done|]. intros Hc0. specialize (Hpre Hc0) as ->. exfalso. rewrite Hc in W6. simpl in W6.
      assert (sum_off t = 0) by (clear -Hz; induction Hz; simpl; lia). lia.
  - rewrite sum_off_app. lia.
Qed.

Lemma last_some_of_total w b : wf w b -> total_len b <> 0 -> exists l, last b = Some l.
Proof.
  intros [_ _ _ Hl _ Ht _] H0. rewrite Hl. destruct (chains b) as [|c cs _] using rev_ind; [done|].
  rewrite last_snoc. by eexists.
Qed.

Lemma prepend_buffer_spec w out inb :
  wf w out -> wf w inb -> apart out inb -> total_len out + total_len inb <= EV_SIZE_MAX ->
  exists r out' inb' w', evbuffer_prepend_buffer false out inb w = Done ((r, out', inb'), w') /\
    moved_all w out inb (content inb ++ content out) r out' inb' w' /\
    (freeze_start out = false -> freeze_start inb = false -> r = 0).
Proof.
  intros Ho Hi Ha Hmax. unfold evbuffer_prepend_buffer. rewrite orb_false_r.
  destruct (total_len inb =? 0) eqn:E0; zb.
  { exists 0, out, inb, w. split; [done|]. split; [|done].
    rewrite (total_zero_content w inb) by done. by apply moved_nothing. }
  pose proof (total_nonneg w inb Hi). pose proof (total_nonneg w out Ho).
  destruct (freeze_start out || freeze_start inb) eqn:Ef.
  { exists (-1), out, inb, w. split; [done|]. split; [split; [done|by right]|].
    intros E1 E2. by rewrite E1, E2 in Ef. }
  rewrite (bind_done _ _ _ _ _ (preserve_pinned_none w inb Hi)).
  assert (Hmv : exists out1 w1, (if total_len out =? 0 then
       _ ← evbuffer_free_all_chains (chains out); ret (COPY_CHAIN out inb)
     else PREPEND_CHAIN out inb) w = Done (out1, w1) /\
     effect w out w1 out1 (content inb ++ content out)).
  { destruct (total_len out =? 0) eqn:E1; zb.
    - destruct (free_all_spec (chains out) w (wf_chains w out Ho)) as (w1 & Ef1 & N1).
      eexists _, w1. rewrite (bind_done _ _ _ _ _ Ef1). split; [done|].
      rewrite (total_zero_content w out), app_nil_r by done.
      apply copy_chain_effect; [done|lia].
    - unfold PREPEND_CHAIN, cut_datap. destruct (last_some_of_total w inb Hi E0) as [l Hl]. rewrite Hl.
      destruct (wf_cut w out Ho) as (pre & post & -> & Hc & Hp & Hd). cbn [deref]. mstep.
      assert (post <> []).
      { intros ->. inversion Hd; subst. simpl in Hc. pose proof (wf_total w out Ho) as Ht.
        rewrite Hc in Ht. by simpl in Ht. }
      destruct post as [|c t]; [done|]. eexists _, w. split; [reflexivity|].
      eapply prepend_wf; eauto. lia. }
  destruct Hmv as (out1 & w1 & E1 & He1). rewrite (bind_done _ _ _ _ _ E1). simpl RESTORE_PINNED.
  destruct (move_finish_spec w w1 out inb out1 (ZERO_CHAIN inb) (total_len inb)
    (content inb ++ content out) [] He1) as (out' & inb' & w' & E & Heo & Hei & _ & Hci).
  { apply zero_chain_effect, He1. }
  exists 0, out', inb', w'. split; [done|]. split; [|done]. split; [|by left].
  intros x _. rewrite Hci. simpl. apply not_elem_of_nil.
Qed.

(** ** Moving a prefix *)

(** No empty chain lies before the data point. *)
Definition dense (b : evbuffer) : Prop :=
  exists pre post, chains b = pre ++ post /\ last_with_datap b = next_ptr pre /\
    data_split pre post /\ Forall (fun c => 0 < off c) pre.

Lemma take_whole_spec moved k c rest m star n nread :
  Forall chain_ok k -> NoDup (c_addr <$> (k ++ c :: rest)) ->
  (exists tl, c :: rest = m ++ tl) -> (forall a, star = Some a -> a ∉ c_addr <$> k) ->
  sum_off k <= n < sum_off k + off c ->
  take_whole moved (k ++ c :: rest) star (next_ptr (k ++ m)) n nread =
    Done (moved ++ k, c :: rest, next_ptr m, n - sum_off k, nread + sum_off k).
Proof.
  revert moved n nread. induction k as [|d k IH]; intros moved n nread Hok Hnd [tl Hm] Hstar Hn.
  { simpl in *. rewrite (proj2 (Z.leb_gt _ _)) by lia. by rewrite app_nil_r, Z.sub_0_r, Z.add_0_r. }
  apply Forall_cons in Hok as [Hd Hok]. cbn [app sum_off foldr] in *. fold (sum_off k) in *.
  pose proof (sum_off_nonneg k Hok). cbn [take_whole].
  rewrite (proj2 (Z.leb_le _ _)) by lia.
  rewrite (bool_decide_true (star <> _)) by (intros Hs; apply (Hstar _ Hs); cbn; set_solver).
  cbn [assert_c mbind outcome_bind fmap list_fmap] in *. apply NoDup_cons in Hnd as [Hdn Hnd].
  assert (Hp : (if bool_decide (next_ptr (d :: k ++ m) = Some (c_addr d)) then None
                else next_ptr (d :: k ++ m)) = next_ptr (k ++ m)).
  { rewrite Hm, app_assoc in Hdn.
    destruct (k ++ m) as [|e l _] using rev_ind; [by rewrite bool_decide_true|].
    rewrite app_comm_cons, !next_ptr_snoc, bool_decide_false; [done|].
    intros [= Heq]. apply Hdn. rewrite <- Heq, !fmap_app. set_solver. }
  rewrite Hp, IH; auto.
  - rewrite <- app_assoc. simpl app.
    replace (n - off d - sum_off k) with (n - (off d + sum_off k)) by lia. by rewrite <- Z.add_assoc.
  - eauto.
  - intros a Ha. specialize (Hstar a Ha). cbn in Hstar. set_solver.
  - lia.
Qed.

Lemma advance_over_all pre x l e :
  Forall (fun c => 0 < off c) (l ++ [e]) -> advance_over pre (x :: l ++ [e]) = pre ++ x :: l.
Proof.
  revert pre x. induction l as [|y l IH]; intros pre x Hl; simpl in Hl.
  - apply Forall_cons in Hl as [He _]. simpl. rewrite (proj2 (Z.eqb_neq _ _)) by lia. done.
  - apply Forall_cons in Hl as [Hy Hl].
    change (advance_over pre (x :: (y :: l) ++ [e]))
      with (if off y =? 0 then pre else advance_over (pre ++ [x]) (y :: l ++ [e])).
    rewrite (proj2 (Z.eqb_neq _ _)) by lia. rewrite IH by done. by rewrite <- app_assoc.
Qed.

(** The chains [k ++ [e]] of another buffer, all with data, hung behind the
    data of [dst]. *)
Lemma hang_wf w w1 dst pre post k e n :
  wf w dst -> mm_next w <= mm_next w1 -> chains dst = pre ++ post ->
  last_with_datap dst = next_ptr pre -> data_split pre post ->
  Forall chain_ok (k ++ [e]) -> Forall (fun c => 0 < off c) (k ++ [e]) ->
  NoDup (c_addr <$> (k ++ [e])) -> Forall (fun c => c_addr c < mm_next w) (k ++ [e]) ->
  (forall x, x ∈ c_addr <$> chains dst -> x ∉ c_addr <$> (k ++ [e])) ->
  n = sum_off (k ++ [e]) -> total_len dst + n <= EV_SIZE_MAX ->
  exists dst1, advance_last_with_data
      (set_chains dst (used pre post ++ k ++ [e]) (c_addr <$> list.last (k ++ [e]))
         (last_with_datap dst) (total_len dst)) = Done dst1 /\
    effect w dst w1 (set_chains dst1 (chains dst1) (last dst1) (last_with_datap dst1)
      (u64 (total_len dst1 + n))) (content dst ++ concat (chain_bytes <$> (k ++ [e]))) /\
    n_add_for_cb dst1 = n_add_for_cb dst /\ n_del_for_cb dst1 = n_del_for_cb dst /\
    chains dst1 = used pre post ++ k ++ [e].
Proof.
  intros Hwf Hn Hc Hp Hd Kok Kpos Knd Kf Kap Hsum Hmax. pose proof (total_nonneg w dst Hwf).
  pose proof (sum_off_nonneg _ Kok).
  destruct Hwf as [W1 W2 W3 W4 _ W6 W7]. rewrite Hc in *.
  destruct (used_content pre post W1 Hd) as (Hcont & Hus & tl & Htl).
  assert (Hnd : NoDup (c_addr <$> (used pre post ++ k ++ [e]))).
  { rewrite fmap_app, NoDup_app. split; [by eapply nodup_prefix|]. split; [|done].
    intros x Hx. apply Kap. rewrite Htl, fmap_app. set_solver. }
  assert (Hadv : exists q, used pre post ++ k ++ [e] = q ++ [e] /\ exists post1,
     used pre post ++ k ++ [e] = pre ++ post1 /\ advance_over pre post1 = q).
  { exists (used pre post ++ k). split; [by rewrite app_assoc|]. destruct Hd as [|pre c t Hz Hpre]; simpl in *.
    - exists (k ++ [e]). split; [done|]. destruct k as [|x k]; [done|]. simpl.
      apply Forall_cons in Kpos as [_ Kpos]. by apply (advance_over_all [] x k e).
    - destruct (off c =? 0).
      + exists (k ++ [e]). split; [done|]. destruct k as [|x k]; [by rewrite app_nil_r|].
        apply Forall_cons in Kpos as [_ Kpos]. by apply (advance_over_all pre x k e).
      + exists (c :: k ++ [e]). rewrite <- !app_assoc. split; [done|]. by apply advance_over_all. }
  destruct Hadv as (q & Hq & post1 & Hpost & Hadv).
  unfold advance_last_with_data, cut_datap. simpl. rewrite Hp, Hpost. rewrite Hpost in Hnd.
  rewrite cut_next_ptr by done. simpl. rewrite Hadv, <- Hpost. eexists. split; [done|]. simpl.
  split_and!; auto. rewrite <- Hpost in Hnd. rewrite u64_small by (unfold EV_SIZE_MAX in *; lia).
  split; simpl; auto; [|unfold content; simpl; by rewrite Hc, !(content_app (used pre post)), Hcont].
  constructor; simpl; auto.
  - apply Forall_app. split; [by eapply Forall_prefix|done].
  - apply Forall_app. split; [eapply Forall_prefix; [exact Htl|]; eapply Forall_impl; [exact W3|]|
      eapply Forall_impl; [exact Kf|]]; simpl; lia.
  - by rewrite app_assoc, !last_snoc.
  - exists q, [e]. split_and!; auto. constructor; [constructor|].
    apply Forall_app in Kpos as [_ Kpos]. apply Forall_cons in Kpos as [Kpos _]. lia.
  - rewrite (sum_off_app (used pre post)), Hus. lia.
Qed.

Lemma chain_free_fail c w u w' : evbuffer_chain_free c w = Done (u, w') -> mm_fail w' = mm_fail w.
Proof.
  unfold evbuffer_chain_free, assert_m, assert_c, mbind, M_bind, lift, log, ret, mret, M_ret.
  repeat case_match; intros; by simplify_eq/=.
Qed.

Lemma free_all_fail cs w u w' : evbuffer_free_all_chains cs w = Done (u, w') -> mm_fail w' = mm_fail w.
Proof.
  unfold evbuffer_free_all_chains. revert w. induction cs as [|c cs IH]; intros w H; cbn [iter_m] in H.
  { unfold ret, mret, M_ret in H. by simplify_eq. } unfold mbind, M_bind in H.
  destruct (evbuffer_chain_free c w) as [[u1 w1]|] eqn:E; [|done].
  apply chain_free_fail in E. rewrite <- E. by apply IH.
Qed.

Lemma free_trailing_fail b w k w' :
  evbuffer_free_trailing_empty_chains b w = Done (k, w') -> mm_fail w' = mm_fail w.
Proof.
  unfold evbuffer_free_trailing_empty_chains, mbind, M_bind, lift.
  destruct (cut _ _) as [[pre post]|]; [|done]. destruct (skip_used post) as [kept victims].
  unfold ret, mret, M_ret. destruct victims as [|v vs]; [intros H; by simplify_eq/=|].
  unfold assert_m, assert_c, lift. destruct (evbuffer_chains_all_empty _); [|done].
  destruct (evbuffer_free_all_chains _ w) as [[u1 w1]|] eqn:E; [|done].
  intros H. simplify_eq/=. by eapply free_all_fail.
Qed.

(** What is left of the source once the chains [k] and [n - sum_off k] bytes
    of [c] are gone. *)
Lemma source_rest w b k c rest m post n :
  wf w b -> chains b = k ++ c :: rest -> chains b = (k ++ m) ++ post ->
  last_with_datap b = next_ptr (k ++ m) -> data_split (k ++ m) post ->
  sum_off k <= n < sum_off k + off c ->
  effect w b w (set_chains b
    (set_data c (misalign c + (n - sum_off k)) (off c - (n - sum_off k)) (buffer c) :: rest)
    (last b) (next_ptr m) (u64 (total_len b - n))) (zdrop n (content b)).
Proof.
  intros Hwf Hk Hc Hp Hd Hn. pose proof (wf_chains w b Hwf) as Hcs. rewrite Hk, Forall_app, Forall_cons in Hcs.
  destruct Hcs as (Hokk & Hokc & Hokr). pose proof (sum_off_nonneg _ Hokr). pose proof (sum_off_nonneg _ Hokk).
  destruct (chain_shorten c (n - sum_off k) Hokc) as [Hok' Hb']; [lia|].
  set (c' := set_data c _ _ _) in *. pose proof (wf_max w b Hwf) as Hmx.
  assert (Ht : total_len b - n = sum_off (c' :: rest)).
  { rewrite (wf_total w b Hwf), Hk, sum_off_app. simpl. lia. }
  rewrite u64_small by (rewrite Ht; unfold EV_SIZE_MAX in *; simpl in *; lia).
  split; simpl; auto; [| |lia].
  - replace m with (drop (length k) (k ++ m)) by (by rewrite drop_app_length).
    eapply (drop_front_wf w b k c c' rest (k ++ m) post); eauto; simpl; lia.
  - unfold content. simpl. rewrite Hk, content_app. cbn [fmap list_fmap concat].
    rewrite zdrop_app_ge, content_len by (rewrite ?content_len; auto; lia).
    rewrite zdrop_app_le by (rewrite chain_bytes_len; auto; lia). by rewrite Hb'.
Qed.

(** The whole chains [k] and the start of [c] are the first [n] bytes. *)
Lemma content_front w b k c rest n :
  wf w b -> chains b = k ++ c :: rest -> sum_off k <= n < sum_off k + off c ->
  ztake n (content b) = concat (chain_bytes <$> k) ++ zsub (misalign c) (n - sum_off k) (buffer c).
Proof.
  intros Hwf Hk Hn. pose proof (wf_chains w b Hwf) as Hcs. rewrite Hk, Forall_app, Forall_cons in Hcs.
  destruct Hcs as (Hokk & Hokc & _). unfold content. rewrite Hk, content_app.
  rewrite ztake_app_ge, content_len by (rewrite ?content_len; auto; lia). f_equal.
  cbn [fmap list_fmap concat]. rewrite ztake_app_le by (rewrite chain_bytes_len; auto; lia).
  unfold chain_bytes. pose proof Hokc as [H1 H2 H3 H4 _ _ _ _ _ _].
  replace (off c) with ((n - sum_off k) + (off c - (n - sum_off k))) by lia.
  rewrite zsub_split by lia. rewrite ztake_app_le, ztake_all by (rewrite zlen_zsub; lia). done.
Qed.

Lemma invoke_effect w w1 b0 b s :
  effect w b0 w1 b s ->
  exists b' w', evbuffer_invoke_callbacks_ b w1 = Done (b', w') /\ mm_next w' = mm_next w1 /\
    effect w b0 w' b' s.
Proof.
  intros [Hwf Hc Hn Hs He]. destruct (invoke_callbacks_spec b w1) as (b' & w' & E & Hsd & N).
  exists b', w'. split; [done|]. split; [done|].
  pose proof (same_data_content _ _ Hsd). pose proof (sd_fs _ _ Hsd). pose proof (sd_fe _ _ Hsd).
  split; try congruence; try lia. eapply wf_same; [exact Hwf|done|lia].
Qed.

Lemma effect_weaken w b w1 w2 b' s :
  effect w b w1 b' s -> mm_next w1 <= mm_next w2 -> effect w b w2 b' s.
Proof. intros [Hwf ? ? ? ?] Hn. split; auto; [|lia]. eapply wf_same; [exact Hwf|by split|lia]. Qed.

(** The destination after the whole chains have been moved over. *)
Lemma move_whole w dst k n :
  wf w dst -> Forall chain_ok k -> Forall (fun c => 0 < off c) k -> NoDup (c_addr <$> k) ->
  Forall (fun c => c_addr c < mm_next w) k ->
  (forall x, x ∈ c_addr <$> chains dst -> x ∉ c_addr <$> k) ->
  n = sum_off k -> total_len dst + n <= EV_SIZE_MAX ->
  exists dst1 w1, (if n =? 0 then ret dst
     else
       kept ← evbuffer_free_trailing_empty_chains dst;
       let dst := set_chains dst (kept ++ k) (c_addr <$> list.last k)
                    (last_with_datap dst) (total_len dst) in
       dst ← lift (advance_last_with_data dst);
       ret (set_counts
              (set_chains dst (chains dst) (last dst) (last_with_datap dst)
                 (u64 (total_len dst + n)))
              (u64 (n_add_for_cb dst + n)) (n_del_for_cb dst))) w = Done (dst1, w1) /\
    effect w dst w1 dst1 (content dst ++ concat (chain_bytes <$> k)) /\
    total_len dst1 = total_len dst + n /\ mm_fail w1 = mm_fail w.
Proof.
  intros Hwf Kok Kpos Knd Kf Kap Hn Hmax. destruct k as [|e k _] using rev_ind.
  { exists dst, w. subst n. simpl. rewrite app_nil_r, Z.add_0_r. split_and!; auto. by apply effect_refl. }
  assert (0 < n).
  { rewrite Forall_app, Forall_singleton in Kpos. rewrite Forall_app in Kok.
    pose proof (sum_off_nonneg k ltac:(tauto)). rewrite Hn, sum_off_app. simpl. lia. }
  rewrite (proj2 (Z.eqb_neq _ _)) by lia. pose proof (total_nonneg w dst Hwf).
  destruct (wf_cut w dst Hwf) as (pre & post & _ & Hc & Hp & Hd).
  destruct (free_trailing_spec w dst pre post Hwf Hc Hp Hd) as (w1 & E1 & N1).
  rewrite (bind_done _ _ _ _ _ E1). apply free_trailing_fail in E1. cbv zeta.
  destruct (hang_wf w w1 dst pre post k e n) as (dst1 & -> & He & Ha & Hdl & Hcs); auto; [lia|]. mstep.
  eexists _, w1. split; [reflexivity|]. split; [by apply effect_counts|]. split; [|done].
  simpl. pose proof (total_content _ _ (ef_wf _ _ _ _ _ He)) as Ht. simpl in Ht. rewrite Ht.
  rewrite (ef_content _ _ _ _ _ He), zlen_app, content_len by done.
  by rewrite <- (total_content w dst), Hn.
Qed.

Lemma remove_buffer_part w src dst n :
  wf w src -> wf w dst -> apart dst src -> dense src ->
  freeze_start src = false -> freeze_end dst = false ->
  0 < n < total_len src -> total_len dst + n <= EV_SIZE_MAX -> mm_fail w = [] ->
  n <= EVBUFFER_CHAIN_MAX - EVBUFFER_CHAIN_SIZE ->
  exists src' dst' w', evbuffer_remove_buffer false src dst n w = Done ((i32 n, src', dst'), w') /\
    effect w src w' src' (zdrop n (content src)) /\
    effect w dst w' dst' (content dst ++ ztake n (content src)).
Proof.
  intros Hs Hd Hap (pre & post & Hc & Hp & Hds & Hpos) Hfs Hfe Hn Hmax Hmf Hsm.
  unfold evbuffer_remove_buffer. rewrite (proj2 (Z.eqb_neq _ _)) by lia. rewrite Hfs, Hfe. cbn [orb].
  rewrite (proj2 (Z.leb_gt _ _)) by lia. pose proof (wf_nodup w src Hs) as Hnd.
  destruct (split_at (chains src) n) as (k & c & rest & Hk & Hks);
    [apply Hs|rewrite <- (wf_total w src Hs); lia|].
  pose proof (wf_chains w src Hs) as Hcs. rewrite Hk, Forall_app, Forall_cons in Hcs.
  destruct Hcs as (Hokk & Hokc & _). pose proof (sum_off_nonneg k Hokk).
  pose proof (wf_fresh w src Hs) as Hfr. rewrite Hk, Forall_app in Hfr.
  destruct (front_before pre post k c rest) as (m & -> & Hm); [congruence|done|lia|].
  unfold cut_datap. rewrite Hp. rewrite Hc in Hnd |- *. rewrite cut_next_ptr by done. cbn [mbind outcome_bind]. mstep.
  rewrite <- Hc, Hk. rewrite (take_whole_spec [] k c rest m); auto.
  2: { rewrite <- Hk, Hc. done. }
  2: { eauto. }
  2: { intros a Ha Hin. destruct post as [|h t]; [done|]. simpl in Ha. simplify_eq.
       rewrite <- app_assoc, fmap_app, NoDup_app in Hnd. destruct Hnd as (_ & Hnd & _).
       apply (Hnd _ Hin). rewrite fmap_app. set_solver. }
  mstep. simpl app. rewrite Z.add_0_l.
  destruct (move_whole w dst k (sum_off k)) as (dst1 & w1 & E1 & He1 & Ht1 & Hf1); auto; try lia; try tauto.
  { by apply Forall_app in Hpos as [? _]. }
  { rewrite <- app_assoc, fmap_app, NoDup_app in Hnd. tauto. }
  { intros x Hx Hx'. apply (Hap x Hx). rewrite Hk, fmap_app. set_solver. }
  rewrite (bind_done _ _ _ _ _ E1). pose proof Hokc as [H1 H2 H3 H4 _ _ _ _ _ _].
  rewrite memread_done by lia. mstep. set (d := zsub (misalign c) (n - sum_off k) (buffer c)).
  assert (Hdl : zlen d = n - sum_off k) by (apply zlen_zsub; lia).
  destruct (evbuffer_add_spec w1 dst1 d (ef_wf _ _ _ _ _ He1)) as (r & dst2 & w2 & E2 & Ha & Hr).
  rewrite (bind_done _ _ _ _ _ E2).
  assert (r = 0) as ->.
  { apply Hr; [by rewrite (ef_fe _ _ _ _ _ He1)|lia|congruence|unfold small; lia]. }
  destruct Ha as [[_ He2]|[? _]]; [|done]. rewrite (ef_content _ _ _ _ _ He1), <- app_assoc in He2.
  pose proof (content_front w src k c rest n Hs Hk Hks) as Hcf. fold d in Hcf. rewrite <- Hcf in He2.
  replace (sum_off k + (n - sum_off k)) with n by lia. rewrite (proj2 (Z.eqb_neq n 0)) by lia.
  destruct (invoke_effect w w2 dst dst2 _ (effect_trans _ _ _ _ _ _ _ _ He1 He2)) as (dst3 & w3 & E3 & N3 & He3).
  rewrite (bind_done _ _ _ _ _ E3).
  pose proof (source_rest w src k c rest m post n Hs Hk Hc Hp Hds Hks) as Hsr.
  assert (Hne : (if sum_off k =? 0 then k ++ set_data c (misalign c + (n - sum_off k)) (off c - (n - sum_off k)) (buffer c) :: rest
     else set_data c (misalign c + (n - sum_off k)) (off c - (n - sum_off k)) (buffer c) :: rest) =
     set_data c (misalign c + (n - sum_off k)) (off c - (n - sum_off k)) (buffer c) :: rest).
  { destruct (sum_off k =? 0) eqn:E; [|done]. zb. destruct k as [|x k]; [done|].
    apply Forall_app in Hpos as [Hpos _]. apply Forall_cons in Hpos as [Hx _].
    apply Forall_cons in Hokk as [_ Hokk]. pose proof (sum_off_nonneg k Hokk). simpl in E. lia. }
  rewrite Hne.
  destruct (invoke_effect w w3 src _ _ (effect_counts _ _ _ _ _ (n_add_for_cb src) (u64 (n_del_for_cb src + n))
    (effect_weaken w src w w3 _ _ Hsr ltac:(pose proof (ef_next _ _ _ _ _ He3); lia))))
    as (src2 & w4 & E4 & N4 & He4).
  unfold count_deleted. simpl n_add_for_cb. simpl n_del_for_cb. rewrite (bind_done _ _ _ _ _ E4).
  exists src2, dst3, w4. split; [done|]. split; [done|]. eapply effect_weaken; [exact He3|lia].
Qed.

(** ** What moving does *)

(** [evbuffer_add_buffer] moves all data of the second buffer behind the data of the first, and
    [evbuffer_prepend_buffer] in front of it; the source is left empty and both stay well formed.  Only frozen
    ends make them fail, and then nothing has changed. *)
Theorem move_buffer_moves_all w out inb :
  wf w out -> wf w inb -> apart out inb -> total_len out + total_len inb <= EV_SIZE_MAX ->
  (exists r out' inb' w', evbuffer_add_buffer false out inb w = Done ((r, out', inb'), w') /\
     (r = 0 /\ wf w' out' /\ wf w' inb' /\ content out' = content out ++ content inb /\ content inb' = [] \/
      r = -1 /\ out' = out /\ inb' = inb /\ w' = w) /\
     (freeze_end out = false -> freeze_start inb = false -> r = 0)) /\
  (exists r out' inb' w', evbuffer_prepend_buffer false out inb w = Done ((r, out', inb'), w') /\
     (r = 0 /\ wf w' out' /\ wf w' inb' /\ content out' = content inb ++ content out /\ content inb' = [] \/
      r = -1 /\ out' = out /\ inb' = inb /\ w' = w) /\
     (freeze_start out = false -> freeze_start inb = false -> r = 0)).
Proof.
  intros Ho Hi Ha Hm. split.
  - destruct (add_buffer_spec w out inb Ho Hi Ha Hm) as (r & o & i & w' & E & [_ H] & Hr).
    exists r, o, i, w'. split; [done|]. split; [|done]. destruct H as [(-> & [] & [])|?]; [left|right]; tauto.
  - destruct (prepend_buffer_spec w out inb Ho Hi Ha Hm) as (r & o & i & w' & E & [_ H] & Hr).
    exists r, o, i, w'. split; [done|]. split; [|done]. destruct H as [(-> & [] & [])|?]; [left|right]; tauto.
Qed.

(** A second buffer beside [sample_buf]: "abc" and "xyz" in two chains. *)
Definition sample_other : evbuffer :=
  mkBuf [mkChain (-1) 4 0 3 0 1 [x61; x62; x63; x00] XNone; mkChain 0 4 1 3 0 1 [x00; x78; x79; x7a] XNone]
        (Some 0) (Some (-1)) 6 0 0 false false false false 0 1 [].

Lemma sample_other_wf : wf sample_mm sample_other.
Proof.
  constructor; simpl; try done.
  - repeat constructor; simpl; try done; vm_compute; congruence.
  - repeat constructor; set_solver.
  - by repeat constructor.
  - eexists [_], [_]. split_and!; auto. by constructor.
Qed.

Lemma sample_apart : apart sample_buf sample_other.
Proof. intros x Hx. unfold sample_buf, sample_other in *. simpl in *. set_solver by lia. Qed.

Lemma move_buffer_moves_all_witness :
  exists out' inb' w', evbuffer_add_buffer false sample_buf sample_other sample_mm = Done ((0, out', inb'), w') /\
    content out' = content sample_buf ++ content sample_other /\ content inb' = [].
Proof.
  destruct (move_buffer_moves_all sample_mm sample_buf sample_other sample_wf sample_other_wf sample_apart) as
    [(r & o & i & w' & E & H & Hr) _]; [by vm_compute|].
  specialize (Hr eq_refl eq_refl). subst r. exists o, i, w'. split; [exact E|].
  destruct H as [(_ & _ & _ & H1 & H2)|[H _]]; [auto|discriminate].
Defined.

(** When no chain in front of the data end is empty and memory is available, [evbuffer_remove_buffer]
    moves exactly the first [n] bytes (all of them if there are fewer) behind the destination's data and
    returns how many. *)
Theorem remove_buffer_moves_prefix w src dst n :
  wf w src -> wf w dst -> apart dst src -> dense src ->
  freeze_start src = false -> freeze_end dst = false ->
  0 <= n -> total_len dst + total_len src <= EV_SIZE_MAX -> mm_fail w = [] ->
  n <= EVBUFFER_CHAIN_MAX - EVBUFFER_CHAIN_SIZE ->
  exists src' dst' w', evbuffer_remove_buffer false src dst n w =
      Done ((i32 (Z.min n (total_len src)), src', dst'), w') /\ wf w' src' /\ wf w' dst' /\
    content src' = zdrop n (content src) /\ content dst' = content dst ++ ztake n (content src).
Proof.
  intros Hs Hd Hap Hde Hfs Hfe Hn Hmax Hmf Hsm. pose proof (total_nonneg w src Hs) as H0.
  pose proof (total_content w src Hs) as Htc.
  destruct (decide (n = 0)) as [->|].
  { exists src, dst, w. rewrite Z.min_l, zdrop_nonpos, ztake_nonpos, app_nil_r by lia. by split_and!. }
  destruct (decide (n < total_len src)).
  - destruct (remove_buffer_part w src dst n) as (s & d & w' & E & [] & []); auto; [lia|lia|].
    exists s, d, w'. rewrite Z.min_l by lia. by split_and!.
  - destruct (add_buffer_spec w dst src Hd Hs Hap) as (r & d & s & w' & E & [_ H] & Hr); [lia|].
    rewrite (Hr Hfe Hfs) in E, H. destruct H as [(_ & [] & [])|[? _]]; [|done].
    exists s, d, w'. unfold evbuffer_remove_buffer. rewrite (proj2 (Z.eqb_neq n 0)), Hfe, Hfs, (proj2 (Z.leb_le _ _)) by lia.
    cbn [orb]. rewrite (bind_done _ _ _ _ _ E). rewrite Z.min_r, zdrop_all, ztake_all by lia. by split_and!.
Qed.

Lemma remove_buffer_moves_prefix_witness :
  exists src' dst' w', evbuffer_remove_buffer false sample_other sample_buf 4 sample_mm = Done ((4, src', dst'), w') /\
    content src' = [x79; x7a] /\ content dst' = content sample_buf ++ [x61; x62; x63; x78].
Proof.
  destruct (remove_buffer_moves_prefix sample_mm sample_other sample_buf 4) as (s & d & w' & E & _ & _ & H1 & H2).
  - exact sample_other_wf.
  - exact sample_wf.
  - exact sample_apart.
  - eexists [_], [_]. split_and!; [done|done|by constructor|by repeat constructor].
  - reflexivity.
  - reflexivity.
  - lia.
  - by vm_compute.
  - reflexivity.
  - by vm_compute.
  - exists s, d, w'. split; [exact E|]. split; [exact H1|exact H2].
Defined.

(** ** Where moving loses or reorders data *)

(** [evbuffer_remove_buffer] ignores a failure of the [evbuffer_add] that copies the last part of the
    requested bytes: with an allocation that fails there, the bytes leave the source, the destination does not
    get them, and the call still reports them as moved. *)
Theorem remove_buffer_loses_bytes :
  exists w src dst src' dst' w',
    wf w src /\ wf w dst /\ apart dst src /\ dense src /\ content src = [x61; x62; x63] /\ content dst = [] /\
    evbuffer_remove_buffer false src dst 2 w = Done ((2, src', dst'), w') /\
    content src' = [x63] /\ content dst' = [].
Proof.
  pose (c := mkChain 1 4 0 3 0 1 [x61; x62; x63; x00] XNone).
  pose (src := mkBuf [c] (Some 1) None 3 0 0 false false false false 0 1 []).
  exists (mkMm 2 [true] x00 []), src, (ZERO_CHAIN src). do 3 eexists. split_and!.
  - constructor; simpl; try done.
    + repeat constructor; simpl; try done; vm_compute; congruence.
    + apply NoDup_singleton.
    + by repeat constructor.
    + eexists [], [_]. split_and!; auto. by constructor.
  - apply (zero_chain_effect (mkMm 2 [true] x00 []) _ src). done.
  - intros x Hx. by apply not_elem_of_nil in Hx.
  - eexists [], [_]. split_and!; [done|done|by constructor|constructor].
  - reflexivity.
  - reflexivity.
  - vm_compute. reflexivity.
  - reflexivity.
  - reflexivity.
Qed.

(** The calls that leave an empty chain inside the moved part. *)
Definition move_then_add : M (list byte * list byte) :=
  let b0 := ZERO_CHAIN sample_buf in
  '(_, src) ← evbuffer_add_reference b0 [x61; x62; x63] None;
  '(_, src) ← evbuffer_prepend src [];
  '(_, src) ← evbuffer_add src [x78; x79; x7a];
  '(_, dst) ← evbuffer_add b0 [x44];
  '(_, src, dst) ← evbuffer_remove_buffer false src dst 3;
  let moved := content dst in
  '(_, dst) ← evbuffer_add dst [x21];
  ret (moved, content dst).

(** When an empty chain is among the chains that [evbuffer_remove_buffer] moves (an empty prepend in front
    of a referenced chain leaves one), the destination's data end stays in front of it, and the next
    [evbuffer_add] puts its bytes before bytes that were already there: "Dabc" followed by "!" reads "D!abc". *)
Theorem remove_buffer_then_add_reorders :
  exists w', move_then_add sample_mm =
    Done (([x44; x61; x62; x63], [x44; x21; x61; x62; x63]), w').
Proof. eexists. vm_compute. reflexivity. Qed.
