(* ===== verification/EvbufferSearch.v ===== *)
(** * Searching an evbuffer

    Models the search routines of [libevent/buffer.c]: the position pointers
    ([evbuffer_ptr_set], [evbuffer_ptr_subtract]), [evbuffer_strchr], the
    chunked [find_eol_char], [evbuffer_strspn], [evbuffer_ptr_memcmp],
    [evbuffer_search_range], [evbuffer_search_eol] and [evbuffer_readln].
    Each is shown equal to its reference on the plain byte sequence, however
    the bytes are spread over chains. *)

From S2P Require Import Prelude EvChain Evbuffer EvbufferSpace.

Definition CR : byte := x0d.
Definition LF : byte := x0a.

(** ** Memory primitives *)

(** [memchr]: the index of the first byte equal to [x]. *)
Fixpoint find_idx (P : byte -> bool) (l : list byte) : option Z :=
  match l with
  | [] => None
  | y :: l => if P y then Some 0 else Z.add 1 <$> find_idx P l
  end.
Definition memchr (x : byte) (l : list byte) : option Z := find_idx (fun y => bool_decide (y = x)) l.

(** [memcmp] on [n] bytes: the difference at the first mismatch. *)
Fixpoint memcmp (a b : list byte) : Z :=
  match a, b with
  | x :: a, y :: b => if bool_decide (x = y) then memcmp a b else byteZ x - byteZ y
  | _, _ => 0
  end.

(** The chains from the one at address [a] on; [NULL] is no chain. *)
Fixpoint suffix_at (a : Z) (cs : list evbuffer_chain) : outcome (list evbuffer_chain) :=
  match cs with
  | [] => Crash
  | c :: cs' => if c_addr c =? a then Done cs else suffix_at a cs'
  end.
Definition from_chain (b : evbuffer) (o : option Z) : outcome (list evbuffer_chain) :=
  match o with None => Done [] | Some a => suffix_at a (chains b) end.

(** [chain->buffer + chain->misalign + i], [chain->off - i] bytes. *)
Definition chain_rest (c : evbuffer_chain) (i : Z) : outcome (list byte) :=
  memread (misalign c + i) (u64 (off c - i)) (buffer c).

Definition PTR_NOT_FOUND : evbuffer_ptr := mkPtr (-1) None 0.

(** ** Walks over the chains *)

(** The common loop of [evbuffer_strchr] and [evbuffer_find_eol_char]: [find]
    is the search within one chain. *)
Fixpoint scan_chains (find : list byte -> option Z) (cs : list evbuffer_chain) (i pos : Z)
    : outcome (option evbuffer_ptr) :=
  match cs with
  | [] => Done None
  | c :: next =>
      d ← chain_rest c i;
      match find d with
      | Some k => Done (Some (mkPtr (pos + k) (Some (c_addr c)) (i + k)))
      | None => scan_chains find next 0 (pos + (off c - i))
      end
  end.

Definition evbuffer_strchr (b : evbuffer) (it : evbuffer_ptr) (chr : byte) : outcome (option evbuffer_ptr) :=
  cs ← from_chain b (ep_chain it); scan_chains (memchr chr) cs (ep_in_chain it) (ep_pos it).

(** [find_eol_char]: 128 bytes at a time. *)
Definition CHUNK_SZ : Z := 128.
Fixpoint find_eol_char (fuel : nat) (s : list byte) (base : Z) : option Z :=
  match fuel with
  | O => None
  | S fuel =>
      if 0 <? zlen s then
        let chunk := ztake (if CHUNK_SZ <? zlen s then CHUNK_SZ else zlen s) s in
        match memchr CR chunk, memchr LF chunk with
        | Some cr, Some lf => if lf <? cr then Some (base + lf) else Some (base + cr)
        | Some cr, None => Some (base + cr)
        | None, Some lf => Some (base + lf)
        | None, None => find_eol_char fuel (zdrop CHUNK_SZ s) (base + CHUNK_SZ)
        end
      else None
  end.

Definition evbuffer_find_eol_char (b : evbuffer) (it : evbuffer_ptr) : outcome (option evbuffer_ptr) :=
  cs ← from_chain b (ep_chain it);
  scan_chains (fun s => find_eol_char (S (length s)) s 0) cs (ep_in_chain it) (ep_pos it).

(** Bytes of [chrset] from the position on; stops at the first other byte or
    at the end of the last chain. *)
Fixpoint spn (chrset : list byte) (l : list byte) : Z * bool :=
  match l with
  | [] => (0, true)
  | x :: l => if bool_decide (x ∈ chrset) then let '(n, e) := spn chrset l in (1 + n, e) else (0, false)
  end.
Fixpoint strspn_loop (chrset : list byte) (cs : list evbuffer_chain) (i count : Z) : outcome Z :=
  match cs with
  | [] => Done count
  | c :: next =>
      d ← chain_rest c i;
      let '(n, at_end) := spn chrset d in
      if (at_end : bool) then strspn_loop chrset next 0 (count + n) else Done (count + n)
  end.
Definition evbuffer_strspn (b : evbuffer) (it : evbuffer_ptr) (chrset : list byte) : outcome Z :=
  cs ← from_chain b (ep_chain it);
  n ← strspn_loop chrset cs (ep_in_chain it) 0;
  Done (i32 n).

Definition evbuffer_getchr (b : evbuffer) (it : evbuffer_ptr) : outcome Z :=
  match ep_chain it with
  | None => Done (-1)
  | Some a =>
      cs ← suffix_at a (chains b);
      c ← deref (head cs);
      d ← memread (misalign c + ep_in_chain it) 1 (buffer c);
      x ← deref (head d);
      Done (byteZ x)
  end.

(** ** Positions *)

Inductive evbuffer_ptr_how := EVBUFFER_PTR_SET | EVBUFFER_PTR_ADD.

Fixpoint ptr_walk (cs : list evbuffer_chain) (position left pos : Z) : Z * evbuffer_ptr :=
  match cs with
  | [] => if left =? 0 then (0, mkPtr pos None 0) else (-1, PTR_NOT_FOUND)
  | c :: next =>
      if off c <=? position + left then ptr_walk next 0 (u64 (left - (off c - position))) pos
      else (0, mkPtr pos (Some (c_addr c)) (position + left))
  end.

Definition evbuffer_ptr_set (b : evbuffer) (p : evbuffer_ptr) (position : Z) (how : evbuffer_ptr_how)
    : outcome (Z * evbuffer_ptr) :=
  match how with
  | EVBUFFER_PTR_SET =>
      _ ← assert_c (0 <=? EV_SIZE_MAX - position);
      Done (ptr_walk (chains b) 0 position position)
  | EVBUFFER_PTR_ADD =>
      if (ep_pos p <? 0) || (EV_SIZE_MAX - position <? ep_pos p) then Done (-1, p) else
      _ ← assert_c (ep_in_chain p <=? EV_SIZE_MAX - position);
      cs ← from_chain b (ep_chain p);
      Done (ptr_walk cs (ep_in_chain p) position (ep_pos p + position))
  end.

Definition evbuffer_ptr_subtract (b : evbuffer) (p : evbuffer_ptr) (howfar : Z)
    : outcome (Z * evbuffer_ptr) :=
  if ep_pos p <? 0 then Done (-1, p) else
  if ep_pos p <? howfar then Done (-1, p) else
  if bool_decide (ep_chain p <> None) && (howfar <=? ep_in_chain p) then
    Done (0, mkPtr (ep_pos p - howfar) (ep_chain p) (ep_in_chain p - howfar))
  else evbuffer_ptr_set b p (ep_pos p - howfar) EVBUFFER_PTR_SET.

(** ** Substrings *)

Fixpoint memcmp_loop (cs : list evbuffer_chain) (position : Z) (mem : list byte) : outcome Z :=
  match cs with
  | [] => Done 0
  | c :: next =>
      if zlen mem =? 0 then Done 0 else
      let n_comparable := if off c <? zlen mem + position then off c - position else zlen mem in
      d ← memread (misalign c + position) n_comparable (buffer c);
      let r := memcmp d (ztake n_comparable mem) in
      if negb (r =? 0) then Done r else memcmp_loop next 0 (zdrop n_comparable mem)
  end.

Definition evbuffer_ptr_memcmp (b : evbuffer) (pos : evbuffer_ptr) (mem : list byte) : outcome Z :=
  if (ep_pos pos <? 0) || (EV_SIZE_MAX - zlen mem <? ep_pos pos) || (total_len b <? ep_pos pos + zlen mem)
  then Done (-1)
  else cs ← from_chain b (ep_chain pos); memcmp_loop cs (ep_in_chain pos) mem.

(** The loop of [evbuffer_search_range]: a turn moves forward by a byte or to
    the next chain, so [fuel] above bytes plus chains suffices. *)
Fixpoint search_loop (fuel : nat) (b : evbuffer) (what : list byte) (end_ : option evbuffer_ptr)
    (cs : list evbuffer_chain) (i pos : Z) : outcome evbuffer_ptr :=
  match fuel with
  | O => Crash
  | S fuel =>
      match cs with
      | [] => Done PTR_NOT_FOUND
      | c :: next =>
          first ← deref (head what);
          d ← chain_rest c i;
          match memchr first d with
          | Some k =>
              let pos := pos + k in
              let i := i + k in
              r ← evbuffer_ptr_memcmp b (mkPtr pos (Some (c_addr c)) i) what;
              if r =? 0 then
                match end_ with
                | Some e => if ep_pos e <? pos + zlen what then Done PTR_NOT_FOUND
                            else Done (mkPtr pos (Some (c_addr c)) i)
                | None => Done (mkPtr pos (Some (c_addr c)) i)
                end
              else if i + 1 =? off c then search_loop fuel b what end_ next 0 (pos + 1)
              else search_loop fuel b what end_ (c :: next) (i + 1) (pos + 1)
          | None =>
              if (match end_ with Some e => bool_decide (ep_chain e = Some (c_addr c)) | None => false end)
              then Done PTR_NOT_FOUND
              else search_loop fuel b what end_ next 0 (pos + (off c - i))
          end
      end
  end.

Definition evbuffer_search_range (b : evbuffer) (what : list byte) (start end_ : option evbuffer_ptr)
    : outcome evbuffer_ptr :=
  let pos := match start with
             | Some p => p
             | None => mkPtr 0 (c_addr <$> head (chains b)) 0
             end in
  if (zlen what =? 0) || (EV_SSIZE_MAX <? zlen what) then Done pos else
  cs ← from_chain b (ep_chain pos);
  search_loop (S (Z.to_nat (total_len b) + length (chains b))) b what end_ cs (ep_in_chain pos) (ep_pos pos).

Definition evbuffer_search (b : evbuffer) (what : list byte) (start : option evbuffer_ptr)
    : outcome evbuffer_ptr := evbuffer_search_range b what start None.

(** ** Lines *)

Inductive evbuffer_eol_style :=
| EVBUFFER_EOL_ANY | EVBUFFER_EOL_CRLF | EVBUFFER_EOL_CRLF_STRICT | EVBUFFER_EOL_LF | EVBUFFER_EOL_NUL.

(** Position of the line end ([None]: not found) and its length. *)
Definition evbuffer_search_eol (b : evbuffer) (start : option evbuffer_ptr) (style : evbuffer_eol_style)
    : outcome (option evbuffer_ptr * Z) :=
  if (match start with Some p => bool_decide (ep_chain p = None) | None => false end)
  then Done (None, 0) else
  let it := match start with
            | Some p => p
            | None => mkPtr 0 (c_addr <$> head (chains b)) 0
            end in
  let after n (o : option evbuffer_ptr) : outcome (option evbuffer_ptr * Z) :=
    Done (o, match o with Some _ => n | None => 0 end) in
  match style with
  | EVBUFFER_EOL_ANY =>
      o ← evbuffer_find_eol_char b it;
      match o with
      | None => Done (None, 0)
      | Some it => n ← evbuffer_strspn b it [CR; LF]; Done (Some it, u64 n)
      end
  | EVBUFFER_EOL_CRLF_STRICT =>
      it ← evbuffer_search b [CR; LF] (Some it);
      if ep_pos it <? 0 then Done (None, 0) else Done (Some it, 2)
  | EVBUFFER_EOL_CRLF =>
      let start_pos := ep_pos it in
      o ← evbuffer_strchr b it LF;
      match o with
      | None => Done (None, 0)
      | Some it =>
          if ep_pos it =? start_pos then Done (Some it, 1) else
          '(r, it2) ← evbuffer_ptr_subtract b it 1;
          if r <? 0 then Done (Some it, 1) else
          c ← evbuffer_getchr b it2;
          if c =? byteZ CR then Done (Some it2, 2) else Done (Some it, 1)
      end
  | EVBUFFER_EOL_LF => o ← evbuffer_strchr b it LF; after 1 o
  | EVBUFFER_EOL_NUL => o ← evbuffer_strchr b it x00; after 1 o
  end.

(** [None] is [NULL]; otherwise the line without its terminator. *)
Definition evbuffer_readln (b : evbuffer) (style : evbuffer_eol_style) : M (option (list byte) * evbuffer) :=
  if freeze_start b then ret (None, b) else
  '(o, extra_drain) ← lift (evbuffer_search_eol b None style);
  match o with
  | None => ret (None, b)
  | Some it =>
      a ← mm_malloc;
      match a with
      | None => ret (None, b)
      | Some _ =>
          '(_, line, b) ← evbuffer_remove b (ep_pos it);
          '(_, b) ← evbuffer_drain b extra_drain;
          ret (Some line, b)
      end
  end.

Definition evbuffer_readline (b : evbuffer) : M (option (list byte) * evbuffer) :=
  evbuffer_readln b EVBUFFER_EOL_ANY.

(** ** Reference definitions on the byte sequence *)

Definition is_eol (x : byte) : bool := bool_decide (x = CR) || bool_decide (x = LF).

Definition starts_with (what s : list byte) : Prop := ztake (zlen what) s = what.
#[export] Instance starts_with_dec what s : Decision (starts_with what s).
Proof. unfold starts_with. solve_decision. Defined.

(** The first place where [what] occurs. *)
Fixpoint find_sub (what s : list byte) : option Z :=
  match s with
  | [] => None
  | x :: s' => if bool_decide (starts_with what s) then Some 0 else Z.add 1 <$> find_sub what s'
  end.

(** Where the first line ends and how long its terminator is. *)
Definition line_end (style : evbuffer_eol_style) (s : list byte) : option (Z * Z) :=
  match style with
  | EVBUFFER_EOL_ANY =>
      (fun n => (n, (spn [CR; LF] (zdrop n s)).1)) <$> find_idx is_eol s
  | EVBUFFER_EOL_CRLF_STRICT => (fun n => (n, 2)) <$> find_sub [CR; LF] s
  | EVBUFFER_EOL_CRLF =>
      (fun n => if bool_decide (0 < n /\ zsub (n - 1) 1 s = [CR]) then (n - 1, 2) else (n, 1))
        <$> memchr LF s
  | EVBUFFER_EOL_LF => (fun n => (n, 1)) <$> memchr LF s
  | EVBUFFER_EOL_NUL => (fun n => (n, 1)) <$> memchr x00 s
  end.

(** ** Lemmas on the primitives *)

Lemma find_idx_app P a b :
  find_idx P (a ++ b) =
  match find_idx P a with Some k => Some k | None => Z.add (zlen a) <$> find_idx P b end.
Proof.
  induction a as [|x a IH]; cbn [app find_idx].
  - rewrite zlen_nil. destruct (find_idx P b); [|done]. simpl. f_equal. 
  - destruct (P x); [done|]. rewrite IH, zlen_cons. destruct (find_idx P a), (find_idx P b); simpl; try done.
    f_equal. lia.
Qed.

Lemma find_idx_bound P l n : find_idx P l = Some n -> 0 <= n < zlen l.
Proof.
  revert n. induction l as [|x l IH]; intros n H; [done|]. cbn [find_idx] in H. rewrite zlen_cons.
  pose proof (zlen_nonneg l). destruct (P x); [simplify_eq; lia|].
  destruct (find_idx P l) as [k|]; [|done]. simpl in H. simplify_eq. specialize (IH k eq_refl). lia.
Qed.

Lemma find_idx_ext P Q l : (forall x, P x = Q x) -> find_idx P l = find_idx Q l.
Proof. intros H. induction l as [|x l IH]; [done|]. cbn [find_idx]. by rewrite H, IH. Qed.

(** The earlier of two searches. *)
Lemma find_idx_or P Q l :
  find_idx (fun x => P x || Q x) l =
  match find_idx P l, find_idx Q l with
  | Some i, Some j => if j <? i then Some j else Some i
  | Some i, None => Some i
  | None, o => o
  end.
Proof.
  induction l as [|x l IH]; [done|]. cbn [find_idx].
  destruct (P x) eqn:EP, (Q x) eqn:EQ; cbn [orb]; try done.
  - destruct (find_idx Q l) as [j|] eqn:Ej; [|done]. apply find_idx_bound in Ej. simpl.
    by rewrite (proj2 (Z.ltb_ge _ _)) by lia.
  - destruct (find_idx P l) as [j|] eqn:Ej; [|done]. apply find_idx_bound in Ej. simpl.
    by rewrite (proj2 (Z.ltb_lt _ _)) by lia.
  - rewrite IH. destruct (find_idx P l), (find_idx Q l); simpl; try done.
    destruct (_ <? _) eqn:E1; zb.
    + by rewrite (proj2 (Z.ltb_lt _ _)) by lia.
    + by rewrite (proj2 (Z.ltb_ge _ _)) by lia.
Qed.

(** The chunked search is the plain one. *)
Lemma find_eol_char_spec fuel s base :
  (length s < fuel)%nat -> find_eol_char fuel s base = Z.add base <$> find_idx is_eol s.
Proof.
  revert s base. induction fuel as [|fuel IH]; intros s base Hf; [lia|]. cbn [find_eol_char].
  destruct (0 <? zlen s) eqn:E0; zb.
  2: { rewrite (zlen_0_nil s); [done|]. pose proof (zlen_nonneg s). lia. }
  set (n := if _ <? _ then _ else _). unfold CHUNK_SZ in *.
  assert (Hs : s = ztake n s ++ zdrop 128 s).
  { subst n. destruct (128 <? zlen s) eqn:E1; zb; [by rewrite ztake_zdrop|].
    by rewrite ztake_all, zdrop_all, app_nil_r by lia. }
  transitivity (Z.add base <$> find_idx is_eol (ztake n s ++ zdrop 128 s)); [|by rewrite <- Hs].
  rewrite find_idx_app.
  assert (Hor : find_idx is_eol (ztake n s) =
    match memchr CR (ztake n s), memchr LF (ztake n s) with
    | Some i, Some j => if j <? i then Some j else Some i
    | Some i, None => Some i | None, o => o end)
    by (unfold is_eol, memchr; by rewrite find_idx_or).
  rewrite Hor. destruct (memchr CR (ztake n s)) as [cr|], (memchr LF (ztake n s)) as [lf|]; try done.
  { destruct (lf <? cr); done. }
  rewrite IH by (unfold zdrop; rewrite length_drop; unfold zlen in E0; lia).
  destruct (find_idx is_eol (zdrop 128 s)) as [k|] eqn:Ek; [|done]. simpl. f_equal.
  rewrite zlen_ztake. subst n. apply find_idx_bound in Ek. rewrite zlen_zdrop in Ek.
  destruct (128 <? zlen s) eqn:E1; zb; lia.
Qed.

Lemma memcmp_eq a b : length a = length b -> memcmp a b = 0 <-> a = b.
Proof.
  revert b. induction a as [|x a IH]; intros [|y b] Hl; simpl in *; try done.
  case_bool_decide as Hxy.
  - subst y. rewrite IH by lia. naive_solver.
  - split; [|naive_solver]. intros H. destruct Hxy. apply byteZ_inj. lia.
Qed.

Lemma spn_app set a b :
  spn set (a ++ b) = (let '(n, e) := spn set a in
                      if e then let '(m, f) := spn set b in (n + m, f) else (n, e)).
Proof.
  induction a as [|x a IH]; cbn [app spn].
  - by destruct (spn set b).
  - destruct (bool_decide _); [|done]. rewrite IH. destruct (spn set a) as [n e], (spn set b) as [m f].
    destruct e; f_equal; lia.
Qed.

Lemma spn_bound set l : 0 <= (spn set l).1 <= zlen l.
Proof.
  induction l as [|x l IH]; [done|]. cbn [spn]. rewrite zlen_cons.
  destruct (bool_decide _); [|simpl; pose proof (zlen_nonneg l); lia].
  destruct (spn set l) as [n e]. simpl in *. lia.
Qed.

(** ** Positions in a well-formed buffer *)

(** [p] stands for the byte at [ep_pos p]. *)
Definition at_byte (b : evbuffer) (p : evbuffer_ptr) : Prop :=
  exists k c rest, chains b = k ++ c :: rest /\ ep_chain p = Some (c_addr c) /\
    0 <= ep_in_chain p < off c /\ ep_pos p = sum_off k + ep_in_chain p.

(** [i] is a position in the first of the chains [cs]. *)
Definition in_first (cs : list evbuffer_chain) (i : Z) : Prop :=
  0 <= i /\ match cs with [] => i = 0 | c :: _ => i <= off c end.

Definition rest_bytes (cs : list evbuffer_chain) (i : Z) : list byte :=
  zdrop i (concat (chain_bytes <$> cs)).

Lemma in_first_0 cs : Forall chain_ok cs -> in_first cs 0.
Proof. intros H. split; [lia|]. destruct H as [|c cs [] _]; [done|lia]. Qed.

Lemma chain_rest_spec c i :
  chain_ok c -> 0 <= i <= off c -> chain_rest c i = Done (zdrop i (chain_bytes c)).
Proof.
  intros Hok Hi. pose proof Hok as [H1 H2 H3 H4 H5 _ _ _ _ _]. unfold chain_rest.
  change (EVBUFFER_CHAIN_MAX - EVBUFFER_CHAIN_SIZE) with 9223372036854775759 in H5.
  rewrite u64_small by lia. rewrite memread_done by lia. f_equal. unfold chain_bytes.
  replace (off c) with (i + (off c - i)) at 2 by lia. rewrite zsub_split by lia.
  rewrite zdrop_app_ge by (rewrite zlen_zsub; lia). rewrite zlen_zsub by lia.
  by rewrite Z.sub_diag, zdrop_nonpos by lia.
Qed.

Lemma rest_bytes_cons c cs i :
  chain_ok c -> i <= off c ->
  rest_bytes (c :: cs) i = zdrop i (chain_bytes c) ++ concat (chain_bytes <$> cs).
Proof.
  intros Hok Hi. unfold rest_bytes. cbn [fmap list_fmap concat].
  rewrite zdrop_app_le by (rewrite chain_bytes_len; done). done.
Qed.

Lemma rest_bytes_0 cs : rest_bytes cs 0 = concat (chain_bytes <$> cs).
Proof. unfold rest_bytes. by apply zdrop_nonpos. Qed.

Lemma suffix_at_spec k c rest :
  NoDup (c_addr <$> (k ++ c :: rest)) -> suffix_at (c_addr c) (k ++ c :: rest) = Done (c :: rest).
Proof.
  induction k as [|d k IH]; intros Hnd; simpl; [by rewrite Z.eqb_refl|].
  cbn [app fmap list_fmap] in Hnd. apply NoDup_cons in Hnd as [Hd Hnd].
  rewrite (proj2 (Z.eqb_neq _ _)); [by apply IH|]. intros Heq. apply Hd. rewrite Heq, fmap_app. set_solver.
Qed.

Lemma from_first w b : wf w b -> from_chain b (c_addr <$> head (chains b)) = Done (chains b).
Proof.
  intros Hwf. pose proof (wf_nodup w b Hwf) as Hnd. unfold from_chain.
  destruct (chains b) as [|c cs]; [done|]. apply (suffix_at_spec [] c cs Hnd).
Qed.

Lemma from_at_byte w b p :
  wf w b -> at_byte b p ->
  exists k c rest, chains b = k ++ c :: rest /\ from_chain b (ep_chain p) = Done (c :: rest) /\
    0 <= ep_in_chain p < off c /\ ep_pos p = sum_off k + ep_in_chain p /\ chain_ok c /\
    Forall chain_ok rest.
Proof.
  intros Hwf (k & c & rest & Hc & Ha & Hi & Hp). exists k, c, rest. rewrite Ha. simpl.
  pose proof (wf_nodup w b Hwf) as Hnd. pose proof (wf_chains w b Hwf) as Hok.
  rewrite Hc in *. rewrite suffix_at_spec by done. rewrite Forall_app, Forall_cons in Hok.
  split_and!; tauto || done.
Qed.

(** The bytes from a position on. *)
Lemma rest_content w b k cs i :
  wf w b -> chains b = k ++ cs -> 0 <= i -> rest_bytes cs i = zdrop (sum_off k + i) (content b).
Proof.
  intros Hwf Hc Hi. pose proof (wf_chains w b Hwf) as Hok. rewrite Hc, Forall_app in Hok.
  unfold content, rest_bytes. rewrite Hc, content_app.
  pose proof (sum_off_nonneg k (proj1 Hok)).
  rewrite zdrop_app_ge by (rewrite content_len by tauto; lia). rewrite content_len by tauto.
  f_equal. lia.
Qed.

(** ** The walks *)

Lemma scan_chains_spec P find b k cs i :
  (forall s, find s = find_idx P s) -> Forall chain_ok cs -> chains b = k ++ cs -> in_first cs i ->
  exists o, scan_chains find cs i (sum_off k + i) = Done o /\
    match find_idx P (rest_bytes cs i) with
    | Some n => exists p, o = Some p /\ ep_pos p = sum_off k + i + n /\ at_byte b p
    | None => o = None
    end.
Proof.
  intros Hf Hok. revert k i. induction Hok as [|c cs Hc Hcs IH]; intros k i Hb [Hi0 Hi].
  { subst i. exists None. split; [done|]. unfold rest_bytes. simpl. done. }
  cbn [scan_chains]. rewrite chain_rest_spec by (auto; lia). cbn [mbind outcome_bind].
  rewrite Hf, rest_bytes_cons, find_idx_app by (auto; lia).
  destruct (find_idx P (zdrop i (chain_bytes c))) as [n|] eqn:E.
  - apply find_idx_bound in E. rewrite zlen_zdrop, chain_bytes_len in E by done.
    eexists. split; [done|]. eexists. split; [done|]. split; [done|].
    exists k, c, cs. simpl. split_and!; auto; lia.
  - destruct (IH (k ++ [c]) 0) as (o & Hs & Ho);
      [by rewrite <- app_assoc|by apply in_first_0|].
    replace (sum_off k + i + (off c - i)) with (sum_off (k ++ [c]) + 0)
      by (rewrite sum_off_app; simpl; lia).
    exists o. split; [done|]. rewrite rest_bytes_0 in Ho.
    destruct (find_idx P (concat (chain_bytes <$> cs))) as [m|]; simpl; [|done].
    destruct Ho as (p & -> & Hp & Hat). exists p. split; [done|]. split; [|done].
    rewrite Hp, zlen_zdrop, chain_bytes_len, sum_off_app by done. simpl. lia.
Qed.

Lemma strspn_loop_spec set cs i count :
  Forall chain_ok cs -> in_first cs i ->
  strspn_loop set cs i count = Done (count + (spn set (rest_bytes cs i)).1).
Proof.
  intros Hok. revert i count. induction Hok as [|c cs Hc Hcs IH]; intros i count [Hi0 Hi].
  { subst i. unfold rest_bytes. simpl. by rewrite Z.add_0_r. }
  cbn [strspn_loop]. rewrite chain_rest_spec by (auto; lia). cbn [mbind outcome_bind].
  rewrite rest_bytes_cons, spn_app by (auto; lia).
  destruct (spn set (zdrop i (chain_bytes c))) as [n e]. destruct e; [|done].
  rewrite IH by (by apply in_first_0). rewrite rest_bytes_0.
  destruct (spn set (concat _)) as [m f]. simpl. f_equal. lia.
Qed.

Lemma ptr_walk_spec b k cs position left :
  Forall chain_ok cs -> chains b = k ++ cs -> 0 <= sum_off k -> in_first cs position -> 0 <= left ->
  sum_off k + position + left < sum_off (k ++ cs) -> sum_off (k ++ cs) <= EV_SIZE_MAX ->
  exists p, ptr_walk cs position left (sum_off k + position + left) = (0, p) /\ at_byte b p /\
    ep_pos p = sum_off k + position + left.
Proof.
  intros Hok. revert k position left. induction Hok as [|c cs Hc Hcs IH]; intros k position left Hb Hk0 [Hi0 Hi] Hl Hlt Hmx.
  { rewrite app_nil_r in Hlt. lia. }
  cbn [ptr_walk]. destruct (off c <=? position + left) eqn:E; zb.
  - assert (Hk : (k ++ [c]) ++ cs = k ++ c :: cs) by (by rewrite <- app_assoc).
    pose proof (sum_off_nonneg cs Hcs). rewrite sum_off_app in Hlt, Hmx. simpl in Hlt, Hmx.
    fold (sum_off cs) in Hlt, Hmx.
    rewrite u64_small by (unfold EV_SIZE_MAX in *; lia).
    destruct (IH (k ++ [c]) 0 (left - (off c - position))) as (p & Hp & Hat & Hpos).
    + by rewrite Hk.
    + rewrite sum_off_app. simpl. lia.
    + by apply in_first_0.
    + lia.
    + rewrite Hk, !sum_off_app. simpl. fold (sum_off cs). lia.
    + rewrite Hk, sum_off_app. simpl. fold (sum_off cs). lia.
    + rewrite sum_off_app in *. simpl in Hp, Hpos.
      replace (sum_off k + (off c + 0) + 0 + (left - (off c - position)))
        with (sum_off k + position + left) in * by lia.
      exists p. done.
  - eexists. split; [done|]. split; [|done]. exists k, c, cs. simpl. split_and!; auto; lia.
Qed.

(** ** Substring search *)

Lemma starts_with_app what a b :
  starts_with what (a ++ b) <->
  ztake (zlen what) a = ztake (zlen a) what /\
  (zlen a < zlen what -> starts_with (zdrop (zlen a) what) b).
Proof.
  unfold starts_with. destruct (decide (zlen what <= zlen a)) as [Hle|Hgt].
  - rewrite ztake_app_le, (ztake_all (zlen a) what) by lia. split; [intros ->; split; [done|lia]|tauto].
  - rewrite ztake_app_ge, (ztake_all (zlen what) a) by lia. rewrite zlen_zdrop.
    pose proof (zlen_nonneg a). replace (Z.max 0 (zlen what - Z.max 0 (zlen a))) with (zlen what - zlen a) by lia.
    split.
    + intros Hw. set (t := ztake (zlen what - zlen a) b) in *. clearbody t.
      rewrite <- Hw, ztake_app_le, ztake_all by lia. split; [done|]. intros _.
      by rewrite zdrop_app_ge, Z.sub_diag, zdrop_nonpos by lia.
    + intros [Ha Hb]. rewrite Hb by lia. rewrite Ha at 1. apply ztake_zdrop.
Qed.

Lemma memcmp_loop_spec cs i mem :
  Forall chain_ok cs -> in_first cs i -> zlen mem <= zlen (rest_bytes cs i) ->
  exists r, memcmp_loop cs i mem = Done r /\ (r = 0 <-> starts_with mem (rest_bytes cs i)).
Proof.
  intros Hok. revert i mem. induction Hok as [|c cs Hc Hcs IH]; intros i mem [Hi0 Hi] Hm.
  { subst i. unfold rest_bytes in *. simpl in *. rewrite zlen_nil in Hm.
    pose proof (zlen_nonneg mem). rewrite (zlen_0_nil mem) by lia. by exists 0. }
  cbn [memcmp_loop]. rewrite rest_bytes_cons in * by (auto; lia).
  destruct (zlen mem =? 0) eqn:E0; zb; [rewrite (zlen_0_nil mem) by done; by exists 0|].
  pose proof (zlen_nonneg mem). pose proof Hc as [H1 H2 H3 H4 _ _ _ _ _ _].
  set (X := zdrop i (chain_bytes c)) in *.
  assert (HX : zlen X = off c - i) by (subst X; rewrite zlen_zdrop, chain_bytes_len by done; lia).
  set (n := if _ <? _ then _ else _).
  assert (Hn : n = Z.min (zlen X) (zlen mem)) by (subst n; case_test; zb; lia). clearbody n.
  assert (Hd : memread (misalign c + i) n (buffer c) = Done (ztake n X)).
  { rewrite memread_done by lia. f_equal. subst X. unfold chain_bytes.
    replace (off c) with (i + (off c - i)) by lia. rewrite zsub_split by lia.
    rewrite zdrop_app_ge by (rewrite zlen_zsub; lia). rewrite zlen_zsub, Z.sub_diag, zdrop_nonpos by lia.
    replace (off c - i) with (n + (off c - i - n)) by lia. rewrite zsub_split by lia.
    rewrite ztake_app_le, ztake_all by (rewrite zlen_zsub; lia). done. }
  rewrite Hd. cbn [mbind outcome_bind].
  assert (Hlen : length (ztake n X) = length (ztake n mem)).
  { apply Nat2Z.inj. change (zlen (ztake n X) = zlen (ztake n mem)). rewrite !zlen_ztake. lia. }
  pose proof (memcmp_eq _ _ Hlen) as Hcmp.
  assert (Hsame : ztake n X = ztake n mem <-> ztake (zlen mem) X = ztake (zlen X) mem).
  { destruct (decide (zlen X <= zlen mem)).
    - replace n with (zlen X) by lia. by rewrite (ztake_all (zlen X) X), (ztake_all (zlen mem) X) by lia.
    - replace n with (zlen mem) by lia. by rewrite (ztake_all (zlen mem) mem), (ztake_all (zlen X) mem) by lia. }
  destruct (negb (memcmp (ztake n X) (ztake n mem) =? 0)) eqn:Er; zb.
  - eexists. split; [done|]. rewrite starts_with_app. split; [done|]. intros [H' _].
    apply Hsame in H'. apply Hcmp in H'. done.
  - apply Hcmp in Er. destruct (decide (zlen X < zlen mem)) as [Hlt|Hge].
    + replace n with (zlen X) in * by lia.
      destruct (IH 0 (zdrop (zlen X) mem)) as (r & -> & Hr); [by apply in_first_0| |].
      { rewrite rest_bytes_0, zlen_zdrop. rewrite zlen_app in Hm. lia. }
      exists r. split; [done|]. rewrite rest_bytes_0 in Hr. rewrite starts_with_app, Hr.
      rewrite <- Hsame. tauto.
    + exists 0. rewrite zdrop_all by lia. split; [by destruct cs|]. rewrite starts_with_app, <- Hsame.
      split; [|done]. intros _. split; [done|lia].
Qed.

Lemma starts_with_head f what s : starts_with (f :: what) s -> exists t, s = f :: t.
Proof.
  unfold starts_with. rewrite zlen_cons. pose proof (zlen_nonneg what).
  destruct s as [|x s]; unfold ztake; [by rewrite take_nil|].
  replace (Z.to_nat (1 + zlen what)) with (S (Z.to_nat (zlen what))) by lia. simpl. intros [= -> _]. eauto.
Qed.

Lemma add_0_fmap (o : option Z) : Z.add 0 <$> o = o.
Proof. by destruct o. Qed.

(** Bytes other than the first one of [what] can be skipped. *)
Lemma find_sub_skip f what X Y :
  find_sub (f :: what) (X ++ Y) =
  match memchr f X with
  | Some n => Z.add n <$> find_sub (f :: what) (zdrop n (X ++ Y))
  | None => Z.add (zlen X) <$> find_sub (f :: what) Y
  end.
Proof.
  induction X as [|x X IH]; cbn [app].
  - rewrite zlen_nil. simpl. destruct (find_sub _ Y); [|done]. simpl. f_equal.
  - unfold memchr in *. cbn [find_idx]. case_bool_decide as Hx.
    + rewrite zdrop_nonpos by lia. by rewrite add_0_fmap.
    + cbn [find_sub]. rewrite bool_decide_false
        by (intros Hs; apply starts_with_head in Hs as [t Ht]; congruence).
      rewrite IH. destruct (find_idx _ X) as [n|] eqn:En; simpl.
      * apply find_idx_bound in En.
        replace (zdrop (1 + n) (x :: X ++ Y)) with (zdrop n (X ++ Y)).
        -- destruct (find_sub (f :: what) (zdrop n (X ++ Y))); [|done]. simpl. f_equal. lia.
        -- unfold zdrop. by replace (Z.to_nat (1 + n)) with (S (Z.to_nat n)) by lia.
      * rewrite zlen_cons. destruct (find_sub _ Y); [|done]. simpl. f_equal. lia.
Qed.

Lemma find_sub_here what s : s <> [] -> starts_with what s -> find_sub what s = Some 0.
Proof. intros Hs Hp. destruct s; [done|]. cbn [find_sub]. by rewrite bool_decide_true. Qed.

Lemma find_sub_next what x s : ~ starts_with what (x :: s) -> find_sub what (x :: s) = Z.add 1 <$> find_sub what s.
Proof. intros Hp. cbn [find_sub]. by rewrite bool_decide_false. Qed.

Lemma ptr_memcmp_spec w b k c next i what :
  wf w b -> total_len b <= EV_SSIZE_MAX -> zlen what <= EV_SSIZE_MAX ->
  chains b = k ++ c :: next -> 0 <= i <= off c ->
  exists r, evbuffer_ptr_memcmp b (mkPtr (sum_off k + i) (Some (c_addr c)) i) what = Done r /\
    (r = 0 <-> starts_with what (rest_bytes (c :: next) i)).
Proof.
  intros Hwf Hm Hw Hc Hi. unfold evbuffer_ptr_memcmp. simpl ep_pos. simpl ep_chain. simpl ep_in_chain.
  pose proof (wf_chains w b Hwf) as Hok. rewrite Hc, Forall_app, Forall_cons in Hok.
  destruct Hok as (Hokk & Hokc & Hokn). pose proof (sum_off_nonneg k Hokk). pose proof (sum_off_nonneg next Hokn).
  pose proof (wf_total w b Hwf) as Ht. rewrite Hc, sum_off_app in Ht. simpl in Ht. fold (sum_off next) in Ht.
  pose proof (rest_content w b k (c :: next) i Hwf Hc ltac:(lia)) as Hrc.
  assert (Hlen : zlen (rest_bytes (c :: next) i) = total_len b - (sum_off k + i)).
  { rewrite Hrc, zlen_zdrop, <- (total_content w b) by done. lia. }
  rewrite (proj2 (Z.ltb_ge _ _)) by lia.
  rewrite (proj2 (Z.ltb_ge _ _)) by (unfold EV_SIZE_MAX, EV_SSIZE_MAX in *; lia). cbn [orb].
  destruct (total_len b <? sum_off k + i + zlen what) eqn:E; zb.
  - exists (-1). split; [done|]. split; [done|]. unfold starts_with. intros Hs.
    apply (f_equal zlen) in Hs. rewrite zlen_ztake in Hs. pose proof (zlen_nonneg what). lia.
  - simpl from_chain. pose proof (wf_nodup w b Hwf) as Hnd. rewrite Hc in Hnd |- *.
    rewrite suffix_at_spec by done. cbn [mbind outcome_bind]. apply memcmp_loop_spec.
    + by constructor.
    + split; [lia|simpl; lia].
    + lia.
Qed.

Lemma search_loop_spec w b what f fuel k cs i :
  wf w b -> total_len b <= EV_SSIZE_MAX -> zlen (f :: what) <= EV_SSIZE_MAX ->
  chains b = k ++ cs -> in_first cs i ->
  (Z.to_nat (zlen (rest_bytes cs i)) + length cs < fuel)%nat ->
  exists p, search_loop fuel b (f :: what) None cs i (sum_off k + i) = Done p /\
    match find_sub (f :: what) (rest_bytes cs i) with
    | Some n => at_byte b p /\ ep_pos p = sum_off k + i + n
    | None => p = PTR_NOT_FOUND
    end.
Proof.
  intros Hwf Hm Hw. revert k cs i. induction fuel as [|fuel IH]; intros k cs i Hc [Hi0 Hi] Hf; [lia|].
  destruct cs as [|c next]; cbn [search_loop].
  { subst i. exists PTR_NOT_FOUND. done. }
  pose proof (wf_chains w b Hwf) as Hok. rewrite Hc, Forall_app, Forall_cons in Hok.
  destruct Hok as (Hokk & Hokc & Hokn). change (deref (head (f :: what))) with (Done f).
  cbn [mbind outcome_bind].
  rewrite chain_rest_spec by (auto; lia). cbn [mbind outcome_bind].
  rewrite rest_bytes_cons in * by (auto; lia). set (X := zdrop i (chain_bytes c)) in *.
  set (Y := concat (chain_bytes <$> next)) in *.
  assert (HX : zlen X = off c - i) by (subst X; rewrite zlen_zdrop, chain_bytes_len by done; lia).
  pose proof (find_sub_skip f what X Y) as Hskip.
  assert (Hnext : forall pos j, pos = sum_off (k ++ [c]) -> 0 <= j ->
    (find_sub (f :: what) (X ++ Y) = Z.add j <$> find_sub (f :: what) Y) -> pos = sum_off k + i + j ->
    exists p, search_loop fuel b (f :: what) None next 0 pos = Done p /\
      match find_sub (f :: what) (X ++ Y) with
      | Some n => at_byte b p /\ ep_pos p = sum_off k + i + n
      | None => p = PTR_NOT_FOUND end).
  { intros pos j Hpos Hj Hfs Hpj. destruct (IH (k ++ [c]) next 0) as (p & Hp & Hr).
    - by rewrite <- app_assoc.
    - by apply in_first_0.
    - rewrite rest_bytes_0. fold Y. simpl in Hf. rewrite zlen_app in Hf.
      pose proof (zlen_nonneg X). pose proof (zlen_nonneg Y). lia.
    - rewrite Z.add_0_r in *. subst pos. exists p. split; [done|]. rewrite Hfs.
      rewrite rest_bytes_0 in Hr. fold Y in Hr. destruct (find_sub (f :: what) Y); simpl; [|done].
      destruct Hr as [? Hr]. split; [done|]. rewrite Hr. lia. }
  destruct (memchr f X) as [n|] eqn:En; cycle 1.
  { cbv iota. apply (Hnext _ (zlen X)); auto; [|apply zlen_nonneg|lia]. rewrite sum_off_app. simpl. lia. }
  apply find_idx_bound in En as Hn.
  destruct (ptr_memcmp_spec w b k c next (i + n) (f :: what)) as (r & Hr & Hiff); auto; [lia|].
  rewrite Z.add_assoc in Hr. rewrite Hr. cbn [mbind outcome_bind].
  rewrite rest_bytes_cons in Hiff by (auto; lia).
  assert (Hdr : zdrop (i + n) (chain_bytes c) = zdrop n X) by (subst X; rewrite zdrop_zdrop by lia; done).
  rewrite Hdr in Hiff. fold Y in Hiff. rewrite <- zdrop_app_le in Hiff by lia.
  destruct (zdrop n (X ++ Y)) as [|x s] eqn:Es.
  { apply (f_equal zlen) in Es. rewrite zlen_zdrop, zlen_app, zlen_nil in Es. pose proof (zlen_nonneg Y). lia. }
  destruct (r =? 0) eqn:Er; zb.
  - apply Hiff in Er. eexists. split; [done|]. rewrite Hskip, (find_sub_here _ (x :: s)) by done.
    simpl. rewrite Z.add_0_r. split; [|done]. exists k, c, next. simpl. split_and!; auto; lia.
  - assert (Hns : ~ starts_with (f :: what) (x :: s)) by tauto.
    rewrite find_sub_next in Hskip by done.
    assert (Htail : s = zdrop (n + 1) (X ++ Y)).
    { rewrite <- zdrop_zdrop, Es by lia. done. }
    destruct (i + n + 1 =? off c) eqn:Elast; zb.
    + apply (Hnext _ (n + 1)); [rewrite sum_off_app; simpl; lia|lia| |lia].
      rewrite Hskip, Htail, zdrop_app_ge by lia.
      replace (n + 1 - zlen X) with 0 by lia. rewrite zdrop_nonpos by lia.
      destruct (find_sub (f :: what) Y); [|done]. simpl. f_equal. lia.
    + destruct (IH k (c :: next) (i + n + 1)) as (p & Hp & Hres); auto.
      * split; [lia|simpl; lia].
      * rewrite rest_bytes_cons by (auto; lia). fold Y. simpl length in *.
        rewrite zlen_app, zlen_zdrop, chain_bytes_len by done. rewrite zlen_app in Hf.
        pose proof (zlen_nonneg Y). lia.
      * replace (sum_off k + i + n + 1) with (sum_off k + (i + n + 1)) by lia. exists p. split; [done|].
        rewrite rest_bytes_cons in Hres by (auto; lia).
        assert (Hd2 : zdrop (i + n + 1) (chain_bytes c) = zdrop (n + 1) X)
          by (subst X; rewrite zdrop_zdrop by lia; f_equal; lia).
        rewrite Hd2 in Hres. fold Y in Hres. rewrite <- zdrop_app_le, <- Htail in Hres by lia.
        rewrite Hskip. destruct (find_sub (f :: what) s); simpl; [|done].
        destruct Hres as [? ->]. split; [done|lia].
Qed.

(** ** Line ends *)

Definition first_ptr (b : evbuffer) : evbuffer_ptr := mkPtr 0 (c_addr <$> head (chains b)) 0.

(** A search over the whole buffer. *)
Lemma scan_all w b P find :
  wf w b -> (forall s, find s = find_idx P s) ->
  exists o, (cs ← from_chain b (ep_chain (first_ptr b));
             scan_chains find cs (ep_in_chain (first_ptr b)) (ep_pos (first_ptr b))) = Done o /\
    match find_idx P (content b) with
    | Some n => exists p, o = Some p /\ ep_pos p = n /\ at_byte b p
    | None => o = None
    end.
Proof.
  intros Hwf Hf. cbn [first_ptr ep_chain ep_in_chain ep_pos]. rewrite (from_first w b Hwf). cbn [mbind outcome_bind].
  destruct (scan_chains_spec P find b [] (chains b) 0 Hf) as (o & Hs & Ho);
    [apply Hwf|done|apply in_first_0, Hwf|].
  simpl in Hs. exists o. split; [done|]. rewrite rest_bytes_0 in Ho. exact Ho.
Qed.

Lemma at_byte_rest w b p :
  wf w b -> at_byte b p ->
  exists c rest, from_chain b (ep_chain p) = Done (c :: rest) /\ Forall chain_ok (c :: rest) /\
    0 <= ep_in_chain p < off c /\ rest_bytes (c :: rest) (ep_in_chain p) = zdrop (ep_pos p) (content b) /\
    0 <= ep_pos p < zlen (content b).
Proof.
  intros Hwf Hat. destruct (from_at_byte w b p Hwf Hat) as (k & c & rest & Hc & Hf & Hi & Hp & Hok & Hokr).
  exists c, rest. split_and!; auto; try lia.
  - rewrite Hp. apply (rest_content w b k (c :: rest)); auto. lia.
  - pose proof (wf_chains w b Hwf) as Hcs. rewrite Hc, Forall_app in Hcs.
    pose proof (sum_off_nonneg k (proj1 Hcs)). lia.
  - rewrite <- (total_content w b), (wf_total w b), Hc, sum_off_app by done. simpl.
    pose proof (sum_off_nonneg rest Hokr). unfold sum_off in *. lia.
Qed.

Lemma strspn_spec w b p set :
  wf w b -> at_byte b p -> total_len b <= INT_MAX ->
  evbuffer_strspn b p set = Done (spn set (zdrop (ep_pos p) (content b))).1.
Proof.
  intros Hwf Hat Hm. destruct (at_byte_rest w b p Hwf Hat) as (c & rest & Hf & Hok & Hi & Hr & Hp).
  unfold evbuffer_strspn. rewrite Hf. cbn [mbind outcome_bind].
  rewrite strspn_loop_spec; [|done|split; [lia|simpl; lia]]. cbn [mbind outcome_bind]. rewrite Hr.
  pose proof (spn_bound set (zdrop (ep_pos p) (content b))) as Hb. rewrite zlen_zdrop in Hb.
  rewrite (total_content w b Hwf) in Hm. unfold INT_MAX in Hm. by rewrite i32_small by lia.
Qed.

Lemma getchr_spec w b p :
  wf w b -> at_byte b p ->
  exists x, evbuffer_getchr b p = Done (byteZ x) /\ zsub (ep_pos p) 1 (content b) = [x].
Proof.
  intros Hwf Hat. destruct (at_byte_rest w b p Hwf Hat) as (c & rest & Hf & Hok & Hi & Hr & Hp).
  destruct Hat as (k & c' & rest' & _ & Ha & _ & _). unfold evbuffer_getchr. rewrite Ha in *. simpl in Hf.
  rewrite Hf. cbn [mbind outcome_bind head deref]. apply Forall_cons in Hok as [Hc _].
  pose proof Hc as [H1 H2 H3 H4 _ _ _ _ _ _]. rewrite memread_done by lia. cbn [mbind outcome_bind].
  unfold zsub at 2. rewrite <- Hr, rest_bytes_cons by (auto; lia).
  assert (Hz : zsub (misalign c + ep_in_chain p) 1 (buffer c) = ztake 1 (zdrop (ep_in_chain p) (chain_bytes c))).
  { unfold chain_bytes. replace (off c) with (ep_in_chain p + (1 + (off c - ep_in_chain p - 1))) by lia.
    rewrite zsub_split by lia. rewrite zdrop_app_ge by (rewrite zlen_zsub; lia).
    rewrite zlen_zsub, Z.sub_diag, zdrop_nonpos by lia. rewrite zsub_split by lia.
    by rewrite ztake_app_le, ztake_all by (rewrite zlen_zsub; lia). }
  assert (Hl : zlen (zdrop (ep_in_chain p) (chain_bytes c)) = off c - ep_in_chain p)
    by (rewrite zlen_zdrop, chain_bytes_len by done; lia).
  rewrite ztake_app_le by lia. rewrite Hz.
  destruct (zdrop (ep_in_chain p) (chain_bytes c)) as [|x l]; [rewrite zlen_nil in Hl; lia|].
  exists x. done.
Qed.

Lemma ptr_subtract_one w b p :
  wf w b -> at_byte b p -> 0 < ep_pos p ->
  exists q, evbuffer_ptr_subtract b p 1 = Done (0, q) /\ at_byte b q /\ ep_pos q = ep_pos p - 1.
Proof.
  intros Hwf Hat Hpos. destruct (at_byte_rest w b p Hwf Hat) as (_ & _ & _ & _ & _ & _ & Hlt).
  destruct Hat as (k & c & rest & Hc & Ha & Hi & Hp). unfold evbuffer_ptr_subtract.
  rewrite (proj2 (Z.ltb_ge _ _)) by lia. rewrite (proj2 (Z.ltb_ge _ _)) by lia.
  rewrite bool_decide_true by (by rewrite Ha). cbn [andb].
  destruct (1 <=? ep_in_chain p) eqn:E; zb.
  - eexists. split; [done|]. split; [|done]. exists k, c, rest. simpl. split_and!; auto; lia.
  - pose proof (wf_max w b Hwf) as Hmx. pose proof (total_content w b Hwf) as Ht.
    unfold evbuffer_ptr_set. rewrite (proj2 (Z.leb_le _ _)) by (unfold EV_SIZE_MAX in *; lia).
    cbn [assert_c mbind outcome_bind].
    destruct (ptr_walk_spec b [] (chains b) 0 (ep_pos p - 1)) as (q & Hq & Hatq & Hpq);
      [apply Hwf|done|done|apply in_first_0, Hwf|lia|..].
    + simpl. rewrite <- (wf_total w b Hwf). lia.
    + simpl. by rewrite <- (wf_total w b Hwf).
    + change (sum_off [] + 0 + (ep_pos p - 1)) with (ep_pos p - 1) in Hq, Hpq. exists q. by rewrite Hq.
Qed.

Lemma search_all w b f what start :
  wf w b -> total_len b <= EV_SSIZE_MAX -> zlen (f :: what) <= EV_SSIZE_MAX ->
  start = None \/ start = Some (first_ptr b) ->
  exists p, evbuffer_search b (f :: what) start = Done p /\
    match find_sub (f :: what) (content b) with
    | Some n => at_byte b p /\ ep_pos p = n
    | None => p = PTR_NOT_FOUND
    end.
Proof.
  intros Hwf Hm Hl Hst. unfold evbuffer_search, evbuffer_search_range.
  rewrite (proj2 (Z.ltb_ge _ _)) by done. rewrite orb_false_r.
  rewrite (proj2 (Z.eqb_neq _ _)) by (rewrite zlen_cons; pose proof (zlen_nonneg what); lia).
  assert (Hpos : (match start with Some p => p | None => mkPtr 0 (c_addr <$> head (chains b)) 0 end) = first_ptr b)
    by (by destruct Hst as [-> | ->]). rewrite Hpos.
  cbn [first_ptr ep_chain ep_in_chain ep_pos]. rewrite (from_first w b Hwf). cbn [mbind outcome_bind].
  pose proof (search_loop_spec w b what f (S (Z.to_nat (total_len b) + length (chains b))) [] (chains b) 0 Hwf Hm) as Hs.
  rewrite rest_bytes_0 in Hs. fold (content b) in Hs. apply Hs; auto; [apply in_first_0, Hwf|].
  rewrite <- (total_content w b) by done. lia.
Qed.

(** [find_sub] is the first occurrence. *)
Lemma find_sub_first what s n :
  find_sub what s = Some n ->
  0 <= n /\ starts_with what (zdrop n s) /\ forall m, 0 <= m < n -> ~ starts_with what (zdrop m s).
Proof.
  revert n. induction s as [|x s IH]; intros n H; [done|]. cbn [find_sub] in H. case_bool_decide as Hp.
  - injection H as <-. rewrite zdrop_nonpos by lia. split_and!; [lia|done|lia].
  - destruct (find_sub what s) as [k|]; [|done]. simpl in H. injection H as <-.
    destruct (IH k eq_refl) as (Hk & Hat & Hno).
    assert (Hz : forall m, 0 <= m -> zdrop (1 + m) (x :: s) = zdrop m s)
      by (intros m Hm; unfold zdrop; by replace (Z.to_nat (1 + m)) with (S (Z.to_nat m)) by lia).
    split_and!; [lia|by rewrite Hz|]. intros m Hm. destruct (decide (m = 0)) as [->|].
    + by rewrite zdrop_nonpos.
    + replace m with (1 + (m - 1)) by lia. rewrite Hz by lia. apply Hno. lia.
Qed.

Lemma find_sub_none what s m :
  find_sub what s = None -> what <> [] -> 0 <= m -> ~ starts_with what (zdrop m s).
Proof.
  revert m. induction s as [|x s IH]; intros m H Hw Hm.
  - unfold zdrop. rewrite drop_nil. unfold starts_with, ztake. rewrite take_nil. congruence.
  - cbn [find_sub] in H. case_bool_decide as Hp; [done|].
    destruct (find_sub what s) eqn:E; [done|]. destruct (decide (m = 0)) as [->|].
    + by rewrite zdrop_nonpos.
    + unfold zdrop. replace (Z.to_nat m) with (S (Z.to_nat (m - 1))) by lia. apply IH; auto. lia.
Qed.

Lemma search_eol_spec w b style :
  wf w b -> total_len b <= INT_MAX ->
  exists o n, evbuffer_search_eol b None style = Done (o, n) /\
    match line_end style (content b) with
    | Some (p, k) => exists it, o = Some it /\ ep_pos it = p /\ n = k /\ 0 <= p
    | None => o = None
    end.
Proof.
  intros Hwf Hm. unfold evbuffer_search_eol. fold (first_ptr b). cbv iota.
  assert (Hchr : forall x, exists o, evbuffer_strchr b (first_ptr b) x = Done o /\
    match memchr x (content b) with
    | Some n => exists p, o = Some p /\ ep_pos p = n /\ at_byte b p
    | None => o = None end) by (intros x; by apply (scan_all w)).
  destruct style; unfold line_end.
  - destruct (scan_all w b is_eol (fun s => find_eol_char (S (length s)) s 0) Hwf) as (o & Ho & Hr).
    { intros s. rewrite find_eol_char_spec by lia. by destruct (find_idx is_eol s). }
    unfold evbuffer_find_eol_char. rewrite Ho. cbn [mbind outcome_bind].
    destruct (find_idx is_eol (content b)) as [n|] eqn:En; [|subst o; by exists None, 0].
    destruct Hr as (p & -> & Hp & Hat). rewrite (strspn_spec w) by done. cbn [mbind outcome_bind].
    pose proof (spn_bound [CR; LF] (zdrop (ep_pos p) (content b))) as Hb. rewrite zlen_zdrop in Hb.
    rewrite (total_content w b Hwf) in Hm. unfold INT_MAX in Hm. rewrite u64_small by lia.
    eexists _, _. split; [done|]. exists p. apply find_idx_bound in En. split_and!; auto; [by rewrite Hp|lia].
  - destruct (Hchr LF) as (o & -> & Hr). cbn [mbind outcome_bind].
    destruct (memchr LF (content b)) as [n|] eqn:En; [|subst o; by exists None, 0].
    destruct Hr as (p & -> & Hp & Hat). apply find_idx_bound in En. cbn [first_ptr ep_pos]. rewrite Hp. simpl.
    destruct (n =? 0) eqn:E0; zb.
    { rewrite bool_decide_false by lia. eexists _, _. split; [done|]. exists p. split_and!; auto; lia. }
    destruct (ptr_subtract_one w b p Hwf Hat) as (q & -> & Hatq & Hq); [lia|]. cbn [mbind outcome_bind].
    change (0 <? 0) with false. cbv iota.
    destruct (getchr_spec w b q Hwf Hatq) as (x & -> & Hx). cbn [mbind outcome_bind].
    replace (ep_pos q) with (n - 1) in Hx by lia. rewrite Hx.
    destruct (byteZ x =? byteZ CR) eqn:Ex; zb.
    + apply byteZ_inj in Ex as ->. rewrite bool_decide_true by (split; [lia|done]).
      eexists _, _. split; [done|]. exists q. split_and!; auto; lia.
    + rewrite bool_decide_false by (intros [_ [= ->]]; done).
      eexists _, _. split; [done|]. exists p. split_and!; auto; lia.
  - destruct (search_all w b CR [LF] (Some (first_ptr b)) Hwf) as (p & -> & Hr);
      [unfold EV_SSIZE_MAX, INT_MAX in *; lia|done|by right|].
    cbn [mbind outcome_bind]. destruct (find_sub [CR; LF] (content b)) as [n|] eqn:En; simpl.
    + destruct Hr as [Hat Hp]. destruct (at_byte_rest w b p Hwf Hat) as (_ & _ & _ & _ & _ & _ & Hlt).
      rewrite (proj2 (Z.ltb_ge _ _)) by lia. eexists _, _. split; [done|]. exists p. split_and!; auto; lia.
    + subst p. by exists None, 0.
  - destruct (Hchr LF) as (o & -> & Hr). cbn [mbind outcome_bind].
    destruct (memchr LF (content b)) as [n|] eqn:En; simpl; [|subst o; by exists None, 0].
    destruct Hr as (p & -> & Hp & Hat). apply find_idx_bound in En. eexists _, _. split; [done|].
    exists p. split_and!; auto; lia.
  - destruct (Hchr x00) as (o & -> & Hr). cbn [mbind outcome_bind].
    destruct (memchr x00 (content b)) as [n|] eqn:En; simpl; [|subst o; by exists None, 0].
    destruct Hr as (p & -> & Hp & Hat). apply find_idx_bound in En. eexists _, _. split; [done|].
    exists p. split_and!; auto; lia.
Qed.

Lemma line_end_nonneg style s p k : line_end style s = Some (p, k) -> 0 <= k.
Proof.
  destruct style; unfold line_end; intros H.
  1: destruct (find_idx _ s) as [n|]; [|done]; simpl in H; injection H as <- <-; apply spn_bound.
  1: destruct (memchr _ s) as [n|]; [|done]; simpl in H; case_bool_decide; simplify_eq; lia.
  1: destruct (find_sub _ s) as [n|]; [|done]; simpl in H; simplify_eq; lia.
  all: destruct (memchr _ s) as [n|]; [|done]; simpl in H; simplify_eq; lia.
Qed.

Lemma evbuffer_readln_spec w b style :
  wf w b -> total_len b <= INT_MAX -> freeze_start b = false ->
  exists o b' w', evbuffer_readln b style w = Done ((o, b'), w') /\
    match line_end style (content b) with
    | Some (n, k) =>
        o = Some (ztake n (content b)) /\ effect w b w' b' (zdrop (n + k) (content b)) \/
        o = None /\ head (mm_fail w) = Some true /\ effect w b w' b' (content b)
    | None => o = None /\ effect w b w' b' (content b)
    end.
Proof.
  intros Hwf Hm Hfs. unfold evbuffer_readln. rewrite Hfs.
  destruct (search_eol_spec w b style Hwf Hm) as (o & n & -> & Ho). mstep.
  destruct (line_end style (content b)) as [[p k]|] eqn:Ele; cycle 1.
  { subst o. exists None, b, w. split; [done|]. split; [done|by apply effect_refl]. }
  destruct Ho as (it & -> & Hp & -> & Hp0).
  assert (Hmal : exists a w1, mm_malloc w = Done (a, w1) /\ mm_next w <= mm_next w1 /\
    (a = None -> head (mm_fail w) = Some true)).
  { unfold mm_malloc. destruct (mm_fail w) as [|[] fl]; eexists _, _; (split; [done|]); simpl; (split; [lia|done]). }
  destruct Hmal as (a & w1 & E1 & Hn1 & Hf1). rewrite (bind_done _ _ _ _ _ E1).
  pose proof (effect_later w w1 b Hwf Hn1) as He1.
  destruct a as [a|]; [|exists None, b, w1; split; [done|]; right; split_and!; auto].
  destruct (evbuffer_remove_spec w1 b (ep_pos it)) as (b2 & w2 & E2 & He2);
    [apply He1|unfold in_memory, EV_SSIZE_MAX, INT_MAX in *; lia|done|lia|].
  rewrite (bind_done _ _ _ _ _ E2).
  pose proof (line_end_nonneg style _ _ _ Ele) as Hk.
  destruct (evbuffer_drain_spec w2 b2 k) as (r & b3 & w3 & E3 & Hr & He3); [apply He2|done|].
  rewrite (bind_done _ _ _ _ _ E3). rewrite (ef_fs _ _ _ _ _ He2), Hfs, andb_false_r in Hr. subst r.
  exists (Some (ztake p (content b))), b3, w3. rewrite Hp. split; [done|]. left. split; [done|].
  unfold drained in He3. simpl in He3. rewrite (ef_content _ _ _ _ _ He2), Hp, zdrop_zdrop in He3 by lia.
  eapply effect_trans; [exact He1|]. eapply effect_trans; [exact He2|exact He3].
Qed.

(** ** Line ends, position by position

    The styles as [buffer.h] describes them, on the sequence of bytes. *)

Definition byte_at (s : list byte) (n : Z) (c : byte) : Prop := 0 <= n /\ s !! Z.to_nat n = Some c.

(** A line end of [k] bytes at position [n]. *)
Definition terminator (style : evbuffer_eol_style) (s : list byte) (n k : Z) : Prop :=
  match style with
  | EVBUFFER_EOL_ANY =>
      1 <= k /\ (forall i, n <= i < n + k -> byte_at s i CR \/ byte_at s i LF) /\
      ~ byte_at s (n + k) CR /\ ~ byte_at s (n + k) LF
  | EVBUFFER_EOL_CRLF_STRICT => k = 2 /\ byte_at s n CR /\ byte_at s (n + 1) LF
  | EVBUFFER_EOL_CRLF =>
      k = 2 /\ byte_at s n CR /\ byte_at s (n + 1) LF \/
      k = 1 /\ byte_at s n LF /\ ~ byte_at s (n - 1) CR
  | EVBUFFER_EOL_LF => k = 1 /\ byte_at s n LF
  | EVBUFFER_EOL_NUL => k = 1 /\ byte_at s n x00
  end.

Definition first_line_end (style : evbuffer_eol_style) (s : list byte) (n k : Z) : Prop :=
  terminator style s n k /\ forall m j, m < n -> ~ terminator style s m j.

Lemma byte_at_fun s n c d : byte_at s n c -> byte_at s n d -> c = d.
Proof. unfold byte_at. intros [_ ?] [_ ?]. congruence. Qed.

Lemma byte_at_cons x s n c : 0 <= n -> byte_at (x :: s) (1 + n) c <-> byte_at s n c.
Proof.
  intros Hn. unfold byte_at. replace (Z.to_nat (1 + n)) with (S (Z.to_nat n)) by lia. simpl.
  split; intros [_ H]; (split; [lia|exact H]).
Qed.

Lemma byte_at_drop s n i c : 0 <= n -> 0 <= i -> byte_at (zdrop n s) i c <-> byte_at s (n + i) c.
Proof.
  intros Hn Hi. unfold byte_at, zdrop. rewrite lookup_drop.
  replace (Z.to_nat n + Z.to_nat i)%nat with (Z.to_nat (n + i)) by lia.
  split; intros [_ H]; (split; [lia|exact H]).
Qed.

Lemma find_idx_first P s :
  match find_idx P s with
  | Some n => (exists c, byte_at s n c /\ P c = true) /\ forall m c, m < n -> byte_at s m c -> P c = false
  | None => forall m c, byte_at s m c -> P c = false
  end.
Proof.
  induction s as [|x s IH]; cbn [find_idx]; [by intros m c [_ ?]|].
  assert (Hx : forall m c, byte_at (x :: s) m c -> m = 0 /\ c = x \/ exists k, m = 1 + k /\ byte_at s k c).
  { intros m c [Hm H]. destruct (decide (m = 0)) as [->|]; [injection H; auto|right]. exists (m - 1).
    split; [lia|]. apply (byte_at_cons x); [lia|]. by replace (1 + (m - 1)) with m by lia. }
  destruct (P x) eqn:Ex.
  { split; [by exists x|]. intros m c Hm [H _]. lia. }
  destruct (find_idx P s) as [n|] eqn:En; cbn [fmap option_fmap option_map].
  - destruct IH as [(c & Hc & Hp) Hb]. split.
    + exists c. split; [|done]. apply (byte_at_cons x s); [apply Hc|done].
    + intros m d Hm [[_ ->]|(k & -> & Hk)]%Hx; [done|]. apply (Hb k); [lia|done].
  - intros m c [[_ ->]|(k & -> & Hk)]%Hx; [done|]. by apply (IH k).
Qed.

Lemma spn_run set s :
  (forall i, 0 <= i < (spn set s).1 -> exists c, byte_at s i c /\ c ∈ set) /\
  (forall c, byte_at s (spn set s).1 c -> c ∉ set).
Proof.
  induction s as [|x s [IH1 IH2]]; cbn [spn]; [split; [simpl; lia|by intros c [_ ?]]|].
  case_bool_decide as Hx; [|split; [simpl; lia|by intros c [_ [= ->]]]].
  pose proof (spn_bound set s) as Hb. destruct (spn set s) as [n e]. cbn [fst] in *. split.
  - intros i Hi. destruct (decide (i = 0)) as [->|]; [by exists x|].
    destruct (IH1 (i - 1)) as (c & Hc & Hin); [lia|]. exists c. split; [|done].
    replace i with (1 + (i - 1)) by lia. by apply (byte_at_cons x s); [lia|].
  - intros c Hc. apply (byte_at_cons x s) in Hc; [|lia]. by apply IH2.
Qed.

Lemma starts_crlf s m : 0 <= m -> starts_with [CR; LF] (zdrop m s) <-> byte_at s m CR /\ byte_at s (m + 1) LF.
Proof.
  intros Hm. assert (forall i c, 0 <= i -> byte_at s (m + i) c <-> zdrop m s !! Z.to_nat i = Some c) as H.
  { intros i c Hi. rewrite <- byte_at_drop by done. unfold byte_at. naive_solver. }
  rewrite <- (Z.add_0_r m) at 2. rewrite !H by lia. change (Z.to_nat 0) with O. change (Z.to_nat 1) with 1%nat.
  unfold starts_with. change (zlen [CR; LF]) with 2. unfold ztake. change (Z.to_nat 2) with 2%nat.
  destruct (zdrop m s) as [|a [|c l]]; simpl; split; intros Hs; try (by destruct Hs); try discriminate Hs.
  - by injection Hs as -> ->.
  - by destruct Hs as [[= ->] [= ->]].
Qed.

Lemma find_eq x s :
  match memchr x s with
  | Some n => byte_at s n x /\ forall m, m < n -> ~ byte_at s m x
  | None => forall m, ~ byte_at s m x
  end.
Proof.
  unfold memchr. pose proof (find_idx_first (fun y => bool_decide (y = x)) s) as H.
  destruct (find_idx _ s) as [n|].
  - destruct H as [(c & Hc & Hx) Hb]. apply bool_decide_eq_true in Hx. subst c. split; [done|].
    intros m Hm Hin. specialize (Hb m x Hm Hin). by rewrite bool_decide_eq_true_2 in Hb.
  - intros m Hin. specialize (H m x Hin). by rewrite bool_decide_eq_true_2 in H.
Qed.

Lemma line_end_any s :
  match line_end EVBUFFER_EOL_ANY s with
  | Some (n, k) => first_line_end EVBUFFER_EOL_ANY s n k
  | None => forall n k, ~ terminator EVBUFFER_EOL_ANY s n k
  end.
Proof.
  unfold line_end, first_line_end, terminator. pose proof (find_idx_first is_eol s) as H.
  assert (forall c, is_eol c = true <-> c = CR \/ c = LF) as Heol.
  { intros c. unfold is_eol. rewrite orb_true_iff, !bool_decide_eq_true. done. }
  assert (forall c, c ∈ [CR; LF] <-> c = CR \/ c = LF) as Hset by (intros c; set_solver).
  destruct (find_idx is_eol s) as [n|]; cbn [fmap option_fmap option_map].
  - destruct H as [(c & Hc & Hp) Hb]. pose proof Hc as [H0 _].
    destruct (spn_run [CR; LF] (zdrop n s)) as [R1 R2]. pose proof (spn_bound [CR; LF] (zdrop n s)) as Hk.
    set (k := (spn [CR; LF] (zdrop n s)).1) in *. split.
    + split; [|split].
      * destruct (decide (k = 0)) as [Hz|]; [|lia]. exfalso. apply (R2 c); [|by apply Hset, Heol].
        apply (proj2 (byte_at_drop s n k c H0 ltac:(lia))). by rewrite Hz, Z.add_0_r.
      * intros i Hi. destruct (R1 (i - n)) as (d & Hd & Hin); [lia|]. apply (proj1 (byte_at_drop s n (i - n) d H0 ltac:(lia))) in Hd.
        replace (n + (i - n)) with i in Hd by lia. apply Hset in Hin as [-> | ->]; auto.
      * split; intros Hd; [apply (R2 CR)|apply (R2 LF)]; try (apply Hset; auto);
          by apply (proj2 (byte_at_drop s n k _ H0 ltac:(lia))).
    + intros m j Hm (Hj & Hrun & _). destruct (Hrun m) as [Hd|Hd]; [lia| |];
        specialize (Hb _ _ Hm Hd); by vm_compute in Hb.
  - intros n k (Hk & Hrun & _). destruct (Hrun n) as [Hd|Hd]; [lia| |]; specialize (H _ _ Hd); by vm_compute in H.
Qed.

Lemma line_end_crlf s :
  match line_end EVBUFFER_EOL_CRLF s with
  | Some (n, k) => first_line_end EVBUFFER_EOL_CRLF s n k
  | None => forall n k, ~ terminator EVBUFFER_EOL_CRLF s n k
  end.
Proof.
  unfold line_end, first_line_end, terminator. pose proof (find_eq LF s) as H.
  destruct (memchr LF s) as [n|]; cbn [fmap option_fmap option_map].
  2: { intros n k [(_ & _ & Hl)|(_ & Hl & _)]; by apply H in Hl. }
  destruct H as [Hn Hb]. pose proof Hn as [H0 Hlk].
  assert (0 < n -> zsub (n - 1) 1 s = [CR] <-> byte_at s (n - 1) CR) as Hz.
  { intros Hpos. unfold zsub, ztake, byte_at. change (Z.to_nat 1) with 1%nat.
    replace (s !! Z.to_nat (n - 1)) with (zdrop (n - 1) s !! O)
      by (unfold zdrop; rewrite lookup_drop; f_equal; lia).
    destruct (zdrop (n - 1) s) as [|c l]; simpl; [split; [done|by intros [_ ?]]|].
    split; [intros [= ->]; split; [lia|done]|by intros [_ [= ->]]]. }
  case_bool_decide as Hc.
  - destruct Hc as [Hpos Hc]. apply Hz in Hc; [|done]. split.
    + left. replace (n - 1 + 1) with n by lia. done.
    + intros m j Hm [(_ & _ & Hl)|(_ & Hl & _)]; [apply (Hb (m + 1)) in Hl|apply (Hb m) in Hl]; (done || lia).
  - assert (~ byte_at s (n - 1) CR) as Hno.
    { intros Hc'. pose proof Hc' as [? _]. apply Hc. split; [lia|]. apply Hz; [lia|done]. }
    split; [by right|]. intros m j Hm [(_ & Hcr & Hl)|(_ & Hl & _)]; [|by apply (Hb m) in Hl].
    destruct (decide (m + 1 = n)) as [Heq|]; [|apply (Hb (m + 1)) in Hl; (done || lia)].
    apply Hno. by replace (n - 1) with m by lia.
Qed.

Lemma line_end_first style s :
  match line_end style s with
  | Some (n, k) => first_line_end style s n k
  | None => forall n k, ~ terminator style s n k
  end.
Proof.
  destruct style; [apply line_end_any|apply line_end_crlf|..]; unfold line_end, first_line_end, terminator.
  - destruct (find_sub [CR; LF] s) as [n|] eqn:E; cbn [fmap option_fmap option_map].
    + apply find_sub_first in E as (H0 & Hs & Hb). apply starts_crlf in Hs; [|done]. split; [done|].
      intros m j Hm (_ & Hc & Hl). pose proof Hc as [Hm0 _]. apply (Hb m); [lia|]. by apply starts_crlf.
    + intros n k (_ & Hc & Hl). pose proof Hc as [H0 _].
      apply (find_sub_none _ _ n E ltac:(done) H0). by apply starts_crlf.
  - pose proof (find_eq LF s) as H. destruct (memchr LF s) as [n|]; cbn [fmap option_fmap option_map].
    + destruct H as [Hn Hb]. split; [done|]. intros m j Hm [_ Hl]. by apply (Hb m).
    + intros n k [_ Hl]. by apply H in Hl.
  - pose proof (find_eq x00 s) as H. destruct (memchr x00 s) as [n|]; cbn [fmap option_fmap option_map].
    + destruct H as [Hn Hb]. split; [done|]. intros m j Hm [_ Hl]. by apply (Hb m).
    + intros n k [_ Hl]. by apply H in Hl.
Qed.

(** C37: [evbuffer_readln] with each end-of-line style, on an unfrozen buffer of at most
    [INT_MAX] bytes spread over any chains: if a line end of the style stands
    anywhere in the bytes it takes the first one ([first_line_end]), returns the
    bytes before it and removes them and exactly that line end; when there is
    none, or when the allocation of the line fails, it returns [NULL] and
    changes nothing. *)
Theorem evbuffer_readln_takes_line w b style :
  wf w b -> total_len b <= INT_MAX -> freeze_start b = false ->
  exists o b' w', evbuffer_readln b style w = Done ((o, b'), w') /\
    ((exists n k, first_line_end style (content b) n k /\
        (o = Some (ztake n (content b)) /\ effect w b w' b' (zdrop (n + k) (content b)) \/
         o = None /\ head (mm_fail w) = Some true /\ effect w b w' b' (content b))) \/
     (forall n k, ~ terminator style (content b) n k) /\ o = None /\ effect w b w' b' (content b)).
Proof.
  intros Hwf Hm Hfs. destruct (evbuffer_readln_spec w b style Hwf Hm Hfs) as (o & b' & w' & E & H).
  exists o, b', w'. split; [done|]. pose proof (line_end_first style (content b)) as Hl.
  destruct (line_end style (content b)) as [[n k]|]; [left; by exists n, k|by right].
Qed.

(** "ab\r" and "\ncd" in two chains. *)
Definition sample_lines : evbuffer :=
  mkBuf [mkChain 1 4 0 3 0 1 [x61; x62; x0d; x00] XNone; mkChain 2 4 1 3 0 1 [x00; x0a; x63; x64] XNone]
    (Some 2) (Some 1) 6 0 0 false false false false 0 1 [].
Definition sample_lines_mm : mm := mkMm 3 [] x00 [].

Lemma sample_lines_wf : wf sample_lines_mm sample_lines.
Proof.
  constructor; simpl; try done.
  - do 2 (apply Forall_cons; split; [constructor; simpl; try done; vm_compute; congruence|]). constructor.
  - apply NoDup_cons. split; [intros ?%list_elem_of_singleton; done|apply NoDup_singleton].
  - do 2 (apply Forall_cons; split; [done|]). constructor.
  - eexists [_], [_]. split_and!; [reflexivity|reflexivity|]. by constructor.
Qed.

Lemma evbuffer_readln_takes_line_witness :
  exists o b' w', evbuffer_readln sample_lines EVBUFFER_EOL_CRLF sample_lines_mm = Done ((o, b'), w') /\
    o = Some [x61; x62] /\ content b' = [x63; x64].
Proof.
  destruct (evbuffer_readln_takes_line sample_lines_mm sample_lines EVBUFFER_EOL_CRLF sample_lines_wf
    ltac:(vm_compute; congruence) eq_refl)
    as (o & b' & w' & E & [(n & k & Hf & [[-> He]|(_ & [=] & _)])|[Hno _]]).
  - exists (Some (ztake n (content sample_lines))), b', w'. split; [exact E|].
    assert (n = 2 /\ k = 2) as [-> ->].
    { destruct Hf as [Ht Hfirst]. assert (terminator EVBUFFER_EOL_CRLF (content sample_lines) 2 2) as H2
        by (left; repeat split; lia).
      destruct (Z.lt_trichotomy n 2) as [Hlt|[->|Hgt]]; [|split; [done|]|by apply (Hfirst 2 2) in Hgt].
      - exfalso. destruct Ht as [(_ & [Hn Hc] & _)|(_ & [Hn Hc] & _)];
          (assert (n = 0 \/ n = 1) as [-> | ->] by lia; vm_compute in Hc; discriminate).
      - destruct Ht as [(-> & _)|(_ & [_ Hc] & _)]; [done|vm_compute in Hc; discriminate]. }
    split; [vm_compute; reflexivity|]. rewrite (ef_content _ _ _ _ _ He). vm_compute. reflexivity.
  - exfalso. apply (Hno 2 2). left. repeat split; lia.
Defined.

(** C38: [evbuffer_search] over the whole buffer returns the first position at
    which the pattern occurs, whether or not the occurrence straddles chains,
    and the not-found pointer exactly when it occurs nowhere; the walk ends on
    every well-formed buffer. *)
Theorem evbuffer_search_first w b what :
  wf w b -> total_len b <= EV_SSIZE_MAX -> what <> [] -> zlen what <= EV_SSIZE_MAX ->
  exists p, evbuffer_search b what None = Done p /\
    (p = PTR_NOT_FOUND /\ (forall m, 0 <= m -> ~ starts_with what (zdrop m (content b))) \/
     at_byte b p /\ starts_with what (zdrop (ep_pos p) (content b)) /\
     forall m, 0 <= m < ep_pos p -> ~ starts_with what (zdrop m (content b))).
Proof.
  intros Hwf Hm Hne Hl. destruct what as [|f what]; [done|].
  destruct (search_all w b f what None Hwf Hm Hl) as (p & Hp & Hr); [by left|].
  exists p. split; [done|]. destruct (find_sub (f :: what) (content b)) as [n|] eqn:E.
  - destruct Hr as [Hat ->]. right. destruct (find_sub_first _ _ _ E) as (_ & ? & ?). done.
  - left. split; [done|]. intros m Hm0. by apply find_sub_none.
Qed.

Lemma evbuffer_search_first_witness :
  exists p, evbuffer_search sample_lines [x0d; x0a; x63] None = Done p /\
    (p = PTR_NOT_FOUND /\ (forall m, 0 <= m -> ~ starts_with [x0d; x0a; x63] (zdrop m (content sample_lines))) \/
     at_byte sample_lines p /\ starts_with [x0d; x0a; x63] (zdrop (ep_pos p) (content sample_lines)) /\
     forall m, 0 <= m < ep_pos p -> ~ starts_with [x0d; x0a; x63] (zdrop m (content sample_lines))).
Proof.
  apply (evbuffer_search_first sample_lines_mm sample_lines [x0d; x0a; x63]).
  - exact sample_lines_wf.
  - vm_compute. congruence.
  - discriminate.
  - vm_compute. congruence.
Defined.
