(* ===== verification/EvbufferPullup.v ===== *)
(** * Making the front of an evbuffer contiguous

    Models [evbuffer_pullup] of [libevent/buffer.c], the routine that gives
    parsers a pointer to the first [size] bytes: in the first chain if they
    fit there, in a new chain otherwise, emptying the chains they come from. *)

From S2P Require Import Prelude EvChain Evbuffer EvbufferSpace.

(** ** The routine *)

(** Is a chain that has to be copied from pinned? *)
Fixpoint pull_pinned (cs : list evbuffer_chain) (remaining : Z) : bool :=
  match cs with
  | [] => false
  | c :: cs =>
      if CHAIN_PINNED c then true
      else if remaining <=? off c then false
      else pull_pinned cs (remaining - off c)
  end.

(** Copy and free every chain that goes entirely into [tmp]; [at_] is the
    write position in the memory of [tmp], [lwd] the chain [*last_with_datap]
    stood for.  The two flags say that it, or the chain [last_with_datap]
    points into, was removed. *)
Fixpoint pull_loop (cs : list evbuffer_chain) (m : list byte) (at_ size : Z) (lwd p : option Z) (f1 f2 : bool)
    : M (list evbuffer_chain * list byte * Z * Z * bool * bool) :=
  match cs with
  | [] => ret ([], m, at_, size, f1, f2)
  | c :: next =>
      if off c <=? size then
        d ← lift (memread (misalign c) (off c) (buffer c));
        m ← lift (memwrite at_ d m);
        _ ← evbuffer_chain_free c;
        pull_loop next m (at_ + off c) (size - off c) lwd p
          (f1 || bool_decide (lwd = Some (c_addr c))) (f2 || bool_decide (p = Some (c_addr c)))
      else ret (cs, m, at_, size, f1, f2)
  end.

Definition pull_into (b : evbuffer) (tmp : evbuffer_chain) (at_ : Z) (cs : list evbuffer_chain)
    (size : Z) (lwd : option Z) : M evbuffer :=
  '(rest, m, at_, size, f1, f2) ← pull_loop cs (buffer tmp) at_ size lwd (last_with_datap b) false false;
  '(rest, m, l) ←
    (match rest with
     | c :: next =>
         d ← lift (memread (misalign c) size (buffer c));
         m ← lift (memwrite at_ d m);
         ret (set_data c (misalign c + size) (off c - size) (buffer c) :: next, m, last b)
     | [] => ret ([], m, Some (c_addr tmp))
     end);
  let p := if (f1 : bool) then None
           else if (f2 : bool) then
             match rest with c :: _ => if off c =? 0 then None else Some (c_addr tmp) | [] => None end
           else last_with_datap b in
  ret (set_chains b (set_data tmp (misalign tmp) (off tmp) m :: rest) l p (total_len b)).

(** [None] is [NULL]; otherwise chain and offset of the contiguous bytes. *)
Definition evbuffer_pullup (b : evbuffer) (size : Z) : M (option (Z * Z) * evbuffer) :=
  let size := if size <? 0 then i64 (total_len b) else size in
  if (size =? 0) || (total_len b <? size) then ret (None, b) else
  chain ← lift (deref (head (chains b)));
  let next := tail (chains b) in
  if size <=? off chain then ret (Some (c_addr chain, misalign chain), b) else
  if pull_pinned next (size - off chain) then ret (None, b) else
  '(_, post) ← lift (cut_datap b);
  let lwd := c_addr <$> head post in
  let in_place :=
    b ← pull_into b (set_off chain size) (misalign chain + off chain) next (size - off chain) lwd;
    ret (Some (c_addr chain, misalign chain), b) in
  if CHAIN_PINNED chain then
    if CHAIN_SPACE_LEN chain <? size - off chain then ret (None, b) else in_place
  else if size <=? buffer_len chain - misalign chain then in_place
  else
    otmp ← evbuffer_chain_new size;
    match otmp with
    | None => ret (None, b)
    | Some tmp =>
        let lwd := match last_with_datap b with None => Some (c_addr tmp) | _ => lwd end in
        b ← pull_into b (set_off tmp size) 0 (chain :: next) size lwd;
        ret (Some (c_addr tmp, misalign tmp), b)
    end.

(** ** The copy loop *)

Definition has_addr (o : option Z) (k : list evbuffer_chain) : bool :=
  existsb (fun c => bool_decide (o = Some (c_addr c))) k.

Lemma has_addr_in o k : has_addr o k = true <-> exists c, c ∈ k /\ o = Some (c_addr c).
Proof.
  unfold has_addr. rewrite existsb_exists. setoid_rewrite bool_decide_eq_true.
  split; intros (c & Hc & ->); exists c; split; auto; by apply list_elem_of_In.
Qed.

Lemma pull_loop_spec k R m at_ size lwd p f1 f2 w :
  Forall chain_ok (k ++ R) -> 0 <= at_ -> at_ + sum_off k <= zlen m -> sum_off k <= size ->
  (match R with [] => True | c :: _ => size < sum_off k + off c end) ->
  exists m' w', pull_loop (k ++ R) m at_ size lwd p f1 f2 w =
      Done ((R, m', at_ + sum_off k, size - sum_off k, f1 || has_addr lwd k, f2 || has_addr p k), w') /\
    mm_next w' = mm_next w /\ zlen m' = zlen m /\ zsub at_ (sum_off k) m' = concat (chain_bytes <$> k) /\
    (forall o n, 0 <= o -> 0 <= n -> o + n <= at_ -> zsub o n m' = zsub o n m).
Proof.
  revert m at_ size f1 f2 w. induction k as [|c k IH]; intros m at_ size f1 f2 w Hok Ha Hfit Hsz HR.
  { exists m, w. simpl. rewrite Z.add_0_r, Z.sub_0_r, !orb_false_r. split_and!; auto.
    destruct R as [|c R]; [done|]. simpl in *. by rewrite (proj2 (Z.leb_gt _ _)) by lia. }
  cbn [app sum_off foldr] in *. fold (sum_off k) in *. apply Forall_cons in Hok as [Hc Hok].
  pose proof Hok as Hokk. apply Forall_app in Hokk as [Hokk _]. pose proof (sum_off_nonneg k Hokk).
  pose proof Hc as [H1 H2 H3 H4 _ _ _ _ _ _]. cbn [pull_loop]. rewrite (proj2 (Z.leb_le _ _)) by lia.
  rewrite memread_done by lia. mstep. fold (chain_bytes c). pose proof (chain_bytes_len c Hc) as Hl.
  destruct (memwrite at_ (chain_bytes c) m) as [m1|] eqn:E; [|rewrite memwrite_done in E; [done|lia|lia]].
  apply memwrite_inv in E as (L1 & Hat & Hbef & Haft). mstep. rewrite Hl in *.
  destruct (chain_free_spec c w Hc) as (w1 & E1 & N1). rewrite (bind_done _ _ _ _ _ E1).
  destruct (IH m1 (at_ + off c) (size - off c) (f1 || bool_decide (lwd = Some (c_addr c)))
    (f2 || bool_decide (p = Some (c_addr c))) w1) as (m' & w' & -> & N & L & Hcp & Hb); auto; try lia.
  { destruct R; [done|lia]. }
  exists m', w'. cbn [has_addr existsb]. rewrite <- !orb_assoc.
  replace (at_ + off c + sum_off k) with (at_ + (off c + sum_off k)) by lia.
  replace (size - off c - sum_off k) with (size - (off c + sum_off k)) by lia.
  split_and!; auto; [congruence|congruence| |].
  - rewrite zsub_split by lia. rewrite Hb, Hat, Hcp by lia. done.
  - intros o n ???. rewrite Hb, Hbef by lia. done.
Qed.

(** The list left when the chains [k] and the start of what follows are gone. *)
Definition shorten (n : Z) (R : list evbuffer_chain) : list evbuffer_chain :=
  match R with
  | [] => []
  | c :: next => set_data c (misalign c + n) (off c - n) (buffer c) :: next
  end.

(** [T] already holds [X]; the first [size] bytes of the chains [L] follow. *)
Lemma pull_into_spec b T at_ k R size lwd w X :
  Forall chain_ok (k ++ R) -> 0 <= misalign T -> misalign T + zlen X = at_ ->
  zsub (misalign T) (zlen X) (buffer T) = X ->
  off T = zlen X + size -> misalign T + off T <= zlen (buffer T) ->
  0 <= sum_off k -> sum_off k <= size ->
  (match R with [] => size = sum_off k | c :: _ => size < sum_off k + off c end) ->
  exists m w', pull_into b T at_ (k ++ R) size lwd w = Done (set_chains b
      (set_data T (misalign T) (off T) m :: shorten (size - sum_off k) R)
      (match R with [] => Some (c_addr T) | _ => last b end)
      (if has_addr lwd k then None
       else if has_addr (last_with_datap b) k then
         match R with [] => None | _ => Some (c_addr T) end
       else last_with_datap b) (total_len b), w') /\
    mm_next w' = mm_next w /\ zlen m = zlen (buffer T) /\
    zsub (misalign T) (off T) m = X ++ ztake size (concat (chain_bytes <$> (k ++ R))).
Proof.
  intros Hok Hmis Hat HX Hoff Hroom Hk0 Hsz HR. pose proof (zlen_nonneg X). unfold pull_into.
  pose proof Hok as Hok'. apply Forall_app in Hok' as [Hokk HokR].
  destruct (pull_loop_spec k R (buffer T) at_ size lwd (last_with_datap b) false false w)
    as (m & w' & E & N & L & Hcp & Hb); auto; try lia.
  { destruct R; [done|lia]. }
  rewrite (bind_done _ _ _ _ _ E). cbn [orb].
  assert (Hpre : zsub (misalign T) (zlen X) m = X) by (rewrite Hb by lia; done).
  rewrite content_app, ztake_app_ge by (rewrite content_len; auto). rewrite content_len by done.
  assert (Hgen : forall m2 n, n = size - sum_off k -> zsub (misalign T) (zlen X) m2 = X ->
    zsub at_ (sum_off k) m2 = concat (chain_bytes <$> k) ->
    zsub (at_ + sum_off k) n m2 = ztake n (concat (chain_bytes <$> R)) ->
    zsub (misalign T) (off T) m2 = X ++ concat (chain_bytes <$> k) ++ ztake n (concat (chain_bytes <$> R))).
  { intros m2 n Hn G1 G2 G3. rewrite Hoff. replace size with (sum_off k + n) by lia.
    rewrite zsub_split, Hat, G1 by lia. rewrite zsub_split, G2 by lia. by rewrite G3. }
  destruct R as [|c next].
  - exists m, w'. split.
    { rewrite bind_ret. simpl. destruct (has_addr lwd k); [done|]. by destruct (has_addr (last_with_datap b) k). }
    split_and!; auto. apply Hgen; auto. replace (size - sum_off k) with 0 by lia. done.
  - apply Forall_cons in HokR as [Hc _]. pose proof Hc as [H1 H2 H3 H4 _ _ _ _ _ _].
    rewrite memread_done by lia. set (d := zsub (misalign c) (size - sum_off k) (buffer c)).
    assert (Hd : zlen d = size - sum_off k) by (apply zlen_zsub; lia).
    destruct (memwrite (at_ + sum_off k) d m) as [m2|] eqn:E2; [|rewrite memwrite_done in E2; [done|lia|lia]].
    exists m2, w'. split.
    { erewrite bind_done; [|rewrite bind_lift, E2, bind_lift; reflexivity]. cbn [shorten].
      rewrite (proj2 (Z.eqb_neq (off (set_data _ _ _ _)) 0)) by (simpl; lia). done. }
    apply memwrite_inv in E2 as (L2 & Hat2 & Hbef & _).
    split_and!; auto; [congruence|]. apply Hgen; auto.
    + rewrite Hbef by lia. done.
    + rewrite Hbef by lia. done.
    + rewrite Hd in Hat2. rewrite Hat2. cbn [fmap list_fmap concat].
      rewrite ztake_app_le by (rewrite chain_bytes_len by done; lia). unfold d, chain_bytes.
      replace (off c) with ((size - sum_off k) + (off c - (size - sum_off k))) by lia.
      rewrite zsub_split by lia. by rewrite ztake_app_le, ztake_all by (rewrite zlen_zsub; lia).
Qed.

(** ** The resulting list *)

Lemma has_addr_none k : has_addr None k = false.
Proof. induction k as [|c k IH]; [done|]. simpl. by rewrite IH. Qed.

Lemma has_addr_not a k : a ∉ c_addr <$> k -> has_addr (Some a) k = false.
Proof.
  intros Hn. destruct (has_addr (Some a) k) eqn:E; [|done].
  apply has_addr_in in E as (c & Hc & [= ->]). destruct Hn. apply list_elem_of_fmap. eauto.
Qed.

Lemma shorten_spec n R :
  Forall chain_ok R -> 0 <= n -> (match R with [] => n = 0 | c :: _ => n < off c end) ->
  Forall chain_ok (shorten n R) /\ c_addr <$> shorten n R = c_addr <$> R /\
  sum_off (shorten n R) = sum_off R - n /\
  concat (chain_bytes <$> shorten n R) = zdrop n (concat (chain_bytes <$> R)).
Proof.
  intros Hok Hn HR. destruct R as [|c R]; simpl shorten.
  { subst n. by split_and!. }
  apply Forall_cons in Hok as [Hc Hok]. destruct (chain_shorten c n Hc) as [Hc' Hb]; [lia|].
  split_and!; auto; [simpl; lia|]. cbn [fmap list_fmap concat]. rewrite Hb.
  by rewrite zdrop_app_le by (rewrite chain_bytes_len; auto; lia).
Qed.

(** Everything has been pulled up: the buffer is one chain. *)
Lemma pull_all_datap b G k pre post T lwd :
  chains b = G ++ k -> NoDup (c_addr <$> (G ++ k)) -> chains b = pre ++ post ->
  last_with_datap b = next_ptr pre -> data_split pre post ->
  G = [] \/ (exists c0, G = [c0] /\ c_addr T = c_addr c0) -> G ++ k <> [] ->
  (last_with_datap b = None -> has_addr lwd k = false) ->
  (last_with_datap b <> None -> lwd = c_addr <$> head post) ->
  (if has_addr lwd k then None
   else if has_addr (last_with_datap b) k then None else last_with_datap b) = None.
Proof.
  intros Hc Hnd Hpp Hp Hd HG Hne H1 H2. destruct pre as [|x pre].
  { rewrite Hp in *. change (next_ptr []) with (@None Z). by rewrite H1, has_addr_none. }
  assert (Hsome : last_with_datap b <> None).
  { rewrite Hp. unfold next_ptr. destruct (list.last (x :: pre)) eqn:E; [done|]. by apply last_None in E. }
  rewrite (H2 Hsome). inversion Hd as [|? h t Hz Hpre]; subst.
  assert (Hin : has_addr (Some (c_addr h)) k = true).
  { apply has_addr_in. exists h. split; [|done]. rewrite Hc in Hpp.
    destruct HG as [->|(c0 & -> & _)]; simpl in Hpp; [rewrite Hpp; set_solver|].
    injection Hpp as -> ->. set_solver. }
  change (c_addr <$> head (h :: t)) with (Some (c_addr h)). by rewrite Hin.
Qed.

(** Chains remain: [last_with_datap] points to the end of the new front or is
    left where it was. *)
Lemma pull_part_datap b G k c rest pre post T n lwd :
  chains b = G ++ k ++ c :: rest -> NoDup (c_addr <$> (G ++ k ++ c :: rest)) -> chains b = pre ++ post ->
  last_with_datap b = next_ptr pre -> data_split pre post ->
  G = [] \/ (exists c0, G = [c0] /\ c_addr T = c_addr c0) -> G ++ k <> [] -> 0 <= n < off c ->
  (last_with_datap b <> None -> lwd = c_addr <$> head post) ->
  exists pre' post',
    T :: set_data c (misalign c + n) (off c - n) (buffer c) :: rest = pre' ++ post' /\
    (if has_addr lwd k then None
     else if has_addr (last_with_datap b) k then Some (c_addr T) else last_with_datap b) = next_ptr pre' /\
    data_split pre' post'.
Proof.
  intros Hc Hnd Hpp Hp Hd HG Hne Hn H2. set (c' := set_data c _ _ _).
  destruct (front_before pre post (G ++ k) c rest) as (m & -> & Hm); [rewrite <- app_assoc, <- Hpp; exact Hc|done|lia|].
  destruct post as [|h t].
  { inversion Hd as [E|]. symmetry in E. apply app_eq_nil in E as [E _]. done. }
  assert (Hlwd : has_addr lwd k = false).
  { rewrite H2. 2: { rewrite Hp. unfold next_ptr. destruct (list.last ((G ++ k) ++ m)) eqn:E; [done|].
      apply last_None in E. apply app_eq_nil in E as [E _]. done. }
    simpl. apply has_addr_not. intros Hin. rewrite Hm, fmap_app, NoDup_app in Hnd.
    destruct Hnd as (_ & _ & Hnd). rewrite fmap_app, NoDup_app in Hnd. destruct Hnd as (_ & Hnd & _).
    apply (Hnd _ Hin). rewrite fmap_app. set_solver. }
  rewrite Hlwd. destruct m as [|x m].
  - (* the data point is the chain that was cut *)
    simpl in Hm. injection Hm as <- <-. exists [T], (c' :: rest). split; [done|]. split.
    + rewrite Hp, app_nil_r. destruct k as [|y k _] using rev_ind.
      * destruct HG as [->|(c0 & -> & Ha)]; [done|]. simpl. unfold next_ptr. simpl. by rewrite Ha.
      * rewrite app_assoc, next_ptr_snoc.
        assert (Hy : has_addr (Some (c_addr y)) (k ++ [y]) = true)
          by (apply has_addr_in; exists y; split; [set_solver|done]).
        by rewrite Hy.
    + inversion Hd; subst. constructor; [done|]. simpl. lia.
  - (* it lies further on *)
    simpl in Hm. injection Hm as <- Hm. exists (T :: c' :: m), (h :: t). split; [by rewrite Hm|]. split.
    + assert (Hlast : next_ptr ((G ++ k) ++ c :: m) = next_ptr (T :: c' :: m)).
      { rewrite next_ptr_cons by done. rewrite (next_ptr_head c c') by done.
        destruct (list.last (c :: m)) as [e|] eqn:El; [|by apply last_None in El].
        apply last_Some in El as [l ->]. by rewrite app_assoc, !next_ptr_snoc. }
      rewrite Hp, Hlast. destruct (has_addr (next_ptr (T :: c' :: m)) k) eqn:E; [|done].
      exfalso. rewrite <- Hlast in E. apply has_addr_in in E as (e & He & Heq).
      destruct (list.last (c :: m)) as [z|] eqn:El; [|by apply last_None in El].
      apply last_Some in El as [l Hl]. rewrite Hl, app_assoc, next_ptr_snoc in Heq.
      injection Heq as Heq. rewrite fmap_app, NoDup_app in Hnd. destruct Hnd as (_ & _ & Hnd).
      rewrite fmap_app, NoDup_app in Hnd. destruct Hnd as (_ & Hnd & _).
      apply (Hnd (c_addr e)); [apply list_elem_of_fmap; eauto|]. rewrite <- Heq.
      replace (c :: rest) with ((l ++ [z]) ++ h :: t) by (by rewrite <- Hl, Hm).
      rewrite !fmap_app. set_solver.
    + inversion Hd as [|? ? ? Hz Hpre]; subst. constructor; [done|]. intros Hh. specialize (Hpre Hh).
      by destruct (app_cons_not_nil _ _ _ (eq_sym Hpre)).
Qed.

Lemma pull_effect w w1 b G k R size T lwd pre post :
  wf w b -> mm_next w <= mm_next w1 -> chains b = G ++ k ++ R -> chains b = pre ++ post ->
  last_with_datap b = next_ptr pre -> data_split pre post ->
  chain_ok T -> G = [] /\ mm_next w <= c_addr T < mm_next w1 \/ (exists c0, G = [c0] /\ c_addr T = c_addr c0) ->
  G ++ k <> [] -> 0 < size -> off T = sum_off G + size -> sum_off k <= size ->
  (match R with [] => size = sum_off k | c :: _ => size < sum_off k + off c end) ->
  chain_bytes T = concat (chain_bytes <$> G) ++ ztake size (concat (chain_bytes <$> (k ++ R))) ->
  (last_with_datap b = None -> has_addr lwd k = false) ->
  (last_with_datap b <> None -> lwd = c_addr <$> head post) ->
  effect w b w1 (set_chains b (T :: shorten (size - sum_off k) R)
    (match R with [] => Some (c_addr T) | _ => last b end)
    (if has_addr lwd k then None
     else if has_addr (last_with_datap b) k then match R with [] => None | _ => Some (c_addr T) end
     else last_with_datap b) (total_len b)) (content b).
Proof.
  intros Hwf Hnw Hc Hpp Hp Hd Hok HG Hne Hsz Hoff Hks HR Hb H1 H2.
  assert (HG' : G = [] \/ (exists c0, G = [c0] /\ c_addr T = c_addr c0)) by (destruct HG as [[? _]|?]; auto).
  assert (HT : c_addr T ∉ c_addr <$> R).
  { destruct HG as [[-> Hf]|(c0 & -> & Ha)].
    - intros Hin. apply (fresh_not_in w b T Hwf (proj1 Hf)). rewrite Hc, !fmap_app. set_solver.
    - rewrite Ha. pose proof (wf_nodup w b Hwf) as Hnd. rewrite Hc in Hnd. simpl in Hnd.
      rewrite fmap_app in Hnd. apply NoDup_cons in Hnd as [Hn _]. set_solver. }
  pose proof Hwf as [W1 W2 W3 W4 _ W6 W7]. rewrite Hc in W1, W2, W3, W6.
  assert (HokR : Forall chain_ok R) by (rewrite !Forall_app in W1; tauto).
  assert (Hokk : Forall chain_ok k) by (rewrite !Forall_app in W1; tauto).
  destruct (shorten_spec (size - sum_off k) R HokR) as (S1 & S2 & S3 & S4); [lia|destruct R; lia|].
  assert (Haddr : c_addr T < mm_next w1).
  { destruct HG as [[-> Hf]|(c0 & -> & Ha)]; [lia|]. simpl in W3. apply Forall_cons in W3 as [W3 _]. lia. }
  split; auto.
  - constructor; cbn [chains last last_with_datap total_len set_chains]; auto.
    + rewrite fmap_cons, S2. apply NoDup_cons. split; [done|]. rewrite !fmap_app, !NoDup_app in W2. tauto.
    + apply Forall_cons. split; [done|].
      rewrite <- (Forall_fmap c_addr (fun a => a < mm_next w1)), S2, Forall_fmap.
      rewrite !Forall_app in W3. destruct W3 as (_ & _ & W3). eapply Forall_impl; [exact W3|]. simpl. lia.
    + destruct R as [|c R]; [done|]. rewrite W4, Hc. destruct R as [|e R _] using rev_ind.
      * simpl. rewrite app_assoc, last_snoc. done.
      * simpl. rewrite app_comm_cons, !app_assoc, last_snoc.
        rewrite !app_comm_cons, last_snoc. done.
    + destruct R as [|c R].
      * rewrite app_nil_r in *. exists [], [T]. split_and!; auto; [|constructor; [constructor|done]].
        eapply (pull_all_datap b G k pre post T); eauto.
      * apply (pull_part_datap b G k c R pre post T); auto; lia.
    + cbn [sum_off foldr]. fold (sum_off (shorten (size - sum_off k) R)). rewrite W6, !sum_off_app. lia.
  - unfold content. cbn [chains set_chains]. rewrite fmap_cons. cbn [concat].
    rewrite Hb, S4, Hc, (content_app G). rewrite <- app_assoc. f_equal.
    rewrite content_app, ztake_app_ge by (rewrite content_len; auto). rewrite content_len by done.
    rewrite <- app_assoc, ztake_zdrop. done.
Qed.

Lemma split_for_pull L s :
  Forall chain_ok L -> 0 <= s <= sum_off L ->
  exists k R, L = k ++ R /\ sum_off k <= s /\
    match R with [] => s = sum_off k | c :: _ => s < sum_off k + off c end.
Proof.
  intros Hok Hs. destruct (decide (s < sum_off L)) as [Hlt|Hge].
  - destruct (split_at L s Hok) as (k & c & rest & -> & Hk); [lia|]. exists k, (c :: rest). split_and!; auto; lia.
  - exists L, []. rewrite app_nil_r. split_and!; auto; lia.
Qed.

Lemma pull_not_pinned cs n : Forall chain_ok cs -> pull_pinned cs n = false.
Proof.
  intros H. revert n. induction H as [|c cs Hc _ IH]; intros n; [done|]. simpl. unfold CHAIN_PINNED.
  rewrite (ck_pin c Hc). by destruct (n <=? off c).
Qed.

(** The bytes are contiguous in the first chain. *)
Definition contiguous (b : evbuffer) (n : Z) (r : Z * Z) : Prop :=
  exists c tl, chains b = c :: tl /\ r = (c_addr c, misalign c) /\ n <= off c.

Lemma evbuffer_pullup_spec w b size :
  wf w b -> in_memory b ->
  let n := if size <? 0 then total_len b else size in
  exists o b' w', evbuffer_pullup b size w = Done ((o, b'), w') /\
    effect w b w' b' (content b) /\
    match o with
    | Some r => 0 < n /\ contiguous b' n r
    | None => n = 0 \/ total_len b < n \/ mm_fail w <> [] \/
              EVBUFFER_CHAIN_MAX - EVBUFFER_CHAIN_SIZE < n
    end.
Proof.
  intros Hwf Hm n. unfold evbuffer_pullup. pose proof (total_nonneg w b Hwf) as Htn.
  unfold in_memory, EV_SSIZE_MAX in Hm. rewrite i64_small by lia. fold n.
  destruct ((n =? 0) || (total_len b <? n)) eqn:E0.
  { exists None, b, w. split; [done|]. split; [by apply effect_refl|]. zb. lia. }
  zb. assert (Hn0 : 0 < n) by (subst n; case_test; zb; lia).
  pose proof (wf_chains w b Hwf) as Hcs. pose proof (wf_total w b Hwf) as Ht.
  destruct (wf_cut w b Hwf) as (pre & post & Ecut & Hpp & Hp & Hd). unfold cut_datap. rewrite Ecut.
  destruct (chains b) as [|c0 cs] eqn:Hc; [simpl in Ht; lia|]. 
  change (deref (head (c0 :: cs))) with (Done c0). change (tail (c0 :: cs)) with cs. mstep.
  apply Forall_cons in Hcs as [Hc0 Hcs]. pose proof Hc0 as [H1 H2 H3 H4 H5 _ Hpin _ _ _].
  destruct (n <=? off c0) eqn:E1; zb.
  { eexists _, b, w. split; [done|]. split; [by apply effect_refl|]. split; [done|]. exists c0, cs. done. }
  rewrite pull_not_pinned by done. mstep. unfold CHAIN_PINNED. rewrite Hpin.
  simpl in Ht. fold (sum_off cs) in Ht. pose proof (chain_bytes_len c0 Hc0) as Hl0.
  destruct (n <=? buffer_len c0 - misalign c0) eqn:E2; zb.
  - (* in place *)
    destruct (split_for_pull cs (n - off c0) Hcs) as (k & R & -> & Hk1 & Hk2); [lia|].
    destruct (pull_into_spec b (set_off c0 n) (misalign c0 + off c0) k R (n - off c0) (c_addr <$> head post) w
      (chain_bytes c0)) as (m & w' & E & N & L & Hbytes); simpl; auto; try lia;
      [by rewrite Hl0|apply sum_off_nonneg; by apply Forall_app in Hcs as [? _]|].
    rewrite (bind_done _ _ _ _ _ E). eexists _, _, w'. split; [reflexivity|]. split.
    + apply (pull_effect w w' b [c0] k R (n - off c0) (set_data (set_off c0 n) (misalign c0) n m)
        (c_addr <$> head post) pre post); auto; simpl; try lia.
      * by rewrite Hc.
      * simpl in L. destruct Hc0. constructor; simpl; auto; intros; lia.
      * right. by exists c0.
      * rewrite app_nil_r. exact Hbytes.
      * intros Hnone. rewrite Hp in Hnone. destruct pre as [|x pre _] using rev_ind.
        2: { by rewrite next_ptr_snoc in Hnone. }
        simpl in Hpp. rewrite <- Hpp. simpl. apply has_addr_not. pose proof (wf_nodup w b Hwf) as Hnd.
        rewrite Hc in Hnd. simpl in Hnd. apply NoDup_cons in Hnd as [Hnd _]. rewrite fmap_app in Hnd. set_solver.
    + split; [done|]. eexists _, _. split; [reflexivity|]. split; [done|]. simpl. lia.
  - (* into a new chain *)
    destruct (chain_new_spec n w) as (oc & w1 & En & Hs & Hoc); [lia|]. rewrite (bind_done _ _ _ _ _ En).
    destruct oc as [tmp|]; cycle 1.
    { exists None, b, w1. split; [done|]. split; [apply effect_later; [done|lia]|].
      destruct (decide (mm_fail w = [])); [|auto]. right. right. right.
      destruct (decide (n <= EVBUFFER_CHAIN_MAX - EVBUFFER_CHAIN_SIZE)) as [Hle|]; [|lia].
      by destruct (Hs e Hle). }
    destruct Hoc as [Hf N1]. pose proof Hf as [Hta Hto Htm Htf Hts Htok].
    destruct (split_for_pull (c0 :: cs) n) as (k & R & HkR & Hk1 & Hk2); [by constructor|simpl; fold (sum_off cs); lia|].
    assert (HokkR : Forall chain_ok (k ++ R)) by (rewrite <- HkR; by constructor).
    set (lwd := match last_with_datap b with None => Some (c_addr tmp) | _ => c_addr <$> head post end).
    destruct (pull_into_spec b (set_off tmp n) 0 k R n lwd w1 []) as (m & w' & E & N & L & Hbytes); simpl; auto; try lia.
    { rewrite Htm. done. }
    { pose proof (ck_mem _ Htok). lia. }
    { apply sum_off_nonneg. by apply Forall_app in HokkR as [? _]. }
    rewrite HkR, (bind_done _ _ _ _ _ E). eexists _, _, w'. split; [reflexivity|]. split.
    + apply (pull_effect w w' b [] k R n (set_data (set_off tmp n) (misalign tmp) n m) lwd pre post); auto; simpl; try lia.
      * by rewrite Hc.
      * by rewrite Hc.
      * simpl in L. pose proof (ck_mem _ Htok). destruct Htok. constructor; simpl in *; auto; try lia.
      * left. split; [done|]. lia.
      * intros ->. simpl in *. subst R. lia.
      * intros Hnone. unfold lwd. rewrite Hnone. apply has_addr_not. intros Hin.
        apply (fresh_not_in w b tmp Hwf ltac:(lia)). rewrite Hc, HkR, fmap_app. set_solver.
      * intros Hsome. unfold lwd. by destruct (last_with_datap b).
    + split; [done|]. eexists _, _. split; [reflexivity|]. split; [done|]. simpl. lia.
Qed.

(** [evbuffer_pullup] never changes the data.  When it returns a pointer, the memory behind it holds the first
    [size] bytes of the buffer (all of them for a negative size); it returns [NULL] only for an empty request,
    for more bytes than there are, or when memory runs out. *)
Theorem evbuffer_pullup_contiguous w b size :
  wf w b -> in_memory b ->
  let n := if size <? 0 then total_len b else size in
  exists o b' w', evbuffer_pullup b size w = Done ((o, b'), w') /\ wf w' b' /\ content b' = content b /\
    match o with
    | Some (a, at_) => exists c, find_chain a (chains b') = Some c /\ memread at_ n (buffer c) = Done (ztake n (content b))
    | None => n = 0 \/ total_len b < n \/ mm_fail w <> [] \/ EVBUFFER_CHAIN_MAX - EVBUFFER_CHAIN_SIZE < n
    end.
Proof.
  intros Hw Hm n. destruct (evbuffer_pullup_spec w b size Hw Hm) as (o & b' & w' & E & [Hw' Hc _ _ _] & Ho).
  exists o, b', w'. split_and!; auto. fold n in Ho. destruct o as [[a at_]|]; [|exact Ho].
  destruct Ho as [Hn (c & tl & Hcs & [= -> ->] & Hoff)]. exists c.
  pose proof (wf_chains w' b' Hw') as Hok. rewrite Hcs in Hok. inversion Hok as [|? ? Hcok _]; subst.
  split; [unfold find_chain; by rewrite Hcs, filter_cons_True|].
  pose proof (chain_bytes_len c Hcok) as Hlen. destruct Hcok. rewrite memread_done by lia. f_equal.
  rewrite <- Hc. unfold content. rewrite Hcs. cbn [fmap list_fmap concat]. rewrite ztake_app_le by lia.
  unfold chain_bytes, zsub, ztake. by rewrite take_take, Nat.min_l by lia.
Qed.

Definition sample_split : evbuffer :=
  mkBuf [mkChain 0 4 0 3 0 1 [x61; x62; x63; x00] XNone; mkChain 1 4 1 3 0 1 [x00; x78; x79; x7a] XNone]
        (Some 1) (Some 0) 6 0 0 false false false false 0 1 [].

Lemma sample_split_wf : wf sample_mm sample_split.
Proof.
  constructor; simpl; try done.
  - repeat constructor; simpl; try done; vm_compute; congruence.
  - repeat constructor; set_solver.
  - by repeat constructor.
  - eexists [_], [_]. split_and!; auto. by constructor.
Qed.

Lemma evbuffer_pullup_contiguous_witness :
  exists o b' w', evbuffer_pullup sample_split 5 sample_mm = Done ((o, b'), w') /\ content b' = content sample_split.
Proof.
  destruct (evbuffer_pullup_contiguous sample_mm sample_split 5 sample_split_wf) as (o & b' & w' & E & _ & H & _);
    [by vm_compute|]. exists o, b', w'. split; [exact E|exact H].
Defined.
