(* ===== verification/Tagging.v ===== *)
(** * Tagged data

    Models [libevent/event_tagging.c]: the nibble encoding of integers, the
    7-bit encoding of tags, and the marshalling of tagged values on top of the
    evbuffer operations.  A pointer returned by [evbuffer_pullup] is a chain
    and an offset; reading through it reads the chain's memory, so a read past
    the memory is [Crash]. *)

From S2P Require Import Prelude EvChain Evbuffer EvbufferSpace EvbufferMove EvbufferPullup.

(** ** Integers *)

Definition bytes_of (l : list Z) : list byte := Zbyte <$> l.

(** One turn of [ENCODE_INT_INTERNAL] per nibble: [data] is the byte array,
    [off] the next nibble. *)
Definition put_nibble (data : list Z) (off number : Z) : list Z :=
  let i := Z.to_nat (off / 2) in
  let x := data !!! i in
  if has off 1
  then <[i := Z.lor (Z.land x 0xf0) (Z.land number 0x0f)]> data
  else <[i := Z.lor (Z.land x 0x0f) (Z.shiftl (Z.land number 0x0f) 4)]> data.

Fixpoint encode_nibbles (fuel : nat) (data : list Z) (off number : Z) : list Z * Z :=
  match fuel with
  | O => (data, off)
  | S fuel =>
      if number =? 0 then (data, off)
      else encode_nibbles fuel (put_nibble data off number) (off + 1) (Z.shiftr number 4)
  end.

(** [size] is [sizeof(number)]; the result is the array and the length. *)
Definition ENCODE_INT_INTERNAL (size : nat) (number : Z) : list Z * Z :=
  let '(data, off) := encode_nibbles (2 * size) (replicate (S size) 0) 1 number in
  let nibbles := if 2 <? off then off - 2 else 0 in
  (<[0%nat := Z.lor (Z.land (data !!! 0%nat) 0x0f) (Z.shiftl (Z.land nibbles 0x0f) 4)]> data,
   (off + 1) / 2).

Definition encode_int_internal (number : Z) : list byte :=
  let '(data, len) := ENCODE_INT_INTERNAL 4 (u32 number) in ztake len (bytes_of data).
Definition encode_int64_internal (number : Z) : list byte :=
  let '(data, len) := ENCODE_INT_INTERNAL 8 (u64 number) in ztake len (bytes_of data).

Definition evtag_encode_int (b : evbuffer) (number : Z) : M evbuffer :=
  '(_, b) ← evbuffer_add b (encode_int_internal number); ret b.
Definition evtag_encode_int64 (b : evbuffer) (number : Z) : M evbuffer :=
  '(_, b) ← evbuffer_add b (encode_int64_internal number); ret b.

(** ** Tags *)

Fixpoint encode_tag_loop (fuel : nat) (tag : Z) : list Z :=
  match fuel with
  | O => []
  | S fuel =>
      let lower := Z.land tag 0x7f in
      let tag := Z.shiftr tag 7 in
      if tag =? 0 then [lower] else Z.lor lower 0x80 :: encode_tag_loop fuel tag
  end.

(** A 32-bit tag takes at most five turns. *)
Definition encode_tag_data (tag : Z) : list byte := bytes_of (encode_tag_loop 5 (u32 tag)).

Definition evtag_encode_tag (b : evbuffer) (tag : Z) : M (Z * evbuffer) :=
  let data := encode_tag_data tag in
  '(_, b) ← evbuffer_add b data; ret (zlen data, b).

(** The byte [i] behind a pointer into a chain of [b]. *)
Definition read_at (b : evbuffer) (r : Z * Z) (i : Z) : outcome Z :=
  c ← deref (find_chain r.1 (chains b));
  d ← memread (r.2 + i) 1 (buffer c);
  x ← deref (head d);
  Done (byteZ x).

(** [while (count++ < len)]: [None] is the error return. *)
Fixpoint decode_tag_loop (fuel : nat) (b : evbuffer) (r : Z * Z) (len count shift number : Z)
    : outcome (option (Z * Z)) :=
  match fuel with
  | O => Crash
  | S fuel =>
      if count <? len then
        lower ← read_at b r count;
        let count := count + 1 in
        if (28 <=? shift) && ((28 <? shift) || (15 <? Z.land lower 0x7f)) then Done None else
        let number := Z.lor number (u32 (Z.shiftl (Z.land lower 0x7f) shift)) in
        if negb (has lower 0x80) then Done (Some (count, number))
        else decode_tag_loop fuel b r len count (shift + 7) number
      else Done None
  end.

(** Return value, tag and buffer.  The sixth turn always returns. *)
Definition decode_tag_internal (b : evbuffer) (dodrain : bool) : M (Z * Z * evbuffer) :=
  let len := evbuffer_get_length b in
  '(p, b) ← evbuffer_pullup b (if len <? 5 then len else 5);
  match p with
  | None => ret (-1, 0, b)
  | Some r =>
      o ← lift (decode_tag_loop 7 b r len 0 0 0);
      match o with
      | None => ret (-1, 0, b)
      | Some (count, number) =>
          b ← (if dodrain then '(_, b) ← evbuffer_drain b count; ret b else ret b);
          ret (if INT_MAX <? count then INT_MAX else count, number, b)
      end
  end.

Definition evtag_decode_tag (b : evbuffer) : M (Z * Z * evbuffer) := decode_tag_internal b true.
Definition evtag_peek (b : evbuffer) : M (Z * Z * evbuffer) := decode_tag_internal b false.

(** ** Decoding integers *)

(** [while (nibbles > 0)], the most significant nibble first. *)
Fixpoint decode_nibbles (width : Z) (nibbles : nat) (b : evbuffer) (r : Z * Z) (number : Z) : outcome Z :=
  match nibbles with
  | O => Done number
  | S k =>
      let n := Z.of_nat nibbles in
      x ← read_at b r (n / 2);
      let number := Z.shiftl number 4 mod 2 ^ width in
      decode_nibbles width k b r
        (Z.lor number (if has n 1 then Z.land x 0x0f else Z.shiftr (Z.land x 0xf0) 4))
  end.

(** [evbuffer_pullup(...) + offset]: the sum of a null pointer and a non-zero
    offset is not null, so the test that follows does not catch it. *)
Definition pull_plus (b : evbuffer) (size offset : Z) : M (option (Z * Z) * evbuffer) :=
  '(p, b) ← evbuffer_pullup b size;
  match p with
  | Some (a, at_) => ret (Some (a, at_ + offset), b)
  | None => if offset =? 0 then ret (None, b) else lift Crash
  end.

(** Return value ([-1] or the encoded length), number and buffer. *)
Definition DECODE_INT_INTERNAL (width maxnibbles : Z) (b : evbuffer) (offset : Z) : M (Z * Z * evbuffer) :=
  let len := i64 (evbuffer_get_length b - offset) in
  if len <=? 0 then ret (-1, 0, b) else
  '(p, b) ← pull_plus b (offset + 1) offset;
  match p with
  | None => ret (-1, 0, b)
  | Some r =>
      x ← lift (read_at b r 0);
      let nibbles := Z.shiftr (Z.land x 0xf0) 4 + 1 in
      if (maxnibbles <? nibbles) || (len <? nibbles / 2 + 1) then ret (-1, 0, b) else
      let len := nibbles / 2 + 1 in
      '(p, b) ← pull_plus b (offset + len) offset;
      match p with
      | None => ret (-1, 0, b)
      | Some r =>
          number ← lift (decode_nibbles width (Z.to_nat nibbles) b r 0);
          ret (len, number, b)
      end
  end.

Definition decode_int_internal (b : evbuffer) (offset : Z) : M (Z * Z * evbuffer) :=
  DECODE_INT_INTERNAL 32 8 b offset.
Definition decode_int64_internal (b : evbuffer) (offset : Z) : M (Z * Z * evbuffer) :=
  DECODE_INT_INTERNAL 64 16 b offset.

Definition drain_decoded (r : Z * Z * evbuffer) : M (Z * Z * evbuffer) :=
  let '(res, number, b) := r in
  if res =? -1 then ret (-1, number, b)
  else '(_, b) ← evbuffer_drain b res; ret (0, number, b).
Definition evtag_decode_int (b : evbuffer) : M (Z * Z * evbuffer) :=
  r ← decode_int_internal b 0; drain_decoded r.
Definition evtag_decode_int64 (b : evbuffer) : M (Z * Z * evbuffer) :=
  r ← decode_int64_internal b 0; drain_decoded r.

(** ** Marshalling *)

Definition evtag_marshal (b : evbuffer) (tag : Z) (data : list byte) : M evbuffer :=
  '(_, b) ← evtag_encode_tag b tag;
  b ← evtag_encode_int b (zlen data);
  '(_, b) ← evbuffer_add b data;
  ret b.

Definition evtag_marshal_buffer (b : evbuffer) (tag : Z) (data : evbuffer) : M (evbuffer * evbuffer) :=
  '(_, b) ← evtag_encode_tag b tag;
  b ← evtag_encode_int b (u32 (evbuffer_get_length data));
  '(_, b, data) ← evbuffer_add_buffer false b data;
  ret (b, data).

Definition evtag_marshal_int (b : evbuffer) (tag integer : Z) : M evbuffer :=
  let data := encode_int_internal integer in
  '(_, b) ← evtag_encode_tag b tag;
  b ← evtag_encode_int b (zlen data);
  '(_, b) ← evbuffer_add b data;
  ret b.

Definition evtag_marshal_int64 (b : evbuffer) (tag integer : Z) : M evbuffer :=
  let data := encode_int64_internal integer in
  '(_, b) ← evtag_encode_tag b tag;
  b ← evtag_encode_int b (zlen data);
  '(_, b) ← evbuffer_add b data;
  ret b.

(** [string] without its NUL. *)
Definition evtag_marshal_string (b : evbuffer) (tag : Z) (string : list byte) : M evbuffer :=
  evtag_marshal b tag (cstr string).

Definition evtag_marshal_timeval (b : evbuffer) (tag tv_sec tv_usec : Z) : M evbuffer :=
  evtag_marshal b tag (encode_int_internal tv_sec ++ encode_int_internal tv_usec).

(** ** Unmarshalling *)

Definition evtag_peek_length (b : evbuffer) : M (Z * Z * evbuffer) :=
  '(len, _, b) ← decode_tag_internal b false;
  if len =? -1 then ret (-1, 0, b) else
  '(res, plength, b) ← decode_int_internal b len;
  if res =? -1 then ret (-1, plength, b) else ret (0, u32 (plength + res + len), b).

Definition evtag_payload_length (b : evbuffer) : M (Z * Z * evbuffer) :=
  '(len, _, b) ← decode_tag_internal b false;
  if len =? -1 then ret (-1, 0, b) else
  '(res, plength, b) ← decode_int_internal b len;
  if res =? -1 then ret (-1, plength, b) else ret (0, plength, b).

(** The length as an [int], the tag and the buffer. *)
Definition evtag_unmarshal_header (b : evbuffer) : M (Z * Z * evbuffer) :=
  '(r, tag, b) ← decode_tag_internal b true;
  if r =? -1 then ret (-1, tag, b) else
  '(r, len, b) ← evtag_decode_int b;
  if r =? -1 then ret (-1, tag, b) else
  if evbuffer_get_length b <? len then ret (-1, tag, b) else ret (i32 len, tag, b).

Definition evtag_consume (b : evbuffer) : M (Z * evbuffer) :=
  '(len, _, b) ← evtag_unmarshal_header b;
  if len =? -1 then ret (-1, b) else
  '(_, b) ← evbuffer_drain b (u64 len); ret (0, b).

(** [len] bytes behind the result of [evbuffer_pullup]. *)
Definition pulled_bytes (b : evbuffer) (p : option (Z * Z)) (len : Z) : outcome (list byte) :=
  match p with
  | Some (a, at_) => c ← deref (find_chain a (chains b)); memread at_ len (buffer c)
  | None => if len =? 0 then Done [] else Crash
  end.

Definition evtag_unmarshal (src dst : evbuffer) : M (Z * Z * evbuffer * evbuffer) :=
  '(len, tag, src) ← evtag_unmarshal_header src;
  if len =? -1 then ret (-1, tag, src, dst) else
  '(p, src) ← evbuffer_pullup src len;
  d ← lift (pulled_bytes src p (u64 len));
  '(r, dst) ← evbuffer_add dst d;
  if r =? -1 then ret (-1, tag, src, dst) else
  '(_, src) ← evbuffer_drain src (u64 len);
  ret (len, tag, src, dst).

(** The common body of [evtag_unmarshal_int] and [evtag_unmarshal_int64]. *)
Definition unmarshal_int_with (decode : evbuffer -> Z -> M (Z * Z * evbuffer)) (b : evbuffer) (need_tag : Z)
    : M (Z * Z * evbuffer) :=
  '(r, tag, b) ← decode_tag_internal b true;
  if r =? -1 then ret (-1, 0, b) else
  if negb (need_tag =? tag) then ret (-1, 0, b) else
  '(r, len, b) ← evtag_decode_int b;
  if r =? -1 then ret (-1, 0, b) else
  if evbuffer_get_length b <? len then ret (-1, 0, b) else
  '(result, integer, b) ← decode b 0;
  '(_, b) ← evbuffer_drain b len;
  if (result <? 0) || (len <? result) then ret (-1, integer, b) else ret (result, integer, b).

Definition evtag_unmarshal_int (b : evbuffer) (need_tag : Z) : M (Z * Z * evbuffer) :=
  unmarshal_int_with decode_int_internal b need_tag.
Definition evtag_unmarshal_int64 (b : evbuffer) (need_tag : Z) : M (Z * Z * evbuffer) :=
  unmarshal_int_with decode_int64_internal b need_tag.

(** Status and the bytes stored at [data]. *)
Definition evtag_unmarshal_fixed (src : evbuffer) (need_tag len : Z) : M (Z * list byte * evbuffer) :=
  '(tag_len, tag, src) ← evtag_unmarshal_header src;
  if (tag_len <? 0) || negb (tag =? need_tag) then ret (-1, [], src) else
  if negb (tag_len =? len) then ret (-1, [], src) else
  '(_, d, src) ← evbuffer_remove src len;
  ret (0, d, src).

Definition evtag_unmarshal_string (b : evbuffer) (need_tag : Z) : M (Z * option (list byte) * evbuffer) :=
  '(tag_len, tag, b) ← evtag_unmarshal_header b;
  if (tag_len =? -1) || negb (tag =? need_tag) then ret (-1, None, b) else
  a ← mm_malloc;
  match a with
  | None => ret (-1, None, b)
  | Some _ => '(_, d, b) ← evbuffer_remove b (u64 tag_len); ret (0, Some (d ++ [x00]), b)
  end.

(** Status, seconds and microseconds; the payload is drained in any case. *)
Definition evtag_unmarshal_timeval (b : evbuffer) (need_tag : Z) : M (Z * Z * Z * evbuffer) :=
  '(len, tag, b) ← evtag_unmarshal_header b;
  if len =? -1 then ret (-1, 0, 0, b) else
  '(result, sec, usec, b) ←
    (if negb (tag =? need_tag) then ret (-1, 0, 0, b) else
     '(offset, sec, b) ← decode_int_internal b 0;
     if offset =? -1 then ret (-1, 0, 0, b) else
     '(offset2, usec, b) ← decode_int_internal b offset;
     if offset2 =? -1 then ret (-1, sec, 0, b) else
     if len <? offset + offset2 then ret (-1, sec, usec, b) else ret (0, sec, usec, b));
  '(_, b) ← evbuffer_drain b (u64 len);
  ret (result, sec, usec, b).

(** ** Allocation keeps succeeding

    [keeps m]: while the allocator does not fail, it does not fail after [m]. *)

Definition keeps {A} (m : M A) : Prop :=
  forall w a w', m w = Done (a, w') -> mm_fail w = [] -> mm_fail w' = [].

Lemma keeps_ret {A} (a : A) : keeps (ret a).
Proof. intros w x w' [= _ <-]. done. Qed.
Lemma keeps_lift {A} (o : outcome A) : keeps (lift o).
Proof. intros w a w' H. destruct o; [|done]. by injection H as _ <-. Qed.
Lemma keeps_log e : keeps (log e).
Proof. intros w a w' [= _ <-]. done. Qed.
Lemma keeps_malloc : keeps mm_malloc.
Proof. intros w a w' H Hf. unfold mm_malloc in H. rewrite Hf in H. by injection H as _ <-. Qed.
Lemma keeps_junk : keeps junk.
Proof. intros w a w' [= _ <-]. done. Qed.
Lemma keeps_bind {A B} (m : M A) (f : A -> M B) :
  keeps m -> (forall a, keeps (f a)) -> keeps (m ≫= f).
Proof.
  intros Hm Hf w a w' H Hw. unfold mbind, M_bind in H.
  destruct (m w) as [[x w1]|] eqn:E; [|done]. eapply Hf; [exact H|]. by eapply Hm.
Qed.

Create HintDb keeps.
#[export] Hint Resolve keeps_ret keeps_lift keeps_log keeps_malloc keeps_junk : keeps.

Ltac solve_keeps := repeat first
  [ solve [auto 2 with keeps]
  | apply keeps_bind; [|intros ?]
  | match goal with
    | |- keeps (let '_ := ?x in _) => destruct x
    | |- keeps (match ?x with _ => _ end) => destruct x
    end ].

Lemma keeps_assert c : keeps (assert_m c).
Proof. apply keeps_lift. Qed.
#[export] Hint Resolve keeps_assert : keeps.
Lemma keeps_iter {A} (f : A -> M unit) l : (forall a, keeps (f a)) -> keeps (iter_m f l).
Proof. intros H. induction l; cbn [iter_m]; solve_keeps. Qed.
Lemma keeps_chain_new n : keeps (evbuffer_chain_new n).
Proof. unfold evbuffer_chain_new. solve_keeps. Qed.
Lemma keeps_chain_free c : keeps (evbuffer_chain_free c).
Proof. unfold evbuffer_chain_free. solve_keeps. Qed.
Lemma keeps_free_all cs : keeps (evbuffer_free_all_chains cs).
Proof. apply keeps_iter, keeps_chain_free. Qed.
#[export] Hint Resolve keeps_chain_new keeps_chain_free keeps_free_all : keeps.
Lemma keeps_free_trailing b : keeps (evbuffer_free_trailing_empty_chains b).
Proof. unfold evbuffer_free_trailing_empty_chains. solve_keeps. Qed.
#[export] Hint Resolve keeps_free_trailing : keeps.
Lemma keeps_insert b c : keeps (evbuffer_chain_insert b c).
Proof. unfold evbuffer_chain_insert. solve_keeps. Qed.
#[export] Hint Resolve keeps_insert : keeps.
Lemma keeps_invoke b : keeps (evbuffer_invoke_callbacks_ b).
Proof.
  unfold evbuffer_invoke_callbacks_, evbuffer_run_callbacks. solve_keeps.
  all: apply keeps_iter; intros; solve_keeps.
Qed.
#[export] Hint Resolve keeps_invoke : keeps.
Lemma keeps_finish b : keeps (finish b).
Proof. unfold finish. solve_keeps. Qed.
#[export] Hint Resolve keeps_finish : keeps.
Lemma keeps_add b d : keeps (evbuffer_add b d).
Proof. unfold evbuffer_add, add_at, add_new_chain, evbuffer_chain_insert_new. solve_keeps. Qed.
Lemma keeps_drain_loop f cs p n : keeps (drain_loop f cs p n).
Proof. revert p n. induction cs; intros; cbn [drain_loop]; solve_keeps. Qed.
#[export] Hint Resolve keeps_drain_loop : keeps.
Lemma keeps_drain b n : keeps (evbuffer_drain b n).
Proof. unfold evbuffer_drain. solve_keeps. Qed.
Lemma keeps_pull_loop cs m a s l p f g : keeps (pull_loop cs m a s l p f g).
Proof. revert m a s f g. induction cs; intros; cbn [pull_loop]; solve_keeps. Qed.
#[export] Hint Resolve keeps_add keeps_drain keeps_pull_loop : keeps.
Lemma keeps_pullup b n : keeps (evbuffer_pullup b n).
Proof. unfold evbuffer_pullup, pull_into. cbv zeta. solve_keeps. Qed.
#[export] Hint Resolve keeps_pullup : keeps.

(** ** Bits *)

#[local] Ltac Zify.zify_post_hook ::= Z.to_euclidean_division_equations.

Lemma forall_below (n : Z) (P : Z -> bool) :
  forallb P (seqZ 0 n) = true -> forall x, 0 <= x < n -> P x = true.
Proof. intros H x Hx. rewrite forallb_forall in H. apply H. apply list_elem_of_In, elem_of_seqZ. lia. Qed.

Lemma lor_shiftl_add a b n : 0 <= n -> 0 <= a < 2 ^ n -> Z.lor a (Z.shiftl b n) = a + b * 2 ^ n.
Proof.
  intros Hn Ha. rewrite <- Z.shiftl_mul_pow2 by done.
  assert (Z.land a (Z.shiftl b n) = 0) as Hd.
  { apply Z.bits_inj'. intros i Hi. rewrite Z.land_spec, Z.bits_0.
    destruct (decide (i < n)).
    - by rewrite Z.shiftl_spec_low, andb_false_r.
    - destruct (decide (a = 0)) as [->|]; [by rewrite Z.bits_0|].
      rewrite Z.bits_above_log2; [done|lia|]. apply Z.log2_lt_pow2; [lia|].
      apply Z.lt_le_trans with (2 ^ n); [lia|]. apply Z.pow_le_mono_r; lia. }
  by rewrite Z.add_nocarry_lxor, Z.lxor_lor.
Qed.

Lemma tag_byte x : 0 <= x < 128 ->
  Z.lor x 0x80 = x + 128 /\ Z.land (x + 128) 0x7f = x /\ Z.land x 0x7f = x /\
  has (x + 128) 0x80 = true /\ has x 0x80 = false.
Proof.
  intros Hx. assert (H : (Z.lor x 0x80 =? x + 128) && (Z.land (x + 128) 0x7f =? x) && (Z.land x 0x7f =? x) &&
    has (x + 128) 0x80 && negb (has x 0x80) = true) by (revert x Hx; apply forall_below; by vm_compute).
  rewrite !andb_true_iff, !Z.eqb_eq, negb_true_iff in H. tauto.
Qed.

(** Writing nibble [v] in the byte [x]. *)
Definition nibble_ok (x : Z) : bool :=
  forallb (fun v =>
    let lo := Z.lor (Z.land x 0xf0) v in
    let hi := Z.lor (Z.land x 0x0f) (Z.shiftl v 4) in
    (Z.land lo 0x0f =? v) && (Z.shiftr (Z.land lo 0xf0) 4 =? Z.shiftr (Z.land x 0xf0) 4) &&
    (Z.land hi 0x0f =? Z.land x 0x0f) && (Z.shiftr (Z.land hi 0xf0) 4 =? v) &&
    (0 <=? lo) && (lo <? 256) && (0 <=? hi) && (hi <? 256)) (seqZ 0 16).
Lemma nibble_facts x v : 0 <= x < 256 -> 0 <= v < 16 ->
  let lo := Z.lor (Z.land x 0xf0) v in
  let hi := Z.lor (Z.land x 0x0f) (Z.shiftl v 4) in
  Z.land lo 0x0f = v /\ Z.shiftr (Z.land lo 0xf0) 4 = Z.shiftr (Z.land x 0xf0) 4 /\
  Z.land hi 0x0f = Z.land x 0x0f /\ Z.shiftr (Z.land hi 0xf0) 4 = v /\ 0 <= lo < 256 /\ 0 <= hi < 256.
Proof.
  intros Hx Hv. assert (H : nibble_ok x = true) by (revert x Hx; apply forall_below; by vm_compute).
  unfold nibble_ok in H. apply (fun h => forall_below 16 _ h v Hv) in H. cbv beta zeta in H. zb. intros lo hi. subst lo hi. lia.
Qed.

Lemma land_15 x : Z.land x 0x0f = x mod 16.
Proof. apply (Z.land_ones x 4). lia. Qed.
Lemma land_127 x : Z.land x 0x7f = x mod 128.
Proof. apply (Z.land_ones x 7). lia. Qed.
Lemma shiftr_4 x : Z.shiftr x 4 = x / 16.
Proof. apply (Z.shiftr_div_pow2 x 4). lia. Qed.

(** Nibble [j] of a byte array; the even ones are the high ones. *)
Definition nib (l : list Z) (j : Z) : Z :=
  let x := l !!! Z.to_nat (j / 2) in
  if has j 1 then Z.land x 0x0f else Z.shiftr (Z.land x 0xf0) 4.

Definition is_byte (x : Z) : Prop := 0 <= x < 256.

Lemma has_1 j : has j 1 = Z.odd j.
Proof.
  unfold has. change 1 with (Z.ones 1). rewrite Z.land_ones by lia. change (2 ^ 1) with 2.
  rewrite Zmod_odd. by destruct (Z.odd j).
Qed.

Lemma total_byte l i : Forall is_byte l -> is_byte (l !!! i).
Proof.
  intros H. rewrite list_lookup_total_alt. destruct (l !! i) as [x|] eqn:E; simpl; [|by unfold is_byte].
  by eapply Forall_lookup_1.
Qed.

Lemma nib_range l j : Forall is_byte l -> 0 <= nib l j < 16.
Proof.
  intros H. unfold nib. set (x := l !!! _). assert (Hx : is_byte x) by (by apply total_byte).
  destruct (has j 1); [rewrite land_15; lia|]. clearbody x.
  assert (Hb : (0 <=? Z.shiftr (Z.land x 0xf0) 4) && (Z.shiftr (Z.land x 0xf0) 4 <? 16) = true).
  { revert x Hx. apply (forall_below 256). by vm_compute. }
  zb. lia.
Qed.

Lemma put_nibble_spec l off v :
  Forall is_byte l -> 0 <= off < 2 * zlen l ->
  let l' := put_nibble l off v in
  Forall is_byte l' /\ length l' = length l /\
  forall j, 0 <= j -> nib l' j = if j =? off then v mod 16 else nib l j.
Proof.
  intros Hl Hoff l'. set (i := Z.to_nat (off / 2)). pose proof (total_byte l i Hl) as Hx.
  assert (Hi : (i < length l)%nat) by (unfold zlen in Hoff; subst i; lia).
  destruct (nibble_facts (l !!! i) (v mod 16) Hx) as (Hlo1 & Hlo2 & Hhi1 & Hhi2 & Hlo & Hhi); [lia|].
  subst l'. unfold put_nibble. fold i. rewrite land_15. split_and!.
  - destruct (has off 1); by apply Forall_insert.
  - destruct (has off 1); apply length_insert.
  - intros j Hj. unfold nib. rewrite !has_1.
    destruct (decide (j / 2 = off / 2)) as [Heq|Hne].
    + rewrite Heq. fold i. pose proof (Z.div2_odd j). pose proof (Z.div2_odd off).
      rewrite !Z.div2_div in *. destruct (Z.odd off), (Z.odd j);
        rewrite list_lookup_total_insert_eq by done; simpl Z.b2z in *; case_test; zb; auto; lia.
    + rewrite (proj2 (Z.eqb_neq j off)) by (intros ->; done).
      destruct (Z.odd off); rewrite list_lookup_total_insert_ne; auto; subst i; lia.
Qed.

(** ** Integers are decoded as they were encoded *)

(** The number held by [k] nibbles from nibble [j], the least significant first. *)
Fixpoint nibval (l : list Z) (j : Z) (k : nat) : Z :=
  match k with
  | O => 0
  | S k => nib l j + 16 * nibval l (j + 1) k
  end.

Lemma nibval_ext l l' j k :
  (forall i, j <= i < j + Z.of_nat k -> nib l' i = nib l i) -> nibval l' j k = nibval l j k.
Proof.
  revert j. induction k as [|k IH]; intros j H; [done|]. simpl. rewrite H by lia. rewrite IH; [done|].
  intros i Hi. apply H. lia.
Qed.

Lemma nibval_snoc l j k : nibval l j (S k) = nibval l j k + 16 ^ Z.of_nat k * nib l (j + Z.of_nat k).
Proof.
  revert j. induction k as [|k IH]; intros j; [cbn [nibval]; rewrite !Z.add_0_r, Z.pow_0_r; lia|].
  change (nibval l j (S (S k))) with (nib l j + 16 * nibval l (j + 1) (S k)). rewrite IH.
  replace (j + 1 + Z.of_nat k) with (j + Z.of_nat (S k)) by lia. cbn [nibval].
  rewrite (Nat2Z.inj_succ k), Z.pow_succ_r by lia. lia.
Qed.

Lemma nibval_nonneg l j k : Forall is_byte l -> 0 <= nibval l j k.
Proof.
  intros H. revert j. induction k as [|k IH]; intros j; simpl; [lia|].
  pose proof (IH (j + 1)). pose proof (nib_range l j H). lia.
Qed.

Lemma encode_nibbles_spec fuel l off number :
  Forall is_byte l -> 0 <= off -> off + Z.of_nat fuel <= 2 * zlen l -> 0 <= number < 16 ^ Z.of_nat fuel ->
  exists l' k, encode_nibbles fuel l off number = (l', off + Z.of_nat k) /\ (k <= fuel)%nat /\
    Forall is_byte l' /\ length l' = length l /\ (k = O -> number = 0 /\ l' = l) /\
    (forall j, 0 <= j < off -> nib l' j = nib l j) /\ nibval l' off k = number.
Proof.
  revert l off number. induction fuel as [|fuel IH]; intros l off number Hl Hoff Hfit Hn.
  { change (16 ^ Z.of_nat 0) with 1 in Hn. assert (number = 0) as -> by lia.
    exists l, O. rewrite Z.add_0_r. split_and!; auto. }
  cbn [encode_nibbles]. case_test; zb.
  { subst number. exists l, O. rewrite Z.add_0_r. split_and!; auto. lia. }
  destruct (put_nibble_spec l off number Hl) as (Hb & Hlen & Hnib); [lia|].
  rewrite Nat2Z.inj_succ, Z.pow_succ_r in Hn by lia.
  destruct (IH (put_nibble l off number) (off + 1) (Z.shiftr number 4)) as (l' & k & Er & Hk & Hb' & Hlen' & _ & Hlow & Hv);
    [done|lia|unfold zlen in *; lia|rewrite shiftr_4; lia|].
  exists l', (S k). rewrite Er, Hlen', Hlen. split_and!; auto; [f_equal; lia|lia|done| |].
  - intros j Hj. rewrite Hlow, Hnib by lia. case_test; zb; [lia|done].
  - simpl. rewrite Hv, Hlow, Hnib, Z.eqb_refl, shiftr_4 by lia. lia.
Qed.

(** [cnt] nibbles hold the number, nibble 0 holds [cnt - 1]. *)
Record encoded (size : nat) (number : Z) (l : list Z) (len : Z) (cnt : nat) : Prop := {
  en_bytes : Forall is_byte l;
  en_length : length l = S size;
  en_cnt : (1 <= cnt <= 2 * size)%nat;
  en_head : nib l 0 = Z.of_nat cnt - 1;
  en_len : len = Z.of_nat cnt / 2 + 1;
  en_value : nibval l 1 cnt = number
}.

Lemma ENCODE_INT_spec size number :
  (0 < size <= 8)%nat -> 0 <= number < 16 ^ Z.of_nat (2 * size) ->
  exists l len cnt, ENCODE_INT_INTERNAL size number = (l, len) /\ encoded size number l len cnt.
Proof.
  intros Hs Hn. unfold ENCODE_INT_INTERNAL.
  destruct (encode_nibbles_spec (2 * size) (replicate (S size) 0) 1 number) as (l & k & -> & Hk & Hb & Hl & H0 & _ & Hv);
    [apply Forall_replicate; by unfold is_byte|lia|rewrite zlen_replicate; lia|done|].
  rewrite length_replicate in Hl.
  set (nibbles := if 2 <? _ then _ else 0). set (cnt := Nat.max k 1).
  assert (Hnb : nibbles = Z.of_nat cnt - 1) by (subst nibbles cnt; case_test; zb; lia).
  change (<[0%nat := _]> l) with (put_nibble l 0 nibbles).
  destruct (put_nibble_spec l 0 nibbles Hb) as (Hb' & Hl' & Hnib); [unfold zlen; lia|].
  eexists _, _, cnt. split; [reflexivity|]. split; auto.
  - by rewrite Hl'.
  - lia.
  - rewrite Hnib by lia. simpl. lia.
  - subst cnt. destruct k; [done|]. rewrite Nat.max_l by lia. lia.
  - rewrite (nibval_ext l); cycle 1.
    { intros i Hi. rewrite Hnib by lia. case_test; zb; [lia|done]. }
    destruct k as [|k]; [|by subst cnt; rewrite Nat.max_l by lia].
    destruct H0 as [-> ->]; [done|]. subst cnt. cbn. destruct size as [|[|]]; done.
Qed.

(** The pointer [r] shows the bytes of [l]. *)
Definition shows (b : evbuffer) (r : Z * Z) (l : list Z) (n : Z) : Prop :=
  forall i, 0 <= i < n -> read_at b r i = Done (l !!! Z.to_nat i).

Lemma decode_nibbles_spec width k b r l n acc :
  Forall is_byte l -> shows b r l n -> Z.of_nat k / 2 < n -> 0 <= acc -> 0 <= width ->
  acc * 16 ^ Z.of_nat k + nibval l 1 k < 2 ^ width ->
  decode_nibbles width k b r acc = Done (acc * 16 ^ Z.of_nat k + nibval l 1 k).
Proof.
  intros Hl Hr. revert acc. induction k as [|k IH]; intros acc Hk Ha Hw Hfit.
  { cbn. f_equal. lia. }
  rewrite nibval_snoc in *. cbn [decode_nibbles]. rewrite Hr by lia. cbn [mbind outcome_bind].
  rewrite Nat2Z.inj_succ, Z.pow_succ_r in * by lia.
  replace (Z.succ (Z.of_nat k)) with (1 + Z.of_nat k) in * by lia.
  set (p := 16 ^ Z.of_nat k) in *. assert (0 < p) by (subst p; lia).
  pose proof (nibval_nonneg l 1 k Hl) as Hv.
  pose proof (nib_range l (1 + Z.of_nat k) Hl) as Hnr.
  rewrite Z.shiftl_mul_pow2 by lia. rewrite Z.mod_small by nia.
  change (if has (1 + Z.of_nat k) 1 then _ else _) with (nib l (1 + Z.of_nat k)).
  rewrite Z.lor_comm, <- (Z.shiftl_mul_pow2 acc 4), lor_shiftl_add by lia.
  rewrite IH; [f_equal; lia|lia|lia|lia|nia].
Qed.

(** ** Operations on a buffer that is not frozen, with memory available *)

Record ready (w : mm) (b : evbuffer) : Prop := {
  rd_wf : wf w b;
  rd_mem : in_memory b;
  rd_fail : mm_fail w = [];
  rd_fs : freeze_start b = false;
  rd_fe : freeze_end b = false
}.

(** [m] returns [mk b'] for a buffer [b'] that holds [s]. *)
Definition yields {R} (w : mm) (b : evbuffer) (m : M R) (mk : evbuffer -> R) (s : list byte) : Prop :=
  exists b' w', m w = Done (mk b', w') /\ effect w b w' b' s /\ mm_fail w' = [].
Notation gives w b m a s := (yields w b m (pair a) s).

Lemma ready_after w b w' b' s :
  ready w b -> effect w b w' b' s -> mm_fail w' = [] -> zlen s <= EV_SSIZE_MAX -> ready w' b'.
Proof.
  intros [] [] Hf Hs. split; auto; try congruence. unfold in_memory. by rewrite (total_content w' b'), ef_content.
Qed.

Lemma yields_ret {R} w b (mk : evbuffer -> R) s : ready w b -> content b = s -> yields w b (ret (mk b)) mk s.
Proof. intros [] <-. exists b, w. split; [done|]. split; [by apply effect_refl|done]. Qed.

Lemma yields_bind {A B} w b (m : M A) mk s (f : A -> M B) mk2 s2 :
  ready w b -> zlen s <= EV_SSIZE_MAX -> yields w b m mk s ->
  (forall w' b', ready w' b' -> content b' = s -> yields w' b' (f (mk b')) mk2 s2) ->
  yields w b (m ≫= f) mk2 s2.
Proof.
  intros Hr Hs (b1 & w1 & E & He & Hf) H.
  destruct (H w1 b1 (ready_after _ _ _ _ _ Hr He Hf Hs) (ef_content _ _ _ _ _ He)) as (b2 & w2 & E2 & He2 & Hf2).
  exists b2, w2. rewrite (bind_done _ _ _ _ _ E). split; [done|]. split; [|done]. by eapply effect_trans.
Qed.

Lemma ready_len w b : ready w b -> zlen (content b) <= EV_SSIZE_MAX.
Proof. intros [? Hm _ _ _]. unfold in_memory in Hm. by rewrite (total_content w b) in Hm. Qed.

Lemma zdrop_fits w b n : ready w b -> zlen (zdrop n (content b)) <= EV_SSIZE_MAX.
Proof.
  intros Hr. pose proof (ready_len w b Hr). pose proof (zlen_nonneg (content b)). rewrite zlen_zdrop. lia.
Qed.

Lemma gives_add w b d :
  ready w b -> zlen (content b) + zlen d <= EV_SSIZE_MAX -> small d ->
  gives w b (evbuffer_add b d) 0 (content b ++ d).
Proof.
  intros [Hw Hm Hf Hfs Hfe] Hl Hd. destruct (evbuffer_add_spec w b d Hw) as (r & b' & w' & E & Ha & H0).
  assert (r = 0) as ->.
  { apply H0; auto. rewrite (total_content w b Hw). unfold EV_SIZE_MAX, EV_SSIZE_MAX in *. lia. }
  destruct Ha as [[_ He]|[? _]]; [|lia]. exists b', w'. split; [done|]. split; [done|]. by eapply keeps_add.
Qed.

Lemma gives_drain w b n : ready w b -> 0 <= n -> gives w b (evbuffer_drain b n) 0 (zdrop n (content b)).
Proof.
  intros [Hw Hm Hf Hfs Hfe] Hn. destruct (evbuffer_drain_spec w b n Hw Hn) as (r & b' & w' & E & -> & He).
  rewrite Hfs, andb_false_r in E, He. exists b', w'. split; [done|]. split; [done|]. by eapply keeps_drain.
Qed.

Lemma pullup_shows w b n :
  ready w b -> 0 < n <= zlen (content b) -> n <= EVBUFFER_CHAIN_MAX - EVBUFFER_CHAIN_SIZE ->
  exists r b' w', evbuffer_pullup b n w = Done ((Some r, b'), w') /\ effect w b w' b' (content b) /\
    mm_fail w' = [] /\ contiguous b' n r.
Proof.
  intros [Hw Hm Hf Hfs Hfe] Hn Hx. destruct (evbuffer_pullup_spec w b n Hw Hm) as (o & b' & w' & E & He & Ho).
  rewrite (proj2 (Z.ltb_ge n 0)) in Ho by lia. rewrite (total_content w b Hw) in Ho.
  destruct o as [r|]; [|by destruct Ho as [|[|[]]]; lia || done].
  exists r, b', w'. destruct Ho. split_and!; auto. by eapply keeps_pullup.
Qed.

Lemma read_at_spec w b n r o i x :
  wf w b -> contiguous b n r -> 0 <= o -> 0 <= i -> o + i < n ->
  content b !! Z.to_nat (o + i) = Some x -> read_at b (r.1, r.2 + o) i = Done (byteZ x).
Proof.
  intros Hw (c & tl & Hc & -> & Hn) Ho Hi Hoi Hx. pose proof (wf_chains w b Hw) as Hok.
  unfold read_at. simpl. rewrite Hc in Hok |- *. inversion Hok as [|? ? Hcok _]; subst.
  unfold find_chain. rewrite filter_cons_True by done. cbn [head deref mbind outcome_bind].
  pose proof (chain_bytes_len c Hcok) as Hlen. destruct Hcok. rewrite memread_done by lia. cbn [mbind outcome_bind].
  unfold content in Hx. rewrite Hc in Hx. cbn in Hx. rewrite lookup_app_l in Hx by (unfold zlen in Hlen; lia).
  unfold chain_bytes, zsub, ztake, zdrop in Hx |- *. rewrite lookup_take_lt in Hx by lia. rewrite lookup_drop in Hx.
  replace (Z.to_nat (misalign c) + Z.to_nat (o + i))%nat with (Z.to_nat (misalign c + o + i)) in Hx by lia.
  by rewrite (drop_S _ _ _ Hx).
Qed.

Lemma lookup_encoded l len pre rest i :
  0 <= i < len -> len <= zlen l ->
  (pre ++ ztake len (bytes_of l) ++ rest) !! Z.to_nat (zlen pre + i) = Some (Zbyte (l !!! Z.to_nat i)).
Proof.
  intros Hi Hlen. unfold zlen, ztake, bytes_of in *. rewrite lookup_app_r by lia.
  replace (Z.to_nat (Z.of_nat (length pre) + i) - length pre)%nat with (Z.to_nat i) by lia.
  rewrite lookup_app_l by (rewrite length_take, length_fmap; lia).
  rewrite lookup_take_lt by lia. rewrite list_lookup_fmap.
  by rewrite (list_lookup_lookup_total_lt l) by lia.
Qed.

Lemma shows_encoded w b r l len n pre rest :
  wf w b -> content b = pre ++ ztake len (bytes_of l) ++ rest -> Forall is_byte l -> n <= len -> len <= zlen l ->
  contiguous b (zlen pre + n) r -> shows b (r.1, r.2 + zlen pre) l n.
Proof.
  intros Hw Hc Hl Hn Hlen Hr i Hi. pose proof (zlen_nonneg pre).
  rewrite (read_at_spec w b (zlen pre + n) r (zlen pre) i (Zbyte (l !!! Z.to_nat i))); auto; try lia.
  - rewrite byteZ_Zbyte. unfold u8. pose proof (total_byte l (Z.to_nat i) Hl) as Hb. unfold is_byte in Hb.
    by rewrite Z.mod_small by lia.
  - rewrite Hc. apply lookup_encoded; lia.
Qed.

Lemma pull_plus_shows w b l len n pre rest :
  ready w b -> content b = pre ++ ztake len (bytes_of l) ++ rest -> Forall is_byte l ->
  0 < n <= len -> len <= zlen l -> zlen pre + n <= EVBUFFER_CHAIN_MAX - EVBUFFER_CHAIN_SIZE ->
  exists r b' w', pull_plus b (zlen pre + n) (zlen pre) w = Done ((Some r, b'), w') /\
    effect w b w' b' (content b) /\ mm_fail w' = [] /\ shows b' r l n.
Proof.
  intros Hr Hc Hl Hn Hlen Hm. pose proof (zlen_nonneg pre). pose proof (zlen_nonneg rest).
  destruct (pullup_shows w b (zlen pre + n)) as (r & b' & w' & E & He & Hf & Hcont); auto.
  { rewrite Hc, !zlen_app, zlen_ztake. unfold bytes_of, zlen in *. rewrite length_fmap. lia. }
  exists (r.1, r.2 + zlen pre), b', w'. split_and!; auto.
  - unfold pull_plus. rewrite (bind_done _ _ _ _ _ E). by destruct r.
  - eapply shows_encoded; eauto; [apply He|by rewrite (ef_content _ _ _ _ _ He)|lia].
Qed.


Lemma gives_DECODE w b size number l len cnt pre rest :
  ready w b -> (0 < size <= 8)%nat -> encoded size number l len cnt -> content b = pre ++ ztake len (bytes_of l) ++ rest ->
  zlen pre <= INT_MAX -> 0 <= number < 2 ^ Z.of_nat (8 * size) ->
  gives w b (DECODE_INT_INTERNAL (Z.of_nat (8 * size)) (Z.of_nat (2 * size)) b (zlen pre)) (len, number) (content b).
Proof.
  intros Hr Hs [Hb Hl Hcnt Hhd -> Hv] Hc Hp Hn. set (len := Z.of_nat cnt / 2 + 1) in *.
  assert (Hlen : 0 < len <= zlen l) by (unfold zlen; rewrite Hl; subst len; lia).
  assert (len <= 9) by (subst len; lia).
  pose proof (ready_len w b Hr) as Hmem. pose proof (zlen_nonneg pre). pose proof (zlen_nonneg rest).
  assert (Htot : total_len b = zlen pre + len + zlen rest).
  { rewrite (total_content w b) by apply Hr. rewrite Hc, !zlen_app, zlen_ztake. unfold bytes_of, zlen in *.
    rewrite length_fmap. lia. }
  rewrite <- (total_content w b) in Hmem by apply Hr. unfold EV_SSIZE_MAX, INT_MAX in *.
  unfold DECODE_INT_INTERNAL, evbuffer_get_length. rewrite i64_small by lia.
  rewrite (proj2 (Z.leb_gt _ _)) by lia.
  destruct (pull_plus_shows w b l len 1 pre rest Hr Hc Hb) as (r & b1 & w1 & E & He & Hf & Hsh);
    [lia|lia|unfold EVBUFFER_CHAIN_MAX, EVBUFFER_CHAIN_SIZE, EV_SSIZE_MAX; lia|].
  unfold yields. rewrite (bind_done _ _ _ _ _ E). rewrite (Hsh 0) by lia. rewrite bind_lift.
  change (Z.shiftr _ 4) with (nib l 0). rewrite Hhd. replace (Z.of_nat cnt - 1 + 1) with (Z.of_nat cnt) by lia.
  fold len. rewrite (proj2 (Z.ltb_ge _ _)), (proj2 (Z.ltb_ge _ _)) by lia. cbn [orb].
  assert (Hr1 : ready w1 b1) by (eapply ready_after; eauto; apply ready_len with w; exact Hr).
  pose proof (ef_content _ _ _ _ _ He) as Hc1.
  destruct (pull_plus_shows w1 b1 l len len pre rest) as (r2 & b2 & w2 & E2 & He2 & Hf2 & Hsh2); auto;
    [by rewrite Hc1|lia|lia|unfold EVBUFFER_CHAIN_MAX, EVBUFFER_CHAIN_SIZE, EV_SSIZE_MAX; lia|].
  rewrite (bind_done _ _ _ _ _ E2).
  rewrite Nat2Z.id, (decode_nibbles_spec _ _ b2 r2 l len 0), Hv, bind_lift; auto; try (subst len; lia).
  exists b2, w2. split; [done|]. split; [|done].
  rewrite <- Hc1. by eapply effect_trans.
Qed.

Lemma encoded_zlen size number l len cnt :
  encoded size number l len cnt -> zlen (ztake len (bytes_of l)) = len /\ 1 <= len <= Z.of_nat size + 1.
Proof.
  intros [_ Hl Hcnt _ -> _]. rewrite zlen_ztake. unfold bytes_of, zlen. rewrite length_fmap, Hl. split; lia.
Qed.

Lemma encode_int_zlen number : 0 <= number < 2 ^ 32 -> 1 <= zlen (encode_int_internal number) <= 5.
Proof.
  intros Hn. unfold encode_int_internal. rewrite u32_small by done.
  destruct (ENCODE_INT_spec 4 number) as (l & len & cnt & -> & He); [lia|done|].
  destruct (encoded_zlen _ _ _ _ _ He). lia.
Qed.
Lemma encode_int64_zlen number : 0 <= number < 2 ^ 64 -> 1 <= zlen (encode_int64_internal number) <= 9.
Proof.
  intros Hn. unfold encode_int64_internal. rewrite u64_small by done.
  destruct (ENCODE_INT_spec 8 number) as (l & len & cnt & -> & He); [lia|done|].
  destruct (encoded_zlen _ _ _ _ _ He). lia.
Qed.

Lemma gives_decode_int w b number pre rest :
  ready w b -> 0 <= number < 2 ^ 32 -> content b = pre ++ encode_int_internal number ++ rest ->
  zlen pre <= INT_MAX ->
  gives w b (decode_int_internal b (zlen pre)) (zlen (encode_int_internal number), number) (content b).
Proof.
  intros Hr Hn Hc Hp. unfold encode_int_internal in *. rewrite u32_small in * by done.
  destruct (ENCODE_INT_spec 4 number) as (l & len & cnt & E & He); [lia|done|]. rewrite E in *.
  destruct (encoded_zlen _ _ _ _ _ He) as [-> _].
  apply (gives_DECODE w b 4 number l len cnt pre rest); auto; lia.
Qed.

Lemma gives_decode_int64 w b number pre rest :
  ready w b -> 0 <= number < 2 ^ 64 -> content b = pre ++ encode_int64_internal number ++ rest ->
  zlen pre <= INT_MAX ->
  gives w b (decode_int64_internal b (zlen pre)) (zlen (encode_int64_internal number), number) (content b).
Proof.
  intros Hr Hn Hc Hp. unfold encode_int64_internal in *. rewrite u64_small in * by done.
  destruct (ENCODE_INT_spec 8 number) as (l & len & cnt & E & He); [lia|done|]. rewrite E in *.
  destruct (encoded_zlen _ _ _ _ _ He) as [-> _].
  apply (gives_DECODE w b 8 number l len cnt pre rest); auto; lia.
Qed.

Lemma gives_evtag_decode_int w b number rest :
  ready w b -> 0 <= number < 2 ^ 32 -> content b = encode_int_internal number ++ rest ->
  gives w b (evtag_decode_int b) (0, number) rest.
Proof.
  intros Hr Hn Hc. pose proof (encode_int_zlen number Hn) as Hz. unfold evtag_decode_int.
  eapply yields_bind; [done|by apply ready_len with w|by apply (gives_decode_int w b number [] rest)|].
  intros w1 b1 Hr1 Hc1. simpl. rewrite (proj2 (Z.eqb_neq _ _)) by lia.
  eapply yields_bind; [done| |apply gives_drain; [done|lia]|].
  - by apply zdrop_fits with w1.
  - intros w2 b2 Hr2 Hc2. simpl. apply yields_ret; [done|].
    by rewrite Hc2, Hc1, Hc, zdrop_app_ge, Z.sub_diag by lia.
Qed.

(** ** Tags are decoded as they were encoded *)

Lemma encode_tag_loop_len fuel tag : 0 <= zlen (encode_tag_loop fuel tag) <= Z.of_nat fuel.
Proof.
  revert tag. induction fuel as [|f IH]; intros tag; simpl; [unfold zlen; simpl; lia|].
  case_test; rewrite zlen_cons; [unfold zlen; simpl; lia|]. pose proof (IH (Z.shiftr tag 7)). lia.
Qed.

(** One turn of the loop: the limit is not reached, and the seven bits are added. *)
Lemma tag_step k x t number :
  0 <= k < 5 -> 0 <= x < 128 -> 0 <= t -> x + 128 * t < 2 ^ (32 - 7 * k) -> 0 <= number < 2 ^ (7 * k) ->
  (28 <=? 7 * k) && ((28 <? 7 * k) || (15 <? x)) = false /\
  Z.lor number (u32 (Z.shiftl x (7 * k))) = number + x * 2 ^ (7 * k) /\
  0 <= number + x * 2 ^ (7 * k) < 2 ^ (7 * (k + 1)) /\
  (t <> 0 -> k < 4 /\ t < 2 ^ (32 - 7 * (k + 1))).
Proof.
  intros Hk Hx Ht Hfit Hn.
  assert (Hu : u32 (Z.shiftl x (7 * k)) = Z.shiftl x (7 * k)).
  { apply u32_small. rewrite Z.shiftl_mul_pow2 by lia.
    assert (Hc : k = 0 \/ k = 1 \/ k = 2 \/ k = 3 \/ k = 4) by lia. destruct Hc as [->|[->|[->|[->| ->]]]]; simpl in *; lia. }
  rewrite Hu, lor_shiftl_add by lia.
  assert (Hc : k = 0 \/ k = 1 \/ k = 2 \/ k = 3 \/ k = 4) by lia. destruct Hc as [->|[->|[->|[->| ->]]]];
    (split; [|split; [done|]]); simpl in *; lia.
Qed.

Lemma decode_tag_loop_spec fuel g b r len k tag number :
  0 <= k -> k + Z.of_nat fuel = 5 -> (fuel < g)%nat -> 0 <= tag < 2 ^ (32 - 7 * k) -> 0 <= number < 2 ^ (7 * k) ->
  k + zlen (encode_tag_loop fuel tag) <= len ->
  (forall i x, encode_tag_loop fuel tag !! i = Some x -> read_at b r (k + Z.of_nat i) = Done x) ->
  (0 < fuel)%nat ->
  decode_tag_loop g b r len k (7 * k) number =
    Done (Some (k + zlen (encode_tag_loop fuel tag), number + tag * 2 ^ (7 * k))).
Proof.
  revert g k tag number. induction fuel as [|fuel IH]; intros g k tag number Hk Hf Hg Ht Hn Hlen Hrd Hpos; [lia|].
  destruct g as [|g]; [lia|]. cbn [decode_tag_loop encode_tag_loop] in *.
  rewrite land_127, (Z.shiftr_div_pow2 tag 7) in * by lia. change (2 ^ 7) with 128 in *.
  set (x := tag mod 128) in *. set (t := tag / 128) in *.
  assert (Htx : tag = x + 128 * t) by (subst x t; lia). assert (Hx : 0 <= x < 128) by (subst x; lia).
  destruct (tag_byte x Hx) as (Hb1 & Hb2 & Hb3 & Hb4 & Hb5).
  destruct (tag_step k x t number) as (Hlim & Hor & Hnum & Hmore); [lia|done|lia|lia|done|].
  clearbody x t. rewrite Hb1 in *. pose proof (encode_tag_loop_len fuel t) as Hel.
  destruct (Z.eqb_spec t 0) as [E0|E0]; pose proof (Hrd O _ eq_refl) as H0; rewrite Z.add_0_r in H0; rewrite zlen_cons in *.
  - rewrite zlen_nil in *. rewrite (proj2 (Z.ltb_lt k len)), H0 by lia. cbn [mbind outcome_bind].
    rewrite Hb3, Hlim, Hor, Hb5. simpl. do 3 f_equal. lia.
  - rewrite (proj2 (Z.ltb_lt k len)), H0 by lia. cbn [mbind outcome_bind].
    rewrite Hb2, Hlim, Hor, Hb4. cbn [negb]. replace (7 * k + 7) with (7 * (k + 1)) by lia.
    destruct (Hmore E0) as [Hk4 Ht4]. rewrite (IH g (k + 1) t); try lia.
    + do 3 f_equal; [lia|]. rewrite Z.mul_add_distr_l, Z.pow_add_r by lia. change (2 ^ (7 * 1)) with 128. lia.
    + intros i y Hi. rewrite <- (Hrd (S i) y Hi). f_equal. lia.
Qed.

Lemma encode_tag_loop_bytes fuel tag : Forall is_byte (encode_tag_loop fuel tag).
Proof.
  revert tag. induction fuel as [|f IH]; intros tag; simpl; [by constructor|].
  rewrite land_127. assert (Hx : 0 <= tag mod 128 < 128) by lia. destruct (tag_byte _ Hx) as [Hb _].
  case_test; (constructor; [|auto; by constructor]); unfold is_byte; lia.
Qed.

Lemma encode_tag_zlen tag : 1 <= zlen (encode_tag_data tag) <= 5.
Proof.
  unfold encode_tag_data, bytes_of. unfold zlen. rewrite length_fmap. fold (zlen (encode_tag_loop 5 (u32 tag))).
  pose proof (encode_tag_loop_len 5 (u32 tag)). split; [|lia].
  cbn [encode_tag_loop]. case_test; rewrite zlen_cons; [unfold zlen; simpl; lia|].
  pose proof (encode_tag_loop_len 4 (Z.shiftr (u32 tag) 7)) as H4. cbn [encode_tag_loop] in H4. lia.
Qed.

Lemma tag_reads w b n r tag rest i x :
  wf w b -> contiguous b n r -> content b = bytes_of (encode_tag_loop 5 tag) ++ rest ->
  encode_tag_loop 5 tag !! i = Some x -> Z.of_nat i < n -> read_at b r (Z.of_nat i) = Done x.
Proof.
  intros Hw Hcont Hc Hi Hn. pose proof (encode_tag_loop_bytes 5 tag) as Hb.
  eapply Forall_lookup_1 in Hb; [|exact Hi].
  pose proof (read_at_spec w b n r 0 (Z.of_nat i) (Zbyte x) Hw Hcont) as H. rewrite Z.add_0_r in H.
  rewrite <- surjective_pairing, byteZ_Zbyte in H. unfold u8 in H. rewrite Z.mod_small in H by exact Hb.
  apply H; [lia..|]. rewrite Hc, Z.add_0_l, Nat2Z.id. apply lookup_app_l_Some. unfold bytes_of. by rewrite list_lookup_fmap, Hi.
Qed.

Lemma gives_decode_tag w b tag rest dodrain :
  ready w b -> 0 <= tag < 2 ^ 32 -> content b = encode_tag_data tag ++ rest ->
  gives w b (decode_tag_internal b dodrain) (zlen (encode_tag_data tag), tag) (if dodrain then rest else content b).
Proof.
  intros Hr Ht Hc. pose proof (encode_tag_zlen tag) as Hz. pose proof (zlen_nonneg rest) as Hz2.
  pose proof (encode_tag_loop_len 5 tag) as Hl5. unfold encode_tag_data in *. rewrite u32_small in * by done.
  assert (Hzl : zlen (bytes_of (encode_tag_loop 5 tag)) = zlen (encode_tag_loop 5 tag))
    by (unfold bytes_of, zlen; by rewrite length_fmap).
  unfold decode_tag_internal, evbuffer_get_length. rewrite (total_content w b) by apply Hr.
  assert (Hlen : zlen (content b) = zlen (encode_tag_loop 5 tag) + zlen rest) by (rewrite Hc, zlen_app; lia).
  set (n := if zlen (content b) <? 5 then zlen (content b) else 5).
  assert (Hn : zlen (encode_tag_loop 5 tag) <= n <= 5 /\ n <= zlen (content b)) by (subst n; case_test; zb; lia).
  destruct (pullup_shows w b n) as (r & b1 & w1 & E & He & Hf & Hcont);
    [done|lia|unfold EVBUFFER_CHAIN_MAX, EVBUFFER_CHAIN_SIZE, EV_SSIZE_MAX; lia|].
  pose proof (ready_after _ _ _ _ _ Hr He Hf (ready_len _ _ Hr)) as Hr1. pose proof (ef_content _ _ _ _ _ He) as Hc1.
  assert (Hd : decode_tag_loop 7 b1 r (zlen (content b)) 0 0 0 = Done (Some (zlen (encode_tag_loop 5 tag), tag))).
  { pose proof (decode_tag_loop_spec 5 7 b1 r (zlen (content b)) 0 tag 0) as H.
    rewrite Z.mul_0_r, Z.sub_0_r, Z.pow_0_r, Z.mul_1_r, !Z.add_0_l in H.
    apply H; try lia. intros i x Hi. rewrite Z.add_0_l.
    apply (tag_reads w1 b1 n r tag rest i x); [apply (rd_wf _ _ Hr1)|exact Hcont|by rewrite Hc1|exact Hi|].
    apply lookup_lt_Some in Hi. unfold zlen in *. lia. }
  unfold yields. rewrite (bind_done _ _ _ _ _ E), Hd, bind_lift, Hzl.
  rewrite (proj2 (Z.ltb_ge INT_MAX _)) by (unfold INT_MAX; lia).
  destruct dodrain; [|exists b1, w1; rewrite bind_ret; by split_and!].
  destruct (gives_drain w1 b1 (zlen (encode_tag_loop 5 tag)) Hr1) as (b2 & w2 & E2 & He2 & Hf2); [lia|].
  exists b2, w2. rewrite (bind_done _ _ w1 b2 w2) by (by rewrite (bind_done _ _ _ _ _ E2)). split; [done|]. split; [|done].
  rewrite Hc1, Hc, <- Hzl, zdrop_app_ge, Z.sub_diag, zdrop_nonpos in He2 by lia. by eapply effect_trans.
Qed.

(** ** Tagged values *)

(** The encoding of one tagged value. *)
Definition record_bytes (tag : Z) (data : list byte) : list byte :=
  encode_tag_data tag ++ encode_int_internal (zlen data) ++ data.

Lemma record_fits tag data : zlen data < 2 ^ 31 -> zlen (record_bytes tag data) <= EV_SSIZE_MAX.
Proof.
  intros Hd. pose proof (zlen_nonneg data). pose proof (encode_tag_zlen tag).
  pose proof (encode_int_zlen (zlen data) ltac:(lia)). unfold record_bytes. rewrite !zlen_app. unfold EV_SSIZE_MAX. lia.
Qed.

Lemma yields_encode_tag w b tag :
  ready w b -> zlen (content b) + 5 <= EV_SSIZE_MAX ->
  gives w b (evtag_encode_tag b tag) (zlen (encode_tag_data tag)) (content b ++ encode_tag_data tag).
Proof.
  intros Hr Hfit. pose proof (encode_tag_zlen tag) as Ht. unfold evtag_encode_tag.
  eapply yields_bind; [done| |apply gives_add; [done| |]|].
  - rewrite zlen_app. lia.
  - lia.
  - unfold small, EVBUFFER_CHAIN_MAX, EVBUFFER_CHAIN_SIZE, EV_SSIZE_MAX. lia.
  - intros w1 b1 Hr1 Hc1. by apply (yields_ret w1 b1 (pair _)).
Qed.

Lemma yields_encode_int w b number :
  ready w b -> 0 <= number < 2 ^ 32 -> zlen (content b) + 5 <= EV_SSIZE_MAX ->
  yields w b (evtag_encode_int b number) id (content b ++ encode_int_internal number).
Proof.
  intros Hr Hn Hfit. pose proof (encode_int_zlen number Hn) as Ht. unfold evtag_encode_int.
  eapply yields_bind; [done| |apply gives_add; [done| |]|].
  - rewrite zlen_app. lia.
  - lia.
  - unfold small, EVBUFFER_CHAIN_MAX, EVBUFFER_CHAIN_SIZE, EV_SSIZE_MAX. lia.
  - intros w1 b1 Hr1 Hc1. by apply (yields_ret w1 b1 id).
Qed.

(** The header and the payload of every marshalling function. *)
Lemma yields_record w b tag data :
  ready w b -> zlen data < 2 ^ 31 -> zlen (content b) + zlen data + 10 <= EV_SSIZE_MAX ->
  yields w b ('(_, b) ← evtag_encode_tag b tag; b ← evtag_encode_int b (zlen data);
              '(_, b) ← evbuffer_add b data; ret b) id (content b ++ record_bytes tag data).
Proof.
  intros Hr Hd Hfit. pose proof (zlen_nonneg data) as Hd0. pose proof (encode_tag_zlen tag) as Ht.
  pose proof (encode_int_zlen (zlen data) ltac:(lia)) as Hi. unfold record_bytes.
  eapply yields_bind; [done| |apply yields_encode_tag; [done|lia]|]; [rewrite zlen_app; lia|].
  intros w1 b1 Hr1 Hc1. cbv beta iota. assert (zlen (content b1) <= zlen (content b) + 5) by (rewrite Hc1, zlen_app; lia).
  eapply yields_bind; [done| |apply yields_encode_int; [done|lia|lia]|]; [rewrite zlen_app; lia|].
  intros w2 b2 Hr2 Hc2. assert (zlen (content b2) <= zlen (content b) + 10) by (rewrite Hc2, zlen_app; lia).
  eapply yields_bind; [done| |apply gives_add; [done|unfold id; lia|]|].
  - rewrite zlen_app. unfold id. lia.
  - unfold small, EVBUFFER_CHAIN_MAX, EVBUFFER_CHAIN_SIZE, EV_SSIZE_MAX. lia.
  - intros w3 b3 Hr3 Hc3. apply (yields_ret w3 b3 id); [done|]. unfold id in *. by rewrite Hc3, Hc2, Hc1, <- !app_assoc.
Qed.

(** The header of a value whose payload is complete. *)
Lemma gives_header w b tag data rest :
  ready w b -> 0 <= tag < 2 ^ 32 -> zlen data < 2 ^ 31 -> content b = record_bytes tag data ++ rest ->
  gives w b (evtag_unmarshal_header b) (zlen data, tag) (data ++ rest).
Proof.
  intros Hr Ht Hd Hc. pose proof (zlen_nonneg data) as Hd0. pose proof (ready_len w b Hr) as Hl.
  pose proof (encode_tag_zlen tag) as Hz. pose proof (encode_int_zlen (zlen data) ltac:(lia)) as Hi.
  unfold record_bytes in Hc. rewrite <- !app_assoc in Hc. unfold evtag_unmarshal_header.
  eapply yields_bind; [done| |by apply (gives_decode_tag w b tag _ true)|].
  { cbv iota. rewrite Hc, !zlen_app in Hl. rewrite !zlen_app. lia. }
  intros w1 b1 Hr1 Hc1. cbv beta iota in *. rewrite (proj2 (Z.eqb_neq _ _)) by lia.
  eapply yields_bind; [done| |apply gives_evtag_decode_int; [done| |exact Hc1]|]; [|lia|].
  { rewrite Hc, !zlen_app in Hl. rewrite zlen_app. lia. }
  intros w2 b2 Hr2 Hc2. cbv beta iota. unfold evbuffer_get_length. rewrite (total_content w2 b2) by apply Hr2.
  rewrite Hc2, zlen_app. pose proof (zlen_nonneg rest). rewrite (proj2 (Z.ltb_ge _ _)) by lia.
  rewrite i32_small by lia. by apply (yields_ret w2 b2 (pair _)).
Qed.

(** The bytes behind a pulled-up pointer. *)
Lemma pulled_bytes_spec w b n r :
  wf w b -> contiguous b n r -> 0 <= n -> pulled_bytes b (Some r) n = Done (ztake n (content b)).
Proof.
  intros Hw (c & tl & Hc & -> & Hn) H0. pose proof (wf_chains w b Hw) as Hok.
  unfold pulled_bytes, content. rewrite Hc in Hok |- *. inversion Hok as [|? ? Hcok _]; subst.
  unfold find_chain. rewrite filter_cons_True by done. cbn [head deref mbind outcome_bind].
  pose proof (chain_bytes_len c Hcok) as Hlen. destruct Hcok. rewrite memread_done by lia.
  cbn [fmap list_fmap concat]. rewrite ztake_app_le by lia. unfold chain_bytes, zsub, ztake.
  by rewrite take_take, Nat.min_l by lia.
Qed.

Lemma ready_later w w' b : ready w b -> mm_next w <= mm_next w' -> mm_fail w' = [] -> ready w' b.
Proof.
  intros Hr Hn Hf. eapply ready_after; [exact Hr| |done|by apply ready_len with w].
  apply effect_later; [apply Hr|done].
Qed.

Lemma pullup_bytes w b data rest :
  ready w b -> content b = data ++ rest -> zlen data < 2 ^ 31 ->
  exists p b' w', evbuffer_pullup b (zlen data) w = Done ((p, b'), w') /\ ready w' b' /\
    content b' = data ++ rest /\ mm_next w <= mm_next w' /\ pulled_bytes b' p (zlen data) = Done data.
Proof.
  intros Hr Hc Hd. pose proof (zlen_nonneg data) as Hd0. destruct (decide (zlen data = 0)) as [Hz|Hz].
  - apply zlen_0_nil in Hz. subst data. exists None, b, w. split_and!; auto; lia.
  - destruct (pullup_shows w b (zlen data)) as (r & b2 & w2 & E2 & He2 & Hf2 & Hcont); auto.
    { rewrite Hc, zlen_app. pose proof (zlen_nonneg rest). lia. }
    { unfold EVBUFFER_CHAIN_MAX, EVBUFFER_CHAIN_SIZE, EV_SSIZE_MAX. lia. }
    pose proof (ready_after _ _ _ _ _ Hr He2 Hf2 (ready_len _ _ Hr)) as Hr2. rewrite Hc in He2.
    exists (Some r), b2, w2. split_and!; auto; try apply He2.
    rewrite (pulled_bytes_spec w2 b2 (zlen data) r), (ef_content _ _ _ _ _ He2), ztake_app_le, ztake_all; auto; try lia.
    apply He2.
Qed.

Lemma unmarshal_one w src dst tag data rest :
  ready w src -> ready w dst -> 0 <= tag < 2 ^ 32 -> zlen data < 2 ^ 31 ->
  content src = record_bytes tag data ++ rest -> zlen (content dst) + zlen data <= EV_SSIZE_MAX ->
  exists src' dst' w', evtag_unmarshal src dst w = Done ((zlen data, tag, src', dst'), w') /\
    ready w' src' /\ content src' = rest /\ ready w' dst' /\ content dst' = content dst ++ data.
Proof.
  intros Hr Hrd Ht Hd Hc Hfit. pose proof (zlen_nonneg data) as Hd0.
  destruct (gives_header w src tag data rest Hr Ht Hd Hc) as (b1 & w1 & E1 & He1 & Hf1).
  assert (Hl1 : zlen (data ++ rest) <= EV_SSIZE_MAX).
  { pose proof (ready_len w src Hr) as Hl. rewrite Hc in Hl. unfold record_bytes in Hl. rewrite !zlen_app in *.
    pose proof (zlen_nonneg (encode_tag_data tag)). pose proof (zlen_nonneg (encode_int_internal (zlen data))). lia. }
  pose proof (ready_after _ _ _ _ _ Hr He1 Hf1 Hl1) as Hr1. pose proof (ef_content _ _ _ _ _ He1) as Hc1.
  unfold evtag_unmarshal. rewrite (bind_done _ _ _ _ _ E1), (proj2 (Z.eqb_neq (zlen data) (-1))) by lia.
  rewrite u64_small by lia.
  destruct (pullup_bytes w1 b1 data rest Hr1 Hc1 Hd) as (p & b2 & w2 & E2 & Hr2 & Hc2 & Hn2 & Hpb).
  rewrite (bind_done _ _ _ _ _ E2), Hpb, bind_lift.
  assert (Hrd2 : ready w2 dst).
  { eapply ready_later; [exact Hrd| |apply Hr2]. pose proof (ef_next _ _ _ _ _ He1). lia. }
  destruct (gives_add w2 dst data Hrd2) as (d3 & w3 & E3 & He3 & Hf3); [done| |].
  { unfold small, EVBUFFER_CHAIN_MAX, EVBUFFER_CHAIN_SIZE, EV_SSIZE_MAX. lia. }
  rewrite (bind_done _ _ _ _ _ E3). simpl (0 =? -1). cbv iota.
  assert (Hr3 : ready w3 b2) by (eapply ready_later; [exact Hr2|apply He3|done]).
  destruct (gives_drain w3 b2 (zlen data) Hr3 Hd0) as (b4 & w4 & E4 & He4 & Hf4). rewrite (bind_done _ _ _ _ _ E4).
  exists b4, d3, w4. split; [done|]. rewrite Hc2, zdrop_app_ge, Z.sub_diag, zdrop_nonpos in He4 by lia. split_and!.
  - eapply ready_after; [exact Hr3|exact He4|done|]. rewrite zlen_app in Hl1. lia.
  - apply He4.
  - assert (Hrd3 : ready w3 d3) by (eapply ready_after; [exact Hrd2|exact He3|done|rewrite zlen_app; lia]).
    eapply ready_later; [exact Hrd3|apply He4|done].
  - apply He3.
Qed.

(** A payload written by [encode] and read by [decode]. *)
Lemma gives_unmarshal_int decode w b tag number data rest :
  ready w b -> 0 <= tag < 2 ^ 32 -> 0 <= zlen data <= 9 -> content b = record_bytes tag data ++ rest ->
  (forall w b, ready w b -> content b = data ++ rest -> gives w b (decode b 0) (zlen data, number) (data ++ rest)) ->
  gives w b (unmarshal_int_with decode b tag) (zlen data, number) rest.
Proof.
  intros Hr Ht Hd Hc Hdec. pose proof (ready_len w b Hr) as Hl.
  pose proof (encode_tag_zlen tag) as Hz. pose proof (encode_int_zlen (zlen data) ltac:(lia)) as Hi.
  unfold record_bytes in Hc. rewrite <- !app_assoc in Hc. rewrite Hc, !zlen_app in Hl. unfold unmarshal_int_with.
  eapply yields_bind; [done| |by apply (gives_decode_tag w b tag _ true)|]; [cbv iota; rewrite !zlen_app; lia|].
  intros w1 b1 Hr1 Hc1. cbv beta iota in *. rewrite (proj2 (Z.eqb_neq _ _)), Z.eqb_refl by lia. cbn [negb].
  eapply yields_bind; [done| |apply gives_evtag_decode_int; [done| |exact Hc1]|]; [rewrite zlen_app; lia|lia|].
  intros w2 b2 Hr2 Hc2. cbv beta iota. unfold evbuffer_get_length. rewrite (total_content w2 b2) by apply Hr2.
  rewrite Hc2, zlen_app. pose proof (zlen_nonneg rest). rewrite (proj2 (Z.ltb_ge _ _)) by lia. simpl (0 =? -1). cbv iota.
  eapply yields_bind; [done| |by apply Hdec|]; [rewrite zlen_app; lia|].
  intros w3 b3 Hr3 Hc3. cbv beta iota.
  eapply yields_bind; [done| |apply gives_drain; [done|lia]|]; [by apply zdrop_fits with w3|].
  intros w4 b4 Hr4 Hc4. cbv beta iota. rewrite (proj2 (Z.ltb_ge (zlen data) 0)), (proj2 (Z.ltb_ge _ _)) by lia.
  apply (yields_ret w4 b4 (pair _)); [done|]. by rewrite Hc4, Hc3, zdrop_app_ge, Z.sub_diag, zdrop_nonpos by lia.
Qed.

(** C20: an integer of 32 or of 64 bits marshalled with any tag into an empty buffer is read back unchanged, and
    nothing is left; the value returned is the length of its encoding. *)
Theorem evtag_int_roundtrip w b tag n :
  ready w b -> content b = [] -> 0 <= tag < 2 ^ 32 ->
  (0 <= n < 2 ^ 32 -> exists b1 w1 b2 w2,
     evtag_marshal_int b tag n w = Done (b1, w1) /\
     evtag_unmarshal_int b1 tag w1 = Done ((zlen (encode_int_internal n), n, b2), w2) /\ content b2 = []) /\
  (0 <= n < 2 ^ 64 -> exists b1 w1 b2 w2,
     evtag_marshal_int64 b tag n w = Done (b1, w1) /\
     evtag_unmarshal_int64 b1 tag w1 = Done ((zlen (encode_int64_internal n), n, b2), w2) /\ content b2 = []).
Proof.
  intros Hr Hc Ht. split; intros Hn.
  - pose proof (encode_int_zlen n Hn) as Hz.
    destruct (yields_record w b tag (encode_int_internal n) Hr) as (b1 & w1 & E1 & He1 & Hf1);
      [lia|rewrite Hc, zlen_nil; unfold EV_SSIZE_MAX; lia|]. rewrite Hc in He1. cbn [app] in He1.
    pose proof (record_fits tag (encode_int_internal n) ltac:(lia)) as Hfit.
    pose proof (ready_after _ _ _ _ _ Hr He1 Hf1 Hfit) as Hr1.
    destruct (gives_unmarshal_int decode_int_internal w1 b1 tag n (encode_int_internal n) []) as (b2 & w2 & E2 & He2 & _);
      auto; [lia|by rewrite app_nil_r, (ef_content _ _ _ _ _ He1)| |].
    { intros w' b' Hr' Hc'. rewrite <- Hc'. by apply (gives_decode_int w' b' n [] []). }
    exists b1, w1, b2, w2. split_and!; [exact E1|exact E2|apply He2].
  - pose proof (encode_int64_zlen n Hn) as Hz.
    destruct (yields_record w b tag (encode_int64_internal n) Hr) as (b1 & w1 & E1 & He1 & Hf1);
      [lia|rewrite Hc, zlen_nil; unfold EV_SSIZE_MAX; lia|]. rewrite Hc in He1. cbn [app] in He1.
    pose proof (record_fits tag (encode_int64_internal n) ltac:(lia)) as Hfit.
    pose proof (ready_after _ _ _ _ _ Hr He1 Hf1 Hfit) as Hr1.
    destruct (gives_unmarshal_int decode_int64_internal w1 b1 tag n (encode_int64_internal n) []) as (b2 & w2 & E2 & He2 & _);
      auto; [lia|by rewrite app_nil_r, (ef_content _ _ _ _ _ He1)| |].
    { intros w' b' Hr' Hc'. rewrite <- Hc'. by apply (gives_decode_int64 w' b' n [] []). }
    exists b1, w1, b2, w2. split_and!; [exact E1|exact E2|apply He2].
Qed.

Lemma sample_empty_ready : ready sample_mm (ZERO_CHAIN sample_buf).
Proof.
  split; [|done..]. split; simpl; try done; try by constructor. exists [], []. split_and!; auto. constructor.
Qed.

Lemma evtag_int_roundtrip_witness :
  exists b1 w1 b2 w2, evtag_marshal_int (ZERO_CHAIN sample_buf) 0x166 0xdeadbeef sample_mm = Done (b1, w1) /\
    evtag_unmarshal_int b1 0x166 w1 = Done ((5, 0xdeadbeef, b2), w2) /\ content b2 = [].
Proof.
  destruct (evtag_int_roundtrip sample_mm (ZERO_CHAIN sample_buf) 0x166 0xdeadbeef sample_empty_ready eq_refl) as [H _];
    [lia|]. apply H. lia.
Defined.

(** ** Sequences of tagged values *)

Fixpoint marshal_all (b : evbuffer) (rs : list (Z * list byte)) : M evbuffer :=
  match rs with
  | [] => ret b
  | (tag, data) :: rs => b ← evtag_marshal b tag data; marshal_all b rs
  end.

(** [n] calls of [evtag_unmarshal]: their returns and tags. *)
Fixpoint unmarshal_all (n : nat) (src dst : evbuffer) : M (list (Z * Z) * evbuffer * evbuffer) :=
  match n with
  | O => ret ([], src, dst)
  | S n =>
      '(len, tag, src, dst) ← evtag_unmarshal src dst;
      '(rs, src, dst) ← unmarshal_all n src dst;
      ret ((len, tag) :: rs, src, dst)
  end.

Definition records_bytes (rs : list (Z * list byte)) : list byte := concat ((fun r => record_bytes r.1 r.2) <$> rs).
Definition record_ok (r : Z * list byte) : Prop := 0 <= r.1 < 2 ^ 32 /\ zlen r.2 < 2 ^ 31.

Lemma record_zlen tag data : zlen data < 2 ^ 31 -> zlen data + 2 <= zlen (record_bytes tag data) <= zlen data + 10.
Proof.
  intros Hd. pose proof (zlen_nonneg data). pose proof (encode_tag_zlen tag).
  pose proof (encode_int_zlen (zlen data) ltac:(lia)). unfold record_bytes. rewrite !zlen_app. lia.
Qed.

Lemma marshal_all_spec rs w b :
  ready w b -> Forall record_ok rs -> zlen (content b) + zlen (records_bytes rs) + 10 <= EV_SSIZE_MAX ->
  yields w b (marshal_all b rs) id (content b ++ records_bytes rs).
Proof.
  intros Hr H. revert w b Hr. induction H as [|[tag data] rs [Ht Hd] _ IH]; intros w b Hr Hfit.
  - apply (yields_ret w b id); [done|]. by rewrite app_nil_r.
  - unfold records_bytes in *. cbn [fmap list_fmap concat fst snd marshal_all] in *. simpl in Ht, Hd.
    fold (records_bytes rs) in *. rewrite zlen_app in Hfit. pose proof (record_zlen tag data Hd) as Hz.
    pose proof (zlen_nonneg (records_bytes rs)). unfold evtag_marshal.
    eapply yields_bind; [done| |apply yields_record; [done|done|lia]|]; [rewrite zlen_app; lia|].
    intros w1 b1 Hr1 Hc1. unfold id in *. rewrite app_assoc, <- Hc1. apply IH; [done|]. rewrite Hc1, zlen_app. lia.
Qed.

Lemma unmarshal_all_spec rs w src dst :
  ready w src -> ready w dst -> Forall record_ok rs -> content src = records_bytes rs ->
  zlen (content dst) + zlen (records_bytes rs) <= EV_SSIZE_MAX ->
  exists src' dst' w', unmarshal_all (length rs) src dst w =
      Done (((fun r => (zlen r.2, r.1)) <$> rs, src', dst'), w') /\
    content src' = [] /\ content dst' = content dst ++ concat (snd <$> rs).
Proof.
  intros Hr Hd H. revert w src dst Hr Hd. induction H as [|[tag data] rs [Ht Hlen] _ IH]; intros w src dst Hr Hd Hc Hfit.
  - exists src, dst, w. split_and!; auto. by rewrite app_nil_r.
  - unfold records_bytes in *. cbn [fmap list_fmap concat fst snd unmarshal_all length] in *. simpl in Ht, Hlen.
    fold (records_bytes rs) in *. rewrite zlen_app in Hfit. pose proof (record_zlen tag data Hlen) as Hz.
    pose proof (zlen_nonneg (records_bytes rs)).
    destruct (unmarshal_one w src dst tag data (records_bytes rs)) as (s1 & d1 & w1 & E1 & Hr1 & Hc1 & Hd1 & Hcd1); auto; [lia|].
    destruct (IH w1 s1 d1) as (s2 & d2 & w2 & E2 & Hc2 & Hcd2); auto; [rewrite Hcd1, zlen_app; lia|].
    exists s2, d2, w2. rewrite (bind_done _ _ _ _ _ E1), (bind_done _ _ _ _ _ E2). split_and!; auto.
    by rewrite Hcd2, Hcd1, <- app_assoc.
Qed.

(** C19: when memory is there ([ready]), any sequence of tagged values, each with a payload below 2^31 bytes
    ([record_ok]; the reader returns the length as an [int]), marshalled into an empty buffer (within [EV_SSIZE_MAX] bytes in all) is unmarshalled in the same order with the
    same tags and lengths, the payloads arrive complete in the destination, and the source is empty afterwards. *)
Theorem evtag_records_roundtrip w src dst rs :
  ready w src -> ready w dst -> content src = [] -> Forall record_ok rs ->
  zlen (content dst) + zlen (records_bytes rs) + 10 <= EV_SSIZE_MAX ->
  exists s1 w1 s2 d2 w2,
    marshal_all src rs w = Done (s1, w1) /\
    unmarshal_all (length rs) s1 dst w1 = Done (((fun r => (zlen r.2, r.1)) <$> rs, s2, d2), w2) /\
    content s2 = [] /\ content d2 = content dst ++ concat (snd <$> rs).
Proof.
  intros Hr Hd Hc Hok Hfit. pose proof (zlen_nonneg (content dst)).
  destruct (marshal_all_spec rs w src Hr Hok) as (s1 & w1 & E1 & He1 & Hf1); [rewrite Hc, zlen_nil; lia|].
  rewrite Hc in He1. cbn [app] in He1.
  destruct (unmarshal_all_spec rs w1 s1 dst) as (s2 & d2 & w2 & E2 & Hc2 & Hcd2); auto; [|..].
  - eapply ready_after; [exact Hr|exact He1|done|lia].
  - eapply ready_later; [exact Hd|apply He1|done].
  - apply He1.
  - lia.
  - exists s1, w1, s2, d2, w2. by split_and!.
Qed.

Definition sample_records : list (Z * list byte) := [(3, [x61; x62]); (0x166, []); (2 ^ 32 - 1, [x00; xff; x00])].

Lemma evtag_records_roundtrip_witness :
  exists s1 w1 s2 d2 w2,
    marshal_all (ZERO_CHAIN sample_buf) sample_records sample_mm = Done (s1, w1) /\
    unmarshal_all 3 s1 (ZERO_CHAIN sample_buf) w1 = Done (([(2, 3); (0, 0x166); (3, 2 ^ 32 - 1)], s2, d2), w2) /\
    content s2 = [] /\ content d2 = [x61; x62; x00; xff; x00].
Proof.
  apply (evtag_records_roundtrip sample_mm (ZERO_CHAIN sample_buf) (ZERO_CHAIN sample_buf) sample_records).
  - exact sample_empty_ready.
  - exact sample_empty_ready.
  - reflexivity.
  - repeat constructor; vm_compute; done.
  - by vm_compute.
Defined.

(** ** A tag of five continuation bytes *)

Lemma tag_continues g b r len k k1 x number :
  0 <= k < 5 -> k1 = k + 1 -> k < len -> read_at b r k = Done x -> has x 0x80 = true -> (k = 4 -> Z.land x 0x7f <= 15) ->
  exists number', decode_tag_loop (S g) b r len k (7 * k) number = decode_tag_loop g b r len k1 (7 * k1) number'.
Proof.
  intros Hk -> Hlen Hr Hx Hlim. eexists. cbn [decode_tag_loop]. rewrite (proj2 (Z.ltb_lt k len)), Hr by done.
  cbn [mbind outcome_bind]. replace ((28 <=? 7 * k) && _) with false; [|symmetry].
  - rewrite Hx. cbn [negb]. by replace (7 * k + 7) with (7 * (k + 1)) by lia.
  - destruct (Z.leb_spec 28 (7 * k)); [|done]. simpl. rewrite (proj2 (Z.ltb_ge 28 _)), (proj2 (Z.ltb_ge _ _)) by lia. done.
Qed.

(** The chain's memory seen through the pointer to its first byte. *)
Lemma read_first w b c tl i x :
  wf w b -> chains b = c :: tl -> chain_bytes c !! i = Some x ->
  read_at b (c_addr c, misalign c) (Z.of_nat i) = Done (byteZ x).
Proof.
  intros Hw Hc Hi. pose proof (wf_chains w b Hw) as Hok. rewrite Hc in Hok. inversion Hok as [|? ? Hcok _]; subst.
  pose proof (chain_bytes_len c Hcok) as Hoff. pose proof (lookup_lt_Some _ _ _ Hi) as Hlt. unfold zlen in Hoff.
  pose proof (read_at_spec w b (off c) (c_addr c, misalign c) 0 (Z.of_nat i) x Hw) as H. cbn [fst snd] in H.
  rewrite Z.add_0_r, Z.add_0_l in H.
  apply H; try lia; [by exists c, tl|]. unfold content. rewrite Hc, Nat2Z.id. by apply lookup_app_l_Some.
Qed.

Lemma read_beyond c tl b i :
  chains b = c :: tl -> chain_ok c -> buffer_len c <= misalign c + i -> read_at b (c_addr c, misalign c) i = Crash.
Proof.
  intros Hc Hok Hi. unfold read_at, find_chain. simpl. rewrite Hc, filter_cons_True by done.
  cbn [head deref mbind outcome_bind]. unfold memread.
  by rewrite (ck_mem _ Hok), (proj2 (Z.leb_gt (misalign c + i + 1) _)), andb_false_r by lia.
Qed.

(** [decode_tag_internal] makes five bytes contiguous but its loop is bounded by the length of the whole
    buffer: when the five bytes all announce a continuation (the fifth with no more than four bits of number)
    and they end the first chain's memory, the sixth turn reads beyond that memory before it rejects the shift. *)
Theorem decode_tag_overread w b c tl x0 x1 x2 x3 x4 dodrain :
  wf w b -> chains b = c :: tl -> chain_bytes c = [x0; x1; x2; x3; x4] ->
  Forall (fun x => has (byteZ x) 0x80 = true) [x0; x1; x2; x3; x4] -> Z.land (byteZ x4) 0x7f <= 15 ->
  misalign c + 5 = buffer_len c -> 5 < total_len b ->
  decode_tag_internal b dodrain w = Crash.
Proof.
  intros Hw Hc Hb Hhi Hlim Hend Htot. pose proof (wf_chains w b Hw) as Hok. rewrite Hc in Hok.
  inversion Hok as [|? ? Hcok _]; subst. pose proof (chain_bytes_len c Hcok) as Hoff. rewrite Hb in Hoff.
  unfold zlen in Hoff. simpl in Hoff.
  assert (Hrd : forall i x, [x0; x1; x2; x3; x4] !! i = Some x -> read_at b (c_addr c, misalign c) (Z.of_nat i) = Done (byteZ x))
    by (rewrite <- Hb; intros; by eapply read_first).
  assert (Hloop : decode_tag_loop 7 b (c_addr c, misalign c) (total_len b) 0 0 0 = Crash).
  { rewrite !Forall_cons in Hhi. destruct Hhi as (H0 & H1 & H2 & H3 & H4 & _). change 0 with (7 * 0) at 2.
    destruct (tag_continues 6 b (c_addr c, misalign c) (total_len b) 0 1 (byteZ x0) 0) as [n1 ->]; auto; try lia; [by apply (Hrd 0%nat)|].
    destruct (tag_continues 5 b (c_addr c, misalign c) (total_len b) 1 2 (byteZ x1) n1) as [n2 ->]; auto; try lia; [by apply (Hrd 1%nat)|].
    destruct (tag_continues 4 b (c_addr c, misalign c) (total_len b) 2 3 (byteZ x2) n2) as [n3 ->]; auto; try lia; [by apply (Hrd 2%nat)|].
    destruct (tag_continues 3 b (c_addr c, misalign c) (total_len b) 3 4 (byteZ x3) n3) as [n4 ->]; auto; try lia; [by apply (Hrd 3%nat)|].
    destruct (tag_continues 2 b (c_addr c, misalign c) (total_len b) 4 5 (byteZ x4) n4) as [n5 ->]; auto; try lia; [by apply (Hrd 4%nat)|].
    cbn [decode_tag_loop]. rewrite (proj2 (Z.ltb_lt _ _)), (read_beyond c tl b 5) by (auto; lia). done. }
  assert (Hp : evbuffer_pullup b 5 w = Done ((Some (c_addr c, misalign c), b), w)).
  { unfold evbuffer_pullup. cbn [Z.ltb Z.compare].
    rewrite (proj2 (Z.ltb_ge _ 5)) by lia. cbn [Z.eqb orb]. rewrite Hc. cbn [head deref]. mstep.
    by rewrite (proj2 (Z.leb_le 5 (off c))) by lia. }
  unfold decode_tag_internal, evbuffer_get_length. rewrite (proj2 (Z.ltb_ge _ 5)), (bind_done _ _ _ _ _ Hp) by lia.
  by rewrite Hloop.
Qed.

Definition sample_tag_chain : evbuffer_chain := mkChain 1 5 0 5 0 1 [x80; x80; x80; x80; x80] XNone.
Definition sample_tag_next : evbuffer_chain := mkChain 0 16 0 1 0 1 (x01 :: replicate 15 x00) XNone.
Definition sample_tag_buf : evbuffer :=
  mkBuf [sample_tag_chain; sample_tag_next] (Some 0) (Some 1) 6 0 0 false false false false 0 1 [].

Lemma sample_tag_wf : wf sample_mm sample_tag_buf.
Proof.
  constructor; simpl; try done.
  - repeat constructor; simpl; try done; vm_compute; congruence.
  - repeat constructor; set_solver.
  - by repeat constructor.
  - exists [sample_tag_chain], [sample_tag_next]. split_and!; auto. by constructor.
Qed.

Lemma decode_tag_overread_witness : decode_tag_internal sample_tag_buf true sample_mm = Crash.
Proof.
  apply (decode_tag_overread sample_mm sample_tag_buf sample_tag_chain [sample_tag_next] x80 x80 x80 x80 x80 true sample_tag_wf);
    try reflexivity; vm_compute; try congruence; repeat constructor.
Defined.
