(* ===== verification/RateLimit.v ===== *)
(** * Rate limiting of bufferevents

    Models [libevent/bufferevent_ratelim.c]: token buckets, the limits of a
    single bufferevent, groups of bufferevents with a common limit, and the
    suspend/unsuspend operations of [libevent/bufferevent.c] they call.  The
    read and the write side are written once, over a direction; the functions
    of the source are the two instances.  The time, the outcome of
    [event_add] and [mm_calloc], the member locks that another thread holds
    and the random starting point of a group walk are in the environment. *)

From S2P Require Import Prelude.

(** ** Token buckets *)

Inductive dir := Rd | Wr.

Record ev_token_bucket := mkBucket { read_limit : Z; write_limit : Z; last_updated : Z }.

Record ev_token_bucket_cfg := mkCfg {
  read_rate : Z; read_maximum : Z; write_rate : Z; write_maximum : Z;
  tick_timeout : Z * Z;                   (* seconds, microseconds *)
  msec_per_tick : Z
}.

Definition lim (d : dir) (b : ev_token_bucket) : Z :=
  match d with Rd => read_limit b | Wr => write_limit b end.
Definition set_lim (d : dir) (b : ev_token_bucket) (x : Z) : ev_token_bucket :=
  match d with
  | Rd => mkBucket x (write_limit b) (last_updated b)
  | Wr => mkBucket (read_limit b) x (last_updated b)
  end.
Definition set_tick (b : ev_token_bucket) (t : Z) : ev_token_bucket :=
  mkBucket (read_limit b) (write_limit b) t.
Definition rate (d : dir) (c : ev_token_bucket_cfg) : Z :=
  match d with Rd => read_rate c | Wr => write_rate c end.
Definition maximum (d : dir) (c : ev_token_bucket_cfg) : Z :=
  match d with Rd => read_maximum c | Wr => write_maximum c end.

Definition clip (d : dir) (c : ev_token_bucket_cfg) (b : ev_token_bucket) : ev_token_bucket :=
  if maximum d c <? lim d b then set_lim d b (maximum d c) else b.

Definition ev_token_bucket_init_ (b : ev_token_bucket) (c : ev_token_bucket_cfg) (current_tick : Z)
    (reinitialize : bool) : ev_token_bucket :=
  if reinitialize then clip Wr c (clip Rd c b)
  else mkBucket (read_rate c) (write_rate c) current_tick.

(** One direction of the update: [size_t] arithmetic, then the assignment to
    an [ev_ssize_t]. *)
Definition refill (d : dir) (c : ev_token_bucket_cfg) (n_ticks : Z) (b : ev_token_bucket) : ev_token_bucket :=
  if u64 (maximum d c - lim d b) / n_ticks <? rate d c then set_lim d b (i64 (maximum d c))
  else set_lim d b (i64 (lim d b + u64 (n_ticks * rate d c))).

Definition ev_token_bucket_update_ (b : ev_token_bucket) (c : ev_token_bucket_cfg) (current_tick : Z)
    : bool * ev_token_bucket :=
  let n_ticks := u32 (current_tick - last_updated b) in
  if (n_ticks =? 0) || (INT_MAX <? n_ticks) then (false, b)
  else (true, set_tick (refill Wr c n_ticks (refill Rd c n_ticks b)) current_tick).

(** Division by zero is undefined. *)
Definition ev_token_bucket_get_tick_ (tv : Z * Z) (c : ev_token_bucket_cfg) : outcome Z :=
  let msec := u64 (u64 (tv.1) * 1000 + u64 (Z.quot (tv.2) 1000)) in
  if msec_per_tick c =? 0 then Crash else Done (u32 (msec / msec_per_tick c)).

Definition COMMON_TIMEOUT_MICROSECONDS_MASK : Z := 0x000fffff.
Definition EV_RATE_LIMIT_MAX : Z := EV_SSIZE_MAX.

Definition ev_token_bucket_cfg_new (calloc_ok : bool) (r_rate r_burst w_rate w_burst : Z) (tick_len : option (Z * Z))
    : option ev_token_bucket_cfg :=
  let tick_len := default (1, 0) tick_len in
  if (r_burst <? r_rate) || (w_burst <? w_rate) || (r_rate <? 1) || (w_rate <? 1) then None else
  if (EV_RATE_LIMIT_MAX <? r_rate) || (EV_RATE_LIMIT_MAX <? w_rate) ||
     (EV_RATE_LIMIT_MAX <? r_burst) || (EV_RATE_LIMIT_MAX <? w_burst) then None else
  if negb calloc_ok then None else
  Some (mkCfg r_rate r_burst w_rate w_burst tick_len
          (u32 (tick_len.1 * 1000 + Z.land (tick_len.2) COMMON_TIMEOUT_MICROSECONDS_MASK / 1000))).

(** ** Bufferevents and groups *)

Definition BEV_SUSPEND_BW : Z := 0x02.
Definition BEV_SUSPEND_BW_GROUP : Z := 0x04.
Definition EV_READ : Z := 0x02.
Definition EV_WRITE : Z := 0x04.
Definition MAX_SINGLE_DEFAULT : Z := 16384.

(** [cfg] is a pointer with the object it points to (never modified). *)
Record bufferevent_rate_limit := mkRlim {
  cfg : option (Z * ev_token_bucket_cfg);
  limit : ev_token_bucket;
  group : option Z;
  refill_initialized : bool;
  refill_pending : bool
}.

Record bufferevent_private := mkBev {
  rate_limiting : option bufferevent_rate_limit;
  max_single_read : Z;
  max_single_write : Z;
  read_suspended : Z;
  write_suspended : Z;
  enabled : Z;
  be_calls : list (dir * bool)            (* calls of [be_ops]: true enables *)
}.

Record bufferevent_rate_limit_group := mkGroup {
  members : list Z;
  rate_limit : ev_token_bucket;
  rate_limit_cfg : ev_token_bucket_cfg;
  g_read_suspended : bool;
  g_write_suspended : bool;
  pending_unsuspend_read : bool;
  pending_unsuspend_write : bool;
  total_read : Z;
  total_written : Z;
  n_members : Z;
  min_share : Z;
  configured_min_share : Z;
  master_timeout : option (Z * Z)         (* [master_refill_event], when pending *)
}.

Record world := mkWorld {
  bevs : gmap Z bufferevent_private;
  groups : gmap Z bufferevent_rate_limit_group
}.

Record env := mkEnv {
  now : Z * Z;
  add_ok : bool;
  calloc_ok : bool;
  busy : Z -> bool;
  which : Z
}.

Definition ev_flag (d : dir) : Z := match d with Rd => EV_READ | Wr => EV_WRITE end.
Definition susp (d : dir) (b : bufferevent_private) : Z :=
  match d with Rd => read_suspended b | Wr => write_suspended b end.
Definition set_susp (d : dir) (b : bufferevent_private) (x : Z) : bufferevent_private :=
  match d with
  | Rd => mkBev (rate_limiting b) (max_single_read b) (max_single_write b) x (write_suspended b) (enabled b) (be_calls b)
  | Wr => mkBev (rate_limiting b) (max_single_read b) (max_single_write b) (read_suspended b) x (enabled b) (be_calls b)
  end.
Definition set_rlim (b : bufferevent_private) (r : bufferevent_rate_limit) : bufferevent_private :=
  mkBev (Some r) (max_single_read b) (max_single_write b) (read_suspended b) (write_suspended b) (enabled b) (be_calls b).
Definition be_call (b : bufferevent_private) (d : dir) (on : bool) : bufferevent_private :=
  mkBev (rate_limiting b) (max_single_read b) (max_single_write b) (read_suspended b) (write_suspended b) (enabled b)
        ((d, on) :: be_calls b).
Definition set_limit (r : bufferevent_rate_limit) (l : ev_token_bucket) : bufferevent_rate_limit :=
  mkRlim (cfg r) l (group r) (refill_initialized r) (refill_pending r).
Definition set_pending (r : bufferevent_rate_limit) (p : bool) : bufferevent_rate_limit :=
  mkRlim (cfg r) (limit r) (group r) (refill_initialized r) p.
Definition set_group (r : bufferevent_rate_limit) (g : option Z) : bufferevent_rate_limit :=
  mkRlim (cfg r) (limit r) g (refill_initialized r) (refill_pending r).

Definition g_suspended (d : dir) (g : bufferevent_rate_limit_group) : bool :=
  match d with Rd => g_read_suspended g | Wr => g_write_suspended g end.
Definition g_pending (d : dir) (g : bufferevent_rate_limit_group) : bool :=
  match d with Rd => pending_unsuspend_read g | Wr => pending_unsuspend_write g end.
Definition set_g_flags (d : dir) (g : bufferevent_rate_limit_group) (s p : bool) : bufferevent_rate_limit_group :=
  match d with
  | Rd => mkGroup (members g) (rate_limit g) (rate_limit_cfg g) s (g_write_suspended g) p (pending_unsuspend_write g)
            (total_read g) (total_written g) (n_members g) (min_share g) (configured_min_share g) (master_timeout g)
  | Wr => mkGroup (members g) (rate_limit g) (rate_limit_cfg g) (g_read_suspended g) s (pending_unsuspend_read g) p
            (total_read g) (total_written g) (n_members g) (min_share g) (configured_min_share g) (master_timeout g)
  end.
Definition set_g_limit (g : bufferevent_rate_limit_group) (l : ev_token_bucket) : bufferevent_rate_limit_group :=
  mkGroup (members g) l (rate_limit_cfg g) (g_read_suspended g) (g_write_suspended g)
    (pending_unsuspend_read g) (pending_unsuspend_write g) (total_read g) (total_written g) (n_members g)
    (min_share g) (configured_min_share g) (master_timeout g).
Definition set_members (g : bufferevent_rate_limit_group) (ms : list Z) (n : Z) : bufferevent_rate_limit_group :=
  mkGroup ms (rate_limit g) (rate_limit_cfg g) (g_read_suspended g) (g_write_suspended g)
    (pending_unsuspend_read g) (pending_unsuspend_write g) (total_read g) (total_written g) n
    (min_share g) (configured_min_share g) (master_timeout g).
Definition set_totals (g : bufferevent_rate_limit_group) (r w : Z) : bufferevent_rate_limit_group :=
  mkGroup (members g) (rate_limit g) (rate_limit_cfg g) (g_read_suspended g) (g_write_suspended g)
    (pending_unsuspend_read g) (pending_unsuspend_write g) r w (n_members g)
    (min_share g) (configured_min_share g) (master_timeout g).
Definition set_shares (g : bufferevent_rate_limit_group) (configured m : Z) : bufferevent_rate_limit_group :=
  mkGroup (members g) (rate_limit g) (rate_limit_cfg g) (g_read_suspended g) (g_write_suspended g)
    (pending_unsuspend_read g) (pending_unsuspend_write g) (total_read g) (total_written g) (n_members g)
    m configured (master_timeout g).
Definition put_bev (w : world) (i : Z) (b : bufferevent_private) : world := mkWorld (<[i := b]> (bevs w)) (groups w).
Definition put_group (w : world) (i : Z) (g : bufferevent_rate_limit_group) : world := mkWorld (bevs w) (<[i := g]> (groups w)).

(** [ev_ssize_t] subtraction: overflow is undefined. *)
Definition ssub (a n : Z) : outcome Z :=
  if (- 2 ^ 63 <=? a - n) && (a - n <? 2 ^ 63) then Done (a - n) else Crash.

(** ** Suspending *)

Definition suspend_ (d : dir) (what : Z) (b : bufferevent_private) : bufferevent_private :=
  let b := if susp d b =? 0 then be_call b d false else b in
  set_susp d b (Z.lor (susp d b) what).
Definition bufferevent_suspend_read_ := suspend_ Rd.
Definition bufferevent_suspend_write_ := suspend_ Wr.

Definition unsuspend_ (d : dir) (what : Z) (b : bufferevent_private) : bufferevent_private :=
  let b := set_susp d b (Z.land (susp d b) (Z.lnot what)) in
  if (susp d b =? 0) && has (enabled b) (ev_flag d) then be_call b d true else b.
Definition bufferevent_unsuspend_read_ := unsuspend_ Rd.
Definition bufferevent_unsuspend_write_ := unsuspend_ Wr.

(** [event_add] and [event_del] of the refill timer. *)
Definition add_refill (e : env) (r : bufferevent_rate_limit) : Z * bufferevent_rate_limit :=
  if add_ok e then (0, set_pending r true) else (-1, r).
Definition del_refill (r : bufferevent_rate_limit) : bufferevent_rate_limit := set_pending r false.

(** [event_assign] of the refill timer. *)
Definition assign_refill (r : bufferevent_rate_limit) : bufferevent_rate_limit :=
  mkRlim (cfg r) (limit r) (group r) true false.

(** ** Limits of one bufferevent *)

Definition bufferevent_update_buckets (e : env) (r : bufferevent_rate_limit) : outcome bufferevent_rate_limit :=
  '(_, c) ← deref (cfg r);
  tick ← ev_token_bucket_get_tick_ (now e) c;
  Done (if tick =? last_updated (limit r) then r
        else set_limit r (ev_token_bucket_update_ (limit r) c tick).2).

Definition bufferevent_get_rlim_max_ (d : dir) (e : env) (w : world) (i : Z) : outcome (Z * world) :=
  b ← deref (bevs w !! i);
  let max_so_far := match d with Rd => max_single_read b | Wr => max_single_write b end in
  match rate_limiting b with
  | None => Done (max_so_far, w)
  | Some r =>
      '(max_so_far, r) ←
        (match cfg r with
         | None => Done (max_so_far, r)
         | Some _ => r ← bufferevent_update_buckets e r; Done (lim d (limit r), r)
         end);
      let b := set_rlim b r in
      '(max_so_far, b) ←
        (match group r with
         | None => Done (max_so_far, b)
         | Some gi =>
             g ← deref (groups w !! gi);
             if g_suspended d g then Done (Z.min max_so_far 0, suspend_ d BEV_SUSPEND_BW_GROUP b)
             else if n_members g =? 0 then Crash
             else
               let share := Z.quot (lim d (rate_limit g)) (n_members g) in
               let share := if share <? min_share g then min_share g else share in
               Done (Z.min max_so_far share, b)
         end);
      Done (if max_so_far <? 0 then 0 else max_so_far, put_bev w i b)
  end.
Definition bufferevent_get_read_max_ := bufferevent_get_rlim_max_ Rd.
Definition bufferevent_get_write_max_ := bufferevent_get_rlim_max_ Wr.

(** ** Groups: suspending and releasing the members *)

(** [f] on every member whose lock can be taken, in the given order. *)
Fixpoint on_members (e : env) (f : bufferevent_private -> bufferevent_private) (ms : list Z)
    (bs : gmap Z bufferevent_private) : outcome (gmap Z bufferevent_private) :=
  match ms with
  | [] => Done bs
  | i :: ms =>
      b ← deref (bs !! i);
      on_members e f ms (if busy e i then bs else <[i := f b]> bs)
  end.

Definition bev_group_suspend_ (d : dir) (e : env) (w : world) (gi : Z) : outcome world :=
  g ← deref (groups w !! gi);
  bs ← on_members e (suspend_ d BEV_SUSPEND_BW_GROUP) (members g) (bevs w);
  Done (mkWorld bs (<[gi := set_g_flags d g true false]> (groups w))).
Definition bev_group_suspend_reading_ := bev_group_suspend_ Rd.
Definition bev_group_suspend_writing_ := bev_group_suspend_ Wr.

(** The member at the random position; [None] for an empty group. *)
Definition bev_group_random_element_ (e : env) (g : bufferevent_rate_limit_group) : outcome (option Z) :=
  if n_members g =? 0 then Done None else
  _ ← assert_c (negb (bool_decide (members g = [])));
  Some <$> deref (members g !! Z.to_nat (which e)).

(** [FOREACH_RANDOM_ORDER]: from the random member to the end, then the
    members in front of it. *)
Definition random_order (e : env) (g : bufferevent_rate_limit_group) : outcome (list Z) :=
  o ← bev_group_random_element_ e g;
  match o with
  | None => Done (members g)
  | Some _ => Done (drop (Z.to_nat (which e)) (members g) ++ take (Z.to_nat (which e)) (members g))
  end.

Definition bev_group_unsuspend_ (d : dir) (e : env) (w : world) (gi : Z) : outcome world :=
  g ← deref (groups w !! gi);
  order ← random_order e g;
  bs ← on_members e (unsuspend_ d BEV_SUSPEND_BW_GROUP) order (bevs w);
  Done (mkWorld bs (<[gi := set_g_flags d g false (existsb (busy e) order)]> (groups w))).
Definition bev_group_unsuspend_reading_ := bev_group_unsuspend_ Rd.
Definition bev_group_unsuspend_writing_ := bev_group_unsuspend_ Wr.

(** The calling thread holds the lock of bufferevent [i]. *)
Definition holding (e : env) (i : Z) : env :=
  mkEnv (now e) (add_ok e) (calloc_ok e) (fun j => busy e j && negb (j =? i)) (which e).

(** ** Spending *)

(** The bufferevent's own bucket. *)
Definition spend_own (d : dir) (e : env) (b : bufferevent_private) (r : bufferevent_rate_limit) (bytes : Z)
    : outcome (Z * bufferevent_private) :=
  match cfg r with
  | None => Done (0, b)
  | Some _ =>
      l ← ssub (lim d (limit r)) bytes;
      let r := set_limit r (set_lim d (limit r) l) in
      let other := match d with Rd => Wr | Wr => Rd end in
      if l <=? 0 then
        let b := suspend_ d BEV_SUSPEND_BW b in
        let '(res, r) := add_refill e r in Done (res, set_rlim b r)
      else if has (susp d b) BEV_SUSPEND_BW then
        let r := if has (susp other b) BEV_SUSPEND_BW then r else del_refill r in
        Done (0, unsuspend_ d BEV_SUSPEND_BW (set_rlim b r))
      else Done (0, set_rlim b r)
  end.

(** The bucket of the group. *)
Definition spend_group (d : dir) (e : env) (w : world) (gi : Z) (bytes : Z) : outcome world :=
  g ← deref (groups w !! gi);
  l ← ssub (lim d (rate_limit g)) bytes;
  let g := set_g_limit g (set_lim d (rate_limit g) l) in
  let g := match d with
           | Rd => set_totals g (u64 (total_read g + bytes)) (total_written g)
           | Wr => set_totals g (total_read g) (u64 (total_written g + bytes))
           end in
  let w := put_group w gi g in
  if l <=? 0 then bev_group_suspend_ d e w gi
  else if g_suspended d g then bev_group_unsuspend_ d e w gi
  else Done w.

Definition decrement_buckets_ (d : dir) (e : env) (w : world) (i bytes : Z) : outcome (Z * world) :=
  b ← deref (bevs w !! i);
  match rate_limiting b with
  | None => Done (0, w)
  | Some r =>
      '(res, b) ← spend_own d e b r bytes;
      let w := put_bev w i b in
      match group r with
      | None => Done (res, w)
      | Some gi => w ← spend_group d (holding e i) w gi bytes; Done (res, w)
      end
  end.
Definition bufferevent_decrement_read_buckets_ := decrement_buckets_ Rd.
Definition bufferevent_decrement_write_buckets_ := decrement_buckets_ Wr.

(** ** Refilling *)

(** One direction of the timer callback: [true] asks for another tick. *)
Definition refill_side (d : dir) (b : bufferevent_private) (r : bufferevent_rate_limit) : bufferevent_private * bool :=
  if has (susp d b) BEV_SUSPEND_BW then
    if 0 <? lim d (limit r) then (unsuspend_ d BEV_SUSPEND_BW b, false) else (b, true)
  else (b, false).

(** The timer that fires is no longer pending. *)
Definition bev_refill_callback_ (e : env) (w : world) (i : Z) : outcome world :=
  b ← deref (bevs w !! i);
  match rate_limiting b with
  | None => Done w
  | Some r =>
      let r := set_pending r false in
      match cfg r with
      | None => Done (put_bev w i (set_rlim b r))
      | Some (_, c) =>
          tick ← ev_token_bucket_get_tick_ (now e) c;
          let r := set_limit r (ev_token_bucket_update_ (limit r) c tick).2 in
          let '(b, again1) := refill_side Rd b r in
          let '(b, again2) := refill_side Wr b r in
          let r := if again1 || again2 then (add_refill e r).2 else r in
          Done (put_bev w i (set_rlim b r))
      end
  end.

Definition group_release (d : dir) (e : env) (w : world) (gi : Z) : outcome world :=
  g ← deref (groups w !! gi);
  if g_pending d g || (g_suspended d g && (min_share g <=? lim d (rate_limit g)))
  then bev_group_unsuspend_ d e w gi else Done w.

Definition bev_group_refill_callback_ (e : env) (w : world) (gi : Z) : outcome world :=
  g ← deref (groups w !! gi);
  tick ← ev_token_bucket_get_tick_ (now e) (rate_limit_cfg g);
  let g := set_g_limit g (ev_token_bucket_update_ (rate_limit g) (rate_limit_cfg g) tick).2 in
  w ← group_release Rd e (put_group w gi g) gi;
  group_release Wr e w gi.

(** ** Configuration *)

(** One direction after a new configuration: [true] if it is exhausted. *)
Definition settle (d : dir) (b : bufferevent_private) (r : bufferevent_rate_limit) : bufferevent_private * bool :=
  if 0 <? lim d (limit r) then (unsuspend_ d BEV_SUSPEND_BW b, false) else (suspend_ d BEV_SUSPEND_BW b, true).

Definition fresh_rlim : bufferevent_rate_limit := mkRlim None (mkBucket 0 0 0) None false false.

Definition bufferevent_set_rate_limit (e : env) (w : world) (i : Z) (newcfg : option (Z * ev_token_bucket_cfg))
    : outcome (Z * world) :=
  b ← deref (bevs w !! i);
  match newcfg with
  | None =>
      match rate_limiting b with
      | None => Done (0, w)
      | Some r =>
          let r := mkRlim None (limit r) (group r) (refill_initialized r) (refill_pending r) in
          let b := unsuspend_ Wr BEV_SUSPEND_BW (unsuspend_ Rd BEV_SUSPEND_BW b) in
          let r := if refill_initialized r then del_refill r else r in
          Done (0, put_bev w i (set_rlim b r))
      end
  | Some (p, c) =>
      tick ← ev_token_bucket_get_tick_ (now e) c;
      if match rate_limiting b with
         | Some r => match cfg r with Some (q, _) => q =? p | None => false end
         | None => false
         end then Done (0, w) else
      match (match rate_limiting b with Some r => Some r | None => if calloc_ok e then Some fresh_rlim else None end) with
      | None => Done (-1, w)
      | Some r =>
          let reinit := match cfg r with Some _ => true | None => false end in
          let r := mkRlim (Some (p, c)) (ev_token_bucket_init_ (limit r) c tick reinit) (group r)
                     (refill_initialized r) (refill_pending r) in
          r ← (if reinit then _ ← assert_c (refill_initialized r); Done (del_refill r) else Done r);
          let r := assign_refill r in
          let '(b, s1) := settle Rd b r in
          let '(b, s2) := settle Wr b r in
          let r := if s1 || s2 then (add_refill e r).2 else r in
          Done (0, put_bev w i (set_rlim b r))
      end
  end.

Definition bufferevent_rate_limit_group_set_min_share (g : bufferevent_rate_limit_group) (share : Z)
    : Z * bufferevent_rate_limit_group :=
  if EV_SSIZE_MAX <? share then (-1, g) else
  let m := if read_rate (rate_limit_cfg g) <? share then read_rate (rate_limit_cfg g) else share in
  let m := if write_rate (rate_limit_cfg g) <? m then write_rate (rate_limit_cfg g) else m in
  (0, set_shares g share m).

(** [None] when the allocation fails; otherwise the new group is [gi]. *)
Definition bufferevent_rate_limit_group_new (e : env) (w : world) (gi : Z) (c : ev_token_bucket_cfg)
    : outcome (option world) :=
  tick ← ev_token_bucket_get_tick_ (now e) c;
  if negb (calloc_ok e) then Done None else
  let g := mkGroup [] (ev_token_bucket_init_ (mkBucket 0 0 0) c tick false) c false false false false 0 0 0 0 0
             (if add_ok e then Some (tick_timeout c) else None) in
  Done (Some (put_group w gi (bufferevent_rate_limit_group_set_min_share g 64).2)).

Definition bufferevent_rate_limit_group_set_cfg (e : env) (w : world) (gi : Z) (c : ev_token_bucket_cfg) : outcome world :=
  g ← deref (groups w !! gi);
  let same_tick := bool_decide (tick_timeout (rate_limit_cfg g) = tick_timeout c) in
  let timeout := if negb same_tick && add_ok e then Some (tick_timeout c) else master_timeout g in
  let g := mkGroup (members g) (clip Wr c (clip Rd c (rate_limit g))) c (g_read_suspended g) (g_write_suspended g)
             (pending_unsuspend_read g) (pending_unsuspend_write g) (total_read g) (total_written g) (n_members g)
             (min_share g) (configured_min_share g) timeout in
  Done (put_group w gi (bufferevent_rate_limit_group_set_min_share g (configured_min_share g)).2).

Definition bufferevent_rate_limit_group_free (w : world) (gi : Z) : outcome world :=
  g ← deref (groups w !! gi);
  _ ← assert_c (n_members g =? 0);
  Done (mkWorld (bevs w) (delete gi (groups w))).

Definition bufferevent_remove_from_rate_limit_group_internal_ (w : world) (i : Z) (unsuspend : bool) : outcome world :=
  b ← deref (bevs w !! i);
  '(b, w) ←
    (match rate_limiting b with
     | Some r =>
         match group r with
         | Some gi =>
             g ← deref (groups w !! gi);
             Done (set_rlim b (set_group r None),
                   put_group w gi (set_members g (filter (fun j => j <> i) (members g)) (n_members g - 1)))
         | None => Done (b, w)
         end
     | None => Done (b, w)
     end);
  let b := if unsuspend then unsuspend_ Wr BEV_SUSPEND_BW_GROUP (unsuspend_ Rd BEV_SUSPEND_BW_GROUP b) else b in
  Done (put_bev w i b).
Definition bufferevent_remove_from_rate_limit_group (w : world) (i : Z) : outcome world :=
  bufferevent_remove_from_rate_limit_group_internal_ w i true.

Definition bufferevent_add_to_rate_limit_group (e : env) (w : world) (i gi : Z) : outcome (Z * world) :=
  b ← deref (bevs w !! i);
  match (match rate_limiting b with
         | Some r => Some r
         | None => if calloc_ok e then Some (assign_refill fresh_rlim) else None
         end) with
  | None => Done (-1, w)
  | Some r =>
      let w := put_bev w i (set_rlim b r) in
      if bool_decide (group r = Some gi) then Done (0, w) else
      w ← (match group r with None => Done w | Some _ => bufferevent_remove_from_rate_limit_group w i end);
      b ← deref (bevs w !! i);
      r ← deref (rate_limiting b);
      g ← deref (groups w !! gi);
      let b := set_rlim b (set_group r (Some gi)) in
      let b := if g_suspended Rd g then suspend_ Rd BEV_SUSPEND_BW_GROUP b else b in
      let b := if g_suspended Wr g then suspend_ Wr BEV_SUSPEND_BW_GROUP b else b in
      Done (0, put_bev (put_group w gi (set_members g (i :: members g) (n_members g + 1))) i b)
  end.

(** ** The program's interface *)

Definition get_limit (d : dir) (e : env) (w : world) (i : Z) : outcome (Z * world) :=
  b ← deref (bevs w !! i);
  match rate_limiting b with
  | Some r =>
      match cfg r with
      | Some _ => r ← bufferevent_update_buckets e r; Done (lim d (limit r), put_bev w i (set_rlim b r))
      | None => Done (EV_SSIZE_MAX, w)
      end
  | None => Done (EV_SSIZE_MAX, w)
  end.
Definition bufferevent_get_read_limit := get_limit Rd.
Definition bufferevent_get_write_limit := get_limit Wr.

Definition set_max_single (d : dir) (b : bufferevent_private) (size : Z) : bufferevent_private :=
  let m := if (size =? 0) || (EV_SSIZE_MAX <? size) then MAX_SINGLE_DEFAULT else size in
  match d with
  | Rd => mkBev (rate_limiting b) m (max_single_write b) (read_suspended b) (write_suspended b) (enabled b) (be_calls b)
  | Wr => mkBev (rate_limiting b) (max_single_read b) m (read_suspended b) (write_suspended b) (enabled b) (be_calls b)
  end.
Definition bufferevent_set_max_single_read := set_max_single Rd.
Definition bufferevent_set_max_single_write := set_max_single Wr.

Definition decrement_limit (d : dir) (e : env) (w : world) (i decr : Z) : outcome (Z * world) :=
  b ← deref (bevs w !! i);
  r ← deref (rate_limiting b);
  _ ← deref (cfg r);
  let old_limit := lim d (limit r) in
  new_limit ← ssub old_limit decr;
  let r := set_limit r (set_lim d (limit r) new_limit) in
  let other := match d with Rd => Wr | Wr => Rd end in
  let '(res, b) :=
    if (0 <? old_limit) && (new_limit <=? 0) then
      let b := suspend_ d BEV_SUSPEND_BW b in
      let '(res, r) := add_refill e r in (res, set_rlim b r)
    else if (old_limit <=? 0) && (0 <? new_limit) then
      let r := if has (susp other b) BEV_SUSPEND_BW then r else del_refill r in
      (0, unsuspend_ d BEV_SUSPEND_BW (set_rlim b r))
    else (0, set_rlim b r) in
  Done (res, put_bev w i b).
Definition bufferevent_decrement_read_limit := decrement_limit Rd.
Definition bufferevent_decrement_write_limit := decrement_limit Wr.

Definition group_decrement (d : dir) (e : env) (w : world) (gi decr : Z) : outcome world :=
  g ← deref (groups w !! gi);
  let old_limit := lim d (rate_limit g) in
  new_limit ← ssub old_limit decr;
  let w := put_group w gi (set_g_limit g (set_lim d (rate_limit g) new_limit)) in
  if (0 <? old_limit) && (new_limit <=? 0) then bev_group_suspend_ d e w gi
  else if (old_limit <=? 0) && (0 <? new_limit) then bev_group_unsuspend_ d e w gi
  else Done w.
Definition bufferevent_rate_limit_group_decrement_read := group_decrement Rd.
Definition bufferevent_rate_limit_group_decrement_write := group_decrement Wr.

Definition bufferevent_rate_limit_group_get_totals (g : bufferevent_rate_limit_group) : Z * Z :=
  (total_read g, total_written g).
Definition bufferevent_rate_limit_group_reset_totals (g : bufferevent_rate_limit_group) : bufferevent_rate_limit_group :=
  set_totals g 0 0.

Definition bufferevent_ratelim_init_ (b : bufferevent_private) : bufferevent_private :=
  mkBev None MAX_SINGLE_DEFAULT MAX_SINGLE_DEFAULT (read_suspended b) (write_suspended b) (enabled b) (be_calls b).

(** ** Arithmetic of the buckets *)

#[global] Instance dir_eq_dec : EqDecision dir.
Proof. solve_decision. Defined.

Definition cfg_ok (c : ev_token_bucket_cfg) : Prop :=
  (forall d, 1 <= rate d c <= maximum d c /\ maximum d c <= EV_SSIZE_MAX) /\ 0 < msec_per_tick c.

Definition within (c : ev_token_bucket_cfg) (b : ev_token_bucket) : Prop :=
  forall d, - 2 ^ 63 <= lim d b <= maximum d c.

Lemma lim_set d d' b x : lim d (set_lim d' b x) = if decide (d = d') then x else lim d b.
Proof. by destruct d, d'. Qed.
Lemma lim_tick d b t : lim d (set_tick b t) = lim d b.
Proof. by destruct d. Qed.
Lemma last_set d b x : last_updated (set_lim d b x) = last_updated b.
Proof. by destruct d. Qed.

Lemma refill_exact d c n b :
  cfg_ok c -> within c b -> 0 < n <= INT_MAX ->
  refill d c n b = set_lim d b (Z.min (maximum d c) (lim d b + n * rate d c)).
Proof.
  intros [Hc _] Hw Hn. destruct (Hc d) as [Hr Hm]. specialize (Hw d). unfold refill, EV_SSIZE_MAX in *.
  rewrite u64_small by lia. set (q := (maximum d c - lim d b) / n).
  pose proof (Z.div_mod (maximum d c - lim d b) n ltac:(lia)) as Hdm. fold q in Hdm.
  pose proof (Z.mod_pos_bound (maximum d c - lim d b) n ltac:(lia)) as Hmb.
  destruct (Z.ltb_spec q (rate d c)).
  - f_equal. rewrite i64_small by lia. rewrite Z.min_l; [done|]. nia.
  - assert (n * rate d c <= maximum d c - lim d b) by nia.
    f_equal. rewrite (u64_small (n * rate d c)) by nia. rewrite i64_small by nia. rewrite Z.min_r by lia. done.
Qed.

Lemma update_exact b c t :
  cfg_ok c -> within c b ->
  let n := u32 (t - last_updated b) in
  ev_token_bucket_update_ b c t =
    if (n =? 0) || (INT_MAX <? n) then (false, b)
    else (true, mkBucket (Z.min (read_maximum c) (read_limit b + n * read_rate c))
                         (Z.min (write_maximum c) (write_limit b + n * write_rate c)) t).
Proof.
  intros Hc Hw n. unfold ev_token_bucket_update_. fold n. destruct (_ || _) eqn:E; [done|]. zb.
  pose proof (u32_range (t - last_updated b)) as Hr. fold n in Hr.
  rewrite (refill_exact Rd) by (auto; lia). rewrite refill_exact; [done|done| |lia].
  intros d. rewrite lim_set. specialize (Hw d). destruct Hc as [Hc _]. destruct (Hc d) as [? ?].
  destruct (decide (d = Rd)) as [->|]; [|done]. unfold EV_SSIZE_MAX in *. simpl in *. nia.
Qed.

Lemma update_within b c t : cfg_ok c -> within c b -> within c (ev_token_bucket_update_ b c t).2.
Proof.
  intros Hc Hw. rewrite update_exact by done. cbv zeta. destruct (_ || _) eqn:E; [done|]. zb.
  pose proof (u32_range (t - last_updated b)). intros d. destruct Hc as [Hc _]. destruct (Hc d) as [? ?].
  specialize (Hw d). unfold EV_SSIZE_MAX in *. destruct d; simpl in *; nia.
Qed.

Lemma update_grows d b c t : cfg_ok c -> within c b -> lim d b <= lim d (ev_token_bucket_update_ b c t).2.
Proof.
  intros Hc Hw. rewrite update_exact by done. cbv zeta. destruct (_ || _) eqn:E; [done|]. zb.
  pose proof (u32_range (t - last_updated b)). destruct Hc as [Hc _]. destruct (Hc d) as [? ?].
  specialize (Hw d). destruct d; simpl in *; nia.
Qed.

Lemma clip_spec d d' c b : lim d (clip d' c b) = if decide (d = d') then Z.min (maximum d c) (lim d b) else lim d b.
Proof.
  unfold clip. case_test; zb; rewrite ?lim_set; destruct (decide (d = d')) as [->|]; try done; lia.
Qed.

Lemma init_within b c t re : cfg_ok c -> (re = true -> forall d, - 2 ^ 63 <= lim d b) -> within c (ev_token_bucket_init_ b c t re).
Proof.
  intros [Hc _] Hb d. destruct (Hc d) as [? ?]. unfold ev_token_bucket_init_. destruct re.
  - rewrite !clip_spec. specialize (Hb eq_refl d). unfold EV_SSIZE_MAX in *. destruct d; simpl in *; lia.
  - destruct d; simpl in *; lia.
Qed.

(** ** What the buckets guarantee *)

Lemma cfg_new_ok ok rr rb wr wb tick c :
  ev_token_bucket_cfg_new ok rr rb wr wb tick = Some c -> 0 < msec_per_tick c -> cfg_ok c.
Proof.
  unfold ev_token_bucket_cfg_new, EV_RATE_LIMIT_MAX. repeat (case_test; [done|]). intros [= <-] Hm. zb.
  split; [|done]. intros []; simpl; lia.
Qed.

(** For a configuration made by [ev_token_bucket_cfg_new] with a tick of at least a millisecond, the update
    written to avoid overflow computes, in 64-bit arithmetic, exactly the naive formula of its comment: the
    limit plus the rate times the elapsed ticks, cut at the burst; and it does nothing if no tick has passed or
    the clock went back. *)
Theorem token_bucket_update_exact ok rr rb wr wb tick c b t :
  ev_token_bucket_cfg_new ok rr rb wr wb tick = Some c -> 0 < msec_per_tick c -> within c b ->
  let n := u32 (t - last_updated b) in
  ev_token_bucket_update_ b c t =
    (if (n =? 0) || (INT_MAX <? n) then (false, b)
     else (true, mkBucket (Z.min rb (read_limit b + n * rr)) (Z.min wb (write_limit b + n * wr)) t)) /\
  within c (ev_token_bucket_update_ b c t).2.
Proof.
  intros Hc Hm Hw n. pose proof (cfg_new_ok _ _ _ _ _ _ _ Hc Hm) as Hok. split; [|by apply update_within].
  rewrite update_exact by done. fold n. unfold ev_token_bucket_cfg_new in Hc. repeat (case_test_in Hc; [done|]).
  injection Hc as <-. done.
Qed.

Definition sample_cfg : ev_token_bucket_cfg := mkCfg 100 1000 50 EV_SSIZE_MAX (1, 0) 1000.

Lemma sample_cfg_ok : cfg_ok sample_cfg.
Proof. split; [intros []; vm_compute; split_and!; congruence|by vm_compute]. Qed.

Lemma token_bucket_update_exact_witness :
  let b := mkBucket (-250) (EV_SSIZE_MAX - 10) 7 in
  ev_token_bucket_update_ b sample_cfg 10 = (true, mkBucket 50 EV_SSIZE_MAX 10).
Proof.
  intros b. destruct (token_bucket_update_exact true 100 1000 50 EV_SSIZE_MAX None sample_cfg b 10) as [-> _].
  - reflexivity.
  - simpl. lia.
  - intros []; vm_compute; split; congruence.
  - reflexivity.
Defined.

(** A bucket above its burst is never cut back: the difference that the update divides is negative and wraps
    to a huge [size_t], so every update adds the full amount and the limit keeps growing.  (A negative argument
    of [bufferevent_decrement_read_limit], documented as a manual refill, puts a bucket there.) *)
Theorem overfull_bucket_keeps_growing d c b t :
  cfg_ok c -> maximum d c < lim d b < 2 ^ 63 ->
  let n := u32 (t - last_updated b) in
  0 < n -> n * rate d c <= 2 ^ 62 -> n <= 2 ^ 30 -> lim d b + n * rate d c < 2 ^ 63 ->
  lim d (ev_token_bucket_update_ b c t).2 = lim d b + n * rate d c.
Proof.
  intros [Hc _] Hl n Hn Hnr Hn30 Hfit. destruct (Hc d) as [Hr Hm]. unfold EV_SSIZE_MAX in Hm.
  unfold ev_token_bucket_update_. fold n. rewrite (proj2 (Z.eqb_neq n 0)), (proj2 (Z.ltb_ge INT_MAX n)) by (unfold INT_MAX; lia).
  cbn [orb snd]. rewrite lim_tick.
  assert (Hu : u64 (maximum d c - lim d b) = maximum d c - lim d b + 2 ^ 64).
  { unfold u64. replace (maximum d c - lim d b) with (maximum d c - lim d b + 2 ^ 64 + (-1) * 2 ^ 64) at 1 by lia.
    rewrite Z.mod_add by lia. apply Z.mod_small. lia. }
  assert (Hq : rate d c <= u64 (maximum d c - lim d b) / n).
  { rewrite Hu. apply Z.div_le_lower_bound; [done|]. lia. }
  assert (Hre : forall b', lim d b' = lim d b -> lim d (refill d c n b') = lim d b + n * rate d c).
  { intros b' Hb'. unfold refill. rewrite Hb', (proj2 (Z.ltb_ge _ _)), lim_set, decide_True by done.
    rewrite u64_small by lia. rewrite i64_small by lia. done. }
  assert (Hother : forall b', lim d (refill (match d with Rd => Wr | Wr => Rd end) c n b') = lim d b').
  { intros b'. destruct d; unfold refill; by case_test. }
  destruct d; [rewrite Hother; by apply Hre|]. apply Hre. apply Hother.
Qed.

Lemma overfull_bucket_keeps_growing_witness :
  lim Rd (ev_token_bucket_update_ (mkBucket 2000 50 7) sample_cfg 10).2 = 2300.
Proof.
  rewrite (overfull_bucket_keeps_growing Rd sample_cfg (mkBucket 2000 50 7) 10 sample_cfg_ok).
  - vm_compute. reflexivity.
  - vm_compute. split; congruence.
  - vm_compute. reflexivity.
  - vm_compute. congruence.
  - vm_compute. congruence.
  - vm_compute. reflexivity.
Defined.
