(* ===== verification/RateLimitInv.v ===== *)
(** * Rate limiting: an exhausted bucket stops the transfer and will be refilled

    The invariant of [RateLimit]: buckets stay within their burst, an
    exhausted bucket suspends its direction, whoever is suspended for a bucket
    has the refill timer pending, members and groups refer to each other, and
    whoever is suspended for a group is in a group that is suspended or still
    has to release members.  Every operation keeps it. *)

From S2P Require Import Prelude RateLimit.

(** ** Suspension flags *)

(** Suspended by its own bucket, by its group. *)
Definition bw (d : dir) (b : bufferevent_private) : bool := has (susp d b) BEV_SUSPEND_BW.
Definition bwg (d : dir) (b : bufferevent_private) : bool := has (susp d b) BEV_SUSPEND_BW_GROUP.

Lemma has_bw x : has x BEV_SUSPEND_BW = Z.testbit x 1.
Proof. apply (has_bit x 1). lia. Qed.
Lemma has_bwg x : has x BEV_SUSPEND_BW_GROUP = Z.testbit x 2.
Proof. apply (has_bit x 2). lia. Qed.

Lemma susp_set d d' b x : susp d (set_susp d' b x) = if decide (d = d') then x else susp d b.
Proof. by destruct d, d'. Qed.
Lemma susp_suspend d d' what b :
  susp d (suspend_ d' what b) = if decide (d = d') then Z.lor (susp d b) what else susp d b.
Proof. unfold suspend_. destruct (susp d' b =? 0), d, d'; done. Qed.
Lemma susp_unsuspend d d' what b :
  susp d (unsuspend_ d' what b) = if decide (d = d') then Z.land (susp d b) (Z.lnot what) else susp d b.
Proof. unfold unsuspend_. destruct (_ && _), d, d'; done. Qed.
Lemma rl_suspend d what b : rate_limiting (suspend_ d what b) = rate_limiting b.
Proof. unfold suspend_. by destruct (susp d b =? 0), d. Qed.
Lemma rl_unsuspend d what b : rate_limiting (unsuspend_ d what b) = rate_limiting b.
Proof. unfold unsuspend_. by destruct (_ && _), d. Qed.

(** One flag of one direction after a suspend or an unsuspend. *)
Ltac flags := unfold bw, bwg; rewrite ?susp_suspend, ?susp_unsuspend;
  repeat match goal with |- context [decide (?a = ?b)] => destruct (decide (a = b)); subst end;
  rewrite ?has_bw, ?has_bwg, ?Z.lor_spec, ?Z.land_spec, ?Z.lnot_spec by lia;
  repeat first [rewrite bool_decide_true by done | rewrite bool_decide_false by done];
  cbn; rewrite ?orb_false_r, ?andb_true_r, ?orb_true_r, ?andb_false_r; done.

Lemma bw_suspend d d' b : bw d (suspend_ d' BEV_SUSPEND_BW b) = bool_decide (d = d') || bw d b.
Proof. flags. Qed.
Lemma bw_unsuspend d d' b : bw d (unsuspend_ d' BEV_SUSPEND_BW b) = negb (bool_decide (d = d')) && bw d b.
Proof. flags. Qed.
Lemma bwg_suspend d d' b : bwg d (suspend_ d' BEV_SUSPEND_BW_GROUP b) = bool_decide (d = d') || bwg d b.
Proof. flags. Qed.
Lemma bwg_unsuspend d d' b : bwg d (unsuspend_ d' BEV_SUSPEND_BW_GROUP b) = negb (bool_decide (d = d')) && bwg d b.
Proof. flags. Qed.
Lemma bw_suspend_g d d' b : bw d (suspend_ d' BEV_SUSPEND_BW_GROUP b) = bw d b.
Proof. flags. Qed.
Lemma bw_unsuspend_g d d' b : bw d (unsuspend_ d' BEV_SUSPEND_BW_GROUP b) = bw d b.
Proof. flags. Qed.
Lemma bwg_suspend_b d d' b : bwg d (suspend_ d' BEV_SUSPEND_BW b) = bwg d b.
Proof. flags. Qed.
Lemma bwg_unsuspend_b d d' b : bwg d (unsuspend_ d' BEV_SUSPEND_BW b) = bwg d b.
Proof. flags. Qed.

(** ** The invariant *)

Definition group_of (b : bufferevent_private) : option Z := rate_limiting b ≫= group.

(** An exhausted bucket suspends its direction, and as long as a direction is
    suspended for its bucket the refill timer is pending. *)
Definition rlim_ok (b : bufferevent_private) (r : bufferevent_rate_limit) : Prop :=
  match cfg r with
  | None => forall d, bw d b = false
  | Some (_, c) =>
      refill_initialized r = true /\ cfg_ok c /\ within c (limit r) /\
      forall d, (lim d (limit r) <= 0 -> bw d b = true) /\ (bw d b = true -> refill_pending r = true)
  end.

Definition bev_base (b : bufferevent_private) : Prop :=
  match rate_limiting b with None => forall d, bw d b = false | Some r => rlim_ok b r end.

Record group_base (g : bufferevent_rate_limit_group) : Prop := {
  gb_nodup : NoDup (members g);
  gb_count : n_members g = zlen (members g);
  gb_cfg : cfg_ok (rate_limit_cfg g);
  gb_within : within (rate_limit_cfg g) (rate_limit g);
  gb_share : 1 <= min_share g;
  gb_configured : 1 <= configured_min_share g <= EV_SSIZE_MAX;
  gb_flags : forall d, g_suspended d g && g_pending d g = false
}.

(** Members and groups refer to each other, and who is suspended for the
    group is in a group that is suspended or still has to release members. *)
Record struct (w : world) : Prop := {
  st_bev : forall i b, bevs w !! i = Some b -> bev_base b;
  st_susp : forall i b d, bevs w !! i = Some b -> bwg d b = true ->
    exists gi g, group_of b = Some gi /\ groups w !! gi = Some g /\ g_suspended d g || g_pending d g = true;
  st_in : forall i b gi, bevs w !! i = Some b -> group_of b = Some gi ->
    exists g, groups w !! gi = Some g /\ i ∈ members g;
  st_mem : forall gi g i, groups w !! gi = Some g -> i ∈ members g ->
    exists b, bevs w !! i = Some b /\ group_of b = Some gi;
  st_grp : forall gi g, groups w !! gi = Some g -> group_base g
}.

(** A group with an exhausted bucket is suspended. *)
Definition g_live (g : bufferevent_rate_limit_group) (d : dir) : Prop :=
  lim d (rate_limit g) <= 0 -> g_suspended d g = true.

Record rl_inv (w : world) : Prop := {
  iv_struct : struct w;
  iv_live : forall gi g d, groups w !! gi = Some g -> g_live g d
}.

Lemma put_bev_struct w i b b' :
  struct w -> bevs w !! i = Some b -> bev_base b' -> group_of b' = group_of b ->
  (forall d, bwg d b' = true -> bwg d b = true \/
     exists gi g, group_of b = Some gi /\ groups w !! gi = Some g /\ g_suspended d g = true) ->
  struct (put_bev w i b').
Proof.
  intros Hst Hi Hb Hg Hs. split; simpl.
  - intros j c Hj. apply lookup_insert_Some in Hj as [[_ <-]|[_ Hj]]; [done|]. by eapply st_bev.
  - intros j c d Hj Hd. apply lookup_insert_Some in Hj as [[<- <-]|[_ Hj]]; [|by eapply st_susp].
    rewrite Hg. destruct (Hs d Hd) as [Hold|(gi & g & H1 & H2 & H3)]; [by eapply st_susp|].
    exists gi, g. by rewrite H3.
  - intros j c gi Hj Hgi. apply lookup_insert_Some in Hj as [[<- <-]|[_ Hj]]; [|by eapply st_in].
    rewrite Hg in Hgi. by eapply st_in.
  - intros gi g j Hgi Hj. destruct (st_mem w Hst gi g j Hgi Hj) as (c & Hc & Hgc).
    destruct (decide (i = j)) as [<-|].
    + exists b'. rewrite lookup_insert_eq, Hg. split; [done|]. by simplify_eq.
    + exists c. by rewrite lookup_insert_ne.
  - intros gi g Hgi. by eapply st_grp.
Qed.

Lemma put_group_struct w gi g g' :
  struct w -> groups w !! gi = Some g -> group_base g' -> members g' = members g ->
  (forall d, g_suspended d g || g_pending d g = true -> g_suspended d g' || g_pending d g' = true) ->
  struct (put_group w gi g').
Proof.
  intros Hst Hgi Hb Hm Hs. split; simpl.
  - apply (st_bev w Hst).
  - intros j c d Hj Hd. destruct (st_susp w Hst j c d Hj Hd) as (gj & h & H1 & H2 & H3).
    destruct (decide (gi = gj)) as [<-|].
    + exists gi, g'. rewrite lookup_insert_eq. split_and!; auto. apply Hs. by simplify_eq.
    + exists gj, h. by rewrite lookup_insert_ne.
  - intros j c gj Hj Hgj. destruct (st_in w Hst j c gj Hj Hgj) as (h & H1 & H2).
    destruct (decide (gi = gj)) as [<-|].
    + exists g'. rewrite lookup_insert_eq. split; [done|]. rewrite Hm. by simplify_eq.
    + exists h. by rewrite lookup_insert_ne.
  - intros gj h j Hgj Hj. apply lookup_insert_Some in Hgj as [[<- <-]|[_ Hgj]]; [|by eapply st_mem].
    rewrite Hm in Hj. by eapply st_mem.
  - intros gj h Hgj. apply lookup_insert_Some in Hgj as [[_ <-]|[_ Hgj]]; [done|]. by eapply st_grp.
Qed.

Lemma on_members_spec e f ms bs :
  NoDup ms -> (forall i, i ∈ ms -> is_Some (bs !! i)) ->
  exists bs', on_members e f ms bs = Done bs' /\
    forall j, bs' !! j = if decide (j ∈ ms /\ busy e j = false) then f <$> bs !! j else bs !! j.
Proof.
  intros Hnd. revert bs. induction Hnd as [|i ms Hi _ IH]; intros bs Hin.
  { exists bs. split; [done|]. intros j. rewrite decide_False by set_solver. done. }
  destruct (Hin i) as [b Hb]; [set_solver|]. simpl. rewrite Hb. simpl.
  destruct (IH (if busy e i then bs else <[i := f b]> bs)) as (bs' & E & H).
  { intros j Hj. destruct (busy e i); [apply Hin; set_solver|].
    destruct (decide (i = j)) as [<-|]; [by rewrite lookup_insert_eq|]. rewrite lookup_insert_ne by done. apply Hin. set_solver. }
  exists bs'. split; [done|]. intros j. rewrite H. destruct (decide (j = i)) as [->|Hne].
  - rewrite decide_False by tauto. destruct (busy e i) eqn:Eb.
    + rewrite decide_False by (intros [_ ?]; congruence). done.
    + rewrite decide_True by set_solver. by rewrite lookup_insert_eq, Hb.
  - assert (Hlk : (if busy e i then bs else <[i:=f b]> bs) !! j = bs !! j)
      by (destruct (busy e i); [done|by rewrite lookup_insert_ne]).
    rewrite Hlk. destruct (decide (j ∈ ms /\ busy e j = false)); [rewrite decide_True|rewrite decide_False]; set_solver.
Qed.

(** ** Walking over the members *)

Lemma base_flags b b' :
  rate_limiting b' = rate_limiting b -> (forall d, bw d b' = bw d b) -> bev_base b -> bev_base b'.
Proof.
  intros Hr Hd. unfold bev_base, rlim_ok. rewrite Hr. destruct (rate_limiting b) as [r|]; [|by setoid_rewrite Hd].
  destruct (cfg r) as [[p c]|]; [|by setoid_rewrite Hd]. by setoid_rewrite Hd.
Qed.

Lemma g_flags_set d d' g s p :
  g_suspended d (set_g_flags d' g s p) = (if decide (d = d') then s else g_suspended d g) /\
  g_pending d (set_g_flags d' g s p) = (if decide (d = d') then p else g_pending d g).
Proof. by destruct d, d'. Qed.
Lemma g_flags_base d g s p : s && p = false -> group_base g -> group_base (set_g_flags d g s p).
Proof.
  intros Hsp [? ? ? ? ? ? Hf]. assert (forall d', g_suspended d' (set_g_flags d g s p) && g_pending d' (set_g_flags d g s p) = false).
  { intros d'. destruct (g_flags_set d' d g s p) as [-> ->]. by destruct (decide (d' = d)). }
  destruct d; by split.
Qed.

Lemma walk_struct d e w gi g ms f s p bs :
  struct w -> groups w !! gi = Some g -> s && p = false -> ms ≡ₚ members g ->
  (forall b, rate_limiting (f b) = rate_limiting b /\ forall d', bw d' (f b) = bw d' b /\ (d' <> d -> bwg d' (f b) = bwg d' b)) ->
  (forall j, bs !! j = if decide (j ∈ ms /\ busy e j = false) then f <$> bevs w !! j else bevs w !! j) ->
  (forall j b, j ∈ ms -> s || p = false -> bs !! j = Some b -> bwg d b = false) ->
  struct (mkWorld bs (<[gi := set_g_flags d g s p]> (groups w))).
Proof.
  intros Hst Hgi Hsp Hperm Hf Hbs Hout.
  assert (Hold : forall j b, bs !! j = Some b -> exists b0, bevs w !! j = Some b0 /\ rate_limiting b = rate_limiting b0 /\
     (forall d', bw d' b = bw d' b0) /\ forall d', (d' <> d \/ j ∉ ms) -> bwg d' b = bwg d' b0).
  { intros j b Hj. rewrite Hbs in Hj. destruct (decide _) as [[Hin _]|Hn].
    - destruct (bevs w !! j) as [b0|]; [|done]. simpl in Hj. simplify_eq. exists b0. destruct (Hf b0) as [H1 H2].
      split_and!; auto; intros d'; destruct (H2 d'); auto. intros [?|?]; [auto|done].
    - exists b. by split_and!. }
  assert (Hnew : forall j b0, bevs w !! j = Some b0 -> exists b, bs !! j = Some b /\ group_of b = group_of b0).
  { intros j b0 Hj. rewrite Hbs, Hj. destruct (decide _); simpl; eexists; (split; [reflexivity|]); [|done].
    unfold group_of. by rewrite (proj1 (Hf b0)). }
  assert (Hgo : forall b b0, rate_limiting b = rate_limiting b0 -> group_of b = group_of b0)
    by (unfold group_of; by intros ? ? ->).
  split; simpl.
  - intros j b Hj. destruct (Hold j b Hj) as (b0 & H0 & H1 & H2 & _). eapply base_flags; [exact H1|exact H2|]. by eapply st_bev.
  - intros j b d' Hj Hd. destruct (Hold j b Hj) as (b0 & H0 & H1 & _ & H3). rewrite (Hgo _ _ H1).
    destruct (decide (d' = d /\ j ∈ ms)) as [[-> Hin]|Hn].
    + destruct (st_mem w Hst gi g j Hgi) as (b1 & Hb1 & Hg1); [by rewrite <- Hperm|]. simplify_eq.
      exists gi, (set_g_flags d g s p). rewrite lookup_insert_eq. destruct (g_flags_set d d g s p) as [-> ->].
      rewrite !decide_True by done. split_and!; auto. destruct (s || p) eqn:Esp; [done|].
      by rewrite (Hout j b Hin eq_refl Hj) in Hd.
    + rewrite H3 in Hd by (destruct (decide (d' = d)); tauto). destruct (st_susp w Hst j b0 d' H0 Hd) as (gj & h & G1 & G2 & G3).
      destruct (decide (gi = gj)) as [<-|]; [|exists gj, h; by rewrite lookup_insert_ne]. simplify_eq.
      exists gi, (set_g_flags d g s p). rewrite lookup_insert_eq. split_and!; auto. destruct (g_flags_set d' d g s p) as [-> ->].
      destruct (decide (d' = d)) as [->|]; [|done]. exfalso. apply Hn. split; [done|]. rewrite Hperm.
      destruct (st_in w Hst j b0 gi H0 G1) as (g0 & E0 & Hin). by simplify_eq.
  - intros j b gj Hj Hgj. destruct (Hold j b Hj) as (b0 & H0 & H1 & _). rewrite (Hgo _ _ H1) in Hgj.
    destruct (st_in w Hst j b0 gj H0 Hgj) as (h & G1 & G2). destruct (decide (gi = gj)) as [<-|]; [|exists h; by rewrite lookup_insert_ne].
    exists (set_g_flags d g s p). rewrite lookup_insert_eq. split; [done|]. simplify_eq. by destruct d.
  - intros gj h j Hgj Hj. apply lookup_insert_Some in Hgj as [[<- <-]|[_ Hgj]].
    + destruct (st_mem w Hst gi g j Hgi) as (b0 & H0 & G0); [by destruct d|]. destruct (Hnew j b0 H0) as (b & Hb & Hg). exists b. by rewrite Hg.
    + destruct (st_mem w Hst gj h j Hgj Hj) as (b0 & H0 & G0). destruct (Hnew j b0 H0) as (b & Hb & Hg). exists b. by rewrite Hg.
  - intros gj h Hgj. apply lookup_insert_Some in Hgj as [[_ <-]|[_ Hgj]]; [apply g_flags_base; [done|]|]; by eapply st_grp.
Qed.

Lemma group_suspend_ok d e w gi g :
  struct w -> groups w !! gi = Some g ->
  exists w', bev_group_suspend_ d e w gi = Done w' /\ struct w' /\
    groups w' = <[gi := set_g_flags d g true false]> (groups w).
Proof.
  intros Hst Hgi. unfold bev_group_suspend_. rewrite Hgi. simpl.
  destruct (on_members_spec e (suspend_ d BEV_SUSPEND_BW_GROUP) (members g) (bevs w)) as (bs & -> & Hbs).
  { apply (st_grp w Hst gi g Hgi). }
  { intros i Hi. destruct (st_mem w Hst gi g i Hgi Hi) as (b & -> & _). done. }
  eexists. split; [reflexivity|]. split; [|done].
  apply (walk_struct d e w gi g (members g) (suspend_ d BEV_SUSPEND_BW_GROUP) true false); [done|done|done|done| |exact Hbs|done].
  intros b. rewrite rl_suspend. split; [done|]. intros d'. rewrite bw_suspend_g, bwg_suspend. split; [done|].
  intros Hne. by rewrite bool_decide_false.
Qed.

Definition which_ok (e : env) (g : bufferevent_rate_limit_group) : Prop :=
  n_members g = 0 \/ 0 <= which e < n_members g.

Lemma random_order_perm e g :
  group_base g -> which_ok e g -> exists ms, random_order e g = Done ms /\ ms ≡ₚ members g.
Proof.
  intros Hb Hw. unfold random_order, bev_group_random_element_. pose proof (gb_count g Hb) as Hn.
  destruct (n_members g =? 0) eqn:E; zb; [by eexists|]. destruct Hw as [?|Hw]; [lia|].
  rewrite bool_decide_false by (intros H; rewrite H in Hn; unfold zlen in Hn; simpl in Hn; lia). simpl.
  destruct (lookup_lt_is_Some_2 (members g) (Z.to_nat (which e))) as [x ->]; [unfold zlen in Hn; lia|]. simpl.
  eexists. split; [reflexivity|]. rewrite Permutation_app_comm. by rewrite take_drop.
Qed.

Lemma group_unsuspend_ok d e w gi g :
  struct w -> groups w !! gi = Some g -> which_ok e g ->
  exists w' again, bev_group_unsuspend_ d e w gi = Done w' /\ struct w' /\
    groups w' = <[gi := set_g_flags d g false again]> (groups w).
Proof.
  intros Hst Hgi Hwh. unfold bev_group_unsuspend_. rewrite Hgi. simpl.
  pose proof (st_grp w Hst gi g Hgi) as Hb. destruct (random_order_perm e g Hb Hwh) as (ms & -> & Hp). simpl.
  destruct (on_members_spec e (unsuspend_ d BEV_SUSPEND_BW_GROUP) ms (bevs w)) as (bs & -> & Hbs).
  { rewrite Hp. apply Hb. }
  { intros i Hi. rewrite Hp in Hi. destruct (st_mem w Hst gi g i Hgi Hi) as (b & -> & _). done. }
  eexists _, _. split; [reflexivity|]. split; [|reflexivity].
  apply (walk_struct d e w gi g ms (unsuspend_ d BEV_SUSPEND_BW_GROUP)); [done|done|done|done| |exact Hbs|].
  - intros b. rewrite rl_unsuspend. split; [done|]. intros d'. rewrite bw_unsuspend_g, bwg_unsuspend. split; [done|].
    intros Hne. by rewrite bool_decide_false.
  - intros j b Hj Hex Hjb. rewrite Hbs in Hjb.
    assert (busy e j = false) as Hbj.
    { destruct (busy e j) eqn:E; [|done]. simpl in Hex. rewrite <- Hex. symmetry. apply existsb_exists. exists j.
      split; [by apply list_elem_of_In|done]. }
    rewrite decide_True in Hjb by done. destruct (bevs w !! j); [|done]. simpl in Hjb. simplify_eq.
    rewrite bwg_unsuspend, bool_decide_true by done. done.
Qed.

(** ** The operations keep the invariant *)

Lemma get_tick_ok e c : cfg_ok c -> exists t, ev_token_bucket_get_tick_ (now e) c = Done t.
Proof.
  intros [_ Hm]. unfold ev_token_bucket_get_tick_. rewrite (proj2 (Z.eqb_neq _ _)) by lia. by eexists.
Qed.

Lemma rl_put_bev w i b b' :
  rl_inv w -> bevs w !! i = Some b -> bev_base b' -> group_of b' = group_of b ->
  (forall d, bwg d b' = true -> bwg d b = true \/
     exists gi g, group_of b = Some gi /\ groups w !! gi = Some g /\ g_suspended d g = true) ->
  rl_inv (put_bev w i b').
Proof. intros [Hs Hl] Hi Hb Hg Hd. split; [by eapply put_bev_struct|]. intros gi g d Hgi. by eapply Hl. Qed.

Lemma bw_rlim d b r : bw d (set_rlim b r) = bw d b.
Proof. by destruct d. Qed.
Lemma bwg_rlim d b r : bwg d (set_rlim b r) = bwg d b.
Proof. by destruct d. Qed.

(** Time passes: the bucket only grows. *)
Lemma rlim_ok_update b r p c t :
  cfg r = Some (p, c) -> rlim_ok b r -> rlim_ok b (set_limit r (ev_token_bucket_update_ (limit r) c t).2).
Proof.
  unfold rlim_ok. intros Hc. simpl. rewrite Hc. intros (Hi & Hok & Hw & Hd). split_and!; auto using update_within.
  intros d. destruct (Hd d) as [H1 H2]. split; [|done]. intros Hl. apply H1.
  pose proof (update_grows d (limit r) c t Hok Hw). lia.
Qed.

Lemma update_buckets_ok e b r :
  rlim_ok b r -> cfg r <> None -> exists r', bufferevent_update_buckets e r = Done r' /\ rlim_ok b r' /\ group r' = group r.
Proof.
  intros Hr Hc. destruct (cfg r) as [[p c]|] eqn:Ec; [|done].
  assert (Hok : cfg_ok c) by (unfold rlim_ok in Hr; rewrite Ec in Hr; tauto).
  destruct (get_tick_ok e c Hok) as [t Et]. unfold bufferevent_update_buckets. rewrite Ec. simpl. rewrite Et. simpl.
  destruct (t =? _); eexists; (split; [reflexivity|]); [done|]. split; [by eapply rlim_ok_update|done].
Qed.

Lemma bev_base_rlim b r : rlim_ok b r -> bev_base (set_rlim b r).
Proof.
  unfold bev_base, rlim_ok. simpl. destruct (cfg r) as [[p c]|].
  - intros (? & ? & ? & H). by split_and!.
  - intros H d. rewrite bw_rlim. apply H.
Qed.

Lemma base_some b r : rate_limiting b = Some r -> bev_base b -> rlim_ok b r.
Proof. unfold bev_base. by intros ->. Qed.

Lemma group_of_rlim b r r' : rate_limiting b = Some r -> group r' = group r -> group_of (set_rlim b r') = group_of b.
Proof. unfold group_of. intros -> H. simpl. by rewrite H. Qed.

Lemma get_rlim_max_ok d e w i b :
  rl_inv w -> bevs w !! i = Some b -> exists m w', bufferevent_get_rlim_max_ d e w i = Done (m, w') /\ rl_inv w'.
Proof.
  intros Hinv Hi. unfold bufferevent_get_rlim_max_. rewrite Hi. simpl. pose proof (st_bev w (iv_struct w Hinv) i b Hi) as Hb.
  destruct (rate_limiting b) as [r|] eqn:Er; [|by eexists _, w].
  pose proof (base_some b r Er Hb) as Hr.
  assert (Hcfg : exists m r', (match cfg r with None => Done (match d with Rd => max_single_read b | Wr => max_single_write b end, r)
      | Some _ => r ← bufferevent_update_buckets e r; Done (lim d (limit r), r) end) = Done (m, r') /\ rlim_ok b r' /\ group r' = group r).
  { destruct (cfg r) eqn:Ec; [|by eexists _, r]. destruct (update_buckets_ok e b r Hr) as (r' & -> & H1 & H2); [congruence|].
    simpl. by eexists _, r'. }
  destruct Hcfg as (m & r' & -> & Hr' & Hg'). simpl. rewrite Hg'.
  pose proof (group_of_rlim b r r' Er Hg') as Hgo.
  destruct (group r) as [gi|] eqn:Eg; simpl.
  - assert (Hgi : group_of b = Some gi) by (unfold group_of; by rewrite Er).
    destruct (st_in w (iv_struct w Hinv) i b gi Hi Hgi) as (g & Hg & Hin). rewrite Hg. simpl.
    destruct (g_suspended d g) eqn:Es; simpl.
    + eexists _, _. split; [reflexivity|]. eapply rl_put_bev; eauto.
      * eapply base_flags; [apply rl_suspend|intros d'; apply bw_suspend_g|by apply bev_base_rlim].
      * unfold group_of. rewrite rl_suspend. exact Hgo.
      * intros d'. rewrite bwg_suspend, bwg_rlim. destruct (bool_decide_reflect (d' = d)) as [->|]; [|by left].
        intros _. right. by exists gi, g.
    + pose proof (gb_count g (st_grp w (iv_struct w Hinv) gi g Hg)) as Hn.
      rewrite (proj2 (Z.eqb_neq _ _)) by (rewrite Hn; destruct (members g); [set_solver|unfold zlen; simpl; lia]).
      simpl. eexists _, _. split; [reflexivity|]. by eapply rl_put_bev; eauto.
  - eexists _, _. split; [reflexivity|]. by eapply rl_put_bev; eauto.
Qed.

Lemma ssub_ok a n : - 2 ^ 63 <= a - n < 2 ^ 63 -> ssub a n = Done (a - n).
Proof. intros H. unfold ssub. by rewrite (proj2 (Z.leb_le _ _)), (proj2 (Z.ltb_lt _ _)) by lia. Qed.

Definition flip (d : dir) : dir := match d with Rd => Wr | Wr => Rd end.
Lemma flip_cases d d' : d' = d \/ d' = flip d.
Proof. destruct d, d'; auto. Qed.

(** The bucket of direction [d] is set to [l]. *)
Lemma rlim_spent d b r p c l :
  cfg r = Some (p, c) -> rlim_ok b r -> - 2 ^ 63 <= l <= maximum d c -> (l <= 0 -> bw d b = true) ->
  rlim_ok b (set_limit r (set_lim d (limit r) l)).
Proof.
  unfold rlim_ok. intros Hc. simpl. rewrite Hc. intros (Hi & Hok & Hw & Hd) Hl Hb. split_and!; auto.
  - intros d'. rewrite lim_set. destruct (decide (d' = d)) as [->|]; [lia|apply Hw].
  - intros d'. rewrite lim_set. split; [|apply Hd]. destruct (decide (d' = d)) as [->|]; [done|apply Hd].
Qed.

(** An exhausted direction is suspended and the timer started. *)
Lemma rlim_exhaust d b r p c l :
  cfg r = Some (p, c) -> rlim_ok b r -> - 2 ^ 63 <= l <= maximum d c ->
  rlim_ok (suspend_ d BEV_SUSPEND_BW b) (set_pending (set_limit r (set_lim d (limit r) l)) true).
Proof.
  unfold rlim_ok. intros Hc. simpl. rewrite Hc. intros (Hi & Hok & Hw & Hd) Hl. split_and!; auto.
  - intros d'. rewrite lim_set. destruct (decide (d' = d)) as [->|]; [lia|apply Hw].
  - intros d'. rewrite lim_set, bw_suspend. split; [|done].
    destruct (decide (d' = d)) as [->|]; [by rewrite bool_decide_true|]. intros H. by rewrite (proj1 (Hd d') H), orb_true_r.
Qed.

(** A direction with tokens again is released; the timer stops unless the
    other direction needs it. *)
Lemma rlim_release d b r p c l :
  cfg r = Some (p, c) -> rlim_ok b r -> 0 < l <= maximum d c ->
  let r := set_limit r (set_lim d (limit r) l) in
  rlim_ok (unsuspend_ d BEV_SUSPEND_BW b) (if has (susp (flip d) b) BEV_SUSPEND_BW then r else del_refill r).
Proof.
  intros Hc Hr Hl r0. assert (Hcfg : cfg (if has (susp (flip d) b) BEV_SUSPEND_BW then r0 else del_refill r0) = Some (p, c))
    by (by destruct (has _ _)).
  assert (Hlim : limit (if has (susp (flip d) b) BEV_SUSPEND_BW then r0 else del_refill r0) = set_lim d (limit r) l)
    by (by destruct (has _ _)).
  assert (Hini : refill_initialized (if has (susp (flip d) b) BEV_SUSPEND_BW then r0 else del_refill r0) = refill_initialized r)
    by (by destruct (has _ _)).
  unfold rlim_ok in *. rewrite Hcfg, Hlim, Hini. rewrite Hc in Hr. destruct Hr as (Hi & Hok & Hw & Hd). split_and!; auto.
  - intros d'. rewrite lim_set. destruct (decide (d' = d)) as [->|]; [lia|apply Hw].
  - intros d'. rewrite lim_set, bw_unsuspend. destruct (flip_cases d d') as [->| ->].
    + rewrite decide_True by done. rewrite bool_decide_true by done. simpl. split; [lia|done].
    + rewrite decide_False by (by destruct d). rewrite bool_decide_false by (by destruct d). simpl. split; [apply Hd|].
      intros H. unfold bw in H. rewrite H. by apply (Hd (flip d)).
Qed.

Lemma rlim_unsusp_set d b r r' :
  rlim_ok (unsuspend_ d BEV_SUSPEND_BW b) r -> r' = r -> bev_base (unsuspend_ d BEV_SUSPEND_BW (set_rlim b r')).
Proof.
  intros H ->. apply (base_flags (set_rlim (unsuspend_ d BEV_SUSPEND_BW b) r)); [by rewrite rl_unsuspend| |by apply bev_base_rlim].
  intros d'. rewrite bw_rlim, !bw_unsuspend, bw_rlim. done.
Qed.

Definition spend_fits (l : ev_token_bucket) (c : ev_token_bucket_cfg) (d : dir) (n : Z) : Prop :=
  - 2 ^ 63 <= lim d l - n <= maximum d c.

Lemma spend_own_ok d e b r n :
  bev_base b -> rate_limiting b = Some r -> add_ok e = true ->
  (forall p c, cfg r = Some (p, c) -> spend_fits (limit r) c d n) ->
  exists res b', spend_own d e b r n = Done (res, b') /\ bev_base b' /\ group_of b' = group_of b /\
    forall d', bwg d' b' = bwg d' b.
Proof.
  intros Hb Hr Ha Hn. pose proof (base_some b r Hr Hb) as Hok. unfold spend_own.
  destruct (cfg r) as [[p c]|] eqn:Hc; [|by exists 0, b]. specialize (Hn p c eq_refl). unfold spend_fits in Hn.
  assert (Hm : maximum d c <= EV_SSIZE_MAX) by (unfold rlim_ok in Hok; rewrite Hc in Hok; destruct Hok as (_ & [H _] & _); apply H).
  unfold EV_SSIZE_MAX in Hm. rewrite ssub_ok by lia. simpl. set (l := lim d (limit r) - n) in *.
  destruct (l <=? 0) eqn:El; zb.
  - unfold add_refill. rewrite Ha. eexists _, _. split; [reflexivity|]. split_and!.
    + apply bev_base_rlim. by eapply rlim_exhaust.
    + unfold group_of. simpl. by rewrite Hr.
    + intros d'. by rewrite bwg_rlim, bwg_suspend_b.
  - destruct (has (susp d b) BEV_SUSPEND_BW) eqn:Es.
    + eexists _, _. split; [reflexivity|]. split_and!.
      * by apply (rlim_unsusp_set d b _ _ (rlim_release d b r p c l Hc Hok ltac:(lia))).
      * unfold group_of. rewrite rl_unsuspend, Hr. cbn [set_rlim rate_limiting mbind option_bind]. by case_match.
      * intros d'. by rewrite bwg_unsuspend_b, bwg_rlim.
    + eexists _, _. split; [reflexivity|]. split_and!.
      * apply bev_base_rlim. eapply rlim_spent; eauto. lia.
      * unfold group_of. simpl. by rewrite Hr.
      * intros d'. by rewrite bwg_rlim.
Qed.

Lemma rl_groups w w' gi g' gs :
  rl_inv w -> struct w' -> groups w' = <[gi := g']> gs ->
  (forall gj h, gj <> gi -> gs !! gj = Some h -> groups w !! gj = Some h) ->
  (forall d, g_live g' d) -> rl_inv w'.
Proof.
  intros [_ Hl] Hs Hg Hgs Hd. split; [done|]. intros gj h d Hgj. rewrite Hg in Hgj.
  apply lookup_insert_Some in Hgj as [[_ <-]|[Hne Hgj]]; [done|]. eapply Hl, Hgs; eauto.
Qed.

Lemma put_group_other w gi g gj h : gj <> gi -> groups (put_group w gi g) !! gj = Some h -> groups w !! gj = Some h.
Proof. simpl. intros Hne. by rewrite lookup_insert_ne. Qed.

(** The bucket and the counters of a group change, its members do not. *)
Record same_group (g g' : bufferevent_rate_limit_group) : Prop := {
  sg_members : members g' = members g;
  sg_count : n_members g' = n_members g;
  sg_cfg : rate_limit_cfg g' = rate_limit_cfg g;
  sg_share : min_share g' = min_share g;
  sg_configured : configured_min_share g' = configured_min_share g;
  sg_susp : forall d, g_suspended d g' = g_suspended d g;
  sg_pend : forall d, g_pending d g' = g_pending d g
}.

Lemma same_group_struct w gi g g' :
  struct w -> groups w !! gi = Some g -> same_group g g' -> within (rate_limit_cfg g) (rate_limit g') ->
  struct (put_group w gi g').
Proof.
  intros Hst Hgi [H1 H2 H3 H4 H5 H6 H7] Hw. destruct (st_grp w Hst gi g Hgi). eapply put_group_struct; eauto.
  - split; rewrite ?H1, ?H2, ?H3, ?H4, ?H5; try done. intros d. by rewrite H6, H7.
  - intros d. by rewrite H6, H7.
Qed.

(** The walk that follows: suspend, release or nothing, whichever keeps an
    exhausted group suspended. *)
Lemma group_settle d e w gi g g' (susp_now unsusp_now : bool) :
  rl_inv w -> groups w !! gi = Some g -> same_group g g' -> within (rate_limit_cfg g) (rate_limit g') -> which_ok e g ->
  (forall d', d' <> d -> lim d' (rate_limit g) <= lim d' (rate_limit g')) ->
  (susp_now = false -> unsusp_now = true -> 0 < lim d (rate_limit g')) ->
  (susp_now = false -> unsusp_now = false -> g_live g' d) ->
  exists w', (if susp_now then bev_group_suspend_ d e (put_group w gi g') gi
     else if unsusp_now then bev_group_unsuspend_ d e (put_group w gi g') gi else Done (put_group w gi g')) = Done w' /\ rl_inv w'.
Proof.
  intros Hinv Hgi Hsg Hw Hwh Hoth H1 H2. pose proof (same_group_struct w gi g g' (iv_struct w Hinv) Hgi Hsg Hw) as Hst.
  assert (Hlk : groups (put_group w gi g') !! gi = Some g') by (simpl; apply lookup_insert_eq).
  assert (Hold : forall d', d' <> d -> g_live g' d').
  { intros d' Hne Hl. rewrite (sg_susp _ _ Hsg). apply (iv_live w Hinv gi g d' Hgi). specialize (Hoth d' Hne). lia. }
  assert (Hlim : forall d' s p, lim d' (rate_limit (set_g_flags d g' s p)) = lim d' (rate_limit g')) by (by destruct d).
  assert (Hwh' : which_ok e g') by (unfold which_ok in *; by rewrite (sg_count _ _ Hsg)).
  destruct susp_now; [|destruct unsusp_now].
  - destruct (group_suspend_ok d e _ gi g' Hst Hlk) as (w' & E & Hst' & Hg'). exists w'. split; [done|].
    eapply (rl_groups w w' gi); [done|done|exact Hg'|apply put_group_other|].
    intros d'. unfold g_live. rewrite Hlim, (proj1 (g_flags_set d' d g' true false)). destruct (decide (d' = d)); [done|by apply Hold].
  - destruct (group_unsuspend_ok d e _ gi g' Hst Hlk Hwh') as (w' & again & E & Hst' & Hg'). exists w'. split; [done|].
    eapply (rl_groups w w' gi); [done|done|exact Hg'|apply put_group_other|].
    intros d'. unfold g_live. rewrite Hlim, (proj1 (g_flags_set d' d g' false again)).
    destruct (decide (d' = d)) as [->|]; [specialize (H1 eq_refl eq_refl); lia|by apply Hold].
  - eexists. split; [reflexivity|]. eapply (rl_groups w (put_group w gi g') gi); [done|done|reflexivity|done|].
    intros d'. destruct (decide (d' = d)) as [->|]; auto.
Qed.

Lemma spend_group_ok d e w gi g n :
  rl_inv w -> groups w !! gi = Some g -> which_ok e g -> spend_fits (rate_limit g) (rate_limit_cfg g) d n ->
  exists w', spend_group d e w gi n = Done w' /\ rl_inv w'.
Proof.
  intros Hinv Hgi Hwh Hn. pose proof (st_grp w (iv_struct w Hinv) gi g Hgi) as Hb. unfold spend_group. rewrite Hgi. simpl.
  unfold spend_fits in Hn. destruct (gb_cfg g Hb) as [Hc _]. destruct (Hc d) as [_ Hm]. unfold EV_SSIZE_MAX in Hm.
  rewrite ssub_ok by lia. simpl. set (l := lim d (rate_limit g) - n) in *.
  set (g' := match d with Rd => _ | Wr => _ end).
  assert (Hsg : same_group g g') by (subst g'; by destruct d; split; try (intros []; done)).
  assert (Hl : rate_limit g' = set_lim d (rate_limit g) l) by (by destruct d).
  apply (group_settle d e w gi g g'); auto; rewrite ?Hl.
  - intros d'. rewrite lim_set. destruct (decide (d' = d)) as [->|]; [lia|apply Hb].
  - intros d' Hne. rewrite lim_set, decide_False by done. lia.
  - rewrite lim_set, decide_True by done. intros; zb; lia.
  - unfold g_live. rewrite Hl, lim_set, decide_True by done. intros; zb; lia.
Qed.

(** What a call may assume of the environment and of its arguments. *)
Definition spend_ok (d : dir) (e : env) (w : world) (i n : Z) : Prop :=
  exists b, bevs w !! i = Some b /\ add_ok e = true /\ forall r, rate_limiting b = Some r ->
    (forall p c, cfg r = Some (p, c) -> spend_fits (limit r) c d n) /\
    (forall gi g, group r = Some gi -> groups w !! gi = Some g ->
       which_ok e g /\ spend_fits (rate_limit g) (rate_limit_cfg g) d n).

Lemma decrement_buckets_ok d e w i n :
  rl_inv w -> spend_ok d e w i n -> exists res w', decrement_buckets_ d e w i n = Done (res, w') /\ rl_inv w'.
Proof.
  intros Hinv (b & Hi & Ha & Hn). unfold decrement_buckets_. rewrite Hi. simpl.
  destruct (rate_limiting b) as [r|] eqn:Er; [|by exists 0, w]. destruct (Hn r eq_refl) as [Hown Hgrp].
  destruct (spend_own_ok d e b r n (st_bev w (iv_struct w Hinv) i b Hi) Er Ha Hown) as (res & b' & -> & Hb' & Hg' & Hs').
  simpl. assert (Hinv' : rl_inv (put_bev w i b')).
  { eapply rl_put_bev; eauto; intros d'; rewrite Hs'; auto. }
  destruct (group r) as [gi|] eqn:Eg; [|by eexists _, _].
  destruct (st_in w (iv_struct w Hinv) i b gi Hi) as (g & Hg & _); [unfold group_of; by rewrite Er|].
  destruct (Hgrp gi g eq_refl Hg) as [Hwh Hfit].
  destruct (spend_group_ok d (holding e i) (put_bev w i b') gi g n Hinv' Hg Hwh Hfit) as (w' & -> & Hw'). by eexists _, _.
Qed.

Lemma refill_side_spec d b r :
  let '(b', again) := refill_side d b r in
  rate_limiting b' = rate_limiting b /\ (forall d', bwg d' b' = bwg d' b) /\ bw (flip d) b' = bw (flip d) b /\
  bw d b' = bw d b && (lim d (limit r) <=? 0) /\ again = bw d b'.
Proof.
  unfold refill_side. change (has (susp d b) BEV_SUSPEND_BW) with (bw d b). destruct (bw d b) eqn:Eb.
  - destruct (Z.ltb_spec 0 (lim d (limit r))).
    + rewrite rl_unsuspend. split_and!; auto; [intros; apply bwg_unsuspend_b| | |]; rewrite !bw_unsuspend.
      * by rewrite bool_decide_false by (by destruct d).
      * rewrite bool_decide_true by done. symmetry. by apply Z.leb_gt.
      * by rewrite bool_decide_true.
    + split_and!; auto. rewrite Eb. symmetry. by apply Z.leb_le.
  - by split_and!.
Qed.

Lemma refill_callback_ok e w i b :
  rl_inv w -> bevs w !! i = Some b -> add_ok e = true -> exists w', bev_refill_callback_ e w i = Done w' /\ rl_inv w'.
Proof.
  intros Hinv Hi Ha. unfold bev_refill_callback_. rewrite Hi. simpl.
  pose proof (st_bev w (iv_struct w Hinv) i b Hi) as Hb. destruct (rate_limiting b) as [r|] eqn:Er; [|by exists w].
  pose proof (base_some b r Er Hb) as Hr. unfold rlim_ok in Hr. destruct (cfg r) as [[p c]|] eqn:Ec; simpl.
  - destruct Hr as (Hini & Hok & Hw & Hd). destruct (get_tick_ok e c Hok) as [t ->]. simpl.
    pose proof (update_within (limit r) c t Hok Hw) as Hw'. set (l := (ev_token_bucket_update_ (limit r) c t).2) in *.
    set (r1 := set_limit _ l). pose proof (refill_side_spec Rd b r1) as HR. destruct (refill_side Rd b r1) as [b1 a1].
    destruct HR as (R1 & R2 & R3 & R4 & ->). pose proof (refill_side_spec Wr b1 r1) as HW. destruct (refill_side Wr b1 r1) as [b2 a2].
    destruct HW as (W1 & W2 & W3 & W4 & ->). simpl in R3, W3.
    unfold add_refill. rewrite Ha. eexists. split; [reflexivity|]. eapply rl_put_bev; eauto.
    + apply bev_base_rlim. unfold rlim_ok. replace (cfg _) with (Some (p, c)) by (by destruct (_ || _)).
      replace (limit _) with l by (by destruct (_ || _)). split_and!; [by destruct (_ || _)|done|done|].
      assert (Hbw : forall d, bw d b2 = bw d b && (lim d l <=? 0)).
      { intros []; [by rewrite W3, R4|]. by rewrite W4, R3. }
      intros d. rewrite Hbw. split.
      * intros Hl. rewrite (proj2 (Z.leb_le _ _) Hl), andb_true_r. apply Hd.
        pose proof (update_grows d (limit r) c t Hok Hw). fold l in H. lia.
      * intros H. rewrite <- Hbw in H. destruct d; [rewrite W3 in H|]; by rewrite H, ?orb_true_r.
    + unfold group_of. simpl. rewrite Er. simpl. by destruct (_ || _).
  - eexists. split; [reflexivity|]. eapply rl_put_bev; eauto.
    + apply bev_base_rlim. unfold rlim_ok. simpl. by rewrite Ec.
    + unfold group_of. simpl. by rewrite Er.
Qed.

Lemma g_limit_same g l : same_group g (set_g_limit g l).
Proof. split; try done; by intros []. Qed.

Lemma group_release_ok d e w gi g :
  rl_inv w -> groups w !! gi = Some g -> which_ok e g ->
  exists w' g', group_release d e w gi = Done w' /\ rl_inv w' /\ groups w' !! gi = Some g' /\ which_ok e g'.
Proof.
  intros Hinv Hgi Hwh. unfold group_release. rewrite Hgi. simpl.
  pose proof (st_grp w (iv_struct w Hinv) gi g Hgi) as Hb. destruct (g_pending d g || _) eqn:E; [|by exists w, g].
  destruct (group_unsuspend_ok d e w gi g (iv_struct w Hinv) Hgi Hwh) as (w' & again & -> & Hst & Hg).
  exists w', (set_g_flags d g false again). rewrite Hg, lookup_insert_eq. split_and!; auto; [|by destruct d].
  eapply (rl_groups w w' gi); [done|done|exact Hg|done|]. intros d'. unfold g_live.
  rewrite (proj1 (g_flags_set d' d g false again)). replace (rate_limit (set_g_flags d g false again)) with (rate_limit g) by (by destruct d).
  destruct (decide (d' = d)) as [->|]; [|by apply (iv_live w Hinv gi)].
  intros Hl. pose proof (iv_live w Hinv gi g d Hgi Hl) as Hs. pose proof (gb_flags g Hb d) as Hf. rewrite Hs in *. simpl in *.
  rewrite Hf in E. simpl in E. zb. pose proof (gb_share g Hb). lia.
Qed.

Lemma group_refill_ok e w gi g :
  rl_inv w -> groups w !! gi = Some g -> which_ok e g -> exists w', bev_group_refill_callback_ e w gi = Done w' /\ rl_inv w'.
Proof.
  intros Hinv Hgi Hwh. unfold bev_group_refill_callback_. rewrite Hgi. simpl.
  pose proof (st_grp w (iv_struct w Hinv) gi g Hgi) as Hb. destruct Hb as [_ _ Hc Hw _ _ _].
  destruct (get_tick_ok e _ Hc) as [t ->]. simpl. set (g1 := set_g_limit g _).
  assert (Hsg : same_group g g1) by apply g_limit_same.
  assert (Hinv1 : rl_inv (put_group w gi g1)).
  { eapply (rl_groups w _ gi g1); [done| |reflexivity|done|].
    - eapply same_group_struct; eauto; [apply Hinv|]. by apply update_within.
    - intros d Hl. rewrite (sg_susp _ _ Hsg). apply (iv_live w Hinv gi g d Hgi).
      pose proof (update_grows d (rate_limit g) (rate_limit_cfg g) t Hc Hw). simpl in Hl. lia. }
  destruct (group_release_ok Rd e _ gi g1 Hinv1) as (w2 & g2 & -> & Hinv2 & Hg2 & Hwh2); [simpl; by rewrite lookup_insert_eq|done|].
  simpl. destruct (group_release_ok Wr e w2 gi g2 Hinv2 Hg2 Hwh2) as (w3 & g3 & E3 & Hinv3 & _). by exists w3.
Qed.

Lemma get_limit_ok d e w i b :
  rl_inv w -> bevs w !! i = Some b -> exists m w', get_limit d e w i = Done (m, w') /\ rl_inv w'.
Proof.
  intros Hinv Hi. unfold get_limit. rewrite Hi. simpl. pose proof (st_bev w (iv_struct w Hinv) i b Hi) as Hb.
  destruct (rate_limiting b) as [r|] eqn:Er; [|by eexists _, w]. pose proof (base_some b r Er Hb) as Hr.
  destruct (cfg r) eqn:Ec; [|by eexists _, w].
  destruct (update_buckets_ok e b r Hr) as (r' & -> & Hr' & Hg'); [congruence|]. simpl. eexists _, _. split; [reflexivity|].
  eapply rl_put_bev; eauto. by eapply group_of_rlim.
Qed.

Lemma decrement_limit_ok d e w i b r p c n :
  rl_inv w -> bevs w !! i = Some b -> rate_limiting b = Some r -> cfg r = Some (p, c) -> add_ok e = true ->
  spend_fits (limit r) c d n -> exists res w', decrement_limit d e w i n = Done (res, w') /\ rl_inv w'.
Proof.
  intros Hinv Hi Er Hc Ha Hn. unfold decrement_limit. rewrite Hi. simpl. rewrite Er. simpl. rewrite Hc. simpl.
  pose proof (base_some b r Er (st_bev w (iv_struct w Hinv) i b Hi)) as Hok. unfold spend_fits in Hn.
  assert (Hm : maximum d c <= EV_SSIZE_MAX) by (unfold rlim_ok in Hok; rewrite Hc in Hok; destruct Hok as (_ & [H _] & _); apply H).
  assert (Hd : lim d (limit r) <= 0 -> bw d b = true) by (unfold rlim_ok in Hok; rewrite Hc in Hok; apply Hok).
  unfold EV_SSIZE_MAX in Hm. rewrite ssub_ok by lia. simpl. set (l := lim d (limit r) - n) in *. unfold add_refill. rewrite Ha.
  destruct (_ && (l <=? 0)) eqn:E1; [|destruct (_ && (0 <? l)) eqn:E2]; zb; (eexists _, _; split; [reflexivity|]);
    eapply rl_put_bev; eauto.
  - apply bev_base_rlim. by eapply rlim_exhaust.
  - unfold group_of. simpl. by rewrite Er.
  - intros d'. rewrite bwg_rlim, bwg_suspend_b. by left.
  - by apply (rlim_unsusp_set d b _ _ (rlim_release d b r p c l Hc Hok ltac:(lia))).
  - unfold group_of. rewrite rl_unsuspend, Er. cbn [set_rlim rate_limiting mbind option_bind]. by case_match.
  - intros d'. rewrite bwg_unsuspend_b, bwg_rlim. by left.
  - apply bev_base_rlim. apply (rlim_spent d b r p c l Hc Hok Hn). intros Hl. apply Hd. lia.
  - unfold group_of. simpl. by rewrite Er.
Qed.

Lemma group_decrement_ok d e w gi g n :
  rl_inv w -> groups w !! gi = Some g -> which_ok e g -> spend_fits (rate_limit g) (rate_limit_cfg g) d n ->
  exists w', group_decrement d e w gi n = Done w' /\ rl_inv w'.
Proof.
  intros Hinv Hgi Hwh Hn. pose proof (st_grp w (iv_struct w Hinv) gi g Hgi) as Hb. unfold group_decrement. rewrite Hgi. simpl.
  unfold spend_fits in Hn. destruct (gb_cfg g Hb) as [Hc _]. destruct (Hc d) as [_ Hm]. unfold EV_SSIZE_MAX in Hm.
  rewrite ssub_ok by lia. simpl. set (l := lim d (rate_limit g) - n) in *. pose proof (iv_live w Hinv gi g d Hgi) as Hlive.
  apply (group_settle d e w gi g (set_g_limit g (set_lim d (rate_limit g) l))); auto using g_limit_same; simpl.
  - intros d'. rewrite lim_set. destruct (decide (d' = d)) as [->|]; [lia|apply Hb].
  - intros d' Hne. rewrite lim_set, decide_False by done. lia.
  - rewrite lim_set, decide_True by done. intros; zb; lia.
  - unfold g_live in *. simpl. rewrite lim_set, decide_True by done. intros H1 H2 Hl.
    rewrite (sg_susp _ _ (g_limit_same g _)). apply Hlive. zb; lia.
Qed.

Lemma settle_spec d b r :
  let '(b', s) := settle d b r in
  rate_limiting b' = rate_limiting b /\ (forall d', bwg d' b' = bwg d' b) /\ bw (flip d) b' = bw (flip d) b /\
  bw d b' = s /\ s = (lim d (limit r) <=? 0).
Proof.
  unfold settle. destruct (Z.ltb_spec 0 (lim d (limit r))).
  - rewrite rl_unsuspend, !bw_unsuspend, bool_decide_false, bool_decide_true by (by destruct d). split_and!; auto.
    + intros. apply bwg_unsuspend_b.
    + symmetry. by apply Z.leb_gt.
  - rewrite rl_suspend, !bw_suspend, bool_decide_false, bool_decide_true by (by destruct d). split_and!; auto.
    + intros. apply bwg_suspend_b.
    + symmetry. by apply Z.leb_le.
Qed.

(** The new limit takes effect: both directions settled, the timer started if
    one of them is exhausted. *)
Lemma settle_both e b r p c :
  cfg r = Some (p, c) -> refill_initialized r = true -> refill_pending r = false -> cfg_ok c -> within c (limit r) -> add_ok e = true ->
  let '(b1, s1) := settle Rd b r in
  let '(b2, s2) := settle Wr b1 r in
  let b' := set_rlim b2 (if s1 || s2 then (add_refill e r).2 else r) in
  bev_base b' /\ group_of b' = group r /\ forall d, bwg d b' = bwg d b.
Proof.
  intros Hc Hini Hpend Hok Hw Ha. pose proof (settle_spec Rd b r) as HR. destruct (settle Rd b r) as [b1 s1].
  destruct HR as (R1 & R2 & R3 & R4 & ->). pose proof (settle_spec Wr b1 r) as HW. destruct (settle Wr b1 r) as [b2 s2].
  destruct HW as (W1 & W2 & W3 & W4 & ->). cbn [flip] in R3, W3. unfold add_refill. rewrite Ha. cbv zeta.
  set (again := (lim Rd (limit r) <=? 0) || (lim Wr (limit r) <=? 0)). cbn [snd]. set (r' := if again then _ else r).
  assert (Hr' : cfg r' = Some (p, c) /\ limit r' = limit r /\ refill_initialized r' = true /\ group r' = group r /\
    refill_pending r' = again) by (subst r'; destruct again; by split_and!).
  destruct Hr' as (H1 & H2 & H3 & H4 & H5). split_and!.
  - apply bev_base_rlim. unfold rlim_ok. rewrite H1, H2, H5. split_and!; auto.
    assert (Hbw : forall d, bw d b2 = (lim d (limit r) <=? 0)) by (intros []; [by rewrite W3, R4|done]).
    intros d. rewrite Hbw. split; [intros; by apply Z.leb_le|]. subst again. intros H. destruct d; by rewrite H, ?orb_true_r.
  - exact H4.
  - intros d. rewrite bwg_rlim, W2. apply R2.
Qed.

Lemma set_rate_limit_ok e w i b newcfg :
  rl_inv w -> bevs w !! i = Some b -> add_ok e = true -> (forall p c, newcfg = Some (p, c) -> cfg_ok c) ->
  exists res w', bufferevent_set_rate_limit e w i newcfg = Done (res, w') /\ rl_inv w'.
Proof.
  intros Hinv Hi Ha Hnew. unfold bufferevent_set_rate_limit. rewrite Hi. cbn [deref mbind outcome_bind].
  pose proof (st_bev w (iv_struct w Hinv) i b Hi) as Hb. destruct newcfg as [[p c]|].
  - specialize (Hnew p c eq_refl). destruct (get_tick_ok e c Hnew) as [t ->]. cbn [deref mbind outcome_bind].
    destruct (match rate_limiting b with Some r => _ | None => false end); [by exists 0, w|].
    assert (Hr0 : forall r0, (match rate_limiting b with Some r => Some r | None => if calloc_ok e then Some fresh_rlim else None end) = Some r0 ->
      group r0 = group_of b /\ (cfg r0 <> None -> refill_initialized r0 = true /\ forall d, - 2 ^ 63 <= lim d (limit r0))).
    { intros r0. unfold group_of, bev_base in *. destruct (rate_limiting b) as [r|].
      - intros [= <-]. split; [done|]. unfold rlim_ok in Hb. destruct (cfg r) as [[q c']|]; [|done]. intros _.
        split; [apply Hb|]. intros d. apply Hb.
      - destruct (calloc_ok e); [|done]. by intros [= <-]. }
    destruct (match rate_limiting b with Some r => Some r | None => _ end) as [r0|]; [|by exists (-1), w].
    destruct (Hr0 r0 eq_refl) as [Hg0 Hc0]. set (re := match cfg r0 with Some _ => true | None => false end).
    assert (Hw : within c (ev_token_bucket_init_ (limit r0) c t re)).
    { apply init_within; [done|]. subst re. intros Hre. apply Hc0. by destruct (cfg r0). }
    match goal with |- context [assert_c ?x] => assert (Hassert : re = true -> x = true) end.
    { simpl. subst re. intros Hre. apply Hc0. by destruct (cfg r0). }
    set (r1 := mkRlim _ _ _ _ _) in *.
    assert (Hr2 : exists r2, (if re then _ ← assert_c (refill_initialized r1); Done (del_refill r1) else Done r1) = Done r2 /\
      assign_refill r2 = assign_refill r1).
    { destruct re; [|by eexists]. rewrite Hassert by done. by eexists. }
    destruct Hr2 as (r2 & -> & E2). cbn [mbind outcome_bind]. rewrite E2.
    pose proof (settle_both e b (assign_refill r1) p c eq_refl eq_refl eq_refl Hnew Hw Ha) as HS.
    destruct (settle Rd b (assign_refill r1)) as [b1 s1]. destruct (settle Wr b1 (assign_refill r1)) as [b2 s2].
    destruct HS as (S1 & S2 & S3). eexists _, _. split; [reflexivity|]. eapply rl_put_bev; eauto.
    + by rewrite S2.
  - destruct (rate_limiting b) as [r|] eqn:Er; [|by exists 0, w]. eexists _, _. split; [reflexivity|]. eapply rl_put_bev; eauto.
    + apply bev_base_rlim. unfold rlim_ok. replace (cfg _) with (@None (Z * ev_token_bucket_cfg)) by (by case_match).
      intros d. rewrite !bw_unsuspend. by destruct d.
    + unfold group_of. cbn [set_rlim rate_limiting mbind option_bind]. rewrite Er. simpl. by case_match.
    + intros d. rewrite bwg_rlim, !bwg_unsuspend_b. by left.
Qed.

(** ** Membership *)

Lemma members_base g ms n :
  group_base g -> NoDup ms -> n = zlen ms -> group_base (set_members g ms n).
Proof. intros [] Hn ->. by split. Qed.

Lemma NoDup_filter_length_ne (l : list Z) i :
  NoDup l -> i ∈ l -> length l = S (length (filter (fun j => j <> i) l)).
Proof.
  intros Hnd. induction Hnd as [|x l Hx _ IH]; intros Hi; [set_solver|]. destruct (decide (x = i)) as [->|Hne].
  - rewrite filter_cons_False by tauto. simpl. f_equal. clear IH Hi. induction l as [|y l IHl]; [done|].
    rewrite filter_cons_True by set_solver. simpl. f_equal. apply IHl. set_solver.
  - rewrite filter_cons_True by done. simpl. f_equal. apply IH. set_solver.
Qed.

Lemma leave_struct w i b b' gi g :
  struct w -> bevs w !! i = Some b -> group_of b = Some gi -> groups w !! gi = Some g ->
  bev_base b' -> group_of b' = None -> (forall d, bwg d b' = false) ->
  struct (put_bev (put_group w gi (set_members g (filter (fun j => j <> i) (members g)) (n_members g - 1))) i b').
Proof.
  intros Hst Hi Hgb Hgi Hb Hg' Hf. pose proof (st_grp w Hst gi g Hgi) as Hgok.
  assert (Hin : i ∈ members g) by (destruct (st_in w Hst i b gi Hi Hgb) as (g0 & ? & ?); by simplify_eq).
  split; simpl.
  - intros j c Hj. apply lookup_insert_Some in Hj as [[_ <-]|[_ Hj]]; [done|]. by eapply st_bev.
  - intros j c d Hj Hd. apply lookup_insert_Some in Hj as [[<- <-]|[_ Hj]]; [by rewrite Hf in Hd|].
    destruct (st_susp w Hst j c d Hj Hd) as (gj & h & H1 & H2 & H3). destruct (decide (gi = gj)) as [<-|].
    + eexists gi, _. rewrite lookup_insert_eq. split_and!; [done|reflexivity|]. simplify_eq. by destruct d.
    + exists gj, h. by rewrite lookup_insert_ne.
  - intros j c gj Hj Hgj. apply lookup_insert_Some in Hj as [[<- <-]|[Hne Hj]]; [by rewrite Hg' in Hgj|].
    destruct (st_in w Hst j c gj Hj Hgj) as (h & H1 & H2). destruct (decide (gi = gj)) as [<-|].
    + eexists. rewrite lookup_insert_eq. split; [reflexivity|]. simplify_eq. simpl. apply list_elem_of_filter. auto.
    + exists h. by rewrite lookup_insert_ne.
  - intros gj h j Hgj Hj. apply lookup_insert_Some in Hgj as [[<- <-]|[Hne Hgj]].
    + simpl in Hj. apply list_elem_of_filter in Hj as [Hne Hj]. rewrite lookup_insert_ne by done. by eapply st_mem.
    + destruct (st_mem w Hst gj h j Hgj Hj) as (c & Hc & Hgc). exists c. rewrite lookup_insert_ne; [done|].
      intros <-. simplify_eq.
  - intros gj h Hgj. apply lookup_insert_Some in Hgj as [[_ <-]|[_ Hgj]]; [|by eapply st_grp].
    apply members_base; [done|by apply NoDup_filter, Hgok|]. rewrite (gb_count g Hgok). unfold zlen.
    pose proof (NoDup_filter_length_ne (members g) i (gb_nodup g Hgok) Hin). lia.
Qed.

Lemma join_struct w i b b' gi g :
  struct w -> bevs w !! i = Some b -> group_of b = None -> groups w !! gi = Some g ->
  bev_base b' -> group_of b' = Some gi -> (forall d, bwg d b' = true -> g_suspended d g = true) ->
  struct (put_bev (put_group w gi (set_members g (i :: members g) (n_members g + 1))) i b').
Proof.
  intros Hst Hi Hgb Hgi Hb Hg' Hf. pose proof (st_grp w Hst gi g Hgi) as Hgok.
  assert (Hnin : i ∉ members g) by (intros Hin; destruct (st_mem w Hst gi g i Hgi Hin) as (b0 & ? & ?); by simplify_eq).
  split; simpl.
  - intros j c Hj. apply lookup_insert_Some in Hj as [[_ <-]|[_ Hj]]; [done|]. by eapply st_bev.
  - intros j c d Hj Hd. apply lookup_insert_Some in Hj as [[<- <-]|[_ Hj]].
    { eexists gi, _. rewrite lookup_insert_eq. split_and!; [done|reflexivity|]. specialize (Hf d Hd). destruct d; simpl in *; by rewrite Hf. }
    destruct (st_susp w Hst j c d Hj Hd) as (gj & h & H1 & H2 & H3). destruct (decide (gi = gj)) as [<-|].
    + eexists gi, _. rewrite lookup_insert_eq. split_and!; [done|reflexivity|]. simplify_eq. by destruct d.
    + exists gj, h. by rewrite lookup_insert_ne.
  - intros j c gj Hj Hgj. apply lookup_insert_Some in Hj as [[<- <-]|[Hne Hj]].
    { simplify_eq. eexists. rewrite lookup_insert_eq. split; [reflexivity|]. simpl. set_solver. }
    destruct (st_in w Hst j c gj Hj Hgj) as (h & H1 & H2). destruct (decide (gi = gj)) as [<-|].
    + eexists. rewrite lookup_insert_eq. split; [reflexivity|]. simplify_eq. simpl. set_solver.
    + exists h. by rewrite lookup_insert_ne.
  - intros gj h j Hgj Hj. apply lookup_insert_Some in Hgj as [[<- <-]|[Hne Hgj]].
    + simpl in Hj. destruct (decide (i = j)) as [<-|]; [exists b'; by rewrite lookup_insert_eq|].
      rewrite lookup_insert_ne by done. eapply st_mem; eauto. set_solver.
    + destruct (st_mem w Hst gj h j Hgj Hj) as (c & Hc & Hgc). exists c. rewrite lookup_insert_ne; [done|]. intros <-. simplify_eq.
  - intros gj h Hgj. apply lookup_insert_Some in Hgj as [[_ <-]|[_ Hgj]]; [|by eapply st_grp].
    apply members_base; [done|constructor; [done|apply Hgok]|]. rewrite (gb_count g Hgok), zlen_cons. lia.
Qed.

Lemma members_live g ms n d : g_live g d -> g_live (set_members g ms n) d.
Proof. by destruct d. Qed.

Lemma ungroup_flags b :
  let b' := unsuspend_ Wr BEV_SUSPEND_BW_GROUP (unsuspend_ Rd BEV_SUSPEND_BW_GROUP b) in
  rate_limiting b' = rate_limiting b /\ (forall d, bw d b' = bw d b) /\ forall d, bwg d b' = false.
Proof.
  cbv zeta. rewrite !rl_unsuspend. split_and!; auto; intros d; [by rewrite !bw_unsuspend_g|].
  rewrite !bwg_unsuspend. by destruct d.
Qed.

Lemma remove_ok w i b :
  rl_inv w -> bevs w !! i = Some b ->
  exists w', bufferevent_remove_from_rate_limit_group w i = Done w' /\ rl_inv w' /\ dom (groups w') = dom (groups w) /\
    exists b', bevs w' !! i = Some b' /\ group_of b' = None /\ (rate_limiting b <> None -> rate_limiting b' <> None).
Proof.
  intros Hinv Hi. unfold bufferevent_remove_from_rate_limit_group, bufferevent_remove_from_rate_limit_group_internal_.
  rewrite Hi. cbn [deref mbind outcome_bind]. pose proof (st_bev w (iv_struct w Hinv) i b Hi) as Hb.
  assert (Hsame : group_of b = None -> let b' := unsuspend_ Wr BEV_SUSPEND_BW_GROUP (unsuspend_ Rd BEV_SUSPEND_BW_GROUP b) in
    rl_inv (put_bev w i b') /\ group_of b' = None).
  { intros Hg b'. destruct (ungroup_flags b) as (H1 & H2 & H3). fold b' in H1, H2, H3.
    assert (Hg' : group_of b' = None) by (unfold group_of in *; by rewrite H1). split; [|done].
    eapply rl_put_bev; eauto; [by eapply base_flags|congruence|]. intros d. by rewrite H3. }
  destruct (rate_limiting b) as [r|] eqn:Er; [destruct (group r) as [gi|] eqn:Eg|].
  - assert (Hgb : group_of b = Some gi) by (unfold group_of; by rewrite Er).
    destruct (st_in w (iv_struct w Hinv) i b gi Hi Hgb) as (g & Hgi & _). rewrite Hgi. cbn [deref mbind outcome_bind].
    destruct (ungroup_flags (set_rlim b (set_group r None))) as (H1 & H2 & H3). clear Hsame.
    set (b' := unsuspend_ Wr _ _) in *.
    assert (Hb' : bev_base b').
    { apply (base_flags (set_rlim b (set_group r None))); auto. apply bev_base_rlim. exact (base_some b r Er Hb). }
    assert (Hg' : group_of b' = None) by (unfold group_of; by rewrite H1).
    eexists. split; [reflexivity|]. split_and!.
    + eapply (rl_groups w _ gi); [done| |reflexivity|done|].
      * by eapply leave_struct; [apply Hinv|..].
      * intros d. apply members_live. by eapply iv_live.
    + simpl. rewrite dom_insert_lookup_L; [done|by eexists].
    + exists b'. simpl. rewrite lookup_insert_eq. split_and!; auto. rewrite H1. done.
  - destruct Hsame as [H1 H2]; [unfold group_of; by rewrite Er|]. eexists. split; [reflexivity|]. split_and!; [done|done|].
    eexists. simpl. rewrite lookup_insert_eq. split_and!; [reflexivity|done|]. by rewrite !rl_unsuspend, Er.
  - destruct Hsame as [H1 H2]; [unfold group_of; by rewrite Er|]. eexists. split; [reflexivity|]. split_and!; [done|done|].
    eexists. simpl. rewrite lookup_insert_eq. by split_and!.
Qed.

Lemma join_flags b (s1 s2 : bool) :
  let b1 := if s1 then suspend_ Rd BEV_SUSPEND_BW_GROUP b else b in
  let b' := if s2 then suspend_ Wr BEV_SUSPEND_BW_GROUP b1 else b1 in
  rate_limiting b' = rate_limiting b /\ (forall d, bw d b' = bw d b) /\
  (bwg Rd b' = true -> s1 = true \/ bwg Rd b = true) /\ (bwg Wr b' = true -> s2 = true \/ bwg Wr b = true).
Proof.
  destruct s1, s2; cbv zeta iota; rewrite ?rl_suspend; split_and!; auto; try (intros d; by rewrite ?bw_suspend_g);
    rewrite ?bwg_suspend; auto.
Qed.

Lemma add_ok_ e w i b gi g :
  rl_inv w -> bevs w !! i = Some b -> groups w !! gi = Some g ->
  exists res w', bufferevent_add_to_rate_limit_group e w i gi = Done (res, w') /\ rl_inv w'.
Proof.
  intros Hinv Hi Hgi. unfold bufferevent_add_to_rate_limit_group. rewrite Hi. cbn [deref mbind outcome_bind].
  pose proof (st_bev w (iv_struct w Hinv) i b Hi) as Hb.
  assert (Hr : forall r, (match rate_limiting b with Some r => Some r | None => if calloc_ok e then Some (assign_refill fresh_rlim) else None end) = Some r ->
    rlim_ok b r /\ group r = group_of b).
  { unfold bev_base, group_of in *. destruct (rate_limiting b) as [r0|]; [by intros r [= <-]|].
    destruct (calloc_ok e); [|done]. by intros r [= <-]. }
  destruct (match rate_limiting b with Some r => Some r | None => _ end) as [r|]; [|by exists (-1), w].
  destruct (Hr r eq_refl) as [Hrok Hrg]. clear Hr.
  assert (Hinv1 : rl_inv (put_bev w i (set_rlim b r))) by (by eapply rl_put_bev; eauto).
  destruct (bool_decide (group r = Some gi)); [by eexists _, _|].
  assert (Hout : exists w2 b2 r2, (match group r with None => Done (put_bev w i (set_rlim b r))
      | Some _ => bufferevent_remove_from_rate_limit_group (put_bev w i (set_rlim b r)) i end) = Done w2 /\
    rl_inv w2 /\ bevs w2 !! i = Some b2 /\ rate_limiting b2 = Some r2 /\ group r2 = None /\ is_Some (groups w2 !! gi)).
  { assert (Hlk : bevs (put_bev w i (set_rlim b r)) !! i = Some (set_rlim b r)) by (simpl; apply lookup_insert_eq).
    destruct (group r) as [gj|] eqn:Eg.
    - destruct (remove_ok _ i _ Hinv1 Hlk) as (w2 & -> & Hinv2 & Hdom & b2 & Hb2 & Hg2 & Hr2).
      destruct (rate_limiting b2) as [r2|] eqn:E2; [|by destruct Hr2]. exists w2, b2, r2. split_and!; auto.
      + unfold group_of in Hg2. by rewrite E2 in Hg2.
      + apply elem_of_dom. rewrite Hdom. simpl. apply elem_of_dom. by eexists.
    - eexists _, _, r. split_and!; eauto. }
  destruct Hout as (w2 & b2 & r2 & -> & Hinv2 & Hi2 & Hr2 & Hg2 & [g2 Hgi2]). cbn [mbind outcome_bind].
  rewrite Hi2. cbn [deref mbind outcome_bind]. rewrite Hr2. cbn [deref mbind outcome_bind]. rewrite Hgi2. cbn [deref mbind outcome_bind].
  destruct (join_flags (set_rlim b2 (set_group r2 (Some gi))) (g_suspended Rd g2) (g_suspended Wr g2)) as (J1 & J2 & J3 & J4).
  set (b' := if g_suspended Wr g2 then _ else _) in *. eexists _, _. split; [reflexivity|].
  assert (Hnone : group_of b2 = None) by (unfold group_of; by rewrite Hr2).
  assert (Hnog : forall d, bwg d b2 = false).
  { intros d. destruct (bwg d b2) eqn:E; [|done]. destruct (st_susp w2 (iv_struct w2 Hinv2) i b2 d Hi2 E) as (? & ? & ? & _). congruence. }
  eapply (rl_groups w2 _ gi); [done| |reflexivity|done|].
  - eapply join_struct; eauto; [apply Hinv2| | |].
    + apply (base_flags (set_rlim b2 (set_group r2 (Some gi)))); auto. apply bev_base_rlim.
      exact (base_some b2 r2 Hr2 (st_bev w2 (iv_struct w2 Hinv2) i b2 Hi2)).
    + unfold group_of. by rewrite J1.
    + intros []; [intros H; destruct (J3 H)|intros H; destruct (J4 H)]; auto; exfalso.
      * rewrite bwg_rlim, Hnog in *. done.
      * rewrite bwg_rlim, Hnog in *. done.
  - intros d. apply members_live. by eapply iv_live.
Qed.

(** ** Group configuration *)

(** Everything the invariant asks of a group except its shares. *)
Lemma min_share_ok g share :
  NoDup (members g) -> n_members g = zlen (members g) -> cfg_ok (rate_limit_cfg g) -> within (rate_limit_cfg g) (rate_limit g) ->
  (forall d, g_suspended d g && g_pending d g = false) -> 1 <= share <= EV_SSIZE_MAX ->
  let g' := (bufferevent_rate_limit_group_set_min_share g share).2 in
  group_base g' /\ members g' = members g /\ rate_limit g' = rate_limit g /\
  forall d, g_suspended d g' = g_suspended d g /\ g_pending d g' = g_pending d g.
Proof.
  intros Hnd Hn Hc Hw Hf Hs. unfold bufferevent_rate_limit_group_set_min_share. rewrite (proj2 (Z.ltb_ge _ _)) by lia.
  cbv zeta. simpl. split_and!; auto. destruct Hc as [Hr Hms]. pose proof (Hr Rd) as HR. pose proof (Hr Wr) as HW.
  simpl in HR, HW. split; auto; simpl; try done. repeat case_test; zb; lia.
Qed.

Lemma empty_group_ok w gi g' :
  rl_inv w -> groups w !! gi = None -> group_base g' -> members g' = [] -> (forall d, 0 < lim d (rate_limit g')) ->
  rl_inv (put_group w gi g').
Proof.
  intros [[S1 S2 S3 S4 S5] Hlive] Hno Hb Hm Hl. split; [split|]; simpl.
  - exact S1.
  - intros j b d Hj Hd. destruct (S2 j b d Hj Hd) as (gj & h & H1 & H2 & H3). exists gj, h. rewrite lookup_insert_ne; [done|congruence].
  - intros j b gj Hj Hgj. destruct (S3 j b gj Hj Hgj) as (h & H1 & H2). exists h. rewrite lookup_insert_ne; [done|congruence].
  - intros gj h j Hgj Hj. apply lookup_insert_Some in Hgj as [[_ <-]|[_ Hgj]]; [rewrite Hm in Hj; by apply not_elem_of_nil in Hj|by eapply S4].
  - intros gj h Hgj. apply lookup_insert_Some in Hgj as [[_ <-]|[_ Hgj]]; [done|by eapply S5].
  - intros gj h d Hgj. apply lookup_insert_Some in Hgj as [[_ <-]|[_ Hgj]]; [|by eapply Hlive].
    intros Hle. specialize (Hl d). lia.
Qed.

Lemma group_new_ok e w gi c :
  rl_inv w -> groups w !! gi = None -> cfg_ok c -> exists o, bufferevent_rate_limit_group_new e w gi c = Done o /\
    forall w', o = Some w' -> rl_inv w'.
Proof.
  intros Hinv Hno Hc. unfold bufferevent_rate_limit_group_new. destruct (get_tick_ok e c Hc) as [t ->]. cbn [mbind outcome_bind].
  destruct (calloc_ok e); [|by eexists]. eexists. split; [reflexivity|]. intros w' Hw'.
  apply (inj Some) in Hw'. subst w'.
  match goal with |- context [bufferevent_rate_limit_group_set_min_share ?x 64] => set (g := x) end.
  destruct (min_share_ok g 64) as (Hb & Hm & Hl & _); try done;
    [apply NoDup_nil_2|by apply (init_within (mkBucket 0 0 0) c t false)|by intros []|].
  apply empty_group_ok; auto. intros d. rewrite Hl. destruct Hc as [Hc _]. destruct (Hc d) as [? _]. destruct d; simpl in *; lia.
Qed.

Lemma set_cfg_ok e w gi g c :
  rl_inv w -> groups w !! gi = Some g -> cfg_ok c -> exists w', bufferevent_rate_limit_group_set_cfg e w gi c = Done w' /\ rl_inv w'.
Proof.
  intros Hinv Hgi Hc. unfold bufferevent_rate_limit_group_set_cfg. rewrite Hgi. cbn [deref mbind outcome_bind].
  eexists. split; [reflexivity|]. destruct (st_grp w (iv_struct w Hinv) gi g Hgi) as [B1 B2 B3 B4 B5 B6 B7].
  set (g1 := mkGroup _ _ _ _ _ _ _ _ _ _ _ _ _).
  assert (Hlim : forall d, lim d (rate_limit g1) = Z.min (maximum d c) (lim d (rate_limit g))).
  { intros d. simpl. rewrite !clip_spec. by destruct d. }
  destruct (min_share_ok g1 (configured_min_share g1)) as (Hb & Hm & Hl & Hf); auto.
  { intros d. rewrite Hlim. destruct (B4 d). destruct Hc as [Hc _]. destruct (Hc d). simpl. lia. }
  eapply (rl_groups w _ gi); [done| |reflexivity|done|].
  - eapply put_group_struct; eauto; [apply Hinv|]. intros d. destruct (Hf d) as [-> ->]. by destruct d.
  - intros d Hle. rewrite Hl, Hlim in Hle. destruct (Hf d) as [-> _]. destruct Hc as [Hc _]. destruct (Hc d) as [? _].
    assert (Hs : g_suspended d g = true) by (apply (iv_live w Hinv gi g d Hgi); lia). by destruct d.
Qed.

Lemma set_share_ok w gi g share :
  rl_inv w -> groups w !! gi = Some g -> 1 <= share <= EV_SSIZE_MAX ->
  rl_inv (put_group w gi (bufferevent_rate_limit_group_set_min_share g share).2).
Proof.
  intros Hinv Hgi Hs. destruct (st_grp w (iv_struct w Hinv) gi g Hgi) as [B1 B2 B3 B4 B5 B6 B7].
  destruct (min_share_ok g share) as (Hb & Hm & Hl & Hf); auto.
  eapply (rl_groups w _ gi); [done| |reflexivity|done|].
  - eapply put_group_struct; eauto; [apply Hinv|]. intros d. by destruct (Hf d) as [-> ->].
  - intros d Hle. rewrite Hl in Hle. destruct (Hf d) as [-> _]. by apply (iv_live w Hinv gi g d Hgi).
Qed.

Lemma group_free_ok w gi g :
  rl_inv w -> groups w !! gi = Some g -> n_members g = 0 -> exists w', bufferevent_rate_limit_group_free w gi = Done w' /\ rl_inv w'.
Proof.
  intros [[S1 S2 S3 S4 S5] Hlive] Hgi Hn. unfold bufferevent_rate_limit_group_free. rewrite Hgi. cbn [deref mbind outcome_bind].
  rewrite Hn. cbn [Z.eqb assert_c]. eexists. split; [reflexivity|].
  assert (Hnil : members g = []) by (apply zlen_0_nil; by rewrite <- (gb_count g (S5 gi g Hgi))).
  assert (Hnone : forall j b, bevs w !! j = Some b -> group_of b <> Some gi).
  { intros j b Hj Hg. destruct (S3 j b gi Hj Hg) as (h & H1 & H2). simplify_eq. rewrite Hnil in H2. by apply not_elem_of_nil in H2. }
  split; [split|]; simpl.
  - exact S1.
  - intros j b d Hj Hd. destruct (S2 j b d Hj Hd) as (gj & h & H1 & H2 & H3). exists gj, h. rewrite lookup_delete_ne; [done|].
    intros <-. by eapply Hnone.
  - intros j b gj Hj Hgj. destruct (S3 j b gj Hj Hgj) as (h & H1 & H2). exists h. rewrite lookup_delete_ne; [done|].
    intros <-. by eapply Hnone.
  - intros gj h j Hgj. apply lookup_delete_Some in Hgj as [_ Hgj]. by apply S4.
  - intros gj h Hgj. apply lookup_delete_Some in Hgj as [_ Hgj]. by eapply S5.
  - intros gj h d Hgj. apply lookup_delete_Some in Hgj as [_ Hgj]. by eapply Hlive.
Qed.

(** ** Any sequence of calls *)

Inductive rl_op :=
| OGetMax (d : dir) (i : Z)
| OSpend (d : dir) (i n : Z)
| ORefill (i : Z)
| OSetLimit (i : Z) (c : option (Z * ev_token_bucket_cfg))
| OGetLimit (d : dir) (i : Z)
| ODecrement (d : dir) (i n : Z)
| OJoin (i gi : Z)
| OLeave (i : Z)
| OGroupNew (gi : Z) (c : ev_token_bucket_cfg)
| OGroupCfg (gi : Z) (c : ev_token_bucket_cfg)
| OGroupShare (gi share : Z)
| OGroupRefill (gi : Z)
| OGroupDecrement (d : dir) (gi n : Z)
| OGroupFree (gi : Z).

Definition run_op (e : env) (w : world) (o : rl_op) : outcome world :=
  match o with
  | OGetMax d i => snd <$> bufferevent_get_rlim_max_ d e w i
  | OSpend d i n => snd <$> decrement_buckets_ d e w i n
  | ORefill i => bev_refill_callback_ e w i
  | OSetLimit i c => snd <$> bufferevent_set_rate_limit e w i c
  | OGetLimit d i => snd <$> get_limit d e w i
  | ODecrement d i n => snd <$> decrement_limit d e w i n
  | OJoin i gi => snd <$> bufferevent_add_to_rate_limit_group e w i gi
  | OLeave i => bufferevent_remove_from_rate_limit_group w i
  | OGroupNew gi c => (fun o => default w o) <$> bufferevent_rate_limit_group_new e w gi c
  | OGroupCfg gi c => bufferevent_rate_limit_group_set_cfg e w gi c
  | OGroupShare gi share =>
      g ← deref (groups w !! gi); Done (put_group w gi (bufferevent_rate_limit_group_set_min_share g share).2)
  | OGroupRefill gi => bev_group_refill_callback_ e w gi
  | OGroupDecrement d gi n => group_decrement d e w gi n
  | OGroupFree gi => bufferevent_rate_limit_group_free w gi
  end.

(** The objects exist, new configurations come from [ev_token_bucket_cfg_new],
    the accounted amounts keep the buckets within their type and their burst,
    [event_add] succeeds and the random position is a member's. *)
Definition op_ok (e : env) (w : world) (o : rl_op) : Prop :=
  add_ok e = true /\
  match o with
  | OGetMax _ i | ORefill i | OGetLimit _ i | OLeave i => is_Some (bevs w !! i)
  | OSpend d i n => spend_ok d e w i n
  | OSetLimit i c => is_Some (bevs w !! i) /\ forall p c', c = Some (p, c') -> cfg_ok c'
  | ODecrement d i n => exists b r p c, bevs w !! i = Some b /\ rate_limiting b = Some r /\ cfg r = Some (p, c) /\
      spend_fits (limit r) c d n
  | OJoin i gi => is_Some (bevs w !! i) /\ is_Some (groups w !! gi)
  | OGroupNew gi c => groups w !! gi = None /\ cfg_ok c
  | OGroupCfg gi c => is_Some (groups w !! gi) /\ cfg_ok c
  | OGroupShare gi share => is_Some (groups w !! gi) /\ 1 <= share <= EV_SSIZE_MAX
  | OGroupRefill gi => exists g, groups w !! gi = Some g /\ which_ok e g
  | OGroupDecrement d gi n => exists g, groups w !! gi = Some g /\ which_ok e g /\
      spend_fits (rate_limit g) (rate_limit_cfg g) d n
  | OGroupFree gi => exists g, groups w !! gi = Some g /\ n_members g = 0
  end.

Lemma run_op_ok e w o : rl_inv w -> op_ok e w o -> exists w', run_op e w o = Done w' /\ rl_inv w'.
Proof.
  intros Hinv [Ha Ho]. destruct o; simpl in *.
  - destruct Ho as [b Hb]. destruct (get_rlim_max_ok d e w i b Hinv Hb) as (m & w' & -> & ?). by exists w'.
  - destruct (decrement_buckets_ok d e w i n Hinv Ho) as (m & w' & -> & ?). by exists w'.
  - destruct Ho as [b Hb]. exact (refill_callback_ok e w i b Hinv Hb Ha).
  - destruct Ho as [[b Hb] Hc]. destruct (set_rate_limit_ok e w i b c Hinv Hb Ha Hc) as (m & w' & -> & ?). by exists w'.
  - destruct Ho as [b Hb]. destruct (get_limit_ok d e w i b Hinv Hb) as (m & w' & -> & ?). by exists w'.
  - destruct Ho as (b & r & p & c & H1 & H2 & H3 & H4).
    destruct (decrement_limit_ok d e w i b r p c n Hinv H1 H2 H3 Ha H4) as (m & w' & -> & ?). by exists w'.
  - destruct Ho as [[b Hb] [g Hg]]. destruct (add_ok_ e w i b gi g Hinv Hb Hg) as (m & w' & -> & ?). by exists w'.
  - destruct Ho as [b Hb]. destruct (remove_ok w i b Hinv Hb) as (w' & -> & ? & _). by exists w'.
  - destruct Ho as [Hno Hc]. destruct (group_new_ok e w gi c Hinv Hno Hc) as ([w'|] & -> & H); simpl; [|by exists w].
    exists w'. split; [done|]. by apply H.
  - destruct Ho as [[g Hg] Hc]. exact (set_cfg_ok e w gi g c Hinv Hg Hc).
  - destruct Ho as [[g Hg] Hs]. rewrite Hg. simpl. eexists. split; [reflexivity|]. by apply set_share_ok.
  - destruct Ho as (g & Hg & Hw). exact (group_refill_ok e w gi g Hinv Hg Hw).
  - destruct Ho as (g & Hg & Hw & Hf). exact (group_decrement_ok d e w gi g n Hinv Hg Hw Hf).
  - destruct Ho as (g & Hg & Hn). exact (group_free_ok w gi g Hinv Hg Hn).
Qed.

(** Calls one after the other, each under the conditions of [op_ok]. *)
Inductive rl_steps (w : world) : world -> Prop :=
| rs_nil : rl_steps w w
| rs_snoc e o w1 w2 : rl_steps w w1 -> op_ok e w1 o -> run_op e w1 o = Done w2 -> rl_steps w w2.

(** The world before any call: bufferevents without rate limits, no group. *)
Definition initial (w : world) : Prop :=
  groups w = ∅ /\ forall i b, bevs w !! i = Some b -> rate_limiting b = None /\ forall d, bw d b = false /\ bwg d b = false.

Lemma initial_inv w : initial w -> rl_inv w.
Proof.
  intros [Hg Hb]. split; [split|]; try (intros *; rewrite Hg; by rewrite lookup_empty).
  - intros i b Hi. destruct (Hb i b Hi) as [Hr Hf]. unfold bev_base. rewrite Hr. intros d. apply Hf.
  - intros i b d Hi Hd. destruct (Hb i b Hi) as [_ Hf]. destruct (Hf d). congruence.
  - intros i b gi Hi Hgi. destruct (Hb i b Hi) as [Hr _]. unfold group_of in Hgi. by rewrite Hr in Hgi.
Qed.

(** C28: after any sequence of rate-limiting calls, timer callbacks and group operations made under the
    conditions of [op_ok] - the objects exist, a configuration is one of [ev_token_bucket_cfg_new] with a tick of
    at least a millisecond, [event_add] succeeds, and an accounted amount, which may be negative, neither leaves
    [ev_ssize_t] nor lifts the bucket above its burst ([manual_refill_leaves_burst] is what happens else) - the
    next such call is defined, and: every bucket is within its burst; a direction whose bucket is exhausted is suspended; while a direction
    is suspended for its bucket the refill timer is pending, so the suspension is not forgotten; a bufferevent
    suspended for its group is a member of a group that is suspended or will retry the release; and an exhausted
    group is suspended. *)
Theorem rate_limit_invariant w0 w :
  initial w0 -> rl_steps w0 w ->
  (forall e o, op_ok e w o -> exists w', run_op e w o = Done w') /\
  (forall i b r p c d, bevs w !! i = Some b -> rate_limiting b = Some r -> cfg r = Some (p, c) ->
     lim d (limit r) <= maximum d c /\ (lim d (limit r) <= 0 -> bw d b = true) /\ (bw d b = true -> refill_pending r = true)) /\
  (forall i b d, bevs w !! i = Some b -> bwg d b = true -> exists gi g, group_of b = Some gi /\ groups w !! gi = Some g /\
     i ∈ members g /\ g_suspended d g || g_pending d g = true) /\
  (forall gi g d, groups w !! gi = Some g -> lim d (rate_limit g) <= 0 -> g_suspended d g = true).
Proof.
  intros H0 Hs. assert (Hinv : rl_inv w).
  { induction Hs as [|e o w1 w2 _ IH Hop Hrun]; [by apply initial_inv|].
    destruct (run_op_ok e w1 o IH Hop) as (w' & E & ?). congruence. }
  split_and!.
  - intros e o Hop. destruct (run_op_ok e w o Hinv Hop) as (w' & E & _). by exists w'.
  - intros i b r p c d Hi Hr Hc. pose proof (base_some b r Hr (st_bev w (iv_struct w Hinv) i b Hi)) as Hok.
    unfold rlim_ok in Hok. rewrite Hc in Hok. destruct Hok as (_ & _ & Hw & Hd). split; [apply Hw|apply Hd].
  - intros i b d Hi Hb. destruct (st_susp w (iv_struct w Hinv) i b d Hi Hb) as (gi & g & H1 & H2 & H3).
    destruct (st_in w (iv_struct w Hinv) i b gi Hi H1) as (g' & ? & ?). simplify_eq. by exists gi, g.
  - intros gi g d Hgi. by apply (iv_live w Hinv gi).
Qed.

(** C29: when the refill timer of a bufferevent fires after enough ticks for a suspended direction to have tokens
    again, the callback releases that direction and, unless the other one is still exhausted, leaves the timer
    idle. *)
Theorem refill_releases e w i b r p c t d :
  rl_inv w -> bevs w !! i = Some b -> rate_limiting b = Some r -> cfg r = Some (p, c) -> add_ok e = true ->
  ev_token_bucket_get_tick_ (now e) c = Done t ->
  let n := u32 (t - last_updated (limit r)) in
  0 < n <= INT_MAX -> 0 < lim d (limit r) + n * rate d c ->
  exists w' b' r', bev_refill_callback_ e w i = Done w' /\ bevs w' !! i = Some b' /\ bw d b' = false /\
    rate_limiting b' = Some r' /\ lim d (limit r') = Z.min (maximum d c) (lim d (limit r) + n * rate d c) /\
    refill_pending r' = bw (flip d) b'.
Proof.
  intros Hinv Hi Hr Hc Ha Ht n Hn Hpos. pose proof (base_some b r Hr (st_bev w (iv_struct w Hinv) i b Hi)) as Hok.
  unfold rlim_ok in Hok. rewrite Hc in Hok. destruct Hok as (_ & Hcok & Hw & Hd).
  unfold bev_refill_callback_. rewrite Hi. simpl. rewrite Hr. simpl. rewrite Hc. simpl. rewrite Ht. simpl.
  rewrite update_exact by done. fold n. rewrite (proj2 (Z.eqb_neq n 0)), (proj2 (Z.ltb_ge INT_MAX n)) by lia. cbn [orb snd].
  set (l := mkBucket _ _ _). set (r1 := set_limit _ l).
  assert (Hl : lim d l = Z.min (maximum d c) (lim d (limit r) + n * rate d c)) by (by destruct d).
  assert (Hlp : 0 < lim d l) by (destruct Hcok as [Hx _]; destruct (Hx d); lia).
  pose proof (refill_side_spec Rd b r1) as HR. destruct (refill_side Rd b r1) as [b1 a1]. destruct HR as (R1 & R2 & R3 & R4 & ->).
  pose proof (refill_side_spec Wr b1 r1) as HW. destruct (refill_side Wr b1 r1) as [b2 a2]. destruct HW as (W1 & W2 & W3 & W4 & ->).
  simpl in R3, W3. unfold add_refill. rewrite Ha. eexists _, _, _.
  split; [reflexivity|]. simpl bevs. rewrite lookup_insert_eq. split; [reflexivity|]. split; [|split; [reflexivity|split]].
  - rewrite bw_rlim. destruct d; [rewrite W3, R4|rewrite W4]; simpl in *; rewrite (proj2 (Z.leb_gt _ 0)) by done; by rewrite andb_false_r.
  - by destruct (_ || _).
  - rewrite bw_rlim. assert (Hf : bw d b2 = false).
    { destruct d; [rewrite W3, R4|rewrite W4]; simpl in *; rewrite (proj2 (Z.leb_gt _ 0)) by done; by rewrite andb_false_r. }
    destruct d; simpl flip; [rewrite W3 in Hf; rewrite Hf|rewrite W3; rewrite Hf, orb_false_r]; simpl;
      [by destruct (bw Wr b2)|by destruct (bw Rd b1)].
Qed.

(** ** A sample run: a limit is set, then 300 bytes are read *)

Definition sample_env : env := mkEnv (10, 0) true true (fun _ => false) 0.
Definition sample_later : env := mkEnv (13, 0) true true (fun _ => false) 0.
Definition sample_bev : bufferevent_private := mkBev None 16384 16384 0 0 6 [].
Definition sample_world : world := mkWorld {[ 1 := sample_bev ]} ∅.
Definition run_sample (os : list rl_op) : world :=
  foldl (fun w o => match run_op sample_env w o with Done w' => w' | Crash => w end) sample_world os.
Definition sample_set : rl_op := OSetLimit 1 (Some (5, sample_cfg)).
Definition sample_limited : world := run_sample [sample_set].
Definition sample_spent : world := run_sample [sample_set; OSpend Rd 1 300].

Definition sample_spent_bev : bufferevent_private := default sample_bev (bevs sample_spent !! 1).
Definition sample_spent_rlim : bufferevent_rate_limit := default fresh_rlim (rate_limiting sample_spent_bev).

Lemma sample_initial : initial sample_world.
Proof.
  split; [done|]. intros i b Hi. cbn [sample_world bevs] in Hi.
  apply lookup_singleton_Some in Hi as [_ <-]. split; [done|]. by intros [].
Qed.

Lemma sample_set_ok : op_ok sample_env sample_world sample_set.
Proof. split; [done|]. split; [by eexists|]. intros p c [= _ <-]. apply sample_cfg_ok. Qed.

Lemma sample_spend_ok : op_ok sample_env sample_limited (OSpend Rd 1 300).
Proof.
  split; [done|]. eexists. split; [vm_compute; reflexivity|]. split; [done|]. intros r [= <-]. split; [|done].
  intros p c [= _ <-]. vm_compute. split; congruence.
Qed.

Lemma sample_steps : rl_steps sample_world sample_spent.
Proof.
  apply (rs_snoc _ sample_env (OSpend Rd 1 300) sample_limited); [|exact sample_spend_ok|vm_compute; reflexivity].
  apply (rs_snoc _ sample_env sample_set sample_world); [constructor|exact sample_set_ok|vm_compute; reflexivity].
Qed.

Lemma sample_inv : rl_inv sample_spent.
Proof.
  destruct (run_op_ok _ _ _ (initial_inv _ sample_initial) sample_set_ok) as (w1 & E1 & H1).
  assert (w1 = sample_limited) as -> by (vm_compute in E1 |- *; congruence).
  destruct (run_op_ok _ _ _ H1 sample_spend_ok) as (w2 & E2 & H2).
  assert (w2 = sample_spent) as -> by (vm_compute in E2 |- *; congruence). done.
Qed.

(** What [op_ok] excludes: a manual refill by a negative decrement, as the header documents it, that lifts the
    bucket above its burst of 1000.  The call succeeds, the burst is exceeded, and the refill timer, which should
    cut the bucket back, makes it larger. *)
Theorem manual_refill_leaves_burst :
  exists w1 w2 b1 r1 b2 r2,
    bufferevent_decrement_read_limit sample_env sample_limited 1 (-1500) = Done (0, w1) /\
    bevs w1 !! 1 = Some b1 /\ rate_limiting b1 = Some r1 /\ cfg r1 = Some (5, sample_cfg) /\
    lim Rd (limit r1) = 1600 /\ read_maximum sample_cfg = 1000 /\
    bev_refill_callback_ sample_later w1 1 = Done w2 /\
    bevs w2 !! 1 = Some b2 /\ rate_limiting b2 = Some r2 /\ lim Rd (limit r2) = 1900.
Proof.
  destruct (bufferevent_decrement_read_limit sample_env sample_limited 1 (-1500)) as [[z w1]|] eqn:E1;
    [|vm_compute in E1; discriminate].
  destruct (bev_refill_callback_ sample_later w1 1) as [w2|] eqn:E2;
    [|vm_compute in E1; injection E1 as <- <-; vm_compute in E2; discriminate].
  vm_compute in E1. injection E1 as <- <-. vm_compute in E2. injection E2 as <-.
  eexists _, _, _, _, _, _. split_and!; try (vm_compute; reflexivity).
Qed.

Lemma rate_limit_invariant_witness :
  exists b r, bevs sample_spent !! 1 = Some b /\ rate_limiting b = Some r /\ lim Rd (limit r) = -200 /\
    bw Rd b = true /\ refill_pending r = true.
Proof.
  destruct (rate_limit_invariant sample_world sample_spent sample_initial sample_steps) as (_ & H & _).
  destruct (H 1 sample_spent_bev sample_spent_rlim 5 sample_cfg Rd) as (_ & H1 & H2);
    [vm_compute; reflexivity|vm_compute; reflexivity|vm_compute; reflexivity|].
  specialize (H1 ltac:(vm_compute; congruence)). exists sample_spent_bev, sample_spent_rlim.
  split; [vm_compute; reflexivity|]. split; [vm_compute; reflexivity|]. split; [vm_compute; reflexivity|].
  split; [exact H1|exact (H2 H1)].
Defined.

Lemma refill_releases_witness :
  exists w' b' r', bev_refill_callback_ sample_later sample_spent 1 = Done w' /\ bevs w' !! 1 = Some b' /\ bw Rd b' = false /\
    rate_limiting b' = Some r' /\ lim Rd (limit r') = 100 /\ refill_pending r' = bw Wr b'.
Proof.
  destruct (refill_releases sample_later sample_spent 1 sample_spent_bev sample_spent_rlim 5 sample_cfg 13 Rd sample_inv)
    as (w' & b' & r' & H); [vm_compute; reflexivity|vm_compute; reflexivity|vm_compute; reflexivity|reflexivity
    |vm_compute; reflexivity|vm_compute; split; congruence|vm_compute; reflexivity|].
  exists w', b', r'. exact H.
Defined.
