(* ===== verification/MinHeap.v ===== *)
(** * The timer heap

    Models [libevent/minheap-internal.h], the binary heap that orders the
    events of an event base by their timeout, and [evutil_timercmp] of
    [include/event2/util.h].  Events are addresses; the position an event
    remembers ([ev_timeout_pos.min_heap_idx]) is a column of its own, [idx],
    because the heap writes it for every event it moves, and the timeouts are
    read through [timeout].  The array [p] has [a] slots of which the first
    [n] are in use; the others hold nothing that may be read. *)

From S2P Require Import Prelude.

Record timeval := mkTimeval { tv_sec : Z; tv_usec : Z }.

#[export] Instance timeval_eq_dec : EqDecision timeval.
Proof. solve_decision. Defined.

(** [evutil_timercmp(x, y, >)] *)
Definition timercmp_gt (x y : timeval) : bool :=
  if tv_sec x =? tv_sec y then tv_usec y <? tv_usec x else tv_sec y <? tv_sec x.

Record min_heap := mkHeap { hp : list (option Z); hn : Z; ha : Z }.

Section operations.
Variable timeout : Z -> timeval.

Definition min_heap_elem_greater (x y : Z) : bool := timercmp_gt (timeout x) (timeout y).

Definition min_heap_ctor_ : min_heap := mkHeap [] 0 0.
Definition min_heap_elem_init_ (e : Z) (idx : gmap Z Z) : gmap Z Z := <[e := -1]> idx.
Definition min_heap_empty_ (s : min_heap) : bool := hn s =? 0.
Definition min_heap_size_ (s : min_heap) : Z := hn s.

(** [s->p[i]] *)
Definition slot (s : min_heap) (i : Z) : outcome Z :=
  if (0 <=? i) && (i <? zlen (hp s)) then o ← deref (hp s !! Z.to_nat i); deref o else Crash.

Definition min_heap_top_ (s : min_heap) : outcome (option Z) :=
  if hn s =? 0 then Done None else e ← slot s 0; Done (Some e).

Definition min_heap_idx (idx : gmap Z Z) (e : Z) : outcome Z := deref (idx !! e).

Definition set_idx (idx : gmap Z Z) (e i : Z) : outcome (gmap Z Z) :=
  _ ← deref (idx !! e); Done (<[e := i]> idx).

(** [(s->p[i] = e)->ev_timeout_pos.min_heap_idx = i] *)
Definition place (s : min_heap) (idx : gmap Z Z) (i e : Z) : outcome (min_heap * gmap Z Z) :=
  if (0 <=? i) && (i <? zlen (hp s)) then
    idx ← set_idx idx e (i32 i);
    Done (mkHeap (<[Z.to_nat i := Some e]> (hp s)) (hn s) (ha s), idx)
  else Crash.

(** [mm_realloc(s->p, a * sizeof *p)]: the old slots are kept, the new ones
    are not initialised.  [mem] is whether memory is available. *)
Definition grow (p : list (option Z)) (a : Z) : list (option Z) :=
  ztake a p ++ replicate (Z.to_nat (a - zlen p)) None.

Definition min_heap_reserve_ (mem : bool) (s : min_heap) (n : Z) : Z * min_heap :=
  if ha s <? n then
    let a := if ha s =? 0 then 8 else u32 (ha s * 2) in
    let a := if a <? n then n else a in
    if mem then (0, mkHeap (grow (hp s) a) (hn s) a) else (-1, s)
  else (0, s).

(** The loop tests [hole_index && greater(p[parent], e)]; [||] and [&&] do
    not read [p[parent]] when the hole is at the top. *)
Fixpoint shift_up (fuel : nat) (s : min_heap) (idx : gmap Z Z) (hole_index e : Z)
    : outcome (min_heap * gmap Z Z) :=
  match fuel with
  | O => Crash
  | S fuel =>
      let parent := u32 (hole_index - 1) / 2 in
      if hole_index =? 0 then place s idx hole_index e else
      q ← slot s parent;
      if min_heap_elem_greater q e then
        '(s, idx) ← place s idx hole_index q;
        shift_up fuel s idx parent e
      else place s idx hole_index e
  end.

Definition min_heap_shift_up_ (s : min_heap) (idx : gmap Z Z) (hole_index e : Z)
    : outcome (min_heap * gmap Z Z) :=
  shift_up (S (Z.to_nat hole_index)) s idx hole_index e.

(** The [do ... while]: one move before the first test. *)
Definition min_heap_shift_up_unconditional_ (s : min_heap) (idx : gmap Z Z) (hole_index e : Z)
    : outcome (min_heap * gmap Z Z) :=
  let parent := u32 (hole_index - 1) / 2 in
  q ← slot s parent;
  '(s, idx) ← place s idx hole_index q;
  shift_up (S (Z.to_nat parent)) s idx parent e.

Fixpoint shift_down (fuel : nat) (s : min_heap) (idx : gmap Z Z) (hole_index e : Z)
    : outcome (min_heap * gmap Z Z) :=
  match fuel with
  | O => Crash
  | S fuel =>
      let min_child := u32 (2 * u32 (hole_index + 1)) in
      if hn s <? min_child then place s idx hole_index e else
      left ← (if min_child =? hn s then Done true
              else c ← slot s min_child; d ← slot s (min_child - 1);
                   Done (min_heap_elem_greater c d));
      let min_child := if (left : bool) then min_child - 1 else min_child in
      c ← slot s min_child;
      if negb (min_heap_elem_greater e c) then place s idx hole_index e else
      '(s, idx) ← place s idx hole_index c;
      shift_down fuel s idx min_child e
  end.

Definition min_heap_shift_down_ (s : min_heap) (idx : gmap Z Z) (hole_index e : Z)
    : outcome (min_heap * gmap Z Z) :=
  shift_down (S (Z.to_nat (hn s))) s idx hole_index e.

Definition set_n (s : min_heap) (n : Z) : min_heap := mkHeap (hp s) n (ha s).

Definition min_heap_push_ (mem : bool) (s : min_heap) (idx : gmap Z Z) (e : Z)
    : outcome (Z * min_heap * gmap Z Z) :=
  let '(r, s) := min_heap_reserve_ mem s (u32 (hn s + 1)) in
  if negb (r =? 0) then Done (-1, s, idx) else
  '(s, idx) ← min_heap_shift_up_ (set_n s (u32 (hn s + 1))) idx (hn s) e;
  Done (0, s, idx).

Definition min_heap_pop_ (s : min_heap) (idx : gmap Z Z)
    : outcome (option Z * min_heap * gmap Z Z) :=
  if hn s =? 0 then Done (None, s, idx) else
  e ← slot s 0;
  let s := set_n s (hn s - 1) in
  last ← slot s (hn s);
  '(s, idx) ← min_heap_shift_down_ s idx 0 last;
  idx ← set_idx idx e (-1);
  Done (Some e, s, idx).

Definition min_heap_elt_is_top_ (idx : gmap Z Z) (e : Z) : outcome bool :=
  i ← min_heap_idx idx e; Done (i =? 0).

(** Put [x] where [e] was: upward if the parent is greater, else downward.
    [(i - 1) / 2] is computed on [int]s, rounding towards zero. *)
Definition resift (s : min_heap) (idx : gmap Z Z) (i x : Z) : outcome (min_heap * gmap Z Z) :=
  let parent := u32 (Z.quot (i - 1) 2) in
  up ← (if 0 <? i then q ← slot s parent; Done (min_heap_elem_greater q x) else Done false);
  if (up : bool) then min_heap_shift_up_unconditional_ s idx (u32 i) x
  else min_heap_shift_down_ s idx (u32 i) x.

Definition min_heap_erase_ (s : min_heap) (idx : gmap Z Z) (e : Z)
    : outcome (Z * min_heap * gmap Z Z) :=
  i ← min_heap_idx idx e;
  if i =? -1 then Done (-1, s, idx) else
  let s := set_n s (u32 (hn s - 1)) in
  last ← slot s (hn s);
  '(s, idx) ← resift s idx i last;
  idx ← set_idx idx e (-1);
  Done (0, s, idx).

Definition min_heap_adjust_ (mem : bool) (s : min_heap) (idx : gmap Z Z) (e : Z)
    : outcome (Z * min_heap * gmap Z Z) :=
  i ← min_heap_idx idx e;
  if i =? -1 then min_heap_push_ mem s idx e else
  '(s, idx) ← resift s idx i e;
  Done (0, s, idx).

End operations.

(** ** The order of timeouts *)

Definition tv_le (x y : timeval) : Prop := timercmp_gt x y = false.

Lemma tv_le_lex x y :
  tv_le x y <-> tv_sec x < tv_sec y \/ tv_sec x = tv_sec y /\ tv_usec x <= tv_usec y.
Proof. unfold tv_le, timercmp_gt. split; [repeat case_test; zb; lia|]. intros H. repeat case_test; zb; lia. Qed.

#[export] Instance tv_le_preorder : PreOrder tv_le.
Proof. split; repeat intro; rewrite ?tv_le_lex in *; lia. Qed.

Lemma tv_gt_le x y : timercmp_gt x y = true -> tv_le y x.
Proof. rewrite tv_le_lex. unfold timercmp_gt. repeat case_test; zb; intros; zb; lia. Qed.

Lemma tv_le_total x y : tv_le x y \/ tv_le y x.
Proof. rewrite !tv_le_lex. lia. Qed.

(** ** Heap order with a hole

    The array is described by the list [v] of events in use, where the event
    that is being placed counts as already sitting at the hole [h]. *)

Definition edge (q c : nat) : Prop := c = (2 * q + 1)%nat \/ c = (2 * q + 2)%nat.

Section order.
Variable timeout : Z -> timeval.

Definition before (x y : Z) : Prop := tv_le (timeout x) (timeout y).

#[export] Instance before_preorder : PreOrder before.
Proof. split; repeat intro; unfold before in *; [reflexivity|etransitivity; eauto]. Qed.

Definition ordered_if (P : nat -> nat -> Prop) (v : list Z) : Prop :=
  forall q c x y, P q c -> v !! q = Some x -> v !! c = Some y -> before x y.

Definition heap_ordered : list Z -> Prop := ordered_if edge.

(** Order everywhere but at [h], and across [h]. *)
Record order_around (v : list Z) (h : nat) : Prop := {
  oa_other : ordered_if (fun q c => edge q c /\ q <> h /\ c <> h) v;
  oa_across : ordered_if (fun q c => edge q h /\ edge h c) v
}.
Definition below_ordered (v : list Z) (h : nat) : Prop :=
  ordered_if (fun q c => edge h c /\ q = h) v.
Definition above_ordered (v : list Z) (h : nat) : Prop :=
  ordered_if (fun q c => edge q h /\ c = h) v.

Lemma order_complete v h :
  order_around v h -> below_ordered v h -> above_ordered v h -> heap_ordered v.
Proof.
  intros [Ho _] Hb Ha q c x y He Hq Hc. destruct (decide (q = h)) as [->|?].
  { eapply Hb; eauto. }
  destruct (decide (c = h)) as [->|?]; [eapply Ha|eapply Ho]; eauto.
Qed.

Lemma heap_ordered_around v h : heap_ordered v -> order_around v h.
Proof.
  intros Hv. split.
  - intros q c x y [He _]. by apply Hv.
  - intros q c x y [H1 H2] Hq Hc. destruct (lookup_lt_is_Some_2 v h) as [z Hz].
    { apply lookup_lt_Some in Hc. unfold edge in *. lia. }
    transitivity z; [apply (Hv q h)|apply (Hv h c)]; done.
Qed.

Definition swap_in (v : list Z) (h q : nat) (e y : Z) : list Z := <[h := y]> (<[q := e]> v).

Lemma swap_in_lookup v h q e y i x :
  q <> h -> v !! h = Some e -> v !! q = Some y ->
  swap_in v h q e y !! i = Some x ->
  (i = h /\ x = y) \/ (i = q /\ x = e) \/ (i <> h /\ i <> q /\ v !! i = Some x).
Proof.
  unfold swap_in. intros Hne Hh Hq Hx.
  apply list_lookup_insert_Some in Hx as [(-> & -> & _)|[Hi Hx]]; [auto|].
  apply list_lookup_insert_Some in Hx as [(-> & -> & _)|[Hj Hx]]; auto.
Qed.

(** Every pair of positions of the swapped list, by cases. *)
Ltac swap_cases :=
  intros ? ? ? ? ? Hx Hy;
  apply swap_in_lookup in Hx; [|by unfold edge in *; lia|done|done];
  apply swap_in_lookup in Hy; [|by unfold edge in *; lia|done|done];
  destruct Hx as [[-> ->]|[[-> ->]|(? & ? & Hx)]],
           Hy as [[-> ->]|[[-> ->]|(? & ? & Hy)]];
  try (unfold edge in *; lia); try reflexivity.

Lemma move_up_order v h q e y :
  edge q h -> v !! h = Some e -> v !! q = Some y -> before e y ->
  order_around v h ->
  order_around (swap_in v h q e y) q /\ below_ordered (swap_in v h q e y) q.
Proof.
  intros He Hh Hq Hey [Ho Ha]. split; [split|]; swap_cases; try assumption.
  - eapply Ha; eauto. unfold edge in *. lia.
  - eapply Ho; eauto. unfold edge in *. lia.
  - eapply Ho; eauto. unfold edge in *. lia.
  - transitivity y; eapply Ho; eauto; unfold edge in *; lia.
  - transitivity y; [assumption|]. eapply Ho; eauto. unfold edge in *. lia.
Qed.

Lemma move_down_order v h c e y :
  edge h c -> v !! h = Some e -> v !! c = Some y -> before y e ->
  (forall d x, edge h d -> v !! d = Some x -> before y x) ->
  order_around v h ->
  order_around (swap_in v h c e y) c /\ above_ordered (swap_in v h c e y) c.
Proof.
  intros He Hh Hc Hye Hmin [Ho Ha]. split; [split|]; swap_cases; try assumption.
  - eapply Hmin; [|eassumption]. unfold edge in *. lia.
  - eapply Ha; eauto. unfold edge in *. lia.
  - eapply Ho; eauto. unfold edge in *. lia.
  - eapply Ho; eauto. unfold edge in *. lia.
Qed.

End order.

(** ** The array and the remembered positions *)

(** Slots and positions are right wherever [P] holds. *)
Record rep_at (P : nat -> Prop) (s : min_heap) (idx : gmap Z Z) (v : list Z) : Prop := {
  ra_mem : forall i x, v !! i = Some x -> P i -> hp s !! i = Some (Some x);
  ra_idx : forall i x, v !! i = Some x -> P i -> idx !! x = Some (Z.of_nat i);
  ra_nodup : NoDup v;
  ra_len : (length v <= length (hp s))%nat;
  ra_known : forall x, x ∈ v -> is_Some (idx !! x);
  ra_bound : zlen v <= INT_MAX
}.

Definition rep : min_heap -> gmap Z Z -> list Z -> Prop := rep_at (fun _ => True).
Definition rep_hole (h : nat) : min_heap -> gmap Z Z -> list Z -> Prop := rep_at (fun i => i <> h).

Definition same_shape (s s' : min_heap) : Prop :=
  hn s' = hn s /\ ha s' = ha s /\ length (hp s') = length (hp s).

Definition same_elsewhere (v : list Z) (idx idx' : gmap Z Z) : Prop :=
  forall x, x ∉ v -> idx' !! x = idx !! x.

#[export] Instance same_shape_preorder : PreOrder same_shape.
Proof. split; repeat intro; unfold same_shape in *; lia. Qed.

Lemma slot_rep P s idx v i x :
  rep_at P s idx v -> v !! i = Some x -> P i -> slot s (Z.of_nat i) = Done x.
Proof.
  intros Hr Hx Hi. pose proof (ra_mem _ _ _ _ Hr _ _ Hx Hi) as Hm.
  unfold slot. pose proof (lookup_lt_Some _ _ _ Hm). unfold zlen.
  replace (_ && _) with true by (symmetry; rewrite andb_true_iff, Z.leb_le, Z.ltb_lt; lia).
  rewrite Nat2Z.id, Hm. done.
Qed.

Lemma place_done s idx h e :
  (h < length (hp s))%nat -> is_Some (idx !! e) -> Z.of_nat h <= INT_MAX ->
  place s idx (Z.of_nat h) e =
    Done (mkHeap (<[h := Some e]> (hp s)) (hn s) (ha s), <[e := Z.of_nat h]> idx).
Proof.
  intros Hh [w Hw] Hb. unfold place, set_idx, zlen. rewrite Hw.
  replace (_ && _) with true by (symmetry; rewrite andb_true_iff, Z.leb_le, Z.ltb_lt; lia).
  rewrite i32_small, Nat2Z.id by (unfold INT_MAX in *; lia). done.
Qed.

Lemma rep_pos P s idx v h e :
  rep_at P s idx v -> v !! h = Some e ->
  (h < length (hp s))%nat /\ is_Some (idx !! e) /\ Z.of_nat h < INT_MAX.
Proof.
  intros Hr Hh. pose proof (lookup_lt_Some _ _ _ Hh) as Hl.
  pose proof (ra_len _ _ _ _ Hr). pose proof (ra_bound _ _ _ _ Hr). unfold zlen in *.
  split; [lia|]. split; [|lia]. eapply ra_known; eauto. by eapply list_elem_of_lookup_2.
Qed.

(** Writing the event into the hole. *)
Lemma place_fill s idx v h e :
  rep_hole h s idx v -> v !! h = Some e ->
  exists s' idx', place s idx (Z.of_nat h) e = Done (s', idx') /\
    rep s' idx' v /\ same_shape s s' /\ same_elsewhere v idx idx'.
Proof.
  intros Hr Hh. destruct (rep_pos _ _ _ _ _ _ Hr Hh) as (Hl & Hk & Hb).
  rewrite place_done by (done || lia). do 2 eexists. split; [done|]. split; [|split].
  - destruct Hr as [Hm Hi Hnd Hlen Hkn Hbd]. split; simpl; auto.
    + intros i x Hx _. destruct (decide (i = h)) as [->|?].
      * simplify_eq. by apply list_lookup_insert_eq.
      * rewrite list_lookup_insert_ne by done. auto.
    + intros i x Hx _. destruct (decide (x = e)) as [->|Hxe].
      * rewrite lookup_insert_eq. f_equal. f_equal. by eapply NoDup_lookup.
      * rewrite lookup_insert_ne by done. apply Hi; [done|]. congruence.
    + by rewrite length_insert.
    + intros x Hx. rewrite lookup_insert_is_Some'. auto.
  - unfold same_shape; simpl. by rewrite length_insert.
  - intros x Hx. rewrite lookup_insert_ne; [done|]. intros ->. apply Hx.
    by eapply list_elem_of_lookup_2.
Qed.

(** Moving a neighbour into the hole moves the hole. *)
Lemma place_move s idx v h q e y :
  rep_hole h s idx v -> q <> h -> v !! h = Some e -> v !! q = Some y ->
  exists s' idx', place s idx (Z.of_nat h) y = Done (s', idx') /\
    rep_hole q s' idx' (swap_in v h q e y) /\ same_shape s s' /\ same_elsewhere v idx idx'.
Proof.
  intros Hr Hne Hh Hq. destruct (rep_pos _ _ _ _ _ _ Hr Hh) as (Hl & _ & Hb).
  destruct (rep_pos _ _ _ _ _ _ Hr Hq) as (_ & Hk & _).
  rewrite place_done by (done || lia). do 2 eexists. split; [done|]. split; [|split].
  - assert (Hp : swap_in v h q e y ≡ₚ v) by (by apply Permutation_insert_swap).
    destruct Hr as [Hm Hi Hnd Hlen Hkn Hbd]. split; simpl.
    + intros i x Hx Hiq. apply swap_in_lookup in Hx as [[-> ->]|[[-> ->]|(? & ? & Hx)]]; auto.
      * by apply list_lookup_insert_eq.
      * done.
      * rewrite list_lookup_insert_ne by done. auto.
    + intros i x Hx Hiq. apply swap_in_lookup in Hx as [[-> ->]|[[-> ->]|(? & ? & Hx)]]; auto.
      * by rewrite lookup_insert_eq.
      * done.
      * rewrite lookup_insert_ne; [auto|]. intros ->. apply Hiq. by eapply NoDup_lookup.
    + by rewrite Hp.
    + unfold swap_in. by rewrite !length_insert.
    + intros x Hx. rewrite Hp in Hx. rewrite lookup_insert_is_Some'. auto.
    + unfold swap_in, zlen. by rewrite !length_insert.
  - unfold same_shape; simpl. by rewrite length_insert.
  - intros x Hx. rewrite lookup_insert_ne; [done|]. intros ->. apply Hx.
    by eapply list_elem_of_lookup_2.
Qed.

(** ** Sifting *)

Section sift.
Variable timeout : Z -> timeval.

(** [r] has put the heap in order, moving only the events of [v]. *)
Definition sifted (s : min_heap) (idx : gmap Z Z) (v : list Z)
    (r : outcome (min_heap * gmap Z Z)) : Prop :=
  exists s' idx' v', r = Done (s', idx') /\ rep s' idx' v' /\ heap_ordered timeout v' /\
    v' ≡ₚ v /\ same_shape s s' /\ same_elsewhere v idx idx'.

Lemma place_sifted s idx v h e :
  rep_hole h s idx v -> v !! h = Some e ->
  order_around timeout v h -> below_ordered timeout v h -> above_ordered timeout v h ->
  sifted s idx v (place s idx (Z.of_nat h) e).
Proof.
  intros Hr Hh Ho Hb Ha. destruct (place_fill _ _ _ _ _ Hr Hh) as (s' & idx' & -> & ? & ? & ?).
  exists s', idx', v. repeat (split; [by eauto using order_complete|]). done.
Qed.

(** A move followed by a sift of the swapped list is a sift. *)
Lemma sifted_move s idx s1 idx1 v h q e y r :
  v !! h = Some e -> v !! q = Some y ->
  same_shape s s1 -> same_elsewhere v idx idx1 ->
  sifted s1 idx1 (swap_in v h q e y) r -> sifted s idx v r.
Proof.
  intros Hh Hq Hs Hi (s' & idx' & v' & -> & Hr & Ho & Hp & Hs' & Hi').
  assert (Hsw : swap_in v h q e y ≡ₚ v) by (by apply Permutation_insert_swap).
  exists s', idx', v'. split; [done|]. split; [done|]. split; [done|].
  split; [by rewrite Hp|]. split; [by transitivity s1|].
  intros x Hx. rewrite Hi', Hi; auto. by rewrite Hsw.
Qed.

Lemma parent_index h : (0 < h)%nat -> Z.of_nat h <= INT_MAX ->
  exists q, edge q h /\ u32 (Z.of_nat h - 1) / 2 = Z.of_nat q /\
            u32 (Z.quot (Z.of_nat h - 1) 2) = Z.of_nat q.
Proof.
  intros H0 Hb. exists (Nat.div (h - 1) 2). pose proof (Nat.div_mod_eq (h - 1) 2) as Hd.
  pose proof (Nat.mod_upper_bound (h - 1) 2). unfold INT_MAX in *.
  set (q := Nat.div (h - 1) 2) in *.
  assert (Hq : (Z.of_nat h - 1) / 2 = Z.of_nat q).
  { symmetry. apply (Z.div_unique _ _ _ (Z.of_nat ((h - 1) mod 2))); lia. }
  split; [unfold edge; lia|]. rewrite Z.quot_div_nonneg by lia. rewrite Hq.
  rewrite !u32_small by lia. done.
Qed.

Lemma below_leaf v h :
  (forall c, edge h c -> (length v <= c)%nat) -> below_ordered timeout v h.
Proof. intros H q c x y [He ->] Hx Hy. apply lookup_lt_Some in Hy. apply H in He. lia. Qed.

Lemma above_root v : above_ordered timeout v 0.
Proof. intros q c x y [He ->] Hx Hy. unfold edge in He. lia. Qed.

Lemma shift_up_spec fuel s idx v h e :
  (h < fuel)%nat -> rep_hole h s idx v -> v !! h = Some e ->
  order_around timeout v h -> below_ordered timeout v h ->
  sifted s idx v (shift_up timeout fuel s idx (Z.of_nat h) e).
Proof.
  revert s idx v h. induction fuel as [|fuel IH]; intros s idx v h Hf Hr Hh Ho Hb; [lia|].
  simpl. case_test; zb.
  { assert (h = 0)%nat as -> by lia. apply place_sifted; auto using above_root. }
  destruct (rep_pos _ _ _ _ _ _ Hr Hh) as (_ & _ & Hbd).
  destruct (parent_index h) as (q & He & -> & _); [lia..|].
  assert (Hqh : (q < h)%nat) by (unfold edge in He; lia).
  destruct (lookup_lt_is_Some_2 v q) as [y Hq].
  { apply lookup_lt_Some in Hh. lia. }
  erewrite slot_rep by (eauto; simpl; lia). simpl. case_test.
  - apply tv_gt_le in E0.
    destruct (place_move _ _ _ _ q _ _ Hr ltac:(lia) Hh Hq) as (s1 & idx1 & -> & Hr1 & Hs1 & Hi1).
    destruct (move_up_order timeout v h q e y) as [Ho1 Hb1]; [done..|]. simpl.
    eapply sifted_move; [exact Hh|exact Hq|exact Hs1|exact Hi1|].
    apply IH; [lia|done| |done..].
    unfold swap_in. rewrite list_lookup_insert_ne by lia.
    apply list_lookup_insert_eq. by eapply lookup_lt_Some.
  - apply place_sifted; auto. intros q' c x y' [He' ->] Hx Hy. simplify_eq.
    assert (q' = q) by (unfold edge in *; lia). simplify_eq. exact E0.
Qed.

(** The child the downward loop compares with. *)
Lemma min_child_spec s idx v h :
  rep_hole h s idx v -> hn s = zlen v ->
  2 * (Z.of_nat h + 1) <= hn s ->
  exists c y (left : bool), edge h c /\ v !! c = Some y /\
    (forall d x, edge h d -> v !! d = Some x -> before timeout y x) /\
    (if 2 * (Z.of_nat h + 1) =? hn s then Done true
     else c ← slot s (2 * (Z.of_nat h + 1));
          d ← slot s (2 * (Z.of_nat h + 1) - 1);
          Done (min_heap_elem_greater timeout c d)) = Done left /\
    (if left then 2 * (Z.of_nat h + 1) - 1 else 2 * (Z.of_nat h + 1)) = Z.of_nat c.
Proof.
  intros Hr Hn Hle. unfold zlen in Hn.
  destruct (lookup_lt_is_Some_2 v (2 * h + 1)) as [y1 H1]; [lia|].
  case_test; zb.
  - exists (2 * h + 1)%nat, y1, true. split; [unfold edge; lia|]. split; [done|]. split.
    + intros d x [->| ->] Hd; simplify_eq; [reflexivity|]. apply lookup_lt_Some in Hd. lia.
    + split; [done|]. lia.
  - destruct (lookup_lt_is_Some_2 v (2 * h + 2)) as [y2 H2]; [lia|].
    replace (2 * (Z.of_nat h + 1) - 1) with (Z.of_nat (2 * h + 1)) by lia.
    replace (2 * (Z.of_nat h + 1)) with (Z.of_nat (2 * h + 2)) by lia.
    erewrite slot_rep by (eauto; simpl; lia). erewrite slot_rep by (eauto; simpl; lia). simpl.
    unfold min_heap_elem_greater. destruct (timercmp_gt (timeout y2) (timeout y1)) eqn:E1.
    + exists (2 * h + 1)%nat, y1, true. split; [unfold edge; lia|]. split; [done|].
      split; [|done].
      intros d x [->| ->] Hd; simplify_eq; [reflexivity|]. by apply tv_gt_le.
    + exists (2 * h + 2)%nat, y2, false. split; [unfold edge; lia|]. split; [done|].
      split; [|done].
      intros d x [->| ->] Hd; simplify_eq; [done|reflexivity].
Qed.

Lemma shift_down_spec fuel s idx v h e :
  (length v - h < fuel)%nat -> rep_hole h s idx v -> hn s = zlen v -> v !! h = Some e ->
  order_around timeout v h -> above_ordered timeout v h ->
  sifted s idx v (shift_down timeout fuel s idx (Z.of_nat h) e).
Proof.
  revert s idx v h. induction fuel as [|fuel IH]; intros s idx v h Hf Hr Hn Hh Ho Ha; [lia|].
  destruct (rep_pos _ _ _ _ _ _ Hr Hh) as (_ & _ & Hbd). unfold INT_MAX in Hbd.
  simpl. rewrite (u32_small (Z.of_nat h + 1)) by lia. rewrite u32_small by lia.
  case_test; zb.
  { apply place_sifted; auto. apply below_leaf. intros c Hc. unfold edge, zlen in *. lia. }
  destruct (min_child_spec s idx v h) as (c & y & left & He & Hc & Hmin & -> & Hm); [done..|].
  simpl. rewrite Hm. erewrite slot_rep by (eauto; unfold edge in He; simpl; lia). simpl.
  case_test; zb.
  - apply place_sifted; auto. intros q d x z [Hd ->] Hx Hz. simplify_eq.
    transitivity y; [exact E0|]. eauto.
  - assert (Hch : c <> h) by (unfold edge in He; lia).
    apply tv_gt_le in E0.
    destruct (place_move _ _ _ _ c _ _ Hr Hch Hh Hc) as (s1 & idx1 & -> & Hr1 & Hs1 & Hi1).
    destruct (move_down_order timeout v h c e y) as [Ho1 Ha1]; [done..|]. simpl.
    eapply sifted_move; [exact Hh|exact Hc|exact Hs1|exact Hi1|].
    pose proof (lookup_lt_Some _ _ _ Hc).
    apply IH; unfold swap_in; auto.
    + rewrite !length_insert. unfold edge in He. lia.
    + unfold zlen. rewrite !length_insert. destruct Hs1 as [-> _]. done.
    + rewrite list_lookup_insert_ne by done. by apply list_lookup_insert_eq.
Qed.

Lemma shift_up_unconditional_spec s idx v q h e y :
  edge q h -> rep_hole h s idx v -> v !! h = Some e -> v !! q = Some y ->
  before timeout e y -> order_around timeout v h ->
  sifted s idx v (min_heap_shift_up_unconditional_ timeout s idx (Z.of_nat h) e).
Proof.
  intros He Hr Hh Hq Hey Ho. unfold min_heap_shift_up_unconditional_.
  destruct (rep_pos _ _ _ _ _ _ Hr Hh) as (_ & _ & Hbd).
  destruct (parent_index h) as (q' & He' & -> & _); [unfold edge in He; lia|lia|].
  assert (q' = q) as -> by (unfold edge in *; lia).
  assert (Hqh : (q < h)%nat) by (unfold edge in He; lia).
  erewrite slot_rep by (eauto; simpl; lia). simpl.
  destruct (place_move _ _ _ _ q _ _ Hr ltac:(lia) Hh Hq) as (s1 & idx1 & -> & Hr1 & Hs1 & Hi1).
  destruct (move_up_order timeout v h q e y) as [Ho1 Hb1]; [done..|].
  eapply sifted_move; [exact Hh|exact Hq|exact Hs1|exact Hi1|].
  apply (shift_up_spec (S (Z.to_nat (Z.of_nat q)))); auto; [lia|].
  unfold swap_in. rewrite list_lookup_insert_ne by lia.
  apply list_lookup_insert_eq. by eapply lookup_lt_Some.
Qed.

Lemma min_heap_shift_down_spec s idx v h e :
  rep_hole h s idx v -> hn s = zlen v -> v !! h = Some e ->
  order_around timeout v h -> above_ordered timeout v h ->
  sifted s idx v (min_heap_shift_down_ timeout s idx (Z.of_nat h) e).
Proof. intros Hr Hn. apply shift_down_spec; auto. unfold zlen in Hn. lia. Qed.

(** Replacing one event of an ordered heap and sifting it into place. *)
Lemma resift_spec s idx v h x :
  rep_hole h s idx v -> hn s = zlen v -> v !! h = Some x -> order_around timeout v h ->
  sifted s idx v (resift timeout s idx (Z.of_nat h) x).
Proof.
  intros Hr Hn Hh Ho. destruct (rep_pos _ _ _ _ _ _ Hr Hh) as (_ & _ & Hbd).
  unfold resift. unfold INT_MAX in *. rewrite (u32_small (Z.of_nat h)) by lia.
  case_test; zb.
  - destruct (parent_index h) as (q & He & _ & ->); [lia|unfold INT_MAX; lia|].
    assert (Hqh : (q < h)%nat) by (unfold edge in He; lia).
    destruct (lookup_lt_is_Some_2 v q) as [y Hq].
    { apply lookup_lt_Some in Hh. lia. }
    erewrite slot_rep by (eauto; simpl; lia). simpl. case_test.
    + apply (shift_up_unconditional_spec _ _ _ q _ _ y); auto. by apply tv_gt_le.
    + apply min_heap_shift_down_spec; auto. intros q' c z w [He' ->] Hz Hw. simplify_eq.
      assert (q' = q) as -> by (unfold edge in *; lia). simplify_eq. exact E0.
  - simpl. assert (h = 0)%nat as -> by lia. apply min_heap_shift_down_spec; auto using above_root.
Qed.

End sift.

(** ** The heap invariant and the operations *)

Record heap_wf (timeout : Z -> timeval) (s : min_heap) (idx : gmap Z Z) (v : list Z) : Prop := {
  hw_rep : rep s idx v;
  hw_n : hn s = zlen v;
  hw_a : ha s = zlen (hp s);
  hw_max : ha s < 2 ^ 32;
  hw_order : heap_ordered timeout v;
  hw_out : forall x i, idx !! x = Some i -> x ∉ v -> i = -1
}.

Section specs.
Variable timeout : Z -> timeval.

Lemma heap_wf_ctor idx :
  (forall x i, idx !! x = Some i -> i = -1) -> heap_wf timeout min_heap_ctor_ idx [].
Proof.
  intros Hi. split; simpl; try done; [|eauto].
  split; simpl; try done; [constructor|]. intros x ?%elem_of_nil. done.
Qed.

Lemma heap_wf_pos s idx v x i :
  heap_wf timeout s idx v -> idx !! x = Some i ->
  (i = -1 /\ x ∉ v) \/ exists h, i = Z.of_nat h /\ v !! h = Some x.
Proof.
  intros Hw Hi. destruct (decide (x ∈ v)) as [Hx|Hx].
  - right. apply list_elem_of_lookup in Hx as [h Hh]. exists h. split; [|done].
    pose proof (ra_idx _ _ _ _ (hw_rep _ _ _ _ Hw) _ _ Hh I). congruence.
  - left. eauto using hw_out.
Qed.

(** The first event of an ordered heap is the earliest. *)
Lemma top_earliest v e x : heap_ordered timeout v -> v !! 0%nat = Some e -> x ∈ v -> before timeout e x.
Proof.
  intros Ho H0 [i Hi]%list_elem_of_lookup. revert x Hi.
  induction (lt_wf i) as [i _ IH]. intros x Hi.
  destruct (decide (i = 0)%nat) as [->|Hne]; [simplify_eq; reflexivity|].
  assert (exists q, edge q i) as [q Hq].
  { exists (Nat.div (i - 1) 2). pose proof (Nat.div_mod_eq (i - 1) 2).
    pose proof (Nat.mod_upper_bound (i - 1) 2). unfold edge. lia. }
  assert (Hlt : (q < i)%nat) by (unfold edge in Hq; lia).
  destruct (lookup_lt_is_Some_2 v q) as [y Hy]; [apply lookup_lt_Some in Hi; lia|].
  transitivity y; [by eapply IH|]. by eapply Ho.
Qed.

Lemma min_heap_top_spec s idx v :
  heap_wf timeout s idx v -> min_heap_top_ s = Done (head v).
Proof.
  intros Hw. unfold min_heap_top_. rewrite (hw_n _ _ _ _ Hw). destruct v as [|e v]; [done|].
  rewrite zlen_cons. pose proof (zlen_nonneg v). case_test; zb; [lia|].
  pose proof (slot_rep _ _ _ _ 0%nat e (hw_rep _ _ _ _ Hw) eq_refl I) as Hs.
  change (Z.of_nat 0) with 0 in Hs. rewrite Hs. done.
Qed.

Lemma grow_length (p : list (option Z)) a : zlen p <= a -> zlen (grow p a) = a.
Proof. intros H. unfold grow. autorewrite with zl. pose proof (zlen_nonneg p). lia. Qed.

Lemma reserve_spec mem s idx v n :
  heap_wf timeout s idx v -> 0 <= n < 2 ^ 32 ->
  exists r s', min_heap_reserve_ mem s n = (r, s') /\ heap_wf timeout s' idx v /\
    (r = 0 /\ n <= ha s' \/ r = -1 /\ mem = false /\ s' = s).
Proof.
  intros Hw Hn. unfold min_heap_reserve_. pose proof (hw_max _ _ _ _ Hw).
  pose proof (hw_a _ _ _ _ Hw) as Ha. pose proof (zlen_nonneg (hp s)).
  case_test; zb; [|exists 0, s; auto].
  set (a0 := if ha s =? 0 then 8 else u32 (ha s * 2)).
  assert (Ha0 : 0 <= a0 < 2 ^ 32) by (unfold a0; case_test; [lia|apply u32_range]).
  set (a := if a0 <? n then n else a0).
  assert (Hna : n <= a < 2 ^ 32) by (unfold a; case_test; zb; lia).
  destruct mem; [|exists (-1), s; auto 10].
  eexists _, _. split; [done|]. simpl. split; [|left; lia].
  destruct Hw as [[Hm Hi Hnd Hl Hk Hb] Hnn Haa Hmx Hord Hout].
  assert (Hg : grow (hp s) a = hp s ++ replicate (Z.to_nat (a - zlen (hp s))) None).
  { unfold grow. rewrite ztake_all by lia. done. }
  split; simpl; auto; [|rewrite grow_length; lia|lia]. rewrite Hg.
  split; simpl; auto.
  - intros i x Hx Hp. apply lookup_app_l_Some. auto.
  - rewrite length_app. lia.
Qed.

(** Filling in the invariant after a sift. *)
Lemma sifted_wf s idx v r :
  hn s = zlen v -> ha s = zlen (hp s) -> ha s < 2 ^ 32 ->
  sifted timeout s idx v r ->
  exists s' idx' v', r = Done (s', idx') /\ v' ≡ₚ v /\ same_elsewhere v idx idx' /\
    rep s' idx' v' /\ hn s' = zlen v' /\ ha s' = zlen (hp s') /\ ha s' < 2 ^ 32 /\
    heap_ordered timeout v' /\ ha s' = ha s.
Proof.
  intros Hn Ha Hm (s' & idx' & v' & -> & Hr & Ho & Hp & (Hn' & Ha' & Hl') & Hi').
  exists s', idx', v'. unfold zlen in *. rewrite Hl', Ha', Hn', (Permutation_length Hp). auto 12.
Qed.

(** The array with a new event at its end. *)
Lemma append_hole s idx v e :
  heap_wf timeout s idx v -> is_Some (idx !! e) -> e ∉ v -> zlen v < INT_MAX ->
  hn s + 1 <= ha s ->
  rep_hole (length v) (set_n s (hn s + 1)) idx (v ++ [e]).
Proof.
  intros [[Hm Hi Hnd Hl Hk Hbd] Hn Ha Hmx Ho Hout] He Hev Hb Hr.
  split; simpl.
  - intros i x Hx Hne. apply lookup_app_Some in Hx as [Hx|[Hge Hx]]; [auto|].
    apply list_lookup_singleton_Some in Hx. lia.
  - intros i x Hx Hne. apply lookup_app_Some in Hx as [Hx|[Hge Hx]]; [auto|].
    apply list_lookup_singleton_Some in Hx. lia.
  - apply NoDup_app. split; [done|]. split; [set_solver|apply NoDup_singleton].
  - rewrite length_app. simpl. unfold zlen in *. lia.
  - intros x [Hx|Hx%list_elem_of_singleton]%elem_of_app; [auto|]. by subst.
  - rewrite zlen_app, zlen_cons, zlen_nil. lia.
Qed.

Lemma append_order v e :
  heap_ordered timeout v ->
  order_around timeout (v ++ [e]) (length v) /\ below_ordered timeout (v ++ [e]) (length v).
Proof.
  intros Ho. split; [split|].
  - intros q c x y (Hqc & Hq & Hcc) Hx Hy. apply lookup_app_Some in Hx as [Hx|[Hge Hx]].
    2: { apply list_lookup_singleton_Some in Hx. lia. }
    apply lookup_app_Some in Hy as [Hy|[Hge Hy]]; [by eapply Ho|].
    apply list_lookup_singleton_Some in Hy. lia.
  - intros q c x y [Hq Hcc] Hx Hy. apply lookup_lt_Some in Hy. rewrite length_app in Hy.
    simpl in Hy. unfold edge in Hcc. lia.
  - apply below_leaf. intros c Hcc. rewrite length_app. simpl. unfold edge in Hcc. lia.
Qed.

Lemma heap_wf_absent s idx v e : heap_wf timeout s idx v -> idx !! e = Some (-1) -> e ∉ v.
Proof.
  intros Hw He. destruct (heap_wf_pos _ _ _ _ _ Hw He) as [[_ ?]|(h & ? & _)]; [done|lia].
Qed.

Lemma min_heap_push_spec mem s idx v e :
  heap_wf timeout s idx v -> idx !! e = Some (-1) -> zlen v < INT_MAX ->
  exists r s' idx' v', min_heap_push_ timeout mem s idx e = Done (r, s', idx') /\
    heap_wf timeout s' idx' v' /\ same_elsewhere (e :: v) idx idx' /\
    (r = 0 /\ v' ≡ₚ e :: v \/ r = -1 /\ mem = false /\ v' = v /\ idx' = idx /\ s' = s).
Proof.
  intros Hw He Hb. pose proof (zlen_nonneg v). unfold min_heap_push_.
  pose proof (hw_n _ _ _ _ Hw) as Hn0. unfold INT_MAX in *. rewrite u32_small by lia.
  destruct (reserve_spec mem s idx v (hn s + 1) Hw) as (r & s1 & -> & Hw1 & Hc); [lia|].
  destruct Hc as [[-> Hr]|(-> & -> & ->)].
  2: { simpl. exists (-1), s, idx, v. split; [done|]. split; [done|]. split; [done|]. auto 10. }
  simpl. pose proof (heap_wf_absent _ _ _ _ Hw1 He) as Hev.
  pose proof (hw_n _ _ _ _ Hw1) as Hn1. rewrite Hn0, <-Hn1 in Hr. rewrite u32_small by lia.
  pose proof (append_hole _ _ _ e Hw1 ltac:(eauto) Hev ltac:(unfold INT_MAX; lia) Hr) as Hrep.
  destruct (append_order v e (hw_order _ _ _ _ Hw1)) as [Hoa Hba].
  destruct (sifted_wf (set_n s1 (hn s1 + 1)) idx (v ++ [e])
    (min_heap_shift_up_ timeout (set_n s1 (hn s1 + 1)) idx (hn s1) e))
    as (s' & idx' & v' & -> & Hp & Hse & Hr' & Hn' & Ha' & Hm' & Ho' & _); simpl.
  { rewrite zlen_app, zlen_cons, zlen_nil. lia. }
  { apply Hw1. } { apply Hw1. }
  { unfold min_heap_shift_up_. set (s2 := set_n s1 (hn s1 + 1)) in *. rewrite Hn1.
    apply shift_up_spec; auto; [unfold zlen; lia|]. by rewrite lookup_app_r, Nat.sub_diag. }
  assert (Hp' : v' ≡ₚ e :: v) by (rewrite Hp; symmetry; apply Permutation_cons_append).
  exists 0, s', idx', v'. split; [done|]. split; [|split; [|auto]].
  - split; auto. intros x i Hx Hni. rewrite Hse in Hx by (by rewrite <-Hp).
    eapply hw_out; eauto. intros ?. apply Hni. rewrite Hp'. set_solver.
  - intros x Hx. apply Hse. set_solver.
Qed.

(** A push into a reserved slot does not depend on memory. *)
Lemma min_heap_push_reserved mem s idx e :
  0 <= hn s -> hn s + 1 <= ha s -> ha s < 2 ^ 32 ->
  min_heap_push_ timeout mem s idx e = min_heap_push_ timeout true s idx e.
Proof.
  intros H0 Hr Hm. unfold min_heap_push_, min_heap_reserve_. rewrite u32_small by lia.
  case_test; zb; [lia|done].
Qed.

(** The array once its last event has been put in the place of another. *)
Lemma replaced_hole s idx w h e last :
  heap_wf timeout s idx (w ++ [last]) -> w !! h = Some e ->
  rep_hole h (set_n s (hn s - 1)) idx (<[h := last]> w) /\
  order_around timeout (<[h := last]> w) h /\ e :: <[h := last]> w ≡ₚ w ++ [last].
Proof.
  intros [[Hm Hi Hnd Hl Hk Hbd] Hn Ha Hmx Ho Hout] Hh.
  assert (Hsub : forall i x, <[h := last]> w !! i = Some x -> i <> h -> (w ++ [last]) !! i = Some x).
  { intros i x Hx Hne. rewrite list_lookup_insert_ne in Hx by done. by apply lookup_app_l_Some. }
  assert (Hp : e :: <[h := last]> w ≡ₚ w ++ [last]).
  { rewrite insert_take_drop by (by eapply lookup_lt_Some).
    rewrite <-(take_drop_middle w h e Hh) at 3. simplify_list_eq. solve_Permutation. }
  split; [|split; [split|done]].
  - split; simpl; eauto.
    + rewrite <-Hp in Hnd. by apply NoDup_cons in Hnd as [_ ?].
    + rewrite length_insert. rewrite length_app in Hl. lia.
    + intros x Hx. apply Hk. rewrite <-Hp. set_solver.
    + unfold zlen in *. rewrite length_insert. rewrite length_app in Hbd. lia.
  - intros q c x y (He & Hq & Hc) Hx Hy. eapply Ho; eauto.
  - intros q c x y [Hq Hc] Hx Hy. transitivity e.
    + eapply (Ho q h); eauto; [apply Hsub; [done|unfold edge in *; lia]|].
      by apply lookup_app_l_Some.
    + eapply (Ho h c); eauto; [by apply lookup_app_l_Some|].
      apply Hsub; [done|]. unfold edge in *; lia.
Qed.

(** Removing the last event leaves the others in place. *)
Lemma resift_last s idx w e :
  heap_wf timeout s idx (w ++ [e]) ->
  resift timeout (set_n s (hn s - 1)) idx (zlen w) e =
    Done (mkHeap (hp s) (hn s - 1) (ha s), idx).
Proof.
  intros [Hr Hn Ha Hmx Ho Hout]. rewrite zlen_app, zlen_cons, zlen_nil in Hn.
  assert (Hl : (w ++ [e]) !! length w = Some e) by (by rewrite lookup_app_r, Nat.sub_diag).
  destruct (rep_pos _ _ _ _ _ _ Hr Hl) as (Hlt & Hk & Hb). unfold INT_MAX in Hb.
  assert (Hdown : min_heap_shift_down_ timeout (set_n s (hn s - 1)) idx (u32 (zlen w)) e =
    Done (mkHeap (hp s) (hn s - 1) (ha s), idx)).
  { unfold zlen in *. rewrite u32_small by lia. unfold min_heap_shift_down_. simpl.
    rewrite (u32_small (Z.of_nat (length w) + 1)), u32_small by lia. case_test; zb; [|lia].
    rewrite place_done by (simpl; done || unfold INT_MAX; lia). simpl.
    rewrite list_insert_id by (by eapply ra_mem). rewrite insert_id; [done|].
    by eapply (ra_idx _ _ _ _ Hr _ _ Hl). }
  unfold resift. case_test; zb; [|simpl; exact Hdown].
  destruct (parent_index (length w)) as (q & He & _ & Hq); unfold zlen in *; unfold INT_MAX; [lia..|].
  rewrite Hq. destruct (lookup_lt_is_Some_2 (w ++ [e]) q) as [y Hy].
  { rewrite length_app. unfold edge in He. lia. }
  pose proof (slot_rep _ _ _ _ q y Hr Hy I) as Hs. unfold slot in Hs |- *. simpl. rewrite Hs. simpl.
  unfold min_heap_elem_greater. pose proof (Ho _ _ _ _ He Hy Hl) as ->. exact Hdown.
Qed.

(** The event that was taken out no longer has a position. *)
Lemma forget_wf s idx v s' idx' v' e :
  heap_wf timeout s idx v -> e :: v' ≡ₚ v -> same_elsewhere v idx idx' ->
  rep s' idx' v' -> hn s' = zlen v' -> ha s' = zlen (hp s') -> ha s' < 2 ^ 32 ->
  heap_ordered timeout v' -> heap_wf timeout s' (<[e := -1]> idx') v'.
Proof.
  intros Hw Hp Hse [Hm1 Hi1 Hnd1 Hl1 Hk1 Hb1] Hn Ha Hx Ho.
  assert (Hev : e ∉ v').
  { pose proof (ra_nodup _ _ _ _ (hw_rep _ _ _ _ Hw)) as Hnd. rewrite <-Hp in Hnd.
    by apply NoDup_cons in Hnd as [? _]. }
  split; auto.
  - split; auto.
    + intros i x Hi _. rewrite lookup_insert_ne; [auto|]. intros <-. apply Hev.
      by eapply list_elem_of_lookup_2.
    + intros x Hi. rewrite lookup_insert_is_Some'. auto.
  - intros x i Hi Hni. apply lookup_insert_Some in Hi as [[_ <-]|[Hne Hi]]; [done|].
    assert (x ∉ v) by (rewrite <-Hp; set_solver).
    rewrite Hse in Hi by done. by eapply hw_out.
Qed.

Lemma rep_prefix s idx w k n : rep s idx (w ++ k) -> rep (set_n s n) idx w.
Proof.
  intros [Hm Hi Hnd Hl Hk Hbd]. split; simpl.
  - intros i x Hx _. apply Hm; [|done]. by apply lookup_app_l_Some.
  - intros i x Hx _. apply Hi; [|done]. by apply lookup_app_l_Some.
  - by apply NoDup_app in Hnd as [? _].
  - rewrite length_app in Hl. lia.
  - intros x Hx. apply Hk. set_solver.
  - rewrite zlen_app in Hbd. pose proof (zlen_nonneg k). lia.
Qed.

(** Removing the event at position [h]. *)
Lemma remove_spec s idx w last h e :
  heap_wf timeout s idx (w ++ [last]) -> (w ++ [last]) !! h = Some e ->
  exists s' idx' v', resift timeout (set_n s (hn s - 1)) idx (Z.of_nat h) last = Done (s', idx') /\
    is_Some (idx' !! e) /\ heap_wf timeout s' (<[e := -1]> idx') v' /\
    e :: v' ≡ₚ w ++ [last] /\ same_elsewhere (w ++ [last]) idx idx' /\ ha s' = ha s.
Proof.
  intros Hw Hh. pose proof (hw_n _ _ _ _ Hw) as Hn. rewrite zlen_app, zlen_cons, zlen_nil in Hn.
  assert (Hke : is_Some (idx !! e)).
  { eapply ra_known; [apply Hw|]. by eapply list_elem_of_lookup_2. }
  apply lookup_app_Some in Hh as [Hh|[Hge Hh]].
  - destruct (replaced_hole _ _ _ _ _ _ Hw Hh) as (Hr & Ho & Hp).
    assert (Hl : <[h := last]> w !! h = Some last).
    { apply list_lookup_insert_eq. by eapply lookup_lt_Some. }
    assert (Hn2 : hn (set_n s (hn s - 1)) = zlen (<[h := last]> w)).
    { simpl. unfold zlen in *. rewrite length_insert. lia. }
    destruct (sifted_wf (set_n s (hn s - 1)) idx (<[h := last]> w)
      (resift timeout (set_n s (hn s - 1)) idx (Z.of_nat h) last))
      as (s' & idx' & v' & -> & Hp' & Hse & Hr' & Hn' & Ha' & Hm' & Ho' & Has); try apply Hw; auto.
    { by apply resift_spec. }
    assert (Hse' : same_elsewhere (w ++ [last]) idx idx').
    { intros x Hx. apply Hse. rewrite <-Hp in Hx. set_solver. }
    assert (Hp2 : e :: v' ≡ₚ w ++ [last]) by (by rewrite Hp').
    exists s', idx', v'. split; [done|]. split; [|eauto 8 using forget_wf].
    rewrite Hse; [done|]. pose proof (ra_nodup _ _ _ _ (hw_rep _ _ _ _ Hw)) as Hnd.
    rewrite <-Hp in Hnd. by apply NoDup_cons in Hnd as [? _].
  - apply list_lookup_singleton_Some in Hh as [Hz <-]. assert (h = length w) as -> by lia.
    change (Z.of_nat (length w)) with (zlen w). rewrite resift_last by done.
    assert (Hp : last :: w ≡ₚ w ++ [last]) by apply Permutation_cons_append.
    eexists _, _, w. split; [done|]. split; [done|]. split; [|done].
    apply (forget_wf s idx (w ++ [last])); simpl; auto; try apply Hw; [done|..|lia|].
    + apply (rep_prefix s idx w [last] (hn s - 1)), Hw.
    + intros q c x y He Hx Hy. eapply (hw_order _ _ _ _ Hw); eauto; by apply lookup_app_l_Some.
Qed.

Lemma min_heap_erase_spec s idx v e i :
  heap_wf timeout s idx v -> idx !! e = Some i ->
  exists r s' idx' v', min_heap_erase_ timeout s idx e = Done (r, s', idx') /\
    heap_wf timeout s' idx' v' /\ idx' !! e = Some (-1) /\
    same_elsewhere v idx idx' /\ ha s' = ha s /\
    (i = -1 /\ r = -1 /\ s' = s /\ idx' = idx /\ v' = v /\ e ∉ v \/
     i <> -1 /\ r = 0 /\ e :: v' ≡ₚ v).
Proof.
  intros Hw Hi. unfold min_heap_erase_, min_heap_idx. rewrite Hi. simpl.
  destruct (heap_wf_pos _ _ _ _ _ Hw Hi) as [[-> Hni]|(h & -> & Hh)].
  { exists (-1), s, idx, v. do 5 (split; [done|]). auto 10. }
  case_test; zb; [lia|]. destruct (exists_last (l := v)) as (w & last & ->).
  { intros ->. done. }
  pose proof (hw_n _ _ _ _ Hw) as Hn. rewrite zlen_app, zlen_cons, zlen_nil in Hn.
  pose proof (ra_bound _ _ _ _ (hw_rep _ _ _ _ Hw)) as Hb.
  rewrite zlen_app, zlen_cons, zlen_nil in Hb. unfold INT_MAX in Hb. pose proof (zlen_nonneg w).
  rewrite u32_small by lia. simpl.
  assert (Hs : slot (set_n s (hn s - 1)) (hn s - 1) = Done last).
  { change (slot s (hn s - 1) = Done last).
    replace (hn s - 1) with (Z.of_nat (length w)) by (unfold zlen in *; lia).
    eapply slot_rep; [apply Hw| |done]. by rewrite lookup_app_r, Nat.sub_diag. }
  rewrite Hs. simpl.
  destruct (remove_spec _ _ _ _ _ _ Hw Hh) as (s' & idx' & v' & -> & [j Hj] & Hw' & Hp & Hse & Has).
  simpl. unfold set_idx. rewrite Hj. simpl.
  exists 0, s', (<[e := -1]> idx'), v'. split; [done|]. split; [done|].
  split; [by rewrite lookup_insert_eq|]. split; [|split; [done|right; split; [lia|done]]].
  intros x Hx. rewrite lookup_insert_ne; [auto|]. intros ->. apply Hx.
  by eapply list_elem_of_lookup_2.
Qed.

(** Popping is erasing the first event. *)
Lemma min_heap_pop_erase s idx e v :
  heap_wf timeout s idx (e :: v) ->
  min_heap_pop_ timeout s idx =
    '(_, s', idx') ← min_heap_erase_ timeout s idx e; Done (Some e, s', idx').
Proof.
  intros Hw. pose proof (hw_n _ _ _ _ Hw) as Hn. rewrite zlen_cons in Hn.
  pose proof (ra_bound _ _ _ _ (hw_rep _ _ _ _ Hw)) as Hb. rewrite zlen_cons in Hb.
  unfold INT_MAX in Hb. pose proof (zlen_nonneg v).
  unfold min_heap_pop_, min_heap_erase_, min_heap_idx. case_test; zb; [lia|].
  rewrite (ra_idx _ _ _ _ (hw_rep _ _ _ _ Hw) 0%nat e eq_refl I).
  pose proof (slot_rep _ _ _ _ 0%nat e (hw_rep _ _ _ _ Hw) eq_refl I) as Hs.
  change (Z.of_nat 0) with 0 in Hs |- *. rewrite Hs. simpl. rewrite u32_small by lia.
  destruct (slot (set_n s (hn s - 1)) _) as [last|]; [|done]. simpl.
  change (resift timeout (set_n s (hn s - 1)) idx 0 last)
    with (min_heap_shift_down_ timeout (set_n s (hn s - 1)) idx 0 last).
  destruct (min_heap_shift_down_ timeout _ _ _ _) as [[s1 idx1]|]; [simpl|done].
  destruct (set_idx idx1 e (-1)); done.
Qed.

Lemma min_heap_pop_spec s idx v :
  heap_wf timeout s idx v ->
  exists s' idx' v', min_heap_pop_ timeout s idx = Done (head v, s', idx') /\
    heap_wf timeout s' idx' v' /\ same_elsewhere v idx idx' /\
    match v with [] => v' = [] | e :: _ => e :: v' ≡ₚ v /\ idx' !! e = Some (-1) end.
Proof.
  intros Hw. destruct v as [|e v].
  { exists s, idx, []. unfold min_heap_pop_. rewrite (hw_n _ _ _ _ Hw). done. }
  rewrite (min_heap_pop_erase _ _ e v Hw).
  pose proof (ra_idx _ _ _ _ (hw_rep _ _ _ _ Hw) 0%nat e eq_refl I) as Hi.
  destruct (min_heap_erase_spec _ _ _ _ _ Hw Hi)
    as (r & s' & idx' & v' & -> & Hw' & He & Hse & _ & [(? & _)|(_ & _ & Hp)]); [lia|].
  simpl. exists s', idx', v'. auto.
Qed.

End specs.

(** A new timeout of one event disturbs the order around that event only. *)
Lemma retimed_order t0 t1 v h e :
  (forall x, x <> e -> t1 x = t0 x) -> NoDup v -> v !! h = Some e ->
  heap_ordered t0 v -> order_around t1 v h.
Proof.
  intros Ht Hnd Hh Ho.
  assert (Hsame : forall i x, v !! i = Some x -> i <> h -> t1 x = t0 x).
  { intros i x Hx Hne. apply Ht. intros ->. apply Hne. by eapply NoDup_lookup. }
  destruct (heap_ordered_around t0 v h Ho) as [H1 H2].
  split; intros q c x y Hqc Hx Hy; unfold before;
    (erewrite (Hsame q), (Hsame c) by (eauto; unfold edge in *; lia)); [by eapply H1|by eapply H2].
Qed.

Lemma retimed_absent t0 t1 v e :
  (forall x, x <> e -> t1 x = t0 x) -> e ∉ v -> heap_ordered t0 v -> heap_ordered t1 v.
Proof.
  intros Ht He Ho q c x y Hqc Hx Hy. unfold before. rewrite !Ht; [by eapply Ho|..];
    intros ->; apply He; by eapply list_elem_of_lookup_2.
Qed.

Lemma min_heap_adjust_spec t0 t1 mem s idx v e i :
  (forall x, x <> e -> t1 x = t0 x) -> heap_wf t0 s idx v -> idx !! e = Some i ->
  zlen v < INT_MAX ->
  exists r s' idx' v', min_heap_adjust_ t1 mem s idx e = Done (r, s', idx') /\
    heap_wf t1 s' idx' v' /\ same_elsewhere (e :: v) idx idx' /\
    (r = 0 /\ (forall x, x ∈ v' <-> x = e \/ x ∈ v) \/
     r = -1 /\ mem = false /\ e ∉ v /\ v' = v /\ idx' = idx).
Proof.
  intros Ht Hw Hi Hb. unfold min_heap_adjust_, min_heap_idx. rewrite Hi. simpl.
  destruct (heap_wf_pos _ _ _ _ _ _ Hw Hi) as [[-> Hni]|(h & -> & Hh)].
  - assert (Hw1 : heap_wf t1 s idx v).
    { destruct Hw. split; eauto using retimed_absent. }
    simpl. destruct (min_heap_push_spec t1 mem _ _ _ e Hw1 Hi Hb)
      as (r & s' & idx' & v' & -> & Hw' & Hse & Hc).
    exists r, s', idx', v'. split; [done|]. split; [done|]. split; [done|].
    destruct Hc as [[-> Hp]|(-> & -> & -> & -> & _)]; [left|right; auto].
    split; [done|]. intros x. rewrite Hp. set_solver.
  - case_test; zb; [lia|]. pose proof Hw as [[Hm Hix Hnd Hl Hk Hbd] Hn Ha Hmx Ho Hout].
    destruct (sifted_wf t1 s idx v (resift t1 s idx (Z.of_nat h) e))
      as (s' & idx' & v' & -> & Hp & Hse & Hr' & Hn' & Ha' & Hm' & Ho' & _); auto.
    { apply resift_spec; eauto using retimed_order. split; eauto. }
    exists 0, s', idx', v'. split; [done|]. split; [|split].
    + split; auto. intros x j Hx Hni. rewrite Hse in Hx by (by rewrite <-Hp).
      apply (Hout x j Hx). by rewrite <-Hp.
    + intros x Hx. apply Hse. set_solver.
    + left. split; [done|]. intros x. rewrite Hp. split; [auto|]. intros [->|?]; [|done].
      by eapply list_elem_of_lookup_2.
Qed.

(** ** The heap as a priority queue

    The abstract queue maps the events it holds to their timeouts. *)

Inductive heap_op :=
| HSet (mem : bool) (e : Z) (tv : timeval)
| HErase (e : Z)
| HPop
| HTop.

Inductive heap_out := OInt (r : Z) | OEvent (o : option Z).

Definition earliest (q : gmap Z timeval) (e : Z) : Prop :=
  exists tv, q !! e = Some tv /\ map_Forall (fun _ tv' => tv_le tv tv') q.

Inductive pq_step : heap_op -> gmap Z timeval -> heap_out -> gmap Z timeval -> Prop :=
| pq_set mem e tv q : pq_step (HSet mem e tv) q (OInt 0) (<[e := tv]> q)
| pq_set_fail e tv q : q !! e = None -> pq_step (HSet false e tv) q (OInt (-1)) q
| pq_erase e tv q : q !! e = Some tv -> pq_step (HErase e) q (OInt 0) (delete e q)
| pq_erase_none e q : q !! e = None -> pq_step (HErase e) q (OInt (-1)) q
| pq_pop e q : earliest q e -> pq_step HPop q (OEvent (Some e)) (delete e q)
| pq_pop_none : pq_step HPop ∅ (OEvent None) ∅
| pq_top e q : earliest q e -> pq_step HTop q (OEvent (Some e)) q
| pq_top_none : pq_step HTop ∅ (OEvent None) ∅.

Inductive pq_run : list heap_op -> gmap Z timeval -> list heap_out -> gmap Z timeval -> Prop :=
| pq_nil q : pq_run [] q [] q
| pq_cons op ops q out q1 outs q2 :
    pq_step op q out q1 -> pq_run ops q1 outs q2 -> pq_run (op :: ops) q (out :: outs) q2.

(** The same operations on the array; [HSet] is what the event loop does to
    reschedule a timer: write [ev_timeout], then [min_heap_adjust_]. *)
Record hstate := mkH { h_heap : min_heap; h_idx : gmap Z Z; h_timeout : Z -> timeval }.

Definition heap_run_op (op : heap_op) (st : hstate) : outcome (heap_out * hstate) :=
  let s := h_heap st in let idx := h_idx st in let t := h_timeout st in
  match op with
  | HSet mem e tv =>
      let t := fun x => if x =? e then tv else t x in
      '(r, s, idx) ← min_heap_adjust_ t mem s idx e; Done (OInt r, mkH s idx t)
  | HErase e => '(r, s, idx) ← min_heap_erase_ t s idx e; Done (OInt r, mkH s idx t)
  | HPop => '(o, s, idx) ← min_heap_pop_ t s idx; Done (OEvent o, mkH s idx t)
  | HTop => o ← min_heap_top_ s; Done (OEvent o, st)
  end.

Fixpoint heap_run (ops : list heap_op) (st : hstate) : outcome (list heap_out * hstate) :=
  match ops with
  | [] => Done ([], st)
  | op :: ops =>
      '(o, st) ← heap_run_op op st; '(os, st) ← heap_run ops st; Done (o :: os, st)
  end.

Definition op_event (op : heap_op) : option Z :=
  match op with HSet _ e _ | HErase e => Some e | HPop | HTop => None end.

(** [v] lists the events of the queue [q], in heap order in the array. *)
Record sim (st : hstate) (q : gmap Z timeval) (v : list Z) : Prop := {
  sim_wf : heap_wf (h_timeout st) (h_heap st) (h_idx st) v;
  sim_dom : forall e, e ∈ v <-> is_Some (q !! e);
  sim_time : forall e tv, q !! e = Some tv -> h_timeout st e = tv
}.

Lemma sim_absent st q v e : sim st q v -> e ∉ v -> q !! e = None.
Proof. intros Hs He. rewrite eq_None_not_Some. by rewrite <-(sim_dom _ _ _ Hs). Qed.

Lemma sim_head st q v :
  sim st q v -> match head v with Some e => earliest q e | None => q = ∅ end.
Proof.
  intros Hs. destruct v as [|e v]; simpl.
  - apply map_empty. intros i. apply (sim_absent _ _ _ _ Hs), not_elem_of_nil.
  - destruct (proj1 (sim_dom _ _ _ Hs e)) as [tv Htv]; [set_solver|].
    exists tv. split; [done|]. intros e' tv' He'.
    rewrite <-(sim_time _ _ _ Hs _ _ Htv), <-(sim_time _ _ _ Hs _ _ He').
    apply (top_earliest _ (e :: v)); [apply Hs|done|]. apply (sim_dom _ _ _ Hs). eauto.
Qed.

Lemma sim_removed st q v s' idx' v' e :
  sim st q v -> heap_wf (h_timeout st) s' idx' v' -> e :: v' ≡ₚ v ->
  sim (mkH s' idx' (h_timeout st)) (delete e q) v'.
Proof.
  intros Hs Hw Hp. pose proof (ra_nodup _ _ _ _ (hw_rep _ _ _ _ (sim_wf _ _ _ Hs))) as Hnd.
  rewrite <-Hp in Hnd. apply NoDup_cons in Hnd as [He _].
  split; simpl; [done| |].
  - intros x. rewrite lookup_delete_is_Some, <-(sim_dom _ _ _ Hs), <-Hp. set_solver.
  - intros x tv [_ Hx]%lookup_delete_Some. by eapply sim_time.
Qed.

(** No event loses its position field. *)
Lemma known_after t s' (idx idx' : gmap Z Z) v v' e :
  heap_wf t s' idx' v' -> same_elsewhere v idx idx' ->
  (forall x, x ∈ v -> x ∈ v' \/ x = e) -> is_Some (idx' !! e) ->
  forall x, is_Some (idx !! x) -> is_Some (idx' !! x).
Proof.
  intros Hw Hse Hv He x Hx. destruct (decide (x ∈ v)) as [Hi|Hi].
  - destruct (Hv x Hi) as [?| ->]; [|done]. eapply ra_known; [apply Hw|done].
  - by rewrite Hse.
Qed.

Lemma sim_set mem e tv st q v :
  sim st q v -> is_Some (h_idx st !! e) -> zlen v < INT_MAX ->
  exists out st' q' v', heap_run_op (HSet mem e tv) st = Done (out, st') /\
    pq_step (HSet mem e tv) q out q' /\ sim st' q' v' /\ zlen v' <= zlen v + 1 /\
    (forall x, is_Some (h_idx st !! x) -> is_Some (h_idx st' !! x)).
Proof.
  intros Hs [i Hi] Hb. simpl. set (t1 := fun x => if x =? e then tv else h_timeout st x).
  assert (Ht : forall x, x <> e -> t1 x = h_timeout st x).
  { intros x Hx. unfold t1. case_test; zb; done. }
  destruct (min_heap_adjust_spec _ t1 mem _ _ _ _ _ Ht (sim_wf _ _ _ Hs) Hi Hb)
    as (r & s' & idx' & v' & -> & Hw' & Hse & Hc). simpl.
  assert (Hk : r = 0 -> (forall x, x ∈ v' <-> x = e \/ x ∈ v) ->
    forall x, is_Some (h_idx st !! x) -> is_Some (idx' !! x)).
  { intros _ Hv. apply (known_after _ _ _ _ _ _ e Hw' Hse); [set_solver|].
    eapply ra_known; [apply Hw'|]. set_solver. }
  destruct Hc as [[-> Hv]|(-> & -> & He & -> & ->)].
  - eexists _, _, (<[e := tv]> q), v'. split; [done|]. split; [constructor|].
    split; [|split; [|auto]].
    + split; simpl; [done| |].
      * intros x. rewrite Hv, lookup_insert_is_Some', (sim_dom _ _ _ Hs). naive_solver.
      * intros x tv' [[<- <-]|[Hne Hx]]%lookup_insert_Some; [unfold t1; by rewrite Z.eqb_refl|].
        rewrite Ht by done. by eapply sim_time.
    + assert (Hle : (length v' <= length (e :: v))%nat); [|unfold zlen; simpl in Hle; lia].
      apply submseteq_length, NoDup_submseteq; [apply Hw'|]. set_solver.
  - eexists _, _, q, v. split; [done|]. split; [constructor; by eapply sim_absent|].
    split; [|split; [lia|auto]]. split; simpl; [done|apply Hs|].
    intros x tv' Hx. rewrite Ht; [by eapply sim_time|].
    intros ->. pose proof (sim_absent _ _ _ _ Hs He). congruence.
Qed.

Lemma sim_erase e st q v :
  sim st q v -> is_Some (h_idx st !! e) ->
  exists out st' q' v', heap_run_op (HErase e) st = Done (out, st') /\
    pq_step (HErase e) q out q' /\ sim st' q' v' /\ zlen v' <= zlen v + 1 /\
    (forall x, is_Some (h_idx st !! x) -> is_Some (h_idx st' !! x)).
Proof.
  intros Hs [i Hi]. simpl.
  destruct (min_heap_erase_spec _ _ _ _ _ _ (sim_wf _ _ _ Hs) Hi)
    as (r & s' & idx' & v' & -> & Hw' & He' & Hse & _ & Hc). simpl.
  destruct Hc as [(_ & -> & -> & -> & -> & He)|(_ & -> & Hp)].
  - eexists _, _, q, v. split; [done|]. split; [constructor; by eapply sim_absent|].
    split; [|split; [lia|done]]. destruct Hs. by split.
  - destruct (proj1 (sim_dom _ _ _ Hs e)) as [tv Htv]; [rewrite <-Hp; set_solver|].
    eexists _, _, (delete e q), v'. split; [done|]. split; [by econstructor|].
    split; [by eapply sim_removed|]. split.
    + pose proof (Permutation_length Hp) as Hl. unfold zlen. simpl in *. lia.
    + apply (known_after _ _ _ _ _ _ e Hw' Hse); [|eauto]. intros x. rewrite <-Hp. set_solver.
Qed.

Lemma sim_pop st q v :
  sim st q v ->
  exists out st' q' v', heap_run_op HPop st = Done (out, st') /\
    pq_step HPop q out q' /\ sim st' q' v' /\ zlen v' <= zlen v + 1 /\
    (forall x, is_Some (h_idx st !! x) -> is_Some (h_idx st' !! x)).
Proof.
  intros Hs. simpl. pose proof (sim_head _ _ _ Hs) as Hh.
  destruct (min_heap_pop_spec _ _ _ _ (sim_wf _ _ _ Hs)) as (s' & idx' & v' & -> & Hw' & Hse & Hc).
  simpl. destruct v as [|e v]; simpl in *.
  - subst. eexists _, _, ∅, []. split; [done|]. split; [constructor|].
    split; [by destruct Hs; split|]. split; [lia|].
    intros x Hx. rewrite Hse; [done|]. apply not_elem_of_nil.
  - destruct Hc as [Hp He']. eexists _, _, (delete e q), v'. split; [done|].
    split; [by constructor|]. split; [by eapply sim_removed|]. split.
    + pose proof (Permutation_length Hp) as Hl. unfold zlen. simpl in *. lia.
    + apply (known_after _ _ _ _ _ _ e Hw' Hse); [|eauto]. intros x. rewrite <-Hp. set_solver.
Qed.

Lemma sim_step op st q v :
  sim st q v -> (forall e, op_event op = Some e -> is_Some (h_idx st !! e)) -> zlen v < INT_MAX ->
  exists out st' q' v', heap_run_op op st = Done (out, st') /\
    pq_step op q out q' /\ sim st' q' v' /\ zlen v' <= zlen v + 1 /\
    (forall x, is_Some (h_idx st !! x) -> is_Some (h_idx st' !! x)).
Proof.
  intros Hs Hk Hb. destruct op as [mem e tv|e| |].
  - apply sim_set; auto.
  - apply sim_erase; auto.
  - by apply sim_pop.
  - simpl. rewrite (min_heap_top_spec _ _ _ _ (sim_wf _ _ _ Hs)). simpl.
    eexists _, st, q, v. split; [done|]. split; [|split; [done|split; [lia|done]]].
    pose proof (sim_head _ _ _ Hs) as Hh. destruct (head v); [by constructor|subst; constructor].
Qed.

Lemma sim_run ops st q v :
  sim st q v -> zlen v + zlen ops <= INT_MAX ->
  Forall (fun op => forall e, op_event op = Some e -> is_Some (h_idx st !! e)) ops ->
  exists outs st' q' v', heap_run ops st = Done (outs, st') /\ pq_run ops q outs q' /\ sim st' q' v'.
Proof.
  revert st q v. induction ops as [|op ops IH]; intros st q v Hs Hb Hk.
  { exists [], st, q, v. repeat split; try constructor; apply Hs. }
  apply Forall_cons in Hk as [Hk Hks]. rewrite zlen_cons in Hb. pose proof (zlen_nonneg ops).
  destruct (sim_step op st q v Hs Hk ltac:(lia)) as (o & st1 & q1 & v1 & Hr & Hp & Hs1 & Hl & Hk1).
  destruct (IH st1 q1 v1 Hs1) as (os & st2 & q2 & v2 & Hr2 & Hp2 & Hs2); [lia| |].
  { eapply Forall_impl; [exact Hks|]. eauto. }
  exists (o :: os), st2, q2, v2. split; [|split; [by econstructor|done]].
  simpl heap_run. rewrite Hr. simpl. rewrite Hr2. done.
Qed.

(** ** Properties *)

(** C7: from the empty heap, any sequence of schedule, reschedule, cancel,
    pop and top calls on known events runs without leaving the array, whatever
    allocations fail, and answers as a priority queue does: top and pop give
    an event with the earliest timeout, cancel and reschedule act on exactly
    the event they name. *)
Theorem heap_refines_priority_queue ops idx timeout :
  (forall e i, idx !! e = Some i -> i = -1) ->
  Forall (fun op => forall e, op_event op = Some e -> is_Some (idx !! e)) ops ->
  zlen ops <= INT_MAX ->
  exists outs st q, heap_run ops (mkH min_heap_ctor_ idx timeout) = Done (outs, st) /\
    pq_run ops ∅ outs q /\ hn (h_heap st) = Z.of_nat (size q).
Proof.
  intros Hi Hk Hb.
  destruct (sim_run ops (mkH min_heap_ctor_ idx timeout) ∅ []) as (outs & st & q & v & Hr & Hp & Hs).
  - split; simpl; [by apply heap_wf_ctor| |done]. intros e. split; [set_solver|].
    intros [? ?]. done.
  - rewrite zlen_nil. lia.
  - done.
  - exists outs, st, q. split; [done|]. split; [done|].
    rewrite (hw_n _ _ _ _ (sim_wf _ _ _ Hs)). unfold zlen. f_equal.
    rewrite <-size_dom. assert (dom q = list_to_set v) as ->.
    { apply set_eq. intros e. rewrite elem_of_dom, elem_of_list_to_set. symmetry. apply Hs. }
    symmetry. apply size_list_to_set, Hs.
Qed.

Definition three_timers : list heap_op :=
  [HSet true 10 (mkTimeval 5 0); HSet true 20 (mkTimeval 3 7); HSet true 30 (mkTimeval 3 2);
   HTop; HSet true 30 (mkTimeval 9 0); HErase 10; HPop; HPop; HPop].

Lemma heap_refines_priority_queue_witness :
  exists outs st q,
    heap_run three_timers
      (mkH min_heap_ctor_ {[10 := -1; 20 := -1; 30 := -1]} (fun _ => mkTimeval 0 0)) = Done (outs, st) /\
    pq_run three_timers ∅ outs q /\ hn (h_heap st) = Z.of_nat (size q).
Proof.
  apply (heap_refines_priority_queue three_timers {[10 := -1; 20 := -1; 30 := -1]}).
  - intros e i H. apply (map_Forall_lookup_1 (fun _ i => i = -1) _ _ _ ) in H; [done|].
    apply (bool_decide_unpack _). vm_compute. exact I.
  - repeat constructor; intros e [= <-]; vm_compute; eauto.
  - vm_compute. congruence.
Defined.

Example three_timers_order :
  fst <$> heap_run three_timers
    (mkH min_heap_ctor_ {[10 := -1; 20 := -1; 30 := -1]} (fun _ => mkTimeval 0 0)) =
  Done [OInt 0; OInt 0; OInt 0; OEvent (Some 30); OInt 0; OInt 0;
        OEvent (Some 20); OEvent (Some 30); OEvent None].
Proof. vm_compute. reflexivity. Qed.
