(* ===== verification/EventBase.v ===== *)
(** * The event base

    Models the core of [libevent/event.c] and [libevent/evmap.c]: events and
    their flags, the per-descriptor and per-signal maps, the active queues,
    timers in the heap of [MinHeap] and in common-timeout queues, adding,
    deleting, activating and finalizing events, and deferred callbacks.

    An [event_callback] is the first member of an [event], so both have the
    same address and are one record here ([EVLIST_INIT] tells them apart).
    Queues are lists of addresses; unlinking an element that is not linked is
    [Crash].  The field [min_heap_idx] is the column [hidx] ([MinHeap]); its
    union partner, the link in a common-timeout queue, is the queue itself.
    [kernel] and [ksig] record what the backend ([evsel], [evsigsel]) was told
    successfully.  All calls are made with the base lock held, by the thread
    that runs the loop: the wake-up of another thread and the wait for a
    callback that another thread is running are left out.  The environment
    gives the clock, whether allocations succeed, and whether the backend
    accepts a change. *)

From S2P Require Import Prelude MinHeap.

(** ** Constants *)

Definition EVLIST_TIMEOUT : Z := 0x01.
Definition EVLIST_INSERTED : Z := 0x02.
Definition EVLIST_ACTIVE : Z := 0x08.
Definition EVLIST_INTERNAL : Z := 0x10.
Definition EVLIST_ACTIVE_LATER : Z := 0x20.
Definition EVLIST_FINALIZING : Z := 0x40.
Definition EVLIST_INIT : Z := 0x80.
Definition EVLIST_ALL : Z := 0xff.

Definition EV_TIMEOUT : Z := 0x01.
Definition EV_READ : Z := 0x02.
Definition EV_WRITE : Z := 0x04.
Definition EV_SIGNAL : Z := 0x08.
Definition EV_PERSIST : Z := 0x10.
Definition EV_ET : Z := 0x20.
Definition EV_FINALIZE : Z := 0x40.
Definition EV_CLOSED : Z := 0x80.

(** [EV_READ|EV_WRITE|EV_CLOSED] *)
Definition EV_IO : Z := Z.lor EV_READ (Z.lor EV_WRITE EV_CLOSED).

Inductive closure :=
| EV_CLOSURE_EVENT
| EV_CLOSURE_EVENT_SIGNAL
| EV_CLOSURE_EVENT_PERSIST
| EV_CLOSURE_CB_SELF
| EV_CLOSURE_CB_FINALIZE
| EV_CLOSURE_EVENT_FINALIZE
| EV_CLOSURE_EVENT_FINALIZE_FREE.

#[export] Instance closure_eq_dec : EqDecision closure.
Proof. solve_decision. Defined.

Inductive del_mode :=
| EVENT_DEL_NOBLOCK | EVENT_DEL_BLOCK | EVENT_DEL_AUTOBLOCK | EVENT_DEL_EVEN_IF_FINALIZING.

(** ** Data *)

Record event := mkEvent {
  ev_flags : Z;
  ev_pri : Z;
  ev_closure : closure;
  ev_fd : Z;
  ev_events : Z;
  ev_res : Z;
  ev_timeout : timeval;
  ev_io_timeout : timeval;
  ev_ncalls : Z;
  ev_pncalls : option Z
}.

Definition set_ev_flags (x : event) (v : Z) : event :=
    mkEvent v (ev_pri x) (ev_closure x) (ev_fd x) (ev_events x) (ev_res x) (ev_timeout x)
    (ev_io_timeout x) (ev_ncalls x) (ev_pncalls x).
Definition set_ev_pri (x : event) (v : Z) : event :=
    mkEvent (ev_flags x) v (ev_closure x) (ev_fd x) (ev_events x) (ev_res x) (ev_timeout x)
    (ev_io_timeout x) (ev_ncalls x) (ev_pncalls x).
Definition set_ev_closure (x : event) (v : closure) : event :=
    mkEvent (ev_flags x) (ev_pri x) v (ev_fd x) (ev_events x) (ev_res x) (ev_timeout x)
    (ev_io_timeout x) (ev_ncalls x) (ev_pncalls x).
Definition set_ev_fd (x : event) (v : Z) : event :=
    mkEvent (ev_flags x) (ev_pri x) (ev_closure x) v (ev_events x) (ev_res x) (ev_timeout x)
    (ev_io_timeout x) (ev_ncalls x) (ev_pncalls x).
Definition set_ev_events (x : event) (v : Z) : event :=
    mkEvent (ev_flags x) (ev_pri x) (ev_closure x) (ev_fd x) v (ev_res x) (ev_timeout x)
    (ev_io_timeout x) (ev_ncalls x) (ev_pncalls x).
Definition set_ev_res (x : event) (v : Z) : event :=
    mkEvent (ev_flags x) (ev_pri x) (ev_closure x) (ev_fd x) (ev_events x) v (ev_timeout x)
    (ev_io_timeout x) (ev_ncalls x) (ev_pncalls x).
Definition set_ev_timeout (x : event) (v : timeval) : event :=
    mkEvent (ev_flags x) (ev_pri x) (ev_closure x) (ev_fd x) (ev_events x) (ev_res x) v
    (ev_io_timeout x) (ev_ncalls x) (ev_pncalls x).
Definition set_ev_io_timeout (x : event) (v : timeval) : event :=
    mkEvent (ev_flags x) (ev_pri x) (ev_closure x) (ev_fd x) (ev_events x) (ev_res x)
    (ev_timeout x) v (ev_ncalls x) (ev_pncalls x).
Definition set_ev_ncalls (x : event) (v : Z) : event :=
    mkEvent (ev_flags x) (ev_pri x) (ev_closure x) (ev_fd x) (ev_events x) (ev_res x)
    (ev_timeout x) (ev_io_timeout x) v (ev_pncalls x).
Definition set_ev_pncalls (x : event) (v : option Z) : event :=
    mkEvent (ev_flags x) (ev_pri x) (ev_closure x) (ev_fd x) (ev_events x) (ev_res x)
    (ev_timeout x) (ev_io_timeout x) (ev_ncalls x) v.

Record evmap_io := mkIo { io_events : list Z; nread : Z; nwrite : Z; nclose : Z }.

(** The array of slots: [entries[i]] is [NULL] where the map has no entry. *)
Record event_map (A : Type) := mkMap { entries : gmap Z A; nentries : Z }.
Arguments mkMap {A}.
Arguments entries {A}.
Arguments nentries {A}.
Definition event_io_map : Type := event_map evmap_io.
Definition event_signal_map : Type := event_map (list Z).

Record common_timeout_list := mkCtl {
  ctl_events : list Z; ctl_duration : timeval; ctl_timeout_event : Z
}.

(** [sig_frame] is the local variable [ncalls] of the signal closure that is
    running, with its identity; [ev_pncalls] points to such a variable. *)
Record event_base := mkBase {
  evs : gmap Z event;
  timeheap : min_heap;
  hidx : gmap Z Z;
  common_timeout_queues : list common_timeout_list;
  n_common_timeouts_allocated : Z;
  activequeues : list (list Z);
  active_later_queue : list Z;
  io : event_io_map;
  sigmap : event_signal_map;
  kernel : gmap Z Z;
  ksig : gset Z;
  event_count : Z;
  event_count_max : Z;
  event_count_active : Z;
  event_count_active_max : Z;
  virtual_event_count : Z;
  virtual_event_count_max : Z;
  event_gotterm : bool;
  event_break : bool;
  event_continue : bool;
  event_running_priority : Z;
  running_loop : bool;
  n_deferreds_queued : Z;
  current_event : option Z;
  sig_frame : option (Z * Z);
  sig_next : Z;
  tv_cache : timeval;
  tv_clock_diff : timeval;
  last_updated_clock_diff : Z;
  no_cache_time : bool;
  max_dispatch_time : timeval;
  max_dispatch_callbacks : Z;
  limit_callbacks_after_prio : Z
}.

Definition set_evs (x : event_base) (v : gmap Z event) : event_base :=
    mkBase v (timeheap x) (hidx x) (common_timeout_queues x) (n_common_timeouts_allocated x)
    (activequeues x) (active_later_queue x) (io x) (sigmap x) (kernel x) (ksig x) (event_count
    x) (event_count_max x) (event_count_active x) (event_count_active_max x)
    (virtual_event_count x) (virtual_event_count_max x) (event_gotterm x) (event_break x)
    (event_continue x) (event_running_priority x) (running_loop x) (n_deferreds_queued x)
    (current_event x) (sig_frame x) (sig_next x) (tv_cache x) (tv_clock_diff x)
    (last_updated_clock_diff x) (no_cache_time x) (max_dispatch_time x) (max_dispatch_callbacks
    x) (limit_callbacks_after_prio x).
Definition set_timeheap (x : event_base) (v : min_heap) : event_base :=
    mkBase (evs x) v (hidx x) (common_timeout_queues x) (n_common_timeouts_allocated x)
    (activequeues x) (active_later_queue x) (io x) (sigmap x) (kernel x) (ksig x) (event_count
    x) (event_count_max x) (event_count_active x) (event_count_active_max x)
    (virtual_event_count x) (virtual_event_count_max x) (event_gotterm x) (event_break x)
    (event_continue x) (event_running_priority x) (running_loop x) (n_deferreds_queued x)
    (current_event x) (sig_frame x) (sig_next x) (tv_cache x) (tv_clock_diff x)
    (last_updated_clock_diff x) (no_cache_time x) (max_dispatch_time x) (max_dispatch_callbacks
    x) (limit_callbacks_after_prio x).
Definition set_hidx (x : event_base) (v : gmap Z Z) : event_base :=
    mkBase (evs x) (timeheap x) v (common_timeout_queues x) (n_common_timeouts_allocated x)
    (activequeues x) (active_later_queue x) (io x) (sigmap x) (kernel x) (ksig x) (event_count
    x) (event_count_max x) (event_count_active x) (event_count_active_max x)
    (virtual_event_count x) (virtual_event_count_max x) (event_gotterm x) (event_break x)
    (event_continue x) (event_running_priority x) (running_loop x) (n_deferreds_queued x)
    (current_event x) (sig_frame x) (sig_next x) (tv_cache x) (tv_clock_diff x)
    (last_updated_clock_diff x) (no_cache_time x) (max_dispatch_time x) (max_dispatch_callbacks
    x) (limit_callbacks_after_prio x).
Definition set_common_timeout_queues (x : event_base) (v : list common_timeout_list) : event_base :=
    mkBase (evs x) (timeheap x) (hidx x) v (n_common_timeouts_allocated x) (activequeues x)
    (active_later_queue x) (io x) (sigmap x) (kernel x) (ksig x) (event_count x)
    (event_count_max x) (event_count_active x) (event_count_active_max x) (virtual_event_count
    x) (virtual_event_count_max x) (event_gotterm x) (event_break x) (event_continue x)
    (event_running_priority x) (running_loop x) (n_deferreds_queued x) (current_event x)
    (sig_frame x) (sig_next x) (tv_cache x) (tv_clock_diff x) (last_updated_clock_diff x)
    (no_cache_time x) (max_dispatch_time x) (max_dispatch_callbacks x)
    (limit_callbacks_after_prio x).
Definition set_n_common_timeouts_allocated (x : event_base) (v : Z) : event_base :=
    mkBase (evs x) (timeheap x) (hidx x) (common_timeout_queues x) v (activequeues x)
    (active_later_queue x) (io x) (sigmap x) (kernel x) (ksig x) (event_count x)
    (event_count_max x) (event_count_active x) (event_count_active_max x) (virtual_event_count
    x) (virtual_event_count_max x) (event_gotterm x) (event_break x) (event_continue x)
    (event_running_priority x) (running_loop x) (n_deferreds_queued x) (current_event x)
    (sig_frame x) (sig_next x) (tv_cache x) (tv_clock_diff x) (last_updated_clock_diff x)
    (no_cache_time x) (max_dispatch_time x) (max_dispatch_callbacks x)
    (limit_callbacks_after_prio x).
Definition set_activequeues (x : event_base) (v : list (list Z)) : event_base :=
    mkBase (evs x) (timeheap x) (hidx x) (common_timeout_queues x) (n_common_timeouts_allocated
    x) v (active_later_queue x) (io x) (sigmap x) (kernel x) (ksig x) (event_count x)
    (event_count_max x) (event_count_active x) (event_count_active_max x) (virtual_event_count
    x) (virtual_event_count_max x) (event_gotterm x) (event_break x) (event_continue x)
    (event_running_priority x) (running_loop x) (n_deferreds_queued x) (current_event x)
    (sig_frame x) (sig_next x) (tv_cache x) (tv_clock_diff x) (last_updated_clock_diff x)
    (no_cache_time x) (max_dispatch_time x) (max_dispatch_callbacks x)
    (limit_callbacks_after_prio x).
Definition set_active_later_queue (x : event_base) (v : list Z) : event_base :=
    mkBase (evs x) (timeheap x) (hidx x) (common_timeout_queues x) (n_common_timeouts_allocated
    x) (activequeues x) v (io x) (sigmap x) (kernel x) (ksig x) (event_count x) (event_count_max
    x) (event_count_active x) (event_count_active_max x) (virtual_event_count x)
    (virtual_event_count_max x) (event_gotterm x) (event_break x) (event_continue x)
    (event_running_priority x) (running_loop x) (n_deferreds_queued x) (current_event x)
    (sig_frame x) (sig_next x) (tv_cache x) (tv_clock_diff x) (last_updated_clock_diff x)
    (no_cache_time x) (max_dispatch_time x) (max_dispatch_callbacks x)
    (limit_callbacks_after_prio x).
Definition set_io (x : event_base) (v : event_io_map) : event_base :=
    mkBase (evs x) (timeheap x) (hidx x) (common_timeout_queues x) (n_common_timeouts_allocated
    x) (activequeues x) (active_later_queue x) v (sigmap x) (kernel x) (ksig x) (event_count x)
    (event_count_max x) (event_count_active x) (event_count_active_max x) (virtual_event_count
    x) (virtual_event_count_max x) (event_gotterm x) (event_break x) (event_continue x)
    (event_running_priority x) (running_loop x) (n_deferreds_queued x) (current_event x)
    (sig_frame x) (sig_next x) (tv_cache x) (tv_clock_diff x) (last_updated_clock_diff x)
    (no_cache_time x) (max_dispatch_time x) (max_dispatch_callbacks x)
    (limit_callbacks_after_prio x).
Definition set_sigmap (x : event_base) (v : event_signal_map) : event_base :=
    mkBase (evs x) (timeheap x) (hidx x) (common_timeout_queues x) (n_common_timeouts_allocated
    x) (activequeues x) (active_later_queue x) (io x) v (kernel x) (ksig x) (event_count x)
    (event_count_max x) (event_count_active x) (event_count_active_max x) (virtual_event_count
    x) (virtual_event_count_max x) (event_gotterm x) (event_break x) (event_continue x)
    (event_running_priority x) (running_loop x) (n_deferreds_queued x) (current_event x)
    (sig_frame x) (sig_next x) (tv_cache x) (tv_clock_diff x) (last_updated_clock_diff x)
    (no_cache_time x) (max_dispatch_time x) (max_dispatch_callbacks x)
    (limit_callbacks_after_prio x).
Definition set_kernel (x : event_base) (v : gmap Z Z) : event_base :=
    mkBase (evs x) (timeheap x) (hidx x) (common_timeout_queues x) (n_common_timeouts_allocated
    x) (activequeues x) (active_later_queue x) (io x) (sigmap x) v (ksig x) (event_count x)
    (event_count_max x) (event_count_active x) (event_count_active_max x) (virtual_event_count
    x) (virtual_event_count_max x) (event_gotterm x) (event_break x) (event_continue x)
    (event_running_priority x) (running_loop x) (n_deferreds_queued x) (current_event x)
    (sig_frame x) (sig_next x) (tv_cache x) (tv_clock_diff x) (last_updated_clock_diff x)
    (no_cache_time x) (max_dispatch_time x) (max_dispatch_callbacks x)
    (limit_callbacks_after_prio x).
Definition set_ksig (x : event_base) (v : gset Z) : event_base :=
    mkBase (evs x) (timeheap x) (hidx x) (common_timeout_queues x) (n_common_timeouts_allocated
    x) (activequeues x) (active_later_queue x) (io x) (sigmap x) (kernel x) v (event_count x)
    (event_count_max x) (event_count_active x) (event_count_active_max x) (virtual_event_count
    x) (virtual_event_count_max x) (event_gotterm x) (event_break x) (event_continue x)
    (event_running_priority x) (running_loop x) (n_deferreds_queued x) (current_event x)
    (sig_frame x) (sig_next x) (tv_cache x) (tv_clock_diff x) (last_updated_clock_diff x)
    (no_cache_time x) (max_dispatch_time x) (max_dispatch_callbacks x)
    (limit_callbacks_after_prio x).
Definition set_event_count (x : event_base) (v : Z) : event_base :=
    mkBase (evs x) (timeheap x) (hidx x) (common_timeout_queues x) (n_common_timeouts_allocated
    x) (activequeues x) (active_later_queue x) (io x) (sigmap x) (kernel x) (ksig x) v
    (event_count_max x) (event_count_active x) (event_count_active_max x) (virtual_event_count
    x) (virtual_event_count_max x) (event_gotterm x) (event_break x) (event_continue x)
    (event_running_priority x) (running_loop x) (n_deferreds_queued x) (current_event x)
    (sig_frame x) (sig_next x) (tv_cache x) (tv_clock_diff x) (last_updated_clock_diff x)
    (no_cache_time x) (max_dispatch_time x) (max_dispatch_callbacks x)
    (limit_callbacks_after_prio x).
Definition set_event_count_max (x : event_base) (v : Z) : event_base :=
    mkBase (evs x) (timeheap x) (hidx x) (common_timeout_queues x) (n_common_timeouts_allocated
    x) (activequeues x) (active_later_queue x) (io x) (sigmap x) (kernel x) (ksig x)
    (event_count x) v (event_count_active x) (event_count_active_max x) (virtual_event_count x)
    (virtual_event_count_max x) (event_gotterm x) (event_break x) (event_continue x)
    (event_running_priority x) (running_loop x) (n_deferreds_queued x) (current_event x)
    (sig_frame x) (sig_next x) (tv_cache x) (tv_clock_diff x) (last_updated_clock_diff x)
    (no_cache_time x) (max_dispatch_time x) (max_dispatch_callbacks x)
    (limit_callbacks_after_prio x).
Definition set_event_count_active (x : event_base) (v : Z) : event_base :=
    mkBase (evs x) (timeheap x) (hidx x) (common_timeout_queues x) (n_common_timeouts_allocated
    x) (activequeues x) (active_later_queue x) (io x) (sigmap x) (kernel x) (ksig x)
    (event_count x) (event_count_max x) v (event_count_active_max x) (virtual_event_count x)
    (virtual_event_count_max x) (event_gotterm x) (event_break x) (event_continue x)
    (event_running_priority x) (running_loop x) (n_deferreds_queued x) (current_event x)
    (sig_frame x) (sig_next x) (tv_cache x) (tv_clock_diff x) (last_updated_clock_diff x)
    (no_cache_time x) (max_dispatch_time x) (max_dispatch_callbacks x)
    (limit_callbacks_after_prio x).
Definition set_event_count_active_max (x : event_base) (v : Z) : event_base :=
    mkBase (evs x) (timeheap x) (hidx x) (common_timeout_queues x) (n_common_timeouts_allocated
    x) (activequeues x) (active_later_queue x) (io x) (sigmap x) (kernel x) (ksig x)
    (event_count x) (event_count_max x) (event_count_active x) v (virtual_event_count x)
    (virtual_event_count_max x) (event_gotterm x) (event_break x) (event_continue x)
    (event_running_priority x) (running_loop x) (n_deferreds_queued x) (current_event x)
    (sig_frame x) (sig_next x) (tv_cache x) (tv_clock_diff x) (last_updated_clock_diff x)
    (no_cache_time x) (max_dispatch_time x) (max_dispatch_callbacks x)
    (limit_callbacks_after_prio x).
Definition set_virtual_event_count (x : event_base) (v : Z) : event_base :=
    mkBase (evs x) (timeheap x) (hidx x) (common_timeout_queues x) (n_common_timeouts_allocated
    x) (activequeues x) (active_later_queue x) (io x) (sigmap x) (kernel x) (ksig x)
    (event_count x) (event_count_max x) (event_count_active x) (event_count_active_max x) v
    (virtual_event_count_max x) (event_gotterm x) (event_break x) (event_continue x)
    (event_running_priority x) (running_loop x) (n_deferreds_queued x) (current_event x)
    (sig_frame x) (sig_next x) (tv_cache x) (tv_clock_diff x) (last_updated_clock_diff x)
    (no_cache_time x) (max_dispatch_time x) (max_dispatch_callbacks x)
    (limit_callbacks_after_prio x).
Definition set_virtual_event_count_max (x : event_base) (v : Z) : event_base :=
    mkBase (evs x) (timeheap x) (hidx x) (common_timeout_queues x) (n_common_timeouts_allocated
    x) (activequeues x) (active_later_queue x) (io x) (sigmap x) (kernel x) (ksig x)
    (event_count x) (event_count_max x) (event_count_active x) (event_count_active_max x)
    (virtual_event_count x) v (event_gotterm x) (event_break x) (event_continue x)
    (event_running_priority x) (running_loop x) (n_deferreds_queued x) (current_event x)
    (sig_frame x) (sig_next x) (tv_cache x) (tv_clock_diff x) (last_updated_clock_diff x)
    (no_cache_time x) (max_dispatch_time x) (max_dispatch_callbacks x)
    (limit_callbacks_after_prio x).
Definition set_event_gotterm (x : event_base) (v : bool) : event_base :=
    mkBase (evs x) (timeheap x) (hidx x) (common_timeout_queues x) (n_common_timeouts_allocated
    x) (activequeues x) (active_later_queue x) (io x) (sigmap x) (kernel x) (ksig x)
    (event_count x) (event_count_max x) (event_count_active x) (event_count_active_max x)
    (virtual_event_count x) (virtual_event_count_max x) v (event_break x) (event_continue x)
    (event_running_priority x) (running_loop x) (n_deferreds_queued x) (current_event x)
    (sig_frame x) (sig_next x) (tv_cache x) (tv_clock_diff x) (last_updated_clock_diff x)
    (no_cache_time x) (max_dispatch_time x) (max_dispatch_callbacks x)
    (limit_callbacks_after_prio x).
Definition set_event_break (x : event_base) (v : bool) : event_base :=
    mkBase (evs x) (timeheap x) (hidx x) (common_timeout_queues x) (n_common_timeouts_allocated
    x) (activequeues x) (active_later_queue x) (io x) (sigmap x) (kernel x) (ksig x)
    (event_count x) (event_count_max x) (event_count_active x) (event_count_active_max x)
    (virtual_event_count x) (virtual_event_count_max x) (event_gotterm x) v (event_continue x)
    (event_running_priority x) (running_loop x) (n_deferreds_queued x) (current_event x)
    (sig_frame x) (sig_next x) (tv_cache x) (tv_clock_diff x) (last_updated_clock_diff x)
    (no_cache_time x) (max_dispatch_time x) (max_dispatch_callbacks x)
    (limit_callbacks_after_prio x).
Definition set_event_continue (x : event_base) (v : bool) : event_base :=
    mkBase (evs x) (timeheap x) (hidx x) (common_timeout_queues x) (n_common_timeouts_allocated
    x) (activequeues x) (active_later_queue x) (io x) (sigmap x) (kernel x) (ksig x)
    (event_count x) (event_count_max x) (event_count_active x) (event_count_active_max x)
    (virtual_event_count x) (virtual_event_count_max x) (event_gotterm x) (event_break x) v
    (event_running_priority x) (running_loop x) (n_deferreds_queued x) (current_event x)
    (sig_frame x) (sig_next x) (tv_cache x) (tv_clock_diff x) (last_updated_clock_diff x)
    (no_cache_time x) (max_dispatch_time x) (max_dispatch_callbacks x)
    (limit_callbacks_after_prio x).
Definition set_event_running_priority (x : event_base) (v : Z) : event_base :=
    mkBase (evs x) (timeheap x) (hidx x) (common_timeout_queues x) (n_common_timeouts_allocated
    x) (activequeues x) (active_later_queue x) (io x) (sigmap x) (kernel x) (ksig x)
    (event_count x) (event_count_max x) (event_count_active x) (event_count_active_max x)
    (virtual_event_count x) (virtual_event_count_max x) (event_gotterm x) (event_break x)
    (event_continue x) v (running_loop x) (n_deferreds_queued x) (current_event x) (sig_frame x)
    (sig_next x) (tv_cache x) (tv_clock_diff x) (last_updated_clock_diff x) (no_cache_time x)
    (max_dispatch_time x) (max_dispatch_callbacks x) (limit_callbacks_after_prio x).
Definition set_running_loop (x : event_base) (v : bool) : event_base :=
    mkBase (evs x) (timeheap x) (hidx x) (common_timeout_queues x) (n_common_timeouts_allocated
    x) (activequeues x) (active_later_queue x) (io x) (sigmap x) (kernel x) (ksig x)
    (event_count x) (event_count_max x) (event_count_active x) (event_count_active_max x)
    (virtual_event_count x) (virtual_event_count_max x) (event_gotterm x) (event_break x)
    (event_continue x) (event_running_priority x) v (n_deferreds_queued x) (current_event x)
    (sig_frame x) (sig_next x) (tv_cache x) (tv_clock_diff x) (last_updated_clock_diff x)
    (no_cache_time x) (max_dispatch_time x) (max_dispatch_callbacks x)
    (limit_callbacks_after_prio x).
Definition set_n_deferreds_queued (x : event_base) (v : Z) : event_base :=
    mkBase (evs x) (timeheap x) (hidx x) (common_timeout_queues x) (n_common_timeouts_allocated
    x) (activequeues x) (active_later_queue x) (io x) (sigmap x) (kernel x) (ksig x)
    (event_count x) (event_count_max x) (event_count_active x) (event_count_active_max x)
    (virtual_event_count x) (virtual_event_count_max x) (event_gotterm x) (event_break x)
    (event_continue x) (event_running_priority x) (running_loop x) v (current_event x)
    (sig_frame x) (sig_next x) (tv_cache x) (tv_clock_diff x) (last_updated_clock_diff x)
    (no_cache_time x) (max_dispatch_time x) (max_dispatch_callbacks x)
    (limit_callbacks_after_prio x).
Definition set_current_event (x : event_base) (v : option Z) : event_base :=
    mkBase (evs x) (timeheap x) (hidx x) (common_timeout_queues x) (n_common_timeouts_allocated
    x) (activequeues x) (active_later_queue x) (io x) (sigmap x) (kernel x) (ksig x)
    (event_count x) (event_count_max x) (event_count_active x) (event_count_active_max x)
    (virtual_event_count x) (virtual_event_count_max x) (event_gotterm x) (event_break x)
    (event_continue x) (event_running_priority x) (running_loop x) (n_deferreds_queued x) v
    (sig_frame x) (sig_next x) (tv_cache x) (tv_clock_diff x) (last_updated_clock_diff x)
    (no_cache_time x) (max_dispatch_time x) (max_dispatch_callbacks x)
    (limit_callbacks_after_prio x).
Definition set_sig_frame (x : event_base) (v : option (Z * Z)) : event_base :=
    mkBase (evs x) (timeheap x) (hidx x) (common_timeout_queues x) (n_common_timeouts_allocated
    x) (activequeues x) (active_later_queue x) (io x) (sigmap x) (kernel x) (ksig x)
    (event_count x) (event_count_max x) (event_count_active x) (event_count_active_max x)
    (virtual_event_count x) (virtual_event_count_max x) (event_gotterm x) (event_break x)
    (event_continue x) (event_running_priority x) (running_loop x) (n_deferreds_queued x)
    (current_event x) v (sig_next x) (tv_cache x) (tv_clock_diff x) (last_updated_clock_diff x)
    (no_cache_time x) (max_dispatch_time x) (max_dispatch_callbacks x)
    (limit_callbacks_after_prio x).
Definition set_sig_next (x : event_base) (v : Z) : event_base :=
    mkBase (evs x) (timeheap x) (hidx x) (common_timeout_queues x) (n_common_timeouts_allocated
    x) (activequeues x) (active_later_queue x) (io x) (sigmap x) (kernel x) (ksig x)
    (event_count x) (event_count_max x) (event_count_active x) (event_count_active_max x)
    (virtual_event_count x) (virtual_event_count_max x) (event_gotterm x) (event_break x)
    (event_continue x) (event_running_priority x) (running_loop x) (n_deferreds_queued x)
    (current_event x) (sig_frame x) v (tv_cache x) (tv_clock_diff x) (last_updated_clock_diff x)
    (no_cache_time x) (max_dispatch_time x) (max_dispatch_callbacks x)
    (limit_callbacks_after_prio x).
Definition set_tv_cache (x : event_base) (v : timeval) : event_base :=
    mkBase (evs x) (timeheap x) (hidx x) (common_timeout_queues x) (n_common_timeouts_allocated
    x) (activequeues x) (active_later_queue x) (io x) (sigmap x) (kernel x) (ksig x)
    (event_count x) (event_count_max x) (event_count_active x) (event_count_active_max x)
    (virtual_event_count x) (virtual_event_count_max x) (event_gotterm x) (event_break x)
    (event_continue x) (event_running_priority x) (running_loop x) (n_deferreds_queued x)
    (current_event x) (sig_frame x) (sig_next x) v (tv_clock_diff x) (last_updated_clock_diff x)
    (no_cache_time x) (max_dispatch_time x) (max_dispatch_callbacks x)
    (limit_callbacks_after_prio x).
Definition set_tv_clock_diff (x : event_base) (v : timeval) : event_base :=
    mkBase (evs x) (timeheap x) (hidx x) (common_timeout_queues x) (n_common_timeouts_allocated
    x) (activequeues x) (active_later_queue x) (io x) (sigmap x) (kernel x) (ksig x)
    (event_count x) (event_count_max x) (event_count_active x) (event_count_active_max x)
    (virtual_event_count x) (virtual_event_count_max x) (event_gotterm x) (event_break x)
    (event_continue x) (event_running_priority x) (running_loop x) (n_deferreds_queued x)
    (current_event x) (sig_frame x) (sig_next x) (tv_cache x) v (last_updated_clock_diff x)
    (no_cache_time x) (max_dispatch_time x) (max_dispatch_callbacks x)
    (limit_callbacks_after_prio x).
Definition set_last_updated_clock_diff (x : event_base) (v : Z) : event_base :=
    mkBase (evs x) (timeheap x) (hidx x) (common_timeout_queues x) (n_common_timeouts_allocated
    x) (activequeues x) (active_later_queue x) (io x) (sigmap x) (kernel x) (ksig x)
    (event_count x) (event_count_max x) (event_count_active x) (event_count_active_max x)
    (virtual_event_count x) (virtual_event_count_max x) (event_gotterm x) (event_break x)
    (event_continue x) (event_running_priority x) (running_loop x) (n_deferreds_queued x)
    (current_event x) (sig_frame x) (sig_next x) (tv_cache x) (tv_clock_diff x) v (no_cache_time
    x) (max_dispatch_time x) (max_dispatch_callbacks x) (limit_callbacks_after_prio x).
Definition set_max_dispatch_time (x : event_base) (v : timeval) : event_base :=
    mkBase (evs x) (timeheap x) (hidx x) (common_timeout_queues x) (n_common_timeouts_allocated
    x) (activequeues x) (active_later_queue x) (io x) (sigmap x) (kernel x) (ksig x)
    (event_count x) (event_count_max x) (event_count_active x) (event_count_active_max x)
    (virtual_event_count x) (virtual_event_count_max x) (event_gotterm x) (event_break x)
    (event_continue x) (event_running_priority x) (running_loop x) (n_deferreds_queued x)
    (current_event x) (sig_frame x) (sig_next x) (tv_cache x) (tv_clock_diff x)
    (last_updated_clock_diff x) (no_cache_time x) v (max_dispatch_callbacks x)
    (limit_callbacks_after_prio x).
Definition set_max_dispatch_callbacks (x : event_base) (v : Z) : event_base :=
    mkBase (evs x) (timeheap x) (hidx x) (common_timeout_queues x) (n_common_timeouts_allocated
    x) (activequeues x) (active_later_queue x) (io x) (sigmap x) (kernel x) (ksig x)
    (event_count x) (event_count_max x) (event_count_active x) (event_count_active_max x)
    (virtual_event_count x) (virtual_event_count_max x) (event_gotterm x) (event_break x)
    (event_continue x) (event_running_priority x) (running_loop x) (n_deferreds_queued x)
    (current_event x) (sig_frame x) (sig_next x) (tv_cache x) (tv_clock_diff x)
    (last_updated_clock_diff x) (no_cache_time x) (max_dispatch_time x) v
    (limit_callbacks_after_prio x).
Definition set_limit_callbacks_after_prio (x : event_base) (v : Z) : event_base :=
    mkBase (evs x) (timeheap x) (hidx x) (common_timeout_queues x) (n_common_timeouts_allocated
    x) (activequeues x) (active_later_queue x) (io x) (sigmap x) (kernel x) (ksig x)
    (event_count x) (event_count_max x) (event_count_active x) (event_count_active_max x)
    (virtual_event_count x) (virtual_event_count_max x) (event_gotterm x) (event_break x)
    (event_continue x) (event_running_priority x) (running_loop x) (n_deferreds_queued x)
    (current_event x) (sig_frame x) (sig_next x) (tv_cache x) (tv_clock_diff x)
    (last_updated_clock_diff x) (no_cache_time x) (max_dispatch_time x) (max_dispatch_callbacks
    x) v.

(** The places that ask for memory, with what they ask for: each of them may
    be refused while the others are not. *)
Inductive alloc_site :=
| HeapTo (n : Z)           (* min_heap_reserve_(s, n) *)
| MapTo (slot : Z)         (* evmap_make_space *)
| SlotAt (slot : Z)        (* GET_IO_SLOT_AND_CTOR, GET_SIGNAL_SLOT_AND_CTOR *)
| CommonQueues (n : Z)     (* the array of n common-timeout queues *)
| CommonQueue              (* one common-timeout queue *)
| BaseItself
| PriorityQueues (n : Z)
| OnceEvent.

Record env := mkEnv {
  clock : timeval;
  wall : timeval;
  mem_ok : alloc_site -> bool;
  add_ok : Z -> bool;
  del_ok : Z -> bool;
  sig_add_ok : Z -> bool;
  sig_del_ok : Z -> bool;
  debug_mode : bool
}.

Definition get (b : event_base) (x : Z) : outcome event := deref (evs b !! x).
Definition put (b : event_base) (x : Z) (e : event) : event_base := set_evs b (<[x := e]> (evs b)).

Definition add_flag (e : event) (f : Z) : event := set_ev_flags e (Z.lor (ev_flags e) f).
Definition del_flag (e : event) (f : Z) : event := set_ev_flags e (Z.land (ev_flags e) (Z.lnot f)).

Definition tv0 : timeval := mkTimeval 0 0.

(** The timeouts the heap compares. *)
Definition tmo (b : event_base) (x : Z) : timeval :=
  match evs b !! x with Some e => ev_timeout e | None => tv0 end.

(** ** Time *)

Definition timeradd (x y : timeval) : timeval :=
  let s := i64 (tv_sec x + tv_sec y) in
  let u := i64 (tv_usec x + tv_usec y) in
  if 1000000 <=? u then mkTimeval (i64 (s + 1)) (u - 1000000) else mkTimeval s u.

Definition timersub (x y : timeval) : timeval :=
  let s := i64 (tv_sec x - tv_sec y) in
  let u := i64 (tv_usec x - tv_usec y) in
  if u <? 0 then mkTimeval (i64 (s - 1)) (i64 (u + 1000000)) else mkTimeval s u.

Definition CLOCK_SYNC_INTERVAL : Z := 5.

Definition gettime (e : env) (b : event_base) : timeval * event_base :=
  if negb (tv_sec (tv_cache b) =? 0) then (tv_cache b, b) else
  let tp := clock e in
  if i64 (last_updated_clock_diff b + CLOCK_SYNC_INTERVAL) <? tv_sec tp
  then (tp, set_last_updated_clock_diff (set_tv_clock_diff b (timersub (wall e) tp)) (tv_sec tp))
  else (tp, b).

Definition clear_time_cache (b : event_base) : event_base :=
  set_tv_cache b (mkTimeval 0 (tv_usec (tv_cache b))).

Definition update_time_cache (e : env) (b : event_base) : event_base :=
  let b := clear_time_cache b in
  if no_cache_time b then b
  else let '(tv, b) := gettime e b in set_tv_cache b tv.

(** ** Common timeouts: queues named by bits of [tv_usec] *)

Definition MICROSECONDS_MASK : Z := 0x000fffff.
Definition COMMON_TIMEOUT_IDX_MASK : Z := 0x0ff00000.
Definition COMMON_TIMEOUT_MASK : Z := 0xf0000000.
Definition COMMON_TIMEOUT_MAGIC : Z := 0x50000000.
Definition MAX_COMMON_TIMEOUTS : Z := 256.

Definition COMMON_TIMEOUT_IDX (tv : timeval) : Z :=
  Z.shiftr (Z.land (tv_usec tv) COMMON_TIMEOUT_IDX_MASK) 20.

Definition n_common_timeouts (b : event_base) : Z := zlen (common_timeout_queues b).

Definition is_common_timeout (tv : timeval) (b : event_base) : bool :=
  (Z.land (tv_usec tv) COMMON_TIMEOUT_MASK =? COMMON_TIMEOUT_MAGIC) &&
  (COMMON_TIMEOUT_IDX tv <? n_common_timeouts b).

Definition is_same_common_timeout (x y : timeval) : bool :=
  Z.land (tv_usec x) (Z.lnot MICROSECONDS_MASK) =? Z.land (tv_usec y) (Z.lnot MICROSECONDS_MASK).

Definition mask_usec (tv : timeval) : timeval :=
  mkTimeval (tv_sec tv) (Z.land (tv_usec tv) MICROSECONDS_MASK).

Definition get_common_timeout_list (b : event_base) (tv : timeval) : outcome common_timeout_list :=
  deref (common_timeout_queues b !! Z.to_nat (COMMON_TIMEOUT_IDX tv)).

Definition put_ctl_events (b : event_base) (tv : timeval) (l : list Z) : outcome event_base :=
  ctl ← get_common_timeout_list b tv;
  Done (set_common_timeout_queues b
    (<[Z.to_nat (COMMON_TIMEOUT_IDX tv) :=
        mkCtl l (ctl_duration ctl) (ctl_timeout_event ctl)]> (common_timeout_queues b))).

(** [TAILQ_REMOVE] *)
Definition tq_remove (x : Z) (l : list Z) : outcome (list Z) :=
  if decide (x ∈ l) then Done (filter (fun y => y <> x) l) else Crash.

(** The queue is searched from its end, here the list is reversed. *)
Fixpoint insert_rev (b : event_base) (x : Z) (tv : timeval) (l : list Z) : outcome (list Z) :=
  match l with
  | [] => Done [x]
  | y :: l =>
      e ← get b y;
      _ ← assert_c (is_same_common_timeout (ev_timeout e) tv);
      if negb (timercmp_gt (ev_timeout e) tv) then Done (x :: y :: l)
      else l ← insert_rev b x tv l; Done (y :: l)
  end.

Definition insert_common_timeout_inorder (b : event_base) (x : Z) : outcome event_base :=
  ev ← get b x;
  ctl ← get_common_timeout_list b (ev_timeout ev);
  l ← insert_rev b x (ev_timeout ev) (reverse (ctl_events ctl));
  put_ctl_events b (ev_timeout ev) (reverse l).

(** ** Queues and counts *)

(** [~((flags) >> 4) & 1] *)
Definition counted (flags : Z) : Z := Z.land (Z.lnot (Z.shiftr flags 4)) 1.

Definition DECR_EVENT_COUNT (b : event_base) (flags : Z) : event_base :=
  set_event_count b (event_count b - counted flags).

Definition INCR_EVENT_COUNT (b : event_base) (flags : Z) : event_base :=
  let b := set_event_count b (event_count b + counted flags) in
  set_event_count_max b (Z.max (event_count_max b) (event_count b)).

Definition incr_active (b : event_base) : event_base :=
  let b := set_event_count_active b (event_count_active b + 1) in
  set_event_count_active_max b (Z.max (event_count_active_max b) (event_count_active b)).

Definition nactivequeues (b : event_base) : Z := zlen (activequeues b).

Definition event_queue_remove_inserted (b : event_base) (x : Z) : outcome event_base :=
  ev ← get b x;
  if negb (has (ev_flags ev) EVLIST_INSERTED) then Crash else
  Done (put (DECR_EVENT_COUNT b (ev_flags ev)) x (del_flag ev EVLIST_INSERTED)).

Definition event_queue_remove_active (b : event_base) (x : Z) : outcome event_base :=
  ev ← get b x;
  if negb (has (ev_flags ev) EVLIST_ACTIVE) then Crash else
  let b := put (DECR_EVENT_COUNT b (ev_flags ev)) x (del_flag ev EVLIST_ACTIVE) in
  let b := set_event_count_active b (event_count_active b - 1) in
  q ← deref (activequeues b !! Z.to_nat (ev_pri ev));
  q ← tq_remove x q;
  Done (set_activequeues b (<[Z.to_nat (ev_pri ev) := q]> (activequeues b))).

Definition event_queue_remove_active_later (b : event_base) (x : Z) : outcome event_base :=
  ev ← get b x;
  if negb (has (ev_flags ev) EVLIST_ACTIVE_LATER) then Crash else
  let b := put (DECR_EVENT_COUNT b (ev_flags ev)) x (del_flag ev EVLIST_ACTIVE_LATER) in
  let b := set_event_count_active b (event_count_active b - 1) in
  q ← tq_remove x (active_later_queue b);
  Done (set_active_later_queue b q).

Definition event_queue_remove_timeout (b : event_base) (x : Z) : outcome event_base :=
  ev ← get b x;
  if negb (has (ev_flags ev) EVLIST_TIMEOUT) then Crash else
  let b := put (DECR_EVENT_COUNT b (ev_flags ev)) x (del_flag ev EVLIST_TIMEOUT) in
  if is_common_timeout (ev_timeout ev) b then
    ctl ← get_common_timeout_list b (ev_timeout ev);
    l ← tq_remove x (ctl_events ctl);
    put_ctl_events b (ev_timeout ev) l
  else
    '(_, h, i) ← min_heap_erase_ (tmo b) (timeheap b) (hidx b) x;
    Done (set_hidx (set_timeheap b h) i).

Definition event_queue_insert_inserted (b : event_base) (x : Z) : outcome event_base :=
  ev ← get b x;
  if has (ev_flags ev) EVLIST_INSERTED then Crash else
  Done (put (INCR_EVENT_COUNT b (ev_flags ev)) x (add_flag ev EVLIST_INSERTED)).

Definition event_queue_insert_active (b : event_base) (x : Z) : outcome event_base :=
  ev ← get b x;
  if has (ev_flags ev) EVLIST_ACTIVE then Done b else
  let b := put (INCR_EVENT_COUNT b (ev_flags ev)) x (add_flag ev EVLIST_ACTIVE) in
  let b := incr_active b in
  _ ← assert_c (ev_pri ev <? nactivequeues b);
  q ← deref (activequeues b !! Z.to_nat (ev_pri ev));
  Done (set_activequeues b (<[Z.to_nat (ev_pri ev) := q ++ [x]]> (activequeues b))).

Definition event_queue_insert_active_later (b : event_base) (x : Z) : outcome event_base :=
  ev ← get b x;
  if has (ev_flags ev) (Z.lor EVLIST_ACTIVE_LATER EVLIST_ACTIVE) then Done b else
  let b := put (INCR_EVENT_COUNT b (ev_flags ev)) x (add_flag ev EVLIST_ACTIVE_LATER) in
  let b := incr_active b in
  _ ← assert_c (ev_pri ev <? nactivequeues b);
  Done (set_active_later_queue b (active_later_queue b ++ [x])).

Definition event_queue_insert_timeout (e : env) (b : event_base) (x : Z) : outcome event_base :=
  ev ← get b x;
  if has (ev_flags ev) EVLIST_TIMEOUT then Crash else
  let b := put (INCR_EVENT_COUNT b (ev_flags ev)) x (add_flag ev EVLIST_TIMEOUT) in
  if is_common_timeout (ev_timeout ev) b then insert_common_timeout_inorder b x
  else
    '(_, h, i) ← min_heap_push_ (tmo b) (mem_ok e (HeapTo (u32 (1 + hn (timeheap b))))) (timeheap b) (hidx b) x;
    Done (set_hidx (set_timeheap b h) i).

(** One turn of the loop of [event_queue_make_later_events_active]. *)
Definition make_later_active (b : event_base) (x : Z) : outcome event_base :=
  ev ← get b x;
  let ev := add_flag (del_flag ev EVLIST_ACTIVE_LATER) EVLIST_ACTIVE in
  let b := put b x ev in
  _ ← assert_c (ev_pri ev <? nactivequeues b);
  q ← deref (activequeues b !! Z.to_nat (ev_pri ev));
  let b := set_activequeues b (<[Z.to_nat (ev_pri ev) := q ++ [x]]> (activequeues b)) in
  Done (if decide (ev_closure ev = EV_CLOSURE_CB_SELF)
        then set_n_deferreds_queued b (n_deferreds_queued b + 1) else b).

Fixpoint make_later_loop (l : list Z) (b : event_base) : outcome event_base :=
  match l with
  | [] => Done b
  | x :: l => b ← make_later_active (set_active_later_queue b l) x; make_later_loop l b
  end.

Definition event_queue_make_later_events_active (b : event_base) : outcome event_base :=
  make_later_loop (active_later_queue b) b.

(** ** The descriptor and signal maps *)

(** [while (nentries <= slot) nentries <<= 1]; 32 doublings leave [int]. *)
Fixpoint double_past (fuel : nat) (n slot : Z) : outcome Z :=
  match fuel with
  | O => Crash
  | S fuel =>
      if n <=? slot then
        if INT_MAX <? 2 * n then Crash else double_past fuel (2 * n) slot
      else Done n
  end.

(** [msize], the size of a pointer, is 8. *)
Definition evmap_make_space {A} (e : env) (m : event_map A) (slot : Z) : outcome (Z * event_map A) :=
  if nentries m <=? slot then
    n ← double_past 32 (if nentries m =? 0 then 32 else nentries m) slot;
    if INT_MAX <? 8 * n then Crash else
    if mem_ok e (MapTo slot) then Done (0, mkMap (entries m) n) else Done (-1, m)
  else Done (0, m).

(** [map->entries[slot]] *)
Definition get_slot {A} (m : event_map A) (slot : Z) : outcome (option A) :=
  if (0 <=? slot) && (slot <? nentries m) then Done (entries m !! slot) else Crash.

(** [GET_SIGNAL_SLOT_AND_CTOR]: [None] is the [return (-1)] of a failed allocation. *)
Definition get_slot_ctor {A} (e : env) (init : A) (m : event_map A) (slot : Z)
    : outcome (option (A * event_map A)) :=
  o ← get_slot m slot;
  match o with
  | Some a => Done (Some (a, m))
  | None =>
      if mem_ok e (SlotAt slot) then Done (Some (init, mkMap (<[slot := init]> (entries m)) (nentries m)))
      else Done None
  end.

Definition bit (c : bool) (f : Z) : Z := if c then f else 0.

(** The events a slot is waiting for. *)
Definition slot_mask (c : evmap_io) : Z :=
  Z.lor (bit (negb (nread c =? 0)) EV_READ)
    (Z.lor (bit (negb (nwrite c =? 0)) EV_WRITE) (bit (negb (nclose c =? 0)) EV_CLOSED)).

Definition bump (events f n d : Z) : Z := if has events f then n + d else n.

(** The counts of a slot after an event was added ([d = 1]) or removed
    ([d = -1]), and the bits whose count has just become [n]. *)
Definition bump_slot (c : evmap_io) (events d : Z) : evmap_io :=
  mkIo (io_events c) (bump events EV_READ (nread c) d) (bump events EV_WRITE (nwrite c) d)
    (bump events EV_CLOSED (nclose c) d).
Definition bits_at (c : evmap_io) (events n : Z) : Z :=
  Z.lor (bit (has events EV_READ && (nread c =? n)) EV_READ)
    (Z.lor (bit (has events EV_WRITE && (nwrite c =? n)) EV_WRITE)
           (bit (has events EV_CLOSED && (nclose c =? n)) EV_CLOSED)).

Definition slot_over (c : evmap_io) : bool :=
  (0xffff <? nread c) || (0xffff <? nwrite c) || (0xffff <? nclose c).

Definition kernel_mask (b : event_base) (fd : Z) : Z := default 0 (kernel b !! fd).

(** [evsel->add], [evsel->del] *)
Definition backend_add (e : env) (b : event_base) (fd events : Z) : bool * event_base :=
  if add_ok e fd then (true, set_kernel b (<[fd := Z.lor (kernel_mask b fd) (Z.land events EV_IO)]> (kernel b)))
  else (false, b).
Definition backend_del (e : env) (b : event_base) (fd events : Z) : bool * event_base :=
  if del_ok e fd then (true, set_kernel b (<[fd := Z.land (kernel_mask b fd) (Z.lnot events)]> (kernel b)))
  else (false, b).

Definition set_io_slot (b : event_base) (fd : Z) (c : evmap_io) : event_base :=
  set_io b (mkMap (<[fd := c]> (entries (io b))) (nentries (io b))).

(** [EVENT_DEBUG_MODE_IS_ON() && (old_ev = LIST_FIRST(&ctx->events)) &&
    (old_ev->ev_events & EV_ET) != (ev->ev_events & EV_ET)] *)
Definition mixes_et (e : env) (b : event_base) (c : evmap_io) (ev : event) : outcome bool :=
  match debug_mode e, io_events c with
  | true, y :: _ =>
      old_ev ← get b y;
      Done (negb (Bool.eqb (has (ev_events old_ev) EV_ET) (has (ev_events ev) EV_ET)))
  | _, _ => Done false
  end.

Definition evmap_io_add_ (e : env) (b : event_base) (fd x : Z) : outcome (Z * event_base) :=
  ev ← get b x;
  _ ← assert_c (fd =? ev_fd ev);
  if fd <? 0 then Done (0, b) else
  '(r, m) ← evmap_make_space e (io b) fd;
  if r =? -1 then Done (-1, b) else
  o ← get_slot_ctor e (mkIo [] 0 0 0) m fd;
  match o with
  | None => Done (-1, set_io b m)
  | Some (c, m) =>
      let b := set_io b m in
      let c' := bump_slot c (ev_events ev) 1 in
      let res := bits_at c' (ev_events ev) 1 in
      if slot_over c' then Done (-1, b) else
      mixed ← mixes_et e b c ev;
      if (mixed : bool) then Done (-1, b) else
      let '(ok, b) := if res =? 0 then (true, b)
                      else backend_add e b fd (Z.lor (Z.land (ev_events ev) EV_ET) res) in
      if negb ok then Done (-1, b) else
      Done (if res =? 0 then 0 else 1,
            set_io_slot b fd (mkIo (x :: io_events c) (nread c') (nwrite c') (nclose c')))
  end.

Definition evmap_io_del_ (e : env) (b : event_base) (fd x : Z) : outcome (Z * event_base) :=
  if fd <? 0 then Done (0, b) else
  ev ← get b x;
  _ ← assert_c (fd =? ev_fd ev);
  if nentries (io b) <=? fd then Done (-1, b) else
  o ← get_slot (io b) fd;
  c ← deref o;
  let c' := bump_slot c (ev_events ev) (-1) in
  _ ← assert_c ((0 <=? nread c') && (0 <=? nwrite c') && (0 <=? nclose c'));
  let res := bits_at c' (ev_events ev) 0 in
  let '(ok, b) := if res =? 0 then (true, b) else backend_del e b fd res in
  l ← tq_remove x (io_events c);
  Done (if res =? 0 then 0 else if ok then 1 else -1,
        set_io_slot b fd (mkIo l (u16 (nread c')) (u16 (nwrite c')) (u16 (nclose c')))).

Definition set_sig_slot (b : event_base) (sig : Z) (l : list Z) : event_base :=
  set_sigmap b (mkMap (<[sig := l]> (entries (sigmap b))) (nentries (sigmap b))).

Definition evmap_signal_add_ (e : env) (b : event_base) (sig x : Z) : outcome (Z * event_base) :=
  ev ← get b x;
  '(r, m) ← evmap_make_space e (sigmap b) sig;
  if r =? -1 then Done (-1, b) else
  o ← get_slot_ctor e [] m sig;
  match o with
  | None => Done (-1, set_sigmap b m)
  | Some (l, m) =>
      let b := set_sigmap b m in
      let first := match l with [] => true | _ => false end in
      if first && negb (sig_add_ok e (ev_fd ev)) then Done (-1, b) else
      let b := if first then set_ksig b ({[ev_fd ev]} ∪ ksig b) else b in
      Done (1, set_sig_slot b sig (x :: l))
  end.

Definition evmap_signal_del_ (e : env) (b : event_base) (sig x : Z) : outcome (Z * event_base) :=
  ev ← get b x;
  if nentries (sigmap b) <=? sig then Done (-1, b) else
  o ← get_slot (sigmap b) sig;
  l ← deref o;
  l ← tq_remove x l;
  let b := set_sig_slot b sig l in
  match l with
  | [] => if sig_del_ok e (ev_fd ev) then Done (1, set_ksig b (ksig b ∖ {[ev_fd ev]})) else Done (-1, b)
  | _ => Done (1, b)
  end.

(** ** Activation *)

Definition event_callback_activate_nolock_ (b : event_base) (x : Z) : outcome (Z * event_base) :=
  ev ← get b x;
  if has (ev_flags ev) EVLIST_FINALIZING then Done (0, b) else
  match has (ev_flags ev) EVLIST_ACTIVE, has (ev_flags ev) EVLIST_ACTIVE_LATER with
  | true, true => Crash
  | true, false => Done (0, b)
  | false, later =>
      b ← (if later then event_queue_remove_active_later b x else Done b);
      b ← event_queue_insert_active b x;
      Done (if later then 0 else 1, b)
  end.

Definition event_callback_activate_later_nolock_ (b : event_base) (x : Z) : outcome (Z * event_base) :=
  ev ← get b x;
  if has (ev_flags ev) (Z.lor EVLIST_ACTIVE EVLIST_ACTIVE_LATER) then Done (0, b) else
  b ← event_queue_insert_active_later b x;
  Done (1, b).

Definition event_active_nolock_ (b : event_base) (x res ncalls : Z) : outcome event_base :=
  ev ← get b x;
  if has (ev_flags ev) EVLIST_FINALIZING then Done b else
  match has (ev_flags ev) EVLIST_ACTIVE, has (ev_flags ev) EVLIST_ACTIVE_LATER with
  | true, true => Crash
  | true, false => Done (put b x (set_ev_res ev (Z.lor (ev_res ev) res)))
  | false, later =>
      let ev := set_ev_res ev (if later then Z.lor (ev_res ev) res else res) in
      let b := if ev_pri ev <? event_running_priority b then set_event_continue b true else b in
      let ev := if has (ev_events ev) EV_SIGNAL
                then set_ev_pncalls (set_ev_ncalls ev ncalls) None else ev in
      '(_, b) ← event_callback_activate_nolock_ (put b x ev) x;
      Done b
  end.

Definition event_active_later_nolock_ (b : event_base) (x res : Z) : outcome event_base :=
  ev ← get b x;
  if has (ev_flags ev) (Z.lor EVLIST_ACTIVE EVLIST_ACTIVE_LATER)
  then Done (put b x (set_ev_res ev (Z.lor (ev_res ev) res)))
  else '(_, b) ← event_callback_activate_later_nolock_ (put b x (set_ev_res ev res)) x; Done b.

Fixpoint active_each (f : event -> option (Z * Z)) (l : list Z) (b : event_base) : outcome event_base :=
  match l with
  | [] => Done b
  | x :: l =>
      ev ← get b x;
      b ← (match f ev with
           | Some (res, ncalls) => event_active_nolock_ b x res ncalls
           | None => Done b
           end);
      active_each f l b
  end.

Definition evmap_io_active_ (b : event_base) (fd events : Z) : outcome event_base :=
  if (fd <? 0) || (nentries (io b) <=? fd) then Done b else
  o ← get_slot (io b) fd;
  match o with
  | None => Done b
  | Some c =>
      active_each (fun ev => if has (ev_events ev) events
                             then Some (Z.land (ev_events ev) events, 1) else None)
        (io_events c) b
  end.

Definition evmap_signal_active_ (b : event_base) (sig ncalls : Z) : outcome event_base :=
  if (sig <? 0) || (nentries (sigmap b) <=? sig) then Done b else
  o ← get_slot (sigmap b) sig;
  match o with
  | None => Done b
  | Some l => active_each (fun _ => Some (EV_SIGNAL, ncalls)) l b
  end.

(** ** Deleting *)

(** [if (ev->ev_ncalls && ev->ev_pncalls) *ev->ev_pncalls = 0;] *)
Definition abort_signal_loop (b : event_base) (ev : event) : outcome event_base :=
  if ev_ncalls ev =? 0 then Done b else
  match ev_pncalls ev with
  | None => Done b
  | Some f =>
      match sig_frame b with
      | Some (g, _) => if f =? g then Done (set_sig_frame b (Some (g, 0))) else Crash
      | None => Crash
      end
  end.

Definition event_del_nolock_ (e : env) (b : event_base) (x : Z) (blocking : del_mode)
    : outcome (Z * event_base) :=
  ev ← get b x;
  let even := match blocking with EVENT_DEL_EVEN_IF_FINALIZING => true | _ => false end in
  if negb even && has (ev_flags ev) EVLIST_FINALIZING then Done (0, b) else
  _ ← assert_c (negb (has (ev_flags ev) (Z.lnot EVLIST_ALL)));
  b ← (if has (ev_events ev) EV_SIGNAL then abort_signal_loop b ev else Done b);
  b ← (if has (ev_flags ev) EVLIST_TIMEOUT then event_queue_remove_timeout b x else Done b);
  b ← (if has (ev_flags ev) EVLIST_ACTIVE then event_queue_remove_active b x
       else if has (ev_flags ev) EVLIST_ACTIVE_LATER then event_queue_remove_active_later b x
       else Done b);
  if has (ev_flags ev) EVLIST_INSERTED then
    b ← event_queue_remove_inserted b x;
    '(res, b) ← (if has (ev_events ev) EV_IO then evmap_io_del_ e b (ev_fd ev) x
                 else evmap_signal_del_ e b (ev_fd ev) x);
    Done (if res =? 1 then 0 else res, b)
  else Done (0, b).

(** [event_del], [event_del_block], [event_del_noblock] *)
Definition event_del (e : env) (b : event_base) (x : Z) : outcome (Z * event_base) :=
  event_del_nolock_ e b x EVENT_DEL_AUTOBLOCK.
Definition event_del_block (e : env) (b : event_base) (x : Z) : outcome (Z * event_base) :=
  event_del_nolock_ e b x EVENT_DEL_BLOCK.
Definition event_del_noblock (e : env) (b : event_base) (x : Z) : outcome (Z * event_base) :=
  event_del_nolock_ e b x EVENT_DEL_NOBLOCK.

(** The last line clears a union: the interval of a persistent event or the
    call counter of a signal event. *)
Definition event_remove_timer_nolock_ (b : event_base) (x : Z) : outcome (Z * event_base) :=
  ev ← get b x;
  if has (ev_flags ev) EVLIST_TIMEOUT then
    b ← event_queue_remove_timeout b x;
    ev ← get b x;
    Done (0, put b x (if has (ev_events ev) EV_SIGNAL
                      then set_ev_pncalls (set_ev_ncalls ev 0) None
                      else set_ev_io_timeout ev tv0))
  else Done (0, b).

(** ** Adding *)

(** Reserving a heap slot before anything is changed: [1 + size] is unsigned. *)
Definition add_reserve (e : env) (b : event_base) (ev : event) (tv : option timeval)
    : Z * event_base :=
  match tv with
  | Some _ =>
      if has (ev_flags ev) EVLIST_TIMEOUT then (0, b) else
      let n := u32 (1 + hn (timeheap b)) in
      let '(r, h) := min_heap_reserve_ (mem_ok e (HeapTo n)) (timeheap b) n in
      (r, set_timeheap b h)
  | None => (0, b)
  end.

(** Waiting for the descriptor or the signal. *)
Definition add_insert (e : env) (b : event_base) (x : Z) : outcome (Z * event_base) :=
  ev ← get b x;
  if has (ev_events ev) (Z.lor EV_IO EV_SIGNAL) &&
     negb (has (ev_flags ev) (Z.lor EVLIST_INSERTED (Z.lor EVLIST_ACTIVE EVLIST_ACTIVE_LATER)))
  then
    '(res, b) ← (if has (ev_events ev) EV_IO then evmap_io_add_ e b (ev_fd ev) x
                 else evmap_signal_add_ e b (ev_fd ev) x);
    b ← (if negb (res =? -1) then event_queue_insert_inserted b x else Done b);
    Done (if res =? 1 then 0 else res, b)
  else Done (0, b).

(** Leaving the timer and active queues before a new timeout is set. *)
Definition add_unqueue (b : event_base) (x : Z) (tv : timeval) (absolute : bool)
    : outcome event_base :=
  ev ← get b x;
  let b := if bool_decide (ev_closure ev = EV_CLOSURE_EVENT_PERSIST) && negb absolute
           then put b x (set_ev_io_timeout ev tv) else b in
  b ← (if has (ev_flags ev) EVLIST_TIMEOUT then event_queue_remove_timeout b x else Done b);
  if has (ev_flags ev) EVLIST_ACTIVE && has (ev_res ev) EV_TIMEOUT then
    b ← (if has (ev_events ev) EV_SIGNAL then abort_signal_loop b ev else Done b);
    event_queue_remove_active b x
  else Done b.

Definition new_timeout (b : event_base) (now tv : timeval) (absolute : bool) : timeval :=
  if absolute then tv
  else if is_common_timeout tv b then
    let t := timeradd now (mask_usec tv) in
    mkTimeval (tv_sec t)
      (Z.lor (tv_usec t) (Z.land (tv_usec tv) (Z.lnot MICROSECONDS_MASK)))
  else timeradd now tv.

Definition set_timer (e : env) (b : event_base) (x : Z) (tv : timeval) (absolute : bool)
    : outcome event_base :=
  b ← add_unqueue b x tv absolute;
  let '(now, b) := gettime e b in
  ev ← get b x;
  event_queue_insert_timeout e
    (put b x (set_ev_timeout ev (new_timeout b now tv absolute))) x.

(** When the event became the first of its common-timeout queue, the queue's
    own event is armed; [sched] is that nested call of [event_add_nolock_]. *)
Definition arm_queue (sched : event_base -> Z -> timeval -> outcome (Z * event_base))
    (b : event_base) (x : Z) : outcome event_base :=
  ev ← get b x;
  ctl ← get_common_timeout_list b (ev_timeout ev);
  match ctl_events ctl with
  | y :: _ =>
      if y =? x
      then '(_, b) ← sched b (ctl_timeout_event ctl) (mask_usec (ev_timeout ev)); Done b
      else Done b
  | [] => Done b
  end.

Definition add_timer (sched : event_base -> Z -> timeval -> outcome (Z * event_base))
    (e : env) (b : event_base) (x : Z) (tv : timeval) (absolute : bool) : outcome event_base :=
  let common := is_common_timeout tv b in
  b ← set_timer e b x tv absolute;
  if common then arm_queue sched b x else Done b.

Definition event_add_body
    (sched : event_base -> Z -> timeval -> outcome (Z * event_base))
    (e : env) (b : event_base) (x : Z) (tv : option timeval) (absolute : bool)
    : outcome (Z * event_base) :=
  ev ← get b x;
  _ ← assert_c (negb (has (ev_flags ev) (Z.lnot EVLIST_ALL)));
  if has (ev_flags ev) EVLIST_FINALIZING then Done (-1, b) else
  let '(r, b) := add_reserve e b ev tv in
  if r =? -1 then Done (-1, b) else
  '(res, b) ← add_insert e b x;
  match tv with
  | Some tv =>
      if res =? -1 then Done (res, b)
      else b ← add_timer sched e b x tv absolute; Done (res, b)
  | None => Done (res, b)
  end.

(** The timeout of a queue's own event carries no queue bits, so the nested
    call does not nest again. *)
Definition add_absolute (e : env) (b : event_base) (x : Z) (tv : timeval) : outcome (Z * event_base) :=
  event_add_body (fun _ _ _ => Crash) e b x (Some tv) true.

Definition event_add_nolock_ (e : env) (b : event_base) (x : Z) (tv : option timeval)
    (absolute : bool) : outcome (Z * event_base) :=
  event_add_body (add_absolute e) e b x tv absolute.

Definition event_add (e : env) (b : event_base) (x : Z) (tv : option timeval)
    : outcome (Z * event_base) :=
  event_add_nolock_ e b x tv false.

Definition common_timeout_schedule (e : env) (b : event_base) (ctl : common_timeout_list)
    (head : event) : outcome event_base :=
  '(_, b) ← event_add_nolock_ e b (ctl_timeout_event ctl) (Some (mask_usec (ev_timeout head))) true;
  Done b.

(** ** Events, priorities, deferred callbacks, finalizers *)

(** The closure an event gets from what it waits for. *)
Definition assign_closure (events : Z) : closure :=
  if has events EV_SIGNAL then EV_CLOSURE_EVENT_SIGNAL
  else if has events EV_PERSIST then EV_CLOSURE_EVENT_PERSIST else EV_CLOSURE_EVENT.

(** [event_assign] on memory that is not in a queue; [old] is what the memory
    held, whose fields are kept where they are not written. *)
Definition event_assign (b : event_base) (x fd events : Z) (old : event) : Z * event_base :=
  let ev := mkEvent EVLIST_INIT (ev_pri old) (ev_closure old) fd events 0 (ev_timeout old)
              (ev_io_timeout old) 0 None in
  if has events EV_SIGNAL && has events EV_IO then (-1, put b x ev) else
  let ev := set_ev_closure ev (assign_closure events) in
  let ev := if negb (has events EV_SIGNAL) && has events EV_PERSIST
            then set_ev_io_timeout ev tv0 else ev in
  (0, set_hidx (put b x (set_ev_pri ev (nactivequeues b / 2))) (min_heap_elem_init_ x (hidx b))).

Definition event_priority_set (b : event_base) (x pri : Z) : outcome (Z * event_base) :=
  ev ← get b x;
  if has (ev_flags ev) EVLIST_ACTIVE then Done (-1, b) else
  if (pri <? 0) || (nactivequeues b <=? pri) then Done (-1, b) else
  Done (0, put b x (set_ev_pri ev pri)).

Definition event_pending (b : event_base) (x event : Z) : outcome (Z * option timeval) :=
  ev ← get b x;
  let flags :=
    Z.lor (bit (has (ev_flags ev) EVLIST_INSERTED) (Z.land (ev_events ev) (Z.lor EV_IO EV_SIGNAL)))
     (Z.lor (bit (has (ev_flags ev) (Z.lor EVLIST_ACTIVE EVLIST_ACTIVE_LATER)) (ev_res ev))
            (bit (has (ev_flags ev) EVLIST_TIMEOUT) EV_TIMEOUT)) in
  let event := Z.land event (Z.lor EV_TIMEOUT (Z.lor EV_IO EV_SIGNAL)) in
  let r := Z.land flags event in
  Done (r, if has r EV_TIMEOUT
           then Some (timeradd (tv_clock_diff b) (mask_usec (ev_timeout ev))) else None).

Definition EVENT_MAX_PRIORITIES : Z := 256.

Definition event_base_priority_init (e : env) (b : event_base) (npriorities : Z) : Z * event_base :=
  if negb (event_count_active b =? 0) || (npriorities <? 1) || (EVENT_MAX_PRIORITIES <=? npriorities)
  then (-1, b)
  else if npriorities =? nactivequeues b then (0, b)
  else if mem_ok e (PriorityQueues npriorities) then (0, set_activequeues b (replicate (Z.to_nat npriorities) []))
  else (-1, set_activequeues b []).

(** [event_deferred_cb_init_]: the memory is zeroed, so no flag is set. *)
Definition event_deferred_cb_init_ (b : event_base) (x priority : Z) : event_base :=
  put b x (mkEvent 0 priority EV_CLOSURE_CB_SELF 0 0 0 tv0 tv0 0 None).

Definition MAX_DEFERREDS_QUEUED : Z := 32.

Definition event_deferred_cb_schedule_ (b : event_base) (x : Z) : outcome (Z * event_base) :=
  if MAX_DEFERREDS_QUEUED <? n_deferreds_queued b
  then event_callback_activate_later_nolock_ b x
  else
    '(r, b) ← event_callback_activate_nolock_ b x;
    Done (r, if negb (r =? 0) then set_n_deferreds_queued b (n_deferreds_queued b + 1) else b).

Definition event_callback_cancel_nolock_ (e : env) (b : event_base) (x : Z) (even : bool)
    : outcome (Z * event_base) :=
  ev ← get b x;
  if has (ev_flags ev) EVLIST_FINALIZING && negb even then Done (0, b) else
  if has (ev_flags ev) EVLIST_INIT
  then event_del_nolock_ e b x (if even then EVENT_DEL_EVEN_IF_FINALIZING else EVENT_DEL_AUTOBLOCK)
  else
    match has (ev_flags ev) EVLIST_ACTIVE, has (ev_flags ev) EVLIST_ACTIVE_LATER with
    | true, true => Crash
    | true, false => b ← event_queue_remove_active b x; Done (0, b)
    | false, true => b ← event_queue_remove_active_later b x; Done (0, b)
    | false, false => Done (0, b)
    end.

Definition event_finalize_nolock_ (e : env) (b : event_base) (x : Z) (free : bool)
    : outcome (Z * event_base) :=
  '(_, b) ← event_del_nolock_ e b x EVENT_DEL_NOBLOCK;
  ev ← get b x;
  let b := put b x (set_ev_closure ev
             (if free then EV_CLOSURE_EVENT_FINALIZE_FREE else EV_CLOSURE_EVENT_FINALIZE)) in
  b ← event_active_nolock_ b x EV_FINALIZE 1;
  ev ← get b x;
  Done (0, put b x (add_flag ev EVLIST_FINALIZING)).

Definition event_callback_finalize_nolock_ (e : env) (b : event_base) (x : Z) : outcome event_base :=
  ev ← get b x;
  '(_, b) ← (if has (ev_flags ev) EVLIST_INIT then event_del_nolock_ e b x EVENT_DEL_NOBLOCK
             else event_callback_cancel_nolock_ e b x false);
  ev ← get b x;
  '(_, b) ← event_callback_activate_nolock_ (put b x (set_ev_closure ev EV_CLOSURE_CB_FINALIZE)) x;
  ev ← get b x;
  Done (put b x (add_flag ev EVLIST_FINALIZING)).

Fixpoint finalize_each (e : env) (l : list Z) (b : event_base) (n_pending : Z)
    : outcome (Z * event_base) :=
  match l with
  | [] => Done (n_pending, b)
  | x :: l =>
      if decide (current_event b = Some x) then
        b ← event_callback_finalize_nolock_ e b x; finalize_each e l b (n_pending + 1)
      else
        '(_, b) ← event_callback_cancel_nolock_ e b x false; finalize_each e l b n_pending
  end.

Definition event_callback_finalize_many_ (e : env) (b : event_base) (evcbs : list Z)
    : outcome (Z * event_base) :=
  '(n_pending, b) ← finalize_each e evcbs b 0;
  if n_pending =? 0 then
    x ← deref (head evcbs);
    b ← event_callback_finalize_nolock_ e b x; Done (0, b)
  else Done (0, b).

(** ** Timers *)

(** The loop's wait: [None] is to wait for ever. *)
Definition timeout_next (e : env) (b : event_base) : outcome (option timeval * event_base) :=
  top ← min_heap_top_ (timeheap b);
  match top with
  | None => Done (None, b)
  | Some x =>
      ev ← get b x;
      let '(now, b) := gettime e b in
      if negb (timercmp_gt (ev_timeout ev) now) then Done (Some tv0, b) else
      let tv := timersub (ev_timeout ev) now in
      _ ← assert_c ((0 <=? tv_sec tv) && (0 <=? tv_usec tv));
      Done (Some tv, b)
  end.

Fixpoint timeout_loop (fuel : nat) (e : env) (b : event_base) (now : timeval) : outcome event_base :=
  match fuel with
  | O => Crash
  | S fuel =>
      top ← min_heap_top_ (timeheap b);
      match top with
      | None => Done b
      | Some x =>
          ev ← get b x;
          if timercmp_gt (ev_timeout ev) now then Done b else
          '(_, b) ← event_del_nolock_ e b x EVENT_DEL_NOBLOCK;
          b ← event_active_nolock_ b x EV_TIMEOUT 1;
          timeout_loop fuel e b now
      end
  end.

(** Every turn takes one event out of the heap. *)
Definition timeout_process (e : env) (b : event_base) : outcome event_base :=
  if min_heap_empty_ (timeheap b) then Done b else
  let '(now, b) := gettime e b in
  timeout_loop (S (Z.to_nat (hn (timeheap b)))) e b now.

Definition ctl_due (ev : event) (now : timeval) : bool :=
  negb ((tv_sec now <? tv_sec (ev_timeout ev)) ||
        (tv_sec (ev_timeout ev) =? tv_sec now) &&
        (tv_usec now <? Z.land (tv_usec (ev_timeout ev)) MICROSECONDS_MASK)).

Fixpoint common_loop (fuel : nat) (e : env) (b : event_base) (i : nat) (now : timeval)
    : outcome event_base :=
  match fuel with
  | O => Crash
  | S fuel =>
      ctl ← deref (common_timeout_queues b !! i);
      match ctl_events ctl with
      | [] => Done b
      | x :: _ =>
          ev ← get b x;
          if ctl_due ev now then
            '(_, b) ← event_del_nolock_ e b x EVENT_DEL_NOBLOCK;
            b ← event_active_nolock_ b x EV_TIMEOUT 1;
            common_loop fuel e b i now
          else common_timeout_schedule e b ctl ev
      end
  end.

Definition common_timeout_callback (e : env) (b : event_base) (i : nat) : outcome event_base :=
  let '(now, b) := gettime e b in
  ctl ← deref (common_timeout_queues b !! i);
  common_loop (S (length (ctl_events ctl))) e b i now.

Fixpoint find_ctl (l : list common_timeout_list) (d : timeval) : option common_timeout_list :=
  match l with
  | [] => None
  | c :: l =>
      if (tv_sec d =? tv_sec (ctl_duration c)) &&
         (tv_usec d =? Z.land (tv_usec (ctl_duration c)) MICROSECONDS_MASK)
      then Some c else find_ctl l d
  end.

(** [fresh] is the address the new queue's event gets. *)
Definition event_base_init_common_timeout (e : env) (fresh : Z) (b : event_base) (d : timeval)
    : outcome (option timeval * event_base) :=
  let d := if 1000000 <? tv_usec d then
             let u := if is_common_timeout d b then Z.land (tv_usec d) MICROSECONDS_MASK
                      else tv_usec d in
             mkTimeval (i64 (tv_sec d + u / 1000000)) (u mod 1000000)
           else d in
  match find_ctl (common_timeout_queues b) d with
  | Some c =>
      _ ← assert_c (is_common_timeout (ctl_duration c) b);
      Done (Some (ctl_duration c), b)
  | None =>
      let n := n_common_timeouts b in
      if n =? MAX_COMMON_TIMEOUTS then Done (None, b) else
      let grow := n_common_timeouts_allocated b =? n in
      let size := if n <? 16 then 16 else n * 2 in
      if grow && negb (mem_ok e (CommonQueues size)) then Done (None, b) else
      let b := if grow then set_n_common_timeouts_allocated b size else b in
      if negb (mem_ok e CommonQueue) then Done (None, b) else
      let duration := mkTimeval (tv_sec d)
        (Z.lor (tv_usec d) (Z.lor COMMON_TIMEOUT_MAGIC (Z.shiftl n 20))) in
      let '(_, b) := event_assign b fresh (-1) 0
                       (mkEvent 0 0 EV_CLOSURE_EVENT 0 0 0 tv0 tv0 0 None) in
      ev ← get b fresh;
      let b := put b fresh (add_flag ev EVLIST_INTERNAL) in
      '(_, b) ← event_priority_set b fresh 0;
      let b := set_common_timeout_queues b
                 (common_timeout_queues b ++ [mkCtl [] duration fresh]) in
      _ ← assert_c (is_common_timeout duration b);
      Done (Some duration, b)
  end.
