(* ===== verification/EventBaseInv.v ===== *)
(** * The event base: every event is exactly where its flags say

    The invariant of [EventBase].  It is a conjunction of components, each of
    which sees the events only through the fields it depends on (a view):
    timers (the heap and the common-timeout queues), active queues,
    descriptor slots, signal slots, and the event count.  An operation that
    leaves a view unchanged leaves the component unchanged. *)

From stdpp Require Import sorting.
From S2P Require Import Prelude MinHeap EventBase.

(** ** Flags *)

Ltac single_bit k :=
  lazymatch k with
  | EVLIST_TIMEOUT => constr:(0) | EVLIST_INSERTED => constr:(1) | EVLIST_ACTIVE => constr:(3)
  | EVLIST_INTERNAL => constr:(4) | EVLIST_ACTIVE_LATER => constr:(5)
  | EVLIST_FINALIZING => constr:(6) | EVLIST_INIT => constr:(7)
  end.

Lemma has_add_flag e f k : has (ev_flags (add_flag e f)) k = has (ev_flags e) k || has f k.
Proof. apply has_lor_l. Qed.

Lemma has_del_flag e f n : 0 <= n ->
  has (ev_flags (del_flag e f)) (2 ^ n) = has (ev_flags e) (2 ^ n) && negb (has f (2 ^ n)).
Proof. apply has_clear. Qed.

Ltac flags_step :=
  match goal with
  | |- context [has (ev_flags (add_flag ?e ?f)) ?k] =>
      rewrite (has_add_flag e f k)
  | |- context [has (ev_flags (del_flag ?e ?f)) ?k] =>
      let n := single_bit k in
      change (has (ev_flags (del_flag e f)) k) with (has (ev_flags (del_flag e f)) (2 ^ n));
      rewrite (has_del_flag e f n) by lia;
      change (2 ^ n) with k
  end.

Ltac flag_consts :=
  repeat match goal with
  | |- context [has ?f ?k] =>
      is_const f; is_const k; let v := eval vm_compute in (has f k) in change (has f k) with v
  end.

(** Reduce the flags of an updated event to those it had. *)
Ltac flags := repeat flags_step; flag_consts; simpl; rewrite ?orb_false_r, ?andb_true_r, ?orb_true_r, ?andb_false_r.

(** The high bits that name a common-timeout queue. *)
Definition hi (tv : timeval) : Z := Z.shiftr (tv_usec tv) 20.

(** ** Views *)

Record tview := mkT { t_init : bool; t_on : bool; t_at : timeval }.
Record aview := mkA { a_on : bool; a_later : bool; a_pri : Z }.
Record iview := mkI { i_on : bool; i_events : Z; i_fd : Z }.

Definition tview_of (e : event) : tview :=
  mkT (has (ev_flags e) EVLIST_INIT) (has (ev_flags e) EVLIST_TIMEOUT) (ev_timeout e).
Definition aview_of (e : event) : aview :=
  mkA (has (ev_flags e) EVLIST_ACTIVE) (has (ev_flags e) EVLIST_ACTIVE_LATER) (ev_pri e).
Definition iview_of (e : event) : iview :=
  mkI (has (ev_flags e) EVLIST_INSERTED) (ev_events e) (ev_fd e).

(** How often an event counts in [event_count]. *)
Definition weight (e : event) : Z :=
  counted (ev_flags e) *
    (Z.b2z (has (ev_flags e) EVLIST_TIMEOUT) + Z.b2z (has (ev_flags e) EVLIST_INSERTED) +
     Z.b2z (has (ev_flags e) EVLIST_ACTIVE) + Z.b2z (has (ev_flags e) EVLIST_ACTIVE_LATER)).

Definition msum (m : gmap Z Z) : Z := map_fold (fun _ w acc => w + acc) 0 m.

Lemma msum_insert_new m x w : m !! x = None -> msum (<[x := w]> m) = w + msum m.
Proof. intros Hx. unfold msum. rewrite map_fold_insert_L; [done|intros; lia|done]. Qed.

Lemma msum_insert m x w w' : m !! x = Some w -> msum (<[x := w']> m) = msum m - w + w'.
Proof.
  intros Hx. rewrite <-(insert_delete_id m x w Hx) at 2. rewrite <-insert_delete_eq.
  rewrite !msum_insert_new by apply lookup_delete_eq. lia.
Qed.

Lemma counted_internal f : counted f = Z.b2z (negb (has f EVLIST_INTERNAL)).
Proof.
  unfold counted. change EVLIST_INTERNAL with (2 ^ 4). rewrite has_bit by lia.
  apply Z.bits_inj'. intros n Hn. rewrite Z.land_spec. destruct (decide (n = 0)) as [->|Hne].
  - rewrite Z.lnot_spec, Z.shiftr_spec by lia. rewrite Z.add_0_l, Z.b2z_bit0, Z.bit0_odd.
    by rewrite andb_true_r.
  - assert (Z.testbit 1 n = false) as -> by (apply (Z.pow2_bits_false 0); lia).
    rewrite andb_false_r. symmetry. destruct (negb _); simpl; [apply (Z.pow2_bits_false 0); lia|].
    apply Z.bits_0.
Qed.

(** ** Lists of addresses *)

Definition without (x : Z) (l : list Z) : list Z := filter (fun y => y <> x) l.

Lemma elem_of_without x y l : y ∈ without x l <-> y ∈ l /\ y <> x.
Proof. unfold without. rewrite list_elem_of_filter. tauto. Qed.

Lemma NoDup_without x l : NoDup l -> NoDup (without x l).
Proof. apply NoDup_filter. Qed.

Lemma without_absent x l : x ∉ l -> without x l = l.
Proof.
  unfold without. induction l as [|y l IH]; intros Hx; [done|].
  rewrite filter_cons, decide_True by set_solver. f_equal. apply IH. set_solver.
Qed.

Lemma zlen_without x l : NoDup l -> x ∈ l -> zlen (without x l) = zlen l - 1.
Proof.
  intros Hnd Hx. apply list_elem_of_split in Hx as (l1 & l2 & ->).
  apply NoDup_app in Hnd as (_ & H1 & [H2 _]%NoDup_cons).
  unfold without. rewrite filter_app, filter_cons, decide_False by auto.
  fold (without x l1) (without x l2). rewrite !without_absent by set_solver.
  autorewrite with zl. lia.
Qed.

Lemma tq_remove_done x l : x ∈ l -> tq_remove x l = Done (without x l).
Proof. intros Hx. unfold tq_remove. by rewrite decide_True. Qed.

Lemma zlen_concat_insert (qs : list (list Z)) p q q' :
  qs !! p = Some q -> zlen (concat (<[p := q']> qs)) = zlen (concat qs) - zlen q + zlen q'.
Proof.
  intros Hp. rewrite insert_take_drop by (by eapply lookup_lt_Some).
  rewrite <-(take_drop_middle qs p q Hp) at 3.
  rewrite !concat_app. simpl. autorewrite with zl. lia.
Qed.

(** ** Active queues *)

Definition holds {V} (m : gmap Z V) (P : V -> Prop) (x : Z) : Prop :=
  exists v, m !! x = Some v /\ P v.

Lemma holds_insert {V} (m : gmap Z V) (P : V -> Prop) x v y :
  holds (<[x := v]> m) P y <-> (y = x /\ P v) \/ (y <> x /\ holds m P y).
Proof.
  unfold holds. destruct (decide (y = x)) as [->|Hne].
  - rewrite lookup_insert_eq. naive_solver.
  - rewrite lookup_insert_ne by done. naive_solver.
Qed.

Lemma holds_is {V} (m : gmap Z V) (P : V -> Prop) x v : m !! x = Some v -> holds m P x <-> P v.
Proof. unfold holds. naive_solver. Qed.

Record active_ok (m : gmap Z aview) (qs : list (list Z)) (later : list Z) (count : Z) : Prop := {
  ao_queue : forall i q, qs !! i = Some q -> NoDup q /\
    forall x, x ∈ q <-> holds m (fun a => a_on a = true /\ a_pri a = Z.of_nat i) x;
  ao_later : NoDup later /\ forall x, x ∈ later <-> holds m (fun a => a_later a = true) x;
  ao_event : forall x a, m !! x = Some a ->
    0 <= a_pri a < zlen qs /\ a_on a && a_later a = false;
  ao_count : count = zlen (concat qs) + zlen later
}.

(** The queue an active event is in. *)
Lemma active_queue m qs later c x a :
  active_ok m qs later c -> m !! x = Some a ->
  exists q, qs !! Z.to_nat (a_pri a) = Some q /\ NoDup q /\ (x ∈ q <-> a_on a = true).
Proof.
  intros Ho Hx. destruct (ao_event _ _ _ _ Ho x a Hx) as [Hp _].
  destruct (lookup_lt_is_Some_2 qs (Z.to_nat (a_pri a))) as [q Hq]; [unfold zlen in Hp; lia|].
  exists q. split; [done|]. destruct (ao_queue _ _ _ _ Ho _ _ Hq) as [Hnd Hm].
  split; [done|]. rewrite Hm, (holds_is m _ x a Hx), Z2Nat.id by lia. tauto.
Qed.

(** Replacing the queue of priority [p] and the event [x] at once. *)
Lemma active_set m qs later later' c c' x a a' q q' :
  active_ok m qs later c -> m !! x = Some a -> a_pri a' = a_pri a ->
  a_on a' && a_later a' = false ->
  qs !! Z.to_nat (a_pri a) = Some q -> NoDup q' -> NoDup later' ->
  (forall y, y ∈ q' <-> y <> x /\ y ∈ q \/ y = x /\ a_on a' = true) ->
  (forall y, y ∈ later' <-> y <> x /\ y ∈ later \/ y = x /\ a_later a' = true) ->
  c' - c = zlen q' - zlen q + (zlen later' - zlen later) ->
  active_ok (<[x := a']> m) (<[Z.to_nat (a_pri a) := q']> qs) later' c'.
Proof.
  intros Ho Hx Hpri Hex Hq Hnd Hnl Hq' Hl' Hc. destruct Ho as [Hqs [Hl1 Hl2] Hev Hcnt].
  assert (Hp : 0 <= a_pri a) by (destruct (Hev x a Hx); lia). split.
  - intros i qi Hi. rewrite list_lookup_insert_Some in Hi. destruct Hi as [(<- & <- & _)|[Hne Hi]].
    + split; [done|]. intros y. rewrite Hq', holds_insert, Hpri.
      destruct (Hqs _ _ Hq) as [_ ->]. rewrite Z2Nat.id by done. tauto.
    + destruct (Hqs _ _ Hi) as [Hndi Hmi]. split; [done|]. intros y. rewrite Hmi, holds_insert, Hpri.
      destruct (decide (y = x)) as [->|Hy]; [|tauto].
      rewrite (holds_is m _ x a Hx). split; [|naive_solver lia].
      intros [_ Hz]. exfalso. apply Hne. rewrite Hz, Nat2Z.id. done.
  - split; [done|]. intros y. rewrite Hl', holds_insert, Hl2. tauto.
  - intros y b Hy. unfold zlen. rewrite length_insert.
    apply lookup_insert_Some in Hy as [[<- <-]|[_ Hy]]; [|by apply Hev in Hy].
    rewrite Hpri. split; [|done]. by apply (Hev x a Hx).
  - rewrite (zlen_concat_insert _ _ _ _ Hq). lia.
Qed.

Lemma active_remove m qs later c x a q :
  active_ok m qs later c -> m !! x = Some a -> a_on a = true ->
  qs !! Z.to_nat (a_pri a) = Some q ->
  active_ok (<[x := mkA false (a_later a) (a_pri a)]> m)
    (<[Z.to_nat (a_pri a) := without x q]> qs) later (c - 1).
Proof.
  intros Ho Hx Hon Hq. destruct (active_queue _ _ _ _ _ _ Ho Hx) as (q0 & Hq0 & Hnd & Hin).
  simplify_eq. destruct (ao_later _ _ _ _ Ho) as [Hl1 Hl2].
  eapply active_set; eauto; simpl; eauto using NoDup_without.
  - intros y. rewrite elem_of_without. naive_solver.
  - intros y. rewrite Hl2. destruct (decide (y = x)) as [->|]; [|tauto].
    rewrite (holds_is m _ x a Hx). tauto.
  - rewrite zlen_without by tauto. lia.
Qed.

Lemma active_insert m qs later c x a q :
  active_ok m qs later c -> m !! x = Some a -> a_on a = false -> a_later a = false ->
  qs !! Z.to_nat (a_pri a) = Some q ->
  active_ok (<[x := mkA true (a_later a) (a_pri a)]> m)
    (<[Z.to_nat (a_pri a) := q ++ [x]]> qs) later (c + 1).
Proof.
  intros Ho Hx Hon Hla Hq. destruct (active_queue _ _ _ _ _ _ Ho Hx) as (q0 & Hq0 & Hnd & Hin).
  simplify_eq. destruct (ao_later _ _ _ _ Ho) as [Hl1 Hl2].
  assert (Hni : x ∉ q) by (rewrite Hin; congruence).
  eapply active_set; eauto; simpl; rewrite ?Hla; auto.
  - apply NoDup_app. split; [done|]. split; [set_solver|apply NoDup_singleton].
  - intros y. rewrite elem_of_app, list_elem_of_singleton. naive_solver.
  - intros y. rewrite Hl2. destruct (decide (y = x)) as [->|]; [|tauto].
    rewrite (holds_is m _ x a Hx), Hla. tauto.
  - rewrite zlen_app, zlen_cons, zlen_nil. lia.
Qed.

Lemma later_remove m qs later c x a :
  active_ok m qs later c -> m !! x = Some a -> a_later a = true ->
  active_ok (<[x := mkA (a_on a) false (a_pri a)]> m) qs (without x later) (c - 1).
Proof.
  intros Ho Hx Hla. destruct (active_queue _ _ _ _ _ _ Ho Hx) as (q & Hq & Hnd & Hin).
  destruct (ao_later _ _ _ _ Ho) as [Hl1 Hl2].
  rewrite <-(list_insert_id qs (Z.to_nat (a_pri a)) q Hq).
  eapply active_set; eauto; simpl; rewrite ?andb_false_r; auto using NoDup_without.
  - intros y. destruct (decide (y = x)) as [->|]; tauto.
  - intros y. rewrite elem_of_without. naive_solver.
  - rewrite zlen_without; [lia|done|]. rewrite Hl2, (holds_is m _ x a Hx). done.
Qed.

Lemma later_insert m qs later c x a :
  active_ok m qs later c -> m !! x = Some a -> a_on a = false -> a_later a = false ->
  active_ok (<[x := mkA (a_on a) true (a_pri a)]> m) qs (later ++ [x]) (c + 1).
Proof.
  intros Ho Hx Hon Hla. destruct (active_queue _ _ _ _ _ _ Ho Hx) as (q & Hq & Hnd & Hin).
  destruct (ao_later _ _ _ _ Ho) as [Hl1 Hl2].
  assert (Hni : x ∉ later) by (rewrite Hl2, (holds_is m _ x a Hx); congruence).
  rewrite <-(list_insert_id qs (Z.to_nat (a_pri a)) q Hq).
  eapply active_set; eauto; simpl; rewrite ?Hon; auto.
  - apply NoDup_app. split; [done|]. split; [set_solver|apply NoDup_singleton].
  - intros y. destruct (decide (y = x)) as [->|]; naive_solver congruence.
  - intros y. rewrite elem_of_app, list_elem_of_singleton. naive_solver.
  - rewrite zlen_app, zlen_cons, zlen_nil. lia.
Qed.

(** An event moves from the later queue to its active queue. *)
Lemma later_promote m qs later c x a q :
  active_ok m qs (x :: later) c -> m !! x = Some a ->
  qs !! Z.to_nat (a_pri a) = Some q ->
  active_ok (<[x := mkA true false (a_pri a)]> m)
    (<[Z.to_nat (a_pri a) := q ++ [x]]> qs) later c.
Proof.
  intros Ho Hx Hq. destruct (active_queue _ _ _ _ _ _ Ho Hx) as (q0 & Hq0 & Hnd & Hin).
  simplify_eq. destruct (ao_later _ _ _ _ Ho) as [[Hl0 Hl1]%NoDup_cons Hl2].
  assert (Hla : holds m (fun a => a_later a = true) x) by (apply Hl2; set_solver).
  rewrite (holds_is m _ x a Hx) in Hla.
  assert (Hni : x ∉ q).
  { rewrite Hin. intros Hon. destruct (ao_event _ _ _ _ Ho x a Hx) as [_ Hex].
    by rewrite Hon, Hla in Hex. }
  eapply active_set; eauto; simpl; auto.
  - apply NoDup_app. split; [done|]. split; [set_solver|apply NoDup_singleton].
  - intros y. rewrite elem_of_app, list_elem_of_singleton. naive_solver.
  - intros y. rewrite elem_of_cons. naive_solver congruence.
  - autorewrite with zl. lia.
Qed.

(** ** Timers *)

Definition time_of (m : gmap Z tview) (x : Z) : timeval :=
  match m !! x with Some t => t_at t | None => tv0 end.

Definition in_heap (t : tview) : Prop := t_on t = true /\ hi (t_at t) = 0.
Definition in_queue (i : nat) (t : tview) : Prop :=
  t_on t = true /\ hi (t_at t) = 0x500 + Z.of_nat i.

Record queue_ok (m : gmap Z tview) (i : nat) (c : common_timeout_list) : Prop := {
  qo_nodup : NoDup (ctl_events c);
  qo_elem : forall x, x ∈ ctl_events c <-> holds m (in_queue i) x;
  qo_sorted : StronglySorted (fun x y => tv_le (time_of m x) (time_of m y)) (ctl_events c);
  qo_duration : hi (ctl_duration c) = 0x500 + Z.of_nat i;
  qo_event : holds m (fun t => t_init t = true) (ctl_timeout_event c)
}.

Record timers_ok (m : gmap Z tview) (qs : list common_timeout_list) (h : min_heap)
    (idx : gmap Z Z) : Prop := {
  to_heap : exists v, heap_wf (time_of m) h idx v /\ forall x, x ∈ v <-> holds m in_heap x;
  to_on : forall x t, m !! x = Some t -> t_on t = true ->
    t_init t = true /\ (in_heap t \/ exists i, (i < length qs)%nat /\ in_queue i t);
  to_known : forall x t, m !! x = Some t -> t_init t = true -> is_Some (idx !! x);
  to_queue : forall i c, qs !! i = Some c -> queue_ok m i c;
  to_max : (length qs <= 256)%nat;
  to_size : Z.of_nat (size m) < INT_MAX
}.

Lemma high_bits_common h : 0 <= h - 0x500 < 256 ->
  Z.land h 0xf00 = 0x500 /\ Z.land h 0xff = h - 0x500.
Proof.
  intros Hh. assert (Hall : forallb (fun i => let h := 0x500 + Z.of_nat i in
    (Z.land h 0xf00 =? 0x500) && (Z.land h 0xff =? Z.of_nat i)) (seq 0 256) = true)
    by (vm_compute; reflexivity).
  rewrite forallb_forall in Hall. specialize (Hall (Z.to_nat (h - 0x500))).
  rewrite in_seq in Hall. specialize (Hall ltac:(lia)). cbv beta zeta in Hall. zb.
  rewrite Z2Nat.id in * by lia. replace (0x500 + (h - 0x500)) with h in * by lia. done.
Qed.

Lemma high_bits_magic h : 0 <= h < 4096 -> Z.land h 0xf00 = 0x500 -> h = 0x500 + Z.land h 0xff.
Proof.
  intros Hh Hm. assert (Hall : forallb (fun i => let h := Z.of_nat i in
    negb (Z.land h 0xf00 =? 0x500) || (h =? 0x500 + Z.land h 0xff)) (seq 0 (Z.to_nat 4096)) = true)
    by (vm_compute; reflexivity).
  rewrite forallb_forall in Hall. specialize (Hall (Z.to_nat h)).
  rewrite in_seq in Hall. specialize (Hall ltac:(lia)). cbv beta zeta in Hall.
  rewrite Z2Nat.id in Hall by lia. zb. destruct Hall as [Hf|Hf]; zb; [congruence|done].
Qed.

Lemma land_high u m : 0 <= m -> Z.land u (Z.shiftl m 20) = Z.shiftl (Z.land (Z.shiftr u 20) m) 20.
Proof.
  intros Hm. apply Z.bits_inj'. intros n Hn. rewrite Z.land_spec, !Z.shiftl_spec by done.
  destruct (decide (n < 20)).
  - rewrite !(Z.testbit_neg_r _ (n - 20)) by lia. by rewrite andb_false_r.
  - rewrite Z.land_spec, Z.shiftr_spec by lia. by replace (n - 20 + 20) with n by lia.
Qed.

Lemma common_bits tv :
  Z.land (tv_usec tv) COMMON_TIMEOUT_MASK = Z.shiftl (Z.land (hi tv) 0xf00) 20 /\
  COMMON_TIMEOUT_IDX tv = Z.land (hi tv) 0xff.
Proof.
  unfold COMMON_TIMEOUT_IDX, hi. split.
  - change COMMON_TIMEOUT_MASK with (Z.shiftl 0xf00 20). by apply land_high.
  - change COMMON_TIMEOUT_IDX_MASK with (Z.shiftl 0xff 20). rewrite land_high by done.
    by rewrite Z.shiftr_shiftl_l.
Qed.

(** A timeout that names queue [i]. *)
Lemma is_common_hi tv b i :
  hi tv = 0x500 + Z.of_nat i -> (i < length (common_timeout_queues b))%nat ->
  (length (common_timeout_queues b) <= 256)%nat ->
  is_common_timeout tv b = true /\ Z.to_nat (COMMON_TIMEOUT_IDX tv) = i.
Proof.
  intros Hh Hi Hn. destruct (common_bits tv) as [H1 H2].
  destruct (high_bits_common (hi tv)) as [H3 H4]; [lia|].
  unfold is_common_timeout, n_common_timeouts. rewrite H1, H2, H3, H4.
  split; [|lia]. apply andb_true_iff. split; [done|]. apply Z.ltb_lt. unfold zlen. lia.
Qed.

Lemma not_common_low tv b : hi tv = 0 -> is_common_timeout tv b = false.
Proof. intros Hh. unfold is_common_timeout. destruct (common_bits tv) as [-> _]. by rewrite Hh. Qed.

(** What a caller may pass as an interval: an ordinary one, or the handle of
    a common-timeout queue. *)
Definition tv_ok (b : event_base) (tv : timeval) : Prop :=
  0 <= tv_usec tv < 2 ^ 32 /\ (is_common_timeout tv b = true \/ tv_usec tv < 1000000).

Lemma hi_range tv n : 0 <= n -> 0 <= tv_usec tv < 2 ^ (20 + n) -> 0 <= hi tv < 2 ^ n.
Proof.
  intros Hn Hu. unfold hi. rewrite Z.shiftr_div_pow2 by lia. rewrite Z.pow_add_r in Hu by lia.
  split; [apply Z.div_pos; lia|]. apply Z.div_lt_upper_bound; lia.
Qed.

Lemma is_common_inv tv b :
  0 <= tv_usec tv < 2 ^ 32 -> is_common_timeout tv b = true ->
  exists i, hi tv = 0x500 + Z.of_nat i /\ (i < length (common_timeout_queues b))%nat.
Proof.
  intros Hu Hc. pose proof (hi_range tv 12 ltac:(lia) Hu) as Hh.
  unfold is_common_timeout, n_common_timeouts, zlen in Hc. zb.
  destruct (common_bits tv) as [H1 H2]. rewrite H1 in *. rewrite H2 in *.
  assert (Hm : Z.land (hi tv) 0xf00 = 0x500).
  { apply (f_equal (fun z => Z.shiftr z 20)) in H. rewrite Z.shiftr_shiftl_l in H by lia. exact H. }
  pose proof (high_bits_magic _ Hh Hm).
  assert (0 <= Z.land (hi tv) 0xff) by (apply Z.land_nonneg; lia).
  exists (Z.to_nat (Z.land (hi tv) 0xff)). lia.
Qed.

Lemma heap_wf_ext t0 t1 h idx v :
  (forall x, t1 x = t0 x) -> heap_wf t0 h idx v -> heap_wf t1 h idx v.
Proof.
  intros Ht [Hr Hn Ha Hm Ho Hout]. split; auto.
  intros q c x y Hqc Hx Hy. unfold before. rewrite !Ht. by apply (Ho q c).
Qed.

Lemma time_of_insert m x t y :
  time_of (<[x := t]> m) y = if decide (y = x) then t_at t else time_of m y.
Proof.
  unfold time_of. case_decide as Hy; [subst; by rewrite lookup_insert_eq|].
  by rewrite lookup_insert_ne.
Qed.

Lemma time_of_is m x t : m !! x = Some t -> time_of m x = t_at t.
Proof. unfold time_of. by intros ->. Qed.

Lemma sorted_ext m m' (l : list Z) :
  (forall y, y ∈ l -> time_of m' y = time_of m y) ->
  StronglySorted (fun x y => tv_le (time_of m x) (time_of m y)) l ->
  StronglySorted (fun x y => tv_le (time_of m' x) (time_of m' y)) l.
Proof.
  intros Ht Hs. induction Hs as [|x l Hs IH Hx]; constructor.
  - apply IH. intros y Hy. apply Ht. set_solver.
  - rewrite Forall_forall in Hx |- *. intros y Hy.
    rewrite !Ht by set_solver. by apply Hx.
Qed.

(** What a change of event [x] from [t] to [t'] has to do to a queue. *)
Record queue_step (m : gmap Z tview) (x : Z) (t' : tview) (i : nat)
    (c c' : common_timeout_list) : Prop := {
  qs_same : ctl_duration c' = ctl_duration c /\ ctl_timeout_event c' = ctl_timeout_event c;
  qs_nodup : NoDup (ctl_events c');
  qs_elem : forall y, y ∈ ctl_events c' <-> y <> x /\ y ∈ ctl_events c \/ y = x /\ in_queue i t';
  qs_sorted : StronglySorted
    (fun y z => tv_le (time_of (<[x := t']> m) y) (time_of (<[x := t']> m) z)) (ctl_events c')
}.

Lemma timers_set m qs qs' h h' idx idx' x t t' :
  timers_ok m qs h idx -> m !! x = Some t -> t_init t' = t_init t ->
  (t_on t' = true -> t_init t' = true /\
    (in_heap t' \/ exists i, (i < length qs)%nat /\ in_queue i t')) ->
  (exists v, heap_wf (time_of (<[x := t']> m)) h' idx' v /\
    forall y, y ∈ v <-> y <> x /\ holds m in_heap y \/ y = x /\ in_heap t') ->
  (forall y, is_Some (idx !! y) -> is_Some (idx' !! y)) ->
  length qs' = length qs ->
  (forall i c', qs' !! i = Some c' -> exists c, qs !! i = Some c /\ queue_step m x t' i c c') ->
  timers_ok (<[x := t']> m) qs' h' idx'.
Proof.
  intros [Hh Hon Hk Hq Hmx Hsz] Hx Hin Hon' (v & Hv & Hve) Hk' Hlen Hq'. split.
  - exists v. split; [done|]. intros y. rewrite Hve, holds_insert. tauto.
  - intros y s [[<- <-]|[_ Hy]]%lookup_insert_Some Hs; rewrite Hlen; [auto|by eapply Hon].
  - intros y s [[<- <-]|[_ Hy]]%lookup_insert_Some Hs; apply Hk'; [|by eapply Hk].
    eapply Hk; [exact Hx|]. congruence.
  - intros i c' Hc'. destruct (Hq' _ _ Hc') as (c & Hc & [[Hd He] Hnd Hel Hso]).
    destruct (Hq _ _ Hc) as [_ Hel0 _ Hdur Hev]. split; auto.
    + intros y. rewrite Hel, Hel0, holds_insert. tauto.
    + by rewrite Hd.
    + rewrite He, holds_insert. destruct (decide (ctl_timeout_event c = x)) as [Hcx|]; [|tauto].
      rewrite Hcx in Hev |- *. left. split; [done|]. rewrite Hin. by rewrite (holds_is m _ x t Hx) in Hev.
  - by rewrite Hlen.
  - by rewrite map_size_insert_Some by eauto.
Qed.

(** A queue the event is neither in before nor after the change. *)
Lemma queue_untouched m qs h idx x t' i c :
  timers_ok m qs h idx -> qs !! i = Some c -> ~ holds m (in_queue i) x -> ~ in_queue i t' ->
  queue_step m x t' i c c.
Proof.
  intros Ho Hc Hx Ht'. destruct (to_queue _ _ _ _ Ho i c Hc) as [Hnd Hel Hso _ _].
  assert (Hni : x ∉ ctl_events c) by (by rewrite Hel).
  split; auto.
  - intros y. destruct (decide (y = x)) as [->|]; tauto.
  - eapply sorted_ext; [|exact Hso]. intros y Hy. rewrite time_of_insert. case_decide; [|done].
    by subst.
Qed.

(** An event without a pending timer gets a new timeout. *)
Lemma timers_retime m qs h idx x t tv :
  timers_ok m qs h idx -> m !! x = Some t -> t_on t = false ->
  timers_ok (<[x := mkT (t_init t) false tv]> m) qs h idx.
Proof.
  intros Ho Hx Hoff. destruct (to_heap _ _ _ _ Ho) as (v & Hv & Hve).
  assert (Hno : forall P : tview -> Prop, (forall s, P s -> t_on s = true) -> ~ holds m P x).
  { intros P HP Hh. rewrite (holds_is m _ x t Hx) in Hh. apply HP in Hh. congruence. }
  assert (Hni : x ∉ v) by (rewrite Hve; apply Hno; by intros s []).
  eapply timers_set; eauto; simpl; try done.
  - exists v. split.
    + destruct Hv as [? ? ? ? Hord ?]. split; auto. eapply retimed_absent; [|exact Hni|exact Hord].
      intros y Hy. rewrite time_of_insert. by case_decide.
    + intros y. rewrite Hve. destruct (decide (y = x)) as [->|]; [|tauto].
      split; [intros H; by apply Hve in H|]. intros [[? _]|[_ [? _]]]; done.
  - intros i c Hc. exists c. split; [done|]. eapply queue_untouched; eauto.
    + apply Hno. by intros s [].
    + by intros [].
Qed.

(** An event leaves the heap. *)
Lemma timers_heap_remove m qs h idx x t f :
  timers_ok m qs h idx -> m !! x = Some t -> in_heap t -> (forall y, f y = time_of m y) ->
  exists r h' idx', min_heap_erase_ f h idx x = Done (r, h', idx') /\
    timers_ok (<[x := mkT (t_init t) false (t_at t)]> m) qs h' idx' /\
    hn h' = hn h - 1 /\ ha h' = ha h.
Proof.
  intros Ho Hx Hin Hf. destruct (to_heap _ _ _ _ Ho) as (v & Hv & Hve).
  assert (Hxv : x ∈ v) by (by rewrite Hve, (holds_is m _ x t Hx)).
  apply (heap_wf_ext _ f) in Hv; [|done].
  destruct (ra_known _ _ _ _ (hw_rep _ _ _ _ Hv) _ Hxv) as [i Hi].
  destruct (min_heap_erase_spec f h idx v x i Hv Hi)
    as (r & h' & idx' & v' & -> & Hv' & Hxi & Hse & Has & Hc).
  destruct Hc as [(_ & _ & _ & _ & _ & Hc)|(_ & -> & Hp)]; [done|].
  assert (Hxv' : x ∉ v').
  { pose proof (ra_nodup _ _ _ _ (hw_rep _ _ _ _ Hv)) as Hnd. rewrite <-Hp in Hnd.
    by apply NoDup_cons in Hnd as [? _]. }
  exists 0, h', idx'. split; [done|]. split.
  - eapply timers_set; eauto; simpl; try done.
    + exists v'. split.
      * eapply heap_wf_ext; [|exact Hv']. intros y. rewrite time_of_insert, Hf.
        case_decide; [subst; by rewrite (time_of_is m x t)|done].
      * intros y. split.
        { intros Hy. left. split; [intros ->; done|]. apply Hve. rewrite <-Hp. set_solver. }
        intros [[Hne Hy]|[_ [? _]]]; [|done]. apply Hve in Hy. rewrite <-Hp in Hy. set_solver.
    + apply (known_after f h' idx idx' v v' x Hv' Hse); [|eauto].
      intros y. rewrite <-Hp. set_solver.
    + intros j c Hc. exists c. split; [done|]. eapply queue_untouched; eauto.
      * rewrite (holds_is m _ x t Hx). destruct Hin as [_ H0]. intros [_ H1]. lia.
      * by intros [].
  - split; [|done]. rewrite (hw_n _ _ _ _ Hv'), (hw_n _ _ _ _ Hv). unfold zlen.
    rewrite <-(Permutation_length Hp). simpl. lia.
Qed.

Lemma heap_size m qs h idx v :
  timers_ok m qs h idx -> NoDup v -> (forall x, x ∈ v -> is_Some (m !! x)) -> zlen v < INT_MAX.
Proof.
  intros Ho Hnd Hv. pose proof (to_size _ _ _ _ Ho) as Hs. unfold zlen.
  assert (Hle : (length v <= size m)%nat); [|lia].
  rewrite <-size_dom, <-(size_list_to_set (C := gset Z) v Hnd). apply subseteq_size.
  intros x. rewrite elem_of_list_to_set, elem_of_dom. apply Hv.
Qed.

(** An event enters the heap, in a slot that is there. *)
Lemma timers_heap_insert m qs h idx x t f mem :
  timers_ok m qs h idx -> m !! x = Some t -> t_init t = true -> t_on t = false ->
  hi (t_at t) = 0 -> (forall y, f y = time_of m y) -> mem = true \/ hn h + 1 <= ha h ->
  exists r h' idx', min_heap_push_ f mem h idx x = Done (r, h', idx') /\
    timers_ok (<[x := mkT true true (t_at t)]> m) qs h' idx'.
Proof.
  intros Ho Hx Hini Hoff Hhi Hf Hmem. destruct (to_heap _ _ _ _ Ho) as (v & Hv & Hve).
  apply (heap_wf_ext _ f) in Hv; [|done].
  assert (Hni : x ∉ v) by (rewrite Hve, (holds_is m _ x t Hx); intros []; congruence).
  destruct (to_known _ _ _ _ Ho x t Hx Hini) as [i Hi].
  pose proof (hw_out _ _ _ _ Hv _ _ Hi Hni) as ->.
  assert (Hsz : zlen v < INT_MAX).
  { eapply heap_size; [exact Ho|apply Hv|]. intros y Hy. apply Hve in Hy as (s & Hs & _). eauto. }
  replace (min_heap_push_ f mem h idx x) with (min_heap_push_ f true h idx x).
  2: { destruct Hmem as [->|Hr]; [done|]. symmetry. pose proof (hw_n _ _ _ _ Hv).
    pose proof (zlen_nonneg v). apply min_heap_push_reserved; [lia|done|apply Hv]. }
  destruct (min_heap_push_spec f true h idx v x Hv Hi Hsz) as (r & h' & idx' & v' & -> & Hv' & Hse & Hc).
  destruct Hc as [[-> Hp]|(_ & ? & _)]; [|done].
  exists 0, h', idx'. split; [done|].
  eapply timers_set; eauto; simpl; try done.
  - intros _. split; [done|]. left. done.
  - exists v'. split.
    + eapply heap_wf_ext; [|exact Hv']. intros y. rewrite time_of_insert, Hf.
      case_decide; [subst; by rewrite (time_of_is m x t)|done].
    + intros y. rewrite Hp, elem_of_cons. rewrite Hve. unfold in_heap; simpl.
      destruct (decide (y = x)) as [->|]; [|tauto]. rewrite (holds_is m _ x t Hx). tauto.
  - apply (known_after f h' idx idx' (x :: v) v' x Hv' Hse).
    + intros y. rewrite Hp. auto.
    + eapply ra_known; [apply Hv'|]. rewrite Hp. set_solver.
  - intros j c Hc. exists c. split; [done|]. eapply queue_untouched; eauto.
    + rewrite (holds_is m _ x t Hx). intros []; congruence.
    + intros [_ H]. simpl in H. lia.
Qed.

(** An event leaves or enters a common-timeout queue. *)
Lemma timers_queue_set m qs h idx x t t' i c l :
  timers_ok m qs h idx -> m !! x = Some t -> t_init t' = t_init t -> t_at t' = t_at t ->
  hi (t_at t) = 0x500 + Z.of_nat i -> qs !! i = Some c ->
  (t_on t' = true -> t_init t' = true) -> NoDup l ->
  (forall y, y ∈ l <-> y <> x /\ y ∈ ctl_events c \/ y = x /\ t_on t' = true) ->
  StronglySorted (fun y z => tv_le (time_of m y) (time_of m z)) l ->
  timers_ok (<[x := t']> m) (<[i := mkCtl l (ctl_duration c) (ctl_timeout_event c)]> qs) h idx.
Proof.
  intros Ho Hx Hin Hat Hhi Hc Hon Hnd Hl Hso.
  assert (Hsame : forall y, time_of (<[x := t']> m) y = time_of m y).
  { intros y. rewrite time_of_insert. case_decide; [subst; by rewrite (time_of_is m x t)|done]. }
  eapply timers_set; eauto.
  - intros Ht'. split; [auto|]. right. exists i. split; [by eapply lookup_lt_Some|].
    split; [done|]. by rewrite Hat.
  - destruct (to_heap _ _ _ _ Ho) as (v & Hv & Hve). exists v.
    split; [by apply (heap_wf_ext _ _ _ _ _ Hsame)|]. intros y. rewrite Hve.
    destruct (decide (y = x)) as [->|]; [|tauto]. rewrite (holds_is m _ x t Hx).
    unfold in_heap. rewrite Hat. split; [intros []; lia|intros [[]|[_ []]]; [done|lia]].
  - by rewrite length_insert.
  - intros j c' Hc'. rewrite list_lookup_insert_Some in Hc'.
    destruct Hc' as [(<- & <- & _)|[Hne Hc']].
    + exists c. split; [done|]. split; simpl; auto.
      * intros y. rewrite Hl. unfold in_queue. rewrite Hat. naive_solver.
      * by eapply sorted_ext; [|exact Hso].
    + exists c'. split; [done|]. eapply queue_untouched; eauto.
      * rewrite (holds_is m _ x t Hx). intros [_ H]. apply Hne. lia.
      * intros [_ H]. rewrite Hat in H. apply Hne. lia.
Qed.

Lemma sorted_without (R : Z -> Z -> Prop) x l : StronglySorted R l -> StronglySorted R (without x l).
Proof.
  intros Hs. unfold without. induction Hs as [|y l Hs IH Hy]; [constructor|].
  rewrite filter_cons. case_decide; [|done]. constructor; [done|].
  rewrite Forall_forall in Hy |- *. intros z [_ Hz]%list_elem_of_filter. by apply Hy.
Qed.

Lemma timers_queue_remove m qs h idx x t i c :
  timers_ok m qs h idx -> m !! x = Some t -> in_queue i t -> qs !! i = Some c ->
  x ∈ ctl_events c /\
  timers_ok (<[x := mkT (t_init t) false (t_at t)]> m)
    (<[i := mkCtl (without x (ctl_events c)) (ctl_duration c) (ctl_timeout_event c)]> qs) h idx.
Proof.
  intros Ho Hx Hin Hc. destruct (to_queue _ _ _ _ Ho i c Hc) as [Hnd Hel Hso _ _].
  assert (Hxc : x ∈ ctl_events c) by (by rewrite Hel, (holds_is m _ x t Hx)).
  split; [done|]. eapply timers_queue_set; eauto; simpl; auto using NoDup_without, sorted_without.
  - apply Hin.
  - done.
  - intros y. rewrite elem_of_without. naive_solver.
Qed.

Lemma same_common_hi x y : hi x = hi y -> is_same_common_timeout x y = true.
Proof.
  intros Hh. unfold is_same_common_timeout. apply Z.eqb_eq. apply Z.bits_inj'. intros n Hn.
  rewrite !Z.land_spec, Z.lnot_spec by done.
  assert (Hm : Z.testbit MICROSECONDS_MASK n = (n <? 20)).
  { change MICROSECONDS_MASK with (Z.ones 20). destruct (n <? 20) eqn:E; zb.
    - apply Z.ones_spec_low. lia.
    - apply Z.ones_spec_high. lia. }
  rewrite Hm. destruct (n <? 20) eqn:E; zb; [by rewrite !andb_false_r|].
  apply (f_equal (fun z => Z.testbit z (n - 20))) in Hh. unfold hi in Hh.
  rewrite !Z.shiftr_spec in Hh by lia. replace (n - 20 + 20) with n in Hh by lia. by rewrite Hh.
Qed.

Lemma insert_rev_spec b x tv l :
  (forall y, y ∈ l -> exists e, evs b !! y = Some e /\ hi (ev_timeout e) = hi tv) ->
  exists l1 l2, l = l1 ++ l2 /\ insert_rev b x tv l = Done (l1 ++ x :: l2) /\
    (forall y, y ∈ l1 -> tv_le tv (tmo b y)) /\ (forall y, head l2 = Some y -> tv_le (tmo b y) tv).
Proof.
  induction l as [|y l IH]; intros Hl.
  { exists [], []. split; [done|]. split; [done|]. split; [set_solver|done]. }
  destruct (Hl y ltac:(set_solver)) as (e & He & Hh). simpl. unfold get. rewrite He. simpl.
  rewrite same_common_hi by done. simpl. destruct (timercmp_gt (ev_timeout e) tv) eqn:E; simpl.
  - destruct IH as (l1 & l2 & -> & -> & H1 & H2); [set_solver|]. simpl.
    exists (y :: l1), l2. split; [done|]. split; [done|]. split; [|done].
    intros z [->|Hz]%elem_of_cons; [|auto]. unfold tmo. rewrite He. by apply tv_gt_le.
  - exists [], (y :: l). split; [done|]. split; [done|]. split; [set_solver|].
    intros z [= <-]. unfold tmo. by rewrite He.
Qed.

(** Inserting before the later ones and after the earlier ones keeps order. *)
Lemma sorted_insert m x (l1 l2 : list Z) tv :
  StronglySorted (fun y z => tv_le (time_of m y) (time_of m z)) (reverse l2 ++ reverse l1) ->
  time_of m x = tv ->
  (forall y, y ∈ l1 -> tv_le tv (time_of m y)) -> (forall y, head l2 = Some y -> tv_le (time_of m y) tv) ->
  StronglySorted (fun y z => tv_le (time_of m y) (time_of m z)) (reverse l2 ++ x :: reverse l1).
Proof.
  intros Hs Hx H1 H2. apply StronglySorted_app in Hs as (Hc & Hs2 & Hs1).
  assert (H2' : forall y, y ∈ l2 -> tv_le (time_of m y) tv).
  { destruct l2 as [|z l2]; [set_solver|]. intros y [->|Hy]%elem_of_cons; [by apply H2|].
    rewrite reverse_cons in Hs2. transitivity (time_of m z); [|by apply H2].
    apply StronglySorted_app in Hs2 as (Hz & _). apply Hz; [by rewrite elem_of_reverse|set_solver]. }
  apply StronglySorted_app_2; [|done|].
  - intros y z Hy Hz. rewrite elem_of_reverse in Hy. apply elem_of_cons in Hz as [->|Hz].
    + rewrite Hx. auto.
    + apply Hc; [by rewrite elem_of_reverse|done].
  - constructor; [done|]. apply Forall_forall. intros z Hz. rewrite Hx.
    apply H1. by rewrite <-elem_of_reverse.
Qed.

(** ** Descriptor slots *)

Definition waits_on (fd : Z) (v : iview) : Prop :=
  i_on v = true /\ has (i_events v) EV_IO = true /\ i_fd v = fd.

Definition want (m : gmap Z iview) (f x : Z) : bool :=
  match m !! x with Some v => has (i_events v) f | None => false end.

(** How many events of [l] want [f]. *)
Definition cnt (m : gmap Z iview) (f : Z) (l : list Z) : Z :=
  zlen (filter (fun x => want m f x = true) l).

Record slot_ok (m : gmap Z iview) (fd : Z) (c : evmap_io) : Prop := {
  so_nodup : NoDup (io_events c);
  so_elem : forall x, x ∈ io_events c <-> holds m (waits_on fd) x;
  so_read : nread c = cnt m EV_READ (io_events c) /\ nread c <= 0xffff;
  so_write : nwrite c = cnt m EV_WRITE (io_events c) /\ nwrite c <= 0xffff;
  so_close : nclose c = cnt m EV_CLOSED (io_events c) /\ nclose c <= 0xffff
}.

Definition mask_of (mp : event_io_map) (fd : Z) : Z :=
  match entries mp !! fd with Some c => slot_mask c | None => 0 end.

(** The backend knows at least what is wanted; exactly that unless it refused
    a removal. *)
Definition covers (exact : bool) (mask k : Z) : Prop :=
  if exact then k = mask else Z.land mask k = mask.

Record io_ok (exact : bool) (m : gmap Z iview) (mp : event_io_map) (k : gmap Z Z) : Prop := {
  io_slot : forall fd c, entries mp !! fd = Some c -> 0 <= fd < nentries mp /\ slot_ok m fd c;
  io_present : forall fd x, 0 <= fd -> holds m (waits_on fd) x -> is_Some (entries mp !! fd);
  io_size : nentries mp = 0 \/ 32 <= nentries mp <= 2 ^ 27;
  io_kernel : forall fd, covers exact (mask_of mp fd) (default 0 (k !! fd))
}.

(** What an event may wait for. *)
Definition event_shape (v : iview) : Prop :=
  i_fd v < 2 ^ 26 /\ (i_on v = true -> has (i_events v) EV_IO || has (i_events v) EV_SIGNAL = true) /\
  (has (i_events v) EV_SIGNAL = true -> has (i_events v) EV_IO = false /\ 0 <= i_fd v).

Definition shape_ok (m : gmap Z iview) : Prop := map_Forall (fun _ v => event_shape v) m.

Lemma covers_refl exact a : covers exact a a.
Proof. destruct exact; simpl; [done|apply Z.land_diag]. Qed.

Lemma covers_add exact mask k r : covers exact mask k -> covers exact (Z.lor mask r) (Z.lor k r).
Proof.
  destruct exact; simpl; [by intros ->|]. intros H. apply Z.bits_inj'. intros n Hn.
  apply (f_equal (fun z => Z.testbit z n)) in H. rewrite Z.land_spec in H.
  rewrite Z.land_spec, !Z.lor_spec. destruct (Z.testbit mask n), (Z.testbit k n), (Z.testbit r n); done.
Qed.

Lemma covers_del exact mask k r :
  covers exact mask k -> covers exact (Z.land mask (Z.lnot r)) (Z.land k (Z.lnot r)).
Proof.
  destruct exact; simpl; [by intros ->|]. intros H. apply Z.bits_inj'. intros n Hn.
  apply (f_equal (fun z => Z.testbit z n)) in H. rewrite Z.land_spec in H.
  rewrite !Z.land_spec, !Z.lnot_spec by done.
  destruct (Z.testbit mask n), (Z.testbit k n), (Z.testbit r n); done.
Qed.

Lemma covers_less mask k r : covers false mask k -> covers false (Z.land mask (Z.lnot r)) k.
Proof.
  simpl. intros H. apply Z.bits_inj'. intros n Hn.
  apply (f_equal (fun z => Z.testbit z n)) in H. rewrite Z.land_spec in H.
  rewrite !Z.land_spec, !Z.lnot_spec by done.
  destruct (Z.testbit mask n), (Z.testbit k n), (Z.testbit r n); done.
Qed.

Lemma cnt_nonneg m f l : 0 <= cnt m f l.
Proof. apply zlen_nonneg. Qed.

Lemma cnt_cons m f x l : cnt m f (x :: l) = cnt m f l + Z.b2z (want m f x).
Proof.
  unfold cnt. rewrite filter_cons. case_decide as H.
  - rewrite H, zlen_cons. simpl. lia.
  - apply not_true_is_false in H. rewrite H. simpl. lia.
Qed.

Lemma cnt_without m f x l :
  NoDup l -> x ∈ l -> cnt m f (without x l) = cnt m f l - Z.b2z (want m f x).
Proof.
  intros Hnd Hx. apply list_elem_of_split in Hx as (l1 & l2 & ->).
  apply NoDup_app in Hnd as (_ & H1 & [H2 _]%NoDup_cons).
  assert (Hw : without x (l1 ++ x :: l2) = l1 ++ l2).
  { unfold without. rewrite filter_app, filter_cons, decide_False by auto.
    fold (without x l1) (without x l2). by rewrite !without_absent by set_solver. }
  rewrite Hw. unfold cnt. rewrite !filter_app, filter_cons, !zlen_app. case_decide as H.
  - rewrite H, zlen_cons. simpl. lia.
  - apply not_true_is_false in H. rewrite H. simpl. lia.
Qed.

Lemma bump_b2z ev f n d : bump ev f n d = n + d * Z.b2z (has ev f).
Proof. unfold bump. destruct (has ev f); simpl; lia. Qed.

(** The mask of a slot after an addition and after a removal. *)
Lemma mask_add c ev l : 0 <= nread c -> 0 <= nwrite c -> 0 <= nclose c ->
  let c' := bump_slot c ev 1 in
  slot_mask (mkIo l (nread c') (nwrite c') (nclose c')) = Z.lor (slot_mask c) (bits_at c' ev 1).
Proof.
  intros H1 H2 H3. unfold slot_mask, bits_at, bump_slot, bump; simpl.
  assert (E : forall w n, 0 <= n -> negb ((if (w : bool) then n + 1 else n) =? 0) =
    negb (n =? 0) || (w && ((if w then n + 1 else n) =? 1))).
  { intros [] n Hn; simpl; [|by rewrite orb_false_r].
    destruct (n =? 0) eqn:E0, (n + 1 =? 0) eqn:E1, (n + 1 =? 1) eqn:E2; zb; lia || done. }
  rewrite !E by done.
  generalize (negb (nread c =? 0)) (negb (nwrite c =? 0)) (negb (nclose c =? 0)).
  generalize (has ev EV_READ && ((if has ev EV_READ then nread c + 1 else nread c) =? 1)).
  generalize (has ev EV_WRITE && ((if has ev EV_WRITE then nwrite c + 1 else nwrite c) =? 1)).
  generalize (has ev EV_CLOSED && ((if has ev EV_CLOSED then nclose c + 1 else nclose c) =? 1)).
  intros [] [] [] [] [] []; reflexivity.
Qed.

Lemma mask_del c ev l : 0 <= nread (bump_slot c ev (-1)) -> 0 <= nwrite (bump_slot c ev (-1)) ->
  0 <= nclose (bump_slot c ev (-1)) ->
  let c' := bump_slot c ev (-1) in
  slot_mask (mkIo l (nread c') (nwrite c') (nclose c')) =
    Z.land (slot_mask c) (Z.lnot (bits_at c' ev 0)).
Proof.
  unfold slot_mask, bits_at, bump_slot, bump; simpl. intros H1 H2 H3.
  assert (E : forall w n, 0 <= (if (w : bool) then n + -1 else n) ->
    negb ((if w then n + -1 else n) =? 0) =
    negb (n =? 0) && negb (w && ((if w then n + -1 else n) =? 0))).
  { intros [] n Hn; simpl; [|by rewrite andb_true_r].
    destruct (n =? 0) eqn:E0, (n + -1 =? 0) eqn:E1; zb; lia || done. }
  rewrite !E by done.
  generalize (negb (nread c =? 0)) (negb (nwrite c =? 0)) (negb (nclose c =? 0)).
  generalize (has ev EV_READ && ((if has ev EV_READ then nread c + -1 else nread c) =? 0)).
  generalize (has ev EV_WRITE && ((if has ev EV_WRITE then nwrite c + -1 else nwrite c) =? 0)).
  generalize (has ev EV_CLOSED && ((if has ev EV_CLOSED then nclose c + -1 else nclose c) =? 0)).
  intros [] [] [] [] [] []; reflexivity.
Qed.

Definition size_ok {A} (mp : event_map A) : Prop := nentries mp = 0 \/ 32 <= nentries mp <= 2 ^ 27.

Lemma double_past_spec fuel n slot :
  32 <= n <= 2 ^ 27 -> slot < 2 ^ 26 -> slot < n * 2 ^ (Z.of_nat fuel) ->
  exists n', double_past (S fuel) n slot = Done n' /\ slot < n' /\ n <= n' <= 2 ^ 27.
Proof.
  revert n. induction fuel as [|fuel IH]; intros n Hn Hs Hf.
  - exists n. simpl in *. case_test; zb; [lia|]. split; [done|]. lia.
  - cbn [double_past]. case_test; zb; [|exists n; split; [done|lia]].
    unfold INT_MAX. case_test; zb; [lia|].
    rewrite Nat2Z.inj_succ, Z.pow_succ_r in Hf by lia.
    destruct (IH (2 * n)) as (n' & Hd & H1 & H2); [lia|lia|lia|].
    exists n'. split; [exact Hd|]. lia.
Qed.

Lemma make_space_spec {A} e (mp : event_map A) slot :
  size_ok mp -> slot < 2 ^ 26 ->
  exists r mp', evmap_make_space e mp slot = Done (r, mp') /\ entries mp' = entries mp /\
    size_ok mp' /\ nentries mp <= nentries mp' /\
    (r = 0 /\ slot < nentries mp' \/ r = -1 /\ mem_ok e (MapTo slot) = false /\ mp' = mp).
Proof.
  intros Hs Hl. unfold evmap_make_space. case_test; zb.
  2: { exists 0, mp. split; [done|]. split; [done|]. split; [done|]. split; [lia|]. auto. }
  destruct (double_past_spec 31 (if nentries mp =? 0 then 32 else nentries mp) slot)
    as (n & -> & H1 & H2).
  { destruct Hs; case_test; zb; lia. }
  { done. }
  { case_test; zb; [lia|]. destruct Hs; lia. }
  simpl. unfold INT_MAX. case_test; zb; [lia|].
  destruct (mem_ok e (MapTo slot)); [|exists (-1), mp; auto 8 with lia].
  exists 0, (mkMap (entries mp) n). split; [done|]. simpl. split; [done|].
  assert (32 <= n) by (revert H2; case_test; zb; destruct Hs; lia).
  split; [right; simpl; lia|]. split; [|left; lia]. revert H2. case_test; zb; lia.
Qed.

Lemma io_grow exact m mp mp' k :
  io_ok exact m mp k -> entries mp' = entries mp -> size_ok mp' -> nentries mp <= nentries mp' ->
  io_ok exact m mp' k.
Proof.
  intros [Hs Hp Hz Hk] He Hz' Hn. split; unfold mask_of in *; rewrite ?He; auto.
  intros fd c Hc. destruct (Hs fd c Hc) as [Hr Hso]. split; [lia|done].
Qed.

Lemma io_ctor exact m mp k fd :
  io_ok exact m mp k -> entries mp !! fd = None -> 0 <= fd < nentries mp ->
  io_ok exact m (mkMap (<[fd := mkIo [] 0 0 0]> (entries mp)) (nentries mp)) k.
Proof.
  intros [Hs Hp Hz Hk] Hn Hfd. split; simpl; auto.
  - intros fd' c [[<- <-]|[Hne Hc]]%lookup_insert_Some; [|by apply Hs].
    split; [done|]. split; simpl; [constructor| |done..].
    intros x. split; [set_solver|]. intros Hx. apply Hp in Hx; [|lia].
    rewrite Hn in Hx. by destruct Hx.
  - intros fd' x H0 Hx. rewrite lookup_insert_is_Some'. eauto.
  - intros fd'. specialize (Hk fd'). unfold mask_of in *; simpl.
    destruct (decide (fd' = fd)) as [->|]; [rewrite lookup_insert_eq; by rewrite Hn in Hk|].
    by rewrite lookup_insert_ne.
Qed.

Lemma want_insert m x v v' f y :
  m !! x = Some v -> i_events v' = i_events v -> want (<[x := v']> m) f y = want m f y.
Proof.
  intros Hx He. unfold want. destruct (decide (y = x)) as [->|].
  - rewrite lookup_insert_eq, Hx. by rewrite He.
  - by rewrite lookup_insert_ne.
Qed.

Lemma cnt_insert m x v v' f l :
  m !! x = Some v -> i_events v' = i_events v -> cnt (<[x := v']> m) f l = cnt m f l.
Proof.
  intros Hx He. unfold cnt. f_equal. apply list_filter_iff. intros y.
  by rewrite (want_insert m x v v').
Qed.

Lemma want_is m x v f : m !! x = Some v -> want m f x = has (i_events v) f.
Proof. unfold want. by intros ->. Qed.

(** Replacing one slot together with the event that enters or leaves it. *)
Lemma io_set exact m mp k k' fd x v v' c' :
  io_ok exact m mp k -> m !! x = Some v -> i_events v' = i_events v -> i_fd v = fd -> i_fd v' = fd ->
  0 <= fd < nentries mp -> slot_ok (<[x := v']> m) fd c' ->
  covers exact (slot_mask c') (default 0 (k' !! fd)) ->
  (forall g, g <> fd -> k' !! g = k !! g) ->
  io_ok exact (<[x := v']> m) (mkMap (<[fd := c']> (entries mp)) (nentries mp)) k'.
Proof.
  intros [Hs Hp Hz Hk] Hx He Hf Hf' Hfd Hc' Hcov Hkk.
  assert (Hother : forall g y, g <> fd -> holds (<[x := v']> m) (waits_on g) y <-> holds m (waits_on g) y).
  { intros g y Hg. rewrite holds_insert. destruct (decide (y = x)) as [->|]; [|tauto].
    rewrite (holds_is m _ x v Hx). unfold waits_on. rewrite Hf, Hf'. naive_solver. }
  split; simpl; auto.
  - intros g c [[<- <-]|[Hne Hc]]%lookup_insert_Some; [done|].
    destruct (Hs g c Hc) as [Hr [Hnd Hel H1 H2 H3]]. split; [done|].
    split; auto; rewrite ?(cnt_insert m x v v'); auto. intros y. rewrite Hel. symmetry. auto.
  - intros g y H0 Hy. rewrite lookup_insert_is_Some'. destruct (decide (fd = g)) as [|Hne]; [auto|].
    right. eapply Hp; [done|]. apply Hother; eauto.
  - intros g. unfold mask_of in *; simpl. destruct (decide (g = fd)) as [->|Hne].
    + by rewrite lookup_insert_eq.
    + rewrite lookup_insert_ne, Hkk by done. apply Hk.
Qed.

Definition switched (v : iview) (on : bool) : iview := mkI on (i_events v) (i_fd v).

Lemma slot_add m fd x v c :
  slot_ok m fd c -> m !! x = Some v -> i_on v = false -> has (i_events v) EV_IO = true -> i_fd v = fd ->
  slot_over (bump_slot c (i_events v) 1) = false ->
  let c' := bump_slot c (i_events v) 1 in
  slot_ok (<[x := switched v true]> m) fd (mkIo (x :: io_events c) (nread c') (nwrite c') (nclose c')).
Proof.
  intros [Hnd Hel [H1 _] [H2 _] [H3 _]] Hx Hoff Hio Hfd Hov. unfold slot_over in Hov. simpl in Hov. zb.
  assert (Hni : x ∉ io_events c) by (rewrite Hel, (holds_is m _ x v Hx); intros [? _]; congruence).
  split; simpl; rewrite ?(cnt_insert m x v), ?cnt_cons, ?(want_is m x v) by done;
    rewrite ?bump_b2z in *; try (split; lia).
  - by constructor.
  - intros y. rewrite elem_of_cons, Hel, holds_insert. unfold waits_on at 2; simpl.
    destruct (decide (y = x)) as [->|]; naive_solver.
Qed.

Lemma slot_nonneg m fd c : slot_ok m fd c -> 0 <= nread c /\ 0 <= nwrite c /\ 0 <= nclose c.
Proof.
  intros [_ _ [-> _] [-> _] [-> _]]. auto using cnt_nonneg.
Qed.

Lemma slot_del m fd x v c :
  slot_ok m fd c -> m !! x = Some v -> i_on v = true -> has (i_events v) EV_IO = true -> i_fd v = fd ->
  let c' := bump_slot c (i_events v) (-1) in
  x ∈ io_events c /\
  slot_ok (<[x := switched v false]> m) fd
    (mkIo (without x (io_events c)) (nread c') (nwrite c') (nclose c')).
Proof.
  intros [Hnd Hel [H1 B1] [H2 B2] [H3 B3]] Hx Hon Hio Hfd c'.
  assert (Hin : x ∈ io_events c) by (rewrite Hel, (holds_is m _ x v Hx); done).
  assert (Hb : forall w, 0 <= Z.b2z w) by (intros []; simpl; lia).
  pose proof (Hb (has (i_events v) EV_READ)). pose proof (Hb (has (i_events v) EV_WRITE)).
  pose proof (Hb (has (i_events v) EV_CLOSED)). split; [done|]. unfold c'.
  split; simpl; rewrite ?(cnt_insert m x v), ?cnt_without, ?(want_is m x v) by done;
    rewrite ?bump_b2z; try (split; lia).
  - by apply NoDup_without.
  - intros y. rewrite elem_of_without, Hel, holds_insert. unfold waits_on at 2; simpl. naive_solver.
Qed.

(** An event that no descriptor slot is concerned with. *)
Lemma io_other exact m mp k x v v' :
  io_ok exact m mp k -> m !! x = Some v -> i_events v' = i_events v -> i_fd v' = i_fd v ->
  i_on v' = i_on v \/ has (i_events v) EV_IO = false \/ i_fd v < 0 ->
  io_ok exact (<[x := v']> m) mp k.
Proof.
  intros [Hs Hp Hz Hk] Hx He Hf Hc.
  assert (Hsame : forall g y, 0 <= g -> holds (<[x := v']> m) (waits_on g) y <-> holds m (waits_on g) y).
  { intros g y Hg. rewrite holds_insert. destruct (decide (y = x)) as [->|]; [|tauto].
    rewrite (holds_is m _ x v Hx). unfold waits_on. rewrite He, Hf.
    destruct Hc as [->|[->|?]]; [tauto|naive_solver|]. split; [naive_solver lia|lia]. }
  split; auto.
  - intros g c Hc'. destruct (Hs g c Hc') as [Hr [Hnd Hel H1 H2 H3]]. split; [done|].
    split; auto; rewrite ?(cnt_insert m x v v'); auto. intros y. rewrite Hel, Hsame; [done|lia].
  - intros g y H0 Hy. eapply Hp; [done|]. apply Hsame; eauto.
Qed.

(** ** Signal slots *)

Definition signals_on (sig : Z) (v : iview) : Prop :=
  i_on v = true /\ has (i_events v) EV_SIGNAL = true /\ i_fd v = sig.

Definition sig_covers (exact : bool) (l : list Z) (told : Prop) : Prop :=
  if exact then told <-> l <> [] else l <> [] -> told.

Record sig_ok (exact : bool) (m : gmap Z iview) (mp : event_signal_map) (ks : gset Z) : Prop := {
  sg_slot : forall s l, entries mp !! s = Some l ->
    0 <= s < nentries mp /\ NoDup l /\ forall x, x ∈ l <-> holds m (signals_on s) x;
  sg_present : forall s x, 0 <= s -> holds m (signals_on s) x -> is_Some (entries mp !! s);
  sg_size : size_ok mp;
  sg_kernel : forall s, sig_covers exact (default [] (entries mp !! s)) (s ∈ ks)
}.

Lemma sig_grow exact m mp mp' ks :
  sig_ok exact m mp ks -> entries mp' = entries mp -> size_ok mp' -> nentries mp <= nentries mp' ->
  sig_ok exact m mp' ks.
Proof.
  intros [Hs Hp Hz Hk] He Hz' Hn. split; rewrite ?He; auto.
  intros s l Hl. destruct (Hs s l Hl) as [Hr Hso]. split; [lia|done].
Qed.

Lemma sig_ctor exact m mp ks s :
  sig_ok exact m mp ks -> entries mp !! s = None -> 0 <= s < nentries mp ->
  sig_ok exact m (mkMap (<[s := []]> (entries mp)) (nentries mp)) ks.
Proof.
  intros [Hs Hp Hz Hk] Hn Hfd. split; simpl; auto.
  - intros s' l [[<- <-]|[Hne Hc]]%lookup_insert_Some; [|by apply Hs].
    split; [done|]. split; [constructor|].
    intros x. split; [set_solver|]. intros Hx. apply Hp in Hx; [|lia].
    rewrite Hn in Hx. by destruct Hx.
  - intros fd' x H0 Hx. rewrite lookup_insert_is_Some'. eauto.
  - intros s'. specialize (Hk s'). destruct (decide (s' = s)) as [->|]; simpl.
    + rewrite lookup_insert_eq. by rewrite Hn in Hk.
    + by rewrite lookup_insert_ne.
Qed.

Lemma sig_set exact m mp ks ks' s x v v' l' :
  sig_ok exact m mp ks -> m !! x = Some v -> i_fd v = s -> i_fd v' = s ->
  0 <= s < nentries mp -> NoDup l' ->
  (forall y, y ∈ l' <-> holds (<[x := v']> m) (signals_on s) y) ->
  sig_covers exact l' (s ∈ ks') -> (forall g, g <> s -> g ∈ ks' <-> g ∈ ks) ->
  sig_ok exact (<[x := v']> m) (mkMap (<[s := l']> (entries mp)) (nentries mp)) ks'.
Proof.
  intros [Hs Hp Hz Hk] Hx Hf Hf' Hfd Hnd Hel Hcov Hkk.
  assert (Hother : forall g y, g <> s -> holds (<[x := v']> m) (signals_on g) y <-> holds m (signals_on g) y).
  { intros g y Hg. rewrite holds_insert. destruct (decide (y = x)) as [->|]; [|tauto].
    rewrite (holds_is m _ x v Hx). unfold signals_on. rewrite Hf, Hf'. naive_solver. }
  split; simpl; auto.
  - intros g c [[<- <-]|[Hne Hc]]%lookup_insert_Some; [done|].
    destruct (Hs g c Hc) as (Hr & Hn & He). split; [done|]. split; [done|].
    intros y. rewrite He. symmetry. auto.
  - intros g y H0 Hy. rewrite lookup_insert_is_Some'. destruct (decide (s = g)) as [|Hne]; [auto|].
    right. eapply Hp; [done|]. apply Hother; eauto.
  - intros g. destruct (decide (g = s)) as [->|Hne].
    + by rewrite lookup_insert_eq.
    + rewrite lookup_insert_ne by done. specialize (Hk g). specialize (Hkk g Hne).
      unfold sig_covers in *. destruct exact; tauto.
Qed.

Lemma sig_other exact m mp ks x v v' :
  sig_ok exact m mp ks -> m !! x = Some v -> i_events v' = i_events v -> i_fd v' = i_fd v ->
  i_on v' = i_on v \/ has (i_events v) EV_SIGNAL = false ->
  sig_ok exact (<[x := v']> m) mp ks.
Proof.
  intros [Hs Hp Hz Hk] Hx He Hf Hc.
  assert (Hsame : forall g y, holds (<[x := v']> m) (signals_on g) y <-> holds m (signals_on g) y).
  { intros g y. rewrite holds_insert. destruct (decide (y = x)) as [->|]; [|tauto].
    rewrite (holds_is m _ x v Hx). unfold signals_on. rewrite He, Hf.
    destruct Hc as [->| ->]; naive_solver. }
  split; auto.
  - intros g c Hc'. destruct (Hs g c Hc') as (Hr & Hn & Hel). split; [done|]. split; [done|].
    intros y. by rewrite Hel, Hsame.
  - intros g y H0 Hy. eapply Hp; [done|]. apply Hsame; eauto.
Qed.
