(* ===== verification/EventBaseOps.v ===== *)
(** * The event base: queues, maps and deletion keep the invariant

    The invariant of [EventBaseInv] as one record, and its preservation by the
    queue operations of [EventBase], by the two maps and by [event_del]: none
    of them fails an assertion, unlinks an element that is not linked, or
    leaves an event in a queue its flags do not name. *)

From S2P Require Import Prelude MinHeap EventBase EventBaseInv.

(** ** The invariant *)

Definition event_ok (e : event) : Prop :=
  has (ev_flags e) (Z.lnot EVLIST_ALL) = false /\ ev_pncalls e = None.

Record eb_wf (exact : bool) (b : event_base) : Prop := {
  wf_timers : timers_ok (tview_of <$> evs b) (common_timeout_queues b) (timeheap b) (hidx b);
  wf_active : active_ok (aview_of <$> evs b) (activequeues b) (active_later_queue b)
                (event_count_active b);
  wf_io : io_ok exact (iview_of <$> evs b) (io b) (kernel b);
  wf_sig : sig_ok exact (iview_of <$> evs b) (sigmap b) (ksig b);
  wf_shape : shape_ok (iview_of <$> evs b);
  wf_count : event_count b = msum (weight <$> evs b);
  wf_event : map_Forall (fun _ e => event_ok e) (evs b);
  wf_cache : 0 <= tv_usec (tv_cache b) < 1000000
}.

(** The environments in which the theorems hold: a normalised clock, and a
    backend that accepts removals where [exact] is claimed. *)
Record env_ok (exact : bool) (e : env) : Prop := {
  eo_clock : 0 <= tv_usec (clock e) < 1000000;
  eo_del : exact = true -> (forall fd, del_ok e fd = true) /\ (forall s, sig_del_ok e s = true)
}.

Lemma get_done b x e : evs b !! x = Some e -> get b x = Done e.
Proof. unfold get. by intros ->. Qed.

Lemma view_lookup {V} (f : event -> V) (m : gmap Z event) x e :
  m !! x = Some e -> (f <$> m) !! x = Some (f e).
Proof. rewrite lookup_fmap. by intros ->. Qed.

(** Updating one event changes a view at that event only, or not at all. *)
Lemma view_insert {V} (f : event -> V) (m : gmap Z event) x e :
  f <$> <[x := e]> m = <[x := f e]> (f <$> m).
Proof. apply fmap_insert. Qed.

Lemma view_same {V} (f : event -> V) (m : gmap Z event) x e e' :
  m !! x = Some e -> f e' = f e -> f <$> <[x := e']> m = f <$> m.
Proof. intros Hx Hf. rewrite fmap_insert, Hf. apply insert_id. by apply view_lookup. Qed.

Lemma msum_view (m : gmap Z event) x e e' :
  m !! x = Some e -> msum (weight <$> <[x := e']> m) = msum (weight <$> m) - weight e + weight e'.
Proof. intros Hx. rewrite fmap_insert. apply msum_insert. by apply view_lookup. Qed.

(** ** Flags of one event *)

Ltac flag_cases H := unfold weight; rewrite !counted_internal; flags; rewrite H; simpl; lia.

Lemma weight_del_timeout e : has (ev_flags e) EVLIST_TIMEOUT = true ->
  weight (del_flag e EVLIST_TIMEOUT) = weight e - counted (ev_flags e).
Proof. intros H. flag_cases H. Qed.
Lemma weight_del_inserted e : has (ev_flags e) EVLIST_INSERTED = true ->
  weight (del_flag e EVLIST_INSERTED) = weight e - counted (ev_flags e).
Proof. intros H. flag_cases H. Qed.
Lemma weight_del_active e : has (ev_flags e) EVLIST_ACTIVE = true ->
  weight (del_flag e EVLIST_ACTIVE) = weight e - counted (ev_flags e).
Proof. intros H. flag_cases H. Qed.
Lemma weight_del_later e : has (ev_flags e) EVLIST_ACTIVE_LATER = true ->
  weight (del_flag e EVLIST_ACTIVE_LATER) = weight e - counted (ev_flags e).
Proof. intros H. flag_cases H. Qed.

Lemma weight_add_timeout e : has (ev_flags e) EVLIST_TIMEOUT = false ->
  weight (add_flag e EVLIST_TIMEOUT) = weight e + counted (ev_flags e).
Proof. intros H. flag_cases H. Qed.
Lemma weight_add_inserted e : has (ev_flags e) EVLIST_INSERTED = false ->
  weight (add_flag e EVLIST_INSERTED) = weight e + counted (ev_flags e).
Proof. intros H. flag_cases H. Qed.
Lemma weight_add_active e : has (ev_flags e) EVLIST_ACTIVE = false ->
  weight (add_flag e EVLIST_ACTIVE) = weight e + counted (ev_flags e).
Proof. intros H. flag_cases H. Qed.
Lemma weight_add_later e : has (ev_flags e) EVLIST_ACTIVE_LATER = false ->
  weight (add_flag e EVLIST_ACTIVE_LATER) = weight e + counted (ev_flags e).
Proof. intros H. flag_cases H. Qed.

Lemma event_ok_del e f : event_ok e -> event_ok (del_flag e f).
Proof.
  intros [H1 H2]. split; [|done]. simpl. unfold has in *. rewrite negb_false_iff, Z.eqb_eq in *.
  by rewrite <-Z.land_assoc, (Z.land_comm (Z.lnot f)), Z.land_assoc, H1.
Qed.

Lemma event_ok_add e f : event_ok e -> has f (Z.lnot EVLIST_ALL) = false -> event_ok (add_flag e f).
Proof. intros [H1 H2] Hf. split; [|done]. simpl. by rewrite has_lor_l, H1, Hf. Qed.

Ltac event_ok_tac := repeat first [apply event_ok_del | apply event_ok_add; [|done]]; assumption.

(** ** The queue operations *)

Lemma active_event exact b x e :
  eb_wf exact b -> evs b !! x = Some e ->
  exists q, activequeues b !! Z.to_nat (ev_pri e) = Some q /\ NoDup q /\
    (x ∈ q <-> has (ev_flags e) EVLIST_ACTIVE = true) /\ ev_pri e < nactivequeues b /\
    has (ev_flags e) EVLIST_ACTIVE && has (ev_flags e) EVLIST_ACTIVE_LATER = false.
Proof.
  intros Hw Hx. pose proof (view_lookup aview_of _ _ _ Hx) as Hv.
  destruct (active_queue _ _ _ _ _ _ (wf_active _ _ Hw) Hv) as (q & Hq & Hnd & Hin).
  destruct (ao_event _ _ _ _ (wf_active _ _ Hw) _ _ Hv) as [Hp Hex]. simpl in *.
  exists q. do 3 (split; [done|]). split; [unfold nactivequeues; lia|done].
Qed.

(** The invariant after an update of [x] that only concerns the active queues. *)
Lemma active_wf exact b x e e' qs later c n :
  eb_wf exact b -> evs b !! x = Some e ->
  tview_of e' = tview_of e -> iview_of e' = iview_of e -> event_ok e' ->
  active_ok (<[x := aview_of e']> (aview_of <$> evs b)) qs later c ->
  n = event_count b - weight e + weight e' ->
  forall b', evs b' = <[x := e']> (evs b) -> common_timeout_queues b' = common_timeout_queues b ->
  timeheap b' = timeheap b -> hidx b' = hidx b -> activequeues b' = qs -> active_later_queue b' = later ->
  io b' = io b -> kernel b' = kernel b -> sigmap b' = sigmap b -> ksig b' = ksig b ->
  event_count b' = n -> event_count_active b' = c -> tv_cache b' = tv_cache b -> eb_wf exact b'.
Proof.
  intros [Ht Ha Hi Hs Hsh Hc He Htv] Hx Hte Hie Heo Hact Hn b' E1 E2 E3 E4 E5 E6 E7 E8 E9 E10 E11 E12 E13.
  split; rewrite ?E1, ?E2, ?E3, ?E4, ?E5, ?E6, ?E7, ?E8, ?E9, ?E10, ?E11, ?E12, ?E13.
  - by rewrite (view_same _ _ _ e).
  - by rewrite view_insert.
  - by rewrite (view_same _ _ _ e).
  - by rewrite (view_same _ _ _ e).
  - by rewrite (view_same _ _ _ e).
  - rewrite (msum_view _ _ e) by done. lia.
  - by apply map_Forall_insert_2.
  - done.
Qed.

(** The other fields after an operation on the active queues. *)
Definition only_active (b b' : event_base) : Prop :=
  timeheap b' = timeheap b /\ common_timeout_queues b' = common_timeout_queues b /\
  hidx b' = hidx b /\ io b' = io b /\ sigmap b' = sigmap b /\ kernel b' = kernel b /\
  ksig b' = ksig b /\ tv_cache b' = tv_cache b /\ sig_frame b' = sig_frame b /\
  length (activequeues b') = length (activequeues b).

Lemma remove_active_wf exact b x e :
  eb_wf exact b -> evs b !! x = Some e -> has (ev_flags e) EVLIST_ACTIVE = true ->
  exists b', event_queue_remove_active b x = Done b' /\ eb_wf exact b' /\
    evs b' = <[x := del_flag e EVLIST_ACTIVE]> (evs b) /\ only_active b b'.
Proof.
  intros Hw Hx Ha. destruct (active_event _ _ _ _ Hw Hx) as (q & Hq & Hnd & Hin & _ & _).
  unfold event_queue_remove_active. rewrite (get_done b x e Hx). simpl. rewrite Ha. simpl.
  rewrite Hq. simpl. rewrite tq_remove_done by tauto. simpl.
  eexists. split; [done|]. split; [|split; [done|repeat split; simpl; by rewrite ?length_insert]].
  eapply (active_wf _ b x e (del_flag e EVLIST_ACTIVE)); eauto; simpl; try done.
  - unfold tview_of. by flags.
  - unfold iview_of. by flags.
  - apply event_ok_del. by apply (wf_event _ _ Hw x).
  - replace (aview_of (del_flag e EVLIST_ACTIVE)) with
      (mkA false (a_later (aview_of e)) (a_pri (aview_of e))) by (unfold aview_of; by flags).
    apply (active_remove _ _ _ _ x (aview_of e) q (wf_active _ _ Hw)); [by apply view_lookup|done|done].
  - rewrite weight_del_active by done. lia.
Qed.

Lemma insert_active_wf exact b x e :
  eb_wf exact b -> evs b !! x = Some e -> has (ev_flags e) EVLIST_ACTIVE = false ->
  has (ev_flags e) EVLIST_ACTIVE_LATER = false ->
  exists b', event_queue_insert_active b x = Done b' /\ eb_wf exact b' /\
    evs b' = <[x := add_flag e EVLIST_ACTIVE]> (evs b) /\ only_active b b'.
Proof.
  intros Hw Hx Ha Hl. destruct (active_event _ _ _ _ Hw Hx) as (q & Hq & Hnd & Hin & Hp & _).
  unfold event_queue_insert_active. rewrite (get_done b x e Hx). simpl. rewrite Ha. simpl.
  unfold nactivequeues in *. simpl. apply Z.ltb_lt in Hp as ->. simpl. rewrite Hq. simpl.
  eexists. split; [done|]. split; [|split; [done|repeat split; simpl; by rewrite ?length_insert]].
  eapply (active_wf _ b x e (add_flag e EVLIST_ACTIVE)); eauto; simpl; try done.
  - unfold tview_of. by flags.
  - unfold iview_of. by flags.
  - apply event_ok_add; [|done]. by apply (wf_event _ _ Hw x).
  - replace (aview_of (add_flag e EVLIST_ACTIVE)) with
      (mkA true (a_later (aview_of e)) (a_pri (aview_of e))) by (unfold aview_of; by flags).
    apply (active_insert _ _ _ _ x (aview_of e) q (wf_active _ _ Hw)); [by apply view_lookup|done..].
  - rewrite weight_add_active by done. lia.
Qed.

Lemma remove_later_wf exact b x e :
  eb_wf exact b -> evs b !! x = Some e -> has (ev_flags e) EVLIST_ACTIVE_LATER = true ->
  exists b', event_queue_remove_active_later b x = Done b' /\ eb_wf exact b' /\
    evs b' = <[x := del_flag e EVLIST_ACTIVE_LATER]> (evs b) /\ only_active b b'.
Proof.
  intros Hw Hx Hl. pose proof (view_lookup aview_of _ _ _ Hx) as Hv.
  unfold event_queue_remove_active_later. rewrite (get_done b x e Hx). simpl. rewrite Hl. simpl.
  destruct (ao_later _ _ _ _ (wf_active _ _ Hw)) as [_ Hel].
  rewrite tq_remove_done by (by rewrite Hel, (holds_is _ _ x _ Hv)). simpl.
  eexists. split; [done|]. split; [|split; [done|repeat split]].
  eapply (active_wf _ b x e (del_flag e EVLIST_ACTIVE_LATER)); eauto; simpl; try done.
  - unfold tview_of. by flags.
  - unfold iview_of. by flags.
  - apply event_ok_del. by apply (wf_event _ _ Hw x).
  - replace (aview_of (del_flag e EVLIST_ACTIVE_LATER)) with
      (mkA (a_on (aview_of e)) false (a_pri (aview_of e))) by (unfold aview_of; by flags).
    by apply (later_remove _ _ _ _ x (aview_of e) (wf_active _ _ Hw)).
  - rewrite weight_del_later by done. lia.
Qed.

Lemma insert_later_wf exact b x e :
  eb_wf exact b -> evs b !! x = Some e -> has (ev_flags e) EVLIST_ACTIVE = false ->
  has (ev_flags e) EVLIST_ACTIVE_LATER = false ->
  exists b', event_queue_insert_active_later b x = Done b' /\ eb_wf exact b' /\
    evs b' = <[x := add_flag e EVLIST_ACTIVE_LATER]> (evs b) /\ only_active b b'.
Proof.
  intros Hw Hx Ha Hl. destruct (active_event _ _ _ _ Hw Hx) as (q & Hq & Hnd & Hin & Hp & _).
  pose proof (view_lookup aview_of _ _ _ Hx) as Hv.
  unfold event_queue_insert_active_later. rewrite (get_done b x e Hx). simpl.
  rewrite has_lor_r, Ha, Hl. simpl.
  unfold nactivequeues in *. simpl. apply Z.ltb_lt in Hp as ->. simpl.
  eexists. split; [done|]. split; [|split; [done|repeat split]].
  eapply (active_wf _ b x e (add_flag e EVLIST_ACTIVE_LATER)); eauto; simpl; try done.
  - unfold tview_of. by flags.
  - unfold iview_of. by flags.
  - apply event_ok_add; [|done]. by apply (wf_event _ _ Hw x).
  - replace (aview_of (add_flag e EVLIST_ACTIVE_LATER)) with
      (mkA (a_on (aview_of e)) true (a_pri (aview_of e))) by (unfold aview_of; by flags).
    by apply (later_insert _ _ _ _ x (aview_of e) (wf_active _ _ Hw)).
  - rewrite weight_add_later by done. lia.
Qed.

Lemma make_later_active_wf exact b x l e :
  eb_wf exact b -> active_later_queue b = x :: l -> evs b !! x = Some e ->
  exists b', make_later_active (set_active_later_queue b l) x = Done b' /\ eb_wf exact b' /\
    evs b' = <[x := add_flag (del_flag e EVLIST_ACTIVE_LATER) EVLIST_ACTIVE]> (evs b) /\
    active_later_queue b' = l /\ only_active b b'.
Proof.
  intros Hw Hq0 Hx. destruct (active_event _ _ _ _ Hw Hx) as (q & Hq & Hnd & Hin & Hp & Hex).
  pose proof (view_lookup aview_of _ _ _ Hx) as Hv.
  assert (Hl : has (ev_flags e) EVLIST_ACTIVE_LATER = true).
  { destruct (ao_later _ _ _ _ (wf_active _ _ Hw)) as [_ Hel].
    specialize (Hel x). rewrite Hq0, (holds_is _ _ x _ Hv) in Hel. apply Hel. set_solver. }
  rewrite Hl, andb_true_r in Hex.
  unfold make_later_active. rewrite (get_done (set_active_later_queue b l) x e Hx). simpl.
  unfold nactivequeues in *. simpl. apply Z.ltb_lt in Hp as ->. simpl. rewrite Hq. simpl.
  set (e' := add_flag (del_flag e EVLIST_ACTIVE_LATER) EVLIST_ACTIVE).
  assert (Hwf : forall b', evs b' = <[x := e']> (evs b) ->
    only_active b b' -> activequeues b' = <[Z.to_nat (ev_pri e) := q ++ [x]]> (activequeues b) ->
    active_later_queue b' = l -> event_count b' = event_count b ->
    event_count_active b' = event_count_active b -> eb_wf exact b').
  { intros b' H1 (H2 & H3 & H4 & H5 & H6 & H7 & H8 & H9 & _) H10 H11 H12 H13.
    eapply (active_wf _ b x e e'); eauto; unfold e'.
    - unfold tview_of. by flags.
    - unfold iview_of. by flags.
    - apply event_ok_add; [|done]. apply event_ok_del. by apply (wf_event _ _ Hw x).
    - replace (aview_of _) with (mkA true false (a_pri (aview_of e))) by (unfold aview_of; by flags).
      rewrite ?H10, ?H11, ?H13. apply (later_promote _ _ _ _ x (aview_of e) q); [|done|done].
      rewrite <-Hq0. apply Hw.
    - rewrite ?H12. unfold weight. rewrite !counted_internal. flags. rewrite Hl, Hex. simpl. lia. }
  case_decide; (eexists; split; [done|]);
    (split; [apply Hwf; try done; repeat split; simpl; by rewrite ?length_insert|]);
    (split; [done|]); (split; [done|]); repeat split; simpl; by rewrite ?length_insert.
Qed.

(** An update that no view sees. *)
Lemma put_wf exact b x e e' :
  eb_wf exact b -> evs b !! x = Some e ->
  ev_flags e' = ev_flags e -> ev_timeout e' = ev_timeout e -> ev_pri e' = ev_pri e ->
  ev_events e' = ev_events e -> ev_fd e' = ev_fd e -> ev_pncalls e' = None ->
  eb_wf exact (put b x e').
Proof.
  intros Hw Hx H1 H2 H3 H4 H5 H6.
  eapply (active_wf _ b x e e'); eauto; simpl; try done.
  - unfold tview_of. by rewrite H1, H2.
  - unfold iview_of. by rewrite H1, H4, H5.
  - split; [|done]. rewrite H1. by apply (wf_event _ _ Hw x).
  - replace (aview_of e') with (aview_of e) by (unfold aview_of; by rewrite H1, H3).
    rewrite insert_id by (by apply view_lookup). apply Hw.
  - unfold weight. rewrite H1. lia.
Qed.

(** Fields the invariant does not mention. *)
Definition same_queues (b b' : event_base) : Prop :=
  evs b' = evs b /\ timeheap b' = timeheap b /\ hidx b' = hidx b /\
  common_timeout_queues b' = common_timeout_queues b /\ activequeues b' = activequeues b /\
  active_later_queue b' = active_later_queue b /\ io b' = io b /\ sigmap b' = sigmap b /\
  kernel b' = kernel b /\ ksig b' = ksig b /\ event_count b' = event_count b /\
  event_count_active b' = event_count_active b.

Lemma same_queues_wf exact b b' :
  eb_wf exact b -> same_queues b b' -> 0 <= tv_usec (tv_cache b') < 1000000 -> eb_wf exact b'.
Proof.
  intros [] (H1 & H2 & H3 & H4 & H5 & H6 & H7 & H8 & H9 & H10 & H11 & H12) Hc.
  split; rewrite ?H1, ?H2, ?H3, ?H4, ?H5, ?H6, ?H7, ?H8, ?H9, ?H10, ?H11, ?H12; done.
Qed.

(** ** Timers *)

(** The durations and the own events of the common-timeout queues. *)
Definition owners (b : event_base) : list (timeval * Z) :=
  (fun c => (ctl_duration c, ctl_timeout_event c)) <$> common_timeout_queues b.

Lemma owners_length b b' :
  owners b' = owners b -> length (common_timeout_queues b') = length (common_timeout_queues b).
Proof. intros H. apply (f_equal length) in H. unfold owners in H. by rewrite !length_fmap in H. Qed.

Lemma owners_set b b' i c l :
  common_timeout_queues b !! i = Some c ->
  common_timeout_queues b' =
    <[i := mkCtl l (ctl_duration c) (ctl_timeout_event c)]> (common_timeout_queues b) ->
  owners b' = owners b.
Proof.
  intros Hc H. unfold owners. rewrite H, list_fmap_insert. simpl. apply list_insert_id.
  by rewrite list_lookup_fmap, Hc.
Qed.

(** The fields an operation on the timers leaves alone. *)
Definition only_timers (b b' : event_base) : Prop :=
  activequeues b' = activequeues b /\ active_later_queue b' = active_later_queue b /\
  io b' = io b /\ sigmap b' = sigmap b /\ kernel b' = kernel b /\ ksig b' = ksig b /\
  event_count_active b' = event_count_active b /\ tv_cache b' = tv_cache b /\
  sig_frame b' = sig_frame b /\ owners b' = owners b.

Lemma timers_wf exact b b' x e e' :
  eb_wf exact b -> evs b !! x = Some e -> evs b' = <[x := e']> (evs b) ->
  aview_of e' = aview_of e -> iview_of e' = iview_of e -> event_ok e' ->
  event_count b' = event_count b - weight e + weight e' -> only_timers b b' ->
  timers_ok (<[x := tview_of e']> (tview_of <$> evs b)) (common_timeout_queues b') (timeheap b') (hidx b') ->
  eb_wf exact b'.
Proof.
  intros [Ht Ha Hi Hs Hsh Hc He Htv] Hx Hev Hae Hie Heo Hn
    (H1 & H2 & H3 & H4 & H5 & H6 & H7 & H8 & _) Hok.
  split; rewrite ?Hev, ?H1, ?H2, ?H3, ?H4, ?H5, ?H6, ?H7, ?H8.
  - by rewrite view_insert.
  - by rewrite (view_same _ _ _ e).
  - by rewrite (view_same _ _ _ e).
  - by rewrite (view_same _ _ _ e).
  - by rewrite (view_same _ _ _ e).
  - rewrite (msum_view _ _ e) by done. lia.
  - by apply map_Forall_insert_2.
  - done.
Qed.

Lemma tmo_time_of b m x : m = tview_of <$> evs b -> tmo b x = time_of m x.
Proof. intros ->. unfold tmo, time_of. rewrite lookup_fmap. by destruct (evs b !! x). Qed.

(** The heap compares the same times when only flags change. *)
Lemma tmo_put b x e e' y :
  evs b !! x = Some e -> ev_timeout e' = ev_timeout e ->
  tmo (put b x e') y = time_of (tview_of <$> evs b) y.
Proof.
  intros Hx Ht. unfold tmo, put, time_of; simpl. rewrite lookup_fmap, lookup_insert.
  case_decide; [subst; rewrite Hx; simpl; by rewrite Ht|]. by destruct (evs b !! y).
Qed.

Lemma timer_place exact b x e :
  eb_wf exact b -> evs b !! x = Some e -> has (ev_flags e) EVLIST_TIMEOUT = true ->
  in_heap (tview_of e) \/
  exists i c, in_queue i (tview_of e) /\ common_timeout_queues b !! i = Some c.
Proof.
  intros Hw Hx Ht. destruct (to_on _ _ _ _ (wf_timers _ _ Hw) x _ (view_lookup tview_of _ _ _ Hx) Ht)
    as [_ [Hh|(i & Hi & Hq)]]; [by left|right].
  destruct (lookup_lt_is_Some_2 _ _ Hi) as [c Hc]. eauto.
Qed.

(** A heap slot is left over when the event was in the heap. *)
Definition slot_freed (e : event) (b b' : event_base) : Prop :=
  if has (ev_flags e) EVLIST_TIMEOUT && (hi (ev_timeout e) =? 0)
  then hn (timeheap b') = hn (timeheap b) - 1 /\ ha (timeheap b') = ha (timeheap b)
  else timeheap b' = timeheap b.

Lemma remove_timeout_wf exact b x e :
  eb_wf exact b -> evs b !! x = Some e -> has (ev_flags e) EVLIST_TIMEOUT = true ->
  exists b', event_queue_remove_timeout b x = Done b' /\ eb_wf exact b' /\
    evs b' = <[x := del_flag e EVLIST_TIMEOUT]> (evs b) /\ only_timers b b' /\ slot_freed e b b'.
Proof.
  intros Hw Hx Ht. unfold event_queue_remove_timeout. rewrite (get_done b x e Hx). simpl.
  rewrite Ht. simpl. set (b1 := put _ x _).
  pose proof (view_lookup tview_of _ _ _ Hx) as Hv.
  assert (Hview : tview_of (del_flag e EVLIST_TIMEOUT) =
    mkT (t_init (tview_of e)) false (t_at (tview_of e))) by (unfold tview_of; by flags).
  assert (Hwf : forall b', evs b' = evs b1 -> event_count b' = event_count b1 -> only_timers b b' ->
    timers_ok (<[x := mkT (t_init (tview_of e)) false (t_at (tview_of e))]> (tview_of <$> evs b))
      (common_timeout_queues b') (timeheap b') (hidx b') -> eb_wf exact b').
  { intros b' H1 H2 H3 H4. eapply (timers_wf _ b b' x e (del_flag e EVLIST_TIMEOUT)); eauto.
    - unfold aview_of. by flags.
    - unfold iview_of. by flags.
    - apply event_ok_del. by apply (wf_event _ _ Hw x).
    - rewrite H2, weight_del_timeout by done. simpl. lia.
    - by rewrite Hview. }
  destruct (timer_place _ _ _ _ Hw Hx Ht) as [Hh|(i & c & Hin & Hc)].
  - rewrite not_common_low by apply Hh.
    destruct (timers_heap_remove _ _ _ _ x _ (tmo b1) (wf_timers _ _ Hw) Hv Hh)
      as (r & h & j & Her & Hok & Hn & Ha).
    { intros y. by apply (tmo_put (DECR_EVENT_COUNT b (ev_flags e)) x e). }
    rewrite Her. simpl. eexists. split; [done|].
    split; [apply Hwf; [done|done|repeat split|exact Hok]|]. split; [done|]. split; [repeat split|].
    unfold slot_freed. rewrite Ht. destruct Hh as [_ Hh]. simpl in Hh. by rewrite Hh.
  - pose proof (lookup_lt_Some _ _ _ Hc) as Hlt.
    destruct (is_common_hi (ev_timeout e) b1 i) as [-> Hidx]; [apply Hin|done|apply Hw|].
    unfold get_common_timeout_list, put_ctl_events, get_common_timeout_list. rewrite Hidx. simpl.
    rewrite Hc. simpl.
    destruct (timers_queue_remove _ _ _ _ x _ i c (wf_timers _ _ Hw) Hv Hin Hc) as [Hel Hok].
    rewrite tq_remove_done by done. simpl. rewrite ?Hc. simpl.
    eexists. split; [done|].
    assert (Hot : forall l, only_timers b (set_common_timeout_queues b1
      (<[i := mkCtl l (ctl_duration c) (ctl_timeout_event c)]> (common_timeout_queues b)))).
    { intros l. repeat split; simpl. by eapply owners_set. }
    split; [apply Hwf; auto|]. split; [done|]. split; [apply Hot|].
    unfold slot_freed. destruct Hin as [_ Hh]. simpl in Hh. rewrite Hh, Ht. simpl.
    destruct (1280 + Z.of_nat i =? 0) eqn:E; zb; [lia|done].
Qed.

(** A new timeout for an event whose timer is not pending. *)
Lemma set_timeout_wf exact b x e tv :
  eb_wf exact b -> evs b !! x = Some e -> has (ev_flags e) EVLIST_TIMEOUT = false ->
  eb_wf exact (put b x (set_ev_timeout e tv)).
Proof.
  intros Hw Hx Ht. eapply (timers_wf _ b _ x e); eauto.
  - by destruct (wf_event _ _ Hw x e Hx).
  - simpl. unfold weight. simpl. lia.
  - by repeat split.
  - simpl. replace (tview_of (set_ev_timeout e tv)) with (mkT (t_init (tview_of e)) false tv)
      by (unfold tview_of; simpl; by rewrite Ht).
    apply timers_retime; [apply Hw|by apply view_lookup|done].
Qed.

(** A timeout that can be inserted: in the heap, or in an existing queue. *)
Definition insertable (b : event_base) (tv : timeval) : Prop :=
  hi tv = 0 \/ exists i, (i < length (common_timeout_queues b))%nat /\ hi tv = 0x500 + Z.of_nat i.

Lemma insert_inorder_ok b x e i c :
  timers_ok (tview_of <$> evs b) (common_timeout_queues b) (timeheap b) (hidx b) ->
  evs b !! x = Some e -> has (ev_flags e) EVLIST_TIMEOUT = false -> 
  has (ev_flags e) EVLIST_INIT = true -> hi (ev_timeout e) = 0x500 + Z.of_nat i ->
  common_timeout_queues b !! i = Some c ->
  forall b1, evs b1 = <[x := add_flag e EVLIST_TIMEOUT]> (evs b) ->
    common_timeout_queues b1 = common_timeout_queues b ->
  exists l, insert_common_timeout_inorder b1 x =
      Done (set_common_timeout_queues b1
        (<[i := mkCtl l (ctl_duration c) (ctl_timeout_event c)]> (common_timeout_queues b))) /\
    timers_ok (<[x := tview_of (add_flag e EVLIST_TIMEOUT)]> (tview_of <$> evs b))
      (<[i := mkCtl l (ctl_duration c) (ctl_timeout_event c)]> (common_timeout_queues b))
      (timeheap b) (hidx b).
Proof.
  intros Ho Hx Ht Hini Hhi Hc b1 H1 H2. pose proof (view_lookup tview_of _ _ _ Hx) as Hv.
  assert (Hx1 : evs b1 !! x = Some (add_flag e EVLIST_TIMEOUT)) by (by rewrite H1, lookup_insert_eq).
  destruct (to_queue _ _ _ _ Ho i c Hc) as [Hnd Hel Hso Hdu Hev].
  destruct (is_common_hi (ev_timeout e) b1 i) as [_ Hidx]; rewrite ?H2;
    [done|by eapply lookup_lt_Some|apply Ho|].
  assert (Htm : forall y, tmo b1 y = time_of (tview_of <$> evs b) y).
  { intros y. rewrite <-(tmo_put b x e (add_flag e EVLIST_TIMEOUT) y Hx eq_refl).
    unfold tmo. simpl. by rewrite H1. }
  assert (Hni : x ∉ ctl_events c).
  { rewrite Hel, (holds_is _ _ x _ Hv). intros [Hon _]. simpl in Hon. congruence. }
  destruct (insert_rev_spec b1 x (ev_timeout e) (reverse (ctl_events c)))
    as (l1 & l2 & Hl & Hins & Hafter & Hbefore).
  { intros y Hy. rewrite elem_of_reverse in Hy. rewrite H1, lookup_insert_ne by (by intros ->).
    apply Hel in Hy as (t & Hyt & [_ Hyh]). rewrite lookup_fmap in Hyt.
    destruct (evs b !! y) as [ey|]; [|done]. simplify_eq/=. exists ey. split; [done|]. lia. }
  assert (Hcl : ctl_events c = reverse l2 ++ reverse l1).
  { rewrite <-reverse_app, <-Hl. by rewrite reverse_involutive. }
  exists (reverse l2 ++ x :: reverse l1). split.
  - unfold insert_common_timeout_inorder, put_ctl_events, get_common_timeout_list.
    rewrite (get_done b1 x _ Hx1). cbn [mbind outcome_bind].
    change (ev_timeout (add_flag e EVLIST_TIMEOUT)) with (ev_timeout e).
    rewrite Hidx, H2, Hc. cbn [mbind outcome_bind deref]. rewrite Hins.
    cbn [mbind outcome_bind deref]. rewrite reverse_app, reverse_cons, <-app_assoc. done.
  - eapply timers_queue_set; eauto.
    + unfold tview_of. by flags.
    + intros _. unfold tview_of. by flags.
    + rewrite <-Permutation_middle, <-Hcl. by constructor.
    + intros y. rewrite Hcl in Hni |- *.
      assert (Hon : t_on (tview_of (add_flag e EVLIST_TIMEOUT)) = true) by (unfold tview_of; by flags).
      rewrite elem_of_app in Hni. rewrite elem_of_app, elem_of_cons, elem_of_app.
      destruct (decide (y = x)) as [->|]; tauto.
    + apply (sorted_insert _ x l1 l2 (ev_timeout e)).
      * by rewrite <-Hcl.
      * by rewrite (time_of_is _ x (tview_of e)).
      * intros y Hy. rewrite <-Htm. auto.
      * intros y Hy. rewrite <-Htm. auto.
Qed.

(** Memory for the timer heap, however many timers it is to hold. *)
Definition heap_mem (en : env) : Prop := forall n, mem_ok en (HeapTo n) = true.

Lemma insert_timeout_wf exact en b x e :
  eb_wf exact b -> evs b !! x = Some e -> has (ev_flags e) EVLIST_INIT = true ->
  has (ev_flags e) EVLIST_TIMEOUT = false -> insertable b (ev_timeout e) ->
  heap_mem en \/ hn (timeheap b) + 1 <= ha (timeheap b) ->
  exists b', event_queue_insert_timeout en b x = Done b' /\ eb_wf exact b' /\
    evs b' = <[x := add_flag e EVLIST_TIMEOUT]> (evs b) /\ only_timers b b'.
Proof.
  intros Hw Hx Hini Ht Hins Hmem. unfold event_queue_insert_timeout. rewrite (get_done b x e Hx).
  simpl. rewrite Ht. set (b1 := put _ x _). pose proof (view_lookup tview_of _ _ _ Hx) as Hv.
  assert (Hwf : forall b', evs b' = evs b1 -> event_count b' = event_count b1 -> only_timers b b' ->
    timers_ok (<[x := tview_of (add_flag e EVLIST_TIMEOUT)]> (tview_of <$> evs b))
      (common_timeout_queues b') (timeheap b') (hidx b') -> eb_wf exact b').
  { intros b' H1 H2 H3 H4. eapply (timers_wf _ b b' x e (add_flag e EVLIST_TIMEOUT)); eauto.
    - unfold aview_of. by flags.
    - unfold iview_of. by flags.
    - apply event_ok_add; [|done]. by apply (wf_event _ _ Hw x).
    - rewrite H2, weight_add_timeout by done. simpl. lia. }
  destruct Hins as [Hh|(i & Hi & Hh)].
  - rewrite not_common_low by done.
    destruct (timers_heap_insert _ _ _ _ x _ (tmo b1) (mem_ok en (HeapTo (u32 (1 + hn (timeheap b))))) (wf_timers _ _ Hw) Hv)
      as (r & h & j & Her & Hok); [done..| |destruct Hmem as [Hmem|?]; [left; apply Hmem|by right]|].
    { intros y. by apply (tmo_put (INCR_EVENT_COUNT b (ev_flags e)) x e). }
    change (timeheap b1) with (timeheap b). change (hidx b1) with (hidx b).
    rewrite Her. simpl. eexists. split; [done|]. split; [|split; [done|repeat split]].
    apply Hwf; [done|done|repeat split|].
    replace (tview_of (add_flag e EVLIST_TIMEOUT)) with (mkT true true (t_at (tview_of e))); [done|].
    unfold tview_of. flags. by rewrite Hini.
  - destruct (lookup_lt_is_Some_2 _ _ Hi) as [c Hc].
    destruct (is_common_hi (ev_timeout e) b1 i) as [-> _]; [done|done|apply Hw|].
    destruct (insert_inorder_ok b x e i c (wf_timers _ _ Hw) Hx Ht Hini Hh Hc b1) as (l & -> & Hok);
      [done..|].
    eexists. split; [done|].
    assert (Hot : only_timers b (set_common_timeout_queues b1
      (<[i := mkCtl l (ctl_duration c) (ctl_timeout_event c)]> (common_timeout_queues b)))).
    { repeat split; simpl. by eapply owners_set. }
    split; [by apply Hwf|]. done.
Qed.

Lemma reserve_wf exact en b n :
  eb_wf exact b -> 0 <= n < 2 ^ 32 ->
  exists r h, min_heap_reserve_ (mem_ok en (HeapTo n)) (timeheap b) n = (r, h) /\
    eb_wf exact (set_timeheap b h) /\ hn h = hn (timeheap b) /\
    (r = 0 /\ n <= ha h \/ r = -1 /\ mem_ok en (HeapTo n) = false /\ h = timeheap b).
Proof.
  intros Hw Hn. destruct Hw as [[(v & Hv & Hve) H1 H2 H3 H4 H5] Ha Hi Hs Hsh Hc He Htv].
  destruct (reserve_spec _ (mem_ok en (HeapTo n)) _ _ _ n Hv Hn) as (r & h & Hr & Hv' & Hcase).
  exists r, h. split; [done|]. split.
  - split; simpl; auto. split; auto. eauto.
  - split; [|done]. by rewrite (hw_n _ _ _ _ Hv'), (hw_n _ _ _ _ Hv).
Qed.

(** ** Waiting for descriptors and signals *)

(** The fields an operation on the maps leaves alone. *)
Definition only_maps (b b' : event_base) : Prop :=
  timeheap b' = timeheap b /\ common_timeout_queues b' = common_timeout_queues b /\
  hidx b' = hidx b /\ activequeues b' = activequeues b /\
  active_later_queue b' = active_later_queue b /\
  event_count_active b' = event_count_active b /\ tv_cache b' = tv_cache b /\
  sig_frame b' = sig_frame b.

Lemma maps_wf exact b b' x e e' :
  eb_wf exact b -> evs b !! x = Some e -> evs b' = <[x := e']> (evs b) ->
  aview_of e' = aview_of e -> tview_of e' = tview_of e -> event_ok e' ->
  event_count b' = event_count b - weight e + weight e' -> only_maps b b' ->
  io_ok exact (<[x := iview_of e']> (iview_of <$> evs b)) (io b') (kernel b') ->
  sig_ok exact (<[x := iview_of e']> (iview_of <$> evs b)) (sigmap b') (ksig b') ->
  event_shape (iview_of e') -> eb_wf exact b'.
Proof.
  intros [Ht Ha Hi Hs Hsh Hc He Htv] Hx Hev Hae Hte Heo Hn
    (H1 & H2 & H3 & H4 & H5 & H6 & H7 & _) Hio Hsig Hshape.
  split; rewrite ?Hev, ?H1, ?H2, ?H3, ?H4, ?H5, ?H6, ?H7.
  - by rewrite (view_same _ _ _ e).
  - by rewrite (view_same _ _ _ e).
  - by rewrite view_insert.
  - by rewrite view_insert.
  - rewrite view_insert. by apply map_Forall_insert_2.
  - rewrite (msum_view _ _ e) by done. lia.
  - by apply map_Forall_insert_2.
  - done.
Qed.

(** Making room in a map and creating an empty slot. *)
Lemma io_prepare exact en m mp k fd :
  io_ok exact m mp k -> 0 <= fd < 2 ^ 26 ->
  exists r mp1, evmap_make_space en mp fd = Done (r, mp1) /\
    (r = -1 /\ mp1 = mp \/ r = 0 /\ exists o, get_slot_ctor en (mkIo [] 0 0 0) mp1 fd = Done o /\
      io_ok exact m mp1 k /\
      match o with
      | None => True
      | Some (c, mp2) => io_ok exact m mp2 k /\ entries mp2 !! fd = Some c /\ fd < nentries mp2
      end).
Proof.
  intros Ho Hfd. destruct (make_space_spec en mp fd (io_size _ _ _ _ Ho)) as
    (r & mp1 & -> & He & Hz & Hn & Hc); [lia|].
  exists r, mp1. split; [done|]. destruct Hc as [[-> Hlt]|(-> & _ & ->)]; [right|by left].
  split; [done|]. pose proof (io_grow _ _ _ mp1 _ Ho He Hz Hn) as Ho1.
  unfold get_slot_ctor, get_slot.
  replace (_ && _) with true by (symmetry; rewrite andb_true_iff, Z.leb_le, Z.ltb_lt; lia). simpl.
  destruct (entries mp1 !! fd) as [c|] eqn:Hs.
  - exists (Some (c, mp1)). auto.
  - destruct (mem_ok en (SlotAt fd)); [|exists None; auto]. eexists (Some _). split; [done|]. split; [done|].
    split; [apply io_ctor; [done|done|lia]|]. simpl. by rewrite lookup_insert_eq.
Qed.

Lemma bits_at_io c ev n w : Z.land (Z.lor (Z.land w EV_ET) (bits_at c ev n)) EV_IO = bits_at c ev n.
Proof.
  rewrite Z.land_lor_distr_l, <-Z.land_assoc. change (Z.land EV_ET EV_IO) with 0.
  rewrite Z.land_0_r, Z.lor_0_l. unfold bits_at.
  generalize (has ev EV_READ && (nread c =? n)) (has ev EV_WRITE && (nwrite c =? n))
    (has ev EV_CLOSED && (nclose c =? n)).
  intros [] [] []; reflexivity.
Qed.

(** The fields [evmap_io_add_] and [evmap_io_del_] leave alone. *)
Definition only_io (b b' : event_base) : Prop :=
  only_maps b b' /\ evs b' = evs b /\ sigmap b' = sigmap b /\ ksig b' = ksig b /\
  event_count b' = event_count b.

Lemma io_slot_head b m fd c :
  m = iview_of <$> evs b -> slot_ok m fd c ->
  forall en ev, exists w, mixes_et en b c ev = Done w.
Proof.
  intros -> Hs en ev. unfold mixes_et. destruct (debug_mode en); [|eauto].
  destruct (io_events c) as [|y l] eqn:El; [eauto|].
  assert (Hy : y ∈ io_events c) by (rewrite El; set_solver).
  apply (so_elem _ _ _ Hs) in Hy as (v & Hv & _). rewrite lookup_fmap in Hv.
  unfold get. destruct (evs b !! y); [simpl; eauto|done].
Qed.

Lemma evmap_io_add_spec exact en b x e :
  io_ok exact (iview_of <$> evs b) (io b) (kernel b) -> evs b !! x = Some e ->
  has (ev_events e) EV_IO = true -> has (ev_flags e) EVLIST_INSERTED = false -> ev_fd e < 2 ^ 26 ->
  exists r b1, evmap_io_add_ en b (ev_fd e) x = Done (r, b1) /\ only_io b b1 /\
    (r = -1 /\ io_ok exact (iview_of <$> evs b) (io b1) (kernel b1) \/
     (r = 0 \/ r = 1) /\
     io_ok exact (<[x := switched (iview_of e) true]> (iview_of <$> evs b)) (io b1) (kernel b1)).
Proof.
  intros Ho Hx Hio Hoff Hmax. pose proof (view_lookup iview_of _ _ _ Hx) as Hv.
  unfold evmap_io_add_. rewrite (get_done b x e Hx). simpl. rewrite Z.eqb_refl. simpl.
  case_test; zb.
  { exists 0, b. split; [done|]. split; [repeat split|]. right. split; [auto|].
    eapply io_other; eauto. }
  destruct (io_prepare exact en _ _ _ (ev_fd e) Ho) as (r & mp1 & -> & Hc); [lia|]. simpl.
  destruct Hc as [[-> ->]|(-> & o & -> & Ho1 & Hc)].
  { exists (-1), b. split; [done|]. split; [repeat split|]. auto. }
  simpl. destruct o as [[c mp2]|]; [destruct Hc as (Ho2 & Hs & Hlt)|].
  2: { exists (-1), (set_io b mp1). split; [done|]. split; [repeat split|]. auto. }
  destruct (io_slot _ _ _ _ Ho2 _ _ Hs) as [_ Hso]. pose proof (slot_nonneg _ _ _ Hso) as (N1 & N2 & N3).
  set (c' := bump_slot c (ev_events e) 1).
  destruct (slot_over c') eqn:Hov.
  { exists (-1), (set_io b mp2). split; [done|]. split; [repeat split|]. auto. }
  destruct (io_slot_head (set_io b mp2) _ (ev_fd e) c eq_refl Hso en e) as [w ->]. simpl.
  destruct w.
  { exists (-1), (set_io b mp2). split; [done|]. split; [repeat split|]. auto. }
  pose proof (slot_add _ (ev_fd e) x (iview_of e) c Hso Hv Hoff Hio eq_refl Hov) as Hso'.
  pose proof (mask_add c (ev_events e) (x :: io_events c) N1 N2 N3) as Hmask.
  pose proof (io_kernel _ _ _ _ Ho2 (ev_fd e)) as Hk. unfold mask_of in Hk. rewrite Hs in Hk.
  assert (Hset : forall k', covers exact (Z.lor (slot_mask c) (bits_at c' (ev_events e) 1))
      (default 0 (k' !! ev_fd e)) -> (forall g, g <> ev_fd e -> k' !! g = kernel b !! g) ->
    io_ok exact (<[x := switched (iview_of e) true]> (iview_of <$> evs b))
      (mkMap (<[ev_fd e := mkIo (x :: io_events c) (nread c') (nwrite c') (nclose c')]> (entries mp2))
         (nentries mp2)) k').
  { intros k' Hcov Hg. apply (io_set exact _ mp2 (kernel b) k' _ x (iview_of e)); auto.
    fold c' in Hmask. by rewrite Hmask. }
  destruct (bits_at c' (ev_events e) 1 =? 0) eqn:Er; zb; simpl.
  - eexists 0, _. split; [done|]. split; [repeat split|]. right. split; [auto|].
    apply Hset; [|done]. by rewrite Er, Z.lor_0_r.
  - unfold backend_add. destruct (add_ok en (ev_fd e)); simpl.
    + eexists 1, _. split; [done|]. split; [repeat split|]. right. split; [auto|].
      apply Hset; [|intros g Hg; simpl; by rewrite lookup_insert_ne].
      simpl. rewrite lookup_insert_eq, bits_at_io. by apply covers_add.
    + eexists (-1), _. split; [done|]. split; [repeat split|]. auto.
Qed.

Lemma insert_inserted_done b x e :
  evs b !! x = Some e -> has (ev_flags e) EVLIST_INSERTED = false ->
  event_queue_insert_inserted b x =
    Done (put (INCR_EVENT_COUNT b (ev_flags e)) x (add_flag e EVLIST_INSERTED)).
Proof. intros Hx Hf. unfold event_queue_insert_inserted. rewrite (get_done b x e Hx). simpl. by rewrite Hf. Qed.

Lemma iview_switched e (on : bool) :
  iview_of (if on then add_flag e EVLIST_INSERTED else del_flag e EVLIST_INSERTED) =
  switched (iview_of e) on.
Proof. destruct on; unfold iview_of, switched; by flags. Qed.

Lemma u16_small z : 0 <= z <= 0xffff -> u16 z = z.
Proof. intros H. unfold u16. apply Z.mod_small. lia. Qed.

(** [m0] is the view from before the flag was cleared. *)
Lemma evmap_io_del_spec exact en b x e m0 v :
  env_ok exact en -> io_ok exact m0 (io b) (kernel b) -> m0 !! x = Some v -> evs b !! x = Some e ->
  ev_events e = i_events v -> ev_fd e = i_fd v ->
  has (i_events v) EV_IO = true -> i_on v = true ->
  exists r b1, evmap_io_del_ en b (ev_fd e) x = Done (r, b1) /\ only_io b b1 /\
    (r = -1 \/ r = 0 \/ r = 1) /\ (exact = true -> r <> -1) /\
    io_ok exact (<[x := switched v false]> m0) (io b1) (kernel b1).
Proof.
  intros He Ho Hv Hx Hev Hfd Hio Hon. unfold evmap_io_del_. case_test; zb.
  { exists 0, b. split; [done|]. split; [repeat split|]. split; [auto|]. split; [done|].
    eapply io_other; eauto. right. right. lia. }
  rewrite (get_done b x e Hx). simpl. rewrite Z.eqb_refl. simpl.
  destruct (io_present _ _ _ _ Ho (ev_fd e) x) as [c Hs]; [done| |].
  { rewrite (holds_is _ _ x v Hv). done. }
  destruct (io_slot _ _ _ _ Ho _ _ Hs) as [Hr Hso]. case_test; zb; [lia|].
  unfold get_slot.
  replace (_ && _) with true by (symmetry; rewrite andb_true_iff, Z.leb_le, Z.ltb_lt; lia). simpl.
  rewrite Hs. simpl.
  destruct (slot_del _ (ev_fd e) x v c Hso Hv Hon Hio (eq_sym Hfd)) as [Hin Hso'].
  rewrite <-Hev in Hso'. set (c' := bump_slot c (ev_events e) (-1)) in *.
  pose proof (slot_nonneg _ _ _ Hso') as (N1 & N2 & N3). simpl in N1, N2, N3.
  replace (_ && _ && _) with true by (symmetry; rewrite !andb_true_iff, !Z.leb_le; done). simpl.
  rewrite !u16_small by (destruct Hso' as [_ _ [_ ?] [_ ?] [_ ?]]; simpl in *; lia).
  pose proof (mask_del c (ev_events e) (without x (io_events c)) N1 N2 N3) as Hmask.
  pose proof (io_kernel _ _ _ _ Ho (ev_fd e)) as Hk. unfold mask_of in Hk. rewrite Hs in Hk.
  assert (Hset : forall k',
    covers exact (Z.land (slot_mask c) (Z.lnot (bits_at c' (ev_events e) 0))) (default 0 (k' !! ev_fd e)) ->
    (forall g, g <> ev_fd e -> k' !! g = kernel b !! g) ->
    io_ok exact (<[x := switched v false]> m0)
      (mkMap (<[ev_fd e := mkIo (without x (io_events c)) (nread c') (nwrite c') (nclose c')]>
         (entries (io b))) (nentries (io b))) k').
  { intros k' Hcov Hg. apply (io_set exact _ (io b) (kernel b) k' _ x v); auto.
    fold c' in Hmask. by rewrite Hmask. }
  destruct (bits_at c' (ev_events e) 0 =? 0) eqn:Er; zb.
  - rewrite tq_remove_done by done. simpl. eexists 0, _. split; [done|]. split; [repeat split|].
    split; [auto|]. split; [done|]. apply Hset; [|done]. rewrite Er. change (Z.lnot 0) with (-1).
    by rewrite Z.land_m1_r.
  - unfold backend_del. destruct (del_ok en (ev_fd e)) eqn:Hd; rewrite tq_remove_done by done; simpl.
    + eexists 1, _. split; [done|]. split; [repeat split|]. split; [auto|]. split; [done|].
      apply Hset; [|intros g Hg; simpl; by rewrite lookup_insert_ne].
      simpl. rewrite lookup_insert_eq. by apply covers_del.
    + assert (exact = false) as ->.
      { destruct exact; [|done]. destruct (eo_del _ _ He eq_refl) as [Hall _]. congruence. }
      eexists (-1), _. split; [done|]. split; [repeat split|]. split; [auto|]. split; [done|].
      apply Hset; [|done]. simpl. by apply covers_less.
Qed.

(** The fields the signal map operations leave alone. *)
Definition only_sig (b b' : event_base) : Prop :=
  only_maps b b' /\ evs b' = evs b /\ io b' = io b /\ kernel b' = kernel b /\
  event_count b' = event_count b.

Lemma evmap_signal_add_spec exact en b x e :
  sig_ok exact (iview_of <$> evs b) (sigmap b) (ksig b) -> evs b !! x = Some e ->
  has (ev_events e) EV_SIGNAL = true -> has (ev_flags e) EVLIST_INSERTED = false ->
  0 <= ev_fd e < 2 ^ 26 ->
  exists r b1, evmap_signal_add_ en b (ev_fd e) x = Done (r, b1) /\ only_sig b b1 /\
    (r = -1 /\ sig_ok exact (iview_of <$> evs b) (sigmap b1) (ksig b1) \/
     r = 1 /\
     sig_ok exact (<[x := switched (iview_of e) true]> (iview_of <$> evs b)) (sigmap b1) (ksig b1)).
Proof.
  intros Ho Hx Hsg Hoff Hfd. pose proof (view_lookup iview_of _ _ _ Hx) as Hv.
  unfold evmap_signal_add_. rewrite (get_done b x e Hx). simpl.
  destruct (make_space_spec en (sigmap b) (ev_fd e) (sg_size _ _ _ _ Ho)) as
    (r & mp1 & -> & He & Hz & Hn & Hc); [lia|]. simpl.
  destruct Hc as [[-> Hlt]|(-> & _ & ->)].
  2: { exists (-1), b. split; [done|]. split; [repeat split|]. auto. }
  pose proof (sig_grow _ _ _ mp1 _ Ho He Hz Hn) as Ho1. simpl. unfold get_slot_ctor, get_slot.
  replace (_ && _) with true by (symmetry; rewrite andb_true_iff, Z.leb_le, Z.ltb_lt; lia). simpl.
  assert (Hadd : forall mp2 l, sig_ok exact (iview_of <$> evs b) mp2 (ksig b) ->
    entries mp2 !! ev_fd e = Some l -> forall ks',
    (ev_fd e ∈ ks') -> (forall g, g <> ev_fd e -> g ∈ ks' <-> g ∈ ksig b) ->
    sig_ok exact (<[x := switched (iview_of e) true]> (iview_of <$> evs b))
      (mkMap (<[ev_fd e := x :: l]> (entries mp2)) (nentries mp2)) ks').
  { intros mp2 l Ho2 Hl ks' Hin Hks. destruct (sg_slot _ _ _ _ Ho2 _ _ Hl) as (Hr & Hnd & Hel).
    assert (Hni : x ∉ l) by (rewrite Hel, (holds_is _ _ x _ Hv); intros [? _]; simpl in *; congruence).
    apply (sig_set exact _ mp2 (ksig b) ks' _ x (iview_of e)); auto.
    - by constructor.
    - intros y. rewrite elem_of_cons, Hel, holds_insert. unfold signals_on at 2; simpl.
      destruct (decide (y = x)) as [->|]; tauto.
    - unfold sig_covers. destruct exact; [by split|done]. }
  destruct (entries mp1 !! ev_fd e) as [l|] eqn:Hl.
  - simpl. destruct l as [|y l]; simpl.
    + destruct (sig_add_ok en (ev_fd e)); simpl.
      * eexists 1, _. split; [done|]. split; [repeat split|]. right. split; [done|].
        apply Hadd; [done|done|set_solver|set_solver].
      * eexists (-1), _. split; [done|]. split; [repeat split|]. auto.
    + eexists 1, _. split; [done|]. split; [repeat split|]. right. split; [done|].
      apply Hadd; [done|done| |done].
      pose proof (sg_kernel _ _ _ _ Ho1 (ev_fd e)) as Hk. rewrite Hl in Hk. destruct exact; by apply Hk.
  - destruct (mem_ok en (SlotAt (ev_fd e))); simpl.
    2: { eexists (-1), _. split; [done|]. split; [repeat split|]. auto. }
    pose proof (sig_ctor _ _ _ _ (ev_fd e) Ho1 Hl ltac:(lia)) as Ho2.
    destruct (sig_add_ok en (ev_fd e)); simpl.
    + eexists 1, _. split; [done|]. split; [repeat split|]. right. split; [done|].
      apply (Hadd _ [] Ho2); simpl; [by rewrite lookup_insert_eq|set_solver|set_solver].
    + eexists (-1), _. split; [done|]. split; [repeat split|]. auto.
Qed.

Lemma evmap_signal_del_spec exact en b x e m0 v :
  env_ok exact en -> sig_ok exact m0 (sigmap b) (ksig b) -> m0 !! x = Some v -> evs b !! x = Some e ->
  ev_events e = i_events v -> ev_fd e = i_fd v -> 0 <= i_fd v ->
  has (i_events v) EV_SIGNAL = true -> i_on v = true ->
  exists r b1, evmap_signal_del_ en b (ev_fd e) x = Done (r, b1) /\ only_sig b b1 /\
    (r = -1 \/ r = 1) /\ (exact = true -> r <> -1) /\
    sig_ok exact (<[x := switched v false]> m0) (sigmap b1) (ksig b1).
Proof.
  intros He Ho Hv Hx Hev Hfd H0 Hsg Hon. unfold evmap_signal_del_. rewrite (get_done b x e Hx). simpl.
  destruct (sg_present _ _ _ _ Ho (ev_fd e) x) as [l Hl]; [lia| |].
  { rewrite (holds_is _ _ x v Hv). done. }
  destruct (sg_slot _ _ _ _ Ho _ _ Hl) as (Hr & Hnd & Hel). case_test; zb; [lia|].
  unfold get_slot.
  replace (_ && _) with true by (symmetry; rewrite andb_true_iff, Z.leb_le, Z.ltb_lt; lia). simpl.
  rewrite Hl. simpl.
  assert (Hin : x ∈ l) by (rewrite Hel, (holds_is _ _ x v Hv); done).
  rewrite tq_remove_done by done. simpl.
  assert (Hset : forall ks', sig_covers exact (without x l) (ev_fd e ∈ ks') ->
    (forall g, g <> ev_fd e -> g ∈ ks' <-> g ∈ ksig b) ->
    sig_ok exact (<[x := switched v false]> m0)
      (mkMap (<[ev_fd e := without x l]> (entries (sigmap b))) (nentries (sigmap b))) ks').
  { intros ks' Hcov Hg. apply (sig_set exact _ (sigmap b) (ksig b) ks' _ x v); auto using NoDup_without.
    intros y. rewrite elem_of_without, Hel, holds_insert. unfold signals_on at 2; simpl.
    destruct (decide (y = x)) as [->|]; naive_solver. }
  pose proof (sg_kernel _ _ _ _ Ho (ev_fd e)) as Hk. rewrite Hl in Hk. simpl in Hk.
  destruct (without x l) as [|y l'] eqn:Hw.
  - destruct (sig_del_ok en (ev_fd e)) eqn:Hd.
    + eexists 1, _. split; [done|]. split; [repeat split|]. split; [auto|]. split; [done|].
      apply Hset; [|simpl; set_solver]. simpl. destruct exact; simpl; [|done]. set_solver.
    + assert (exact = false) as ->.
      { destruct exact; [|done]. destruct (eo_del _ _ He eq_refl) as [_ Hall]. congruence. }
      eexists (-1), _. split; [done|]. split; [repeat split|]. split; [auto|]. split; [done|].
      apply Hset; [simpl; done|done].
  - eexists 1, _. split; [done|]. split; [repeat split|]. split; [auto|]. split; [done|].
    apply Hset; [|done]. assert (l <> []) by (intros ->; set_solver). destruct exact; simpl in *.
    + split; [done|]. intros _. by apply Hk.
    + intros _. by apply Hk.
Qed.

(** Does [event_add] have to start waiting for the event? *)
Definition must_insert (e : event) : bool :=
  (has (ev_events e) EV_IO || has (ev_events e) EV_SIGNAL) &&
  negb (has (ev_flags e) EVLIST_INSERTED || (has (ev_flags e) EVLIST_ACTIVE ||
        has (ev_flags e) EVLIST_ACTIVE_LATER)).

Lemma shape_of exact b x e : eb_wf exact b -> evs b !! x = Some e -> event_shape (iview_of e).
Proof. intros Hw Hx. apply (wf_shape _ _ Hw x). by apply view_lookup. Qed.

(** Setting the flag once a map has the event. *)
Lemma inserted_wf exact b b1 x e :
  eb_wf exact b -> evs b !! x = Some e -> has (ev_flags e) EVLIST_INSERTED = false ->
  only_maps b b1 -> evs b1 = evs b -> event_count b1 = event_count b ->
  has (ev_events e) EV_IO || has (ev_events e) EV_SIGNAL = true ->
  io_ok exact (<[x := switched (iview_of e) true]> (iview_of <$> evs b)) (io b1) (kernel b1) ->
  sig_ok exact (<[x := switched (iview_of e) true]> (iview_of <$> evs b)) (sigmap b1) (ksig b1) ->
  exists b', event_queue_insert_inserted b1 x = Done b' /\ eb_wf exact b' /\ only_maps b b' /\
    evs b' = <[x := add_flag e EVLIST_INSERTED]> (evs b).
Proof.
  intros Hw Hx Hoff Hom Hev Hcnt Hev2 Hio Hsg.
  rewrite (insert_inserted_done b1 x e) by (by rewrite ?Hev).
  eexists. split; [done|]. destruct Hom as (H1 & H2 & H3 & H4 & H5 & H6 & H7 & H8).
  assert (Hom : only_maps b (put (INCR_EVENT_COUNT b1 (ev_flags e)) x (add_flag e EVLIST_INSERTED)))
    by (repeat split; assumption).
  split; [|split; [done|simpl; by rewrite Hev]].
  pose proof (iview_switched e true) as Hsw. cbv iota in Hsw.
  eapply (maps_wf exact b _ x e (add_flag e EVLIST_INSERTED)); rewrite ?Hsw; eauto.
  - simpl. by rewrite Hev.
  - unfold aview_of. by flags.
  - unfold tview_of. by flags.
  - apply event_ok_add; [|done]. by apply (wf_event _ _ Hw x).
  - simpl. rewrite weight_add_inserted by done. lia.
  - destruct (shape_of _ _ _ _ Hw Hx) as (S1 & S2 & S3). split; [done|]. split; [done|exact S3].
Qed.

(** An addition that failed may have left an empty slot. *)
Lemma maps_same_wf exact b b1 :
  eb_wf exact b -> only_maps b b1 -> evs b1 = evs b -> event_count b1 = event_count b ->
  io_ok exact (iview_of <$> evs b) (io b1) (kernel b1) ->
  sig_ok exact (iview_of <$> evs b) (sigmap b1) (ksig b1) -> eb_wf exact b1.
Proof.
  intros Hw (H1 & H2 & H3 & H4 & H5 & H6 & H7 & H8) Hev Hcnt Hio Hsg. destruct Hw.
  split; rewrite ?Hev, ?Hcnt, ?H1, ?H2, ?H3, ?H4, ?H5, ?H6, ?H7; done.
Qed.

Lemma add_insert_wf exact en b x e :
  eb_wf exact b -> evs b !! x = Some e ->
  exists r b', add_insert en b x = Done (r, b') /\ eb_wf exact b' /\ only_maps b b' /\
    (r = 0 \/ r = -1) /\
    evs b' = (if must_insert e && (r =? 0) then <[x := add_flag e EVLIST_INSERTED]> (evs b) else evs b) /\
    (must_insert e = false -> r = 0).
Proof.
  intros Hw Hx. unfold add_insert. rewrite (get_done b x e Hx). simpl. rewrite !has_lor_r.
  fold (must_insert e). destruct (must_insert e) eqn:Hm.
  2: { exists 0, b. repeat (split; [done || auto|]). done. }
  unfold must_insert in Hm. zb. pose proof (shape_of _ _ _ _ Hw Hx) as (S1 & S2 & S3). simpl in *.
  pose proof (view_lookup iview_of _ _ _ Hx) as Hv.
  destruct (has (ev_events e) EV_IO) eqn:Hio.
  - destruct (evmap_io_add_spec exact en b x e (wf_io _ _ Hw) Hx Hio) as (r & b1 & -> & Hon & Hc);
      [done|lia|]. simpl. destruct Hon as (Hom & Hev & Hsm & Hks & Hcnt).
    destruct Hc as [[-> Hok]|[Hr Hok]].
    + simpl. exists (-1), b1. split; [done|].
      split; [|split; [done|]; split; [auto|]; split; [done|done]].
      apply (maps_same_wf exact b); auto. rewrite Hsm, Hks. apply Hw.
    + destruct (inserted_wf exact b b1 x e) as (b' & Hd & Hw' & Hom' & Hev'); auto.
      { by rewrite Hio. }
      { rewrite Hsm, Hks. apply (sig_other _ _ _ _ x _ _ (wf_sig _ _ Hw) Hv); try done. right.
        destruct (has (ev_events e) EV_SIGNAL) eqn:Hs; [|done]. by destruct (S3 eq_refl). }
      exists 0, b'. destruct Hr as [->| ->]; simpl; rewrite Hd; simpl; auto 10.
  - simpl in *. assert (Hsg : has (ev_events e) EV_SIGNAL = true) by naive_solver.
    destruct (S3 Hsg) as [_ S4].
    destruct (evmap_signal_add_spec exact en b x e (wf_sig _ _ Hw) Hx Hsg) as (r & b1 & -> & Hon & Hc);
      [done|lia|]. simpl. destruct Hon as (Hom & Hev & Hsm & Hks & Hcnt).
    destruct Hc as [[-> Hok]|[-> Hok]].
    + simpl. exists (-1), b1. split; [done|].
      split; [|split; [done|]; split; [auto|]; split; [done|done]].
      apply (maps_same_wf exact b); auto. rewrite Hsm, Hks. apply Hw.
    + destruct (inserted_wf exact b b1 x e) as (b' & Hd & Hw' & Hom' & Hev'); auto.
      { by rewrite Hsg, orb_true_r. }
      { rewrite Hsm, Hks. apply (io_other _ _ _ _ x _ _ (wf_io _ _ Hw) Hv); try done. auto. }
      exists 0, b'. simpl. rewrite Hd. simpl. auto 10.
Qed.

(** What no operation on an event changes. *)
Definition mild (b b' : event_base) : Prop :=
  tv_cache b' = tv_cache b /\ sig_frame b' = sig_frame b /\
  owners b' = owners b /\ length (activequeues b') = length (activequeues b).

#[export] Instance mild_preorder : PreOrder mild.
Proof. split; repeat intro; unfold mild in *; intuition congruence. Qed.

Lemma mild_active b b' : only_active b b' -> mild b b'.
Proof. unfold only_active, mild, owners. intuition congruence. Qed.
Lemma mild_timers b b' : only_timers b b' -> mild b b'.
Proof. unfold only_timers, mild. intuition congruence. Qed.
Lemma mild_maps b b' : only_maps b b' -> mild b b'.
Proof. unfold only_maps, mild, owners. intuition congruence. Qed.

Lemma mild_refl b : mild b b.
Proof. reflexivity. Qed.

#[export] Hint Resolve mild_active mild_timers mild_maps : mtc.

Lemma set_flags_same e : set_ev_flags e (ev_flags e) = e.
Proof. by destruct e. Qed.

Lemma del_flag_id e n :
  0 <= n -> has (ev_flags e) (2 ^ n) = false -> del_flag e (2 ^ n) = e.
Proof.
  intros Hn Hf. unfold del_flag. replace (Z.land (ev_flags e) (Z.lnot (2 ^ n))) with (ev_flags e);
    [apply set_flags_same|]. rewrite has_bit in Hf by done.
  apply Z.bits_inj'. intros k Hk. rewrite Z.land_spec, Z.lnot_spec, Z.pow2_bits_eqb by done.
  destruct (n =? k) eqn:E; zb; [subst; by rewrite Hf|]. by rewrite andb_true_r.
Qed.

(** The event once it is in no queue. *)
Definition unqueued (e : event) : event :=
  del_flag (del_flag (del_flag (del_flag e EVLIST_TIMEOUT) EVLIST_ACTIVE) EVLIST_ACTIVE_LATER)
    EVLIST_INSERTED.

Lemma remove_inserted_done b x e :
  evs b !! x = Some e -> has (ev_flags e) EVLIST_INSERTED = true ->
  event_queue_remove_inserted b x =
    Done (put (DECR_EVENT_COUNT b (ev_flags e)) x (del_flag e EVLIST_INSERTED)).
Proof. intros Hx Hf. unfold event_queue_remove_inserted. rewrite (get_done b x e Hx). simpl. by rewrite Hf. Qed.

(** Clearing the flag and leaving the map. *)
Lemma del_inserted_wf exact en b x e :
  eb_wf exact b -> env_ok exact en -> evs b !! x = Some e -> has (ev_flags e) EVLIST_INSERTED = true ->
  let b1 := put (DECR_EVENT_COUNT b (ev_flags e)) x (del_flag e EVLIST_INSERTED) in
  exists r b', (if has (ev_events e) EV_IO then evmap_io_del_ en b1 (ev_fd e) x
                else evmap_signal_del_ en b1 (ev_fd e) x) = Done (r, b') /\
    (r = -1 \/ r = 0 \/ r = 1) /\ (exact = true -> r <> -1) /\ eb_wf exact b' /\ only_maps b b' /\
    evs b' = <[x := del_flag e EVLIST_INSERTED]> (evs b).
Proof.
  intros Hw He Hx Hin b1. pose proof (view_lookup iview_of _ _ _ Hx) as Hv.
  destruct (shape_of _ _ _ _ Hw Hx) as (S1 & S2 & S3). simpl in *.
  pose proof (iview_switched e false) as Hsw. cbv iota in Hsw.
  assert (Hx1 : evs b1 !! x = Some (del_flag e EVLIST_INSERTED)) by (simpl; by rewrite lookup_insert_eq).
  assert (Hfin : forall b', only_maps b1 b' -> evs b' = evs b1 -> event_count b' = event_count b1 ->
    io_ok exact (<[x := switched (iview_of e) false]> (iview_of <$> evs b)) (io b') (kernel b') ->
    sig_ok exact (<[x := switched (iview_of e) false]> (iview_of <$> evs b)) (sigmap b') (ksig b') ->
    eb_wf exact b').
  { intros b' Hom Hev Hcnt Hio Hsg.
    eapply (maps_wf exact b b' x e (del_flag e EVLIST_INSERTED)); rewrite ?Hsw; eauto.
    - unfold aview_of. by flags.
    - unfold tview_of. by flags.
    - apply event_ok_del. by apply (wf_event _ _ Hw x).
    - rewrite Hcnt. simpl. rewrite weight_del_inserted by done. lia.
    - split; [done|]. split; [done|exact S3]. }
  destruct (has (ev_events e) EV_IO) eqn:Hio.
  - destruct (evmap_io_del_spec exact en b1 x (del_flag e EVLIST_INSERTED) _ _ He (wf_io _ _ Hw) Hv Hx1)
      as (r & b' & Hd & (Hom & Hev & Hsm & Hks & Hcnt) & Hr & Hr' & Hok); [done..|].
    exists r, b'. change (ev_fd (del_flag e EVLIST_INSERTED)) with (ev_fd e) in Hd. rewrite Hd.
    split; [done|]. split; [done|]. split; [done|]. split; [|split; [exact Hom|by rewrite Hev]].
    apply Hfin; auto. rewrite Hsm, Hks. apply (sig_other _ _ _ _ x _ _ (wf_sig _ _ Hw) Hv); try done.
    right. destruct (has (ev_events e) EV_SIGNAL) eqn:Hs; [|done]. by destruct (S3 eq_refl).
  - assert (Hsg : has (ev_events e) EV_SIGNAL = true) by (by rewrite <-(S2 Hin)).
    destruct (S3 Hsg) as [_ S4].
    destruct (evmap_signal_del_spec exact en b1 x (del_flag e EVLIST_INSERTED) _ _ He (wf_sig _ _ Hw) Hv Hx1)
      as (r & b' & Hd & (Hom & Hev & Hsm & Hks & Hcnt) & Hr & Hr' & Hok); [done..|].
    exists r, b'. change (ev_fd (del_flag e EVLIST_INSERTED)) with (ev_fd e) in Hd. rewrite Hd.
    split; [done|]. split; [tauto|]. split; [done|]. split; [|split; [exact Hom|by rewrite Hev]].
    apply Hfin; auto. rewrite Hsm, Hks. apply (io_other _ _ _ _ x _ _ (wf_io _ _ Hw) Hv); try done. auto.
Qed.

Lemma abort_none b e : ev_pncalls e = None -> abort_signal_loop b e = Done b.
Proof. intros H. unfold abort_signal_loop. rewrite H. by destruct (_ =? _). Qed.

(** Leaving the active or the later queue. *)
Lemma unactivate_wf exact b x e :
  eb_wf exact b -> evs b !! x = Some e ->
  exists b', (if has (ev_flags e) EVLIST_ACTIVE then event_queue_remove_active b x
              else if has (ev_flags e) EVLIST_ACTIVE_LATER then event_queue_remove_active_later b x
              else Done b) = Done b' /\ eb_wf exact b' /\ only_active b b' /\
    evs b' = <[x := del_flag (del_flag e EVLIST_ACTIVE) EVLIST_ACTIVE_LATER]> (evs b).
Proof.
  intros Hw Hx. destruct (active_event _ _ _ _ Hw Hx) as (q & _ & _ & _ & _ & Hex).
  destruct (has (ev_flags e) EVLIST_ACTIVE) eqn:Ha.
  - destruct (remove_active_wf _ _ _ _ Hw Hx Ha) as (b' & -> & Hw' & Hev & Hon).
    exists b'. split; [done|]. split; [done|]. split; [done|]. rewrite Hev. f_equal.
    symmetry. apply (del_flag_id _ 5); [lia|]. change (2 ^ 5) with EVLIST_ACTIVE_LATER. flags.
    by rewrite <-(andb_true_l (has _ _)).
  - assert (Hid : del_flag e EVLIST_ACTIVE = e) by (by apply (del_flag_id _ 3)).
    rewrite Hid. destruct (has (ev_flags e) EVLIST_ACTIVE_LATER) eqn:Hl.
    + destruct (remove_later_wf _ _ _ _ Hw Hx Hl) as (b' & -> & Hw' & Hev & Hon).
      exists b'. auto.
    + exists b. split; [done|]. split; [done|]. split; [repeat split|].
      rewrite (del_flag_id _ 5) by (done || lia). by rewrite insert_id.
Qed.

(** ** Deleting an event *)

Definition del_skipped (blocking : del_mode) (e : event) : bool :=
  negb (match blocking with EVENT_DEL_EVEN_IF_FINALIZING => true | _ => false end) &&
  has (ev_flags e) EVLIST_FINALIZING.

Lemma untimed_wf exact b x e :
  eb_wf exact b -> evs b !! x = Some e ->
  exists b', (if has (ev_flags e) EVLIST_TIMEOUT then event_queue_remove_timeout b x else Done b) = Done b' /\
    eb_wf exact b' /\ only_timers b b' /\ slot_freed e b b' /\
    evs b' = <[x := del_flag e EVLIST_TIMEOUT]> (evs b).
Proof.
  intros Hw Hx. destruct (has (ev_flags e) EVLIST_TIMEOUT) eqn:Ht.
  - destruct (remove_timeout_wf _ _ _ _ Hw Hx Ht) as (b' & -> & Hw' & Hev & Hon & Hf).
    exists b'. auto.
  - exists b. split; [done|]. split; [done|]. split; [repeat split|].
    split; [unfold slot_freed; by rewrite Ht|].
    rewrite (del_flag_id _ 0) by (done || lia). by rewrite insert_id.
Qed.

Lemma event_del_wf exact en b x e blocking :
  eb_wf exact b -> env_ok exact en -> evs b !! x = Some e ->
  exists r b', event_del_nolock_ en b x blocking = Done (r, b') /\ eb_wf exact b' /\ mild b b' /\
    (r = 0 \/ r = -1) /\ (exact = true -> r = 0) /\
    evs b' = (if del_skipped blocking e then evs b else <[x := unqueued e]> (evs b)) /\
    (del_skipped blocking e = false -> slot_freed e b b').
Proof.
  intros Hw He Hx. unfold event_del_nolock_. rewrite (get_done b x e Hx). simpl.
  fold (del_skipped blocking e). destruct (del_skipped blocking e).
  { exists 0, b. repeat (split; [done || auto|]). done. }
  destruct (wf_event _ _ Hw x e Hx) as [Hall Hnc]. rewrite Hall. simpl.
  replace (if has (ev_events e) EV_SIGNAL then abort_signal_loop b e else Done b) with (Done b)
    by (destruct (has (ev_events e) EV_SIGNAL); [by rewrite abort_none|done]). simpl.
  destruct (untimed_wf _ _ _ _ Hw Hx) as (b1 & -> & Hw1 & Hon1 & Hf1 & Hev1). simpl.
  set (e1 := del_flag e EVLIST_TIMEOUT) in *.
  assert (Hx1 : evs b1 !! x = Some e1) by (by rewrite Hev1, lookup_insert_eq).
  replace (has (ev_flags e) EVLIST_ACTIVE) with (has (ev_flags e1) EVLIST_ACTIVE) by (unfold e1; by flags).
  replace (has (ev_flags e) EVLIST_ACTIVE_LATER) with (has (ev_flags e1) EVLIST_ACTIVE_LATER)
    by (unfold e1; by flags).
  destruct (unactivate_wf _ _ _ _ Hw1 Hx1) as (b2 & -> & Hw2 & Hon2 & Hev2). simpl.
  set (e2 := del_flag (del_flag e1 EVLIST_ACTIVE) EVLIST_ACTIVE_LATER) in *.
  assert (Hx2 : evs b2 !! x = Some e2) by (by rewrite Hev2, lookup_insert_eq).
  replace (has (ev_flags e) EVLIST_INSERTED) with (has (ev_flags e2) EVLIST_INSERTED)
    by (unfold e2, e1; by flags).
  assert (Hf2 : slot_freed e b b2) by (unfold slot_freed in *; destruct Hon2 as (-> & _); exact Hf1).
  assert (Hm2 : mild b b2) by (etransitivity; eauto with mtc).
  destruct (has (ev_flags e2) EVLIST_INSERTED) eqn:Hi.
  - rewrite (remove_inserted_done b2 x e2) by done. cbn [mbind outcome_bind].
    destruct (del_inserted_wf exact en b2 x e2 Hw2 He Hx2 Hi)
      as (r & b3 & Hd & Hr & Hr' & Hw3 & Hon3 & Hev3).
    change (ev_events e) with (ev_events e2). change (ev_fd e) with (ev_fd e2). rewrite Hd. simpl.
    exists (if r =? 1 then 0 else r), b3. split; [done|]. split; [done|].
    split; [etransitivity; eauto with mtc|]. split; [destruct Hr as [->|[->| ->]]; auto|].
    split; [intros Hx0; specialize (Hr' Hx0); destruct Hr as [->|[->| ->]]; done|].
    split; [by rewrite Hev3, Hev2, Hev1, !insert_insert_eq|].
    intros _. unfold slot_freed in *. by destruct Hon3 as (-> & _).
  - exists 0, b2. split; [done|]. split; [done|]. split; [done|]. split; [auto|]. split; [done|].
    split; [|done]. rewrite Hev2, Hev1, insert_insert_eq. f_equal. unfold unqueued.
    symmetry. by apply (del_flag_id _ 1).
Qed.
