(* ===== verification/EventBaseKept.v ===== *)
(** * The event base: what operations keep of an event

    Two relations that every operation of [EventBase] on existing events
    respects: [evolves] between an event before and after, and [kept] between
    the bases.  They carry what the closures of the loop rely on and the
    invariant of [EventBaseOps] does not say: the interval of a persistent
    event goes with its last timeout, and the event a common-timeout queue owns
    stays an internal, non-persistent one. *)

From S2P Require Import Prelude MinHeap EventBase EventBaseInv EventBaseOps.

(** A time whose microseconds, without the queue bits, are below a second. *)
Definition norm (tv : timeval) : Prop :=
  0 <= tv_usec (mask_usec tv) < 1000000 /\ - 2 ^ 63 <= tv_sec tv < 2 ^ 63.

Definition timer_tag (n : nat) (tv : timeval) : Prop :=
  hi tv = 0 \/ exists i, (i < n)%nat /\ hi tv = 0x500 + Z.of_nat i.

(** What the closure of a persistent event relies on: its interval and its
    last timeout are normalised and belong to the same queue. *)
Definition persist_ok (n : nat) (e : event) : Prop :=
  ev_closure e = EV_CLOSURE_EVENT_PERSIST -> ev_io_timeout e <> tv0 ->
  norm (ev_io_timeout e) /\ norm (ev_timeout e) /\ hi (ev_io_timeout e) = hi (ev_timeout e) /\
  timer_tag n (ev_timeout e).

(** A finalizing event has no timer. *)
Definition final_ok (e : event) : Prop :=
  has (ev_flags e) EVLIST_FINALIZING = true -> has (ev_flags e) EVLIST_TIMEOUT = false.

(** A pending timer has a normalised time. *)
Definition timer_norm (e : event) : Prop :=
  has (ev_flags e) EVLIST_TIMEOUT = true -> norm (ev_timeout e).

(** What the loop asserts before it runs a closure. *)
Definition closure_ok (e : event) : Prop :=
  match ev_closure e with
  | EV_CLOSURE_EVENT | EV_CLOSURE_EVENT_SIGNAL | EV_CLOSURE_EVENT_PERSIST =>
      has (ev_flags e) EVLIST_INIT = true
  | EV_CLOSURE_EVENT_FINALIZE | EV_CLOSURE_EVENT_FINALIZE_FREE =>
      has (ev_flags e) EVLIST_INIT = true /\ has (ev_flags e) EVLIST_FINALIZING = true
  | EV_CLOSURE_CB_FINALIZE => has (ev_flags e) EVLIST_FINALIZING = true
  | EV_CLOSURE_CB_SELF => True
  end.

Record event_inv (n : nat) (e : event) : Prop := {
  iv_persist : persist_ok n e;
  iv_final : final_ok e;
  iv_timer : timer_norm e;
  iv_closure : closure_ok e;
  iv_calls : 0 <= ev_ncalls e <= 1
}.

(** What an operation may do to an event: its identity and its kind stay, and
    so does the invariant above. *)
Record evolves (n : nat) (e e' : event) : Prop := {
  ev_same_init : has (ev_flags e') EVLIST_INIT = has (ev_flags e) EVLIST_INIT;
  ev_same_internal : has (ev_flags e') EVLIST_INTERNAL = has (ev_flags e) EVLIST_INTERNAL;
  ev_same_events : ev_events e' = ev_events e;
  ev_same_fd : ev_fd e' = ev_fd e;
  ev_not_persist : ev_closure e <> EV_CLOSURE_EVENT_PERSIST -> ev_closure e' <> EV_CLOSURE_EVENT_PERSIST;
  ev_inv : event_inv n e -> event_inv n e'
}.

#[export] Instance evolves_preorder n : PreOrder (evolves n).
Proof. split; [by intros e|]. intros e1 e2 e3 [] []. split; [congruence..|auto|auto]. Qed.

(** The operations below keep the set of events and only let them evolve. *)
Record kept (b b' : event_base) : Prop := {
  kept_queues : owners b' = owners b;
  kept_event : forall x e, evs b !! x = Some e ->
    exists e', evs b' !! x = Some e' /\ evolves (length (owners b)) e e';
  kept_dom : forall x, is_Some (evs b' !! x) -> is_Some (evs b !! x)
}.

#[export] Instance kept_preorder : PreOrder kept.
Proof.
  split.
  - intros b. split; [done| |done]. intros x e Hx. exists e. split; [done|reflexivity].
  - intros b1 b2 b3 [Q1 E1 D1] [Q2 E2 D2]. split; [congruence| |auto].
    intros x e Hx. destruct (E1 x e Hx) as (e1 & Hx1 & Hr1). destruct (E2 x e1 Hx1) as (e2 & Hx2 & Hr2).
    exists e2. split; [done|]. rewrite Q1 in Hr2. by etransitivity.
Qed.

Lemma kept_insert b b' x e e' :
  evs b !! x = Some e -> evs b' = <[x := e']> (evs b) -> owners b' = owners b ->
  evolves (length (owners b)) e e' -> kept b b'.
Proof.
  intros Hx Hev Hq Hr. split; [done|..]; intros y; rewrite Hev, lookup_insert; case_decide; subst.
  - intros ? ?. simplify_eq. eauto.
  - intros ey Hy. exists ey. split; [done|reflexivity].
  - eauto.
  - done.
Qed.

(** The invariant after a change of queue flags. *)
Lemma event_inv_flags n e e' :
  ev_closure e' = ev_closure e -> ev_timeout e' = ev_timeout e -> ev_io_timeout e' = ev_io_timeout e ->
  ev_ncalls e' = ev_ncalls e ->
  has (ev_flags e') EVLIST_INIT = has (ev_flags e) EVLIST_INIT ->
  has (ev_flags e') EVLIST_FINALIZING = has (ev_flags e) EVLIST_FINALIZING ->
  (has (ev_flags e') EVLIST_TIMEOUT = true -> has (ev_flags e) EVLIST_TIMEOUT = true) ->
  event_inv n e -> event_inv n e'.
Proof.
  intros H1 H2 H3 H4 H5 H6 H7 [I1 I2 I3 I4 I5].
  split; unfold persist_ok, final_ok, timer_norm, closure_ok in *; rewrite ?H1, ?H2, ?H3, ?H4, ?H5, ?H6;
    auto. destruct (has (ev_flags e') EVLIST_TIMEOUT); [|done]. intros Hf. specialize (I2 Hf).
  rewrite H7 in I2; done.
Qed.

Lemma evolves_del_flag n e f :
  f = EVLIST_TIMEOUT \/ f = EVLIST_INSERTED \/ f = EVLIST_ACTIVE \/ f = EVLIST_ACTIVE_LATER ->
  evolves n e (del_flag e f).
Proof.
  intros [->|[->|[->| ->]]]; split; try done; try (by flags); apply event_inv_flags; try done; by flags.
Qed.

Lemma evolves_add_flag n e f :
  f = EVLIST_INSERTED \/ f = EVLIST_ACTIVE \/ f = EVLIST_ACTIVE_LATER -> evolves n e (add_flag e f).
Proof.
  intros [->|[->| ->]]; split; try done; try (by flags); apply event_inv_flags; try done; by flags.
Qed.

Lemma evolves_res n e r : evolves n e (set_ev_res e r).
Proof. split; try done. by apply event_inv_flags. Qed.

(** An event that has just been finalized. *)
Lemma evolves_final n e e' :
  has (ev_flags e') EVLIST_INIT = has (ev_flags e) EVLIST_INIT ->
  has (ev_flags e') EVLIST_INTERNAL = has (ev_flags e) EVLIST_INTERNAL ->
  ev_events e' = ev_events e -> ev_fd e' = ev_fd e ->
  has (ev_flags e') EVLIST_FINALIZING = true ->
  (event_inv n e -> has (ev_flags e') EVLIST_TIMEOUT = false /\ 0 <= ev_ncalls e' <= 1) ->
  ev_closure e' = EV_CLOSURE_CB_FINALIZE \/
    has (ev_flags e) EVLIST_INIT = true /\
    (ev_closure e' = EV_CLOSURE_EVENT_FINALIZE \/ ev_closure e' = EV_CLOSURE_EVENT_FINALIZE_FREE) ->
  evolves n e e'.
Proof.
  intros H1 H2 H3 H4 H5 H6 Hc. split; auto.
  - intros _ Hp. rewrite Hp in Hc. naive_solver.
  - intros Hi. destruct (H6 Hi) as [Ht Hn]. split; [|by intros _|intros ?; congruence| |done].
    + intros Hp. rewrite Hp in Hc. naive_solver.
    + unfold closure_ok. rewrite H1, H5. destruct Hc as [->|[-> [->| ->]]]; auto.
Qed.

Lemma evolves_unqueued n e : evolves n e (unqueued e).
Proof. unfold unqueued. do 4 (etransitivity; [|apply evolves_del_flag; auto]). reflexivity. Qed.

#[export] Hint Resolve evolves_unqueued : mtc.

(** ** The queues' own events *)

(** [z] is the own event of a common-timeout queue. *)
Definition owns_queue (b : event_base) (z : Z) : Prop := exists d, (d, z) ∈ owners b.

Definition own_ok (b : event_base) : Prop := forall z, owns_queue b z ->
  exists e, evs b !! z = Some e /\ has (ev_flags e) EVLIST_INIT = true /\
    ev_closure e <> EV_CLOSURE_EVENT_PERSIST.

Lemma kept_own b b' : kept b b' -> own_ok b -> own_ok b'.
Proof.
  intros [Hq He _] Ho z Hz. unfold owns_queue in Hz. rewrite Hq in Hz.
  destruct (Ho z Hz) as (e & Hx & Hi & Hc). destruct (He z e Hx) as (e' & Hx' & []). exists e'.
  split; [done|]. split; [congruence|auto].
Qed.

Lemma owns_lookup b i c :
  common_timeout_queues b !! i = Some c -> owns_queue b (ctl_timeout_event c).
Proof.
  intros Hc. exists (ctl_duration c). apply list_elem_of_fmap. exists c. split; [done|].
  by eapply list_elem_of_lookup_2.
Qed.

Definition inv_ok (b : event_base) : Prop :=
  map_Forall (fun _ => event_inv (length (owners b))) (evs b).

Lemma kept_inv b b' : kept b b' -> inv_ok b -> inv_ok b'.
Proof.
  intros [Hq He Hd] Hp x e' Hx'. destruct (Hd x) as [e Hx]; [eauto|].
  destruct (He x e Hx) as (e2 & Hx2 & Hev). simplify_eq. rewrite Hq. apply Hev.
  by apply (Hp x).
Qed.
