(* ===== verification/EventBaseAdd.v ===== *)
(** * The event base: adding an event

    [event_add_nolock_] of [EventBase] keeps the invariant, does not crash, and
    on success leaves the event waiting and its timer pending at the time asked
    for; a call that fails changes no event. *)

From S2P Require Import Prelude MinHeap EventBase EventBaseInv EventBaseOps EventBaseKept.

Lemma gettime_spec exact en b :
  eb_wf exact b -> env_ok exact en ->
  exists now b', gettime en b = (now, b') /\ eb_wf exact b' /\ same_queues b b' /\ mild b b' /\
    0 <= tv_usec now < 1000000.
Proof.
  intros Hw He. unfold gettime. case_test.
  { exists (tv_cache b), b. split; [done|]. split; [done|]. split; [repeat split|].
    split; [done|]. apply Hw. }
  case_test; eexists (clock en), _; (split; [done|]).
  - split; [apply (same_queues_wf exact b); [done|repeat split|apply Hw]|].
    split; [repeat split|]. split; [repeat split|]. apply He.
  - split; [done|]. split; [repeat split|]. split; [done|]. apply He.
Qed.

Lemma timeradd_usec x y :
  0 <= tv_usec x < 1000000 -> 0 <= tv_usec y <= 0xfffff -> 0 <= tv_usec (timeradd x y) <= 0xfffff.
Proof.
  intros Hx Hy. unfold timeradd. rewrite (i64_small (tv_usec x + tv_usec y)) by lia.
  case_test; zb; simpl; lia.
Qed.

Lemma hi_low tv : 0 <= tv_usec tv <= 0xfffff -> hi tv = 0.
Proof. intros H. pose proof (hi_range tv 0 ltac:(lia) ltac:(simpl; lia)). simpl in *. lia. Qed.

Lemma mask_usec_range tv : 0 <= tv_usec (mask_usec tv) <= 0xfffff.
Proof.
  simpl. change MICROSECONDS_MASK with (Z.ones 20). rewrite Z.land_ones by lia.
  pose proof (Z.mod_pos_bound (tv_usec tv) (2 ^ 20) ltac:(lia)). lia.
Qed.

Lemma hi_tagged s u tv : 0 <= u <= 0xfffff ->
  hi (mkTimeval s (Z.lor u (Z.land (tv_usec tv) (Z.lnot MICROSECONDS_MASK)))) = hi tv.
Proof.
  intros Hu. unfold hi; simpl. rewrite Z.shiftr_lor.
  replace (Z.shiftr u 20) with 0 by (symmetry; apply (hi_low (mkTimeval 0 u)); done).
  rewrite Z.lor_0_l. apply Z.bits_inj'. intros n Hn. rewrite !Z.shiftr_spec, Z.land_spec by done.
  rewrite Z.lnot_spec by lia. change MICROSECONDS_MASK with (Z.ones 20).
  rewrite Z.ones_spec_high by lia. by rewrite andb_true_r.
Qed.

Lemma is_common_length tv b b' :
  length (common_timeout_queues b') = length (common_timeout_queues b) ->
  is_common_timeout tv b' = is_common_timeout tv b.
Proof. intros H. unfold is_common_timeout, n_common_timeouts, zlen. by rewrite H. Qed.

Lemma new_timeout_ok b b0 now tv (absolute : bool) :
  length (common_timeout_queues b) = length (common_timeout_queues b0) ->
  0 <= tv_usec now < 1000000 ->
  (if absolute then insertable b0 tv else tv_ok b0 tv) ->
  insertable b (new_timeout b now tv absolute).
Proof.
  intros Hl Hnow Hok. unfold new_timeout, insertable. rewrite Hl. destruct absolute; [exact Hok|].
  destruct Hok as [Hu Hc]. rewrite (is_common_length tv b0 b Hl).
  destruct (is_common_timeout tv b0) eqn:E.
  - right. destruct (is_common_inv tv b0 Hu E) as (i & Hh & Hi). exists i. split; [done|].
    rewrite hi_tagged; [done|]. apply timeradd_usec; [done|]. apply mask_usec_range.
  - left. destruct Hc as [?|Hc]; [done|]. apply hi_low. apply timeradd_usec; [done|lia].
Qed.

(** Preparing the timer part of [event_add]. *)
Definition with_interval (e : event) (tv : timeval) (absolute : bool) : event :=
  if bool_decide (ev_closure e = EV_CLOSURE_EVENT_PERSIST) && negb absolute
  then set_ev_io_timeout e tv else e.

Definition retimed_active (e : event) : bool :=
  has (ev_flags e) EVLIST_ACTIVE && has (ev_res e) EV_TIMEOUT.

Definition unqueue_result (e : event) (tv : timeval) (absolute : bool) : event :=
  let e1 := del_flag (with_interval e tv absolute) EVLIST_TIMEOUT in
  if retimed_active e then del_flag e1 EVLIST_ACTIVE else e1.

Lemma add_unqueue_wf exact b x e tv absolute :
  eb_wf exact b -> evs b !! x = Some e ->
  exists b', add_unqueue b x tv absolute = Done b' /\ eb_wf exact b' /\ mild b b' /\ slot_freed e b b' /\
    evs b' = <[x := unqueue_result e tv absolute]> (evs b).
Proof.
  intros Hw Hx. destruct (wf_event _ _ Hw x e Hx) as [Hall Hnc].
  unfold add_unqueue. rewrite (get_done b x e Hx). cbn [mbind outcome_bind].
  set (b0 := if bool_decide _ && _ then _ else b). set (e0 := with_interval e tv absolute).
  assert (H0 : eb_wf exact b0 /\ evs b0 = <[x := e0]> (evs b) /\ mild b b0 /\ timeheap b0 = timeheap b).
  { unfold b0, e0, with_interval. destruct (bool_decide _ && _).
    - split; [by eapply put_wf|]. done.
    - split; [done|]. by rewrite insert_id. }
  destruct H0 as (Hw0 & Hev0 & Hm0 & Hh0).
  assert (Hx0 : evs b0 !! x = Some e0) by (by rewrite Hev0, lookup_insert_eq).
  assert (Hfl : ev_flags e0 = ev_flags e) by (unfold e0, with_interval; by destruct (_ && _)).
  assert (Hti : ev_timeout e0 = ev_timeout e) by (unfold e0, with_interval; by destruct (_ && _)).
  rewrite <-Hfl. destruct (untimed_wf _ _ _ _ Hw0 Hx0) as (b1 & -> & Hw1 & Hon1 & Hf1 & Hev1).
  assert (Hx1 : evs b1 !! x = Some (del_flag e0 EVLIST_TIMEOUT)) by (by rewrite Hev1, lookup_insert_eq).
  assert (Hf : slot_freed e b b1) by (unfold slot_freed in *; by rewrite Hfl, Hti, Hh0 in Hf1).
  cbn [mbind outcome_bind]. unfold unqueue_result, retimed_active. rewrite <-Hfl. fold e0.
  destruct (has (ev_flags e0) EVLIST_ACTIVE && has (ev_res e) EV_TIMEOUT) eqn:Ea.
  - apply andb_true_iff in Ea as [Ea _].
    replace (if has (ev_events e) EV_SIGNAL then abort_signal_loop b1 e else Done b1) with (Done b1)
      by (destruct (has (ev_events e) EV_SIGNAL); [by rewrite abort_none|done]). cbn [mbind outcome_bind].
    destruct (remove_active_wf _ _ _ _ Hw1 Hx1) as (b2 & -> & Hw2 & Hev2 & Hon2); [by flags|].
    exists b2. split; [done|]. split; [done|].
    split; [etransitivity; [exact Hm0|]; etransitivity; eauto with mtc|].
    split; [unfold slot_freed in *; by destruct Hon2 as (-> & _)|].
    by rewrite Hev2, Hev1, Hev0, !insert_insert_eq.
  - exists b1. split; [done|]. split; [done|]. split; [etransitivity; eauto with mtc|].
    split; [done|]. by rewrite Hev1, Hev0, insert_insert_eq.
Qed.

Definition inserted_event (e : event) : event :=
  if must_insert e then add_flag e EVLIST_INSERTED else e.

(** The event after it was added with a timeout. *)
Definition added_event (b : event_base) (now : timeval) (e : event) (tv : timeval) (absolute : bool) : event :=
  add_flag (set_ev_timeout (unqueue_result (inserted_event e) tv absolute) (new_timeout b now tv absolute))
    EVLIST_TIMEOUT.

(** Memory runs out harmlessly unless the event is in a common-timeout queue
    or is being put in one. *)
Definition mem_safe (en : env) (b : event_base) (e : event) (tv : option timeval) : Prop :=
  heap_mem en \/
  (has (ev_flags e) EVLIST_TIMEOUT = true -> hi (ev_timeout e) = 0) /\
  match tv with Some tv => is_common_timeout tv b = false | None => True end.

Definition tv_arg_ok (b : event_base) (tv : option timeval) (absolute : bool) : Prop :=
  match tv with
  | Some tv => if absolute then insertable b tv else tv_ok b tv
  | None => True
  end.

(** The events after a call: [m], except that with a common timeout the
    queue's own event may have been armed. *)
Definition armed_only (b : event_base) (tv : timeval) (m m' : gmap Z event) : Prop :=
  m' = m \/
  is_common_timeout tv b = true /\ exists z, owns_queue b z /\ forall y, y <> z -> m' !! y = m !! y.

(** What a successful call has done to the events. *)
Definition add_effect (en : env) (b b' : event_base) (x : Z) (e : event) (tv : option timeval)
    (absolute : bool) : Prop :=
  match tv with
  | None => evs b' = <[x := inserted_event e]> (evs b)
  | Some tv => armed_only b tv (<[x := added_event b (gettime en b).1 e tv absolute]> (evs b)) (evs b')
  end.

Lemma reserve_part exact en b e tv :
  eb_wf exact b ->
  exists r b', add_reserve en b e tv = (r, b') /\ eb_wf exact b' /\ mild b b' /\ evs b' = evs b /\
    tv_cache b' = tv_cache b /\ hn (timeheap b') = hn (timeheap b) /\
    (forall en', gettime en' b' = ((gettime en' b).1, (gettime en' b').2)) /\
    (r = -1 \/ r = 0 /\ (tv = None \/ has (ev_flags e) EVLIST_TIMEOUT = true \/
                         hn (timeheap b') + 1 <= ha (timeheap b'))).
Proof.
  intros Hw. unfold add_reserve. destruct tv as [tv|].
  2: { exists 0, b. repeat (split; [done|]). split; [|auto]. intros en'. by destruct (gettime en' b). }
  destruct (has (ev_flags e) EVLIST_TIMEOUT) eqn:Ht.
  { exists 0, b. repeat (split; [done|]). split; [|auto]. intros en'. by destruct (gettime en' b). }
  destruct (to_heap _ _ _ _ (wf_timers _ _ Hw)) as (v & Hv & _).
  pose proof (ra_bound _ _ _ _ (hw_rep _ _ _ _ Hv)) as Hb. rewrite <-(hw_n _ _ _ _ Hv) in Hb.
  pose proof (zlen_nonneg v) as H0. rewrite <-(hw_n _ _ _ _ Hv) in H0. unfold INT_MAX in Hb.
  rewrite u32_small by lia.
  destruct (reserve_wf exact en b (1 + hn (timeheap b)) Hw) as (r & h & -> & Hw' & Hn & Hc); [lia|].
  exists r, (set_timeheap b h). split; [done|]. split; [done|]. split; [repeat split|].
  split; [done|]. split; [done|]. split; [done|]. split.
  - intros en'. unfold gettime. simpl. repeat case_test; done.
  - destruct Hc as [[-> Hc]|(-> & _)]; [right|by left]. split; [done|]. right. right. simpl. lia.
Qed.

Lemma gettime_cached en b b' :
  tv_cache b' = tv_cache b -> (gettime en b').1 = (gettime en b).1.
Proof. intros Hc. unfold gettime. rewrite Hc. repeat case_test; done. Qed.

Lemma heap_capacity exact b : eb_wf exact b -> hn (timeheap b) <= ha (timeheap b).
Proof.
  intros Hw. destruct (to_heap _ _ _ _ (wf_timers _ _ Hw)) as (v & Hv & _).
  rewrite (hw_n _ _ _ _ Hv), (hw_a _ _ _ _ Hv). pose proof (ra_len _ _ _ _ (hw_rep _ _ _ _ Hv)).
  unfold zlen. lia.
Qed.

Lemma inserted_flags e k :
  k = EVLIST_TIMEOUT \/ k = EVLIST_INIT \/ k = EVLIST_FINALIZING ->
  has (ev_flags (inserted_event e)) k = has (ev_flags e) k.
Proof. intros [->|[->| ->]]; unfold inserted_event; destruct (must_insert e); (done || by flags). Qed.

Lemma inserted_timeout e : ev_timeout (inserted_event e) = ev_timeout e.
Proof. unfold inserted_event. by destruct (must_insert e). Qed.

Lemma unqueue_flags e tv absolute :
  has (ev_flags (unqueue_result e tv absolute)) EVLIST_TIMEOUT = false /\
  has (ev_flags (unqueue_result e tv absolute)) EVLIST_INIT = has (ev_flags e) EVLIST_INIT.
Proof.
  assert (H : ev_flags (with_interval e tv absolute) = ev_flags e)
    by (unfold with_interval; by destruct (_ && _)).
  unfold unqueue_result. destruct (retimed_active e); flags; by rewrite H.
Qed.

(** What the nested call has to do. *)
Definition sched_ok (exact : bool) (sched : event_base -> Z -> timeval -> outcome (Z * event_base)) : Prop :=
  forall b i c tv, eb_wf exact b -> own_ok b -> common_timeout_queues b !! i = Some c ->
  hi tv = 0 -> norm tv ->
  exists r b', sched b (ctl_timeout_event c) tv = Done (r, b') /\ eb_wf exact b' /\ mild b b' /\
    kept b b' /\ forall y, y <> ctl_timeout_event c -> evs b' !! y = evs b !! y.

Definition timed_event (b : event_base) (now : timeval) (e : event) (tv : timeval) (absolute : bool) : event :=
  add_flag (set_ev_timeout (unqueue_result e tv absolute) (new_timeout b now tv absolute)) EVLIST_TIMEOUT.

Lemma new_timeout_length b b' now tv absolute :
  length (common_timeout_queues b') = length (common_timeout_queues b) ->
  new_timeout b' now tv absolute = new_timeout b now tv absolute.
Proof. intros Hl. unfold new_timeout. by rewrite (is_common_length tv b b' Hl). Qed.

Lemma set_timer_wf exact en b x e tv absolute :
  eb_wf exact b -> env_ok exact en -> evs b !! x = Some e -> has (ev_flags e) EVLIST_INIT = true ->
  tv_arg_ok b (Some tv) absolute ->
  heap_mem en \/ hn (timeheap b) + 1 <= ha (timeheap b) \/
    has (ev_flags e) EVLIST_TIMEOUT && (hi (ev_timeout e) =? 0) = true ->
  exists b', set_timer en b x tv absolute = Done b' /\ eb_wf exact b' /\ mild b b' /\
    evs b' = <[x := timed_event b (gettime en b).1 e tv absolute]> (evs b) /\
    insertable b (new_timeout b (gettime en b).1 tv absolute).
Proof.
  intros Hw He Hx Hini Harg Hcap. unfold set_timer.
  destruct (add_unqueue_wf exact b x e tv absolute Hw Hx) as (b1 & -> & Hw1 & Hm1 & Hf1 & Hev1).
  cbn [mbind outcome_bind]. set (e1 := unqueue_result e tv absolute) in *.
  destruct (gettime_spec exact en b1 Hw1 He) as (now & b2 & Hgt & Hw2 & Hsq & Hm2 & Hnow).
  assert (Hn : now = (gettime en b).1).
  { rewrite <-(gettime_cached en b b1) by apply Hm1. by rewrite Hgt. }
  rewrite Hgt. pose proof Hsq as (Hev2 & Hth2 & _).
  assert (Hx2 : evs b2 !! x = Some e1) by (by rewrite Hev2, Hev1, lookup_insert_eq).
  rewrite (get_done b2 x e1 Hx2). cbn [mbind outcome_bind].
  assert (Hl2 : length (common_timeout_queues b2) = length (common_timeout_queues b)).
  { destruct Hm1 as (_ & _ & Hl1 & _), Hm2 as (_ & _ & Hl2 & _). apply owners_length. congruence. }
  rewrite (new_timeout_length b b2 now tv absolute Hl2).
  set (e2 := set_ev_timeout e1 (new_timeout b now tv absolute)).
  destruct (unqueue_flags e tv absolute) as [Hu1 Hu2]. fold e1 in Hu1, Hu2.
  pose proof (set_timeout_wf exact b2 x e1 (new_timeout b now tv absolute) Hw2 Hx2 Hu1) as Hw3.
  assert (Hx3 : evs (put b2 x e2) !! x = Some e2) by (simpl; by rewrite lookup_insert_eq).
  assert (Hins : insertable b (new_timeout b now tv absolute)) by (by apply (new_timeout_ok b b)).
  destruct (insert_timeout_wf exact en (put b2 x e2) x e2 Hw3 Hx3) as (b4 & -> & Hw4 & Hev4 & Hon4).
  { change (has (ev_flags e1) EVLIST_INIT = true). by rewrite Hu2. } { done. }
  { unfold insertable in *. simpl. by rewrite Hl2. }
  { simpl. rewrite Hth2. pose proof (heap_capacity _ _ Hw). unfold slot_freed in Hf1.
    destruct Hcap as [?|[Hcap|Hcap]]; [by left|right..].
    - destruct (_ && _); [lia|by rewrite Hf1].
    - rewrite Hcap in Hf1. lia. }
  exists b4. split; [done|]. split; [done|]. rewrite <-Hn. split; [|split; [|done]].
  - etransitivity; [exact Hm1|]. etransitivity; [exact Hm2|]. etransitivity; [|by apply mild_timers].
    repeat split.
  - rewrite Hev4. simpl. by rewrite Hev2, Hev1, !insert_insert_eq.
Qed.

(** Normalised times stay normalised, with or without queue bits. *)
Lemma mask_low tv : 0 <= tv_usec tv <= 0xfffff -> mask_usec tv = tv.
Proof.
  intros H. destruct tv as [s u]. unfold mask_usec. simpl in *. f_equal.
  change MICROSECONDS_MASK with (Z.ones 20). rewrite Z.land_ones by lia. apply Z.mod_small. lia.
Qed.

Lemma mask_mask tv : mask_usec (mask_usec tv) = mask_usec tv.
Proof. apply mask_low, mask_usec_range. Qed.

Lemma norm_mask tv : norm tv -> norm (mask_usec tv).
Proof. unfold norm. by rewrite mask_mask. Qed.

Lemma norm_low tv : 0 <= tv_usec tv < 1000000 -> - 2 ^ 63 <= tv_sec tv < 2 ^ 63 -> norm tv.
Proof. intros H. unfold norm. rewrite mask_low by lia. done. Qed.

Lemma mask_tagged s u tv : 0 <= u <= 0xfffff ->
  mask_usec (mkTimeval s (Z.lor u (Z.land (tv_usec tv) (Z.lnot MICROSECONDS_MASK)))) = mkTimeval s u.
Proof.
  intros Hu. rewrite <-(mask_low (mkTimeval s u)) by done. unfold mask_usec. simpl. f_equal.
  rewrite Z.land_lor_distr_l, <-Z.land_assoc, (Z.land_comm (Z.lnot _)), Z.land_lnot_diag.
  by rewrite Z.land_0_r, Z.lor_0_r.
Qed.

Lemma timeradd_norm x y :
  0 <= tv_usec x < 1000000 -> 0 <= tv_usec y < 1000000 -> 0 <= tv_usec (timeradd x y) < 1000000.
Proof.
  intros Hx Hy. unfold timeradd. rewrite (i64_small (tv_usec x + tv_usec y)) by lia.
  case_test; zb; simpl; lia.
Qed.

Lemma i64_range z : - 2 ^ 63 <= i64 z < 2 ^ 63.
Proof. unfold i64. pose proof (Z.mod_pos_bound (z + 2 ^ 63) (2 ^ 64) ltac:(lia)). lia. Qed.

Lemma timeradd_sec x y : - 2 ^ 63 <= tv_sec (timeradd x y) < 2 ^ 63.
Proof. unfold timeradd. case_test; apply i64_range. Qed.

Lemma new_timeout_norm b now tv (absolute : bool) :
  0 <= tv_usec now < 1000000 -> norm tv -> tv_arg_ok b (Some tv) absolute ->
  norm (new_timeout b now tv absolute).
Proof.
  intros Hnow Hn Harg. unfold new_timeout. destruct absolute; [done|]. destruct Harg as [Hu Hc].
  destruct (is_common_timeout tv b) eqn:Hcom.
  - destruct Hn as [Hn _]. pose proof (timeradd_norm now (mask_usec tv) Hnow Hn).
    unfold norm. rewrite mask_tagged by lia. split; [done|apply timeradd_sec].
  - destruct Hc as [?|Hc]; [done|]. apply norm_low; [apply timeradd_norm; [done|lia]|apply timeradd_sec].
Qed.

(** The bits above the microseconds are those of the interval. *)
Lemma new_timeout_tag b now tv (absolute : bool) :
  0 <= tv_usec now < 1000000 -> norm tv -> tv_arg_ok b (Some tv) absolute ->
  hi (new_timeout b now tv absolute) = hi tv.
Proof.
  intros Hnow Hn Harg. unfold new_timeout. destruct absolute; [done|]. destruct Harg as [Hu Hc].
  destruct (is_common_timeout tv b) eqn:Hcom.
  - destruct Hn as [Hn _]. pose proof (timeradd_norm now (mask_usec tv) Hnow Hn).
    rewrite hi_tagged by lia. done.
  - destruct Hc as [?|Hc]; [done|]. pose proof (timeradd_norm now tv Hnow ltac:(lia)).
    by rewrite !hi_low by lia.
Qed.

(** What [event_persist_closure] promises when it asks for an absolute time. *)
Definition same_queue_as_interval (e : event) (tv : timeval) (absolute : bool) : Prop :=
  absolute = true -> ev_closure e = EV_CLOSURE_EVENT_PERSIST -> ev_io_timeout e <> tv0 ->
  norm (ev_io_timeout e) /\ hi (ev_io_timeout e) = hi tv.

Definition arg_norm (e : event) (tv : option timeval) (absolute : bool) : Prop :=
  match tv with Some tv => norm tv /\ same_queue_as_interval e tv absolute | None => True end.

Lemma unqueue_fields e tv absolute :
  ev_closure (unqueue_result e tv absolute) = ev_closure e /\
  ev_events (unqueue_result e tv absolute) = ev_events e /\
  ev_fd (unqueue_result e tv absolute) = ev_fd e /\
  ev_io_timeout (unqueue_result e tv absolute) =
    (if bool_decide (ev_closure e = EV_CLOSURE_EVENT_PERSIST) && negb absolute then tv else ev_io_timeout e) /\
  has (ev_flags (unqueue_result e tv absolute)) EVLIST_INTERNAL = has (ev_flags e) EVLIST_INTERNAL /\
  has (ev_flags (unqueue_result e tv absolute)) EVLIST_FINALIZING = has (ev_flags e) EVLIST_FINALIZING /\
  ev_ncalls (unqueue_result e tv absolute) = ev_ncalls e.
Proof.
  unfold unqueue_result, with_interval.
  destruct (bool_decide _ && _), (retimed_active e); repeat split; (done || by flags).
Qed.

Lemma evolves_timed exact en b e tv (absolute : bool) :
  eb_wf exact b -> env_ok exact en -> norm tv -> tv_arg_ok b (Some tv) absolute ->
  same_queue_as_interval e tv absolute -> has (ev_flags e) EVLIST_FINALIZING = false ->
  insertable b (new_timeout b (gettime en b).1 tv absolute) ->
  evolves (length (owners b)) e (timed_event b (gettime en b).1 e tv absolute).
Proof.
  intros Hw He Hn Harg Hsame Hfin Hins. set (now := (gettime en b).1) in *.
  assert (Hnow : 0 <= tv_usec now < 1000000).
  { unfold now. by destruct (gettime_spec exact en b Hw He) as (? & ? & -> & _ & _ & _ & ?). }
  destruct (unqueue_fields e tv absolute) as (Hc & Hev & Hfd & Hio & Hint & Hfn & Hnc).
  destruct (unqueue_flags e tv absolute) as [_ Hini]. unfold timed_event.
  pose proof (new_timeout_norm b now tv absolute Hnow Hn Harg) as Hnn.
  pose proof (new_timeout_tag b now tv absolute Hnow Hn Harg) as Htag.
  split; [rewrite <-Hini; by flags|rewrite <-Hint; by flags|done|done|simpl; by rewrite Hc|].
  intros [I1 I2 I3 I4 I5]. split.
  - unfold persist_ok in *. simpl. rewrite Hc, Hio. intros Hpc.
    rewrite bool_decide_true by done. simpl. intros Hnz.
    assert (Htt : timer_tag (length (owners b)) (new_timeout b now tv absolute)).
    { unfold timer_tag, owners. rewrite length_fmap. exact Hins. }
    destruct absolute; simpl in *.
    + destruct (Hsame eq_refl Hpc Hnz) as [Hni Hhi]. split; [done|]. split; [done|]. split; [|done].
      congruence.
    + split; [done|]. split; [done|]. split; [congruence|done].
  - intros Hf. flags. rewrite <-Hfin, <-Hfn, <-Hf. by flags.
  - by intros _.
  - set (e' := add_flag _ _).
    assert (HI : has (ev_flags e') EVLIST_INIT = has (ev_flags e) EVLIST_INIT)
      by (rewrite <-Hini; unfold e'; by flags).
    assert (HF : has (ev_flags e') EVLIST_FINALIZING = has (ev_flags e) EVLIST_FINALIZING)
      by (rewrite <-Hfn; unfold e'; by flags).
    unfold closure_ok in *. rewrite HI, HF. change (ev_closure e') with (ev_closure (unqueue_result e tv absolute)).
    by rewrite Hc.
  - simpl. by rewrite Hnc.
Qed.

(** At most the own event of a queue was armed. *)
Definition armed_from (b b' : event_base) : Prop :=
  evs b' = evs b \/ exists z, owns_queue b z /\ forall y, y <> z -> evs b' !! y = evs b !! y.

Lemma arm_queue_wf exact sched b x e i :
  eb_wf exact b -> own_ok b -> evs b !! x = Some e -> hi (ev_timeout e) = 0x500 + Z.of_nat i ->
  norm (ev_timeout e) -> (i < length (common_timeout_queues b))%nat -> sched_ok exact sched ->
  exists b', arm_queue sched b x = Done b' /\ eb_wf exact b' /\ mild b b' /\ kept b b' /\
    armed_from b b'.
Proof.
  intros Hw Ho Hx Hh Hn Hi Hs. unfold arm_queue. rewrite (get_done b x e Hx). cbn [mbind outcome_bind].
  destruct (is_common_hi (ev_timeout e) b i Hh Hi) as [_ Hidx]; [apply Hw|].
  destruct (lookup_lt_is_Some_2 _ _ Hi) as [c Hc].
  assert (Hd : get_common_timeout_list b (ev_timeout e) = Done c)
    by (unfold get_common_timeout_list; by rewrite Hidx, Hc).
  rewrite Hd. cbn [mbind outcome_bind].
  assert (Hid : exists b', Done b = Done b' /\ eb_wf exact b' /\ mild b b' /\ kept b b' /\ armed_from b b').
  { exists b. split; [done|]. split; [done|]. split; [done|]. split; [reflexivity|]. by left. }
  destruct (ctl_events c) as [|y l]; [done|]. destruct (y =? x); [|done].
  destruct (Hs b i c (mask_usec (ev_timeout e)) Hw Ho Hc) as (r & b' & -> & Hw' & Hm & Hk & Hev).
  { apply hi_low, mask_usec_range. } { by apply norm_mask. }
  simpl. exists b'. split; [done|]. split; [done|]. split; [done|]. split; [done|]. right.
  exists (ctl_timeout_event c). split; [by eapply owns_lookup|done].
Qed.

(** The queue bits of a timeout survive being made absolute. *)
Lemma new_timeout_hi exact en b tv (absolute : bool) :
  eb_wf exact b -> env_ok exact en -> tv_arg_ok b (Some tv) absolute -> is_common_timeout tv b = true ->
  exists i, (i < length (common_timeout_queues b))%nat /\
    hi (new_timeout b (gettime en b).1 tv absolute) = 0x500 + Z.of_nat i.
Proof.
  intros Hw He Harg Hcom. destruct absolute; simpl in Harg.
  - destruct Harg as [Hh|(i & Hi & Hh)]; [by rewrite (not_common_low tv b Hh) in Hcom|]. eauto.
  - destruct Harg as [Hu _]. destruct (is_common_inv tv b Hu Hcom) as (i & Hh & Hi). exists i.
    split; [done|]. unfold new_timeout. rewrite Hcom, hi_tagged; [done|].
    apply timeradd_usec; [|apply mask_usec_range].
    by destruct (gettime_spec exact en b Hw He) as (now & ? & -> & _ & _ & _ & Hnow).
Qed.

Lemma add_timer_wf exact en sched b x e tv absolute :
  eb_wf exact b -> own_ok b -> env_ok exact en -> evs b !! x = Some e ->
  has (ev_flags e) EVLIST_INIT = true -> has (ev_flags e) EVLIST_FINALIZING = false ->
  tv_arg_ok b (Some tv) absolute -> arg_norm e (Some tv) absolute ->
  heap_mem en \/ hn (timeheap b) + 1 <= ha (timeheap b) \/
    has (ev_flags e) EVLIST_TIMEOUT && (hi (ev_timeout e) =? 0) = true ->
  (is_common_timeout tv b = true -> sched_ok exact sched) ->
  exists b', add_timer sched en b x tv absolute = Done b' /\ eb_wf exact b' /\ mild b b' /\ kept b b' /\
    armed_only b tv (<[x := timed_event b (gettime en b).1 e tv absolute]> (evs b)) (evs b').
Proof.
  intros Hw Ho He Hx Hini Hfin Harg [Hn Hsame] Hcap Hs. unfold add_timer, armed_only.
  destruct (set_timer_wf exact en b x e tv absolute Hw He Hx Hini Harg Hcap)
    as (b1 & -> & Hw1 & Hm1 & Hev1 & Hins). cbn [mbind outcome_bind].
  pose proof Hm1 as (_ & _ & Hown & _). pose proof (owners_length _ _ Hown) as Hl.
  pose proof (evolves_timed exact en b e tv absolute Hw He Hn Harg Hsame Hfin Hins) as Hevo.
  pose proof (kept_insert b b1 x e _ Hx Hev1 Hown Hevo) as Hk1.
  destruct (is_common_timeout tv b) eqn:Hcom; [|exists b1; eauto 10].
  destruct (new_timeout_hi exact en b tv absolute Hw He Harg Hcom) as (i & Hi & Hh).
  destruct (arm_queue_wf exact sched b1 x (timed_event b (gettime en b).1 e tv absolute) i Hw1)
    as (b' & Hd & Hw' & Hm' & Hk' & Hev'); [by eapply kept_own| |done| |by rewrite Hl|by apply Hs|].
  - by rewrite Hev1, lookup_insert_eq.
  - apply new_timeout_norm; [|done|done].
    by destruct (gettime_spec exact en b Hw He) as (? & ? & -> & _ & _ & _ & ?).
  - exists b'. split; [done|]. split; [done|]. split; [by etransitivity|]. split; [by etransitivity|].
    rewrite <-Hev1. destruct Hev' as [?|(z & Hz & Hev')]; [by left|right]. split; [done|]. exists z.
    split; [|done]. unfold owns_queue in *. by rewrite Hown in Hz.
Qed.

(** Reserving and registering only touch fields the later steps ignore. *)
Lemma mild_common tv b b' : mild b b' -> is_common_timeout tv b' = is_common_timeout tv b.
Proof. intros (_ & _ & H & _). apply is_common_length. by apply owners_length. Qed.

Lemma mild_arg b b' tv absolute : mild b b' -> tv_arg_ok b tv absolute -> tv_arg_ok b' tv absolute.
Proof.
  intros Hm. pose proof Hm as (_ & _ & H & _). apply owners_length in H. destruct tv as [tv|]; [|done].
  simpl. unfold insertable, tv_ok. rewrite H, (mild_common tv _ _ Hm). done.
Qed.

Lemma mild_armed b b' tv m m' : mild b b' -> armed_only b' tv m m' -> armed_only b tv m m'.
Proof.
  intros Hm. unfold armed_only, owns_queue. rewrite (mild_common tv _ _ Hm).
  destruct Hm as (_ & _ & -> & _). done.
Qed.

Lemma mild_timed b b' en e tv absolute : mild b b' ->
  timed_event b' (gettime en b').1 e tv absolute = timed_event b (gettime en b).1 e tv absolute.
Proof.
  intros Hm. pose proof Hm as (Hc & _ & Hl & _). unfold timed_event.
  by rewrite (gettime_cached en b b' Hc), (new_timeout_length b b') by (by apply owners_length).
Qed.

Lemma kept_same b b' : evs b' = evs b -> mild b b' -> kept b b'.
Proof.
  intros He (_ & _ & Hq & _). split; [done| |by rewrite He]. intros x e Hx. exists e.
  split; [by rewrite He|reflexivity].
Qed.

Lemma evolves_inserted n e : evolves n e (inserted_event e).
Proof. unfold inserted_event. destruct (must_insert e); [apply evolves_add_flag; auto|reflexivity]. Qed.

Lemma arg_norm_inserted e tv absolute : arg_norm e tv absolute -> arg_norm (inserted_event e) tv absolute.
Proof.
  destruct tv as [tv|]; [|done]. unfold arg_norm, same_queue_as_interval, inserted_event.
  by destruct (must_insert e).
Qed.

Lemma event_add_body_wf exact en sched b x e tv absolute :
  eb_wf exact b -> own_ok b -> env_ok exact en -> evs b !! x = Some e ->
  has (ev_flags e) EVLIST_INIT = true ->
  tv_arg_ok b tv absolute -> arg_norm e tv absolute -> mem_safe en b e tv ->
  (forall tv', tv = Some tv' -> is_common_timeout tv' b = true -> sched_ok exact sched) ->
  exists r b', event_add_body sched en b x tv absolute = Done (r, b') /\ eb_wf exact b' /\ mild b b' /\
    kept b b' /\
    (r = -1 /\ evs b' = evs b \/
     r = 0 /\ has (ev_flags e) EVLIST_FINALIZING = false /\ add_effect en b b' x e tv absolute).
Proof.
  intros Hw Ho He Hx Hini Harg Hnorm Hmem Hs. unfold event_add_body. rewrite (get_done b x e Hx).
  destruct (wf_event _ _ Hw x e Hx) as [Hall _]. cbn [mbind outcome_bind]. rewrite Hall.
  cbn [negb assert_c mbind outcome_bind]. destruct (has (ev_flags e) EVLIST_FINALIZING) eqn:Hfin.
  { exists (-1), b. auto 10 using mild_refl, kept_same. }
  destruct (reserve_part exact en b e tv Hw) as (r & b1 & -> & Hw1 & Hm1 & Hev1 & _ & _ & _ & Hr).
  destruct Hr as [->|[-> Hcap]]; [exists (-1), b1; by auto 10 using kept_same|].
  change (0 =? -1) with false. cbv iota beta.
  pose proof Hx as Hx0. rewrite <-Hev1 in Hx. destruct (add_insert_wf exact en b1 x e Hw1 Hx)
    as (r & b2 & -> & Hw2 & Hon2 & Hr & Hev2 & _). cbn [mbind outcome_bind].
  assert (Hm2 : mild b b2) by (etransitivity; eauto with mtc).
  destruct Hr as [->| ->].
  2: { rewrite andb_false_r, Hev1 in Hev2. exists (-1), b2.
       destruct tv; by auto 10 using kept_same. }
  assert (Hi : evs b2 = <[x := inserted_event e]> (evs b)).
  { rewrite Hev2, Hev1, andb_true_r. unfold inserted_event. destruct (must_insert e); [done|].
    by rewrite insert_id. }
  assert (Hk2 : kept b b2).
  { eapply kept_insert; eauto using evolves_inserted. apply Hm2. }
  destruct tv as [tv|]; [|exists 0, b2; by auto 10]. change (0 =? -1) with false. cbv iota.
  destruct (add_timer_wf exact en sched b2 x (inserted_event e) tv absolute)
    as (b3 & -> & Hw3 & Hm3 & Hk3 & Hev3); auto.
  - by eapply kept_own.
  - by rewrite Hi, lookup_insert_eq.
  - by rewrite inserted_flags by auto.
  - by rewrite inserted_flags by auto.
  - by apply (mild_arg b b2).
  - by apply arg_norm_inserted.
  - rewrite inserted_flags, inserted_timeout by auto. destruct Hon2 as (-> & _).
    destruct Hmem as [?|[Hmem _]]; [by left|]. right.
    destruct Hcap as [?|[Ht|?]]; [done| |by left]. right. rewrite Ht. simpl. by rewrite Hmem.
  - rewrite (mild_common tv _ _ Hm2). eauto.
  - exists 0, b3. split; [done|]. split; [done|]. split; [by etransitivity|]. split; [by etransitivity|].
    right. split; [done|]. split; [done|]. apply (mild_armed _ _ _ _ _ Hm2).
    by rewrite (mild_timed _ _ _ _ _ _ Hm2), Hi, insert_insert_eq in Hev3.
Qed.

(** The own event of a queue is armed without nesting again. *)
Lemma add_absolute_ok exact en :
  env_ok exact en -> heap_mem en -> sched_ok exact (add_absolute en).
Proof.
  intros He Hmem b i c tv Hw Ho Hc Hh Hn. pose proof (not_common_low tv b Hh) as Hnc.
  destruct (Ho _ (owns_lookup b i c Hc)) as (e & Hx & Hini & Hcl).
  destruct (event_add_body_wf exact en (fun _ _ _ => Crash) b (ctl_timeout_event c) e (Some tv) true)
    as (r & b' & Hd & Hw' & Hm & Hk & Hev); [done..|by left| |by left| |].
  { split; [done|]. intros _ Hp. done. }
  { intros tv' [= <-]. by rewrite Hnc. }
  exists r, b'. split; [exact Hd|]. split; [done|]. split; [done|]. split; [done|]. intros y Hy.
  destruct Hev as [[_ ->]|(_ & _ & [->|[Hcom _]])]; [done| |by rewrite Hnc in Hcom].
  by rewrite lookup_insert_ne.
Qed.

(** ** The specification of [event_add] *)

Lemma event_add_wf exact en b x e tv absolute :
  eb_wf exact b -> own_ok b -> env_ok exact en -> evs b !! x = Some e ->
  has (ev_flags e) EVLIST_INIT = true ->
  tv_arg_ok b tv absolute -> arg_norm e tv absolute -> mem_safe en b e tv ->
  exists r b', event_add_nolock_ en b x tv absolute = Done (r, b') /\ eb_wf exact b' /\ mild b b' /\
    kept b b' /\
    (r = -1 /\ evs b' = evs b \/
     r = 0 /\ has (ev_flags e) EVLIST_FINALIZING = false /\ add_effect en b b' x e tv absolute).
Proof.
  intros Hw Ho He Hx Hini Harg Hn Hmem. apply event_add_body_wf; auto.
  intros tv' -> Hcom. apply add_absolute_ok; [done|]. destruct Hmem as [?|[_ Hmem]]; [done|congruence].
Qed.
