(* ===== verification/EventBaseAct.v ===== *)
(** * The event base: activation, cancellation, finalizers and timers

    The operations of [EventBase] that move events between the queues keep the
    invariant of [EventBaseOps] and do not crash; each lemma gives the event as
    the operation leaves it. *)

From S2P Require Import Prelude MinHeap EventBase EventBaseInv EventBaseOps EventBaseKept EventBaseAdd.

(** ** Activation *)

Definition queued (e : event) : bool :=
  has (ev_flags e) EVLIST_ACTIVE || has (ev_flags e) EVLIST_ACTIVE_LATER.

Definition made_active (e : event) : event :=
  add_flag (del_flag e EVLIST_ACTIVE_LATER) EVLIST_ACTIVE.

(** An event after [event_callback_activate_nolock_]. *)
Definition cb_activated (e : event) : event :=
  if has (ev_flags e) EVLIST_FINALIZING || has (ev_flags e) EVLIST_ACTIVE then e else made_active e.

#[export] Instance only_active_preorder : PreOrder only_active.
Proof. split; repeat intro; unfold only_active in *; intuition congruence. Qed.

Lemma del_later_id e :
  has (ev_flags e) EVLIST_ACTIVE_LATER = false -> del_flag e EVLIST_ACTIVE_LATER = e.
Proof. intros H. by apply (del_flag_id e 5). Qed.

Lemma callback_activate_wf exact b x e :
  eb_wf exact b -> evs b !! x = Some e ->
  exists b', event_callback_activate_nolock_ b x =
      Done (if has (ev_flags e) EVLIST_FINALIZING || queued e then 0 else 1, b') /\
    eb_wf exact b' /\ only_active b b' /\ evs b' = <[x := cb_activated e]> (evs b).
Proof.
  intros Hw Hx. destruct (active_event _ _ _ _ Hw Hx) as (q & _ & _ & _ & _ & Hex).
  unfold event_callback_activate_nolock_, cb_activated, queued. rewrite (get_done b x e Hx). simpl.
  destruct (has (ev_flags e) EVLIST_FINALIZING); simpl.
  { exists b. split; [done|]. split; [done|]. split; [reflexivity|]. by rewrite insert_id. }
  destruct (has (ev_flags e) EVLIST_ACTIVE) eqn:Ha; simpl in *.
  { rewrite Hex. exists b. split; [done|]. split; [done|]. split; [reflexivity|]. by rewrite insert_id. }
  destruct (has (ev_flags e) EVLIST_ACTIVE_LATER) eqn:Hl; simpl.
  - destruct (remove_later_wf _ _ _ _ Hw Hx Hl) as (b1 & -> & Hw1 & Hev1 & Hon1). simpl.
    destruct (insert_active_wf exact b1 x (del_flag e EVLIST_ACTIVE_LATER)) as (b2 & -> & Hw2 & Hev2 & Hon2);
      [done|by rewrite Hev1, lookup_insert_eq|by flags..|].
    exists b2. split; [done|]. split; [done|]. split; [by etransitivity|].
    by rewrite Hev2, Hev1, insert_insert_eq.
  - destruct (insert_active_wf exact b x e) as (b2 & -> & Hw2 & Hev2 & Hon2); [done..|].
    exists b2. split; [done|]. split; [done|]. split; [done|].
    unfold made_active. by rewrite del_later_id.
Qed.

Lemma callback_activate_later_wf exact b x e :
  eb_wf exact b -> evs b !! x = Some e ->
  exists b', event_callback_activate_later_nolock_ b x = Done (if queued e then 0 else 1, b') /\
    eb_wf exact b' /\ only_active b b' /\
    evs b' = <[x := if queued e then e else add_flag e EVLIST_ACTIVE_LATER]> (evs b).
Proof.
  intros Hw Hx. unfold event_callback_activate_later_nolock_, queued. rewrite (get_done b x e Hx). simpl.
  rewrite has_lor_r. destruct (_ || _) eqn:Hq; zb.
  { exists b. split; [done|]. split; [done|]. split; [reflexivity|]. by rewrite insert_id. }
  destruct (insert_later_wf exact b x e) as (b2 & -> & Hw2 & Hev2 & Hon2); [done..|].
  simpl. eauto 10.
Qed.

(** What [event_active] records before it queues the event. *)
Definition noted (e : event) (res ncalls : Z) : event :=
  let e := set_ev_res e (if has (ev_flags e) EVLIST_ACTIVE_LATER then Z.lor (ev_res e) res else res) in
  if has (ev_events e) EV_SIGNAL then set_ev_pncalls (set_ev_ncalls e ncalls) None else e.

(** An event after [event_active_nolock_]. *)
Definition activated (e : event) (res ncalls : Z) : event :=
  if has (ev_flags e) EVLIST_FINALIZING then e
  else if has (ev_flags e) EVLIST_ACTIVE then set_ev_res e (Z.lor (ev_res e) res)
  else made_active (noted e res ncalls).

Lemma noted_flags e res n : ev_flags (noted e res n) = ev_flags e.
Proof. unfold noted. by destruct (has _ EV_SIGNAL). Qed.

Lemma noted_wf exact b x e res n :
  eb_wf exact b -> evs b !! x = Some e -> eb_wf exact (put b x (noted e res n)).
Proof.
  intros Hw Hx. destruct (wf_event _ _ Hw x e Hx) as [_ Hp].
  eapply put_wf; eauto; unfold noted; by destruct (has _ EV_SIGNAL).
Qed.

Lemma event_active_wf exact b x e res ncalls :
  eb_wf exact b -> evs b !! x = Some e ->
  exists b', event_active_nolock_ b x res ncalls = Done b' /\ eb_wf exact b' /\ only_active b b' /\
    evs b' = <[x := activated e res ncalls]> (evs b).
Proof.
  intros Hw Hx. destruct (active_event _ _ _ _ Hw Hx) as (q & _ & _ & _ & _ & Hex).
  destruct (wf_event _ _ Hw x e Hx) as [_ Hp].
  unfold event_active_nolock_, activated. rewrite (get_done b x e Hx). simpl.
  destruct (has (ev_flags e) EVLIST_FINALIZING) eqn:Hf.
  { exists b. split; [done|]. split; [done|]. split; [reflexivity|]. by rewrite insert_id. }
  destruct (has (ev_flags e) EVLIST_ACTIVE) eqn:Ha; simpl in *.
  { rewrite Hex. eexists. split; [done|]. split; [by eapply put_wf|]. done. }
  set (b0 := if ev_pri e <? event_running_priority b then _ else b).
  assert (Hw0 : eb_wf exact b0).
  { unfold b0. case_test; [|done]. apply (same_queues_wf exact b); [done|done|apply Hw]. }
  assert (Hon0 : only_active b b0) by (unfold b0; by case_test).
  assert (Hev0 : evs b0 = evs b) by (unfold b0; by case_test).
  rewrite <-Hev0 in Hx. pose proof (noted_wf exact b0 x e res ncalls Hw0 Hx) as Hw1.
  destruct (callback_activate_wf exact (put b0 x (noted e res ncalls)) x (noted e res ncalls) Hw1)
    as (b2 & Hd & Hw2 & Hon2 & Hev2); [simpl; by rewrite lookup_insert_eq|].
  unfold noted in Hd. simpl in Hd. rewrite Hd. simpl. exists b2. split; [done|]. split; [done|].
  split; [etransitivity; [exact Hon0|exact Hon2]|]. rewrite Hev2. simpl.
  rewrite insert_insert_eq, Hev0. unfold cb_activated. by rewrite noted_flags, Hf, Ha.
Qed.

Definition activated_later (e : event) (res : Z) : event :=
  if queued e then set_ev_res e (Z.lor (ev_res e) res)
  else add_flag (set_ev_res e res) EVLIST_ACTIVE_LATER.

Lemma event_active_later_wf exact b x e res :
  eb_wf exact b -> evs b !! x = Some e ->
  exists b', event_active_later_nolock_ b x res = Done b' /\ eb_wf exact b' /\ only_active b b' /\
    evs b' = <[x := activated_later e res]> (evs b).
Proof.
  intros Hw Hx. destruct (wf_event _ _ Hw x e Hx) as [_ Hp].
  unfold event_active_later_nolock_, activated_later, queued. rewrite (get_done b x e Hx). simpl.
  rewrite has_lor_r. destruct (_ || _) eqn:Hq.
  { eexists. split; [done|]. split; [by eapply put_wf|]. done. }
  destruct (callback_activate_later_wf exact (put b x (set_ev_res e res)) x (set_ev_res e res))
    as (b' & -> & Hw' & Hon & Hev); [by eapply put_wf|simpl; by rewrite lookup_insert_eq|].
  exists b'. split; [done|]. split; [done|]. split; [exact Hon|]. rewrite Hev. simpl.
  unfold queued. simpl. by rewrite Hq, insert_insert_eq.
Qed.

(** Activating the events of a list. *)
Definition act_by (f : event -> option (Z * Z)) (e : event) : event :=
  match f e with Some (res, ncalls) => activated e res ncalls | None => e end.

Lemma active_each_wf exact f l b :
  eb_wf exact b -> NoDup l -> (forall x, x ∈ l -> is_Some (evs b !! x)) ->
  exists b', active_each f l b = Done b' /\ eb_wf exact b' /\ only_active b b' /\
    forall y, evs b' !! y = (if decide (y ∈ l) then act_by f <$> evs b !! y else evs b !! y).
Proof.
  revert b. induction l as [|x l IH]; intros b Hw Hnd Hl.
  { by exists b. }
  apply NoDup_cons in Hnd as [Hni Hnd]. destruct (Hl x) as [e Hx]; [set_solver|].
  unfold active_each; fold (active_each f). rewrite (get_done b x e Hx). cbn [mbind outcome_bind].
  assert (H1 : exists b1, match f e with
      | Some (res, ncalls) => event_active_nolock_ b x res ncalls
      | None => Done b end = Done b1 /\ eb_wf exact b1 /\ only_active b b1 /\
      evs b1 = <[x := act_by f e]> (evs b)).
  { unfold act_by. destruct (f e) as [[res n]|]; [by apply event_active_wf|].
    exists b. split; [done|]. split; [done|]. split; [reflexivity|]. by rewrite insert_id. }
  destruct H1 as (b1 & -> & Hw1 & Hon1 & Hev1). cbn [mbind outcome_bind].
  destruct (IH b1 Hw1 Hnd) as (b2 & -> & Hw2 & Hon2 & Hev2).
  { intros y Hy. rewrite Hev1, lookup_insert. case_decide; [eauto|]. apply Hl. set_solver. }
  exists b2. split; [done|]. split; [done|]. split; [by etransitivity|]. intros y.
  rewrite Hev2, Hev1, lookup_insert. destruct (decide (x = y)) as [<-|Hne].
  - rewrite decide_False, decide_True by set_solver. by rewrite Hx.
  - destruct (decide (y ∈ l)); [by rewrite decide_True by set_solver|].
    by rewrite decide_False by set_solver.
Qed.

(** An event waiting for a condition of descriptor [fd]. *)
Definition registered (fd : Z) (e : event) : bool :=
  has (ev_flags e) EVLIST_INSERTED && has (ev_events e) EV_IO && (ev_fd e =? fd).

Definition signal_registered (sig : Z) (e : event) : bool :=
  has (ev_flags e) EVLIST_INSERTED && has (ev_events e) EV_SIGNAL && (ev_fd e =? sig).

Lemma registered_slot exact b fd c y e :
  eb_wf exact b -> entries (io b) !! fd = Some c -> evs b !! y = Some e ->
  y ∈ io_events c <-> registered fd e = true.
Proof.
  intros Hw Hs Hy. destruct (io_slot _ _ _ _ (wf_io _ _ Hw) _ _ Hs) as [_ Hso].
  rewrite (so_elem _ _ _ Hso), (holds_is _ _ y _ (view_lookup iview_of _ _ _ Hy)).
  unfold waits_on, registered. simpl. rewrite !andb_true_iff, Z.eqb_eq. naive_solver.
Qed.

Lemma signal_registered_slot exact b s l y e :
  eb_wf exact b -> entries (sigmap b) !! s = Some l -> evs b !! y = Some e ->
  y ∈ l <-> signal_registered s e = true.
Proof.
  intros Hw Hs Hy. destruct (sg_slot _ _ _ _ (wf_sig _ _ Hw) _ _ Hs) as (_ & _ & Hel).
  rewrite Hel, (holds_is _ _ y _ (view_lookup iview_of _ _ _ Hy)).
  unfold signals_on, signal_registered. simpl. rewrite !andb_true_iff, Z.eqb_eq. naive_solver.
Qed.

Lemma slot_known exact b fd c x :
  eb_wf exact b -> entries (io b) !! fd = Some c -> x ∈ io_events c -> is_Some (evs b !! x).
Proof.
  intros Hw Hs Hx. destruct (io_slot _ _ _ _ (wf_io _ _ Hw) _ _ Hs) as [_ Hso].
  apply (so_elem _ _ _ Hso) in Hx as (v & Hv & _). rewrite lookup_fmap in Hv.
  destruct (evs b !! x); [eauto|done].
Qed.

Lemma signal_slot_known exact b s l x :
  eb_wf exact b -> entries (sigmap b) !! s = Some l -> x ∈ l -> is_Some (evs b !! x).
Proof.
  intros Hw Hs Hx. destruct (sg_slot _ _ _ _ (wf_sig _ _ Hw) _ _ Hs) as (_ & _ & Hel).
  apply Hel in Hx as (v & Hv & _). rewrite lookup_fmap in Hv.
  destruct (evs b !! x); [eauto|done].
Qed.

(** Nobody waits on a descriptor without a slot. *)
Lemma unregistered exact b fd y e :
  eb_wf exact b -> 0 <= fd -> nentries (io b) <= fd \/ entries (io b) !! fd = None ->
  evs b !! y = Some e -> registered fd e = false.
Proof.
  intros Hw H0 Hc Hy. apply not_true_is_false. intros Hr.
  destruct (io_present _ _ _ _ (wf_io _ _ Hw) fd y H0) as [c Hs].
  { apply (holds_is _ _ y _ (view_lookup iview_of _ _ _ Hy)). unfold registered in Hr. zb. done. }
  destruct (io_slot _ _ _ _ (wf_io _ _ Hw) _ _ Hs) as [? _]. destruct Hc; [lia|congruence].
Qed.

Lemma signal_unregistered exact b s y e :
  eb_wf exact b -> 0 <= s -> nentries (sigmap b) <= s \/ entries (sigmap b) !! s = None ->
  evs b !! y = Some e -> signal_registered s e = false.
Proof.
  intros Hw H0 Hc Hy. apply not_true_is_false. intros Hr.
  destruct (sg_present _ _ _ _ (wf_sig _ _ Hw) s y H0) as [c Hs].
  { apply (holds_is _ _ y _ (view_lookup iview_of _ _ _ Hy)). unfold signal_registered in Hr. zb. done. }
  destruct (sg_slot _ _ _ _ (wf_sig _ _ Hw) _ _ Hs) as [? _]. destruct Hc; [lia|congruence].
Qed.

Lemma fmap_id_on {A} (f : A -> A) (o : option A) : (forall a, o = Some a -> f a = a) -> o = f <$> o.
Proof. destruct o; [|done]. intros H. simpl. by rewrite H. Qed.

(** A report of the backend on [fd] reaches exactly the events that wait on
    it for one of the conditions reported. *)
Definition io_activated (fd events : Z) (e : event) : event :=
  if registered fd e && has (ev_events e) events
  then activated e (Z.land (ev_events e) events) 1 else e.

Lemma io_active_wf exact b fd events :
  eb_wf exact b -> 0 <= fd ->
  exists b', evmap_io_active_ b fd events = Done b' /\ eb_wf exact b' /\ only_active b b' /\
    forall y, evs b' !! y = io_activated fd events <$> evs b !! y.
Proof.
  intros Hw H0. unfold evmap_io_active_. case_test.
  { zb. destruct E as [E|E]; zb; [lia|]. exists b. split; [done|]. split; [done|]. split; [done|]. intros y.
    apply fmap_id_on. intros e Hy. unfold io_activated. by rewrite (unregistered exact b fd y e) by auto. }
  zb. unfold get_slot. replace (_ && _) with true by (symmetry; rewrite andb_true_iff, Z.leb_le, Z.ltb_lt; lia).
  cbn [mbind outcome_bind]. destruct (entries (io b) !! fd) as [c|] eqn:Hs.
  - destruct (io_slot _ _ _ _ (wf_io _ _ Hw) _ _ Hs) as [_ Hso].
    destruct (active_each_wf exact (fun ev => if has (ev_events ev) events
      then Some (Z.land (ev_events ev) events, 1) else None) (io_events c) b Hw (so_nodup _ _ _ Hso))
      as (b' & -> & Hw' & Hon & Hev); [intros x; by eapply slot_known|].
    exists b'. split; [done|]. split; [done|]. split; [done|]. intros y. rewrite Hev.
    destruct (evs b !! y) as [e|] eqn:Hy; [|by case_decide].
    pose proof (registered_slot exact b fd c y e Hw Hs Hy) as Hr. unfold io_activated, act_by. simpl.
    case_decide as Hd; [rewrite (proj1 Hr Hd); simpl; by destruct (has (ev_events e) events)|].
    by rewrite (not_true_is_false (registered fd e)) by tauto.
  - exists b. split; [done|]. split; [done|]. split; [done|]. intros y.
    apply fmap_id_on. intros e Hy. unfold io_activated. by rewrite (unregistered exact b fd y e) by auto.
Qed.

Definition signal_activated (sig ncalls : Z) (e : event) : event :=
  if signal_registered sig e then activated e EV_SIGNAL ncalls else e.

Lemma signal_active_wf exact b sig ncalls :
  eb_wf exact b -> 0 <= sig ->
  exists b', evmap_signal_active_ b sig ncalls = Done b' /\ eb_wf exact b' /\ only_active b b' /\
    forall y, evs b' !! y = signal_activated sig ncalls <$> evs b !! y.
Proof.
  intros Hw H0. unfold evmap_signal_active_. case_test.
  { zb. destruct E as [E|E]; zb; [lia|]. exists b. split; [done|]. split; [done|]. split; [done|]. intros y.
    apply fmap_id_on. intros e Hy. unfold signal_activated.
    by rewrite (signal_unregistered exact b sig y e) by auto. }
  zb. unfold get_slot. replace (_ && _) with true by (symmetry; rewrite andb_true_iff, Z.leb_le, Z.ltb_lt; lia).
  cbn [mbind outcome_bind]. destruct (entries (sigmap b) !! sig) as [l|] eqn:Hs.
  - destruct (sg_slot _ _ _ _ (wf_sig _ _ Hw) _ _ Hs) as (_ & Hnd & _).
    destruct (active_each_wf exact (fun _ => Some (EV_SIGNAL, ncalls)) l b Hw Hnd)
      as (b' & -> & Hw' & Hon & Hev); [intros x; by eapply signal_slot_known|].
    exists b'. split; [done|]. split; [done|]. split; [done|]. intros y. rewrite Hev.
    destruct (evs b !! y) as [e|] eqn:Hy; [|by case_decide].
    pose proof (signal_registered_slot exact b sig l y e Hw Hs Hy) as Hr. unfold signal_activated, act_by.
    simpl. case_decide as Hd; [by rewrite (proj1 Hr Hd)|].
    by rewrite (not_true_is_false (signal_registered sig e)) by tauto.
  - exists b. split; [done|]. split; [done|]. split; [done|]. intros y.
    apply fmap_id_on. intros e Hy. unfold signal_activated.
    by rewrite (signal_unregistered exact b sig y e) by auto.
Qed.

(** ** Cancelling and finalizing *)

Definition dequeued (e : event) : event := del_flag (del_flag e EVLIST_ACTIVE) EVLIST_ACTIVE_LATER.

Definition cancelled (e : event) (even : bool) : event :=
  if has (ev_flags e) EVLIST_FINALIZING && negb even then e
  else if has (ev_flags e) EVLIST_INIT then unqueued e else dequeued e.

Lemma callback_cancel_wf exact en b x e even :
  eb_wf exact b -> env_ok exact en -> evs b !! x = Some e ->
  exists r b', event_callback_cancel_nolock_ en b x even = Done (r, b') /\ eb_wf exact b' /\ mild b b' /\
    (r = 0 \/ r = -1) /\ evs b' = <[x := cancelled e even]> (evs b).
Proof.
  intros Hw He Hx. unfold event_callback_cancel_nolock_, cancelled. rewrite (get_done b x e Hx).
  cbn [mbind outcome_bind]. destruct (has (ev_flags e) EVLIST_FINALIZING && negb even) eqn:Hf.
  { exists 0, b. split; [done|]. split; [done|]. split; [done|]. split; [auto|]. by rewrite insert_id. }
  destruct (has (ev_flags e) EVLIST_INIT) eqn:Hi.
  - destruct (event_del_wf exact en b x e
      (if even then EVENT_DEL_EVEN_IF_FINALIZING else EVENT_DEL_AUTOBLOCK) Hw He Hx)
      as (r & b' & -> & Hw' & Hm & Hr & _ & Hev & _).
    exists r, b'. split; [done|]. split; [done|]. split; [done|]. split; [done|].
    rewrite Hev. unfold del_skipped. destruct even; simpl in *; [done|].
    rewrite andb_true_r in Hf. by rewrite Hf.
  - destruct (active_event _ _ _ _ Hw Hx) as (q & _ & _ & _ & _ & Hex).
    destruct (unactivate_wf exact b x e Hw Hx) as (b' & Hd & Hw' & Hon & Hev).
    exists 0, b'. split; [|split; [done|]; split; [eauto with mtc|]; split; [by left|done]].
    destruct (has (ev_flags e) EVLIST_ACTIVE); simpl in Hex; [rewrite Hex; by rewrite Hd|].
    destruct (has (ev_flags e) EVLIST_ACTIVE_LATER); [by rewrite Hd|congruence].
Qed.

(** The finalizing flag is in no view. *)
Lemma finalizing_wf exact b x e :
  eb_wf exact b -> evs b !! x = Some e -> eb_wf exact (put b x (add_flag e EVLIST_FINALIZING)).
Proof.
  intros Hw Hx. eapply (active_wf _ b x e (add_flag e EVLIST_FINALIZING)); eauto; simpl; try done.
  - unfold tview_of. by flags.
  - unfold iview_of. by flags.
  - apply event_ok_add; [|done]. by apply (wf_event _ _ Hw x).
  - replace (aview_of (add_flag e EVLIST_FINALIZING)) with (aview_of e) by (unfold aview_of; by flags).
    rewrite insert_id by (by apply view_lookup). apply Hw.
  - unfold weight. rewrite !counted_internal. flags. lia.
Qed.

Definition finalized (e : event) (c : closure) : event :=
  add_flag (if has (ev_flags e) EVLIST_FINALIZING then set_ev_closure e c
            else activated (set_ev_closure (unqueued e) c) EV_FINALIZE 1) EVLIST_FINALIZING.

Lemma event_finalize_wf exact en b x e free :
  eb_wf exact b -> env_ok exact en -> evs b !! x = Some e ->
  exists b', event_finalize_nolock_ en b x free = Done (0, b') /\ eb_wf exact b' /\ mild b b' /\
    evs b' = <[x := finalized e (if free then EV_CLOSURE_EVENT_FINALIZE_FREE
                                 else EV_CLOSURE_EVENT_FINALIZE)]> (evs b).
Proof.
  intros Hw He Hx. unfold event_finalize_nolock_, finalized. set (c := if free then _ else _).
  destruct (event_del_wf exact en b x e EVENT_DEL_NOBLOCK Hw He Hx)
    as (r & b1 & -> & Hw1 & Hm1 & _ & _ & Hev1 & _). cbn [mbind outcome_bind].
  set (e1 := if has (ev_flags e) EVLIST_FINALIZING then e else unqueued e).
  assert (Hev1' : evs b1 = <[x := e1]> (evs b)).
  { rewrite Hev1. unfold del_skipped, e1. simpl. case_test; [by rewrite insert_id|done]. }
  assert (Hx1 : evs b1 !! x = Some e1) by (by rewrite Hev1', lookup_insert_eq).
  rewrite (get_done b1 x e1 Hx1). cbn [mbind outcome_bind].
  assert (Hw2 : eb_wf exact (put b1 x (set_ev_closure e1 c))).
  { eapply put_wf; eauto. simpl. by apply (wf_event _ _ Hw1 x). }
  destruct (event_active_wf exact (put b1 x (set_ev_closure e1 c)) x (set_ev_closure e1 c) EV_FINALIZE 1)
    as (b3 & -> & Hw3 & Hon3 & Hev3); [done|simpl; by rewrite lookup_insert_eq|].
  cbn [mbind outcome_bind]. assert (Hx3 : evs b3 !! x = Some (activated (set_ev_closure e1 c) EV_FINALIZE 1))
    by (by rewrite Hev3, lookup_insert_eq).
  rewrite (get_done b3 x _ Hx3). cbn [mbind outcome_bind].
  eexists. split; [done|]. split; [by apply finalizing_wf|].
  split; [etransitivity; [exact Hm1|]; apply (mild_active _ _ Hon3)|].
  simpl. rewrite Hev3. simpl. rewrite Hev1', !insert_insert_eq. do 2 f_equal.
  unfold e1. destruct (has (ev_flags e) EVLIST_FINALIZING) eqn:Hf; [|done].
  unfold activated. simpl. by rewrite Hf.
Qed.

Definition cb_finalized (e : event) : event :=
  add_flag (cb_activated (set_ev_closure (cancelled e false) EV_CLOSURE_CB_FINALIZE)) EVLIST_FINALIZING.

Lemma callback_finalize_wf exact en b x e :
  eb_wf exact b -> env_ok exact en -> evs b !! x = Some e ->
  exists b', event_callback_finalize_nolock_ en b x = Done b' /\ eb_wf exact b' /\ mild b b' /\
    evs b' = <[x := cb_finalized e]> (evs b).
Proof.
  intros Hw He Hx. unfold event_callback_finalize_nolock_. rewrite (get_done b x e Hx).
  cbn [mbind outcome_bind].
  assert (H1 : exists r b1, (if has (ev_flags e) EVLIST_INIT then event_del_nolock_ en b x EVENT_DEL_NOBLOCK
      else event_callback_cancel_nolock_ en b x false) = Done (r, b1) /\ eb_wf exact b1 /\ mild b b1 /\
      evs b1 = <[x := cancelled e false]> (evs b)).
  { destruct (has (ev_flags e) EVLIST_INIT) eqn:Hi.
    - destruct (event_del_wf exact en b x e EVENT_DEL_NOBLOCK Hw He Hx)
        as (r & b1 & -> & Hw1 & Hm1 & _ & _ & Hev1 & _).
      exists r, b1. split; [done|]. split; [done|]. split; [done|]. rewrite Hev1.
      unfold del_skipped, cancelled. simpl. rewrite Hi, andb_true_r.
      case_test; [by rewrite insert_id|done].
    - destruct (callback_cancel_wf exact en b x e false Hw He Hx) as (r & b1 & -> & Hw1 & Hm1 & _ & Hev1).
      eauto 10. }
  destruct H1 as (r & b1 & -> & Hw1 & Hm1 & Hev1). cbn [mbind outcome_bind].
  set (e1 := cancelled e false) in *.
  assert (Hx1 : evs b1 !! x = Some e1) by (by rewrite Hev1, lookup_insert_eq).
  rewrite (get_done b1 x e1 Hx1). cbn [mbind outcome_bind].
  set (e2 := set_ev_closure e1 EV_CLOSURE_CB_FINALIZE).
  assert (Hw2 : eb_wf exact (put b1 x e2)).
  { eapply put_wf; eauto. simpl. by apply (wf_event _ _ Hw1 x). }
  destruct (callback_activate_wf exact (put b1 x e2) x e2) as (b3 & -> & Hw3 & Hon3 & Hev3);
    [done|simpl; by rewrite lookup_insert_eq|].
  cbn [mbind outcome_bind]. assert (Hx3 : evs b3 !! x = Some (cb_activated e2))
    by (by rewrite Hev3, lookup_insert_eq).
  rewrite (get_done b3 x _ Hx3). cbn [mbind outcome_bind].
  eexists. split; [done|]. split; [by apply finalizing_wf|].
  split; [etransitivity; [exact Hm1|]; apply (mild_active _ _ Hon3)|].
  simpl. rewrite Hev3. simpl. by rewrite Hev1, !insert_insert_eq.
Qed.

(** ** Evolution of an event *)

Lemma evolves_dequeued n e : evolves n e (dequeued e).
Proof. unfold dequeued. do 2 (etransitivity; [|apply evolves_del_flag; auto]). reflexivity. Qed.

Lemma evolves_made_active n e : evolves n e (made_active e).
Proof.
  unfold made_active. etransitivity; [apply (evolves_del_flag n e EVLIST_ACTIVE_LATER); auto|].
  apply evolves_add_flag; auto.
Qed.

Lemma evolves_cb_activated n e : evolves n e (cb_activated e).
Proof. unfold cb_activated. destruct (_ || _); [reflexivity|apply evolves_made_active]. Qed.

Lemma evolves_noted n e res k : 0 <= k <= 1 -> evolves n e (noted e res k).
Proof.
  intros Hk. unfold noted. cbv zeta. generalize (if has (ev_flags e) EVLIST_ACTIVE_LATER then Z.lor (ev_res e) res else res) as r.
  intros r.
  destruct (has (ev_events _) EV_SIGNAL); [|apply evolves_res]. split; try done. intros [I1 I2 I3 I4 I5].
  by split.
Qed.

Lemma evolves_activated n e res k : 0 <= k <= 1 -> evolves n e (activated e res k).
Proof.
  intros Hk. unfold activated. case_test; [reflexivity|]. case_test; [apply evolves_res|].
  etransitivity; [by apply (evolves_noted n e res k)|apply evolves_made_active].
Qed.

Lemma evolves_activated_later n e res : evolves n e (activated_later e res).
Proof.
  unfold activated_later. case_test; [apply evolves_res|].
  etransitivity; [apply (evolves_res n e res)|apply evolves_add_flag; auto].
Qed.

Lemma evolves_cancelled n e even : evolves n e (cancelled e even).
Proof.
  unfold cancelled. case_test; [reflexivity|]. case_test; auto using evolves_unqueued, evolves_dequeued.
Qed.

Lemma unqueued_timeout e : has (ev_flags (unqueued e)) EVLIST_TIMEOUT = false.
Proof. unfold unqueued. by flags. Qed.

Lemma activated_timeout e res k :
  has (ev_flags (activated e res k)) EVLIST_TIMEOUT = has (ev_flags e) EVLIST_TIMEOUT.
Proof.
  unfold activated. case_test; [done|]. case_test; [done|]. unfold made_active. flags.
  by rewrite noted_flags.
Qed.

Lemma activated_closure e res k : ev_closure (activated e res k) = ev_closure e.
Proof. unfold activated, made_active, noted. repeat (case_test; try done). Qed.

Lemma activated_calls e res k :
  0 <= k <= 1 -> 0 <= ev_ncalls e <= 1 -> 0 <= ev_ncalls (activated e res k) <= 1.
Proof. intros Hk He. unfold activated, made_active, noted. repeat (case_test; try done). Qed.

Lemma cb_activated_calls e : ev_ncalls (cb_activated e) = ev_ncalls e.
Proof. unfold cb_activated. by case_test. Qed.

Lemma cancelled_calls e even : ev_ncalls (cancelled e even) = ev_ncalls e.
Proof. unfold cancelled. repeat (case_test; try done). Qed.

Lemma evolves_finalized n e (c : closure) :
  c = EV_CLOSURE_EVENT_FINALIZE \/ c = EV_CLOSURE_EVENT_FINALIZE_FREE ->
  has (ev_flags e) EVLIST_INIT = true -> evolves n e (finalized e c).
Proof.
  intros Hc Hi. unfold finalized. case_test.
  { apply evolves_final; try done; try (by flags); [|right; split; [done|]; by naive_solver].
    intros Hv. split; [|apply Hv]. flags. by apply Hv. }
  set (u := set_ev_closure (unqueued e) c).
  pose proof (evolves_activated 0 u EV_FINALIZE 1 ltac:(lia)) as [A1 A2 A3 A4 _ _].
  pose proof (evolves_unqueued 0 e) as [U1 U2 U3 U4 _ _].
  apply evolves_final.
  - transitivity (has (ev_flags (activated u EV_FINALIZE 1)) EVLIST_INIT); [by flags|]. by rewrite A1.
  - transitivity (has (ev_flags (activated u EV_FINALIZE 1)) EVLIST_INTERNAL); [by flags|]. by rewrite A2.
  - simpl. by rewrite A3.
  - simpl. by rewrite A4.
  - by flags.
  - intros Hv. split.
    + transitivity (has (ev_flags (activated u EV_FINALIZE 1)) EVLIST_TIMEOUT); [by flags|].
      rewrite activated_timeout. apply unqueued_timeout.
    + apply activated_calls; [lia|apply Hv].
  - right. split; [done|]. simpl. rewrite activated_closure. simpl. naive_solver.
Qed.

Lemma cb_activated_timeout e :
  has (ev_flags (cb_activated e)) EVLIST_TIMEOUT = has (ev_flags e) EVLIST_TIMEOUT.
Proof. unfold cb_activated. case_test; [done|]. unfold made_active. by flags. Qed.

(** A plain callback has no timer. *)
Lemma evolves_cb_finalized n e :
  has (ev_flags e) EVLIST_INIT = true \/ has (ev_flags e) EVLIST_TIMEOUT = false ->
  evolves n e (cb_finalized e).
Proof.
  intros Hi. unfold cb_finalized. set (u := set_ev_closure (cancelled e false) EV_CLOSURE_CB_FINALIZE).
  pose proof (evolves_cb_activated 0 u) as [A1 A2 A3 A4 _ _].
  pose proof (evolves_cancelled 0 e false) as [U1 U2 U3 U4 _ _].
  apply evolves_final.
  - rewrite <-U1. transitivity (has (ev_flags (cb_activated u)) EVLIST_INIT); [by flags|done].
  - rewrite <-U2. transitivity (has (ev_flags (cb_activated u)) EVLIST_INTERNAL); [by flags|done].
  - simpl. by rewrite A3.
  - simpl. by rewrite A4.
  - by flags.
  - intros Hv. split.
    + transitivity (has (ev_flags (cb_activated u)) EVLIST_TIMEOUT); [by flags|].
      rewrite cb_activated_timeout. change (has (ev_flags (cancelled e false)) EVLIST_TIMEOUT = false).
      unfold cancelled. case_test; [zb; by apply Hv|]. case_test; [apply unqueued_timeout|].
      unfold dequeued. flags. by destruct Hi.
    + simpl. rewrite cb_activated_calls. simpl. rewrite cancelled_calls. apply Hv.
  - left. simpl. unfold cb_activated. by case_test.
Qed.

#[export] Hint Resolve evolves_activated evolves_activated_later evolves_cb_activated
  evolves_cancelled evolves_finalized evolves_made_active : mtc.

(** ** The remaining operations on single events *)

Lemma kept_mild b b' x e e' :
  mild b b' -> evs b !! x = Some e -> evs b' = <[x := e']> (evs b) ->
  evolves (length (owners b)) e e' -> kept b b'.
Proof. intros (_ & _ & Hq & _) Hx Hev Hr. by eapply kept_insert. Qed.

Lemma no_plain_timer exact b x e :
  eb_wf exact b -> evs b !! x = Some e ->
  has (ev_flags e) EVLIST_INIT = true \/ has (ev_flags e) EVLIST_TIMEOUT = false.
Proof.
  intros Hw Hx. destruct (has (ev_flags e) EVLIST_TIMEOUT) eqn:Ht; [left|by right].
  by destruct (to_on _ _ _ _ (wf_timers _ _ Hw) x _ (view_lookup tview_of _ _ _ Hx) Ht).
Qed.

Lemma finalize_each_wf exact en l b n :
  eb_wf exact b -> env_ok exact en -> (forall x, x ∈ l -> is_Some (evs b !! x)) ->
  exists k b', finalize_each en l b n = Done (k, b') /\ eb_wf exact b' /\ mild b b' /\ kept b b'.
Proof.
  revert b n. induction l as [|x l IH]; intros b n Hw He Hl; simpl.
  { exists n, b. split; [done|]. split; [done|]. split; [done|reflexivity]. }
  destruct (Hl x) as [e Hx]; [set_solver|].
  assert (Hstep : forall b1 k, eb_wf exact b1 -> mild b b1 -> kept b b1 ->
    exists m b', finalize_each en l b1 k = Done (m, b') /\ eb_wf exact b' /\ mild b b' /\ kept b b').
  { intros b1 k Hw1 Hm1 Hk1. destruct (IH b1 k Hw1 He) as (m & b' & -> & Hw' & Hm' & Hk').
    - intros y Hy. destruct (Hl y) as [ey Hey]; [set_solver|].
      destruct (kept_event _ _ Hk1 y ey Hey) as (? & -> & _). eauto.
    - exists m, b'. split; [done|]. split; [done|]. split; by etransitivity. }
  case_decide.
  - destruct (callback_finalize_wf exact en b x e Hw He Hx) as (b1 & -> & Hw1 & Hm1 & Hev1).
    cbn [mbind outcome_bind]. apply Hstep; eauto using kept_mild, evolves_cb_finalized, no_plain_timer with mtc.
  - destruct (callback_cancel_wf exact en b x e false Hw He Hx) as (r & b1 & -> & Hw1 & Hm1 & _ & Hev1).
    cbn [mbind outcome_bind]. apply Hstep; eauto using kept_mild, evolves_cb_finalized, no_plain_timer with mtc.
Qed.

Lemma finalize_many_wf exact en l b :
  eb_wf exact b -> env_ok exact en -> l <> [] -> (forall x, x ∈ l -> is_Some (evs b !! x)) ->
  exists b', event_callback_finalize_many_ en b l = Done (0, b') /\ eb_wf exact b' /\ mild b b' /\ kept b b'.
Proof.
  intros Hw He Hl Hin. unfold event_callback_finalize_many_.
  destruct (finalize_each_wf exact en l b 0 Hw He Hin) as (k & b1 & -> & Hw1 & Hm1 & Hk1).
  cbn [mbind outcome_bind]. destruct (k =? 0); [|eauto 10].
  destruct l as [|x l]; [done|]. destruct (Hin x) as [e Hx]; [set_solver|].
  destruct (kept_event _ _ Hk1 x e Hx) as (e1 & Hx1 & _). simpl.
  destruct (callback_finalize_wf exact en b1 x e1 Hw1 He Hx1) as (b2 & -> & Hw2 & Hm2 & Hev2).
  exists b2. split; [done|]. split; [done|]. split; [by etransitivity|].
  etransitivity; [exact Hk1|]. eauto using kept_mild, evolves_cb_finalized, no_plain_timer with mtc.
Qed.

Lemma deferred_wf exact b n : eb_wf exact b -> eb_wf exact (set_n_deferreds_queued b n).
Proof. intros Hw. apply (same_queues_wf exact b); [done|done|apply Hw]. Qed.

Lemma deferred_schedule_wf exact b x e :
  eb_wf exact b -> evs b !! x = Some e ->
  exists r b', event_deferred_cb_schedule_ b x = Done (r, b') /\ eb_wf exact b' /\ mild b b' /\ kept b b'.
Proof.
  intros Hw Hx. unfold event_deferred_cb_schedule_. case_test.
  - destruct (callback_activate_later_wf exact b x e Hw Hx) as (b' & -> & Hw' & Hon & Hev).
    eexists _, b'. split; [done|]. split; [done|]. split; [eauto with mtc|].
    eapply kept_mild; eauto with mtc. case_test; [reflexivity|apply evolves_add_flag; auto].
  - destruct (callback_activate_wf exact b x e Hw Hx) as (b' & -> & Hw' & Hon & Hev).
    cbn [mbind outcome_bind]. eexists _, _. split; [done|].
    assert (Hk : kept b b') by (eauto using kept_mild with mtc).
    destruct (negb _); [split; [by apply deferred_wf|]|split; [done|]].
    + split; [apply (mild_active _ _ Hon)|]. destruct Hk as [K1 K2 K3]. by split.
    + split; [eauto with mtc|done].
Qed.

Lemma priority_ok m qs later c x a p :
  active_ok m qs later c -> m !! x = Some a -> a_on a = false -> 0 <= p < zlen qs ->
  active_ok (<[x := mkA false (a_later a) p]> m) qs later c.
Proof.
  intros [Hq [Hl1 Hl2] He Hc] Hx Hoff Hp. split; [| |..|done].
  - intros i q Hi. destruct (Hq i q Hi) as [Hnd Hm]. split; [done|]. intros y. rewrite Hm, holds_insert.
    destruct (decide (y = x)) as [->|]; [|tauto]. rewrite (holds_is _ _ x _ Hx), Hoff. simpl. naive_solver.
  - split; [done|]. intros y. rewrite Hl2, holds_insert.
    destruct (decide (y = x)) as [->|]; [|tauto]. rewrite (holds_is _ _ x _ Hx). simpl. naive_solver.
  - intros y a' Hy. rewrite lookup_insert in Hy. case_decide; simplify_eq; [done|by apply (He y)].
Qed.

Lemma priority_set_wf exact b x e pri :
  eb_wf exact b -> evs b !! x = Some e ->
  exists r b', event_priority_set b x pri = Done (r, b') /\ eb_wf exact b' /\ mild b b' /\
    (r = -1 /\ b' = b \/
     r = 0 /\ 0 <= pri < nactivequeues b /\ evs b' = <[x := set_ev_pri e pri]> (evs b)).
Proof.
  intros Hw Hx. unfold event_priority_set. rewrite (get_done b x e Hx). cbn [mbind outcome_bind].
  case_test; [exists (-1), b; auto 10 using mild_refl|]. case_test; [exists (-1), b; auto 10 using mild_refl|].
  zb. exists 0. eexists. split; [done|]. split; [|split; [done|right; split; [done|]; split; [lia|done]]].
  eapply (active_wf _ b x e (set_ev_pri e pri)); eauto; simpl; try done.
  - by destruct (wf_event _ _ Hw x e Hx).
  - replace (aview_of (set_ev_pri e pri)) with (mkA false (a_later (aview_of e)) pri)
      by (unfold aview_of; simpl; by rewrite E).
    apply priority_ok; [apply Hw|by apply view_lookup|done|unfold nactivequeues in *; lia].
  - unfold weight. simpl. lia.
Qed.

(** The event after its timer was removed. *)
Definition timer_removed (e : event) : event :=
  if has (ev_flags e) EVLIST_TIMEOUT then
    let e := del_flag e EVLIST_TIMEOUT in
    if has (ev_events e) EV_SIGNAL then set_ev_pncalls (set_ev_ncalls e 0) None else set_ev_io_timeout e tv0
  else e.

Lemma remove_timer_wf exact b x e :
  eb_wf exact b -> evs b !! x = Some e ->
  exists b', event_remove_timer_nolock_ b x = Done (0, b') /\ eb_wf exact b' /\ mild b b' /\
    evs b' = <[x := timer_removed e]> (evs b).
Proof.
  intros Hw Hx. unfold event_remove_timer_nolock_, timer_removed. rewrite (get_done b x e Hx).
  cbn [mbind outcome_bind]. destruct (has (ev_flags e) EVLIST_TIMEOUT) eqn:Ht.
  2: { exists b. split; [done|]. split; [done|]. split; [done|]. by rewrite insert_id. }
  destruct (remove_timeout_wf _ _ _ _ Hw Hx Ht) as (b1 & -> & Hw1 & Hev1 & Hon1 & _).
  cbn [mbind outcome_bind]. set (e1 := del_flag e EVLIST_TIMEOUT) in *.
  assert (Hx1 : evs b1 !! x = Some e1) by (by rewrite Hev1, lookup_insert_eq).
  rewrite (get_done b1 x e1 Hx1). cbn [mbind outcome_bind]. eexists. split; [done|].
  split; [|split; [apply (mild_timers _ _ Hon1)|simpl; by rewrite Hev1, insert_insert_eq]].
  destruct (wf_event _ _ Hw1 x e1 Hx1) as [_ Hp].
  destruct (has (ev_events e1) EV_SIGNAL); by eapply put_wf.
Qed.

Lemma evolves_timer_removed n e : evolves n e (timer_removed e).
Proof.
  unfold timer_removed. case_test; [|reflexivity].
  etransitivity; [apply (evolves_del_flag n e EVLIST_TIMEOUT); auto|]. cbv zeta.
  case_test; split; try done; intros [I1 I2 I3 I4 I5]; by split.
Qed.

(** Every event that was put off becomes active. *)
Lemma make_later_loop_wf exact l b :
  eb_wf exact b -> active_later_queue b = l ->
  exists b', make_later_loop l b = Done b' /\ eb_wf exact b' /\ only_active b b' /\ kept b b' /\
    active_later_queue b' = [].
Proof.
  revert b. induction l as [|x l IH]; intros b Hw Hq; simpl.
  { exists b. split; [done|]. split; [done|]. split; [reflexivity|]. by split; [reflexivity|]. }
  assert (Hx : is_Some (evs b !! x)).
  { destruct (ao_later _ _ _ _ (wf_active _ _ Hw)) as [_ Hel]. specialize (Hel x). rewrite Hq in Hel.
    destruct (proj1 Hel) as (v & Hv & _); [set_solver|]. rewrite lookup_fmap in Hv.
    destruct (evs b !! x); [eauto|done]. }
  destruct Hx as [e Hx].
  destruct (make_later_active_wf exact b x l e Hw Hq Hx) as (b1 & -> & Hw1 & Hev1 & Hq1 & Hon1).
  cbn [mbind outcome_bind]. destruct (IH b1 Hw1 Hq1) as (b2 & -> & Hw2 & Hon2 & Hk2 & Hq2).
  exists b2. split; [done|]. split; [done|]. split; [by etransitivity|]. split; [|done].
  etransitivity; [|exact Hk2]. eapply kept_mild; eauto with mtc.
Qed.
