(* ===== verification/EventTimers.v ===== *)
(** * The event base: expiring timers

    [timeout_process] and [common_timeout_callback] of [EventBase]: both return,
    keep the invariant, and activate exactly the events whose time has come,
    once each; the rest of the base is left alone.  [timeout_next] is the wait
    until the earliest of them. *)

From S2P Require Import Prelude MinHeap EventBase EventBaseInv EventBaseOps EventBaseKept EventBaseAdd EventBaseAct.

(** ** The heap *)

(** The timer of the event is in the heap. *)
Definition in_timeheap (e : event) : bool :=
  has (ev_flags e) EVLIST_TIMEOUT && (hi (ev_timeout e) =? 0).

Definition due (now : timeval) (e : event) : bool :=
  in_timeheap e && negb (timercmp_gt (ev_timeout e) now).

(** A due event is unqueued and activated with [EV_TIMEOUT]. *)
Definition fire (e : event) : event := activated (unqueued e) EV_TIMEOUT 1.

Definition timed_out (now : timeval) (e : event) : event := if due now e then fire e else e.

Lemma fire_timeout e : has (ev_flags (fire e)) EVLIST_TIMEOUT = false.
Proof. unfold fire. rewrite activated_timeout. apply unqueued_timeout. Qed.

Lemma fire_time e : ev_timeout (fire e) = ev_timeout e.
Proof.
  unfold fire, activated. case_test; [done|]. case_test; [done|]. unfold made_active, noted. simpl.
  by case_test.
Qed.

Lemma timed_out_fire now e : timed_out now (fire e) = fire e.
Proof. unfold timed_out, due, in_timeheap. by rewrite fire_timeout. Qed.

Lemma evolves_fire n e : evolves n e (fire e).
Proof. unfold fire. etransitivity; [apply evolves_unqueued|by apply evolves_activated]. Qed.

(** Taking one event out and activating it. *)
Lemma fire_wf exact en b x e :
  eb_wf exact b -> env_ok exact en -> evs b !! x = Some e -> has (ev_flags e) EVLIST_TIMEOUT = true ->
  final_ok e ->
  exists r b1 b2, event_del_nolock_ en b x EVENT_DEL_NOBLOCK = Done (r, b1) /\
    event_active_nolock_ b1 x EV_TIMEOUT 1 = Done b2 /\ eb_wf exact b2 /\ mild b b2 /\ kept b b2 /\
    slot_freed e b b2 /\ evs b2 = <[x := fire e]> (evs b).
Proof.
  intros Hw He Hx Ht Hf.
  destruct (event_del_wf exact en b x e EVENT_DEL_NOBLOCK Hw He Hx)
    as (r & b1 & Hd & Hw1 & Hm1 & _ & _ & Hev1 & Hs1).
  assert (Hsk : del_skipped EVENT_DEL_NOBLOCK e = false).
  { unfold del_skipped. simpl. destruct (has (ev_flags e) EVLIST_FINALIZING) eqn:E; [|done].
    specialize (Hf E). congruence. }
  rewrite Hsk in Hev1. specialize (Hs1 Hsk).
  destruct (event_active_wf exact b1 x (unqueued e) EV_TIMEOUT 1 Hw1) as (b2 & Ha & Hw2 & Hon2 & Hev2);
    [by rewrite Hev1, lookup_insert_eq|].
  rewrite Hev1, insert_insert_eq in Hev2. assert (Hm : mild b b2) by (etransitivity; eauto with mtc).
  exists r, b1, b2. do 4 (split; [done|]). split; [|split; [|done]].
  - eapply kept_mild; eauto using evolves_fire.
  - unfold slot_freed in *. by destruct Hon2 as (-> & _).
Qed.

Lemma heap_member (m : gmap Z event) (v : list Z) x e :
  (forall y, y ∈ v <-> holds (tview_of <$> m) in_heap y) -> m !! x = Some e ->
  x ∈ v <-> in_timeheap e = true.
Proof.
  intros Hv Hx. rewrite Hv, (holds_is _ _ x _ (view_lookup tview_of _ _ _ Hx)).
  unfold in_timeheap, in_heap. by rewrite andb_true_iff, Z.eqb_eq.
Qed.

(** The top of the heap is the earliest timer. *)
Lemma timer_top exact b :
  eb_wf exact b ->
  min_heap_top_ (timeheap b) = Done None /\ (forall y e, evs b !! y = Some e -> in_timeheap e = false) \/
  exists x e, min_heap_top_ (timeheap b) = Done (Some x) /\ evs b !! x = Some e /\
    in_timeheap e = true /\ 0 < hn (timeheap b) /\
    forall y ey, evs b !! y = Some ey -> in_timeheap ey = true -> tv_le (ev_timeout e) (ev_timeout ey).
Proof.
  intros Hw. destruct (to_heap _ _ _ _ (wf_timers _ _ Hw)) as (v & Hv & Hel).
  rewrite (min_heap_top_spec _ _ _ _ Hv). pose proof (hw_n _ _ _ _ Hv) as Hn.
  destruct v as [|x v]; [left|right]; simpl.
  - split; [done|]. intros y e Hy. apply not_true_is_false.
    rewrite <-(heap_member _ _ y e Hel Hy). set_solver.
  - rewrite zlen_cons in Hn. pose proof (zlen_nonneg v).
    assert (Hxv : x ∈ x :: v) by set_solver. pose proof (proj1 (Hel x) Hxv) as (t & Ht & _).
    rewrite lookup_fmap in Ht. destruct (evs b !! x) as [e|] eqn:Hx; [|done]. exists x, e.
    split; [done|]. split; [done|]. split; [by apply (heap_member _ _ x e Hel Hx)|]. split; [lia|].
    intros y ey Hy Hin. apply (heap_member _ _ y ey Hel Hy) in Hin.
    pose proof (top_earliest _ _ x y (hw_order _ _ _ _ Hv) eq_refl Hin) as Hle. unfold before in Hle.
    by rewrite (time_of_is _ x _ (view_lookup tview_of _ _ _ Hx)),
      (time_of_is _ y _ (view_lookup tview_of _ _ _ Hy)) in Hle.
Qed.

(** Nothing is due when the earliest timer is not. *)
Lemma none_due b now :
  (forall y e, evs b !! y = Some e -> due now e = false) ->
  forall y, evs b !! y = timed_out now <$> evs b !! y.
Proof. intros Hno y. apply fmap_id_on. intros e Hy. unfold timed_out. by rewrite (Hno y e Hy). Qed.

Lemma timeout_loop_wf exact en now fuel b :
  eb_wf exact b -> env_ok exact en -> inv_ok b -> (Z.to_nat (hn (timeheap b)) < fuel)%nat ->
  exists b', timeout_loop fuel en b now = Done b' /\ eb_wf exact b' /\ mild b b' /\ kept b b' /\
    forall y, evs b' !! y = timed_out now <$> evs b !! y.
Proof.
  revert b. induction fuel as [|fuel IH]; intros b Hw He Hf Hfuel; [lia|]. simpl.
  destruct (timer_top exact b Hw) as [[-> Hno]|(x & e & -> & Hx & Hin & Hn & Hmin)];
    cbn [mbind outcome_bind].
  { exists b. do 3 (split; [done|]). split; [reflexivity|]. apply none_due. intros y e Hy. unfold due.
    by rewrite (Hno y e Hy). }
  rewrite (get_done b x e Hx). cbn [mbind outcome_bind].
  destruct (timercmp_gt (ev_timeout e) now) eqn:Hgt.
  - exists b. do 3 (split; [done|]). split; [reflexivity|]. apply none_due. intros y ey Hy. unfold due.
    destruct (in_timeheap ey) eqn:Hiy; [|done]. pose proof (Hmin y ey Hy Hiy) as Hle. simpl.
    rewrite negb_false_iff. destruct (timercmp_gt (ev_timeout ey) now) eqn:E; [done|].
    assert (tv_le (ev_timeout e) now) as Hc by (etransitivity; [exact Hle|done]).
    unfold tv_le in Hc. congruence.
  - pose proof Hin as Hin'. unfold in_timeheap in Hin'. zb.
    destruct (fire_wf exact en b x e Hw He Hx H (iv_final _ _ (Hf x e Hx)))
      as (r & b1 & b2 & -> & Hact & Hw2 & Hm2 & Hk2 & Hs2 & Hev2).
    cbn [mbind outcome_bind]. rewrite Hact. cbn [mbind outcome_bind].
    unfold slot_freed in Hs2. fold (in_timeheap e) in Hs2. rewrite Hin in Hs2.
    destruct (IH b2 Hw2 He) as (b3 & -> & Hw3 & Hm3 & Hk3 & Hev3); [by eapply kept_inv|lia|].
    exists b3. split; [done|]. split; [done|]. split; [by etransitivity|]. split; [by etransitivity|].
    intros y. rewrite Hev3, Hev2, lookup_insert. case_decide; [subst|done].
    rewrite Hx. simpl. rewrite timed_out_fire. unfold timed_out, due. by rewrite Hin, Hgt.
Qed.

Lemma timeout_process_wf exact en b :
  eb_wf exact b -> env_ok exact en -> inv_ok b ->
  exists b', timeout_process en b = Done b' /\ eb_wf exact b' /\ mild b b' /\ kept b b' /\
    forall y, evs b' !! y = timed_out (gettime en b).1 <$> evs b !! y.
Proof.
  intros Hw He Hf. unfold timeout_process. destruct (min_heap_empty_ (timeheap b)) eqn:Hemp.
  - exists b. do 3 (split; [done|]). split; [reflexivity|]. apply none_due. intros y e Hy. unfold due.
    destruct (timer_top exact b Hw) as [[_ Hno]|(? & ? & _ & _ & _ & Hn & _)]; [by rewrite (Hno y e Hy)|].
    unfold min_heap_empty_ in Hemp. zb. lia.
  - destruct (gettime_spec exact en b Hw He) as (now & b1 & Hg & Hw1 & Hsq & Hm1 & _). rewrite Hg.
    pose proof Hsq as (Hev1 & _). assert (Hk1 : kept b b1) by (by apply kept_same).
    destruct (timeout_loop_wf exact en now (S (Z.to_nat (hn (timeheap b1)))) b1 Hw1 He)
      as (b' & -> & Hw' & Hm' & Hk' & Hev'); [by eapply kept_inv|lia|].
    exists b'. split; [done|]. split; [done|]. split; [by etransitivity|]. split; [by etransitivity|].
    by rewrite Hev1 in Hev'.
Qed.

(** ** The wait for the next timer *)

Lemma timeout_next_wf exact en b :
  eb_wf exact b -> env_ok exact en -> inv_ok b -> 0 <= tv_sec (gettime en b).1 ->
  exists o b', timeout_next en b = Done (o, b') /\ eb_wf exact b' /\ mild b b' /\ kept b b' /\
    match o with
    | None => forall y e, evs b !! y = Some e -> in_timeheap e = false
    | Some tv => exists x e, evs b !! x = Some e /\ in_timeheap e = true /\
        (forall y ey, evs b !! y = Some ey -> in_timeheap ey = true -> tv_le (ev_timeout e) (ev_timeout ey)) /\
        0 <= tv_sec tv /\ 0 <= tv_usec tv /\
        (if due (gettime en b).1 e then tv = tv0
         else tv_sec tv * 1000000 + tv_usec tv =
              (tv_sec (ev_timeout e) * 1000000 + tv_usec (ev_timeout e)) -
              (tv_sec (gettime en b).1 * 1000000 + tv_usec (gettime en b).1))
    end.
Proof.
  intros Hw He Hall Hs. unfold timeout_next.
  destruct (timer_top exact b Hw) as [[-> Hno]|(x & e & -> & Hx & Hin & _ & Hmin)]; cbn [mbind outcome_bind].
  { exists None, b. do 3 (split; [done|]). by split; [reflexivity|]. }
  rewrite (get_done b x e Hx). cbn [mbind outcome_bind].
  destruct (gettime_spec exact en b Hw He) as (now & b1 & Hg & Hw1 & Hsq & Hm1 & Hnow). rewrite Hg in *.
  simpl in Hs. assert (Hk1 : kept b b1) by (apply kept_same; [apply Hsq|done]).
  assert (Hse : norm (ev_timeout e)).
  { apply (iv_timer _ _ (Hall x e Hx)). unfold in_timeheap in Hin. by zb. }
  destruct Hse as [_ Hse].
  destruct (timercmp_gt (ev_timeout e) now) eqn:Hgt; simpl.
  2: { exists (Some tv0), b1. do 3 (split; [done|]). split; [done|]. exists x, e. do 3 (split; [done|]).
       split; [done|]. split; [done|]. unfold due. by rewrite Hin, Hgt. }
  assert (Hu : 0 <= tv_usec (ev_timeout e) <= 0xfffff).
  { unfold in_timeheap in Hin. zb. unfold hi in *. rewrite Z.shiftr_div_pow2 in * by lia.
    pose proof (Z.div_mod (tv_usec (ev_timeout e)) (2 ^ 20) ltac:(lia)).
    pose proof (Z.mod_pos_bound (tv_usec (ev_timeout e)) (2 ^ 20) ltac:(lia)). lia. }
  assert (Hd : due now e = false) by (unfold due; by rewrite Hin, Hgt).
  unfold timercmp_gt in Hgt. unfold timersub.
  assert (Hgt' : tv_sec now < tv_sec (ev_timeout e) \/
    tv_sec now = tv_sec (ev_timeout e) /\ tv_usec now < tv_usec (ev_timeout e)).
  { repeat case_test_in Hgt; zb; lia. }
  rewrite (i64_small (tv_usec _ - _)), (i64_small (tv_sec _ - _)) by lia.
  case_test; zb; simpl; rewrite ?i64_small by lia.
  all: replace (_ && _) with true by (symmetry; rewrite andb_true_iff, !Z.leb_le; lia).
  all: simpl; eexists (Some _), b1; do 3 (split; [done|]); split; [done|]; exists x, e;
    do 3 (split; [done|]); simpl; rewrite Hd; split; [lia|]; split; lia.
Qed.

(** ** Common-timeout queues *)

Definition in_common (i : nat) (e : event) : bool :=
  has (ev_flags e) EVLIST_TIMEOUT && (hi (ev_timeout e) =? 0x500 + Z.of_nat i).

Definition common_timed_out (i : nat) (now : timeval) (e : event) : event :=
  if in_common i e && ctl_due e now then fire e else e.

Lemma usec_split u : u = Z.shiftr u 20 * 2 ^ 20 + Z.land u MICROSECONDS_MASK.
Proof.
  change MICROSECONDS_MASK with (Z.ones 20). rewrite Z.land_ones, Z.shiftr_div_pow2 by lia.
  pose proof (Z.div_mod u (2 ^ 20) ltac:(lia)). lia.
Qed.

(** In one queue, what comes later is due later. *)
Lemma ctl_due_mono e1 e2 now :
  hi (ev_timeout e1) = hi (ev_timeout e2) -> tv_le (ev_timeout e1) (ev_timeout e2) ->
  ctl_due e1 now = false -> ctl_due e2 now = false.
Proof.
  rewrite tv_le_lex. unfold hi, ctl_due. intros Hh Hle H1.
  pose proof (usec_split (tv_usec (ev_timeout e1))). pose proof (usec_split (tv_usec (ev_timeout e2))).
  rewrite !negb_false_iff in *. rewrite !orb_true_iff, !andb_true_iff, !Z.ltb_lt, !Z.eqb_eq in *. lia.
Qed.

Lemma queue_member exact b i c x e :
  eb_wf exact b -> common_timeout_queues b !! i = Some c -> evs b !! x = Some e ->
  x ∈ ctl_events c <-> in_common i e = true.
Proof.
  intros Hw Hc Hx. rewrite (qo_elem _ _ _ (to_queue _ _ _ _ (wf_timers _ _ Hw) i c Hc)).
  rewrite (holds_is _ _ x _ (view_lookup tview_of _ _ _ Hx)).
  unfold in_common, in_queue. by rewrite andb_true_iff, Z.eqb_eq.
Qed.

Lemma queue_known exact b i c x :
  eb_wf exact b -> common_timeout_queues b !! i = Some c -> x ∈ ctl_events c -> is_Some (evs b !! x).
Proof.
  intros Hw Hc Hx. apply (qo_elem _ _ _ (to_queue _ _ _ _ (wf_timers _ _ Hw) i c Hc)) in Hx as (t & Ht & _).
  rewrite lookup_fmap in Ht. destruct (evs b !! x); [eauto|done].
Qed.

(** The head of a queue is its earliest event. *)
Lemma queue_head exact b i c x l e :
  eb_wf exact b -> common_timeout_queues b !! i = Some c -> ctl_events c = x :: l -> evs b !! x = Some e ->
  forall y ey, evs b !! y = Some ey -> in_common i ey = true -> tv_le (ev_timeout e) (ev_timeout ey).
Proof.
  intros Hw Hc Hl Hx y ey Hy Hin. apply (queue_member exact b i c y ey Hw Hc Hy) in Hin.
  pose proof (qo_sorted _ _ _ (to_queue _ _ _ _ (wf_timers _ _ Hw) i c Hc)) as Hso. rewrite Hl in Hso, Hin.
  apply elem_of_cons in Hin as [->|Hin]; [simplify_eq; reflexivity|].
  inversion Hso as [|? ? _ Hall]; subst. rewrite Forall_forall in Hall. specialize (Hall y Hin).
  by rewrite (time_of_is _ x _ (view_lookup tview_of _ _ _ Hx)),
    (time_of_is _ y _ (view_lookup tview_of _ _ _ Hy)) in Hall.
Qed.

(** A queue loses exactly the event that left it. *)
Lemma queue_shrinks exact b b' i c c' x e e' :
  eb_wf exact b -> eb_wf exact b' -> common_timeout_queues b !! i = Some c ->
  common_timeout_queues b' !! i = Some c' -> evs b !! x = Some e -> x ∈ ctl_events c ->
  evs b' = <[x := e']> (evs b) -> in_common i e' = false ->
  ctl_events c' ≡ₚ without x (ctl_events c).
Proof.
  intros Hw Hw' Hc Hc' Hx Hin Hev Hoff. apply NoDup_Permutation.
  - apply (to_queue _ _ _ _ (wf_timers _ _ Hw') i c' Hc').
  - apply NoDup_without, (to_queue _ _ _ _ (wf_timers _ _ Hw) i c Hc).
  - intros y. rewrite elem_of_without. destruct (decide (y = x)) as [->|Hne].
    + rewrite (queue_member exact b' i c' x e' Hw' Hc') by (by rewrite Hev, lookup_insert_eq).
      rewrite Hoff. naive_solver.
    + assert (Hl : evs b' !! y = evs b !! y) by (by rewrite Hev, lookup_insert_ne).
      split; intros Hy.
      * destruct (queue_known exact b' i c' y Hw' Hc' Hy) as [ey Hey]. split; [|done].
        apply (queue_member exact b' i c' y ey Hw' Hc' Hey) in Hy. rewrite Hl in Hey.
        by apply (queue_member exact b i c y ey Hw Hc Hey).
      * destruct Hy as [Hy _]. destruct (queue_known exact b i c y Hw Hc Hy) as [ey Hey].
        apply (queue_member exact b i c y ey Hw Hc Hey) in Hy. rewrite <-Hl in Hey.
        by apply (queue_member exact b' i c' y ey Hw' Hc' Hey).
Qed.

Lemma owners_nth b b' i c :
  owners b' = owners b -> common_timeout_queues b !! i = Some c ->
  exists c', common_timeout_queues b' !! i = Some c' /\ ctl_duration c' = ctl_duration c /\
    ctl_timeout_event c' = ctl_timeout_event c.
Proof.
  intros Ho Hc. apply (f_equal (fun l => l !! i)) in Ho. unfold owners in Ho.
  rewrite !list_lookup_fmap, Hc in Ho. destruct (common_timeout_queues b' !! i) as [c'|]; [|done].
  simplify_eq/=. eauto.
Qed.

Lemma common_schedule_wf exact en b i c e :
  eb_wf exact b -> own_ok b -> env_ok exact en -> heap_mem en ->
  common_timeout_queues b !! i = Some c -> norm (ev_timeout e) ->
  exists b', common_timeout_schedule en b c e = Done b' /\ eb_wf exact b' /\ mild b b' /\ kept b b' /\
    forall y, y <> ctl_timeout_event c -> evs b' !! y = evs b !! y.
Proof.
  intros Hw Ho He Hmem Hc Hn. unfold common_timeout_schedule.
  destruct (Ho _ (owns_lookup b i c Hc)) as (z & Hz & Hini & Hcl).
  assert (Hlow : hi (mask_usec (ev_timeout e)) = 0) by apply hi_low, mask_usec_range.
  destruct (event_add_wf exact en b (ctl_timeout_event c) z (Some (mask_usec (ev_timeout e))) true)
    as (r & b' & -> & Hw' & Hm' & Hk' & Hev'); auto.
  { by left. } { split; [by apply norm_mask|by intros _ ?]. } { by left. }
  cbn [mbind outcome_bind]. exists b'. do 4 (split; [done|]). intros y Hy.
  destruct Hev' as [[_ ->]|(_ & _ & [->|[Hcom _]])]; [done|by rewrite lookup_insert_ne|].
  by rewrite not_common_low in Hcom.
Qed.

Lemma common_loop_wf exact en now i fuel b c :
  eb_wf exact b -> own_ok b -> env_ok exact en -> heap_mem en -> inv_ok b ->
  common_timeout_queues b !! i = Some c -> (length (ctl_events c) < fuel)%nat ->
  exists b', common_loop fuel en b i now = Done b' /\ eb_wf exact b' /\ mild b b' /\ kept b b' /\
    forall y, y <> ctl_timeout_event c -> evs b' !! y = common_timed_out i now <$> evs b !! y.
Proof.
  revert b c. induction fuel as [|fuel IH]; intros b c Hw Ho He Hmem Hf Hc Hfuel; [lia|]. simpl.
  rewrite Hc. cbn [mbind outcome_bind deref].
  assert (Hno : (forall y e, evs b !! y = Some e -> in_common i e && ctl_due e now = false) ->
    forall y, evs b !! y = common_timed_out i now <$> evs b !! y).
  { intros Hno y. apply fmap_id_on. intros e Hy. unfold common_timed_out. by rewrite (Hno y e Hy). }
  destruct (ctl_events c) as [|x l] eqn:Hl.
  { exists b. do 3 (split; [done|]). split; [reflexivity|]. intros y _. apply Hno. clear y.
    intros y e Hy. rewrite (not_true_is_false (in_common i e)); [done|].
    rewrite <-(queue_member exact b i c y e Hw Hc Hy), Hl. set_solver. }
  assert (Hxl : x ∈ ctl_events c) by (rewrite Hl; set_solver).
  destruct (queue_known exact b i c x Hw Hc Hxl) as [e Hx]. rewrite (get_done b x e Hx).
  cbn [mbind outcome_bind]. pose proof (proj1 (queue_member exact b i c x e Hw Hc Hx) Hxl) as Hin.
  destruct (ctl_due e now) eqn:Hdue.
  - pose proof Hin as Hin'. unfold in_common in Hin'. zb.
    destruct (fire_wf exact en b x e Hw He Hx H (iv_final _ _ (Hf x e Hx)))
      as (r & b1 & b2 & -> & Hact & Hw2 & Hm2 & Hk2 & _ & Hev2).
    cbn [mbind outcome_bind]. rewrite Hact. cbn [mbind outcome_bind].
    destruct (owners_nth b b2 i c (kept_queues _ _ Hk2) Hc) as (c2 & Hc2 & _ & Hown).
    assert (Hoff : in_common i (fire e) = false) by (unfold in_common; by rewrite fire_timeout).
    pose proof (queue_shrinks exact b b2 i c c2 x e _ Hw Hw2 Hc Hc2 Hx Hxl Hev2 Hoff) as Hp.
    apply Permutation_length in Hp.
    pose proof (zlen_without x (ctl_events c)
      (qo_nodup _ _ _ (to_queue _ _ _ _ (wf_timers _ _ Hw) i c Hc)) Hxl) as Hz. unfold zlen in Hz.
    rewrite Hl in Hz, Hp. destruct (IH b2 c2) as (b3 & -> & Hw3 & Hm3 & Hk3 & Hev3); auto.
    { by eapply kept_own. } { by eapply kept_inv. }
    { simpl in *. lia. }
    exists b3. split; [done|]. split; [done|]. split; [by etransitivity|]. split; [by etransitivity|].
    intros y Hy. rewrite Hev3, Hev2, lookup_insert by congruence. case_decide; [subst|done].
    rewrite Hx. simpl. unfold common_timed_out at 1. rewrite Hoff. simpl. unfold common_timed_out.
    by rewrite Hin, Hdue.
  - assert (Hnd : forall y, evs b !! y = common_timed_out i now <$> evs b !! y).
    { apply Hno. intros y ey Hy. destruct (in_common i ey) eqn:Hiy; [|done]. simpl.
      apply (ctl_due_mono e ey now); [|by apply (queue_head exact b i c x l e Hw Hc Hl Hx y ey)|done].
      unfold in_common in *. zb. lia. }
    assert (Hnorm : norm (ev_timeout e)).
    { apply (iv_timer _ _ (Hf x e Hx)). unfold in_common in Hin. by zb. }
    destruct (common_schedule_wf exact en b i c e Hw Ho He Hmem Hc Hnorm)
      as (b' & -> & Hw' & Hm' & Hk' & Hev').
    exists b'. do 4 (split; [done|]). intros y Hy. rewrite <-Hnd. auto.
Qed.

Lemma common_timeout_callback_wf exact en b i c :
  eb_wf exact b -> own_ok b -> env_ok exact en -> heap_mem en -> inv_ok b ->
  common_timeout_queues b !! i = Some c ->
  exists b', common_timeout_callback en b i = Done b' /\ eb_wf exact b' /\ mild b b' /\ kept b b' /\
    forall y, y <> ctl_timeout_event c ->
      evs b' !! y = common_timed_out i (gettime en b).1 <$> evs b !! y.
Proof.
  intros Hw Ho He Hmem Hf Hc. unfold common_timeout_callback.
  destruct (gettime_spec exact en b Hw He) as (now & b1 & -> & Hw1 & Hsq & Hm1 & _).
  pose proof Hsq as (Hev1 & _ & _ & Hq1 & _). assert (Hk1 : kept b b1) by (by apply kept_same).
  rewrite Hq1, Hc. cbn [mbind outcome_bind deref].
  destruct (common_loop_wf exact en now i (S (length (ctl_events c))) b1 c)
    as (b' & -> & Hw' & Hm' & Hk' & Hev'); auto; [by eapply kept_own|by eapply kept_inv|by rewrite Hq1|].
  exists b'. split; [done|]. split; [done|]. split; [by etransitivity|]. split; [by etransitivity|].
  by rewrite Hev1 in Hev'.
Qed.
