(* ===== verification/EventLoop.v ===== *)
(** * The event loop

    Models the rest of the core of [libevent/event.c]: creating a base, one-shot
    events, the closures that run callbacks, [event_process_active],
    [event_base_loop], and the consistency check [event_base_assert_ok_nolock_]
    with [evmap_check_integrity_] of [libevent/evmap.c].

    A user callback is a parameter [cb]: the address of its event, the
    conditions it is told, and what it does to the base.  The callback of a
    common-timeout queue is the library's own [common_timeout_callback].  The
    backend is a parameter [dispatch].  The loops that may run for ever take
    fuel and return [None] when it is used up.  Memory is not given back
    ([mm_free] of a finalized event), and the signal socket pair is not
    modelled. *)

From S2P Require Import Prelude MinHeap EventBase.

(** ** Creating a base *)

Record event_config := mkConfig {
  cfg_max_dispatch_interval : timeval;
  cfg_max_dispatch_callbacks : Z;
  cfg_limit_callbacks_after_prio : Z
}.

Definition event_config_new : event_config := mkConfig (mkTimeval (-1) 0) INT_MAX 1.

(** [event_config_set_max_dispatch_interval] *)
Definition event_config_set_max_dispatch_interval (cfg : event_config)
    (max_interval : option timeval) (max_callbacks min_priority : Z) : event_config :=
  mkConfig (match max_interval with Some tv => tv | None => mkTimeval (-1) 0 end)
    (if 0 <=? max_callbacks then max_callbacks else INT_MAX)
    (if min_priority <? 0 then 0 else min_priority).

(** [mm_calloc] *)
Definition zeroed_base : event_base :=
  mkBase ∅ min_heap_ctor_ ∅ [] 0 [] [] (mkMap ∅ 0) (mkMap ∅ 0) ∅ ∅ 0 0 0 0 0 0 false false false
    0 false 0 None None 0 tv0 tv0 0 false tv0 0 0.

(** The backend found, and no threading. *)
Definition event_base_new_with_config (e : env) (cfg : option event_config) : option event_base :=
  if negb (mem_ok e BaseItself) then None else
  let '(_, b) := gettime e zeroed_base in
  let b := match cfg with
           | Some c => set_limit_callbacks_after_prio
                         (set_max_dispatch_time b (cfg_max_dispatch_interval c))
                         (cfg_limit_callbacks_after_prio c)
           | None => set_limit_callbacks_after_prio (set_max_dispatch_time b (mkTimeval (-1) 0)) 1
           end in
  let b := set_max_dispatch_callbacks b
             (match cfg with
              | Some c => if 0 <=? cfg_max_dispatch_callbacks c then cfg_max_dispatch_callbacks c
                          else INT_MAX
              | None => INT_MAX
              end) in
  let b := if (max_dispatch_callbacks b =? INT_MAX) && (tv_sec (max_dispatch_time b) =? -1)
           then set_limit_callbacks_after_prio b INT_MAX else b in
  let '(r, b) := event_base_priority_init e b 1 in
  if r <? 0 then None else Some b.

(** ** One-shot events *)

(** [fresh] is the address [mm_calloc] returned; the second result says whether
    the base lock was released. *)
Definition event_base_once (e : env) (fresh : Z) (b : event_base) (fd events : Z)
    (tv : option timeval) : outcome (Z * bool * event_base) :=
  let blank := mkEvent 0 0 EV_CLOSURE_EVENT 0 0 0 tv0 tv0 0 None in
  if has events (Z.lor EV_SIGNAL EV_PERSIST) then Done (-1, true, b) else
  if negb (mem_ok e OnceEvent) then Done (-1, true, b) else
  if Z.land events (Z.lor EV_TIMEOUT (Z.lor EV_SIGNAL EV_IO)) =? EV_TIMEOUT then
    let '(_, b) := event_assign b fresh (-1) 0 blank in
    match tv with
    | Some tv' =>
        if negb (tv_sec tv' =? 0) || negb (tv_usec tv' =? 0) then
          '(res, b) ← event_add_nolock_ e b fresh tv false; Done (res, res =? 0, b)
        else b ← event_active_nolock_ b fresh EV_TIMEOUT 1; Done (0, true, b)
    | None => b ← event_active_nolock_ b fresh EV_TIMEOUT 1; Done (0, true, b)
    end
  else if has events EV_IO then
    let '(_, b) := event_assign b fresh fd (Z.land events EV_IO) blank in
    '(res, b) ← event_add_nolock_ e b fresh tv false; Done (res, res =? 0, b)
  else Done (-1, true, b).

(** ** Closures *)

Section closures.
Variable e : env.
Variable cb : Z -> Z -> event_base -> outcome event_base.

Fixpoint position (x : Z) (l : list Z) : option nat :=
  match l with
  | [] => None
  | y :: l => if y =? x then Some O else option_map S (position x l)
  end.

(** The queue whose own event is [x]. *)
Definition queue_of (b : event_base) (x : Z) : option nat :=
  position x (ctl_timeout_event <$> common_timeout_queues b).

Definition call (b : event_base) (x : Z) : outcome event_base :=
  ev ← get b x;
  match queue_of b x with
  | Some i => common_timeout_callback e b i
  | None => cb x (ev_res ev) b
  end.

(** The local variable [ncalls] of the closure that is running. *)
Definition frame_value (b : event_base) : Z := match sig_frame b with Some (_, n) => n | None => 0 end.

Fixpoint signal_loop (fuel : nat) (b : event_base) (x f : Z) : outcome event_base :=
  let ncalls := frame_value b in
  if ncalls =? 0 then Done b else
  match fuel with
  | O => Crash
  | S fuel =>
      let ncalls := i16 (ncalls - 1) in
      let b := set_sig_frame b (Some (f, ncalls)) in
      ev ← get b x;
      let ev := set_ev_ncalls ev ncalls in
      let b := put b x (if ncalls =? 0 then set_ev_pncalls ev None else ev) in
      b ← cb x (ev_res ev) b;
      if event_break b then
        if frame_value b =? 0 then Done b
        else ev ← get b x; Done (put b x (set_ev_pncalls ev None))
      else signal_loop fuel b x f
  end.

(** Each turn takes one from [ncalls], a [short], or sets it to zero. *)
Definition event_signal_closure (b : event_base) (x : Z) : outcome event_base :=
  ev ← get b x;
  let ncalls := ev_ncalls ev in
  let f := sig_next b in
  let b := set_sig_next (set_sig_frame b (Some (f, ncalls))) (f + 1) in
  let b := if ncalls =? 0 then b else put b x (set_ev_pncalls ev (Some f)) in
  b ← signal_loop (Z.to_nat (ncalls mod 2 ^ 16)) b x f;
  Done (set_sig_frame b None).

(** When a persistent event runs again, [usec_mask] its queue bits. *)
Definition persist_time (b : event_base) (ev : event) (now : timeval) : timeval :=
  let common := is_common_timeout (ev_timeout ev) b in
  let delay := if common then mask_usec (ev_io_timeout ev) else ev_io_timeout ev in
  let usec_mask := if common then Z.land (tv_usec (ev_io_timeout ev)) (Z.lnot MICROSECONDS_MASK) else 0 in
  let relative_to :=
    if has (ev_res ev) EV_TIMEOUT
    then (if common then mask_usec (ev_timeout ev) else ev_timeout ev) else now in
  let run_at := timeradd relative_to delay in
  let run_at := if timercmp_gt now run_at then timeradd now delay else run_at in
  mkTimeval (tv_sec run_at) (Z.lor (tv_usec run_at) usec_mask).

Definition event_persist_closure (b : event_base) (x : Z) : outcome event_base :=
  ev ← get b x;
  b ← (if negb (tv_sec (ev_io_timeout ev) =? 0) || negb (tv_usec (ev_io_timeout ev) =? 0) then
         _ ← assert_c (is_same_common_timeout (ev_timeout ev) (ev_io_timeout ev));
         let '(now, b) := gettime e b in
         '(_, b) ← event_add_nolock_ e b x (Some (persist_time b ev now)) true;
         Done b
       else Done b);
  ev ← get b x;
  cb x (ev_res ev) b.

(** The body of the loop of [event_process_active_single_queue] up to the
    point where the lock is held again; the result says whether the callback
    counts. *)
Definition run_callback (b : event_base) (x : Z) : outcome (bool * event_base) :=
  ev ← get b x;
  b ← (if has (ev_flags ev) EVLIST_INIT then
         if has (ev_events ev) EV_PERSIST || has (ev_flags ev) EVLIST_FINALIZING
         then event_queue_remove_active b x
         else '(_, b) ← event_del_nolock_ e b x EVENT_DEL_NOBLOCK; Done b
       else event_queue_remove_active b x);
  let b := set_current_event b (Some x) in
  let init := has (ev_flags ev) EVLIST_INIT in
  let final := has (ev_flags ev) EVLIST_FINALIZING in
  b ← match ev_closure ev with
      | EV_CLOSURE_EVENT_SIGNAL => _ ← assert_c init; event_signal_closure b x
      | EV_CLOSURE_EVENT_PERSIST => _ ← assert_c init; event_persist_closure b x
      | EV_CLOSURE_EVENT => _ ← assert_c init; call b x
      | EV_CLOSURE_CB_SELF => call b x
      | EV_CLOSURE_EVENT_FINALIZE | EV_CLOSURE_EVENT_FINALIZE_FREE =>
          _ ← assert_c init; _ ← assert_c final; call (set_current_event b None) x
      | EV_CLOSURE_CB_FINALIZE => _ ← assert_c final; call (set_current_event b None) x
      end;
  Done (negb (has (ev_flags ev) EVLIST_INTERNAL), set_current_event b None).

(** ** Processing active events *)

(** [trace] lists the callbacks run, [None] is out of fuel. *)
Record turn := mkTurn { trace : list Z; result : Z; base : event_base }.

Definition past (b : event_base) (endtime : option timeval) : bool * event_base :=
  match endtime with
  | None => (false, b)
  | Some t =>
      let '(now, b) := gettime e (update_time_cache e b) in
      (negb (timercmp_gt t now), b)
  end.

Fixpoint event_process_active_single_queue (fuel : nat) (b : event_base) (i : nat) (count : Z)
    (max_to_process : Z) (endtime : option timeval) : outcome (option turn) :=
  q ← deref (activequeues b !! i);
  match q with
  | [] => Done (Some (mkTurn [] count b))
  | x :: _ =>
      match fuel with
      | O => Done None
      | S fuel =>
          '(real, b) ← run_callback b x;
          let count := if (real : bool) then count + 1 else count in
          if event_break b then Done (Some (mkTurn [x] (-1) b)) else
          if max_to_process <=? count then Done (Some (mkTurn [x] count b)) else
          let '(late, b) := if count =? 0 then (false, b) else past b endtime in
          if (late : bool) then Done (Some (mkTurn [x] count b)) else
          if event_continue b then Done (Some (mkTurn [x] count b)) else
          o ← event_process_active_single_queue fuel b i count max_to_process endtime;
          Done (match o with
                | Some t => Some (mkTurn (x :: trace t) (result t) (base t))
                | None => None
                end)
      end
  end.

(** The queues from [i] on, [k] of them. *)
Fixpoint process_from (fuel k : nat) (b : event_base) (i : nat) (c : Z)
    (maxcb limit_after_prio : Z) (endtime : option timeval) : outcome (option turn) :=
  match k with
  | O => Done (Some (mkTurn [] c b))
  | S k =>
      q ← deref (activequeues b !! i);
      match q with
      | [] => process_from fuel k b (S i) c maxcb limit_after_prio endtime
      | _ =>
          let b := set_event_running_priority b (Z.of_nat i) in
          o ← (if Z.of_nat i <? limit_after_prio
               then event_process_active_single_queue fuel b i 0 INT_MAX None
               else event_process_active_single_queue fuel b i 0 maxcb endtime);
          match o with
          | None => Done None
          | Some t =>
              if result t =? 0 then
                o ← process_from fuel k (base t) (S i) 0 maxcb limit_after_prio endtime;
                Done (match o with
                      | Some t' => Some (mkTurn (trace t ++ trace t') (result t') (base t'))
                      | None => None
                      end)
              else Done (Some t)
          end
      end
  end.

Definition event_process_active (fuel : nat) (b : event_base) : outcome (option turn) :=
  let '(endtime, b) :=
    if 0 <=? tv_sec (max_dispatch_time b) then
      let '(tv, b) := gettime e (update_time_cache e b) in
      (Some (timeradd (max_dispatch_time b) tv), b)
    else (None, b) in
  o ← process_from fuel (length (activequeues b)) b O 0 (max_dispatch_callbacks b)
        (limit_callbacks_after_prio b) endtime;
  Done (match o with
        | Some t => Some (mkTurn (trace t) (result t) (set_event_running_priority (base t) (-1)))
        | None => None
        end).

(** ** The loop *)

Variable dispatch : option timeval -> event_base -> outcome (Z * event_base).

Definition EVLOOP_ONCE : Z := 0x01.
Definition EVLOOP_NONBLOCK : Z := 0x02.
Definition EVLOOP_NO_EXIT_ON_EMPTY : Z := 0x04.

Definition event_haveevents (b : event_base) : bool :=
  (0 <? virtual_event_count b) || (0 <? event_count b).

Definition N_ACTIVE_CALLBACKS (b : event_base) : bool := negb (event_count_active b =? 0).

(** One turn: [inl r] leaves the loop with [retval] [r], [inr] is [done]. *)
Definition loop_turn (fuel : nat) (flags : Z) (b : event_base)
    : outcome (option (Z + bool) * event_base) :=
  let b := set_n_deferreds_queued (set_event_continue b false) 0 in
  if event_gotterm b || event_break b then Done (Some (inr true), b) else
  '(tv_p, b) ← (if negb (N_ACTIVE_CALLBACKS b) && negb (has flags EVLOOP_NONBLOCK)
                then timeout_next e b else Done (Some tv0, b));
  if negb (has flags EVLOOP_NO_EXIT_ON_EMPTY) && negb (event_haveevents b) && negb (N_ACTIVE_CALLBACKS b)
  then Done (Some (inl 1), b) else
  b ← event_queue_make_later_events_active b;
  let b := clear_time_cache b in
  '(res, b) ← dispatch tv_p b;
  if res =? -1 then Done (Some (inl (-1)), b) else
  let b := update_time_cache e b in
  b ← timeout_process e b;
  if N_ACTIVE_CALLBACKS b then
    o ← event_process_active fuel b;
    match o with
    | None => Done (None, b)
    | Some t =>
        Done (Some (inr (has flags EVLOOP_ONCE && negb (N_ACTIVE_CALLBACKS (base t)) &&
                         negb (result t =? 0))), base t)
    end
  else Done (Some (inr (has flags EVLOOP_NONBLOCK)), b).

Fixpoint loop_from (turns fuel : nat) (flags : Z) (b : event_base) : outcome (option Z * event_base) :=
  match turns with
  | O => Done (None, b)
  | S turns =>
      '(o, b) ← loop_turn fuel flags b;
      match o with
      | None => Done (None, b)
      | Some (inl r) => Done (Some r, b)
      | Some (inr true) => Done (Some 0, b)
      | Some (inr false) => loop_from turns fuel flags b
      end
  end.

Definition event_base_loop (turns fuel : nat) (flags : Z) (b : event_base)
    : outcome (option Z * event_base) :=
  if running_loop b then Done (Some (-1), b) else
  let b := clear_time_cache (set_running_loop b true) in
  let b := set_event_break (set_event_gotterm b false) false in
  '(r, b) ← loop_from turns fuel flags b;
  Done (r, set_running_loop (clear_time_cache b) false).

End closures.

Definition event_base_loopbreak (b : event_base) : event_base := set_event_break b true.
Definition event_base_loopcontinue (b : event_base) : event_base := set_event_continue b true.
Definition event_base_got_break (b : event_base) : bool := event_break b.
Definition event_base_got_exit (b : event_base) : bool := event_gotterm b.

(** ** The consistency check *)

Definition all_events (b : event_base) (l : list Z) (f : event -> bool) : bool :=
  forallb (fun x => match evs b !! x with Some ev => f ev | None => false end) l.

Definition count_wanting (b : event_base) (l : list Z) (f : Z) : Z :=
  zlen (filter (fun x => match evs b !! x with Some ev => has (ev_events ev) f | None => false end = true) l).

(** [EVUTIL_ASSERT_LIST_OK]: no cycle. *)
Definition list_ok (l : list Z) : bool := bool_decide (NoDup l).

Definition evmap_io_check_integrity_fn (b : event_base) (fd : Z) (c : evmap_io) : bool :=
  list_ok (io_events c) &&
  all_events b (io_events c) (fun ev =>
    has (ev_flags ev) EVLIST_INSERTED && (ev_fd ev =? fd) && negb (has (ev_events ev) EV_SIGNAL) &&
    has (ev_events ev) EV_IO) &&
  (count_wanting b (io_events c) EV_READ =? nread c) &&
  (count_wanting b (io_events c) EV_WRITE =? nwrite c) &&
  (count_wanting b (io_events c) EV_CLOSED =? nclose c).

Definition evmap_signal_check_integrity_fn (b : event_base) (signum : Z) (l : list Z) : bool :=
  list_ok l &&
  all_events b l (fun ev =>
    has (ev_flags ev) EVLIST_INSERTED && (ev_fd ev =? signum) && has (ev_events ev) EV_SIGNAL &&
    negb (has (ev_events ev) EV_IO)).

Definition evmap_check_integrity_ (b : event_base) : bool :=
  forallb (fun p => evmap_io_check_integrity_fn b p.1 p.2) (map_to_list (entries (io b))) &&
  forallb (fun p => evmap_signal_check_integrity_fn b p.1 p.2) (map_to_list (entries (sigmap b))).

(** [timeheap.p[i]] for [i >= 1] *)
Definition check_heap_at (b : event_base) (i : nat) : bool :=
  match hp (timeheap b) !! i, hp (timeheap b) !! ((i - 1) / 2)%nat with
  | Some (Some x), Some (Some p) =>
      match evs b !! x, evs b !! p with
      | Some ev, Some p_ev =>
          has (ev_flags ev) EVLIST_TIMEOUT && negb (timercmp_gt (ev_timeout p_ev) (ev_timeout ev)) &&
          bool_decide (hidx b !! x = Some (Z.of_nat i))
      | _, _ => false
      end
  | _, _ => false
  end.

Fixpoint times_sorted (b : event_base) (l : list Z) : bool :=
  match l with
  | x :: ((y :: _) as l') => negb (timercmp_gt (tmo b x) (tmo b y)) && times_sorted b l'
  | _ => true
  end.

Definition check_ctl (b : event_base) (i : nat) (c : common_timeout_list) : bool :=
  list_ok (ctl_events c) && times_sorted b (ctl_events c) &&
  all_events b (ctl_events c) (fun ev =>
    has (ev_flags ev) EVLIST_TIMEOUT && is_common_timeout (ev_timeout ev) b &&
    (COMMON_TIMEOUT_IDX (ev_timeout ev) =? Z.of_nat i)).

Definition ACTIVE_MASK : Z := Z.lor EVLIST_ACTIVE EVLIST_ACTIVE_LATER.

Definition check_activeq (b : event_base) (i : nat) (q : list Z) : bool :=
  list_ok q &&
  all_events b q (fun ev =>
    (Z.land (ev_flags ev) ACTIVE_MASK =? EVLIST_ACTIVE) && (ev_pri ev =? Z.of_nat i)).

Fixpoint checki {A} (f : nat -> A -> bool) (i : nat) (l : list A) : bool :=
  match l with
  | [] => true
  | a :: l => f i a && checki f (S i) l
  end.

Definition event_base_assert_ok_nolock_ (b : event_base) : bool :=
  evmap_check_integrity_ b &&
  forallb (check_heap_at b) (seq 1 (Z.to_nat (hn (timeheap b)) - 1)) &&
  checki (check_ctl b) O (common_timeout_queues b) &&
  checki (check_activeq b) O (activequeues b) &&
  all_events b (active_later_queue b) (fun ev => Z.land (ev_flags ev) ACTIVE_MASK =? EVLIST_ACTIVE_LATER) &&
  (zlen (concat (activequeues b)) + zlen (active_later_queue b) =? event_count_active b).
