(* ===== verification/EventCheck.v ===== *)
(** * The event base: creation, and the library's own consistency check

    A fresh base satisfies the invariant, assigning events and creating
    common-timeout queues keep it, and whenever it holds every assertion of
    [event_base_assert_ok_nolock_] ([EventLoop]) succeeds. *)

From stdpp Require Import sorting.
From S2P Require Import Prelude MinHeap EventBase EventBaseInv EventBaseOps EventBaseKept EventBaseAdd EventBaseAct EventTimers EventLoop.

(** ** The check *)

Lemma all_events_true b l f :
  (forall x, x ∈ l -> exists e, evs b !! x = Some e /\ f e = true) -> all_events b l f = true.
Proof.
  intros H. unfold all_events. apply forallb_forall. intros x Hx. apply list_elem_of_In in Hx.
  destruct (H x Hx) as (e & -> & He). done.
Qed.

Lemma checki_true {A} (f : nat -> A -> bool) l i :
  (forall j a, l !! j = Some a -> f (i + j)%nat a = true) -> checki f i l = true.
Proof.
  revert i. induction l as [|a l IH]; intros i H; simpl; [done|].
  rewrite <-(Nat.add_0_r i) at 1. rewrite (H 0%nat a eq_refl). simpl. apply IH.
  intros j a' Hj. rewrite <-(H (S j) a' Hj). f_equal. lia.
Qed.

Lemma view_event {V} (f : event -> V) (m : gmap Z event) (P : V -> Prop) x :
  holds (f <$> m) P x -> exists e, m !! x = Some e /\ P (f e).
Proof.
  intros (v & Hv & HP). rewrite lookup_fmap in Hv. destruct (m !! x) as [e|]; [|done].
  simplify_eq/=. eauto.
Qed.

Lemma count_wanting_cnt b l f : count_wanting b l f = cnt (iview_of <$> evs b) f l.
Proof.
  unfold count_wanting, cnt, want. f_equal. apply list_filter_iff. intros x. rewrite lookup_fmap.
  by destruct (evs b !! x).
Qed.

Lemma check_io exact b fd c :
  eb_wf exact b -> entries (io b) !! fd = Some c -> evmap_io_check_integrity_fn b fd c = true.
Proof.
  intros Hw Hs. destruct (io_slot _ _ _ _ (wf_io _ _ Hw) _ _ Hs) as [_ [Hnd Hel [Hr _] [Hwr _] [Hcl _]]].
  unfold evmap_io_check_integrity_fn. rewrite !count_wanting_cnt, Hr, Hwr, Hcl, !Z.eqb_refl.
  unfold list_ok. rewrite bool_decide_true, all_events_true; [done| |done].
  intros x Hx. apply Hel in Hx. apply view_event in Hx as (e & Hx & Hon & Hio & Hfd). exists e. split; [done|].
  simpl in *. rewrite Hon, Hio, Hfd, Z.eqb_refl. simpl.
  destruct (shape_of _ _ _ _ Hw Hx) as (_ & _ & S3). simpl in S3.
  destruct (has (ev_events e) EV_SIGNAL); [|done]. destruct (S3 eq_refl). congruence.
Qed.

Lemma check_signal exact b s l :
  eb_wf exact b -> entries (sigmap b) !! s = Some l -> evmap_signal_check_integrity_fn b s l = true.
Proof.
  intros Hw Hs. destruct (sg_slot _ _ _ _ (wf_sig _ _ Hw) _ _ Hs) as (_ & Hnd & Hel).
  unfold evmap_signal_check_integrity_fn, list_ok. rewrite bool_decide_true, all_events_true; [done| |done].
  intros x Hx. apply Hel in Hx. apply view_event in Hx as (e & Hx & Hon & Hsg & Hfd). exists e. split; [done|].
  simpl in *. rewrite Hon, Hsg, Hfd, Z.eqb_refl. simpl.
  destruct (shape_of _ _ _ _ Hw Hx) as (_ & _ & S3). simpl in S3. by destruct (S3 Hsg) as [-> _].
Qed.

Lemma check_maps exact b : eb_wf exact b -> evmap_check_integrity_ b = true.
Proof.
  intros Hw. unfold evmap_check_integrity_. apply andb_true_iff. split; apply forallb_forall; intros [k v] Hin;
    apply list_elem_of_In in Hin; apply elem_of_map_to_list in Hin; simpl.
  - by eapply check_io.
  - by eapply check_signal.
Qed.

Lemma check_heap exact b i :
  eb_wf exact b -> (1 <= i < Z.to_nat (hn (timeheap b)))%nat -> check_heap_at b i = true.
Proof.
  intros Hw Hi. destruct (to_heap _ _ _ _ (wf_timers _ _ Hw)) as (v & Hv & Hel).
  rewrite (hw_n _ _ _ _ Hv) in Hi. unfold zlen in Hi. rewrite Nat2Z.id in Hi.
  assert (Hp : ((i - 1) / 2 < i)%nat) by (apply Nat.Div0.div_lt_upper_bound; lia).
  destruct (lookup_lt_is_Some_2 v i) as [x Hx]; [lia|].
  destruct (lookup_lt_is_Some_2 v ((i - 1) / 2)) as [p Hpp]; [lia|].
  unfold check_heap_at. rewrite (ra_mem _ _ _ _ (hw_rep _ _ _ _ Hv) i x Hx I),
    (ra_mem _ _ _ _ (hw_rep _ _ _ _ Hv) _ p Hpp I).
  assert (Hxv : holds (tview_of <$> evs b) in_heap x) by (apply Hel; by eapply list_elem_of_lookup_2).
  assert (Hpv : holds (tview_of <$> evs b) in_heap p) by (apply Hel; by eapply list_elem_of_lookup_2).
  apply view_event in Hxv as (ex & Hex & Htx & _), Hpv as (ep & Hep & _). rewrite Hex, Hep.
  rewrite bool_decide_true by (by apply (ra_idx _ _ _ _ (hw_rep _ _ _ _ Hv) i x Hx I)).
  simpl in Htx. rewrite Htx. simpl. rewrite andb_true_r.
  pose proof (hw_order _ _ _ _ Hv ((i - 1) / 2)%nat i p x) as Ho. unfold before in Ho.
  rewrite (time_of_is _ x _ (view_lookup tview_of _ _ _ Hex)),
    (time_of_is _ p _ (view_lookup tview_of _ _ _ Hep)) in Ho. cbn [t_at tview_of] in Ho. unfold tv_le in Ho.
  rewrite Ho; [done| |done|done]. unfold edge. pose proof (Nat.div_mod_eq (i - 1) 2).
  pose proof (Nat.mod_upper_bound (i - 1) 2 ltac:(lia)). lia.
Qed.

Lemma times_sorted_true b l :
  StronglySorted (fun x y => tv_le (tmo b x) (tmo b y)) l -> times_sorted b l = true.
Proof.
  induction 1 as [|x l _ IH Hall]; [done|]. destruct l as [|y l]; [done|].
  change (negb (timercmp_gt (tmo b x) (tmo b y)) && times_sorted b (y :: l) = true). rewrite IH.
  inversion Hall as [|? ? Hle _]; subst. unfold tv_le in Hle. by rewrite Hle.
Qed.

Lemma check_queue exact b i c :
  eb_wf exact b -> common_timeout_queues b !! i = Some c -> check_ctl b i c = true.
Proof.
  intros Hw Hc. destruct (to_queue _ _ _ _ (wf_timers _ _ Hw) i c Hc) as [Hnd Hel Hso _ _].
  unfold check_ctl, list_ok. rewrite bool_decide_true, times_sorted_true, all_events_true; [done| | |done].
  - intros x Hx. apply Hel in Hx. apply view_event in Hx as (e & Hx & Hon & Hhi). exists e.
    split; [done|]. simpl in *.
    destruct (is_common_hi (ev_timeout e) b i) as [-> Hidx]; [done|by eapply lookup_lt_Some|apply Hw|].
    assert (0 <= COMMON_TIMEOUT_IDX (ev_timeout e)).
    { unfold COMMON_TIMEOUT_IDX. apply Z.shiftr_nonneg, Z.land_nonneg. by right. }
    rewrite Hon. simpl. apply Z.eqb_eq. lia.
  - clear Hnd Hel Hc. induction Hso as [|x l ? IH Hall]; [constructor|constructor; [done|]].
    eapply Forall_impl; [exact Hall|]. intros y. simpl. by rewrite <-!(tmo_time_of b _ _ eq_refl).
Qed.

Lemma active_mask (a l : bool) f :
  has f EVLIST_ACTIVE = a -> has f EVLIST_ACTIVE_LATER = l ->
  Z.land f ACTIVE_MASK = Z.lor (bit a EVLIST_ACTIVE) (bit l EVLIST_ACTIVE_LATER).
Proof.
  intros Ha Hl. unfold ACTIVE_MASK. rewrite Z.land_lor_distr_r.
  assert (Hbit : forall n, 0 <= n -> Z.land f (2 ^ n) = bit (has f (2 ^ n)) (2 ^ n)).
  { intros n Hn. rewrite has_bit by done. apply Z.bits_inj'. intros k Hk.
    rewrite Z.land_spec, Z.pow2_bits_eqb by done. destruct (n =? k) eqn:E; zb; [subst|].
    - rewrite andb_true_r. unfold bit. destruct (Z.testbit f k); [by rewrite Z.pow2_bits_true|].
      by rewrite Z.bits_0.
    - rewrite andb_false_r. unfold bit. case_test; [|by rewrite Z.bits_0].
      rewrite Z.pow2_bits_false; done. }
  change EVLIST_ACTIVE with (2 ^ 3) in *. change EVLIST_ACTIVE_LATER with (2 ^ 5) in *.
  by rewrite (Hbit 3), (Hbit 5), Ha, Hl by lia.
Qed.

Lemma check_active exact b i q :
  eb_wf exact b -> activequeues b !! i = Some q -> check_activeq b i q = true.
Proof.
  intros Hw Hq. destruct (ao_queue _ _ _ _ (wf_active _ _ Hw) i q Hq) as [Hnd Hel].
  unfold check_activeq, list_ok. rewrite bool_decide_true, all_events_true; [done| |done].
  intros x Hx. apply Hel in Hx. apply view_event in Hx as (e & Hx & Hon & Hp). exists e. split; [done|].
  simpl in *. destruct (active_event _ _ _ _ Hw Hx) as (_ & _ & _ & _ & _ & Hex). rewrite Hon in Hex.
  rewrite (active_mask true false _ Hon Hex), Hp. simpl. apply Z.eqb_refl.
Qed.

Lemma check_later exact b :
  eb_wf exact b ->
  all_events b (active_later_queue b) (fun ev => Z.land (ev_flags ev) ACTIVE_MASK =? EVLIST_ACTIVE_LATER) = true.
Proof.
  intros Hw. apply all_events_true. intros x Hx. apply (ao_later _ _ _ _ (wf_active _ _ Hw)) in Hx.
  apply view_event in Hx as (e & Hx & Hl). exists e. split; [done|]. simpl in Hl.
  destruct (active_event _ _ _ _ Hw Hx) as (_ & _ & _ & _ & _ & Hex). rewrite Hl, andb_true_r in Hex.
  by rewrite (active_mask false true _ Hex Hl).
Qed.

(** The invariant implies everything the library itself asserts. *)
Lemma assert_ok_wf exact b : eb_wf exact b -> event_base_assert_ok_nolock_ b = true.
Proof.
  intros Hw. unfold event_base_assert_ok_nolock_.
  rewrite (check_maps exact b Hw), (check_later exact b Hw), (ao_count _ _ _ _ (wf_active _ _ Hw)), Z.eqb_refl.
  rewrite !checki_true; [|intros j q Hq; by eapply check_active|intros j c Hc; by eapply check_queue].
  rewrite (proj2 (forallb_forall _ _)); [done|]. intros i Hi. apply in_seq in Hi.
  apply (check_heap exact b i Hw). lia.
Qed.

(** ** New events *)

Definition in_no_queue (e : event) : Prop :=
  has (ev_flags e) EVLIST_TIMEOUT = false /\ has (ev_flags e) EVLIST_INSERTED = false /\
  has (ev_flags e) EVLIST_ACTIVE = false /\ has (ev_flags e) EVLIST_ACTIVE_LATER = false.

Definition idle (b : event_base) (x : Z) : Prop := forall e, evs b !! x = Some e -> in_no_queue e.

Lemma holds_inert {V} (m : gmap Z V) (P : V -> Prop) x v' y :
  (forall v, m !! x = Some v -> ~ P v) -> ~ P v' -> holds (<[x := v']> m) P y <-> holds m P y.
Proof.
  intros Hv Hv'. rewrite holds_insert. destruct (decide (y = x)) as [->|]; [|tauto].
  split; [tauto|]. intros (v & Hx & HP). by destruct (Hv v Hx).
Qed.

(** Weights of idle events are zero. *)
Lemma weight_idle e : in_no_queue e -> weight e = 0.
Proof. intros (H1 & H2 & H3 & H4). unfold weight. rewrite H1, H2, H3, H4. simpl. lia. Qed.

Lemma msum_idle (m : gmap Z event) x e' :
  (forall e, m !! x = Some e -> in_no_queue e) -> in_no_queue e' ->
  msum (weight <$> <[x := e']> m) = msum (weight <$> m).
Proof.
  intros Hold Hnew. destruct (m !! x) as [e|] eqn:Hx.
  - rewrite (msum_view _ _ e) by done. rewrite !weight_idle by auto. lia.
  - rewrite fmap_insert, msum_insert_new by (by rewrite lookup_fmap, Hx). by rewrite weight_idle.
Qed.

(** The parts of the invariant once an idle event is added or replaced. *)
Lemma timers_idle m qs h idx idx' x t' :
  timers_ok m qs h idx -> (forall t, m !! x = Some t -> t_on t = false) -> t_on t' = false ->
  (forall t, m !! x = Some t -> t_init t = true -> t_init t' = true) ->
  Z.of_nat (size (<[x := t']> m)) < INT_MAX ->
  idx' = <[x := -1]> idx \/ idx' = idx /\ t_init t' = false ->
  timers_ok (<[x := t']> m) qs h idx'.
Proof.
  intros [(v & Hv & Hve) Hon Hk Hq Hmx Hsz] Hold Hnew Hinit Hsize Hidx.
  assert (Hin : forall P : tview -> Prop, (forall s, P s -> t_on s = true) ->
    forall y, holds (<[x := t']> m) P y <-> holds m P y).
  { intros P HP y. apply holds_inert; [intros t Ht HPt|intros HPt]; apply HP in HPt; [|congruence].
    rewrite (Hold t Ht) in HPt. done. }
  assert (Hni : forall P : tview -> Prop, (forall s, P s -> t_on s = true) -> ~ holds m P x).
  { intros P HP (t & Ht & HPt). apply HP in HPt. rewrite (Hold t Ht) in HPt. done. }
  assert (Hxv : x ∉ v) by (rewrite Hve; apply Hni; by intros s []).
  assert (Htm : forall y, y <> x -> time_of (<[x := t']> m) y = time_of m y).
  { intros y Hy. rewrite time_of_insert. by rewrite decide_False. }
  assert (Hne : forall y, y <> x -> idx' !! y = idx !! y).
  { intros y Hy. destruct Hidx as [->|[-> _]]; [by rewrite lookup_insert_ne|done]. }
  split; auto.
  - exists v. split; [|intros y; rewrite Hve, (Hin in_heap); [done|by intros s []]].
    destruct Hv as [[R1 R2 R3 R4 R5 R6] ? ? ? Hord Hout]. split; auto.
    + split; auto.
      * intros i y Hy _. rewrite Hne; [by apply R2|]. intros ->. by eapply Hxv, list_elem_of_lookup_2.
      * intros y Hy. rewrite Hne; [auto|]. by intros ->.
    + eapply retimed_absent; [|exact Hxv|exact Hord]. auto.
    + intros y i Hy Hyv. destruct Hidx as [->|[-> _]]; [|by eapply Hout].
      apply lookup_insert_Some in Hy as [[<- <-]|[_ Hy]]; [done|by eapply Hout].
  - intros y s [[<- <-]|[_ Hy]]%lookup_insert_Some Hs; [congruence|by eapply Hon].
  - intros y s [[<- <-]|[Hyx Hy]]%lookup_insert_Some Hs; [|rewrite Hne by done; by eapply Hk].
    destruct Hidx as [->|[_ Hi]]; [by rewrite lookup_insert_eq|congruence].
  - intros i c Hc. destruct (Hq i c Hc) as [Q1 Q2 Q3 Q4 Q5].
    assert (Hxc : x ∉ ctl_events c) by (rewrite Q2; apply Hni; by intros s []).
    split; auto.
    + intros y. rewrite Q2, (Hin (in_queue i)); [done|by intros s []].
    + eapply sorted_ext; [|exact Q3]. intros y Hy. apply Htm. by intros ->.
    + destruct Q5 as (t & Ht & Hi). rewrite holds_insert.
      destruct (decide (ctl_timeout_event c = x)) as [<-|]; [left; eauto|right].
      split; [done|]. by exists t.
Qed.

Lemma active_idle m qs later c x a' :
  active_ok m qs later c -> (forall a, m !! x = Some a -> a_on a = false /\ a_later a = false) ->
  a_on a' = false -> a_later a' = false -> 0 <= a_pri a' < zlen qs ->
  active_ok (<[x := a']> m) qs later c.
Proof.
  intros [Hq [Hl1 Hl2] He Hc] Hold Ha Hl Hp. split; auto.
  - intros i q Hi. destruct (Hq i q Hi) as [Hnd Hel]. split; [done|]. intros y. rewrite Hel.
    symmetry. apply holds_inert; [|intros [? _]; congruence].
    intros a Hx [? _]. destruct (Hold a Hx). congruence.
  - split; [done|]. intros y. rewrite Hl2. symmetry. apply holds_inert; [|congruence].
    intros a Hx ?. destruct (Hold a Hx). congruence.
  - intros y a [[<- <-]|[_ Hy]]%lookup_insert_Some; [|by eapply He]. by rewrite Ha.
Qed.

Lemma cnt_ext (m m' : gmap Z iview) f l :
  (forall y, y ∈ l -> want m' f y = want m f y) -> cnt m' f l = cnt m f l.
Proof.
  intros H. unfold cnt. f_equal. induction l as [|y l IH]; [done|].
  rewrite !filter_cons, H by set_solver. rewrite IH by (intros z Hz; apply H; set_solver). done.
Qed.

Lemma want_off (m : gmap Z iview) x v' f y : y <> x -> want (<[x := v']> m) f y = want m f y.
Proof. intros Hy. unfold want. by rewrite lookup_insert_ne. Qed.

Lemma io_idle exact m mp k x v' :
  io_ok exact m mp k -> (forall v, m !! x = Some v -> i_on v = false) -> i_on v' = false ->
  io_ok exact (<[x := v']> m) mp k.
Proof.
  intros [Hs Hp Hz Hk] Hold Hnew.
  assert (Hin : forall fd y, holds (<[x := v']> m) (waits_on fd) y <-> holds m (waits_on fd) y).
  { intros fd y. apply holds_inert; [|intros [? _]; congruence]. intros v Hv [Hon _].
    rewrite (Hold v Hv) in Hon. done. }
  split; auto.
  - intros fd c Hc. destruct (Hs fd c Hc) as [Hr [S1 S2 S3 S4 S5]]. split; [done|].
    assert (Hx : x ∉ io_events c).
    { rewrite S2. intros (v & Hv & Hon & _). rewrite (Hold v Hv) in Hon. done. }
    assert (Hcnt : forall f, cnt (<[x := v']> m) f (io_events c) = cnt m f (io_events c)).
    { intros f. apply cnt_ext. intros y Hy. apply want_off. by intros ->. }
    split; rewrite ?Hcnt; auto. intros y. by rewrite S2, Hin.
  - intros fd y H0 Hy. apply (Hp fd y H0). by rewrite <-Hin.
Qed.

Lemma sig_idle exact m mp ks x v' :
  sig_ok exact m mp ks -> (forall v, m !! x = Some v -> i_on v = false) -> i_on v' = false ->
  sig_ok exact (<[x := v']> m) mp ks.
Proof.
  intros [Hs Hp Hz Hk] Hold Hnew.
  assert (Hin : forall s y, holds (<[x := v']> m) (signals_on s) y <-> holds m (signals_on s) y).
  { intros s y. apply holds_inert; [|intros [? _]; congruence]. intros v Hv [Hon _].
    rewrite (Hold v Hv) in Hon. done. }
  split; auto.
  - intros s l Hl. destruct (Hs s l Hl) as (Hr & Hnd & Hel). split; [done|]. split; [done|].
    intros y. by rewrite Hel, Hin.
  - intros s y H0 Hy. apply (Hp s y H0). by rewrite <-Hin.
Qed.

(** Storing an idle event in the base. *)
Lemma store_wf exact b x e' idx' :
  eb_wf exact b -> idle b x -> in_no_queue e' -> event_ok e' -> event_shape (iview_of e') ->
  0 <= ev_pri e' < nactivequeues b ->
  (forall e, evs b !! x = Some e -> has (ev_flags e) EVLIST_INIT = true ->
             has (ev_flags e') EVLIST_INIT = true) ->
  Z.of_nat (size (<[x := e']> (evs b))) < INT_MAX ->
  idx' = <[x := -1]> (hidx b) \/ idx' = hidx b /\ has (ev_flags e') EVLIST_INIT = false ->
  eb_wf exact (set_hidx (put b x e') idx').
Proof.
  intros [Ht Ha Hi Hs Hsh Hc He Htv] Hold (N1 & N2 & N3 & N4) Hok Hshape Hp Hinit Hsize Hidx.
  assert (Hview : forall V (f : event -> V) v, (f <$> evs b) !! x = Some v ->
    exists e, evs b !! x = Some e /\ v = f e).
  { intros V f v Hv. rewrite lookup_fmap in Hv. destruct (evs b !! x) as [e|]; [|done].
    simplify_eq/=. eauto. }
  split; simpl; auto.
  - rewrite view_insert. apply (timers_idle _ _ _ (hidx b)); auto.
    + intros t Hx. apply Hview in Hx as (e & Hx & ->). apply (Hold e Hx).
    + intros t Hx Hin. apply Hview in Hx as (e & Hx & ->). by apply (Hinit e Hx).
    + rewrite <-(view_insert tview_of). by rewrite map_size_fmap.
  - rewrite view_insert. apply active_idle; auto. intros a Hx. apply Hview in Hx as (e & Hx & ->).
    destruct (Hold e Hx) as (_ & _ & ? & ?). done.
  - rewrite view_insert. apply io_idle; auto. intros v Hx. apply Hview in Hx as (e & Hx & ->). apply (Hold e Hx).
  - rewrite view_insert. apply sig_idle; auto. intros v Hx. apply Hview in Hx as (e & Hx & ->). apply (Hold e Hx).
  - unfold shape_ok. rewrite view_insert. by apply map_Forall_insert_2.
  - by rewrite Hc, msum_idle.
  - by apply map_Forall_insert_2.
Qed.

(** ** The whole invariant *)

Record eb_inv (exact : bool) (b : event_base) : Prop := {
  ei_wf : eb_wf exact b;
  ei_own : own_ok b;
  ei_inv : inv_ok b;
  ei_some : 0 < nactivequeues b;
  ei_time : 0 <= tv_sec (tv_cache b)
}.

Lemma mild_nactive b b' : mild b b' -> nactivequeues b' = nactivequeues b.
Proof. intros (_ & _ & _ & H). unfold nactivequeues, zlen. by rewrite H. Qed.

(** Every operation that keeps the events keeps the invariant. *)
Lemma base_inv_step exact b b' :
  eb_inv exact b -> eb_wf exact b' -> mild b b' -> kept b b' -> eb_inv exact b'.
Proof.
  intros [Hw Ho Hi Hn Ht] Hw' Hm Hk. pose proof Hm as (Hc & _).
  split; [done|by eapply kept_own|by eapply kept_inv|by rewrite (mild_nactive b b')|by rewrite Hc].
Qed.

(** Storing an idle event that is not the own event of a queue. *)
Lemma store_inv exact b x e' idx' :
  eb_inv exact b -> idle b x -> ~ owns_queue b x -> in_no_queue e' -> event_ok e' ->
  event_shape (iview_of e') -> 0 <= ev_pri e' < nactivequeues b ->
  event_inv (length (owners b)) e' ->
  (forall e, evs b !! x = Some e -> has (ev_flags e) EVLIST_INIT = true ->
             has (ev_flags e') EVLIST_INIT = true) ->
  Z.of_nat (size (<[x := e']> (evs b))) < INT_MAX ->
  idx' = <[x := -1]> (hidx b) \/ idx' = hidx b /\ has (ev_flags e') EVLIST_INIT = false ->
  eb_inv exact (set_hidx (put b x e') idx').
Proof.
  intros [Hw Ho Hi Hn Ht] Hidle Hown Hno Hok Hsh Hp Hev Hinit Hsize Hidx.
  split; [by apply store_wf| | |done|done].
  - intros z Hz. simpl. destruct (decide (z = x)) as [->|]; [done|]. rewrite lookup_insert_ne by done.
    by apply Ho.
  - apply (map_Forall_insert_2 _ _ x e' Hev Hi).
Qed.

(** What may be assigned. *)
Definition assignable (fd events : Z) : Prop :=
  fd < 2 ^ 26 /\ (has events EV_SIGNAL = true -> has events EV_IO = false /\ 0 <= fd).

Lemma event_assign_inv exact b x fd events old :
  eb_inv exact b -> idle b x -> ~ owns_queue b x -> assignable fd events ->
  Z.of_nat (size (<[x := old]> (evs b))) < INT_MAX ->
  exists b', event_assign b x fd events old = (0, b') /\ eb_inv exact b' /\ mild b b' /\
    (exists e', evs b' = <[x := e']> (evs b) /\ ev_flags e' = EVLIST_INIT /\ ev_fd e' = fd /\
       ev_events e' = events /\ ev_closure e' = assign_closure events /\ ev_pri e' = nactivequeues b / 2).
Proof.
  intros Hinv Hidle Hown [Hfd Hsig] Hsize. unfold event_assign.
  replace (has events EV_SIGNAL && has events EV_IO) with false
    by (destruct (has events EV_SIGNAL); [by destruct (Hsig eq_refl) as [-> _]|done]).
  cbv zeta. set (e1 := set_ev_closure _ _). set (e2 := if _ && _ then set_ev_io_timeout e1 tv0 else e1).
  assert (Hsame : ev_flags e2 = EVLIST_INIT /\ ev_fd e2 = fd /\ ev_events e2 = events /\
    ev_closure e2 = assign_closure events /\ ev_pncalls e2 = None /\ ev_ncalls e2 = 0 /\
    (ev_closure e2 = EV_CLOSURE_EVENT_PERSIST -> ev_io_timeout e2 = tv0)).
  { unfold e2, e1, assign_closure. simpl. do 6 (split; [by case_test|]).
    destruct (has events EV_SIGNAL), (has events EV_PERSIST); done. }
  destruct Hsame as (F1 & F2 & F3 & F4 & F5 & F6 & F7).
  pose proof (ei_some _ _ Hinv) as Hn.
  eexists. split; [done|]. split; [|split; [done|]].
  - apply store_inv; auto.
    + unfold in_no_queue. simpl. by rewrite F1.
    + split; simpl; [by rewrite F1|done].
    + unfold event_shape. simpl. rewrite F1, F2, F3. split; [done|]. split; [done|done].
    + simpl. pose proof (Z.div_lt (nactivequeues b) 2 Hn ltac:(lia)).
      pose proof (Z.div_pos (nactivequeues b) 2 ltac:(lia) ltac:(lia)). lia.
    + split; unfold persist_ok, final_ok, timer_norm, closure_ok; simpl; rewrite ?F1, ?F6; try done.
      * intros Hc Hnz. by rewrite F7 in Hnz.
      * rewrite F4. unfold assign_closure. repeat (case_test; try done).
    + simpl. by rewrite F1.
    + destruct (evs b !! x) eqn:Hx; [by rewrite !map_size_insert_Some in * by eauto|].
      by rewrite !map_size_insert_None in *.
  - eexists. split; [done|]. simpl. auto.
Qed.

Lemma deferred_init_inv exact b x priority :
  eb_inv exact b -> evs b !! x = None -> ~ owns_queue b x -> 0 <= priority < nactivequeues b ->
  Z.of_nat (S (size (evs b))) < INT_MAX ->
  eb_inv exact (event_deferred_cb_init_ b x priority).
Proof.
  intros Hinv Hx Hown Hp Hsize. unfold event_deferred_cb_init_.
  replace (put b x _) with (set_hidx (put b x (mkEvent 0 priority EV_CLOSURE_CB_SELF 0 0 0 tv0 tv0 0 None))
    (hidx b)) by done.
  apply store_inv; auto; try done.
  - intros e He. congruence.
  - by intros e He; congruence.
  - by rewrite map_size_insert_None.
Qed.

(** ** A new base *)

Record blank (b : event_base) : Prop := {
  bk_evs : evs b = ∅; bk_heap : timeheap b = min_heap_ctor_; bk_idx : hidx b = ∅;
  bk_ctl : common_timeout_queues b = []; bk_active : activequeues b = [[]];
  bk_later : active_later_queue b = []; bk_io : io b = mkMap ∅ 0; bk_sig : sigmap b = mkMap ∅ 0;
  bk_kernel : kernel b = ∅; bk_ksig : ksig b = ∅; bk_count : event_count b = 0;
  bk_cactive : event_count_active b = 0; bk_cache : tv_cache b = tv0
}.

Lemma blank_inv b : blank b -> eb_inv true b.
Proof.
  intros [E1 E2 E3 E4 E5 E6 E7 E8 E9 E10 E11 E12 E13].
  assert (Hno : forall V (f : event -> V) P x, ~ holds (f <$> evs b) P x).
  { intros V f P x (v & Hv & _). rewrite E1, fmap_empty, lookup_empty in Hv. done. }
  split.
  - split.
    + rewrite E2, E3, E4. split.
      * exists []. split; [by apply heap_wf_ctor|]. intros x. split; [set_solver|]. intros Hx. by apply Hno in Hx.
      * intros x t Hx. rewrite E1, fmap_empty, lookup_empty in Hx. done.
      * intros x t Hx. rewrite E1, fmap_empty, lookup_empty in Hx. done.
      * intros i c Hc. by rewrite lookup_nil in Hc.
      * simpl. lia.
      * rewrite E1, fmap_empty, map_size_empty. done.
    + rewrite E5, E6, E12. split.
      * intros [|i] q Hq; simplify_eq/=. split; [constructor|]. intros x. split; [set_solver|].
        intros Hx. by apply Hno in Hx.
      * split; [constructor|]. intros x. split; [set_solver|]. intros Hx. by apply Hno in Hx.
      * intros x t Hx. rewrite E1, fmap_empty, lookup_empty in Hx. done.
      * done.
    + rewrite E7, E9. split.
      * intros fd c Hc. simpl in Hc. by rewrite lookup_empty in Hc.
      * intros fd x _ Hx. by apply Hno in Hx.
      * by left.
      * done.
    + rewrite E8, E10. split.
      * intros fd c Hc. simpl in Hc. by rewrite lookup_empty in Hc.
      * intros fd x _ Hx. by apply Hno in Hx.
      * by left.
      * intros s. simpl. set_solver.
    + intros x v Hx. rewrite E1, fmap_empty, lookup_empty in Hx. done.
    + rewrite E11, E1. reflexivity.
    + intros x v Hx. rewrite E1, lookup_empty in Hx. done.
    + rewrite E13. simpl. lia.
  - intros z [d Hd]. unfold owners in Hd. rewrite E4 in Hd. set_solver.
  - intros x v Hx. rewrite E1, lookup_empty in Hx. done.
  - unfold nactivequeues. by rewrite E5.
  - by rewrite E13.
Qed.

Lemma event_base_new_inv en cfg b :
  event_base_new_with_config en cfg = Some b -> eb_inv true b /\ evs b = ∅ /\ owners b = [].
Proof.
  intros Hnew. assert (Hb : blank b); [|split; [by apply blank_inv|]; unfold owners;
    by rewrite (bk_evs _ Hb), (bk_ctl _ Hb)].
  unfold event_base_new_with_config in Hnew. destruct (mem_ok en BaseItself); [|done]. simpl in Hnew.
  assert (H0 : exists d l, gettime en zeroed_base =
    (clock en, set_last_updated_clock_diff (set_tv_clock_diff zeroed_base d) l)).
  { unfold gettime. simpl. case_test; [eauto|]. by exists tv0, 0. }
  destruct H0 as (d & l & Hg). rewrite Hg in Hnew. unfold event_base_priority_init in Hnew.
  simpl in Hnew.
  destruct (mem_ok en (PriorityQueues 1)); [|by destruct cfg as [c|]; simpl in Hnew; repeat case_test_in Hnew].
  destruct cfg as [c|]; simpl in Hnew.
  - destruct (0 <=? _), (_ && _); simpl in Hnew; simplify_eq; by split.
  - simplify_eq. by split.
Qed.

(** ** Fields the invariant does not read *)

Lemma inv_same exact b b' :
  eb_inv exact b -> same_queues b b' -> 0 <= tv_usec (tv_cache b') < 1000000 -> 0 <= tv_sec (tv_cache b') ->
  eb_inv exact b'.
Proof.
  intros [Hw Ho Hi Hn _] Hs Hc Ht. pose proof Hs as (E1 & _ & _ & E2 & E3 & _).
  assert (Hown : owners b' = owners b) by (unfold owners; by rewrite E2).
  split; [by apply (same_queues_wf exact b)| | |by unfold nactivequeues in *; rewrite E3|done].
  - intros z Hz. unfold owns_queue in *. rewrite Hown in Hz. rewrite E1. by apply Ho.
  - unfold inv_ok. by rewrite Hown, E1.
Qed.

Lemma inv_field exact b b' :
  eb_inv exact b -> same_queues b b' -> tv_cache b' = tv_cache b -> eb_inv exact b'.
Proof.
  intros Hi Hs Hc. apply (inv_same exact b); [done|done|rewrite Hc..]; [apply (ei_wf _ _ Hi)|apply Hi].
Qed.

(** ** A new common-timeout queue *)

Lemma timer_tag_mono n n' tv : (n <= n')%nat -> timer_tag n tv -> timer_tag n' tv.
Proof. intros Hn [?|(i & Hi & ?)]; [by left|right]. exists i. split; [lia|done]. Qed.

Lemma event_inv_mono n n' e : (n <= n')%nat -> event_inv n e -> event_inv n' e.
Proof.
  intros Hn [I1 I2 I3 I4 I5]. split; auto. intros Hc Hnz. destruct (I1 Hc Hnz) as (? & ? & ? & ?).
  eauto using timer_tag_mono.
Qed.

Lemma timers_new_queue m qs h idx d z :
  timers_ok m qs h idx -> (length qs < 256)%nat -> hi d = 0x500 + Z.of_nat (length qs) ->
  holds m (fun t => t_init t = true) z -> timers_ok m (qs ++ [mkCtl [] d z]) h idx.
Proof.
  intros [Hh Hon Hk Hq Hmx Hsz] Hlen Hd Hz. split; auto.
  - intros x t Hx Ht. destruct (Hon x t Hx Ht) as [Hi [?|(i & Hi' & ?)]]; [auto|]. split; [done|]. right.
    exists i. rewrite length_app. simpl. split; [lia|done].
  - intros i c Hc. apply lookup_app_Some in Hc as [Hc|[Hge Hc]]; [by apply Hq|].
    apply list_lookup_singleton_Some in Hc as [Hi <-]. assert (i = length qs) as -> by lia.
    split; simpl; [constructor| |constructor|done|done]. intros x. split; [set_solver|].
    intros (t & Hx & Ht & Hh'). destruct (Hon x t Hx Ht) as [_ [[_ H0]|(i & Hi' & _ & Hi2)]]; lia.
  - rewrite length_app. simpl. lia.
Qed.

Lemma new_queue_inv exact b d z e :
  eb_inv exact b -> (length (common_timeout_queues b) < 256)%nat ->
  hi d = 0x500 + Z.of_nat (length (common_timeout_queues b)) ->
  evs b !! z = Some e -> has (ev_flags e) EVLIST_INIT = true -> ev_closure e <> EV_CLOSURE_EVENT_PERSIST ->
  forall b', common_timeout_queues b' = common_timeout_queues b ++ [mkCtl [] d z] ->
  evs b' = evs b -> timeheap b' = timeheap b -> hidx b' = hidx b -> activequeues b' = activequeues b ->
  active_later_queue b' = active_later_queue b -> io b' = io b -> sigmap b' = sigmap b ->
  kernel b' = kernel b -> ksig b' = ksig b -> event_count b' = event_count b ->
  event_count_active b' = event_count_active b -> tv_cache b' = tv_cache b -> eb_inv exact b'.
Proof.
  intros [Hw Ho Hi Hn Ht] Hlen Hd Hz Hini Hcl b' Q E1 E2 E3 E4 E5 E6 E7 E8 E9 E10 E11 E12.
  assert (Hown : owners b' = owners b ++ [(d, z)]) by (unfold owners; by rewrite Q, fmap_app).
  split.
  - destruct Hw. split; rewrite ?Q, ?E1, ?E2, ?E3, ?E4, ?E5, ?E6, ?E7, ?E8, ?E9, ?E10, ?E11, ?E12; auto.
    apply timers_new_queue; auto. apply (holds_is _ _ z _ (view_lookup tview_of _ _ _ Hz)). done.
  - intros y [dy Hy]. rewrite Hown, elem_of_app, list_elem_of_singleton in Hy. rewrite E1.
    destruct Hy as [Hy|Hy]; [apply Ho; by exists dy|]. simplify_eq. eauto.
  - intros x ex Hx. rewrite E1 in Hx. rewrite Hown, length_app. simpl.
    apply (event_inv_mono (length (owners b))); [lia|]. by apply (Hi x).
  - unfold nactivequeues in *. by rewrite E4.
  - by rewrite E12.
Qed.

Lemma hi_handle s u n :
  0 <= u <= 0xfffff -> 0 <= n < 256 ->
  hi (mkTimeval s (Z.lor u (Z.lor COMMON_TIMEOUT_MAGIC (Z.shiftl n 20)))) = 0x500 + n /\
  mask_usec (mkTimeval s (Z.lor u (Z.lor COMMON_TIMEOUT_MAGIC (Z.shiftl n 20)))) = mkTimeval s u.
Proof.
  intros Hu Hn. change COMMON_TIMEOUT_MAGIC with (Z.shiftl 0x500 20).
  rewrite <-Z.shiftl_lor. replace (Z.lor 0x500 n) with (0x500 + n).
  2: { assert (Hall : forallb (fun i => Z.lor 0x500 (Z.of_nat i) =? 0x500 + Z.of_nat i) (seq 0 256) = true)
         by (vm_compute; reflexivity).
       rewrite forallb_forall in Hall. specialize (Hall (Z.to_nat n)). rewrite Z2Nat.id in Hall by lia.
       rewrite Z.eqb_eq in Hall. symmetry. apply Hall. apply in_seq. lia. }
  split.
  - unfold hi; simpl. rewrite Z.shiftr_lor. replace (Z.shiftr u 20) with 0
      by (symmetry; apply (hi_low (mkTimeval 0 u)); done).
    rewrite Z.lor_0_l, Z.shiftr_shiftl_l by lia. apply Z.shiftl_0_r.
  - rewrite <-(mask_low (mkTimeval s u)) by done. unfold mask_usec. simpl. f_equal.
    rewrite Z.land_lor_distr_l. replace (Z.land (Z.shiftl (1280 + n) 20) MICROSECONDS_MASK) with 0;
      [by rewrite Z.lor_0_r|].
    change MICROSECONDS_MASK with (Z.ones 20). rewrite Z.land_ones, Z.shiftl_mul_pow2 by lia.
    by rewrite Z.mod_mul by lia.
Qed.

(** The duration after the normalisation the function performs. *)
Definition normal_duration (b : event_base) (d : timeval) : timeval :=
  if 1000000 <? tv_usec d then
    let u := if is_common_timeout d b then Z.land (tv_usec d) MICROSECONDS_MASK else tv_usec d in
    mkTimeval (i64 (tv_sec d + u / 1000000)) (u mod 1000000)
  else d.

Lemma normal_duration_range b d : 0 <= tv_usec d -> 0 <= tv_usec (normal_duration b d) <= 1000000.
Proof.
  intros H. unfold normal_duration. case_test; zb; [|lia]. simpl.
  match goal with |- _ <= ?u mod _ <= _ => pose proof (Z.mod_pos_bound u 1000000 ltac:(lia)) end. lia.
Qed.

Lemma find_ctl_some l d c :
  find_ctl l d = Some c -> exists i, l !! i = Some c /\ mask_usec (ctl_duration c) = d.
Proof.
  induction l as [|c0 l IH]; simpl; [done|]. case_test.
  - intros [= ->]. exists 0%nat. split; [done|]. zb. destruct d as [s u]. unfold mask_usec. simpl in *. congruence.
  - intros H. destruct (IH H) as (i & Hi & Hc). by exists (S i).
Qed.

Lemma find_ctl_app l d c :
  find_ctl l d = None -> mask_usec (ctl_duration c) = d -> find_ctl (l ++ [c]) d = Some c.
Proof.
  intros Hn Hd. induction l as [|c0 l IH]; simpl in *.
  - rewrite <-Hd. simpl. by rewrite !Z.eqb_refl.
  - case_test; [done|auto].
Qed.

(** The event a new queue gets. *)
Definition queue_event : event :=
  mkEvent (Z.lor EVLIST_INIT EVLIST_INTERNAL) 0 EV_CLOSURE_EVENT (-1) 0 0 tv0 tv0 0 None.

Lemma fresh_not_owner exact b x : eb_inv exact b -> evs b !! x = None -> ~ owns_queue b x.
Proof. intros Hi Hx Ho. destruct (ei_own _ _ Hi x Ho) as (e & He & _). congruence. Qed.

Lemma queue_event_inv exact b x :
  eb_inv exact b -> evs b !! x = None -> Z.of_nat (S (size (evs b))) < INT_MAX ->
  eb_inv exact (set_hidx (put b x queue_event) (<[x := -1]> (hidx b))).
Proof.
  intros Hinv Hx Hsize. pose proof (ei_some _ _ Hinv).
  apply store_inv; auto; try done.
  - intros e He. congruence.
  - by eapply fresh_not_owner.
  - by rewrite map_size_insert_None.
Qed.

(** What a handle means. *)
Definition names_queue (b : event_base) (tv : timeval) : Prop :=
  is_common_timeout tv b = true /\ exists c, get_common_timeout_list b tv = Done c /\ ctl_duration c = tv.

Lemma names_queue_at exact b i c :
  eb_wf exact b -> common_timeout_queues b !! i = Some c -> names_queue b (ctl_duration c).
Proof.
  intros Hw Hc. pose proof (qo_duration _ _ _ (to_queue _ _ _ _ (wf_timers _ _ Hw) i c Hc)) as Hd.
  destruct (is_common_hi (ctl_duration c) b i Hd) as [H1 H2]; [by eapply lookup_lt_Some|apply Hw|].
  split; [done|]. exists c. unfold get_common_timeout_list. by rewrite H2, Hc.
Qed.

(** A failed call may have made the array of queues larger. *)
Definition reallocated (b b' : event_base) : Prop :=
  exists k, b' = set_n_common_timeouts_allocated b k.

Lemma reallocated_same b b' : reallocated b b' -> same_queues b b' /\ sig_frame b' = sig_frame b /\
  activequeues b' = activequeues b /\ tv_cache b' = tv_cache b.
Proof. intros [k ->]. by repeat split. Qed.

Lemma init_common_new en fresh b d :
  find_ctl (common_timeout_queues b) (normal_duration b d) = None ->
  0 < nactivequeues b -> n_common_timeouts b <> MAX_COMMON_TIMEOUTS ->
  (exists b', event_base_init_common_timeout en fresh b d = Done (None, b') /\ reallocated b b') \/
  exists b', event_base_init_common_timeout en fresh b d =
      (let n := n_common_timeouts b in
       let tv := mkTimeval (tv_sec (normal_duration b d)) (Z.lor (tv_usec (normal_duration b d))
                   (Z.lor COMMON_TIMEOUT_MAGIC (Z.shiftl n 20))) in
       let b' := set_common_timeout_queues b' (common_timeout_queues b ++ [mkCtl [] tv fresh]) in
       _ ← assert_c (is_common_timeout tv b'); Done (Some tv, b')) /\
    evs b' = <[fresh := queue_event]> (evs b) /\ hidx b' = <[fresh := -1]> (hidx b) /\
    timeheap b' = timeheap b /\ activequeues b' = activequeues b /\
    active_later_queue b' = active_later_queue b /\ io b' = io b /\ sigmap b' = sigmap b /\
    kernel b' = kernel b /\ ksig b' = ksig b /\ event_count b' = event_count b /\
    event_count_active b' = event_count_active b /\ tv_cache b' = tv_cache b /\
    sig_frame b' = sig_frame b.
Proof.
  intros Hf Hn Hmax. unfold event_base_init_common_timeout. fold (normal_duration b d). rewrite Hf.
  apply Z.eqb_neq in Hmax as ->. cbv zeta.
  destruct (_ && negb (mem_ok en (CommonQueues _))).
  { left. exists b. split; [done|]. exists (n_common_timeouts_allocated b). by destruct b. }
  set (b0 := if n_common_timeouts_allocated b =? _ then _ else b).
  assert (Hb0 : exists k, b0 = set_n_common_timeouts_allocated b k).
  { unfold b0. case_test; [eauto|]. exists (n_common_timeouts_allocated b). by destruct b. }
  destruct Hb0 as [k ->]. destruct (negb (mem_ok en CommonQueue)).
  { left. eexists. split; [done|]. by exists k. }
  right. unfold event_assign. simpl. unfold get. simpl. rewrite lookup_insert_eq. simpl.
  unfold event_priority_set, get. simpl. rewrite lookup_insert_eq. simpl. unfold nactivequeues in *. simpl.
  destruct (zlen (activequeues b) <=? 0) eqn:E; zb; [lia|]. simpl.
  eexists (put (set_n_common_timeouts_allocated (set_hidx b _) k) fresh queue_event).
  split; [unfold put; simpl; by rewrite !insert_insert_eq|]. simpl. repeat split.
Qed.

Lemma init_common_inv exact en fresh b d :
  eb_inv exact b -> evs b !! fresh = None -> Z.of_nat (S (size (evs b))) < INT_MAX -> 0 <= tv_usec d ->
  exists o b', event_base_init_common_timeout en fresh b d = Done (o, b') /\ eb_inv exact b' /\
    (forall x e, evs b !! x = Some e -> evs b' !! x = Some e) /\
    sig_frame b' = sig_frame b /\ activequeues b' = activequeues b /\
    match o with
    | Some tv => names_queue b' tv /\ mask_usec tv = normal_duration b d /\
        ctl_duration <$> find_ctl (common_timeout_queues b') (normal_duration b d) = Some tv
    | None => reallocated b b'
    end.
Proof.
  intros Hinv Hx Hsize Hd. pose proof (normal_duration_range b d Hd) as Hr.
  destruct (find_ctl (common_timeout_queues b) (normal_duration b d)) as [c|] eqn:Hf.
  { destruct (find_ctl_some _ _ _ Hf) as (i & Hi & Hm).
    destruct (names_queue_at exact b i c (ei_wf _ _ Hinv) Hi) as [Hc Hc'].
    exists (Some (ctl_duration c)), b. unfold event_base_init_common_timeout. fold (normal_duration b d).
    rewrite Hf, Hc. simpl. split; [done|]. split; [done|]. split; [done|]. split; [done|]. split; [done|].
    done. }
  destruct (decide (n_common_timeouts b = MAX_COMMON_TIMEOUTS)) as [Hmax|Hmax].
  { exists None, b. unfold event_base_init_common_timeout. fold (normal_duration b d). rewrite Hf, Hmax.
    repeat (split; [done|]). exists (n_common_timeouts_allocated b). by destruct b. }
  destruct (init_common_new en fresh b d Hf (ei_some _ _ Hinv) Hmax) as [(b' & Hd' & Hre)|Hnew].
  { destruct (reallocated_same b b' Hre) as (Hs & Hfr & Ha & Ht). pose proof Hs as (Hev & _).
    exists None, b'. split; [exact Hd'|].
    split; [by apply (inv_field exact b)|]. split; [by intros ? ?; rewrite Hev|]. done. }
  destruct Hnew as (b1 & -> & E1 & E2 & E3 & E4 & E5 & E6 & E7 & E8 & E9 & E10 & E11 & E12 & E13). cbv zeta.
  pose proof (to_max _ _ _ _ (wf_timers _ _ (ei_wf _ _ Hinv))) as Hle.
  unfold n_common_timeouts, MAX_COMMON_TIMEOUTS, zlen in *.
  destruct (hi_handle (tv_sec (normal_duration b d)) (tv_usec (normal_duration b d))
    (Z.of_nat (length (common_timeout_queues b)))) as [Hhi Hmask]; [lia|lia|].
  set (tv := mkTimeval (tv_sec (normal_duration b d)) _) in *.
  set (b' := set_common_timeout_queues b1 _).
  assert (Hinv' : eb_inv exact b').
  { apply (new_queue_inv exact _ tv fresh queue_event (queue_event_inv exact b fresh Hinv Hx Hsize));
      simpl; auto; [lia|by rewrite lookup_insert_eq]. }
  destruct (names_queue_at exact b' (length (common_timeout_queues b)) (mkCtl [] tv fresh)
    (ei_wf _ _ Hinv')) as [Hc Hc'].
  { simpl. rewrite lookup_app_r by lia. by rewrite Nat.sub_diag. }
  simpl in Hc. rewrite Hc. simpl. exists (Some tv), b'. split; [done|]. split; [done|].
  split; [|split; [done|]; split; [done|]; split].
  - intros x e He. simpl. rewrite E1, lookup_insert_ne; [done|]. intros <-. congruence.
  - done.
  - assert (Hm : mask_usec tv = normal_duration b d) by (rewrite Hmask; by destruct (normal_duration b d)).
    split; [done|]. simpl. by rewrite find_ctl_app.
Qed.
