(* ===== verification/EventLoopInv.v ===== *)
(** * The event loop is safe

    For every user callback that keeps the invariant of the event base, running
    active events ([run_callback], [event_process_active]) and the whole loop
    ([event_base_loop]) fail no assertion, dereference nothing invalid, and keep
    the invariant, whatever the backend reports. *)

From S2P Require Import Prelude MinHeap EventBase EventBaseInv EventBaseOps EventBaseKept EventBaseAdd EventBaseAct EventTimers EventLoop EventCheck.

(** ** What the loop may change *)

(** No event disappears while the loop runs. *)
Record grows (b b' : event_base) : Prop := {
  gr_event : forall x, is_Some (evs b !! x) -> is_Some (evs b' !! x);
  gr_frame : sig_frame b' = sig_frame b;
  gr_queues : length (activequeues b') = length (activequeues b)
}.

#[export] Instance grows_preorder : PreOrder grows.
Proof. split; [by intros b|]. intros b1 b2 b3 [] []. split; [auto|congruence..]. Qed.

Lemma kept_grows b b' : mild b b' -> kept b b' -> grows b b'.
Proof.
  intros (_ & Hf & _ & Hl) Hk. split; [|done|done]. intros x [e Hx].
  destruct (kept_event _ _ Hk x e Hx) as (e' & -> & _). eauto.
Qed.

(** The environments of the loop: the backend removes what it is asked to
    where [exact] is claimed, the timer heap can grow (every other allocation
    may fail), the clock is not negative. *)
Record loop_env (exact : bool) (e : env) : Prop := {
  le_env : env_ok exact e;
  le_mem : heap_mem e;
  le_clock : 0 <= tv_sec (clock e)
}.

(** Every user callback keeps the invariant. *)
Definition cb_ok (exact : bool) (cb : Z -> Z -> event_base -> outcome event_base) : Prop :=
  forall x res b, eb_inv exact b -> is_Some (evs b !! x) ->
  returns (cb x res b) (fun b' => eb_inv exact b' /\ grows b b').

Definition kept_inv_post (exact : bool) (b b' : event_base) : Prop := eb_inv exact b' /\ grows b b'.

Lemma post_of_kept exact b b' :
  eb_inv exact b -> eb_wf exact b' -> mild b b' -> kept b b' -> kept_inv_post exact b b'.
Proof. intros Hi Hw Hm Hk. split; [by eapply base_inv_step|by apply kept_grows]. Qed.

Lemma post_field exact b b' :
  eb_inv exact b -> same_queues b b' -> tv_cache b' = tv_cache b -> sig_frame b' = sig_frame b ->
  kept_inv_post exact b b'.
Proof.
  intros Hi Hs Hc Hf. split; [by eapply inv_field|]. destruct Hs as (E1 & _ & _ & _ & E3 & _).
  split; [by rewrite E1|done|by rewrite E3].
Qed.

Lemma post_trans exact b1 b2 b3 :
  grows b1 b2 -> kept_inv_post exact b2 b3 -> kept_inv_post exact b1 b3.
Proof. intros H [Hi Hg]. split; [done|by etransitivity]. Qed.

(** ** Time *)

Lemma gettime_inv exact en b :
  eb_inv exact b -> loop_env exact en ->
  kept_inv_post exact b (gettime en b).2 /\ 0 <= tv_usec (gettime en b).1 < 1000000 /\
  0 <= tv_sec (gettime en b).1.
Proof.
  intros Hi [He _ Hc].
  destruct (gettime_spec exact en b (ei_wf _ _ Hi) He) as (now & b1 & Hg & Hw & Hs & Hm & Hu).
  assert (Hpos : 0 <= tv_sec (gettime en b).1).
  { unfold gettime. case_test; [apply Hi|]. by case_test. }
  rewrite Hg in *. simpl in *. split; [|done]. apply post_of_kept; [done|done|done|].
  apply kept_same; [apply Hs|done].
Qed.

Lemma update_time_inv exact en b :
  eb_inv exact b -> loop_env exact en -> kept_inv_post exact b (update_time_cache en b).
Proof.
  intros Hi He. unfold update_time_cache.
  assert (Hcl : kept_inv_post exact b (clear_time_cache b)).
  { unfold clear_time_cache. split; [|by split].
    apply (inv_same exact b); [done|by repeat split|apply (ei_wf _ _ Hi)|simpl; lia]. }
  case_test; [done|]. destruct Hcl as [Hi1 Hg1].
  destruct (gettime_inv exact en _ Hi1 He) as ([Hi2 Hg2] & Hu & Hs).
  destruct (gettime en (clear_time_cache b)) as [now b2]. simpl in *.
  split; [|etransitivity; [exact Hg1|]; etransitivity; [exact Hg2|by split]].
  apply (inv_same exact b2); [done|by repeat split|done|done].
Qed.

(** ** Closures *)

Section closures.
Variable exact : bool.
Variable en : env.
Variable cb : Z -> Z -> event_base -> outcome event_base.
Hypothesis Henv : loop_env exact en.
Hypothesis Hcb : cb_ok exact cb.

Lemma position_spec x l i : position x l = Some i -> l !! i = Some x.
Proof.
  revert i. induction l as [|y l IH]; simpl; intros i H; [done|]. case_test_in H; zb.
  - by simplify_eq/=.
  - destruct (position x l) as [j|]; simplify_eq/=. by apply IH.
Qed.

Lemma call_safe b x :
  eb_inv exact b -> is_Some (evs b !! x) -> returns (call en cb b x) (kept_inv_post exact b).
Proof.
  intros Hi [e Hx]. unfold call. rewrite (get_done b x e Hx). cbn [mbind outcome_bind].
  destruct (queue_of b x) as [i|] eqn:Hq; [|by apply Hcb].
  apply position_spec in Hq. rewrite list_lookup_fmap in Hq.
  destruct (common_timeout_queues b !! i) as [c|] eqn:Hc; [|done].
  destruct (common_timeout_callback_wf exact en b i c (ei_wf _ _ Hi) (ei_own _ _ Hi) (le_env _ _ Henv)
    (le_mem _ _ Henv) (ei_inv _ _ Hi) Hc) as (b' & -> & Hw & Hm & Hk & _).
  apply returns_done. by apply post_of_kept.
Qed.

(** The event as the signal closure leaves it while its callback runs. *)
Lemma called_inv b x e f :
  eb_inv exact b -> evs b !! x = Some e ->
  eb_inv exact (put (set_sig_frame b f) x (set_ev_pncalls (set_ev_ncalls e 0) None)).
Proof.
  intros Hi Hx. set (b1 := set_sig_frame b f).
  assert (Hi1 : eb_inv exact b1) by (by apply (inv_field exact b)).
  apply (base_inv_step exact b1); [done|by apply (put_wf exact b1 x e); [apply Hi1|..]|done|].
  apply (kept_insert b1 _ x e (set_ev_pncalls (set_ev_ncalls e 0) None)); try done.
  split; try done. intros [I1 I2 I3 I4 I5]. split; auto. simpl. lia.
Qed.

(** With at most one call pending no pointer to the closure's variable is left. *)
Lemma signal_closure_safe b x e :
  eb_inv exact b -> evs b !! x = Some e -> sig_frame b = None ->
  returns (event_signal_closure cb b x) (kept_inv_post exact b).
Proof.
  intros Hi Hx Hnone. unfold event_signal_closure. rewrite (get_done b x e Hx). cbn [mbind outcome_bind].
  pose proof (iv_calls _ _ (ei_inv _ _ Hi x e Hx)) as Hc.
  assert (Hn : ev_ncalls e = 0 \/ ev_ncalls e = 1) by lia. destruct Hn as [Hn|Hn]; rewrite Hn; simpl.
  { apply returns_done. apply post_field; simpl; auto. by repeat split. }
  change (Z.to_nat (1 mod 2 ^ 16)) with 1%nat. simpl. unfold get. simpl. rewrite lookup_insert_eq. simpl.
  set (f := sig_next b). set (b1 := set_sig_next b (f + 1)).
  assert (Hi1 : eb_inv exact b1) by (by apply (inv_field exact b)).
  pose proof (called_inv b1 x e (Some (f, 0)) Hi1 Hx) as Hi2.
  match goal with |- context [cb x _ ?s] => replace s with
    (put (set_sig_frame b1 (Some (f, 0))) x (set_ev_pncalls (set_ev_ncalls e 0) None))
    by (unfold put; simpl; by rewrite insert_insert_eq) end.
  eapply returns_bind; [eapply returns_bind; [apply Hcb; [exact Hi2|simpl; rewrite lookup_insert_eq; eauto]|]|].
  - intros b2 [Hi3 Hg3]. assert (Hfr : frame_value b2 = 0)
      by (unfold frame_value; by rewrite (gr_frame _ _ Hg3)).
    rewrite Hfr. simpl. destruct (event_break b2); apply returns_done; exact (conj Hi3 Hg3).
  - intros b2 [Hi3 Hg3]. apply returns_done. split; [by apply (inv_field exact b2)|]. split.
    + intros y Hy. apply (gr_event _ _ Hg3). simpl. destruct (decide (y = x)) as [->|];
        [by rewrite lookup_insert_eq|by rewrite lookup_insert_ne].
    + by rewrite Hnone.
    + apply (gr_queues _ _ Hg3).
Qed.

(** The next run of a persistent event stays in the queue of its interval. *)
Lemma persist_time_ok b e now :
  eb_inv exact b -> persist_ok (length (owners b)) e ->
  ev_closure e = EV_CLOSURE_EVENT_PERSIST -> ev_io_timeout e <> tv0 -> 0 <= tv_usec now < 1000000 ->
  insertable b (persist_time b e now) /\ norm (persist_time b e now) /\
  hi (ev_io_timeout e) = hi (persist_time b e now).
Proof.
  intros Hi Hp Hc Hnz Hnow. destruct (Hp Hc Hnz) as ([N1 N1'] & [N2 N2'] & Hhi & Htag).
  unfold owners in Htag. rewrite length_fmap in Htag. fold (insertable b (ev_timeout e)) in Htag.
  assert (Hsum : forall r d, 0 <= tv_usec r < 1000000 -> 0 <= tv_usec d < 1000000 ->
    let t := timeradd r d in
    let t := if timercmp_gt now t then timeradd now d else t in
    0 <= tv_usec t < 1000000 /\ - 2 ^ 63 <= tv_sec t < 2 ^ 63).
  { intros r d Hr Hd. simpl. case_test; (split; [by apply timeradd_norm|apply timeradd_sec]). }
  unfold persist_time. destruct (is_common_timeout (ev_timeout e) b) eqn:Hcom.
  - destruct (Hsum (if has (ev_res e) EV_TIMEOUT then mask_usec (ev_timeout e) else now)
      (mask_usec (ev_io_timeout e))) as [Hu Hs]; [by case_test|done|]. cbv zeta in *.
    set (t := if timercmp_gt now _ then _ else _) in *.
    assert (Hh : hi (mkTimeval (tv_sec t) (Z.lor (tv_usec t)
      (Z.land (tv_usec (ev_io_timeout e)) (Z.lnot MICROSECONDS_MASK)))) = hi (ev_io_timeout e))
      by (apply hi_tagged; lia).
    split; [|split; [|done]].
    + unfold insertable in *. by rewrite Hh, Hhi.
    + unfold norm. rewrite mask_tagged by lia. done.
  - assert (H0 : hi (ev_timeout e) = 0).
    { destruct Htag as [?|(i & Hlt & Hh)]; [done|].
      destruct (is_common_hi (ev_timeout e) b i Hh Hlt) as [? _]; [apply (ei_wf _ _ Hi)|congruence]. }
    assert (Hlow : forall tv, hi tv = 0 -> mask_usec tv = tv).
    { intros tv Hz. apply mask_low. pose proof (usec_split (tv_usec tv)) as Hu. unfold hi in Hz.
      rewrite Hz in Hu. pose proof (mask_usec_range tv) as Hr. simpl in Hr. lia. }
    rewrite (Hlow (ev_io_timeout e)) in N1 by congruence. rewrite (Hlow (ev_timeout e)) in N2 by done.
    destruct (Hsum (if has (ev_res e) EV_TIMEOUT then ev_timeout e else now) (ev_io_timeout e))
      as [Hu Hs]; [by case_test|done|]. cbv zeta in *.
    set (t := if timercmp_gt now _ then _ else _) in *. rewrite Z.lor_0_r.
    replace (mkTimeval (tv_sec t) (tv_usec t)) with t by (by destruct t).
    assert (Hh : hi t = 0) by (apply hi_low; lia).
    split; [by left|]. split; [by apply norm_low|congruence].
Qed.

Lemma tv_nonzero tv : negb (tv_sec tv =? 0) || negb (tv_usec tv =? 0) = true -> tv <> tv0.
Proof. by intros H ->. Qed.

Lemma persist_closure_safe b x e :
  eb_inv exact b -> evs b !! x = Some e -> ev_closure e = EV_CLOSURE_EVENT_PERSIST ->
  returns (event_persist_closure en cb b x) (kept_inv_post exact b).
Proof.
  intros Hi Hx Hc. unfold event_persist_closure. rewrite (get_done b x e Hx). cbn [mbind outcome_bind].
  assert (Hlast : forall b1, kept_inv_post exact b b1 ->
    returns (ev ← get b1 x; cb x (ev_res ev) b1) (kept_inv_post exact b)).
  { intros b1 [Hi1 Hg1]. destruct (gr_event _ _ Hg1 x) as [e1 Hx1]; [eauto|].
    rewrite (get_done b1 x e1 Hx1). cbn [mbind outcome_bind].
    eapply returns_mono; [apply Hcb; [done|eauto]|]. intros b2 H2. by eapply post_trans. }
  destruct (negb _ || negb _) eqn:Hset; [|apply Hlast; split; [done|reflexivity]].
  apply tv_nonzero in Hset. pose proof (ei_inv _ _ Hi x e Hx) as Hev.
  rewrite same_common_hi by (symmetry; by apply (iv_persist _ _ Hev)). cbn [assert_c mbind outcome_bind].
  destruct (gettime_inv exact en b Hi Henv) as (Hpost & Hu & _).
  destruct (gettime_spec exact en b (ei_wf _ _ Hi) (le_env _ _ Henv)) as (now & b1 & Hg & _ & Hs & Hm & _).
  rewrite Hg in *. simpl in Hpost, Hu. destruct Hpost as [Hi1 Hg1].
  assert (Hx1 : evs b1 !! x = Some e) by (destruct Hs as (-> & _); done).
  destruct (persist_time_ok b1 e now Hi1 (iv_persist _ _ (ei_inv _ _ Hi1 x e Hx1)) Hc Hset Hu)
    as (P1 & P2 & P3).
  destruct (event_add_wf exact en b1 x e (Some (persist_time b1 e now)) true (ei_wf _ _ Hi1)
    (ei_own _ _ Hi1) (le_env _ _ Henv) Hx1) as (r & b2 & -> & Hw2 & Hm2 & Hk2 & _).
  - pose proof (iv_closure _ _ Hev) as Hcl. unfold closure_ok in Hcl. by rewrite Hc in Hcl.
  - done.
  - split; [done|]. intros _ _ _. split; [|done]. by apply (iv_persist _ _ Hev).
  - left. apply Henv.
  - cbn [mbind outcome_bind]. apply Hlast. eapply post_trans; [exact Hg1|]. by apply post_of_kept.
Qed.

(** Taking the event off its queue before its closure runs. *)
Lemma dequeue_safe b x e :
  eb_inv exact b -> evs b !! x = Some e -> has (ev_flags e) EVLIST_ACTIVE = true ->
  returns (if has (ev_flags e) EVLIST_INIT then
             if has (ev_events e) EV_PERSIST || has (ev_flags e) EVLIST_FINALIZING
             then event_queue_remove_active b x
             else '(_, b) ← event_del_nolock_ en b x EVENT_DEL_NOBLOCK; Done b
           else event_queue_remove_active b x)
    (fun b' => kept_inv_post exact b b' /\ exists e', evs b' !! x = Some e' /\ ev_closure e' = ev_closure e).
Proof.
  intros Hi Hx Ha.
  assert (Hrem : returns (event_queue_remove_active b x)
    (fun b' => kept_inv_post exact b b' /\ exists e', evs b' !! x = Some e' /\ ev_closure e' = ev_closure e)).
  { destruct (remove_active_wf exact b x e (ei_wf _ _ Hi) Hx Ha) as (b1 & -> & Hw1 & Hev1 & Hon1).
    apply returns_done. split; [|rewrite Hev1, lookup_insert_eq; eauto].
    apply post_of_kept; eauto with mtc. eapply kept_mild; eauto with mtc. apply evolves_del_flag. auto. }
  destruct (has (ev_flags e) EVLIST_INIT); [|done].
  destruct (_ || _) eqn:Hpf; [done|]. zb.
  destruct (event_del_wf exact en b x e EVENT_DEL_NOBLOCK (ei_wf _ _ Hi) (le_env _ _ Henv) Hx)
    as (r & b1 & -> & Hw1 & Hm1 & _ & _ & Hev1 & _). cbn [mbind outcome_bind].
  replace (del_skipped EVENT_DEL_NOBLOCK e) with false in Hev1 by (unfold del_skipped; simpl; done).
  apply returns_done. split; [|rewrite Hev1, lookup_insert_eq; eauto].
  apply post_of_kept; auto. eapply kept_mild; eauto with mtc.
Qed.

Lemma run_callback_safe b x e :
  eb_inv exact b -> evs b !! x = Some e -> has (ev_flags e) EVLIST_ACTIVE = true -> sig_frame b = None ->
  returns (run_callback en cb b x) (fun r => kept_inv_post exact b r.2).
Proof.
  intros Hi Hx Ha Hfr. unfold run_callback. rewrite (get_done b x e Hx). cbn [mbind outcome_bind].
  eapply returns_bind; [by apply dequeue_safe|]. intros b1 [[Hi1 Hg1] (e1 & Hx1 & Hc1)]. cbv beta zeta.
  set (b2 := set_current_event b1 (Some x)).
  assert (Hi2 : eb_inv exact b2) by (by apply (inv_field exact b1)).
  assert (Hg2 : grows b b2) by (etransitivity; [exact Hg1|by split]).
  assert (Hf2 : sig_frame b2 = None) by (rewrite (gr_frame _ _ Hg2); done).
  eapply (returns_bind _ _ (kept_inv_post exact b2)).
  2: { intros b3 [Hi3 Hg3]. apply returns_done. simpl. split; [by apply (inv_field exact b3)|].
       etransitivity; [exact Hg2|]. etransitivity; [exact Hg3|by split]. }
  pose proof (iv_closure _ _ (ei_inv _ _ Hi x e Hx)) as Hcl. unfold closure_ok in Hcl.
  assert (Hcall : forall o, returns (call en cb (set_current_event b1 o) x) (kept_inv_post exact b2)).
  { intros o. eapply returns_mono; [apply call_safe; [by apply (inv_field exact b1)|eauto]|].
    intros b3 [Hi3 Hg3]. split; [done|]. etransitivity; [|exact Hg3]. by split. }
  destruct (ev_closure e) eqn:Hc.
  1-3: rewrite Hcl; cbn [assert_c mbind outcome_bind].
  - apply Hcall.
  - by eapply signal_closure_safe.
  - by eapply persist_closure_safe.
  - apply Hcall.
  - rewrite Hcl. apply Hcall.
  - destruct Hcl as [-> ->]. apply Hcall.
  - destruct Hcl as [-> ->]. apply Hcall.
Qed.

(** ** Processing the active queues *)

Definition turn_ok (b : event_base) (o : option turn) : Prop :=
  match o with Some t => kept_inv_post exact b (base t) | None => True end.

Lemma past_inv b endtime :
  eb_inv exact b -> kept_inv_post exact b (past en b endtime).2.
Proof.
  intros Hi. unfold past. destruct endtime as [t|]; [|split; [done|reflexivity]].
  destruct (update_time_inv exact en b Hi Henv) as [Hi1 Hg1].
  destruct (gettime_inv exact en _ Hi1 Henv) as ([Hi2 Hg2] & _).
  destruct (gettime en (update_time_cache en b)) as [now b2]. simpl in *.
  split; [done|by etransitivity].
Qed.

Lemma queue_head_active b i x q :
  eb_inv exact b -> activequeues b !! i = Some (x :: q) ->
  exists e, evs b !! x = Some e /\ has (ev_flags e) EVLIST_ACTIVE = true.
Proof.
  intros Hi Hq. destruct (ao_queue _ _ _ _ (wf_active _ _ (ei_wf _ _ Hi)) i _ Hq) as [_ Hel].
  destruct (view_event aview_of (evs b) _ x (proj1 (Hel x) ltac:(set_solver))) as (e & Hx & Ha & _). eauto.
Qed.

Lemma single_queue_safe fuel b i count maxp endtime :
  eb_inv exact b -> (i < length (activequeues b))%nat -> sig_frame b = None ->
  returns (event_process_active_single_queue en cb fuel b i count maxp endtime) (turn_ok b).
Proof.
  revert b count. induction fuel as [|fuel IH]; intros b count Hi Hlt Hfr; simpl;
    destruct (lookup_lt_is_Some_2 _ _ Hlt) as [q Hq]; rewrite Hq; cbn [mbind outcome_bind deref];
    destruct q as [|x q]; try (apply returns_done; split; [done|reflexivity]).
  { by apply returns_done. }
  destruct (queue_head_active b i x q Hi Hq) as (e & Hx & Ha).
  eapply returns_bind; [by apply (run_callback_safe b x e)|]. intros [real b1] [Hi1 Hg1]. simpl in Hi1, Hg1.
  set (count' := if real then _ else count).
  destruct (event_break b1); [by apply returns_done|].
  destruct (maxp <=? count'); [by apply returns_done|].
  assert (Hp : kept_inv_post exact b1 (if count' =? 0 then (false, b1) else past en b1 endtime).2).
  { case_test; [split; [done|reflexivity]|by apply past_inv]. }
  destruct (if count' =? 0 then _ else _) as [late b2]. simpl in Hp. destruct Hp as [Hi2 Hg2].
  assert (Hg : grows b b2) by (by etransitivity).
  destruct late; [by apply returns_done|]. destruct (event_continue b2); [by apply returns_done|].
  eapply returns_bind; [apply IH; [done|by rewrite (gr_queues _ _ Hg)|by rewrite (gr_frame _ _ Hg)]|].
  intros [t|] Ht; apply returns_done; [|done]. simpl in *. by eapply post_trans.
Qed.

Lemma process_from_safe fuel k b i c maxcb limit endtime :
  eb_inv exact b -> (i + k <= length (activequeues b))%nat -> sig_frame b = None ->
  returns (process_from en cb fuel k b i c maxcb limit endtime) (turn_ok b).
Proof.
  revert b i c. induction k as [|k IH]; intros b i c Hi Hle Hfr; simpl.
  { apply returns_done. split; [done|reflexivity]. }
  destruct (lookup_lt_is_Some_2 (activequeues b) i) as [q Hq]; [lia|]. rewrite Hq. cbn [mbind outcome_bind deref].
  destruct q as [|x q]; [apply IH; [done|lia|done]|].
  set (b1 := set_event_running_priority b (Z.of_nat i)).
  assert (Hi1 : eb_inv exact b1) by (by apply (inv_field exact b)).
  assert (Hg1 : grows b b1) by (by split).
  eapply (returns_bind _ _ (turn_ok b1)); [case_test; apply single_queue_safe; simpl; (done || lia)|].
  intros [t|] Ht; [|by apply returns_done]. destruct Ht as [Hi2 Hg2].
  assert (Hg : grows b (base t)) by (by etransitivity).
  case_test; [|by apply returns_done].
  eapply returns_bind; [apply IH; [done|rewrite (gr_queues _ _ Hg); lia|by rewrite (gr_frame _ _ Hg)]|].
  intros [t'|] Ht'; apply returns_done; [|done]. simpl in *. by eapply post_trans.
Qed.

Lemma process_active_safe fuel b :
  eb_inv exact b -> sig_frame b = None ->
  returns (event_process_active en cb fuel b) (turn_ok b).
Proof.
  intros Hi Hfr. unfold event_process_active.
  set (p := if 0 <=? _ then _ else _). assert (Hp : kept_inv_post exact b p.2).
  { unfold p. case_test; [|split; [done|reflexivity]].
    destruct (update_time_inv exact en b Hi Henv) as [Hi1 Hg1].
    destruct (gettime_inv exact en _ Hi1 Henv) as ([Hi2 Hg2] & _).
    destruct (gettime en (update_time_cache en b)) as [now b2]. simpl in *. split; [done|by etransitivity]. }
  destruct p as [endtime b1]. simpl in Hp. destruct Hp as [Hi1 Hg1].
  eapply returns_bind; [apply process_from_safe; [done|lia|by rewrite (gr_frame _ _ Hg1)]|].
  intros [t|] Ht; apply returns_done; [|done]. destruct Ht as [Hi2 Hg2].
  split; simpl; [by apply (inv_field exact (base t))|].
  etransitivity; [exact Hg1|]. etransitivity; [exact Hg2|by split].
Qed.

(** ** The loop *)

Variable dispatch : option timeval -> event_base -> outcome (Z * event_base).
Hypothesis Hdispatch : forall tv b, eb_inv exact b ->
  returns (dispatch tv b) (fun r => kept_inv_post exact b r.2).

Lemma loop_turn_safe fuel flags b :
  eb_inv exact b -> sig_frame b = None ->
  returns (loop_turn en cb dispatch fuel flags b) (fun r => kept_inv_post exact b r.2).
Proof.
  intros Hi Hfr. unfold loop_turn. set (b1 := set_n_deferreds_queued (set_event_continue b false) 0).
  assert (Hi1 : eb_inv exact b1) by (by apply (inv_field exact b)).
  assert (Hg1 : grows b b1) by (by split).
  case_test; [by apply returns_done|].
  eapply (returns_bind _ _ (fun r => kept_inv_post exact b1 r.2)).
  { case_test; [|apply returns_done; split; [done|reflexivity]].
    destruct (gettime_inv exact en b1 Hi1 Henv) as (_ & _ & Hpos).
    destruct (timeout_next_wf exact en b1 (ei_wf _ _ Hi1) (le_env _ _ Henv) (ei_inv _ _ Hi1) Hpos)
      as (o & b2 & -> & Hw2 & Hm2 & Hk2 & _). apply returns_done. by apply post_of_kept. }
  intros [tv_p b2] [Hi2 Hg2]. simpl in Hi2, Hg2. assert (Hgb2 : grows b b2) by (by etransitivity).
  case_test; [by apply returns_done|].
  destruct (make_later_loop_wf exact (active_later_queue b2) b2 (ei_wf _ _ Hi2) eq_refl)
    as (b3 & Hd & Hw3 & Hon3 & Hk3 & _).
  unfold event_queue_make_later_events_active. rewrite Hd. cbn [mbind outcome_bind].
  destruct (post_of_kept exact b2 b3 Hi2 Hw3 (mild_active _ _ Hon3) Hk3) as [Hi3 Hg3].
  assert (Hi4 : eb_inv exact (clear_time_cache b3)).
  { apply (inv_same exact b3); [done|by repeat split|apply (ei_wf _ _ Hi3)|simpl; lia]. }
  eapply returns_bind; [by apply Hdispatch|]. intros [res b5] [Hi5 Hg5]. simpl in Hi5, Hg5.
  assert (Hgb5 : grows b b5).
  { etransitivity; [exact Hgb2|]. etransitivity; [exact Hg3|]. etransitivity; [|exact Hg5]. by split. }
  case_test; [by apply returns_done|].
  destruct (update_time_inv exact en b5 Hi5 Henv) as [Hi6 Hg6]. cbv zeta.
  destruct (timeout_process_wf exact en (update_time_cache en b5) (ei_wf _ _ Hi6) (le_env _ _ Henv)
    (ei_inv _ _ Hi6)) as (b7 & -> & Hw7 & Hm7 & Hk7 & _). cbn [mbind outcome_bind].
  destruct (post_of_kept exact _ b7 Hi6 Hw7 Hm7 Hk7) as [Hi7 Hg7].
  assert (Hgb7 : grows b b7) by (etransitivity; [exact Hgb5|]; by etransitivity).
  case_test; [|by apply returns_done].
  eapply returns_bind; [apply process_active_safe; [done|by rewrite (gr_frame _ _ Hgb7)]|].
  intros [t|] Ht; apply returns_done; simpl; [|done]. by eapply post_trans.
Qed.

Lemma loop_from_safe turns fuel flags b :
  eb_inv exact b -> sig_frame b = None ->
  returns (loop_from en cb dispatch turns fuel flags b) (fun r => kept_inv_post exact b r.2).
Proof.
  revert b. induction turns as [|turns IH]; intros b Hi Hfr; simpl.
  { apply returns_done. split; [done|reflexivity]. }
  eapply returns_bind; [by apply loop_turn_safe|]. intros [o b1] [Hi1 Hg1]. simpl in Hi1, Hg1.
  destruct o as [[r|[]]|]; try (by apply returns_done).
  eapply returns_mono; [apply IH; [done|by rewrite (gr_frame _ _ Hg1)]|]. intros r. by apply post_trans.
Qed.

Lemma loop_safe turns fuel flags b :
  eb_inv exact b -> sig_frame b = None ->
  returns (event_base_loop en cb dispatch turns fuel flags b) (fun r => kept_inv_post exact b r.2).
Proof.
  intros Hi Hfr. unfold event_base_loop. case_test; [apply returns_done; split; [done|reflexivity]|].
  set (b1 := set_event_break _ _).
  assert (Hi1 : eb_inv exact b1).
  { apply (inv_same exact b); [done|by repeat split|apply (ei_wf _ _ Hi)|simpl; lia]. }
  assert (Hg1 : grows b b1) by (by split).
  eapply returns_bind; [by apply loop_from_safe|]. intros [r b2] [Hi2 Hg2]. simpl in Hi2, Hg2.
  apply returns_done. simpl. split.
  - apply (inv_same exact b2); [done|by repeat split|apply (ei_wf _ _ Hi2)|simpl; lia].
  - etransitivity; [exact Hg1|]. etransitivity; [exact Hg2|by split].
Qed.

End closures.
