(* ===== verification/EventApi.v ===== *)
(** * The event library as its users see it

    The calls of the public interface as one type of operations, with the
    conditions the documentation puts on their arguments as a boolean test,
    the states of a base that such calls, backend reports and runs of the loop
    can reach, and the theorems about all of them. *)

From S2P Require Import Prelude MinHeap EventBase EventBaseInv EventBaseOps EventBaseKept EventBaseAdd EventBaseAct EventTimers EventLoop EventCheck EventLoopInv.

(** ** Operations *)

Inductive api_op :=
| OpAssign (x fd events : Z)
| OpDeferInit (x priority : Z)
| OpInitCommon (fresh : Z) (d : timeval)
| OpAdd (x : Z) (tv : option timeval)
| OpDel (x : Z)
| OpRemoveTimer (x : Z)
| OpActive (x res : Z)
| OpPriority (x pri : Z)
| OpFinalize (x : Z) (free : bool)
| OpDefer (x : Z)
| OpCancel (x : Z)
| OpFinalizeMany (xs : list Z)
| OpBreak
| OpContinue
| OpIo (fd what : Z)
| OpSignal (sig : Z)
| OpOnce (fresh fd events : Z) (tv : option timeval).

(** What freshly allocated memory holds does not matter. *)
Definition junk : event := mkEvent 0 0 EV_CLOSURE_EVENT 0 0 0 tv0 tv0 0 None.

Definition api_step (e : env) (b : event_base) (op : api_op) : outcome event_base :=
  match op with
  | OpAssign x fd events => Done (event_assign b x fd events (default junk (evs b !! x))).2
  | OpDeferInit x priority => Done (event_deferred_cb_init_ b x priority)
  | OpInitCommon fresh d => '(_, b) ← event_base_init_common_timeout e fresh b d; Done b
  | OpAdd x tv => '(_, b) ← event_add e b x tv; Done b
  | OpDel x => '(_, b) ← event_del e b x; Done b
  | OpRemoveTimer x => '(_, b) ← event_remove_timer_nolock_ b x; Done b
  | OpActive x res => event_active_nolock_ b x res 1
  | OpPriority x pri => '(_, b) ← event_priority_set b x pri; Done b
  | OpFinalize x free => '(_, b) ← event_finalize_nolock_ e b x free; Done b
  | OpDefer x => '(_, b) ← event_deferred_cb_schedule_ b x; Done b
  | OpCancel x => '(_, b) ← event_callback_cancel_nolock_ e b x false; Done b
  | OpFinalizeMany xs => '(_, b) ← event_callback_finalize_many_ e b xs; Done b
  | OpBreak => Done (event_base_loopbreak b)
  | OpContinue => Done (event_base_loopcontinue b)
  | OpIo fd what => evmap_io_active_ b fd what
  | OpSignal sig => evmap_signal_active_ b sig 1
  | OpOnce fresh fd events tv => '(_, _, b) ← event_base_once e fresh b fd events tv; Done b
  end.

(** ** Conditions on the arguments *)

Definition known (b : event_base) (x : Z) : bool := bool_decide (is_Some (evs b !! x)).

Definition initialised (b : event_base) (x : Z) : bool :=
  match evs b !! x with Some e => has (ev_flags e) EVLIST_INIT | None => false end.

Definition unused (b : event_base) (x : Z) : bool :=
  bool_decide (evs b !! x = None) && (Z.of_nat (S (size (evs b))) <? INT_MAX).

(** Memory that is in no queue of the library. *)
Definition reusable (b : event_base) (x : Z) : bool :=
  match evs b !! x with
  | Some e =>
      negb (has (ev_flags e) EVLIST_TIMEOUT || has (ev_flags e) EVLIST_INSERTED ||
            has (ev_flags e) EVLIST_ACTIVE || has (ev_flags e) EVLIST_ACTIVE_LATER) &&
      negb (bool_decide (x ∈ (ctl_timeout_event <$> common_timeout_queues b)))
  | None => Z.of_nat (S (size (evs b))) <? INT_MAX
  end.

(** An interval: below a second in [tv_usec], or a handle of this base. *)
Definition interval_ok (b : event_base) (tv : timeval) : bool :=
  (0 <=? tv_usec tv) && (tv_usec tv <? 2 ^ 32) &&
  (is_common_timeout tv b || (tv_usec tv <? 1000000)) &&
  (tv_usec (mask_usec tv) <? 1000000) && (- 2 ^ 63 <=? tv_sec tv) && (tv_sec tv <? 2 ^ 63).

Definition op_ok (b : event_base) (op : api_op) : bool :=
  match op with
  | OpAssign x fd events =>
      reusable b x && (fd <? 2 ^ 26) &&
      (negb (has events EV_SIGNAL) || (negb (has events EV_IO) && (0 <=? fd)))
  | OpDeferInit x priority => unused b x && (0 <=? priority) && (priority <? nactivequeues b)
  | OpInitCommon fresh d => unused b fresh && (0 <=? tv_usec d)
  | OpAdd x tv => initialised b x && match tv with Some tv => interval_ok b tv | None => true end
  | OpFinalize x _ => initialised b x
  | OpDel x | OpRemoveTimer x | OpActive x _ | OpPriority x _ | OpDefer x | OpCancel x => known b x
  | OpFinalizeMany xs => forallb (known b) xs && match xs with [] => false | _ => true end
  | OpBreak | OpContinue => true
  | OpIo fd _ => 0 <=? fd
  | OpSignal sig => 0 <=? sig
  | OpOnce fresh fd _ tv =>
      unused b fresh && (fd <? 2 ^ 26) &&
      match tv with Some tv => interval_ok b tv | None => true end
  end.

(** ** Every operation is safe *)

Lemma known_event b x : known b x = true -> exists e, evs b !! x = Some e.
Proof. unfold known. by intros H%bool_decide_eq_true_1. Qed.

Lemma initialised_event b x :
  initialised b x = true -> exists e, evs b !! x = Some e /\ has (ev_flags e) EVLIST_INIT = true.
Proof. unfold initialised. destruct (evs b !! x) as [e|]; [eauto|done]. Qed.

Lemma unused_event b x :
  unused b x = true -> evs b !! x = None /\ Z.of_nat (S (size (evs b))) < INT_MAX.
Proof. unfold unused. intros H. zb. split; [by eapply bool_decide_eq_true_1|done]. Qed.

Lemma owns_queue_iff b x : owns_queue b x <-> x ∈ (ctl_timeout_event <$> common_timeout_queues b).
Proof.
  unfold owns_queue, owners. split.
  - intros [d Hd]. apply list_elem_of_fmap in Hd as (c & [= -> ->] & Hc). by apply list_elem_of_fmap_2.
  - intros Hx. apply list_elem_of_fmap in Hx as (c & -> & Hc). exists (ctl_duration c).
    apply list_elem_of_fmap. eauto.
Qed.

Lemma reusable_idle exact b x :
  eb_inv exact b -> reusable b x = true ->
  idle b x /\ ~ owns_queue b x /\
  Z.of_nat (size (<[x := default junk (evs b !! x)]> (evs b))) < INT_MAX.
Proof.
  intros Hi Hr. unfold reusable, idle in *. destruct (evs b !! x) as [e|] eqn:Hx; simpl.
  - zb. split; [by intros e' [= <-]|]. split; [rewrite owns_queue_iff; by eapply bool_decide_eq_false_1|].
    rewrite map_size_insert_Some by done. pose proof (to_size _ _ _ _ (wf_timers _ _ (ei_wf _ _ Hi))) as Hs.
    by rewrite map_size_fmap in Hs.
  - zb. split; [done|]. split; [by eapply fresh_not_owner|]. by rewrite map_size_insert_None.
Qed.

Lemma interval_arg b x tv :
  interval_ok b tv = true -> tv_arg_ok b (Some tv) false /\ arg_norm x (Some tv) false.
Proof.
  unfold interval_ok. intros H. zb. split.
  - split; [lia|]. destruct H3 as [?|?]; [by left|]. zb. by right.
  - split; [|done]. split; [|lia]. pose proof (mask_usec_range tv). lia.
Qed.

Section safety.
Variable exact : bool.
Variable en : env.
Hypothesis Henv : loop_env exact en.

(** An operation that leaves one event evolved. *)
Lemma evolve_post b b' x e e' :
  eb_inv exact b -> eb_wf exact b' -> mild b b' -> evs b !! x = Some e -> evs b' = <[x := e']> (evs b) ->
  evolves (length (owners b)) e e' -> kept_inv_post exact b b'.
Proof. intros. apply post_of_kept; auto. by eapply kept_mild. Qed.

Lemma assign_safe b x fd events :
  eb_inv exact b -> op_ok b (OpAssign x fd events) = true ->
  returns (api_step en b (OpAssign x fd events)) (kept_inv_post exact b).
Proof.
  intros Hi Hok. simpl in *. zb. destruct (reusable_idle exact b x Hi H) as (Hidle & Hown & Hsize).
  destruct (event_assign_inv exact b x fd events (default junk (evs b !! x)) Hi Hidle Hown)
    as (b' & -> & Hi' & Hm & e' & Hev & _); [|done|].
  { split; [done|]. intros Hs. rewrite Hs in H0. simpl in H0. destruct H0; [done|]. by zb. }
  apply returns_done. split; [done|]. destruct Hm as (_ & Hf & _ & Hl). split; [|done|done].
  intros y Hy. simpl. rewrite Hev, lookup_insert_is_Some'. auto.
Qed.

Lemma init_common_safe b fresh d :
  eb_inv exact b -> op_ok b (OpInitCommon fresh d) = true ->
  returns (api_step en b (OpInitCommon fresh d)) (kept_inv_post exact b).
Proof.
  intros Hi Hok. simpl in *. zb. destruct (unused_event b fresh H) as [Hx Hs].
  destruct (init_common_inv exact en fresh b d Hi Hx Hs H0) as (o & b' & -> & Hi' & Hev & Hf & Hl & _).
  apply returns_done. split; [done|]. split; [|done|by rewrite Hl]. intros y [e Hy].
  rewrite (Hev y e Hy). eauto.
Qed.

Lemma add_safe b x tv :
  eb_inv exact b -> op_ok b (OpAdd x tv) = true ->
  returns (api_step en b (OpAdd x tv)) (kept_inv_post exact b).
Proof.
  intros Hi Hok. simpl in *. zb. destruct (initialised_event b x H) as (e & Hx & Hini).
  destruct (event_add_wf exact en b x e tv false (ei_wf _ _ Hi) (ei_own _ _ Hi) (le_env _ _ Henv) Hx Hini)
    as (r & b' & Hd & Hw' & Hm & Hk & _).
  - destruct tv as [tv|]; [|done]. by apply (interval_arg b e).
  - destruct tv as [tv|]; [|done]. by apply (interval_arg b e).
  - left. apply Henv.
  - unfold event_add. rewrite Hd. apply returns_done. by apply post_of_kept.
Qed.

(** An interval stays valid when an event is assigned. *)
Lemma interval_mild b b' tv : mild b b' -> interval_ok b' tv = interval_ok b tv.
Proof. intros Hm. unfold interval_ok. by rewrite (mild_common tv b b' Hm). Qed.

(** A fresh event is assigned and added. *)
Lemma assign_add_safe b x fd events old tv :
  eb_inv exact b -> unused b x = true -> assignable fd events ->
  match tv with Some tv => interval_ok b tv = true | None => True end ->
  kept_inv_post exact b (event_assign b x fd events old).2 /\
  is_Some (evs (event_assign b x fd events old).2 !! x) /\
  returns (event_add_nolock_ en (event_assign b x fd events old).2 x tv false)
    (fun p => kept_inv_post exact b p.2).
Proof.
  intros Hi Hu Has Htv. destruct (unused_event b x Hu) as [Hx Hs].
  destruct (event_assign_inv exact b x fd events old Hi)
    as (b1 & -> & Hi1 & Hm & e' & Hev & Hfl & _); [|by eapply fresh_not_owner|done|..].
  { unfold idle. intros e. by rewrite Hx. }
  { by rewrite map_size_insert_None. }
  assert (Hx1 : evs b1 !! x = Some e') by (by rewrite Hev, lookup_insert_eq).
  assert (Hg : grows b b1).
  { destruct Hm as (_ & Hf & _ & Hl). split; [|done|done].
    intros y Hy. rewrite Hev, lookup_insert_is_Some'. auto. }
  simpl. split; [by split|]. split; [eauto|].
  destruct (event_add_wf exact en b1 x e' tv false (ei_wf _ _ Hi1) (ei_own _ _ Hi1) (le_env _ _ Henv) Hx1)
    as (r & b' & -> & Hw' & Hm' & Hk & _).
  - by rewrite Hfl.
  - destruct tv as [tv|]; [|done]. apply (interval_arg b1 e'). by rewrite (interval_mild b b1).
  - destruct tv as [tv|]; [|done]. apply (interval_arg b1 e'). by rewrite (interval_mild b b1).
  - left. apply Henv.
  - apply returns_done. simpl. eapply post_trans; [exact Hg|]. by apply post_of_kept.
Qed.

Lemma once_safe b fresh fd events tv :
  eb_inv exact b -> op_ok b (OpOnce fresh fd events tv) = true ->
  returns (api_step en b (OpOnce fresh fd events tv)) (kept_inv_post exact b).
Proof.
  intros Hi Hok. simpl in *. zb. unfold event_base_once. set (old := mkEvent _ _ _ _ _ _ _ _ _ _).
  assert (Htv : match tv with Some tv => interval_ok b tv = true | None => True end) by (by destruct tv).
  assert (Hsame : kept_inv_post exact b b) by (split; [done|reflexivity]).
  destruct (has events (Z.lor EV_SIGNAL EV_PERSIST)); [by apply returns_done|].
  destruct (negb (mem_ok en OnceEvent)); [by apply returns_done|].
  assert (Hadd : forall fd events, assignable fd events ->
    returns ('(_, _, b) ← (let '(_, b) := event_assign b fresh fd events old in
      '(res, b) ← event_add_nolock_ en b fresh tv false; Done (res, res =? 0, b)); Done b)
      (kept_inv_post exact b)).
  { intros fd' events' Has.
    destruct (assign_add_safe b fresh fd' events' old tv Hi H Has Htv) as (_ & _ & Hret).
    destruct (event_assign b fresh fd' events' old) as [? b1]. simpl in Hret.
    destruct Hret as ([r b'] & -> & Hp). by apply returns_done. }
  case_test.
  - assert (Hact : returns ('(_, _, b) ← (let '(_, b) := event_assign b fresh (-1) 0 old in
        b ← event_active_nolock_ b fresh EV_TIMEOUT 1; Done (0, true, b)); Done b)
        (kept_inv_post exact b)).
    { destruct (assign_add_safe b fresh (-1) 0 old tv Hi H) as ([Hi1 Hg] & [e Hx] & _); [by split|done|].
      destruct (event_assign b fresh (-1) 0 old) as [? b1]. simpl in *.
      destruct (event_active_wf exact b1 fresh e EV_TIMEOUT 1 (ei_wf _ _ Hi1) Hx)
        as (b' & -> & Hw' & Hon & Hev). apply returns_done. eapply post_trans; [exact Hg|].
      eapply evolve_post; eauto with mtc. by apply evolves_activated. }
    destruct tv as [tv|]; [case_test|]; [|exact Hact..]. by apply (Hadd (-1) 0).
  - case_test; [|by apply returns_done]. apply Hadd. split; [done|].
    intros Hs. exfalso. revert Hs. unfold has. rewrite <-Z.land_assoc. by rewrite Z.land_0_r.
Qed.

Lemma priority_safe b x pri :
  eb_inv exact b -> op_ok b (OpPriority x pri) = true ->
  returns (api_step en b (OpPriority x pri)) (kept_inv_post exact b).
Proof.
  intros Hi Hok. simpl in *. apply known_event in Hok as [e Hx].
  destruct (priority_set_wf exact b x e pri (ei_wf _ _ Hi) Hx) as (r & b' & -> & Hw' & Hm & Hc).
  apply returns_done. destruct Hc as [[_ ->]|(_ & _ & Hev)]; [split; [done|reflexivity]|].
  eapply evolve_post; eauto. split; try done. by apply event_inv_flags.
Qed.

(** Activating events of a map evolves each of them. *)
Lemma map_post b b' f :
  eb_inv exact b -> eb_wf exact b' -> only_active b b' ->
  (forall y, evs b' !! y = f <$> evs b !! y) ->
  (forall e, evolves (length (owners b)) e (f e)) -> kept_inv_post exact b b'.
Proof.
  intros Hi Hw Hon Hev Hf. apply post_of_kept; eauto with mtc.
  pose proof (mild_active _ _ Hon) as (_ & _ & Hq & _). split; [done|..].
  - intros y e Hy. exists (f e). by rewrite Hev, Hy.
  - intros y [e' Hy]. rewrite Hev in Hy. destruct (evs b !! y); [eauto|done].
Qed.

Lemma op_safe b op :
  eb_inv exact b -> op_ok b op = true -> returns (api_step en b op) (kept_inv_post exact b).
Proof.
  intros Hi Hok. pose proof (ei_wf _ _ Hi) as Hw. pose proof (le_env _ _ Henv) as He.
  destruct op as [x fd events|x p|fresh d|x tv|x|x|x res|x p|x free|x|x|xs| | |fd what|sig|fresh fd events tv];
    [by apply assign_safe| |by apply init_common_safe|by apply add_safe| | | |by apply priority_safe|..];
    simpl in Hok |- *.
  - zb. destruct (unused_event b x H) as [Hx Hs]. apply returns_done.
    split; [apply deferred_init_inv; eauto using fresh_not_owner|]. split; [|done|done].
    intros y Hy. simpl. rewrite lookup_insert_is_Some'. auto.
  - apply known_event in Hok as [e Hx]. unfold event_del.
    destruct (event_del_wf exact en b x e EVENT_DEL_AUTOBLOCK Hw He Hx)
      as (r & b' & -> & Hw' & Hm & _ & _ & Hev & _). apply returns_done.
    destruct (del_skipped _ e); [apply post_of_kept; auto using kept_same|]. eapply evolve_post; eauto with mtc.
  - apply known_event in Hok as [e Hx].
    destruct (remove_timer_wf exact b x e Hw Hx) as (b' & -> & Hw' & Hm & Hev). apply returns_done.
    eapply evolve_post; eauto using evolves_timer_removed.
  - apply known_event in Hok as [e Hx].
    destruct (event_active_wf exact b x e res 1 Hw Hx) as (b' & -> & Hw' & Hon & Hev). apply returns_done.
    eapply evolve_post; eauto with mtc. by apply evolves_activated.
  - apply initialised_event in Hok as (e & Hx & Hini).
    destruct (event_finalize_wf exact en b x e free Hw He Hx) as (b' & -> & Hw' & Hm & Hev).
    apply returns_done. eapply evolve_post; eauto. apply evolves_finalized; [destruct free; auto|done].
  - apply known_event in Hok as [e Hx].
    destruct (deferred_schedule_wf exact b x e Hw Hx) as (r & b' & -> & Hw' & Hm & Hk).
    apply returns_done. by apply post_of_kept.
  - apply known_event in Hok as [e Hx].
    destruct (callback_cancel_wf exact en b x e false Hw He Hx) as (r & b' & -> & Hw' & Hm & _ & Hev).
    apply returns_done. eapply evolve_post; eauto with mtc.
  - zb. destruct (finalize_many_wf exact en xs b Hw He) as (b' & -> & Hw' & Hm & Hk); [by intros ->| |].
    { intros x Hx. rewrite forallb_forall in H. apply list_elem_of_In in Hx.
      by destruct (known_event b x (H x Hx)) as [e ->]. }
    apply returns_done. by apply post_of_kept.
  - apply returns_done. by apply post_field.
  - apply returns_done. by apply post_field.
  - zb. destruct (io_active_wf exact b fd what Hw Hok) as (b' & -> & Hw' & Hon & Hev).
    apply returns_done. eapply map_post; eauto. intros e. unfold io_activated.
    case_test; [by apply evolves_activated|reflexivity].
  - zb. destruct (signal_active_wf exact b sig 1 Hw Hok) as (b' & -> & Hw' & Hon & Hev).
    apply returns_done. eapply map_post; eauto. intros e. unfold signal_activated.
    case_test; [by apply evolves_activated|reflexivity].
  - by apply once_safe.
Qed.

(** ** Programs *)

(** A program attempts operations one after the other, those it may. *)
Fixpoint attempt (ops : list api_op) (b : event_base) : outcome event_base :=
  match ops with
  | [] => Done b
  | op :: ops => b ← (if op_ok b op then api_step en b op else Done b); attempt ops b
  end.

Lemma attempt_safe ops b : eb_inv exact b -> returns (attempt ops b) (kept_inv_post exact b).
Proof.
  revert b. induction ops as [|op ops IH]; intros b Hi; simpl.
  { apply returns_done. split; [done|reflexivity]. }
  eapply (returns_bind _ _ (kept_inv_post exact b)).
  - destruct (op_ok b op) eqn:Hok; [by apply op_safe|apply returns_done; split; [done|reflexivity]].
  - intros b1 [Hi1 Hg1]. eapply returns_mono; [by apply IH|]. intros b2. by apply post_trans.
Qed.

(** A callback that runs such a program, and a backend that reports through
    the maps. *)
Definition program (prog : Z -> Z -> list api_op) : Z -> Z -> event_base -> outcome event_base :=
  fun x res b => attempt (prog x res) b.

Definition backend (ready : option timeval -> list api_op) (r : Z)
    : option timeval -> event_base -> outcome (Z * event_base) :=
  fun tv b => b ← attempt (ready tv) b; Done (r, b).

Lemma program_ok prog : cb_ok exact (program prog).
Proof. intros x res b Hi _. by apply attempt_safe. Qed.

Lemma backend_ok ready r tv b :
  eb_inv exact b -> returns (backend ready r tv b) (fun p => kept_inv_post exact b p.2).
Proof. intros Hi. eapply returns_bind; [by apply attempt_safe|]. intros b' Hb'. by apply returns_done. Qed.

End safety.

(** ** Reachable bases *)

Inductive reachable : event_base -> Prop :=
| reach_new en cfg b : event_base_new_with_config en cfg = Some b -> reachable b
| reach_op en b op b' :
    reachable b -> loop_env true en -> op_ok b op = true -> api_step en b op = Done b' -> reachable b'
| reach_loop en b prog ready k turns fuel flags r b' :
    reachable b -> loop_env true en ->
    event_base_loop en (program en prog) (backend en ready k) turns fuel flags b = Done (r, b') ->
    reachable b'.

Lemma new_frame en cfg b : event_base_new_with_config en cfg = Some b -> sig_frame b = None.
Proof.
  unfold event_base_new_with_config, event_base_priority_init, gettime. destruct (mem_ok en BaseItself); [|done].
  destruct (mem_ok en (PriorityQueues 1)); simpl; destruct (_ <? tv_sec (clock en)), cfg as [c|]; simpl; repeat case_test; intros; by simplify_eq/=.
Qed.

Lemma reachable_base_inv b : reachable b -> eb_inv true b /\ sig_frame b = None.
Proof.
  induction 1 as [en cfg b Hb|en b op b' _ [Hi Hf] He Hok Hs|en b prog ready k turns fuel flags r b' _ [Hi Hf] He Hs].
  - split; [by eapply event_base_new_inv|by eapply new_frame].
  - destruct (op_safe true en He b op Hi Hok) as (b1 & Hd & Hi1 & Hg1). rewrite Hs in Hd. simplify_eq.
    split; [done|]. by rewrite (gr_frame _ _ Hg1).
  - destruct (loop_safe true en (program en prog) He (program_ok true en He prog) (backend en ready k)
      (backend_ok true en He ready k) turns fuel flags b Hi Hf) as ([r1 b1] & Hd & Hi1 & Hg1).
    rewrite Hs in Hd. simplify_eq/=.
    split; [done|]. by rewrite (gr_frame _ _ Hg1).
Qed.

(** ** The theorems *)

(** C4: whatever sequence of valid calls ([op_ok]: the calls of [api_op],
    [event_base_once] among them, on known and initialised events, with descriptors
    below 2^26 and well-formed intervals, one delivery of a signal at a time), backend
    reports and
    loop runs (with callbacks that themselves make valid calls) led from a new
    base to the present state, under environments where the backend accepts
    deletions, the clock is not negative and keeps its time during a call or a
    loop run, and the timer heap gets its memory ([loop_env]; any other
    allocation and any other backend call may fail, each by its own decision), the library's own consistency check [event_base_assert_ok_]
    passes, the next valid call returns, and so does the next run of the loop:
    no assertion fails, nothing that is not linked is unlinked, and no invalid
    pointer is followed. *)
Theorem event_base_always_consistent b :
  reachable b ->
  event_base_assert_ok_nolock_ b = true /\
  (forall en op, loop_env true en -> op_ok b op = true -> exists b', api_step en b op = Done b') /\
  (forall en prog ready k turns fuel flags, loop_env true en ->
     exists r b', event_base_loop en (program en prog) (backend en ready k) turns fuel flags b = Done (r, b')).
Proof.
  intros Hr. destruct (reachable_base_inv b Hr) as [Hi Hf]. split; [by eapply assert_ok_wf, Hi|]. split.
  - intros en op He Hok. destruct (op_safe true en He b op Hi Hok) as (b' & Hd & _). eauto.
  - intros en prog ready k turns fuel flags He.
    destruct (loop_safe true en (program en prog) He (program_ok true en He prog) (backend en ready k)
      (backend_ok true en He ready k) turns fuel flags b Hi Hf) as ([r b'] & Hd & _). eauto.
Qed.

(** *** A run: two descriptors, a signal, a timer and a queue timer *)

Definition env0 : env :=
  mkEnv (mkTimeval 100 0) (mkTimeval 5000 0) (fun _ => true) (fun _ => true) (fun _ => true) (fun _ => true)
    (fun _ => true) false.

Lemma env0_ok : loop_env true env0.
Proof. split; [split; [simpl; lia|done]|done|simpl; lia]. Qed.

Definition demo_ops : list api_op :=
  [OpAssign 1 4 (Z.lor EV_READ EV_PERSIST); OpAssign 2 4 (Z.lor EV_WRITE EV_READ);
   OpAssign 3 2 EV_SIGNAL; OpAssign 4 (-1) 0; OpInitCommon 9 (mkTimeval 5 0);
   OpAdd 1 (Some (mkTimeval 2 500000)); OpAdd 2 None; OpAdd 3 None;
   OpAdd 4 (Some (mkTimeval 5 0x50000000)); OpIo 4 EV_READ; OpSignal 2; OpDel 2].

Definition run_demo : outcome event_base :=
  b ← deref (event_base_new_with_config env0 None); attempt env0 demo_ops b.

Definition demo : event_base := default zeroed_base (done_val run_demo).

Lemma attempt_reachable en ops b b' :
  reachable b -> loop_env true en -> attempt en ops b = Done b' -> reachable b'.
Proof.
  revert b. induction ops as [|op ops IH]; intros b Hr He Hd; simpl in Hd; [by simplify_eq|].
  destruct (op_ok b op) eqn:Hok; [|by apply (IH b)].
  destruct (api_step en b op) as [b1|] eqn:Hs; [|done]. apply (IH b1); [|done|done]. by eapply reach_op.
Qed.

Lemma demo_reachable : reachable demo.
Proof.
  destruct (event_base_new_with_config env0 None) as [b0|] eqn:Hb; [|done].
  apply (attempt_reachable env0 demo_ops b0); [by eapply reach_new|apply env0_ok|].
  vm_compute in Hb. injection Hb as <-. vm_compute. reflexivity.
Qed.

Lemma event_base_always_consistent_witness :
  event_base_assert_ok_nolock_ demo = true /\ zlen (concat (activequeues demo)) = 2 /\
  exists b', api_step env0 demo (OpDel 1) = Done b'.
Proof.
  destruct (event_base_always_consistent demo demo_reachable) as (H1 & H2 & _).
  split; [exact H1|]. split; [vm_compute; reflexivity|].
  apply H2; [exact env0_ok|vm_compute; reflexivity].
Defined.
