(* ===== verification/EventSpec.v ===== *)
(** * What the event library promises

    The contracts of the single calls, proved from the invariant: adding,
    deleting, expiring timers, reporting readiness, queue handles, the link
    between the events added and what the backend was told, the exit of the
    loop; and the cases in which the code breaks them. *)

From S2P Require Import Prelude MinHeap EventBase EventBaseInv EventBaseOps EventBaseKept EventBaseAdd EventBaseAct EventTimers EventLoop EventCheck EventLoopInv EventApi.

(** ** Adding *)



(** Out of memory, and with a backend that refuses everything. *)
Definition env_poor : env :=
  mkEnv (mkTimeval 100 0) (mkTimeval 5000 0) (fun _ => false) (fun _ => false) (fun _ => true) (fun _ => false)
    (fun _ => true) false.

Definition demo_event (x : Z) : event := default junk (evs demo !! x).


(** ** Deleting *)

Definition PENDING_MASK : Z := Z.lor EV_TIMEOUT (Z.lor EV_IO EV_SIGNAL).

(** After [event_del] of an event that is not being finalized nothing is
    pending on it, in no queue and for no condition, no other event has
    changed, and the result is 0 when the backend accepts the removal. *)
Theorem event_del_leaves_nothing_pending exact en b x e :
  eb_inv exact b -> env_ok exact en -> evs b !! x = Some e -> has (ev_flags e) EVLIST_FINALIZING = false ->
  exists r b', event_del en b x = Done (r, b') /\ eb_wf exact b' /\ (exact = true -> r = 0) /\
    event_pending b' x PENDING_MASK = Done (0, None) /\
    (forall fd, registered fd (unqueued e) = false) /\ evs b' = <[x := unqueued e]> (evs b).
Proof.
  intros Hi He Hx Hf. unfold event_del.
  destruct (event_del_wf exact en b x e EVENT_DEL_AUTOBLOCK (ei_wf _ _ Hi) He Hx)
    as (r & b' & -> & Hw' & Hm & Hr & Hr' & Hev & _).
  replace (del_skipped EVENT_DEL_AUTOBLOCK e) with false in Hev by (unfold del_skipped; simpl; done).
  exists r, b'. split; [done|]. split; [done|]. split; [done|].
  assert (Hfl : has (ev_flags (unqueued e)) EVLIST_TIMEOUT = false /\
    has (ev_flags (unqueued e)) EVLIST_INSERTED = false /\ has (ev_flags (unqueued e)) EVLIST_ACTIVE = false /\
    has (ev_flags (unqueued e)) EVLIST_ACTIVE_LATER = false) by (unfold unqueued; repeat split; by flags).
  destruct Hfl as (F1 & F2 & F3 & F4). split; [|split; [|done]].
  - unfold event_pending, get. rewrite Hev, lookup_insert_eq. cbn [mbind outcome_bind deref].
    by rewrite has_lor_r, F1, F2, F3, F4.
  - intros fd. unfold registered. by rewrite F2.
Qed.

Lemma event_del_leaves_nothing_pending_witness :
  exists b', event_del env0 demo 1 = Done (0, b') /\ event_pending b' 1 PENDING_MASK = Done (0, None).
Proof.
  destruct (event_del_leaves_nothing_pending true env0 demo 1 (demo_event 1))
    as (r & b' & Hd & _ & Hr & Hp & _).
  - apply reachable_base_inv, demo_reachable.
  - apply env0_ok.
  - vm_compute. reflexivity.
  - vm_compute. reflexivity.
  - exists b'. rewrite (Hr eq_refl) in Hd. split; [exact Hd|exact Hp].
Defined.

(** ** Timers *)

(** C14: [timeout_process] returns (its loop takes one event off the heap in
    every turn), activates with [EV_TIMEOUT], after removing it from every
    queue, each event whose timer in the heap has expired, and touches no
    other event. *)
Theorem timeout_process_fires_exactly_the_expired exact en b :
  eb_inv exact b -> env_ok exact en ->
  exists b', timeout_process en b = Done b' /\ eb_inv exact b' /\
    forall y, evs b' !! y =
      (fun e => if due (gettime en b).1 e then activated (unqueued e) EV_TIMEOUT 1 else e) <$> evs b !! y.
Proof.
  intros Hi He. destruct (timeout_process_wf exact en b (ei_wf _ _ Hi) He (ei_inv _ _ Hi))
    as (b' & Hd & Hw & Hm & Hk & Hev). exists b'. split; [done|]. split; [by eapply base_inv_step|exact Hev].
Qed.

(** Three seconds later. *)
Definition env_later : env :=
  mkEnv (mkTimeval 103 0) (mkTimeval 5003 0) (fun _ => true) (fun _ => true) (fun _ => true) (fun _ => true)
    (fun _ => true) false.

Lemma timeout_process_fires_exactly_the_expired_witness :
  exists b', timeout_process env_later demo = Done b' /\
    (fun e => has (ev_flags e) EVLIST_TIMEOUT) <$> evs b' !! 1 = Some false /\
    (fun e => has (ev_flags e) EVLIST_TIMEOUT) <$> evs b' !! 4 = Some true.
Proof.
  destruct (timeout_process_fires_exactly_the_expired true env_later demo) as (b' & Hd & _ & Hev).
  - apply reachable_base_inv, demo_reachable.
  - split; [simpl; lia|done].
  - exists b'. split; [exact Hd|]. rewrite !Hev. split; vm_compute; reflexivity.
Defined.

(** ** Readiness *)

(** C30: a report on a descriptor reaches exactly the events that are added
    for it and wait for one of the conditions reported; each is activated with
    the conditions it asked for. *)
Theorem io_report_reaches_exactly_the_waiting exact b fd events :
  eb_inv exact b -> 0 <= fd ->
  exists b', evmap_io_active_ b fd events = Done b' /\ eb_wf exact b' /\
    forall y, evs b' !! y =
      (fun e => if registered fd e && has (ev_events e) events
                then activated e (Z.land (ev_events e) events) 1 else e) <$> evs b !! y.
Proof.
  intros Hi Hfd. destruct (io_active_wf exact b fd events (ei_wf _ _ Hi) Hfd) as (b' & Hd & Hw & _ & Hev).
  eauto.
Qed.

Lemma io_report_reaches_exactly_the_waiting_witness :
  exists b', evmap_io_active_ demo 4 EV_WRITE = Done b' /\ evs b' !! 1 = evs demo !! 1.
Proof.
  destruct (io_report_reaches_exactly_the_waiting true demo 4 EV_WRITE) as (b' & Hd & _ & Hev).
  - apply reachable_base_inv, demo_reachable.
  - lia.
  - exists b'. split; [exact Hd|]. rewrite Hev. vm_compute. reflexivity.
Defined.

(** ** The backend knows exactly what the events want *)

Lemma cnt_positive (m : gmap Z iview) f l : cnt m f l <> 0 <-> exists y, y ∈ l /\ want m f y = true.
Proof.
  unfold cnt, zlen. split.
  - intros H. destruct (filter (fun x => want m f x = true) l) as [|y k] eqn:E; [done|].
    exists y. assert (Hy : y ∈ filter (fun x => want m f x = true) l) by (rewrite E; set_solver).
    apply list_elem_of_filter in Hy as [? ?]. done.
  - intros (y & Hy & Hwant) H. assert (Hin : y ∈ filter (fun x => want m f x = true) l).
    { by apply list_elem_of_filter. }
    destruct (filter _ l); [set_solver|done].
Qed.

Lemma has_slot_mask c :
  has (slot_mask c) EV_READ = negb (nread c =? 0) /\ has (slot_mask c) EV_WRITE = negb (nwrite c =? 0) /\
  has (slot_mask c) EV_CLOSED = negb (nclose c =? 0).
Proof. unfold slot_mask. by destruct (nread c =? 0), (nwrite c =? 0), (nclose c =? 0). Qed.

Lemma slot_wants m fd c f :
  slot_ok m fd c -> f = EV_READ \/ f = EV_WRITE \/ f = EV_CLOSED ->
  has (slot_mask c) f = true <-> exists y, y ∈ io_events c /\ want m f y = true.
Proof.
  intros [_ _ [Hr _] [Hw _] [Hc _]] Hf. rewrite <-cnt_positive.
  destruct (has_slot_mask c) as (M1 & M2 & M3).
  destruct Hf as [->|[->| ->]]; rewrite ?M1, ?M2, ?M3, negb_true_iff, Z.eqb_neq; by rewrite <-?Hr, <-?Hw, <-?Hc.
Qed.

(** C31: in every reachable state the backend has been asked to watch a
    descriptor for reading, writing or closing exactly when some event that is
    added waits for it, and a signal exactly when some event waits for that
    signal: no interest is lost and none is left behind. *)
Theorem backend_is_told_exactly b :
  reachable b ->
  (forall fd f, 0 <= fd -> f = EV_READ \/ f = EV_WRITE \/ f = EV_CLOSED ->
     has (kernel_mask b fd) f = true <->
     exists x e, evs b !! x = Some e /\ registered fd e = true /\ has (ev_events e) f = true) /\
  (forall s, 0 <= s ->
     s ∈ ksig b <-> exists x e, evs b !! x = Some e /\ signal_registered s e = true).
Proof.
  intros Hr. destruct (reachable_base_inv b Hr) as [Hi _]. pose proof (ei_wf _ _ Hi) as Hw. split.
  - intros fd f H0 Hf. pose proof (io_kernel _ _ _ _ (wf_io _ _ Hw) fd) as Hk. simpl in Hk.
    unfold kernel_mask. rewrite Hk. unfold mask_of.
    destruct (entries (io b) !! fd) as [c|] eqn:Hs.
    + destruct (io_slot _ _ _ _ (wf_io _ _ Hw) _ _ Hs) as [_ Hso]. rewrite (slot_wants _ fd c f Hso Hf).
      split.
      * intros (y & Hy & Hwant). destruct (slot_known true b fd c y Hw Hs Hy) as [e He]. exists y, e.
        split; [done|]. split; [by apply (registered_slot true b fd c y e Hw Hs He)|].
        by rewrite (want_is _ y _ f (view_lookup iview_of _ _ _ He)) in Hwant.
      * intros (y & e & He & Hreg & Hf'). exists y.
        split; [by apply (registered_slot true b fd c y e Hw Hs He)|].
        by rewrite (want_is _ y _ f (view_lookup iview_of _ _ _ He)).
    + split; [by destruct Hf as [->|[->| ->]]|]. intros (y & e & He & Hreg & _).
      rewrite (unregistered true b fd y e) in Hreg by auto. done.
  - intros s H0. pose proof (sg_kernel _ _ _ _ (wf_sig _ _ Hw) s) as Hk. simpl in Hk. rewrite Hk.
    destruct (entries (sigmap b) !! s) as [l|] eqn:Hs; simpl.
    + split.
      * intros Hl. destruct l as [|y l]; [done|].
        destruct (signal_slot_known true b s (y :: l) y Hw Hs) as [e He]; [set_solver|]. exists y, e.
        split; [done|]. apply (signal_registered_slot true b s (y :: l) y e Hw Hs He). set_solver.
      * intros (y & e & He & Hreg). apply (signal_registered_slot true b s l y e Hw Hs He) in Hreg.
        intros ->. set_solver.
    + split; [done|]. intros (y & e & He & Hreg).
      rewrite (signal_unregistered true b s y e) in Hreg by auto. done.
Qed.

Lemma backend_is_told_exactly_witness :
  has (kernel_mask demo 4) EV_READ = true /\ has (kernel_mask demo 4) EV_WRITE = false /\ 2 ∈ ksig demo.
Proof.
  destruct (backend_is_told_exactly demo demo_reachable) as [H1 H2]. split; [|split].
  - apply H1; [lia|auto|]. exists 1, (demo_event 1).
    split; [vm_compute; reflexivity|]. split; vm_compute; reflexivity.
  - vm_compute. reflexivity.
  - apply H2; [lia|]. exists 3, (demo_event 3). split; vm_compute; reflexivity.
Defined.

(** ** Queue handles *)

(** A handle of a common-timeout queue stands for the (normalised)
    duration it was made from, names a queue of that duration, and asking for
    the same duration again gives the same handle and changes nothing. *)
Theorem common_timeout_handle_round_trip exact en fresh b d tv b' :
  eb_inv exact b -> op_ok b (OpInitCommon fresh d) = true ->
  event_base_init_common_timeout en fresh b d = Done (Some tv, b') ->
  mask_usec tv = normal_duration b d /\ names_queue b' tv /\
  forall en' fresh', event_base_init_common_timeout en' fresh' b' (mask_usec tv) = Done (Some tv, b').
Proof.
  intros Hi Hok Hd. simpl in Hok. zb. destruct (unused_event b fresh H) as [Hx Hs].
  destruct (init_common_inv exact en fresh b d Hi Hx Hs H0) as (o & b1 & Hd1 & Hi1 & _ & _ & _ & Hc).
  rewrite Hd in Hd1. simplify_eq. destruct Hc as (Hn & Hm & Hf). split; [done|]. split; [done|].
  intros en' fresh'. rewrite Hm. pose proof (normal_duration_range b d H0) as Hnr.
  assert (Hnn : normal_duration b1 (normal_duration b d) = normal_duration b d).
  { unfold normal_duration at 1. case_test; [zb; lia|done]. }
  unfold event_base_init_common_timeout. fold (normal_duration b1 (normal_duration b d)). rewrite Hnn.
  destruct (find_ctl _ _) as [c|]; [|done]. simpl in Hf. injection Hf as Hf. rewrite Hf.
  by destruct Hn as [-> _].
Qed.

Lemma common_timeout_handle_round_trip_witness :
  exists tv b', event_base_init_common_timeout env0 20 demo (mkTimeval 1 2500000) = Done (Some tv, b') /\
    mask_usec tv = mkTimeval 3 500000.
Proof.
  assert (Hd : exists tv b', event_base_init_common_timeout env0 20 demo (mkTimeval 1 2500000) = Done (Some tv, b'))
    by (eexists _, _; vm_compute; reflexivity).
  destruct Hd as (tv & b' & Hd). exists tv, b'. split; [exact Hd|].
  destruct (common_timeout_handle_round_trip true env0 20 demo (mkTimeval 1 2500000) tv b') as [H _].
  - apply reachable_base_inv, demo_reachable.
  - vm_compute. reflexivity.
  - exact Hd.
  - rewrite H. vm_compute. reflexivity.
Defined.

(** ** Leaving the loop *)

Lemma weight_nonneg e : 0 <= weight e.
Proof.
  unfold weight. rewrite counted_internal.
  destruct (has _ EVLIST_INTERNAL), (has _ EVLIST_TIMEOUT), (has _ EVLIST_INSERTED), (has _ EVLIST_ACTIVE),
    (has _ EVLIST_ACTIVE_LATER); simpl; lia.
Qed.

Lemma msum_zero (m : gmap Z Z) :
  map_Forall (fun _ w => 0 <= w) m -> msum m <= 0 -> map_Forall (fun _ w => w = 0) m.
Proof.
  assert (Hn : forall m : gmap Z Z, map_Forall (fun _ w => 0 <= w) m -> 0 <= msum m).
  { intros m0. induction m0 as [|x w m0 Hx IH] using map_ind; [done|]. intros Hf.
    apply map_Forall_insert in Hf as [Hw Hf]; [|done]. rewrite msum_insert_new by done.
    specialize (IH Hf). lia. }
  induction m as [|x w m Hx IH] using map_ind; [done|]. intros Hf Hle.
  apply map_Forall_insert in Hf as [Hw Hf]; [|done]. rewrite msum_insert_new in Hle by done.
  pose proof (Hn m Hf). apply map_Forall_insert; [done|]. split; [lia|]. apply IH; [done|lia].
Qed.

Lemma no_events_idle exact b :
  eb_wf exact b -> event_haveevents b = false ->
  forall x e, evs b !! x = Some e -> has (ev_flags e) EVLIST_INTERNAL = false -> in_no_queue e.
Proof.
  intros Hw Hn x e Hx Hint. unfold event_haveevents in Hn. zb.
  assert (Hz : map_Forall (fun _ w => w = 0) (weight <$> evs b)).
  { apply msum_zero; [|rewrite <-(wf_count _ _ Hw); lia]. intros y w Hy. rewrite lookup_fmap in Hy.
    destruct (evs b !! y); simplify_eq/=. apply weight_nonneg. }
  pose proof (Hz x (weight e) (view_lookup weight _ _ _ Hx)) as H0'. simpl in H0'.
  unfold weight in H0'. rewrite counted_internal, Hint in H0'. unfold in_no_queue.
  destruct (has _ EVLIST_TIMEOUT), (has _ EVLIST_INSERTED), (has _ EVLIST_ACTIVE),
    (has _ EVLIST_ACTIVE_LATER); simpl in H0'; (lia || done).
Qed.

(** When a turn of the loop ends it with "no events registered", no
    event of the user is added, has a timer pending, or is active or about to
    be: nothing that could still happen is dropped. *)
Theorem loop_gives_up_only_when_idle exact en cb dispatch fuel flags b b' :
  eb_inv exact b -> loop_env exact en ->
  loop_turn en cb dispatch fuel flags b = Done (Some (inl 1), b') ->
  forall x e, evs b' !! x = Some e -> has (ev_flags e) EVLIST_INTERNAL = false -> in_no_queue e.
Proof.
  intros Hi He Hd. unfold loop_turn in Hd. set (b1 := set_n_deferreds_queued _ 0) in Hd.
  assert (Hi1 : eb_inv exact b1) by (by apply (inv_field exact b)).
  destruct (event_gotterm b1 || event_break b1); [done|].
  assert (H2 : returns (if negb (N_ACTIVE_CALLBACKS b1) && negb (has flags EVLOOP_NONBLOCK)
     then timeout_next en b1 else Done (Some tv0, b1)) (fun r => eb_wf exact r.2)).
  { case_test; [|apply returns_done, Hi1]. destruct (gettime_inv exact en b1 Hi1 He) as (_ & _ & Hpos).
    destruct (timeout_next_wf exact en b1 (ei_wf _ _ Hi1) (le_env _ _ He) (ei_inv _ _ Hi1) Hpos)
      as (o & b2 & -> & Hw2 & _). by apply returns_done. }
  destruct H2 as ([tv b2] & Hn & Hw2). rewrite Hn in Hd. cbn [mbind outcome_bind] in Hd. simpl in Hw2.
  destruct (negb (has flags EVLOOP_NO_EXIT_ON_EMPTY) && negb (event_haveevents b2) && _) eqn:Hexit.
  - zb. simplify_eq. by eapply no_events_idle.
  - exfalso. destruct (event_queue_make_later_events_active b2) as [b3|]; [|done].
    cbn [mbind outcome_bind] in Hd. destruct (dispatch tv _) as [[r b4]|]; [|done].
    cbn [mbind outcome_bind] in Hd. destruct (r =? -1); [done|].
    destruct (timeout_process _ _) as [b5|]; [|done]. cbn [mbind outcome_bind] in Hd.
    destruct (N_ACTIVE_CALLBACKS b5); [|done].
    destruct (event_process_active _ _ _ _) as [[t|]|]; done.
Qed.

Definition fresh_base : event_base := default zeroed_base (event_base_new_with_config env0 None).

Lemma fresh_base_new : event_base_new_with_config env0 None = Some fresh_base.
Proof. vm_compute. reflexivity. Qed.

Definition no_callback : Z -> Z -> event_base -> outcome event_base := program env0 (fun _ _ => []).
Definition no_report : option timeval -> event_base -> outcome (Z * event_base) :=
  backend env0 (fun _ => []) 0.

Lemma loop_gives_up_only_when_idle_witness :
  exists b', loop_turn env0 no_callback no_report 5 0 fresh_base = Done (Some (inl 1), b') /\
    forall x e, evs b' !! x = Some e -> has (ev_flags e) EVLIST_INTERNAL = false -> in_no_queue e.
Proof.
  assert (Hd : exists b', loop_turn env0 no_callback no_report 5 0 fresh_base = Done (Some (inl 1), b'))
    by (eexists; vm_compute; reflexivity).
  destruct Hd as [b' Hd]. exists b'. split; [exact Hd|].
  apply (loop_gives_up_only_when_idle true env0 no_callback no_report 5 0 fresh_base b');
    [apply reachable_base_inv; exact (reach_new env0 None fresh_base fresh_base_new)|exact env0_ok|exact Hd].
Defined.

(** ** Where the code breaks its promises *)

(** The base after a list of calls. *)
Definition after (ops : list api_op) : event_base :=
  default zeroed_base (done_val (attempt env0 ops fresh_base)).

Definition callback_deletes (x _ : Z) (b : event_base) : outcome event_base :=
  '(_, b) ← event_del env0 b x; Done b.

(** Two deliveries of the signal before the loop runs its event. *)
Definition twice_signalled : event_base :=
  default zeroed_base (done_val
    (evmap_signal_active_ (after [OpAssign 3 2 EV_SIGNAL; OpAdd 3 None]) 2 2)).

(** A signal event whose signal arrived twice and whose callback deletes
    it keeps a pointer to a local variable of the closure that ran it: the next
    [event_del] of the event writes through that dead pointer, although every
    call was valid.  (With one delivery this cannot happen.) *)
Theorem signal_counter_pointer_dangles :
  exists t, event_process_active env0 callback_deletes 5 twice_signalled = Done (Some t) /\
    trace t = [3] /\ op_ok (base t) (OpDel 3) = true /\ event_del env0 (base t) 3 = Crash.
Proof. eexists. split; [vm_compute; reflexivity|]. split; [reflexivity|]. split; vm_compute; reflexivity. Qed.

(** An event in a common-timeout queue, and a heap with no free slot. *)
Definition full_heap : event_base :=
  after ([OpInitCommon 9 (mkTimeval 5 0); OpAssign 4 (-1) 0; OpAdd 4 (Some (mkTimeval 5 0x50000000))] ++
         flat_map (fun i => [OpAssign i (-1) 0; OpAdd i (Some (mkTimeval 1 0))]) [11; 12; 13; 14; 15; 16; 17]).

(** Moving an event from a common-timeout queue to the heap when memory
    runs out reports success, marks the timer as pending, and loses it: the
    event is in no queue and will not be found when its time comes. *)
Theorem retimed_event_lost_without_memory :
  exists b' e, event_add env_poor full_heap 4 (Some (mkTimeval 1 0)) = Done (0, b') /\
    evs b' !! 4 = Some e /\ has (ev_flags e) EVLIST_TIMEOUT = true /\ in_timeheap e = true /\
    Some 4 ∉ take (Z.to_nat (hn (timeheap b'))) (hp (timeheap b')) /\
    Forall (fun c => 4 ∉ ctl_events c) (common_timeout_queues b').
Proof.
  eexists _, _. split; [vm_compute; reflexivity|]. split; [vm_compute; reflexivity|].
  split; [reflexivity|]. split; [vm_compute; reflexivity|]. split.
  - apply (bool_decide_eq_false_1 (Some 4 ∈ _)). vm_compute. reflexivity.
  - repeat constructor. apply (bool_decide_eq_false_1 (4 ∈ _)). vm_compute. reflexivity.
Qed.

(** Removing the timer of a signal event clears the union that holds its call
    counter: an activation that is pending then calls nothing. *)
Definition signal_with_timer : event_base :=
  after [OpAssign 3 2 EV_SIGNAL; OpAdd 3 (Some (mkTimeval 9 0)); OpSignal 2].

Definition callback_breaks (_ _ : Z) (b : event_base) : outcome event_base := Done (event_base_loopbreak b).

Theorem remove_timer_swallows_signal :
  (exists t, event_process_active env0 callback_breaks 5 signal_with_timer = Done (Some t) /\
     event_base_got_break (base t) = true) /\
  (exists b t, event_remove_timer_nolock_ signal_with_timer 3 = Done (0, b) /\
     event_process_active env0 callback_breaks 5 b = Done (Some t) /\
     trace t = [3] /\ event_base_got_break (base t) = false).
Proof.
  split.
  - eexists. split; [vm_compute; reflexivity|reflexivity].
  - eexists _, _. split; [vm_compute; reflexivity|]. split; [vm_compute; reflexivity|]. by split.
Qed.

(** [event_base_once] returns with the base lock held when the event cannot be
    added. *)
Theorem once_failure_keeps_the_lock :
  exists b', event_base_once
    (mkEnv (mkTimeval 100 0) (mkTimeval 5000 0) (fun _ => true) (fun _ => false) (fun _ => true) (fun _ => true)
       (fun _ => true) false) 30 fresh_base 4 EV_READ None = Done (-1, false, b').
Proof. eexists. vm_compute. reflexivity. Qed.

(** Reducing the number of priorities leaves older events out of range: the
    next activation of one fails an assertion. *)
Theorem fewer_priorities_strand_events :
  exists b1 b2 b3, event_base_priority_init env0 fresh_base 4 = (0, b1) /\
    event_assign b1 1 4 EV_READ junk = (0, b2) /\ event_base_priority_init env0 b2 1 = (0, b3) /\
    event_active_nolock_ b3 1 EV_READ 1 = Crash.
Proof.
  eexists _, _, _. split; [vm_compute; reflexivity|]. split; [vm_compute; reflexivity|].
  split; vm_compute; reflexivity.
Qed.

(** A signal event with a negative number indexes the map before its start. *)
Theorem negative_signal_out_of_bounds :
  exists b1, event_assign fresh_base 1 (-1) EV_SIGNAL junk = (0, b1) /\ event_add env0 b1 1 None = Crash.
Proof. eexists. split; vm_compute; reflexivity. Qed.
