(* ===== verification/Indexed.v ===== *)
(** * Arrays with a reverse index

    The changelist and the poll backend keep an array of entries, one per
    descriptor, and next to each descriptor's slot the index of its entry plus
    one ([idxplus1], 0 without an entry).  [indexed keys idx] says that the two
    agree, [keys] being the descriptors of the entries in order. *)

From S2P Require Import Prelude.

(** The bound assumed on descriptors, so that the sizes of the arrays stay in
    an [int] (the limit Linux starts with, [fs.nr_open], is 2^20). *)
Definition MAX_FD : Z := 2 ^ 28.

Record indexed (keys : list Z) (idx : Z -> Z) : Prop := {
  ix_entry : forall i fd, keys !! i = Some fd -> 0 <= fd < MAX_FD /\ idx fd = Z.of_nat i + 1;
  ix_back : forall fd, idx fd <> 0 -> exists i, idx fd = Z.of_nat i + 1 /\ keys !! i = Some fd
}.

Lemma NoDup_bounded (l : list Z) n :
  NoDup l -> (forall x, x ∈ l -> 0 <= x < n) -> 0 <= n -> zlen l <= n.
Proof.
  intros Hnd Hb Hn. assert (l ⊆+ seqZ 0 n) as Hs.
  { apply NoDup_submseteq; [done|]. intros x Hx%Hb. apply elem_of_seqZ. lia. }
  apply submseteq_length in Hs. rewrite length_seqZ in Hs. unfold zlen. lia.
Qed.

Section Indexed.
Context (keys : list Z) (idx : Z -> Z) (Hix : indexed keys idx).

Lemma indexed_NoDup : NoDup keys.
Proof.
  apply NoDup_alt. intros i j x Hi Hj.
  destruct (ix_entry _ _ Hix _ _ Hi) as [_ H1], (ix_entry _ _ Hix _ _ Hj) as [_ H2]. lia.
Qed.

Lemma indexed_absent fd : idx fd = 0 -> fd ∉ keys.
Proof. intros H0 (i & Hi)%list_elem_of_lookup. destruct (ix_entry _ _ Hix _ _ Hi) as [_ H]. lia. Qed.

Lemma indexed_at fd : idx fd <> 0 -> keys !! Z.to_nat (idx fd - 1) = Some fd.
Proof.
  intros (i & -> & Hi)%(ix_back _ _ Hix). by replace (Z.to_nat (Z.of_nat i + 1 - 1)) with i by lia.
Qed.

(** There is at most one entry per descriptor. *)
Lemma indexed_fit fd : 0 <= fd < MAX_FD -> idx fd = 0 -> zlen keys < MAX_FD.
Proof.
  intros Hfd H0. assert (zlen (fd :: keys) <= MAX_FD) as H.
  { apply NoDup_bounded; [|intros x [->|Hx]%elem_of_cons|unfold MAX_FD; lia]; [|done|].
    - constructor; [by apply indexed_absent|by apply indexed_NoDup].
    - apply list_elem_of_lookup in Hx as (i & Hi). by destruct (ix_entry _ _ Hix _ _ Hi). }
  rewrite zlen_cons in H. lia.
Qed.

Lemma indexed_len : zlen keys <= MAX_FD.
Proof.
  apply NoDup_bounded; [by apply indexed_NoDup| |unfold MAX_FD; lia].
  intros x (i & Hi)%list_elem_of_lookup. by destruct (ix_entry _ _ Hix _ _ Hi).
Qed.

(** A new entry at the end. *)
Lemma indexed_push fd idx' :
  0 <= fd < MAX_FD -> idx fd = 0 -> idx' fd = zlen keys + 1 -> (forall g, g <> fd -> idx' g = idx g) ->
  indexed (keys ++ [fd]) idx'.
Proof.
  intros Hfd H0 Hi Hg. split.
  - intros i g [Hc|(Hl & Hc)]%lookup_app_Some.
    + destruct (ix_entry _ _ Hix _ _ Hc) as [Hr Hx]. split; [done|]. rewrite Hg; [done|].
      intros ->. lia.
    + apply list_lookup_singleton_Some in Hc as (Hl' & <-). split; [done|]. rewrite Hi. unfold zlen. lia.
  - intros g Hx. destruct (decide (g = fd)) as [->|Hne].
    + exists (length keys). split; [done|]. by rewrite lookup_app_r, Nat.sub_diag.
    + rewrite Hg in * by done. destruct (ix_back _ _ Hix _ Hx) as (i & Hic & Hc).
      exists i. split; [done|]. by apply lookup_app_l_Some.
Qed.

(** The last entry goes: it is the one removed, or moves to its place [i]. *)
Lemma indexed_pop fd idx' keys' :
  keys = keys' ++ [fd] -> idx' fd = 0 -> (forall g, g <> fd -> idx' g = idx g) -> indexed keys' idx'.
Proof.
  intros Hk H0 Hg. assert (fd ∉ keys') as Hn.
  { pose proof indexed_NoDup as Hnd. rewrite Hk in Hnd. apply NoDup_app in Hnd as (_ & Hd & _).
    intros Hin. by apply (Hd fd Hin), list_elem_of_singleton. }
  split.
  - intros i g Hi. assert (g <> fd) as Hne by (intros ->; by apply Hn, (list_elem_of_lookup_2 _ i)).
    rewrite Hg by done. apply (ix_entry _ _ Hix). rewrite Hk. by apply lookup_app_l_Some.
  - intros g Hx. destruct (decide (g = fd)) as [->|Hne]; [done|]. rewrite Hg in * by done.
    destruct (ix_back _ _ Hix _ Hx) as (i & Hic & Hc). exists i. split; [done|].
    rewrite Hk in Hc. apply lookup_app_Some in Hc as [|(_ & Hc)]; [done|].
    apply list_lookup_singleton_Some in Hc as [_ ->]. done.
Qed.

Lemma indexed_swap_remove fd last idx' keys' i :
  keys = keys' ++ [last] -> keys' !! i = Some fd ->
  idx' fd = 0 -> idx' last = Z.of_nat i + 1 -> (forall g, g <> fd -> g <> last -> idx' g = idx g) ->
  indexed (<[i := last]> keys') idx'.
Proof.
  intros Hk Hi H0 Hl Hg. pose proof indexed_NoDup as Hnd. rewrite Hk in Hnd.
  apply NoDup_app in Hnd as (Hnd' & Hd & _).
  assert (last ∉ keys') as Hnl by (intros Hin; by apply (Hd last Hin), list_elem_of_singleton).
  assert (i < length keys')%nat as Hlt by (by eapply lookup_lt_Some).
  split.
  - intros j g Hj. destruct (decide (i = j)) as [<-|Hne].
    + rewrite list_lookup_insert_eq in Hj by done. injection Hj as <-. split; [|done].
      apply (ix_entry _ _ Hix (length keys')). rewrite Hk. by rewrite lookup_app_r, Nat.sub_diag.
    + rewrite list_lookup_insert_ne in Hj by done.
      assert (g <> fd) by (intros ->; by destruct Hne; eapply NoDup_lookup).
      assert (g <> last) by (intros ->; by apply Hnl, (list_elem_of_lookup_2 _ j)).
      rewrite Hg by done. apply (ix_entry _ _ Hix). rewrite Hk. by apply lookup_app_l_Some.
  - intros g Hx. destruct (decide (g = fd)) as [->|Hnf]; [done|].
    destruct (decide (g = last)) as [->|Hng].
    + exists i. split; [done|]. by apply list_lookup_insert_eq.
    + rewrite Hg in * by done. destruct (ix_back _ _ Hix _ Hx) as (j & Hjc & Hc). exists j.
      split; [done|]. rewrite Hk in Hc. apply lookup_app_Some in Hc as [Hc|(_ & Hc)].
      * rewrite list_lookup_insert_ne; [done|]. intros <-. congruence.
      * apply list_lookup_singleton_Some in Hc as [_ ->]. done.
Qed.

End Indexed.
