(* ===== verification/Changelist.v ===== *)
(** * The changelist

    Models the part of [libevent/evmap.c] that queues, between two calls of
    the backend's dispatch, the changes to be made on descriptors
    ([event_changelist_add_], [event_changelist_del_] and their helpers), and
    the data of [libevent/changelist-internal.h].

    [changes] holds the [n_changes] entries in use of the array, whose
    allocated length is [changes_size].  The [fdinfo] of a descriptor or a
    signal is a word next to its slot in the event map: the index of its entry
    plus one, 0 when it has none.  It is a map from the slot, [(true, sig)] for
    a signal and [(false, fd)] for a descriptor, to that word. *)

From S2P Require Import Prelude MinHeap EventBase Indexed.

(** ** Data *)

Definition EV_CHANGE_ADD : Z := 0x01.
Definition EV_CHANGE_DEL : Z := 0x02.
Definition EV_CHANGE_SIGNAL : Z := EV_SIGNAL.
Definition EV_CHANGE_PERSIST : Z := EV_PERSIST.
Definition EV_CHANGE_ET : Z := EV_ET.

Record event_change := mkChange {
  ch_fd : Z;
  old_events : Z;
  read_change : Z;
  write_change : Z;
  close_change : Z
}.

Definition set_read_change (c : event_change) (v : Z) : event_change :=
  mkChange (ch_fd c) (old_events c) (u8 v) (write_change c) (close_change c).
Definition set_write_change (c : event_change) (v : Z) : event_change :=
  mkChange (ch_fd c) (old_events c) (read_change c) (u8 v) (close_change c).
Definition set_close_change (c : event_change) (v : Z) : event_change :=
  mkChange (ch_fd c) (old_events c) (read_change c) (write_change c) (u8 v).

Record event_changelist := mkChangelist {
  changes : list event_change;
  changes_size : Z;
  fdinfo : gmap (bool * Z) Z
}.

Definition n_changes (cl : event_changelist) : Z := zlen (changes cl).
Definition idxplus1 (cl : event_changelist) (p : (bool * Z)) : Z := default 0 (fdinfo cl !! p).

(** ** Operations *)

(** The words of the slots are not touched: the slots start zeroed. *)
Definition event_changelist_init_ (info : gmap (bool * Z) Z) : event_changelist :=
  mkChangelist [] 0 info.

Definition event_change_get_fdinfo (c : event_change) : (bool * Z) :=
  (has (read_change c) EV_CHANGE_SIGNAL, ch_fd c).

(** [changes_size * 2] is computed in an [int]. *)
Definition event_changelist_grow (mem_ok : bool) (cl : event_changelist)
    : outcome (bool * event_changelist) :=
  new_size ← (if changes_size cl <? 64 then Done 64
              else _ ← assert_c (changes_size cl * 2 <=? INT_MAX); Done (changes_size cl * 2));
  if mem_ok then Done (true, mkChangelist (changes cl) new_size (fdinfo cl))
  else Done (false, cl).

(** The index of the entry, [None] when no entry can be made. *)
Definition event_changelist_get_or_construct (mem_ok : bool) (cl : event_changelist)
    (fd old : Z) (p : (bool * Z)) : outcome (option Z * event_changelist) :=
  if idxplus1 cl p =? 0 then
    _ ← assert_c (n_changes cl <=? changes_size cl);
    '(ok, cl) ← (if n_changes cl =? changes_size cl then event_changelist_grow mem_ok cl
                 else Done (true, cl));
    if negb ok then Done (None, cl) else
    let idx := n_changes cl in
    Done (Some idx, mkChangelist (changes cl ++ [mkChange fd old 0 0 0]) (changes_size cl)
                      (<[p := idx + 1]> (fdinfo cl)))
  else
    let idx := idxplus1 cl p - 1 in
    change ← deref (changes cl !! Z.to_nat idx);
    _ ← assert_c (ch_fd change =? fd);
    Done (Some idx, cl).

(** [change->x = ...] through the pointer returned above. *)
Definition upd_change (cl : event_changelist) (idx : Z) (f : event_change -> event_change)
    : event_changelist :=
  mkChangelist (alter f (Z.to_nat idx) (changes cl)) (changes_size cl) (fdinfo cl).

Definition change_flags (events : Z) : Z :=
  Z.lor EV_CHANGE_ADD (Z.land events (Z.lor EV_ET (Z.lor EV_PERSIST EV_SIGNAL))).

Definition change_add (events : Z) (c : event_change) : event_change :=
  let c := if has events (Z.lor EV_READ EV_SIGNAL)
           then set_read_change c (change_flags events) else c in
  let c := if has events EV_WRITE then set_write_change c (change_flags events) else c in
  if has events EV_CLOSED then set_close_change c (change_flags events) else c.

Definition change_del (events : Z) (c : event_change) : event_change :=
  let c := if has events (Z.lor EV_READ EV_SIGNAL) then
             set_read_change c (if negb (has (old_events c) (Z.lor EV_READ EV_SIGNAL))
                                then 0 else EV_CHANGE_DEL)
           else c in
  let c := if has events EV_WRITE then
             set_write_change c (if negb (has (old_events c) EV_WRITE) then 0 else EV_CHANGE_DEL)
           else c in
  if has events EV_CLOSED then
    set_close_change c (if negb (has (old_events c) EV_CLOSED) then 0 else EV_CHANGE_DEL)
  else c.

Definition event_changelist_add_ (mem_ok : bool) (cl : event_changelist)
    (fd old events : Z) (p : (bool * Z)) : outcome (Z * event_changelist) :=
  '(o, cl) ← event_changelist_get_or_construct mem_ok cl fd old p;
  match o with
  | None => Done (-1, cl)
  | Some idx => Done (0, upd_change cl idx (change_add events))
  end.

Definition event_changelist_del_ (mem_ok : bool) (cl : event_changelist)
    (fd old events : Z) (p : (bool * Z)) : outcome (Z * event_changelist) :=
  '(o, cl) ← event_changelist_get_or_construct mem_ok cl fd old p;
  match o with
  | None => Done (-1, cl)
  | Some idx => Done (0, upd_change cl idx (change_del events))
  end.

(** The loop over [i] from [i] on. *)
Fixpoint remove_all_loop (l : list event_change) (i : Z) (info : gmap (bool * Z) Z)
    : outcome (gmap (bool * Z) Z) :=
  match l with
  | [] => Done info
  | ch :: l =>
      let p := event_change_get_fdinfo ch in
      _ ← assert_c (default 0 (info !! p) =? i + 1);
      remove_all_loop l (i + 1) (<[p := 0]> info)
  end.

Definition event_changelist_remove_all_ (cl : event_changelist) : outcome event_changelist :=
  info ← remove_all_loop (changes cl) 0 (fdinfo cl);
  Done (mkChangelist [] (changes_size cl) info).

Definition event_changelist_freemem_ (cl : event_changelist) : event_changelist :=
  event_changelist_init_ (fdinfo cl).

(** [event_changelist_assert_ok]: the second part runs over the descriptors
    [fds] of the event map. *)
Definition event_changelist_assert_ok_iter (cl : event_changelist) (fd : Z) : outcome unit :=
  if idxplus1 cl (false, fd) =? 0 then Done tt else
  c ← deref (changes cl !! Z.to_nat (idxplus1 cl (false, fd) - 1));
  assert_c (ch_fd c =? fd).

Fixpoint assert_changes (cl : event_changelist) (l : list event_change) (i : Z) : outcome unit :=
  match l with
  | [] => Done tt
  | c :: l =>
      _ ← assert_c (0 <=? ch_fd c);
      _ ← assert_c (idxplus1 cl (event_change_get_fdinfo c) =? i + 1);
      assert_changes cl l (i + 1)
  end.

Fixpoint assert_fds (cl : event_changelist) (fds : list Z) : outcome unit :=
  match fds with
  | [] => Done tt
  | fd :: fds => _ ← event_changelist_assert_ok_iter cl fd; assert_fds cl fds
  end.

Definition event_changelist_assert_ok (cl : event_changelist) (fds : list Z) : outcome unit :=
  _ ← assert_c (n_changes cl <=? changes_size cl);
  _ ← assert_changes cl (changes cl) 0;
  assert_fds cl fds.

(** ** The invariant

    It is stated for descriptors ([(false, fd)]): the only backend here that
    uses a changelist gives its signals to another one. *)

Record changelist_ok (cl : event_changelist) : Prop := {
  cl_size : n_changes cl <= changes_size cl;
  cl_entry : forall i c, changes cl !! i = Some c ->
    0 <= ch_fd c < MAX_FD /\ has (read_change c) EV_CHANGE_SIGNAL = false /\
    idxplus1 cl (false, ch_fd c) = Z.of_nat i + 1;
  cl_info : forall fd, idxplus1 cl (false, fd) <> 0 ->
    exists i c, idxplus1 cl (false, fd) = Z.of_nat i + 1 /\ changes cl !! i = Some c /\ ch_fd c = fd
}.

(** The change queued for a descriptor. *)
Definition change_of (cl : event_changelist) (fd : Z) : option event_change :=
  if idxplus1 cl (false, fd) =? 0 then None
  else changes cl !! Z.to_nat (idxplus1 cl (false, fd) - 1).

Lemma change_of_index cl fd c :
  changelist_ok cl -> change_of cl fd = Some c ->
  exists i, idxplus1 cl (false, fd) = Z.of_nat i + 1 /\ changes cl !! i = Some c /\ ch_fd c = fd.
Proof.
  intros Hok H. unfold change_of in H. case_test_in H; [done|zb].
  destruct (cl_info _ Hok _ E) as (i & c' & Hi & Hc & Hf). exists i.
  rewrite Hi in H. replace (Z.to_nat (Z.of_nat i + 1 - 1)) with i in H by lia.
  rewrite Hc in H. by simplify_eq.
Qed.

Lemma change_of_lookup cl i c :
  changelist_ok cl -> changes cl !! i = Some c -> change_of cl (ch_fd c) = Some c.
Proof.
  intros Hok H. destruct (cl_entry _ Hok _ _ H) as (_ & _ & Hi). unfold change_of. rewrite Hi.
  replace (Z.of_nat i + 1 =? 0) with false by lia.
  by replace (Z.to_nat (Z.of_nat i + 1 - 1)) with i by lia.
Qed.

Lemma changelist_indexed cl :
  changelist_ok cl -> indexed (ch_fd <$> changes cl) (fun fd => idxplus1 cl (false, fd)).
Proof.
  intros Hok. split.
  - intros i fd (c & -> & Hi)%list_lookup_fmap_Some. by destruct (cl_entry _ Hok _ _ Hi) as (? & _ & ?).
  - intros fd (i & c & Hi & Hc & <-)%(cl_info _ Hok). exists i. split; [done|].
    by rewrite list_lookup_fmap, Hc.
Qed.

Lemma changes_NoDup cl : changelist_ok cl -> NoDup (ch_fd <$> changes cl).
Proof. intros Hok. eapply indexed_NoDup, changelist_indexed, Hok. Qed.

(** The array holds at most one change per descriptor. *)
Lemma changes_fit cl fd :
  changelist_ok cl -> 0 <= fd < MAX_FD -> idxplus1 cl (false, fd) = 0 -> n_changes cl < MAX_FD.
Proof.
  intros Hok Hfd H0. pose proof (indexed_fit _ _ (changelist_indexed _ Hok) fd Hfd H0) as H.
  unfold n_changes, zlen in *. by rewrite length_fmap in H.
Qed.

(** ** The operations keep it *)

Definition constructed (cl cl' : event_changelist) (fd old : Z) (o : option Z) (mem_ok : bool) : Prop :=
  match o with
  | None => mem_ok = false /\ cl' = cl
  | Some idx =>
      changelist_ok cl' /\ idxplus1 cl' (false, fd) = idx + 1 /\ 0 <= idx /\
      change_of cl' fd = Some (default (mkChange fd old 0 0 0) (change_of cl fd)) /\
      (forall g, g <> fd -> change_of cl' g = change_of cl g)
  end.

Lemma grow_returns mem_ok cl fd :
  changelist_ok cl -> 0 <= fd < MAX_FD -> idxplus1 cl (false, fd) = 0 ->
  n_changes cl = changes_size cl ->
  returns (event_changelist_grow mem_ok cl) (fun '(ok, cl') =>
    ok = mem_ok /\ if ok then exists s, n_changes cl < s /\ cl' = mkChangelist (changes cl) s (fdinfo cl)
    else cl' = cl).
Proof.
  intros Hok Hfd H0 Hn. unfold event_changelist_grow.
  pose proof (changes_fit _ _ Hok Hfd H0) as Hfit. unfold MAX_FD in *.
  apply (returns_bind _ _ (fun s => n_changes cl < s)).
  - destruct (changes_size cl <? 64) eqn:E; zb; [apply returns_done; lia|].
    replace (changes_size cl * 2 <=? INT_MAX) with true by (unfold INT_MAX; lia).
    apply returns_done. pose proof (zlen_nonneg (changes cl)). unfold n_changes in *. lia.
  - intros s Hs. destruct mem_ok; apply returns_done; eauto.
Qed.

Lemma push_constructed cl fd old s :
  changelist_ok cl -> 0 <= fd < MAX_FD -> idxplus1 cl (false, fd) = 0 -> n_changes cl < s ->
  constructed cl (mkChangelist (changes cl ++ [mkChange fd old 0 0 0]) s
                    (<[(false, fd) := n_changes cl + 1]> (fdinfo cl))) fd old (Some (n_changes cl)) true.
Proof.
  intros Hok Hfd H0 Hs. set (c0 := mkChange fd old 0 0 0).
  set (cl' := mkChangelist _ s _).
  assert (forall g, g <> fd -> idxplus1 cl' (false, g) = idxplus1 cl (false, g)) as Hg.
  { intros g Hne. unfold idxplus1. simpl. by rewrite lookup_insert_ne by congruence. }
  assert (idxplus1 cl' (false, fd) = n_changes cl + 1) as Hi.
  { unfold idxplus1. simpl. by rewrite lookup_insert_eq. }
  assert (changelist_ok cl') as Hok'.
  { split.
    - unfold n_changes in *. simpl. rewrite zlen_app, zlen_cons, zlen_nil. lia.
    - intros i c [Hc|(Hl & Hc)]%lookup_app_Some.
      + destruct (cl_entry _ Hok _ _ Hc) as (Hr & Hsg & Hx). rewrite Hg; [done|]. intros Hf.
        rewrite Hf in Hx. lia.
      + apply list_lookup_singleton_Some in Hc as (Hl' & <-). simpl. rewrite Hi.
        unfold n_changes, zlen. split; [done|]. split; [done|lia].
    - intros g. destruct (decide (g = fd)) as [->|Hne]; intros Hx.
      + exists (length (changes cl)), c0. split; [done|]. split; [|done].
        simpl. by rewrite lookup_app_r, Nat.sub_diag.
      + rewrite Hg in * by done. destruct (cl_info _ Hok _ Hx) as (i & c & Hic & Hc & Hf).
        exists i, c. split; [done|]. split; [|done]. by apply lookup_app_l_Some. }
  split; [done|]. split; [done|]. split; [unfold n_changes; apply zlen_nonneg|]. split.
  - unfold change_of at 2. rewrite H0. simpl.
    apply (change_of_lookup cl' (length (changes cl)) c0 Hok').
    simpl. by rewrite lookup_app_r, Nat.sub_diag.
  - intros g Hne. unfold change_of. rewrite Hg by done. case_test; [done|zb].
    destruct (cl_info _ Hok _ E) as (i & c & -> & Hc & _).
    replace (Z.to_nat (Z.of_nat i + 1 - 1)) with i by lia. simpl. rewrite Hc.
    by apply lookup_app_l_Some.
Qed.

Lemma get_or_construct_spec mem_ok cl fd old :
  changelist_ok cl -> 0 <= fd < MAX_FD ->
  returns (event_changelist_get_or_construct mem_ok cl fd old (false, fd))
    (fun '(o, cl') => constructed cl cl' fd old o mem_ok).
Proof.
  intros Hok Hfd. unfold event_changelist_get_or_construct. case_test; zb.
  - replace (n_changes cl <=? changes_size cl) with true by (pose proof (cl_size _ Hok); lia). simpl.
    case_test; zb.
    + eapply returns_bind; [by apply (grow_returns mem_ok cl fd)|].
      intros [ok cl'] (-> & Hc). destruct mem_ok; simpl; apply returns_done; [|done].
      destruct Hc as (s & Hs & ->). exact (push_constructed cl fd old s Hok Hfd E Hs).
    + simpl. apply returns_done. pose proof (cl_size _ Hok).
      assert (n_changes cl < changes_size cl) as Hs by lia.
      exact (push_constructed cl fd old _ Hok Hfd E Hs).
  - destruct (cl_info _ Hok _ E) as (i & c & Hi & Hc & Hf). rewrite Hi.
    replace (Z.to_nat (Z.of_nat i + 1 - 1)) with i by lia. rewrite Hc. simpl.
    rewrite Hf, Z.eqb_refl. simpl. apply returns_done. split; [done|].
    split; [lia|]. split; [lia|]. split; [|done].
    rewrite <- Hf. by rewrite (change_of_lookup _ _ _ Hok Hc).
Qed.

Lemma upd_change_ok cl fd idx c f :
  changelist_ok cl -> idxplus1 cl (false, fd) = idx + 1 -> 0 <= idx -> change_of cl fd = Some c ->
  ch_fd (f c) = fd -> has (read_change (f c)) EV_CHANGE_SIGNAL = false ->
  changelist_ok (upd_change cl idx f) /\ change_of (upd_change cl idx f) fd = Some (f c) /\
  (forall g, g <> fd -> change_of (upd_change cl idx f) g = change_of cl g).
Proof.
  intros Hok Hi Hidx Hc Hf Hs. destruct (change_of_index _ _ _ Hok Hc) as (i & Hi' & Hl & Hfd).
  assert (Z.to_nat idx = i) as Hn by lia.
  set (cl' := upd_change cl idx f).
  assert (changes cl' = alter f i (changes cl)) as Hch by (unfold cl', upd_change; simpl; by rewrite Hn).
  assert (changelist_ok cl') as Hok'.
  { split.
    - unfold n_changes, zlen. rewrite Hch, length_alter. apply (cl_size _ Hok).
    - intros j d. rewrite Hch. destruct (decide (i = j)) as [<-|Hne].
      + rewrite list_lookup_alter_eq, Hl. simpl. intros [= <-]. rewrite Hf.
        destruct (cl_entry _ Hok _ _ Hl) as (? & ? & ?). rewrite Hfd in *. done.
      + rewrite list_lookup_alter_ne by done. apply (cl_entry _ Hok).
    - intros g Hg. destruct (cl_info _ Hok _ Hg) as (j & d & Hj & Hd & Hdf). exists j.
      rewrite Hch. destruct (decide (i = j)) as [<-|Hne].
      + exists (f d). rewrite list_lookup_alter_eq, Hd. simplify_eq. done.
      + exists d. by rewrite list_lookup_alter_ne. }
  split; [done|]. split.
  - rewrite <- Hf. apply (change_of_lookup _ i); [done|]. by rewrite Hch, list_lookup_alter_eq, Hl.
  - intros g Hg. unfold change_of. change (idxplus1 cl' (false, g)) with (idxplus1 cl (false, g)).
    case_test; [done|zb]. destruct (cl_info _ Hok _ E) as (j & d & -> & Hd & Hdf).
    replace (Z.to_nat (Z.of_nat j + 1 - 1)) with j by lia. rewrite Hch.
    rewrite list_lookup_alter_ne; [done|]. intros ->. congruence.
Qed.

(** ** Emptying the list, and the code's own consistency check *)

Lemma remove_all_loop_spec l i info :
  (forall j c, l !! j = Some c -> has (read_change c) EV_CHANGE_SIGNAL = false /\
     default 0 (info !! (false, ch_fd c)) = i + Z.of_nat j + 1) ->
  returns (remove_all_loop l i info) (fun info' => forall fd,
    default 0 (info' !! (false, fd)) =
    if decide (fd ∈ ch_fd <$> l) then 0 else default 0 (info !! (false, fd))).
Proof.
  revert i info. induction l as [|ch l IH]; intros i info H; cbn [remove_all_loop].
  { by apply returns_done. }
  unfold event_change_get_fdinfo. cbv zeta. destruct (H O ch eq_refl) as [-> ->].
  rewrite (proj2 (Z.eqb_eq (i + Z.of_nat 0 + 1) (i + 1))) by lia.
  cbn [assert_c mbind outcome_bind].
  eapply returns_mono; [apply IH|].
  - intros j c Hj. destruct (H (S j) c Hj) as [Hs Hc]. split; [done|].
    rewrite lookup_insert_ne; [lia|]. intros [= Hf]. destruct (H O ch eq_refl) as [_ H0].
    rewrite Hf in H0. lia.
  - intros info' Hi fd. rewrite Hi. destruct (decide (fd = ch_fd ch)) as [->|Hne].
    + rewrite lookup_insert_eq. simpl. rewrite (decide_True (P := ch_fd ch ∈ ch_fd ch :: _)); [|set_solver].
      by case_decide.
    + rewrite lookup_insert_ne by congruence. repeat case_decide; set_solver.
Qed.

Lemma remove_all_spec cl :
  changelist_ok cl ->
  returns (event_changelist_remove_all_ cl) (fun cl' =>
    changelist_ok cl' /\ changes cl' = [] /\ forall fd, change_of cl' fd = None).
Proof.
  intros Hok. unfold event_changelist_remove_all_. eapply returns_bind; [apply remove_all_loop_spec|].
  - intros j c Hj. by destruct (cl_entry _ Hok _ _ Hj) as (_ & Hs & Hi).
  - intros info Hi. apply returns_done.
    assert (forall fd, default 0 (info !! (false, fd)) = 0) as H0.
    { intros fd. rewrite Hi. case_decide as Hin; [done|].
      destruct (decide (idxplus1 cl (false, fd) = 0)) as [|Hne]; [done|].
      destruct (cl_info _ Hok _ Hne) as (i & c & _ & Hc & Hf). destruct Hin.
      apply list_elem_of_fmap. exists c. split; [done|]. by eapply list_elem_of_lookup_2. }
    split; [split|]; simpl; [|done| |].
    + pose proof (cl_size _ Hok). pose proof (zlen_nonneg (changes cl)).
      unfold n_changes in *. simpl. rewrite zlen_nil. lia.
    + intros fd. unfold idxplus1. cbn [fdinfo]. rewrite H0. done.
    + split; [done|]. intros fd. unfold change_of, idxplus1. simpl. by rewrite H0.
Qed.

Lemma assert_changes_spec cl l i :
  changelist_ok cl -> (forall j c, l !! j = Some c -> changes cl !! (i + j)%nat = Some c) ->
  assert_changes cl l (Z.of_nat i) = Done tt.
Proof.
  intros Hok. revert i. induction l as [|c l IH]; intros i H; [done|]. simpl.
  pose proof (H O c eq_refl) as H0. rewrite Nat.add_0_r in H0.
  destruct (cl_entry _ Hok _ _ H0) as (Hf & Hs & Hi). unfold event_change_get_fdinfo. rewrite Hs, Hi.
  replace (0 <=? ch_fd c) with true by lia. rewrite Z.eqb_refl. simpl.
  replace (Z.of_nat i + 1) with (Z.of_nat (S i)) by lia. apply IH.
  intros j d Hj. replace (S i + j)%nat with (i + S j)%nat by lia. by apply H.
Qed.

(** The invariant is what [event_changelist_assert_ok] checks. *)
Lemma assert_ok_passes cl fds :
  changelist_ok cl -> event_changelist_assert_ok cl fds = Done tt.
Proof.
  intros Hok. unfold event_changelist_assert_ok.
  replace (n_changes cl <=? changes_size cl) with true by (pose proof (cl_size _ Hok); lia).
  simpl. rewrite (assert_changes_spec cl _ 0 Hok) by done. simpl.
  induction fds as [|fd fds IH]; [done|]. simpl. unfold event_changelist_assert_ok_iter.
  case_test; zb; [apply IH|]. destruct (cl_info _ Hok _ E) as (i & c & -> & Hc & Hf).
  replace (Z.to_nat (Z.of_nat i + 1 - 1)) with i by lia. rewrite Hc. simpl.
  rewrite Hf, Z.eqb_refl. apply IH.
Qed.
