(* ===== verification/EpollTable.v ===== *)
(** * The epoll operation table

    Models [libevent/epolltable-internal.h]: the table that gives, for the
    changes wanted on a descriptor and the events it had before, the events and
    the operation of the call of [epoll_ctl] that makes them, and the index
    into it.  The table is the concatenation of its eight blocks of 64 rows,
    one per set of old events. *)

From S2P Require Import Prelude MinHeap EventBase Indexed Changelist.

(** ** Constants of the Linux interface *)

Definition EPOLLIN : Z := 0x001.
Definition EPOLLOUT : Z := 0x004.
Definition EPOLLERR : Z := 0x008.
Definition EPOLLHUP : Z := 0x010.
Definition EPOLLRDHUP : Z := 0x2000.
Definition EPOLLET : Z := 2 ^ 31.
Definition EPOLL_CTL_ADD : Z := 1.
Definition EPOLL_CTL_DEL : Z := 2.
Definition EPOLL_CTL_MOD : Z := 3.

(** ** The table *)

(** [events] and [op] *)
Definition operation : Type := Z * Z.

(** The changes made on a descriptor whose old events are none. *)
Definition epoll_op_table_old_none : list operation := [
  (* write:0 read:0 *)
  (0, 0);
  (EPOLLRDHUP, EPOLL_CTL_ADD);
  (EPOLLRDHUP, EPOLL_CTL_DEL);
  (0, 255);
  (* write:0 read:add *)
  (EPOLLIN, EPOLL_CTL_ADD);
  (Z.lor EPOLLIN EPOLLRDHUP, EPOLL_CTL_ADD);
  (EPOLLIN, EPOLL_CTL_ADD);
  (0, 255);
  (* write:0 read:del *)
  (EPOLLIN, EPOLL_CTL_DEL);
  (EPOLLRDHUP, EPOLL_CTL_ADD);
  (Z.lor EPOLLIN EPOLLRDHUP, EPOLL_CTL_DEL);
  (0, 255);
  (* write:0 read:xxx *)
  (0, 255);
  (0, 255);
  (0, 255);
  (0, 255);
  (* write:add read:0 *)
  (EPOLLOUT, EPOLL_CTL_ADD);
  (Z.lor EPOLLOUT EPOLLRDHUP, EPOLL_CTL_ADD);
  (EPOLLOUT, EPOLL_CTL_ADD);
  (0, 255);
  (* write:add read:add *)
  (Z.lor EPOLLIN EPOLLOUT, EPOLL_CTL_ADD);
  (Z.lor EPOLLIN (Z.lor EPOLLOUT EPOLLRDHUP), EPOLL_CTL_ADD);
  (Z.lor EPOLLIN EPOLLOUT, EPOLL_CTL_ADD);
  (0, 255);
  (* write:add read:del *)
  (EPOLLOUT, EPOLL_CTL_ADD);
  (Z.lor EPOLLOUT EPOLLRDHUP, EPOLL_CTL_ADD);
  (EPOLLOUT, EPOLL_CTL_ADD);
  (0, 255);
  (* write:add read:xxx *)
  (0, 255);
  (0, 255);
  (0, 255);
  (0, 255);
  (* write:del read:0 *)
  (EPOLLOUT, EPOLL_CTL_DEL);
  (EPOLLRDHUP, EPOLL_CTL_ADD);
  (Z.lor EPOLLOUT EPOLLRDHUP, EPOLL_CTL_DEL);
  (0, 255);
  (* write:del read:add *)
  (EPOLLIN, EPOLL_CTL_ADD);
  (Z.lor EPOLLIN EPOLLRDHUP, EPOLL_CTL_ADD);
  (EPOLLIN, EPOLL_CTL_ADD);
  (0, 255);
  (* write:del read:del *)
  (Z.lor EPOLLIN EPOLLOUT, EPOLL_CTL_DEL);
  (EPOLLRDHUP, EPOLL_CTL_ADD);
  (Z.lor EPOLLIN (Z.lor EPOLLOUT EPOLLRDHUP), EPOLL_CTL_DEL);
  (0, 255);
  (* write:del read:xxx *)
  (0, 255);
  (0, 255);
  (0, 255);
  (0, 255);
  (* write:xxx read:0 *)
  (0, 255);
  (0, 255);
  (0, 255);
  (0, 255);
  (* write:xxx read:add *)
  (0, 255);
  (0, 255);
  (0, 255);
  (0, 255);
  (* write:xxx read:del *)
  (0, 255);
  (0, 255);
  (0, 255);
  (0, 255);
  (* write:xxx read:xxx *)
  (0, 255);
  (0, 255);
  (0, 255);
  (0, 255)
].

(** The changes made on a descriptor whose old events are r. *)
Definition epoll_op_table_old_r : list operation := [
  (* write:0 read:0 *)
  (0, 0);
  (Z.lor EPOLLIN EPOLLRDHUP, EPOLL_CTL_MOD);
  (EPOLLIN, EPOLL_CTL_MOD);
  (0, 255);
  (* write:0 read:add *)
  (EPOLLIN, EPOLL_CTL_MOD);
  (Z.lor EPOLLIN EPOLLRDHUP, EPOLL_CTL_MOD);
  (EPOLLIN, EPOLL_CTL_MOD);
  (0, 255);
  (* write:0 read:del *)
  (EPOLLIN, EPOLL_CTL_DEL);
  (EPOLLRDHUP, EPOLL_CTL_MOD);
  (Z.lor EPOLLIN EPOLLRDHUP, EPOLL_CTL_DEL);
  (0, 255);
  (* write:0 read:xxx *)
  (0, 255);
  (0, 255);
  (0, 255);
  (0, 255);
  (* write:add read:0 *)
  (Z.lor EPOLLIN EPOLLOUT, EPOLL_CTL_MOD);
  (Z.lor EPOLLIN (Z.lor EPOLLOUT EPOLLRDHUP), EPOLL_CTL_MOD);
  (Z.lor EPOLLIN EPOLLOUT, EPOLL_CTL_MOD);
  (0, 255);
  (* write:add read:add *)
  (Z.lor EPOLLIN EPOLLOUT, EPOLL_CTL_MOD);
  (Z.lor EPOLLIN (Z.lor EPOLLOUT EPOLLRDHUP), EPOLL_CTL_MOD);
  (Z.lor EPOLLIN EPOLLOUT, EPOLL_CTL_MOD);
  (0, 255);
  (* write:add read:del *)
  (EPOLLOUT, EPOLL_CTL_MOD);
  (Z.lor EPOLLOUT EPOLLRDHUP, EPOLL_CTL_MOD);
  (EPOLLOUT, EPOLL_CTL_MOD);
  (0, 255);
  (* write:add read:xxx *)
  (0, 255);
  (0, 255);
  (0, 255);
  (0, 255);
  (* write:del read:0 *)
  (EPOLLIN, EPOLL_CTL_MOD);
  (Z.lor EPOLLIN EPOLLRDHUP, EPOLL_CTL_MOD);
  (EPOLLIN, EPOLL_CTL_MOD);
  (0, 255);
  (* write:del read:add *)
  (EPOLLIN, EPOLL_CTL_MOD);
  (Z.lor EPOLLIN EPOLLRDHUP, EPOLL_CTL_MOD);
  (EPOLLIN, EPOLL_CTL_MOD);
  (0, 255);
  (* write:del read:del *)
  (Z.lor EPOLLIN EPOLLOUT, EPOLL_CTL_DEL);
  (EPOLLRDHUP, EPOLL_CTL_MOD);
  (Z.lor EPOLLIN (Z.lor EPOLLOUT EPOLLRDHUP), EPOLL_CTL_DEL);
  (0, 255);
  (* write:del read:xxx *)
  (0, 255);
  (0, 255);
  (0, 255);
  (0, 255);
  (* write:xxx read:0 *)
  (0, 255);
  (0, 255);
  (0, 255);
  (0, 255);
  (* write:xxx read:add *)
  (0, 255);
  (0, 255);
  (0, 255);
  (0, 255);
  (* write:xxx read:del *)
  (0, 255);
  (0, 255);
  (0, 255);
  (0, 255);
  (* write:xxx read:xxx *)
  (0, 255);
  (0, 255);
  (0, 255);
  (0, 255)
].

(** The changes made on a descriptor whose old events are w. *)
Definition epoll_op_table_old_w : list operation := [
  (* write:0 read:0 *)
  (0, 0);
  (Z.lor EPOLLOUT EPOLLRDHUP, EPOLL_CTL_MOD);
  (EPOLLOUT, EPOLL_CTL_MOD);
  (0, 255);
  (* write:0 read:add *)
  (Z.lor EPOLLIN EPOLLOUT, EPOLL_CTL_MOD);
  (Z.lor EPOLLIN (Z.lor EPOLLOUT EPOLLRDHUP), EPOLL_CTL_MOD);
  (Z.lor EPOLLIN EPOLLOUT, EPOLL_CTL_MOD);
  (0, 255);
  (* write:0 read:del *)
  (EPOLLOUT, EPOLL_CTL_MOD);
  (Z.lor EPOLLOUT EPOLLRDHUP, EPOLL_CTL_MOD);
  (EPOLLOUT, EPOLL_CTL_MOD);
  (0, 255);
  (* write:0 read:xxx *)
  (0, 255);
  (0, 255);
  (0, 255);
  (0, 255);
  (* write:add read:0 *)
  (EPOLLOUT, EPOLL_CTL_MOD);
  (Z.lor EPOLLOUT EPOLLRDHUP, EPOLL_CTL_MOD);
  (EPOLLOUT, EPOLL_CTL_MOD);
  (0, 255);
  (* write:add read:add *)
  (Z.lor EPOLLIN EPOLLOUT, EPOLL_CTL_MOD);
  (Z.lor EPOLLIN (Z.lor EPOLLOUT EPOLLRDHUP), EPOLL_CTL_MOD);
  (Z.lor EPOLLIN EPOLLOUT, EPOLL_CTL_MOD);
  (0, 255);
  (* write:add read:del *)
  (EPOLLOUT, EPOLL_CTL_MOD);
  (Z.lor EPOLLOUT EPOLLRDHUP, EPOLL_CTL_MOD);
  (EPOLLOUT, EPOLL_CTL_MOD);
  (0, 255);
  (* write:add read:xxx *)
  (0, 255);
  (0, 255);
  (0, 255);
  (0, 255);
  (* write:del read:0 *)
  (EPOLLOUT, EPOLL_CTL_DEL);
  (EPOLLRDHUP, EPOLL_CTL_MOD);
  (Z.lor EPOLLOUT EPOLLRDHUP, EPOLL_CTL_DEL);
  (0, 255);
  (* write:del read:add *)
  (EPOLLIN, EPOLL_CTL_MOD);
  (Z.lor EPOLLIN EPOLLRDHUP, EPOLL_CTL_MOD);
  (EPOLLIN, EPOLL_CTL_MOD);
  (0, 255);
  (* write:del read:del *)
  (Z.lor EPOLLIN EPOLLOUT, EPOLL_CTL_DEL);
  (EPOLLRDHUP, EPOLL_CTL_MOD);
  (Z.lor EPOLLIN (Z.lor EPOLLOUT EPOLLRDHUP), EPOLL_CTL_DEL);
  (0, 255);
  (* write:del read:xxx *)
  (0, 255);
  (0, 255);
  (0, 255);
  (0, 255);
  (* write:xxx read:0 *)
  (0, 255);
  (0, 255);
  (0, 255);
  (0, 255);
  (* write:xxx read:add *)
  (0, 255);
  (0, 255);
  (0, 255);
  (0, 255);
  (* write:xxx read:del *)
  (0, 255);
  (0, 255);
  (0, 255);
  (0, 255);
  (* write:xxx read:xxx *)
  (0, 255);
  (0, 255);
  (0, 255);
  (0, 255)
].

(** The changes made on a descriptor whose old events are rw. *)
Definition epoll_op_table_old_rw : list operation := [
  (* write:0 read:0 *)
  (0, 0);
  (Z.lor EPOLLIN (Z.lor EPOLLOUT EPOLLRDHUP), EPOLL_CTL_MOD);
  (Z.lor EPOLLIN EPOLLOUT, EPOLL_CTL_MOD);
  (0, 255);
  (* write:0 read:add *)
  (Z.lor EPOLLIN EPOLLOUT, EPOLL_CTL_MOD);
  (Z.lor EPOLLIN (Z.lor EPOLLOUT EPOLLRDHUP), EPOLL_CTL_MOD);
  (Z.lor EPOLLIN EPOLLOUT, EPOLL_CTL_MOD);
  (0, 255);
  (* write:0 read:del *)
  (EPOLLOUT, EPOLL_CTL_MOD);
  (Z.lor EPOLLOUT EPOLLRDHUP, EPOLL_CTL_MOD);
  (EPOLLOUT, EPOLL_CTL_MOD);
  (0, 255);
  (* write:0 read:xxx *)
  (0, 255);
  (0, 255);
  (0, 255);
  (0, 255);
  (* write:add read:0 *)
  (Z.lor EPOLLIN EPOLLOUT, EPOLL_CTL_MOD);
  (Z.lor EPOLLIN (Z.lor EPOLLOUT EPOLLRDHUP), EPOLL_CTL_MOD);
  (Z.lor EPOLLIN EPOLLOUT, EPOLL_CTL_MOD);
  (0, 255);
  (* write:add read:add *)
  (Z.lor EPOLLIN EPOLLOUT, EPOLL_CTL_MOD);
  (Z.lor EPOLLIN (Z.lor EPOLLOUT EPOLLRDHUP), EPOLL_CTL_MOD);
  (Z.lor EPOLLIN EPOLLOUT, EPOLL_CTL_MOD);
  (0, 255);
  (* write:add read:del *)
  (EPOLLOUT, EPOLL_CTL_MOD);
  (Z.lor EPOLLOUT EPOLLRDHUP, EPOLL_CTL_MOD);
  (EPOLLOUT, EPOLL_CTL_MOD);
  (0, 255);
  (* write:add read:xxx *)
  (0, 255);
  (0, 255);
  (0, 255);
  (0, 255);
  (* write:del read:0 *)
  (EPOLLIN, EPOLL_CTL_MOD);
  (Z.lor EPOLLIN EPOLLRDHUP, EPOLL_CTL_MOD);
  (EPOLLIN, EPOLL_CTL_MOD);
  (0, 255);
  (* write:del read:add *)
  (EPOLLIN, EPOLL_CTL_MOD);
  (Z.lor EPOLLIN EPOLLRDHUP, EPOLL_CTL_MOD);
  (EPOLLIN, EPOLL_CTL_MOD);
  (0, 255);
  (* write:del read:del *)
  (Z.lor EPOLLIN EPOLLOUT, EPOLL_CTL_DEL);
  (EPOLLRDHUP, EPOLL_CTL_MOD);
  (Z.lor EPOLLIN (Z.lor EPOLLOUT EPOLLRDHUP), EPOLL_CTL_DEL);
  (0, 255);
  (* write:del read:xxx *)
  (0, 255);
  (0, 255);
  (0, 255);
  (0, 255);
  (* write:xxx read:0 *)
  (0, 255);
  (0, 255);
  (0, 255);
  (0, 255);
  (* write:xxx read:add *)
  (0, 255);
  (0, 255);
  (0, 255);
  (0, 255);
  (* write:xxx read:del *)
  (0, 255);
  (0, 255);
  (0, 255);
  (0, 255);
  (* write:xxx read:xxx *)
  (0, 255);
  (0, 255);
  (0, 255);
  (0, 255)
].

(** The changes made on a descriptor whose old events are c. *)
Definition epoll_op_table_old_c : list operation := [
  (* write:0 read:0 *)
  (0, 0);
  (EPOLLRDHUP, EPOLL_CTL_MOD);
  (EPOLLRDHUP, EPOLL_CTL_DEL);
  (0, 255);
  (* write:0 read:add *)
  (Z.lor EPOLLIN EPOLLRDHUP, EPOLL_CTL_MOD);
  (Z.lor EPOLLIN EPOLLRDHUP, EPOLL_CTL_MOD);
  (EPOLLIN, EPOLL_CTL_MOD);
  (0, 255);
  (* write:0 read:del *)
  (EPOLLRDHUP, EPOLL_CTL_MOD);
  (EPOLLRDHUP, EPOLL_CTL_MOD);
  (Z.lor EPOLLIN EPOLLRDHUP, EPOLL_CTL_DEL);
  (0, 255);
  (* write:0 read:xxx *)
  (0, 255);
  (0, 255);
  (0, 255);
  (0, 255);
  (* write:add read:0 *)
  (Z.lor EPOLLOUT EPOLLRDHUP, EPOLL_CTL_MOD);
  (Z.lor EPOLLOUT EPOLLRDHUP, EPOLL_CTL_MOD);
  (EPOLLOUT, EPOLL_CTL_MOD);
  (0, 255);
  (* write:add read:add *)
  (Z.lor EPOLLIN (Z.lor EPOLLOUT EPOLLRDHUP), EPOLL_CTL_MOD);
  (Z.lor EPOLLIN (Z.lor EPOLLOUT EPOLLRDHUP), EPOLL_CTL_MOD);
  (Z.lor EPOLLIN EPOLLOUT, EPOLL_CTL_MOD);
  (0, 255);
  (* write:add read:del *)
  (Z.lor EPOLLOUT EPOLLRDHUP, EPOLL_CTL_MOD);
  (Z.lor EPOLLOUT EPOLLRDHUP, EPOLL_CTL_MOD);
  (EPOLLOUT, EPOLL_CTL_MOD);
  (0, 255);
  (* write:add read:xxx *)
  (0, 255);
  (0, 255);
  (0, 255);
  (0, 255);
  (* write:del read:0 *)
  (EPOLLRDHUP, EPOLL_CTL_MOD);
  (EPOLLRDHUP, EPOLL_CTL_MOD);
  (Z.lor EPOLLOUT EPOLLRDHUP, EPOLL_CTL_DEL);
  (0, 255);
  (* write:del read:add *)
  (Z.lor EPOLLIN EPOLLRDHUP, EPOLL_CTL_MOD);
  (Z.lor EPOLLIN EPOLLRDHUP, EPOLL_CTL_MOD);
  (EPOLLIN, EPOLL_CTL_MOD);
  (0, 255);
  (* write:del read:del *)
  (EPOLLRDHUP, EPOLL_CTL_MOD);
  (EPOLLRDHUP, EPOLL_CTL_MOD);
  (Z.lor EPOLLIN (Z.lor EPOLLOUT EPOLLRDHUP), EPOLL_CTL_DEL);
  (0, 255);
  (* write:del read:xxx *)
  (0, 255);
  (0, 255);
  (0, 255);
  (0, 255);
  (* write:xxx read:0 *)
  (0, 255);
  (0, 255);
  (0, 255);
  (0, 255);
  (* write:xxx read:add *)
  (0, 255);
  (0, 255);
  (0, 255);
  (0, 255);
  (* write:xxx read:del *)
  (0, 255);
  (0, 255);
  (0, 255);
  (0, 255);
  (* write:xxx read:xxx *)
  (0, 255);
  (0, 255);
  (0, 255);
  (0, 255)
].

(** The changes made on a descriptor whose old events are cr. *)
Definition epoll_op_table_old_cr : list operation := [
  (* write:0 read:0 *)
  (0, 0);
  (Z.lor EPOLLIN EPOLLRDHUP, EPOLL_CTL_MOD);
  (EPOLLIN, EPOLL_CTL_MOD);
  (0, 255);
  (* write:0 read:add *)
  (Z.lor EPOLLIN EPOLLRDHUP, EPOLL_CTL_MOD);
  (Z.lor EPOLLIN EPOLLRDHUP, EPOLL_CTL_MOD);
  (EPOLLIN, EPOLL_CTL_MOD);
  (0, 255);
  (* write:0 read:del *)
  (EPOLLRDHUP, EPOLL_CTL_MOD);
  (EPOLLRDHUP, EPOLL_CTL_MOD);
  (Z.lor EPOLLIN EPOLLRDHUP, EPOLL_CTL_DEL);
  (0, 255);
  (* write:0 read:xxx *)
  (0, 255);
  (0, 255);
  (0, 255);
  (0, 255);
  (* write:add read:0 *)
  (Z.lor EPOLLIN (Z.lor EPOLLOUT EPOLLRDHUP), EPOLL_CTL_MOD);
  (Z.lor EPOLLIN (Z.lor EPOLLOUT EPOLLRDHUP), EPOLL_CTL_MOD);
  (Z.lor EPOLLIN EPOLLOUT, EPOLL_CTL_MOD);
  (0, 255);
  (* write:add read:add *)
  (Z.lor EPOLLIN (Z.lor EPOLLOUT EPOLLRDHUP), EPOLL_CTL_MOD);
  (Z.lor EPOLLIN (Z.lor EPOLLOUT EPOLLRDHUP), EPOLL_CTL_MOD);
  (Z.lor EPOLLIN EPOLLOUT, EPOLL_CTL_MOD);
  (0, 255);
  (* write:add read:del *)
  (Z.lor EPOLLOUT EPOLLRDHUP, EPOLL_CTL_MOD);
  (Z.lor EPOLLOUT EPOLLRDHUP, EPOLL_CTL_MOD);
  (EPOLLOUT, EPOLL_CTL_MOD);
  (0, 255);
  (* write:add read:xxx *)
  (0, 255);
  (0, 255);
  (0, 255);
  (0, 255);
  (* write:del read:0 *)
  (Z.lor EPOLLIN EPOLLRDHUP, EPOLL_CTL_MOD);
  (Z.lor EPOLLIN EPOLLRDHUP, EPOLL_CTL_MOD);
  (EPOLLIN, EPOLL_CTL_MOD);
  (0, 255);
  (* write:del read:add *)
  (Z.lor EPOLLIN EPOLLRDHUP, EPOLL_CTL_MOD);
  (Z.lor EPOLLIN EPOLLRDHUP, EPOLL_CTL_MOD);
  (EPOLLIN, EPOLL_CTL_MOD);
  (0, 255);
  (* write:del read:del *)
  (EPOLLRDHUP, EPOLL_CTL_MOD);
  (EPOLLRDHUP, EPOLL_CTL_MOD);
  (Z.lor EPOLLIN (Z.lor EPOLLOUT EPOLLRDHUP), EPOLL_CTL_DEL);
  (0, 255);
  (* write:del read:xxx *)
  (0, 255);
  (0, 255);
  (0, 255);
  (0, 255);
  (* write:xxx read:0 *)
  (0, 255);
  (0, 255);
  (0, 255);
  (0, 255);
  (* write:xxx read:add *)
  (0, 255);
  (0, 255);
  (0, 255);
  (0, 255);
  (* write:xxx read:del *)
  (0, 255);
  (0, 255);
  (0, 255);
  (0, 255);
  (* write:xxx read:xxx *)
  (0, 255);
  (0, 255);
  (0, 255);
  (0, 255)
].

(** The changes made on a descriptor whose old events are cw. *)
Definition epoll_op_table_old_cw : list operation := [
  (* write:0 read:0 *)
  (0, 0);
  (Z.lor EPOLLOUT EPOLLRDHUP, EPOLL_CTL_MOD);
  (EPOLLOUT, EPOLL_CTL_MOD);
  (0, 255);
  (* write:0 read:add *)
  (Z.lor EPOLLIN (Z.lor EPOLLOUT EPOLLRDHUP), EPOLL_CTL_MOD);
  (Z.lor EPOLLIN (Z.lor EPOLLOUT EPOLLRDHUP), EPOLL_CTL_MOD);
  (Z.lor EPOLLIN EPOLLOUT, EPOLL_CTL_MOD);
  (0, 255);
  (* write:0 read:del *)
  (Z.lor EPOLLOUT EPOLLRDHUP, EPOLL_CTL_MOD);
  (Z.lor EPOLLOUT EPOLLRDHUP, EPOLL_CTL_MOD);
  (EPOLLOUT, EPOLL_CTL_MOD);
  (0, 255);
  (* write:0 read:xxx *)
  (0, 255);
  (0, 255);
  (0, 255);
  (0, 255);
  (* write:add read:0 *)
  (Z.lor EPOLLOUT EPOLLRDHUP, EPOLL_CTL_MOD);
  (Z.lor EPOLLOUT EPOLLRDHUP, EPOLL_CTL_MOD);
  (EPOLLOUT, EPOLL_CTL_MOD);
  (0, 255);
  (* write:add read:add *)
  (Z.lor EPOLLIN (Z.lor EPOLLOUT EPOLLRDHUP), EPOLL_CTL_MOD);
  (Z.lor EPOLLIN (Z.lor EPOLLOUT EPOLLRDHUP), EPOLL_CTL_MOD);
  (Z.lor EPOLLIN EPOLLOUT, EPOLL_CTL_MOD);
  (0, 255);
  (* write:add read:del *)
  (Z.lor EPOLLOUT EPOLLRDHUP, EPOLL_CTL_MOD);
  (Z.lor EPOLLOUT EPOLLRDHUP, EPOLL_CTL_MOD);
  (EPOLLOUT, EPOLL_CTL_MOD);
  (0, 255);
  (* write:add read:xxx *)
  (0, 255);
  (0, 255);
  (0, 255);
  (0, 255);
  (* write:del read:0 *)
  (EPOLLRDHUP, EPOLL_CTL_MOD);
  (EPOLLRDHUP, EPOLL_CTL_MOD);
  (Z.lor EPOLLOUT EPOLLRDHUP, EPOLL_CTL_DEL);
  (0, 255);
  (* write:del read:add *)
  (Z.lor EPOLLIN EPOLLRDHUP, EPOLL_CTL_MOD);
  (Z.lor EPOLLIN EPOLLRDHUP, EPOLL_CTL_MOD);
  (EPOLLIN, EPOLL_CTL_MOD);
  (0, 255);
  (* write:del read:del *)
  (EPOLLRDHUP, EPOLL_CTL_MOD);
  (EPOLLRDHUP, EPOLL_CTL_MOD);
  (Z.lor EPOLLIN (Z.lor EPOLLOUT EPOLLRDHUP), EPOLL_CTL_DEL);
  (0, 255);
  (* write:del read:xxx *)
  (0, 255);
  (0, 255);
  (0, 255);
  (0, 255);
  (* write:xxx read:0 *)
  (0, 255);
  (0, 255);
  (0, 255);
  (0, 255);
  (* write:xxx read:add *)
  (0, 255);
  (0, 255);
  (0, 255);
  (0, 255);
  (* write:xxx read:del *)
  (0, 255);
  (0, 255);
  (0, 255);
  (0, 255);
  (* write:xxx read:xxx *)
  (0, 255);
  (0, 255);
  (0, 255);
  (0, 255)
].

(** The changes made on a descriptor whose old events are crw. *)
Definition epoll_op_table_old_crw : list operation := [
  (* write:0 read:0 *)
  (0, 0);
  (Z.lor EPOLLIN (Z.lor EPOLLOUT EPOLLRDHUP), EPOLL_CTL_MOD);
  (Z.lor EPOLLIN EPOLLOUT, EPOLL_CTL_MOD);
  (0, 255);
  (* write:0 read:add *)
  (Z.lor EPOLLIN (Z.lor EPOLLOUT EPOLLRDHUP), EPOLL_CTL_MOD);
  (Z.lor EPOLLIN (Z.lor EPOLLOUT EPOLLRDHUP), EPOLL_CTL_MOD);
  (Z.lor EPOLLIN EPOLLOUT, EPOLL_CTL_MOD);
  (0, 255);
  (* write:0 read:del *)
  (Z.lor EPOLLOUT EPOLLRDHUP, EPOLL_CTL_MOD);
  (Z.lor EPOLLOUT EPOLLRDHUP, EPOLL_CTL_MOD);
  (EPOLLOUT, EPOLL_CTL_MOD);
  (0, 255);
  (* write:0 read:xxx *)
  (0, 255);
  (0, 255);
  (0, 255);
  (0, 255);
  (* write:add read:0 *)
  (Z.lor EPOLLIN (Z.lor EPOLLOUT EPOLLRDHUP), EPOLL_CTL_MOD);
  (Z.lor EPOLLIN (Z.lor EPOLLOUT EPOLLRDHUP), EPOLL_CTL_MOD);
  (Z.lor EPOLLIN EPOLLOUT, EPOLL_CTL_MOD);
  (0, 255);
  (* write:add read:add *)
  (Z.lor EPOLLIN (Z.lor EPOLLOUT EPOLLRDHUP), EPOLL_CTL_MOD);
  (Z.lor EPOLLIN (Z.lor EPOLLOUT EPOLLRDHUP), EPOLL_CTL_MOD);
  (Z.lor EPOLLIN EPOLLOUT, EPOLL_CTL_MOD);
  (0, 255);
  (* write:add read:del *)
  (Z.lor EPOLLOUT EPOLLRDHUP, EPOLL_CTL_MOD);
  (Z.lor EPOLLOUT EPOLLRDHUP, EPOLL_CTL_MOD);
  (EPOLLOUT, EPOLL_CTL_MOD);
  (0, 255);
  (* write:add read:xxx *)
  (0, 255);
  (0, 255);
  (0, 255);
  (0, 255);
  (* write:del read:0 *)
  (Z.lor EPOLLIN EPOLLRDHUP, EPOLL_CTL_MOD);
  (Z.lor EPOLLIN EPOLLRDHUP, EPOLL_CTL_MOD);
  (EPOLLIN, EPOLL_CTL_MOD);
  (0, 255);
  (* write:del read:add *)
  (Z.lor EPOLLIN EPOLLRDHUP, EPOLL_CTL_MOD);
  (Z.lor EPOLLIN EPOLLRDHUP, EPOLL_CTL_MOD);
  (EPOLLIN, EPOLL_CTL_MOD);
  (0, 255);
  (* write:del read:del *)
  (EPOLLRDHUP, EPOLL_CTL_MOD);
  (EPOLLRDHUP, EPOLL_CTL_MOD);
  (Z.lor EPOLLIN (Z.lor EPOLLOUT EPOLLRDHUP), EPOLL_CTL_DEL);
  (0, 255);
  (* write:del read:xxx *)
  (0, 255);
  (0, 255);
  (0, 255);
  (0, 255);
  (* write:xxx read:0 *)
  (0, 255);
  (0, 255);
  (0, 255);
  (0, 255);
  (* write:xxx read:add *)
  (0, 255);
  (0, 255);
  (0, 255);
  (0, 255);
  (* write:xxx read:del *)
  (0, 255);
  (0, 255);
  (0, 255);
  (0, 255);
  (* write:xxx read:xxx *)
  (0, 255);
  (0, 255);
  (0, 255);
  (0, 255)
].
Definition epoll_op_table : list operation :=
  epoll_op_table_old_none ++ epoll_op_table_old_r ++ epoll_op_table_old_w ++
  epoll_op_table_old_rw ++ epoll_op_table_old_c ++ epoll_op_table_old_cr ++
  epoll_op_table_old_cw ++ epoll_op_table_old_crw.

Definition EV_CHANGE_ADD_DEL : Z := Z.lor EV_CHANGE_ADD EV_CHANGE_DEL.

Definition EPOLL_OP_TABLE_INDEX (c : event_change) : Z :=
  Z.lor (Z.land (close_change c) EV_CHANGE_ADD_DEL)
    (Z.lor (Z.shiftl (Z.land (read_change c) EV_CHANGE_ADD_DEL) 2)
       (Z.lor (Z.shiftl (Z.land (write_change c) EV_CHANGE_ADD_DEL) 4)
          (Z.lor (Z.shiftl (Z.land (old_events c) (Z.lor EV_READ EV_WRITE)) 5)
                 (Z.shiftl (Z.land (old_events c) EV_CLOSED) 1)))).

(** ** The rule the table is generated from

    First the pseudocode of the header's comment, as it stands: it knows the
    read and the write event only. *)

Definition add_and_del (chg : Z) : bool := has chg EV_CHANGE_ADD && has chg EV_CHANGE_DEL.

Definition epoll_op_pseudocode (c : event_change) : operation :=
  let read_is f := has (read_change c) f in
  let write_is f := has (write_change c) f in
  let old f := has (old_events c) f in
  if add_and_del (read_change c) || add_and_del (write_change c) then (0, -1)
  else if read_is EV_CHANGE_ADD || write_is EV_CHANGE_ADD then
    let events := 0 in
    let events := if read_is EV_CHANGE_ADD || (negb (read_is EV_CHANGE_DEL) && old EV_READ)
                  then Z.lor events EPOLLIN else events in
    let events := if write_is EV_CHANGE_ADD || (negb (write_is EV_CHANGE_DEL) && old EV_WRITE)
                  then Z.lor events EPOLLOUT else events in
    (events, if old (Z.lor EV_READ EV_WRITE) then EPOLL_CTL_MOD else EPOLL_CTL_ADD)
  else if read_is EV_CHANGE_DEL || write_is EV_CHANGE_DEL then
    if read_is EV_CHANGE_DEL then
      if write_is EV_CHANGE_DEL then (Z.lor EPOLLIN EPOLLOUT, EPOLL_CTL_DEL)
      else if old EV_WRITE then (EPOLLOUT, EPOLL_CTL_MOD)
      else (EPOLLIN, EPOLL_CTL_DEL)
    else if old EV_READ then (EPOLLIN, EPOLL_CTL_MOD)
    else (EPOLLOUT, EPOLL_CTL_DEL)
  else (0, 0).

(** The table was generated with the operation as an unsigned byte: its -1 is
    written 255. *)
Definition stored (r : operation) : operation := (r.1, r.2 mod 256).

(** A change the pseudocode speaks about: the close event is neither wanted,
    nor given up, nor registered. *)
Definition without_close (c : event_change) : bool :=
  negb (has (old_events c) EV_CLOSED) && negb (has (close_change c) EV_CHANGE_ADD_DEL).

(** ** The rule with the close event

    The events that are wanted after the change are registered; the three
    events are treated alike. *)

Definition mask3 (r w c : bool) : Z :=
  Z.lor (bit r EV_READ) (Z.lor (bit w EV_WRITE) (bit c EV_CLOSED)).
Definition to_epoll (m : Z) : Z :=
  Z.lor (bit (has m EV_READ) EPOLLIN)
    (Z.lor (bit (has m EV_WRITE) EPOLLOUT) (bit (has m EV_CLOSED) EPOLLRDHUP)).

Definition adds (chg : Z) : bool := has chg EV_CHANGE_ADD.
Definition dels (chg : Z) : bool := has chg EV_CHANGE_DEL.

(** The change wants the event afterwards. *)
Definition wants (chg : Z) (old : bool) : bool := adds chg || (old && negb (dels chg)).
Definition wanted (c : event_change) : Z :=
  mask3 (wants (read_change c) (has (old_events c) EV_READ))
        (wants (write_change c) (has (old_events c) EV_WRITE))
        (wants (close_change c) (has (old_events c) EV_CLOSED)).

Definition any_adds (c : event_change) : bool :=
  adds (read_change c) || adds (write_change c) || adds (close_change c).
Definition any_dels (c : event_change) : bool :=
  dels (read_change c) || dels (write_change c) || dels (close_change c).
Definition exclusive (chg : Z) : bool := negb (adds chg && dels chg).
Definition clean_change (c : event_change) : bool :=
  exclusive (read_change c) && exclusive (write_change c) && exclusive (close_change c).

Definition epoll_op_spec (c : event_change) : operation :=
  if negb (clean_change c) then (0, 255)
  else if any_adds c then
    (to_epoll (wanted c),
     if has (old_events c) EV_IO then EPOLL_CTL_MOD else EPOLL_CTL_ADD)
  else if any_dels c then
    if wanted c =? 0
    then (to_epoll (mask3 (dels (read_change c)) (dels (write_change c)) (dels (close_change c))),
          EPOLL_CTL_DEL)
    else (to_epoll (wanted c), EPOLL_CTL_MOD)
  else (0, 0).

(** One change of each kind: what the index and the rule look at is one of
    these. *)
Definition all_changes : list event_change :=
  o ← [0; 2; 4; 6; 128; 130; 132; 134]; w ← [0; 1; 2; 3]; r ← [0; 1; 2; 3]; c ← [0; 1; 2; 3];
  [mkChange 0 o r w c].

Definition row_ok (c : event_change) : bool :=
  (0 <=? EPOLL_OP_TABLE_INDEX c) && (EPOLL_OP_TABLE_INDEX c <? zlen epoll_op_table) &&
  bool_decide (epoll_op_table !! Z.to_nat (EPOLL_OP_TABLE_INDEX c) = Some (epoll_op_spec c)) &&
  (negb (without_close c) || bool_decide (epoll_op_spec c = stored (epoll_op_pseudocode c))).

Lemma all_rows_ok : forallb row_ok all_changes = true.
Proof. vm_compute. reflexivity. Qed.

(** ** Masks *)

Lemma land_bit x n : 0 <= n -> Z.land x (2 ^ n) = bit (has x (2 ^ n)) (2 ^ n).
Proof.
  intros Hn. rewrite has_bit by done. apply Z.bits_inj'. intros m Hm.
  rewrite Z.land_spec, Z.pow2_bits_eqb by done.
  destruct (Z.eqb_spec n m) as [<-|Hne].
  - unfold bit. destruct (Z.testbit x n); simpl; [|by rewrite Z.bits_0].
    by rewrite Z.pow2_bits_true.
  - rewrite andb_false_r. unfold bit.
    case_match; [by rewrite Z.pow2_bits_false|by rewrite Z.bits_0].
Qed.

Lemma land_io x : Z.land x EV_IO = mask3 (has x EV_READ) (has x EV_WRITE) (has x EV_CLOSED).
Proof.
  unfold EV_IO, mask3. rewrite !Z.land_lor_distr_r.
  change EV_READ with (2 ^ 1). change EV_WRITE with (2 ^ 2). change EV_CLOSED with (2 ^ 7).
  by rewrite !land_bit.
Qed.

Lemma has_mask3_read r w c : has (mask3 r w c) EV_READ = r.
Proof. by destruct r, w, c. Qed.
Lemma has_mask3_write r w c : has (mask3 r w c) EV_WRITE = w.
Proof. by destruct r, w, c. Qed.
Lemma has_mask3_closed r w c : has (mask3 r w c) EV_CLOSED = c.
Proof. by destruct r, w, c. Qed.

Lemma has_land x m f : Z.land m f = f -> has (Z.land x m) f = has x f.
Proof. intros H. unfold has. by rewrite <- Z.land_assoc, H. Qed.

Lemma land_land x m f : Z.land m f = f -> Z.land (Z.land x m) f = Z.land x f.
Proof. intros H. by rewrite <- Z.land_assoc, H. Qed.

(** ** Only the bits of a kind matter *)

Definition kind (c : event_change) : event_change :=
  mkChange 0 (Z.land (old_events c) EV_IO) (Z.land (read_change c) EV_CHANGE_ADD_DEL)
    (Z.land (write_change c) EV_CHANGE_ADD_DEL) (Z.land (close_change c) EV_CHANGE_ADD_DEL).

Lemma kind_index c : EPOLL_OP_TABLE_INDEX (kind c) = EPOLL_OP_TABLE_INDEX c.
Proof. unfold EPOLL_OP_TABLE_INDEX, kind. simpl. by rewrite !land_land. Qed.

Lemma kind_wanted c : wanted (kind c) = wanted c.
Proof. unfold wanted, wants, adds, dels, kind. simpl. by rewrite !has_land. Qed.

Lemma kind_spec c : epoll_op_spec (kind c) = epoll_op_spec c.
Proof.
  unfold epoll_op_spec. rewrite kind_wanted.
  unfold clean_change, exclusive, any_adds, any_dels, adds, dels, kind. simpl.
  by rewrite !has_land.
Qed.

Lemma kind_pseudocode c :
  epoll_op_pseudocode (kind c) = epoll_op_pseudocode c /\ without_close (kind c) = without_close c.
Proof.
  unfold epoll_op_pseudocode, without_close, add_and_del, kind. simpl. by rewrite !has_land.
Qed.

Lemma land3_range x : Z.land x EV_CHANGE_ADD_DEL ∈ [0; 1; 2; 3].
Proof.
  change EV_CHANGE_ADD_DEL with (Z.ones 2). rewrite Z.land_ones by done.
  pose proof (Z.mod_pos_bound x (2 ^ 2) eq_refl) as H.
  assert (x mod 2 ^ 2 = 0 \/ x mod 2 ^ 2 = 1 \/ x mod 2 ^ 2 = 2 \/ x mod 2 ^ 2 = 3)
    as [-> | [-> | [-> | ->]]] by lia; set_solver.
Qed.

Lemma land_io_range x : Z.land x EV_IO ∈ [0; 2; 4; 6; 128; 130; 132; 134].
Proof.
  rewrite land_io. destruct (has x EV_READ), (has x EV_WRITE), (has x EV_CLOSED);
    apply list_elem_of_In; compute; tauto.
Qed.

Lemma kind_listed c : kind c ∈ all_changes.
Proof.
  unfold all_changes. repeat (apply list_elem_of_bind; eexists; split; [|apply land3_range || apply land_io_range]).
  by apply list_elem_of_singleton.
Qed.

Lemma row_ok_all c : row_ok c = true.
Proof.
  pose proof all_rows_ok as H. rewrite forallb_forall in H.
  specialize (H (kind c) (proj1 (list_elem_of_In _ _) (kind_listed c))).
  unfold row_ok in *. destruct (kind_pseudocode c) as [H1 H2].
  by rewrite kind_index, kind_spec, H1, H2 in H.
Qed.

Lemma table_row c :
  epoll_op_table !! Z.to_nat (EPOLL_OP_TABLE_INDEX c) = Some (epoll_op_spec c).
Proof.
  pose proof (row_ok_all c) as H. unfold row_ok in H. rewrite !andb_true_iff in H.
  destruct H as [[_ H] _]. by apply bool_decide_eq_true in H.
Qed.

Lemma table_pseudocode c :
  without_close c = true -> epoll_op_spec c = stored (epoll_op_pseudocode c).
Proof.
  intros Hc. pose proof (row_ok_all c) as H. unfold row_ok in H. rewrite !andb_true_iff, Hc in H.
  destruct H as [_ H]. by apply bool_decide_eq_true in H.
Qed.

(** ** The table follows the rule *)

(** C16: Whatever a change holds, the row that [EPOLL_OP_TABLE_INDEX] selects in
    the 512 rows of [epoll_op_table] follows the rule: (0, 255) for a change
    that adds and deletes the same event, no operation for no change, ADD or
    MOD with exactly the events wanted afterwards, DEL when none is.  On the
    rows without the close event, which the header's pseudocode is about, the
    row is the pseudocode's own, with its operation -1 written 255. *)
Theorem epoll_op_table_follows_rule c :
  epoll_op_table !! Z.to_nat (EPOLL_OP_TABLE_INDEX c) = Some (epoll_op_spec c) /\
  (without_close c = true ->
   epoll_op_table !! Z.to_nat (EPOLL_OP_TABLE_INDEX c) = Some (stored (epoll_op_pseudocode c))).
Proof.
  split; [apply table_row|]. intros Hc. by rewrite table_row, table_pseudocode.
Qed.

(** Write is added to a descriptor that waits for read. *)
Lemma epoll_op_table_follows_rule_witness :
  epoll_op_table !! 80%nat = Some (Z.lor EPOLLIN EPOLLOUT, EPOLL_CTL_MOD).
Proof.
  exact (proj2 (epoll_op_table_follows_rule (mkChange 3 EV_READ 0 EV_CHANGE_ADD 0)) eq_refl).
Defined.

(** The index stays inside the table for every value of the fields of a
    change, so [epoll_op_table[idx]] is never read out of range. *)
Theorem epoll_op_index_in_bounds c :
  0 <= EPOLL_OP_TABLE_INDEX c < zlen epoll_op_table.
Proof. pose proof (row_ok_all c) as H. unfold row_ok in H. zb. lia. Qed.
