(* ===== verification/Backend.v ===== *)
(** * The backend interface

    Models what [libevent/event-internal.h] ([struct eventop]) and
    [libevent/evmap.c] ask of a backend: [add] and [del] change the set of
    events a descriptor is watched for, and are told the set it had ([old]).
    [fd_op] is one such call, [mask_step] what it means for the sets, as
    [EventBase.backend_add] and [EventBase.backend_del] write it for the base.

    [Backend] is the class of the two operations, [BackendLaws] the promise
    that a state of the backend represents a family of sets and that each call
    moves it to the sets [mask_step] gives, or reports a failure and keeps
    them.  [Epoll] (with and without changelist), [Poll] and [Select]
    implement it; [run_represents] is what every client gets. *)

From S2P Require Import Prelude MinHeap EventBase Indexed Changelist.

(** ** Calls and their meaning *)

Inductive fd_op :=
| FdAdd (fd events : Z)
| FdDel (fd events : Z).

Definition op_fd (o : fd_op) : Z := match o with FdAdd fd _ | FdDel fd _ => fd end.
Definition op_events (o : fd_op) : Z := match o with FdAdd _ ev | FdDel _ ev => ev end.

(** The set of a descriptor after the call, when the backend watches for the
    events [sup]. *)
Definition mask_step (sup : Z) (m : Z -> Z) (o : fd_op) : Z -> Z := fun fd =>
  match o with
  | FdAdd f ev => if fd =? f then Z.lor (m fd) (Z.land ev sup) else m fd
  | FdDel f ev => if fd =? f then Z.land (m fd) (Z.lnot ev) else m fd
  end.

(** What the callers in [evmap.c] guarantee: a descriptor, and no signal. *)
Definition op_ok (o : fd_op) : Prop :=
  0 <= op_fd o < MAX_FD /\ has (op_events o) EV_SIGNAL = false.

(** ** The class *)

(** [mem] tells whether an allocation made during the call succeeds. *)
Class Backend (S : Type) := be_step : forall (mem : bool) (s : S) (old : Z) (o : fd_op), outcome (Z * S).

Class BackendLaws (S : Type) `{Backend S} (sup : Z) := {
  represents : S -> (Z -> Z) -> Prop;
  be_step_represents : forall mem s m o, represents s m -> op_ok o ->
    returns (be_step mem s (m (op_fd o)) o) (fun '(r, s') =>
      (r = 0 /\ represents s' (mask_step sup m o)) \/ (r = -1 /\ represents s' m))
}.

(** ** Its client: a sequence of calls

    The caller keeps the sets, as the counters of an [evmap_io] do, and leaves
    them when a call fails. *)

Section Run.
Context {S : Type} `{Backend S}.

Fixpoint be_run (sup : Z) (ops : list (bool * fd_op)) (s : S) (m : Z -> Z)
    : outcome (S * (Z -> Z)) :=
  match ops with
  | [] => Done (s, m)
  | (mem, o) :: ops =>
      '(r, s) ← be_step mem s (m (op_fd o)) o;
      be_run sup ops s (if r =? 0 then mask_step sup m o else m)
  end.

Lemma run_represents (sup : Z) `{!BackendLaws S sup} ops s m :
  represents s m -> Forall (fun p => op_ok (snd p)) ops ->
  returns (be_run sup ops s m) (fun '(s', m') => represents s' m').
Proof.
  intros Hr Hops. revert s m Hr. induction Hops as [|[mem o] ops Ho _ IH]; intros s m Hr; cbn [be_run].
  { by apply returns_done. }
  eapply returns_bind; [by apply be_step_represents|].
  intros [r s'] [(-> & Hs)|(-> & Hs)]; by apply IH.
Qed.

End Run.
