(* ===== verification/Epoll.v ===== *)
(** * The epoll backend

    Models [libevent/epoll.c]: the change of one descriptor's registration with
    its retries, the direct operations [epoll_nochangelist_add] and
    [epoll_nochangelist_del], the application of the queued changes, and
    [epoll_dispatch] with its timeout and the growth of its event array.

    The kernel is a parameter: [EpollKernel] has [epoll_ctl] and the
    registrations it changes, [EpollLaws] what epoll_ctl(2) documents of it. *)

From S2P Require Import Prelude MinHeap EventBase Indexed Changelist EpollTable Backend.

(** ** The kernel *)

Definition ENOENT : Z := 2.
Definition EINTR : Z := 4.
Definition EBADF : Z := 9.
Definition EPERM : Z := 1.
Definition EEXIST : Z := 17.

(** [interest k fd] are the events [fd] is registered for; [epoll_ctl] gives
    [None] for success and the value of [errno] for [-1]; [watchable k fd]
    means that the descriptor is open, supports epoll, and can be registered
    (the limits are not reached). *)
Class EpollKernel (K : Type) := {
  interest : K -> Z -> option Z;
  watchable : K -> Z -> Prop;
  epoll_ctl : K -> Z -> Z -> Z -> option Z * K
}.

Class EpollLaws (K : Type) `{EpollKernel K} := {
  ctl_frame : forall k op fd ev g, g <> fd ->
    interest (snd (epoll_ctl k op fd ev)) g = interest k g;
  ctl_watchable : forall k op fd ev g, watchable (snd (epoll_ctl k op fd ev)) g <-> watchable k g;
  ctl_failed : forall k op fd ev err, fst (epoll_ctl k op fd ev) = Some err ->
    interest (snd (epoll_ctl k op fd ev)) fd = interest k fd;
  ctl_add : forall k fd ev, watchable k fd ->
    match interest k fd with
    | None => fst (epoll_ctl k EPOLL_CTL_ADD fd ev) = None /\
              interest (snd (epoll_ctl k EPOLL_CTL_ADD fd ev)) fd = Some ev
    | Some _ => fst (epoll_ctl k EPOLL_CTL_ADD fd ev) = Some EEXIST
    end;
  ctl_mod : forall k fd ev, watchable k fd ->
    match interest k fd with
    | None => fst (epoll_ctl k EPOLL_CTL_MOD fd ev) = Some ENOENT
    | Some _ => fst (epoll_ctl k EPOLL_CTL_MOD fd ev) = None /\
                interest (snd (epoll_ctl k EPOLL_CTL_MOD fd ev)) fd = Some ev
    end;
  ctl_del : forall k fd ev, watchable k fd ->
    match interest k fd with
    | None => fst (epoll_ctl k EPOLL_CTL_DEL fd ev) = Some ENOENT
    | Some _ => fst (epoll_ctl k EPOLL_CTL_DEL fd ev) = None /\
                interest (snd (epoll_ctl k EPOLL_CTL_DEL fd ev)) fd = None
    end
}.

(** ** Operations *)

Section Ops.
Context {K : Type} `{EpollKernel K}.

(** The second call of [epoll_ctl], and the return value it decides. *)
Definition epoll_retry (k : K) (op fd events : Z) : Z * K :=
  let '(r, k) := epoll_ctl k op fd events in
  (match r with None => 0 | Some _ => -1 end, k).

Definition epoll_apply_one_change (k : K) (ch : event_change) : outcome (Z * K) :=
  '(events, op) ← deref (epoll_op_table !! Z.to_nat (EPOLL_OP_TABLE_INDEX ch));
  if events =? 0 then _ ← assert_c (op =? 0); Done (0, k) else
  let events := if has (Z.lor (read_change ch) (write_change ch)) EV_CHANGE_ET
                then Z.lor events EPOLLET else events in
  match epoll_ctl k op (ch_fd ch) events with
  | (None, k) => Done (0, k)
  | (Some errno, k) =>
      if (op =? EPOLL_CTL_MOD) && (errno =? ENOENT) then
        Done (epoll_retry k EPOLL_CTL_ADD (ch_fd ch) events)
      else if (op =? EPOLL_CTL_ADD) && (errno =? EEXIST) then
        Done (epoll_retry k EPOLL_CTL_MOD (ch_fd ch) events)
      else if (op =? EPOLL_CTL_DEL) &&
              ((errno =? ENOENT) || (errno =? EBADF) || (errno =? EPERM)) then Done (0, k)
      else Done (-1, k)
  end.

(** The loop over the queued changes; [r] is the result so far. *)
Fixpoint apply_loop (l : list event_change) (r : Z) (k : K) : outcome (Z * K) :=
  match l with
  | [] => Done (r, k)
  | ch :: l =>
      '(res, k) ← epoll_apply_one_change k ch;
      apply_loop l (if res <? 0 then -1 else r) k
  end.

Definition epoll_apply_changes (cl : event_changelist) (k : K) : outcome (Z * K) :=
  apply_loop (changes cl) 0 k.

Definition add_change (fd old events : Z) : event_change :=
  let chg := Z.lor EV_CHANGE_ADD (Z.land events EV_ET) in
  let ch := mkChange fd old 0 0 0 in
  let ch := if has events EV_WRITE then set_write_change ch chg else ch in
  let ch := if has events EV_READ then set_read_change ch chg else ch in
  if has events EV_CLOSED then set_close_change ch chg else ch.

Definition del_change (fd old events : Z) : event_change :=
  let ch := mkChange fd old 0 0 0 in
  let ch := if has events EV_WRITE then set_write_change ch EV_CHANGE_DEL else ch in
  let ch := if has events EV_READ then set_read_change ch EV_CHANGE_DEL else ch in
  if has events EV_CLOSED then set_close_change ch EV_CHANGE_DEL else ch.

Definition epoll_nochangelist_add (k : K) (fd old events : Z) : outcome (Z * K) :=
  epoll_apply_one_change k (add_change fd old events).

Definition epoll_nochangelist_del (k : K) (fd old events : Z) : outcome (Z * K) :=
  epoll_apply_one_change k (del_change fd old events).

End Ops.

(** ** What a change asks for *)

(** The registration [o] watches exactly for the events of [m]; edge or level
    triggering is left open. *)
Definition watches (o : option Z) (m : Z) : Prop :=
  match o with
  | None => Z.land m EV_IO = 0
  | Some e => Z.land m EV_IO <> 0 /\ Z.land e (Z.lnot EPOLLET) = to_epoll m
  end.

Definition effective (c : event_change) : bool := any_adds c || any_dels c.

Lemma wanted_mask c : exists r w x, wanted c = mask3 r w x.
Proof. unfold wanted. eauto. Qed.

Lemma to_epoll_0 m : to_epoll m = 0 -> Z.land m EV_IO = 0.
Proof.
  rewrite land_io. unfold to_epoll.
  by destruct (has m EV_READ), (has m EV_WRITE), (has m EV_CLOSED).
Qed.

Lemma to_epoll_io m : to_epoll (Z.land m EV_IO) = to_epoll m.
Proof.
  unfold to_epoll. rewrite (has_land m EV_IO EV_READ), (has_land m EV_IO EV_WRITE) by done.
  by rewrite (has_land m EV_IO EV_CLOSED).
Qed.

Lemma watches_set c ev :
  wanted c <> 0 -> ev = to_epoll (wanted c) \/ ev = Z.lor (to_epoll (wanted c)) EPOLLET ->
  watches (Some ev) (wanted c).
Proof.
  destruct (wanted_mask c) as (r & w & x & ->). intros Hne Hev.
  destruct r, w, x; try done; destruct Hev as [-> | ->]; done.
Qed.

Lemma adds_wanted c : any_adds c = true -> wanted c <> 0.
Proof.
  unfold any_adds, wanted, wants. intros H.
  destruct (adds (read_change c)), (adds (write_change c)), (adds (close_change c)); try done; simpl;
    repeat match goal with |- context [?a && negb ?b] => destruct (a && negb b) end; done.
Qed.

(** The rule, as one case per operation. *)
Inductive op_case (c : event_change) : operation -> Prop :=
| CaseNone : effective c = false -> op_case c (0, 0)
| CaseSet op : effective c = true -> wanted c <> 0 -> to_epoll (wanted c) <> 0 ->
    op = EPOLL_CTL_ADD \/ op = EPOLL_CTL_MOD -> op_case c (to_epoll (wanted c), op)
| CaseDel ev : effective c = true -> wanted c = 0 -> ev <> 0 -> op_case c (ev, EPOLL_CTL_DEL).

Lemma wanted_to_epoll c : wanted c <> 0 -> to_epoll (wanted c) <> 0.
Proof. destruct (wanted_mask c) as (r & w & x & ->). by destruct r, w, x. Qed.

Lemma spec_cases c : clean_change c = true -> op_case c (epoll_op_spec c).
Proof.
  intros Hc. unfold epoll_op_spec. rewrite Hc. simpl.
  destruct (any_adds c) eqn:Ea; [|destruct (any_dels c) eqn:Ed].
  - pose proof (adds_wanted _ Ea) as Hw. constructor; auto using wanted_to_epoll.
    + unfold effective. by rewrite Ea.
    + case_test; auto.
  - assert (effective c = true) as He by (unfold effective; by rewrite Ea, Ed).
    case_test; zb.
    + constructor; [done|done|]. unfold any_dels in Ed.
      by destruct (dels (read_change c)), (dels (write_change c)), (dels (close_change c)).
    + constructor; auto using wanted_to_epoll.
  - constructor. unfold effective. by rewrite Ea, Ed.
Qed.

(** ** The changes the operations build *)

Lemma has_u8 z f : Z.land 255 f = f -> has (u8 z) f = has z f.
Proof.
  intros Hf. unfold u8. change (2 ^ 8) with (2 ^ 8). rewrite <- Z.land_ones by done.
  by apply (has_land z 255 f).
Qed.

Lemma has_land_0 x m f : Z.land m f = 0 -> has (Z.land x m) f = false.
Proof. intros H. unfold has. by rewrite <- Z.land_assoc, H, Z.land_0_r. Qed.

(** [EV_CHANGE_ADD] with some of the flags. *)
Definition add_flags (v : Z) : Prop := adds v = true /\ dels v = false.

Lemma add_flags_u8 ev m :
  Z.land m EV_CHANGE_DEL = 0 -> add_flags (u8 (Z.lor EV_CHANGE_ADD (Z.land ev m))).
Proof.
  intros Hm. unfold add_flags, adds, dels. rewrite !has_u8, !has_lor_l by done.
  by rewrite (has_land_0 _ _ _ Hm).
Qed.

(** One of the three events of a change, set to [EV_CHANGE_ADD] when [b]. *)
Lemma wants_add (b : bool) v chg old :
  add_flags v -> wants (if b then v else chg) old = wants chg old || b.
Proof.
  intros [Ha Hd]. destruct b; [|by rewrite orb_false_r].
  unfold wants. rewrite Ha. by rewrite orb_true_r.
Qed.

Lemma exclusive_add (b : bool) v chg :
  add_flags v -> exclusive chg = true -> exclusive (if b then v else chg) = true.
Proof. intros [Ha Hd] He. destruct b; [|done]. unfold exclusive. by rewrite Ha, Hd. Qed.

Definition del_flag (old : bool) : Z := if negb old then 0 else EV_CHANGE_DEL.

Lemma wants_del (b old : bool) chg :
  wants (if b then del_flag old else chg) old = wants chg old && negb b.
Proof. destruct b; [|by rewrite andb_true_r]. rewrite andb_false_r. by destruct old. Qed.

Lemma exclusive_del (b old : bool) chg :
  exclusive chg = true -> exclusive (if b then del_flag old else chg) = true.
Proof. intros He. destruct b; [|done]. by destruct old. Qed.

Lemma land_mask3 r w x : Z.land (mask3 r w x) EV_IO = mask3 r w x.
Proof. by destruct r, w, x. Qed.

Lemma io_lor m ev :
  Z.land (Z.lor m (Z.land ev EV_IO)) EV_IO =
  mask3 (has m EV_READ || has ev EV_READ) (has m EV_WRITE || has ev EV_WRITE)
        (has m EV_CLOSED || has ev EV_CLOSED).
Proof. by rewrite land_io, !has_lor_l, !has_land. Qed.

Lemma io_clear m ev :
  Z.land (Z.land m (Z.lnot ev)) EV_IO =
  mask3 (has m EV_READ && negb (has ev EV_READ)) (has m EV_WRITE && negb (has ev EV_WRITE))
        (has m EV_CLOSED && negb (has ev EV_CLOSED)).
Proof.
  rewrite land_io. change EV_READ with (2 ^ 1). change EV_WRITE with (2 ^ 2).
  change EV_CLOSED with (2 ^ 7). by rewrite !has_clear.
Qed.

Lemma io_bits m m' :
  Z.land m EV_IO = Z.land m' EV_IO ->
  has m EV_READ = has m' EV_READ /\ has m EV_WRITE = has m' EV_WRITE /\
  has m EV_CLOSED = has m' EV_CLOSED.
Proof.
  intros H. repeat split; rewrite <- (has_land m EV_IO), <- (has_land m' EV_IO), H by done; done.
Qed.

Lemma watches_ext o m m' : Z.land m EV_IO = Z.land m' EV_IO -> watches o m -> watches o m'.
Proof.
  intros H. unfold watches, to_epoll. destruct (io_bits _ _ H) as (-> & -> & ->). by rewrite H.
Qed.

Lemma idle_wanted c : effective c = false -> wanted c = Z.land (old_events c) EV_IO.
Proof.
  unfold effective, any_adds, any_dels, wanted, wants. intros H. zb.
  rewrite land_io. destruct_and?. repeat (match goal with
    | H : adds _ = false |- _ => rewrite H
    | H : dels _ = false |- _ => rewrite H end). simpl. by rewrite !andb_true_r.
Qed.

(** What a change built on [old] by a call is: exclusive, not for a signal,
    and wanting the events the call leaves. *)
Definition change_for (c : event_change) (fd old m : Z) : Prop :=
  ch_fd c = fd /\ old_events c = old /\ clean_change c = true /\
  has (read_change c) EV_CHANGE_SIGNAL = false /\ wanted c = Z.land m EV_IO.

Lemma change_add_fields ev c :
  has ev EV_SIGNAL = false ->
  change_add ev c = mkChange (ch_fd c) (old_events c)
    (if has ev EV_READ then u8 (change_flags ev) else read_change c)
    (if has ev EV_WRITE then u8 (change_flags ev) else write_change c)
    (if has ev EV_CLOSED then u8 (change_flags ev) else close_change c).
Proof.
  intros Hs. unfold change_add. rewrite has_lor_r, Hs, orb_false_r.
  destruct c. by destruct (has ev EV_READ), (has ev EV_WRITE), (has ev EV_CLOSED).
Qed.

Lemma change_del_fields ev c :
  has ev EV_SIGNAL = false -> has (old_events c) EV_SIGNAL = false ->
  change_del ev c = mkChange (ch_fd c) (old_events c)
    (if has ev EV_READ then del_flag (has (old_events c) EV_READ) else read_change c)
    (if has ev EV_WRITE then del_flag (has (old_events c) EV_WRITE) else write_change c)
    (if has ev EV_CLOSED then del_flag (has (old_events c) EV_CLOSED) else close_change c).
Proof.
  intros Hs Ho. unfold change_del. rewrite has_lor_r, Hs, orb_false_r. destruct c as [fd old rc wc cc].
  simpl in *. destruct (has ev EV_READ), (has ev EV_WRITE), (has ev EV_CLOSED);
    unfold set_read_change, set_write_change, set_close_change, del_flag; simpl;
    rewrite ?has_lor_r, ?Ho, ?orb_false_r;
    by destruct (has old EV_READ), (has old EV_WRITE), (has old EV_CLOSED).
Qed.

Lemma change_for_adds ev v c fd old m :
  add_flags v -> has v EV_CHANGE_SIGNAL = false -> change_for c fd old m ->
  change_for (mkChange (ch_fd c) (old_events c)
    (if has ev EV_READ then v else read_change c) (if has ev EV_WRITE then v else write_change c)
    (if has ev EV_CLOSED then v else close_change c)) fd old (Z.lor m (Z.land ev EV_IO)).
Proof.
  intros Hv Hvs (Hf & Ho & Hc & Hs & Hw). unfold change_for, clean_change, wanted in *. simpl.
  apply andb_true_iff in Hc as [Hc Hx]. apply andb_true_iff in Hc as [Hr Hwr].
  split; [done|]. split; [done|]. split; [by rewrite !exclusive_add|].
  split; [by destruct (has ev EV_READ)|].
  rewrite !wants_add by done. rewrite io_lor. rewrite <- !(has_land m EV_IO) by done.
  rewrite <- Hw. by rewrite has_mask3_read, has_mask3_write, has_mask3_closed.
Qed.

Lemma change_add_for ev c fd old m :
  has ev EV_SIGNAL = false -> change_for c fd old m ->
  change_for (change_add ev c) fd old (Z.lor m (Z.land ev EV_IO)).
Proof.
  intros Hs Hc. rewrite change_add_fields by done. apply change_for_adds; [| |done].
  - by apply add_flags_u8.
  - unfold change_flags. rewrite has_u8, has_lor_l by done. simpl.
    rewrite !Z.land_lor_distr_r, !has_lor_l. rewrite !has_land_0 by done. simpl.
    by rewrite has_land.
Qed.

Lemma change_del_for ev c fd old m :
  has ev EV_SIGNAL = false -> has old EV_SIGNAL = false -> change_for c fd old m ->
  change_for (change_del ev c) fd old (Z.land m (Z.lnot ev)).
Proof.
  intros Hs Ho (Hf & Hol & Hc & Hsg & Hw). subst old.
  rewrite change_del_fields by done. unfold change_for, clean_change, wanted in *. simpl.
  apply andb_true_iff in Hc as [Hc Hx]. apply andb_true_iff in Hc as [Hr Hwr].
  split; [done|]. split; [done|]. split; [by rewrite !exclusive_del|].
  split; [by destruct (has ev EV_READ), (has (old_events c) EV_READ)|].
  rewrite !wants_del. rewrite io_clear. rewrite <- !(has_land m EV_IO) by done.
  rewrite <- Hw. by rewrite has_mask3_read, has_mask3_write, has_mask3_closed.
Qed.

Lemma fresh_change_for fd old : change_for (mkChange fd old 0 0 0) fd old old.
Proof.
  split; [done|]. split; [done|]. split; [done|]. split; [done|].
  unfold wanted, wants. simpl. by rewrite !andb_true_r, <- land_io.
Qed.

Lemma add_change_for fd old ev :
  change_for (add_change fd old ev) fd old (Z.lor old (Z.land ev EV_IO)).
Proof.
  set (v := u8 (Z.lor EV_CHANGE_ADD (Z.land ev EV_ET))).
  assert (add_change fd old ev = mkChange fd old (if has ev EV_READ then v else 0)
    (if has ev EV_WRITE then v else 0) (if has ev EV_CLOSED then v else 0)) as ->.
  { unfold add_change. by destruct (has ev EV_READ), (has ev EV_WRITE), (has ev EV_CLOSED). }
  apply (change_for_adds ev v (mkChange fd old 0 0 0)); [by apply add_flags_u8| |apply fresh_change_for].
  unfold v. rewrite has_u8, has_lor_l by done. simpl. by rewrite has_land_0.
Qed.

(** [del_change] also asks for events the descriptor does not have to be
    deleted: that changes nothing in what is wanted. *)
Lemma del_change_for fd old ev :
  change_for (del_change fd old ev) fd old (Z.land old (Z.lnot ev)).
Proof.
  unfold change_for. rewrite io_clear. unfold del_change, wanted, wants.
  destruct (has ev EV_READ), (has ev EV_WRITE), (has ev EV_CLOSED); simpl;
    by rewrite ?andb_false_r, ?andb_true_r.
Qed.

Section Correct.
Context {K : Type} `{EpollLaws K}.

(** [k'] is [k] with the registration of [fd] changed. *)
Definition only_fd (fd : Z) (k k' : K) : Prop :=
  (forall g, g <> fd -> interest k' g = interest k g) /\ (forall g, watchable k' g <-> watchable k g).

Lemma only_fd_ctl k op fd ev : only_fd fd k (snd (epoll_ctl k op fd ev)).
Proof. split; intros g; [apply ctl_frame|apply ctl_watchable]. Qed.

Lemma only_fd_refl fd k : only_fd fd k k.
Proof. done. Qed.

Lemma only_fd_trans fd k1 k2 k3 : only_fd fd k1 k2 -> only_fd fd k2 k3 -> only_fd fd k1 k3.
Proof. intros [H1 H2] [H3 H4]. split; intros g; [intros Hg; rewrite H3; auto|rewrite H4; auto]. Qed.

(** What a change that ended with [r] in [k'] has done. *)
Definition applied (c : event_change) (k : K) (r : Z) (k' : K) : Prop :=
  only_fd (ch_fd c) k k' /\ (r = 0 \/ r = -1) /\
  (watchable k (ch_fd c) -> r = 0 /\
   if effective c then watches (interest k' (ch_fd c)) (wanted c)
   else interest k' (ch_fd c) = interest k (ch_fd c)).

(** The call that fits a registration, and the error of the one that does not. *)
Definition fits (op : Z) (o : option Z) : Prop :=
  op = EPOLL_CTL_ADD /\ o = None \/ op = EPOLL_CTL_MOD /\ o <> None.

Lemma ctl_fits k op fd ev :
  watchable k fd -> fits op (interest k fd) ->
  fst (epoll_ctl k op fd ev) = None /\ interest (snd (epoll_ctl k op fd ev)) fd = Some ev.
Proof.
  intros Hw [(-> & Ho)|(-> & Ho)].
  - pose proof (ctl_add k fd ev Hw) as Ha. by rewrite Ho in Ha.
  - pose proof (ctl_mod k fd ev Hw) as Hm. by destruct (interest k fd).
Qed.

Lemma ctl_misfit k op fd ev err :
  watchable k fd -> fst (epoll_ctl k op fd ev) = Some err ->
  op = EPOLL_CTL_ADD /\ err = EEXIST /\ fits EPOLL_CTL_MOD (interest k fd) \/
  op = EPOLL_CTL_MOD /\ err = ENOENT /\ fits EPOLL_CTL_ADD (interest k fd) \/
  op <> EPOLL_CTL_ADD /\ op <> EPOLL_CTL_MOD.
Proof.
  intros Hw He. pose proof (ctl_add k fd ev Hw) as Ha. pose proof (ctl_mod k fd ev Hw) as Hm.
  destruct (decide (op = EPOLL_CTL_ADD)) as [->|]; [|destruct (decide (op = EPOLL_CTL_MOD)) as [->|]; [|auto]].
  - left. unfold fits. destruct (interest k fd); [|by destruct Ha; congruence]. naive_solver.
  - right. left. unfold fits. destruct (interest k fd); [by destruct Hm; congruence|]. naive_solver.
Qed.

(** [EPOLL_CTL_ADD] or [EPOLL_CTL_MOD] of [ev], retried as the other. *)
Definition lands (fd ev : Z) (k : K) (r : Z) (k' : K) : Prop :=
  only_fd fd k k' /\ (r = 0 \/ r = -1) /\ (watchable k fd -> r = 0 /\ interest k' fd = Some ev).

Lemma retry_lands k k1 op fd ev :
  only_fd fd k k1 -> interest k1 fd = interest k fd ->
  (watchable k fd -> fits op (interest k fd)) ->
  lands fd ev k (fst (epoll_retry k1 op fd ev)) (snd (epoll_retry k1 op fd ev)).
Proof.
  intros Hf Hi Hfit. unfold epoll_retry. pose proof (only_fd_ctl k1 op fd ev) as Hf2.
  pose proof (ctl_fits k1 op fd ev) as Hc. rewrite Hi in Hc.
  destruct (epoll_ctl k1 op fd ev) as [o k2]. simpl in *.
  split; [by eapply only_fd_trans|]. split; [destruct o; auto|]. intros Hw.
  destruct Hc as [-> ->]; [by apply (proj2 Hf)|auto|done].
Qed.

Lemma set_lands k fd ev op :
  op = EPOLL_CTL_ADD \/ op = EPOLL_CTL_MOD ->
  returns (match epoll_ctl k op fd ev with
    | (None, k) => Done (0, k)
    | (Some errno, k) =>
      if (op =? EPOLL_CTL_MOD) && (errno =? ENOENT) then Done (epoll_retry k EPOLL_CTL_ADD fd ev)
      else if (op =? EPOLL_CTL_ADD) && (errno =? EEXIST) then Done (epoll_retry k EPOLL_CTL_MOD fd ev)
      else if (op =? EPOLL_CTL_DEL) &&
              ((errno =? ENOENT) || (errno =? EBADF) || (errno =? EPERM)) then Done (0, k)
      else Done (-1, k)
    end) (fun '(r, k') => lands fd ev k r k').
Proof.
  intros Hop. pose proof (only_fd_ctl k op fd ev) as Hf. pose proof (ctl_failed k op fd ev) as Hfail.
  pose proof (ctl_misfit k op fd ev) as Hmis. pose proof (ctl_fits k op fd ev) as Hfit.
  destruct (epoll_ctl k op fd ev) as [[errno|] k1] eqn:E1; simpl in *.
  - specialize (Hfail errno eq_refl). specialize (fun Hw => Hmis errno Hw eq_refl).
    assert (watchable k fd -> (op =? EPOLL_CTL_MOD) && (errno =? ENOENT) = false ->
            (op =? EPOLL_CTL_ADD) && (errno =? EEXIST) = false -> False) as Hno.
    { intros Hw%Hmis H1 H2. destruct Hw as [(-> & -> & _)|[(-> & -> & _)|[]]]; [done|done|tauto]. }
    case_test; [|case_test; [|case_test]]; zb; subst.
    + eexists. split; [done|]. rewrite (surjective_pairing (epoll_retry _ _ _ _)).
      apply retry_lands; [done|done|]. intros Hw%Hmis. destruct Hw as [(? & _)|[(_ & _ & ?)|[]]]; done.
    + eexists. split; [done|]. rewrite (surjective_pairing (epoll_retry _ _ _ _)).
      apply retry_lands; [done|done|]. intros Hw%Hmis. destruct Hw as [(_ & _ & ?)|[(? & _)|[]]]; done.
    + destruct Hop as [Ho | Ho]; discriminate Ho.
    + apply returns_done. split; [done|]. split; [auto|]. intros Hw. by destruct Hno.
  - apply returns_done. split; [done|]. split; [auto|]. intros Hw. split; [done|].
    pose proof (ctl_add k fd ev Hw) as Ha. pose proof (ctl_mod k fd ev Hw) as Hm.
    assert (fits op (interest k fd)) as Hft; [|by apply (Hfit Hw Hft)].
    unfold fits. destruct Hop as [-> | ->]; rewrite E1 in *; destruct (interest k fd); naive_solver.
Qed.

Lemma del_applied c k ev :
  effective c = true -> wanted c = 0 ->
  returns (match epoll_ctl k EPOLL_CTL_DEL (ch_fd c) ev with
    | (None, k) => Done (0, k)
    | (Some errno, k) =>
      if (EPOLL_CTL_DEL =? EPOLL_CTL_MOD) && (errno =? ENOENT)
      then Done (epoll_retry k EPOLL_CTL_ADD (ch_fd c) ev)
      else if (EPOLL_CTL_DEL =? EPOLL_CTL_ADD) && (errno =? EEXIST)
      then Done (epoll_retry k EPOLL_CTL_MOD (ch_fd c) ev)
      else if (EPOLL_CTL_DEL =? EPOLL_CTL_DEL) &&
              ((errno =? ENOENT) || (errno =? EBADF) || (errno =? EPERM)) then Done (0, k)
      else Done (-1, k)
    end) (fun '(r, k') => applied c k r k').
Proof.
  intros He Hw0. pose proof (only_fd_ctl k EPOLL_CTL_DEL (ch_fd c) ev) as Hf.
  pose proof (ctl_failed k EPOLL_CTL_DEL (ch_fd c) ev) as Hfail.
  pose proof (ctl_del k (ch_fd c) ev) as Hdel.
  destruct (epoll_ctl k EPOLL_CTL_DEL (ch_fd c) ev) as [[errno|] k1]; simpl in *.
  - case_test; apply returns_done; (split; [done|]); (split; [auto|]); intros Hw;
      specialize (Hdel Hw); rewrite He, Hw0; rewrite (Hfail errno eq_refl);
      destruct (interest k (ch_fd c)); try done; try (by destruct Hdel).
    injection Hdel as ->. discriminate.
  - apply returns_done. split; [done|]. split; [auto|]. intros Hw. rewrite He, Hw0.
    specialize (Hdel Hw). destruct (interest k (ch_fd c)); [|done]. by destruct Hdel as [_ ->].
Qed.

Lemma apply_one_spec k c :
  clean_change c = true ->
  returns (epoll_apply_one_change k c) (fun '(r, k') => applied c k r k').
Proof.
  intros Hc. unfold epoll_apply_one_change. rewrite table_row. cbn [deref mbind outcome_bind].
  destruct (spec_cases c Hc) as [He|op He Hw Hne Hop|ev He Hw Hne].
  - simpl. apply returns_done. split; [apply only_fd_refl|]. split; [auto|]. by rewrite He.
  - rewrite (proj2 (Z.eqb_neq _ _) Hne). cbv zeta.
    eapply returns_mono; [by apply set_lands|].
    intros [r k'] (Hf & Hr & Hl). split; [done|]. split; [done|]. intros Hwt.
    destruct (Hl Hwt) as [-> ->]. rewrite He. split; [done|]. apply watches_set; [done|].
    case_test; auto.
  - rewrite (proj2 (Z.eqb_neq _ _) Hne). by apply del_applied.
Qed.

End Correct.

(** ** The direct operations as a backend *)

Section Direct.
Context {K : Type} `{EpollLaws K}.

#[local] Instance epoll_backend : Backend K := fun mem k old o =>
  match o with
  | FdAdd fd ev => epoll_nochangelist_add k fd old ev
  | FdDel fd ev => epoll_nochangelist_del k fd old ev
  end.

Definition kernel_watches (k : K) (m : Z -> Z) : Prop :=
  forall fd, watchable k fd -> watches (interest k fd) (m fd).

(** A change applied at once. *)
Lemma apply_direct k m c fd m' :
  kernel_watches k m -> change_for c fd (m fd) (m' fd) -> (forall g, g <> fd -> m' g = m g) ->
  returns (epoll_apply_one_change k c) (fun '(r, k') =>
    ((r = 0 /\ kernel_watches k' m') \/ (r = -1 /\ kernel_watches k' m)) /\
    (forall g, watchable k' g <-> watchable k g) /\ (watchable k fd -> r = 0)).
Proof.
  intros Hk (Hf & Ho & Hc & _ & Hw) Hm'. eapply returns_mono; [by apply apply_one_spec|].
  intros [r k'] ((Hi & Hwt) & Hr & Ha). rewrite Hf in *.
  assert (forall g, g <> fd -> watchable k' g -> watches (interest k' g) (m g)) as Hother.
  { intros g Hg Hgw. rewrite Hi by done. by apply Hk, Hwt. }
  split; [|split; [done|naive_solver]]. destruct Hr as [-> | ->].
  - left. split; [done|]. intros g Hg%Hwt. destruct (decide (g = fd)) as [->|Hne].
    + destruct (Ha Hg) as [_ Hx]. destruct (effective c) eqn:He.
      * eapply watches_ext; [|done]. rewrite Hw. by rewrite <- Z.land_assoc.
      * rewrite Hx. eapply watches_ext; [|by apply Hk].
        rewrite <- Hw, (idle_wanted _ He). by rewrite Ho.
    + rewrite Hm' by done. by apply Hother, Hwt.
  - right. split; [done|]. intros g Hg. destruct (decide (g = fd)) as [->|Hne]; [|by apply Hother].
    by apply Hwt, Ha in Hg as [? _].
Qed.

Lemma direct_step mem k m o :
  kernel_watches k m ->
  returns (be_step mem k (m (op_fd o)) o) (fun '(r, k') =>
    ((r = 0 /\ kernel_watches k' (mask_step EV_IO m o)) \/ (r = -1 /\ kernel_watches k' m)) /\
    (forall g, watchable k' g <-> watchable k g) /\ (watchable k (op_fd o) -> r = 0)).
Proof.
  intros Hk. destruct o as [fd ev|fd ev]; simpl; apply (apply_direct k m _ fd); try done;
    unfold mask_step; rewrite ?Z.eqb_refl; auto using add_change_for, del_change_for;
    intros g Hg; by rewrite (proj2 (Z.eqb_neq g fd) Hg).
Qed.

#[local] Program Instance epoll_backend_laws : BackendLaws K EV_IO := {
  represents := kernel_watches
}.
Next Obligation.
  intros mem k m o Hk _. eapply returns_mono; [by apply direct_step|]. by intros [r k'] [Hr _].
Qed.

End Direct.

(** ** The changelist as a backend *)

Section Queued.
Context {K : Type} `{EpollLaws K}.

#[local] Instance epoll_changelist_backend : Backend (event_changelist * K) := fun mem s old o =>
  let '(cl, k) := s in
  '(r, cl) ← match o with
             | FdAdd fd ev => event_changelist_add_ mem cl fd old ev (false, fd)
             | FdDel fd ev => event_changelist_del_ mem cl fd old ev (false, fd)
             end;
  Done (r, (cl, k)).

(** What the kernel does not know yet is in the list: the entry of a
    descriptor starts from the set the kernel watches for and wants the set the
    calls have left. *)
Definition queue_watches (s : event_changelist * K) (m : Z -> Z) : Prop :=
  changelist_ok (fst s) /\ (forall fd, has (m fd) EV_SIGNAL = false) /\
  forall fd, match change_of (fst s) fd with
    | None => watchable (snd s) fd -> watches (interest (snd s) fd) (m fd)
    | Some c => change_for c fd (old_events c) (m fd) /\ has (old_events c) EV_SIGNAL = false /\
                (watchable (snd s) fd -> watches (interest (snd s) fd) (old_events c))
    end.

Lemma mask_step_signal m o :
  (forall fd, has (m fd) EV_SIGNAL = false) -> forall fd, has (mask_step EV_IO m o fd) EV_SIGNAL = false.
Proof.
  intros Hm fd. destruct o as [f ev|f ev]; simpl; case_test; auto.
  - rewrite has_lor_l, Hm. by apply has_land_0.
  - change EV_SIGNAL with (2 ^ 3). rewrite has_clear by done. by rewrite (Hm fd : has _ (2 ^ 3) = _).
Qed.

(** The entry found or made for a call is one for the current set. *)
Lemma entry_for s m fd :
  queue_watches s m ->
  let c := default (mkChange fd (m fd) 0 0 0) (change_of (fst s) fd) in
  change_for c fd (old_events c) (m fd) /\ has (old_events c) EV_SIGNAL = false /\
  (watchable (snd s) fd -> watches (interest (snd s) fd) (old_events c)).
Proof.
  intros (Hok & Hsg & Hq). specialize (Hq fd). destruct (change_of (fst s) fd) as [c|]; simpl; [done|].
  split; [apply fresh_change_for|auto].
Qed.

Lemma queue_update cl k m fd mem f m' :
  queue_watches (cl, k) m -> 0 <= fd < MAX_FD ->
  (forall c, change_for c fd (old_events c) (m fd) -> has (old_events c) EV_SIGNAL = false ->
     change_for (f c) fd (old_events c) (m' fd)) ->
  (forall g, g <> fd -> m' g = m g) -> (forall g, has (m' g) EV_SIGNAL = false) ->
  returns ('(o, cl) ← event_changelist_get_or_construct mem cl fd (m fd) (false, fd);
           match o with None => Done (-1, cl) | Some idx => Done (0, upd_change cl idx f) end)
    (fun '(r, cl') => (r = 0 /\ queue_watches (cl', k) m') \/
                      (r = -1 /\ mem = false /\ queue_watches (cl', k) m)).
Proof.
  intros Hq Hfd Hf Hm' Hsg. eapply returns_bind.
  { apply (get_or_construct_spec mem cl fd (m fd)); [apply Hq|done]. }
  intros [[idx|] cl1] Hc; simpl in Hc; apply returns_done.
  2:{ right. destruct Hc as [-> ->]. auto. }
  left. split; [done|]. destruct Hc as (Hok1 & Hi & Hidx & Hce & Hco).
  destruct (entry_for _ _ fd Hq) as (Hcf & Hos & Hkw). simpl in *.
  set (c := default _ _) in *. pose proof (Hf c Hcf Hos) as Hfc.
  destruct (upd_change_ok cl1 fd idx c f Hok1 Hi Hidx Hce) as (Hok2 & He2 & Ho2);
    [apply Hfc|apply Hfc|].
  split; [done|]. split; [done|]. intros g. simpl. destruct (decide (g = fd)) as [->|Hne].
  - rewrite He2. replace (old_events (f c)) with (old_events c) by (symmetry; apply Hfc). auto.
  - rewrite Ho2, Hco by done. destruct Hq as (_ & _ & Hq). specialize (Hq g). simpl in Hq.
    destruct (change_of cl g); by rewrite Hm'.
Qed.

Lemma queued_step mem s m o :
  queue_watches s m -> op_ok o ->
  returns (be_step mem s (m (op_fd o)) o) (fun '(r, s') =>
    ((r = 0 /\ queue_watches s' (mask_step EV_IO m o)) \/ (r = -1 /\ mem = false /\ queue_watches s' m)) /\
    snd s' = snd s).
Proof.
  destruct s as [cl k]. intros Hq [Hfd Hev]. unfold be_step, epoll_changelist_backend.
  apply (returns_bind _ _ (fun '(r, cl') =>
    (r = 0 /\ queue_watches (cl', k) (mask_step EV_IO m o)) \/
    (r = -1 /\ mem = false /\ queue_watches (cl', k) m))).
  2:{ intros [r cl'] Hr. by apply returns_done. }
  pose proof (mask_step_signal m o (proj1 (proj2 Hq))) as Hsg.
  destruct o as [fd ev|fd ev]; simpl in Hfd, Hev |- *; apply queue_update; try done; unfold mask_step;
    rewrite ?Z.eqb_refl; auto using change_add_for, change_del_for;
    intros g Hg; by rewrite (proj2 (Z.eqb_neq g fd) Hg).
Qed.

#[local] Program Instance epoll_changelist_laws : BackendLaws (event_changelist * K) EV_IO := {
  represents := queue_watches
}.
Next Obligation.
  intros mem s m o Hs Ho. eapply returns_mono; [by apply queued_step|]. intros [r s']. tauto.
Qed.

(** The changes of the list reach the kernel: those of descriptors it can watch
    are all made, whatever happens to the others. *)
Lemma apply_loop_spec l r k :
  NoDup (ch_fd <$> l) -> Forall (fun c => clean_change c = true) l -> r = 0 \/ r = -1 ->
  returns (apply_loop l r k) (fun '(r', k') =>
    (r' = 0 \/ r' = -1) /\ (forall fd, watchable k' fd <-> watchable k fd) /\
    (forall fd, fd ∉ ch_fd <$> l -> interest k' fd = interest k fd) /\
    Forall (fun c => watchable k (ch_fd c) ->
      if effective c then watches (interest k' (ch_fd c)) (wanted c)
      else interest k' (ch_fd c) = interest k (ch_fd c)) l /\
    (Forall (fun c => watchable k (ch_fd c)) l -> r' = r)).
Proof.
  intros Hnd Hc. revert r k Hnd. induction Hc as [|c l Hc _ IH]; intros r k Hnd Hr; cbn [apply_loop].
  { by apply returns_done. }
  rewrite fmap_cons in Hnd. apply NoDup_cons in Hnd as [Hnin Hnd].
  eapply returns_bind; [by apply apply_one_spec|]. intros [res k1] ((Hi & Hw) & Hres & Ha).
  eapply returns_mono; [apply IH; [done|]; case_test; auto|].
  intros [r' k'] (Hr' & Hw' & Hi' & Hall & Hok). split; [done|]. split; [intros fd; by rewrite Hw'|].
  split; [|split].
  - intros fd. rewrite fmap_cons, not_elem_of_cons. intros [Hne Hn]. by rewrite Hi', Hi.
  - constructor; [intros Hwc; rewrite Hi' by done; by apply Ha|]. eapply Forall_impl; [apply Forall_and; split; [exact Hall|]|].
    { apply Forall_forall. intros d Hd. exact (list_elem_of_fmap_2 ch_fd _ _ Hd). }
    intros d [Hd Hin] Hwd. assert (ch_fd d <> ch_fd c) as Hne by (intros He; by rewrite He in Hin).
    specialize (Hd (proj2 (Hw _) Hwd)). by rewrite (Hi _ Hne) in Hd.
  - intros [Hwc Hwl]%Forall_cons. destruct (Ha Hwc) as [-> _]. apply Hok.
    eapply Forall_impl; [done|]. intros d. by rewrite Hw.
Qed.

Lemma flush_spec cl k m :
  queue_watches (cl, k) m ->
  returns (epoll_apply_changes cl k) (fun '(r, k') =>
    (r = 0 \/ r = -1) /\ (forall fd, watchable k' fd <-> watchable k fd) /\ kernel_watches k' m /\
    (Forall (fun c => watchable k (ch_fd c)) (changes cl) -> r = 0)).
Proof.
  intros (Hok & Hsg & Hq). unfold epoll_apply_changes. simpl in *.
  assert (forall c, c ∈ changes cl -> change_for c (ch_fd c) (old_events c) (m (ch_fd c)) /\
            (watchable k (ch_fd c) -> watches (interest k (ch_fd c)) (old_events c))) as Hin.
  { intros c (i & Hi)%list_elem_of_lookup. specialize (Hq (ch_fd c)).
    rewrite (change_of_lookup _ _ _ Hok Hi) in Hq. tauto. }
  eapply returns_mono.
  { apply apply_loop_spec; [by apply changes_NoDup| |by left].
    apply Forall_forall. intros c Hc. by destruct (Hin c Hc) as [(_ & _ & ? & _) _]. }
  intros [r k'] (Hr & Hw & Hi & Hall & Hz). split; [done|]. split; [done|]. split; [|done].
  intros fd Hfd%Hw. destruct (decide (fd ∈ ch_fd <$> changes cl)) as [He|Hne].
  - apply list_elem_of_fmap in He as (c & -> & Hc). destruct (Hin c Hc) as [(_ & _ & _ & _ & Hwt) Hold].
    rewrite Forall_forall in Hall. specialize (Hall c Hc Hfd).
    assert (Z.land (wanted c) EV_IO = Z.land (m (ch_fd c)) EV_IO) as Hm by (rewrite Hwt; by rewrite <- Z.land_assoc).
    destruct (effective c) eqn:He; [by eapply watches_ext|]. rewrite Hall.
    eapply watches_ext; [|by apply Hold]. rewrite <- Hm, (idle_wanted _ He). by rewrite <- Z.land_assoc.
  - rewrite Hi by done. specialize (Hq fd). destruct (change_of cl fd) as [c|] eqn:Ec; [|auto].
    destruct Hne. destruct (change_of_index _ _ _ Hok Ec) as (i & _ & Hl & <-).
    apply list_elem_of_fmap. exists c. split; [done|]. by eapply list_elem_of_lookup_2.
Qed.

End Queued.
