(* ===== verification/Dispatch.v ===== *)
(** * What the backends' dispatch functions share

    Models [evutil_tv_to_msec_] of [libevent/evutil_time.c] and the way a
    dispatch function of [libevent/epoll.c], [poll.c] or [select.c] reports
    what the kernel told it: one call of [evmap_io_active_] per descriptor
    ([activate_all]).  The lemmas say what a whole report does to the base. *)

From S2P Require Import Prelude MinHeap EventBase EventBaseInv EventBaseOps EventBaseKept EventBaseAct EventCheck EventLoopInv EventApi.

Definition LONG_MAX : Z := 2 ^ 63 - 1.
Definition MAX_SECONDS_IN_MSEC_LONG : Z := Z.quot (LONG_MAX - 999) 1000.

Definition evutil_tv_to_msec_ (tv : timeval) : Z :=
  if (1000000 <? tv_usec tv) || (MAX_SECONDS_IN_MSEC_LONG <? tv_sec tv) then -1
  else tv_sec tv * 1000 + Z.quot (tv_usec tv + 999) 1000.

(** The descriptors reported and the conditions passed on for each. *)
Fixpoint activate_all (l : list (Z * Z)) (b : event_base) : outcome event_base :=
  match l with
  | [] => Done b
  | (fd, ev) :: l => b ← evmap_io_active_ b fd ev; activate_all l b
  end.

(** ** Time *)

(** The time of a [timeval] in microseconds. *)
#[global] Arguments MAX_SECONDS_IN_MSEC_LONG : simpl never.

Definition tv_us (tv : timeval) : Z := tv_sec tv * 1000000 + tv_usec tv.

Definition tv_valid (tv : timeval) : Prop := 0 <= tv_sec tv /\ 0 <= tv_usec tv < 1000000.

Lemma tv_to_msec_spec tv :
  tv_valid tv ->
  let ms := evutil_tv_to_msec_ tv in
  (MAX_SECONDS_IN_MSEC_LONG < tv_sec tv /\ ms = -1) \/
  (0 <= ms <= LONG_MAX /\ tv_us tv <= ms * 1000 < tv_us tv + 1000).
Proof.
  intros [Hs Hu]. unfold evutil_tv_to_msec_, tv_us.
  rewrite (proj2 (Z.ltb_ge 1000000 (tv_usec tv))) by lia. rewrite orb_false_l.
  destruct (MAX_SECONDS_IN_MSEC_LONG <? tv_sec tv) eqn:E; zb; [auto|right].
  rewrite Z.quot_div_nonneg by lia.
  change MAX_SECONDS_IN_MSEC_LONG with 9223372036854774 in E.
  change LONG_MAX with 9223372036854775807.
  pose proof (Z.div_mod (tv_usec tv + 999) 1000 ltac:(lia)).
  pose proof (Z.mod_pos_bound (tv_usec tv + 999) 1000 ltac:(lia)). lia.
Qed.

(** ** A report and the base *)

(** The event [e] after the reports [l]. *)
Definition reported (l : list (Z * Z)) (e : event) : event :=
  fold_left (fun e p => io_activated p.1 p.2 e) l e.

Lemma activate_all_spec exact l b :
  eb_inv exact b -> Forall (fun p => 0 <= fst p) l ->
  returns (activate_all l b) (fun b' =>
    kept_inv_post exact b b' /\ forall y, evs b' !! y = reported l <$> evs b !! y).
Proof.
  intros Hi Hl. revert b Hi. induction Hl as [|[fd ev] l Hfd _ IH]; intros b Hi; cbn [activate_all].
  { apply returns_done. split; [split; [done|reflexivity]|]. intros y. unfold reported. simpl.
    by destruct (evs b !! y). }
  destruct (io_active_wf exact b fd ev (ei_wf _ _ Hi) Hfd) as (b1 & -> & Hw1 & Hon1 & Hev1).
  cbn [mbind outcome_bind].
  assert (kept_inv_post exact b b1) as [Hi1 Hg1].
  { eapply map_post; eauto. intros e. unfold io_activated.
    case_test; [by apply evolves_activated|reflexivity]. }
  eapply returns_mono; [by apply IH|]. intros b' [Hp Hev]. split; [by eapply post_trans|].
  intros y. rewrite Hev, Hev1. by destruct (evs b !! y).
Qed.

(** ** Scanning from a random start

    [poll_dispatch] and [select_dispatch] go round the [n] places of their set
    from the one after [i]; [i] is what [evutil_weakrand_range_(n)] returned. *)

Fixpoint scan_from (turns : nat) (i n : Z) : list Z :=
  match turns with
  | O => []
  | S turns => let i := if n <=? i + 1 then 0 else i + 1 in i :: scan_from turns i n
  end.

Lemma scan_forward t i n :
  -1 <= i -> i + Z.of_nat t < n -> scan_from t i n = seqZ (i + 1) (Z.of_nat t).
Proof.
  revert i. induction t as [|t IH]; intros i H0 H; [done|]. cbn [scan_from].
  rewrite (proj2 (Z.leb_gt n (i + 1))) by lia. rewrite IH by lia.
  rewrite (seqZ_cons (i + 1)) by lia. do 2 f_equal; lia.
Qed.

(** Every place is visited once. *)
Lemma scan_visits_all i n :
  0 <= i < n -> scan_from (Z.to_nat n) i n ≡ₚ seqZ 0 n.
Proof.
  intros Hi.
  assert (forall t k, (k <= t)%nat -> 0 <= i -> i + Z.of_nat k = n - 1 ->
    scan_from t i n = seqZ (i + 1) (Z.of_nat k) ++ scan_from (t - k) (n - 1) n) as Hsplit.
  { clear Hi. intros t k. revert t i. induction k as [|k IH]; intros t i Hk H0 Hn.
    - rewrite Nat.sub_0_r. simpl. by replace i with (n - 1) by lia.
    - destruct t as [|t]; [lia|]. cbn [scan_from]. rewrite (proj2 (Z.leb_gt n (i + 1))) by lia.
      rewrite (IH t (i + 1)) by lia. rewrite (seqZ_cons (i + 1)) by lia.
      replace (Z.pred (Z.of_nat (S k))) with (Z.of_nat k) by lia. done. }
  rewrite (Hsplit (Z.to_nat n) (Z.to_nat (n - 1 - i))) by lia.
  replace (Z.to_nat n - Z.to_nat (n - 1 - i))%nat with (S (Z.to_nat i)) by lia.
  cbn [scan_from]. rewrite (proj2 (Z.leb_le n (n - 1 + 1))) by lia.
  rewrite scan_forward by lia. rewrite Permutation_app_comm.
  replace (Z.of_nat (Z.to_nat i)) with i by lia.
  replace (Z.of_nat (Z.to_nat (n - 1 - i))) with (n - 1 - i) by lia.
  replace n with ((i + 1) + (n - 1 - i)) at 2 by lia. rewrite seqZ_app by lia.
  rewrite (seqZ_cons 0 (i + 1)) by lia. simpl.
  replace (Z.pred (i + 1)) with i by lia. replace (Z.succ 0) with (0 + 1) by lia. done.
Qed.
