(* ===== verification/EpollDispatch.v ===== *)
(** * Waiting with epoll

    Models [epoll_dispatch] of [libevent/epoll.c]: the timeout, the queued
    changes, the wait, the report of what the kernel returned and the growth of
    the event array.  [nevents] is the length of that array and [timerfd] the
    descriptor of the precise timer, -1 without it.  [epoll_wait] is a
    parameter [wait]: from the kernel, the length of the array and the timeout
    it gives [errno] or the events returned, each a descriptor and its
    conditions; [realloc_ok] says whether the array can grow. *)

From S2P Require Import Prelude MinHeap EventBase EventBaseInv EventBaseOps EventBaseKept EventBaseAct EventCheck EventLoop EventLoopInv EventApi Indexed Changelist EpollTable Backend Epoll Dispatch.

Definition INITIAL_NEVENT : Z := 32.
Definition MAX_NEVENT : Z := 4096.
Definition MAX_EPOLL_TIMEOUT_MSEC : Z := 35 * 60 * 1000.

Record epollop := mkEpollop { nevents : Z; timerfd : Z }.

(** The timeout of [epoll_wait], and the value the timer is armed with. *)
Definition epoll_timeout (tfd : Z) (tv : option timeval) : Z * option (Z * Z) :=
  if 0 <=? tfd then
    match tv with
    | None => (-1, Some (0, 0))
    | Some tv => (if (tv_sec tv =? 0) && (tv_usec tv =? 0) then 0 else -1,
                  Some (tv_sec tv, tv_usec tv * 1000))
    end
  else
    match tv with
    | None => (-1, None)
    | Some tv =>
        let timeout := evutil_tv_to_msec_ tv in
        (if (timeout <? 0) || (MAX_EPOLL_TIMEOUT_MSEC <? timeout) then MAX_EPOLL_TIMEOUT_MSEC
         else timeout, None)
    end.

(** The conditions reported for [what]. *)
Definition epoll_what (what : Z) : Z :=
  if has what (Z.lor EPOLLHUP EPOLLERR) then Z.lor EV_READ EV_WRITE
  else Z.lor (bit (has what EPOLLIN) EV_READ)
         (Z.lor (bit (has what EPOLLOUT) EV_WRITE) (bit (has what EPOLLRDHUP) EV_CLOSED)).

(** The calls of [evmap_io_active_] that the loop over the events makes. *)
Definition epoll_reports (tfd : Z) (l : list (Z * Z)) : list (Z * Z) :=
  p ← l;
  if fst p =? tfd then []
  else if epoll_what (snd p) =? 0 then []
  else [(fst p, Z.lor (epoll_what (snd p)) EV_ET)].

Definition epoll_grow (realloc_ok : bool) (res n : Z) : Z :=
  if (res =? n) && (n <? MAX_NEVENT) then (if realloc_ok then n * 2 else n) else n.

Section Dispatch.
Context {K : Type} `{EpollKernel K}.
Variable wait : K -> Z -> Z -> Z + list (Z * Z).

Definition epoll_dispatch (realloc_ok : bool) (op : epollop) (cl : event_changelist) (k : K)
    (tv : option timeval) (b : event_base)
    : outcome (Z * epollop * event_changelist * K * event_base) :=
  let '(timeout, _) := epoll_timeout (timerfd op) tv in
  '(_, k) ← epoll_apply_changes cl k;
  cl ← event_changelist_remove_all_ cl;
  match wait k (nevents op) timeout with
  | inl errno => Done (if errno =? EINTR then 0 else -1, op, cl, k, b)
  | inr l =>
      _ ← assert_c (zlen l <=? nevents op);
      b ← activate_all (epoll_reports (timerfd op) l) b;
      Done (0, mkEpollop (epoll_grow realloc_ok (zlen l) (nevents op)) (timerfd op), cl, k, b)
  end.

End Dispatch.

(** ** The array *)

(** The array starts with [INITIAL_NEVENT] events and is doubled. *)
Definition nevents_ok (n : Z) : Prop := exists j, 0 <= j <= 7 /\ n = INITIAL_NEVENT * 2 ^ j.

Lemma epoll_grow_ok r res n : nevents_ok n -> nevents_ok (epoll_grow r res n).
Proof.
  intros (j & Hj & ->). unfold epoll_grow. destruct (_ && _) eqn:E; [|by exists j]. destruct r; [|by exists j].
  zb. exists (j + 1). unfold INITIAL_NEVENT, MAX_NEVENT in *. split.
  - split; [lia|]. destruct (decide (j = 7)) as [->|]; [by vm_compute in H0|lia].
  - rewrite Z.pow_add_r by lia. lia.
Qed.

(** ** Theorems *)

(** C17: Without the precise timer (no descriptor, [tfd < 0]), the timeout given
    to [epoll_wait] is -1 exactly when there is no timeout; otherwise it lies in
    [0, MAX_EPOLL_TIMEOUT_MSEC], is never shorter than the time asked for
    unless it is that maximum, and is less than one millisecond longer; a
    timeout that does not fit in a [long] of milliseconds becomes the maximum.
    With the precise timer the timer is armed with the time asked for, in
    nanoseconds (disarmed without one), and [epoll_wait] itself waits without
    a limit, or not at all for a zero timeout. *)
Theorem epoll_timeout_bounds tfd tv :
  match tv with Some t => tv_valid t | None => True end ->
  (tfd < 0 ->
   (epoll_timeout tfd tv).2 = None /\
   match tv with
   | None => (epoll_timeout tfd tv).1 = -1
   | Some t =>
       let ms := (epoll_timeout tfd tv).1 in
       0 <= ms <= MAX_EPOLL_TIMEOUT_MSEC /\
       (ms = MAX_EPOLL_TIMEOUT_MSEC /\ ms * 1000 < tv_us t + 1000 \/
        tv_us t <= ms * 1000 < tv_us t + 1000)
   end) /\
  (0 <= tfd ->
   exists s ns, (epoll_timeout tfd tv).2 = Some (s, ns) /\ 0 <= ns < 1000000000 /\
   match tv with
   | None => (epoll_timeout tfd tv).1 = -1 /\ s = 0 /\ ns = 0
   | Some t => (epoll_timeout tfd tv).1 = (if tv_us t =? 0 then 0 else -1) /\
               s * 1000000000 + ns = tv_us t * 1000
   end).
Proof.
  intros Htv. split; intros Htfd; unfold epoll_timeout.
  2: { rewrite (proj2 (Z.leb_le 0 tfd)) by lia. destruct tv as [t|]; simpl; [|by exists 0, 0].
       unfold tv_valid, tv_us in *. eexists _, _. split; [done|]. split; [lia|]. split; [|lia].
       case_test; case_test; zb; lia. }
  rewrite (proj2 (Z.leb_gt 0 tfd)) by lia. split; [by destruct tv|].
  destruct tv as [t|]; [|done]. cbn [fst]. cbv zeta.
  pose proof (tv_to_msec_spec t Htv) as [(Hbig & ->)|(Hr & Hu)].
  - simpl. split; [done|]. left. split; [done|]. unfold tv_us, tv_valid in *.
    change MAX_SECONDS_IN_MSEC_LONG with 9223372036854774 in Hbig.
    change MAX_EPOLL_TIMEOUT_MSEC with 2100000. lia.
  - rewrite (proj2 (Z.ltb_ge _ 0)) by lia. rewrite orb_false_l.
    change MAX_EPOLL_TIMEOUT_MSEC with 2100000.
    destruct (2100000 <? evutil_tv_to_msec_ t) eqn:E; zb; lia.
Qed.

Lemma epoll_timeout_bounds_witness : (epoll_timeout (-1) (Some (mkTimeval 2 1))).1 = 2001 /\
  tv_us (mkTimeval 2 1) <= 2001 * 1000 < tv_us (mkTimeval 2 1) + 1000.
Proof.
  assert (tv_valid (mkTimeval 2 1)) as Hv by (unfold tv_valid; simpl; lia).
  pose proof (epoll_timeout_bounds (-1) (Some (mkTimeval 2 1)) Hv) as [Hno _].
  destruct (Hno ltac:(lia)) as (_ & _ & [[H _]|H]); [vm_compute in H; discriminate|]. split; [reflexivity|exact H].
Defined.

Section Correct.
Context {K : Type} `{EpollLaws K}.
Variable wait : K -> Z -> Z -> Z + list (Z * Z).

(** [epoll_wait] returns at most as many events as the array holds, each with
    the descriptor it was registered with. *)
Definition wait_ok : Prop := forall k n timeout l,
  wait k n timeout = inr l -> zlen l <= n /\ Forall (fun p => 0 <= fst p) l.

Lemma reports_fds tfd l :
  Forall (fun p => 0 <= fst p) l -> Forall (fun p => 0 <= fst p) (epoll_reports tfd l).
Proof.
  intros Hl. induction Hl as [|[fd what] l Hfd _ IH]; [constructor|].
  unfold epoll_reports in *. cbn [mbind list_bind app]. case_test; [done|]. case_test; [done|].
  by constructor.
Qed.

Lemma epoll_dispatch_ok exact r op cl k tv b m :
  wait_ok -> eb_inv exact b -> queue_watches (cl, k) m -> nevents_ok (nevents op) ->
  returns (epoll_dispatch wait r op cl k tv b) (fun '(res, op', cl', k', b') =>
    (res = 0 \/ res = -1) /\ kept_inv_post exact b b' /\ changes cl' = [] /\
    kernel_watches k' m /\ queue_watches (cl', k') m /\ nevents_ok (nevents op') /\
    match wait k' (nevents op) (epoll_timeout (timerfd op) tv).1 with
    | inl _ => b' = b
    | inr l => forall y, evs b' !! y = reported (epoll_reports (timerfd op) l) <$> evs b !! y
    end).
Proof.
  intros Hwait Hi Hq Hn. unfold epoll_dispatch.
  destruct (epoll_timeout (timerfd op) tv) as [timeout arm]. cbn [fst].
  eapply returns_bind; [by apply flush_spec|]. intros [rr k'] (_ & _ & Hk & _).
  eapply returns_bind; [apply remove_all_spec, Hq|]. intros cl' (Hok' & He & Hnone).
  assert (queue_watches (cl', k') m) as Hq'.
  { split; [done|]. split; [apply Hq|]. intros fd. simpl. rewrite Hnone. apply Hk. }
  destruct (wait k' (nevents op) timeout) as [errno|l] eqn:Hw.
  - apply returns_done. split; [case_test; auto|]. split; [split; [done|reflexivity]|].
    rewrite Hw. done.
  - destruct (Hwait _ _ _ _ Hw) as [Hlen Hfds]. rewrite (proj2 (Z.leb_le _ _) Hlen).
    cbn [assert_c mbind outcome_bind]. eapply returns_bind.
    { apply (activate_all_spec exact); [done|by apply reports_fds]. }
    intros b' [Hp Hev]. apply returns_done. split; [auto|]. split; [done|]. split; [done|].
    split; [done|]. split; [done|]. split; [by apply epoll_grow_ok|]. by rewrite Hw.
Qed.

End Correct.
