(* ===== verification/EpollSpec.v ===== *)
(** * What the epoll backend guarantees

    The theorems on [libevent/epoll.c] over any kernel that satisfies
    [EpollLaws], a reference kernel that does, for the witnesses, and two
    defects of the edge-triggered mode. *)

From S2P Require Import Prelude MinHeap EventBase EventBaseInv EventBaseOps EventBaseAct EventCheck EventLoopInv EventApi EventSpec Indexed Changelist EpollTable Backend Epoll Dispatch EpollDispatch.

(** ** A reference kernel *)

Definition rk_fds : Z := 1024.

(** The registrations of the descriptors below [rk_fds], all open. *)
Definition rk_ctl (k : gmap Z Z) (op fd ev : Z) : option Z * gmap Z Z :=
  if negb ((0 <=? fd) && (fd <? rk_fds)) then (Some EBADF, k) else
  match op =? EPOLL_CTL_ADD, k !! fd with
  | true, None => (None, <[fd := ev]> k)
  | true, Some _ => (Some EEXIST, k)
  | false, None => (Some ENOENT, k)
  | false, Some _ =>
      if op =? EPOLL_CTL_MOD then (None, <[fd := ev]> k)
      else if op =? EPOLL_CTL_DEL then (None, delete fd k) else (Some EPERM, k)
  end.

#[export] Instance rk : EpollKernel (gmap Z Z) := {
  interest k fd := k !! fd;
  watchable k fd := (0 <=? fd) && (fd <? rk_fds) = true;
  epoll_ctl := rk_ctl
}.

#[export] Instance rk_laws : EpollLaws (gmap Z Z).
Proof.
  split; unfold epoll_ctl, interest, watchable; simpl; unfold rk_ctl; intros.
  - repeat case_match; simpl; rewrite ?lookup_insert_ne, ?lookup_delete_ne by done; done.
  - done.
  - repeat case_match; simplify_eq/=; done.
  - rewrite H. destruct (k !! fd); simpl; [done|]. by rewrite lookup_insert_eq.
  - rewrite H. destruct (k !! fd); simpl; [|done]. by rewrite lookup_insert_eq.
  - rewrite H. destruct (k !! fd); simpl; [|done]. by rewrite lookup_delete_eq.
Qed.

(** ** Runs without failures *)

(** ** What a report means to an event

    Bit by bit, as the manual page of [epoll_ctl] numbers the conditions. *)

Definition trouble (what : Z) : bool := Z.testbit what 3 || Z.testbit what 4.

(** The conditions an event that asked for [asked] is told of. *)
Definition told (asked what : Z) : Z :=
  Z.lor (bit (has asked EV_READ && (trouble what || Z.testbit what 0)) EV_READ)
    (Z.lor (bit (has asked EV_WRITE && (trouble what || Z.testbit what 2)) EV_WRITE)
      (Z.lor (bit (has asked EV_CLOSED && negb (trouble what) && Z.testbit what 13) EV_CLOSED)
        (bit (has asked EV_ET) EV_ET))).

Definition says_something (what : Z) : bool :=
  trouble what || Z.testbit what 0 || Z.testbit what 2 || Z.testbit what 13.

(** The event after the kernel's report [p]; [tfd] is the timer's descriptor. *)
Definition heeds (tfd : Z) (e : event) (p : Z * Z) : event :=
  if negb (fst p =? tfd) && registered (fst p) e && says_something (snd p) &&
     negb (told (ev_events e) (snd p) =? 0)
  then activated e (told (ev_events e) (snd p)) 1 else e.

Lemma what_bits what :
  epoll_what what = mask3 (trouble what || Z.testbit what 0) (trouble what || Z.testbit what 2)
                      (negb (trouble what) && Z.testbit what 13).
Proof.
  unfold epoll_what, trouble. rewrite has_lor_r.
  change EPOLLHUP with (2 ^ 4). change EPOLLERR with (2 ^ 3). change EPOLLIN with (2 ^ 0).
  change EPOLLOUT with (2 ^ 2). change EPOLLRDHUP with (2 ^ 13). rewrite !has_bit by done.
  by destruct (Z.testbit what 3), (Z.testbit what 4), (Z.testbit what 0), (Z.testbit what 2),
    (Z.testbit what 13).
Qed.

Lemma what_something what : (epoll_what what =? 0) = negb (says_something what).
Proof.
  rewrite what_bits. unfold says_something.
  by destruct (trouble what), (Z.testbit what 0), (Z.testbit what 2), (Z.testbit what 13).
Qed.

Lemma land_what asked what : Z.land asked (Z.lor (epoll_what what) EV_ET) = told asked what.
Proof.
  rewrite what_bits. unfold told, mask3.
  assert (Hb : forall c n, 0 <= n -> Z.land asked (bit c (2 ^ n)) = bit (has asked (2 ^ n) && c) (2 ^ n)).
  { intros [] n Hn; simpl; [by rewrite land_bit, andb_true_r|by rewrite andb_false_r, Z.land_0_r]. }
  rewrite !Z.land_lor_distr_r. change EV_READ with (2 ^ 1). change EV_WRITE with (2 ^ 2).
  change EV_CLOSED with (2 ^ 7). change EV_ET with (2 ^ 5).
  rewrite !Hb, land_bit by done. by rewrite !andb_assoc, !Z.lor_assoc.
Qed.

Lemma heeds_one tfd p e : reported (epoll_reports tfd [p]) e = heeds tfd e p.
Proof.
  unfold epoll_reports, reported, heeds. cbn [mbind list_bind app]. rewrite what_something.
  destruct (fst p =? tfd); [done|]. destruct (says_something (snd p)); simpl;
    [|by rewrite andb_false_r].
  unfold io_activated, has. rewrite land_what, andb_true_r. done.
Qed.

Lemma heeds_reports tfd l e : reported (epoll_reports tfd l) e = fold_left (heeds tfd) l e.
Proof.
  revert e. induction l as [|p l IH]; intros e; [done|]. cbn [fold_left]. rewrite <- IH, <- heeds_one.
  unfold reported, epoll_reports. cbn [mbind list_bind app]. by rewrite app_nil_r, fold_left_app.
Qed.

Section Runs.
Context {K : Type} `{EpollLaws K}.

Lemma direct_run ops k m :
  kernel_watches k m -> Forall (fun p => op_ok p.2 /\ watchable k (op_fd p.2)) ops ->
  returns (be_run (H := epoll_backend) EV_IO ops k m) (fun '(k1, m1) =>
    m1 = fold_left (fun m p => mask_step EV_IO m p.2) ops m /\ kernel_watches k1 m1 /\
    forall fd, watchable k1 fd <-> watchable k fd).
Proof.
  revert k m. induction ops as [|[mem o] ops IH]; intros k m Hk Hops; cbn [be_run fold_left].
  { by apply returns_done. }
  apply Forall_cons in Hops as [[Ho Hw] Hops].
  eapply returns_bind; [by apply (direct_step mem k m o)|].
  intros [r k1] (Hr & Hwt & Hz). rewrite (Hz Hw) in *.
  destruct Hr as [[_ Hr]|[Hr _]]; [|done]. simpl. eapply returns_mono; [apply IH; [done|]|].
  - eapply Forall_impl; [done|]. intros p [? ?]. by rewrite Hwt.
  - intros [k2 m2] (? & ? & Hwt2). split; [done|]. split; [done|]. intros fd. by rewrite Hwt2.
Qed.

Lemma queued_run ops s m :
  queue_watches s m -> Forall (fun p => p.1 = true /\ op_ok p.2) ops ->
  returns (be_run (H := epoll_changelist_backend) EV_IO ops s m) (fun '(s1, m1) =>
    m1 = fold_left (fun m p => mask_step EV_IO m p.2) ops m /\ queue_watches s1 m1 /\
    snd s1 = snd s).
Proof.
  revert s m. induction ops as [|[mem o] ops IH]; intros s m Hs Hops; cbn [be_run fold_left].
  { by apply returns_done. }
  apply Forall_cons in Hops as [[Hm Ho] Hops]. simpl in Hm. subst mem.
  eapply returns_bind; [by apply (queued_step true s m o)|].
  intros [r s1] [[[-> Hq]|(_ & [=] & _)] Hk]. simpl.
  eapply returns_mono; [by apply IH|]. intros [s2 m2] (? & ? & Hk2). by rewrite Hk2, Hk.
Qed.

Lemma init_queue k m :
  kernel_watches k m -> (forall fd, has (m fd) EV_SIGNAL = false) ->
  queue_watches (event_changelist_init_ ∅, k) m.
Proof.
  intros Hk Hm. split; [|split; [done|]].
  - split; [done|done|]. intros fd Hx. done.
  - intros fd. exact (Hk fd).
Qed.

(** The registration a change that leaves events makes, to the bit. *)
Lemma apply_one_exact k c :
  clean_change c = true -> effective c = true -> wanted c <> 0 -> watchable k (ch_fd c) ->
  returns (epoll_apply_one_change k c) (fun '(r, k') => r = 0 /\
    interest k' (ch_fd c) =
      Some (if has (Z.lor (read_change c) (write_change c)) EV_CHANGE_ET
            then Z.lor (to_epoll (wanted c)) EPOLLET else to_epoll (wanted c))).
Proof.
  intros Hc He Hw Hwt. unfold epoll_apply_one_change. rewrite table_row. cbn [deref mbind outcome_bind].
  destruct (spec_cases c Hc) as [He'|op _ _ Hne Hop|ev _ Hw' _]; [congruence| |done].
  rewrite (proj2 (Z.eqb_neq _ _) Hne). cbv zeta.
  eapply returns_mono; [by apply set_lands|]. intros [r k'] (_ & _ & Hl). auto.
Qed.

(** ** Theorems *)

(** C6: Queueing the calls in the changelist and applying them before the next
    wait comes to the same as making each call at once: for any sequence of
    calls on descriptors the kernel can watch, both succeed, agree on the sets
    wanted, and leave every descriptor registered for exactly its set — the
    kernel is told of the last state only, whatever was added, deleted and
    added again in between. *)
Theorem changelist_equals_direct ops k m :
  kernel_watches k m -> (forall fd, has (m fd) EV_SIGNAL = false) ->
  Forall (fun p => p.1 = true /\ op_ok p.2 /\ watchable k (op_fd p.2)) ops ->
  exists k1 cl r k2 m',
    be_run (H := epoll_backend) EV_IO ops k m = Done (k1, m') /\
    be_run (H := epoll_changelist_backend) EV_IO ops (event_changelist_init_ ∅, k) m = Done ((cl, k), m') /\
    epoll_apply_changes cl k = Done (r, k2) /\
    m' = fold_left (fun m p => mask_step EV_IO m p.2) ops m /\
    forall fd, watchable k fd -> watches (interest k1 fd) (m' fd) /\ watches (interest k2 fd) (m' fd).
Proof.
  intros Hk Hm Hops.
  destruct (direct_run ops k m Hk) as ([k1 m1] & Hd & -> & Hk1 & Hw1).
  { eapply Forall_impl; [done|]. naive_solver. }
  destruct (queued_run ops (event_changelist_init_ ∅, k) m) as ([[cl k0] m2] & Hq & -> & Hq2 & Hk0).
  { by apply init_queue. }
  { eapply Forall_impl; [done|]. naive_solver. }
  simpl in Hk0. subst k0. destruct (flush_spec _ _ _ Hq2) as ([r k2] & Hf & _ & Hw2 & Hk2 & _).
  exists k1, cl, r, k2. eexists. split; [done|]. split; [done|]. split; [done|]. split; [done|].
  intros fd Hfd. split; [apply Hk1, Hw1|apply Hk2, Hw2]; done.
Qed.

(** C33: A change is made whatever the kernel holds for the descriptor: also when
    the file was closed and opened again, or duplicated, so that the guessed
    operation fails and is retried as the other.  Afterwards the descriptor is
    registered for exactly the events wanted, and no other registration has
    moved. *)
Theorem change_repairs_registration k c :
  clean_change c = true -> effective c = true -> watchable k (ch_fd c) ->
  returns (epoll_apply_one_change k c) (fun '(r, k') =>
    r = 0 /\ watches (interest k' (ch_fd c)) (wanted c) /\
    forall g, g <> ch_fd c -> interest k' g = interest k g).
Proof.
  intros Hc He Hw. eapply returns_mono; [by apply apply_one_spec|].
  intros [r k'] ((Hi & _) & _ & Ha). destruct (Ha Hw) as [-> Hx]. rewrite He in Hx. auto.
Qed.

(** C34: One [epoll_dispatch], with an [epoll_wait] that reports no more than the
    array holds and only descriptors ([wait_ok]), on a base and a queue that keep
    their invariants: the queue is emptied, the kernel then watches
    every descriptor for exactly the set the calls left, the base keeps its
    invariant, and every event of the base is exactly as the reports of
    [epoll_wait] leave it, each taken by [heeds]: a report of bit 0 is read, of
    bit 2 write, of bit 13 closed, one of bit 3 or 4 read and write alone, and
    the precise timer's descriptor reaches nobody. *)
Theorem epoll_dispatch_delivers wait exact realloc_ok op cl k tv b m :
  wait_ok (K := K) wait -> eb_inv exact b -> queue_watches (cl, k) m -> nevents_ok (nevents op) ->
  returns (epoll_dispatch wait realloc_ok op cl k tv b) (fun '(res, op', cl', k', b') =>
    changes cl' = [] /\ kernel_watches k' m /\ queue_watches (cl', k') m /\
    nevents_ok (nevents op') /\ eb_inv exact b' /\
    match wait k' (nevents op) (epoll_timeout (timerfd op) tv).1 with
    | inl errno => b' = b
    | inr l => forall y, evs b' !! y = fold_left (heeds (timerfd op)) l <$> evs b !! y
    end).
Proof.
  intros Hw Hi Hq Hn. eapply returns_mono; [by apply (epoll_dispatch_ok wait exact)|].
  intros [[[[res op'] cl'] k'] b'] (_ & [Hi' _] & He & Hk & Hq' & Hn' & Hev).
  destruct (wait k' _ _); [auto 10|]. repeat (split; [done|]). intros y. rewrite Hev.
  destruct (evs b !! y) as [e|]; [|done]. simpl. by rewrite heeds_reports.
Qed.

(** An edge-triggered event that waits for write alone is made active, for no
    condition but [EV_ET], when its descriptor is reported readable:
    [epoll_dispatch] adds [EV_ET] to every report and [evmap_io_active_] takes
    it for a condition. *)
Theorem edge_triggered_hears_other_reports exact b fd x e :
  eb_inv exact b -> 0 <= fd -> evs b !! x = Some e -> registered fd e = true ->
  ev_events e = Z.lor EV_WRITE EV_ET ->
  exists b', evmap_io_active_ b fd (Z.lor (epoll_what EPOLLIN) EV_ET) = Done b' /\
    evs b' !! x = Some (activated e EV_ET 1).
Proof.
  intros Hi Hfd Hx Hr He.
  destruct (io_active_wf exact b fd (Z.lor (epoll_what EPOLLIN) EV_ET) (ei_wf _ _ Hi) Hfd)
    as (b' & -> & _ & _ & Hev).
  exists b'. split; [done|]. rewrite Hev, Hx. simpl. unfold io_activated. by rewrite Hr, He.
Qed.

(** Deleting one event of an edge-triggered descriptor that keeps others
    makes the registration level-triggered: [epoll_nochangelist_del] never
    sets [EV_CHANGE_ET], so the [EPOLL_CTL_MOD] drops [EPOLLET]. *)
Theorem epoll_del_drops_edge_trigger k fd old ev :
  watchable k fd -> Z.land (Z.land old (Z.lnot ev)) EV_IO <> 0 -> Z.land ev EV_IO <> 0 ->
  returns (epoll_nochangelist_del k fd old ev) (fun '(r, k') =>
    r = 0 /\ interest k' fd = Some (to_epoll (Z.land old (Z.lnot ev)))).
Proof.
  intros Hw Hrest Hev. destruct (del_change_for fd old ev) as (Hf & Ho & Hc & _ & Hwt).
  assert (effective (del_change fd old ev) = true /\
          has (Z.lor (read_change (del_change fd old ev)) (write_change (del_change fd old ev)))
            EV_CHANGE_ET = false) as [He Het].
  { rewrite land_io in Hev. unfold del_change, effective.
    by destruct (has ev EV_READ), (has ev EV_WRITE), (has ev EV_CLOSED). }
  unfold epoll_nochangelist_del. pose proof (apply_one_exact k _ Hc He) as Hx.
  rewrite Hf, Het, Hwt in Hx. eapply returns_mono; [by apply Hx|].
  intros [r k'] [-> Hi]. split; [done|]. rewrite Hi. f_equal.
  apply to_epoll_io.
Qed.

(** An edge-triggered event that waits only for the peer to close is
    registered level-triggered: [epoll_apply_one_change] looks for
    [EV_CHANGE_ET] in the read and the write change, not in the close change. *)
Theorem epoll_close_only_ignores_edge_trigger k fd :
  watchable k fd ->
  returns (epoll_nochangelist_add k fd 0 (Z.lor EV_CLOSED EV_ET)) (fun '(r, k') =>
    r = 0 /\ interest k' fd = Some EPOLLRDHUP).
Proof.
  intros Hw. unfold epoll_nochangelist_add.
  eapply returns_mono; [by apply (apply_one_exact k (add_change fd 0 (Z.lor EV_CLOSED EV_ET)))|].
  by intros [r k'].
Qed.

End Runs.

(** ** Witnesses *)

Definition demo_calls : list (bool * fd_op) :=
  [(true, FdAdd 5 (Z.lor EV_READ EV_ET)); (true, FdAdd 7 EV_WRITE); (true, FdAdd 5 EV_WRITE);
   (true, FdDel 5 EV_READ); (true, FdDel 7 EV_WRITE); (true, FdAdd 7 EV_READ)].

Lemma no_registration_watches : kernel_watches (∅ : gmap Z Z) (fun _ => 0).
Proof. intros fd _. simpl. rewrite lookup_empty. reflexivity. Qed.

Lemma changelist_equals_direct_witness :
  exists k1 cl r k2 m',
    be_run (H := epoll_backend) EV_IO demo_calls (∅ : gmap Z Z) (fun _ => 0) = Done (k1, m') /\
    epoll_apply_changes cl (∅ : gmap Z Z) = Done (r, k2) /\
    k1 !! 5 = Some EPOLLOUT /\ watches (k2 !! 5) EV_WRITE /\ watches (k2 !! 7) EV_READ.
Proof.
  destruct (changelist_equals_direct demo_calls (∅ : gmap Z Z) (fun _ => 0)) as (k1 & cl & r & k2 & m' & H1 & H2 & H3 & H4 & H5).
  - apply no_registration_watches.
  - reflexivity.
  - repeat constructor; simpl; reflexivity || (vm_compute; congruence).
  - exists k1, cl, r, k2, m'. split; [exact H1|]. split; [exact H3|].
    pose proof (H5 5 eq_refl) as [Ha Hb]. pose proof (H5 7 eq_refl) as [Hc Hd].
    rewrite H4 in Hb, Hd. split; [|split; [exact Hb|exact Hd]].
    vm_compute in H1. injection H1 as <- _. vm_compute. reflexivity.
Defined.

Lemma change_repairs_registration_witness :
  returns (epoll_apply_one_change (<[5 := EPOLLIN]> ∅ : gmap Z Z) (add_change 5 0 EV_WRITE))
    (fun '(r, k') => r = 0 /\ k' !! 5 = Some EPOLLOUT) /\
  returns (epoll_apply_one_change (∅ : gmap Z Z) (add_change 5 EV_READ EV_WRITE))
    (fun '(r, k') => r = 0 /\ watches (k' !! 5) (Z.lor EV_READ EV_WRITE)).
Proof.
  pose proof (change_repairs_registration (<[5 := EPOLLIN]> ∅ : gmap Z Z) (add_change 5 0 EV_WRITE)
    eq_refl eq_refl eq_refl) as ([r k'] & H1 & -> & _ & _).
  pose proof (change_repairs_registration (∅ : gmap Z Z) (add_change 5 EV_READ EV_WRITE)
    eq_refl eq_refl eq_refl) as ([r2 k2] & H2 & -> & Hw & _).
  split; [eexists; split; [exact H1|]|exists (0, k2); auto].
  vm_compute in H1. injection H1 as <-. split; vm_compute; reflexivity.
Defined.

(** [epoll_wait] that reports an error condition on descriptor 4. *)
Definition demo_wait (k : gmap Z Z) (n timeout : Z) : Z + list (Z * Z) :=
  if 1 <=? n then inr [(4, EPOLLERR)] else inl EINTR.

Lemma epoll_dispatch_delivers_witness :
  exists res op' cl' k' b',
    epoll_dispatch demo_wait true (mkEpollop INITIAL_NEVENT (-1)) (event_changelist_init_ ∅)
      (∅ : gmap Z Z) None demo = Done (res, op', cl', k', b') /\
    evs b' !! 1 = (fun e => activated e EV_READ 1) <$> evs demo !! 1.
Proof.
  destruct (epoll_dispatch_delivers demo_wait true true (mkEpollop INITIAL_NEVENT (-1))
    (event_changelist_init_ ∅) (∅ : gmap Z Z) None demo (fun _ => 0))
    as ([[[[res op'] cl'] k'] b'] & Hd & _ & _ & _ & _ & _ & Hev).
  - intros k n timeout l. unfold demo_wait. destruct (1 <=? n) eqn:E; [|discriminate].
    intros [= <-]. zb. split; [exact E|]. repeat constructor. discriminate.
  - apply reachable_base_inv, demo_reachable.
  - apply init_queue; [apply no_registration_watches|reflexivity].
  - exists 0. split; [lia|reflexivity].
  - exists res, op', cl', k', b'. split; [exact Hd|]. rewrite (Hev 1). vm_compute. reflexivity.
Defined.

Lemma epoll_del_drops_edge_trigger_witness :
  returns (epoll_nochangelist_del (<[5 := Z.lor EPOLLET (Z.lor EPOLLIN EPOLLOUT)]> ∅ : gmap Z Z) 5
             (Z.lor EV_READ EV_WRITE) EV_WRITE)
    (fun '(r, k') => r = 0 /\ k' !! 5 = Some EPOLLIN).
Proof.
  eapply returns_mono; [apply (epoll_del_drops_edge_trigger
    (<[5 := Z.lor EPOLLET (Z.lor EPOLLIN EPOLLOUT)]> ∅ : gmap Z Z) 5 (Z.lor EV_READ EV_WRITE) EV_WRITE)|];
    [reflexivity|vm_compute; discriminate|vm_compute; discriminate|].
  intros [r k'] [Hr Hi]. split; [exact Hr|exact Hi].
Defined.

Lemma epoll_close_only_ignores_edge_trigger_witness :
  returns (epoll_nochangelist_add (∅ : gmap Z Z) 5 0 (Z.lor EV_CLOSED EV_ET))
    (fun '(r, k') => r = 0 /\ k' !! 5 = Some EPOLLRDHUP).
Proof.
  eapply returns_mono; [apply (epoll_close_only_ignores_edge_trigger (∅ : gmap Z Z) 5); reflexivity|].
  intros [r k'] [Hr Hi]. split; [exact Hr|exact Hi].
Defined.
