(* ===== verification/Poll.v ===== *)
(** * The poll backend

    Models [libevent/poll.c].  [event_set] holds the [nfds] entries in use,
    [event_count] is the allocated length, [copy_count] the length of
    [event_set_copy], the array the kernel is given when the base has a lock,
    and [pollidx] the [struct pollidx] of each descriptor.  poll(2) is a
    parameter: from the array and the timeout, [errno] or the result and the
    [revents] of the entries.  [start] is what [evutil_weakrand_range_]
    returned. *)

From S2P Require Import Prelude MinHeap EventBase EventBaseInv EventBaseOps EventBaseAct EventCheck EventLoopInv EventApi EventSpec Indexed Changelist EpollTable Backend Epoll Dispatch EpollDispatch.

Definition POLLIN : Z := 0x001.
Definition POLLOUT : Z := 0x004.
Definition POLLERR : Z := 0x008.
Definition POLLHUP : Z := 0x010.
Definition POLLNVAL : Z := 0x020.

Record pollfd := mkPollfd { pfd_fd : Z; pfd_events : Z; pfd_revents : Z }.

Record pollop := mkPollop {
  event_set : list pollfd;
  poll_event_count : Z;
  realloc_copy : bool;
  copy_count : Z;
  pollidx : gmap Z Z
}.

Definition nfds (s : pollop) : Z := zlen (event_set s).
Definition poll_idx (s : pollop) (fd : Z) : Z := default 0 (pollidx s !! fd).

(** [mm_calloc] *)
Definition poll_init : pollop := mkPollop [] 0 false 0 ∅.

(** ** Operations *)

(** The array grown when it is full; [false] when it cannot. *)
Definition poll_grow (mem : bool) (s : pollop) : outcome (bool * pollop) :=
  if poll_event_count s <=? nfds s + 1 then
    tmp_event_count ← (if poll_event_count s <? 32 then Done 32
                       else _ ← assert_c (poll_event_count s * 2 <=? INT_MAX);
                            Done (poll_event_count s * 2));
    if mem then Done (true, mkPollop (event_set s) tmp_event_count true (copy_count s) (pollidx s))
    else Done (false, s)
  else Done (true, s).

Definition poll_set (events : Z) (p : pollfd) : pollfd :=
  let e := pfd_events p in
  let e := if has events EV_WRITE then Z.lor e POLLOUT else e in
  let e := if has events EV_READ then Z.lor e POLLIN else e in
  mkPollfd (pfd_fd p) e 0.

Definition with_set (s : pollop) (l : list pollfd) (idx : gmap Z Z) : pollop :=
  mkPollop l (poll_event_count s) (realloc_copy s) (copy_count s) idx.

Definition poll_add (mem : bool) (s : pollop) (fd events : Z) : outcome (Z * pollop) :=
  _ ← assert_c (negb (has events EV_SIGNAL));
  if negb (has events (Z.lor EV_READ EV_WRITE)) then Done (0, s) else
  '(ok, s) ← poll_grow mem s;
  if negb ok then Done (-1, s) else
  let i := poll_idx s fd - 1 in
  if 0 <=? i then
    p ← deref (event_set s !! Z.to_nat i);
    Done (0, with_set s (<[Z.to_nat i := poll_set events p]> (event_set s)) (pollidx s))
  else
    _ ← assert_c (nfds s <? poll_event_count s);
    Done (0, with_set s (event_set s ++ [poll_set events (mkPollfd fd 0 0)])
               (<[fd := nfds s + 1]> (pollidx s))).

Definition poll_clear (events : Z) (p : pollfd) : pollfd :=
  let e := pfd_events p in
  let e := if has events EV_READ then Z.land e (Z.lnot POLLIN) else e in
  let e := if has events EV_WRITE then Z.land e (Z.lnot POLLOUT) else e in
  mkPollfd (pfd_fd p) e (pfd_revents p).

Definition poll_del (s : pollop) (fd events : Z) : outcome (Z * pollop) :=
  _ ← assert_c (negb (has events EV_SIGNAL));
  if negb (has events (Z.lor EV_READ EV_WRITE)) then Done (0, s) else
  let i := poll_idx s fd - 1 in
  if i <? 0 then Done (-1, s) else
  p ← deref (event_set s !! Z.to_nat i);
  let p := poll_clear events p in
  let l := <[Z.to_nat i := p]> (event_set s) in
  if negb (pfd_events p =? 0) then Done (0, with_set s l (pollidx s)) else
  let idx := <[fd := 0]> (pollidx s) in
  let n := nfds s - 1 in
  if negb (i =? n) then
    q ← deref (l !! Z.to_nat n);
    _ ← assert_c (default 0 (idx !! pfd_fd q) =? n + 1);
    Done (0, with_set s (<[Z.to_nat i := q]> (ztake n l)) (<[pfd_fd q := i + 1]> idx))
  else Done (0, with_set s (ztake n l) idx).

(** ** Waiting *)

Definition poll_timeout (tv : option timeval) : Z :=
  match tv with
  | None => -1
  | Some tv =>
      let msec := evutil_tv_to_msec_ tv in
      if (msec <? 0) || (INT_MAX <? msec) then INT_MAX else msec
  end.

(** The conditions reported for [what]. *)
Definition poll_what (what : Z) : Z :=
  let what := if has what (Z.lor POLLHUP (Z.lor POLLERR POLLNVAL))
              then Z.lor what (Z.lor POLLIN POLLOUT) else what in
  Z.lor (bit (has what POLLIN) EV_READ) (bit (has what POLLOUT) EV_WRITE).

(** The calls of [evmap_io_active_], in the order of the scan. *)
Definition poll_reports (set : list pollfd) (order : list Z) : list (Z * Z) :=
  i ← order;
  match set !! Z.to_nat i with
  | None => []
  | Some p => if (pfd_revents p =? 0) || (poll_what (pfd_revents p) =? 0) then []
              else [(pfd_fd p, poll_what (pfd_revents p))]
  end.

Definition with_revents (p : pollfd) (r : Z) : pollfd := mkPollfd (pfd_fd p) (pfd_events p) r.

Section Dispatch.
Variable poll : list pollfd -> Z -> Z + Z * list Z.

(** The array given to [poll], and the state; [None] when the copy cannot be
    allocated. *)
Definition poll_array (threads mem : bool) (s : pollop) : outcome (option (list pollfd * pollop)) :=
  if threads then
    if realloc_copy s && negb mem then Done None else
    let s := if realloc_copy s
             then mkPollop (event_set s) (poll_event_count s) false (poll_event_count s) (pollidx s)
             else s in
    _ ← assert_c (nfds s <=? copy_count s);
    Done (Some (event_set s, s))
  else Done (Some (event_set s, s)).

Definition poll_dispatch (threads mem : bool) (start : Z) (s : pollop) (tv : option timeval)
    (b : event_base) : outcome (Z * pollop * event_base) :=
  o ← poll_array threads mem s;
  match o with
  | None => Done (-1, s, b)
  | Some (array, s) =>
      match poll array (poll_timeout tv) with
      | inl errno => Done (if errno =? EINTR then 0 else -1, s, b)
      | inr (res, revents) =>
          let array := zip_with with_revents array revents in
          let s := if threads then s else with_set s array (pollidx s) in
          if (res =? 0) || (nfds s =? 0) then Done (0, s, b) else
          b ← activate_all (poll_reports array (scan_from (length array) start (nfds s))) b;
          Done (0, s, b)
      end
  end.

End Dispatch.

#[export] Instance poll_backend : Backend pollop := fun mem s old o =>
  match o with
  | FdAdd fd ev => poll_add mem s fd ev
  | FdDel fd ev => poll_del s fd ev
  end.

(** ** What the state represents *)

Definition POLL_EVENTS : Z := Z.lor EV_READ EV_WRITE.

Definition to_poll (m : Z) : Z :=
  Z.lor (bit (has m EV_READ) POLLIN) (bit (has m EV_WRITE) POLLOUT).

Record poll_ok (s : pollop) : Prop := {
  po_index : indexed (pfd_fd <$> event_set s) (poll_idx s);
  po_room : nfds s < poll_event_count s \/ nfds s = 0 /\ poll_event_count s = 0;
  po_copy : realloc_copy s = false -> copy_count s = poll_event_count s
}.

(** Every descriptor that is watched has its entry, with exactly its events;
    the others have none. *)
Definition poll_represents (s : pollop) (m : Z -> Z) : Prop :=
  poll_ok s /\
  (forall i p, event_set s !! i = Some p -> pfd_events p = to_poll (m (pfd_fd p)) /\ pfd_events p <> 0) /\
  (forall fd, poll_idx s fd = 0 -> to_poll (m fd) = 0).

(** ** The operations *)

Lemma poll_set_events ev p m :
  pfd_events p = to_poll m -> pfd_events (poll_set ev p) = to_poll (Z.lor m (Z.land ev POLL_EVENTS)).
Proof.
  intros H. unfold poll_set, to_poll. rewrite !has_lor_l. simpl. rewrite H. unfold to_poll.
  rewrite (has_land ev POLL_EVENTS EV_READ), (has_land ev POLL_EVENTS EV_WRITE) by done.
  by destruct (has ev EV_READ), (has ev EV_WRITE), (has m EV_READ), (has m EV_WRITE).
Qed.

Lemma poll_clear_events ev p m :
  pfd_events p = to_poll m -> pfd_events (poll_clear ev p) = to_poll (Z.land m (Z.lnot ev)).
Proof.
  intros H. unfold poll_clear, to_poll. simpl. rewrite H. unfold to_poll.
  change EV_READ with (2 ^ 1). change EV_WRITE with (2 ^ 2). rewrite !has_clear by done.
  by destruct (has ev (2 ^ 1)), (has ev (2 ^ 2)), (has m (2 ^ 1)), (has m (2 ^ 2)).
Qed.

Lemma represents_ext s m m' :
  (forall fd, to_poll (m' fd) = to_poll (m fd)) -> poll_represents s m -> poll_represents s m'.
Proof.
  intros H (Hok & He & Hn). split; [done|]. split.
  - intros i p Hp. rewrite H. by eapply He.
  - intros fd. rewrite H. auto.
Qed.

Lemma mask_step_to_poll m o fd :
  to_poll (mask_step POLL_EVENTS m o fd) =
  if fd =? op_fd o then
    to_poll (match o with FdAdd _ ev => Z.lor (m fd) (Z.land ev POLL_EVENTS)
             | FdDel _ ev => Z.land (m fd) (Z.lnot ev) end)
  else to_poll (m fd).
Proof. destruct o; simpl; by destruct (fd =? _). Qed.

(** A call that names no event for which [poll] can wait. *)
Lemma idle_step s m o :
  has (op_events o) (Z.lor EV_READ EV_WRITE) = false -> poll_represents s m ->
  poll_represents s (mask_step POLL_EVENTS m o).
Proof.
  intros H. apply represents_ext. intros fd. rewrite mask_step_to_poll. case_test; [|done].
  rewrite has_lor_r in H. zb. destruct o as [f ev|f ev]; simpl in *; unfold to_poll.
  - rewrite !has_lor_l. rewrite (has_land ev POLL_EVENTS EV_READ), (has_land ev POLL_EVENTS EV_WRITE) by done.
    by rewrite H, H0, !orb_false_r.
  - change EV_READ with (2 ^ 1) in *. change EV_WRITE with (2 ^ 2) in *. rewrite !has_clear by done.
    by rewrite H, H0, !andb_true_r.
Qed.

Lemma poll_grow_spec mem s :
  poll_ok s -> returns (poll_grow mem s) (fun '(ok, s') =>
    event_set s' = event_set s /\ pollidx s' = pollidx s /\
    if ok then poll_ok s' /\ nfds s' + 1 < poll_event_count s' else mem = false /\ s' = s).
Proof.
  intros Hok. unfold poll_grow. destruct (poll_event_count s <=? nfds s + 1) eqn:E; zb.
  2:{ apply returns_done. split; [done|]. split; [done|]. split; [done|lia]. }
  apply (returns_bind _ _ (fun n => nfds s + 1 < n)).
  - pose proof (po_room _ Hok). pose proof (indexed_len _ _ (po_index _ Hok)) as Hl.
    unfold nfds, zlen in *. rewrite length_fmap in Hl. unfold MAX_FD in Hl.
    destruct (poll_event_count s <? 32) eqn:E2; zb; [apply returns_done; lia|].
    replace (poll_event_count s * 2 <=? INT_MAX) with true by (unfold INT_MAX; lia).
    apply returns_done. lia.
  - intros n Hn. destruct mem; apply returns_done; [|done]. split; [done|]. split; [done|].
    split; [|done]. split; [apply (po_index _ Hok)|left|done].
    unfold nfds in *. simpl. lia.
Qed.

Lemma set_entry s m fd i p p' m' :
  poll_represents s m -> poll_idx s fd = Z.of_nat i + 1 -> event_set s !! i = Some p ->
  pfd_fd p' = pfd_fd p -> pfd_fd p = fd -> pfd_events p' = to_poll (m' fd) -> pfd_events p' <> 0 ->
  (forall g, g <> fd -> m' g = m g) ->
  poll_represents (with_set s (<[i := p']> (event_set s)) (pollidx s)) m'.
Proof.
  intros (Hok & He & Hn) Hi Hp Hf Hfd Hev Hne Hm. split; [|split].
  - split; simpl; [|unfold nfds, zlen; simpl; rewrite length_insert; apply (po_room _ Hok)|apply (po_copy _ Hok)].
    replace (pfd_fd <$> <[i := p']> (event_set s)) with (pfd_fd <$> event_set s); [apply (po_index _ Hok)|].
    rewrite list_fmap_insert, Hf. symmetry. apply list_insert_id. by rewrite list_lookup_fmap, Hp.
  - intros j q Hq. simpl in Hq. destruct (decide (i = j)) as [<-|Hij].
    + rewrite list_lookup_insert_eq in Hq by (by eapply lookup_lt_Some). injection Hq as <-.
      by rewrite Hf, Hfd.
    + rewrite list_lookup_insert_ne in Hq by done. destruct (He _ _ Hq) as [Hqe Hq0].
      rewrite Hm; [done|]. intros Hg.
      destruct (ix_entry _ _ (po_index _ Hok) j (pfd_fd q)) as [_ Hj]; [by rewrite list_lookup_fmap, Hq|].
      rewrite Hg in Hj. lia.
  - intros g Hg. change (poll_idx s g = 0) in Hg. rewrite Hm by (intros ->; lia). auto.
Qed.

Lemma push_entry s m fd p m' :
  poll_represents s m -> 0 <= fd < MAX_FD -> poll_idx s fd = 0 ->
  pfd_fd p = fd -> pfd_events p = to_poll (m' fd) -> pfd_events p <> 0 ->
  (forall g, g <> fd -> m' g = m g) ->
  nfds s + 1 < poll_event_count s ->
  poll_represents (with_set s (event_set s ++ [p]) (<[fd := nfds s + 1]> (pollidx s))) m'.
Proof.
  intros (Hok & He & Hn) Hr H0 Hf Hev Hne Hm Hroom2.
  assert (forall g, g <> fd -> default 0 ((<[fd := nfds s + 1]> (pollidx s) : gmap Z Z) !! g) = poll_idx s g) as Hg.
  { intros g Hgf. by rewrite lookup_insert_ne. }
  split; [|split].
  - split; simpl; [|unfold nfds in *; simpl; rewrite zlen_app, zlen_cons, zlen_nil; lia|apply (po_copy _ Hok)].
    rewrite fmap_app. simpl. rewrite Hf. eapply indexed_push; [apply (po_index _ Hok)|done|done| |done].
    unfold poll_idx. simpl. rewrite lookup_insert_eq. simpl. unfold nfds, zlen. by rewrite length_fmap.
  - intros j q Hq. simpl in Hq. apply lookup_app_Some in Hq as [Hq|[_ Hq]].
    + destruct (He _ _ Hq). rewrite Hm; [done|]. intros Hx.
      destruct (ix_entry _ _ (po_index _ Hok) j (pfd_fd q)) as [_ Hj]; [by rewrite list_lookup_fmap, Hq|].
      rewrite Hx in Hj. lia.
    + apply list_lookup_singleton_Some in Hq as [_ <-]. by rewrite Hf.
  - intros g Hx. unfold poll_idx in Hx. simpl in Hx. destruct (decide (g = fd)) as [->|Hgf].
    + rewrite lookup_insert_eq in Hx. simpl in Hx. pose proof (zlen_nonneg (event_set s)). unfold nfds in Hx. lia.
    + rewrite Hm by done. apply Hn. by rewrite <- Hg.
Qed.

Lemma poll_add_spec mem s m fd ev :
  poll_represents s m -> op_ok (FdAdd fd ev) ->
  returns (poll_add mem s fd ev) (fun '(r, s') =>
    (r = 0 /\ poll_represents s' (mask_step POLL_EVENTS m (FdAdd fd ev))) \/
    (r = -1 /\ mem = false /\ s' = s)).
Proof.
  intros Hrep [Hfd Hsg]. simpl in Hfd, Hsg. unfold poll_add. rewrite Hsg. simpl.
  destruct (has ev (Z.lor EV_READ EV_WRITE)) eqn:Hrw; simpl.
  2:{ apply returns_done. left. split; [done|]. by apply (idle_step s m (FdAdd fd ev)). }
  eapply returns_bind; [apply (poll_grow_spec mem s), Hrep|].
  intros [[] s1] (Hset & Hidx & Hg); cbn [negb]; [|apply returns_done; right; tauto].
  destruct Hg as [Hok1 Hroom].
  assert (poll_represents s1 m) as Hrep1.
  { split; [done|]. destruct Hrep as (_ & He & Hn). unfold poll_idx in *. by rewrite Hset, Hidx. }
  clear Hrep. pose proof Hrep1 as (_ & He & Hn).
  set (m' := mask_step POLL_EVENTS m (FdAdd fd ev)).
  assert (forall g, g <> fd -> m' g = m g) as Hm.
  { intros g Hg. unfold m'. simpl. by rewrite (proj2 (Z.eqb_neq g fd) Hg). }
  assert (m' fd = Z.lor (m fd) (Z.land ev POLL_EVENTS)) as Hmfd.
  { unfold m'. simpl. by rewrite Z.eqb_refl. }
  assert (to_poll (m' fd) <> 0) as Hne.
  { rewrite Hmfd. unfold to_poll. rewrite !has_lor_l.
    rewrite (has_land ev POLL_EVENTS EV_READ), (has_land ev POLL_EVENTS EV_WRITE) by done.
    rewrite has_lor_r in Hrw. by destruct (has ev EV_READ), (has ev EV_WRITE),
      (has (m fd) EV_READ), (has (m fd) EV_WRITE). }
  destruct (decide (poll_idx s1 fd = 0)) as [H0|H0].
  - rewrite H0. simpl. rewrite (proj2 (Z.ltb_lt _ _)) by lia. simpl. apply returns_done. left.
    split; [done|]. apply (push_entry s1 m fd); try done.
    + rewrite Hmfd. apply poll_set_events. simpl. by rewrite Hn.
    + rewrite (poll_set_events ev _ (m fd)); [by rewrite <- Hmfd|]. simpl. by rewrite Hn.
  - destruct (ix_back _ _ (po_index _ Hok1) _ H0) as (i & Hi & Hp). rewrite Hi.
    rewrite (proj2 (Z.leb_le 0 (Z.of_nat i + 1 - 1))) by lia.
    replace (Z.to_nat (Z.of_nat i + 1 - 1)) with i by lia.
    apply list_lookup_fmap_Some in Hp as (p & Hf & Hp). rewrite Hp. simpl. apply returns_done. left.
    split; [done|]. destruct (He _ _ Hp) as [Hpe _]. rewrite <- Hf in Hpe.
    apply (set_entry s1 m fd i p); try done.
    + rewrite Hmfd. by apply poll_set_events.
    + rewrite (poll_set_events ev _ (m fd)) by done. by rewrite <- Hmfd.
Qed.

(** The entry of [fd] is dropped: the last one takes its place. *)
Lemma drop_last s m fd i m' idx :
  poll_represents s m -> poll_idx s fd = Z.of_nat i + 1 -> Z.of_nat i = nfds s - 1 ->
  to_poll (m' fd) = 0 -> (forall g, g <> fd -> m' g = m g) -> idx = <[fd := 0]> (pollidx s) ->
  poll_represents (with_set s (take i (event_set s)) idx) m'.
Proof.
  intros (Hok & He & Hn) Hi Hlast H0 Hm ->. pose proof (po_index _ Hok) as Hix.
  assert (event_set s !! i <> None) as Hsome.
  { apply not_eq_None_Some, lookup_lt_is_Some_2. unfold nfds, zlen in Hlast. lia. }
  apply not_eq_None_Some in Hsome as [p Hp].
  assert (pfd_fd p = fd) as Hf.
  { destruct (ix_back _ _ Hix fd) as (j & Hj & Hjp); [lia|]. replace j with i in Hjp by lia.
    rewrite list_lookup_fmap, Hp in Hjp. by injection Hjp. }
  assert (event_set s = take i (event_set s) ++ [p]) as Hsplit.
  { rewrite <- (take_drop i (event_set s)) at 1. f_equal. rewrite (drop_S _ p) by done.
    rewrite drop_ge; [done|]. unfold nfds, zlen in Hlast. lia. }
  assert (forall g, g <> fd -> default 0 ((<[fd := 0]> (pollidx s) : gmap Z Z) !! g) = poll_idx s g) as Hg.
  { intros g Hgf. by rewrite lookup_insert_ne. }
  assert (pfd_fd <$> event_set s = (pfd_fd <$> take i (event_set s)) ++ [fd]) as Hkeys.
  { rewrite Hsplit at 1. by rewrite fmap_app, <- Hf. }
  split; [|split].
  - split; simpl; [|unfold nfds, zlen in *; simpl; rewrite length_take; pose proof (po_room _ Hok); unfold nfds, zlen in *; lia|apply (po_copy _ Hok)].
    apply (indexed_pop _ _ Hix fd _ _ Hkeys); [|done].
    unfold poll_idx. simpl. by rewrite lookup_insert_eq.
  - intros j q Hq. simpl in Hq. pose proof Hq as [Hq' Hlt]%lookup_take_Some.
    destruct (He _ _ Hq'). rewrite Hm; [done|]. intros Hx.
    destruct (ix_entry _ _ Hix j (pfd_fd q)) as [_ Hj]; [by rewrite list_lookup_fmap, Hq'|].
    rewrite Hx in Hj. lia.
  - intros g Hx. unfold poll_idx in Hx. simpl in Hx. destruct (decide (g = fd)) as [->|Hgf]; [done|].
    rewrite Hm by done. apply Hn. by rewrite <- Hg.
Qed.

Lemma drop_middle s m fd i n q m' idx :
  poll_represents s m -> poll_idx s fd = Z.of_nat i + 1 -> (i < n)%nat -> length (event_set s) = S n ->
  event_set s !! n = Some q ->
  to_poll (m' fd) = 0 -> (forall g, g <> fd -> m' g = m g) ->
  idx = <[pfd_fd q := Z.of_nat i + 1]> (<[fd := 0]> (pollidx s)) ->
  poll_represents (with_set s (<[i := q]> (take n (event_set s))) idx) m'.
Proof.
  intros (Hok & He & Hn) Hi Hlt Hlen Hq H0 Hm ->. pose proof (po_index _ Hok) as Hix.
  destruct (ix_back _ _ Hix fd) as (j & Hj & Hjp); [lia|]. replace j with i in Hjp by lia. clear j Hj.
  assert (pfd_fd q <> fd) as Hqf.
  { intros Hx. destruct (ix_entry _ _ Hix n (pfd_fd q)) as [_ Hj]; [by rewrite list_lookup_fmap, Hq|].
    rewrite Hx in Hj. lia. }
  assert (event_set s = take n (event_set s) ++ [q]) as Hsplit.
  { rewrite <- (take_drop n (event_set s)) at 1. f_equal. rewrite (drop_S _ q) by done.
    by rewrite drop_ge by lia. }
  assert (pfd_fd <$> event_set s = (pfd_fd <$> take n (event_set s)) ++ [pfd_fd q]) as Hkeys.
  { rewrite Hsplit at 1. by rewrite fmap_app. }
  set (idx := <[pfd_fd q := _]> _).
  assert (forall g, g <> fd -> g <> pfd_fd q -> default 0 (idx !! g) = poll_idx s g) as Hg.
  { intros g H1 H2. unfold idx. by rewrite !lookup_insert_ne. }
  assert (default 0 (idx !! fd) = 0) as Hidxf.
  { unfold idx. rewrite lookup_insert_ne by done. by rewrite lookup_insert_eq. }
  assert (default 0 (idx !! pfd_fd q) = Z.of_nat i + 1) as Hidxq by (unfold idx; by rewrite lookup_insert_eq).
  split; [|split].
  - split; simpl.
    + rewrite list_fmap_insert. apply (indexed_swap_remove _ _ Hix fd _ _ _ i Hkeys); try done.
      rewrite Hkeys in Hjp. apply lookup_app_Some in Hjp as [|[Hge _]]; [done|].
      rewrite length_fmap, length_take in Hge. lia.
    + unfold nfds, zlen. simpl. rewrite length_insert, length_take.
      pose proof (po_room _ Hok). unfold nfds, zlen in *. lia.
    + apply (po_copy _ Hok).
  - intros j p Hp. simpl in Hp. destruct (decide (i = j)) as [<-|Hij].
    + rewrite list_lookup_insert_eq in Hp by (rewrite length_take; lia). injection Hp as <-.
      rewrite Hm by done. by eapply He.
    + rewrite list_lookup_insert_ne in Hp by done. pose proof Hp as [Hp' _]%lookup_take_Some.
      destruct (He _ _ Hp'). rewrite Hm; [done|]. intros Hx.
      destruct (ix_entry _ _ Hix j (pfd_fd p)) as [_ Hj]; [by rewrite list_lookup_fmap, Hp'|].
      rewrite Hx in Hj. lia.
  - intros g Hx. change (default 0 (idx !! g) = 0) in Hx. destruct (decide (g = fd)) as [->|Hgf]; [done|].
    destruct (decide (g = pfd_fd q)) as [->|Hgq]; [lia|]. rewrite Hm by done. apply Hn. by rewrite <- Hg.
Qed.

Lemma poll_del_spec s m fd ev :
  poll_represents s m -> op_ok (FdDel fd ev) ->
  returns (poll_del s fd ev) (fun '(r, s') =>
    (r = 0 /\ poll_represents s' (mask_step POLL_EVENTS m (FdDel fd ev))) \/
    (r = -1 /\ to_poll (m fd) = 0 /\ s' = s)).
Proof.
  intros Hrep [Hfd Hsg]. simpl in Hfd, Hsg. unfold poll_del. rewrite Hsg. cbn [negb assert_c mbind outcome_bind].
  destruct (has ev (Z.lor EV_READ EV_WRITE)) eqn:Hrw; cbn [negb].
  2:{ apply returns_done. left. split; [done|]. by apply (idle_step s m (FdDel fd ev)). }
  pose proof Hrep as (Hok & He & Hn). pose proof (po_index _ Hok) as Hix.
  set (m' := mask_step POLL_EVENTS m (FdDel fd ev)).
  assert (forall g, g <> fd -> m' g = m g) as Hm.
  { intros g Hg. unfold m'. simpl. by rewrite (proj2 (Z.eqb_neq g fd) Hg). }
  assert (m' fd = Z.land (m fd) (Z.lnot ev)) as Hmfd by (unfold m'; simpl; by rewrite Z.eqb_refl).
  destruct (decide (poll_idx s fd = 0)) as [H0|H0].
  { rewrite H0. simpl. apply returns_done. right. auto. }
  destruct (ix_back _ _ Hix _ H0) as (i & Hi & Hk). rewrite Hi.
  rewrite (proj2 (Z.ltb_ge (Z.of_nat i + 1 - 1) 0)) by lia.
  replace (Z.to_nat (Z.of_nat i + 1 - 1)) with i by lia.
  apply list_lookup_fmap_Some in Hk as (p & Hf & Hp). rewrite Hp. cbn [deref mbind outcome_bind].
  destruct (He _ _ Hp) as [Hpe _]. rewrite <- Hf in Hpe.
  pose proof (poll_clear_events ev p _ Hpe) as Hcl. rewrite <- Hmfd in Hcl.
  destruct (pfd_events (poll_clear ev p) =? 0) eqn:Ez; zb; cbn [negb].
  2:{ apply returns_done. left. split; [done|]. by apply (set_entry s m fd i p). }
  rewrite Ez in Hcl. pose proof (lookup_lt_Some _ _ _ Hp) as Hlt.
  replace (Z.of_nat i + 1 - 1) with (Z.of_nat i) by lia.
  destruct (Z.of_nat i =? nfds s - 1) eqn:El; zb; cbn [negb].
  - apply returns_done. left. split; [done|].
    assert (ztake (nfds s - 1) (<[i := poll_clear ev p]> (event_set s)) = take i (event_set s)) as ->.
    { unfold ztake. replace (Z.to_nat (nfds s - 1)) with i by lia. by rewrite take_insert_ge. }
    by apply (drop_last s m fd i).
  - unfold nfds, zlen in *. set (n := (length (event_set s) - 1)%nat).
    destruct (lookup_lt_is_Some_2 (event_set s) n) as [q Hq]; [lia|].
    replace (Z.to_nat (Z.of_nat (length (event_set s)) - 1)) with n by lia.
    rewrite list_lookup_insert_ne by lia. rewrite Hq. cbn [deref mbind outcome_bind].
    destruct (ix_entry _ _ Hix n (pfd_fd q)) as [_ Hqi]; [by rewrite list_lookup_fmap, Hq|].
    assert (pfd_fd q <> fd) as Hqf by (intros Hx; rewrite Hx in Hqi; lia).
    rewrite lookup_insert_ne by done. change (default 0 (pollidx s !! pfd_fd q)) with (poll_idx s (pfd_fd q)).
    rewrite (proj2 (Z.eqb_eq _ _)) by lia. cbn [assert_c mbind outcome_bind].
    apply returns_done. left. split; [done|].
    assert (<[i := q]> (ztake (Z.of_nat (length (event_set s)) - 1) (<[i := poll_clear ev p]> (event_set s))) =
            <[i := q]> (take n (event_set s))) as ->.
    { unfold ztake. replace (Z.to_nat (Z.of_nat (length (event_set s)) - 1)) with n by lia.
      rewrite take_insert_lt by lia. by rewrite list_insert_insert_eq. }
    apply (drop_middle s m fd i n q); try done; lia.
Qed.

#[export] Program Instance poll_laws : BackendLaws pollop POLL_EVENTS := {
  represents := poll_represents
}.
Next Obligation.
  intros mem s m o Hs Ho. destruct o as [fd ev|fd ev]; simpl.
  - eapply returns_mono; [by apply poll_add_spec|]. intros [r s'] [?|(-> & _ & ->)]; auto.
  - eapply returns_mono; [by apply poll_del_spec|]. intros [r s'] [?|(-> & _ & ->)]; auto.
Qed.

(** ** Waiting *)

Lemma with_revents_fields l rs : length rs = length l ->
  (pfd_fd <$> zip_with with_revents l rs) = (pfd_fd <$> l) /\
  (pfd_events <$> zip_with with_revents l rs) = (pfd_events <$> l) /\
  length (zip_with with_revents l rs) = length l.
Proof.
  revert rs. induction l as [|p l IH]; intros [|r rs] Hl; try done. simpl in *.
  destruct (IH rs) as (H1 & H2 & H3); [lia|]. split; [|split]; simpl; f_equal; assumption.
Qed.

Lemma represents_same s l m idx :
  poll_represents s m -> (pfd_fd <$> l) = (pfd_fd <$> event_set s) ->
  (pfd_events <$> l) = (pfd_events <$> event_set s) -> idx = pollidx s ->
  poll_represents (with_set s l idx) m.
Proof.
  intros (Hok & He & Hn) Hf Hev ->. pose proof (f_equal length Hf) as Hlen. rewrite !length_fmap in Hlen.
  split; [|split; [|done]].
  - split; simpl; [rewrite Hf; apply (po_index _ Hok)| |apply (po_copy _ Hok)].
    unfold nfds, zlen. simpl. rewrite Hlen. apply (po_room _ Hok).
  - intros i p Hp. simpl in Hp.
    pose proof (f_equal (fun k => k !! i) Hf) as H1. pose proof (f_equal (fun k => k !! i) Hev) as H2.
    rewrite !list_lookup_fmap, Hp in H1, H2. simpl in H1, H2.
    destruct (event_set s !! i) as [q|] eqn:Hq; [|done]. simpl in H1, H2. simplify_eq. rewrite H1, H2.
    by eapply He.
Qed.

Lemma poll_array_spec threads mem s m :
  poll_represents s m -> returns (poll_array threads mem s) (fun o => match o with
    | None => mem = false
    | Some (array, s') => array = event_set s /\ event_set s' = event_set s /\ poll_represents s' m
    end).
Proof.
  intros (Hok & He & Hn). unfold poll_array. destruct threads; [|by apply returns_done].
  destruct (realloc_copy s && negb mem) eqn:E; [apply returns_done; zb; done|].
  destruct (realloc_copy s) eqn:Hr; cbv zeta.
  - rewrite (proj2 (Z.leb_le _ _)); [|simpl; destruct (po_room _ Hok); unfold nfds in *; simpl; lia].
    apply returns_done. split; [done|]. split; [done|]. split; [|done].
    split; simpl; [apply (po_index _ Hok)|apply (po_room _ Hok)|done].
  - rewrite (proj2 (Z.leb_le _ _)); [by apply returns_done|].
    rewrite (po_copy _ Hok Hr). destruct (po_room _ Hok); lia.
Qed.

Lemma reports_fds_poll s m order rs :
  poll_represents s m -> length rs = length (event_set s) ->
  Forall (fun p => 0 <= fst p) (poll_reports (zip_with with_revents (event_set s) rs) order).
Proof.
  intros (Hok & _) Hl. destruct (with_revents_fields _ _ Hl) as (Hf & _).
  apply Forall_forall. intros x Hx. apply list_elem_of_bind in Hx as (i & Hx & _).
  destruct (_ !! _) as [p|] eqn:Hp; [|by apply not_elem_of_nil in Hx].
  destruct (_ || _); [by apply not_elem_of_nil in Hx|]. apply list_elem_of_singleton in Hx as ->. simpl.
  assert ((pfd_fd <$> event_set s) !! Z.to_nat i = Some (pfd_fd p)) as Hk
    by (by rewrite <- Hf, list_lookup_fmap, Hp).
  destruct (ix_entry _ _ (po_index _ Hok) _ _ Hk). lia.
Qed.

(** ** Theorems *)

(** C35: After any sequence of calls, whatever allocations fail, the array given
    to poll(2) has one entry for each descriptor some event waits on, with
    exactly the events waited for, and no other: no assertion of the code
    fails, entries moved by a deletion keep their index, and the array never
    outgrows its allocation. *)
Theorem poll_set_is_the_interest ops :
  Forall (fun p => op_ok p.2) ops ->
  returns (be_run POLL_EVENTS ops poll_init (fun _ => 0)) (fun '(s, m) =>
    NoDup (pfd_fd <$> event_set s) /\ nfds s <= poll_event_count s /\
    forall fd e, (exists p, p ∈ event_set s /\ pfd_fd p = fd /\ pfd_events p = e) <->
                 e = to_poll (m fd) /\ e <> 0).
Proof.
  intros Hops. eapply returns_mono; [apply (run_represents POLL_EVENTS ops)|].
  - split; [split; [split; [done|done]|by right|done]|done].
  - done.
  - intros [s m] (Hok & He & Hn). split; [eapply indexed_NoDup, Hok|].
    split; [destruct (po_room _ Hok); lia|]. intros fd e. split.
    + intros (p & (i & Hp)%list_elem_of_lookup & <- & <-). by eapply He.
    + intros [-> Hne]. destruct (decide (poll_idx s fd = 0)) as [H0|H0]; [by destruct Hne; auto|].
      pose proof (indexed_at _ _ (po_index _ Hok) fd H0) as (p & Hf & Hp)%list_lookup_fmap_Some.
      exists p. split; [by eapply list_elem_of_lookup_2|]. split; [done|]. rewrite Hf. by eapply He.
Qed.

(** One [poll_dispatch] copies no more than the copy holds, keeps the set
    of descriptors and the invariant of the base, and from whatever random
    place it starts reports every entry exactly once. *)
Theorem poll_dispatch_reports_each_once poll exact threads mem start s tv b m :
  (forall l t res rs, poll l t = inr (res, rs) -> length rs = length l) ->
  poll_represents s m -> eb_inv exact b -> (0 <= start < nfds s \/ nfds s = 0) ->
  returns (poll_dispatch poll threads mem start s tv b) (fun '(r, s', b') =>
    poll_represents s' m /\ eb_inv exact b' /\
    (b' = b \/ exists res rs order, poll (event_set s) (poll_timeout tv) = inr (res, rs) /\
       order ≡ₚ seqZ 0 (nfds s) /\
       forall y, evs b' !! y =
         reported (poll_reports (zip_with with_revents (event_set s) rs) order) <$> evs b !! y)).
Proof.
  intros Hpoll Hrep Hi Hst. unfold poll_dispatch.
  eapply returns_bind; [by apply (poll_array_spec threads mem s m)|].
  intros [[array s1]|] Ho; [|apply returns_done; auto]. destruct Ho as (-> & Hset & Hrep1).
  destruct (poll (event_set s) (poll_timeout tv)) as [errno|[res rs]] eqn:Hp; [by apply returns_done; auto|].
  pose proof (Hpoll _ _ _ _ Hp) as Hlen. destruct (with_revents_fields _ _ Hlen) as (Hf & Hev & Hl).
  set (array := zip_with _ _ _) in *. cbv zeta.
  set (s2 := if threads then s1 else _).
  assert (poll_represents s2 m /\ nfds s2 = nfds s) as [Hrep2 Hn2].
  { unfold s2. destruct threads; [by unfold nfds; rewrite Hset|].
    split; [apply represents_same; rewrite ?Hset; done|]. unfold nfds, zlen. simpl. by rewrite Hl. }
  destruct ((res =? 0) || (nfds s2 =? 0)) eqn:E; [by apply returns_done; auto|]. zb.
  eapply returns_bind.
  { apply (activate_all_spec exact); [done|]. by apply (reports_fds_poll s m). }
  intros b' [[Hi' _] Hb']. apply returns_done. split; [done|]. split; [done|]. right.
  exists res, rs, (scan_from (length array) start (nfds s2)). split; [done|]. split; [|done].
  rewrite Hl. replace (length (event_set s)) with (Z.to_nat (nfds s2)) by (rewrite Hn2; unfold nfds, zlen; lia).
  rewrite <- Hn2. apply scan_visits_all. destruct Hst; lia.
Qed.

(** ** Witnesses *)

Definition poll_calls : list (bool * fd_op) :=
  [(true, FdAdd 5 EV_READ); (true, FdAdd 7 EV_WRITE); (true, FdAdd 9 EV_READ);
   (true, FdAdd 5 EV_WRITE); (true, FdDel 7 EV_WRITE); (false, FdAdd 11 EV_READ)].

Lemma poll_calls_ok : Forall (fun p => op_ok p.2) poll_calls.
Proof. repeat constructor; vm_compute; congruence. Qed.

Lemma poll_set_is_the_interest_witness :
  exists s m, be_run POLL_EVENTS poll_calls poll_init (fun _ => 0) = Done (s, m) /\
    event_set s = [mkPollfd 5 (Z.lor POLLIN POLLOUT) 0; mkPollfd 9 POLLIN 0; mkPollfd 11 POLLIN 0] /\
    NoDup (pfd_fd <$> event_set s).
Proof.
  destruct (poll_set_is_the_interest poll_calls poll_calls_ok) as ([s m] & Hr & Hnd & _).
  exists s, m. split; [exact Hr|]. split; [|exact Hnd].
  vm_compute in Hr. injection Hr as <- _. reflexivity.
Defined.

(** Every entry is reported readable. *)
Definition demo_poll (l : list pollfd) (t : Z) : Z + Z * list Z := inr (zlen l, replicate (length l) POLLIN).

Lemma poll_dispatch_reports_each_once_witness :
  exists r s' b', poll_dispatch demo_poll true true 0 poll_init None demo = Done (r, s', b') /\ eb_inv true b'.
Proof.
  destruct (poll_dispatch_reports_each_once demo_poll true true true 0 poll_init None demo (fun _ => 0))
    as ([[r s'] b'] & Hd & _ & Hi & _).
  - intros l t res rs [= _ <-]. apply length_replicate.
  - split; [split; [split; [discriminate|intros fd Hx; exfalso; exact (Hx eq_refl)]|right; split; reflexivity|reflexivity]|].
    split; [discriminate|reflexivity].
  - apply reachable_base_inv, demo_reachable.
  - right. reflexivity.
  - exists r, s', b'. split; [exact Hd|exact Hi].
Defined.
