(* ===== verification/Select.v ===== *)
(** * The select backend

    Models [libevent/select.c].  An [fd_set] in memory is the list of its bits:
    [FD_SET], [FD_CLR] and [FD_ISSET] outside the allocated bits are a crash.
    [event_fdsz] and the sizes of the copies given to the kernel are in bytes,
    as in the code; [junk] is what fresh memory of [mm_realloc] holds, and
    [mem] says which allocations succeed.  select(2) is a parameter: from
    [nfds] and the two sets, [errno] or the two sets it leaves. *)

From S2P Require Import Prelude MinHeap EventBase EventBaseInv EventBaseOps EventBaseAct EventCheck EventLoopInv EventApi EventSpec Indexed Changelist EpollTable Backend Epoll Dispatch EpollDispatch Poll.

Definition NFDBITS : Z := 64.
Definition sizeof_fd_mask : Z := 8.
Definition SELECT_ALLOC_SIZE (n : Z) : Z := (n + (NFDBITS - 1)) / NFDBITS * sizeof_fd_mask.

Record selectop := mkSelectop {
  event_fds : Z;
  event_fdsz : Z;
  resize_out_sets : bool;
  event_readset_in : list bool;
  event_writeset_in : list bool;
  readset_out_size : Z;
  writeset_out_size : Z
}.

(** ** Memory *)

(** [mm_realloc] to [n] bytes. *)
Definition realloc_set (junk : bool) (n : Z) (l : list bool) : list bool :=
  ztake (8 * n) l ++ replicate (Z.to_nat (8 * n - zlen l)) junk.

(** [memset] to 0 of the bytes from [a] to [b]. *)
Definition clear_bytes (a b : Z) (l : list bool) : list bool :=
  ztake (8 * a) l ++ replicate (Z.to_nat (8 * b - 8 * a)) false ++ zdrop (8 * b) l.

Definition FD_PUT (v : bool) (fd : Z) (l : list bool) : outcome (list bool) :=
  if (0 <=? fd) && (fd <? zlen l) then Done (<[Z.to_nat fd := v]> l) else Crash.
Definition FD_SET := FD_PUT true.
Definition FD_CLR := FD_PUT false.
Definition FD_ISSET (fd : Z) (l : list bool) : bool := default false (l !! Z.to_nat fd).

(** ** Operations *)

(** [mem1] and [mem2]: the two [mm_realloc]. *)
Definition select_resize (mem1 mem2 junk : bool) (s : selectop) (fdsz : Z) : bool * selectop :=
  if negb mem1 then (false, s) else
  let readset_in := realloc_set junk fdsz (event_readset_in s) in
  if negb mem2
  then (false, mkSelectop (event_fds s) (event_fdsz s) (resize_out_sets s) readset_in
                 (event_writeset_in s) (readset_out_size s) (writeset_out_size s))
  else
    (true, mkSelectop (event_fds s) fdsz true
             (clear_bytes (event_fdsz s) fdsz readset_in)
             (clear_bytes (event_fdsz s) fdsz (realloc_set junk fdsz (event_writeset_in s)))
             (readset_out_size s) (writeset_out_size s)).

(** [NULL] when an allocation fails. *)
Definition select_init (mem0 mem1 mem2 junk : bool) : option selectop :=
  if negb mem0 then None else
  let '(ok, s) := select_resize mem1 mem2 junk (mkSelectop 0 0 false [] [] 0 0)
                    (SELECT_ALLOC_SIZE (32 + 1)) in
  if ok then Some s else None.

(** [while (fdsz < size) fdsz *= 2;] *)
Fixpoint double_until (fuel : nat) (fdsz size : Z) : option Z :=
  if fdsz <? size then
    match fuel with O => None | S fuel => double_until fuel (fdsz * 2) size end
  else Some fdsz.

Definition set_fds (s : selectop) (fd : Z) : selectop :=
  mkSelectop fd (event_fdsz s) (resize_out_sets s) (event_readset_in s) (event_writeset_in s)
    (readset_out_size s) (writeset_out_size s).

Definition set_in (s : selectop) (r w : list bool) : selectop :=
  mkSelectop (event_fds s) (event_fdsz s) (resize_out_sets s) r w
    (readset_out_size s) (writeset_out_size s).

(** The sizes double from at least 8 bytes to at most those of an [int]. *)
Definition SELECT_FUEL : nat := 32.

Definition select_make_room (mem1 mem2 junk : bool) (s : selectop) (fd : Z)
    : outcome (bool * selectop) :=
  if event_fds s <? fd then
    let fdsz := if event_fdsz s <? sizeof_fd_mask then sizeof_fd_mask else event_fdsz s in
    fdsz ← deref (double_until SELECT_FUEL fdsz (SELECT_ALLOC_SIZE (fd + 1)));
    let '(ok, s) := if fdsz =? event_fdsz s then (true, s) else select_resize mem1 mem2 junk s fdsz in
    Done (ok, if ok then set_fds s fd else s)
  else Done (true, s).

Definition select_add (mem1 mem2 junk : bool) (s : selectop) (fd events : Z) : outcome (Z * selectop) :=
  _ ← assert_c (negb (has events EV_SIGNAL));
  '(ok, s) ← select_make_room mem1 mem2 junk s fd;
  if negb ok then Done (-1, s) else
  r ← (if has events EV_READ then FD_SET fd (event_readset_in s) else Done (event_readset_in s));
  w ← (if has events EV_WRITE then FD_SET fd (event_writeset_in s) else Done (event_writeset_in s));
  Done (0, set_in s r w).

Definition select_del (s : selectop) (fd events : Z) : outcome (Z * selectop) :=
  _ ← assert_c (negb (has events EV_SIGNAL));
  if event_fds s <? fd then Done (0, s) else
  r ← (if has events EV_READ then FD_CLR fd (event_readset_in s) else Done (event_readset_in s));
  w ← (if has events EV_WRITE then FD_CLR fd (event_writeset_in s) else Done (event_writeset_in s));
  Done (0, set_in s r w).

(** ** Waiting *)

Definition select_reports (r w : list bool) (order : list Z) : list (Z * Z) :=
  i ← order;
  let res := Z.lor (bit (FD_ISSET i r) EV_READ) (bit (FD_ISSET i w) EV_WRITE) in
  if res =? 0 then [] else [(i, res)].

Definition set_out (s : selectop) (resize : bool) (r w : Z) : selectop :=
  mkSelectop (event_fds s) (event_fdsz s) resize (event_readset_in s) (event_writeset_in s) r w.

(** The copies for the kernel; [None] when they cannot be allocated. *)
Definition select_copies (mem1 mem2 : bool) (s : selectop) : outcome (bool * selectop) :=
  if resize_out_sets s && negb mem1 then Done (false, s) else
  if resize_out_sets s && negb mem2
  then Done (false, set_out s true (event_fdsz s) (writeset_out_size s)) else
  let s := if resize_out_sets s then set_out s false (event_fdsz s) (event_fdsz s) else s in
  _ ← assert_c ((event_fdsz s <=? readset_out_size s) && (event_fdsz s <=? writeset_out_size s));
  _ ← assert_c ((8 * event_fdsz s <=? zlen (event_readset_in s)) &&
                (8 * event_fdsz s <=? zlen (event_writeset_in s)));
  Done (true, s).

Section Dispatch.
Variable select : Z -> list bool -> list bool -> option timeval -> Z + list bool * list bool.

Definition select_dispatch (mem1 mem2 : bool) (start : Z) (s : selectop) (tv : option timeval)
    (b : event_base) : outcome (Z * selectop * event_base) :=
  '(ok, s) ← select_copies mem1 mem2 s;
  if negb ok then Done (-1, s, b) else
  let nfds := event_fds s + 1 in
  let bits := 8 * event_fdsz s in
  match select nfds (ztake bits (event_readset_in s)) (ztake bits (event_writeset_in s)) tv with
  | inl errno => Done (if errno =? EINTR then 0 else -1, s, b)
  | inr (r, w) =>
      _ ← assert_c ((nfds <=? zlen r) && (nfds <=? zlen w));
      b ← activate_all (select_reports r w (scan_from (Z.to_nat nfds) start nfds)) b;
      Done (0, s, b)
  end.

End Dispatch.

(** An allocation that fails is the second of the two, the case that leaves one
    of the sets longer; fresh memory is full of ones. *)
#[export] Instance select_backend : Backend selectop := fun mem s old o =>
  match o with
  | FdAdd fd ev => select_add true mem true s fd ev
  | FdDel fd ev => select_del s fd ev
  end.

(** ** Memory lemmas *)

Lemma ISSET_app_l fd l k : 0 <= fd < zlen l -> FD_ISSET fd (l ++ k) = FD_ISSET fd l.
Proof. intros H. unfold FD_ISSET, zlen in *. by rewrite lookup_app_l by lia. Qed.

Lemma ISSET_ztake fd n l : 0 <= fd < n -> FD_ISSET fd (ztake n l) = FD_ISSET fd l.
Proof. intros H. unfold FD_ISSET, ztake. by rewrite lookup_take_lt by lia. Qed.

Lemma zlen_realloc junk n l : 0 <= n -> zlen (realloc_set junk n l) = 8 * n.
Proof. intros H. unfold realloc_set. rewrite zlen_app, zlen_ztake, zlen_replicate. pose proof (zlen_nonneg l). lia. Qed.

Lemma ISSET_realloc junk n l fd :
  0 <= fd < zlen l -> fd < 8 * n -> FD_ISSET fd (realloc_set junk n l) = FD_ISSET fd l.
Proof.
  intros H1 H2. unfold realloc_set. rewrite ISSET_app_l by (rewrite zlen_ztake; lia).
  apply ISSET_ztake. lia.
Qed.

Lemma zlen_clear a b l : 0 <= a <= b -> 8 * b <= zlen l -> zlen (clear_bytes a b l) = zlen l.
Proof. intros H1 H2. unfold clear_bytes. rewrite !zlen_app, zlen_ztake, zlen_zdrop, zlen_replicate. lia. Qed.

Lemma ISSET_clear a b l fd :
  0 <= a <= b -> 8 * b <= zlen l -> 0 <= fd < 8 * b ->
  FD_ISSET fd (clear_bytes a b l) = (fd <? 8 * a) && FD_ISSET fd l.
Proof.
  intros H1 H2 H3. unfold clear_bytes. destruct (fd <? 8 * a) eqn:E; zb; simpl.
  - rewrite ISSET_app_l by (rewrite zlen_ztake; lia). apply ISSET_ztake. lia.
  - unfold FD_ISSET, ztake. rewrite lookup_app_r by (rewrite length_take; lia).
    rewrite length_take. unfold zlen in H2.
    rewrite lookup_app_l by (rewrite length_replicate; lia).
    by rewrite lookup_replicate_2 by lia.
Qed.

Lemma ISSET_put v fd g l :
  0 <= fd < zlen l -> 0 <= g ->
  FD_ISSET g (<[Z.to_nat fd := v]> l) = if g =? fd then v else FD_ISSET g l.
Proof.
  intros H Hg. unfold FD_ISSET, zlen in *. destruct (g =? fd) eqn:E; zb.
  - subst. by rewrite list_lookup_insert_eq by lia.
  - by rewrite list_lookup_insert_ne by lia.
Qed.

(** A bit of the sets written or left by a call. *)
Lemma put_spec (v c : bool) fd l :
  0 <= fd < zlen l ->
  returns (if c then FD_PUT v fd l else Done l) (fun l' => zlen l' = zlen l /\
    forall g, 0 <= g -> FD_ISSET g l' = if c && (g =? fd) then v else FD_ISSET g l).
Proof.
  intros H. destruct c; [|by apply returns_done]. unfold FD_PUT.
  rewrite (proj2 (Z.leb_le 0 fd)), (proj2 (Z.ltb_lt fd (zlen l))) by lia. apply returns_done. split.
  - unfold zlen. by rewrite length_insert.
  - intros g Hg. by apply ISSET_put.
Qed.

(** ** Sizes *)

Lemma double_until_spec fuel d size :
  0 < d -> size <= d * 2 ^ Z.of_nat fuel ->
  exists d', double_until fuel d size = Some d' /\ d <= d' /\ size <= d' /\ (d' = d \/ d' < 2 * size).
Proof.
  revert d. induction fuel as [|fuel IH]; intros d Hd Hs; cbn [double_until].
  - rewrite Z.pow_0_r, Z.mul_1_r in Hs. rewrite (proj2 (Z.ltb_ge d size)) by done. exists d. split; [done|lia].
  - destruct (d <? size) eqn:E; zb; [|exists d; split; [done|lia]].
    replace (Z.of_nat (S fuel)) with (1 + Z.of_nat fuel) in Hs by lia.
    rewrite Z.pow_add_r in Hs by lia. destruct (IH (d * 2)) as (d' & -> & H1 & H2 & H3); [lia|lia|].
    exists d'. split; [done|]. lia.
Qed.

Lemma alloc_size_bits n : 0 < n -> n <= 8 * SELECT_ALLOC_SIZE n < n + 64.
Proof.
  intros H. unfold SELECT_ALLOC_SIZE, NFDBITS, sizeof_fd_mask.
  pose proof (Z.div_mod (n + (64 - 1)) 64 ltac:(lia)). pose proof (Z.mod_pos_bound (n + (64 - 1)) 64 ltac:(lia)).
  lia.
Qed.

(** ** What the state represents *)

(** The sizes: the sets hold [event_fdsz] bytes, these hold every descriptor up
    to [event_fds], the copies are as long unless they wait to be resized, and
    all stay far below the range of an [int]. *)
Record select_ok (s : selectop) : Prop := {
  se_read : 8 * event_fdsz s <= zlen (event_readset_in s);
  se_write : 8 * event_fdsz s <= zlen (event_writeset_in s);
  se_size : 8 <= event_fdsz s <= 2 ^ 27;
  se_fds : 0 <= event_fds s < 8 * event_fdsz s;
  se_out : resize_out_sets s = false ->
    event_fdsz s <= readset_out_size s /\ event_fdsz s <= writeset_out_size s
}.

Definition select_represents (s : selectop) (m : Z -> Z) : Prop :=
  select_ok s /\
  (forall fd, 0 <= fd < 8 * event_fdsz s ->
     FD_ISSET fd (event_readset_in s) = has (m fd) EV_READ /\
     FD_ISSET fd (event_writeset_in s) = has (m fd) EV_WRITE) /\
  (forall fd, event_fds s < fd -> has (m fd) EV_READ = false /\ has (m fd) EV_WRITE = false).

(** Each call in terms of one bit. *)
Lemma mask_step_bit m o fd f n :
  f = 2 ^ n -> 0 <= n -> Z.land POLL_EVENTS f = f ->
  has (mask_step POLL_EVENTS m o fd) f =
  if has (op_events o) f && (fd =? op_fd o)
  then match o with FdAdd _ _ => true | FdDel _ _ => false end else has (m fd) f.
Proof.
  intros -> Hn Hf. destruct o as [g ev|g ev]; simpl; destruct (fd =? g); rewrite ?andb_false_r, ?andb_true_r; try done.
  - rewrite has_lor_l, has_land by done. destruct (has ev (2 ^ n)); [by rewrite orb_true_r|by rewrite orb_false_r].
  - rewrite has_clear by done. destruct (has ev (2 ^ n)); [by rewrite andb_false_r|by rewrite andb_true_r].
Qed.

Lemma resize_spec mem1 mem2 junk s m fdsz :
  select_represents s m -> event_fdsz s <= fdsz <= 2 ^ 27 ->
  let p := select_resize mem1 mem2 junk s fdsz in
  select_represents p.2 m /\ event_fds p.2 = event_fds s /\
  if (p.1 : bool) then event_fdsz p.2 = fdsz else (mem1 && mem2) = false.
Proof.
  intros (Hok & Hb & Hh) Hsz. pose proof (se_read _ Hok). pose proof (se_write _ Hok).
  pose proof (se_size _ Hok). pose proof (se_fds _ Hok). unfold select_resize.
  destruct mem1; [|done]. destruct mem2; cbn [negb fst snd].
  - assert (forall junk l, 8 * event_fdsz s <= zlen l ->
      zlen (clear_bytes (event_fdsz s) fdsz (realloc_set junk fdsz l)) = 8 * fdsz /\
      forall fd, 0 <= fd < 8 * fdsz ->
        FD_ISSET fd (clear_bytes (event_fdsz s) fdsz (realloc_set junk fdsz l)) =
        (fd <? 8 * event_fdsz s) && FD_ISSET fd l) as Hc.
    { intros j l Hl. split; [rewrite zlen_clear, zlen_realloc; rewrite ?zlen_realloc; lia|].
      intros fd Hfd. rewrite ISSET_clear by (rewrite ?zlen_realloc; lia).
      destruct (fd <? 8 * event_fdsz s) eqn:E; zb; [|done]. simpl. by rewrite ISSET_realloc by lia. }
    split; [|done]. split; [|split; [|done]].
    + split; simpl; rewrite ?(proj1 (Hc _ _ (se_read _ Hok))), ?(proj1 (Hc _ _ (se_write _ Hok))); try lia; done.
    + intros fd Hfd. simpl in Hfd |- *. rewrite (proj2 (Hc _ _ (se_read _ Hok))), (proj2 (Hc _ _ (se_write _ Hok))) by done.
      destruct (fd <? 8 * event_fdsz s) eqn:E; zb; [apply Hb; lia|]. simpl.
      by destruct (Hh fd) as [-> ->]; [lia|].
  - split; [|done]. split; [|split; [|done]].
    + split; simpl; rewrite ?zlen_realloc by lia; try lia. apply (se_out _ Hok).
    + intros fd Hfd. simpl in *. rewrite ISSET_realloc by lia. by apply Hb.
Qed.

Lemma make_room_spec mem1 mem2 junk s m fd :
  select_represents s m -> 0 <= fd < MAX_FD ->
  returns (select_make_room mem1 mem2 junk s fd) (fun '(ok, s') =>
    select_represents s' m /\ if (ok : bool) then fd <= event_fds s' else (mem1 && mem2) = false).
Proof.
  intros Hrep Hfd. pose proof Hrep as (Hok & Hb & Hh). pose proof (se_size _ Hok). pose proof (se_fds _ Hok).
  unfold select_make_room. destruct (event_fds s <? fd) eqn:E; zb; [|apply returns_done; split; [done|lia]].
  rewrite (proj2 (Z.ltb_ge (event_fdsz s) sizeof_fd_mask)) by (unfold sizeof_fd_mask; lia). cbv zeta.
  pose proof (alloc_size_bits (fd + 1) ltac:(lia)) as Hal. unfold MAX_FD in Hfd.
  destruct (double_until_spec SELECT_FUEL (event_fdsz s) (SELECT_ALLOC_SIZE (fd + 1)))
    as (d & -> & Hd1 & Hd2 & Hd3); [lia|change (2 ^ Z.of_nat SELECT_FUEL) with (2 ^ 32); lia|].
  cbn [deref mbind outcome_bind].
  assert (forall s' : selectop, select_represents s' m -> event_fds s' = event_fds s -> event_fdsz s' = d ->
    select_represents (set_fds s' fd) m) as Hset.
  { intros s' (Hok' & Hb' & Hh') Hf Hz. split; [|split; [done|]].
    - destruct Hok'. split; simpl; try done. lia.
    - intros g Hg. simpl in Hg. apply Hh'. lia. }
  destruct (d =? event_fdsz s) eqn:Ed; zb.
  - apply returns_done. split; [by apply Hset|]. simpl. lia.
  - destruct (resize_spec mem1 mem2 junk s m d Hrep ltac:(lia)) as (Hr & Hf & Hz).
    destruct (select_resize mem1 mem2 junk s d) as [[] s']; simpl in *; apply returns_done; [|done].
    split; [by apply Hset|]. simpl. lia.
Qed.

(** The two sets written by a call on a descriptor they hold. *)
Lemma put_both s m o :
  select_represents s m -> 0 <= op_fd o <= event_fds s ->
  let v := match o with FdAdd _ _ => true | FdDel _ _ => false end in
  let ev := op_events o in
  returns (r ← (if has ev EV_READ then FD_PUT v (op_fd o) (event_readset_in s)
                else Done (event_readset_in s));
           w ← (if has ev EV_WRITE then FD_PUT v (op_fd o) (event_writeset_in s)
                else Done (event_writeset_in s));
           Done (0, set_in s r w))
    (fun '(r, s') => r = 0 /\ select_represents s' (mask_step POLL_EVENTS m o)).
Proof.
  intros (Hok & Hb & Hh) Hfd v ev. pose proof (se_fds _ Hok). pose proof (se_read _ Hok).
  pose proof (se_write _ Hok).
  eapply returns_bind; [by apply (put_spec v (has ev EV_READ) (op_fd o) (event_readset_in s)); lia|].
  intros r (Hlr & Hr).
  eapply returns_bind; [by apply (put_spec v (has ev EV_WRITE) (op_fd o) (event_writeset_in s)); lia|].
  intros w (Hlw & Hw). apply returns_done. split; [done|]. split; [|split].
  - destruct Hok. split; simpl; try done; lia.
  - intros fd Hx. simpl in *. rewrite Hr, Hw by lia.
    rewrite (mask_step_bit m o fd EV_READ 1), (mask_step_bit m o fd EV_WRITE 2) by done.
    destruct (Hb fd) as [-> ->]; [lia|]. done.
  - intros fd Hx. simpl in Hx.
    rewrite (mask_step_bit m o fd EV_READ 1), (mask_step_bit m o fd EV_WRITE 2) by done.
    rewrite (proj2 (Z.eqb_neq fd (op_fd o))) by lia. rewrite !andb_false_r. by apply Hh.
Qed.

Lemma select_add_spec mem1 mem2 junk s m fd ev :
  select_represents s m -> op_ok (FdAdd fd ev) ->
  returns (select_add mem1 mem2 junk s fd ev) (fun '(r, s') =>
    (r = 0 /\ select_represents s' (mask_step POLL_EVENTS m (FdAdd fd ev))) \/
    (r = -1 /\ (mem1 && mem2) = false /\ select_represents s' m)).
Proof.
  intros Hrep [Hfd Hsg]. simpl in Hfd, Hsg. unfold select_add. rewrite Hsg. cbn [negb assert_c mbind outcome_bind].
  eapply returns_bind; [by apply (make_room_spec mem1 mem2 junk s m fd)|].
  intros [[] s1] (Hrep1 & Hfds); cbn [negb]; [|apply returns_done; auto].
  eapply returns_mono; [apply (put_both s1 m (FdAdd fd ev) Hrep1); simpl; lia|].
  intros [r s2] H. by left.
Qed.

Lemma select_del_spec s m fd ev :
  select_represents s m -> op_ok (FdDel fd ev) ->
  returns (select_del s fd ev) (fun '(r, s') =>
    r = 0 /\ select_represents s' (mask_step POLL_EVENTS m (FdDel fd ev))).
Proof.
  intros Hrep [Hfd Hsg]. simpl in Hfd, Hsg. unfold select_del. rewrite Hsg. cbn [negb assert_c mbind outcome_bind].
  destruct (event_fds s <? fd) eqn:E; zb.
  - apply returns_done. split; [done|]. pose proof Hrep as (Hok & Hb & Hh).
    assert (forall g, has (mask_step POLL_EVENTS m (FdDel fd ev) g) EV_READ = has (m g) EV_READ /\
                      has (mask_step POLL_EVENTS m (FdDel fd ev) g) EV_WRITE = has (m g) EV_WRITE) as Hsame.
    { intros g. rewrite (mask_step_bit m _ g EV_READ 1), (mask_step_bit m _ g EV_WRITE 2) by done. simpl.
      destruct (g =? fd) eqn:Eg; zb; [|by rewrite !andb_false_r]. subst.
      destruct (Hh fd) as [-> ->]; [lia|]. by destruct (has ev EV_READ), (has ev EV_WRITE). }
    split; [done|]. split; intros g Hg; destruct (Hsame g) as [-> ->]; auto.
  - by apply (put_both s m (FdDel fd ev) Hrep); simpl; lia.
Qed.

#[export] Program Instance select_laws : BackendLaws selectop POLL_EVENTS := {
  represents := select_represents
}.
Next Obligation.
  intros mem s m o Hs Ho. destruct o as [fd ev|fd ev]; simpl.
  - eapply returns_mono; [by apply select_add_spec|]. intros [r s'] [?|(-> & _ & ?)]; auto.
  - eapply returns_mono; [by apply select_del_spec|]. intros [r s']. auto.
Qed.

Lemma select_init_represents junk s :
  select_init true true true junk = Some s -> select_represents s (fun _ => 0).
Proof.
  intros [= <-]. split; [split; done|]. simpl. split; [|done]. intros fd Hfd.
  change (event_fdsz _) with 8 in Hfd. unfold FD_ISSET.
  assert (forall l : list bool, Forall (fun b => b = false) l -> default false (l !! Z.to_nat fd) = false) as H.
  { intros l Hl. destruct (l !! Z.to_nat fd) eqn:E; [|done]. simpl. by eapply Forall_lookup_1 in Hl. }
  split; (etransitivity; [apply H|done]); destruct junk; vm_compute; repeat constructor.
Qed.

Lemma copies_spec mem1 mem2 s m :
  select_represents s m -> returns (select_copies mem1 mem2 s) (fun '(ok, s') =>
    select_represents s' m /\ event_fds s' = event_fds s /\ event_fdsz s' = event_fdsz s /\
    event_readset_in s' = event_readset_in s /\ event_writeset_in s' = event_writeset_in s /\
    (ok = false -> (mem1 && mem2) = false)).
Proof.
  intros (Hok & Hb & Hh). pose proof Hok as [Hr Hw Hz Hf Ho]. unfold select_copies.
  destruct (resize_out_sets s) eqn:Er; cbn [andb].
  - destruct mem1; cbn [negb]; [|by apply returns_done]. destruct mem2; cbn [negb andb].
    + cbv zeta. cbn [event_fdsz readset_out_size writeset_out_size set_out event_readset_in event_writeset_in].
      rewrite !Z.leb_refl. cbn [andb assert_c mbind outcome_bind].
      rewrite (proj2 (Z.leb_le _ _) Hr), (proj2 (Z.leb_le _ _) Hw). cbn [andb assert_c mbind outcome_bind].
      apply returns_done. split; [|done]. split; [|done]. split; simpl; try done; lia.
    + apply returns_done. split; [|done]. split; [|done]. split; simpl; done.
  - destruct (Ho eq_refl) as [H1 H2]. cbv zeta.
    rewrite (proj2 (Z.leb_le _ _) H1), (proj2 (Z.leb_le _ _) H2). cbn [andb assert_c mbind outcome_bind].
    rewrite (proj2 (Z.leb_le _ _) Hr), (proj2 (Z.leb_le _ _) Hw). cbn [andb assert_c mbind outcome_bind].
    by apply returns_done.
Qed.

Lemma select_reports_fds r w order :
  Forall (fun i => 0 <= i) order -> Forall (fun p => 0 <= fst p) (select_reports r w order).
Proof.
  intros H. apply Forall_forall. intros x Hx. apply list_elem_of_bind in Hx as (i & Hx & Hi).
  rewrite Forall_forall in H. specialize (H i Hi). cbv zeta in Hx.
  destruct (_ =? _); [by apply not_elem_of_nil in Hx|]. by apply list_elem_of_singleton in Hx as ->.
Qed.

(** ** Theorems *)

(** C36: After any sequence of calls, also when growing the sets fails half way
    and fresh memory is full of ones, the sets given to select(2) hold, for
    each descriptor up to [event_fds], exactly whether some event waits to
    read and to write on it, and nothing is waited for beyond; no bit is
    written or read outside the memory of the sets. *)
Theorem select_sets_are_the_interest junk s0 ops :
  select_init true true true junk = Some s0 -> Forall (fun p => op_ok p.2) ops ->
  returns (be_run POLL_EVENTS ops s0 (fun _ => 0)) (fun '(s, m) =>
    (forall fd, 0 <= fd <= event_fds s ->
       FD_ISSET fd (event_readset_in s) = has (m fd) EV_READ /\
       FD_ISSET fd (event_writeset_in s) = has (m fd) EV_WRITE) /\
    (forall fd, event_fds s < fd -> has (m fd) EV_READ = false /\ has (m fd) EV_WRITE = false) /\
    event_fds s < 8 * event_fdsz s /\ 8 * event_fdsz s <= zlen (event_readset_in s) /\
    8 * event_fdsz s <= zlen (event_writeset_in s) /\ event_fdsz s <= INT_MAX).
Proof.
  intros Hs Hops. eapply returns_mono; [apply (run_represents POLL_EVENTS ops)|].
  - by eapply select_init_represents.
  - done.
  - intros [s m] (Hok & Hb & Hh). destruct Hok as [Hr Hw Hz Hf Ho]. split; [|split; [done|]].
    + intros fd Hfd. apply Hb. lia.
    + unfold INT_MAX. lia.
Qed.

(** One [select_dispatch] copies no more than was allocated, keeps the sets
    and the invariant of the base, and from whatever random place it starts
    looks once at every descriptor up to the highest. *)
Theorem select_dispatch_reports_each_once select exact mem1 mem2 start s tv b m :
  (forall n r w t r' w', select n r w t = inr (r', w') -> length r' = length r /\ length w' = length w) ->
  select_represents s m -> eb_inv exact b -> 0 <= start <= event_fds s ->
  returns (select_dispatch select mem1 mem2 start s tv b) (fun '(res, s', b') =>
    select_represents s' m /\ eb_inv exact b' /\
    (b' = b \/ exists r w order, order ≡ₚ seqZ 0 (event_fds s + 1) /\
       select (event_fds s + 1) (ztake (8 * event_fdsz s) (event_readset_in s))
         (ztake (8 * event_fdsz s) (event_writeset_in s)) tv = inr (r, w) /\
       forall y, evs b' !! y = reported (select_reports r w order) <$> evs b !! y)).
Proof.
  intros Hsel Hrep Hi Hst. unfold select_dispatch.
  eapply returns_bind; [by apply (copies_spec mem1 mem2 s m)|].
  intros [[] s1] (Hrep1 & Hf & Hz & Hr & Hw & _); cbn [negb]; [|apply returns_done; auto].
  cbv zeta. rewrite Hf, Hz, Hr, Hw. pose proof Hrep as ([H1 H2 H3 H4 _] & _).
  destruct (select _ _ _ _) as [errno|[r w]] eqn:Hs; [apply returns_done; auto|].
  destruct (Hsel _ _ _ _ _ _ Hs) as [Hlr Hlw].
  assert (zlen r = 8 * event_fdsz s /\ zlen w = 8 * event_fdsz s) as [Hzr Hzw].
  { unfold zlen. rewrite Hlr, Hlw. fold (zlen (ztake (8 * event_fdsz s) (event_readset_in s))).
    fold (zlen (ztake (8 * event_fdsz s) (event_writeset_in s))). rewrite !zlen_ztake. lia. }
  rewrite Hzr, Hzw, (proj2 (Z.leb_le (event_fds s + 1) (8 * event_fdsz s))) by lia.
  cbn [andb assert_c mbind outcome_bind].
  pose proof (scan_visits_all start (event_fds s + 1) ltac:(lia)) as Hperm.
  eapply returns_bind.
  { apply (activate_all_spec exact); [done|]. apply select_reports_fds. rewrite Hperm.
    apply Forall_seqZ. lia. }
  intros b' [[Hi' _] Hb']. apply returns_done. split; [done|]. split; [done|]. right.
  exists r, w. eexists. split; [exact Hperm|]. auto.
Qed.

(** ** Witnesses *)

Definition select0 : selectop :=
  default (mkSelectop 0 0 false [] [] 0 0) (select_init true true true true).

Definition select_calls : list (bool * fd_op) :=
  [(true, FdAdd 5 EV_READ); (false, FdAdd 70 EV_WRITE); (true, FdAdd 70 EV_WRITE);
   (true, FdAdd 5 EV_WRITE); (true, FdDel 5 EV_READ)].

Lemma select_sets_are_the_interest_witness :
  exists s m, be_run POLL_EVENTS select_calls select0 (fun _ => 0) = Done (s, m) /\
    event_fds s = 70 /\ FD_ISSET 5 (event_readset_in s) = false /\
    FD_ISSET 5 (event_writeset_in s) = true /\ FD_ISSET 70 (event_writeset_in s) = true.
Proof.
  destruct (select_sets_are_the_interest true select0 select_calls) as ([s m] & Hr & Hb & _).
  - reflexivity.
  - repeat constructor; vm_compute; congruence.
  - exists s, m. split; [exact Hr|]. vm_compute in Hr. injection Hr as <- <-.
    split; [reflexivity|]. destruct (Hb 5) as [H1 H2]; [vm_compute; split; discriminate|].
    destruct (Hb 70) as [_ H3]; [vm_compute; split; discriminate|].
    rewrite H1, H2, H3. repeat split.
Defined.

Definition demo_select (n : Z) (r w : list bool) (tv : option timeval) : Z + list bool * list bool :=
  inr (r, w).

Lemma select_dispatch_reports_each_once_witness :
  exists res s' b', select_dispatch demo_select true true 0 select0 None demo = Done (res, s', b') /\
    eb_inv true b'.
Proof.
  destruct (select_dispatch_reports_each_once demo_select true true true 0 select0 None demo (fun _ => 0))
    as ([[res s'] b'] & Hd & _ & Hi & _).
  - intros n r w t r' w' [= <- <-]. split; reflexivity.
  - apply (select_init_represents true). reflexivity.
  - apply reachable_base_inv, demo_reachable.
  - split; [lia|]. vm_compute. discriminate.
  - exists res, s', b'. split; [exact Hd|exact Hi].
Defined.
