(* ===== verification/Ctype.v ===== *)
(** * Characters

    Models the locale-independent character functions of [libevent/evutil.c]
    ([EVUTIL_ISALPHA_] and its siblings, [EVUTIL_TOLOWER_],
    [evutil_ascii_strcasecmp], [evutil_ascii_strncasecmp]) with their tables,
    the table of unreserved URI characters of [libevent/http.c], and the string
    functions of the C library that the parsers use, on strings without their
    terminating NUL.

    A fact about all bytes is checked on the list of them ([byte_forall]). *)

From S2P Require Import Prelude.

(** ** The bytes *)

Definition all_bytes : list byte := (fun n => Zbyte (Z.of_nat n)) <$> seq 0 256.

Lemma byte_listed b : b ∈ all_bytes.
Proof.
  apply list_elem_of_fmap. exists (Z.to_nat (byteZ b)). pose proof (byteZ_range b).
  split; [rewrite Z2Nat.id by lia; by rewrite Zbyte_byteZ|]. apply elem_of_seq. lia.
Qed.

Lemma byte_forall (P : byte -> bool) : forallb P all_bytes = true -> forall b, P b = true.
Proof. rewrite forallb_forall. intros H b. apply H, list_elem_of_In, byte_listed. Qed.

(** ** Tables *)

Definition EVUTIL_ISALPHA_TABLE : list Z := [0; 0; 0x7fffffe; 0x7fffffe; 0; 0; 0; 0].
Definition EVUTIL_ISALNUM_TABLE : list Z := [0; 0x3ff0000; 0x7fffffe; 0x7fffffe; 0; 0; 0; 0].
Definition EVUTIL_ISSPACE_TABLE : list Z := [0x3e00; 0x1; 0; 0; 0; 0; 0; 0].
Definition EVUTIL_ISXDIGIT_TABLE : list Z := [0; 0x3ff0000; 0x7e; 0x7e; 0; 0; 0; 0].
Definition EVUTIL_ISDIGIT_TABLE : list Z := [0; 0x3ff0000; 0; 0; 0; 0; 0; 0].
Definition EVUTIL_ISPRINT_TABLE : list Z :=
  [0; 0xffffffff; 0xffffffff; 0x7fffffff; 0; 0; 0; 0].
Definition EVUTIL_ISUPPER_TABLE : list Z := [0; 0; 0x7fffffe; 0; 0; 0; 0; 0].
Definition EVUTIL_ISLOWER_TABLE : list Z := [0; 0; 0; 0x7fffffe; 0; 0; 0; 0].

(** [!!(EVUTIL_##name##_TABLE[(u >> 5) & 7] & (1 << (u & 31)))] *)
Definition CTYPE_FN (table : list Z) (c : byte) : bool :=
  has (nth (Z.to_nat (Z.land (Z.shiftr (byteZ c) 5) 7)) table 0)
      (Z.shiftl 1 (Z.land (byteZ c) 31)).

Definition EVUTIL_ISALPHA_ := CTYPE_FN EVUTIL_ISALPHA_TABLE.
Definition EVUTIL_ISALNUM_ := CTYPE_FN EVUTIL_ISALNUM_TABLE.
Definition EVUTIL_ISSPACE_ := CTYPE_FN EVUTIL_ISSPACE_TABLE.
Definition EVUTIL_ISXDIGIT_ := CTYPE_FN EVUTIL_ISXDIGIT_TABLE.
Definition EVUTIL_ISDIGIT_ := CTYPE_FN EVUTIL_ISDIGIT_TABLE.
Definition EVUTIL_ISPRINT_ := CTYPE_FN EVUTIL_ISPRINT_TABLE.
Definition EVUTIL_ISUPPER_ := CTYPE_FN EVUTIL_ISUPPER_TABLE.
Definition EVUTIL_ISLOWER_ := CTYPE_FN EVUTIL_ISLOWER_TABLE.

Definition EVUTIL_TOUPPER_TABLE : list Z := [
  0; 1; 2; 3; 4; 5; 6; 7; 8; 9; 10; 11; 12; 13; 14; 15;
  16; 17; 18; 19; 20; 21; 22; 23; 24; 25; 26; 27; 28; 29; 30; 31;
  32; 33; 34; 35; 36; 37; 38; 39; 40; 41; 42; 43; 44; 45; 46; 47;
  48; 49; 50; 51; 52; 53; 54; 55; 56; 57; 58; 59; 60; 61; 62; 63;
  64; 65; 66; 67; 68; 69; 70; 71; 72; 73; 74; 75; 76; 77; 78; 79;
  80; 81; 82; 83; 84; 85; 86; 87; 88; 89; 90; 91; 92; 93; 94; 95;
  96; 65; 66; 67; 68; 69; 70; 71; 72; 73; 74; 75; 76; 77; 78; 79;
  80; 81; 82; 83; 84; 85; 86; 87; 88; 89; 90; 123; 124; 125; 126; 127;
  128; 129; 130; 131; 132; 133; 134; 135; 136; 137; 138; 139; 140; 141; 142; 143;
  144; 145; 146; 147; 148; 149; 150; 151; 152; 153; 154; 155; 156; 157; 158; 159;
  160; 161; 162; 163; 164; 165; 166; 167; 168; 169; 170; 171; 172; 173; 174; 175;
  176; 177; 178; 179; 180; 181; 182; 183; 184; 185; 186; 187; 188; 189; 190; 191;
  192; 193; 194; 195; 196; 197; 198; 199; 200; 201; 202; 203; 204; 205; 206; 207;
  208; 209; 210; 211; 212; 213; 214; 215; 216; 217; 218; 219; 220; 221; 222; 223;
  224; 225; 226; 227; 228; 229; 230; 231; 232; 233; 234; 235; 236; 237; 238; 239;
  240; 241; 242; 243; 244; 245; 246; 247; 248; 249; 250; 251; 252; 253; 254; 255].

Definition EVUTIL_TOLOWER_TABLE : list Z := [
  0; 1; 2; 3; 4; 5; 6; 7; 8; 9; 10; 11; 12; 13; 14; 15;
  16; 17; 18; 19; 20; 21; 22; 23; 24; 25; 26; 27; 28; 29; 30; 31;
  32; 33; 34; 35; 36; 37; 38; 39; 40; 41; 42; 43; 44; 45; 46; 47;
  48; 49; 50; 51; 52; 53; 54; 55; 56; 57; 58; 59; 60; 61; 62; 63;
  64; 97; 98; 99; 100; 101; 102; 103; 104; 105; 106; 107; 108; 109; 110; 111;
  112; 113; 114; 115; 116; 117; 118; 119; 120; 121; 122; 91; 92; 93; 94; 95;
  96; 97; 98; 99; 100; 101; 102; 103; 104; 105; 106; 107; 108; 109; 110; 111;
  112; 113; 114; 115; 116; 117; 118; 119; 120; 121; 122; 123; 124; 125; 126; 127;
  128; 129; 130; 131; 132; 133; 134; 135; 136; 137; 138; 139; 140; 141; 142; 143;
  144; 145; 146; 147; 148; 149; 150; 151; 152; 153; 154; 155; 156; 157; 158; 159;
  160; 161; 162; 163; 164; 165; 166; 167; 168; 169; 170; 171; 172; 173; 174; 175;
  176; 177; 178; 179; 180; 181; 182; 183; 184; 185; 186; 187; 188; 189; 190; 191;
  192; 193; 194; 195; 196; 197; 198; 199; 200; 201; 202; 203; 204; 205; 206; 207;
  208; 209; 210; 211; 212; 213; 214; 215; 216; 217; 218; 219; 220; 221; 222; 223;
  224; 225; 226; 227; 228; 229; 230; 231; 232; 233; 234; 235; 236; 237; 238; 239;
  240; 241; 242; 243; 244; 245; 246; 247; 248; 249; 250; 251; 252; 253; 254; 255].

Definition uri_chars : list Z := [
  (* 0 *)
  0; 0; 0; 0; 0; 0; 0; 0; 0; 0; 0; 0; 0; 0; 0; 0;
  0; 0; 0; 0; 0; 0; 0; 0; 0; 0; 0; 0; 0; 0; 0; 0;
  0; 0; 0; 0; 0; 0; 0; 0; 0; 0; 0; 0; 0; 1; 1; 0;
  1; 1; 1; 1; 1; 1; 1; 1; 1; 1; 0; 0; 0; 0; 0; 0;
  (* 64 *)
  0; 1; 1; 1; 1; 1; 1; 1; 1; 1; 1; 1; 1; 1; 1; 1;
  1; 1; 1; 1; 1; 1; 1; 1; 1; 1; 1; 0; 0; 0; 0; 1;
  0; 1; 1; 1; 1; 1; 1; 1; 1; 1; 1; 1; 1; 1; 1; 1;
  1; 1; 1; 1; 1; 1; 1; 1; 1; 1; 1; 0; 0; 0; 1; 0;
  (* 128 *)
  0; 0; 0; 0; 0; 0; 0; 0; 0; 0; 0; 0; 0; 0; 0; 0;
  0; 0; 0; 0; 0; 0; 0; 0; 0; 0; 0; 0; 0; 0; 0; 0;
  0; 0; 0; 0; 0; 0; 0; 0; 0; 0; 0; 0; 0; 0; 0; 0;
  0; 0; 0; 0; 0; 0; 0; 0; 0; 0; 0; 0; 0; 0; 0; 0;
  (* 192 *)
  0; 0; 0; 0; 0; 0; 0; 0; 0; 0; 0; 0; 0; 0; 0; 0;
  0; 0; 0; 0; 0; 0; 0; 0; 0; 0; 0; 0; 0; 0; 0; 0;
  0; 0; 0; 0; 0; 0; 0; 0; 0; 0; 0; 0; 0; 0; 0; 0;
  0; 0; 0; 0; 0; 0; 0; 0; 0; 0; 0; 0; 0; 0; 0; 0
].

Definition EVUTIL_TOLOWER_ (c : byte) : byte :=
  Zbyte (nth (Z.to_nat (byteZ c)) EVUTIL_TOLOWER_TABLE 0).
Definition EVUTIL_TOUPPER_ (c : byte) : byte :=
  Zbyte (nth (Z.to_nat (byteZ c)) EVUTIL_TOUPPER_TABLE 0).

Definition CHAR_IS_UNRESERVED (c : byte) : bool :=
  negb (nth (Z.to_nat (byteZ c)) uri_chars 0 =? 0).

(** ** Comparison without case

    [char] is signed on x86-64. *)

Definition char_value (c : byte) : Z := if byteZ c <? 128 then byteZ c else byteZ c - 256.

Definition next_char (s : list byte) : byte := match s with [] => x00 | c :: _ => c end.

(** The two strings end with their NUL. *)
Fixpoint evutil_ascii_strcasecmp (s1 s2 : list byte) : Z :=
  let c1 := EVUTIL_TOLOWER_ (next_char s1) in
  let c2 := EVUTIL_TOLOWER_ (next_char s2) in
  if char_value c1 <? char_value c2 then -1
  else if char_value c2 <? char_value c1 then 1
  else match s1 with
       | [] => 0
       | _ :: t1 => evutil_ascii_strcasecmp t1 (tail s2)
       end.

Fixpoint evutil_ascii_strncasecmp (n : nat) (s1 s2 : list byte) : Z :=
  match n with
  | O => 0
  | S n =>
      let c1 := EVUTIL_TOLOWER_ (next_char s1) in
      let c2 := EVUTIL_TOLOWER_ (next_char s2) in
      if char_value c1 <? char_value c2 then -1
      else if char_value c2 <? char_value c1 then 1
      else if bool_decide (c1 = x00) then 0
      else evutil_ascii_strncasecmp n (tail s1) (tail s2)
  end.

(** ** Searching and splitting *)

(** [strchr(s, c)] for a [c] other than NUL: what is before and what is after. *)
Fixpoint strchr (c : byte) (s : list byte) : option (list byte * list byte) :=
  match s with
  | [] => None
  | d :: s =>
      if bool_decide (d = c) then Some ([], s)
      else match strchr c s with Some (a, b) => Some (d :: a, b) | None => None end
  end.

(** One step of [strsep] with a single delimiter: the token and the rest. *)
Definition strsep (c : byte) (s : list byte) : list byte * option (list byte) :=
  match strchr c s with Some (a, b) => (a, Some b) | None => (s, None) end.

(** ** Numbers *)

Definition digit_value (c : byte) : Z := byteZ c - 48.

Definition hex_value (c : byte) : Z :=
  if EVUTIL_ISDIGIT_ c then byteZ c - 48
  else if EVUTIL_ISUPPER_ c then byteZ c - 55 else byteZ c - 87.

(** ["%X"] and ["%x"] of a digit. *)
Definition hex_digit_upper (n : Z) : byte := Zbyte (if n <? 10 then n + 48 else n + 55).
Definition hex_digit_lower (n : Z) : byte := Zbyte (if n <? 10 then n + 48 else n + 87).

(** ["%d"] of a number that is not negative. *)
Fixpoint dec_rev (fuel : nat) (n : Z) : list byte :=
  match fuel with
  | O => []
  | S fuel => Zbyte (48 + n mod 10) :: (if n <? 10 then [] else dec_rev fuel (n / 10))
  end.
Definition print_dec (n : Z) : list byte := rev (dec_rev 20 n).

(** The value of digits, from the left. *)
Definition dec_value (l : list byte) : Z := fold_left (fun v c => v * 10 + digit_value c) l 0.

(** ** Lemmas *)

Lemma strchr_Some c s a b : strchr c s = Some (a, b) -> s = a ++ c :: b /\ c ∉ a.
Proof.
  revert a. induction s as [|d s IH]; intros a; simpl; [done|].
  case_bool_decide as Hd; [intros [= <- <-]; subst; split; [done|apply not_elem_of_nil]|].
  destruct (strchr c s) as [[a' b']|] eqn:E; [|done]. intros [= <- <-].
  destruct (IH a' eq_refl) as [-> Hn]. split; [done|]. rewrite not_elem_of_cons. auto.
Qed.

Lemma strchr_None c s : strchr c s = None <-> c ∉ s.
Proof.
  induction s as [|d s IH]; simpl; [split; [intros _; apply not_elem_of_nil|done]|].
  rewrite not_elem_of_cons. case_bool_decide as Hd; [naive_solver|].
  destruct (strchr c s) as [[a b]|]; naive_solver.
Qed.

Lemma strchr_app c a b : c ∉ a -> strchr c (a ++ c :: b) = Some (a, b).
Proof.
  induction a as [|d a IH]; intros H; simpl; [by rewrite bool_decide_eq_true_2|].
  apply not_elem_of_cons in H as [H1 H2]. rewrite bool_decide_eq_false_2 by congruence. by rewrite IH.
Qed.

Lemma strsep_app c a b : c ∉ a -> strsep c (a ++ c :: b) = (a, Some b).
Proof. intros H. unfold strsep. by rewrite strchr_app. Qed.

Lemma strsep_none c a : c ∉ a -> strsep c a = (a, None).
Proof. intros H. unfold strsep. by rewrite (proj2 (strchr_None c a) H). Qed.

Lemma is_digit_print n : EVUTIL_ISDIGIT_ (Zbyte (48 + n mod 10)) = true.
Proof.
  pose proof (Z.mod_pos_bound n 10 ltac:(lia)) as H.
  assert (forallb (fun k => EVUTIL_ISDIGIT_ (Zbyte (48 + Z.of_nat k))) (seq 0 10) = true) as Hall
    by (vm_compute; reflexivity).
  rewrite forallb_forall in Hall. specialize (Hall (Z.to_nat (n mod 10))).
  rewrite Z2Nat.id in Hall by lia. apply Hall, in_seq. lia.
Qed.

Lemma digit_value_print n : digit_value (Zbyte (48 + n mod 10)) = n mod 10.
Proof.
  pose proof (Z.mod_pos_bound n 10 ltac:(lia)) as H. unfold digit_value. rewrite byteZ_Zbyte.
  unfold u8. rewrite Z.mod_small by lia. lia.
Qed.

Lemma dec_rev_digits fuel n : Forall (fun c => EVUTIL_ISDIGIT_ c = true) (dec_rev fuel n).
Proof.
  revert n. induction fuel as [|fuel IH]; intros n; cbn [dec_rev]; [constructor|].
  constructor; [apply is_digit_print|]. destruct (n <? 10); [constructor|apply IH].
Qed.

Lemma print_dec_digits n : Forall (fun c => EVUTIL_ISDIGIT_ c = true) (print_dec n).
Proof. apply Forall_rev, dec_rev_digits. Qed.

Lemma dec_value_app a b : dec_value (a ++ [b]) = dec_value a * 10 + digit_value b.
Proof. unfold dec_value. by rewrite fold_left_app. Qed.

Lemma dec_rev_value fuel n :
  0 <= n < 10 ^ Z.of_nat fuel -> dec_value (rev (dec_rev fuel n)) = n.
Proof.
  revert n. induction fuel as [|fuel IH]; intros n Hn; cbn [dec_rev].
  { rewrite Z.pow_0_r in Hn. simpl. unfold dec_value. simpl. lia. }
  cbn [rev]. rewrite dec_value_app, digit_value_print.
  replace (Z.of_nat (S fuel)) with (1 + Z.of_nat fuel) in Hn by lia. rewrite Z.pow_add_r in Hn by lia.
  pose proof (Z.div_mod n 10 ltac:(lia)) as Hd. destruct (n <? 10) eqn:E; zb.
  - rewrite Z.mod_small by lia. done.
  - rewrite IH; [lia|]. split; [apply Z.div_pos; lia|]. apply Z.div_lt_upper_bound; lia.
Qed.

Lemma print_dec_value n : 0 <= n < 10 ^ 20 -> dec_value (print_dec n) = n.
Proof. apply (dec_rev_value 20). Qed.

Lemma print_dec_not_nil n : print_dec n <> [].
Proof. unfold print_dec. cbn [dec_rev rev]. intros H. by apply app_eq_nil in H as [_ H]. Qed.
