(* ===== verification/HttpText.v ===== *)
(** * Encoding text for the web

    Models the text functions of [libevent/http.c]: [evhttp_htmlescape],
    [evhttp_uriencode], [evhttp_decode_uri_internal] with its callers, and
    [evhttp_parse_query_str].

    Strings are lists of bytes without their terminating NUL; a caller's memory
    is the list of its bytes.  The evbuffer and the lists of headers are taken
    to get the memory they need; [mem] says whether [mm_malloc] of the result
    does. *)

From S2P Require Import Prelude Ctype.

(** ** [evhttp_htmlescape] *)

Definition LT : byte := "<"%byte.
Definition GT : byte := ">"%byte.
Definition QUOT : byte := "034"%byte.
Definition APOS : byte := "'"%byte.
Definition AMP : byte := "&"%byte.

Definition bytes_of (s : string) : list byte := String.list_byte_of_string s.

(** The characters that replace [ch], [None] for itself. *)
Definition html_replace (ch : byte) : option (list byte) :=
  if bool_decide (ch = LT) then Some (bytes_of "&lt;")
  else if bool_decide (ch = GT) then Some (bytes_of "&gt;")
  else if bool_decide (ch = QUOT) then Some (bytes_of "&quot;")
  else if bool_decide (ch = APOS) then Some (bytes_of "&#039;")
  else if bool_decide (ch = AMP) then Some (bytes_of "&amp;")
  else None.

Definition html_replacement (ch : byte) : list byte := default [ch] (html_replace ch).

(** The first loop: the size, [None] when it overflows. *)
Fixpoint escaped_size (l : list byte) (new_size : Z) : option Z :=
  match l with
  | [] => Some new_size
  | ch :: l =>
      let replace_size := zlen (html_replacement ch) in
      if EV_SIZE_MAX - new_size <? replace_size then None
      else escaped_size l (u64 (new_size + replace_size))
  end.

(** The second loop, writing at the end of [p] into a block of [size] bytes. *)
Fixpoint escape_into (l p : list byte) (size : Z) : outcome (list byte) :=
  match l with
  | [] => _ ← assert_c (zlen p <? size); Done p
  | ch :: l =>
      _ ← assert_c (zlen p + zlen (html_replacement ch) <=? size);
      escape_into l (p ++ html_replacement ch) size
  end.

Definition evhttp_htmlescape (mem : bool) (html : option (list byte)) : outcome (option (list byte)) :=
  match html with
  | None => Done None
  | Some html =>
      match escaped_size html 0 with
      | None => Done None
      | Some new_size =>
          if new_size =? EV_SIZE_MAX then Done None
          else if negb mem then Done None
          else p ← escape_into html [] (new_size + 1); Done (Some p)
      end
  end.

(** ** [evhttp_uriencode] *)

Definition SPACE : byte := " "%byte.
Definition PLUS : byte := "+"%byte.
Definition PERCENT : byte := "%"%byte.
Definition QMARK : byte := "?"%byte.
Definition EQUALS : byte := "="%byte.

(** ["%%%02X"] *)
Definition percent_byte (c : byte) : list byte :=
  [PERCENT; hex_digit_upper (byteZ c / 16); hex_digit_upper (byteZ c mod 16)].

Definition encode_char (space_as_plus : bool) (c : byte) : list byte :=
  if CHAR_IS_UNRESERVED c then [c]
  else if bool_decide (c = SPACE) && space_as_plus then [PLUS]
  else percent_byte c.

(** [uri] is the memory at the pointer; a negative [len] stands for [strlen]. *)
Definition evhttp_uriencode (mem : bool) (uri : list byte) (len : Z) (space_as_plus : bool)
    : outcome (option (list byte)) :=
  s ← (if 0 <=? len then memread 0 len uri else Done (cstr uri));
  Done (if mem then Some (s ≫= encode_char space_as_plus) else None).

Definition evhttp_encode_uri (mem : bool) (str : list byte) : outcome (option (list byte)) :=
  evhttp_uriencode mem str (-1) false.

(** ** Decoding *)

(** The value [strtol(tmp, NULL, 16)] of two hexadecimal digits. *)
Definition hex_pair (a b : byte) : byte := Zbyte (hex_value a * 16 + hex_value b).

(** [ctl] is [decode_plus_ctl], [plus] the variable [decode_plus]. *)
Fixpoint decode_loop (ctl : Z) (plus : bool) (l : list byte) : list byte :=
  match l with
  | [] => []
  | c :: l' =>
      if bool_decide (c = QMARK) then c :: decode_loop ctl (plus || (ctl <? 0)) l'
      else if bool_decide (c = PLUS) && plus then SPACE :: decode_loop ctl plus l'
      else match l' with
           | a :: b :: l'' =>
               if bool_decide (c = PERCENT) && EVUTIL_ISXDIGIT_ a && EVUTIL_ISXDIGIT_ b
               then hex_pair a b :: decode_loop ctl plus l''
               else c :: decode_loop ctl plus l'
           | _ => c :: decode_loop ctl plus l'
           end
  end.

(** [i] is an [unsigned]: it never reaches a [length] of 2^32 or more. *)
Definition evhttp_decode_uri_internal (uri : list byte) (decode_plus_ctl : Z) : outcome (list byte) :=
  _ ← assert_c (zlen uri <? 2 ^ 32);
  Done (decode_loop decode_plus_ctl (decode_plus_ctl =? 1) uri).

Definition evhttp_decode_uri (mem : bool) (uri : list byte) : outcome (option (list byte)) :=
  if negb mem then Done None else
  r ← evhttp_decode_uri_internal uri (-1);
  _ ← assert_c (zlen r <? zlen uri + 1);
  Done (Some r).

(** The string and the value stored in [*size_out]. *)
Definition evhttp_uridecode (mem : bool) (uri : list byte) (decode_plus : bool)
    : outcome (option (list byte * Z)) :=
  if negb mem then Done None else
  r ← evhttp_decode_uri_internal uri (if decode_plus then 1 else 0);
  _ ← assert_c (zlen r <? zlen uri + 1);
  Done (Some (r, zlen r)).

(** ** [evhttp_parse_query_str] *)

Definition header : Type := list byte * list byte.

(** The loop; [p] is the rest of the string, [None] for [NULL].  The headers
    found, or [None] for the jump to [error]. *)
Fixpoint query_loop (fuel : nat) (p : option (list byte)) (headers : list header)
    : outcome (option (list header)) :=
  match p with
  | None | Some [] => Done (Some headers)
  | Some q =>
      match fuel with
      | O => Crash
      | S fuel =>
          let '(argument, p) := strsep AMP q in
          let '(key, value) := strsep EQUALS argument in
          match value with
          | None => Done None
          | Some value =>
              if bool_decide (key = []) then Done None else
              decoded ← evhttp_decode_uri_internal value 1;
              query_loop fuel p (headers ++ [(key, cstr decoded)])
          end
      end
  end.

(** The result and the headers; [line] is a copy of the query. *)
Definition parse_query_part (query_part : option (list byte)) : outcome (Z * list header) :=
  match query_part with
  | None => Done (0, [])
  | Some q =>
      o ← query_loop (S (length q)) (Some q) [];
      Done (match o with Some hs => (0, hs) | None => (-1, []) end)
  end.

Definition evhttp_parse_query_str (str : list byte) : outcome (Z * list header) :=
  parse_query_part (Some str).

(** ** Escaping HTML *)

Lemma html_replacement_len ch : 1 <= zlen (html_replacement ch) <= 6.
Proof.
  pose proof (byte_forall (fun c => (1 <=? zlen (html_replacement c)) && (zlen (html_replacement c) <=? 6))
    ltac:(vm_compute; reflexivity) ch) as H. cbv beta in H. zb. lia.
Qed.

Lemma escaped_size_spec l n :
  0 <= n -> n + zlen (l ≫= html_replacement) <= EV_SIZE_MAX ->
  escaped_size l n = Some (n + zlen (l ≫= html_replacement)).
Proof.
  revert n. induction l as [|ch l IH]; intros n Hn Hmax; cbn [escaped_size].
  { change ([] ≫= html_replacement) with ([] : list byte) in *. rewrite zlen_nil. do 2 f_equal. lia. }
  rewrite bind_cons, zlen_app in *. pose proof (html_replacement_len ch).
  pose proof (zlen_nonneg (l ≫= html_replacement)).
  rewrite (proj2 (Z.ltb_ge _ _)) by lia. rewrite u64_small by (unfold EV_SIZE_MAX in *; lia).
  rewrite IH by lia. f_equal. lia.
Qed.

Lemma escape_into_spec l p size :
  zlen p + zlen (l ≫= html_replacement) < size ->
  escape_into l p size = Done (p ++ (l ≫= html_replacement)).
Proof.
  revert p. induction l as [|ch l IH]; intros p H; cbn [escape_into].
  { change ([] ≫= html_replacement) with ([] : list byte) in *. rewrite zlen_nil in H.
    rewrite (proj2 (Z.ltb_lt _ _)) by lia. simpl. by rewrite app_nil_r. }
  rewrite bind_cons, zlen_app in *. pose proof (zlen_nonneg (l ≫= html_replacement)).
  rewrite (proj2 (Z.leb_le _ _)) by lia. cbn [assert_c mbind outcome_bind].
  rewrite IH by (rewrite zlen_app; lia). by rewrite <- app_assoc.
Qed.

Definition html_safe (c : byte) : bool :=
  negb (bool_decide (c = LT) || bool_decide (c = GT) || bool_decide (c = QUOT) || bool_decide (c = APOS)).

Lemma html_replacement_plain ch : forallb html_safe (html_replacement ch) = true.
Proof. apply (byte_forall (fun ch => forallb html_safe (html_replacement ch))). vm_compute. reflexivity. Qed.

Lemma html_plain l c : c ∈ l ≫= html_replacement -> c <> LT /\ c <> GT /\ c <> QUOT /\ c <> APOS.
Proof.
  intros (ch & Hc & _)%list_elem_of_bind. pose proof (html_replacement_plain ch) as H.
  rewrite forallb_forall in H. specialize (H c (proj1 (list_elem_of_In _ _) Hc)). unfold html_safe in H. zb.
  by repeat match goal with H : bool_decide _ = false |- _ => apply bool_decide_eq_false in H end.
Qed.

(** ** Encoding and decoding bytes *)

Definition percent_ok (c : byte) : bool :=
  EVUTIL_ISXDIGIT_ (hex_digit_upper (byteZ c / 16)) && EVUTIL_ISXDIGIT_ (hex_digit_upper (byteZ c mod 16)) &&
  bool_decide (hex_pair (hex_digit_upper (byteZ c / 16)) (hex_digit_upper (byteZ c mod 16)) = c).

Lemma percent_digits c : percent_ok c = true.
Proof. apply byte_forall. vm_compute. reflexivity. Qed.

(** An unreserved character is none of those that decoding looks for, and the
    digits of an encoded byte neither. *)
Definition decode_special (c : byte) : bool :=
  bool_decide (c = QMARK) || bool_decide (c = PLUS) || bool_decide (c = PERCENT) ||
  bool_decide (c = x00) || bool_decide (c = AMP) || bool_decide (c = EQUALS).

Lemma unreserved_plain c :
  CHAR_IS_UNRESERVED c = true ->
  c <> QMARK /\ c <> PLUS /\ c <> PERCENT /\ c <> x00 /\ c <> AMP /\ c <> EQUALS.
Proof.
  pose proof (byte_forall (fun c => implb (CHAR_IS_UNRESERVED c) (negb (decode_special c)))
    ltac:(vm_compute; reflexivity) c) as H. cbv beta in H. unfold decode_special in H.
  intros Hc. simpl in H. rewrite Hc in H. simpl in H. zb.
  repeat match goal with H : bool_decide _ = false |- _ => apply bool_decide_eq_false in H end. auto 10.
Qed.

Lemma decode_cons ctl plus c l :
  decode_loop ctl plus (c :: l) =
  if bool_decide (c = QMARK) then c :: decode_loop ctl (plus || (ctl <? 0)) l
  else if bool_decide (c = PLUS) && plus then SPACE :: decode_loop ctl plus l
  else match l with
       | a :: b :: t =>
           if bool_decide (c = PERCENT) && EVUTIL_ISXDIGIT_ a && EVUTIL_ISXDIGIT_ b
           then hex_pair a b :: decode_loop ctl plus t else c :: decode_loop ctl plus l
       | _ => c :: decode_loop ctl plus l
       end.
Proof. by destruct l. Qed.

(** What a decoder that reads [+] as [plus] says makes of an encoded text,
    wherever it stands. *)
Lemma decode_encode ctl plus sp l rest :
  (sp = true -> plus = true) ->
  decode_loop ctl plus ((l ≫= encode_char sp) ++ rest) = l ++ decode_loop ctl plus rest.
Proof.
  intros Hsp. induction l as [|c l IH]; [done|]. rewrite bind_cons, <- app_assoc. cbn [app]. rewrite <- IH.
  unfold encode_char at 1. destruct (CHAR_IS_UNRESERVED c) eqn:Hu.
  - destruct (unreserved_plain c Hu) as (H1 & H2 & H3 & _). cbn [app].
    rewrite decode_cons, !bool_decide_eq_false_2 by done. cbn [andb].
    by destruct ((l ≫= encode_char sp) ++ rest) as [|a [|b t]].
  - destruct (bool_decide (c = SPACE) && sp) eqn:E.
    + zb. apply bool_decide_eq_true in H. subst. rewrite Hsp by done.
      cbn [app]. rewrite decode_cons, bool_decide_eq_false_2 by done.
      by rewrite bool_decide_eq_true_2.
    + pose proof (percent_digits c) as Hp. unfold percent_ok in Hp. apply andb_true_iff in Hp as [Hx Hp].
      apply bool_decide_eq_true in Hp. apply andb_true_iff in Hx as [Hx1 Hx2].
      unfold percent_byte. cbn [app]. rewrite decode_cons, !(bool_decide_eq_false_2 (PERCENT = _)) by done.
      cbn [andb]. rewrite (bool_decide_eq_true_2 (PERCENT = PERCENT)) by done. rewrite Hx1, Hx2. cbn [andb].
      by rewrite Hp.
Qed.

Lemma encode_char_len sp c : zlen (encode_char sp c) <= 3.
Proof. unfold encode_char. repeat case_test; unfold percent_byte; rewrite ?zlen_cons, ?zlen_nil; lia. Qed.

Lemma encode_len sp l : zlen (l ≫= encode_char sp) <= 3 * zlen l.
Proof.
  induction l as [|c l IH]; [done|]. rewrite bind_cons, zlen_app, zlen_cons.
  pose proof (encode_char_len sp c). lia.
Qed.

(** Characters that an encoded text is made of. *)
Definition text_char (c : byte) : bool :=
  CHAR_IS_UNRESERVED c || bool_decide (c = PLUS) || bool_decide (c = PERCENT).

Lemma encode_char_text sp c : forallb text_char (encode_char sp c) = true.
Proof.
  assert (forallb (fun sp => forallb (fun c => forallb text_char (encode_char sp c)) all_bytes) [true; false] = true) as H
    by (vm_compute; reflexivity).
  rewrite forallb_forall in H. apply (byte_forall (fun c => forallb text_char (encode_char sp c))).
  apply H. destruct sp; simpl; auto.
Qed.

Lemma encode_text sp l c : c ∈ l ≫= encode_char sp -> text_char c = true.
Proof.
  intros (d & Hc & _)%list_elem_of_bind. pose proof (encode_char_text sp d) as H.
  rewrite forallb_forall in H. by apply H, list_elem_of_In.
Qed.

Lemma text_char_plain c : text_char c = true -> c <> x00 /\ c <> AMP /\ c <> EQUALS.
Proof.
  unfold text_char. intros H. repeat (apply orb_true_iff in H as [H|H]).
  - destruct (unreserved_plain c H). tauto.
  - by apply bool_decide_eq_true in H as ->.
  - by apply bool_decide_eq_true in H as ->.
Qed.

Lemma decode_len ctl plus l : zlen (decode_loop ctl plus l) <= zlen l.
Proof.
  assert (forall n l plus, (length l <= n)%nat -> zlen (decode_loop ctl plus l) <= zlen l) as H; [|by eapply H].
  clear. induction n as [|n IH]; intros l plus Hn; destruct l as [|c l]; simpl in Hn; try lia; [done|done|].
  rewrite decode_cons. repeat case_test; rewrite ?zlen_cons;
    [pose proof (IH l (plus || (ctl <? 0)))|pose proof (IH l plus)|]; try lia.
  destruct l as [|a [|b t]]; [done| |].
  - pose proof (IH [a] plus). rewrite !zlen_cons in *. lia.
  - pose proof (IH (a :: b :: t) plus). pose proof (IH t plus). simpl in Hn.
    case_test; rewrite !zlen_cons in *; simpl in *; lia.
Qed.

Lemma cstr_plain l : x00 ∉ l -> cstr l = l.
Proof.
  induction l as [|c l IH]; [done|]. intros [H1 H2]%not_elem_of_cons. simpl.
  rewrite decide_False by congruence. by rewrite IH.
Qed.

(** ** Queries *)

(** [key=value] with the value encoded, [&] between. *)
Definition query_arg (sp : bool) (h : header) : list byte := h.1 ++ EQUALS :: (h.2 ≫= encode_char sp).
Fixpoint query_of (sp : bool) (hs : list header) : list byte :=
  match hs with
  | [] => []
  | [h] => query_arg sp h
  | h :: hs => query_arg sp h ++ AMP :: query_of sp hs
  end.

Definition header_ok (h : header) : Prop :=
  h.1 <> [] /\ AMP ∉ h.1 /\ EQUALS ∉ h.1 /\ x00 ∉ h.2 /\ 3 * zlen h.2 < 2 ^ 32.

Lemma query_arg_no_amp sp h : header_ok h -> AMP ∉ query_arg sp h.
Proof.
  intros (_ & Ha & _). unfold query_arg. rewrite elem_of_app, elem_of_cons.
  intros [H|[H|H]]; [done|done|]. apply encode_text, text_char_plain in H. naive_solver.
Qed.

(** One turn of the loop on an argument. *)
Lemma query_turn sp h p q fuel hs :
  header_ok h -> strsep AMP q = (query_arg sp h, p) -> q <> [] ->
  query_loop (S fuel) (Some q) hs = query_loop fuel p (hs ++ [h]).
Proof.
  intros (Hk & Ha & He & Hn & Hl) Hs Hq. destruct q as [|c q]; [done|]. cbn [query_loop]. rewrite Hs.
  unfold query_arg. rewrite strsep_app by done. rewrite bool_decide_eq_false_2 by done.
  pose proof (encode_len sp h.2). unfold evhttp_decode_uri_internal. rewrite (proj2 (Z.ltb_lt _ _)) by lia.
  cbn [assert_c mbind outcome_bind]. pose proof (decode_encode 1 true sp h.2 [] (fun _ => eq_refl)) as Hd.
  rewrite !app_nil_r in Hd. change (1 =? 1) with true. rewrite Hd. rewrite cstr_plain by done. by destruct h.
Qed.

Lemma query_of_not_nil sp h hs : header_ok h -> query_of sp (h :: hs) <> [].
Proof. intros (Hk & _). destruct h as [[|c k] v], hs; done. Qed.

Lemma query_loop_spec sp hs acc fuel :
  Forall header_ok hs -> (length hs <= fuel)%nat ->
  query_loop fuel (Some (query_of sp hs)) acc = Done (Some (acc ++ hs)).
Proof.
  intros Hok. revert acc fuel. induction Hok as [|h hs Hh Hok IH]; intros acc fuel Hf.
  { rewrite app_nil_r. by destruct fuel. }
  destruct fuel as [|fuel]; [simpl in Hf; lia|]. destruct hs as [|h2 hs].
  - rewrite (query_turn sp h None); [by destruct fuel|done| |by apply query_of_not_nil].
    apply strsep_none. by apply query_arg_no_amp.
  - rewrite (query_turn sp h (Some (query_of sp (h2 :: hs)))); [|done| |by apply query_of_not_nil].
    + rewrite IH by (simpl in *; lia). by rewrite <- app_assoc.
    + apply strsep_app. by apply query_arg_no_amp.
Qed.

Lemma query_of_len sp hs : Forall header_ok hs -> (length hs <= length (query_of sp hs))%nat.
Proof.
  intros H. induction H as [|h hs Hh _ IH]; [done|]. destruct hs as [|h2 hs].
  - unfold query_of, query_arg. rewrite length_app. simpl. lia.
  - change (query_of sp (h :: h2 :: hs)) with (query_arg sp h ++ AMP :: query_of sp (h2 :: hs)).
    rewrite length_app. simpl in *. lia.
Qed.

(** ** Theorems *)

(** What [evhttp_uriencode] makes of any bytes, [evhttp_uridecode] turns
    back into the same bytes with the same length, NULs included, whether
    spaces were written as [+] or not; the text holds only unreserved
    characters, [%] and [+]. *)
Theorem uri_codec_roundtrip uri len sp dp :
  0 <= len <= zlen uri -> 3 * len < 2 ^ 32 -> (sp = true -> dp = true) ->
  returns (evhttp_uriencode true uri len sp) (fun o => match o with
    | None => False
    | Some text => (forall c, c ∈ text -> text_char c = true) /\
        evhttp_uridecode true text dp = Done (Some (ztake len uri, len))
    end).
Proof.
  intros Hlen Hmax Hsp. unfold evhttp_uriencode, memread.
  rewrite (proj2 (Z.leb_le 0 len)) by lia. rewrite (proj2 (Z.leb_le (0 + len) (zlen uri))) by lia. simpl.
  apply returns_done. unfold zsub, zdrop. simpl. rewrite drop_0. split; [intros c; apply encode_text|].
  unfold evhttp_uridecode, evhttp_decode_uri_internal. cbn [negb].
  pose proof (encode_len sp (ztake len uri)) as He. rewrite zlen_ztake in He.
  rewrite (proj2 (Z.ltb_lt _ (2 ^ 32))) by lia. cbn [assert_c mbind outcome_bind].
  pose proof (decode_encode (if dp then 1 else 0) ((if dp then 1 else 0) =? 1) sp (ztake len uri) []) as Hd.
  rewrite !app_nil_r in Hd. rewrite Hd by (intros ->; by rewrite Hsp).
  pose proof (decode_len (if dp then 1 else 0) ((if dp then 1 else 0) =? 1) (ztake len uri ≫= encode_char sp)) as Hl.
  rewrite Hd in Hl by (intros ->; by rewrite Hsp).
  rewrite (proj2 (Z.ltb_lt _ _)) by lia. cbn [assert_c mbind outcome_bind]. do 3 f_equal.
  rewrite zlen_ztake. lia.
Qed.

Lemma uri_codec_roundtrip_witness :
  evhttp_uriencode true [x61; x20; x00; x2f] 4 true = Done (Some (bytes_of "a+%00%2F")) /\
  evhttp_uridecode true (bytes_of "a+%00%2F") true = Done (Some ([x61; x20; x00; x2f], 4)).
Proof.
  destruct (uri_codec_roundtrip [x61; x20; x00; x2f] 4 true true) as ([text|] & He & Hd).
  - split; [lia|]. vm_compute. discriminate.
  - vm_compute. reflexivity.
  - intros _. reflexivity.
  - destruct Hd as [_ Hd]. split; [vm_compute; reflexivity|].
    vm_compute in He. injection He as <-. exact Hd.
  - destruct Hd.
Defined.

(** A query built from any list of arguments, the values encoded, is parsed
    into that list: same keys, same values, same order. *)
Theorem query_roundtrip sp hs :
  Forall header_ok hs -> evhttp_parse_query_str (query_of sp hs) = Done (0, hs).
Proof.
  intros Hok. unfold evhttp_parse_query_str, parse_query_part.
  rewrite query_loop_spec; [done|done|]. pose proof (query_of_len sp hs Hok). lia.
Qed.

Lemma query_roundtrip_witness :
  evhttp_parse_query_str (bytes_of "q=test&s=some+thing%3D") =
    Done (0, [(bytes_of "q", bytes_of "test"); (bytes_of "s", bytes_of "some thing=")]).
Proof.
  apply (query_roundtrip true [(bytes_of "q", bytes_of "test"); (bytes_of "s", bytes_of "some thing=")]).
  repeat constructor; simpl; try (vm_compute; congruence); apply (bool_decide_unpack _); vm_compute; exact I.
Defined.

(** Decoding never writes past the block it allocated, whatever the text. *)
Theorem uridecode_in_bounds mem uri dp :
  zlen uri < 2 ^ 32 ->
  returns (evhttp_uridecode mem uri dp) (fun o => match o with
    | None => mem = false | Some (r, n) => n = zlen r /\ n <= zlen uri end) /\
  returns (evhttp_decode_uri mem uri) (fun o => match o with
    | None => mem = false | Some r => zlen r <= zlen uri end).
Proof.
  intros Hlen. unfold evhttp_uridecode, evhttp_decode_uri, evhttp_decode_uri_internal.
  destruct mem; cbn [negb]; [|split; by apply returns_done].
  rewrite (proj2 (Z.ltb_lt _ _) Hlen). cbn [assert_c mbind outcome_bind].
  split.
  - pose proof (decode_len (if dp then 1 else 0) ((if dp then 1 else 0) =? 1) uri) as H.
    rewrite (proj2 (Z.ltb_lt _ _)) by lia. by apply returns_done.
  - pose proof (decode_len (-1) (-1 =? 1) uri) as H.
    rewrite (proj2 (Z.ltb_lt _ _)) by lia. by apply returns_done.
Qed.

Lemma uridecode_in_bounds_witness :
  exists r n, evhttp_uridecode true (bytes_of "100%") false = Done (Some (r, n)) /\ n <= 4.
Proof.
  destruct (uridecode_in_bounds true (bytes_of "100%") false) as [([[r n]|] & He & Hb) _].
  - vm_compute. reflexivity.
  - exists r, n. split; [exact He|apply Hb].
  - discriminate Hb.
Defined.

(** Escaping gives the text with each special character replaced, writes
    inside the block it sized beforehand, and leaves no [<], [>] or quote. *)
Theorem htmlescape_safe html :
  6 * zlen html < EV_SIZE_MAX ->
  evhttp_htmlescape true (Some html) = Done (Some (html ≫= html_replacement)) /\
  forall c, c ∈ html ≫= html_replacement -> c <> LT /\ c <> GT /\ c <> QUOT /\ c <> APOS.
Proof.
  intros Hlen. split; [|intros c; apply html_plain].
  assert (zlen (html ≫= html_replacement) <= 6 * zlen html) as Hs.
  { clear Hlen. induction html as [|ch l IH]; [done|]. rewrite bind_cons, zlen_app, zlen_cons.
    pose proof (html_replacement_len ch). lia. }
  unfold evhttp_htmlescape. rewrite escaped_size_spec by lia.
  rewrite (proj2 (Z.eqb_neq _ _)) by lia. cbn [negb]. rewrite escape_into_spec by (rewrite zlen_nil; lia). done.
Qed.

Lemma htmlescape_safe_witness :
  evhttp_htmlescape true (Some (bytes_of "<a&b>")) = Done (Some (bytes_of "&lt;a&amp;b&gt;")).
Proof. apply (htmlescape_safe (bytes_of "<a&b>")). vm_compute. reflexivity. Defined.
