(* ===== verification/Inet.v ===== *)
(** * Internet addresses as text

    Models [evutil_inet_ntop], [evutil_inet_pton], [evutil_parse_sockaddr_port]
    and [evutil_format_sockaddr_port_] of [libevent/evutil.c] (with
    [USE_INTERNAL_NTOP] and [USE_INTERNAL_PTON], as the file defines them).

    An address is the list of its 4 or 16 octets in network order, a string the
    list of its bytes without the NUL.  [sscanf], [strtol] and [atoi] are
    written out for the formats used, with the C library's leniency: white
    space and a sign before a number, [0x] before a hexadecimal one; a number
    that does not fit is taken as glibc does (saturated, then truncated). *)

From S2P Require Import Prelude Ctype HttpText.

Definition DOT : byte := "."%byte.
Definition COLON : byte := ":"%byte.
Definition LBRACKET : byte := "["%byte.
Definition RBRACKET : byte := "]"%byte.
Definition MINUS : byte := "-"%byte.

(** ** The C library *)

(** The longest prefix of characters that satisfy [P], and the rest. *)
Fixpoint span (P : byte -> bool) (l : list byte) : list byte * list byte :=
  match l with
  | [] => ([], [])
  | c :: t => if P c then let '(a, b) := span P t in (c :: a, b) else ([], l)
  end.

Definition hex_fold (l : list byte) : Z := fold_left (fun v c => v * 16 + hex_value c) l 0.

(** [strtol(s, &next, 16)] on a string that starts with a hexadecimal digit: the
    value and [next - s]. *)
Definition strtol16 (l : list byte) : Z * Z :=
  let hex l n := let '(d, _) := span EVUTIL_ISXDIGIT_ l in (Z.min (hex_fold d) INT64_MAX, n + zlen d) in
  match l with
  | z :: x :: d :: t =>
      if bool_decide (z = "0"%byte) && (bool_decide (x = "x"%byte) || bool_decide (x = "X"%byte)) &&
         EVUTIL_ISXDIGIT_ d
      then hex (d :: t) 2 else hex l 0
  | _ => hex l 0
  end.

(** White space and the sign. *)
Definition number_prefix (l : list byte) : bool * list byte :=
  let '(_, l) := span EVUTIL_ISSPACE_ l in
  match l with
  | c :: t => if bool_decide (c = MINUS) then (true, t)
              else if bool_decide (c = PLUS) then (false, t) else (false, l)
  | [] => (false, [])
  end.

(** One ["%u"]. *)
Definition scan_u (l : list byte) : option (Z * list byte) :=
  let '(neg, l) := number_prefix l in
  match span EVUTIL_ISDIGIT_ l with
  | ([], _) => None
  | (d, rest) =>
      let v := Z.min (dec_value d) EV_SIZE_MAX in
      Some (u32 (if neg then - v else v), rest)
  end.

(** One ["."]. *)
Definition scan_dot (l : list byte) : option (list byte) :=
  match l with c :: t => if bool_decide (c = DOT) then Some t else None | [] => None end.

(** [sscanf(s, "%u.%u.%u.%u%c", ...) == 4] and the four numbers. *)
Definition scan_quad (l : list byte) : option (Z * Z * Z * Z) :=
  '(a, l) ← scan_u l; l ← scan_dot l; '(b, l) ← scan_u l; l ← scan_dot l;
  '(c, l) ← scan_u l; l ← scan_dot l; '(d, l) ← scan_u l;
  match l with [] => Some (a, b, c, d) | _ :: _ => None end.

Definition atoi (l : list byte) : Z :=
  let '(neg, l) := number_prefix l in
  let v := Z.min (dec_value (fst (span EVUTIL_ISDIGIT_ l))) INT64_MAX in
  i32 (if neg then - v else v).

(** ["%x"] of a number below 2^16. *)
Definition print_hex (n : Z) : list byte :=
  if n <? 16 then [hex_digit_lower n]
  else if n <? 256 then [hex_digit_lower (n / 16); hex_digit_lower (n mod 16)]
  else if n <? 4096
  then [hex_digit_lower (n / 256); hex_digit_lower (n / 16 mod 16); hex_digit_lower (n mod 16)]
  else [hex_digit_lower (n / 4096); hex_digit_lower (n / 256 mod 16);
        hex_digit_lower (n / 16 mod 16); hex_digit_lower (n mod 16)].

Definition print_quad (a b c d : Z) : list byte :=
  print_dec a ++ DOT :: print_dec b ++ DOT :: print_dec c ++ DOT :: print_dec d.

(** ** [evutil_inet_ntop] *)

Inductive family := AF_INET | AF_INET6 | AF_OTHER (af : Z).

(** [words[i]] *)
Fixpoint words_of (l : list Z) : list Z :=
  match l with
  | a :: b :: l => (a * 256 + b) :: words_of l
  | _ => []
  end.

(** The first loop: from word [i] on, the longest gap found so far.  [cur] is
    the gap being counted. *)
Fixpoint find_gap (ws : list Z) (i : Z) (cur : option (Z * Z)) (pos len : Z) : Z * Z :=
  let close := match cur with
               | Some (p, n) => if len <? n then (p, n) else (pos, len)
               | None => (pos, len)
               end in
  match ws with
  | [] => close
  | w :: ws =>
      if w =? 0
      then find_gap ws (i + 1) (Some (match cur with Some (p, n) => (p, n + 1) | None => (i, 1) end)) pos len
      else find_gap ws (i + 1) None (fst close) (snd close)
  end.

Definition longest_gap (ws : list Z) : Z :=
  let '(pos, len) := find_gap ws 0 None (-1) 0 in
  if len <=? 1 then -1 else pos.

(** The second loop.  In the gap [skip] is set, up to the next word that is not
    0. *)
Fixpoint print_words (ws : list Z) (i gap : Z) (skip : bool) : list byte :=
  match ws with
  | [] => []
  | w :: ws =>
      if skip && (w =? 0) then print_words ws (i + 1) gap true
      else if (w =? 0) && (gap =? i)
      then (if i =? 0 then [COLON] else []) ++ COLON :: print_words ws (i + 1) gap true
      else print_hex w ++ (if i =? 7 then [] else [COLON]) ++ print_words ws (i + 1) gap false
  end.

Definition text6 (octets : list Z) : list byte :=
  let words := words_of octets in
  let word i := nth i words 0 in
  let octet i := nth i octets 0 in
  if (word 0%nat =? 0) && (word 1%nat =? 0) && (word 2%nat =? 0) && (word 3%nat =? 0) &&
     (word 4%nat =? 0) &&
     (((word 5%nat =? 0) && negb (word 6%nat =? 0) && negb (word 7%nat =? 0)) || (word 5%nat =? 0xffff))
  then
    let quad := print_quad (octet 12%nat) (octet 13%nat) (octet 14%nat) (octet 15%nat) in
    if word 5%nat =? 0 then [COLON; COLON] ++ quad
    else [COLON; COLON] ++ print_hex (word 5%nat) ++ COLON :: quad
  else print_words words 0 (longest_gap words) false.

Definition text4 (octets : list Z) : list byte :=
  print_quad (nth 0 octets 0) (nth 1 octets 0) (nth 2 octets 0) (nth 3 octets 0).

(** The string left in [dst], of [len] bytes. *)
Definition evutil_inet_ntop (af : family) (src : list Z) (len : Z) : option (list byte) :=
  match af with
  | AF_INET => let buf := text4 src in if len <=? zlen buf then None else Some buf
  | AF_INET6 =>
      let buf := text6 src in
      if len <? zlen buf then None else Some (ztake (len - 1) buf)
  | AF_OTHER _ => None
  end.

(** ** [evutil_inet_pton] *)

(** [words[i] = v] *)
Definition set_word (i v : Z) (words : list (option Z)) : outcome (list (option Z)) :=
  memwrite i [Some v] words.

(** The loop over the words: [l] is the text at [src], [d] is [eow - src].
    [Done None] is [return 0]. *)
Fixpoint pton_loop (fuel : nat) (l : list byte) (d i gapPos setWords : Z) (words : list (option Z))
    : outcome (option (Z * Z * list (option Z))) :=
  if 0 <? d then
    match fuel with
    | O => Crash
    | S fuel =>
        if 7 <? i then Done None else
        let c := next_char l in
        if EVUTIL_ISXDIGIT_ c then
          let '(r, n) := strtol16 l in
          if 4 <? n then Done None
          else if n =? 0 then Done None
          else if (r <? 0) || (65536 <? r) then Done None
          else
            words ← set_word i (u16 r) words;
            let l := zdrop n l in
            if negb (bool_decide (next_char l = COLON)) && negb (n =? d) then Done None
            else pton_loop fuel (zdrop 1 l) (d - n - 1) (i + 1) gapPos (setWords + 1) words
        else if bool_decide (c = COLON) && (0 <? i) && (gapPos =? -1)
        then pton_loop fuel (zdrop 1 l) (d - 1) i i setWords words
        else if bool_decide (c = COLON) && (i =? 0) && bool_decide (next_char (zdrop 1 l) = COLON) &&
                (gapPos =? -1)
        then pton_loop fuel (zdrop 2 l) (d - 2) i i setWords words
        else Done None
    end
  else Done (Some (gapPos, setWords, words)).

(** The end of the words: the string without the dotted quad, and the quad. *)
Definition end_of_words (src : list byte) : list byte * option (list byte) :=
  match strchr DOT src with
  | None => (src, None)
  | Some (before, after) =>
      let '(digits, rest) := span EVUTIL_ISDIGIT_ (rev before) in
      (rev rest, Some (rev digits ++ DOT :: after))
  end.

(** [memmove] and [memset] over the gap. *)
Definition open_gap (words : list (option Z)) (gapPos gapLen nToMove : Z) : outcome (list (option Z)) :=
  moved ← memread gapPos nToMove words;
  words ← memwrite (gapPos + gapLen) moved words;
  memwrite gapPos (replicate (Z.to_nat gapLen) (Some 0)) words.

Fixpoint octets_of (words : list (option Z)) : outcome (list Z) :=
  match words with
  | [] => Done []
  | w :: words => v ← deref w; rest ← octets_of words; Done (v / 256 :: v mod 256 :: rest)
  end.

Definition pton6 (src : list byte) : outcome (Z * list Z) :=
  if bool_decide (next_char src = DOT) then Done (0, []) else
  let '(head, quad) := end_of_words src in
  let words := replicate 8 None in
  q ← (match quad with
       | None => Done (Some (0, words))
       | Some q =>
           match scan_quad q with
           | None => Done None
           | Some (a, b, c, d) =>
               if (255 <? a) || (255 <? b) || (255 <? c) || (255 <? d) then Done None else
               words ← set_word 6 (Z.lor (Z.shiftl a 8) b) words;
               words ← set_word 7 (Z.lor (Z.shiftl c 8) d) words;
               Done (Some (2, words))
           end
       end);
  match q with
  | None => Done (0, [])
  | Some (setWords, words) =>
      o ← pton_loop (S (length src)) src (zlen head) 0 (-1) setWords words;
      match o with
      | None => Done (0, [])
      | Some (gapPos, setWords, words) =>
          if (8 <? setWords) || ((setWords =? 8) && negb (gapPos =? -1)) ||
             ((setWords <? 8) && (gapPos =? -1)) then Done (0, [])
          else if 0 <=? gapPos then
            let nToMove := setWords - (match quad with Some _ => 2 | None => 0 end) - gapPos in
            let gapLen := 8 - setWords in
            if nToMove <? 0 then Done (-1, []) else
            words ← open_gap words gapPos gapLen nToMove;
            out ← octets_of words;
            Done (1, out)
          else out ← octets_of words; Done (1, out)
      end
  end.

Definition pton4 (src : list byte) : Z * list Z :=
  match scan_quad src with
  | None => (0, [])
  | Some (a, b, c, d) =>
      if (255 <? a) || (255 <? b) || (255 <? c) || (255 <? d) then (0, []) else (1, [a; b; c; d])
  end.

Definition evutil_inet_pton (af : family) (src : list byte) : outcome (Z * list Z) :=
  match af with
  | AF_INET => Done (pton4 src)
  | AF_INET6 => pton6 src
  | AF_OTHER _ => Done (-1, [])
  end.

(** ** Addresses with a port *)

Record sockaddr := mkSockaddr { sa_family : family; sa_addr : list Z; sa_port : Z }.

(** The address part, the port part and whether the address is IPv6; [None] for
    [return -1]. *)
Definition split_address (s : list byte) : option (list byte * option (list byte) * bool) :=
  if bool_decide (next_char s = LBRACKET) then
    match strchr RBRACKET s with
    | None => None
    | Some (before, after) =>
        let addr := zdrop 1 before in
        if 127 <? zlen addr then None else
        Some (addr, if bool_decide (next_char after = COLON) then Some (zdrop 1 after) else None, true)
    end
  else
    match strchr COLON s with
    | None => Some (s, None, false)
    | Some (before, after) =>
        match strchr COLON after with
        | Some _ => Some (s, None, true)
        | None => if 127 <? zlen before then None else Some (before, Some after, false)
        end
    end.

Definition sizeof_sockaddr (is_ipv6 : bool) : Z := if is_ipv6 then 28 else 16.

(** The result, and what is stored in [out] and [*outlen]. *)
Definition evutil_parse_sockaddr_port (ip_as_string : list byte) (outlen : Z)
    : outcome (option (sockaddr * Z)) :=
  match split_address ip_as_string with
  | None => Done None
  | Some (addr_part, port_part, is_ipv6) =>
      let port := match port_part with None => 0 | Some p => atoi p end in
      if (match port_part with None => false | Some _ => (port <=? 0) || (65535 <? port) end)
      then Done None else
      let af := if is_ipv6 then AF_INET6 else AF_INET in
      '(r, addr) ← evutil_inet_pton af addr_part;
      if negb (r =? 1) then Done None
      else if outlen <? sizeof_sockaddr is_ipv6 then Done None
      else Done (Some (mkSockaddr af addr port, sizeof_sockaddr is_ipv6))
  end.

(** [evutil_snprintf(out, outlen, ...)]: the string that fits. *)
Definition snprintf (outlen : Z) (s : list byte) : list byte := ztake (outlen - 1) s.

Definition family_number (af : family) : Z :=
  match af with AF_INET => 2 | AF_INET6 => 10 | AF_OTHER n => n end.

Definition evutil_format_sockaddr_port_ (sa : sockaddr) (outlen : Z) : list byte :=
  match evutil_inet_ntop (sa_family sa) (sa_addr sa) 128, sa_family sa with
  | Some b, AF_INET => snprintf outlen (b ++ COLON :: print_dec (sa_port sa))
  | Some b, AF_INET6 =>
      snprintf outlen (LBRACKET :: b ++ RBRACKET :: COLON :: print_dec (sa_port sa))
  | _, _ =>
      snprintf outlen (bytes_of "<addr with socktype " ++ print_dec (family_number (sa_family sa)) ++ bytes_of ">")
  end.
