(* ===== verification/InetSpec.v ===== *)
(** * Round trips of addresses

    The text [evutil_inet_ntop] writes for an address is read back by
    [evutil_inet_pton] as that address, for every IPv4 and IPv6 address
    ([Inet]); the same with a port; and the cases in which the two functions
    accept or produce what they should not. *)

From S2P Require Import Prelude Ctype HttpText Inet.

(** ** Lemmas on the C library *)

Lemma span_app P a b :
  forallb P a = true -> (match b with [] => True | c :: _ => P c = false end) -> span P (a ++ b) = (a, b).
Proof.
  intros Ha Hb. induction a as [|c a IH]; simpl in *.
  - destruct b as [|c b]; [done|]. simpl. by rewrite Hb.
  - zb. rewrite H. by rewrite IH.
Qed.

Lemma forallb_Forall_true P (l : list byte) : Forall (fun c => P c = true) l -> forallb P l = true.
Proof. intros H. apply forallb_forall. intros c Hc. rewrite Forall_forall in H. by apply H, list_elem_of_In. Qed.

(** *** Hexadecimal words *)

Definition word_ok (w : Z) : bool :=
  let h := print_hex w in
  forallb EVUTIL_ISXDIGIT_ h && (1 <=? zlen h) && (zlen h <=? 4) && (hex_fold h =? w).

Fixpoint words_ok (fuel : nat) (w : Z) : bool :=
  match fuel with O => true | S fuel => word_ok w && words_ok fuel (w + 1) end.

Lemma words_ok_spec fuel w v : words_ok fuel w = true -> w <= v < w + Z.of_nat fuel -> word_ok v = true.
Proof.
  revert w. induction fuel as [|fuel IH]; intros w H Hv; [lia|]. cbn [words_ok] in H. zb.
  destruct (decide (v = w)) as [->|]; [done|]. apply (IH (w + 1)); [done|lia].
Qed.

Lemma all_words_ok : words_ok (Z.to_nat 65536) 0 = true.
Proof. vm_compute. reflexivity. Qed.

Lemma word_ok_range w : 0 <= w < 65536 -> word_ok w = true.
Proof. intros H. apply (words_ok_spec (Z.to_nat 65536) 0); [exact all_words_ok|]. rewrite Z2Nat.id; lia. Qed.

Definition is_word (w : Z) : Prop := 0 <= w < 65536.

Lemma print_hex_facts w :
  is_word w -> forallb EVUTIL_ISXDIGIT_ (print_hex w) = true /\ 1 <= zlen (print_hex w) <= 4 /\
  hex_fold (print_hex w) = w.
Proof. intros H%word_ok_range. unfold word_ok in H. zb. split; [done|]. lia. Qed.

(** What may follow a word: nothing, or a colon. *)
Definition word_end (rest : list byte) : Prop := match rest with [] => True | c :: _ => c = COLON end.

Lemma xdigit_not_x c : EVUTIL_ISXDIGIT_ c = true -> c <> "x"%byte /\ c <> "X"%byte /\ c <> COLON /\ c <> DOT.
Proof. intros H. repeat split; intros ->; by vm_compute in H. Qed.

Lemma strtol16_word w rest :
  is_word w -> word_end rest -> strtol16 (print_hex w ++ rest) = (w, zlen (print_hex w)).
Proof.
  intros Hw Hr. destruct (print_hex_facts w Hw) as (Hx & Hl & Hv).
  assert (span EVUTIL_ISXDIGIT_ (print_hex w ++ rest) = (print_hex w, rest)) as Hs.
  { apply span_app; [done|]. destruct rest as [|c rest]; [done|]. simpl in Hr. by subst. }
  assert (forall l n, span EVUTIL_ISXDIGIT_ l = (print_hex w, rest) ->
    (let '(d, _) := span EVUTIL_ISXDIGIT_ l in (Z.min (hex_fold d) INT64_MAX, n + zlen d)) = (w, n + zlen (print_hex w))) as Hhex.
  { intros l n ->. rewrite Hv. f_equal. unfold is_word, INT64_MAX in *. lia. }
  unfold strtol16. pose proof (Hhex _ 0 Hs) as H0. rewrite Z.add_0_l in H0.
  destruct (print_hex w ++ rest) as [|z [|x [|d t]]] eqn:E; try exact H0.
  assert (x <> "x"%byte /\ x <> "X"%byte) as [H1 H2].
  { destruct (print_hex w) as [|h1 [|h2 h]]; [rewrite zlen_nil in Hl; lia| |]; simpl in E, Hx.
    - injection E as _ E. destruct rest as [|c rest]; [done|]. simpl in Hr. injection E as E _. subst. split; discriminate.
    - injection E as _ E _. subst. zb. destruct (xdigit_not_x x) as (? & ? & _); tauto. }
  rewrite (bool_decide_eq_false_2 (x = _) H1), (bool_decide_eq_false_2 (x = _) H2).
  rewrite andb_false_r. exact H0.
Qed.

(** *** Decimal numbers *)

Lemma print_dec_head n : exists c t, print_dec n = c :: t /\ EVUTIL_ISDIGIT_ c = true.
Proof.
  pose proof (print_dec_not_nil n) as Hn. pose proof (print_dec_digits n) as Hd.
  destruct (print_dec n) as [|c t]; [done|]. exists c, t. split; [done|]. by inversion Hd.
Qed.

Lemma digit_plain c :
  EVUTIL_ISDIGIT_ c = true -> EVUTIL_ISSPACE_ c = false /\ c <> MINUS /\ c <> PLUS /\ c <> COLON.
Proof.
  intros H. split; [|repeat split; intros ->; by vm_compute in H].
  pose proof (byte_forall (fun c => implb (EVUTIL_ISDIGIT_ c) (negb (EVUTIL_ISSPACE_ c)))
    ltac:(vm_compute; reflexivity) c) as Hc. cbv beta in Hc. rewrite H in Hc. by apply negb_true_iff in Hc.
Qed.

Lemma number_prefix_dec n rest : number_prefix (print_dec n ++ rest) = (false, print_dec n ++ rest).
Proof.
  destruct (print_dec_head n) as (c & t & -> & Hc). destruct (digit_plain c Hc) as (Hs & H1 & H2 & _).
  unfold number_prefix. cbn [app span]. rewrite Hs.
  by rewrite (bool_decide_eq_false_2 _ H1), (bool_decide_eq_false_2 _ H2).
Qed.

Definition digits_end (rest : list byte) : Prop :=
  match rest with [] => True | c :: _ => EVUTIL_ISDIGIT_ c = false end.

Lemma span_dec n rest : digits_end rest -> span EVUTIL_ISDIGIT_ (print_dec n ++ rest) = (print_dec n, rest).
Proof. intros Hr. apply span_app; [apply forallb_Forall_true, print_dec_digits|by destruct rest]. Qed.

Lemma scan_u_dec n rest :
  0 <= n < 2 ^ 32 -> digits_end rest -> scan_u (print_dec n ++ rest) = Some (n, rest).
Proof.
  intros Hn Hr. unfold scan_u. rewrite number_prefix_dec, span_dec by done.
  destruct (print_dec n) as [|c t] eqn:E; [by destruct (print_dec_not_nil n)|]. rewrite <- E.
  rewrite print_dec_value by lia. rewrite Z.min_l by (unfold EV_SIZE_MAX; lia). by rewrite u32_small.
Qed.

Lemma atoi_dec n : 0 <= n < 2 ^ 31 -> atoi (print_dec n) = n.
Proof.
  intros Hn. unfold atoi. rewrite <- (app_nil_r (print_dec n)), number_prefix_dec, span_dec by done.
  cbn [fst]. rewrite print_dec_value by lia. rewrite Z.min_l by (unfold INT64_MAX; lia). apply i32_small. lia.
Qed.

Lemma scan_quad_print a b c d :
  0 <= a < 256 -> 0 <= b < 256 -> 0 <= c < 256 -> 0 <= d < 256 ->
  scan_quad (print_quad a b c d) = Some (a, b, c, d).
Proof.
  intros Ha Hb Hc Hd. unfold scan_quad, print_quad.
  assert (forall n t, 0 <= n < 256 -> scan_u (print_dec n ++ DOT :: t) = Some (n, DOT :: t)) as Hs
    by (intros n t Hn; apply scan_u_dec; [lia|done]).
  assert (forall t, scan_dot (DOT :: t) = Some t) as Hd' by (intros t; cbn [scan_dot]; by rewrite bool_decide_eq_true_2).
  do 3 (rewrite Hs by done; cbn [mbind option_bind]; rewrite Hd'; cbn [mbind option_bind]).
  rewrite <- (app_nil_r (print_dec d)), scan_u_dec by (done || lia). done.
Qed.

(** ** The words of a text *)

Definition colon_words (ws : list Z) : list byte := ws ≫= (fun w => print_hex w ++ [COLON]).

Lemma set_word_at pre x post i v :
  zlen pre = i -> set_word i v (pre ++ x :: post) = Done (pre ++ Some v :: post).
Proof.
  intros <-. unfold set_word, memwrite. pose proof (zlen_nonneg pre). pose proof (zlen_nonneg post).
  rewrite zlen_app, !zlen_cons, zlen_nil.
  rewrite (proj2 (Z.leb_le 0 _)), (proj2 (Z.leb_le (zlen pre + (1 + 0)) _)) by lia. simpl. f_equal.
  unfold ztake, zdrop, zlen. rewrite Nat2Z.id. rewrite take_app_length. f_equal. f_equal.
  replace (Z.to_nat (Z.of_nat (length pre) + (1 + 0))) with (length pre + 1)%nat by lia.
  by rewrite <- drop_drop, drop_app_length.
Qed.

Lemma loop_done fuel l d i g s words :
  d <= 0 -> pton_loop fuel l d i g s words = Done (Some (g, s, words)).
Proof. intros Hd. destruct fuel; cbn [pton_loop]; by rewrite (proj2 (Z.ltb_ge 0 d)). Qed.

(** One word that is followed by a colon, or ends at [eow]. *)
Lemma loop_word fuel w rest d i g s pre x post :
  is_word w -> word_end rest -> i <= 7 -> zlen pre = i -> 0 < d ->
  (rest = [] -> d = zlen (print_hex w)) ->
  pton_loop (S fuel) (print_hex w ++ rest) d i g s (pre ++ x :: post) =
  pton_loop fuel (zdrop 1 rest) (d - zlen (print_hex w) - 1) (i + 1) g (s + 1) (pre ++ Some w :: post).
Proof.
  intros Hw Hr Hi Hpre Hd Hend. destruct (print_hex_facts w Hw) as (Hx & Hl & _). unfold is_word in Hw.
  cbn [pton_loop]. rewrite (proj2 (Z.ltb_lt 0 d) Hd), (proj2 (Z.ltb_ge 7 i) Hi).
  assert (EVUTIL_ISXDIGIT_ (next_char (print_hex w ++ rest)) = true) as ->.
  { destruct (print_hex w); [rewrite zlen_nil in Hl; lia|]. simpl in *. by zb. }
  rewrite strtol16_word by done.
  rewrite (proj2 (Z.ltb_ge 4 _)), (proj2 (Z.eqb_neq (zlen _) 0)), (proj2 (Z.ltb_ge w 0)), (proj2 (Z.ltb_ge 65536 w)) by lia.
  cbn [orb]. unfold u16. rewrite Z.mod_small by lia. rewrite set_word_at by done. cbn [mbind outcome_bind].
  assert (zdrop (zlen (print_hex w)) (print_hex w ++ rest) = rest) as ->.
  { unfold zdrop, zlen. by rewrite Nat2Z.id, drop_app_length. }
  destruct rest as [|c rest]; simpl in Hr.
  - rewrite <- Hend by done. rewrite Z.eqb_refl. cbn [negb]. by rewrite andb_false_r.
  - subst c. cbn [next_char]. rewrite bool_decide_eq_true_2 by done. cbn [negb andb]. done.
Qed.

Lemma loop_words ws fuel t d i g s pre mid post :
  Forall is_word ws -> i + zlen ws <= 8 -> zlen pre = i -> length mid = length ws -> 0 <= d ->
  pton_loop (length ws + fuel) (colon_words ws ++ t) (zlen (colon_words ws) + d) i g s (pre ++ mid ++ post) =
  pton_loop fuel t d (i + zlen ws) g (s + zlen ws) (pre ++ (Some <$> ws) ++ post).
Proof.
  intros Hws. revert i s pre mid. induction Hws as [|w ws Hw Hws IH]; intros i s pre mid Hi Hpre Hmid Hd.
  { destruct mid; [|done]. rewrite zlen_nil, !Z.add_0_r. done. }
  destruct mid as [|x mid]; [done|]. injection Hmid as Hmid. rewrite zlen_cons in *.
  pose proof (zlen_nonneg ws). unfold colon_words in *. rewrite bind_cons in *. rewrite <- !app_assoc. cbn [app length Nat.add].
  set (W := ws ≫= _) in *. pose proof (zlen_nonneg W). destruct (print_hex_facts w Hw) as (_ & Hl & _).
  rewrite zlen_app, zlen_cons.
  rewrite loop_word by (done || lia || (intros ?; done)).
  change (zdrop 1 (COLON :: W ++ t)) with (W ++ t).
  replace (zlen (print_hex w) + (1 + zlen W) + d - zlen (print_hex w) - 1) with (zlen W + d) by lia.
  change (pre ++ Some w :: mid ++ post) with (pre ++ [Some w] ++ mid ++ post). rewrite app_assoc.
  rewrite (IH (i + 1) (s + 1) (pre ++ [Some w]) mid) by (try done; rewrite ?zlen_app, ?zlen_cons, ?zlen_nil; lia).
  rewrite <- app_assoc. cbn [app]. rewrite fmap_cons. cbn [app]. f_equal; lia.
Qed.

(** Words joined by colons, up to the end of the text. *)
Definition joined_words (ws : list Z) : list byte :=
  match rev ws with [] => [] | w :: _ => colon_words (removelast ws) ++ print_hex w end.

Lemma joined_snoc ws w : joined_words (ws ++ [w]) = colon_words ws ++ print_hex w.
Proof. unfold joined_words. rewrite rev_app_distr. simpl. by rewrite removelast_last. Qed.

Lemma loop_joined ws fuel i g s pre mid post :
  Forall is_word ws -> i + zlen ws <= 8 -> zlen pre = i -> length mid = length ws ->
  (length ws <= fuel)%nat ->
  pton_loop fuel (joined_words ws) (zlen (joined_words ws)) i g s (pre ++ mid ++ post) =
  Done (Some (g, s + zlen ws, pre ++ (Some <$> ws) ++ post)).
Proof.
  destruct ws as [|w ws _] using rev_ind.
  { intros _ _ _ Hmid _. destruct mid; [|done]. rewrite loop_done by (by vm_compute). rewrite zlen_nil, Z.add_0_r. done. }
  intros [Hws Hw]%Forall_app Hi Hpre Hmid Hf. pose proof (Forall_inv Hw) as Hw1.
  rewrite zlen_app, zlen_cons, zlen_nil in *. rewrite length_app in *. simpl in Hmid, Hf.
  destruct mid as [|x mid _] using rev_ind; [simpl in Hmid; lia|]. rewrite length_app in Hmid. simpl in Hmid.
  rewrite joined_snoc, zlen_app. destruct (print_hex_facts w Hw1) as (_ & Hl & _).
  replace fuel with (length ws + S (fuel - length ws - 1))%nat by lia. rewrite <- app_assoc.
  rewrite loop_words by (done || lia). rewrite <- (app_nil_r (print_hex w)) at 1.
  rewrite app_assoc. cbn [app].
  rewrite loop_word by (try done; rewrite ?zlen_app; unfold zlen in *; rewrite ?length_fmap; lia).
  rewrite loop_done by lia. rewrite fmap_app, <- !app_assoc. cbn [fmap list_fmap app].
  by replace (s + zlen ws + 1) with (s + (zlen ws + (1 + 0))) by lia.
Qed.

(** ** What [evutil_inet_ntop] prints *)

Definition is_octet (a : Z) : Prop := 0 <= a < 256.

(** A list of octets written out. *)
Ltac octets := cbn [app replicate]; repeat (apply List.Forall_cons; [done || (unfold is_octet; lia)|]); apply List.Forall_nil.

Lemma print_words_tail ws i g :
  g < i -> i + zlen ws = 8 -> print_words ws i g false = joined_words ws.
Proof.
  revert i. induction ws as [|w ws IH]; intros i Hg Hi; [done|]. rewrite zlen_cons in Hi.
  pose proof (zlen_nonneg ws). cbn [print_words]. cbn [andb].
  rewrite (proj2 (Z.eqb_neq g i)), andb_false_r by lia. destruct ws as [|w' ws].
  - rewrite zlen_nil in Hi. rewrite (proj2 (Z.eqb_eq i 7)) by lia. cbn [print_words].
    change [w] with ([] ++ [w]). rewrite joined_snoc. cbn. by rewrite app_nil_r.
  - rewrite zlen_cons in Hi. pose proof (zlen_nonneg ws). rewrite (proj2 (Z.eqb_neq i 7)) by lia.
    rewrite IH by (rewrite ?zlen_cons; lia). destruct (exists_last (l := w' :: ws)) as (l & x & ->); [done|].
    change (w :: l ++ [x]) with ((w :: l) ++ [x]). rewrite !joined_snoc.
    unfold colon_words. rewrite bind_cons. by rewrite <- !app_assoc.
Qed.

Lemma print_words_zeros n B i g :
  g < i -> i + Z.of_nat n + zlen B = 8 -> (match B with [] => True | w :: _ => w <> 0 end) ->
  print_words (replicate n 0 ++ B) i g true = joined_words B.
Proof.
  revert i. induction n as [|n IH]; intros i Hg Hi HB.
  - cbn [replicate app]. destruct B as [|w B]; [done|]. rewrite <- (print_words_tail (w :: B) i g) by lia.
    cbn [print_words andb]. by rewrite (proj2 (Z.eqb_neq w 0)).
  - cbn [replicate app print_words]. cbn [andb Z.eqb]. apply IH; [lia|lia|done].
Qed.

Lemma print_words_gap A rest i g :
  g = i + zlen A -> 0 <= i -> i + zlen A + 1 + zlen rest = 8 ->
  print_words (A ++ 0 :: rest) i g false =
  colon_words A ++ (if g =? 0 then [COLON] else []) ++ COLON :: print_words rest (g + 1) g true.
Proof.
  revert i. induction A as [|w A IH]; intros i Hg Hi0 Hi.
  - rewrite zlen_nil in *. cbn [app print_words]. cbn [andb Z.eqb].
    rewrite (proj2 (Z.eqb_eq g i)) by lia. by replace i with g by lia.
  - rewrite zlen_cons in *. pose proof (zlen_nonneg A). pose proof (zlen_nonneg rest). cbn [app print_words andb].
    rewrite (proj2 (Z.eqb_neq g i)), andb_false_r, (proj2 (Z.eqb_neq i 7)) by lia.
    rewrite IH by lia. unfold colon_words. rewrite bind_cons. by rewrite <- !app_assoc.
Qed.

(** Words without a dotted quad: the words up to the gap, a colon or two, and the
    words after its zeros. *)
Lemma zeros_split ws :
  exists n B, ws = replicate n 0 ++ B /\ match B with [] => True | w :: _ => w <> 0 end.
Proof.
  induction ws as [|w ws (n & B & -> & HB)]; [by exists 0%nat, []|].
  destruct (decide (w = 0)) as [->|Hw]; [by exists (S n), B|by exists 0%nat, (w :: replicate n 0 ++ B)].
Qed.

(** ** What [evutil_inet_pton] reads *)

Lemma xdigits_no_dot l : forallb EVUTIL_ISXDIGIT_ l = true -> DOT ∉ l.
Proof.
  rewrite forallb_forall. intros H Hin%list_elem_of_In. apply H in Hin. by vm_compute in Hin.
Qed.

Lemma colon_words_no_dot ws : Forall is_word ws -> DOT ∉ colon_words ws.
Proof.
  intros H. induction H as [|w ws Hw Hws IH]; [apply not_elem_of_nil|].
  unfold colon_words in *. rewrite bind_cons, !elem_of_app.
  destruct (print_hex_facts w Hw) as (Hx%xdigits_no_dot & _). intros [[Hin|Hin]|Hin]; [done| |done].
  by apply list_elem_of_singleton in Hin.
Qed.

Lemma joined_no_dot ws : Forall is_word ws -> DOT ∉ joined_words ws.
Proof.
  destruct ws as [|w ws _] using rev_ind; intros H; [apply not_elem_of_nil|]. apply Forall_app in H as [H1 H2].
  rewrite joined_snoc, elem_of_app. intros [Hin|Hin]; [by apply colon_words_no_dot in H1|].
  destruct (print_hex_facts w (Forall_inv H2)) as (Hx%xdigits_no_dot & _). done.
Qed.

Lemma end_of_words_none s : DOT ∉ s -> end_of_words s = (s, None).
Proof. intros H. unfold end_of_words. by rewrite (proj2 (strchr_None _ _) H). Qed.

Lemma next_char_not_dot s : DOT ∉ s -> bool_decide (next_char s = DOT) = false.
Proof.
  intros H. apply bool_decide_eq_false. destruct s as [|c s]; [done|]. simpl. intros ->. apply H, list_elem_of_here.
Qed.

Lemma octets_of_words n l :
  length l = (2 * n)%nat -> Forall is_octet l -> octets_of (Some <$> words_of l) = Done l.
Proof.
  revert l. induction n as [|n IH]; intros l Hl H; [by destruct l|].
  destruct l as [|a [|b l]]; [done|simpl in Hl; lia|]. inversion H as [|? ? Ha H']. inversion H' as [|? ? Hb H'']. subst.
  unfold is_octet in *. cbn [words_of]. rewrite fmap_cons. cbn [octets_of deref mbind outcome_bind].
  rewrite IH by (done || (simpl in Hl; lia)). cbn [mbind outcome_bind].
  rewrite Z.div_add_l, (Z.div_small b), Z.add_0_r by lia.
  rewrite Z.add_comm, Z.mod_add, (Z.mod_small b) by lia. done.
Qed.

Lemma ztake_app {A} (a b : list A) : ztake (zlen a) (a ++ b) = a.
Proof. unfold ztake, zlen. by rewrite Nat2Z.id, take_app_length. Qed.

Lemma zdrop_app {A} (a b : list A) : zdrop (zlen a) (a ++ b) = b.
Proof. unfold zdrop, zlen. by rewrite Nat2Z.id, drop_app_length. Qed.

Lemma memread_app {A} (a b c : list A) off n :
  zlen a = off -> zlen b = n -> memread off n (a ++ b ++ c) = Done b.
Proof.
  intros <- <-. pose proof (zlen_nonneg a). pose proof (zlen_nonneg b). pose proof (zlen_nonneg c).
  rewrite memread_done by (rewrite ?zlen_app; lia). unfold zsub. by rewrite zdrop_app, ztake_app.
Qed.

Lemma memwrite_app {A} (a b c d : list A) off :
  zlen a = off -> zlen b = zlen d -> memwrite off d (a ++ b ++ c) = Done (a ++ d ++ c).
Proof.
  intros <- E. pose proof (zlen_nonneg a). pose proof (zlen_nonneg c). pose proof (zlen_nonneg d).
  rewrite memwrite_done by (rewrite ?zlen_app; lia). rewrite ztake_app, <- E, <- zlen_app.
  by rewrite (app_assoc a b c), zdrop_app.
Qed.

(** The words after the gap move up to the last words [r], which stay. *)
Lemma open_gap_spec (a b t r : list (option Z)) n :
  length t = n ->
  open_gap (a ++ b ++ t ++ r) (zlen a) (Z.of_nat n) (zlen b) = Done (a ++ replicate n (Some 0) ++ b ++ r).
Proof.
  intros Ht. unfold open_gap. rewrite (memread_app a b (t ++ r)) by done. cbn [mbind outcome_bind].
  (* split [b ++ t] at [n] *)
  rewrite (app_assoc b t r). set (bt := b ++ t).
  assert (length bt = (n + length b)%nat) as Hlen by (unfold bt; rewrite length_app; lia).
  rewrite <- (take_drop n bt), <- (app_assoc _ _ r), app_assoc.
  rewrite (memwrite_app _ _ r b) by (unfold zlen; rewrite ?length_app, ?length_drop, ?length_take; lia).
  cbn [mbind outcome_bind]. rewrite <- app_assoc, Nat2Z.id.
  apply memwrite_app; [done|]. unfold zlen. rewrite length_take, length_replicate. lia.
Qed.

Definition gap_text (A B : list Z) : list byte :=
  colon_words A ++ (if zlen A =? 0 then [COLON] else []) ++ COLON :: joined_words B.

Lemma replicate_8_split {T} n m (x : T) :
  (n + m <= 8)%nat -> replicate 8 x = replicate n x ++ replicate m x ++ replicate (8 - n - m) x.
Proof. intros H. rewrite <- !replicate_add. f_equal. lia. Qed.

Lemma loop_colons fuel l d s words :
  2 <= d -> pton_loop (S fuel) (COLON :: COLON :: l) d 0 (-1) s words = pton_loop fuel l (d - 2) 0 0 s words.
Proof. intros Hd. cbn [pton_loop]. by rewrite (proj2 (Z.ltb_lt 0 d)) by lia. Qed.

Lemma loop_colon fuel l d i s words :
  0 < d -> 0 < i <= 7 -> pton_loop (S fuel) (COLON :: l) d i (-1) s words = pton_loop fuel l (d - 1) i i s words.
Proof.
  intros Hd Hi. cbn [pton_loop next_char]. rewrite (proj2 (Z.ltb_lt 0 d)), (proj2 (Z.ltb_ge 7 i)) by lia.
  change (EVUTIL_ISXDIGIT_ COLON) with false. cbv match. rewrite bool_decide_eq_true_2 by done.
  by rewrite (proj2 (Z.ltb_lt 0 i)) by lia.
Qed.

Lemma loop_gap A B fuel :
  Forall is_word A -> Forall is_word B -> zlen A + zlen B <= 7 -> (length A + S (length B) <= fuel)%nat ->
  pton_loop fuel (gap_text A B) (zlen (gap_text A B)) 0 (-1) 0 (replicate 8 None) =
  Done (Some (zlen A, zlen A + zlen B,
    (Some <$> A) ++ (Some <$> B) ++ replicate (8 - length A - length B) None)).
Proof.
  intros HA HB Hlen Hf. pose proof (zlen_nonneg A). pose proof (zlen_nonneg B). unfold gap_text.
  pose proof (zlen_nonneg (joined_words B)).
  rewrite (replicate_8_split (length A) (length B)) by (unfold zlen in Hlen; lia).
  set (R := replicate (8 - length A - length B) None).
  assert (forall f, (length B <= f)%nat ->
    pton_loop f (joined_words B) (zlen (joined_words B)) (zlen A) (zlen A) (zlen A)
      ((Some <$> A) ++ replicate (length B) None ++ R) =
    Done (Some (zlen A, zlen A + zlen B, (Some <$> A) ++ (Some <$> B) ++ R))) as Hj.
  { intros f Hff. apply loop_joined; [done|lia|unfold zlen; by rewrite length_fmap|by rewrite length_replicate|done]. }
  destruct A as [|w A].
  - rewrite zlen_nil in *. cbn [Z.eqb app colon_words]. unfold colon_words. cbn [app mbind list_bind].
    destruct fuel as [|fuel]; [simpl in Hf; lia|]. rewrite !zlen_cons. rewrite loop_colons by lia.
    replace (1 + (1 + zlen (joined_words B)) - 2) with (zlen (joined_words B)) by lia.
    apply (Hj fuel). simpl in Hf. lia.
  - rewrite zlen_cons in *. pose proof (zlen_nonneg A). rewrite (proj2 (Z.eqb_neq _ 0)) by lia. cbn [app].
    replace fuel with (length (w :: A) + S (fuel - length (w :: A) - 1))%nat by (simpl in *; lia).
    rewrite zlen_app, zlen_cons.
    etrans; [apply (loop_words (w :: A) _ _ _ 0 _ _ [] (replicate (length (w :: A)) None) (replicate (length B) None ++ R));
      [done|rewrite zlen_cons; lia|done|by rewrite length_replicate|lia]|].
    rewrite loop_colon by (rewrite ?zlen_cons; lia). rewrite !zlen_cons.
    replace (1 + zlen (joined_words B) - 1) with (zlen (joined_words B)) by lia.
    rewrite !Z.add_0_l. cbn [app]. apply Hj. simpl in *. lia.
Qed.

Lemma words_octets_done l :
  length l = 16%nat -> Forall is_octet l -> octets_of (Some <$> words_of l) = Done l.
Proof. apply (octets_of_words 8). Qed.

Lemma gap_text_no_dot A B : Forall is_word A -> Forall is_word B -> DOT ∉ gap_text A B.
Proof.
  intros HA HB. unfold gap_text. rewrite !elem_of_app, elem_of_cons.
  intros [H|[H|[H|H]]]; [by apply colon_words_no_dot in HA| |done|by apply joined_no_dot in HB].
  destruct (zlen A =? 0); [by apply list_elem_of_singleton in H|by apply not_elem_of_nil in H].
Qed.

Lemma print_hex_long w : is_word w -> (1 <= length (print_hex w))%nat.
Proof. intros H. destruct (print_hex_facts w H) as (_ & Hl & _). unfold zlen in Hl. lia. Qed.

Lemma colon_words_long ws : Forall is_word ws -> (2 * length ws <= length (colon_words ws))%nat.
Proof.
  intros H. induction H as [|w ws Hw Hws IH]; [done|]. unfold colon_words in *. rewrite bind_cons, !length_app.
  apply print_hex_long in Hw. simpl. lia.
Qed.

Lemma joined_long ws : Forall is_word ws -> (length ws <= length (joined_words ws))%nat.
Proof.
  destruct ws as [|w ws _] using rev_ind; [done|]. intros [H1 H2]%Forall_app.
  rewrite joined_snoc, !length_app. apply colon_words_long in H1. apply Forall_inv, print_hex_long in H2.
  simpl. lia.
Qed.

Lemma pton6_gap A B l :
  length l = 16%nat -> Forall is_octet l -> Forall is_word A -> Forall is_word B ->
  zlen A + zlen B <= 7 -> words_of l = A ++ replicate (8 - length A - length B) 0 ++ B ->
  pton6 (gap_text A B) = Done (1, l).
Proof.
  intros Hl Ho HA HB Hlen Hw. pose proof (zlen_nonneg A). pose proof (zlen_nonneg B).
  pose proof (gap_text_no_dot A B HA HB) as Hd.
  unfold pton6. rewrite next_char_not_dot, end_of_words_none by done. cbn [mbind outcome_bind].
  rewrite loop_gap; [|done|done|done|].
  2: { unfold gap_text. rewrite !length_app, length_cons. apply colon_words_long in HA. apply joined_long in HB. lia. }
  cbn [mbind outcome_bind].
  rewrite (proj2 (Z.ltb_ge 8 _)), (proj2 (Z.eqb_neq _ 8)), (proj2 (Z.eqb_neq (zlen A) (-1))), andb_false_r by lia.
  cbn [orb andb negb]. rewrite (proj2 (Z.leb_le 0 _)), (proj2 (Z.ltb_ge _ 0)) by lia.
  replace (8 - (zlen A + zlen B)) with (Z.of_nat (8 - length A - length B)) by (unfold zlen in *; lia).
  replace (zlen A + zlen B - 0 - zlen A) with (zlen (Some <$> B)) by (unfold zlen; rewrite length_fmap; lia).
  replace (zlen A) with (zlen (Some <$> A)) by (unfold zlen; by rewrite length_fmap).
  rewrite <- (app_nil_r (replicate _ None)), open_gap_spec by (by rewrite length_replicate).
  cbn [mbind outcome_bind]. rewrite app_nil_r, <- (fmap_replicate Some), <- !fmap_app, <- Hw, words_octets_done by done. done.
Qed.

Lemma pton6_words ws l :
  length l = 16%nat -> Forall is_octet l -> Forall is_word ws -> length ws = 8%nat -> words_of l = ws ->
  pton6 (joined_words ws) = Done (1, l).
Proof.
  intros Hl Ho Hws Hlen Hw. pose proof (joined_no_dot ws Hws) as Hd.
  unfold pton6. rewrite next_char_not_dot, end_of_words_none by done. cbn [mbind outcome_bind].
  rewrite <- (app_nil_r (replicate 8 None)). change (replicate 8 None) with ([] ++ @replicate (option Z) 8 None).
  rewrite <- app_assoc.
  rewrite loop_joined; [|done|unfold zlen; lia|done|by rewrite length_replicate, Hlen|apply joined_long in Hws; lia].
  cbn [mbind outcome_bind app]. unfold zlen. rewrite Hlen, app_nil_r, <- Hw, words_octets_done by done. done.
Qed.

(** *** The dotted quad *)

Definition ffff : list byte := bytes_of "::ffff:".

Lemma span_rev_dec a pre :
  digits_end (rev pre) ->
  span EVUTIL_ISDIGIT_ (rev (pre ++ print_dec a)) = (rev (print_dec a), rev pre).
Proof.
  intros H. rewrite rev_app_distr. apply span_app; [|by destruct (rev pre)].
  apply forallb_Forall_true, Forall_rev, print_dec_digits.
Qed.

Lemma dec_no_dot n : DOT ∉ print_dec n.
Proof.
  intros H. pose proof (print_dec_digits n) as Hd. rewrite Forall_forall in Hd. apply Hd in H. by vm_compute in H.
Qed.

Lemma end_of_words_quad pre a b c d :
  DOT ∉ pre -> digits_end (rev pre) ->
  end_of_words (pre ++ print_quad a b c d) = (pre, Some (print_quad a b c d)).
Proof.
  intros Hn Hp. unfold end_of_words, print_quad. rewrite app_assoc.
  rewrite strchr_app by (rewrite elem_of_app; intros [H|H]; [done|by apply dec_no_dot in H]).
  rewrite span_rev_dec by done. by rewrite !rev_involutive.
Qed.

Lemma lor_octets a b : is_octet a -> is_octet b -> Z.lor (Z.shiftl a 8) b = a * 256 + b.
Proof.
  unfold is_octet. intros Ha Hb.
  assert (Z.land (Z.shiftl a 8) b = 0) as H0.
  { apply Z.bits_inj'. intros n Hn. rewrite Z.land_spec, Z.bits_0.
    destruct (Z.lt_ge_cases n 8) as [Hlt|Hge]; [by rewrite Z.shiftl_spec_low|].
    rewrite <- (Z.mod_small b (2 ^ 8)) by lia. by rewrite Z.mod_pow2_bits_high, andb_false_r by lia. }
  rewrite <- Z.lxor_lor, <- Z.add_nocarry_lxor, Z.shiftl_mul_pow2 by (done || lia). done.
Qed.

Definition octet_words (a b c d : Z) : list (option Z) := [Some (a * 256 + b); Some (c * 256 + d)].

(** A prefix that ends with a colon and the quad after it. *)
Lemma pton6_quad pre a b c d setw mid moved :
  is_octet a -> is_octet b -> is_octet c -> is_octet d ->
  DOT ∉ pre -> digits_end (rev pre) -> next_char (pre ++ print_quad a b c d) <> DOT ->
  pton_loop (S (length (pre ++ print_quad a b c d))) (pre ++ print_quad a b c d) (zlen pre) 0 (-1) 2
    (replicate 6 None ++ octet_words a b c d) = Done (Some (0, setw, mid ++ octet_words a b c d)) ->
  2 <= setw <= 7 -> open_gap (mid ++ octet_words a b c d) 0 (8 - setw) (setw - 2) =
    Done ((Some <$> moved) ++ octet_words a b c d) ->
  pton6 (pre ++ print_quad a b c d) =
  octets_of ((Some <$> moved) ++ octet_words a b c d) ≫= (fun out => Done (1, out)).
Proof.
  intros Ha Hb Hc Hd Hn Hp Hh Hloop Hset Hgap. unfold is_octet in *. unfold pton6.
  rewrite bool_decide_eq_false_2, end_of_words_quad, scan_quad_print by done.
  rewrite !(proj2 (Z.ltb_ge 255 _)) by lia. cbn [orb]. rewrite !lor_octets by done.
  rewrite (set_word_at (replicate 6 None) None [None]) by done. cbn [mbind outcome_bind].
  rewrite (set_word_at (replicate 6 None ++ [Some (a * 256 + b)]) None []) by done. cbn [mbind outcome_bind].
  rewrite <- app_assoc. change ([Some (a * 256 + b)] ++ [Some (c * 256 + d)]) with (octet_words a b c d).
  rewrite Hloop. cbn [mbind outcome_bind].
  rewrite (proj2 (Z.ltb_ge 8 _)), (proj2 (Z.eqb_neq setw 8)) by lia. cbn [orb andb Z.eqb Z.opp negb Z.leb Z.compare].
  rewrite andb_false_r. rewrite (proj2 (Z.ltb_ge (setw - 2 - 0) 0)) by lia. rewrite Z.sub_0_r, Hgap. done.
Qed.

(** ** The gap is at a word that is 0 *)

Definition gap_at (ws : list Z) (p : Z) : Prop :=
  p = -1 \/ exists A rest, ws = A ++ 0 :: rest /\ zlen A = p.

Lemma find_gap_zero pre ws cur pos len :
  gap_at (pre ++ ws) pos -> (match cur with Some (p, _) => gap_at (pre ++ ws) p | None => True end) ->
  gap_at (pre ++ ws) (fst (find_gap ws (zlen pre) cur pos len)).
Proof.
  revert pre cur pos len. induction ws as [|w ws IH]; intros pre cur pos len Hpos Hcur; cbn [find_gap].
  - destruct cur as [[p n]|]; [by destruct (len <? n)|done].
  - replace (zlen pre + 1) with (zlen (pre ++ [w])) by (rewrite zlen_app, zlen_cons, zlen_nil; lia).
    assert (pre ++ w :: ws = (pre ++ [w]) ++ ws) as E by (by rewrite <- app_assoc).
    destruct (w =? 0) eqn:Ew; zb.
    + subst w. rewrite E in *. apply IH; [done|]. destruct cur as [[p n]|]; [done|].
      right. exists pre, ws. by rewrite <- app_assoc.
    + rewrite E in *. apply IH; [|done]. destruct cur as [[p n]|]; [by destruct (len <? n)|done].
Qed.

Lemma longest_gap_zero ws : gap_at ws (longest_gap ws).
Proof.
  unfold longest_gap. pose proof (find_gap_zero [] ws None (-1) 0 (or_introl eq_refl) I) as H.
  rewrite zlen_nil in H. simpl app in H.
  destruct (find_gap ws 0 None (-1) 0) as [pos len]. destruct (len <=? 1); [by left|exact H].
Qed.

Lemma words_of_words n l : length l = (2 * n)%nat -> Forall is_octet l ->
  length (words_of l) = n /\ Forall is_word (words_of l).
Proof.
  revert l. induction n as [|n IH]; intros l Hl H; [by destruct l|].
  destruct l as [|a [|b l]]; [done|simpl in Hl; lia|]. inversion H as [|? ? Ha H']. inversion H' as [|? ? Hb H'']. subst.
  destruct (IH l) as [H1 H2]; [simpl in Hl; lia|done|]. cbn [words_of length]. split; [by rewrite H1|].
  constructor; [|done]. unfold is_octet, is_word in *. lia.
Qed.

(** The text without a quad, read back. *)
Lemma print_words_read l :
  length l = 16%nat -> Forall is_octet l ->
  pton6 (print_words (words_of l) 0 (longest_gap (words_of l)) false) = Done (1, l).
Proof.
  intros Hl Ho. destruct (words_of_words 8 l Hl Ho) as [Hn Hw].
  destruct (longest_gap_zero (words_of l)) as [->|(A & rest & E & Hg)].
  - rewrite print_words_tail by (unfold zlen; rewrite ?Hn; lia). by apply pton6_words.
  - rewrite <- Hg. rewrite E in *. rewrite length_app, length_cons in Hn.
    apply Forall_app in Hw as [HA Hr%Forall_inv_tail]. destruct (zeros_split rest) as (n & B & -> & HB).
    rewrite length_app, length_replicate in Hn. apply Forall_app in Hr as [_ HBw].
    rewrite print_words_gap by (unfold zlen; rewrite ?length_app, ?length_replicate; lia).
    rewrite print_words_zeros; [|lia|unfold zlen; lia|done].
    apply (pton6_gap A B); [done..|unfold zlen; lia|]. rewrite E.
    by replace (8 - length A - length B)%nat with (S n) by lia.
Qed.

(** The two texts with a quad. *)
Lemma print_quad_head a b c d : exists x t, print_quad a b c d = x :: t /\ x <> DOT.
Proof.
  unfold print_quad. destruct (print_dec_head a) as (x & t & -> & Hx). exists x. eexists. split; [done|].
  intros ->. by vm_compute in Hx.
Qed.

Lemma compat_read a b c d :
  is_octet a -> is_octet b -> is_octet c -> is_octet d ->
  pton6 ([COLON; COLON] ++ print_quad a b c d) = Done (1, replicate 12 0 ++ [a; b; c; d]).
Proof.
  intros Ha Hb Hc Hd.
  rewrite (pton6_quad [COLON; COLON] a b c d 2 (replicate 6 None) (replicate 6 0));
    try done; [|by intros H; repeat (apply elem_of_cons in H as [?|H]; [done|]); apply not_elem_of_nil in H].
  change (octets_of _) with (octets_of (Some <$> words_of (replicate 12 0 ++ [a; b; c; d]))).
  rewrite (octets_of_words 8) by (done || octets). done.
Qed.

Lemma mapped_read a b c d :
  is_octet a -> is_octet b -> is_octet c -> is_octet d ->
  pton6 (ffff ++ print_quad a b c d) = Done (1, replicate 10 0 ++ [255; 255; a; b; c; d]).
Proof.
  intros Ha Hb Hc Hd.
  rewrite (pton6_quad ffff a b c d 3 (Some 65535 :: replicate 5 None) (replicate 5 0 ++ [65535]));
    try done; [|by intros H; repeat (apply elem_of_cons in H as [?|H]; [done|]); apply not_elem_of_nil in H].
  change (octets_of _) with (octets_of (Some <$> words_of (replicate 10 0 ++ [255; 255; a; b; c; d]))).
  rewrite (octets_of_words 8) by (done || octets). done.
Qed.

(** ** Lengths *)

Lemma octet_dec_short a : is_octet a -> zlen (print_dec a) <= 3.
Proof.
  intros H. unfold is_octet in H.
  assert (forallb (fun k => zlen (print_dec (Z.of_nat k)) <=? 3) (seq 0 256) = true) as Hall by (vm_compute; reflexivity).
  rewrite forallb_forall in Hall. specialize (Hall (Z.to_nat a)). rewrite Z2Nat.id in Hall by lia.
  specialize (Hall ltac:(apply in_seq; lia)). by zb.
Qed.

Lemma quad_short a b c d :
  is_octet a -> is_octet b -> is_octet c -> is_octet d -> zlen (print_quad a b c d) <= 15.
Proof.
  intros Ha%octet_dec_short Hb%octet_dec_short Hc%octet_dec_short Hd%octet_dec_short. unfold print_quad.
  rewrite !zlen_app, !zlen_cons, !zlen_app, !zlen_cons, zlen_app, zlen_cons. lia.
Qed.

Lemma colon_words_short ws : Forall is_word ws -> zlen (colon_words ws) <= 5 * zlen ws.
Proof.
  intros H. induction H as [|w ws Hw Hws IH]; [done|]. unfold colon_words in *.
  rewrite bind_cons, !zlen_app, !zlen_cons, zlen_nil. destruct (print_hex_facts w Hw) as (_ & Hl & _). lia.
Qed.

Lemma joined_short ws : Forall is_word ws -> zlen (joined_words ws) <= Z.max 0 (5 * zlen ws - 1).
Proof.
  destruct ws as [|w ws _] using rev_ind; [done|]. intros [H1%colon_words_short H2%Forall_inv]%Forall_app.
  rewrite joined_snoc, !zlen_app, zlen_cons, zlen_nil. destruct (print_hex_facts w H2) as (_ & Hl & _).
  pose proof (zlen_nonneg ws). lia.
Qed.

Lemma print_words_short l :
  length l = 16%nat -> Forall is_octet l ->
  zlen (print_words (words_of l) 0 (longest_gap (words_of l)) false) <= 39.
Proof.
  intros Hl Ho. destruct (words_of_words 8 l Hl Ho) as [Hn Hw].
  destruct (longest_gap_zero (words_of l)) as [->|(A & rest & E & Hg)].
  - rewrite print_words_tail by (unfold zlen; rewrite ?Hn; lia). apply joined_short in Hw.
    unfold zlen in Hw at 2. rewrite Hn in Hw. lia.
  - rewrite <- Hg. rewrite E in *. rewrite length_app, length_cons in Hn.
    apply Forall_app in Hw as [HA Hr%Forall_inv_tail]. destruct (zeros_split rest) as (n & B & -> & HB).
    rewrite length_app, length_replicate in Hn. apply Forall_app in Hr as [_ HBw].
    rewrite print_words_gap by (unfold zlen; rewrite ?length_app, ?length_replicate; lia).
    rewrite print_words_zeros; [|lia|unfold zlen; lia|done].
    apply colon_words_short in HA. apply joined_short in HBw. rewrite !zlen_app, zlen_cons.
    assert (zlen A + zlen B <= 7) by (unfold zlen; lia). pose proof (zlen_nonneg A). pose proof (zlen_nonneg B).
    destruct (zlen A =? 0); rewrite ?zlen_cons, ?zlen_nil; lia.
Qed.

(** ** Addresses *)

Definition address_length (af : family) : nat :=
  match af with AF_INET => 4 | AF_INET6 => 16 | AF_OTHER _ => 0 end.

(** An address of the family: its octets. *)
Definition is_address (af : family) (src : list Z) : Prop :=
  (match af with AF_OTHER _ => False | _ => True end) /\ length src = address_length af /\ Forall is_octet src.

Definition address_text (af : family) (src : list Z) : list byte :=
  match af with AF_INET => text4 src | _ => text6 src end.

Lemma text4_reads src :
  is_address AF_INET src -> zlen (text4 src) <= 39 /\ pton4 (text4 src) = (1, src).
Proof.
  intros (_ & Hl & Ho). simpl in Hl. do 4 (destruct src as [|? src]; [done|]). destruct src; [|done].
  repeat match goal with H : Forall _ (_ :: _) |- _ => inversion H; clear H; subst end.
  unfold text4. cbn [nth]. split; [assert (zlen (print_quad z z0 z1 z2) <= 15) by (by apply quad_short); lia|].
  unfold is_octet in *. unfold pton4. rewrite scan_quad_print by done.
  by rewrite !(proj2 (Z.ltb_ge 255 _)) by lia.
Qed.

Lemma text6_reads src :
  is_address AF_INET6 src -> zlen (text6 src) <= 39 /\ pton6 (text6 src) = Done (1, src).
Proof.
  intros (_ & Hl & Ho). simpl in Hl. unfold text6. case_match eqn:Hq; [|split; [by apply print_words_short|by apply print_words_read]].
  do 16 (destruct src as [|? src]; [done|]). destruct src; [|done].
  repeat match goal with H : Forall _ (_ :: _) |- _ => inversion H; clear H; subst end.
  cbn [words_of nth] in *. repeat match goal with
    H : is_octet ?x |- _ => lazymatch goal with _ : 0 <= x < 256 |- _ => fail | _ => pose proof (H : 0 <= x < 256) end
  end.
  apply andb_prop in Hq as [Hq H55]. zb.
  assert (z = 0 /\ z0 = 0 /\ z1 = 0 /\ z2 = 0 /\ z3 = 0 /\ z4 = 0 /\ z5 = 0 /\ z6 = 0 /\ z7 = 0 /\ z8 = 0) as (->&->&->&->&->&->&->&->&->&->) by lia.
  assert (zlen (print_quad z11 z12 z13 z14) <= 15) by (by apply quad_short). destruct (z9 * 256 + z10 =? 0) eqn:E5; zb.
  - assert (z9 = 0 /\ z10 = 0) as (-> & ->) by lia. split; [rewrite zlen_app, !zlen_cons, zlen_nil; lia|by apply compat_read].
  - destruct H55 as [H55|H55]; zb; [done|].
    assert (z9 = 255 /\ z10 = 255) as (-> & ->) by lia. split; [|by apply mapped_read].
    change (zlen (ffff ++ print_quad z11 z12 z13 z14) <= 39). rewrite zlen_app. change (zlen ffff) with 7. lia.
Qed.

Lemma ntop_text af src len :
  is_address af src -> 40 <= len ->
  evutil_inet_ntop af src len = Some (address_text af src) /\ zlen (address_text af src) <= 39 /\
  evutil_inet_pton af (address_text af src) = Done (1, src).
Proof.
  intros Ha Hlen. destruct af as [| |n]; [| |by destruct Ha].
  - destruct (text4_reads src Ha) as [Hs Hr]. unfold evutil_inet_ntop, evutil_inet_pton, address_text. rewrite (proj2 (Z.leb_gt len _)) by lia. by rewrite Hr.
  - destruct (text6_reads src Ha) as [Hs Hr]. unfold evutil_inet_ntop, evutil_inet_pton, address_text. rewrite (proj2 (Z.ltb_ge len _)) by lia.
    rewrite ztake_all by lia. done.
Qed.

(** ** Every text is read in bounds *)

Lemma xdigit_value c : EVUTIL_ISXDIGIT_ c = true -> 0 <= hex_value c < 16.
Proof.
  pose proof (byte_forall (fun c => implb (EVUTIL_ISXDIGIT_ c) ((0 <=? hex_value c) && (hex_value c <? 16)))
    ltac:(vm_compute; reflexivity) c) as H. cbv beta in H. intros Hc. rewrite Hc in H. simpl in H. zb. lia.
Qed.

Lemma strtol16_long c t : EVUTIL_ISXDIGIT_ c = true -> 1 <= (strtol16 (c :: t)).2.
Proof.
  intros Hc. assert (forall d l n, 0 <= n -> EVUTIL_ISXDIGIT_ d = true ->
    1 <= (let '(d, _) := span EVUTIL_ISXDIGIT_ (d :: l) in (Z.min (hex_fold d) INT64_MAX, n + zlen d)).2) as H.
  { intros d l n Hn Hd. cbn [span]. rewrite Hd. destruct (span EVUTIL_ISXDIGIT_ l) as [a b]. simpl.
    rewrite zlen_cons. pose proof (zlen_nonneg a). lia. }
  unfold strtol16. destruct t as [|x [|d t]]; [by apply H..|]. case_match eqn:E; [|by apply H].
  zb. apply H; [lia|done].
Qed.

Section ReadInBounds.
Variable words0 : list (option Z).
Hypothesis words0_len : length words0 = 8%nat.
Variable s0 : Z.

(** [n] words have been set, and the gap is among them. *)
Definition loop_shape (i g s : Z) (words : list (option Z)) : Prop :=
  exists ws, Forall is_word ws /\ zlen ws = i /\ i <= 8 /\ s = s0 + i /\ (g = -1 \/ 0 <= g <= i) /\
    words = (Some <$> ws) ++ drop (length ws) words0.

Lemma loop_shape_set i g s words v :
  loop_shape i g s words -> i <= 7 -> is_word v ->
  exists words', set_word i v words = Done words' /\ loop_shape (i + 1) g (s + 1) words'.
Proof.
  intros (ws & Hws & <- & H8 & -> & Hg & ->) Hi Hv.
  destruct (drop (length ws) words0) as [|x post] eqn:E.
  { apply (f_equal length) in E. rewrite length_drop in E. simpl in E. unfold zlen in Hi. lia. }
  rewrite set_word_at by (unfold zlen; by rewrite length_fmap). eexists. split; [done|].
  exists (ws ++ [v]). rewrite zlen_app, zlen_cons, zlen_nil, fmap_app, <- app_assoc.
  split_and!; [apply Forall_app_2; [done|by apply Forall_singleton]|lia|lia|lia|lia|].
  f_equal. cbn [fmap list_fmap app]. f_equal. rewrite length_app. simpl.
  by rewrite <- drop_drop, E.
Qed.

Lemma pton_loop_in_bounds fuel l d i g s words :
  d < Z.of_nat fuel -> loop_shape i g s words ->
  exists r, pton_loop fuel l d i g s words = Done r /\
    match r with None => True | Some (g, s, words) => exists n, loop_shape n g s words end.
Proof.
  revert l d i g s words. induction fuel as [|fuel IH]; intros l d i g s words Hf Hs; cbn [pton_loop].
  { rewrite (proj2 (Z.ltb_ge 0 d)) by lia. exists (Some (g, s, words)). split; [done|exact (ex_intro _ i Hs)]. }
  destruct (0 <? d) eqn:Ed; [|exists (Some (g, s, words)); split; [done|exact (ex_intro _ i Hs)]]. destruct (7 <? i) eqn:E7; [by exists None|]. zb.
  pose proof Hs as (ws & _ & <- & _ & _ & Hg & _). pose proof (zlen_nonneg ws).
  destruct (EVUTIL_ISXDIGIT_ (next_char l)) eqn:Ex.
  - destruct l as [|c t]; [done|]. simpl in Ex. pose proof (strtol16_long c t Ex) as Hn.
    destruct (strtol16 (c :: t)) as [r n]. simpl in Hn. repeat (case_test; [by exists None|]).
    destruct (loop_shape_set (zlen ws) g s words (u16 r) Hs) as (words' & -> & Hs'); [lia|apply Z.mod_pos_bound; lia|].
    cbn [mbind outcome_bind]. case_test; [by exists None|]. apply IH; [lia|done].
  - repeat case_test; [| |by exists None]; zb; apply IH; try lia;
      destruct Hs as (ws' & ? & ? & ? & ? & ? & ->); exists ws'; split_and!; try done; lia.
Qed.
End ReadInBounds.

Lemma words_are_octets ws :
  Forall is_word ws ->
  exists l, octets_of (Some <$> ws) = Done l /\ length l = (2 * length ws)%nat /\ Forall is_octet l.
Proof.
  intros H. induction H as [|w ws Hw Hws (l & IH & Hl & Ho)]; [by exists []|].
  exists (w / 256 :: w mod 256 :: l). rewrite fmap_cons. cbn [octets_of deref mbind outcome_bind].
  rewrite IH. cbn [mbind outcome_bind]. split; [done|]. split; [simpl; lia|]. unfold is_word in Hw.
  pose proof (Z.mod_pos_bound w 256 ltac:(lia)).
  repeat (apply List.Forall_cons; [unfold is_octet|]); [|lia|done].
  split; [apply Z.div_pos; lia|apply Z.div_lt_upper_bound; lia].
Qed.

(** What follows the loop, for a text with [q] words in its quad. *)
Lemma words_to_address q (ws Q : list Z) :
  Forall is_word ws -> Forall is_word Q -> zlen Q = q -> zlen ws + q = 8 ->
  exists l, octets_of ((Some <$> ws) ++ (Some <$> Q)) = Done l /\ is_address AF_INET6 l.
Proof.
  intros Hws HQ Hq Hlen. rewrite <- fmap_app. destruct (words_are_octets (ws ++ Q)) as (l & -> & Hl & Ho);
    [by apply Forall_app_2|].
  exists l. split; [done|]. split_and!; [done| |done]. simpl. rewrite length_app in Hl. unfold zlen in *. lia.
Qed.

(** After the loop: [ws] are the words read, [Q] those of the quad. *)
Lemma finish_in_bounds q words0 (Q : list Z) g s words n :
  0 <= q <= 2 -> zlen Q = q -> Forall is_word Q -> words0 = replicate (Z.to_nat (8 - q)) None ++ (Some <$> Q) ->
  loop_shape words0 q n g s words ->
  (8 <? s) || ((s =? 8) && negb (g =? -1)) || ((s <? 8) && (g =? -1)) = false ->
  (if 0 <=? g then
     0 <= s - q - g /\
     exists words' l, open_gap words g (8 - s) (s - q - g) = Done words' /\ octets_of words' = Done l /\
       is_address AF_INET6 l
   else exists l, octets_of words = Done l /\ is_address AF_INET6 l).
Proof.
  intros Hq HQ HQw Hw0 (ws & Hws & <- & _ & -> & Hg & ->) Hc. pose proof (zlen_nonneg ws). zb.
  assert (drop (length ws) words0 = replicate (Z.to_nat (8 - q - zlen ws)) None ++ (Some <$> Q)) as ->.
  { rewrite Hw0, drop_app_le by (rewrite length_replicate; unfold zlen in *; lia).
    rewrite drop_replicate. do 2 f_equal. unfold zlen. lia. }
  destruct (0 <=? g) eqn:E; zb.
  - split; [lia|]. set (A := take (Z.to_nat g) ws). set (B := drop (Z.to_nat g) ws).
    assert (zlen A = g) as HA by (unfold A, zlen in *; rewrite length_take; lia).
    assert (zlen B = zlen ws - g) as HB by (unfold B, zlen in *; rewrite length_drop; lia).
    assert (Some <$> ws = (Some <$> A) ++ (Some <$> B)) as -> by (rewrite <- fmap_app; f_equal; symmetry; apply take_drop).
    rewrite <- app_assoc.
    pose proof (open_gap_spec (Some <$> A) (Some <$> B) (replicate (Z.to_nat (8 - q - zlen ws)) None) (Some <$> Q)
      (Z.to_nat (8 - q - zlen ws)) ltac:(by rewrite length_replicate)) as Hgap.
    unfold zlen in Hgap. rewrite !length_fmap in Hgap. fold (zlen A) (zlen B) in Hgap. rewrite HA, HB in Hgap.
    rewrite Z2Nat.id in Hgap by (unfold zlen in *; lia).
    replace (8 - (q + zlen ws)) with (8 - q - zlen ws) by lia. replace (q + zlen ws - q - g) with (zlen ws - g) by lia.
    destruct (words_to_address q (A ++ replicate (Z.to_nat (8 - q - zlen ws)) 0 ++ B) Q) as (l & Hl & Ha); [|done..| |].
    + unfold A, B. apply Forall_app_2; [by apply Forall_take|]. apply Forall_app_2; [|by apply Forall_drop].
      apply Forall_replicate. unfold is_word. lia.
    + unfold zlen in *. rewrite !length_app, length_replicate. lia.
    + eexists _, l. split; [exact Hgap|]. split; [|done].
      rewrite !fmap_app, fmap_replicate, <- !app_assoc in Hl. exact Hl.
  - assert (zlen ws = 8 - q) as Hlen by (destruct H1; zb; lia).
    rewrite Hlen, Z.sub_diag. cbn [Z.to_nat replicate app]. apply (words_to_address q); [done..|lia].
Qed.

Lemma scan_u_nonneg l n rest : scan_u l = Some (n, rest) -> 0 <= n.
Proof.
  unfold scan_u. destruct (number_prefix l) as [neg l']. destruct (span EVUTIL_ISDIGIT_ l') as [[|c d] r]; [done|].
  intros [= <- _]. apply Z.mod_pos_bound. lia.
Qed.

Lemma scan_quad_nonneg l a b c d :
  scan_quad l = Some (a, b, c, d) -> 0 <= a /\ 0 <= b /\ 0 <= c /\ 0 <= d.
Proof.
  unfold scan_quad. intros H.
  destruct (scan_u l) as [[a' l1]|] eqn:Ea; [|done]. cbn in H. destruct (scan_dot l1) as [l2|]; [|done]. cbn in H.
  destruct (scan_u l2) as [[b' l3]|] eqn:Eb; [|done]. cbn in H. destruct (scan_dot l3) as [l4|]; [|done]. cbn in H.
  destruct (scan_u l4) as [[c' l5]|] eqn:Ec; [|done]. cbn in H. destruct (scan_dot l5) as [l6|]; [|done]. cbn in H.
  destruct (scan_u l6) as [[d' [|x l7]]|] eqn:Ed; [|done|done]. cbn in H. injection H as <- <- <- <-.
  split_and!; eapply scan_u_nonneg; eassumption.
Qed.

Lemma pton4_address src out : pton4 src = (1, out) -> is_address AF_INET out.
Proof.
  unfold pton4. destruct (scan_quad src) as [[[[a b] c] d]|] eqn:E; [|done]. case_test; [done|]. intros [= <-].
  apply scan_quad_nonneg in E. zb. split_and!; [done|done|]. octets.
Qed.

(** The end of [pton6], after the quad. *)
Lemma pton6_end_in_bounds q words0 (Q : list Z) fuel l d :
  0 <= q <= 2 -> zlen Q = q -> Forall is_word Q -> words0 = replicate (Z.to_nat (8 - q)) None ++ (Some <$> Q) ->
  d < Z.of_nat fuel ->
  exists r out,
    (o ← pton_loop fuel l d 0 (-1) q words0;
     match o with
     | None => Done (0, [])
     | Some (gapPos, setWords, words) =>
         if (8 <? setWords) || ((setWords =? 8) && negb (gapPos =? -1)) ||
            ((setWords <? 8) && (gapPos =? -1)) then Done (0, [])
         else if 0 <=? gapPos then
           let nToMove := setWords - q - gapPos in
           let gapLen := 8 - setWords in
           if nToMove <? 0 then Done (-1, []) else
           words ← open_gap words gapPos gapLen nToMove;
           out ← octets_of words;
           Done (1, out)
         else out ← octets_of words; Done (1, out)
     end) = Done (r, out) /\ (r = 1 -> is_address AF_INET6 out).
Proof.
  intros Hq HQ HQw Hw0 Hf.
  assert (length words0 = 8%nat) as H8.
  { rewrite Hw0, length_app, length_replicate, length_fmap. unfold zlen in HQ. lia. }
  destruct (pton_loop_in_bounds words0 H8 q fuel l d 0 (-1) q words0 Hf) as (o & -> & Ho).
  { exists []. rewrite zlen_nil. split_and!; (done || lia || by left). }
  cbn [mbind outcome_bind]. destruct o as [[[g s] words]|]; [|by exists 0, []]. destruct Ho as [n Hs].
  case_match eqn:Hc; [by exists 0, []|]. pose proof (finish_in_bounds q words0 Q g s words n Hq HQ HQw Hw0 Hs Hc) as H.
  destruct (0 <=? g).
  - destruct H as (Hm & words' & out & Hg & Hout & Ha). rewrite (proj2 (Z.ltb_ge _ 0)) by lia. cbv zeta. rewrite Hg. cbn [mbind outcome_bind].
    rewrite Hout. by exists 1, out.
  - destruct H as (out & -> & Ha). by exists 1, out.
Qed.

Lemma end_of_words_short src : zlen (end_of_words src).1 <= zlen src.
Proof.
  unfold end_of_words. destruct (strchr DOT src) as [[before after]|] eqn:E; [|simpl; lia].
  apply strchr_Some in E as [-> _]. rewrite zlen_app, zlen_cons. pose proof (zlen_nonneg after).
  assert (forall l, zlen (span EVUTIL_ISDIGIT_ l).2 <= zlen l) as Hs.
  { induction l as [|c l IH]; [done|]. cbn [span]. destruct (EVUTIL_ISDIGIT_ c); [|simpl; lia].
    destruct (span EVUTIL_ISDIGIT_ l) as [x y]. simpl in *. rewrite zlen_cons. lia. }
  specialize (Hs (rev before)). destruct (span EVUTIL_ISDIGIT_ (rev before)) as [digits rest]. simpl in *.
  unfold zlen in *. rewrite length_rev in *. lia.
Qed.

Lemma pton6_in_bounds src :
  exists r out, pton6 src = Done (r, out) /\ (r = 1 -> is_address AF_INET6 out).
Proof.
  unfold pton6. case_match; [by exists 0, []|]. pose proof (end_of_words_short src) as Hs.
  destruct (end_of_words src) as [head quad]. simpl in Hs.
  assert (zlen head < Z.of_nat (S (length src))) as Hf by (unfold zlen in *; lia).
  destruct quad as [q|].
  - destruct (scan_quad q) as [[[[a b] c] d]|] eqn:Hq; [|by exists 0, []].
    apply scan_quad_nonneg in Hq. case_match; [by exists 0, []|]. zb.
    rewrite !lor_octets by (unfold is_octet; lia).
    rewrite (set_word_at (replicate 6 None) None [None]) by done. cbn [mbind outcome_bind].
    rewrite (set_word_at (replicate 6 None ++ [Some (a * 256 + b)]) None []) by done. cbn [mbind outcome_bind].
    rewrite <- app_assoc. apply (pton6_end_in_bounds 2 _ [a * 256 + b; c * 256 + d]); [lia|done| |done|done].
    repeat (apply List.Forall_cons; [unfold is_word; lia|]). apply List.Forall_nil.
  - cbn [mbind outcome_bind]. apply (pton6_end_in_bounds 0 _ []); [lia|done|done|done|done].
Qed.

(** C9: whatever the text and the family, [evutil_inet_pton] returns; it writes and
    reads inside its eight words, uses none that it has not set, and when it
    returns 1 the result is an address of the family: 4 or 16 octets. *)
Theorem inet_pton_in_bounds af src :
  exists r out, evutil_inet_pton af src = Done (r, out) /\ (r = 1 -> is_address af out).
Proof.
  destruct af as [| |n]; unfold evutil_inet_pton; [|apply pton6_in_bounds|by exists (-1), []].
  destruct (pton4 src) as [r out] eqn:E. exists r, out. split; [done|]. intros ->. by apply (pton4_address src).
Qed.

(** C8: the text that [evutil_inet_ntop] writes into a buffer of at least 40 bytes
    fits it and is read back by [evutil_inet_pton] as the same address, for every
    IPv4 and IPv6 address. *)
Theorem inet_round_trip af src len :
  is_address af src -> 40 <= len ->
  exists s, evutil_inet_ntop af src len = Some s /\ zlen s < len /\ evutil_inet_pton af s = Done (1, src).
Proof. intros Ha Hlen. destruct (ntop_text af src len Ha Hlen) as (H1 & H2 & H3). eexists. split_and!; [done|lia|done]. Qed.

Example inet_round_trip_witness :
  exists s, evutil_inet_ntop AF_INET6 [0x20; 1; 0; 0; 0; 0; 0; 1; 0; 0; 0; 0; 0; 0; 0; 7] 46 = Some s /\ zlen s < 46 /\
    evutil_inet_pton AF_INET6 s = Done (1, [0x20; 1; 0; 0; 0; 0; 0; 1; 0; 0; 0; 0; 0; 0; 0; 7]).
Proof.
  apply (inet_round_trip AF_INET6); [|lia]. split_and!; [exact I|reflexivity|].
  repeat (apply List.Forall_cons; [unfold is_octet; lia|]). apply List.Forall_nil.
Defined.

(** ** Addresses with a port *)

Definition address_char (c : byte) : bool :=
  EVUTIL_ISXDIGIT_ c || bool_decide (c = COLON) || bool_decide (c = DOT).

Definition address_chars (l : list byte) : Prop := Forall (fun c => address_char c = true) l.

Lemma dec_address_chars n : address_chars (print_dec n).
Proof.
  pose proof (print_dec_digits n) as H. eapply Forall_impl; [exact H|]. intros c Hc. cbv beta in *.
  pose proof (byte_forall (fun c => implb (EVUTIL_ISDIGIT_ c) (EVUTIL_ISXDIGIT_ c)) ltac:(vm_compute; reflexivity) c) as Hx.
  cbv beta in Hx. rewrite Hc in Hx. simpl in Hx. unfold address_char. by rewrite Hx.
Qed.

Lemma hex_address_chars w : is_word w -> address_chars (print_hex w).
Proof.
  intros Hw. destruct (print_hex_facts w Hw) as (Hx & _). rewrite forallb_forall in Hx. apply Forall_forall.
  intros c Hc%list_elem_of_In. unfold address_char. by rewrite (Hx c Hc).
Qed.

Lemma print_words_address_chars ws i g skip :
  Forall is_word ws -> address_chars (print_words ws i g skip).
Proof.
  intros H. revert i skip. induction H as [|w ws Hw Hws IH]; intros i skip; cbn [print_words]; [constructor|].
  case_test; [apply IH|]. case_test; (apply Forall_app_2; [|]); try (by apply hex_address_chars).
  - case_test; repeat constructor.
  - apply List.Forall_cons; [done|apply IH].
  - apply Forall_app_2; [case_test; repeat constructor|apply IH].
Qed.

Lemma quad_address_chars a b c d : address_chars (print_quad a b c d).
Proof.
  unfold print_quad, address_chars.
  do 3 (apply Forall_app_2; [apply dec_address_chars|apply List.Forall_cons; [done|]]). apply dec_address_chars.
Qed.

Lemma text6_address_chars src : is_address AF_INET6 src -> address_chars (text6 src).
Proof.
  intros (_ & Hl & Ho). unfold text6. case_test; [|apply print_words_address_chars; by apply (words_of_words 8)].
  case_test; unfold address_chars.
  - repeat (apply List.Forall_cons; [done|]). apply quad_address_chars.
  - repeat (apply List.Forall_cons; [done|]). apply Forall_app_2; [|apply List.Forall_cons; [done|apply quad_address_chars]].
    apply hex_address_chars. destruct (words_of_words 8 src Hl Ho) as [H8 Hw].
    apply (Forall_nth is_word 0 (words_of src)); [done|lia].
Qed.

Lemma dec_no_colon n : COLON ∉ print_dec n.
Proof.
  intros H. pose proof (print_dec_digits n) as Hd. rewrite Forall_forall in Hd. apply Hd in H. by vm_compute in H.
Qed.

Lemma text4_no_colon src : COLON ∉ text4 src.
Proof.
  unfold text4, print_quad. rewrite !elem_of_app, !elem_of_cons, !elem_of_app, !elem_of_cons, elem_of_app, elem_of_cons.
  intros H. repeat (destruct H as [H|H]; [done || by apply dec_no_colon in H|]). by apply dec_no_colon in H.
Qed.

Lemma dec_rev_short fuel k n : 0 <= n < 10 ^ Z.of_nat (S k) -> (length (dec_rev fuel n) <= S k)%nat.
Proof.
  revert k n. induction fuel as [|fuel IH]; intros k n Hn; cbn [dec_rev length]; [lia|].
  destruct (n <? 10) eqn:E; zb; [simpl; lia|]. destruct k as [|k]; [simpl in Hn; lia|].
  apply le_n_S, IH. replace (Z.of_nat (S (S k))) with (1 + Z.of_nat (S k)) in Hn by lia.
  rewrite Z.pow_add_r in Hn by lia. split; [apply Z.div_pos; lia|apply Z.div_lt_upper_bound; lia].
Qed.

Lemma port_short p : 0 <= p < 65536 -> zlen (print_dec p) <= 5.
Proof.
  intros H. unfold print_dec, zlen. rewrite length_rev. pose proof (dec_rev_short 20 4 p) as Hs.
  change (10 ^ Z.of_nat 5) with 100000 in Hs. lia.
Qed.

Lemma text6_no_bracket src : is_address AF_INET6 src -> RBRACKET ∉ text6 src.
Proof.
  intros Ha%text6_address_chars H. unfold address_chars in Ha. rewrite Forall_forall in Ha. apply Ha in H.
  by vm_compute in H.
Qed.

Lemma text4_head src : exists x t, text4 src = x :: t /\ x <> LBRACKET.
Proof.
  unfold text4, print_quad. destruct (print_dec_head (nth 0 src 0)) as (x & t & -> & Hx). exists x. eexists.
  split; [done|]. intros ->. by vm_compute in Hx.
Qed.

(** What [evutil_format_sockaddr_port_] writes for an address with a port other
    than 0, into a buffer of at least 48 bytes, [evutil_parse_sockaddr_port]
    reads back as the same address and port, if there is room for the address. *)
Theorem sockaddr_round_trip sa outlen room :
  is_address (sa_family sa) (sa_addr sa) -> 0 < sa_port sa < 65536 -> 48 <= outlen -> 28 <= room ->
  exists n, evutil_parse_sockaddr_port (evutil_format_sockaddr_port_ sa outlen) room = Done (Some (sa, n)) /\ n <= room.
Proof.
  destruct sa as [af addr port]. simpl. intros Ha Hp Hlen Hroom.
  destruct (ntop_text af addr 128 Ha ltac:(lia)) as (Hn & Hs & Hr). pose proof (port_short port ltac:(lia)) as Hps.
  assert (atoi (print_dec port) = port) as Hat by (apply atoi_dec; lia).
  unfold evutil_format_sockaddr_port_, snprintf. cbn [sa_family sa_addr sa_port]. rewrite Hn.
  destruct af as [| |k]; [| |by destruct Ha]; unfold address_text in *.
  - rewrite ztake_all by (rewrite zlen_app, zlen_cons; lia). exists 16. split; [|lia].
    unfold evutil_parse_sockaddr_port, split_address.
    destruct (text4_head addr) as (x & t & E & Hx). rewrite (bool_decide_eq_false_2 (next_char _ = _)) by (by rewrite E).
    rewrite strchr_app by apply text4_no_colon. rewrite (proj2 (strchr_None _ _) (dec_no_colon port)).
    rewrite (proj2 (Z.ltb_ge 127 _)) by lia. rewrite Hat. rewrite (proj2 (Z.leb_gt port 0)), (proj2 (Z.ltb_ge 65535 port)) by lia.
    cbn [orb]. rewrite Hr. cbn. by rewrite (proj2 (Z.ltb_ge room 16)) by lia.
  - rewrite ztake_all by (rewrite zlen_cons, zlen_app, !zlen_cons; lia). exists 28. split; [|lia].
    unfold evutil_parse_sockaddr_port, split_address. cbn [next_char]. rewrite bool_decide_eq_true_2 by done.
    rewrite (app_comm_cons _ _ LBRACKET), strchr_app by (rewrite elem_of_cons; intros [?|H]; [done|by apply text6_no_bracket in H]).
    change (zdrop 1 (LBRACKET :: text6 addr)) with (text6 addr). rewrite (proj2 (Z.ltb_ge 127 _)) by lia.
    cbn [next_char]. rewrite bool_decide_eq_true_2 by done. change (zdrop 1 (COLON :: print_dec port)) with (print_dec port).
    rewrite Hat. rewrite (proj2 (Z.leb_gt port 0)), (proj2 (Z.ltb_ge 65535 port)) by lia. cbn [orb].
    rewrite Hr. cbn [mbind outcome_bind]. cbn [Z.eqb Pos.eqb negb sizeof_sockaddr]. by rewrite (proj2 (Z.ltb_ge room 28)) by lia.
Qed.

Example sockaddr_round_trip_witness :
  let sa := mkSockaddr AF_INET [127; 0; 0; 1] 8080 in
  exists n, evutil_parse_sockaddr_port (evutil_format_sockaddr_port_ sa 64) 128 = Done (Some (sa, n)) /\ n <= 128.
Proof.
  apply (sockaddr_round_trip (mkSockaddr AF_INET [127; 0; 0; 1] 8080) 64 128); [|simpl; lia..].
  split_and!; [exact I|reflexivity|]. cbn [sa_addr].
  repeat (apply List.Forall_cons; [unfold is_octet; lia|]). apply List.Forall_nil.
Defined.

(** *** What is accepted or produced besides *)

Definition loopback6 : list Z := replicate 15 0 ++ [1].

(** A destination of exactly the text's length is taken to be large enough: the
    text is cut and the result is returned as a success, which reads back as
    another address. *)
Theorem inet_ntop_cuts_silently :
  exists s, evutil_inet_ntop AF_INET6 loopback6 (zlen (text6 loopback6)) = Some s /\
    evutil_inet_pton AF_INET6 s = Done (1, replicate 16 0) /\ loopback6 <> replicate 16 0.
Proof. exists (bytes_of "::"). split_and!; vm_compute; congruence. Qed.

(** Texts that are not addresses and are read as addresses: a colon after the
    eighth word, a hexadecimal prefix, a space and a sign in the quad. *)
Theorem inet_pton_accepts_more :
  pton6 (bytes_of "1:2:3:4:5:6:7:8:") = Done (1, [0; 1; 0; 2; 0; 3; 0; 4; 0; 5; 0; 6; 0; 7; 0; 8]) /\
  pton6 (bytes_of "::0x12") = Done (1, replicate 15 0 ++ [18]) /\
  pton4 (bytes_of "1. 2.+3.4") = (1, [1; 2; 3; 4]).
Proof. split_and!; vm_compute; reflexivity. Qed.

(** An address with port 0 is formatted as a text that is refused. *)
Theorem port_zero_refused addr :
  is_address AF_INET addr ->
  evutil_parse_sockaddr_port (evutil_format_sockaddr_port_ (mkSockaddr AF_INET addr 0) 48) 28 = Done None.
Proof.
  intros Ha. destruct (ntop_text AF_INET addr 128 Ha ltac:(lia)) as (Hn & Hs & _). unfold address_text in *.
  unfold evutil_format_sockaddr_port_, snprintf. cbn [sa_family sa_addr sa_port]. rewrite Hn.
  change (print_dec 0) with [Zbyte 48]. rewrite ztake_all by (rewrite zlen_app, !zlen_cons, zlen_nil; lia).
  unfold evutil_parse_sockaddr_port, split_address.
  destruct (text4_head addr) as (x & t & E & Hx). rewrite (bool_decide_eq_false_2 (next_char _ = _)) by (by rewrite E).
  rewrite strchr_app by apply text4_no_colon. change (strchr COLON [Zbyte 48]) with (@None (list byte * list byte)). cbv match.
  by rewrite (proj2 (Z.ltb_ge 127 _)) by lia.
Qed.

Example port_zero_refused_witness :
  evutil_parse_sockaddr_port (evutil_format_sockaddr_port_ (mkSockaddr AF_INET [10; 0; 0; 1] 0) 48) 28 = Done None.
Proof.
  apply (port_zero_refused [10; 0; 0; 1]). split_and!; [exact I|reflexivity|].
  repeat (apply List.Forall_cons; [unfold is_octet; lia|]). apply List.Forall_nil.
Defined.
