(* ===== verification/UriParse.v ===== *)
(** * URIs

    Models [struct evhttp_uri] of [libevent/http.c] with its parser
    ([evhttp_uri_parse_with_flags] and the functions it calls), its setters and
    [evhttp_uri_join], and [evhttp_parse_query].

    A string is the list of its bytes without the NUL: the pointer pair [s],
    [eos] of the source is the text between them, and the text from [eos] on
    where the code looks at it.  Memory is taken to be there.  [SUBDELIMS] is
    searched by [strchr], which finds a NUL. *)

From S2P Require Import Prelude Ctype HttpText Inet InetSpec.

Record evhttp_uri := mkUri {
  uri_flags : Z;
  scheme : option (list byte);
  userinfo : option (list byte);
  host : option (list byte);
  port : Z;
  path : option (list byte);
  query : option (list byte);
  fragment : option (list byte) }.

Definition EVHTTP_URI_NONCONFORMANT : Z := 1.

Definition evhttp_uri_new : evhttp_uri := mkUri 0 None None None (-1) None None None.

Definition evhttp_uri_set_flags (uri : evhttp_uri) (flags : Z) : evhttp_uri :=
  mkUri flags (scheme uri) (userinfo uri) (host uri) (port uri) (path uri) (query uri) (fragment uri).

Definition SLASH : byte := "/"%byte.
Definition HASH : byte := "#"%byte.
Definition AT : byte := "@"%byte.

Definition SUBDELIMS : list byte := bytes_of "!$&'()*+,;=".

(** [strchr(SUBDELIMS, c)] *)
Definition is_subdelim (c : byte) : bool := bool_decide (c ∈ SUBDELIMS) || bool_decide (c = x00).

(** ** The parts of a URI *)

Definition scheme_char (c : byte) : bool :=
  EVUTIL_ISALNUM_ c || bool_decide (c = PLUS) || bool_decide (c = MINUS) || bool_decide (c = DOT).

Definition scheme_ok (s : list byte) : bool :=
  match s with [] => false | c :: s => EVUTIL_ISALPHA_ c && forallb scheme_char s end.

Fixpoint userinfo_ok (s : list byte) : bool :=
  match s with
  | [] => true
  | c :: t =>
      if CHAR_IS_UNRESERVED c || is_subdelim c || bool_decide (c = COLON) then userinfo_ok t
      else match t with
           | a :: b :: t =>
               bool_decide (c = PERCENT) && EVUTIL_ISXDIGIT_ a && EVUTIL_ISXDIGIT_ b && userinfo_ok t
           | _ => false
           end
  end.

(** [rest] is the text from [eos] on: the digits after a ['%'] are not bounded
    by [eos]. *)
Fixpoint regname_ok (s rest : list byte) : bool :=
  match s with
  | [] => true
  | c :: t =>
      if CHAR_IS_UNRESERVED c || is_subdelim c then regname_ok t rest
      else bool_decide (c = PERCENT) &&
           match t with
           | a :: b :: t => EVUTIL_ISXDIGIT_ a && EVUTIL_ISXDIGIT_ b && regname_ok t rest
           | [a] => EVUTIL_ISXDIGIT_ a && EVUTIL_ISXDIGIT_ (next_char rest)
           | [] => EVUTIL_ISXDIGIT_ (next_char rest) && EVUTIL_ISXDIGIT_ (next_char (tail rest))
           end
  end.

Fixpoint parse_port_from (s : list byte) (portnum : Z) : Z :=
  match s with
  | [] => portnum
  | c :: s =>
      if negb (EVUTIL_ISDIGIT_ c) then -1
      else
        let portnum := portnum * 10 + digit_value c in
        if portnum <? 0 then -1
        else if 65535 <? portnum then -1
        else parse_port_from s portnum
  end.

Definition parse_port (s : list byte) : Z := parse_port_from s 0.

(** After ["[v"], without the [']']. *)
Definition ipvfuture_char (c : byte) : bool :=
  CHAR_IS_UNRESERVED c || is_subdelim c || bool_decide (c = COLON).

Definition ipvfuture_ok (s : list byte) : bool :=
  EVUTIL_ISXDIGIT_ (next_char s) &&
  let '(_, s) := span EVUTIL_ISXDIGIT_ s in
  match s with
  | c :: s => bool_decide (c = DOT) && forallb ipvfuture_char s
  | [] => false
  end.

(** 0 for bad, 1 for ipv6, 2 for IPvFuture *)
Definition bracket_addr_ok (s : list byte) : outcome Z :=
  if (zlen s <? 3) || negb (bool_decide (next_char s = LBRACKET)) ||
     negb (bool_decide (last s = Some RBRACKET)) then Done 0
  else if bool_decide (next_char (tail s) = "v"%byte)
  then Done (if ipvfuture_ok (removelast (zdrop 2 s)) then 2 else 0)
  else
    let n_chars := zlen s - 2 in
    if 64 <=? n_chars then Done 0 else
    '(r, _) ← evutil_inet_pton AF_INET6 (ztake n_chars (tail s));
    Done (if r =? 1 then 1 else 0).

(** The text before the port, and the port: what is after the last [':'] when only
    digits are. *)
Definition split_port (s : list byte) : list byte * option (list byte) :=
  let '(digits, before) := span EVUTIL_ISDIGIT_ (rev s) in
  match before with
  | c :: before => if bool_decide (c = COLON) then (rev before, Some (rev digits)) else (s, None)
  | [] => (s, None)
  end.

(** Sets [userinfo], [host] and [port]; [None] for [return -1].  [rest] is the text
    from [eos] on. *)
Definition parse_authority (s rest : list byte) : outcome (option (option (list byte) * list byte * Z)) :=
  if bool_decide (s = []) then Done (Some (None, [], -1)) else
  let '(info, cp) := match strchr AT s with
                     | Some (u, cp) => (Some u, cp)
                     | None => (None, s)
                     end in
  if (match info with Some u => negb (userinfo_ok u) | None => false end) then Done None else
  let '(h, digits) := split_port cp in
  let after := match digits with Some d => COLON :: d ++ rest | None => rest end in
  let port := match digits with
              | None | Some [] => Some (-1)
              | Some d => if parse_port d <? 0 then None else Some (parse_port d)
              end in
  match port with
  | None => Done None
  | Some port =>
      if bool_decide (next_char h = LBRACKET) && (2 <=? zlen h) && bool_decide (last h = Some RBRACKET)
      then ok ← bracket_addr_ok h;
           Done (if ok =? 0 then None else Some (info, h, port))
      else Done (if regname_ok h after then Some (info, h, port) else None)
  end.

Definition authority_char (c : byte) : bool :=
  negb (bool_decide (c = QMARK) || bool_decide (c = HASH) || bool_decide (c = SLASH)).

(** The text before the end of the authority, and the text from there. *)
Definition end_of_authority (cp : list byte) : list byte * list byte := span authority_char cp.

Inductive uri_part := PART_PATH | PART_QUERY | PART_FRAGMENT.

Definition path_char (c : byte) : bool :=
  CHAR_IS_UNRESERVED c || is_subdelim c || bool_decide (c = COLON) || bool_decide (c = AT) ||
  bool_decide (c = SLASH).

Definition query_char (part : uri_part) (c : byte) : bool :=
  bool_decide (c = QMARK) && match part with PART_PATH => false | _ => true end.

Fixpoint end_of_path_conformant (cp : list byte) (part : uri_part) : list byte * list byte :=
  match cp with
  | [] => ([], [])
  | c :: t =>
      if path_char c
      then let '(p, r) := end_of_path_conformant t part in (c :: p, r)
      else
        let other := if query_char part c
                     then let '(p, r) := end_of_path_conformant t part in (c :: p, r)
                     else ([], cp) in
        match t with
        | a :: b :: t =>
            if bool_decide (c = PERCENT) && EVUTIL_ISXDIGIT_ a && EVUTIL_ISXDIGIT_ b
            then let '(p, r) := end_of_path_conformant t part in (c :: a :: b :: p, r)
            else other
        | _ => other
        end
  end.

Definition loose_char (part : uri_part) (c : byte) : bool :=
  match part with
  | PART_PATH => negb (bool_decide (c = HASH)) && negb (bool_decide (c = QMARK))
  | PART_QUERY => negb (bool_decide (c = HASH))
  | PART_FRAGMENT => true
  end.

(** The text up to the end of the part, and the text from there. *)
Definition end_of_path (cp : list byte) (part : uri_part) (flags : Z) : list byte * list byte :=
  if has flags EVHTTP_URI_NONCONFORMANT then span (loose_char part) cp
  else end_of_path_conformant cp part.

Fixpoint path_matches_noscheme (cp : list byte) : bool :=
  match cp with
  | [] => true
  | c :: cp =>
      if bool_decide (c = COLON) then false
      else if bool_decide (c = SLASH) then true
      else path_matches_noscheme cp
  end.

(** ** [evhttp_uri_parse_with_flags] *)

Definition two_slashes (s : list byte) : bool :=
  bool_decide (next_char s = SLASH) && bool_decide (next_char (tail s) = SLASH).

(** 1. scheme: *)
Definition parse_scheme (readp : list byte) : option (list byte) * list byte :=
  match strchr COLON readp with
  | Some (before, after) => if scheme_ok before then (Some before, after) else (None, readp)
  | None => (None, readp)
  end.

(** 2. The authority and the text after it; [None] for the jump to [err]. *)
Definition parse_hier (readp : list byte)
    : outcome (option (option (option (list byte) * list byte * Z) * list byte)) :=
  if two_slashes readp then
    let '(authority, p) := end_of_authority (zdrop 2 readp) in
    a ← parse_authority authority p;
    Done (match a with Some a => Some (Some a, p) | None => None end)
  else Done (Some (None, readp)).

(** 3. Path, query and fragment, and what is left. *)
Definition parse_tail (p : list byte) (flags : Z)
    : list byte * option (list byte) * option (list byte) * list byte :=
  let '(pth, readp) := end_of_path p PART_PATH flags in
  let '(q, readp) := if bool_decide (next_char readp = QMARK)
                     then let '(q, r) := end_of_path (tail readp) PART_QUERY flags in (Some q, r)
                     else (None, readp) in
  let '(f, readp) := if bool_decide (next_char readp = HASH)
                     then let '(f, r) := end_of_path (tail readp) PART_FRAGMENT flags in (Some f, r)
                     else (None, readp) in
  (pth, q, f, readp).

Definition evhttp_uri_parse_with_flags (source_uri : list byte) (flags : Z) : outcome (option evhttp_uri) :=
  let '(sch, readp) := parse_scheme source_uri in
  h ← parse_hier readp;
  match h with
  | None => Done None
  | Some (authority, p) =>
      let '(pth, q, f, readp) := parse_tail p flags in
      let got_authority := match authority with Some _ => true | None => false end in
      if negb (bool_decide (readp = [])) then Done None
      else if negb got_authority && two_slashes pth then Done None
      else if got_authority && negb (bool_decide (next_char pth = SLASH)) && negb (bool_decide (pth = []))
      then Done None
      else if (match sch with None => negb (path_matches_noscheme pth) | Some _ => false end) then Done None
      else
        let '(info, h, prt) := match authority with
                               | Some (info, h, prt) => (info, Some h, prt)
                               | None => (None, None, -1)
                               end in
        Done (Some (mkUri flags sch info h prt (Some pth) q f))
  end.

Definition evhttp_uri_parse (source_uri : list byte) : outcome (option evhttp_uri) :=
  evhttp_uri_parse_with_flags source_uri 0.

(** ** [evhttp_uri_join] *)

Definition opt_part (pre : list byte) (o : option (list byte)) (post : list byte) : list byte :=
  match o with Some s => pre ++ s ++ post | None => [] end.

(** The bytes added to the evbuffer; [None] for the jump to [err]. *)
Definition joined (uri : evhttp_uri) : option (list byte) :=
  match host uri with
  | Some h =>
      if match path uri with
         | Some p => negb (bool_decide (next_char p = SLASH)) && negb (bool_decide (p = []))
         | None => false
         end then None
      else Some (opt_part [] (scheme uri) [COLON] ++
                 [SLASH; SLASH] ++ opt_part [] (userinfo uri) [AT] ++ h ++
                 (if 0 <=? port uri then COLON :: print_dec (port uri) else []) ++
                 opt_part [] (path uri) [] ++ opt_part [QMARK] (query uri) [] ++ opt_part [HASH] (fragment uri) [])
  | None =>
      Some (opt_part [] (scheme uri) [COLON] ++
            opt_part [] (path uri) [] ++ opt_part [QMARK] (query uri) [] ++ opt_part [HASH] (fragment uri) [])
  end.

(** The string left in [buf], of [limit] bytes; [None] for [NULL]. *)
Definition evhttp_uri_join (uri : evhttp_uri) (limit : Z) : option (list byte) :=
  if limit =? 0 then None else
  match joined uri with
  | None => None
  | Some s => if limit <? zlen s + 1 then None else Some s
  end.

(** ** Setters: the result and the object *)

Definition evhttp_uri_set_scheme (uri : evhttp_uri) (s : option (list byte)) : Z * evhttp_uri :=
  if match s with Some s => negb (scheme_ok s) | None => false end then (-1, uri)
  else (0, mkUri (uri_flags uri) s (userinfo uri) (host uri) (port uri) (path uri) (query uri) (fragment uri)).

Definition evhttp_uri_set_userinfo (uri : evhttp_uri) (s : option (list byte)) : Z * evhttp_uri :=
  if match s with Some s => negb (userinfo_ok s) | None => false end then (-1, uri)
  else (0, mkUri (uri_flags uri) (scheme uri) s (host uri) (port uri) (path uri) (query uri) (fragment uri)).

Definition evhttp_uri_set_host (uri : evhttp_uri) (s : option (list byte)) : outcome (Z * evhttp_uri) :=
  ok ← match s with
       | Some h => if bool_decide (next_char h = LBRACKET)
                   then r ← bracket_addr_ok h; Done (negb (r =? 0))
                   else Done (regname_ok h [])
       | None => Done true
       end;
  Done (if ok : bool then
    (0, mkUri (uri_flags uri) (scheme uri) (userinfo uri) s (port uri) (path uri) (query uri) (fragment uri))
  else (-1, uri)).

Definition evhttp_uri_set_port (uri : evhttp_uri) (p : Z) : Z * evhttp_uri :=
  if p <? -1 then (-1, uri)
  else (0, mkUri (uri_flags uri) (scheme uri) (userinfo uri) (host uri) p (path uri) (query uri) (fragment uri)).

(** [end_of_cpath(s, part, flags) == s + strlen(s)] *)
Definition whole_part (uri : evhttp_uri) (part : uri_part) (s : option (list byte)) : bool :=
  match s with
  | Some s => bool_decide (snd (end_of_path s part (uri_flags uri)) = [])
  | None => true
  end.

Definition evhttp_uri_set_path (uri : evhttp_uri) (s : option (list byte)) : Z * evhttp_uri :=
  if negb (whole_part uri PART_PATH s) then (-1, uri)
  else (0, mkUri (uri_flags uri) (scheme uri) (userinfo uri) (host uri) (port uri) s (query uri) (fragment uri)).

Definition evhttp_uri_set_query (uri : evhttp_uri) (s : option (list byte)) : Z * evhttp_uri :=
  if negb (whole_part uri PART_QUERY s) then (-1, uri)
  else (0, mkUri (uri_flags uri) (scheme uri) (userinfo uri) (host uri) (port uri) (path uri) s (fragment uri)).

Definition evhttp_uri_set_fragment (uri : evhttp_uri) (s : option (list byte)) : Z * evhttp_uri :=
  if negb (whole_part uri PART_FRAGMENT s) then (-1, uri)
  else (0, mkUri (uri_flags uri) (scheme uri) (userinfo uri) (host uri) (port uri) (path uri) (query uri) s).

(** ** [evhttp_parse_query] *)

Definition evhttp_parse_query (str : list byte) : outcome (Z * list header) :=
  u ← evhttp_uri_parse str;
  match u with
  | None => Done (-1, [])
  | Some u => parse_query_part (query u)
  end.
