(* ===== verification/UriSpec.v ===== *)
(** * URIs, parsed and joined

    The parser returns for every text, with a URI that its own validators accept
    ([uri_ok]; the grammar of RFC 3986 is in [UriGrammar]);
    joining a well-formed URI gives a text that parses to it again; and what the
    setters let through that the parser does not ([UriParse]). *)

From S2P Require Import Prelude Ctype HttpText Inet InetSpec UriParse.

(** ** Characters *)

Definition implies (P Q : byte -> bool) (c : byte) : bool := implb (P c) (Q c).

Lemma implies_spec P Q : forallb (implies P Q) all_bytes = true -> forall c, P c = true -> Q c = true.
Proof. intros H c Hc. pose proof (byte_forall _ H c) as Hi. unfold implies in Hi. by rewrite Hc in Hi. Qed.

Lemma alpha_scheme c : EVUTIL_ISALPHA_ c = true -> scheme_char c = true.
Proof. apply implies_spec. vm_compute. reflexivity. Qed.

Lemma xdigit_authority c : EVUTIL_ISXDIGIT_ c = true -> authority_char c = true.
Proof. apply implies_spec. vm_compute. reflexivity. Qed.

Lemma digit_authority c : EVUTIL_ISDIGIT_ c = true -> authority_char c = true.
Proof. apply implies_spec. vm_compute. reflexivity. Qed.

Definition not_at (c : byte) : bool := negb (bool_decide (c = AT)).
Definition info_char (c : byte) : bool := CHAR_IS_UNRESERVED c || is_subdelim c || bool_decide (c = COLON).

Lemma info_plain c : info_char c = true -> authority_char c = true /\ not_at c = true.
Proof. intros H. split; revert H; apply implies_spec; vm_compute; reflexivity. Qed.

Lemma xdigit_not_at c : EVUTIL_ISXDIGIT_ c = true -> not_at c = true.
Proof. apply implies_spec. vm_compute. reflexivity. Qed.

Definition name_char (c : byte) : bool := CHAR_IS_UNRESERVED c || is_subdelim c.
Definition not_colon (c : byte) : bool := negb (bool_decide (c = COLON)).

Lemma name_not_colon c : name_char c = true -> not_colon c = true.
Proof. apply implies_spec. vm_compute. reflexivity. Qed.

Lemma xdigit_not_colon c : EVUTIL_ISXDIGIT_ c = true -> not_colon c = true.
Proof. apply implies_spec. vm_compute. reflexivity. Qed.

Lemma scheme_ok_chars s : scheme_ok s = true -> forallb scheme_char s = true.
Proof. destruct s as [|c s]; [done|]. simpl. intros H. zb. by rewrite (alpha_scheme c). Qed.

Lemma scheme_no_colon s : scheme_ok s = true -> COLON ∉ s.
Proof.
  intros H%scheme_ok_chars Hin. rewrite forallb_forall in H. apply list_elem_of_In, H in Hin. by vm_compute in Hin.
Qed.

(** The tests of a hypothesis, with those on characters. *)
Ltac ub := zb; repeat match goal with
  | H : bool_decide _ = true |- _ => apply bool_decide_eq_true in H
  | H : bool_decide _ = false |- _ => apply bool_decide_eq_false in H
  end.

(** Lists that are read one or three characters at a time. *)
Lemma triple_ind (P : list byte -> Prop) :
  P [] ->
  (forall c t, P t -> (forall a b t', t = a :: b :: t' -> P t') -> P (c :: t)) ->
  forall l, P l.
Proof.
  intros H0 Hs l. remember (length l) as n eqn:E. revert l E. induction (lt_wf n) as [n _ IH]. intros l ->.
  destruct l as [|c t]; [done|]. apply Hs; [by eapply IH; [|done]; simpl; lia|].
  intros a b t' ->. by eapply IH; [|done]; simpl; lia.
Qed.

(** ** The authority *)

Lemma userinfo_chars s :
  userinfo_ok s = true -> forallb authority_char s = true /\ AT ∉ s.
Proof.
  intros H. assert (forallb (fun c => authority_char c && not_at c) s = true) as Hall.
  { revert H. induction s as [|c t IHt IHt'] using triple_ind; [done|]. cbn [userinfo_ok forallb].
    fold (info_char c). destruct (info_char c) eqn:Ec.
    - intros H%IHt. destruct (info_plain c Ec) as [-> ->]. done.
    - destruct t as [|a [|b t]]; [done..|]. intros H. ub. subst c. cbn [forallb].
      rewrite (xdigit_authority a), (xdigit_authority b), (xdigit_not_at a), (xdigit_not_at b) by done.
      by apply (IHt' a b t). }
  clear H. rewrite forallb_forall in Hall. split.
  - apply forallb_forall. intros c Hc%Hall. by zb.
  - intros Hin%list_elem_of_In%Hall. by vm_compute in Hin.
Qed.

Definition not_xdigit_next (rest : list byte) : Prop := EVUTIL_ISXDIGIT_ (next_char rest) = false.

Lemma regname_grows s rest : regname_ok s [] = true -> regname_ok s rest = true.
Proof.
  induction s as [|c t IHt IHt'] using triple_ind; [done|]. cbn [regname_ok]. case_match; [by apply IHt|].
  destruct t as [|a [|b t]]; simpl; rewrite ?andb_false_r; [done..|]. intros Hx. zb.
  repeat (apply andb_true_iff; split); try done. by apply (IHt' a b t).
Qed.

Lemma regname_alone s rest : not_xdigit_next rest -> regname_ok s rest = true -> regname_ok s [] = true.
Proof.
  unfold not_xdigit_next. intros Hr. induction s as [|c t IHt IHt'] using triple_ind; [done|]. cbn [regname_ok].
  case_match; [by apply IHt|]. destruct t as [|a [|b t]]; rewrite ?Hr; simpl; rewrite ?andb_false_r; [done..|].
  intros Hx. zb. repeat (apply andb_true_iff; split); try done. by apply (IHt' a b t).
Qed.

Lemma regname_no_colon s : regname_ok s [] = true -> COLON ∉ s.
Proof.
  intros H. assert (forallb not_colon s = true) as Hall.
  { revert H. induction s as [|c t IHt IHt'] using triple_ind; [done|]. cbn [regname_ok forallb].
    fold (name_char c). destruct (name_char c) eqn:Ec.
    - intros H%IHt. by rewrite (name_not_colon c).
    - destruct t as [|a [|b t]]; simpl; rewrite ?andb_false_r; [done..|]. intros H. ub. subst c.
      rewrite (xdigit_not_colon a), (xdigit_not_colon b) by done. by apply (IHt' a b t). }
  rewrite forallb_forall in Hall. intros Hin%list_elem_of_In%Hall. by vm_compute in Hin.
Qed.

(** *** The port *)

Lemma digit_value_nonneg c : EVUTIL_ISDIGIT_ c = true -> 0 <= digit_value c.
Proof.
  intros H. pose proof (byte_forall (fun c => implb (EVUTIL_ISDIGIT_ c) (0 <=? digit_value c))
    ltac:(vm_compute; reflexivity) c) as Hd. cbv beta in Hd. rewrite H in Hd. simpl in Hd. by zb.
Qed.

Lemma parse_port_range s v : -1 <= v <= 65535 -> -1 <= parse_port_from s v <= 65535.
Proof.
  revert v. induction s as [|c s IH]; intros v Hv; cbn [parse_port_from]; [done|].
  repeat case_test; zb; [lia..|]. apply IH. lia.
Qed.

Definition dec_from (v : Z) (l : list byte) : Z := fold_left (fun v c => v * 10 + digit_value c) l v.

Lemma dec_from_grows l v : Forall (fun c => EVUTIL_ISDIGIT_ c = true) l -> 0 <= v -> v <= dec_from v l.
Proof.
  intros H. revert v. induction H as [|c l Hc Hl IH]; intros v Hv; [unfold dec_from; simpl; lia|].
  apply digit_value_nonneg in Hc. unfold dec_from in *. simpl. specialize (IH (v * 10 + digit_value c)). lia.
Qed.

Lemma parse_port_digits l v :
  Forall (fun c => EVUTIL_ISDIGIT_ c = true) l -> 0 <= v -> dec_from v l <= 65535 ->
  parse_port_from l v = dec_from v l.
Proof.
  intros H. revert v. induction H as [|c l Hc Hl IH]; intros v Hv Hd; [done|]. cbn [parse_port_from].
  pose proof (digit_value_nonneg c Hc). unfold dec_from in *. simpl in Hd.
  pose proof (dec_from_grows l (v * 10 + digit_value c) Hl ltac:(lia)) as Hg. unfold dec_from in Hg.
  rewrite Hc. cbn [negb]. rewrite (proj2 (Z.ltb_ge _ 0)), (proj2 (Z.ltb_ge 65535 _)) by lia. apply IH; lia.
Qed.

Lemma parse_port_print p : 0 <= p <= 65535 -> parse_port (print_dec p) = p.
Proof.
  intros Hp. pose proof (print_dec_value p ltac:(lia)) as Hv. unfold dec_value in Hv. unfold parse_port.
  rewrite parse_port_digits; [done|apply print_dec_digits|lia|]. unfold dec_from. lia.
Qed.

(** [span] cuts the list in two. *)
Lemma span_spec P l a b :
  span P l = (a, b) -> l = a ++ b /\ forallb P a = true /\ match b with [] => True | c :: _ => P c = false end.
Proof.
  revert a b. induction l as [|c l IH]; intros a b; cbn [span]; [by intros [= <- <-]|].
  destruct (P c) eqn:E; [|by intros [= <- <-]]. destruct (span P l) as [a' b'] eqn:El. intros [= <- <-].
  destruct (IH a' b' eq_refl) as (-> & Ha & Hb). simpl. by rewrite E.
Qed.

Definition port_text (p : option (list byte)) : list byte :=
  match p with Some d => COLON :: d | None => [] end.

Lemma split_port_spec s h d : split_port s = (h, d) -> s = h ++ port_text d.
Proof.
  unfold split_port. destruct (span EVUTIL_ISDIGIT_ (rev s)) as [digits before] eqn:E.
  apply span_spec in E as (E & _ & _). apply (f_equal (@rev _)) in E. rewrite rev_involutive in E.
  destruct before as [|c before]; [intros [= <- <-]; by rewrite app_nil_r|].
  case_bool_decide; intros [= <- <-]; [|by rewrite app_nil_r].
  subst c. rewrite E, rev_app_distr. simpl. by rewrite <- app_assoc.
Qed.

Lemma split_port_some h p :
  split_port (h ++ COLON :: print_dec p) = (h, Some (print_dec p)).
Proof.
  unfold split_port. change (COLON :: print_dec p) with ([COLON] ++ print_dec p). rewrite app_assoc, span_rev_dec.
  - rewrite rev_app_distr. simpl. by rewrite !rev_involutive.
  - rewrite rev_app_distr. done.
Qed.

Lemma split_port_none h :
  COLON ∉ h \/ last h = Some RBRACKET -> split_port h = (h, None).
Proof.
  intros H. unfold split_port. destruct (span EVUTIL_ISDIGIT_ (rev h)) as [digits before] eqn:E.
  apply span_spec in E as (E & Hd & Hb). destruct before as [|c before]; [done|].
  rewrite bool_decide_eq_false_2; [done|]. intros ->. apply (f_equal (@rev _)) in E.
  rewrite rev_involutive, rev_app_distr in E. simpl in E. destruct H as [H|H].
  - apply H. rewrite E, !elem_of_app. left. right. apply list_elem_of_singleton. done.
  - rewrite E in H. destruct digits as [|x digits]; [by rewrite app_nil_r, last_snoc in H|].
    simpl in H, Hd. rewrite app_assoc, last_snoc in H. injection H as ->. by vm_compute in Hd.
Qed.

(** ** Path, query and fragment *)

Definition is_part (part : uri_part) (flags : Z) (s : list byte) : Prop := snd (end_of_path s part flags) = [].

(** What may follow a part. *)
Definition part_end (part : uri_part) (rest : list byte) : Prop :=
  rest = [] \/ next_char rest = HASH /\ part <> PART_FRAGMENT /\ rest <> [] \/ next_char rest = QMARK /\ part = PART_PATH /\ rest <> [].

Lemma conformant_prefix part s p r :
  end_of_path_conformant s part = (p, r) -> s = p ++ r /\ end_of_path_conformant p part = (p, []).
Proof.
  revert p r. induction s as [|c t IHt IHt'] using triple_ind; intros p r; [by intros [= <- <-]|]. cbn [end_of_path_conformant].
  destruct (path_char c) eqn:Ec.
  { destruct (end_of_path_conformant t part) as [p' r'] eqn:E. intros [= <- <-].
    destruct (IHt _ _ eq_refl) as [-> Hp]. split; [done|]. cbn [end_of_path_conformant]. by rewrite Ec, Hp. }
  set (other := if query_char part c then _ else _).
  assert (other = (p, r) -> c :: t = p ++ r /\ end_of_path_conformant p part = (p, [])) as Hother.
  { unfold other. destruct (query_char part c) eqn:Eq; [|by intros [= <- <-]].
    destruct (end_of_path_conformant t part) as [p' r'] eqn:E. intros [= <- <-].
    destruct (IHt _ _ eq_refl) as [-> Hp]. split; [done|]. cbn [end_of_path_conformant]. rewrite Ec, Eq, Hp.
    assert (bool_decide (c = PERCENT) = false) as ->.
    { apply bool_decide_eq_false. intros ->. unfold query_char in Eq. by vm_compute in Eq. }
    by destruct p' as [|? [|? ?]]. }
  destruct t as [|a [|b t]]; [exact Hother..|].
  destruct (bool_decide (c = PERCENT) && EVUTIL_ISXDIGIT_ a && EVUTIL_ISXDIGIT_ b) eqn:E3; [|exact Hother].
  destruct (end_of_path_conformant t part) as [p' r'] eqn:E. intros [= <- <-].
  destruct (IHt' a b t eq_refl _ _ E) as [-> Hp]. split; [done|]. cbn [end_of_path_conformant]. by rewrite Ec, E3, Hp.
Qed.

Lemma end_of_path_spec part flags s p r :
  end_of_path s part flags = (p, r) -> s = p ++ r /\ is_part part flags p.
Proof.
  unfold is_part, end_of_path. destruct (has flags EVHTTP_URI_NONCONFORMANT).
  - intros (-> & Hp & _)%span_spec. split; [done|]. rewrite <- (app_nil_r p), span_app by done. done.
  - intros [-> Hp]%conformant_prefix. split; [done|]. by rewrite Hp.
Qed.

Lemma conformant_app part s rest :
  snd (end_of_path_conformant s part) = [] -> part_end part rest ->
  end_of_path_conformant (s ++ rest) part = (s, rest).
Proof.
  intros Hs Hr. revert Hs. induction s as [|c t IHt IHt'] using triple_ind.
  { intros _. destruct rest as [|c rest]; [done|]. destruct Hr as [?|[(Hc & Hp & _)|(Hc & -> & _)]]; [done| |];
      simpl in Hc; subst c; simpl app; cbn [end_of_path_conformant]; [|by destruct rest as [|? [|? ?]]].
    assert (query_char part HASH = false) as -> by done. by destruct rest as [|? [|? ?]]. }
  cbn [app]. cbn [end_of_path_conformant]. destruct (path_char c) eqn:Ec.
  { destruct (end_of_path_conformant t part) as [p' r'] eqn:E. simpl. intros ->. by rewrite IHt. }
  destruct (bool_decide (c = PERCENT)) eqn:Ep.
  - apply bool_decide_eq_true in Ep. subst c. assert (query_char part PERCENT = false) as -> by done.
    destruct t as [|a [|b t]]; [done..|]. cbn [app andb].
    destruct (EVUTIL_ISXDIGIT_ a && EVUTIL_ISXDIGIT_ b); [|done].
    destruct (end_of_path_conformant t part) as [p' r'] eqn:E. simpl. intros ->. rewrite (IHt' a b t eq_refl); [done|by rewrite E].
  - cbn [andb]. assert (forall (A : Type) (x : A) (l : list byte), match l with _ :: _ :: _ => x | _ => x end = x) as Hm
      by (intros A x [|? [|? ?]]; done). rewrite !Hm.
    destruct (query_char part c); [|done]. destruct (end_of_path_conformant t part) as [p' r'] eqn:E. simpl. intros ->.
    by rewrite IHt.
Qed.

Lemma end_of_path_app part flags s rest :
  is_part part flags s -> part_end part rest -> end_of_path (s ++ rest) part flags = (s, rest).
Proof.
  unfold is_part, end_of_path. destruct (has flags EVHTTP_URI_NONCONFORMANT); [|apply conformant_app].
  intros Hs Hr. destruct (span (loose_char part) s) as [p r] eqn:E. apply span_spec in E as (-> & Hp & _).
  simpl in Hs. subst r. rewrite app_nil_r. apply span_app; [done|].
  destruct rest as [|c rest]; [done|]. destruct Hr as [?|[(Hc & Hpt & _)|(Hc & -> & _)]]; [done| |]; simpl in Hc; subst c; [by destruct part|done].
Qed.

(** The next test for which the parser returns [NULL]. *)
Ltac refuse E := lazymatch goal with |- context [if ?b then Done None else _] => destruct b eqn:E; [done|] end.

(** ** Well-formed URIs *)

Definition in_brackets (h : list byte) : bool :=
  bool_decide (next_char h = LBRACKET) && (2 <=? zlen h) && bool_decide (last h = Some RBRACKET).

Definition info_ok (info : option (list byte)) : Prop :=
  match info with Some i => userinfo_ok i = true | None => True end.

Definition host_ok (info : option (list byte)) (h : list byte) : Prop :=
  forallb authority_char h = true /\ (info = None -> AT ∉ h) /\
  if in_brackets h then exists r, bracket_addr_ok h = Done r /\ r <> 0 else regname_ok h [] = true.

Definition opt_part_ok (part : uri_part) (flags : Z) (s : option (list byte)) : Prop :=
  match s with Some s => is_part part flags s | None => True end.

(** With an authority the path is empty or starts with a slash; without one it does
    not start with two; without a scheme no colon comes before its first slash. *)
Definition path_ok (u : evhttp_uri) (p : list byte) : Prop :=
  is_part PART_PATH (uri_flags u) p /\
  (match host u with Some _ => p = [] \/ next_char p = SLASH | None => two_slashes p = false end) /\
  (scheme u = None -> path_matches_noscheme p = true).

Record uri_ok (u : evhttp_uri) : Prop := {
  scheme_fine : match scheme u with Some s => scheme_ok s = true | None => True end;
  info_fine : info_ok (userinfo u);
  host_fine : match host u with Some h => host_ok (userinfo u) h | None => userinfo u = None /\ port u = -1 end;
  port_fine : -1 <= port u <= 65535;
  path_fine : exists p, path u = Some p /\ path_ok u p;
  query_fine : opt_part_ok PART_QUERY (uri_flags u) (query u);
  fragment_fine : opt_part_ok PART_FRAGMENT (uri_flags u) (fragment u) }.

(** *** The parser's results are well formed *)

Lemma bracket_total s : exists r, bracket_addr_ok s = Done r.
Proof.
  unfold bracket_addr_ok. do 3 (case_match; [by eauto|]).
  destruct (pton6_in_bounds (ztake (zlen s - 2) (tail s))) as (r & out & E & _). unfold evutil_inet_pton. rewrite E.
  by eexists.
Qed.

Lemma authority_total s rest : exists r, parse_authority s rest = Done r.
Proof.
  unfold parse_authority. case_bool_decide; [by eexists|].
  destruct (strchr AT s) as [[u cp]|]; [destruct (negb (userinfo_ok u)); [by eexists|]|];
    (destruct (split_port _) as [h d]; fold (in_brackets h);
     destruct (bracket_total h) as [ok Hok]; rewrite Hok;
     destruct d as [[|c d]|]; [|destruct (parse_port (c :: d) <? 0); [by eexists|]|]; destruct (in_brackets h); by eexists).
Qed.

Definition authority_end (rest : list byte) : Prop := match rest with [] => True | c :: _ => authority_char c = false end.

Lemma authority_end_not_xdigit rest : authority_end rest -> not_xdigit_next rest.
Proof.
  unfold not_xdigit_next. destruct rest as [|c rest]; [done|]. simpl. intros H.
  destruct (EVUTIL_ISXDIGIT_ c) eqn:E; [|done]. by rewrite (xdigit_authority c E) in H.
Qed.

Lemma forallb_app_inv (P : byte -> bool) a b : forallb P (a ++ b) = true -> forallb P a = true /\ forallb P b = true.
Proof. rewrite forallb_app. apply andb_true_iff. Qed.

Lemma host_of_text info h d rest after (prt : Z) r :
  authority_end rest -> forallb authority_char h = true -> (info = None -> AT ∉ h) ->
  after = port_text d ++ rest ->
  (if in_brackets h
   then ok ← bracket_addr_ok h; Done (if ok =? 0 then None else Some (info, h, prt))
   else Done (if regname_ok h after then Some (info, h, prt) else None)) = Done (Some r) ->
  r = (info, h, prt) /\ host_ok info h.
Proof.
  intros Hr Hh Hat -> H. unfold host_ok. destruct (in_brackets h) eqn:Eb.
  - destruct (bracket_total h) as [ok Eok]. rewrite Eok in H. cbn [mbind outcome_bind] in H.
    destruct (ok =? 0) eqn:E0; [done|]. injection H as <-. zb. split; [done|]. split_and!; [done..|]. by exists ok.
  - destruct (regname_ok h (port_text d ++ rest)) eqn:E; [|done]. injection H as <-. split; [done|]. split_and!; [done..|].
    eapply regname_alone; [|exact E]. destruct d as [d|]; [done|]. by apply authority_end_not_xdigit.
Qed.

Lemma parse_authority_ok s rest info h (prt : Z) :
  authority_end rest -> forallb authority_char s = true ->
  parse_authority s rest = Done (Some (info, h, prt)) ->
  info_ok info /\ host_ok info h /\ -1 <= prt <= 65535.
Proof.
  intros Hr Hs. unfold parse_authority. case_bool_decide as Hnil.
  { intros [= <- <- <-]. split; [done|]. split; [|lia]. split_and!; [done|intros _; apply not_elem_of_nil|reflexivity]. }
  set (ic := match strchr AT s with Some (u, cp) => (Some u, cp) | None => (None, s) end).
  assert (exists info' cp, ic = (info', cp) /\ forallb authority_char cp = true /\ (info' = None -> AT ∉ cp)) as (info' & cp & -> & Hcp & Hat).
  { unfold ic. destruct (strchr AT s) as [[u cp]|] eqn:E.
    - apply strchr_Some in E as [-> _]. apply forallb_app_inv in Hs as [_ Hs]. simpl in Hs. zb. by exists (Some u), cp.
    - exists None, s. split_and!; [done|done|]. intros _. by apply strchr_None. }
  case_match eqn:Hi; [done|].
  assert (info_ok info') as Hinfo by (destruct info'; [by apply negb_false_iff in Hi|done]).
  destruct (split_port cp) as [h' d] eqn:Ed. apply split_port_spec in Ed as ->. apply forallb_app_inv in Hcp as [Hh _].
  assert (info' = None -> AT ∉ h') as Hat' by (intros Hn Hin; apply (Hat Hn); apply elem_of_app; by left).
  assert (forall p, -1 <= p <= 65535 ->
    (if in_brackets h'
     then ok ← bracket_addr_ok h'; Done (if ok =? 0 then None else Some (info', h', p))
     else Done (if regname_ok h' (match d with Some d => COLON :: d ++ rest | None => rest end) then Some (info', h', p) else None)) =
    Done (Some (info, h, prt)) -> info_ok info /\ host_ok info h /\ -1 <= prt <= 65535) as Hdone.
  { intros p Hp H. eapply (host_of_text _ _ d rest) in H; [|done..|by destruct d].
    destruct H as [[= -> -> ->] Hok]. done. }
  destruct d as [[|c d]|]; [apply Hdone; lia| |apply Hdone; lia].
  destruct (parse_port (c :: d) <? 0) eqn:Ep; [done|]. zb. apply Hdone.
  pose proof (parse_port_range (c :: d) 0 ltac:(lia)). unfold parse_port in *. lia.
Qed.

Lemma parse_scheme_ok s sch r : parse_scheme s = (sch, r) -> match sch with Some s => scheme_ok s = true | None => True end.
Proof.
  unfold parse_scheme. destruct (strchr COLON s) as [[a b]|]; [|by intros [= <- <-]].
  destruct (scheme_ok a) eqn:E; by intros [= <- <-].
Qed.

Lemma parse_tail_ok p flags pth q f r :
  parse_tail p flags = (pth, q, f, r) ->
  is_part PART_PATH flags pth /\ opt_part_ok PART_QUERY flags q /\ opt_part_ok PART_FRAGMENT flags f.
Proof.
  unfold parse_tail. destruct (end_of_path p PART_PATH flags) as [pth' r1] eqn:E1. apply end_of_path_spec in E1 as [_ H1].
  set (qr := if bool_decide (next_char r1 = QMARK) then _ else _).
  assert (exists q' r2, qr = (q', r2) /\ opt_part_ok PART_QUERY flags q') as (q' & r2 & -> & H2).
  { unfold qr. destruct (bool_decide (next_char r1 = QMARK)); [|by exists None, r1].
    destruct (end_of_path (tail r1) PART_QUERY flags) as [q' r2] eqn:E2. apply end_of_path_spec in E2 as [_ H2].
    by exists (Some q'), r2. }
  destruct (bool_decide (next_char r2 = HASH)); [|by intros [= <- <- <- <-]].
  destruct (end_of_path (tail r2) PART_FRAGMENT flags) as [f' r3] eqn:E3. apply end_of_path_spec in E3 as [_ H3].
  by intros [= <- <- <- <-].
Qed.

Lemma parse_hier_ok s o p :
  parse_hier s = Done (Some (o, p)) ->
  match o with
  | Some (info, h, prt) => info_ok info /\ host_ok info h /\ -1 <= prt <= 65535
  | None => True
  end.
Proof.
  unfold parse_hier. destruct (two_slashes s); [|by intros [= <- <-]].
  destruct (end_of_authority (zdrop 2 s)) as [authority p'] eqn:E. apply span_spec in E as (_ & Ha & Hp).
  destruct (parse_authority authority p') as [[[[info h] prt]|]|] eqn:Ep; [|done..].
  cbn [mbind outcome_bind]. intros [= <- <-]. by apply (parse_authority_ok authority p').
Qed.

Lemma parse_ok s flags u :
  evhttp_uri_parse_with_flags s flags = Done (Some u) -> uri_ok u /\ uri_flags u = flags.
Proof.
  unfold evhttp_uri_parse_with_flags. destruct (parse_scheme s) as [sch readp] eqn:Es. apply parse_scheme_ok in Es.
  destruct (parse_hier readp) as [[[o p]|]|] eqn:Eh; [|done..]. apply parse_hier_ok in Eh. cbn [mbind outcome_bind].
  destruct (parse_tail p flags) as [[[pth q] f] r] eqn:Et. apply parse_tail_ok in Et as (Hp & Hq & Hf).
  destruct (bool_decide (r = [])); [|done]. cbn [negb].
  destruct o as [[[info h] prt]|]; cbn [negb andb].
  - destruct Eh as (Hi & Hh & Hprt). refuse Epth. refuse Esch. intros [= <-]. split; [|done]. constructor; try done.
    exists pth. split; [done|]. split; [done|]. split; [|intros Hn; simpl in Hn; subst; by apply negb_false_iff].
    cbn [host]. ub. destruct Epth as [H|H]; ub; auto.
  - refuse E2. refuse Esch. intros [= <-]. split; [|done].
    constructor; simpl; try done; try lia.
    exists pth. split; [done|]. split; [done|]. split; [done|]. intros Hn. simpl in Hn. subst. by apply negb_false_iff.
Qed.

(** ** A joined URI is parsed to itself *)

(** What follows the path. *)
Definition tail_text (q f : option (list byte)) : list byte := opt_part [QMARK] q [] ++ opt_part [HASH] f [].

Lemma tail_text_end q f :
  tail_text q f = [] \/ (next_char (tail_text q f) = QMARK \/ next_char (tail_text q f) = HASH) /\ tail_text q f <> [].
Proof. destruct q, f; unfold tail_text; simpl; auto. Qed.

Lemma fragment_end f : part_end PART_QUERY (opt_part [HASH] f []).
Proof. destruct f; [right; left; by split_and!|by left]. Qed.

Lemma part_end_all part flags s : is_part part flags s -> end_of_path s part flags = (s, []).
Proof. intros H. rewrite <- (app_nil_r s) at 1. apply end_of_path_app; [done|by left]. Qed.

Lemma parse_tail_joined pth q f flags :
  is_part PART_PATH flags pth -> opt_part_ok PART_QUERY flags q -> opt_part_ok PART_FRAGMENT flags f ->
  parse_tail (pth ++ tail_text q f) flags = (pth, q, f, []).
Proof.
  intros Hp Hq Hf. unfold parse_tail. rewrite end_of_path_app; [|done|].
  2: { destruct (tail_text_end q f) as [->|[[H|H] Hn]]; [by left|right; right; by split_and!|right; left; by split_and!]. }
  unfold tail_text. destruct q as [q|]; simpl opt_part; cbn [app next_char tail].
  - rewrite bool_decide_eq_true_2 by done. rewrite app_nil_r, end_of_path_app by (done || apply fragment_end).
    destruct f as [f|]; simpl; [|done]. rewrite app_nil_r, part_end_all by done. done.
  - destruct f as [f|]; simpl; [|done]. rewrite app_nil_r, part_end_all by done. done.
Qed.

(** *** No scheme is found where there is none *)

Lemma noscheme_before p T a b :
  path_matches_noscheme p = true -> (T = [] \/ (next_char T = QMARK \/ next_char T = HASH) /\ T <> []) ->
  strchr COLON (p ++ T) = Some (a, b) -> forallb scheme_char a = false.
Proof.
  intros Hp HT. revert a. induction p as [|c p IH]; intros a; simpl.
  - destruct HT as [->|[HT Hn]]; [done|]. destruct T as [|c T]; [done|]. simpl in *.
    assert (c <> COLON /\ scheme_char c = false) as [H1 H2] by (destruct HT as [->| ->]; done).
    rewrite bool_decide_eq_false_2 by done. destruct (strchr COLON T) as [[a' b']|]; [|done]. intros [= <- <-].
    simpl. by rewrite H2.
  - cbn [path_matches_noscheme] in Hp. destruct (bool_decide (c = COLON)); [done|].
    destruct (strchr COLON (p ++ T)) as [[a' b']|] eqn:E; [|done]. intros [= <- <-]. simpl.
    case_bool_decide as Hs; [subst c; done|]. by rewrite (IH Hp a'), andb_false_r.
Qed.

Lemma parse_scheme_none s :
  (forall a b, strchr COLON s = Some (a, b) -> forallb scheme_char a = false \/ a = []) -> parse_scheme s = (None, s).
Proof.
  intros H. unfold parse_scheme. destruct (strchr COLON s) as [[a b]|] eqn:E; [|done].
  destruct (scheme_ok a) eqn:Ea; [|done]. destruct (H a b eq_refl) as [Hf| ->]; [|done].
  by rewrite scheme_ok_chars in Hf.
Qed.

Lemma parse_scheme_some s rest : scheme_ok s = true -> parse_scheme (s ++ COLON :: rest) = (Some s, rest).
Proof. intros H. unfold parse_scheme. by rewrite strchr_app, H by (by apply scheme_no_colon). Qed.

(** *** The authority *)

Definition port_part (p : Z) : list byte := if 0 <=? p then COLON :: print_dec p else [].

Definition authority_text (info : option (list byte)) (h : list byte) (p : Z) : list byte :=
  opt_part [] info [AT] ++ h ++ port_part p.

Lemma port_part_chars p : forallb authority_char (port_part p) = true /\ AT ∉ port_part p.
Proof.
  unfold port_part. destruct (0 <=? p); [|split; [done|apply not_elem_of_nil]].
  pose proof (print_dec_digits p) as Hd. rewrite Forall_forall in Hd. split.
  - simpl. apply forallb_forall. intros c Hc%list_elem_of_In%Hd. by apply digit_authority.
  - rewrite elem_of_cons. intros [?|H]; [done|]. apply Hd in H. by vm_compute in H.
Qed.

Lemma authority_text_chars info h p :
  info_ok info -> host_ok info h -> forallb authority_char (authority_text info h p) = true.
Proof.
  intros Hi (Hh & _ & _). unfold authority_text. rewrite !forallb_app, Hh.
  rewrite (proj1 (port_part_chars p)), !andb_true_r. destruct info as [i|]; [|done].
  simpl. rewrite forallb_app. by rewrite (proj1 (userinfo_chars i Hi)).
Qed.

Lemma split_port_joined info h p :
  host_ok info h -> -1 <= p <= 65535 ->
  split_port (h ++ port_part p) = (h, if 0 <=? p then Some (print_dec p) else None).
Proof.
  intros (_ & _ & Hh) Hp. unfold port_part. destruct (0 <=? p); [apply split_port_some|]. rewrite app_nil_r.
  apply split_port_none. destruct (in_brackets h) eqn:Eb; [right|left; by apply regname_no_colon].
  unfold in_brackets in Eb. ub. done.
Qed.

Lemma parse_authority_joined info h p rest :
  info_ok info -> host_ok info h -> -1 <= p <= 65535 ->
  parse_authority (authority_text info h p) rest = Done (Some (info, h, p)).
Proof.
  intros Hi Hh Hp. unfold parse_authority. case_bool_decide as Hn.
  { unfold authority_text, port_part in Hn. apply app_eq_nil in Hn as [H1 H2]. apply app_eq_nil in H2 as [-> H2].
    destruct info as [[|x i]|]; [done..|]. destruct (0 <=? p) eqn:E; [done|]. zb. by replace p with (-1) by lia. }
  assert (match strchr AT (authority_text info h p) with Some (u, cp) => (Some u, cp) | None => (None, authority_text info h p) end =
    (info, h ++ port_part p)) as ->.
  { unfold authority_text. destruct info as [i|]; simpl.
    - rewrite <- app_assoc. simpl. by rewrite strchr_app by (by apply userinfo_chars).
    - rewrite (proj2 (strchr_None AT (h ++ port_part p))); [done|]. rewrite elem_of_app.
      intros [H|H]; [by apply (proj1 (proj2 Hh))|by apply port_part_chars in H]. }
  assert (match info with Some u => negb (userinfo_ok u) | None => false end = false) as ->
    by (destruct info as [i|]; [by apply negb_false_iff|done]).
  rewrite (split_port_joined info) by done.
  set (prt := match (if 0 <=? p then Some (print_dec p) else None) with
              | None | Some [] => Some (-1)
              | Some d => if parse_port d <? 0 then None else Some (parse_port d) end).
  assert (prt = Some p) as ->.
  { unfold prt. destruct (0 <=? p) eqn:E; zb; [|f_equal; lia].
    destruct (print_dec p) as [|c d] eqn:Ed; [by destruct (print_dec_not_nil p)|]. rewrite <- Ed.
    rewrite parse_port_print by lia. by rewrite (proj2 (Z.ltb_ge p 0)) by lia. }
  destruct Hh as (_ & _ & Hh). fold (in_brackets h). destruct (in_brackets h).
  - destruct Hh as (r & -> & Hr). cbn [mbind outcome_bind]. by rewrite (proj2 (Z.eqb_neq r 0)).
  - by rewrite regname_grows.
Qed.

Definition after_scheme (u : evhttp_uri) (p : list byte) : list byte :=
  match host u with
  | Some h => SLASH :: SLASH :: authority_text (userinfo u) h (port u) ++ p ++ tail_text (query u) (fragment u)
  | None => p ++ tail_text (query u) (fragment u)
  end.

Lemma joined_shape u p :
  uri_ok u -> path u = Some p -> path_ok u p ->
  joined u = Some (opt_part [] (scheme u) [COLON] ++ after_scheme u p).
Proof.
  intros Hu Hp (_ & Hh & _). unfold joined, after_scheme. rewrite Hp. unfold tail_text, authority_text, port_part.
  change (opt_part [] (Some p) []) with (p ++ []). rewrite (app_nil_r p). destruct (host u) as [h|]; [|done].
  assert (negb (bool_decide (next_char p = SLASH)) && negb (bool_decide (p = [])) = false) as ->.
  { destruct Hh as [->|Hh]; [done|]. by rewrite (bool_decide_eq_true_2 (next_char p = SLASH)). }
  cbn [app]. by rewrite <- !app_assoc.
Qed.

Lemma parse_scheme_joined u p :
  uri_ok u -> path_ok u p ->
  parse_scheme (opt_part [] (scheme u) [COLON] ++ after_scheme u p) = (scheme u, after_scheme u p).
Proof.
  intros Hu (_ & Hh & Hn). pose proof (scheme_fine u Hu) as Hs. destruct (scheme u) as [s|]; simpl.
  { rewrite <- app_assoc. by apply parse_scheme_some. }
  apply parse_scheme_none. intros a b. unfold after_scheme. destruct (host u) as [h|].
  - intros [H _]%strchr_Some. destruct a as [|x a]; [by right|]. injection H as <- _. by left.
  - intros H. left. eapply noscheme_before; [by apply Hn|apply tail_text_end|exact H].
Qed.

Lemma after_authority p T :
  p = [] \/ next_char p = SLASH -> (T = [] \/ (next_char T = QMARK \/ next_char T = HASH) /\ T <> []) ->
  match p ++ T with [] => True | c :: _ => authority_char c = false end.
Proof.
  intros Hp HT. destruct p as [|c p].
  - destruct HT as [->|[HT Hn]]; [done|]. destruct T as [|c T]; [done|]. simpl in *. by destruct HT as [->| ->].
  - destruct Hp as [?|Hp]; [done|]. simpl in *. by subst c.
Qed.

Lemma no_two_slashes p T :
  two_slashes p = false -> (T = [] \/ (next_char T = QMARK \/ next_char T = HASH) /\ T <> []) ->
  two_slashes (p ++ T) = false.
Proof.
  intros Hp HT. assert (bool_decide (next_char T = SLASH) = false) as HS.
  { apply bool_decide_eq_false. destruct HT as [->|[[->| ->] _]]; done. }
  unfold two_slashes in *. destruct p as [|c [|d p]]; simpl in *; [by rewrite HS|by rewrite HS, andb_false_r|done].
Qed.

Lemma parse_hier_joined u p :
  uri_ok u -> path_ok u p ->
  parse_hier (after_scheme u p) =
  Done (Some (match host u with Some h => Some (userinfo u, h, port u) | None => None end, p ++ tail_text (query u) (fragment u))).
Proof.
  intros Hu (_ & Hp & _). pose proof (host_fine u Hu) as Hh. unfold parse_hier, after_scheme.
  destruct (host u) as [h|].
  - assert (forall l, two_slashes (SLASH :: SLASH :: l) = true) as -> by done.
    assert (forall l, zdrop 2 (SLASH :: SLASH :: l) = l) as -> by done.
    unfold end_of_authority. rewrite span_app.
    + rewrite parse_authority_joined; [done|apply (info_fine u Hu)|done|apply (port_fine u Hu)].
    + apply authority_text_chars; [apply (info_fine u Hu)|done].
    + apply after_authority; [done|apply tail_text_end].
  - by rewrite no_two_slashes by (done || apply tail_text_end).
Qed.

Lemma parse_joined u s : uri_ok u -> joined u = Some s -> evhttp_uri_parse_with_flags s (uri_flags u) = Done (Some u).
Proof.
  intros Hu. destruct (path_fine u Hu) as (p & Hpath & Hp). rewrite (joined_shape u p) by done. intros [= <-].
  unfold evhttp_uri_parse_with_flags. rewrite parse_scheme_joined, parse_hier_joined by done.
  cbn [mbind outcome_bind]. destruct Hp as (Hpart & Hpath' & Hn).
  rewrite parse_tail_joined by (done || apply (query_fine u Hu) || apply (fragment_fine u Hu)).
  rewrite bool_decide_eq_true_2 by done. cbn [negb].
  assert (match scheme u with Some _ => false | None => negb (path_matches_noscheme p) end = false) as ->
    by (destruct (scheme u); [done|apply negb_false_iff; by apply Hn]).
  pose proof (host_fine u Hu) as Hh. destruct u as [flags sch info [h|] prt pth q f]; simpl in *; subst.
  - assert (negb (bool_decide (next_char p = SLASH)) && negb (bool_decide (p = [])) = false) as ->.
    { destruct Hpath' as [->|Hs]; [done|]. by rewrite (bool_decide_eq_true_2 (next_char p = SLASH)). }
    done.
  - rewrite Hpath'. by destruct Hh as [-> ->].
Qed.

(** ** Properties *)

(** The parser returns whatever the text and the flags. *)
Lemma parse_total s flags : exists r, evhttp_uri_parse_with_flags s flags = Done r.
Proof.
  unfold evhttp_uri_parse_with_flags. destruct (parse_scheme s) as [sch readp].
  assert (exists h, parse_hier readp = Done h) as [h ->].
  { unfold parse_hier. destruct (two_slashes readp); [|by eexists].
    destruct (end_of_authority (zdrop 2 readp)) as [a p]. destruct (authority_total a p) as [r ->]. by eexists. }
  cbn [mbind outcome_bind]. destruct h as [[o p]|]; [|by eexists].
  destruct (parse_tail p flags) as [[[pth q] f] r]. repeat lazymatch goal with
    |- context [if ?b then Done None else _] => destruct b; [by eexists|] end.
  destruct o as [[[? ?] ?]|]; by eexists.
Qed.

(** C22: joining the URI that the parser returned for a text, into a buffer that is
    large enough, gives a text for which the parser returns the same URI. *)
Theorem uri_join_round_trip s flags u limit t :
  evhttp_uri_parse_with_flags s flags = Done (Some u) -> evhttp_uri_join u limit = Some t ->
  zlen t < limit /\ evhttp_uri_parse_with_flags t flags = Done (Some u).
Proof.
  intros [Hu <-]%parse_ok H. unfold evhttp_uri_join in H. destruct (limit =? 0); [done|].
  destruct (joined u) as [j|] eqn:Ej; [|done]. destruct (limit <? zlen j + 1) eqn:El; [done|]. injection H as <-. zb.
  split; [lia|]. by apply parse_joined.
Qed.

(** A URI the parser returned is joined whenever the buffer is larger than the
    text: by the number of its bytes and the NUL. *)
Theorem uri_join_succeeds s flags u :
  evhttp_uri_parse_with_flags s flags = Done (Some u) ->
  exists n, 0 < n /\ forall limit, n <= limit -> exists t, evhttp_uri_join u limit = Some t.
Proof.
  intros [Hu _]%parse_ok. destruct (path_fine u Hu) as (p & Hpath & Hp).
  pose proof (joined_shape u p Hu Hpath Hp) as Hj. set (j := opt_part [] (scheme u) [COLON] ++ _) in Hj.
  pose proof (zlen_nonneg j). exists (zlen j + 1). split; [lia|]. intros limit Hl. exists j. unfold evhttp_uri_join.
  rewrite (proj2 (Z.eqb_neq limit 0)), Hj, (proj2 (Z.ltb_ge limit _)) by lia. done.
Qed.

Definition example_text : list byte := bytes_of "http://me@[::1]:8080/a%20b;c?x=1#top".

Definition example_uri : evhttp_uri :=
  mkUri 0 (Some (bytes_of "http")) (Some (bytes_of "me")) (Some (bytes_of "[::1]")) 8080
    (Some (bytes_of "/a%20b;c")) (Some (bytes_of "x=1")) (Some (bytes_of "top")).

Example uri_join_round_trip_witness :
  zlen example_text < 64 /\ evhttp_uri_parse_with_flags example_text 0 = Done (Some example_uri).
Proof. apply (uri_join_round_trip example_text 0 example_uri 64 example_text); vm_compute; reflexivity. Defined.

Example uri_join_succeeds_witness :
  exists n, 0 < n /\ forall limit, n <= limit -> exists t, evhttp_uri_join example_uri limit = Some t.
Proof. apply (uri_join_succeeds example_text 0). vm_compute. reflexivity. Defined.

(** *** What the setters let through *)

(** The setters accept parts whose join is read as another URI or not at all: a
    path that starts with two slashes becomes a host, a path with a colon gets a
    scheme, and a port above 65535 is refused. *)
Theorem uri_setters_unchecked :
  let evil := snd (evhttp_uri_set_path evhttp_uri_new (Some (bytes_of "//evil.example/x"))) in
  let colon := snd (evhttp_uri_set_path evhttp_uri_new (Some (bytes_of "a:b"))) in
  let high := evhttp_uri_set_port example_uri 70000 in
  (exists u, joined evil = Some (bytes_of "//evil.example/x") /\ host evil = None /\
     evhttp_uri_parse (bytes_of "//evil.example/x") = Done (Some u) /\ host u = Some (bytes_of "evil.example")) /\
  (exists u, joined colon = Some (bytes_of "a:b") /\ scheme colon = None /\
     evhttp_uri_parse (bytes_of "a:b") = Done (Some u) /\ scheme u = Some (bytes_of "a")) /\
  (exists t, fst high = 0 /\ joined (snd high) = Some t /\ evhttp_uri_parse t = Done None).
Proof.
  cbv zeta. split; [|split].
  - eexists. split; [vm_compute; reflexivity|]. split; [reflexivity|]. split; vm_compute; reflexivity.
  - eexists. split; [vm_compute; reflexivity|]. split; [reflexivity|]. split; vm_compute; reflexivity.
  - exists (bytes_of "http://me@[::1]:70000/a%20b;c?x=1#top"). split; [reflexivity|]. split; [vm_compute; reflexivity|vm_compute; reflexivity].
Qed.

(** An IPvFuture address with no characters after its dot is accepted, where the
    comment requires one; a host name in brackets is not. *)
Theorem ipvfuture_empty_accepted :
  bracket_addr_ok (bytes_of "[v1.]") = Done 2 /\ bracket_addr_ok (bytes_of "[host]") = Done 0.
Proof. split; vm_compute; reflexivity. Qed.
