(* ===== verification/UriGrammar.v ===== *)
(** * The grammar of URIs

    The productions of RFC 3986 (section 3 and appendix A) as predicates on
    text, written from the RFC and not from the parser: character classes by
    their code points, percent-encoded text as an inductive relation, the parts
    of a URI and their recomposition (section 5.3).  What
    [evhttp_uri_parse_with_flags] returns for a string consists of such parts,
    and the string is their recomposition.

    Two places are as [libevent/http.c] has them: an IPvFuture address may have
    nothing after its dot, and the text between brackets that is not one is an
    IPv6 address of fewer than 64 characters as [evutil_inet_pton] reads it.
    With [EVHTTP_URI_NONCONFORMANT] only the characters that end a part are
    excluded from path and query. *)

From S2P Require Import Prelude Ctype HttpText Inet InetSpec UriParse UriSpec.

(** ** Characters *)

Definition between (a b : Z) (c : byte) : bool := (a <=? byteZ c) && (byteZ c <=? b).

Definition alpha (c : byte) : bool := between 65 90 c || between 97 122 c.
Definition digit (c : byte) : bool := between 48 57 c.
Definition hexdig (c : byte) : bool := digit c || between 65 70 c || between 97 102 c.
Definition unreserved (c : byte) : bool := alpha c || digit c || bool_decide (c ∈ bytes_of "-._~").
Definition sub_delim (c : byte) : bool := bool_decide (c ∈ bytes_of "!$&'()*+,;=").
Definition scheme_tail_char (c : byte) : bool := alpha c || digit c || bool_decide (c ∈ bytes_of "+-.").
Definition regname_char (c : byte) : bool := unreserved c || sub_delim c.
Definition colon_char (c : byte) : bool := regname_char c || bool_decide (c = ":"%byte).
Definition pchar_slash (c : byte) : bool := colon_char c || bool_decide (c ∈ bytes_of "@/").
Definition query_fragment_char (c : byte) : bool := pchar_slash c || bool_decide (c = "?"%byte).

(** Characters of a class, or percent-encoded octets. *)
Inductive encoded (P : byte -> bool) : list byte -> Prop :=
| enc_nil : encoded P []
| enc_char c s : P c = true -> encoded P s -> encoded P (c :: s)
| enc_octet a b s : hexdig a = true -> hexdig b = true -> encoded P s -> encoded P ("%"%byte :: a :: b :: s).

(** ** Parts *)

Definition is_scheme (s : list byte) : Prop :=
  exists c t, s = c :: t /\ alpha c = true /\
    Forall (fun c => scheme_tail_char c = true) t.

Definition is_ipvfuture (a : list byte) : Prop :=
  exists h t, a = "v"%byte :: h ++ "."%byte :: t /\ h <> [] /\ Forall (fun c => hexdig c = true) h /\
    Forall (fun c => colon_char c = true) t.

Definition is_ipv6 (a : list byte) : Prop :=
  zlen a < 64 /\ exists octets, evutil_inet_pton AF_INET6 a = Done (1, octets).

Inductive is_host : list byte -> Prop :=
| host_name h : encoded regname_char h -> is_host h
| host_literal a : is_ipvfuture a \/ is_ipv6 a -> is_host ("["%byte :: a ++ ["]"%byte]).

(** The text after the colon of an authority, and the port it stands for. *)
Definition is_port (digits : option (list byte)) (p : Z) : Prop :=
  match digits with
  | None | Some [] => p = -1
  | Some d => Forall (fun c => digit c = true) d /\ p = fold_left (fun n c => 10 * n + (byteZ c - 48)) d 0 /\
              0 <= p <= 65535
  end.

Definition loose (flags : Z) : bool := Z.testbit flags 0.

Definition is_path (flags : Z) (p : list byte) : Prop :=
  if loose flags then "?"%byte ∉ p /\ "#"%byte ∉ p else encoded pchar_slash p.
Definition is_query (flags : Z) (q : list byte) : Prop :=
  if loose flags then "#"%byte ∉ q else encoded query_fragment_char q.
Definition is_fragment (flags : Z) (f : list byte) : Prop :=
  if loose flags then True else encoded query_fragment_char f.

Definition optional (P : list byte -> Prop) (o : option (list byte)) : Prop :=
  match o with Some s => P s | None => True end.

(** The text before the first slash. *)
Definition first_segment (p : list byte) : list byte :=
  match strchr "/"%byte p with Some (a, _) => a | None => p end.

(** ** URIs *)

Definition with_delims (pre : list byte) (o : option (list byte)) (post : list byte) : list byte :=
  match o with Some s => pre ++ s ++ post | None => [] end.

(** Section 5.3, with the digits of the port as they are written. *)
Definition recomposed (u : evhttp_uri) (digits : option (list byte)) (p : list byte) : list byte :=
  with_delims [] (scheme u) [":"%byte] ++
  match host u with
  | Some h => ["/"%byte; "/"%byte] ++ with_delims [] (userinfo u) ["@"%byte] ++ h ++
              with_delims [":"%byte] digits []
  | None => []
  end ++
  p ++ with_delims ["?"%byte] (query u) [] ++ with_delims ["#"%byte] (fragment u) [].

Record rfc3986 (s : list byte) (flags : Z) (u : evhttp_uri) (digits : option (list byte)) (p : list byte) : Prop := {
  g_text : s = recomposed u digits p;
  g_scheme : optional is_scheme (scheme u);
  g_userinfo : optional (encoded colon_char) (userinfo u);
  g_host : optional is_host (host u);
  g_port : is_port digits (port u);
  g_path : is_path flags p;
  g_query : optional (is_query flags) (query u);
  g_fragment : optional (is_fragment flags) (fragment u);
  g_authority : match host u with
                | Some _ => p = [] \/ exists t, p = "/"%byte :: t
                | None => userinfo u = None /\ digits = None /\ forall t, p <> "/"%byte :: "/"%byte :: t
                end;
  g_relative : scheme u = None -> ":"%byte ∉ first_segment p;
  g_stored : path u = Some p /\ uri_flags u = flags
}.

(** ** The characters of the code are those of the RFC *)

Definition printable (P : byte -> bool) (c : byte) : bool := bool_decide (c = x00) || P c.

Lemma alpha_char c : EVUTIL_ISALPHA_ c = true -> alpha c = true.
Proof. apply implies_spec. vm_compute. reflexivity. Qed.

Lemma digit_char c : EVUTIL_ISDIGIT_ c = true -> digit c = true.
Proof. apply implies_spec. vm_compute. reflexivity. Qed.

Lemma hexdig_char c : EVUTIL_ISXDIGIT_ c = true -> hexdig c = true.
Proof. apply implies_spec. vm_compute. reflexivity. Qed.

Lemma scheme_char_rfc c :
  scheme_char c = true -> scheme_tail_char c = true.
Proof. apply implies_spec. vm_compute. reflexivity. Qed.

Lemma info_char_rfc c : info_char c = true -> printable colon_char c = true.
Proof. apply implies_spec. vm_compute. reflexivity. Qed.

Lemma name_char_rfc c : name_char c = true -> printable regname_char c = true.
Proof. apply implies_spec. vm_compute. reflexivity. Qed.

Lemma ipvfuture_char_rfc c : ipvfuture_char c = true -> printable colon_char c = true.
Proof. apply implies_spec. vm_compute. reflexivity. Qed.

Lemma path_char_rfc c : path_char c = true -> printable pchar_slash c = true.
Proof. apply implies_spec. vm_compute. reflexivity. Qed.

Lemma path_char_query c : path_char c = true -> printable query_fragment_char c = true.
Proof. apply implies_spec. vm_compute. reflexivity. Qed.

(** The strings of the program end at their first NUL. *)
Lemma printable_in P (s : list byte) c : x00 ∉ s -> c ∈ s -> printable P c = true -> P c = true.
Proof.
  intros Hn Hc H. unfold printable in H. apply orb_true_iff in H as [H|H]; [|done].
  apply bool_decide_eq_true in H. by subst c.
Qed.

(** ** The parts the parser finds *)

Lemma scheme_rfc s : scheme_ok s = true -> is_scheme s.
Proof.
  destruct s as [|c t]; [done|]. simpl. intros H. zb. exists c, t. split; [done|].
  split; [by apply alpha_char|]. apply Forall_forall. intros d Hd. apply scheme_char_rfc.
  rewrite forallb_forall in H0. by apply H0, list_elem_of_In.
Qed.

Lemma no_nul_cons c (s : list byte) : x00 ∉ c :: s -> c <> x00 /\ x00 ∉ s.
Proof. rewrite not_elem_of_cons. intros [H1 H2]. split; [congruence|done]. Qed.

Lemma printable_head P c (s : list byte) : x00 ∉ c :: s -> printable P c = true -> P c = true.
Proof. intros Hn. apply (printable_in P (c :: s)); [done|]. rewrite elem_of_cons. by left. Qed.

Lemma octet_rfc P a b s :
  EVUTIL_ISXDIGIT_ a = true -> EVUTIL_ISXDIGIT_ b = true -> encoded P s -> encoded P (PERCENT :: a :: b :: s).
Proof. intros Ha Hb. by apply enc_octet; apply hexdig_char. Qed.

Lemma userinfo_rfc s : x00 ∉ s -> userinfo_ok s = true -> encoded colon_char s.
Proof.
  induction s as [|c t IHt IHt'] using triple_ind; [constructor|]. intros Hn. pose proof (no_nul_cons _ _ Hn) as [_ Ht].
  cbn [userinfo_ok]. fold (info_char c). destruct (info_char c) eqn:Ec.
  - intros H. constructor; [|by apply IHt]. by apply (printable_head _ c t), info_char_rfc.
  - destruct t as [|a [|b t]]; [done..|]. intros H. ub. subst c. apply octet_rfc; [done..|].
    apply (IHt' a b t); [done| |done]. by apply no_nul_cons in Ht as [_ [_ ?]%no_nul_cons].
Qed.

Lemma regname_rfc s : x00 ∉ s -> regname_ok s [] = true -> encoded regname_char s.
Proof.
  induction s as [|c t IHt IHt'] using triple_ind; [constructor|]. intros Hn. pose proof (no_nul_cons _ _ Hn) as [_ Ht].
  cbn [regname_ok]. fold (name_char c). destruct (name_char c) eqn:Ec.
  - intros H. constructor; [|by apply IHt]. by apply (printable_head _ c t), name_char_rfc.
  - destruct t as [|a [|b t]]; simpl; rewrite ?andb_false_r; [done..|]. intros H. ub. subst c. apply octet_rfc; [done..|].
    apply (IHt' a b t); [done| |done]. by apply no_nul_cons in Ht as [_ [_ ?]%no_nul_cons].
Qed.

Lemma forallb_rfc (P Q : byte -> bool) s :
  x00 ∉ s -> (forall c, P c = true -> printable Q c = true) -> forallb P s = true ->
  Forall (fun c => Q c = true) s.
Proof.
  intros Hn HPQ H. rewrite forallb_forall in H. apply Forall_forall. intros c Hc.
  apply (printable_in Q s c); [done|done|]. by apply HPQ, H, list_elem_of_In.
Qed.

Lemma not_nul_app (a b : list byte) : x00 ∉ a ++ b -> x00 ∉ a /\ x00 ∉ b.
Proof. rewrite elem_of_app. tauto. Qed.

Lemma ipvfuture_rfc s :
  x00 ∉ s -> ipvfuture_ok s = true -> is_ipvfuture ("v"%byte :: s).
Proof.
  intros Hn H. unfold ipvfuture_ok in H. destruct (span EVUTIL_ISXDIGIT_ s) as [h r] eqn:E.
  apply span_spec in E as (-> & Hh & _). destruct (not_nul_app _ _ Hn) as [Hnh Hnr].
  destruct r as [|c t]; [by rewrite andb_false_r in H|].
  rewrite !andb_true_iff in H. destruct H as (H & Hc & H0). apply bool_decide_eq_true in Hc. subst c.
  apply no_nul_cons in Hnr as [_ Hnt]. exists h, t. split; [done|]. split; [|split].
  - intros ->. by vm_compute in H.
  - eapply forallb_rfc; [done| |exact Hh]. intros c Hc. apply orb_true_iff. right. by apply hexdig_char.
  - eapply forallb_rfc; [done| |exact H0]. apply ipvfuture_char_rfc.
Qed.

(** The text between the brackets. *)
Lemma bracket_text s :
  next_char s = LBRACKET -> last s = Some RBRACKET -> 3 <= zlen s ->
  exists c a, s = "["%byte :: (c :: a) ++ ["]"%byte].
Proof.
  intros Hf Hl Hz. destruct s as [|x s]; [done|]. simpl in Hf. subst x.
  apply last_Some in Hl as [l Hl]. destruct l as [|y l]; [by simplify_eq/=|].
  injection Hl as <- ->. destruct l as [|c a]; [by vm_compute in Hz|]. by exists c, a.
Qed.

Lemma zlen_brackets (c : byte) a : zlen ("["%byte :: (c :: a) ++ ["]"%byte]) - 2 = zlen (c :: a).
Proof. unfold zlen. simpl. rewrite length_app. simpl. lia. Qed.

Lemma bracket_rfc s r :
  x00 ∉ s -> bracket_addr_ok s = Done r -> r <> 0 -> is_host s.
Proof.
  intros Hn. unfold bracket_addr_ok. destruct (_ || _) eqn:E; [intros [= <-]; done|]. ub.
  destruct (bracket_text s) as (c & a & ->); [done|done|lia|]. cbn [next_char tail].
  apply no_nul_cons in Hn as [_ Hn]. apply not_nul_app in Hn as [Hn _].
  rewrite zlen_brackets. change ("["%byte :: (c :: a) ++ ["]"%byte]) with ("["%byte :: c :: a ++ ["]"%byte]).
  case_bool_decide as Hv.
  - simpl in Hv. subst c. intros [= <-] Hr. apply (host_literal ("v"%byte :: a)). left. apply ipvfuture_rfc; [by apply no_nul_cons in Hn as [_ ?]|].
    replace (removelast (zdrop 2 ("["%byte :: "v"%byte :: a ++ ["]"%byte]))) with a in Hr.
    + by destruct (ipvfuture_ok a).
    + symmetry. change (zdrop 2 ("["%byte :: "v"%byte :: a ++ ["]"%byte])) with (a ++ ["]"%byte]).
      apply removelast_last.
  - destruct (64 <=? zlen (c :: a)) eqn:E64; [intros [= <-]; done|]. zb.
    rewrite ztake_app_le, ztake_all by done.
    destruct (evutil_inet_pton AF_INET6 (c :: a)) as [[r' out]|] eqn:Ep; [|done]. cbn [mbind outcome_bind].
    destruct (r' =? 1) eqn:E1; intros [= <-] Hr; [|done]. zb. subst r'. apply (host_literal (c :: a)). right.
    split; [lia|eauto].
Qed.

Lemma host_rfc info h : x00 ∉ h -> host_ok info h -> is_host h.
Proof.
  intros Hn (_ & _ & H). destruct (in_brackets h).
  - destruct H as (r & Hr & H0). by eapply bracket_rfc.
  - by apply host_name, regname_rfc.
Qed.

(** *** The port *)

Lemma port_value d v :
  forallb EVUTIL_ISDIGIT_ d = true -> 0 <= v -> 0 <= parse_port_from d v ->
  parse_port_from d v = fold_left (fun n c => 10 * n + (byteZ c - 48)) d v.
Proof.
  revert v. induction d as [|c d IH]; intros v Hd Hv; cbn [parse_port_from fold_left]; [done|].
  simpl in Hd. zb. rewrite H. cbn [negb]. pose proof (digit_value_nonneg c H). unfold digit_value in *.
  repeat (case_test; [lia|]). zb. intros Hp. rewrite IH by (done || lia). f_equal. lia.
Qed.

Lemma split_port_digits s h d : split_port s = (h, Some d) -> forallb EVUTIL_ISDIGIT_ d = true.
Proof.
  unfold split_port. destruct (span EVUTIL_ISDIGIT_ (rev s)) as [digits before] eqn:E.
  apply span_spec in E as (_ & Hd & _). destruct before as [|c before]; [done|].
  case_bool_decide; intros [= <- <-]. apply forallb_forall. intros c' Hc. rewrite forallb_forall in Hd.
  apply Hd. by rewrite in_rev.
Qed.

(** *** The parts after the authority *)

Lemma conformant_rfc part s (Q : byte -> bool) :
  x00 ∉ s -> (forall c, path_char c = true -> printable Q c = true) ->
  (forall c, query_char part c = true -> Q c = true) ->
  snd (end_of_path_conformant s part) = [] -> encoded Q s.
Proof.
  intros Hn Hp Hq. revert Hn. induction s as [|c t IHt IHt'] using triple_ind; [constructor|].
  intros Hn. pose proof (no_nul_cons _ _ Hn) as [_ Ht]. cbn [end_of_path_conformant].
  destruct (path_char c) eqn:Ec.
  { destruct (end_of_path_conformant t part) as [p r] eqn:E. simpl. intros ->.
    apply enc_char; [by apply (printable_head _ c t), Hp|by apply IHt]. }
  set (other := if query_char part c then _ else _).
  assert (snd other = [] -> encoded Q (c :: t)) as Hother.
  { unfold other. destruct (query_char part c) eqn:Eq; [|done].
    destruct (end_of_path_conformant t part) as [p r] eqn:E. simpl. intros ->.
    apply enc_char; [by apply Hq|by apply IHt]. }
  destruct t as [|a [|b t]]; [exact Hother..|].
  destruct (bool_decide (c = PERCENT) && EVUTIL_ISXDIGIT_ a && EVUTIL_ISXDIGIT_ b) eqn:E3; [|exact Hother].
  ub. subst c. destruct (end_of_path_conformant t part) as [p r] eqn:E. simpl. intros ->.
  apply octet_rfc; [done..|]. apply (IHt' a b t); [done| |by rewrite E].
  by apply no_nul_cons in Ht as [_ [_ ?]%no_nul_cons].
Qed.

Lemma loose_flags flags : has flags EVHTTP_URI_NONCONFORMANT = loose flags.
Proof. unfold loose. change EVHTTP_URI_NONCONFORMANT with (2 ^ 0). by apply has_bit. Qed.

Lemma loose_absent part s (d : byte) :
  snd (span (loose_char part) s) = [] -> loose_char part d = false -> d ∉ s.
Proof.
  destruct (span (loose_char part) s) as [a b] eqn:E. apply span_spec in E as (-> & Ha & _). simpl. intros -> Hd.
  rewrite app_nil_r. intros Hin. rewrite forallb_forall in Ha. apply list_elem_of_In, Ha in Hin. congruence.
Qed.

Lemma path_rfc flags p : x00 ∉ p -> UriSpec.is_part PART_PATH flags p -> is_path flags p.
Proof.
  unfold UriSpec.is_part, end_of_path, is_path. rewrite loose_flags. destruct (loose flags); intros Hn H.
  - split; by apply (loose_absent PART_PATH).
  - eapply (conformant_rfc PART_PATH); [done|apply path_char_rfc| |done].
    intros c Hc. unfold query_char in Hc. by rewrite andb_false_r in Hc.
Qed.

Lemma query_char_rfc part c : query_char part c = true -> query_fragment_char c = true.
Proof.
  unfold query_char. intros [Hc _]%andb_true_iff. apply bool_decide_eq_true in Hc. subst c. done.
Qed.

Lemma query_rfc flags q : x00 ∉ q -> UriSpec.is_part PART_QUERY flags q -> is_query flags q.
Proof.
  unfold UriSpec.is_part, end_of_path, is_query. rewrite loose_flags. destruct (loose flags); intros Hn H.
  - by apply (loose_absent PART_QUERY).
  - eapply (conformant_rfc PART_QUERY); [done|apply path_char_query|apply query_char_rfc|done].
Qed.

Lemma fragment_rfc flags f : x00 ∉ f -> UriSpec.is_part PART_FRAGMENT flags f -> is_fragment flags f.
Proof.
  unfold UriSpec.is_part, end_of_path, is_fragment. rewrite loose_flags. destruct (loose flags); intros Hn H; [done|].
  eapply (conformant_rfc PART_FRAGMENT); [done|apply path_char_query|apply query_char_rfc|done].
Qed.

Lemma noscheme_segment p : path_matches_noscheme p = true -> ":"%byte ∉ first_segment p.
Proof.
  unfold first_segment. induction p as [|c p IH]; cbn [path_matches_noscheme strchr]; [intros _; apply not_elem_of_nil|].
  case_bool_decide as Hc; [done|]. case_bool_decide as Hs.
  - intros _. rewrite bool_decide_eq_true_2 by done. apply not_elem_of_nil.
  - intros H%IH. rewrite bool_decide_eq_false_2 by done.
    destruct (strchr "/"%byte p) as [[a b]|]; rewrite not_elem_of_cons; split; try done; congruence.
Qed.

(** *** The text is the recomposition of its parts *)

Lemma scheme_text s sch r : parse_scheme s = (sch, r) -> s = with_delims [] sch [":"%byte] ++ r.
Proof.
  unfold parse_scheme. destruct (strchr COLON s) as [[a b]|] eqn:E; [|by intros [= <- <-]].
  destruct (scheme_ok a); intros [= <- <-]; [|done]. apply strchr_Some in E as [-> _]. simpl.
  by rewrite <- app_assoc.
Qed.

Lemma authority_text s rest info h p :
  parse_authority s rest = Done (Some (info, h, p)) ->
  exists d, s = with_delims [] info ["@"%byte] ++ h ++ with_delims [":"%byte] d [] /\ is_port d p.
Proof.
  unfold parse_authority. case_bool_decide as Hnil; [intros [= <- <- <-]; by exists None|].
  set (ic := match strchr AT s with Some (u, cp) => (Some u, cp) | None => (None, s) end).
  assert (exists info' cp, ic = (info', cp) /\ s = with_delims [] info' ["@"%byte] ++ cp) as (info' & cp & -> & ->).
  { unfold ic. destruct (strchr AT s) as [[u cp]|] eqn:E; [|by exists None, s].
    apply strchr_Some in E as [-> _]. exists (Some u), cp. split; [done|]. simpl. by rewrite <- app_assoc. }
  destruct (match info' with Some u => _ | None => _ end); [done|].
  destruct (split_port cp) as [h' d] eqn:Ed. pose proof (split_port_spec _ _ _ Ed) as ->.
  assert (forall p', is_port d p' ->
    (if bool_decide (next_char h' = LBRACKET) && (2 <=? zlen h') && bool_decide (last h' = Some RBRACKET)
     then ok ← bracket_addr_ok h'; Done (if ok =? 0 then None else Some (info', h', p'))
     else Done (if regname_ok h' (match d with Some d => COLON :: d ++ rest | None => rest end)
                then Some (info', h', p') else None)) = Done (Some (info, h, p)) ->
    exists d0, with_delims [] info' ["@"%byte] ++ h' ++ port_text d =
      with_delims [] info ["@"%byte] ++ h ++ with_delims [":"%byte] d0 [] /\ is_port d0 p) as Hdone.
  { intros p' Hp H. exists d. assert ((info', h', p') = (info, h, p)) as [= -> -> ->].
    { destruct (_ && _); [destruct (bracket_addr_ok h') as [ok|]; [|done]; cbn [mbind outcome_bind] in H;
        destruct (ok =? 0)|destruct (regname_ok _ _)]; congruence. }
    split; [|done]. destruct d; [|done]. simpl. by rewrite app_nil_r. }
  destruct d as [[|c d]|]; [by apply Hdone| |by apply Hdone].
  destruct (parse_port (c :: d) <? 0) eqn:Ep; [done|]. zb. apply Hdone.
  pose proof (split_port_digits _ _ _ Ed) as Hd. pose proof (parse_port_range (c :: d) 0 ltac:(lia)).
  split; [|split; [by apply port_value|unfold parse_port in *; lia]].
  apply Forall_forall. intros x Hx. apply digit_char. rewrite forallb_forall in Hd. by apply Hd, list_elem_of_In.
Qed.

Lemma two_slashes_text s : two_slashes s = true -> s = "/"%byte :: "/"%byte :: zdrop 2 s.
Proof.
  unfold two_slashes. intros H. ub. destruct s as [|a [|b s]]; simpl in *; [done..|]. by subst.
Qed.

Lemma hier_text r o p :
  parse_hier r = Done (Some (o, p)) ->
  match o with
  | Some (info, h, prt) => exists d,
      r = ["/"%byte; "/"%byte] ++ with_delims [] info ["@"%byte] ++ h ++ with_delims [":"%byte] d [] ++ p /\
      is_port d prt
  | None => r = p
  end.
Proof.
  unfold parse_hier. destruct (two_slashes r) eqn:E2; [|by intros [= <- <-]].
  destruct (end_of_authority (zdrop 2 r)) as [authority p'] eqn:E. apply span_spec in E as (E & _ & _).
  destruct (parse_authority authority p') as [[[[info h] prt]|]|] eqn:Ep; [|done..].
  cbn [mbind outcome_bind]. intros [= <- <-]. apply authority_text in Ep as (d & -> & Hd).
  exists d. split; [|done]. rewrite (two_slashes_text r E2), E. simpl. by rewrite <- !app_assoc.
Qed.

Lemma head_text (c : byte) l : c <> x00 -> next_char l = c -> l = c :: tail l.
Proof. intros Hc H. destruct l as [|d l]; simpl in *; [congruence|by subst]. Qed.

Lemma tail_text_rfc p flags pth q f r :
  parse_tail p flags = (pth, q, f, r) ->
  p = pth ++ with_delims ["?"%byte] q [] ++ with_delims ["#"%byte] f [] ++ r.
Proof.
  unfold parse_tail. destruct (end_of_path p PART_PATH flags) as [pth' r1] eqn:E1. apply end_of_path_spec in E1 as [-> _].
  set (qr := if bool_decide (next_char r1 = QMARK) then _ else _).
  assert (exists q' r2, qr = (q', r2) /\ r1 = with_delims ["?"%byte] q' [] ++ r2) as (q' & r2 & -> & ->).
  { unfold qr. case_bool_decide as Hq; [|by exists None, r1].
    destruct (end_of_path (tail r1) PART_QUERY flags) as [q' r2] eqn:E2. apply end_of_path_spec in E2 as [E2 _].
    exists (Some q'), r2. split; [done|]. rewrite (head_text QMARK r1), E2 by done. simpl. by rewrite app_nil_r. }
  case_bool_decide as Hh; [|by intros [= <- <- <- <-]].
  destruct (end_of_path (tail r2) PART_FRAGMENT flags) as [f' r3] eqn:E3. apply end_of_path_spec in E3 as [E3 _].
  intros [= <- <- <- <-]. rewrite (head_text HASH r2), E3 by done. simpl. by rewrite app_nil_r.
Qed.

Lemma recomposed_no_nul u d p :
  x00 ∉ recomposed u d p ->
  match host u with Some h => optional (fun i => x00 ∉ i) (userinfo u) /\ x00 ∉ h | None => True end /\
  x00 ∉ p /\ optional (fun q => x00 ∉ q) (query u) /\ optional (fun f => x00 ∉ f) (fragment u).
Proof.
  unfold recomposed. rewrite !not_elem_of_app. intros (_ & Hh & Hp & Hq & Hf). split_and!; [|done| |].
  - destruct (host u) as [h|]; [|done]. rewrite !not_elem_of_app in Hh. destruct Hh as (_ & Hi & Hh & _).
    split; [|done]. destruct (userinfo u); [|done]. simpl in *. rewrite not_elem_of_app in Hi. tauto.
  - destruct (query u); [|done]. simpl in *. rewrite app_nil_r, not_elem_of_cons in Hq. tauto.
  - destruct (fragment u); [|done]. simpl in *. rewrite app_nil_r, not_elem_of_cons in Hf. tauto.
Qed.

Lemma parse_rfc s flags u :
  x00 ∉ s -> evhttp_uri_parse_with_flags s flags = Done (Some u) -> exists digits p, rfc3986 s flags u digits p.
Proof.
  intros Hnul Hparse. destruct (parse_ok s flags u Hparse) as [[U1 U2 U3 U4 (p & Hp & Hpp & Hph & Hps) U6 U7] Hfl].
  assert (exists d, s = recomposed u d p /\ is_port d (port u) /\ (host u = None -> d = None)) as (d & Hs & Hd & Hnone).
  { revert Hparse. unfold evhttp_uri_parse_with_flags, recomposed.
    destruct (parse_scheme s) as [sch readp] eqn:Es. apply scheme_text in Es as ->.
    destruct (parse_hier readp) as [[[o p']|]|] eqn:Eh; [|done..]. apply hier_text in Eh. cbn [mbind outcome_bind].
    destruct (parse_tail p' flags) as [[[pth q] f] r] eqn:Et. apply tail_text_rfc in Et.
    destruct (bool_decide (r = [])) eqn:Er; [|done]. ub. subst r. cbn [negb].
    refuse Ea. refuse Eb. refuse Ec. clear Ea Eb Ec U1 U2 U3 U4 U6 U7 Hpp Hph Hps.
    destruct o as [[[info h] prt]|]; intros [= <-]; simpl in *; simplify_eq.
    - destruct Eh as (d & -> & Hd). exists d. split; [|done]. rewrite app_nil_r. by rewrite <- !app_assoc.
    - exists None. split; [|done]. by rewrite app_nil_r. }
  rewrite Hs in Hnul. destruct (recomposed_no_nul _ _ _ Hnul) as (N1 & N2 & N3 & N4).
  exists d, p. constructor; try done.
  - destruct (scheme u); [by apply scheme_rfc|done].
  - destruct (host u) as [h|]; [|by destruct U3 as [-> _]]. destruct N1 as [N1 _].
    destruct (userinfo u); [by apply userinfo_rfc|done].
  - destruct (host u) as [h|]; [|done]. apply (host_rfc (userinfo u)); [by destruct N1|done].
  - rewrite <- Hfl. by apply path_rfc.
  - rewrite <- Hfl. destruct (query u); [by apply query_rfc|done].
  - rewrite <- Hfl. destruct (fragment u); [by apply fragment_rfc|done].
  - destruct (host u) as [h|].
    + destruct Hph as [?|Hsl]; [by left|right]. exists (tail p). by apply head_text.
    + destruct U3 as [-> _]. split; [done|]. split; [by apply Hnone|]. intros t ->. done.
  - intros Hn. by apply noscheme_segment, Hps.
Qed.

(** ** The theorem *)

(** C21: for every string (no NUL inside) and flags the parser returns; when it
    returns a URI, the string is the RFC 3986 recomposition of its parts -
    scheme, user information, host, digits of the port, path, query and
    fragment, each behind its delimiter - every part is made by its production
    of the grammar ([rfc3986]), the port is the decimal value of its digits and
    at most 65535, and the path fits what stands before it. *)
Theorem uri_parse_well_formed s flags :
  x00 ∉ s ->
  exists r, evhttp_uri_parse_with_flags s flags = Done r /\
    match r with Some u => exists digits p, rfc3986 s flags u digits p | None => True end.
Proof.
  intros Hn. destruct (parse_total s flags) as [r Hr]. exists r. split; [done|].
  destruct r as [u|]; [by apply parse_rfc|done].
Qed.

Lemma uri_parse_well_formed_witness :
  exists digits p, rfc3986 example_text 0 example_uri digits p.
Proof.
  destruct (uri_parse_well_formed example_text 0) as (r & Hr & H).
  - apply (bool_decide_eq_true_1 (x00 ∉ example_text)). vm_compute. reflexivity.
  - vm_compute in Hr. injection Hr as <-. exact H.
Defined.
