(* ===== verification/HttpHost.v ===== *)
(** * Virtual hosts

    Models the choice of a server for a host name in [libevent/http.c]:
    [prefix_suffix_match], [evhttp_find_alias] and [evhttp_find_vhost], with the
    fields of [struct evhttp] they use, and [evhttp_dispatch_callback] on the
    list of paths.

    The pattern notation of the shell is stated with question marks, bracket
    expressions and backslashes; a pattern with none of them is shown to match as
    a shell pattern, without regard to case, unless it ends with a star, and the
    patterns where the code differs are characterised. *)

From S2P Require Import Prelude Ctype HttpText Inet.

(** A server: its pattern as a virtual host, its aliases, the paths it has
    callbacks for and its virtual hosts. *)
Inductive evhttp :=
| mkHttp (vhost_pattern : list byte) (aliases callbacks : list (list byte)) (virtualhosts : list evhttp).

Definition vhost_pattern (h : evhttp) : list byte := let 'mkHttp p _ _ _ := h in p.
Definition callbacks (h : evhttp) : list (list byte) := let 'mkHttp _ _ c _ := h in c.

Definition STAR : byte := "*"%byte.

(** The strings end with their NUL. *)
Fixpoint prefix_suffix_match (pattern name : list byte) (ignorecase : bool) : bool :=
  match pattern with
  | [] => bool_decide (name = [])
  | c :: pattern =>
      if bool_decide (c = STAR) then
        (fix stars (name : list byte) : bool :=
           match name with
           | [] => false
           | _ :: t => prefix_suffix_match pattern name ignorecase || stars t
           end) name
      else if negb (bool_decide (c = next_char name)) &&
              (negb ignorecase || negb (bool_decide (EVUTIL_TOLOWER_ c = EVUTIL_TOLOWER_ (next_char name))))
      then false
      else prefix_suffix_match pattern (tail name) ignorecase
  end.

Definition same_host (a b : list byte) : bool := evutil_ascii_strcasecmp a b =? 0.

(** The server whose alias matches, in the order of the search. *)
Fixpoint evhttp_find_alias (http : evhttp) (hostname : list byte) : option evhttp :=
  let 'mkHttp _ aliases _ virtualhosts := http in
  if existsb (fun a => same_host a hostname) aliases then Some http
  else (fix each (vs : list evhttp) : option evhttp :=
          match vs with
          | [] => None
          | v :: vs => match evhttp_find_alias v hostname with
                       | Some h => Some h
                       | None => each vs
                       end
          end) virtualhosts.

(** The loop that descends: the server and whether a pattern matched. *)
Fixpoint descend (http : evhttp) (hostname : list byte) : evhttp * bool :=
  let 'mkHttp _ _ _ virtualhosts := http in
  (fix each (vs : list evhttp) : evhttp * bool :=
     match vs with
     | [] => (http, false)
     | v :: vs =>
         if prefix_suffix_match (vhost_pattern v) hostname true
         then (fst (descend v hostname), true) else each vs
     end) virtualhosts.

(** The result and [*outhttp]. *)
Definition evhttp_find_vhost (http : evhttp) (hostname : list byte) : bool * evhttp :=
  match evhttp_find_alias http hostname with
  | Some h => (true, h)
  | None => let '(h, found) := descend http hostname in (found, h)
  end.

(** The callback for a path: its [what]. *)
Definition evhttp_dispatch_callback (cbs : list (list byte)) (path : list byte) : outcome (option (list byte)) :=
  translated ← evhttp_decode_uri_internal path 0;
  Done (find (fun what => bool_decide (what = cstr translated)) cbs).

(** ** Matching without case *)

Definition lower (s : list byte) : list byte := EVUTIL_TOLOWER_ <$> s.

Definition lower_nul_only (c : byte) : bool :=
  implb (bool_decide (EVUTIL_TOLOWER_ c = x00)) (bool_decide (c = x00)).

Lemma lower_nul c : EVUTIL_TOLOWER_ c = x00 -> c = x00.
Proof.
  pose proof (byte_forall lower_nul_only ltac:(vm_compute; reflexivity) c) as H. unfold lower_nul_only in H.
  intros E. rewrite E in H.
  rewrite bool_decide_eq_true_2 in H by done. by apply bool_decide_eq_true in H.
Qed.

Lemma char_value_inj a b : char_value a = char_value b -> a = b.
Proof.
  unfold char_value. intros H. pose proof (byteZ_range a). pose proof (byteZ_range b).
  rewrite <- (Zbyte_byteZ a), <- (Zbyte_byteZ b). f_equal.
  destruct (byteZ a <? 128) eqn:Ea, (byteZ b <? 128) eqn:Eb; zb; lia.
Qed.

(** [evutil_ascii_strcasecmp] returns 0 for the strings that are equal in lower
    case. *)
Lemma strcasecmp_lower a b :
  x00 ∉ a -> x00 ∉ b -> evutil_ascii_strcasecmp a b = 0 <-> lower a = lower b.
Proof.
  revert b. induction a as [|c a IH]; intros b Ha Hb; cbn [evutil_ascii_strcasecmp].
  - destruct b as [|d b]; [split; [done|reflexivity]|]. simpl. apply not_elem_of_cons in Hb as [Hd _].
    split; [|done]. repeat case_test; zb; [lia|lia|]. intros _. exfalso. apply Hd. symmetry. apply lower_nul.
    transitivity (EVUTIL_TOLOWER_ x00); [|done]. apply char_value_inj. simpl in *. lia.
  - apply not_elem_of_cons in Ha as [Hc Ha]. destruct b as [|d b]; simpl.
    + split; [|done]. repeat case_test; zb; [lia|lia|]. intros _. exfalso. apply Hc. symmetry. apply lower_nul.
      transitivity (EVUTIL_TOLOWER_ x00); [|done]. apply char_value_inj. simpl in *. lia.
    + apply not_elem_of_cons in Hb as [Hd Hb]. specialize (IH b Ha Hb).
      split.
      * repeat case_test; zb; [lia|lia|]. intros H%IH. unfold lower in *. cbn [fmap list_fmap]. rewrite H. f_equal.
        apply char_value_inj. lia.
      * unfold lower. cbn [fmap list_fmap]. intros [= -> H]. rewrite Z.ltb_irrefl. by apply IH.
Qed.

Lemma same_host_spec a b : x00 ∉ a -> x00 ∉ b -> same_host a b = true <-> lower a = lower b.
Proof. intros Ha Hb. unfold same_host. rewrite Z.eqb_eq. by apply strcasecmp_lower. Qed.

(** ** Shell matching

    The pattern notation of the shell (POSIX, XCU 2.13), without regard to case:
    a star is for any characters, a question mark for any one character, a
    bracket expression for one character that it lists or, after an exclamation
    mark, does not list, and a character after a backslash for itself. *)

Definition QUESTION : byte := "?"%byte.
Definition BACKSLASH : byte := "\"%byte.

Definition same_letter (c d : byte) : Prop := EVUTIL_TOLOWER_ c = EVUTIL_TOLOWER_ d.

(** The items of a bracket expression: characters and ranges. *)
Inductive listed : list byte -> byte -> Prop :=
| listed_one c items d : same_letter c d -> listed (c :: items) d
| listed_range a b items d e :
    same_letter e d -> byteZ a <= byteZ e <= byteZ b -> listed (a :: MINUS :: b :: items) d
| listed_later c items d : listed items d -> listed (c :: items) d
| listed_after a b items d : listed items d -> listed (a :: MINUS :: b :: items) d.

(** The first item may be a bracket. *)
Definition bracket_items (items : list byte) : Prop := items <> [] /\ RBRACKET ∉ tail items.

Inductive shell_match : list byte -> list byte -> Prop :=
| shell_end : shell_match [] []
| shell_char c d p n :
    c ∉ [STAR; QUESTION; LBRACKET; BACKSLASH] -> same_letter c d -> shell_match p n ->
    shell_match (c :: p) (d :: n)
| shell_quoted c d p n : same_letter c d -> shell_match p n -> shell_match (BACKSLASH :: c :: p) (d :: n)
| shell_any d p n : shell_match p n -> shell_match (QUESTION :: p) (d :: n)
| shell_star p m n : shell_match p n -> shell_match (STAR :: p) (m ++ n)
| shell_set items d p n :
    bracket_items items -> head items <> Some "!"%byte -> listed items d -> shell_match p n ->
    shell_match (LBRACKET :: items ++ RBRACKET :: p) (d :: n)
| shell_not_set items d p n :
    bracket_items items -> ~ listed items d -> shell_match p n ->
    shell_match (LBRACKET :: "!"%byte :: items ++ RBRACKET :: p) (d :: n)
| shell_open p n : RBRACKET ∉ p -> shell_match p n -> shell_match (LBRACKET :: p) (LBRACKET :: n).

(** The patterns without the characters that the code does not know. *)
Definition star_only (p : list byte) : Prop := QUESTION ∉ p /\ LBRACKET ∉ p /\ BACKSLASH ∉ p.

(** A star is for any characters, any other character for itself in either
    case. *)
Inductive glob : list byte -> list byte -> Prop :=
| glob_end : glob [] []
| glob_char c d p n : c <> STAR -> EVUTIL_TOLOWER_ c = EVUTIL_TOLOWER_ d -> glob p n -> glob (c :: p) (d :: n)
| glob_star p m n : glob p n -> glob (STAR :: p) (m ++ n).

(** The same, where a star leaves something of the name. *)
Inductive glob_short : list byte -> list byte -> Prop :=
| short_end : glob_short [] []
| short_char c d p n : c <> STAR -> EVUTIL_TOLOWER_ c = EVUTIL_TOLOWER_ d -> glob_short p n -> glob_short (c :: p) (d :: n)
| short_star p m n : n <> [] -> glob_short p n -> glob_short (STAR :: p) (m ++ n).

Lemma match_short p n : x00 ∉ p -> prefix_suffix_match p n true = true <-> glob_short p n.
Proof.
  revert n. induction p as [|c p IH]; intros n Hp; cbn [prefix_suffix_match].
  { rewrite bool_decide_eq_true. split; [intros ->; constructor|by inversion 1]. }
  apply not_elem_of_cons in Hp as [Hc Hp]. specialize (fun n => IH n Hp). case_bool_decide as Hs.
  - subst c. split.
    + induction n as [|d n IHn]; [done|]. intros [H|H]%orb_prop.
      * apply (short_star p [] (d :: n)); [done|by apply IH].
      * apply IHn in H. inversion H as [| |? m n' Hn' Hg]; subst; [done|]. by apply (short_star p (d :: m) n').
    + intros H. inversion H as [| |? m n' Hn' Hg]; subst; [done|]. apply IH in Hg. clear H. induction m as [|d m IHm].
      * destruct n' as [|d n']; [done|]. simpl. by rewrite Hg.
      * cbn [app]. rewrite IHm. apply orb_true_r.
  - cbn [negb orb]. destruct n as [|d n]; simpl.
    + split; [|by inversion 1]. case_bool_decide as E1; [congruence|]. case_bool_decide as E2; [|done].
      exfalso. apply Hc. symmetry. by apply lower_nul.
    + split.
      * intros H. constructor; [done| |].
        -- case_bool_decide as E1; [by subst|]. case_bool_decide as E2; done.
        -- apply IH. case_bool_decide as E1; [done|]. case_bool_decide as E2; done.
      * intros H. inversion H as [|? ? ? ? _ El Hg|]; subst; [|done]. apply IH in Hg.
        rewrite El, (bool_decide_eq_true_2 (EVUTIL_TOLOWER_ d = _)) by done. by rewrite andb_false_r.
Qed.

Lemma short_glob p n : glob_short p n -> glob p n.
Proof. induction 1; by constructor. Qed.

Definition ends_with_star (p : list byte) : Prop := last p = Some STAR.

Lemma glob_nonempty p n : p <> [] -> ~ ends_with_star p -> glob p n -> n <> [].
Proof.
  intros Hp Hl H. revert Hp Hl. induction H as [|c d p n _ _ _ _|p m n _ IH]; intros Hp Hl; [done|done|].
  intros [_ ->]%app_eq_nil. destruct p as [|c p]; [by apply Hl|]. apply IH; done.
Qed.

Lemma glob_is_short p n : ~ ends_with_star p -> glob p n -> glob_short p n.
Proof.
  intros Hl H. revert Hl. induction H as [|c d p n Hc Hd Hg IH|p m n Hg IH]; intros Hl; [constructor| |].
  - constructor; [done|done|]. destruct p as [|x p]; [inversion Hg; constructor|by apply IH].
  - assert (p <> []) as Hp by (intros ->; by apply Hl).
    assert (~ ends_with_star p) as Hl' by (intros H; apply Hl; unfold ends_with_star in *; destruct p; done).
    constructor; [by eapply glob_nonempty|by apply IH].
Qed.

Lemma star_last_short p n : ends_with_star p -> ~ glob_short p n.
Proof.
  intros Hl H. revert Hl. induction H as [|c d p n Hc _ Hg IH|p m n Hn Hg IH]; intros Hl; [done| |].
  - destruct p as [|x p]; [injection Hl as ->; done|by apply IH].
  - destruct p as [|x p]; [inversion Hg; by subst|by apply IH].
Qed.

Lemma star_only_tail c p : star_only (c :: p) -> star_only p.
Proof. unfold star_only. rewrite !not_elem_of_cons. tauto. Qed.

Lemma shell_glob p n : star_only p -> shell_match p n <-> glob p n.
Proof.
  intros Hp. split; intros H; revert Hp.
  - induction H as [|c d p n Hc Hd _ IH|c d p n _ _ _|d p n _ _|p m n _ IH|items d p n _ _ _ _ _|items d p n _ _ _ _|p n _ _ _];
      intros Hp; try (exfalso; destruct Hp as (Hq & Hb & Hs); first [apply Hq; apply list_elem_of_here|apply Hb; apply list_elem_of_here|apply Hs; apply list_elem_of_here]).
    + constructor.
    + constructor; [intros ->; apply Hc, list_elem_of_here|done|]. by eapply IH, star_only_tail.
    + constructor. by eapply IH, star_only_tail.
  - induction H as [|c d p n Hc Hd _ IH|p m n _ IH]; intros Hp.
    + constructor.
    + constructor; [|done|by eapply IH, star_only_tail]. destruct Hp as (Hq & Hb & Hs).
      rewrite not_elem_of_cons in Hq, Hb, Hs. rewrite !not_elem_of_cons. split_and!; try apply not_elem_of_nil; naive_solver.
    + constructor. by eapply IH, star_only_tail.
Qed.

(** A question mark, an opening bracket and a backslash stand for themselves. *)
Lemma special_literal c p n :
  c ∈ [QUESTION; LBRACKET; BACKSLASH] ->
  prefix_suffix_match (c :: p) n true = true <-> exists m, n = c :: m /\ prefix_suffix_match p m true = true.
Proof.
  intros Hc. assert (forall d, EVUTIL_TOLOWER_ c = EVUTIL_TOLOWER_ d -> c = d) as Hlow.
  { intros d. assert (forallb (fun c => forallb (fun d =>
      implb (bool_decide (EVUTIL_TOLOWER_ c = EVUTIL_TOLOWER_ d)) (bool_decide (c = d))) all_bytes)
      [QUESTION; LBRACKET; BACKSLASH] = true) as Hall by (vm_compute; reflexivity).
    rewrite forallb_forall in Hall. apply list_elem_of_In, Hall in Hc.
    pose proof (byte_forall _ Hc d) as Hd. cbv beta in Hd. intros H.
    rewrite bool_decide_eq_true_2 in Hd by done. simpl in Hd. by apply bool_decide_eq_true in Hd. }
  cbn [prefix_suffix_match]. rewrite bool_decide_eq_false_2.
  2: { intros ->. rewrite !elem_of_cons in Hc. by destruct Hc as [?|[?|[?|?%not_elem_of_nil]]]. }
  cbn [negb orb]. destruct n as [|d n]; simpl.
  - split; [|by intros (m & ? & _)]. rewrite !bool_decide_eq_false_2; [done| |].
    + intros H%Hlow. subst c. rewrite !elem_of_cons in Hc.
      by destruct Hc as [?|[?|[?|?%not_elem_of_nil]]].
    + intros ->. rewrite !elem_of_cons in Hc. by destruct Hc as [?|[?|[?|?%not_elem_of_nil]]].
  - split.
    + intros H. exists n. destruct (decide (c = d)) as [->|Hne]; [by rewrite bool_decide_eq_true_2 in H|].
      rewrite !bool_decide_eq_false_2 in H; [done| |done]. by intros ?%Hlow.
    + intros (m & [= -> ->] & H). by rewrite bool_decide_eq_true_2.
Qed.

(** C27: a pattern made of stars and of characters without meaning to the shell
    (no question mark, bracket or backslash) that does not end with a star matches
    a host name exactly when it matches as a shell pattern, without regard to
    case.  Otherwise the code leaves the shell's rules: a pattern that ends with a
    star matches no name at all, and a question mark, an opening bracket or a
    backslash matches only itself. *)
Theorem vhost_match_is_glob p n :
  x00 ∉ p ->
  (star_only p -> ~ ends_with_star p -> prefix_suffix_match p n true = true <-> shell_match p n) /\
  (ends_with_star p -> prefix_suffix_match p n true = false) /\
  (forall c q, p = c :: q -> c ∈ [QUESTION; LBRACKET; BACKSLASH] ->
     prefix_suffix_match p n true = true <-> exists m, n = c :: m /\ prefix_suffix_match q m true = true).
Proof.
  intros Hp. split_and!.
  - intros Hs Hl. rewrite shell_glob, match_short by done. split; [apply short_glob|by apply glob_is_short].
  - intros Hl. apply not_true_is_false. rewrite match_short by done. by apply star_last_short.
  - intros c q ->. apply special_literal.
Qed.

(** A pattern the shell would match with a question mark or a bracket
    expression does not match. *)
Theorem vhost_no_question_mark :
  (shell_match (bytes_of "w?w.example.com") (bytes_of "www.example.com") /\
   prefix_suffix_match (bytes_of "w?w.example.com") (bytes_of "www.example.com") true = false) /\
  (shell_match (bytes_of "[a-z]b") (bytes_of "xb") /\
   prefix_suffix_match (bytes_of "[a-z]b") (bytes_of "xb") true = false).
Proof.
  assert (forall c, bool_decide (c ∈ [STAR; QUESTION; LBRACKET; BACKSLASH]) = false ->
    c ∉ [STAR; QUESTION; LBRACKET; BACKSLASH]) as Hplain by (intros c; apply bool_decide_eq_false_1).
  split; (split; [|vm_compute; reflexivity]).
  - repeat first [ apply shell_end | apply shell_any
                 | apply shell_char; [apply Hplain; vm_compute; reflexivity|reflexivity|] ].
  - apply (shell_set (bytes_of "a-z")); [split; [done|]|done| |].
    + apply (bool_decide_eq_false_1 (RBRACKET ∈ tail (bytes_of "a-z"))). vm_compute. reflexivity.
    + apply (listed_range _ _ _ _ "x"%byte); [reflexivity|vm_compute; by split].
    + apply shell_char; [apply Hplain; vm_compute; reflexivity|reflexivity|apply shell_end].
Qed.

Example vhost_match_is_glob_witness :
  let p := bytes_of "*.Example.com" in let n := bytes_of "www.example.COM" in
  (star_only p -> ~ ends_with_star p -> prefix_suffix_match p n true = true <-> shell_match p n) /\
  (ends_with_star p -> prefix_suffix_match p n true = false) /\
  (forall c q, p = c :: q -> c ∈ [QUESTION; LBRACKET; BACKSLASH] ->
     prefix_suffix_match p n true = true <-> exists m, n = c :: m /\ prefix_suffix_match q m true = true).
Proof.
  apply (vhost_match_is_glob (bytes_of "*.Example.com") (bytes_of "www.example.COM")).
  apply (bool_decide_unpack (x00 ∉ bytes_of "*.Example.com")). vm_compute. reflexivity.
Defined.

(** ** The search *)

(** A server of the tree. *)
Inductive server_in : evhttp -> evhttp -> Prop :=
| server_here h : server_in h h
| server_below h v p a c vs : v ∈ vs -> server_in h v -> server_in h (mkHttp p a c vs).

(** A path of virtual hosts whose patterns all match. *)
Inductive vhost_path (hostname : list byte) : evhttp -> evhttp -> Prop :=
| path_here h : vhost_path hostname h h
| path_step h v p a c vs : v ∈ vs -> prefix_suffix_match (vhost_pattern v) hostname true = true ->
    vhost_path hostname v h -> vhost_path hostname (mkHttp p a c vs) h.

(** No virtual host of this server matches. *)
Definition vhost_end (hostname : list byte) (h : evhttp) : Prop :=
  let 'mkHttp _ _ _ vs := h in forall v, v ∈ vs -> prefix_suffix_match (vhost_pattern v) hostname true = false.

Lemma evhttp_ind' (P : evhttp -> Prop) :
  (forall p a c vs, Forall P vs -> P (mkHttp p a c vs)) -> forall h, P h.
Proof.
  intros Hs. fix IH 1. intros [p a c vs]. apply Hs. induction vs as [|v vs IHvs]; constructor; [apply IH|exact IHvs].
Qed.

Lemma descend_spec hostname http :
  vhost_path hostname http (fst (descend http hostname)) /\ vhost_end hostname (fst (descend http hostname)) /\
  (snd (descend http hostname) = false -> fst (descend http hostname) = http).
Proof.
  induction http as [p a c vs IH] using evhttp_ind'. cbn [descend].
  set (each := fix each (vs : list evhttp) : evhttp * bool := match vs with [] => _ | _ => _ end).
  assert (forall l, (forall v, v ∈ l -> v ∈ vs) ->
    (exists v, v ∈ vs /\ prefix_suffix_match (vhost_pattern v) hostname true = true /\
       each l = (fst (descend v hostname), true)) \/
    (each l = (mkHttp p a c vs, false) /\ forall v, v ∈ l -> prefix_suffix_match (vhost_pattern v) hostname true = false)) as He.
  { induction l as [|v l IHl]; intros Hl; [right; split; [done|]; intros v Hv; by apply not_elem_of_nil in Hv|].
    cbn [each]. destruct (prefix_suffix_match (vhost_pattern v) hostname true) eqn:Em.
    - left. exists v. split; [apply Hl, list_elem_of_here|done].
    - destruct IHl as [H|[H1 H2]]; [intros w Hw; apply Hl; by apply list_elem_of_further|by left|].
      right. split; [done|]. intros w [->|Hw]%elem_of_cons; [done|by apply H2]. }
  destruct (He vs (fun v H => H)) as [(v & Hv & Hm & ->)|[-> Hn]]; simpl.
  - rewrite Forall_forall in IH. destruct (IH v Hv) as (Hp & Hend & _). split; [by econstructor|]. done.
  - split; [constructor|done].
Qed.

(** Without an alias for the host name, the search follows virtual hosts whose
    patterns match, from the root down, to one that has no matching virtual host
    of its own; it reports no match only when it stays at the root. *)
Theorem find_vhost_descends http hostname :
  evhttp_find_alias http hostname = None ->
  let '(found, h) := evhttp_find_vhost http hostname in
  vhost_path hostname http h /\ vhost_end hostname h /\ (found = false -> h = http).
Proof.
  intros Ha. unfold evhttp_find_vhost. rewrite Ha. pose proof (descend_spec hostname http) as H.
  by destruct (descend http hostname) as [h found].
Qed.

Example find_vhost_descends_witness :
  let http := mkHttp [] [] [] [mkHttp (bytes_of "*.a") [] [] [mkHttp (bytes_of "x.*a") [] [] []]] in
  let '(found, h) := evhttp_find_vhost http (bytes_of "x.a") in
  vhost_path (bytes_of "x.a") http h /\ vhost_end (bytes_of "x.a") h /\ (found = false -> h = http).
Proof.
  apply (find_vhost_descends (mkHttp [] [] [] [mkHttp (bytes_of "*.a") [] [] [mkHttp (bytes_of "x.*a") [] [] []]])).
  vm_compute. reflexivity.
Defined.
