(* ===== verification/HttpLines.v ===== *)
(** * Lines of a buffer

    What [libevent/http.c] needs from an evbuffer to read the head of a message:
    [evbuffer_get_length] and [evbuffer_readln] with [EVBUFFER_EOL_CRLF].
    [LineBuffer] is the class of buffers that promise both; the plain byte
    sequence is one, and so is the chain buffer of [libevent/buffer.c]
    ([EvbufferSearch]), while memory lasts. *)

From S2P Require Import Prelude EvChain Evbuffer EvbufferSpace EvbufferSearch EvbufferQueue.

(** Where the first line ends, and the length of its end: a LF, and the CR before
    it if there is one. *)
Definition crlf_end (s : list byte) : option (Z * Z) := line_end EVBUFFER_EOL_CRLF s.

Class LineBuffer (B : Type) := {
  (** the bytes, oldest first *)
  lb_content : B -> list byte;
  (** representation invariant *)
  lb_ok : B -> Prop;
  (** [evbuffer_get_length] *)
  lb_length : B -> Z;
  (** [evbuffer_readln(buf, &n, EVBUFFER_EOL_CRLF)] *)
  lb_readln : B -> outcome (option (list byte) * B);
  lb_length_spec : forall b, lb_ok b -> lb_length b = zlen (lb_content b);
  lb_readln_spec : forall b, lb_ok b ->
    exists b', lb_ok b' /\
      match crlf_end (lb_content b) with
      | Some (n, k) => lb_readln b = Done (Some (ztake n (lb_content b)), b') /\
                       lb_content b' = zdrop (n + k) (lb_content b)
      | None => lb_readln b = Done (None, b') /\ lb_content b' = lb_content b
      end
}.

(** ** The plain byte sequence *)

#[export, program] Instance list_lines : LineBuffer (list byte) := {
  lb_content := fun s => s;
  lb_ok := fun _ => True;
  lb_length := zlen;
  lb_readln := fun s =>
    match crlf_end s with
    | Some (n, k) => Done (Some (ztake n s), zdrop (n + k) s)
    | None => Done (None, s)
    end
}.
Next Obligation. done. Qed.
Next Obligation. intros s _. simpl. destruct (crlf_end s) as [[n k]|]; eexists; repeat split. Qed.

(** ** The chain buffer *)

(** The allocations to come succeed. *)
Definition enough_memory (w : mm) : mm := mkMm (mm_next w) [] (mm_junk w) (mm_log w).

#[export, program] Instance evbuffer_lines : LineBuffer (mm * evbuffer) := {
  lb_content := fun q => content q.2;
  lb_ok := fun q => live q.1 q.2 /\ total_len q.2 <= INT_MAX;
  lb_length := fun q => evbuffer_get_length q.2;
  lb_readln := fun q =>
    match evbuffer_readln q.2 EVBUFFER_EOL_CRLF (enough_memory q.1) with
    | Done (o, b, w) => Done (o, (w, b))
    | Crash => Crash
    end
}.
Next Obligation. intros [w b] [[Hwf _ _] _]. by apply (total_content w). Qed.
Next Obligation.
  intros [w b] [[Hwf Hfs Hfe] Hm]. simpl in *.
  assert (wf (enough_memory w) b) as Hwf' by (apply (effect_later w); [done|simpl; lia]).
  destruct (evbuffer_readln_spec (enough_memory w) b EVBUFFER_EOL_CRLF Hwf' Hm Hfs) as (o & b' & w' & -> & H).
  exists (w', b'). unfold crlf_end. pose proof (zlen_nonneg (content b)).
  assert (forall s, effect (enough_memory w) b w' b' s -> zlen s <= zlen (content b) ->
    live w' b' /\ total_len b' <= INT_MAX) as Hok.
  { intros s He Hs. rewrite (total_content w b Hwf) in Hm. destruct He as [Hw Hc _ Hfs' Hfe']. split; [split; congruence|].
    rewrite (total_content w' b' Hw), Hc. lia. }
  destruct (line_end EVBUFFER_EOL_CRLF (content b)) as [[n k]|].
  - destruct H as [[-> He]|(_ & Hf & _)]; [|done]. split; [|split; [done|apply He]].
    eapply Hok; [exact He|]. unfold zdrop, zlen. rewrite length_drop. lia.
  - destruct H as [-> He]. split; [|split; [done|apply He]]. eapply Hok; [exact He|lia].
Qed.
