(* ===== verification/HttpLineSpec.v ===== *)
(** * Lines of a byte sequence

    How [LineBuffer]s cut their bytes into lines: [take_line] is
    [evbuffer_readln] on the plain sequence; it gives back a line that was
    written with CRLF, and what it gives does not change when more bytes
    arrive. *)

From S2P Require Import Prelude HttpText EvbufferSearch HttpLines.

Definition take_line (s : list byte) : option (list byte * list byte) :=
  match crlf_end s with
  | Some (n, k) => Some (ztake n s, zdrop (n + k) s)
  | None => None
  end.

(** The promise of [lb_readln], by [take_line]. *)
Lemma readln_take_line {B} `{LineBuffer B} (b : B) :
  lb_ok b ->
  exists b', lb_ok b' /\
    match take_line (lb_content b) with
    | Some (l, r) => lb_readln b = Done (Some l, b') /\ lb_content b' = r
    | None => lb_readln b = Done (None, b') /\ lb_content b' = lb_content b
    end.
Proof.
  intros Hb. destruct (lb_readln_spec b Hb) as (b' & Hok & E). exists b'. split; [done|]. unfold take_line.
  by destruct (crlf_end (lb_content b)) as [[n k]|].
Qed.

Lemma memchr_app x a b : x ∉ a -> memchr x (a ++ x :: b) = Some (zlen a).
Proof.
  unfold memchr. induction a as [|c a IH]; intros H; cbn [find_idx app].
  - by rewrite bool_decide_eq_true_2.
  - apply not_elem_of_cons in H as [Hc H]. rewrite bool_decide_eq_false_2 by congruence. rewrite IH by done.
    simpl. by rewrite zlen_cons.
Qed.

Lemma memchr_none x a : memchr x a = None <-> x ∉ a.
Proof.
  unfold memchr. induction a as [|c a IH]; cbn [find_idx]; [split; [intros _; apply not_elem_of_nil|done]|].
  rewrite not_elem_of_cons. case_bool_decide as Hc; [naive_solver|].
  destruct (find_idx _ a); simpl; naive_solver.
Qed.

Lemma memchr_split x s n : memchr x s = Some n -> exists a b, s = a ++ x :: b /\ x ∉ a /\ zlen a = n.
Proof.
  intros E. destruct (decide (x ∈ s)) as [Hin|Hin]; [|apply memchr_none in Hin; congruence].
  apply list_elem_of_split in Hin as Hs. clear Hin.
  revert n E. unfold memchr. induction s as [|c s IH]; intros n; cbn [find_idx]; [done|].
  case_bool_decide as Hc.
  - intros [= <-]. subst. exists [], s. split_and!; [done|apply not_elem_of_nil|done].
  - destruct (find_idx _ s) as [m|] eqn:Em; [|done]. simpl. intros [= <-].
    assert (exists l1 l2, s = l1 ++ x :: l2) as Hs'.
    { destruct Hs as (l1 & l2 & Hl). destruct l1 as [|y l1]; injection Hl as -> Hl; [congruence|by eauto]. }
    destruct (IH Hs' m eq_refl) as (a & b & -> & Ha & <-). exists (c :: a), b.
    split_and!; [done|rewrite not_elem_of_cons; split; [congruence|done]|rewrite zlen_cons; lia].
Qed.

(** The line in front of a LF: without a CR at its end. *)
Definition strip_cr (a : list byte) : list byte :=
  match last a with Some c => if bool_decide (c = CR) then removelast a else a | None => a end.

Lemma zsub_last (a : list byte) x : zsub (zlen (a ++ [x]) - 1) 1 (a ++ [x]) = [x].
Proof.
  rewrite zlen_app, zlen_cons, zlen_nil. replace (zlen a + (1 + 0) - 1) with (zlen a) by lia.
  unfold zsub, zdrop, zlen. by rewrite Nat2Z.id, drop_app_length.
Qed.

Lemma take_line_lf a r : LF ∉ a -> take_line (a ++ LF :: r) = Some (strip_cr a, r).
Proof.
  intros Ha. unfold take_line, crlf_end, line_end. rewrite memchr_app by done. cbn [fmap option_fmap option_map].
  assert (zdrop (zlen a + 1) (a ++ LF :: r) = r) as Hd.
  { unfold zdrop, zlen. replace (Z.to_nat (Z.of_nat (length a) + 1)) with (length a + 1)%nat by lia.
    by rewrite <- drop_drop, drop_app_length. }
  unfold strip_cr. destruct a as [|x a _] using rev_ind.
  - rewrite zlen_nil. rewrite bool_decide_eq_false_2 by lia. cbn [last]. f_equal.
  - rewrite last_snoc. pose proof (zlen_nonneg a).
    assert (zsub (zlen (a ++ [x]) - 1) 1 ((a ++ [x]) ++ LF :: r) = [x]) as Hz.
    { rewrite <- (zsub_last a x) at 2. unfold zsub, ztake, zdrop, zlen. rewrite length_app. simpl length.
      replace (Z.to_nat (Z.of_nat (length a + 1) - 1)) with (length a) by lia.
      rewrite <- app_assoc, !drop_app_length. done. }
    case_bool_decide as H1; case_bool_decide as H2.
    + f_equal. f_equal; [|etrans; [|exact Hd]; f_equal; lia]. rewrite removelast_last.
      rewrite zlen_app, zlen_cons, zlen_nil. replace (zlen a + (1 + 0) - 1) with (zlen a) by lia.
      unfold ztake, zlen. by rewrite Nat2Z.id, <- app_assoc, take_app_length.
    + destruct H1 as [_ H1]. rewrite Hz in H1. congruence.
    + exfalso. apply H1. split; [rewrite zlen_app, zlen_cons, zlen_nil; lia|]. rewrite Hz. by subst.
    + f_equal. f_equal; [|done]. unfold ztake, zlen. by rewrite Nat2Z.id, take_app_length.
Qed.

Lemma take_line_none s : take_line s = None <-> LF ∉ s.
Proof.
  unfold take_line, crlf_end, line_end. rewrite <- (memchr_none LF s). destruct (memchr LF s) as [n|]; [|done].
  simpl. by case_bool_decide.
Qed.

Lemma take_line_some s l r : take_line s = Some (l, r) -> exists a, s = a ++ LF :: r /\ LF ∉ a /\ l = strip_cr a.
Proof.
  intros E. destruct (memchr LF s) as [n|] eqn:Em.
  - destruct (memchr_split _ _ _ Em) as (a & b & -> & Ha & _). rewrite take_line_lf in E by done.
    injection E as <- <-. by exists a.
  - apply memchr_none, take_line_none in Em. congruence.
Qed.

(** A line that was written with CRLF. *)
Lemma take_line_crlf l r : LF ∉ l -> take_line (l ++ CR :: LF :: r) = Some (l, r).
Proof.
  intros Hl. change (l ++ CR :: LF :: r) with (l ++ [CR] ++ LF :: r). rewrite app_assoc, take_line_lf.
  - unfold strip_cr. rewrite last_snoc, bool_decide_eq_true_2, removelast_last by done. done.
  - rewrite elem_of_app. intros [H|H]; [done|]. by apply list_elem_of_singleton in H.
Qed.

(** More bytes do not change the first line. *)
Lemma take_line_more s l r t : take_line s = Some (l, r) -> take_line (s ++ t) = Some (l, r ++ t).
Proof.
  intros (a & -> & Ha & ->)%take_line_some. rewrite <- app_assoc. cbn [app]. by apply take_line_lf.
Qed.

Lemma strip_cr_len a : zlen (strip_cr a) <= zlen a.
Proof.
  unfold strip_cr. destruct a as [|x a _] using rev_ind; [done|]. rewrite last_snoc. case_bool_decide; [|lia].
  rewrite removelast_last, zlen_app, zlen_cons, zlen_nil. lia.
Qed.

Lemma take_line_len s l r : take_line s = Some (l, r) -> zlen l + zlen r < zlen s.
Proof.
  intros (a & -> & _ & ->)%take_line_some. pose proof (strip_cr_len a). rewrite zlen_app, zlen_cons. lia.
Qed.
