(* ===== verification/HttpMessage.v ===== *)
(** * HTTP messages

    Models how [libevent/http.c] reads and writes the head of a message:
    [evhttp_parse_firstline_] with the request and the status line,
    [evhttp_parse_headers_], the list of headers ([evhttp_find_header],
    [evhttp_add_header], [evhttp_remove_header]), [evhttp_make_header], and how
    it finds the body ([evhttp_get_body], [evhttp_get_body_length]).

    The input is any [LineBuffer]; a line is the bytes [evbuffer_readln] gives,
    of which the string functions see those before the first NUL.  Memory is
    taken to be there.  The connection is the limits it sets and its server;
    the date is a parameter. *)

From S2P Require Import Prelude Ctype HttpText Inet UriParse HttpHost EvbufferSearch HttpLines.

(** ** The C library *)

(** [evutil_strtoll(s, &endp, base)] for the bases 10 and 16: the value and the
    string at [endp]. *)
Definition saturate (v : Z) : Z := Z.max (- 2 ^ 63) (Z.min v INT64_MAX).

Definition digits_of (base16 : bool) (l : list byte) : Z * list byte * list byte :=
  if base16 then
    match l with
    | z :: x :: d :: t =>
        if bool_decide (z = "0"%byte) && (bool_decide (x = "x"%byte) || bool_decide (x = "X"%byte)) &&
           EVUTIL_ISXDIGIT_ d
        then let '(a, b) := span EVUTIL_ISXDIGIT_ (d :: t) in (hex_fold a, a, b)
        else let '(a, b) := span EVUTIL_ISXDIGIT_ l in (hex_fold a, a, b)
    | _ => let '(a, b) := span EVUTIL_ISXDIGIT_ l in (hex_fold a, a, b)
    end
  else let '(a, b) := span EVUTIL_ISDIGIT_ l in (dec_value a, a, b).

Definition evutil_strtoll (s : list byte) (base16 : bool) : Z * list byte :=
  let '(neg, l) := number_prefix s in
  let '(v, digits, rest) := digits_of base16 l in
  match digits with
  | [] => (0, s)
  | _ :: _ => (saturate (if neg then - v else v), rest)
  end.

(** One ["%d"]. *)
Definition scan_d (l : list byte) : option (Z * list byte) :=
  let '(neg, l) := number_prefix l in
  match span EVUTIL_ISDIGIT_ l with
  | ([], _) => None
  | (d, rest) => Some (i32 (saturate (if neg then - dec_value d else dec_value d)), rest)
  end.

Fixpoint drop_prefix (p l : list byte) : option (list byte) :=
  match p, l with
  | [], _ => Some l
  | c :: p, d :: l => if bool_decide (c = d) then drop_prefix p l else None
  | _ :: _, [] => None
  end.

(** [sscanf(s, "HTTP/%d.%d%c", ...) == 2] and the two numbers. *)
Definition scan_version (l : list byte) : option (Z * Z) :=
  l ← drop_prefix (bytes_of "HTTP/") l; '(a, l) ← scan_d l; l ← scan_dot l; '(b, l) ← scan_d l;
  match l with [] => Some (a, b) | _ :: _ => None end.

(** ** Data *)

Inductive evhttp_request_kind := EVHTTP_REQUEST | EVHTTP_RESPONSE.

#[export] Instance evhttp_request_kind_eq_dec : EqDecision evhttp_request_kind.
Proof. solve_decision. Defined.

Definition EVHTTP_REQ_GET : Z := 1.
Definition EVHTTP_REQ_POST : Z := 2.
Definition EVHTTP_REQ_HEAD : Z := 4.
Definition EVHTTP_REQ_PUT : Z := 8.
Definition EVHTTP_REQ_DELETE : Z := 16.
Definition EVHTTP_REQ_OPTIONS : Z := 32.
Definition EVHTTP_REQ_TRACE : Z := 64.
Definition EVHTTP_REQ_CONNECT : Z := 128.
Definition EVHTTP_REQ_PATCH : Z := 256.
Definition EVHTTP_REQ_UNKNOWN_ : Z := 32768.

Definition EVHTTP_PROXY_REQUEST : Z := 2.

Inductive message_read_status :=
| ALL_DATA_READ | MORE_DATA_EXPECTED | DATA_CORRUPTED | REQUEST_CANCELED | DATA_TOO_LONG.

(** The limits of the connection, and the server of an incoming one. *)
Record evhttp_connection := mkEvcon {
  max_headers_size : Z;
  max_body_size : Z;
  http_server : option evhttp }.

(** [delivered] is what the chunk callback has been given. *)
Record evhttp_request := mkReq {
  rq_evcon : option evhttp_connection;
  rq_flags : Z;
  input_headers : list header;
  output_headers : list header;
  rq_kind : evhttp_request_kind;
  rq_type : Z;
  headers_size : Z;
  body_size : Z;
  rq_uri : option (list byte);
  uri_elems : option evhttp_uri;
  rq_major : Z;
  rq_minor : Z;
  response_code : Z;
  response_code_line : option (list byte);
  input_buffer : list byte;
  ntoread : Z;
  chunked : bool;
  output_buffer : list byte;
  delivered : list (list byte) }.

Definition with_first (r : evhttp_request) (flags type : Z) (uri : option (list byte)) (elems : option evhttp_uri)
    (major minor code : Z) (code_line : option (list byte)) : evhttp_request :=
  mkReq (rq_evcon r) flags (input_headers r) (output_headers r) (rq_kind r) type (headers_size r) (body_size r)
    uri elems major minor code code_line (input_buffer r) (ntoread r) (chunked r) (output_buffer r) (delivered r).

Definition with_input_headers (r : evhttp_request) (hs : list header) (size : Z) : evhttp_request :=
  mkReq (rq_evcon r) (rq_flags r) hs (output_headers r) (rq_kind r) (rq_type r) size (body_size r)
    (rq_uri r) (uri_elems r) (rq_major r) (rq_minor r) (response_code r) (response_code_line r)
    (input_buffer r) (ntoread r) (chunked r) (output_buffer r) (delivered r).

Definition with_output_headers (r : evhttp_request) (hs : list header) : evhttp_request :=
  mkReq (rq_evcon r) (rq_flags r) (input_headers r) hs (rq_kind r) (rq_type r) (headers_size r) (body_size r)
    (rq_uri r) (uri_elems r) (rq_major r) (rq_minor r) (response_code r) (response_code_line r)
    (input_buffer r) (ntoread r) (chunked r) (output_buffer r) (delivered r).

Definition with_body (r : evhttp_request) (size : Z) (input : list byte) (toread : Z) (chunk : bool)
    (given : list (list byte)) : evhttp_request :=
  mkReq (rq_evcon r) (rq_flags r) (input_headers r) (output_headers r) (rq_kind r) (rq_type r) (headers_size r) size
    (rq_uri r) (uri_elems r) (rq_major r) (rq_minor r) (response_code r) (response_code_line r)
    input toread chunk (output_buffer r) given.

(** ** Lists of headers *)

Definition same_key (h : header) (key : list byte) : bool := evutil_ascii_strcasecmp (fst h) key =? 0.

Fixpoint evhttp_find_header (headers : list header) (key : list byte) : option (list byte) :=
  match headers with
  | [] => None
  | h :: headers => if same_key h key then Some (snd h) else evhttp_find_header headers key
  end.

Fixpoint evhttp_remove_header (headers : list header) (key : list byte) : Z * list header :=
  match headers with
  | [] => (-1, [])
  | h :: headers =>
      if same_key h key then (0, headers)
      else let '(r, hs) := evhttp_remove_header headers key in (r, h :: hs)
  end.

Definition is_blank (c : byte) : bool := bool_decide (c = SPACE) || bool_decide (c = x09).

(** [newline]: the last character was one of a line end. *)
Fixpoint valid_value_from (value : list byte) (newline : bool) : bool :=
  match value with
  | [] => negb newline
  | c :: value =>
      if is_eol c then valid_value_from value true
      else if newline && negb (is_blank c) then false
      else valid_value_from value false
  end.

Definition evhttp_header_is_valid_value (value : list byte) : bool := valid_value_from value false.

Definition evhttp_add_header_internal (headers : list header) (key value : list byte) : Z * list header :=
  (0, headers ++ [(key, value)]).

Definition evhttp_add_header (headers : list header) (key value : list byte) : Z * list header :=
  if existsb is_eol key then (-1, headers)
  else if negb (evhttp_header_is_valid_value value) then (-1, headers)
  else evhttp_add_header_internal headers key value.

(** ** The first line *)

Definition evhttp_method (type : Z) : option (list byte) :=
  if type =? EVHTTP_REQ_GET then Some (bytes_of "GET")
  else if type =? EVHTTP_REQ_POST then Some (bytes_of "POST")
  else if type =? EVHTTP_REQ_HEAD then Some (bytes_of "HEAD")
  else if type =? EVHTTP_REQ_PUT then Some (bytes_of "PUT")
  else if type =? EVHTTP_REQ_DELETE then Some (bytes_of "DELETE")
  else if type =? EVHTTP_REQ_OPTIONS then Some (bytes_of "OPTIONS")
  else if type =? EVHTTP_REQ_TRACE then Some (bytes_of "TRACE")
  else if type =? EVHTTP_REQ_CONNECT then Some (bytes_of "CONNECT")
  else if type =? EVHTTP_REQ_PATCH then Some (bytes_of "PATCH")
  else None.

(** The [switch] on the length of the method and its characters. *)
Definition method_type (m : list byte) : Z :=
  let at_ i c := bool_decide (nth i m x00 = c) in
  match length m with
  | 3%nat =>
      if negb (at_ 2%nat "T"%byte) then EVHTTP_REQ_UNKNOWN_
      else if at_ 0%nat "G"%byte then if at_ 1%nat "E"%byte then EVHTTP_REQ_GET else EVHTTP_REQ_UNKNOWN_
      else if at_ 0%nat "P"%byte then if at_ 1%nat "U"%byte then EVHTTP_REQ_PUT else EVHTTP_REQ_UNKNOWN_
      else EVHTTP_REQ_UNKNOWN_
  | 4%nat =>
      if at_ 0%nat "P"%byte
      then if at_ 3%nat "T"%byte && at_ 2%nat "S"%byte && at_ 1%nat "O"%byte
           then EVHTTP_REQ_POST else EVHTTP_REQ_UNKNOWN_
      else if at_ 0%nat "H"%byte
      then if at_ 3%nat "D"%byte && at_ 2%nat "A"%byte && at_ 1%nat "E"%byte
           then EVHTTP_REQ_HEAD else EVHTTP_REQ_UNKNOWN_
      else EVHTTP_REQ_UNKNOWN_
  | 5%nat =>
      if at_ 0%nat "P"%byte
      then if at_ 4%nat "H"%byte && at_ 3%nat "C"%byte && at_ 2%nat "T"%byte && at_ 1%nat "A"%byte
           then EVHTTP_REQ_PATCH else EVHTTP_REQ_UNKNOWN_
      else if at_ 0%nat "T"%byte
      then if at_ 4%nat "E"%byte && at_ 3%nat "C"%byte && at_ 2%nat "A"%byte && at_ 1%nat "R"%byte
           then EVHTTP_REQ_TRACE else EVHTTP_REQ_UNKNOWN_
      else EVHTTP_REQ_UNKNOWN_
  | 6%nat =>
      if negb (at_ 0%nat "D"%byte) then EVHTTP_REQ_UNKNOWN_
      else if at_ 5%nat "E"%byte && at_ 4%nat "T"%byte && at_ 3%nat "E"%byte && at_ 2%nat "L"%byte &&
              at_ 1%nat "E"%byte
      then EVHTTP_REQ_DELETE else EVHTTP_REQ_UNKNOWN_
  | 7%nat =>
      if at_ 0%nat "O"%byte
      then if at_ 6%nat "S"%byte && at_ 5%nat "N"%byte && at_ 4%nat "O"%byte && at_ 3%nat "I"%byte &&
              at_ 2%nat "T"%byte && at_ 1%nat "P"%byte
           then EVHTTP_REQ_OPTIONS else EVHTTP_REQ_UNKNOWN_
      else if at_ 0%nat "C"%byte
      then if at_ 6%nat "T"%byte && at_ 5%nat "C"%byte && at_ 4%nat "E"%byte && at_ 3%nat "N"%byte &&
              at_ 2%nat "N"%byte && at_ 1%nat "O"%byte
           then EVHTTP_REQ_CONNECT else EVHTTP_REQ_UNKNOWN_
      else EVHTTP_REQ_UNKNOWN_
  | _ => EVHTTP_REQ_UNKNOWN_
  end.

(** A [char] field. *)
Definition i8 (z : Z) : Z := (z + 128) mod 256 - 128.

(** The version that is stored; [None] for [return -1]. *)
Definition evhttp_parse_http_version (version : list byte) : option (Z * Z) :=
  match scan_version version with
  | None => None
  | Some (major, minor) => if 1 <? major then None else Some (i8 major, i8 minor)
  end.

Definition evhttp_valid_response_code (code : Z) : bool := negb (code =? 0).

(** The result and the request. *)
Definition evhttp_parse_response_line (req : evhttp_request) (line : list byte) : Z * evhttp_request :=
  match strsep SPACE line with
  | (_, None) => (-1, req)
  | (protocol, Some line) =>
      let '(number, line) := strsep SPACE line in
      let readable := default [] line in
      match evhttp_parse_http_version protocol with
      | None => (-1, req)
      | Some (major, minor) =>
          let code := atoi number in
          let set := with_first req (rq_flags req) (rq_type req) (rq_uri req) (uri_elems req) major minor code in
          if negb (evhttp_valid_response_code code) then (-1, set (response_code_line req))
          else (0, set (Some readable))
      end
  end.

Definition is_http_scheme (s : list byte) : bool :=
  (evutil_ascii_strcasecmp s (bytes_of "http") =? 0) || (evutil_ascii_strcasecmp s (bytes_of "https") =? 0).

Definition evhttp_parse_request_line (req : evhttp_request) (line : list byte) : outcome (Z * evhttp_request) :=
  match strsep SPACE line with
  | (_, None) => Done (-1, req)
  | (method, Some line) =>
      match strsep SPACE line with
      | (_, None) => Done (-1, req)
      | (uri, Some line) =>
          match strsep SPACE line with
          | (_, Some _) => Done (-1, req)
          | (version, None) =>
              let set flags uri elems major minor :=
                with_first req flags (method_type method) uri elems major minor (response_code req) (response_code_line req) in
              match evhttp_parse_http_version version with
              | None => Done (-1, set (rq_flags req) (rq_uri req) (uri_elems req) (rq_major req) (rq_minor req))
              | Some (major, minor) =>
                  elems ← evhttp_uri_parse_with_flags uri EVHTTP_URI_NONCONFORMANT;
                  match elems with
                  | None => Done (-1, set (rq_flags req) (Some uri) None major minor)
                  | Some e =>
                      flags ← match scheme e, host e with
                              | Some s, Some hostname =>
                                  if is_http_scheme s then
                                    evcon ← deref (rq_evcon req);
                                    http ← deref (http_server evcon);
                                    Done (if fst (evhttp_find_vhost http hostname) then rq_flags req
                                          else Z.lor (rq_flags req) EVHTTP_PROXY_REQUEST)
                                  else Done (rq_flags req)
                              | _, _ => Done (rq_flags req)
                              end;
                      Done (0, set flags (Some uri) (Some e) major minor)
                  end
              end
          end
      end
  end.

(** ** Reading the head *)

(** [req->evcon != NULL && size > req->evcon->max_headers_size] *)
Definition too_long (req : evhttp_request) (size : Z) : bool :=
  match rq_evcon req with Some c => max_headers_size c <? size | None => false end.

Definition drop_blanks (P : byte -> bool) (l : list byte) : list byte := snd (span P l).

(** [evutil_rtrim_lws_] *)
Definition evutil_rtrim_lws_ (l : list byte) : list byte := rev (drop_blanks is_blank (rev l)).

(** The last header's value, a space and the line without the blanks around it;
    [None] for [return -1]. *)
Definition evhttp_append_to_last_header (headers : list header) (line : list byte) : option (list header) :=
  match last headers with
  | None => None
  | Some (key, value) =>
      Some (removelast headers ++ [(key, value ++ SPACE :: evutil_rtrim_lws_ (drop_blanks is_blank line))])
  end.

(** One line that is not empty. *)
Definition header_line (headers : list header) (line : list byte) : option (list header) :=
  if is_blank (next_char line) then evhttp_append_to_last_header headers line
  else
    match strsep COLON line with
    | (_, None) => None
    | (skey, Some svalue) =>
        let '(r, hs) := evhttp_add_header headers skey
                          (evutil_rtrim_lws_ (drop_blanks (fun c => bool_decide (c = SPACE)) svalue)) in
        if r =? -1 then None else Some hs
    end.

Section Head.
Context {B : Type} `{LineBuffer B}.

Definition evhttp_parse_firstline_ (req : evhttp_request) (buffer : B)
    : outcome (message_read_status * evhttp_request * B) :=
  '(line, buffer) ← lb_readln buffer;
  match line with
  | None =>
      Done (if too_long req (lb_length buffer) then DATA_TOO_LONG else MORE_DATA_EXPECTED, req, buffer)
  | Some line =>
      let line_length := zlen line in
      if too_long req line_length then Done (DATA_TOO_LONG, req, buffer) else
      let req := with_input_headers req (input_headers req) line_length in
      '(r, req) ← match rq_kind req with
                  | EVHTTP_REQUEST => evhttp_parse_request_line req (cstr line)
                  | EVHTTP_RESPONSE => Done (evhttp_parse_response_line req (cstr line))
                  end;
      Done (if r =? -1 then DATA_CORRUPTED else ALL_DATA_READ, req, buffer)
  end.

(** The loop over the lines; each takes at least one byte from the buffer. *)
Fixpoint headers_loop (fuel : nat) (req : evhttp_request) (buffer : B)
    : outcome (message_read_status * evhttp_request * B) :=
  match fuel with
  | O => Crash
  | S fuel =>
      '(line, buffer) ← lb_readln buffer;
      match line with
      | None =>
          Done (if too_long req (u64 (headers_size req + lb_length buffer))
                then DATA_TOO_LONG else MORE_DATA_EXPECTED, req, buffer)
      | Some line =>
          let req := with_input_headers req (input_headers req) (u64 (headers_size req + zlen line)) in
          if too_long req (headers_size req) then Done (DATA_TOO_LONG, req, buffer)
          else if bool_decide (cstr line = []) then Done (ALL_DATA_READ, req, buffer)
          else match header_line (input_headers req) (cstr line) with
               | None => Done (DATA_CORRUPTED, req, buffer)
               | Some hs => headers_loop fuel (with_input_headers req hs (headers_size req)) buffer
               end
      end
  end.

Definition evhttp_parse_headers_ (req : evhttp_request) (buffer : B)
    : outcome (message_read_status * evhttp_request * B) :=
  headers_loop (S (Z.to_nat (lb_length buffer))) req buffer.

(** What is being read ([EVCON_READING_FIRSTLINE], [EVCON_READING_HEADERS]). *)
Inductive reading := READING_FIRSTLINE | READING_HEADERS.

(** [evhttp_read_cb] on what has arrived, up to the end of the head
    ([evhttp_read_firstline], [evhttp_read_header]): the status, the state for
    the next call, the request and what is left. *)
Definition read_head (state : reading) (req : evhttp_request) (buffer : B)
    : outcome (message_read_status * reading * evhttp_request * B) :=
  let read_header req buffer :=
    '(s, req, buffer) ← evhttp_parse_headers_ req buffer; Done (s, READING_HEADERS, req, buffer) in
  match state with
  | READING_FIRSTLINE =>
      '(s, req, buffer) ← evhttp_parse_firstline_ req buffer;
      match s with
      | ALL_DATA_READ => read_header req buffer
      | _ => Done (s, READING_FIRSTLINE, req, buffer)
      end
  | READING_HEADERS => read_header req buffer
  end.

End Head.

(** ** The body *)

(** The result and [ntoread]. *)
Definition evhttp_get_body_length (req : evhttp_request) : Z * Z :=
  let content_length := evhttp_find_header (input_headers req) (bytes_of "Content-Length") in
  let connection := evhttp_find_header (input_headers req) (bytes_of "Connection") in
  match content_length, connection with
  | None, None => (0, -1)
  | None, Some c =>
      if negb (evutil_ascii_strcasecmp c (bytes_of "Close") =? 0) then (-1, ntoread req) else (0, -1)
  | Some l, _ =>
      let '(n, endp) := evutil_strtoll l false in
      if bool_decide (l = []) || negb (bool_decide (endp = [])) || (n <? 0) then (-1, ntoread req) else (0, n)
  end.

Definition evhttp_method_may_have_body (type : Z) : bool :=
  (type =? EVHTTP_REQ_POST) || (type =? EVHTTP_REQ_PUT) || (type =? EVHTTP_REQ_PATCH).

Definition HTTP_NOCONTENT : Z := 204.
Definition HTTP_NOTMODIFIED : Z := 304.

Definition evhttp_response_needs_body (req : evhttp_request) : bool :=
  negb (response_code req =? HTTP_NOCONTENT) && negb (response_code req =? HTTP_NOTMODIFIED) &&
  ((response_code req <? 100) || (200 <=? response_code req)) && negb (rq_type req =? EVHTTP_REQ_HEAD).

Definition REQ_VERSION_ATLEAST (req : evhttp_request) (major_v minor_v : Z) : bool :=
  (major_v <? rq_major req) || ((rq_major req =? major_v) && (minor_v <=? rq_minor req)).

Inductive expect := EXP_NO | EXP_CONTINUE | EXP_OTHER.

Definition evhttp_have_expect (req : evhttp_request) (input : bool) : expect :=
  if negb (bool_decide (rq_kind req = EVHTTP_REQUEST)) || negb (REQ_VERSION_ATLEAST req 1 1) then EXP_NO
  else match evhttp_find_header (if input then input_headers req else output_headers req) (bytes_of "Expect") with
       | None => EXP_NO
       | Some e => if evutil_ascii_strcasecmp e (bytes_of "100-continue") =? 0 then EXP_CONTINUE else EXP_OTHER
       end.

(** How [evhttp_get_body] goes on. *)
Inductive next_step :=
| MessageDone                       (* evhttp_connection_done *)
| ConnectionFail                    (* evhttp_connection_fail_, EVREQ_HTTP_INVALID_HEADER *)
| LingeringFail                     (* evhttp_lingering_fail *)
| ExpectationFailed                 (* evhttp_send_error, 417 *)
| ReadBody (send_continue : bool).  (* evhttp_read_body *)

(** [input_length] is the length of the connection's input. *)
Definition evhttp_get_body (evcon : evhttp_connection) (req : evhttp_request) (input_length : Z)
    : next_step * evhttp_request :=
  if bool_decide (rq_kind req = EVHTTP_REQUEST) && negb (evhttp_method_may_have_body (rq_type req))
  then (MessageDone, req)
  else
    let set n c := with_body req (body_size req) (input_buffer req) n c (delivered req) in
    let expect req :=
      match evhttp_have_expect req true with
      | EXP_CONTINUE =>
          if (0 <? ntoread req) && (max_body_size evcon <=? INT64_MAX) && (max_body_size evcon <? ntoread req)
          then (LingeringFail, req)
          else (ReadBody (input_length =? 0), req)
      | EXP_OTHER => (ExpectationFailed, req)
      | EXP_NO => (ReadBody false, req)
      end in
    let is_chunked := match evhttp_find_header (input_headers req) (bytes_of "Transfer-Encoding") with
                      | Some enc => evutil_ascii_strcasecmp enc (bytes_of "chunked") =? 0
                      | None => false
                      end in
    if is_chunked then expect (set (-1) true)
    else
      let '(r, n) := evhttp_get_body_length req in
      if r =? -1 then (ConnectionFail, req)
      else if bool_decide (rq_kind req = EVHTTP_REQUEST) && (n <? 1) then (MessageDone, set n (chunked req))
      else expect (set n (chunked req)).

(** ** Writing the head *)

Definition CRLF : list byte := [CR; LF].

(** What [evhttp_add_header] leaves in the list; its result is not looked at. *)
Definition add_to (headers : list header) (key value : list byte) : list header :=
  snd (evhttp_add_header headers key value).

Definition header_lines (headers : list header) : list byte :=
  headers ≫= (fun h => fst h ++ bytes_of ": " ++ snd h ++ CRLF).

(** ["HTTP/%d.%d"] of version numbers that are not negative. *)
Definition version_text (req : evhttp_request) : list byte :=
  bytes_of "HTTP/" ++ print_dec (rq_major req) ++ DOT :: print_dec (rq_minor req).

(** The bytes added to the output, and the request. *)
Definition evhttp_make_header_request (req : evhttp_request) : list byte * evhttp_request :=
  let hs := snd (evhttp_remove_header (output_headers req) (bytes_of "Proxy-Connection")) in
  let method := default (bytes_of "NULL") (evhttp_method (rq_type req)) in
  let line := method ++ SPACE :: default (bytes_of "(null)") (rq_uri req) ++ SPACE :: version_text req ++ CRLF in
  let hs :=
    if ((rq_type req =? EVHTTP_REQ_POST) || (rq_type req =? EVHTTP_REQ_PUT)) &&
       bool_decide (evhttp_find_header hs (bytes_of "Content-Length") = None)
    then add_to hs (bytes_of "Content-Length") (print_dec (zlen (output_buffer req)))
    else hs in
  (line, with_output_headers req hs).

Definition evhttp_is_connection_close (flags : Z) (headers : list header) : bool :=
  if has flags EVHTTP_PROXY_REQUEST
  then match evhttp_find_header headers (bytes_of "Proxy-Connection") with
       | None => true
       | Some c => negb (evutil_ascii_strcasecmp c (bytes_of "keep-alive") =? 0)
       end
  else match evhttp_find_header headers (bytes_of "Connection") with
       | None => false
       | Some c => evutil_ascii_strcasecmp c (bytes_of "close") =? 0
       end.

Definition evhttp_is_connection_keepalive (headers : list header) : bool :=
  match evhttp_find_header headers (bytes_of "Connection") with
  | None => false
  | Some c => evutil_ascii_strncasecmp 10 c (bytes_of "keep-alive") =? 0
  end.

Definition evhttp_maybe_add_date_header (date : list byte) (headers : list header) : list header :=
  match evhttp_find_header headers (bytes_of "Date") with
  | None => add_to headers (bytes_of "Date") date
  | Some _ => headers
  end.

Definition evhttp_maybe_add_content_length_header (headers : list header) (content_length : Z) : list header :=
  match evhttp_find_header headers (bytes_of "Transfer-Encoding"),
        evhttp_find_header headers (bytes_of "Content-Length") with
  | None, None => add_to headers (bytes_of "Content-Length") (print_dec content_length)
  | _, _ => headers
  end.

(** [date] is what [evutil_date_rfc1123] writes, [default_type] the server's
    [default_content_type]. *)
Definition evhttp_make_header_response (date : list byte) (default_type : option (list byte)) (req : evhttp_request)
    : list byte * evhttp_request :=
  let is_keepalive := evhttp_is_connection_keepalive (input_headers req) in
  let line := version_text req ++ SPACE :: print_dec (response_code req) ++ SPACE ::
              default (bytes_of "(null)") (response_code_line req) ++ CRLF in
  let hs := output_headers req in
  let hs :=
    if rq_major req =? 1 then
      let hs := if 1 <=? rq_minor req then evhttp_maybe_add_date_header date hs else hs in
      let hs := if (rq_minor req =? 0) && is_keepalive
                then add_to hs (bytes_of "Connection") (bytes_of "keep-alive") else hs in
      if ((1 <=? rq_minor req) || is_keepalive) && evhttp_response_needs_body req
      then evhttp_maybe_add_content_length_header hs (zlen (output_buffer req)) else hs
    else hs in
  let hs :=
    if evhttp_response_needs_body req then
      match evhttp_find_header hs (bytes_of "Content-Type"), default_type with
      | None, Some t => add_to hs (bytes_of "Content-Type") t
      | _, _ => hs
      end
    else hs in
  let hs :=
    if evhttp_is_connection_close (rq_flags req) (input_headers req) then
      let hs := snd (evhttp_remove_header hs (bytes_of "Connection")) in
      let hs := if has (rq_flags req) EVHTTP_PROXY_REQUEST then hs
                else add_to hs (bytes_of "Connection") (bytes_of "close") in
      snd (evhttp_remove_header hs (bytes_of "Proxy-Connection"))
    else hs in
  (line, with_output_headers req hs).

(** The bytes added to the connection's output, and the request. *)
Definition evhttp_make_header (date : list byte) (default_type : option (list byte)) (req : evhttp_request)
    : list byte * evhttp_request :=
  let '(line, req) := match rq_kind req with
                      | EVHTTP_REQUEST => evhttp_make_header_request req
                      | EVHTTP_RESPONSE => evhttp_make_header_response date default_type req
                      end in
  let head := line ++ header_lines (output_headers req) ++ CRLF in
  match evhttp_have_expect req false with
  | EXP_CONTINUE => (head, req)
  | _ => (head ++ output_buffer req,
          mkReq (rq_evcon req) (rq_flags req) (input_headers req) (output_headers req) (rq_kind req) (rq_type req)
            (headers_size req) (body_size req) (rq_uri req) (uri_elems req) (rq_major req) (rq_minor req)
            (response_code req) (response_code_line req) (input_buffer req) (ntoread req) (chunked req) []
            (delivered req))
  end.

(** [evhttp_request_get_host] without a cached host. *)
Definition evhttp_request_get_host (req : evhttp_request) : option (list byte) :=
  match u ← uri_elems req; host u with
  | Some h => Some h
  | None =>
      match evhttp_find_header (input_headers req) (bytes_of "Host") with
      | None => None
      | Some h =>
          let '(digits, before) := span EVUTIL_ISDIGIT_ (rev h) in
          match before with
          | c :: (_ :: _) as before' => if bool_decide (c = COLON) then Some (rev (tail before')) else Some h
          | _ => Some h
          end
      end
  end.
