(* ===== verification/HttpMessageSpec.v ===== *)
(** * The head of a message: theorems

    Reading a message's head from a chain buffer is reading it from its bytes;
    it makes no difference in what pieces the bytes arrive; the head that
    [evhttp_make_header] writes is read back as the same request with the same
    headers and the length of its body; and what [evhttp_add_header] lets
    through ([HttpMessage]). *)

From S2P Require Import Prelude Ctype HttpText Inet InetSpec UriParse UriSpec HttpHost EvbufferSearch HttpLines HttpLineSpec HttpMessage.

(** ** Any buffer is read as its bytes *)

(** The two runs end alike, with the bytes left. *)
Definition same_run {A B} `{LineBuffer B} (m : outcome (A * B)) (m' : outcome (A * list byte)) : Prop :=
  match m' with
  | Done (a, rest) => exists b, m = Done (a, b) /\ lb_ok b /\ lb_content b = rest
  | Crash => m = Crash
  end.

Lemma list_readln (s : list byte) :
  lb_readln s = match take_line s with Some (l, r) => Done (Some l, r) | None => Done (None, s) end.
Proof. unfold take_line. simpl. by destruct (crlf_end s) as [[n k]|]. Qed.

Section AnyBuffer.
Context {B : Type} `{LineBuffer B}.

Lemma firstline_same_run req b :
  lb_ok b -> same_run (evhttp_parse_firstline_ req b) (evhttp_parse_firstline_ req (lb_content b)).
Proof.
  intros Hb. unfold evhttp_parse_firstline_. rewrite list_readln.
  destruct (readln_take_line b Hb) as (b' & Hb' & E). destruct (take_line (lb_content b)) as [[l r]|]; destruct E as [-> Ec].
  - cbn [mbind outcome_bind]. case_match; [by exists b'|].
    set (m := match rq_kind _ with EVHTTP_REQUEST => _ | EVHTTP_RESPONSE => _ end).
    destruct m as [[res req']|]; [by exists b'|done].
  - cbn [mbind outcome_bind]. rewrite lb_length_spec by done. change (lb_length (lb_content b)) with (zlen (lb_content b)).
    rewrite Ec. by exists b'.
Qed.

Lemma headers_same_run fuel req b :
  lb_ok b -> same_run (headers_loop fuel req b) (headers_loop fuel req (lb_content b)).
Proof.
  revert req b. induction fuel as [|fuel IH]; intros req b Hb; [done|]. cbn [headers_loop]. rewrite list_readln.
  destruct (readln_take_line b Hb) as (b' & Hb' & E). destruct (take_line (lb_content b)) as [[l r]|]; destruct E as [-> Ec].
  - cbn [mbind outcome_bind]. do 2 (case_match; [by exists b'|]).
    case_match; [|by exists b']. rewrite <- Ec. by apply IH.
  - cbn [mbind outcome_bind]. rewrite lb_length_spec by done. change (lb_length (lb_content b)) with (zlen (lb_content b)).
    rewrite Ec. by exists b'.
Qed.

Lemma parse_headers_same_run req b :
  lb_ok b -> same_run (evhttp_parse_headers_ req b) (evhttp_parse_headers_ req (lb_content b)).
Proof. intros Hb. unfold evhttp_parse_headers_. rewrite lb_length_spec by done. by apply headers_same_run. Qed.

(** Whatever buffer keeps the promises of [LineBuffer], as the chain buffer of
    [libevent/buffer.c] does, reading a head from it is reading it from the plain
    sequence of its bytes, and leaves the same bytes. *)
Theorem head_read_from_bytes state req b :
  lb_ok b -> same_run (read_head state req b) (read_head state req (lb_content b)).
Proof.
  intros Hb. unfold read_head.
  assert (forall req b, lb_ok b ->
    same_run ('(s, req, buffer) ← evhttp_parse_headers_ req b; Done (s, READING_HEADERS, req, buffer))
      ('(s, req, buffer) ← evhttp_parse_headers_ req (lb_content b); Done (s, READING_HEADERS, req, buffer))) as Hh.
  { intros r c Hc. pose proof (parse_headers_same_run r c Hc) as Hs. unfold same_run in Hs.
    destruct (evhttp_parse_headers_ r (lb_content c)) as [[[s r'] rest]|].
    - destruct Hs as (c' & -> & Hc' & Hr). by exists c'.
    - by rewrite Hs. }
  destruct state; [|by apply Hh]. pose proof (firstline_same_run req b Hb) as Hs. unfold same_run in Hs.
  destruct (evhttp_parse_firstline_ req (lb_content b)) as [[[s r'] rest]|]; [|by rewrite Hs].
  destruct Hs as (c' & -> & Hc' & <-). cbn [mbind outcome_bind].
  destruct s; [by apply Hh|by exists c'..].
Qed.

End AnyBuffer.

(** ** Bytes that arrive in pieces *)

Definition sent_in_pieces (pieces : list (list byte)) : list byte := concat pieces.

(** Each piece is added to what is left, and read. *)
Fixpoint feed (state : reading) (req : evhttp_request) (buf : list byte) (pieces : list (list byte))
    : outcome (message_read_status * reading * evhttp_request * list byte) :=
  match pieces with
  | [] => Done (MORE_DATA_EXPECTED, state, req, buf)
  | p :: pieces =>
      '(s, state, req, rest) ← read_head state req (buf ++ p);
      match s with
      | MORE_DATA_EXPECTED => feed state req rest pieces
      | _ => Done (s, state, req, rest ++ sent_in_pieces pieces)
      end
  end.

Lemma headers_loop_fuel m n req s :
  (length s < m)%nat -> (length s < n)%nat -> headers_loop m req s = headers_loop n req s.
Proof.
  revert n req s. induction m as [|m IH]; intros n req s Hm Hn; [lia|]. destruct n as [|n]; [lia|].
  cbn [headers_loop]. rewrite list_readln. destruct (take_line s) as [[l r]|] eqn:E; cbn [mbind outcome_bind]; [|done].
  apply take_line_len in E. pose proof (zlen_nonneg l). unfold zlen in *.
  do 2 (case_match; [done|]). case_match; [|done]. apply IH; lia.
Qed.

Lemma parse_headers_list req s : evhttp_parse_headers_ req s = headers_loop (S (length s)) req s.
Proof. unfold evhttp_parse_headers_. change (lb_length s) with (zlen s). unfold zlen. by rewrite Nat2Z.id. Qed.

(** A result other than [MORE_DATA_EXPECTED] keeps what came after; that one is
    taken up by the next call.  The limit alone can tell the pieces apart. *)
(** The test at the head of an equation. *)
Ltac head_test := lazymatch goal with |- (if ?b then _ else _) = _ -> _ => destruct b eqn:? end.

Lemma headers_loop_more n m req s t st req' rest :
  (length (s ++ t) < m)%nat -> (length s < n)%nat -> headers_loop n req s = Done (st, req', rest) ->
  match st with
  | MORE_DATA_EXPECTED => headers_loop m req (s ++ t) = evhttp_parse_headers_ req' (rest ++ t)
  | DATA_TOO_LONG => True
  | _ => headers_loop m req (s ++ t) = Done (st, req', rest ++ t)
  end.
Proof.
  revert m req s. induction n as [|n IH]; intros m req s Hm Hn; [lia|]. destruct m as [|m]; [lia|].
  cbn [headers_loop]. rewrite !list_readln. destruct (take_line s) as [[l r]|] eqn:E.
  - rewrite (take_line_more _ _ _ t E). cbn [mbind outcome_bind].
    apply take_line_len in E. pose proof (zlen_nonneg l). unfold zlen in *. rewrite length_app in Hm.
    head_test; [by intros [= <- <- <-]|]. head_test; [by intros [= <- <- <-]|].
    destruct (header_line _ _) as [hs|]; [|by intros [= <- <- <-]]. intros Hl. apply IH; [rewrite length_app; lia|lia|done].
  - cbn [mbind outcome_bind]. destruct (too_long _ _); intros [= <- <- <-]; [done|].
    rewrite parse_headers_list, (headers_loop_fuel (S (length (s ++ t))) (S m)) by lia.
    cbn [headers_loop]. by rewrite list_readln.
Qed.

Lemma parse_headers_more req s t st req' rest :
  evhttp_parse_headers_ req s = Done (st, req', rest) ->
  match st with
  | MORE_DATA_EXPECTED => evhttp_parse_headers_ req (s ++ t) = evhttp_parse_headers_ req' (rest ++ t)
  | DATA_TOO_LONG => True
  | _ => evhttp_parse_headers_ req (s ++ t) = Done (st, req', rest ++ t)
  end.
Proof. rewrite (parse_headers_list req s), (parse_headers_list req (s ++ t)). apply headers_loop_more; lia. Qed.

Lemma firstline_more req s t st req' rest :
  evhttp_parse_firstline_ req s = Done (st, req', rest) ->
  match st with
  | MORE_DATA_EXPECTED => req' = req /\ rest = s
  | DATA_TOO_LONG => True
  | _ => evhttp_parse_firstline_ req (s ++ t) = Done (st, req', rest ++ t)
  end.
Proof.
  unfold evhttp_parse_firstline_. rewrite !list_readln. destruct (take_line s) as [[l r]|] eqn:E.
  - rewrite (take_line_more _ _ _ t E). cbn [mbind outcome_bind]. head_test; [by intros [= <- <- <-]|].
    set (m := match rq_kind _ with EVHTTP_REQUEST => _ | EVHTTP_RESPONSE => _ end).
    destruct m as [[res r']|]; [|done]. cbn [mbind outcome_bind]. destruct (res =? -1); by intros [= <- <- <-].
  - cbn [mbind outcome_bind]. destruct (too_long _ _); by intros [= <- <- <-].
Qed.

Lemma read_head_more state req s t st state' req' rest :
  read_head state req s = Done (st, state', req', rest) ->
  match st with
  | MORE_DATA_EXPECTED => read_head state req (s ++ t) = read_head state' req' (rest ++ t)
  | DATA_TOO_LONG => True
  | _ => read_head state req (s ++ t) = Done (st, state', req', rest ++ t)
  end.
Proof.
  assert (forall req s, ('(s, req, buffer) ← evhttp_parse_headers_ req s; Done (s, READING_HEADERS, req, buffer)) =
      Done (st, state', req', rest) ->
    match st with
    | MORE_DATA_EXPECTED => ('(s, req, buffer) ← evhttp_parse_headers_ req (s ++ t); Done (s, READING_HEADERS, req, buffer)) =
        read_head state' req' (rest ++ t)
    | DATA_TOO_LONG => True
    | _ => ('(s, req, buffer) ← evhttp_parse_headers_ req (s ++ t); Done (s, READING_HEADERS, req, buffer)) =
        Done (st, state', req', rest ++ t)
    end) as Hh.
  { intros r b Hr. destruct (evhttp_parse_headers_ r b) as [[[s1 r1] rest1]|] eqn:E; [|done]. cbn [mbind outcome_bind] in Hr.
    injection Hr as -> <- -> ->. pose proof (parse_headers_more r b t _ _ _ E) as Hm. destruct st; by rewrite ?Hm. }
  unfold read_head at 1. destruct state; [|apply Hh].
  destruct (evhttp_parse_firstline_ req s) as [[[s1 r1] rest1]|] eqn:E; [|done]. cbn [mbind outcome_bind].
  pose proof (firstline_more req s t _ _ _ E) as Hm. destruct s1.
  - intros Hr. apply Hh in Hr.
    assert (read_head READING_FIRSTLINE req (s ++ t) =
      ('(s, req, buffer) ← evhttp_parse_headers_ r1 (rest1 ++ t); Done (s, READING_HEADERS, req, buffer))) as ->
      by (unfold read_head; by rewrite Hm).
    exact Hr.
  - intros [= <- <- <- <-]. by destruct Hm as [-> ->].
  - intros [= <- <- <- <-]. unfold read_head. by rewrite Hm.
  - intros [= <- <- <- <-]. unfold read_head. by rewrite Hm.
  - by intros [= <- <- <- <-].
Qed.

(** C24: it makes no difference in what pieces the bytes of a head arrive: unless the
    reader ends with [DATA_TOO_LONG] (a line of exactly the limit whose CR LF is
    split is refused in pieces and taken at once), the request, the status and the
    bytes left are those of one call with all the bytes. *)
Theorem head_in_pieces state req pieces st state' req' rest :
  feed state req [] pieces = Done (st, state', req', rest) -> pieces <> [] -> st <> DATA_TOO_LONG ->
  read_head state req (sent_in_pieces pieces) = Done (st, state', req', rest).
Proof.
  assert (forall pieces state req buf p, feed state req buf (p :: pieces) = Done (st, state', req', rest) -> st <> DATA_TOO_LONG ->
    read_head state req (buf ++ p ++ sent_in_pieces pieces) = Done (st, state', req', rest)) as H.
  { clear. intros pieces. induction pieces as [|q pieces IH]; intros state req buf p Hf Hst; cbn [feed] in Hf;
      destruct (read_head state req (buf ++ p)) as [[[[s1 state1] r1] rest1]|] eqn:E; try done; cbn [mbind outcome_bind] in Hf.
    - unfold sent_in_pieces in *. cbn [concat] in *. rewrite !app_nil_r in *. destruct s1; congruence.
    - pose proof (read_head_more state req (buf ++ p) (sent_in_pieces (q :: pieces)) _ _ _ _ E) as Hm.
      rewrite app_assoc. unfold sent_in_pieces in *. cbn [concat] in *.
      destruct s1; try (injection Hf as <- <- <- <-; done). rewrite Hm. by apply IH. }
  destruct pieces as [|p pieces]; [done|]. intros Hf _ Hst. by apply (H pieces state req [] p).
Qed.

(** ** What is written is read back *)

(** Text that stays on its line. *)
Definition plain_char (c : byte) : bool := negb (is_eol c) && negb (bool_decide (c = x00)).
Definition plain (l : list byte) : Prop := forallb plain_char l = true.

Lemma plain_facts l : plain l -> LF ∉ l /\ x00 ∉ l /\ existsb is_eol l = false.
Proof.
  unfold plain. intros H. rewrite forallb_forall in H. split_and!.
  - intros Hin%list_elem_of_In%H. by vm_compute in Hin.
  - intros Hin%list_elem_of_In%H. by vm_compute in Hin.
  - destruct (existsb is_eol l) eqn:E; [|done]. apply existsb_exists in E as (c & Hc%H & He). unfold plain_char in Hc.
    by rewrite He in Hc.
Qed.

Lemma plain_app a b : plain (a ++ b) <-> plain a /\ plain b.
Proof. unfold plain. rewrite forallb_app. apply andb_true_iff. Qed.

Lemma plain_value v : plain v -> valid_value_from v false = true.
Proof.
  unfold plain. intros H. induction v as [|c v IH]; [done|]. simpl in H. zb. unfold plain_char in H. zb.
  cbn [valid_value_from]. rewrite H. by apply IH.
Qed.

(** A header that is read back as it is written: no line ends, no colon in the key,
    and no blanks where the reader skips them. *)
Record sendable (h : header) : Prop := {
  key_plain : plain h.1;
  value_plain : plain h.2;
  key_colon : COLON ∉ h.1;
  key_blank : is_blank (next_char h.1) = false;
  value_start : next_char h.2 <> SPACE;
  value_end : match last h.2 with Some c => is_blank c = false | None => True end }.

Lemma drop_blanks_none P l : match l with [] => True | c :: _ => P c = false end -> drop_blanks P l = l.
Proof. intros H. unfold drop_blanks. destruct l as [|c l]; [done|]. cbn [span]. by rewrite H. Qed.

Lemma rtrim_none l : match last l with Some c => is_blank c = false | None => True end -> evutil_rtrim_lws_ l = l.
Proof.
  intros H. unfold evutil_rtrim_lws_. rewrite drop_blanks_none; [apply rev_involutive|].
  destruct l as [|x l _] using rev_ind; [done|]. rewrite last_snoc in H. by rewrite rev_app_distr.
Qed.

Definition header_text (h : header) : list byte := h.1 ++ COLON :: SPACE :: h.2.

Lemma header_lines_cons h hs : header_lines (h :: hs) = header_text h ++ CR :: LF :: header_lines hs.
Proof.
  unfold header_lines, header_text. rewrite bind_cons. change (bytes_of ": ") with [COLON; SPACE]. unfold CRLF.
  rewrite <- !app_assoc. done.
Qed.

Lemma header_text_plain h : sendable h -> plain (header_text h).
Proof. intros Hh. unfold header_text. apply plain_app. split; [apply Hh|]. unfold plain. simpl. apply (value_plain h Hh). Qed.

Lemma header_line_sent hs h : sendable h -> header_line hs (header_text h) = Some (hs ++ [h]).
Proof.
  intros Hh. unfold header_line, header_text.
  assert (is_blank (next_char (h.1 ++ COLON :: SPACE :: h.2)) = false) as ->.
  { pose proof (key_blank h Hh). by destruct (h.1). }
  rewrite strsep_app by apply (key_colon h Hh).
  assert (drop_blanks (fun c => bool_decide (c = SPACE)) (SPACE :: h.2) = h.2) as ->.
  { unfold drop_blanks. cbn [span]. rewrite bool_decide_eq_true_2 by done.
    pose proof (drop_blanks_none (fun c => bool_decide (c = SPACE)) h.2) as Hd. unfold drop_blanks in Hd.
    destruct (span _ h.2) as [a b] eqn:E. simpl in *. apply Hd. pose proof (value_start h Hh).
    destruct (h.2); [done|]. by apply bool_decide_eq_false. }
  rewrite rtrim_none by apply (value_end h Hh). unfold evhttp_add_header, evhttp_header_is_valid_value.
  rewrite (proj2 (proj2 (plain_facts _ (key_plain h Hh)))), (plain_value h.2 (value_plain h Hh)).
  cbn. by destruct h.
Qed.

(** The limit allows [n] bytes of head. *)
Definition room (req : evhttp_request) (n : Z) : Prop :=
  n < 2 ^ 64 /\ match rq_evcon req with Some c => n <= max_headers_size c | None => True end.

Lemma room_not_long req n k : room req n -> k <= n -> too_long req k = false.
Proof. intros [_ Hn] Hk. unfold too_long. destruct (rq_evcon req); [|done]. apply Z.ltb_ge. lia. Qed.

Lemma too_long_with req hs n k : too_long (with_input_headers req hs n) k = too_long req k.
Proof. done. Qed.

Lemma headers_loop_written hs fuel req rest :
  Forall sendable hs -> 0 <= headers_size req -> room req (headers_size req + zlen (header_lines hs)) ->
  (length hs < fuel)%nat ->
  exists n, headers_loop fuel req (header_lines hs ++ CR :: LF :: rest) =
    Done (ALL_DATA_READ, with_input_headers req (input_headers req ++ hs) n, rest).
Proof.
  intros Hhs. revert fuel req. induction Hhs as [|h hs Hh Hhs IH]; intros fuel req Hsz Hroom Hf;
    (destruct fuel as [|fuel]; [simpl in Hf; lia|]); cbn [headers_loop]; rewrite list_readln.
  - change (header_lines [] ++ CR :: LF :: rest) with ([] ++ CR :: LF :: rest).
    rewrite take_line_crlf by apply not_elem_of_nil. cbn [mbind outcome_bind].
    rewrite zlen_nil in *. rewrite Z.add_0_r in *. rewrite u64_small by (unfold room in Hroom; lia).
    rewrite too_long_with, (room_not_long _ _ _ Hroom) by (simpl; lia). rewrite bool_decide_eq_true_2 by done.
    rewrite app_nil_r. by eexists.
  - rewrite header_lines_cons, <- app_assoc in *. pose proof (header_text_plain h Hh) as Hp.
    destruct (plain_facts _ Hp) as (Hlf & Hnul & _). rewrite zlen_app, !zlen_cons in Hroom.
    pose proof (zlen_nonneg (header_text h)). pose proof (zlen_nonneg (header_lines hs)).
    change ((CR :: LF :: header_lines hs) ++ CR :: LF :: rest) with (CR :: LF :: header_lines hs ++ CR :: LF :: rest).
    rewrite take_line_crlf by done. cbn [mbind outcome_bind].
    assert (room req (headers_size req + (zlen (header_text h) + (1 + (1 + zlen (header_lines hs)))))) as [Hr64 _] by done.
    rewrite u64_small by lia. rewrite too_long_with, (room_not_long _ _ _ Hroom) by (simpl; lia).
    rewrite cstr_plain by done. rewrite bool_decide_eq_false_2.
    2: { unfold header_text. by destruct (h.1). }
    cbn [input_headers with_input_headers]. rewrite header_line_sent by done.
    set (req1 := with_input_headers _ _ _).
    destruct (IH fuel req1) as [n E]; [simpl; lia| |simpl in Hf; lia|].
    { unfold req1. destruct Hroom as [_ Hroom]. split; [simpl; lia|]. simpl. destruct (rq_evcon req); [lia|done]. }
    exists n. rewrite E. unfold req1. simpl. by rewrite <- app_assoc.
Qed.

(** *** The first line *)

Lemma saturate_small v : 0 <= v <= INT64_MAX -> saturate v = v.
Proof. unfold saturate, INT64_MAX. lia. Qed.

Lemma scan_d_dec n rest : 0 <= n < 2 ^ 31 -> digits_end rest -> scan_d (print_dec n ++ rest) = Some (n, rest).
Proof.
  intros Hn Hr. unfold scan_d. rewrite number_prefix_dec, span_dec by done.
  destruct (print_dec n) as [|c t] eqn:E; [by destruct (print_dec_not_nil n)|]. rewrite <- E, print_dec_value by lia.
  rewrite saturate_small by (unfold INT64_MAX; lia). by rewrite i32_small by lia.
Qed.

Lemma strtoll_dec n : 0 <= n <= INT64_MAX -> evutil_strtoll (print_dec n) false = (n, []).
Proof.
  intros Hn. unfold evutil_strtoll. rewrite <- (app_nil_r (print_dec n)), number_prefix_dec. cbn [digits_of].
  rewrite span_dec by done. destruct (print_dec n) as [|c t] eqn:E; [by destruct (print_dec_not_nil n)|]. rewrite <- E.
  rewrite print_dec_value by (unfold INT64_MAX in Hn; lia). by rewrite saturate_small.
Qed.

Lemma drop_prefix_app p l : drop_prefix p (p ++ l) = Some l.
Proof. induction p as [|c p IH]; [done|]. simpl. by rewrite bool_decide_eq_true_2. Qed.

Definition version_ok (major minor : Z) : Prop := 0 <= major <= 1 /\ 0 <= minor < 128.

Lemma version_written req :
  version_ok (rq_major req) (rq_minor req) ->
  evhttp_parse_http_version (version_text req) = Some (rq_major req, rq_minor req).
Proof.
  intros [H1 H2]. unfold evhttp_parse_http_version, scan_version, version_text.
  rewrite drop_prefix_app. cbn [mbind option_bind]. rewrite scan_d_dec by (done || lia). cbn [mbind option_bind].
  assert (forall l, scan_dot (DOT :: l) = Some l) as -> by (intros l; cbn [scan_dot]; by rewrite bool_decide_eq_true_2).
  cbn [mbind option_bind]. rewrite <- (app_nil_r (print_dec (rq_minor req))), scan_d_dec by (done || lia).
  cbn [mbind option_bind]. rewrite (proj2 (Z.ltb_ge 1 _)) by lia. unfold i8.
  by rewrite !Z.mod_small, !Z.add_simpl_r by lia.
Qed.

Definition method_text_ok (type : Z) : bool :=
  match evhttp_method type with
  | Some m => (method_type m =? type) && forallb (fun c => plain_char c && negb (bool_decide (c = SPACE))) m
  | None => true
  end.

Lemma methods_ok type : method_text_ok type = true.
Proof.
  unfold method_text_ok, evhttp_method.
  repeat (destruct (type =? _) eqn:E; [apply Z.eqb_eq in E; subst; vm_compute; reflexivity|clear E]). done.
Qed.

Definition no_space (l : list byte) : Prop := SPACE ∉ l.

Lemma method_facts type m :
  evhttp_method type = Some m -> method_type m = type /\ plain m /\ SPACE ∉ m.
Proof.
  intros E. pose proof (methods_ok type) as H. unfold method_text_ok in H. rewrite E in H. zb. split; [done|].
  rewrite forallb_forall in H0. split.
  - apply forallb_forall. intros c Hc%H0. by zb.
  - intros Hin%list_elem_of_In%H0. by vm_compute in Hin.
Qed.

Lemma dec_plain n : plain (print_dec n) /\ SPACE ∉ print_dec n.
Proof.
  pose proof (print_dec_digits n) as H. split.
  - apply forallb_forall. intros c Hc%list_elem_of_In. rewrite Forall_forall in H. apply H in Hc.
    pose proof (implies_spec EVUTIL_ISDIGIT_ plain_char ltac:(vm_compute; reflexivity) c Hc). done.
  - intros Hin. rewrite Forall_forall in H. apply H in Hin. by vm_compute in Hin.
Qed.

Lemma version_plain req : plain (version_text req) /\ SPACE ∉ version_text req.
Proof.
  unfold version_text. destruct (dec_plain (rq_major req)) as [H1 H2], (dec_plain (rq_minor req)) as [H3 H4]. split.
  - apply plain_app. split; [done|]. apply plain_app. split; [done|]. change (DOT :: print_dec (rq_minor req)) with ([DOT] ++ print_dec (rq_minor req)).
    by apply plain_app.
  - rewrite !elem_of_app, elem_of_cons. intros [H|[H|[H|H]]]; [|done|done|done].
    apply list_elem_of_In in H. simpl in H. intuition discriminate.
Qed.

(** A request that can be written: a known method, a version the reader takes, and
    a target without blanks that is a URI. *)
Record sendable_request (req : evhttp_request) (e : evhttp_uri) : Prop := {
  method_known : evhttp_method (rq_type req) <> None;
  version_fine : version_ok (rq_major req) (rq_minor req);
  target : exists uri, rq_uri req = Some uri /\ plain uri /\ SPACE ∉ uri /\
    evhttp_uri_parse_with_flags uri EVHTTP_URI_NONCONFORMANT = Done (Some e) }.

(** A new request on an incoming connection. *)
Record fresh_incoming (req : evhttp_request) : Prop := {
  incoming_kind : rq_kind req = EVHTTP_REQUEST;
  incoming_server : exists c h, rq_evcon req = Some c /\ http_server c = Some h;
  incoming_headers : input_headers req = [] }.

(** The request that was read is the one that was written. *)
Record same_request (sent got : evhttp_request) (e : evhttp_uri) : Prop := {
  same_type : rq_type got = rq_type sent;
  same_uri : rq_uri got = rq_uri sent /\ uri_elems got = Some e;
  same_version : rq_major got = rq_major sent /\ rq_minor got = rq_minor sent }.

Definition request_text (req : evhttp_request) : list byte :=
  default (bytes_of "NULL") (evhttp_method (rq_type req)) ++ SPACE :: default (bytes_of "(null)") (rq_uri req) ++
  SPACE :: version_text req.

Lemma request_line_read sent got e :
  sendable_request sent e -> fresh_incoming got ->
  exists got', evhttp_parse_request_line got (request_text sent) = Done (0, got') /\ same_request sent got' e /\
    rq_evcon got' = rq_evcon got /\ input_headers got' = input_headers got /\ headers_size got' = headers_size got /\
    rq_kind got' = rq_kind got /\ plain (request_text sent).
Proof.
  intros [Hm Hv (uri & Hu & Hup & Hus & He)] [Hk (c & h & Hc & Hh) _]. unfold request_text, evhttp_parse_request_line.
  destruct (evhttp_method (rq_type sent)) as [m|] eqn:Em; [|done]. destruct (method_facts _ _ Em) as (Ht & Hmp & Hms).
  rewrite Hu. simpl default. destruct (version_plain sent) as [Hvp Hvs].
  rewrite strsep_app by done. rewrite strsep_app by done. rewrite strsep_none by done.
  rewrite version_written by done. rewrite He. cbn [mbind outcome_bind].
  assert (plain (m ++ SPACE :: uri ++ SPACE :: version_text sent)) as Hp.
  { apply plain_app. split; [done|]. change (plain ([SPACE] ++ uri ++ [SPACE] ++ version_text sent)). by rewrite !plain_app. }
  set (fl := match scheme e with Some _ => _ | None => _ end).
  assert (exists flags, fl = Done flags) as [flags ->].
  { unfold fl. rewrite Hc. cbn [deref mbind outcome_bind]. rewrite Hh. cbn [deref mbind outcome_bind].
    destruct (scheme e) as [s|], (host e) as [hn|]; try by eexists. destruct (is_http_scheme s); by eexists. }
  cbn [mbind outcome_bind]. eexists. split; [reflexivity|]. split; [|done]. by constructor.
Qed.

Lemma make_header_request_text req :
  (evhttp_make_header_request req).1 = request_text req ++ CR :: LF :: [].
Proof.
  unfold evhttp_make_header_request, request_text. cbn [fst]. rewrite <- app_assoc. cbn [app]. rewrite <- app_assoc. done.
Qed.

(** Reading a written head: the first line and the headers. *)
Lemma head_read sent got e hs rest :
  sendable_request sent e -> fresh_incoming got -> Forall sendable hs ->
  room got (zlen (request_text sent ++ CR :: LF :: header_lines hs)) ->
  exists got', read_head READING_FIRSTLINE got (request_text sent ++ CR :: LF :: header_lines hs ++ CR :: LF :: rest) =
      Done (ALL_DATA_READ, READING_HEADERS, got', rest) /\
    same_request sent got' e /\ input_headers got' = hs /\ rq_kind got' = EVHTTP_REQUEST.
Proof.
  intros Hs Hg Hhs Hroom. unfold read_head, evhttp_parse_firstline_. rewrite list_readln.
  set (got0 := with_input_headers got (input_headers got) (zlen (request_text sent))).
  assert (fresh_incoming got0) as Hg0 by (destruct Hg; by constructor).
  destruct (request_line_read sent got0 e Hs Hg0) as (got1 & E1 & Hsame & Hev & Hih & Hsz & Hk & Hp).
  destruct (plain_facts _ Hp) as (Hlf & Hnul & _). rewrite take_line_crlf by done. cbn [mbind outcome_bind].
  rewrite zlen_app, !zlen_cons in Hroom. pose proof (zlen_nonneg (header_lines hs)). pose proof (zlen_nonneg (request_text sent)).
  rewrite (room_not_long _ _ _ Hroom) by lia. fold got0.
  assert (rq_kind got0 = EVHTTP_REQUEST) as Hk0 by apply Hg0. rewrite Hk0. rewrite cstr_plain by done.
  rewrite E1. cbn [mbind outcome_bind Z.eqb]. rewrite parse_headers_list.
  destruct (headers_loop_written hs (S (length (header_lines hs ++ CR :: LF :: rest))) got1 rest Hhs) as [n E2].
  - rewrite Hsz. simpl. lia.
  - rewrite Hsz. destruct Hroom as [H64 Hroom]. split; [simpl; lia|]. rewrite Hev. simpl. destruct (rq_evcon got); [lia|done].
  - rewrite length_app. assert (length hs <= length (header_lines hs))%nat; [|lia].
    clear. induction hs as [|h hs IH]; [done|]. rewrite header_lines_cons, length_app. simpl. lia.
  - rewrite E2. cbn [mbind outcome_bind]. eexists. split; [reflexivity|].
    split; [by destruct Hsame; constructor|]. split; [|simpl; by rewrite Hk, Hk0].
    simpl. rewrite Hih. unfold got0. simpl. by rewrite (incoming_headers got Hg).
Qed.

(** *** Headers added and removed *)

Lemma remove_header_sub hs k : Forall sendable hs -> Forall sendable (evhttp_remove_header hs k).2.
Proof.
  intros H. induction H as [|h hs Hh Hhs IH]; [constructor|]. cbn [evhttp_remove_header].
  destruct (same_key h k); [done|]. destruct (evhttp_remove_header hs k). by constructor.
Qed.

Lemma find_removed hs k k' : evhttp_find_header hs k' = None -> evhttp_find_header (evhttp_remove_header hs k).2 k' = None.
Proof.
  induction hs as [|h hs IH]; [done|]. cbn [evhttp_find_header evhttp_remove_header].
  destruct (same_key h k') eqn:E'; [done|]. intros Hf. destruct (same_key h k); [done|].
  specialize (IH Hf). destruct (evhttp_remove_header hs k). simpl in *. by rewrite E'.
Qed.

Lemma find_app hs h k :
  evhttp_find_header hs k = None -> evhttp_find_header (hs ++ [h]) k = if same_key h k then Some h.2 else None.
Proof.
  induction hs as [|x hs IH]; cbn [evhttp_find_header app]; [done|]. destruct (same_key x k); [done|]. exact IH.
Qed.

Definition content_length_header (n : Z) : header := (bytes_of "Content-Length", print_dec n).

Lemma content_length_sendable n : sendable (content_length_header n).
Proof.
  destruct (dec_plain n) as [H1 H2]. constructor; simpl.
  - vm_compute. reflexivity.
  - done.
  - apply (bool_decide_unpack (COLON ∉ bytes_of "Content-Length")). vm_compute. reflexivity.
  - done.
  - destruct (print_dec n) as [|c l]; [done|]. simpl. intros ->. apply H2, list_elem_of_here.
  - destruct (last (print_dec n)) as [c|] eqn:E; [|done].
    pose proof (print_dec_digits n) as Hd. rewrite Forall_forall in Hd. apply last_Some_elem_of, Hd in E.
    pose proof (implies_spec EVUTIL_ISDIGIT_ (fun c => negb (is_blank c)) ltac:(vm_compute; reflexivity) c E) as Hb.
    by apply negb_true_iff in Hb.
Qed.

Lemma add_content_length hs n : add_to hs (bytes_of "Content-Length") (print_dec n) = hs ++ [content_length_header n].
Proof.
  unfold add_to, evhttp_add_header, evhttp_header_is_valid_value.
  change (existsb is_eol (bytes_of "Content-Length")) with false. cbv match.
  by rewrite plain_value by apply dec_plain.
Qed.

Definition sent_headers (req : evhttp_request) : list header := output_headers (evhttp_make_header_request req).2.

Lemma sent_headers_sendable req : Forall sendable (output_headers req) -> Forall sendable (sent_headers req).
Proof.
  intros H. unfold sent_headers, evhttp_make_header_request. cbn [snd]. simpl output_headers.
  pose proof (remove_header_sub _ (bytes_of "Proxy-Connection") H) as Hr.
  case_match; [|done]. rewrite add_content_length. apply Forall_app_2; [done|]. apply Forall_singleton, content_length_sendable.
Qed.

(** The bytes of a written request: its line, its headers and a body. *)
Lemma make_header_text date ct sent :
  rq_kind sent = EVHTTP_REQUEST ->
  exists body,
    (evhttp_make_header date ct sent).1 =
      request_text sent ++ CR :: LF :: header_lines (sent_headers sent) ++ CR :: LF :: body /\
    (body = [] \/ body = output_buffer sent) /\
    (evhttp_find_header (sent_headers sent) (bytes_of "Expect") = None -> body = output_buffer sent).
Proof.
  intros Hk. pose proof (make_header_request_text sent) as Htext. unfold evhttp_make_header. rewrite Hk. unfold sent_headers.
  destruct (evhttp_make_header_request sent) as [line sent'] eqn:E. simpl in Htext. subst line. cbn [fst snd].
  assert (output_buffer sent' = output_buffer sent) as Eb
    by (unfold evhttp_make_header_request in E; injection E as _ <-; done).
  assert (forall x, ((request_text sent ++ [CR; LF]) ++ header_lines (output_headers sent') ++ CRLF) ++ x =
    request_text sent ++ CR :: LF :: header_lines (output_headers sent') ++ CR :: LF :: x) as Happ.
  { intros x. rewrite <- !app_assoc. done. }
  destruct (evhttp_have_expect sent' false) eqn:Ee.
  - exists (output_buffer sent). cbn [fst]. rewrite Happ, Eb. split; [done|]. auto.
  - exists []. cbn [fst]. split; [by rewrite <- Happ, app_nil_r|]. split; [auto|].
    intros Hn. unfold evhttp_have_expect in Ee. rewrite Hn in Ee. by destruct (_ || _) in Ee.
  - exists (output_buffer sent). cbn [fst]. rewrite Happ, Eb. split; [done|]. auto.
Qed.

(** C23: the head that [evhttp_make_header] writes for a request that can be sent -
    a known method, a version the reader takes, a target without blanks that is a
    URI ([sendable_request]), headers without line ends, colons in the key or
    blanks the reader skips ([sendable]), within the limit of the reader ([room]) -
    is read back as a request with the same method, target, version and headers
    that were sent, and what is left is the body, or nothing when the request
    waits for the go-ahead.  For a POST or PUT with a body that is not empty and
    without a Content-Length, Transfer-Encoding or Expect header of the user, the
    body read next has the length of the one that was sent (no other method's body
    gets a length). *)
Theorem request_round_trip date ct sent got e c input_length :
  rq_kind sent = EVHTTP_REQUEST -> sendable_request sent e -> Forall sendable (output_headers sent) ->
  fresh_incoming got -> room got (zlen (evhttp_make_header date ct sent).1) ->
  exists got' body,
    read_head READING_FIRSTLINE got (evhttp_make_header date ct sent).1 = Done (ALL_DATA_READ, READING_HEADERS, got', body) /\
    same_request sent got' e /\ input_headers got' = sent_headers sent /\
    (body = [] \/ body = output_buffer sent) /\
    (rq_type sent = EVHTTP_REQ_POST \/ rq_type sent = EVHTTP_REQ_PUT ->
     (forall k, k ∈ ["Content-Length"; "Transfer-Encoding"; "Expect"]%string ->
        evhttp_find_header (output_headers sent) (bytes_of k) = None) ->
     0 < zlen (output_buffer sent) <= INT64_MAX ->
     let '(step, req) := evhttp_get_body c got' input_length in
     step = ReadBody false /\ ntoread req = zlen (output_buffer sent) /\ body = output_buffer sent).
Proof.
  intros Hk Hs Hout Hg Hroom. pose proof (sent_headers_sendable sent Hout) as Hhs.
  destruct (make_header_text date ct sent Hk) as (body & Ebytes & Hbody & Hexp).
  destruct (head_read sent got e (sent_headers sent) body Hs Hg Hhs) as (got' & Er & Hsame & Hih & Hk').
  { destruct Hroom as [H1 H2]. rewrite Ebytes in *. rewrite !zlen_app, !zlen_cons, !zlen_app, !zlen_cons in *.
    pose proof (zlen_nonneg body). split; [lia|]. destruct (rq_evcon got); [lia|done]. }
  exists got', body. rewrite Ebytes. split; [done|]. split; [done|]. split; [done|]. split; [done|].
  intros Htype Hnone Hlen.
  assert (forall k, k ∈ ["Content-Length"; "Transfer-Encoding"; "Expect"]%string ->
    evhttp_find_header (evhttp_remove_header (output_headers sent) (bytes_of "Proxy-Connection")).2 (bytes_of k) = None) as Hn'
    by (intros k Hin; by apply find_removed, Hnone).
  assert (sent_headers sent = (evhttp_remove_header (output_headers sent) (bytes_of "Proxy-Connection")).2 ++
    [content_length_header (zlen (output_buffer sent))]) as Eh.
  { unfold sent_headers, evhttp_make_header_request. simpl output_headers.
    rewrite (Hn' "Content-Length"%string) by set_solver. rewrite bool_decide_eq_true_2 by done.
    assert ((rq_type sent =? EVHTTP_REQ_POST) || (rq_type sent =? EVHTTP_REQ_PUT) = true) as ->
      by (destruct Htype as [-> | ->]; done).
    by rewrite add_content_length. }
  unfold evhttp_get_body. rewrite Hk', (same_type _ _ _ Hsame).
  assert (evhttp_method_may_have_body (rq_type sent) = true) as -> by (destruct Htype as [-> | ->]; done).
  cbn [negb]. rewrite andb_false_r. unfold evhttp_get_body_length, evhttp_have_expect. simpl input_headers. simpl ntoread.
  rewrite Hih, Eh.
  rewrite (find_app _ _ (bytes_of "Transfer-Encoding")), (find_app _ _ (bytes_of "Content-Length")) by (apply Hn'; set_solver).
  change (same_key (content_length_header _) (bytes_of "Transfer-Encoding")) with false.
  change (same_key (content_length_header _) (bytes_of "Content-Length")) with true. cbv match. cbn [content_length_header snd].
  rewrite strtoll_dec by lia. rewrite bool_decide_eq_false_2 by apply print_dec_not_nil.
  rewrite (bool_decide_eq_true_2 ([] = [])), (proj2 (Z.ltb_ge _ 0)) by (done || lia). cbn [orb negb].
  change (0 =? -1) with false. cbv match. rewrite (proj2 (Z.ltb_ge _ 1)), andb_false_r by lia.
  rewrite (find_app _ _ (bytes_of "Expect")) by (apply Hn'; set_solver).
  change (same_key (content_length_header _) (bytes_of "Expect")) with false. cbv match.
  assert (body = output_buffer sent) as Eb.
  { apply Hexp. rewrite Eh, find_app by (apply Hn'; set_solver). done. }
  destruct (_ || _); by split_and!.
Qed.

(** *** Examples *)

Definition no_request (kind : evhttp_request_kind) : evhttp_request :=
  mkReq (Some (mkEvcon 4096 1000 (Some (mkHttp [] [] [] [])))) 0 [] [] kind 0 0 0 None None 0 0 0 None [] 0 false [] [].

Definition example_post : evhttp_request :=
  mkReq None 0 [] [(bytes_of "Host", bytes_of "example.com"); (bytes_of "Accept", bytes_of "text/html, */*")]
    EVHTTP_REQUEST EVHTTP_REQ_POST 0 0 (Some (bytes_of "/a?b=1")) None 1 1 0 None [] 0 false (bytes_of "hi") [].

Definition example_elems : evhttp_uri :=
  mkUri 1 None None None (-1) (Some (bytes_of "/a")) (Some (bytes_of "b=1")) None.

Lemma example_fresh : fresh_incoming (no_request EVHTTP_REQUEST).
Proof. constructor; [reflexivity| |reflexivity]. eexists _, _. split; reflexivity. Qed.

Lemma not_in_bytes c l : bool_decide (c ∉ l) = true -> c ∉ (l : list byte).
Proof. apply bool_decide_eq_true. Qed.

Lemma example_sendable : sendable_request example_post example_elems /\ Forall sendable (output_headers example_post).
Proof.
  split.
  - constructor; [done|split; simpl; lia|]. exists (bytes_of "/a?b=1"). split_and!;
      [reflexivity|vm_compute; reflexivity|apply not_in_bytes; vm_compute; reflexivity|vm_compute; reflexivity].
  - repeat (apply List.Forall_cons;
      [constructor; try (vm_compute; reflexivity); try (apply not_in_bytes; vm_compute; reflexivity); vm_compute; congruence|]).
    apply List.Forall_nil.
Qed.

Example request_round_trip_witness :
  exists got' body,
    read_head READING_FIRSTLINE (no_request EVHTTP_REQUEST) (evhttp_make_header [] None example_post).1 =
      Done (ALL_DATA_READ, READING_HEADERS, got', body) /\
    same_request example_post got' example_elems /\ input_headers got' = sent_headers example_post /\
    (body = [] \/ body = output_buffer example_post) /\
    (rq_type example_post = EVHTTP_REQ_POST \/ rq_type example_post = EVHTTP_REQ_PUT ->
     (forall k, k ∈ ["Content-Length"; "Transfer-Encoding"; "Expect"]%string ->
        evhttp_find_header (output_headers example_post) (bytes_of k) = None) ->
     0 < zlen (output_buffer example_post) <= INT64_MAX ->
     let '(step, req) := evhttp_get_body (mkEvcon 4096 1000 None) got' 2 in
     step = ReadBody false /\ ntoread req = zlen (output_buffer example_post) /\ body = output_buffer example_post).
Proof.
  apply (request_round_trip [] None example_post (no_request EVHTTP_REQUEST) example_elems (mkEvcon 4096 1000 None) 2).
  - reflexivity.
  - apply example_sendable.
  - apply example_sendable.
  - exact example_fresh.
  - vm_compute. split; [reflexivity|congruence].
Defined.

Definition example_pieces : list (list byte) :=
  [bytes_of "GET /x HT"; bytes_of "TP/1.1" ++ [CR]; LF :: bytes_of "Ho"; bytes_of "st: a" ++ CRLF ++ CRLF ++ bytes_of "re"; bytes_of "st"].

Definition example_read : evhttp_request :=
  mkReq (Some (mkEvcon 4096 1000 (Some (mkHttp [] [] [] [])))) 0 [(bytes_of "Host", bytes_of "a")] [] EVHTTP_REQUEST
    EVHTTP_REQ_GET 22 0 (Some (bytes_of "/x")) (Some (mkUri 1 None None None (-1) (Some (bytes_of "/x")) None None))
    1 1 0 None [] 0 false [] [].

Example head_in_pieces_witness :
  read_head READING_FIRSTLINE (no_request EVHTTP_REQUEST) (sent_in_pieces example_pieces) =
  Done (ALL_DATA_READ, READING_HEADERS, example_read, bytes_of "rest").
Proof.
  apply (head_in_pieces READING_FIRSTLINE (no_request EVHTTP_REQUEST) example_pieces); [vm_compute; reflexivity|done|done].
Defined.

Example head_read_from_bytes_witness :
  same_run (read_head READING_HEADERS (no_request EVHTTP_REQUEST) (sample_lines_mm, sample_lines))
    (read_head READING_HEADERS (no_request EVHTTP_REQUEST) (lb_content (sample_lines_mm, sample_lines))).
Proof.
  apply (head_read_from_bytes READING_HEADERS (no_request EVHTTP_REQUEST) (sample_lines_mm, sample_lines)).
  split; [|vm_compute; congruence]. constructor; [exact sample_lines_wf|reflexivity|reflexivity].
Defined.

(** *** What is let through *)

Definition split_value : list byte := bytes_of "a" ++ CRLF ++ CRLF ++ bytes_of " <html>".

Lemma plain_value_app v w : plain v -> valid_value_from (v ++ w) false = valid_value_from w false.
Proof.
  unfold plain. intros H. induction v as [|c v IH]; [done|]. simpl in H. zb. unfold plain_char in H. zb.
  cbn [valid_value_from app]. rewrite H. by apply IH.
Qed.

Lemma remove_absent hs k : evhttp_find_header hs k = None -> (evhttp_remove_header hs k).2 = hs.
Proof.
  induction hs as [|h hs IH]; [done|]. simpl. destruct (same_key h k); [done|]. intros H%IH.
  destruct (evhttp_remove_header hs k). simpl in *. by rewrite H.
Qed.

(** What is sent extends the headers of the user, unless one is taken out. *)
Lemma sent_headers_extend req :
  evhttp_find_header (output_headers req) (bytes_of "Proxy-Connection") = None ->
  exists more, sent_headers req = output_headers req ++ more.
Proof.
  intros H. unfold sent_headers, evhttp_make_header_request. cbn [snd]. simpl output_headers. rewrite remove_absent by done.
  case_match; [|exists []; by rewrite app_nil_r]. rewrite add_content_length. by eexists.
Qed.

Lemma header_lines_app hs hs' : header_lines (hs ++ hs') = header_lines hs ++ header_lines hs'.
Proof. unfold header_lines. apply bind_app. Qed.

(** The headers written with an empty line in a value: the head ends inside it. *)
Lemma header_lines_split before k v1 blank v2 after :
  header_lines (before ++ (k, v1 ++ CRLF ++ CRLF ++ blank :: v2) :: after) =
  header_lines (before ++ [(k, v1)]) ++ CR :: LF :: blank :: v2 ++ CRLF ++ header_lines after.
Proof.
  rewrite !header_lines_app, !header_lines_cons. unfold header_text, CRLF. cbn [fst snd].
  change (header_lines []) with ([] : list byte). repeat (rewrite <- app_assoc; cbn [app]). done.
Qed.

(** C40: for every header key and first part of a value that could be sent by
    themselves, every second part without line ends, and every blank, [evhttp_add_header] accepts the value in which
    an empty line and that blank stand between the parts; in the head of any
    request written with it (behind headers that can be sent and before any
    others, none of them Proxy-Connection, within the limit of the reader), the
    reader takes the first part for the value and the end of the
    head: the rest of the value and the headers after it are left as body. *)
Theorem header_value_ends_head before k v1 blank v2 after date ct sent got e :
  Forall sendable (before ++ [(k, v1)]) -> is_blank blank = true -> plain v2 ->
  rq_kind sent = EVHTTP_REQUEST -> sendable_request sent e -> fresh_incoming got ->
  output_headers sent = before ++ (k, v1 ++ CRLF ++ CRLF ++ blank :: v2) :: after ->
  evhttp_find_header (output_headers sent) (bytes_of "Proxy-Connection") = None ->
  room got (zlen (evhttp_make_header date ct sent).1) ->
  evhttp_add_header before k (v1 ++ CRLF ++ CRLF ++ blank :: v2) =
    (0, before ++ [(k, v1 ++ CRLF ++ CRLF ++ blank :: v2)]) /\
  exists got' more,
    read_head READING_FIRSTLINE got (evhttp_make_header date ct sent).1 =
      Done (ALL_DATA_READ, READING_HEADERS, got', blank :: v2 ++ CRLF ++ header_lines after ++ more) /\
    same_request sent got' e /\ input_headers got' = before ++ [(k, v1)].
Proof.
  intros Hhs Hb Hv2 Hk Hs Hg Hout Hpc Hroom. split.
  - apply Forall_app in Hhs as [_ Hh]. apply List.Forall_inv in Hh.
    destruct Hh as [Hkp Hvp _ _ _ _]. cbn [fst snd] in *. unfold evhttp_add_header, evhttp_header_is_valid_value.
    rewrite (proj2 (proj2 (plain_facts _ Hkp))), plain_value_app by done.
    assert (is_eol blank = false) as Hne.
    { unfold is_blank in Hb. apply orb_true_iff in Hb as [->%bool_decide_eq_true| ->%bool_decide_eq_true]; done. }
    cbn. rewrite Hne, Hb. cbn. by rewrite plain_value.
  - destruct (make_header_text date ct sent Hk) as (body & Et & _ & _).
    destruct (sent_headers_extend sent Hpc) as [more Em].
    rewrite Em, Hout, <- app_assoc in Et. cbn [app] in Et. rewrite header_lines_split in Et. setoid_rewrite (header_lines_app after more) in Et.
    set (rest := blank :: v2 ++ CRLF ++ header_lines after ++ header_lines more ++ CR :: LF :: body).
    assert ((evhttp_make_header date ct sent).1 =
      request_text sent ++ CR :: LF :: header_lines (before ++ [(k, v1)]) ++ CR :: LF :: rest) as Et'.
    { rewrite Et. unfold rest. do 3 f_equal. repeat (rewrite <- app_assoc; cbn [app]). done. }
    destruct (head_read sent got e (before ++ [(k, v1)]) rest Hs Hg Hhs) as (got' & Er & Hsame & Hih & _).
    { destruct Hroom as [H1 H2]. rewrite Et' in *. rewrite !zlen_app, !zlen_cons, !zlen_app, !zlen_cons in *.
      pose proof (zlen_nonneg rest). split; [lia|]. destruct (rq_evcon got); [lia|done]. }
    exists got', (header_lines more ++ CR :: LF :: body). rewrite Et'. done.
Qed.

Definition split_post : evhttp_request :=
  with_output_headers example_post [(bytes_of "X", split_value); (bytes_of "Y", bytes_of "1")].

Example header_value_ends_head_witness :
  exists got' more,
    read_head READING_FIRSTLINE (no_request EVHTTP_REQUEST) (evhttp_make_header [] None split_post).1 =
      Done (ALL_DATA_READ, READING_HEADERS, got',
            SPACE :: bytes_of "<html>" ++ CRLF ++ header_lines [(bytes_of "Y", bytes_of "1")] ++ more) /\
    same_request split_post got' example_elems /\ input_headers got' = [(bytes_of "X", bytes_of "a")].
Proof.
  apply (header_value_ends_head [] (bytes_of "X") (bytes_of "a") SPACE (bytes_of "<html>") [(bytes_of "Y", bytes_of "1")]
           [] None split_post (no_request EVHTTP_REQUEST) example_elems).
  - apply List.Forall_cons; [|apply List.Forall_nil].
    constructor; try (vm_compute; reflexivity); try (apply not_in_bytes; vm_compute; reflexivity); vm_compute; congruence.
  - reflexivity.
  - vm_compute. reflexivity.
  - reflexivity.
  - destruct (proj1 example_sendable). by constructor.
  - exact example_fresh.
  - vm_compute. reflexivity.
  - vm_compute. reflexivity.
  - vm_compute. split; [reflexivity|congruence].
Defined.

Definition with_length (v : string) : evhttp_request :=
  with_input_headers (no_request EVHTTP_REQUEST) [(bytes_of "Content-Length", bytes_of v)] 0.

(** Lengths that are not numbers of digits are accepted, and the first of two
    different ones is taken; a version is taken modulo 256. *)
Theorem lenient_numbers :
  evhttp_get_body_length (with_length " +7") = (0, 7) /\ evhttp_get_body_length (with_length "-0") = (0, 0) /\
  evhttp_get_body_length (with_input_headers (no_request EVHTTP_REQUEST)
    [(bytes_of "Content-Length", bytes_of "3"); (bytes_of "content-length", bytes_of "9")] 0) = (0, 3) /\
  evhttp_parse_http_version (bytes_of "HTTP/-255.257") = Some (1, 1).
Proof. split_and!; vm_compute; reflexivity. Qed.
