(* ===== verification/HttpChunk.v ===== *)
(** * Bodies in chunks

    Models how [libevent/http.c] reads a body: [evhttp_handle_chunked_read],
    [evhttp_read_trailer], [evhttp_read_body] with [evhttp_lingering_close], and
    the chunks that [evhttp_send_reply_chunk_with_cb] and
    [evhttp_send_reply_end] write.

    The connection's input and the request's [input_buffer] are the sequences of
    their bytes.  [chunk_cb] is the chunk callback, when there is one: it says
    whether the user cancels the request in it; what it has been given is
    recorded in [delivered]. *)

From S2P Require Import Prelude Ctype HttpText Inet InetSpec UriParse UriSpec HttpHost EvbufferSearch HttpLines HttpLineSpec HttpMessage HttpMessageSpec.

Section Body.
Context (chunk_cb : option (list byte -> bool)).

(** The callback on the input buffer, which is emptied after it: the request and
    whether it was cancelled. *)
Definition call_chunk_cb (cb : list byte -> bool) (req : evhttp_request) : evhttp_request * bool :=
  (with_body req (body_size req) [] (ntoread req) (chunked req) (delivered req ++ [input_buffer req]),
   cb (input_buffer req)).

(** The test [error] on a line [p] that is not empty. *)
Definition bad_chunk_size (p : list byte) : bool :=
  let '(n, endp) := evutil_strtoll p true in
  bool_decide (p = []) || negb (bool_decide (endp = []) || bool_decide (next_char endp = SPACE)) || (n <? 0).

Fixpoint chunk_loop (fuel : nat) (req : evhttp_request) (buf : list byte)
    : outcome (message_read_status * evhttp_request * list byte) :=
  match fuel with
  | O => Crash
  | S fuel =>
      let buflen := zlen buf in
      let set size input n := with_body req size input n (chunked req) (delivered req) in
      if buflen =? 0 then Done (MORE_DATA_EXPECTED, req, buf)
      else if EV_SSIZE_MAX <? buflen then Done (DATA_CORRUPTED, req, buf)
      else if ntoread req <? 0 then
        '(line, buf) ← lb_readln buf;
        match line with
        | None => Done (MORE_DATA_EXPECTED, req, buf)
        | Some line =>
            let p := cstr line in
            if bool_decide (p = []) then chunk_loop fuel req buf
            else if bad_chunk_size p then Done (DATA_CORRUPTED, req, buf)
            else
              let n := fst (evutil_strtoll p true) in
              if EV_SIZE_MAX - body_size req <? n then Done (DATA_CORRUPTED, req, buf)
              else
                evcon ← deref (rq_evcon req);
                if max_body_size evcon <? u64 (body_size req + n) then Done (DATA_TOO_LONG, req, buf)
                else
                  let req := set (u64 (body_size req + n)) (input_buffer req) n in
                  if n =? 0 then Done (ALL_DATA_READ, req, buf) else chunk_loop fuel req buf
        end
      else if EV_SSIZE_MAX <? ntoread req then Done (DATA_CORRUPTED, req, buf)
      else if (0 <? ntoread req) && (buflen <? ntoread req) then Done (MORE_DATA_EXPECTED, req, buf)
      else
        let req' := set (body_size req) (input_buffer req ++ ztake (ntoread req) buf) (-1) in
        let buf := zdrop (ntoread req) buf in
        match chunk_cb with
        | None => chunk_loop fuel req' buf
        | Some cb =>
            let '(req', cancelled) := call_chunk_cb cb req' in
            if cancelled : bool then Done (REQUEST_CANCELED, req', buf) else chunk_loop fuel req' buf
        end
  end.

Definition evhttp_handle_chunked_read (req : evhttp_request) (buf : list byte)
    : outcome (message_read_status * evhttp_request * list byte) :=
  chunk_loop (S (S (length buf))) req buf.

(** How reading the body goes on. *)
Inductive body_step :=
| BodyWait (trailer : bool)   (* for more bytes, of the trailer *)
| BodyDone                    (* evhttp_connection_done *)
| BodyTooLong                 (* evhttp_connection_fail_, EVREQ_HTTP_DATA_TOO_LONG *)
| BodyInvalid                 (* evhttp_connection_fail_, EVREQ_HTTP_INVALID_HEADER *)
| BodyCancelled.              (* evhttp_request_free_auto *)

Definition evhttp_read_trailer (req : evhttp_request) (buf : list byte)
    : outcome (body_step * evhttp_request * list byte) :=
  '(s, req, buf) ← evhttp_parse_headers_ req buf;
  Done (match s with
        | DATA_CORRUPTED | DATA_TOO_LONG => BodyTooLong
        | ALL_DATA_READ => BodyDone
        | MORE_DATA_EXPECTED | REQUEST_CANCELED => BodyWait true
        end, req, buf).

(** The bytes of the body that are there. *)
Definition body_part (req : evhttp_request) (buf : list byte) : Z := Z.min (zlen buf) (ntoread req).

(** [lingering] is [EVHTTP_CON_LINGERING_CLOSE]. *)
Definition evhttp_lingering_fail (lingering : bool) (req : evhttp_request) (buf : list byte)
    : body_step * evhttp_request * list byte :=
  if lingering then
    let n := if ntoread req <? 0 then zlen buf else body_part req buf in
    let req := with_body req (u64 (body_size req + n)) (input_buffer req) (ntoread req - n) (chunked req) (delivered req) in
    (if ntoread req =? 0 then BodyTooLong else BodyWait false, req, zdrop n buf)
  else (BodyTooLong, req, buf).

(** The end of [evhttp_read_body]. *)
Definition body_end (evcon : evhttp_connection) (lingering : bool) (req : evhttp_request) (buf : list byte)
    : body_step * evhttp_request * list byte :=
  if (max_body_size evcon <? body_size req) ||
     (negb (chunked req) && (0 <=? ntoread req) && (max_body_size evcon <? ntoread req))
  then evhttp_lingering_fail lingering req buf
  else
    let '(req, cancelled) :=
      match chunk_cb with
      | Some cb => if 0 <? zlen (input_buffer req) then call_chunk_cb cb req else (req, false)
      | None => (req, false)
      end in
    if cancelled then (BodyCancelled, req, buf)
    else if ntoread req =? 0 then (BodyDone, req, buf) else (BodyWait false, req, buf).

Definition evhttp_read_body (evcon : evhttp_connection) (lingering : bool) (req : evhttp_request) (buf : list byte)
    : outcome (body_step * evhttp_request * list byte) :=
  if chunked req then
    '(s, req, buf) ← evhttp_handle_chunked_read req buf;
    match s with
    | ALL_DATA_READ => evhttp_read_trailer req buf
    | DATA_CORRUPTED | DATA_TOO_LONG => Done (BodyTooLong, req, buf)
    | REQUEST_CANCELED => Done (BodyCancelled, req, buf)
    | MORE_DATA_EXPECTED => Done (body_end evcon lingering req buf)
    end
  else if ntoread req <? 0 then
    if u64 (body_size req + zlen buf) <? body_size req then Done (BodyInvalid, req, buf)
    else Done (body_end evcon lingering
           (with_body req (u64 (body_size req + zlen buf)) (input_buffer req ++ buf) (ntoread req) false (delivered req)) [])
  else if bool_decide (is_Some chunk_cb) || (ntoread req <=? zlen buf) then
    let n := body_part req buf in
    Done (body_end evcon lingering
      (with_body req (u64 (body_size req + n)) (input_buffer req ++ ztake n buf) (ntoread req - n) false (delivered req))
      (zdrop n buf))
  else Done (body_end evcon lingering req buf).

End Body.

(** ** Writing chunks *)

Fixpoint hex_rev (fuel : nat) (n : Z) : list byte :=
  match fuel with
  | O => []
  | S fuel => hex_digit_lower (n mod 16) :: (if n <? 16 then [] else hex_rev fuel (n / 16))
  end.

(** ["%x"] of an [unsigned]. *)
Definition print_hex32 (n : Z) : list byte := rev (hex_rev 8 n).

(** What [evhttp_send_reply_chunk_with_cb] adds to the output for the data of a
    reply that needs a body. *)
Definition evhttp_send_reply_chunk (is_chunked : bool) (data : list byte) : list byte :=
  if zlen data =? 0 then []
  else if is_chunked then print_hex32 (u32 (zlen data)) ++ CRLF ++ data ++ CRLF else data.

(** What [evhttp_send_reply_end] adds. *)
Definition evhttp_send_reply_end (is_chunked : bool) : list byte :=
  if is_chunked then bytes_of "0" ++ CRLF ++ CRLF else [].

(** ** Reading stops where the bytes stop *)

Section BodySpec.
Context (chunk_cb : option (list byte -> bool)).

Definition chunk_measure (req : evhttp_request) (buf : list byte) : nat :=
  (length buf + if (ntoread req =? 0)%Z then 1 else 0)%nat.

Lemma chunk_loop_total fuel req buf c :
  rq_evcon req = Some c -> (chunk_measure req buf < fuel)%nat ->
  exists st req' rest, chunk_loop chunk_cb fuel req buf = Done (st, req', rest) /\ rq_evcon req' = Some c.
Proof.
  revert req buf. induction fuel as [|fuel IH]; intros req buf Hc Hf; [lia|]. cbn [chunk_loop].
  unfold chunk_measure in *. destruct (zlen buf =? 0) eqn:E0; [by eexists _, _, _|]. case_test; [by eexists _, _, _|].
  destruct (ntoread req <? 0) eqn:En.
  - rewrite list_readln. destruct (take_line buf) as [[l r]|] eqn:El; cbn [mbind outcome_bind]; [|by eexists _, _, _].
    apply take_line_len in El. pose proof (zlen_nonneg l). unfold zlen in *. zb.
    assert (length r < length buf)%nat by lia.
    case_test; [apply IH; [done|]; destruct (ntoread req =? 0) eqn:Ez; zb; lia|].
    cbv zeta. do 2 (case_test; [by eexists _, _, _|]). rewrite Hc. cbn [deref mbind outcome_bind].
    case_test; [by eexists _, _, _|]. destruct (fst (evutil_strtoll (cstr l) true) =? 0) eqn:Ez; [by eexists _, _, _|].
    apply IH; [done|]. simpl. rewrite Ez. lia.
  - case_test; [by eexists _, _, _|]. case_test; [by eexists _, _, _|]. zb.
    assert (length (zdrop (ntoread req) buf) + 0 < fuel)%nat as Hd.
    { unfold zdrop. rewrite length_drop. unfold zlen in E0. destruct (ntoread req =? 0) eqn:Ez; zb; lia. }
    destruct chunk_cb as [cb|]; [|by apply IH]. unfold call_chunk_cb. case_test; [by eexists _, _, _|]. by apply IH.
Qed.

Lemma chunk_loop_fuel m n req buf :
  (chunk_measure req buf < m)%nat -> (chunk_measure req buf < n)%nat ->
  chunk_loop chunk_cb m req buf = chunk_loop chunk_cb n req buf.
Proof.
  revert n req buf. induction m as [|m IH]; intros n req buf Hm Hn; [lia|]. destruct n as [|n]; [lia|]. cbn [chunk_loop].
  unfold chunk_measure in *. destruct (zlen buf =? 0) eqn:E0; [done|]. case_test; [done|].
  destruct (ntoread req <? 0) eqn:En.
  - rewrite list_readln. destruct (take_line buf) as [[l r]|] eqn:El; cbn [mbind outcome_bind]; [|done].
    apply take_line_len in El. pose proof (zlen_nonneg l). unfold zlen in *. zb.
    assert (length r < length buf)%nat by lia.
    case_test; [apply IH; destruct (ntoread req =? 0) eqn:Ez; zb; lia|].
    cbv zeta. do 2 (case_test; [done|]). destruct (rq_evcon req); [|done]. cbn [deref mbind outcome_bind].
    case_test; [done|]. destruct (fst (evutil_strtoll (cstr l) true) =? 0) eqn:Ez; [done|].
    apply IH; simpl; rewrite Ez; lia.
  - case_test; [done|]. case_test; [done|]. zb.
    assert (length (zdrop (ntoread req) buf) + 0 < m /\ length (zdrop (ntoread req) buf) + 0 < n)%nat as [H1 H2].
    { unfold zdrop. rewrite length_drop. unfold zlen in E0. destruct (ntoread req =? 0) eqn:Ez; zb; lia. }
    destruct chunk_cb as [cb|]; [|by apply IH]. unfold call_chunk_cb. case_test; [done|]. by apply IH.
Qed.

Lemma measure_fuel req buf : (chunk_measure req buf < S (S (length buf)))%nat.
Proof. unfold chunk_measure. destruct (ntoread req =? 0); lia. Qed.

(** More bytes change nothing that has been decided. *)
Lemma chunk_loop_more n m req s t st req' rest :
  zlen (s ++ t) <= EV_SSIZE_MAX -> (chunk_measure req s < n)%nat -> (chunk_measure req (s ++ t) < m)%nat ->
  chunk_loop chunk_cb n req s = Done (st, req', rest) ->
  match st with
  | MORE_DATA_EXPECTED => chunk_loop chunk_cb m req (s ++ t) = evhttp_handle_chunked_read chunk_cb req' (rest ++ t)
  | _ => chunk_loop chunk_cb m req (s ++ t) = Done (st, req', rest ++ t)
  end.
Proof.
  intros Hmax. pose proof (zlen_nonneg t) as Ht. rewrite zlen_app in Hmax.
  revert m req s Hmax. induction n as [|n IH]; intros m req s Hmax Hn Hm; [lia|].
  pose proof (zlen_nonneg s) as Hs0.
  assert (chunk_loop chunk_cb m req (s ++ t) = evhttp_handle_chunked_read chunk_cb req (s ++ t)) as Hstop
    by (apply chunk_loop_fuel; [lia|apply measure_fuel]).
  cbn [chunk_loop]. destruct (zlen s =? 0) eqn:E0; [by intros [= <- <- <-]|]. zb.
  rewrite (proj2 (Z.ltb_ge _ (zlen s))) by lia.
  destruct m as [|m]; [lia|]. unfold chunk_measure in *. rewrite length_app in Hm.
  assert (zlen (s ++ t) =? 0 = false /\ EV_SSIZE_MAX <? zlen (s ++ t) = false) as [Hz0 Hzm].
  { rewrite zlen_app. split; [apply Z.eqb_neq; lia|apply Z.ltb_ge; lia]. }
  destruct (ntoread req <? 0) eqn:En.
  - rewrite list_readln. destruct (take_line s) as [[l r]|] eqn:El; [|by intros [= <- <- <-]]. cbn [mbind outcome_bind].
    cbn [chunk_loop]. rewrite Hz0, Hzm, En, list_readln, (take_line_more _ _ _ t El). cbn [mbind outcome_bind].
    apply take_line_len in El. pose proof (zlen_nonneg l). zb. rewrite (proj2 (Z.eqb_neq (ntoread req) 0)) in Hn, Hm by lia.
    assert (length r < length s)%nat by (unfold zlen in *; lia).
    destruct (bool_decide (cstr l = [])).
    { apply IH; [lia| |]; rewrite ?length_app, (proj2 (Z.eqb_neq (ntoread req) 0)) by lia; lia. }
    cbv zeta. head_test; [by intros [= <- <- <-]|]. head_test; [by intros [= <- <- <-]|].
    destruct (rq_evcon req); [|done]. cbn [deref mbind outcome_bind].
    head_test; [by intros [= <- <- <-]|]. destruct (fst (evutil_strtoll (cstr l) true) =? 0) eqn:Ez; [by intros [= <- <- <-]|].
    apply IH; [lia| |]; simpl; rewrite ?length_app, Ez; lia.
  - destruct (EV_SSIZE_MAX <? ntoread req) eqn:Em; [intros [= <- <- <-]; cbn [chunk_loop]; by rewrite Hz0, Hzm, En, Em|].
    destruct ((0 <? ntoread req) && (zlen s <? ntoread req)) eqn:Ew; [by intros [= <- <- <-]|].
    cbn [chunk_loop]. rewrite Hz0, Hzm, En, Em. zb.
    assert (0 <= ntoread req <= zlen s) as Hle by (destruct Ew; zb; lia).
    rewrite (proj2 (Z.ltb_ge (zlen (s ++ t)) _)), andb_false_r by (rewrite zlen_app; lia).
    assert (ztake (ntoread req) (s ++ t) = ztake (ntoread req) s /\ zdrop (ntoread req) (s ++ t) = zdrop (ntoread req) s ++ t) as [-> ->].
    { unfold ztake, zdrop, zlen in *. rewrite take_app_le, drop_app_le by lia. done. }
    assert (zlen (zdrop (ntoread req) s) <= zlen s /\ (length (zdrop (ntoread req) s) + 0 < n)%nat /\
      (length (zdrop (ntoread req) s ++ t) + 0 < m)%nat) as (H1 & H2 & H3).
    { unfold zdrop, zlen in *. rewrite !length_app, length_drop. destruct (ntoread req =? 0) eqn:Ez; zb; lia. }
    destruct chunk_cb as [cb|]; [|apply IH; [lia|done|done]]. unfold call_chunk_cb.
    head_test; [by intros [= <- <- <-]|]. apply IH; [simpl; lia|done|done].
Qed.

Lemma chunk_loop_shorter n req s st req' rest :
  chunk_loop chunk_cb n req s = Done (st, req', rest) -> zlen rest <= zlen s.
Proof.
  revert req s. induction n as [|n IH]; intros req s; [done|]. cbn [chunk_loop].
  head_test; [intros [= <- <- <-]; lia|]. head_test; [intros [= <- <- <-]; lia|]. head_test.
  - rewrite list_readln. destruct (take_line s) as [[l r]|] eqn:El; cbn [mbind outcome_bind]; [|intros [= <- <- <-]; lia].
    apply take_line_len in El. pose proof (zlen_nonneg l). cbv zeta.
    head_test; [intros Hl%IH; lia|]. head_test; [intros [= <- <- <-]; lia|]. head_test; [intros [= <- <- <-]; lia|].
    destruct (rq_evcon req); [|done]. cbn [deref mbind outcome_bind].
    head_test; [intros [= <- <- <-]; lia|]. head_test; [intros [= <- <- <-]; lia|]. intros Hl%IH. lia.
  - head_test; [intros [= <- <- <-]; lia|]. head_test; [intros [= <- <- <-]; lia|].
    assert (zlen (zdrop (ntoread req) s) <= zlen s) by (unfold zdrop, zlen; rewrite length_drop; lia).
    destruct chunk_cb as [cb|]; [|intros Hl%IH; lia]. unfold call_chunk_cb.
    head_test; [intros [= <- <- <-]; lia|]. intros Hl%IH. lia.
Qed.

Lemma handle_more req s t st req' rest :
  zlen (s ++ t) <= EV_SSIZE_MAX -> evhttp_handle_chunked_read chunk_cb req s = Done (st, req', rest) ->
  match st with
  | MORE_DATA_EXPECTED => evhttp_handle_chunked_read chunk_cb req (s ++ t) = evhttp_handle_chunked_read chunk_cb req' (rest ++ t)
  | _ => evhttp_handle_chunked_read chunk_cb req (s ++ t) = Done (st, req', rest ++ t)
  end.
Proof. intros Hm. apply chunk_loop_more; [done|apply measure_fuel..]. Qed.

Lemma handle_total req s c :
  rq_evcon req = Some c ->
  exists st req' rest, evhttp_handle_chunked_read chunk_cb req s = Done (st, req', rest) /\ rq_evcon req' = Some c.
Proof. intros Hc. apply chunk_loop_total; [done|apply measure_fuel]. Qed.
End BodySpec.

(** ** Chunks that were written *)

Lemma hex_digit_facts k :
  0 <= k < 16 -> hex_value (hex_digit_lower k) = k /\ EVUTIL_ISXDIGIT_ (hex_digit_lower k) = true.
Proof.
  intros Hk.
  assert (forallb (fun n => (hex_value (hex_digit_lower (Z.of_nat n)) =? Z.of_nat n) && EVUTIL_ISXDIGIT_ (hex_digit_lower (Z.of_nat n)))
    (seq 0 16) = true) as H by (vm_compute; reflexivity).
  rewrite forallb_forall in H. specialize (H (Z.to_nat k)). rewrite Z2Nat.id in H by lia.
  specialize (H ltac:(apply in_seq; lia)). by zb.
Qed.

Lemma hex_fold_snoc l c : hex_fold (l ++ [c]) = hex_fold l * 16 + hex_value c.
Proof. unfold hex_fold. by rewrite fold_left_app. Qed.

Lemma hex_rev_facts fuel n :
  0 <= n < 16 ^ Z.of_nat fuel -> hex_fold (rev (hex_rev fuel n)) = n /\ forallb EVUTIL_ISXDIGIT_ (hex_rev fuel n) = true.
Proof.
  revert n. induction fuel as [|fuel IH]; intros n Hn; cbn [hex_rev].
  { rewrite Z.pow_0_r in Hn. split; [unfold hex_fold; simpl; lia|done]. }
  replace (Z.of_nat (S fuel)) with (1 + Z.of_nat fuel) in Hn by lia. rewrite Z.pow_add_r in Hn by lia.
  destruct (hex_digit_facts (n mod 16)) as [Hv Hx]; [apply Z.mod_pos_bound; lia|].
  pose proof (Z.div_mod n 16 ltac:(lia)) as Hd. cbn [rev forallb]. rewrite hex_fold_snoc, Hv, Hx. destruct (n <? 16) eqn:E; zb.
  - split; [|done]. rewrite Z.mod_small by lia. unfold hex_fold. simpl. lia.
  - destruct (IH (n / 16)) as [-> ->]; [|split; [lia|done]].
    split; [apply Z.div_pos; lia|apply Z.div_lt_upper_bound; lia].
Qed.

Lemma print_hex32_facts n :
  0 <= n < 2 ^ 32 -> hex_fold (print_hex32 n) = n /\ forallb EVUTIL_ISXDIGIT_ (print_hex32 n) = true /\ print_hex32 n <> [].
Proof.
  intros Hn. destruct (hex_rev_facts 8 n) as [Hv Hx]; [done|]. unfold print_hex32. split_and!; [done| |].
  - apply forallb_forall. intros c Hc%in_rev. rewrite forallb_forall in Hx. by apply Hx.
  - cbn [hex_rev rev]. intros [_ H]%app_eq_nil. done.
Qed.

Lemma xdigit_plain_char c : EVUTIL_ISXDIGIT_ c = true -> EVUTIL_ISSPACE_ c = false /\ c <> MINUS /\ c <> PLUS /\ plain_char c = true.
Proof.
  intros H. assert (negb (EVUTIL_ISSPACE_ c) = true) as Hs.
  { revert H. apply (implies_spec _ (fun c => negb (EVUTIL_ISSPACE_ c))). vm_compute. reflexivity. }
  split; [by apply negb_true_iff|]. split_and!; [intros ->; by vm_compute in H..|].
  revert H. apply implies_spec. vm_compute. reflexivity.
Qed.

Lemma strtoll_hex n : 0 <= n < 2 ^ 32 -> evutil_strtoll (print_hex32 n) true = (n, []).
Proof.
  intros Hn. destruct (print_hex32_facts n Hn) as (Hv & Hx & Hne). set (h := print_hex32 n) in *. unfold evutil_strtoll.
  assert (number_prefix h = (false, h)) as ->.
  { unfold number_prefix. destruct h as [|c t]; [done|]. simpl in Hx. zb.
    destruct (xdigit_plain_char c) as (Hs & N1 & N2 & _); [done|]. cbn [span]. rewrite Hs.
    by rewrite (bool_decide_eq_false_2 _ N1), (bool_decide_eq_false_2 _ N2). }
  assert (span EVUTIL_ISXDIGIT_ h = (h, [])) as Hsp by (rewrite <- (app_nil_r h) at 1; by apply span_app).
  assert (digits_of true h = (n, h, [])) as ->.
  { unfold digits_of. destruct h as [|z [|x [|d t]]]; try (rewrite Hsp, Hv; done).
    simpl in Hx. zb. destruct (xdigit_not_x x) as (N1 & N2 & _); [done|].
    rewrite (bool_decide_eq_false_2 _ N1), (bool_decide_eq_false_2 _ N2), andb_false_r. by rewrite Hsp, Hv. }
  destruct h; [done|]. by rewrite saturate_small by (unfold INT64_MAX; lia).
Qed.

(** A chunk and the end of the body. *)
Definition chunk_text (d : list byte) : list byte := evhttp_send_reply_chunk true d.
Definition chunk_stream (ds : list (list byte)) : list byte := (ds ≫= chunk_text) ++ evhttp_send_reply_end true.

Definition chunk_ok (d : list byte) : Prop := 0 < zlen d < 2 ^ 32.

Lemma chunk_text_eq d : chunk_ok d -> chunk_text d = print_hex32 (zlen d) ++ CR :: LF :: d ++ CR :: LF :: [].
Proof.
  unfold chunk_ok. intros H. unfold chunk_text, evhttp_send_reply_chunk. rewrite (proj2 (Z.eqb_neq _ 0)) by lia.
  by rewrite u32_small by lia.
Qed.

(** What the user has got of the body, in the callback or in the buffer. *)
Definition received (req : evhttp_request) : list byte := concat (delivered req) ++ input_buffer req.

Section ChunkRoundTrip.
Context (chunk_cb : option (list byte -> bool)).
Hypothesis never_cancels : match chunk_cb with Some cb => forall d, cb d = false | None => True end.

Notation handle := (evhttp_handle_chunked_read chunk_cb).

Lemma handle_line req l r :
  ntoread req < 0 -> zlen (l ++ CR :: LF :: r) <= EV_SSIZE_MAX -> plain l ->
  handle req (l ++ CR :: LF :: r) =
  if bool_decide (l = []) then handle req r
  else if bad_chunk_size l then Done (DATA_CORRUPTED, req, r)
  else
    let n := fst (evutil_strtoll l true) in
    if EV_SIZE_MAX - body_size req <? n then Done (DATA_CORRUPTED, req, r)
    else
      evcon ← deref (rq_evcon req);
      if max_body_size evcon <? u64 (body_size req + n) then Done (DATA_TOO_LONG, req, r)
      else
        let req := with_body req (u64 (body_size req + n)) (input_buffer req) n (chunked req) (delivered req) in
        if n =? 0 then Done (ALL_DATA_READ, req, r) else handle req r.
Proof.
  intros Hn Hm Hp. destruct (plain_facts l Hp) as (Hlf & Hnul & _). unfold evhttp_handle_chunked_read at 1.
  remember (S (length (l ++ CR :: LF :: r))) as m eqn:Em. cbn [chunk_loop].
  assert (zlen (l ++ CR :: LF :: r) =? 0 = false) as ->.
  { apply Z.eqb_neq. rewrite zlen_app, !zlen_cons. pose proof (zlen_nonneg l). pose proof (zlen_nonneg r). lia. }
  rewrite (proj2 (Z.ltb_ge _ _) Hm), (proj2 (Z.ltb_lt _ 0) Hn), list_readln, take_line_crlf by done.
  cbn [mbind outcome_bind]. rewrite cstr_plain by done.
  assert (length r < length (l ++ CR :: LF :: r))%nat as Hlen by (rewrite length_app; simpl; lia).
  case_bool_decide.
  - apply chunk_loop_fuel; [|apply measure_fuel]. unfold chunk_measure. rewrite (proj2 (Z.eqb_neq _ 0)) by lia. lia.
  - destruct (bad_chunk_size l); [done|]. cbv zeta. destruct (_ <? _); [done|]. destruct (rq_evcon req); [|done].
    cbn [deref mbind outcome_bind]. destruct (_ <? _); [done|].
    destruct (fst (evutil_strtoll l true) =? 0) eqn:Ez; [done|].
    apply chunk_loop_fuel; [|apply measure_fuel]. unfold chunk_measure. simpl ntoread. rewrite Ez. lia.
Qed.

Lemma handle_data req d r :
  ntoread req = zlen d -> 0 < zlen d -> zlen (d ++ r) <= EV_SSIZE_MAX ->
  exists req', handle req (d ++ r) = handle req' r /\ ntoread req' = -1 /\ body_size req' = body_size req /\
    rq_evcon req' = rq_evcon req /\ received req' = received req ++ d /\
    (is_Some chunk_cb -> input_buffer req = [] -> delivered req' = delivered req ++ [d] /\ input_buffer req' = []).
Proof.
  intros Hn Hd Hm. unfold evhttp_handle_chunked_read at 1.
  remember (S (length (d ++ r))) as m eqn:Em. cbn [chunk_loop]. pose proof (zlen_nonneg r).
  rewrite zlen_app in *. rewrite Hn, (proj2 (Z.eqb_neq _ 0)), (proj2 (Z.ltb_ge _ (zlen d + zlen r))) by lia.
  rewrite (proj2 (Z.ltb_ge (zlen d) 0)), (proj2 (Z.ltb_ge EV_SSIZE_MAX (zlen d))), (proj2 (Z.ltb_ge (zlen d + zlen r) _)) by lia.
  rewrite andb_false_r. rewrite ztake_app, zdrop_app.
  set (req1 := with_body req (body_size req) (input_buffer req ++ d) (-1) (chunked req) (delivered req)).
  assert (forall q, ntoread q = -1 -> chunk_loop chunk_cb m q r = handle q r) as Hf.
  { intros q Hq. subst m. apply chunk_loop_fuel; [|apply measure_fuel]. unfold chunk_measure. rewrite Hq, length_app. simpl.
    unfold zlen in Hd. lia. }
  destruct chunk_cb as [cb|].
  - unfold call_chunk_cb. rewrite never_cancels. eexists. split; [by apply Hf|]. split_and!; try done.
    + unfold received. simpl. rewrite concat_app. simpl. by rewrite !app_nil_r, app_assoc.
    + intros _ Hi. simpl. by rewrite Hi.
  - exists req1. split; [by apply Hf|]. split_and!; try done.
    unfold received. simpl. by rewrite app_assoc.
Qed.

(** The state after some chunks. *)
Record after_chunks (req req' : evhttp_request) (ds : list (list byte)) : Prop := {
  after_received : received req' = received req ++ concat ds;
  after_size : body_size req' = body_size req + zlen (concat ds);
  after_calls : is_Some chunk_cb -> input_buffer req = [] -> delivered req' = delivered req ++ ds /\ input_buffer req' = [] }.

Lemma handle_chunks ds req c r :
  Forall chunk_ok ds -> rq_evcon req = Some c -> ntoread req < 0 -> 0 <= body_size req ->
  body_size req + zlen (concat ds) <= max_body_size c -> max_body_size c < 2 ^ 64 ->
  zlen ((ds ≫= chunk_text) ++ r) <= EV_SSIZE_MAX ->
  exists req', handle req ((ds ≫= chunk_text) ++ r) = handle req' r /\ ntoread req' < 0 /\ rq_evcon req' = Some c /\
    after_chunks req req' ds.
Proof.
  intros Hds. revert req. induction Hds as [|d ds Hd Hds IH]; intros req Hc Hn Hb Hmax H64 Hm.
  { exists req. split_and!; [done..|]. constructor; simpl; [by rewrite app_nil_r|by rewrite zlen_nil, Z.add_0_r|]. intros _ ->. by rewrite app_nil_r. }
  rewrite bind_cons in *. cbn [concat] in *. rewrite zlen_app in Hmax. pose proof Hd as [Hd0 Hd32].
  pose proof (zlen_nonneg (concat ds)). rewrite <- app_assoc in *. set (R := (ds ≫= chunk_text) ++ r) in *.
  rewrite chunk_text_eq in * by done. destruct (print_hex32_facts (zlen d)) as (Hv & Hx & Hne); [lia|].
  assert (plain (print_hex32 (zlen d))) as Hp.
  { apply forallb_forall. intros x Hin. rewrite forallb_forall in Hx. by apply xdigit_plain_char, Hx. }
  assert (forall x, (print_hex32 (zlen d) ++ CR :: LF :: d ++ [CR; LF]) ++ x = print_hex32 (zlen d) ++ CR :: LF :: d ++ CR :: LF :: x) as Hassoc.
  { intros x. rewrite <- app_assoc. cbn [app]. by rewrite <- app_assoc. }
  rewrite Hassoc in *. pose proof (zlen_nonneg R). pose proof (zlen_nonneg (print_hex32 (zlen d))).
  rewrite zlen_app, !zlen_cons, zlen_app, !zlen_cons in Hm.
  rewrite handle_line; [|done|rewrite zlen_app, !zlen_cons, zlen_app, !zlen_cons; lia|done].
  rewrite bool_decide_eq_false_2 by done.
  assert (bad_chunk_size (print_hex32 (zlen d)) = false) as ->.
  { unfold bad_chunk_size. rewrite strtoll_hex by lia. rewrite bool_decide_eq_false_2 by done.
    rewrite (proj2 (Z.ltb_ge _ 0)) by lia. done. }
  rewrite strtoll_hex by lia. cbn [fst]. cbv zeta. unfold EV_SIZE_MAX. rewrite (proj2 (Z.ltb_ge _ (zlen d))) by lia.
  rewrite Hc. cbn [deref mbind outcome_bind]. rewrite u64_small by lia. rewrite (proj2 (Z.ltb_ge _ (body_size req + zlen d))) by lia.
  rewrite (proj2 (Z.eqb_neq (zlen d) 0)) by lia.
  set (req1 := with_body req (body_size req + zlen d) (input_buffer req) (zlen d) (chunked req) (delivered req)).
  destruct (handle_data req1 d (CR :: LF :: R)) as (req2 & -> & Hn2 & Hb2 & Hc2 & Hr2 & Hcb2);
    [done|lia|rewrite zlen_app, !zlen_cons; lia|].
  change (CR :: LF :: R) with ([] ++ CR :: LF :: R).
  rewrite handle_line; [|lia|cbn [app]; rewrite !zlen_cons; lia|done]. rewrite bool_decide_eq_true_2 by done.
  destruct (IH req2) as (req3 & -> & Hn3 & Hc3 & [Hr3 Hs3 Hcb3]).
  - by rewrite Hc2.
  - lia.
  - rewrite Hb2. simpl. lia.
  - rewrite Hb2. simpl. lia.
  - done.
  - fold R. lia.
  - exists req3. split_and!; [done..|]. constructor.
    + rewrite Hr3, Hr2. change (received req1) with (received req). simpl. by rewrite <- app_assoc.
    + rewrite Hs3, Hb2. simpl. rewrite zlen_app. lia.
    + intros Hsome Hi. destruct (Hcb2 Hsome Hi) as [Hd1 Hd2]. destruct (Hcb3 Hsome Hd2) as [Hd3 Hd4]. split; [|done].
      rewrite Hd3, Hd1. simpl. by rewrite <- app_assoc.
Qed.

Lemma handle_stream ds req c r :
  Forall chunk_ok ds -> rq_evcon req = Some c -> ntoread req < 0 -> 0 <= body_size req ->
  body_size req + zlen (concat ds) <= max_body_size c -> max_body_size c < 2 ^ 64 ->
  zlen (chunk_stream ds ++ r) <= EV_SSIZE_MAX ->
  exists req', handle req (chunk_stream ds ++ r) = Done (ALL_DATA_READ, req', CR :: LF :: r) /\ after_chunks req req' ds.
Proof.
  intros Hds Hc Hn Hb Hmax H64 Hm. unfold chunk_stream in *. rewrite <- app_assoc in *. pose proof (zlen_nonneg (concat ds)).
  destruct (handle_chunks ds req c (evhttp_send_reply_end true ++ r) Hds Hc Hn Hb Hmax H64 Hm) as (req' & -> & Hn' & Hc' & Ha).
  change (evhttp_send_reply_end true ++ r) with (bytes_of "0" ++ CR :: LF :: CR :: LF :: r) in *.
  rewrite zlen_app in Hm. pose proof (zlen_nonneg (ds ≫= chunk_text)).
  rewrite handle_line; [|done|lia|vm_compute; reflexivity].
  change (bool_decide (bytes_of "0" = [])) with false. change (bad_chunk_size (bytes_of "0")) with false.
  change (fst (evutil_strtoll (bytes_of "0") true)) with 0. cbv zeta match.
  destruct Ha as [Hr Hs Hcb]. unfold EV_SIZE_MAX. rewrite (proj2 (Z.ltb_ge _ 0)) by lia.
  rewrite Hc'. cbn [deref mbind outcome_bind]. rewrite Z.add_0_r, u64_small, (proj2 (Z.ltb_ge _ (body_size req'))) by lia.
  change (0 =? 0) with true. cbv match. eexists. split; [reflexivity|]. by constructor.
Qed.

(** What arrives is added to what is left, and read. *)
Fixpoint feed_body (req : evhttp_request) (buf : list byte) (pieces : list (list byte))
    : outcome (message_read_status * evhttp_request * list byte) :=
  match pieces with
  | [] => Done (MORE_DATA_EXPECTED, req, buf)
  | p :: pieces =>
      '(s, req, rest) ← handle req (buf ++ p);
      match s with
      | MORE_DATA_EXPECTED => feed_body req rest pieces
      | _ => Done (s, req, rest ++ sent_in_pieces pieces)
      end
  end.

(** Bytes that are read to the end of the body at once are in pieces, too. *)
Lemma feed_whole req buf p pieces c st req' rest :
  rq_evcon req = Some c -> zlen (buf ++ p ++ sent_in_pieces pieces) <= EV_SSIZE_MAX ->
  handle req (buf ++ p ++ sent_in_pieces pieces) = Done (st, req', rest) -> st <> MORE_DATA_EXPECTED ->
  feed_body req buf (p :: pieces) = Done (st, req', rest).
Proof.
  revert req buf p. induction pieces as [|q pieces IH]; intros req buf p Hc Hm Hh Hst; cbn [feed_body];
    destruct (handle_total chunk_cb req (buf ++ p) c Hc) as (s1 & req1 & rest1 & E & Hc1); rewrite E; cbn [mbind outcome_bind].
  - unfold sent_in_pieces in *. cbn [concat] in *. rewrite !app_nil_r in *. rewrite E in Hh. injection Hh as -> -> ->.
    by destruct st.
  - unfold sent_in_pieces in Hm, Hh. cbn [concat] in Hm, Hh. fold (sent_in_pieces pieces) in Hm, Hh. rewrite app_assoc in Hm, Hh.
    pose proof (handle_more chunk_cb req (buf ++ p) (q ++ sent_in_pieces pieces) _ _ _ Hm E) as Hmore.
    destruct s1; try (rewrite Hmore in Hh; injection Hh as <- <- <-; done).
    rewrite Hmore in Hh. apply IH; [done| |done|done].
    pose proof (chunk_loop_shorter chunk_cb _ _ _ _ _ _ E) as Hlen. rewrite !zlen_app in *. lia.
Qed.
End ChunkRoundTrip.

(** ** Properties *)

(** C25: however the bytes of a chunked body arrive in pieces, with a chunk callback
    that never cancels or with none, the reader finds the end of the body in the
    last piece that is needed, has handed over exactly the data of the chunks, in
    order and, with a callback, one chunk a call, has counted it, and leaves the
    empty line of the trailer and what follows it. *)
Theorem chunked_body_round_trip chunk_cb ds req c pieces rest :
  match chunk_cb with Some cb => forall d, cb d = false | None => True end ->
  Forall chunk_ok ds -> rq_evcon req = Some c -> ntoread req = -1 -> 0 <= body_size req ->
  body_size req + zlen (concat ds) <= max_body_size c -> max_body_size c < 2 ^ 64 ->
  sent_in_pieces pieces = chunk_stream ds ++ rest -> zlen (sent_in_pieces pieces) <= EV_SSIZE_MAX ->
  exists req', feed_body chunk_cb req [] pieces = Done (ALL_DATA_READ, req', CR :: LF :: rest) /\
    after_chunks chunk_cb req req' ds.
Proof.
  intros Hcb Hds Hc Hn Hb Hmax H64 Hp Hm.
  destruct (handle_stream chunk_cb Hcb ds req c rest) as (req' & E & Ha); [done|done|lia|done|done|done|by rewrite <- Hp|].
  exists req'. split; [|done]. destruct pieces as [|p pieces].
  - exfalso. unfold sent_in_pieces, chunk_stream in Hp. simpl in Hp. symmetry in Hp. rewrite <- app_assoc in Hp.
    apply app_eq_nil in Hp as [_ Hp]. done.
  - change (sent_in_pieces (p :: pieces)) with (p ++ sent_in_pieces pieces) in *.
    apply (feed_whole chunk_cb req [] p pieces c); [done|done|cbn [app]; by rewrite Hp|done].
Qed.

Definition chunk_reader : evhttp_request :=
  mkReq (Some (mkEvcon 4096 1000 None)) 0 [] [] EVHTTP_REQUEST EVHTTP_REQ_POST 0 0 None None 1 1 0 None [] (-1) true [] [].

Definition example_chunks : list (list byte) := [bytes_of "hello, "; bytes_of "chunked world"].

Example chunked_body_round_trip_witness :
  let text := chunk_stream example_chunks ++ CRLF in
  exists req', feed_body (Some (fun _ => false)) chunk_reader [] [ztake 9 text; ztake 5 (zdrop 9 text); zdrop 14 text] =
      Done (ALL_DATA_READ, req', CR :: LF :: CRLF) /\
    after_chunks (Some (fun _ => false)) chunk_reader req' example_chunks.
Proof.
  apply (chunked_body_round_trip (Some (fun _ => false)) example_chunks chunk_reader (mkEvcon 4096 1000 None)).
  - reflexivity.
  - repeat (apply List.Forall_cons; [split; vm_compute; reflexivity|]). apply List.Forall_nil.
  - reflexivity.
  - reflexivity.
  - vm_compute. congruence.
  - vm_compute. congruence.
  - reflexivity.
  - vm_compute. reflexivity.
  - vm_compute. congruence.
Defined.

(** What is read as a chunked body and is not one: the end of a chunk may be
    missing, and a line that starts with a space and holds no number is taken for
    the last chunk, so that what follows it is read as a trailer and as the next
    request. *)
Theorem chunk_reader_lenient :
  (exists req', evhttp_handle_chunked_read None chunk_reader
     (bytes_of "3" ++ CRLF ++ bytes_of "abc2" ++ CRLF ++ bytes_of "de0" ++ CRLF) = Done (ALL_DATA_READ, req', []) /\
     received req' = bytes_of "abcde") /\
  (exists req', evhttp_handle_chunked_read None chunk_reader
     (bytes_of " smuggled" ++ CRLF ++ bytes_of "GET / HTTP/1.1" ++ CRLF) =
     Done (ALL_DATA_READ, req', bytes_of "GET / HTTP/1.1" ++ CRLF) /\ received req' = []).
Proof. split; (eexists; repeat split; vm_compute; reflexivity). Qed.
