(* ===== verification/DnsWire.v ===== *)
(** * DNS messages

    Models the part of [libevent/evdns.c] that reads and writes packets:
    [name_parse], [reply_parse], [request_parse], [dnsname_to_labels] with the
    table for compression, [evdns_request_data_build],
    [evdns_server_request_add_reply] and its wrappers, and
    [evdns_server_request_format_response].

    A packet that was received is the list of its bytes; a buffer that is being
    written is the list of its cells, [None] where nothing was written yet.  C
    strings are lists of bytes without the NUL.  [strdup] says whether
    [mm_strdup] of a label at a position succeeds; the copy of a CNAME is taken
    to get its memory. *)

From S2P Require Import Prelude Ctype HttpText Inet.

Definition TYPE_A : Z := 1.
Definition TYPE_CNAME : Z := 5.
Definition TYPE_SOA : Z := 6.
Definition TYPE_PTR : Z := 12.
Definition TYPE_AAAA : Z := 28.
Definition CLASS_INET : Z := 1.
Definition MAX_V4_ADDRS : Z := 32.
Definition MAX_V6_ADDRS : Z := 32.
Definition HOST_NAME_MAX : Z := 255.
Definition MAX_LABELS : Z := 128.
Definition DNS_ERR_NOTEXIST : Z := 3.
Definition DNS_ERR_NOTIMPL : Z := 4.
Definition EVDNS_FLAGS_AA : Z := 0x400.
Definition EVDNS_FLAGS_RD : Z := 0x080.

(** Network order. *)
Definition be16 (x : Z) : list byte := [Zbyte (x / 256); Zbyte x].
Definition be32 (x : Z) : list byte := be16 (x / 65536) ++ be16 x.
Definition be_value (l : list byte) : Z := fold_left (fun v c => v * 256 + byteZ c) l 0.

(** ** Reading *)

(** A reader of a packet: the position [j], and the CNAME that was stored
    through [put_cname_in_ptr]; no value for the jump to [err]. *)
Record rstate := mkR { r_pos : Z; r_cname : option (list byte) }.
Definition reader (A : Type) : Type := rstate -> outcome (option A * rstate).

#[export] Instance reader_ret : MRet reader := fun A a s => Done (Some a, s).
#[export] Instance reader_bind : MBind reader := fun A B f m s =>
  match m s with
  | Done (Some a, s) => f a s
  | Done (None, s) => Done (None, s)
  | Crash => Crash
  end.

Definition err {A} : reader A := fun s => Done (None, s).

Section Reading.
Context (packet : list byte).

Definition byte_at (j : Z) : outcome Z :=
  if 0 <=? j then b ← deref (packet !! Z.to_nat j); Done (byteZ b) else Crash.

(** [GET16] ([n] = 2), [GET32] ([n] = 4) *)
Definition GET (n : Z) : reader Z := fun s =>
  if zlen packet <? r_pos s + n then Done (None, s)
  else l ← memread (r_pos s) n packet; Done (Some (be_value l), mkR (r_pos s + n) (r_cname s)).

Definition GET16 : reader Z := GET 2.
Definition GET32 : reader Z := GET 4.

(** [j += n] *)
Definition advance (n : Z) : reader unit := fun s => Done (Some tt, mkR (r_pos s + n) (r_cname s)).

(** [memcpy(cp, s, ...)] into the [name_out_len] bytes at [name_out], [cp] being
    behind [out]. *)
Definition put_name (name_out_len : Z) (out s : list byte) : outcome (list byte) :=
  if zlen out + zlen s <=? name_out_len then Done (out ++ s) else Crash.

(** The loop of [name_parse]: the position behind the name and the name, or
    [None] for [-1].  [name_end] is -1 before the first pointer. *)
Fixpoint name_loop (fuel : nat) (name_out_len j name_end ptr_count : Z) (out : list byte)
    : outcome (option (Z * list byte)) :=
  match fuel with
  | O => Crash
  | S fuel =>
      if zlen packet <=? j then Done None else
      label_len ← byte_at j;
      let j := j + 1 in
      if label_len =? 0 then
        if name_out_len <=? zlen out then Done None
        else Done (Some (if name_end <? 0 then j else name_end, out))
      else if has label_len 0xc0 then
        if zlen packet <=? j then Done None else
        ptr_low ← byte_at j;
        let name_end := if name_end <? 0 then j + 1 else name_end in
        let j := Z.shiftl (Z.land label_len 0x3f) 8 + ptr_low in
        if (j <? 0) || (zlen packet <=? j) then Done None else
        let ptr_count := ptr_count + 1 in
        if zlen packet <? ptr_count then Done None
        else name_loop fuel name_out_len j name_end ptr_count out
      else if 63 <? label_len then Done None
      else if negb (bool_decide (out = [])) && (name_out_len <=? zlen out + 1) then Done None else
      out ← (if bool_decide (out = []) then Done out else put_name name_out_len out [DOT]);
      if name_out_len <=? zlen out + label_len then Done None
      else if zlen packet <? j + label_len then Done None else
      label ← memread j label_len packet;
      out ← put_name name_out_len out label;
      name_loop fuel name_out_len (j + label_len) name_end ptr_count out
  end.

Definition name_fuel (name_out_len : Z) : nat := Z.to_nat (name_out_len + zlen packet + 3).

(** [idx] behind the name and the name; [None] for [-1]. *)
Definition name_parse (idx name_out_len : Z) : outcome (option (Z * list byte)) :=
  name_loop (name_fuel name_out_len) name_out_len idx (-1) 0 [].

(** [name_parse] at [j]; [SKIP_NAME] without the name. *)
Definition NAME (name_out_len : Z) : reader (list byte) := fun s =>
  r ← name_parse (r_pos s) name_out_len;
  match r with
  | None => Done (None, s)
  | Some (j, name) => Done (Some name, mkR j (r_cname s))
  end.

(** *** [reply_parse] *)

(** The fields of a [struct request] that the reader uses.  [put_cname_in_ptr] is
    [None] for [NULL], [Some None] for a pointer to [NULL]. *)
Record dns_request := mkRequest {
  rq_request : list byte;
  rq_request_type : Z;
  put_cname_in_ptr : option (option (list byte)) }.

(** [struct reply]: the arms of its union are the addresses, as the bytes copied,
    and the name. *)
Record reply := mkReply {
  rp_type : Z;
  have_answer : bool;
  rp_a : list byte;
  rp_aaaa : list byte;
  rp_ptr : list byte }.

Definition addrcount (size : Z) (addresses : list byte) : Z := zlen addresses / size.

(** The copy of up to [max] addresses of [size] bytes from a record of
    [datalength] bytes. *)
Definition copy_addresses (size max : Z) (have : list byte) (datalength : Z) : reader (list byte) := fun s =>
  let count := datalength / size in
  let addrtocopy := Z.min (u32 (max - addrcount size have)) count in
  if zlen packet <? r_pos s + size * addrtocopy then Done (None, s) else
  _ ← assert_c (addrcount size have + addrtocopy <=? max);
  l ← memread (r_pos s) (size * addrtocopy) packet;
  Done (Some (have ++ l), mkR (r_pos s + size * addrtocopy) (r_cname s)).

(** [*req->put_cname_in_ptr = mm_strdup(cname)] *)
Definition set_cname (cname : list byte) : reader unit := fun s => Done (Some tt, mkR (r_pos s) (Some (cstr cname))).
Definition get_cname : reader (option (list byte)) := fun s => Done (Some (r_cname s), s).

(** One record of the answer section: whether the loop ends, [ttl_r] and the
    reply. *)
Definition answer (req : dns_request) (ttl_r : Z) (rp : reply) : reader (bool * Z * reply) :=
  _ ← NAME 256;
  type ← GET16; class ← GET16; ttl ← GET32; datalength ← GET16;
  if (type =? TYPE_A) && (class =? CLASS_INET) then
    if negb (rq_request_type req =? TYPE_A) then _ ← advance datalength; mret (false, ttl_r, rp)
    else if negb (Z.land datalength 3 =? 0) then err
    else
      l ← copy_addresses 4 MAX_V4_ADDRS (rp_a rp) datalength;
      mret (addrcount 4 l =? MAX_V4_ADDRS, Z.min ttl_r ttl,
            mkReply (rp_type rp) true l (rp_aaaa rp) (rp_ptr rp))
  else if (type =? TYPE_PTR) && (class =? CLASS_INET) then
    if negb (rq_request_type req =? TYPE_PTR) then _ ← advance datalength; mret (false, ttl_r, rp)
    else
      name ← NAME HOST_NAME_MAX;
      mret (true, Z.min ttl_r ttl, mkReply (rp_type rp) true (rp_a rp) (rp_aaaa rp) name)
  else if type =? TYPE_CNAME then
    c ← get_cname;
    if negb (bool_decide (is_Some (put_cname_in_ptr req))) || bool_decide (is_Some c)
    then _ ← advance datalength; mret (false, ttl_r, rp)
    else
      cname ← NAME HOST_NAME_MAX;
      _ ← set_cname cname;
      mret (false, ttl_r, rp)
  else if (type =? TYPE_AAAA) && (class =? CLASS_INET) then
    if negb (rq_request_type req =? TYPE_AAAA) then _ ← advance datalength; mret (false, ttl_r, rp)
    else if negb (Z.land datalength 15 =? 0) then err
    else
      l ← copy_addresses 16 MAX_V6_ADDRS (rp_aaaa rp) datalength;
      mret (addrcount 16 l =? MAX_V6_ADDRS, Z.min ttl_r ttl,
            mkReply (rp_type rp) true (rp_a rp) l (rp_ptr rp))
  else _ ← advance datalength; mret (false, ttl_r, rp).

Fixpoint answers_loop (n : nat) (req : dns_request) (ttl_r : Z) (rp : reply) : reader (Z * reply) :=
  match n with
  | O => mret (ttl_r, rp)
  | S n =>
      '(break, ttl_r, rp) ← answer req ttl_r rp;
      if break : bool then mret (ttl_r, rp) else answers_loop n req ttl_r rp
  end.

(** The authority section, for the time a negative answer holds. *)
Fixpoint authority_loop (n : nat) (ttl_r : Z) : reader Z :=
  match n with
  | O => mret ttl_r
  | S n =>
      _ ← NAME 256;
      type ← GET16; class ← GET16; ttl ← GET32; datalength ← GET16;
      if (type =? TYPE_SOA) && (class =? CLASS_INET) then
        _ ← NAME 256; _ ← NAME 256;
        _ ← GET32; _ ← GET32; _ ← GET32; _ ← GET32; minimum ← GET32;
        authority_loop n (Z.min (Z.min ttl_r ttl) minimum)
      else _ ← advance datalength; authority_loop n ttl_r
  end.

(** The questions, each compared with the one at the same place of the request
    ([k] = [j]): whether one matched. *)
Definition question_matches (randomize : bool) (a b : list byte) : bool :=
  if randomize then evutil_ascii_strcasecmp (cstr a) (cstr b) =? 0 else bool_decide (cstr a = cstr b).

End Reading.

Section Replies.
Context (packet : list byte).

Definition get_pos : reader Z := fun s => Done (Some (r_pos s), s).

(** The name at [k] of the request. *)
Definition request_name (request : list byte) (k : Z) : reader (list byte) := fun s =>
  r ← name_parse request k 256;
  match r with
  | None => Done (None, s)
  | Some (_, name) => Done (Some name, s)
  end.

(** [if (j > length) goto err] *)
Definition in_packet : reader unit := fun s => Done (if zlen packet <? r_pos s then None else Some tt, s).

Fixpoint questions_loop (n : nat) (randomize : bool) (req : dns_request) (name_matches : bool) : reader bool :=
  match n with
  | O => mret name_matches
  | S n =>
      k ← get_pos;
      tmp_name ← NAME packet 256;
      cmp_name ← request_name (rq_request req) k;
      _ ← advance 4; _ ← in_packet;
      questions_loop n randomize req (name_matches || question_matches randomize tmp_name cmp_name)
  end.

(** What [reply_parse] does with the packet: nothing ([NoRequest]), or
    [reply_handle] without a reply, or with one.  The CNAME is what
    [put_cname_in_ptr] points to afterwards. *)
Inductive parsed :=
| NoRequest
| Failed (flags : Z) (cname : option (list byte))
| Replied (flags ttl : Z) (rp : reply) (cname : option (list byte)).

Definition header : reader (Z * Z * Z * Z * Z * Z) :=
  trans_id ← GET16 packet; flags ← GET16 packet; questions ← GET16 packet; answers ← GET16 packet;
  authority ← GET16 packet; additional ← GET16 packet;
  mret (trans_id, flags, questions, answers, authority, additional).

(** The sections behind the header. *)
Definition sections (randomize : bool) (req : dns_request) (questions answers authority : Z) : reader (Z * reply) :=
  name_matches ← questions_loop (Z.to_nat questions) randomize req false;
  if negb name_matches then err else
  '(ttl_r, rp) ← answers_loop packet (Z.to_nat answers) req 0xffffffff
                   (mkReply (rq_request_type req) false [] [] []);
  ttl_r ← (if have_answer rp then mret ttl_r else authority_loop packet (Z.to_nat authority) ttl_r);
  mret (if ttl_r =? 0xffffffff then 0 else ttl_r, rp).

(** [find] is [request_find_from_trans_id], [randomize] is
    [global_randomize_case]. *)
Definition reply_parse (find : Z -> option dns_request) (randomize : bool) : outcome parsed :=
  '(h, s) ← header (mkR 0 None);
  match h with
  | None => Done NoRequest
  | Some (trans_id, flags, questions, answers, authority, _) =>
      match find trans_id with
      | None => Done NoRequest
      | Some req =>
          let cname := match put_cname_in_ptr req with Some c => c | None => None end in
          if negb (has flags 0x8000) then Done NoRequest
          else if has flags 0x020f && negb (Z.land flags 0x020f =? DNS_ERR_NOTEXIST) then Done (Failed flags cname)
          else
            '(r, s) ← sections randomize req questions answers authority (mkR (r_pos s) cname);
            match r with
            | None => Done (Failed flags (r_cname s))
            | Some (ttl, rp) => Done (Replied flags ttl rp (r_cname s))
            end
      end
  end.

End Replies.

(** ** Writing *)

(** The buffer, the position [j] and the table of labels ([None] for a [NULL]
    table).  [None] for the jump to [overflow]. *)
Abbreviation cells := (list (option byte)).
Abbreviation dnslabel_table := (list (list byte * Z)).
Record wstate := mkW { w_buf : cells; w_pos : Z; w_table : option dnslabel_table }.
Definition writer (A : Type) : Type := wstate -> outcome (option A * wstate).

#[export] Instance writer_ret : MRet writer := fun A a s => Done (Some a, s).
#[export] Instance writer_bind : MBind writer := fun A B f m s =>
  match m s with
  | Done (Some a, s) => f a s
  | Done (None, s) => Done (None, s)
  | Crash => Crash
  end.

Definition w_position : writer Z := fun s => Done (Some (w_pos s), s).

(** [memcpy(buf + j, l, ...)] *)
Definition put (buf : cells) (j : Z) (l : list byte) : outcome cells := memwrite j (Some <$> l) buf.

(** [APPEND16] and [APPEND32]: [l] is the value in network order. *)
Definition APPEND (l : list byte) : writer unit := fun s =>
  if zlen (w_buf s) <? w_pos s + zlen l then Done (None, s) else
  buf ← put (w_buf s) (w_pos s) l;
  Done (Some tt, mkW buf (w_pos s + zlen l) (w_table s)).

Definition APPEND16 (x : Z) : writer unit := APPEND (be16 x).
Definition APPEND32 (x : Z) : writer unit := APPEND (be32 x).

Section Writing.
Context (strdup : list byte -> Z -> bool).

(** -1 when the label is not there. *)
Fixpoint dnslabel_table_get_pos (table : dnslabel_table) (label : list byte) : Z :=
  match table with
  | [] => -1
  | (v, pos) :: table => if bool_decide (label = v) then pos else dnslabel_table_get_pos table label
  end.

Definition dnslabel_table_add (table : dnslabel_table) (label : list byte) (pos : Z) : Z * dnslabel_table :=
  if zlen table =? MAX_LABELS then (-1, table)
  else if negb (strdup label pos) then (-1, table)
  else (0, table ++ [(label, pos)]).

(** The byte of its length and the label, with [start] for the table: the error,
    or the state behind it. *)
Definition put_label (start label : list byte) (s : wstate) : outcome (Z + wstate) :=
  let label_len := zlen label in
  if 63 <? label_len then Done (inl (-1))
  else if zlen (w_buf s) <? w_pos s + label_len + 1 then Done (inl (-2))
  else
    let table := (fun t => snd (dnslabel_table_add t start (w_pos s))) <$> w_table s in
    buf ← put (w_buf s) (w_pos s) [Zbyte label_len];
    buf ← put buf (w_pos s + 1) label;
    Done (inr (mkW buf (w_pos s + 1 + label_len) table)).

(** The zero behind the labels, unless it is there. *)
Definition end_labels (s : wstate) : outcome (Z * wstate) :=
  last ← (if w_pos s =? 0 then Done None else
          c ← memread (w_pos s - 1) 1 (w_buf s);
          match c with [Some b] => Done (Some b) | _ => Crash end);
  if bool_decide (last = Some x00) then Done (w_pos s, s)
  else
    buf ← put (w_buf s) (w_pos s) [x00];
    Done (w_pos s + 1, mkW buf (w_pos s + 1) (w_table s)).

Fixpoint labels_loop (fuel : nat) (name : list byte) (s : wstate) : outcome (Z * wstate) :=
  match fuel with
  | O => Crash
  | S fuel =>
      let ref := match w_table s with Some t => dnslabel_table_get_pos t name | None => -1 end in
      if 0 <=? ref then
        '(r, s) ← APPEND16 (Z.lor ref 0xc000) s;
        Done (match r with Some _ => w_pos s | None => -2 end, s)
      else
        match strchr DOT name with
        | None =>
            r ← put_label name name s;
            match r with
            | inl e => Done (e, s)
            | inr s => end_labels s
            end
        | Some (label, rest) =>
            r ← put_label name label s;
            match r with
            | inl e => Done (e, s)
            | inr s => labels_loop fuel rest s
            end
        end
  end.

(** The index behind the name, or a negative error; [w_pos] of the state is used
    by the caller only after a success. *)
Definition dnsname_to_labels (name : list byte) (s : wstate) : outcome (Z * wstate) :=
  if 255 <? zlen name then Done (-2, s) else labels_loop (S (length name)) name s.

(** A question's name, and what follows it unless it fails with a negative
    result. *)
Definition question_name (name : list byte) (k : writer Z) : writer Z := fun s =>
  '(j, s) ← dnsname_to_labels name s;
  if j <? 0 then Done (Some j, s) else k (mkW (w_buf s) j (w_table s)).

(** *** The client's question *)

Definition evdns_request_len (name_len : Z) : Z := 96 + name_len + 2 + 4.

(** The length, or a negative error, and the buffer. *)
Definition evdns_request_data_build (name : list byte) (trans_id type class : Z) (buf : cells)
    : outcome (Z * cells) :=
  let build : writer Z :=
    _ ← APPEND16 trans_id; _ ← APPEND16 0x0100; _ ← APPEND16 1; _ ← APPEND16 0; _ ← APPEND16 0; _ ← APPEND16 0;
    question_name name (_ ← APPEND16 type; _ ← APPEND16 class; w_position) in
  '(r, s) ← build (mkW buf 0 None);
  Done (default (-1) r, w_buf s).

(** *** The server's answer *)

(** [ri_datalen] and [ri_data] as the code sets them: the text of a name, or
    [ri_datalen] bytes. *)
Record server_reply_item := mkItem {
  ri_name : list byte;
  ri_type : Z;
  ri_class : Z;
  ri_ttl : Z;
  is_name : bool;
  ri_datalen : Z;
  ri_data : option (list byte) }.

(** With the fields [flags] and [questions] of [struct evdns_server_request]. *)
Record server_request := mkServerRequest {
  sr_trans_id : Z;
  sr_flags : Z;
  sr_questions : list (list byte * Z * Z);
  n_answer : Z;
  n_authority : Z;
  n_additional : Z;
  sr_answer : list server_reply_item;
  sr_authority : list server_reply_item;
  sr_additional : list server_reply_item;
  sr_response : option cells }.

Inductive section := ANSWER_SECTION | AUTHORITY_SECTION | ADDITIONAL_SECTION | NO_SECTION.

Definition section_of (n : Z) : section :=
  if n =? 0 then ANSWER_SECTION else if n =? 1 then AUTHORITY_SECTION
  else if n =? 2 then ADDITIONAL_SECTION else NO_SECTION.

Definition add_item (req : server_request) (sec : section) (item : server_reply_item) : server_request :=
  let '(mkServerRequest i f q a b c la lb lc r) := req in
  match sec with
  | ANSWER_SECTION => mkServerRequest i f q (i32 (a + 1)) b c (la ++ [item]) lb lc r
  | AUTHORITY_SECTION => mkServerRequest i f q a (i32 (b + 1)) c la (lb ++ [item]) lc r
  | ADDITIONAL_SECTION => mkServerRequest i f q a b (i32 (c + 1)) la lb (lc ++ [item]) r
  | NO_SECTION => req
  end.

(** The data of an item: [None] when its memory cannot be had, else [datalen] and
    [data].  [mm_malloc] of 0 bytes gives [NULL]. *)
Definition item_data (data : option (list byte)) (isname : bool) (datalen : Z) : outcome (option (Z * option (list byte))) :=
  match data with
  | None => Done (Some (0, None))
  | Some d =>
      if isname then Done (Some (u16 (-1), Some d))
      else if datalen <=? 0 then Done None
      else l ← memread 0 datalen d; Done (Some (u16 datalen, Some l))
  end.

(** [mem] says whether the item and its name get their memory. *)
Definition evdns_server_request_add_reply (mem : bool) (req : server_request) (sec : Z) (name : list byte)
    (type class ttl datalen : Z) (isname : bool) (data : option (list byte)) : outcome (Z * server_request) :=
  match sr_response req, section_of sec with
  | Some _, _ => Done (-1, req)
  | None, NO_SECTION => Done (-1, req)
  | None, s =>
      if negb mem then Done (-1, req) else
      r ← item_data data isname datalen;
      match r with
      | None => Done (-1, req)
      | Some (n, d) => Done (0, add_item req s (mkItem name (u16 type) (u16 class) (u32 ttl) isname n d))
      end
  end.

Definition evdns_server_request_add_a_reply (mem : bool) (req : server_request) (name : list byte) (n : Z)
    (addrs : option (list byte)) (ttl : Z) : outcome (Z * server_request) :=
  evdns_server_request_add_reply mem req 0 name TYPE_A CLASS_INET ttl (i32 (n * 4)) false addrs.

Definition evdns_server_request_add_aaaa_reply (mem : bool) (req : server_request) (name : list byte) (n : Z)
    (addrs : option (list byte)) (ttl : Z) : outcome (Z * server_request) :=
  evdns_server_request_add_reply mem req 0 name TYPE_AAAA CLASS_INET ttl (i32 (n * 16)) false addrs.

(** The name under which an IPv4 address is looked up, [in4] its four octets. *)
Definition in_addr_arpa (in4 : list Z) : list byte :=
  print_quad (nth 3 in4 0) (nth 2 in4 0) (nth 1 in4 0) (nth 0 in4 0) ++
  ["."; "i"; "n"; "-"; "a"; "d"; "d"; "r"; "."; "a"; "r"; "p"; "a"]%byte.

Definition evdns_server_request_add_ptr_reply (mem : bool) (req : server_request) (in4 : option (list Z))
    (inaddr_name hostname : option (list byte)) (ttl : Z) : outcome (Z * server_request) :=
  match in4, inaddr_name with
  | Some _, Some _ => Done (-1, req)
  | None, None => Done (-1, req)
  | Some a, None =>
      evdns_server_request_add_reply mem req 0 (in_addr_arpa a) TYPE_PTR CLASS_INET ttl (-1) true hostname
  | None, Some name =>
      evdns_server_request_add_reply mem req 0 name TYPE_PTR CLASS_INET ttl (-1) true hostname
  end.

Definition evdns_server_request_add_cname_reply (mem : bool) (req : server_request) (name : list byte)
    (cname : option (list byte)) (ttl : Z) : outcome (Z * server_request) :=
  evdns_server_request_add_reply mem req 0 name TYPE_CNAME CLASS_INET ttl (-1) true cname.

Definition evdns_server_request_set_flags (req : server_request) (flags : Z) : server_request :=
  let '(mkServerRequest i f q a b c la lb lc r) := req in
  mkServerRequest i (Z.lor (Z.land f (Z.lnot (Z.lor EVDNS_FLAGS_AA EVDNS_FLAGS_RD))) flags) q a b c la lb lc r.

Definition server_request_free_answers (req : server_request) : server_request :=
  let '(mkServerRequest i f q a b c _ _ _ r) := req in mkServerRequest i f q a b c [] [] [] r.

Definition set_response (req : server_request) (r : cells) : server_request :=
  let '(mkServerRequest i f q a b c la lb lc _) := req in mkServerRequest i f q a b c la lb lc (Some r).

(** A name of an item: its errors are the jump to [overflow]. *)
Definition item_name (name : list byte) : writer unit := fun s =>
  '(r, s) ← dnsname_to_labels name s;
  if r <? 0 then Done (None, s) else Done (Some tt, mkW (w_buf s) r (w_table s)).

(** The data of an item: a name behind its length, which is written last, or the
    bytes. *)
Definition put_name_data (name : option (list byte)) : writer unit := fun s =>
  name ← deref name;
  let len_idx := w_pos s in
  '(r, s) ← item_name name (mkW (w_buf s) (len_idx + 2) (w_table s));
  match r with
  | None => Done (None, s)
  | Some _ =>
      buf ← put (w_buf s) len_idx (be16 (i16 (w_pos s - (len_idx + 2))));
      Done (Some tt, mkW buf (w_pos s) (w_table s))
  end.

Definition put_bytes (datalen : Z) (data : option (list byte)) : writer unit := fun s =>
  if zlen (w_buf s) <? w_pos s + datalen then Done (None, s) else
  l ← (match data with
       | Some d => memread 0 datalen d
       | None => if datalen =? 0 then Done [] else Crash
       end);
  buf ← put (w_buf s) (w_pos s) l;
  Done (Some tt, mkW buf (w_pos s + datalen) (w_table s)).

Definition put_item_data (item : server_reply_item) : writer unit :=
  if is_name item then put_name_data (ri_data item)
  else _ ← APPEND16 (ri_datalen item); put_bytes (ri_datalen item) (ri_data item).

Definition put_item (item : server_reply_item) : writer unit :=
  _ ← item_name (ri_name item);
  _ ← APPEND16 (ri_type item);
  _ ← APPEND16 (ri_class item);
  _ ← APPEND32 (ri_ttl item);
  put_item_data item.

Fixpoint put_items (items : list server_reply_item) : writer unit :=
  match items with
  | [] => mret tt
  | item :: items => _ ← put_item item; put_items items
  end.

(** The questions: a negative result is returned as it is. *)
Fixpoint put_questions (questions : list (list byte * Z * Z)) : writer Z :=
  match questions with
  | [] => mret 0
  | (name, type, class) :: questions =>
      question_name name (_ ← APPEND16 type; _ ← APPEND16 class; put_questions questions)
  end.

(** Everything up to the test of the length: a negative result for the return in
    the middle, [None] for [overflow]. *)
Definition put_response (req : server_request) (flags : Z) : writer Z :=
  _ ← APPEND16 (sr_trans_id req); _ ← APPEND16 flags;
  _ ← APPEND16 (zlen (sr_questions req)); _ ← APPEND16 (n_answer req);
  _ ← APPEND16 (n_authority req); _ ← APPEND16 (n_additional req);
  r ← put_questions (sr_questions req);
  if r <? 0 then mret r else
  _ ← put_items (sr_answer req); _ ← put_items (sr_authority req); _ ← put_items (sr_additional req);
  mret 0.

(** [mem] is whether the memory for the response can be had. *)
Definition evdns_server_request_format_response (mem : bool) (req : server_request) (error : Z)
    : outcome (Z * server_request) :=
  if (error <? 0) || (15 <? error) then Done (-1, req) else
  let flags := u16 (Z.lor (u16 (sr_flags req)) (Z.lor 0x8000 error)) in
  '(r, s) ← put_response req flags (mkW (replicate 1500 None) 0 (Some []));
  let finish j buf :=
    if negb mem then Done (-1, server_request_free_answers req)
    else Done (0, set_response (server_request_free_answers req) (ztake j buf)) in
  let truncate buf :=
    c ← deref (mjoin (buf !! 2%nat));
    finish 512 (<[2%nat := Some (Zbyte (Z.lor (byteZ c) 0x02))]> buf) in
  match r with
  | Some r => if r <? 0 then Done (r, req)
              else if 512 <? w_pos s then truncate (w_buf s) else finish (w_pos s) (w_buf s)
  | None => truncate (w_buf s)
  end.

End Writing.

(** ** The server's reader *)

Section Requests.
Context (packet : list byte).

Fixpoint server_questions (n : nat) : reader (list (list byte * Z * Z)) :=
  match n with
  | O => mret []
  | S n =>
      tmp_name ← NAME packet 256;
      type ← GET16 packet; class ← GET16 packet;
      rest ← server_questions n;
      mret ((cstr tmp_name, type, class) :: rest)
  end.

(** What [request_parse] does: [-1] without a trace, an answer with
    [DNS_ERR_NOTIMPL], or the call of [user_callback]. *)
Inductive server_parsed :=
| Rejected
| NotImplemented (req : server_request)
| Called (req : server_request).

(** [mem] says whether the allocations succeed; [mm_calloc] of no questions gives
    [NULL]. *)
Definition request_parse (mem : bool) : outcome server_parsed :=
  '(h, s) ← header packet (mkR 0 None);
  match h with
  | None => Done Rejected
  | Some (trans_id, flags, questions, _, _, _) =>
      if has flags 0x8000 then Done Rejected else
      let flags := Z.land flags 0x0110 in
      if negb mem || (questions =? 0) then Done Rejected else
      '(q, _) ← server_questions (Z.to_nat questions) s;
      match q with
      | None => Done Rejected
      | Some q =>
          let req := mkServerRequest trans_id flags q 0 0 0 [] [] [] None in
          if has flags 0x7800 then Done (NotImplemented req) else Done (Called req)
      end
  end.

End Requests.
