(* ===== verification/DnsSpec.v ===== *)
(** * DNS messages: bounds

    Every packet is read within its bounds, and what is read fits where it is
    stored ([DnsWire]). *)

From S2P Require Import Prelude Ctype HttpText Inet DnsWire.

(** ** Readers *)

(** The reader ends normally from every position, and what it gives satisfies
    [P]. *)
Definition reads {A} (m : reader A) (P : A -> Prop) : Prop :=
  forall s, 0 <= r_pos s -> returns (m s) (fun r => 0 <= r_pos (snd r) /\ forall a, fst r = Some a -> P a).

Lemma reads_ret {A} (a : A) (P : A -> Prop) : P a -> reads (mret a) P.
Proof. intros HP s Hs. apply returns_done. split; [done|]. by intros ? [= <-]. Qed.

Lemma reads_err {A} (P : A -> Prop) : reads err P.
Proof. intros s Hs. by apply returns_done. Qed.

Lemma reads_bind {A B} (m : reader A) (f : A -> reader B) P Q :
  reads m P -> (forall a, P a -> reads (f a) Q) -> reads (m ≫= f) Q.
Proof.
  intros Hm Hf s Hs. destruct (Hm s Hs) as ([[a|] s1] & E & Hp & Ha); unfold mbind, reader_bind; rewrite E.
  - apply (Hf a); [by apply Ha|done].
  - by apply returns_done.
Qed.

Lemma reads_mono {A} (m : reader A) (P Q : A -> Prop) : reads m P -> (forall a, P a -> Q a) -> reads m Q.
Proof. intros Hm HPQ s Hs. eapply returns_mono; [apply Hm, Hs|]. intros [r s'] [? ?]. eauto. Qed.

Lemma reads_if {A} (b : bool) (m k : reader A) P :
  (b = true -> reads m P) -> (b = false -> reads k P) -> reads (if b then m else k) P.
Proof. destruct b; auto. Qed.

Lemma be_value_nonneg l : 0 <= be_value l.
Proof.
  unfold be_value. enough (H : forall v, 0 <= v -> 0 <= fold_left (fun v c => v * 256 + byteZ c) l v) by (apply H; lia).
  induction l as [|c l IH]; intros v Hv; simpl; [done|]. apply IH. pose proof (byteZ_range c). lia.
Qed.

Lemma put_name_done len out s : zlen out + zlen s <= len -> put_name len out s = Done (out ++ s).
Proof. intros H. unfold put_name. by rewrite (proj2 (Z.leb_le _ _)). Qed.

Section Bounds.
Context (packet : list byte).

Lemma reads_GET n : 0 <= n -> reads (GET packet n) (fun v => 0 <= v).
Proof.
  intros Hn s Hs. unfold GET. case_test; zb; [by apply returns_done|].
  rewrite memread_done by lia. apply returns_done. cbn. split; [lia|].
  intros ? [= <-]. apply be_value_nonneg.
Qed.

Lemma reads_advance n : 0 <= n -> reads (advance n) (fun _ => True).
Proof. intros Hn s Hs. apply returns_done. cbn. split; [lia|done]. Qed.

(** Positions and lengths that [name_loop] goes through; [fuel] covers the labels
    that fit and the pointers that are allowed. *)
Lemma name_loop_ok fuel len j name_end ptr_count out :
  0 <= j -> name_end <= zlen packet -> 0 <= ptr_count <= zlen packet -> zlen out <= len ->
  len - zlen out + (zlen packet - ptr_count) + 1 < Z.of_nat fuel ->
  returns (name_loop packet fuel len j name_end ptr_count out)
    (fun r => forall k name, r = Some (k, name) -> 0 <= k <= zlen packet /\ zlen name < len).
Proof.
  revert j name_end ptr_count out.
  induction fuel as [|fuel IH]; intros j name_end ptr_count out Hj He Hp Ho Hf; [pose proof (zlen_nonneg out); lia|].
  cbn [name_loop].
  destruct (zlen packet <=? j) eqn:Ej; [by apply returns_done|]. zb.
  destruct (packet !! Z.to_nat j) as [b|] eqn:Eb.
  2: { apply lookup_ge_None in Eb. unfold zlen in Ej. lia. }
  assert (Hb : byte_at packet j = Done (byteZ b)).
  { unfold byte_at. rewrite (proj2 (Z.leb_le 0 j)) by lia. by rewrite Eb. }
  rewrite Hb. cbn [mbind outcome_bind]. pose proof (byteZ_range b) as Hr.
  destruct (byteZ b =? 0) eqn:E0; zb.
  { case_test; zb; apply returns_done; [done|]. intros k name [= <- <-]. split; [|lia]. case_test; zb; lia. }
  destruct (has (byteZ b) 0xc0) eqn:Ec.
  { destruct (zlen packet <=? j + 1) eqn:E1; [by apply returns_done|]. zb.
    destruct (packet !! Z.to_nat (j + 1)) as [lo|] eqn:El.
    2: { apply lookup_ge_None in El. unfold zlen in E1. lia. }
    assert (Hl : byte_at packet (j + 1) = Done (byteZ lo)).
    { unfold byte_at. rewrite (proj2 (Z.leb_le 0 (j + 1))) by lia. by rewrite El. }
    rewrite Hl. cbn [mbind outcome_bind].
    destruct (_ || _) eqn:E2; [by apply returns_done|]. zb.
    case_test; zb; [by apply returns_done|]. apply IH; try lia. case_test; zb; lia. }
  destruct (63 <? byteZ b) eqn:E63; [by apply returns_done|]. zb.
  assert (Hlabel : forall out', zlen out <= zlen out' -> zlen out' <= len ->
    returns (if len <=? zlen out' + byteZ b then Done None
             else if zlen packet <? j + 1 + byteZ b then Done None else
               label ← memread (j + 1) (byteZ b) packet;
               out2 ← put_name len out' label;
               name_loop packet fuel len (j + 1 + byteZ b) name_end ptr_count out2)
      (fun r => forall k name, r = Some (k, name) -> 0 <= k <= zlen packet /\ zlen name < len)).
  { intros out' Ho1 Ho2. case_test; zb; [by apply returns_done|]. case_test; zb; [by apply returns_done|].
    rewrite memread_done by lia. cbn [mbind outcome_bind].
    assert (zlen (zsub (j + 1) (byteZ b) packet) = byteZ b) as Hz by (apply zlen_zsub; lia).
    rewrite put_name_done by lia. cbn [mbind outcome_bind].
    apply IH; try lia; rewrite zlen_app, Hz; lia. }
  destruct (negb (bool_decide (out = [])) && (len <=? zlen out + 1)) eqn:Ed; [by apply returns_done|].
  case_bool_decide as Eo; cbn [negb andb] in Ed.
  - cbn [mbind outcome_bind]. apply Hlabel; lia.
  - zb. rewrite put_name_done by (rewrite zlen_cons, (zlen_nil byte); lia). cbn [mbind outcome_bind].
    apply Hlabel; rewrite zlen_app, zlen_cons, (zlen_nil byte); lia.
Qed.

Lemma name_parse_ok idx len :
  0 <= idx -> 0 <= len ->
  returns (name_parse packet idx len)
    (fun r => forall k name, r = Some (k, name) -> 0 <= k <= zlen packet /\ zlen name < len).
Proof.
  intros Hi Hl. pose proof (zlen_nonneg packet). unfold name_parse, name_fuel. apply name_loop_ok; try lia.
  - rewrite (zlen_nil byte). lia.
  - rewrite (zlen_nil byte), Z2Nat.id; lia.
Qed.

Lemma reads_NAME len : 0 <= len -> reads (NAME packet len) (fun name => zlen name < len).
Proof.
  intros Hl s Hs. unfold NAME. destruct (name_parse_ok (r_pos s) len Hs Hl) as (r & -> & Hr). cbn [mbind outcome_bind].
  destruct r as [[k name]|]; apply returns_done; cbn; [|done].
  destruct (Hr k name eq_refl). split; [lia|]. by intros ? [= <-].
Qed.

End Bounds.

Section Replies.
Context (packet : list byte).

(** The addresses of a reply fill whole entries of their array, and the name has
    room for its NUL. *)
Definition addresses_ok (size max : Z) (l : list byte) : Prop := exists n, zlen l = size * n /\ n <= max.
Definition reply_ok (rp : reply) : Prop :=
  addresses_ok 4 MAX_V4_ADDRS (rp_a rp) /\ addresses_ok 16 MAX_V6_ADDRS (rp_aaaa rp) /\
  zlen (rp_ptr rp) < HOST_NAME_MAX.

Lemma reads_copy size max have datalength :
  0 < size -> 0 <= max < 2 ^ 32 -> addresses_ok size max have -> 0 <= datalength ->
  reads (copy_addresses packet size max have datalength) (addresses_ok size max).
Proof.
  intros Hsz Hmax (n & Hn & Hle) Hd s Hs. pose proof (zlen_nonneg have). unfold copy_addresses, addrcount.
  assert (0 <= n) by nia.
  assert (zlen have / size = n) as -> by (rewrite Hn, Z.mul_comm; apply Z.div_mul; lia).
  pose proof (Z.div_pos datalength size Hd Hsz). rewrite u32_small by lia.
  set (k := Z.min _ _). assert (0 <= k <= max - n) by (unfold k; lia).
  case_test; zb; [by apply returns_done|].
  rewrite (proj2 (Z.leb_le _ _)) by lia. cbn [assert_c mbind outcome_bind].
  rewrite memread_done by nia. apply returns_done. cbn. split; [nia|]. intros ? [= <-].
  exists (n + k). rewrite zlen_app, zlen_zsub by nia. split; [nia|lia].
Qed.

Lemma reads_skip {A} n (a : A) (P : A -> Prop) : 0 <= n -> P a -> reads (_ ← advance n; mret a) P.
Proof. intros Hn HP. eapply reads_bind; [by apply reads_advance|]. intros _ _. by apply reads_ret. Qed.

Lemma reads_set_cname c : reads (set_cname c) (fun _ => True).
Proof. intros s Hs. by apply returns_done. Qed.
Lemma reads_get_cname : reads get_cname (fun _ => True).
Proof. intros s Hs. by apply returns_done. Qed.


Ltac step_read :=
  first
  [ apply reads_skip; [lia|]
  | eapply reads_bind; [first [apply reads_GET; lia | apply reads_NAME; unfold HOST_NAME_MAX; lia | apply reads_get_cname | apply reads_set_cname
                              | apply reads_advance; lia | apply reads_copy; [lia|unfold MAX_V4_ADDRS, MAX_V6_ADDRS; lia| |lia]] |]; cbv beta
  | apply reads_err
  | apply reads_ret ].

Definition ttl_ok (ttl : Z) : Prop := 0 <= ttl <= 0xffffffff.

Lemma reads_answer req ttl_r rp :
  ttl_ok ttl_r -> reply_ok rp ->
  reads (answer packet req ttl_r rp) (fun r => ttl_ok (snd (fst r)) /\ reply_ok (snd r)).
Proof.
  intros Ht Hrp. pose proof Hrp as (Ha & H6 & Hn). unfold answer, GET16, GET32, ttl_ok in *.
  step_read; intros _ _. step_read; intros type _. step_read; intros class _.
  step_read; intros ttl Httl. step_read; intros dl Hdl.
  destruct (_ && _).
  { destruct (negb _); [step_read; auto|]. destruct (negb _); [step_read|].
    step_read; [done|]. intros l Hl. step_read. cbn. split; [lia|by split_and!]. }
  destruct (_ && _).
  { destruct (negb _); [step_read; auto|]. step_read. intros name Hname. step_read. cbn. split; [lia|by split_and!]. }
  destruct (_ =? _).
  { step_read. intros c _. destruct (_ || _); [step_read; auto|].
    step_read. intros name Hname. step_read. intros _ _. step_read. auto. }
  destruct (_ && _).
  { destruct (negb _); [step_read; auto|]. destruct (negb _); [step_read|].
    step_read; [done|]. intros l Hl. step_read. cbn. split; [lia|by split_and!]. }
  step_read. auto.
Qed.

Lemma reads_answers n req ttl_r rp :
  ttl_ok ttl_r -> reply_ok rp ->
  reads (answers_loop packet n req ttl_r rp) (fun r => ttl_ok (fst r) /\ reply_ok (snd r)).
Proof.
  revert ttl_r rp. induction n as [|n IH]; intros ttl_r rp Ht Hrp; cbn [answers_loop].
  - by apply reads_ret.
  - eapply reads_bind; [by apply reads_answer|]. intros [[b t] r] [Ht' Hr]. cbn in *.
    destruct b; [by apply reads_ret|]. by apply IH.
Qed.

Lemma reads_authority n ttl_r : ttl_ok ttl_r -> reads (authority_loop packet n ttl_r) ttl_ok.
Proof.
  revert ttl_r. induction n as [|n IH]; intros ttl_r Ht; cbn [authority_loop]; [by apply reads_ret|].
  unfold GET16, GET32.
  step_read; intros _ _. step_read; intros type _. step_read; intros class _.
  step_read; intros ttl Httl. step_read; intros dl Hdl.
  destruct (_ && _).
  - do 6 (step_read; intros ? _). step_read; intros m Hm. apply IH. unfold ttl_ok in *. lia.
  - step_read; intros _ _. by apply IH.
Qed.

Lemma reads_questions n randomize req m : reads (questions_loop packet n randomize req m) (fun _ => True).
Proof.
  revert m. induction n as [|n IH]; intros m; cbn [questions_loop]; [by apply reads_ret|].
  eapply (reads_bind _ _ (fun k => 0 <= k)); [intros s Hs; apply returns_done; cbn; split; [done|by intros ? [= <-]]|]. intros k Hk.
  step_read; intros tmp _.
  eapply (reads_bind _ _ (fun _ => True)).
  { intros s Hs. unfold request_name.
    destruct (name_parse_ok (rq_request req) k 256 Hk ltac:(lia)) as (r & -> & _). cbn [mbind outcome_bind]. by destruct r as [[??]|]; apply returns_done. }
  intros cmp _. step_read; intros _ _.
  eapply (reads_bind _ _ (fun _ => True)); [intros s Hs; apply returns_done; cbn; split; done|]. intros _ _. apply IH.
Qed.

Lemma reads_header : reads (header packet) (fun h => let '(id, flags, q, a, n, d) := h in 0 <= q /\ 0 <= a /\ 0 <= n).
Proof. unfold header, GET16. do 6 (step_read; intros ? ?). by step_read. Qed.

Lemma reads_sections randomize req questions answers authority :
  reads (sections packet randomize req questions answers authority) (fun r => ttl_ok (fst r) /\ reply_ok (snd r)).
Proof.
  unfold sections. eapply reads_bind; [apply reads_questions|]. intros m _.
  destruct (negb m); [step_read|].
  eapply reads_bind; [apply reads_answers; [unfold ttl_ok; lia|]|].
  { split; [|split]; try (exists 0; split; [done|unfold MAX_V4_ADDRS, MAX_V6_ADDRS; lia]). done. }
  intros [ttl rp] [Ht Hrp]. cbn in *.
  eapply (reads_bind _ _ ttl_ok); [destruct (have_answer rp); [by step_read|by apply reads_authority]|].
  intros t Ht'. step_read. cbn. split; [|done]. unfold ttl_ok in *. destruct (_ =? _); lia.
Qed.

Lemma reads_server_questions n :
  reads (server_questions packet n) (Forall (fun q => zlen (fst (fst q)) < 256)).
Proof.
  induction n as [|n IH]; cbn [server_questions]; unfold GET16; [by step_read|].
  step_read; intros name Hname. step_read; intros type _. step_read; intros class _.
  eapply reads_bind; [exact IH|]. intros rest Hrest. step_read. constructor; [|done]. cbn.
  enough (zlen (cstr name) <= zlen name) by lia. clear. induction name as [|c l IH]; [done|]. cbn [cstr].
  case_decide; rewrite ?zlen_cons, ?(zlen_nil byte); pose proof (zlen_nonneg l); lia.
Qed.

(** Whatever bytes arrive, the reader of replies and the reader of requests
    return, stay inside the packet, the buffers for names and the arrays of
    addresses, and give whole addresses, names with room for their NUL and a
    32-bit time to live. *)
Theorem dns_readers_in_bounds (find : Z -> option dns_request) (randomize mem : bool) :
  returns (reply_parse packet find randomize)
    (fun r => match r with Replied _ ttl rp _ => ttl_ok ttl /\ reply_ok rp | _ => True end) /\
  returns (request_parse packet mem)
    (fun r => match r with
              | Called req | NotImplemented req => Forall (fun q => zlen (fst (fst q)) < 256) (sr_questions req)
              | Rejected => True
              end).
Proof.
  destruct (reads_header (mkR 0 None) ltac:(cbn; lia)) as ([h s] & E & Hs & Hh).
  unfold reply_parse, request_parse. rewrite E. cbn [mbind outcome_bind fst snd] in *.
  destruct h as [[[[[[id flags] q] a] n] d]|]; [|by split; apply returns_done].
  split.
  - destruct (find id) as [req|]; [|by apply returns_done].
    destruct (negb _); [by apply returns_done|]. destruct (_ && _); [by apply returns_done|].
    set (c := match _ with Some _ => _ | None => _ end).
    destruct (reads_sections randomize req q a n (mkR (r_pos s) c) Hs) as ([r s'] & -> & _ & Hr).
    cbn [mbind outcome_bind fst snd] in *. destruct r as [[ttl rp]|]; apply returns_done; [|done].
    by apply (Hr _ eq_refl).
  - destruct (has _ _); [by apply returns_done|]. destruct (_ || _); [by apply returns_done|].
    destruct (reads_server_questions (Z.to_nat q) s Hs) as ([r s'] & -> & _ & Hr).
    cbn [mbind outcome_bind fst snd] in *. destruct r as [l|]; [|by apply returns_done].
    specialize (Hr _ eq_refl). destruct (has _ _); by apply returns_done.
Qed.

(** The operation code is masked away before it is looked at: no request is
    answered as not implemented. *)
Theorem operation_code_ignored (mem : bool) : returns (request_parse packet mem) (fun r => forall req, r <> NotImplemented req).
Proof.
  destruct (reads_header (mkR 0 None) ltac:(cbn; lia)) as ([h s] & E & Hs & Hh).
  unfold request_parse. rewrite E. cbn [mbind outcome_bind fst snd] in *.
  destruct h as [[[[[[id flags] q] a] n] d]|]; [|by apply returns_done].
  destruct (has _ _); [by apply returns_done|]. destruct (_ || _); [by apply returns_done|].
  destruct (reads_server_questions (Z.to_nat q) s Hs) as ([r s'] & -> & _ & _). cbn [mbind outcome_bind].
  destruct r as [l|]; [|by apply returns_done].
  assert (has (Z.land flags 0x0110) 0x7800 = false) as ->; [|by apply returns_done].
  unfold has. rewrite <- Z.land_assoc. change (Z.land 0x0110 0x7800) with 0. by rewrite Z.land_0_r.
Qed.

End Replies.
