(* ===== verification/DnsNames.v ===== *)
(** * DNS names, written and read

    A name that [dnsname_to_labels] has written, with or without compression, is
    read back by [name_parse] from the finished packet ([DnsWire]). *)

From S2P Require Import Prelude Ctype HttpText Inet DnsWire DnsSpec.

(** ** Cells *)

(** What is written in [c] is written in [c']. *)
Definition refines (c c' : cells) : Prop := forall i b, c !! i = Some (Some b) -> c' !! i = Some (Some b).

#[export] Instance refines_preorder : PreOrder refines.
Proof. split; [by intros c i b|]. intros a b c Hab Hbc i x H. auto. Qed.

Lemma refines_app c k : refines c (c ++ k).
Proof. intros i b H. by apply lookup_app_l_Some. Qed.

(** Filling cells that were left out. *)
Lemma refines_fill (c x k : cells) : refines (c ++ replicate (length x) None ++ k) (c ++ x ++ k).
Proof.
  intros i b H. destruct (decide (i < length c)%nat) as [Hi|Hi].
  - rewrite lookup_app_l in H by done. by rewrite lookup_app_l.
  - rewrite lookup_app_r in H by lia. rewrite (lookup_app_r c) by lia. set (o := (i - length c)%nat) in *.
    destruct (decide (o < length x)%nat) as [Ho|Ho].
    + rewrite lookup_app_l in H by (by rewrite length_replicate). by apply lookup_replicate in H as [? _].
    + rewrite lookup_app_r in H by (rewrite length_replicate; lia). rewrite length_replicate in H.
      by rewrite lookup_app_r by lia.
Qed.

(** The bytes [l] are written from [j] on. *)
Definition holds (c : cells) (j : Z) (l : list byte) : Prop :=
  0 <= j /\ forall k b, l !! k = Some b -> c !! (Z.to_nat j + k)%nat = Some (Some b).

Lemma holds_refines c c' j l : refines c c' -> holds c j l -> holds c' j l.
Proof. intros Hr [Hj H]. split; auto. Qed.

Lemma holds_app c j a b : holds c j (a ++ b) <-> holds c j a /\ holds c (j + zlen a) b.
Proof.
  pose proof (zlen_nonneg a). split.
  - intros [Hj H']. split; (split; [lia|]); intros k x Hk.
    + apply H'. by apply lookup_app_l_Some.
    + unfold zlen. replace (Z.to_nat (j + Z.of_nat (length a)) + k)%nat with (Z.to_nat j + (length a + k))%nat by lia.
      apply H'. rewrite lookup_app_r by lia. by replace (length a + k - length a)%nat with k by lia.
  - intros [[Hj Ha] [_ Hb]]. split; [done|]. intros k x Hk. apply lookup_app_Some in Hk as [Hk|[Hle Hk]]; [auto|].
    specialize (Hb _ _ Hk). unfold zlen in Hb.
    by replace (Z.to_nat (j + Z.of_nat (length a)) + (k - length a))%nat with (Z.to_nat j + k)%nat in Hb by lia.
Qed.

Lemma holds_end c l k : holds (c ++ (Some <$> l) ++ k) (zlen c) l.
Proof.
  split; [apply zlen_nonneg|]. intros i b Hi. unfold zlen. rewrite Nat2Z.id.
  rewrite lookup_app_r by lia. replace (length c + i - length c)%nat with i by lia.
  apply lookup_app_l_Some. by rewrite list_lookup_fmap, Hi.
Qed.

Lemma holds_last c l : holds (c ++ (Some <$> l)) (zlen c) l.
Proof. rewrite <- (app_nil_r (Some <$> l)). apply holds_end. Qed.

(** The packet has the bytes that were written. *)
Definition agree (packet : list byte) (c : cells) : Prop := forall i b, c !! i = Some (Some b) -> packet !! i = Some b.

Lemma agree_refines packet c c' : refines c c' -> agree packet c' -> agree packet c.
Proof. intros Hr Ha i b H. auto. Qed.

Lemma agree_self packet : agree packet (Some <$> packet).
Proof. intros i b H. rewrite list_lookup_fmap in H. by destruct (packet !! i); simplify_eq/=. Qed.

Section Agree.
Context (packet : list byte) (c : cells) (Hag : agree packet c).

Lemma agree_at j b l : holds c j (b :: l) -> byte_at packet j = Done (byteZ b) /\ j < zlen packet.
Proof using Hag.
  intros [Hj H]. specialize (H 0%nat b eq_refl). rewrite Nat.add_0_r in H. apply Hag in H.
  split; [unfold byte_at; by rewrite (proj2 (Z.leb_le _ _)), H by lia|].
  apply lookup_lt_Some in H. unfold zlen. lia.
Qed.

Lemma agree_in j l : holds c j l -> l <> [] -> j + zlen l <= zlen packet.
Proof using Hag.
  intros [Hj H] Hl. destruct (lookup_lt_is_Some_2 l (length l - 1)) as [b Hb]; [destruct l; [done|cbn; lia]|].
  specialize (H _ _ Hb). apply Hag, lookup_lt_Some in H. unfold zlen. destruct l; [done|]. cbn in *. lia.
Qed.

Lemma agree_read j l : holds c j l -> j + zlen l <= zlen packet -> memread j (zlen l) packet = Done l.
Proof using Hag.
  intros [Hj H] Hle. rewrite memread_done by (auto with mtc; lia). f_equal.
  apply list_eq_same_length with (n := length l); [done| |].
  - unfold zsub, ztake, zdrop, zlen in *. rewrite length_take, length_drop. lia.
  - intros i x y Hi Hx Hy. specialize (H _ _ Hy). apply Hag in H. unfold zsub, ztake, zdrop in Hx.
    rewrite lookup_take in Hx. case_decide; [|done]. rewrite lookup_drop in Hx. congruence.
Qed.

Lemma agree_get n j l v cn :
  holds c j l -> l <> [] -> zlen l = n -> be_value l = v ->
  GET packet n (mkR j cn) = Done (Some v, mkR (j + n) cn).
Proof using Hag.
  intros Hh Hl <- <-. pose proof (agree_in j l Hh Hl). unfold GET. cbn [r_pos r_cname].
  rewrite (proj2 (Z.ltb_ge _ _)) by lia. by rewrite (agree_read j l Hh ltac:(lia)).
Qed.

End Agree.

(** ** Names in a packet *)

Definition label_ok (l : list byte) : Prop := (DOT ∉ l) /\ (x00 ∉ l) /\ 1 <= zlen l <= 63.

(** The text of a name. *)
Fixpoint dotted (ls : list (list byte)) : list byte :=
  match ls with
  | [] => []
  | [l] => l
  | l :: ls => l ++ DOT :: dotted ls
  end.

(** The labels are encoded at [j], with [n] pointers; the encoding at [j] ends at
    [e]. *)
Inductive enc (c : cells) : Z -> list (list byte) -> Z -> Z -> Prop :=
| enc_end j : holds c j [x00] -> enc c j [] 0 (j + 1)
| enc_label j l ls n e :
    1 <= zlen l <= 63 -> holds c j (Zbyte (zlen l) :: l) -> enc c (j + 1 + zlen l) ls n e -> enc c j (l :: ls) n e
| enc_ptr j t ls n e :
    0 <= t < 2 ^ 14 -> holds c j (be16 (Z.lor t 0xc000)) -> enc c t ls n e -> enc c j ls (n + 1) (j + 2).

Lemma enc_refines c c' j ls n e : refines c c' -> enc c j ls n e -> enc c' j ls n e.
Proof. intros Hr. induction 1; econstructor; eauto using holds_refines. Qed.

Lemma enc_pointers c j ls n e : enc c j ls n e -> 0 <= n.
Proof. induction 1; lia. Qed.

(** The name is at [j], with no more pointers than bytes before it. *)
Definition readable (c : cells) (j : Z) (name : list byte) (e : Z) : Prop :=
  exists ls n, enc c j ls n e /\ dotted ls = name /\ Forall label_ok ls /\ 0 <= n <= j.

Lemma readable_refines c c' j name e : refines c c' -> readable c j name e -> readable c' j name e.
Proof. intros Hr (ls & n & He & H). exists ls, n. split; [by eapply enc_refines|done]. Qed.

Lemma pointer_byte t : 0 <= t < 2 ^ 14 -> be16 (Z.lor t 0xc000) = [Zbyte (0xc0 + t / 256); Zbyte (t mod 256)].
Proof.
  intros Ht. unfold be16.
  assert (Z.lor t 0xc000 = 0xc000 + t) as ->.
  { rewrite Z.lor_comm. symmetry. apply Z.add_nocarry_lor. change 0xc000 with (Z.shiftl 3 14).
    apply Z.bits_inj'. intros k Hk. rewrite Z.land_spec, Z.bits_0, Z.shiftl_spec by lia.
    destruct (decide (k < 14)); [by rewrite (Z.testbit_neg_r _ (k - 14)) by lia|].
    destruct (decide (t = 0)) as [->|]; [by rewrite Z.bits_0, andb_false_r|].
    rewrite (Z.bits_above_log2 t k); [by rewrite andb_false_r|lia|]. apply Z.log2_lt_pow2; [lia|].
    apply Z.lt_le_trans with (2 ^ 14); [lia|apply Z.pow_le_mono_r; lia]. }
  f_equal; [f_equal|f_equal].
  - replace (0xc000 + t) with (t + 0xc0 * 256) by lia. rewrite Z.div_add by lia. lia.
  - apply byteZ_inj. rewrite !byteZ_Zbyte. unfold u8. change (2 ^ 8) with 256.
    replace (0xc000 + t) with (t + 0xc0 * 256) by lia. by rewrite Z.mod_add, Z.mod_mod by lia.
Qed.

Lemma dotted_cons l ls : ls <> [] -> dotted (l :: ls) = l ++ DOT :: dotted ls.
Proof. by destruct ls. Qed.

Lemma dotted_length ls : Forall label_ok ls -> Z.of_nat (length ls) <= zlen (dotted ls).
Proof.
  induction 1 as [|l ls (_ & _ & Hl) _ IH]; [done|]. destruct ls as [|l2 ls]; [cbn; lia|].
  rewrite dotted_cons by done. rewrite zlen_app, zlen_cons. cbn [length] in *. lia.
Qed.

(** What [name_loop] adds to a name. *)
Definition joined_name (out : list byte) (ls : list (list byte)) : list byte :=
  match ls, out with
  | [], _ => out
  | _, [] => dotted ls
  | _, _ => out ++ DOT :: dotted ls
  end.

Definition joined_label (out l : list byte) : list byte :=
  if bool_decide (out = []) then l else out ++ [DOT] ++ l.

Lemma joined_name_label out l ls : l <> [] -> joined_name out (l :: ls) = joined_name (joined_label out l) ls.
Proof.
  intros Hl. unfold joined_label. case_bool_decide as Ho; subst.
  - destruct ls as [|l2 ls]; [done|]. unfold joined_name at 1. rewrite dotted_cons by done. by destruct l.
  - unfold joined_name at 1. destruct out as [|o out]; [done|]. destruct ls as [|l2 ls]; [done|].
    rewrite dotted_cons by done. unfold joined_name. simpl. by rewrite <- app_assoc.
Qed.

Lemma joined_name_longer out ls : zlen out <= zlen (joined_name out ls).
Proof.
  unfold joined_name. destruct ls, out; rewrite ?zlen_app, ?zlen_cons, ?(zlen_nil byte); auto with mtc; try lia.
  pose proof (zlen_nonneg (dotted (l :: ls))). lia.
Qed.

Lemma joined_label_len out l : zlen (joined_label out l) = (if bool_decide (out = []) then 0 else zlen out + 1) + zlen l.
Proof. unfold joined_label. case_bool_decide; rewrite ?zlen_app, ?zlen_cons, ?(zlen_nil byte); lia. Qed.

Section Read.
Context (packet : list byte) (c : cells) (Hag : agree packet c).

Lemma label_len_byte (l : list byte) : 1 <= zlen l <= 63 ->
  byteZ (Zbyte (zlen l)) = zlen l /\ has (zlen l) 0xc0 = false.
Proof using.
  intros Hl. split; [rewrite byteZ_Zbyte; apply Z.mod_small; lia|].
  generalize dependent (zlen l). intros z Hz.
  assert (H : forallb (fun n => negb (has (Z.of_nat n) 0xc0)) (seq 0 64) = true) by (vm_compute; reflexivity).
  rewrite forallb_forall in H. specialize (H (Z.to_nat z)). rewrite Z2Nat.id in H by lia.
  apply negb_true_iff, H, in_seq. lia.
Qed.

Lemma pointer_facts h : 0 <= h < 64 ->
  byteZ (Zbyte (0xc0 + h)) = 0xc0 + h /\ has (0xc0 + h) 0xc0 = true /\ Z.land (0xc0 + h) 0x3f = h.
Proof using.
  intros Hh. split; [rewrite byteZ_Zbyte; apply Z.mod_small; lia|].
  assert (H : forallb (fun n => has (0xc0 + Z.of_nat n) 0xc0 && (Z.land (0xc0 + Z.of_nat n) 0x3f =? Z.of_nat n)) (seq 0 64) = true)
    by (vm_compute; reflexivity).
  rewrite forallb_forall in H. specialize (H (Z.to_nat h)). rewrite Z2Nat.id in H by lia.
  apply andb_true_iff in H; [by rewrite Z.eqb_eq in H|]. apply in_seq. lia.
Qed.

Lemma enc_first j ls n e : enc c j ls n e -> 0 <= j < zlen packet.
Proof using Hag.
  intros H. assert (exists b l, holds c j (b :: l)) as (b & l & Hh).
  { destruct H as [j Hh|j l ls n e _ Hh|j t ls n e Ht Hh]; [| |rewrite pointer_byte in Hh by done]; eauto. }
  destruct (agree_at packet c Hag j b l Hh). destruct Hh. lia.
Qed.

Lemma name_loop_enc j ls n e : enc c j ls n e ->
  forall fuel len name_end ptr out,
  0 <= n -> 0 <= ptr -> ptr + n <= zlen packet -> zlen (joined_name out ls) < len ->
  (length ls + Z.to_nat n < fuel)%nat ->
  name_loop packet fuel len j name_end ptr out = Done (Some (if name_end <? 0 then e else name_end, joined_name out ls)).
Proof using Hag.
  induction 1 as [j Hh|j l ls n e Hl Hh Henc IH|j t ls n e Ht Hh Henc IH];
    intros fuel len name_end ptr out Hn Hp Hpn Hlen Hfuel; (destruct fuel as [|fuel]; [lia|]); cbn [name_loop].
  - destruct (agree_at packet c Hag j _ _ Hh) as [-> Hj]. rewrite (proj2 (Z.leb_gt _ _)) by lia.
    cbn [mbind outcome_bind]. change (byteZ x00 =? 0) with true. cbv iota.
    cbn [joined_name] in *. by rewrite (proj2 (Z.leb_gt _ _)) by lia.
  - destruct (agree_at packet c Hag j _ _ Hh) as [-> Hj]. rewrite (proj2 (Z.leb_gt (zlen packet) j)) by lia.
    cbn [mbind outcome_bind]. destruct (label_len_byte l Hl) as [-> ->].
    rewrite (proj2 (Z.eqb_neq _ _)), (proj2 (Z.ltb_ge 63 _)) by lia.
    change (Zbyte (zlen l) :: l) with ([Zbyte (zlen l)] ++ l) in Hh. apply holds_app in Hh as [_ Hh].
    change (zlen [Zbyte (zlen l)]) with 1 in Hh.
    assert (l <> []) as Hne by (intros ->; rewrite (zlen_nil byte) in Hl; lia).
    pose proof (agree_in packet c Hag _ _ Hh Hne) as Hin.
    rewrite joined_name_label in Hlen by done. rewrite joined_name_label by done.
    pose proof (joined_name_longer (joined_label out l) ls) as Hlong. rewrite joined_label_len in Hlong.
    assert (E : (if bool_decide (out = []) then Done out else put_name len out [DOT]) =
                Done (if bool_decide (out = []) then [] else out ++ [DOT])).
    { case_bool_decide; [by subst|]. apply put_name_done. rewrite zlen_cons, (zlen_nil byte). lia. }
    assert (negb (bool_decide (out = [])) && (len <=? zlen out + 1) = false) as ->.
    { case_bool_decide; [done|]. apply Z.leb_gt. lia. }
    rewrite E. cbn [mbind outcome_bind].
    assert (Hz : zlen (if bool_decide (out = []) then [] else out ++ [DOT]) = if bool_decide (out = []) then 0 else zlen out + 1).
    { case_bool_decide; [done|]. rewrite zlen_app, zlen_cons, (zlen_nil byte). lia. }
    rewrite (proj2 (Z.leb_gt len _)) by lia. rewrite (proj2 (Z.ltb_ge (zlen packet) _)) by lia.
    rewrite (agree_read packet c Hag _ _ Hh Hin). cbn [mbind outcome_bind].
    rewrite put_name_done by lia. cbn [mbind outcome_bind].
    assert ((if bool_decide (out = []) then [] else out ++ [DOT]) ++ l = joined_label out l) as ->.
    { unfold joined_label. case_bool_decide; [done|]. by rewrite <- app_assoc. }
    apply IH; try done. cbn [length] in Hfuel. lia.
  - rewrite pointer_byte in Hh by done. pose proof (proj1 Hh) as Hj0.
    assert (0 <= t / 256 < 64) as Hhi by (split; [apply Z.div_pos; lia|apply Z.div_lt_upper_bound; lia]).
    pose proof (Z.mod_pos_bound t 256 ltac:(lia)) as Hlo.
    destruct (agree_at packet c Hag j _ _ Hh) as [-> Hj]. rewrite (proj2 (Z.leb_gt (zlen packet) j)) by lia.
    cbn [mbind outcome_bind]. destruct (pointer_facts _ Hhi) as (-> & -> & Hland).
    rewrite (proj2 (Z.eqb_neq _ _)) by lia.
    match type of Hh with holds _ _ [?a; ?b] => change [a; b] with ([a] ++ [b]) in Hh end. apply holds_app in Hh as [_ Hh]. change (zlen [_]) with 1 in Hh.
    destruct (agree_at packet c Hag _ _ _ Hh) as [-> Hj1]. rewrite (proj2 (Z.leb_gt _ _)) by lia.
    cbn [mbind outcome_bind]. rewrite Hland, byteZ_Zbyte. unfold u8. rewrite (Z.mod_small (t mod 256)) by (change (2 ^ 8) with 256; lia).
    rewrite Z.shiftl_mul_pow2 by lia. change (2 ^ 8) with 256.
    assert (t / 256 * 256 + t mod 256 = t) as -> by (rewrite Z.mul_comm; symmetry; apply Z.div_mod; lia).
    pose proof (enc_first _ _ _ _ Henc). pose proof (enc_pointers _ _ _ _ _ Henc).
    rewrite (proj2 (Z.ltb_ge t 0)), (proj2 (Z.leb_gt (zlen packet) t)) by lia. cbn [orb].
    rewrite (proj2 (Z.ltb_ge _ _)) by lia.
    rewrite IH; [|lia|lia|lia|done|lia]. do 3 f_equal. destruct (name_end <? 0) eqn:E; [|by rewrite E].
    rewrite (proj2 (Z.ltb_ge _ _)) by lia. lia.
Qed.

Lemma readable_parse j name e len :
  readable c j name e -> zlen name < len -> name_parse packet j len = Done (Some (e, name)).
Proof using Hag.
  intros (ls & n & He & <- & Hls & Hn) Hlen. pose proof (enc_first _ _ _ _ He). pose proof (dotted_length ls Hls).
  assert (joined_name [] ls = dotted ls) as Hj by (by destruct ls).
  unfold name_parse, name_fuel. rewrite (name_loop_enc j ls n e He); rewrite ?Hj; try lia; done.
Qed.

Lemma readable_NAME j name e len cn :
  readable c j name e -> zlen name < len -> NAME packet len (mkR j cn) = Done (Some name, mkR e cn).
Proof using Hag. intros H Hl. unfold NAME. cbn [r_pos r_cname]. by rewrite (readable_parse j name e len H Hl). Qed.

End Read.

(** ** Writing a name *)

(** The state after [c] with room for [m] more bytes. *)
Definition st (c : cells) (m : Z) (t : option dnslabel_table) : wstate :=
  mkW (c ++ replicate (Z.to_nat m) None) (zlen c) t.

Lemma zlen_fmap {A B} (f : A -> B) (l : list A) : zlen (f <$> l) = zlen l.
Proof. unfold zlen. by rewrite length_fmap. Qed.

Lemma room_len c m t : 0 <= m -> zlen (w_buf (st c m t)) = zlen c + m.
Proof. intros Hm. cbn. rewrite zlen_app, zlen_replicate. lia. Qed.

Lemma put_end c m l :
  0 <= m -> zlen l <= m ->
  put (c ++ replicate (Z.to_nat m) None) (zlen c) l = Done ((c ++ (Some <$> l)) ++ replicate (Z.to_nat (m - zlen l)) None).
Proof.
  intros Hm Hl. pose proof (zlen_nonneg c). pose proof (zlen_nonneg l). unfold put. rewrite memwrite_done; [|lia|].
  - rewrite zlen_fmap, ztake_app_ge, Z.sub_diag, (ztake_nonpos 0), app_nil_r by lia.
    rewrite zdrop_app_ge by lia. replace (zlen c + zlen l - zlen c) with (zlen l) by lia.
    unfold zdrop. rewrite drop_replicate, <- app_assoc. do 4 f_equal. lia.
  - rewrite zlen_fmap, zlen_app, zlen_replicate. lia.
Qed.

Lemma APPEND_room l c m t :
  zlen l <= m -> APPEND l (st c m t) = Done (Some tt, st (c ++ (Some <$> l)) (m - zlen l) t).
Proof.
  intros Hl. pose proof (zlen_nonneg l). unfold APPEND. rewrite room_len by lia. cbn [w_pos w_buf w_table st].
  rewrite (proj2 (Z.ltb_ge _ _)) by lia. rewrite put_end by lia. cbn [mbind outcome_bind].
  unfold st. by rewrite zlen_app, zlen_fmap.
Qed.

Section Write.
Context (strdup : list byte -> Z -> bool).

Definition table_add (t : option dnslabel_table) (label : list byte) (pos : Z) : option dnslabel_table :=
  (fun t => snd (dnslabel_table_add strdup t label pos)) <$> t.

Lemma put_label_room start label c m t :
  zlen label <= 63 -> zlen label + 1 <= m ->
  put_label strdup start label (st c m t) =
    Done (inr (st (c ++ (Some <$> Zbyte (zlen label) :: label)) (m - 1 - zlen label) (table_add t start (zlen c)))).
Proof.
  intros Hl Hm. pose proof (zlen_nonneg label). pose proof (zlen_nonneg c).
  unfold put_label. rewrite room_len by lia. cbn [w_pos w_buf w_table st].
  rewrite (proj2 (Z.ltb_ge 63 _)), (proj2 (Z.ltb_ge _ _)) by lia.
  rewrite put_end by (rewrite ?zlen_cons, ?(zlen_nil byte); lia). cbn [mbind outcome_bind].
  replace (zlen c + 1) with (zlen (c ++ (Some <$> [Zbyte (zlen label)]))) by (rewrite zlen_app, zlen_fmap; done).
  rewrite put_end by (rewrite ?zlen_cons, ?(zlen_nil byte); lia). cbn [mbind outcome_bind].
  assert ((c ++ (Some <$> [Zbyte (zlen label)])) ++ (Some <$> label) = c ++ (Some <$> Zbyte (zlen label) :: label)) as ->
    by (by rewrite <- app_assoc).
  change (zlen [Zbyte (zlen label)]) with 1. unfold st, table_add. do 3 f_equal.
  rewrite !zlen_app, !zlen_fmap, !zlen_cons, (zlen_nil byte). lia.
Qed.

Lemma end_labels_zero c m t : end_labels (st (c ++ [Some x00]) m t) = Done (zlen (c ++ [Some x00]), st (c ++ [Some x00]) m t).
Proof.
  pose proof (zlen_nonneg c). unfold end_labels. cbn [w_pos w_buf w_table st]. rewrite zlen_app, zlen_cons, zlen_nil.
  rewrite (proj2 (Z.eqb_neq _ _)) by lia.
  replace (zlen c + (1 + 0) - 1) with (zlen c) by lia.
  rewrite <- app_assoc. cbn [app].
  assert (memread (zlen c) 1 (c ++ Some x00 :: replicate (Z.to_nat m) None) = Done [Some x00]) as ->.
  { rewrite memread_done; [|lia..|rewrite zlen_app, zlen_cons; pose proof (zlen_nonneg (replicate (Z.to_nat m) (@None byte))); lia].
    f_equal. rewrite zsub_app_r by lia. rewrite Z.sub_diag. done. }
  cbn [mbind outcome_bind]. done.
Qed.

Lemma end_labels_more c b m t :
  b <> x00 -> 1 <= m ->
  end_labels (st (c ++ [Some b]) m t) = Done (zlen (c ++ [Some b]) + 1, st ((c ++ [Some b]) ++ [Some x00]) (m - 1) t).
Proof.
  intros Hb Hm. pose proof (zlen_nonneg c). unfold end_labels. cbn [w_pos w_buf w_table st].
  assert ((zlen (c ++ [Some b]) =? 0) = false) as ->.
  { apply Z.eqb_neq. rewrite zlen_app, zlen_cons, zlen_nil. lia. }
  assert (memread (zlen (c ++ [Some b]) - 1) 1 ((c ++ [Some b]) ++ replicate (Z.to_nat m) None) = Done [Some b]) as ->.
  { rewrite <- app_assoc. cbn [app]. rewrite zlen_app, zlen_cons, zlen_nil.
    replace (zlen c + (1 + 0) - 1) with (zlen c) by lia.
    rewrite memread_done; [|lia..|rewrite zlen_app, zlen_cons; pose proof (zlen_nonneg (replicate (Z.to_nat m) (@None byte))); lia].
    f_equal. rewrite zsub_app_r by lia. rewrite Z.sub_diag. done. }
  cbn [mbind outcome_bind]. rewrite bool_decide_eq_false_2 by congruence.
  rewrite put_end by (rewrite ?zlen_cons, ?(zlen_nil byte); lia). cbn [mbind outcome_bind].
  unfold st. cbn [w_table]. by rewrite (zlen_app (c ++ [Some b])).
Qed.

Lemma get_pos_in t name r : dnslabel_table_get_pos t name = r -> 0 <= r -> (name, r) ∈ t.
Proof.
  induction t as [|[v p] t IH]; cbn [dnslabel_table_get_pos]; intros H Hr; [lia|].
  case_bool_decide as E; [subst; by left|right; auto].
Qed.

(** An entry points to its name, which has fewer than [base] pointers. *)
Definition entry_ok (c : cells) (base : Z) (v : list byte) (p : Z) : Prop :=
  0 <= p < 2 ^ 14 /\ exists ls n e, enc c p ls n e /\ dotted ls = v /\ Forall label_ok ls /\ 0 <= n < base.

(** While a name is written: entries for longer names may be unfinished. *)
Definition entries_ok (c : cells) (base : Z) (name : list byte) (t : option dnslabel_table) : Prop :=
  forall v p, (v, p) ∈ default [] t -> zlen name < zlen v \/ entry_ok c base v p.

Lemma entries_add c c' base t start pos name :
  refines c c' -> zlen name < zlen start ->
  entries_ok c base start t -> entries_ok c' base name (table_add t start pos).
Proof.
  intros Hr Hlt Ht v p Hin. destruct t as [t|]; cbn in *; [|by apply elem_of_nil in Hin].
  assert ((v, p) ∈ t \/ v = start) as [Hv| ->]; [|..|by left].
  { unfold dnslabel_table_add in Hin. destruct (_ =? _); [auto|]. destruct (negb _); [auto|]. cbn in Hin.
    apply elem_of_app in Hin as [?|Hin]; [auto|]. apply list_elem_of_singleton in Hin. simplify_eq. auto. }
  destruct (Ht v p Hv) as [?|[Hp (ls & n & e & He & H)]]; [left; lia|]. right. split; [done|].
  exists ls, n, e. split; [by eapply enc_refines|done].
Qed.

(** The entries of [t'] that are not in [t] are for names from [pos] on. *)
Definition new_entries (c : cells) (base pos : Z) (t t' : option dnslabel_table) : Prop :=
  (t = None -> t' = None) /\
  forall v p, (v, p) ∈ default [] t' -> (v, p) ∈ default [] t \/
    (pos <= p < zlen c /\ exists ls n e, enc c p ls n e /\ dotted ls = v /\ Forall label_ok ls /\ 0 <= n <= base).

Lemma table_add_in t start pos v p :
  (v, p) ∈ default [] (table_add t start pos) -> (v, p) ∈ default [] t \/ (v = start /\ p = pos).
Proof.
  destruct t as [t|]; cbn; [|auto]. unfold dnslabel_table_add. destruct (_ =? _); [auto|]. destruct (negb _); [auto|].
  cbn. intros [?|Hin]%elem_of_app; [auto|]. apply list_elem_of_singleton in Hin. simplify_eq. auto.
Qed.

(** [new_entries] after the entry for the name itself. *)
Lemma new_entries_add (c c' : cells) base t t' start ls n e :
  new_entries c' base (zlen c) (table_add t start (zlen c)) t' ->
  zlen c < zlen c' -> enc c' (zlen c) ls n e -> dotted ls = start -> Forall label_ok ls -> 0 <= n <= base ->
  new_entries c' base (zlen c) t t'.
Proof.
  intros [Hnone Hnew] Hlt He Hd Hls Hn. split; [intros ->; by apply Hnone|].
  intros v p Hin. destruct (Hnew v p Hin) as [[?|[-> ->]]%table_add_in|?]; [auto| |auto].
  right. split; [lia|]. by exists ls, n, e.
Qed.

Lemma new_entries_later (c : cells) base pos pos' t t' : pos <= pos' -> new_entries c base pos' t t' -> new_entries c base pos t t'.
Proof. intros Hle [Hn H]. split; [done|]. intros v p Hin. destruct (H v p Hin) as [?|[? ?]]; [auto|]. right. split; [lia|done]. Qed.

Lemma new_entries_refl c base pos t : new_entries c base pos t t.
Proof. split; auto. Qed.

Lemma label_last (l : list byte) : l <> [] -> exists k b, l = k ++ [b].
Proof. destruct l using rev_ind; [done|eauto]. Qed.

(** The last label and the zero. *)
Lemma last_label l c m t base :
  (DOT ∉ l) -> (x00 ∉ l) -> zlen l <= 63 -> 0 <= base -> zlen l + 2 <= m ->
  exists k t', (r ← put_label strdup l l (st c m t); match r with inl e => Done (e, st c m t) | inr s => end_labels s end) =
      Done (zlen (c ++ (Some <$> k)), st (c ++ (Some <$> k)) (m - zlen k) t') /\
    0 < zlen k <= zlen l + 2 /\
    enc (c ++ (Some <$> k)) (zlen c) (if decide (l = []) then [] else [l]) 0 (zlen (c ++ (Some <$> k))) /\
    t' = table_add t l (zlen c).
Proof.
  intros Hdot Hnul Hl Hb Hm. pose proof (zlen_nonneg l). pose proof (zlen_nonneg c).
  rewrite put_label_room by lia. cbn [mbind outcome_bind].
  destruct (decide (l = [])) as [->|Hne].
  - exists [x00], (table_add t [] (zlen c)). change (Some <$> Zbyte (zlen []) :: []) with [Some x00].
    change (Some <$> [x00]) with [Some x00]. rewrite end_labels_zero.
    split; [f_equal; f_equal; unfold st; f_equal; f_equal; f_equal; change (zlen [x00]) with 1; rewrite (zlen_nil byte); lia|].
    change (zlen [x00]) with 1. rewrite (zlen_nil byte). split; [lia|]. split; [|done].
    rewrite zlen_app. change (zlen [Some x00]) with 1. constructor. apply (holds_last c [x00]).
  - destruct (label_last l Hne) as (k & b & ->).
    assert (b <> x00) as Hbn by (intros ->; apply Hnul; set_solver).
    exists ((Zbyte (zlen (k ++ [b])) :: k ++ [b]) ++ [x00]), (table_add t (k ++ [b]) (zlen c)).
    set (pre := c ++ (Some <$> Zbyte (zlen (k ++ [b])) :: k)).
    assert (c ++ (Some <$> Zbyte (zlen (k ++ [b])) :: k ++ [b]) = pre ++ [Some b]) as E1.
    { unfold pre. rewrite fmap_cons, fmap_app. cbn [app]. by rewrite <- app_assoc. }
    assert (c ++ (Some <$> (Zbyte (zlen (k ++ [b])) :: k ++ [b]) ++ [x00]) = (pre ++ [Some b]) ++ [Some x00]) as E2.
    { by rewrite fmap_app, app_assoc, E1. }
    rewrite E2. rewrite E1 at 1. rewrite end_labels_more by (done || lia).
    split.
    { rewrite (zlen_app (pre ++ [Some b])). change (zlen [Some x00]) with 1. do 2 f_equal.
      unfold st. do 3 f_equal. autorewrite with zl. lia. }
    split; [autorewrite with zl; pose proof (zlen_nonneg k); lia|]. split; [|done].
    rewrite <- E2. assert (1 <= zlen (k ++ [b]) <= 63) as Hr.
    { split; [|done]. rewrite zlen_app, zlen_cons, (zlen_nil byte). pose proof (zlen_nonneg k). lia. }
    assert (Hh : holds (c ++ (Some <$> (Zbyte (zlen (k ++ [b])) :: k ++ [b]) ++ [x00])) (zlen c)
                   ((Zbyte (zlen (k ++ [b])) :: k ++ [b]) ++ [x00])) by apply holds_last.
    apply holds_app in Hh as [Hh1 Hh2]. rewrite zlen_cons in Hh2.
    constructor; [done|done|].
    assert (zlen (c ++ (Some <$> (Zbyte (zlen (k ++ [b])) :: k ++ [b]) ++ [x00])) = zlen c + 1 + zlen (k ++ [b]) + 1) as ->.
    { rewrite zlen_app, zlen_fmap. autorewrite with zl. lia. }
    constructor. by replace (zlen c + 1 + zlen (k ++ [b])) with (zlen c + (1 + zlen (k ++ [b]))) by lia.
Qed.

Lemma refines_more (c : cells) l : refines c (c ++ (Some <$> l)).
Proof. apply refines_app. Qed.

Definition found (t : option dnslabel_table) (name : list byte) : Z :=
  match t with Some t => dnslabel_table_get_pos t name | None => -1 end.

(** What a loop from [c] gives for a name. *)
Definition wrote (r : outcome (Z * wstate)) (c : cells) (m : Z) (t : option dnslabel_table) (base : Z) (name : list byte) : Prop :=
  exists l t' ls n,
    r = Done (zlen (c ++ (Some <$> l)), st (c ++ (Some <$> l)) (m - zlen l) t') /\
    0 < zlen l <= zlen name + 2 /\
    enc (c ++ (Some <$> l)) (zlen c) ls n (zlen (c ++ (Some <$> l))) /\ dotted ls = name /\ Forall label_ok ls /\
    0 <= n <= base /\ new_entries (c ++ (Some <$> l)) base (zlen c) t t'.

Lemma wrote_pointer name c m t base :
  0 <= found t name -> 2 <= m -> entries_ok c base name t ->
  wrote ('(r, s) ← APPEND16 (Z.lor (found t name) 0xc000) (st c m t);
         Done (match r with Some _ => w_pos s | None => -2 end, s)) c m t base name.
Proof.
  intros Hf Hm Ht. destruct t as [t|]; [|cbn in Hf; lia]. cbn [found] in *.
  destruct (Ht _ _ (get_pos_in t name _ eq_refl Hf)) as [?|[Hp (ls & n & e & He & Hd & Hok & Hn)]]; [lia|].
  set (p := dnslabel_table_get_pos t name) in *.
  exists (be16 (Z.lor p 0xc000)), (Some t), ls, (n + 1).
  unfold APPEND16. rewrite APPEND_room by done. cbn [mbind outcome_bind w_pos st].
  pose proof (zlen_nonneg name). change (zlen (be16 _)) with 2. split; [done|]. split; [lia|]. split.
  - rewrite zlen_app, zlen_fmap. change (zlen (be16 _)) with 2.
    econstructor; [exact Hp|apply holds_last|]. eapply enc_refines; [apply refines_app|done].
  - split_and!; [done|done|lia|lia|apply new_entries_refl].
Qed.

Lemma found_None t name : t = None -> found t name = -1.
Proof. by intros ->. Qed.

Lemma label_name_ok l : label_ok l -> (DOT ∉ l) /\ (x00 ∉ l) /\ zlen l <= 63 /\ l <> [].
Proof. intros (? & ? & ?). split_and!; [done..|lia|]. intros ->. rewrite (zlen_nil byte) in *. lia. Qed.

Lemma wrote_last ls l fuel c m t base :
  Forall label_ok ls -> ls = (if decide (l = []) then [] else [l]) -> dotted ls = l ->
  (DOT ∉ l) -> (x00 ∉ l) -> zlen l <= 63 -> 0 <= base -> zlen l + 2 <= m -> entries_ok c base l t ->
  wrote (labels_loop strdup (S fuel) l (st c m t)) c m t base l.
Proof.
  intros Hok Hls Hd Hdot Hnul Hl Hb Hm Ht. cbn [labels_loop]. cbn [w_table st]. fold (found t l).
  destruct (0 <=? found t l) eqn:Ef; zb; [apply wrote_pointer; [lia| |done]; pose proof (zlen_nonneg l); lia|].
  rewrite (proj2 (strchr_None DOT l)) by done.
  destruct (last_label l c m t base Hdot Hnul Hl Hb Hm) as (k & t' & E & Hk & He & ->).
  exists k, (table_add t l (zlen c)), ls, 0. rewrite <- Hls in He.
  split; [exact E|]. split_and!; [lia..|done|done|done|lia|done|].
  eapply new_entries_add; [apply new_entries_refl| |exact He|done|done|lia].
  rewrite zlen_app, zlen_fmap. lia.
Qed.

Lemma labels_loop_ok ls fuel c m t base :
  Forall label_ok ls -> 0 <= base <= zlen c -> zlen c + m <= 2 ^ 14 -> zlen (dotted ls) + 2 <= m ->
  (length ls <= S fuel)%nat -> entries_ok c base (dotted ls) t ->
  wrote (labels_loop strdup (S fuel) (dotted ls) (st c m t)) c m t base (dotted ls).
Proof.
  revert fuel c m t. induction ls as [|l ls IH]; intros fuel c m t Hls Hbase Hcm Hm Hfuel Ht.
  { apply (wrote_last [] []); try done; [set_solver..|lia]. }
  pose proof Hls as [Hl Hls']%Forall_cons. apply label_name_ok in Hl as (Hdot & Hnul & Hlen & Hne).
  destruct ls as [|l2 ls].
  { apply (wrote_last [l] l); try done; [by rewrite decide_False|lia]. }
  rewrite dotted_cons in * by done. set (rest := dotted (l2 :: ls)) in *. set (name := l ++ DOT :: rest) in *.
  assert (zlen name = zlen l + 1 + zlen rest) as Hname by (unfold name; rewrite zlen_app, zlen_cons; lia).
  pose proof (zlen_nonneg l). pose proof (zlen_nonneg rest). pose proof (zlen_nonneg c).
  destruct fuel as [|fuel]; [cbn in Hfuel; lia|].
  remember (S fuel) as f eqn:Hf. cbn [labels_loop]. cbn [w_table st]. fold (found t name).
  destruct (0 <=? found t name) eqn:Ef; zb; [apply wrote_pointer; [lia..|done]|].
  unfold name at 1. rewrite strchr_app by done. rewrite put_label_room by lia. cbn [mbind outcome_bind].
  subst f. set (x := Zbyte (zlen l) :: l). assert (zlen x = 1 + zlen l) as Hx by (unfold x; by rewrite zlen_cons).
  assert (zlen (c ++ (Some <$> x)) = zlen c + 1 + zlen l) as Hc by (rewrite zlen_app, zlen_fmap; lia).
  destruct (IH fuel (c ++ (Some <$> x)) (m - 1 - zlen l) (table_add t name (zlen c))) as
    (k & t' & ls' & n & E & Hk & He & Hd & Hok & Hn & Hnew); [done|lia|lia|fold rest; lia|cbn in *; lia| |].
  { apply (entries_add c _ base t name); [apply refines_app|fold rest; lia|done]. }
  fold rest in E, Hk, Hd. rewrite <- app_assoc, <- fmap_app in E, He, Hnew. rewrite Hc in He.
  assert (enc (c ++ (Some <$> x ++ k)) (zlen c) (l :: ls') n (zlen (c ++ (Some <$> x ++ k)))) as Henc.
  { constructor; [|rewrite fmap_app; apply holds_end|exact He].
    apply Forall_cons in Hls as [(_ & _ & ?) _]. done. }
  assert (dotted (l :: ls') = name) as Hdn.
  { rewrite dotted_cons; [by rewrite Hd|]. intros ->. pose proof (dotted_length _ Hls') as Hz.
    fold rest in Hz. rewrite <- Hd in Hz. cbn [dotted length] in Hz. rewrite (zlen_nil byte) in Hz. lia. }
  assert (Forall label_ok (l :: ls')) as Hokn by (constructor; [by apply Forall_cons in Hls as [? _]|done]).
  exists (x ++ k), t', (l :: ls'), n. split; [|split; [|split; [done|split_and!; [done|done|lia|lia|]]]].
  - rewrite E. do 3 f_equal. rewrite zlen_app. lia.
  - rewrite zlen_app. lia.
  - eapply new_entries_add; [eapply new_entries_later; [|exact Hnew]; lia| |exact Henc|done|done|lia].
    rewrite zlen_app, zlen_fmap, zlen_app. lia.
Qed.

(** The table points to names that are there. *)
Definition table_ok (c : cells) (t : option dnslabel_table) : Prop :=
  forall v p, (v, p) ∈ default [] t -> 0 <= p < zlen c /\ exists e, readable c p v e.

Lemma table_ok_refines c c' t : refines c c' -> zlen c <= zlen c' -> table_ok c t -> table_ok c' t.
Proof.
  intros Hr Hle Ht v p Hin. destruct (Ht v p Hin) as [? [e He]]. split; [lia|]. exists e. by eapply readable_refines.
Qed.

(** Names that can be written: labels of 1 to 63 bytes, 255 bytes in all. *)
Definition name_ok (name : list byte) : Prop :=
  zlen name <= 255 /\ exists ls, Forall label_ok ls /\ dotted ls = name.

Lemma dnsname_ok name c m t :
  name_ok name -> zlen c + m <= 2 ^ 14 -> zlen name + 2 <= m -> table_ok c t ->
  exists l t',
    dnsname_to_labels strdup name (st c m t) = Done (zlen (c ++ (Some <$> l)), st (c ++ (Some <$> l)) (m - zlen l) t') /\
    0 < zlen l <= zlen name + 2 /\
    readable (c ++ (Some <$> l)) (zlen c) name (zlen (c ++ (Some <$> l))) /\
    table_ok (c ++ (Some <$> l)) t' /\ (t = None -> t' = None).
Proof.
  intros (Hlen & ls & Hls & <-) Hcm Hm Ht. pose proof (zlen_nonneg c). pose proof (zlen_nonneg (dotted ls)).
  unfold dnsname_to_labels. rewrite (proj2 (Z.ltb_ge 255 _)) by lia.
  pose proof (dotted_length ls Hls).
  destruct (labels_loop_ok ls (length (dotted ls)) c m t (zlen c)) as (l & t' & ls' & n & E & Hl & He & Hd & Hok & Hn & Hnone & Hnew);
    [done|lia|lia|lia|unfold zlen in *; lia| |].
  { intros v p Hin. right. destruct (Ht v p Hin) as (Hp & e & ls' & n & He & Hd & Hok & Hn).
    split; [lia|]. exists ls', n, e. split_and!; try done; lia. }
  exists l, t'. split; [done|]. split; [lia|]. split; [by exists ls', n|]. split; [|done].
  intros v p Hin. destruct (Hnew v p Hin) as [Hold|(Hp & ls2 & n2 & e & He2 & Hd2 & Hok2 & Hn2)].
  - apply (table_ok_refines c (c ++ (Some <$> l)) t); [apply refines_app|rewrite zlen_app, zlen_fmap; lia|done|done].
  - split; [lia|]. exists e, ls2, n2. split_and!; try done; lia.
Qed.

(** The names one after the other, with the positions they begin at. *)
Fixpoint write_names (names : list (list byte)) : writer (list Z) :=
  match names with
  | [] => mret []
  | name :: names =>
      j ← w_position; _ ← item_name strdup name; js ← write_names names; mret (j :: js)
  end.

Definition names_size (names : list (list byte)) : Z := fold_right (fun name n => zlen name + 2 + n) 0 names.

Lemma item_name_room name c m t :
  name_ok name -> zlen c + m <= 2 ^ 14 -> zlen name + 2 <= m -> table_ok c t ->
  exists l t',
    item_name strdup name (st c m t) = Done (Some tt, st (c ++ (Some <$> l)) (m - zlen l) t') /\
    0 < zlen l <= zlen name + 2 /\ readable (c ++ (Some <$> l)) (zlen c) name (zlen (c ++ (Some <$> l))) /\
    table_ok (c ++ (Some <$> l)) t'.
Proof.
  intros Hn Hcm Hm Ht. destruct (dnsname_ok name c m t Hn Hcm Hm Ht) as (l & t' & E & Hl & Hr & Ht' & _).
  exists l, t'. unfold item_name. rewrite E. cbn [mbind outcome_bind].
  rewrite (proj2 (Z.ltb_ge _ 0)) by apply zlen_nonneg. done.
Qed.

Lemma write_names_ok names c m t :
  Forall name_ok names -> zlen c + m <= 2 ^ 14 -> names_size names <= m -> table_ok c t ->
  exists l t' js,
    write_names names (st c m t) = Done (Some js, st (c ++ (Some <$> l)) (m - zlen l) t') /\ zlen l <= names_size names /\
    Forall2 (fun j name => zlen name < 256 /\ exists e, readable (c ++ (Some <$> l)) j name e) js names.
Proof.
  revert c m t. induction names as [|name names IH]; intros c m t Hn Hcm Hm Ht; cbn [write_names].
  { exists [], t, []. cbn [fmap list_fmap]. rewrite app_nil_r, (zlen_nil byte), Z.sub_0_r. split; [done|]. split; [done|constructor]. }
  apply Forall_cons in Hn as [Hname Hn]. cbn [names_size fold_right] in *. fold (names_size names) in *.
  assert (0 <= names_size names) as Hpos.
  { clear. induction names as [|k ks IH]; [done|]. cbn [names_size fold_right]. fold (names_size ks).
    pose proof (zlen_nonneg k). lia. }
  destruct (item_name_room name c m t Hname Hcm ltac:(lia) Ht) as (l & t1 & E & Hl & Hr & Ht1).
  unfold mbind at 1. unfold writer_bind at 1, w_position. cbn [w_pos st]. fold (st c m t).
  unfold mbind at 1. unfold writer_bind at 1. rewrite E.
  destruct (IH (c ++ (Some <$> l)) (m - zlen l) t1 Hn) as (k & t' & js & E2 & Hk & Hjs);
    [rewrite zlen_app, zlen_fmap; lia|lia|done|].
  unfold mbind, writer_bind. rewrite E2. rewrite <- app_assoc, <- fmap_app in *.
  exists (l ++ k), t', (zlen c :: js). rewrite zlen_app. split; [by rewrite Z.sub_add_distr|]. split; [lia|].
  constructor; [|done]. split; [destruct Hname; lia|]. exists (zlen (c ++ (Some <$> l))). eapply readable_refines; [|exact Hr].
  rewrite fmap_app, app_assoc. apply refines_app.
Qed.

(** C26: names that are written one after the other behind any bytes, each label
    compressed with those before it, are read back from the finished packet,
    each at its own position. *)
Theorem dns_names_round_trip (pre : list byte) (names : list (list byte)) (len : Z) :
  Forall name_ok names -> zlen pre + names_size names <= len <= 2 ^ 14 ->
  exists s js packet,
    write_names names (mkW ((Some <$> pre) ++ replicate (Z.to_nat (len - zlen pre)) None) (zlen pre) (Some [])) =
      Done (Some js, s) /\
    ztake (w_pos s) (w_buf s) = Some <$> packet /\
    Forall2 (fun j name => exists e, name_parse packet j 256 = Done (Some (e, name))) js names.
Proof.
  intros Hn Hlen. destruct (write_names_ok names (Some <$> pre) (len - zlen pre) (Some [])) as (l & t & js & E & Hl & Hjs).
  - done.
  - rewrite zlen_fmap. lia.
  - lia.
  - intros v p Hin. by apply elem_of_nil in Hin.
  - unfold st at 1 in E. rewrite zlen_fmap in E. rewrite <- fmap_app in *.
    eexists _, js, (pre ++ l). split; [exact E|]. cbn [w_pos w_buf st]. split.
    + rewrite ztake_app_ge, Z.sub_diag, ztake_nonpos by lia. apply app_nil_r.
    + eapply Forall2_impl; [exact Hjs|]. intros j name [Hz [e He]]. exists e.
      eapply readable_parse; [apply agree_self|exact He|exact Hz].
Qed.

End Write.

(** *** An example: the second and the third name are compressed *)

Definition dns_example : list (list byte) := [bytes_of "www.example.com"; bytes_of "mail.example.com"; bytes_of "example.com"].

Definition name_okb (ls : list (list byte)) : bool :=
  (zlen (dotted ls) <=? 255) &&
  forallb (fun l => bool_decide (DOT ∉ l) && bool_decide (x00 ∉ l) && (1 <=? zlen l) && (zlen l <=? 63)) ls.

Lemma name_okb_ok ls : name_okb ls = true -> name_ok (dotted ls).
Proof.
  unfold name_okb. rewrite andb_true_iff, Z.leb_le, forallb_forall. intros [Hz H]. split; [done|]. exists ls. split; [|done].
  apply List.Forall_forall. intros l Hl%H. rewrite !andb_true_iff, !bool_decide_eq_true, !Z.leb_le in Hl. unfold label_ok. tauto.
Qed.

Example dns_names_round_trip_witness :
  exists s js packet,
    write_names (fun _ _ => true) dns_example
      (mkW ((Some <$> repeat x00 12) ++ replicate (Z.to_nat (512 - zlen (repeat x00 12))) None) (zlen (repeat x00 12)) (Some [])) =
      Done (Some js, s) /\
    ztake (w_pos s) (w_buf s) = Some <$> packet /\
    Forall2 (fun j name => exists e, name_parse packet j 256 = Done (Some (e, name))) js dns_example.
Proof.
  apply (dns_names_round_trip (fun _ _ => true) (repeat x00 12) dns_example 512).
  - apply List.Forall_cons; [|apply List.Forall_cons; [|apply List.Forall_cons; [|apply List.Forall_nil]]].
    + apply (name_okb_ok [bytes_of "www"; bytes_of "example"; bytes_of "com"]). vm_compute. reflexivity.
    + apply (name_okb_ok [bytes_of "mail"; bytes_of "example"; bytes_of "com"]). vm_compute. reflexivity.
    + apply (name_okb_ok [bytes_of "example"; bytes_of "com"]). vm_compute. reflexivity.
  - vm_compute. split; congruence.
Defined.

(** ** What is not checked *)

(** The zero behind the labels is written without asking for room: a name that
    just fits with its last label is ended past the buffer. *)
Theorem zero_written_past_buffer :
  dnsname_to_labels (fun _ _ => true) (bytes_of "abc") (mkW (replicate 4 None) 0 None) = Crash /\
  exists s, dnsname_to_labels (fun _ _ => true) (bytes_of "abc") (mkW (replicate 5 None) 0 None) = Done (5, s).
Proof. split; [|eexists]; vm_compute; reflexivity. Qed.

(** An empty label is written, and ends the name for the reader. *)
Theorem empty_label_cuts_name :
  exists s, dnsname_to_labels (fun _ _ => true) (bytes_of "a..b") (mkW (replicate 8 None) 0 None) = Done (6, s) /\
    ztake 6 (w_buf s) = Some <$> [x01; "a"%byte; x00; x01; "b"%byte; x00] /\
    name_parse [x01; "a"%byte; x00; x01; "b"%byte; x00] 0 256 = Done (Some (3, bytes_of "a")).
Proof. eexists. split; [vm_compute; reflexivity|]. split; vm_compute; reflexivity. Qed.
